(* ===== verification/_CoqProject ===== *)
-Q . S2P
Prelude.v
IntMath.v
EventQueue.v
EventLoop.v
ClockDomain.v
DVFS.v
AddrRange.v
Request.v
MemCmd.v
Packet.v
Functional.v
AbstractMemory.v
AtomicPort.v
SimpleMemory.v
Bridge.v
PacketQueue.v
CachePort.v
XBar.v
SnoopFilter.v
Blk.v
FALRU.v
CacheSet.v
BaseSetAssoc.v
LRU.v
RandomRepl.v
Direction_Predictor.v
Pattern_Table.v
LDSPrefetcher.v
BasePrefetcher.v
QueuedPrefetcher.v
TaggedPrefetcher.v
StridePrefetcher.v
MSHR.v
MSHRQueue.v
Cache.v
CacheIssue.v
CacheAtomic.v
CacheSnoop.v
CacheFunctional.v
CacheTiming.v
CacheConserve.v
CoherentXBar.v
CoherentCache.v
Coherence.v
FunctionalCoherence.v
CoherentSystem.v
SatCounter.v
DirPred.v
LocalBP.v
ReturnAddrStack.v
DefaultBTB.v
BiModeBP.v
TournamentBP.v
BPredUnit.v
