(* ===== verification/Prelude.v ===== *)
(** * A verification of the LDS prefetcher and of the gem5 components around it

    The repository has two parts. The files at the top of src/ are the author's
    prefetcher for linked data structures (a pattern table, a direction
    predictor, a target register bitmap, and the object that owns them). The
    directory src/gem5_src is the simulator it is meant for. The development
    models the prefetcher, and the parts of the simulator a prefetcher lives
    among: the event queue and the clocks that drive everything, packets, the
    classic cache with its tags, miss buffers, ports and prefetchers, the
    crossbar and the bridge that connect caches, the memory below, and the branch
    prediction unit next to which the bitmap is checkpointed.

    ** How the code is modelled

    A C++ function is a Rocq function of the same name on records that have the
    fields of the object. A function that can stop the simulator, by [assert],
    [fatal] or [panic] or by an access outside an array, returns an [outcome],
    so that every failing path is a value [Fail e]; the notation
    [x ← e; k] sequences them. Machine integers are [Z], wrapped by [u32], [u64]
    and the like where the code can wrap. Pointers are indices: a block is an
    index into the array of the tag store, an MSHR an index into the heap of all
    MSHRs (the [downstreamPending] marks follow pointers between caches), a port
    its number, a request in the routing tables its address. Statistics are
    counters of the state where the code keeps them. In the components an event
    is the tick it is scheduled for, [None] when it is not; the queue that orders
    the events of all components is modelled by itself, with the event objects
    and their links in a heap.

    What a component reads from its surroundings is an argument: the current
    tick and the clock (the record [Env]), random draws, floating-point
    durations, the answers of a peer. Virtual methods and ports are type
    classes: a client is proved against the class and its laws, and the
    implementations are instances.

    - [CacheView] (BasePrefetcher.v): what a prefetcher asks its cache; the cache
      of Cache.v is an instance.
    - [Generator], [GeneratorOk] (QueuedPrefetcher.v): [calculatePrefetch], with
      the tagged and the stride prefetcher as instances.
    - [AtomicPort], [AtomicPortOk], [SnoopedPortOk] (AtomicPort.v): the atomic
      port of an object that serves a range of addresses; the simple memory is an
      instance. The crossbar has such a port for every object above it.
    - [FunctionalPort], [FunctionalPortOk] (AtomicPort.v): the functional
      interface of the same objects; the memory and the bridge are instances.
    - [Handlers] (EventQueue.v): what the events do when they are processed.
    - [SnoopPort] (CacheSnoop.v), [TimingPort] (CacheTiming.v): the objects
      above, which are snooped, and the object below in timing mode; a cache is a
      [SnoopPort], so caches stack.
    - [DirPred], [DirPredOk] (DirPred.v): the direction predictors of the branch
      prediction unit, with the local, bi-mode and tournament predictors as
      instances; [ISA] (BPredUnit.v): what the unit asks of the instruction set.

    ** The files

    Shared ground.
    - Prelude.v: outcomes, arrays, record update, machine words, event
      scheduling (sim/eventq_impl.hh), lists, tactics and hints.
    - IntMath.v: base/intmath.hh and base/bitfield.hh.
    - AddrRange.v: base/addr_range.hh and base/addr_range_map.hh.

    Simulation kernel (sim).
    - EventQueue.v: eventq.hh, eventq.cc and eventq_impl.hh, the loop of
      simulate.cc, and of serialize.cc the creation of events from a checkpoint;
      EventLoop.v: what the loop guarantees, and what a checkpoint brings back.
    - ClockDomain.v: clocked_object.hh, clock_domain.cc, voltage_domain.cc and
      dvfs_handler.cc; DVFS.v: these as one system.

    Messages.
    - Request.v, MemCmd.v, Packet.v: mem/request.hh, mem/packet.hh and
      mem/packet.cc, with the attribute table of the commands.
    - Functional.v: [Packet::checkFunctional].

    Memory.
    - AbstractMemory.v, SimpleMemory.v: mem/abstract_mem.cc and
      mem/simple_mem.cc; AtomicPort.v: the interface of mem/port.hh.

    Ports and interconnect.
    - Bridge.v: mem/bridge.cc; PacketQueue.v: mem/packet_queue.cc; CachePort.v: the CPU-side port of a
      cache in mem/cache/base.cc.
    - XBar.v: mem/xbar.cc, Module [XBar] for routing and Module [Layer] for
      arbitration; SnoopFilter.v: mem/snoop_filter.cc; CoherentXBar.v:
      mem/coherent_xbar.cc.

    Caches (mem/cache).
    - Blk.v, CacheSet.v, BaseSetAssoc.v, LRU.v, RandomRepl.v, FALRU.v: blocks,
      sets and tag stores (blk.hh and the directory tags).
    - MSHR.v, MSHRQueue.v: mshr.cc and mshr_queue.cc.
    - Cache.v: lookup, service, allocation, fill and write-back of blocks
      (cache_impl.hh); CacheIssue.v: the buffers of base.hh and the choice of the
      next miss; CacheAtomic.v, CacheSnoop.v and CacheTiming.v: the atomic mode,
      the snoops and the timing mode; CacheFunctional.v: functional accesses and
      the write-back and invalidation of the whole cache.
    - CacheConserve.v: the accounting of requests in timing mode.
    - CoherentCache.v, Coherence.v: several caches above one crossbar;
      FunctionalCoherence.v: functional accesses to them; CoherentSystem.v: all
      operations together, with the theorems about the whole.

    Prefetchers.
    - BasePrefetcher.v, QueuedPrefetcher.v, TaggedPrefetcher.v,
      StridePrefetcher.v: mem/cache/prefetch.
    - Direction_Predictor.v, Pattern_Table.v, LDSPrefetcher.v: the files at the
      top of src/. These are drafts that do not compile; each file says how it
      reads the places that are prose or name something undeclared.

    Branch prediction (cpu/pred).
    - SatCounter.v, DirPred.v, LocalBP.v, BiModeBP.v, TournamentBP.v,
      ReturnAddrStack.v, DefaultBTB.v, BPredUnit.v.

    ** What is proved

    Simulation. The linked bins of the event queue are a list ordered by tick and
    priority under every operation ([event_queue_refines_ordered_list]); time does
    not run backwards ([simulation_time_safe]) and a simulation with a limit ends
    ([simulation_ends]). An object counts the cycles of its clock
    ([clock_counts_cycles]), and requests for another frequency reach clocks,
    derived clocks and voltages as specified ([dvfs_follows_requests]).

    Coherence. A cache in atomic mode above a memory answers every sequence of
    reads and writes as that memory would ([atomic_cache_is_memory]); and so do
    several caches above a coherent crossbar (any number of them, or at most 64
    with a snoop filter), under atomic and functional accesses, write-backs and invalidations
    of whole caches, with at most one writer and one owner of a line at the end
    ([coherent_caches_are_memory]); once all caches are written back the memory
    itself is current ([flushed_memory_is_current]). The proof composes the cache, its snoops, the
    crossbar, the filter, the routing map and the memory; in particular no
    assertion or panic of these files is reached. The filter is only right for
    addresses below 4 GiB, which these theorems assume when there is one;
    [filter_forgets_aliased_holder] shows what happens above. They also assume
    that the address ranges of the crossbar are plain and disjoint and that one
    port leads to all of the memory.

    Timing. For every order of the events of a timing cache the requests accepted
    are accounted for one by one ([no_request_lost]), and the loop that serves
    the targets of an MSHR ends ([serve_targets_terminates]). Nobody waits for
    ever at a port: the arbiter of the crossbar ([layer_strands_nobody]), the
    CPU-side port ([refused_request_gets_retry]), the packet queue
    ([packet_queue_delivers_sorted]), the bridge, which moreover loses and
    reorders nothing ([bridge_conserves]), and the memory
    ([timing_memory_serves_in_order]). A crossbar routes a request by its
    address, also when the objects below report other ranges
    ([crossbar_routes]), and its response by its request
    ([responses_return_to_requester]).

    Data structures. The LRU tags refine a list in order of use, the fully
    associative tags do so for caches of all tracked sizes at once
    ([falru_is_lru_of_every_size]), MSHRs and their
    queue keep their invariants (flags summarise the targets, the lists partition
    the registers), what arrives at an MSHR after an invalidating snoop stays
    behind it ([snoop_defers_later_targets]), dirty data is not
    dropped, reservations decide store-conditionals, address ranges partition
    the addresses, the memory is a flat array of bytes.

    Prefetchers. The prefetch queue has no duplicates and respects its bound; a
    prefetch goes out only when nothing else is waiting and the line is not
    there; the stride prefetcher learns a stride after bounded training and then
    prefetches exactly the next addresses of the page ([stride_stream_learnt],
    for a stream that keeps its place in the table). For the draft at the top
    of src/, [two_entry_mode_bounds] and [pattern_table_never_prefetches] state
    what the code as written does.

    Branch prediction. The unit keeps its invariants and fails no assertion
    (returns predicted in order need a stack of at most 16 entries),
    squashing restores the stack, the stack is a bounded stack, the target buffer
    answers with the latest update, the local predictor counts outcomes, squashed
    speculation is undone.

    Defects. Some theorems state what the code does where this cannot be what is
    meant: [filter_forgets_aliased_holder], [functional_read_partial],
    [falru_filled_block_aborts] (the empty [insertBlock] of the fully associative
    tags), [restored_queue_schedules_nothing] (restoring an event queue schedules
    none of the saved events), [restored_level_keeps_old_period], and in the files of the components [debug_verify_false_alarm],
    [functional_read_takes_queued_response], [bpred_btb_miss_trains_taken],
    [bpred_repaired_return_clobbers_stack] and
    [bimode_narrow_counters_never_taken].

    ** Bounds and fuel

    Recursion follows the data wherever the loop does. Where it does not, the
    function takes fuel: [isPrime] and [prevPrime], for the first of which
    [isPrime_correct] shows that it ends; the two loops of a cache set, which end
    within the associativity; the loops of the pattern table, which get the size
    of the table; [clearDownstreamPending], which follows the acyclic chain of
    MSHRs and whose fuel is the number of MSHRs
    ([clearDownstreamPending_terminates]); [serve_targets], bounded by
    the number of targets ([serve_targets_terminates]); the walks through the
    links of the event queue, whose fuel is the number of event objects (a longer
    walk would be in a cycle, and the refinement theorem shows there is none); and
    the simulation loop, for which [simulation_ends] shows that enough rounds exist.
    No theorem bounds the length of an execution, the number of caches, ports or
    MSHRs (but for the 64 ports of a snoop filter), or the geometry of a cache
    beyond what the constructors check; those
    about the fully associative tags are for caches of up to 1 GB, beyond which
    the integers of its consistency check overflow, and those about clocks for
    ticks below [2 ^ 62].

    ** Not modelled

    - Output: printing, tracing, probes and the registration of statistics.
    - The non-coherent crossbar (the coherent one without snoops), monitors, and
      the DRAM controllers (bank timing in floating point, or wrappers of external
      simulators).
    - Threads: the locks of the event queue and the barrier between several
      queues; one queue is modelled as one thread sees it, the asynchronous
      insertions of the others included.
    - Ruby, the CPU models, instruction sets and devices: the larger part of the
      simulator. Instruction semantics and the Ruby protocols are generated by
      the build from description files, and devices and system calls are input
      and output on the host.
    - Checkpoints, except those of the event queue and of the clock domains, and
      the Python configuration; their parameters are arguments of the
      constructors.
    - Garbage: except for events, whose deletion is modelled, memory is never
      reused, so a dangling pointer is not an error of the model. *)

From stdpp Require Export base numbers option list.
From stdpp Require Import fin_maps gmap.
Local Open Scope Z_scope.

(** * Outcomes of C++ code

    A C++ operation returns a value, or the simulator stops: an [assert]
    fails, [fatal] or [panic] is called, or the code reads or writes memory it
    does not own. *)

Inductive failure :=
  | AssertFailed
  | FatalError
  | PanicError
  | Undefined.

Inductive outcome (A : Type) :=
  | Ok (a : A)
  | Fail (e : failure).
Arguments Ok {_} _.
Arguments Fail {_} _.

#[export] Instance failure_eq_dec : EqDecision failure.
Proof. solve_decision. Defined.

#[export] Instance outcome_ret : MRet outcome := fun _ a => Ok a.
#[export] Instance outcome_bind : MBind outcome :=
  fun _ _ f m => match m with Ok a => f a | Fail e => Fail e end.

(** [ensure e b] is [if (!b) abort_with(e)]. *)
Definition ensure (e : failure) (b : bool) : outcome () :=
  if b then Ok () else Fail e.

Definition is_ok {A} (m : outcome A) : bool :=
  match m with Ok _ => true | Fail _ => false end.

(** [a >> n] on a 64-bit unsigned [a]: undefined for a shift of 64 or more. *)
Definition shr64 (a n : Z) : outcome Z :=
  if n <? 64 then Ok (Z.shiftr a n) else Fail Undefined.

(** [v[i]] on a C array or [std::vector] (unchecked). *)
Definition vget {A} (v : list A) (i : Z) : outcome A :=
  if i <? 0 then Fail Undefined
  else match v !! Z.to_nat i with
       | Some x => Ok x
       | None => Fail Undefined
       end.

(** [v[i] = x]. *)
Definition vset {A} (v : list A) (i : Z) (x : A) : outcome (list A) :=
  if i <? 0 then Fail Undefined
  else if (Z.to_nat i <? length v)%nat then Ok (<[Z.to_nat i := x]> v)
  else Fail Undefined.

(** [*p] and [p->f = ...] where pointers are indices into an array of
    objects. *)
Definition pget {A} (v : list A) (p : nat) : outcome A :=
  match v !! p with
  | Some x => Ok x
  | None => Fail Undefined
  end.

Definition pupd {A} (f : A -> A) (v : list A) (p : nat) : outcome (list A) :=
  x ← pget v p;
  Ok (<[p := f x]> v).

(** * Record update

    [r <| f := v |>] is [r.f = v]. A record declares its eta-expansion once as
    an [Eta] instance; the setter of each field is derived from it. *)

Class Eta (R : Type) := eta : R -> R.
Class FieldOf {R T : Type} (p : R -> T) := upd_field : (T -> T) -> R -> R.

Ltac derive_field p :=
  lazymatch type of p with
  | ?R -> _ =>
      let inst := constr:(_ : Eta R) in
      let e := eval cbv [eta] in inst in
      let e := (match e with
                | fun x => _ => e
                | _ => eval red in e
                end) in
      lazymatch (eval pattern p in e) with
      | ?h _ =>
          let t := eval cbv beta in (fun g (r : R) => h (fun r' => g (p r')) r) in
          exact t
      end
  end.

#[export] Hint Extern 0 (FieldOf ?p) => derive_field p : typeclass_instances.

#[global] Arguments upd_field {R T} p {FieldOf} / _ _.

Declare Scope gem5_scope.
Delimit Scope gem5_scope with gem5.
Notation "r <| p := v |>" := (upd_field p (fun _ => v) r)
  (at level 1, left associativity, p at level 9) : gem5_scope.
Notation "r <| p '::=' g |>" := (upd_field p g r)
  (at level 1, left associativity, p at level 9) : gem5_scope.
#[global] Open Scope gem5_scope.

(** * Machine integers

    A value of an unsigned w-bit C type is a [Z] in [0, 2^w). *)

Definition uwrap (w : Z) (z : Z) : Z := z mod 2 ^ w.
Abbreviation u8 := (uwrap 8).
Abbreviation u16 := (uwrap 16).
Abbreviation u32 := (uwrap 32).
Abbreviation u64 := (uwrap 64).

(** Conversion to [int] (two's complement, as every supported compiler). *)
Definition s32 (z : Z) : Z := (z + 2 ^ 31) mod 2 ^ 32 - 2 ^ 31.

(** [~x] at width [w]. *)
Definition unot (w x : Z) : Z := Z.ldiff (Z.ones w) x.

Definition in_width (w x : Z) : Prop := 0 <= x < 2 ^ w.

(** [bool] to integer. *)
Definition b2z (b : bool) : Z := if b then 1 else 0.

(** [if (x & m)]. *)
Definition any_set (x m : Z) : bool := negb (Z.land x m =? 0).

(** * Ticks and events

    An event object is the tick it is scheduled for, [None] when it is not
    scheduled. *)

Definition MaxTick : Z := 2 ^ 64 - 1.

(** [EventQueue::schedule] and [EventQueue::reschedule] with [always] set. *)
Definition schedule (curTick when : Z) (ev : option Z) : outcome (option Z) :=
  _ ← ensure AssertFailed (curTick <=? when);
  _ ← ensure AssertFailed (match ev with None => true | Some _ => false end);
  Ok (Some when).
Definition reschedule (curTick when : Z) : outcome (option Z) :=
  _ ← ensure AssertFailed (curTick <=? when);
  Ok (Some when).

(** * Automation *)

#[global] Arguments Z.eqb : simpl never.
#[global] Arguments Z.ltb : simpl never.
#[global] Arguments Z.leb : simpl never.
#[global] Arguments Z.gtb : simpl never.
#[global] Arguments Z.geb : simpl never.
#[global] Arguments Z.land : simpl never.
#[global] Arguments Z.lor : simpl never.
#[global] Arguments Z.lxor : simpl never.
#[global] Arguments Z.ldiff : simpl never.
#[global] Arguments Z.shiftl : simpl never.
#[global] Arguments Z.shiftr : simpl never.
#[global] Arguments Z.testbit : simpl never.
#[global] Arguments Z.to_nat : simpl never.
#[global] Arguments Nat.ltb : simpl never.

Create HintDb gem5 discriminated.

(** Take apart [bind] hypotheses of the outcome monad. *)
Lemma bind_ok {A B} (m : outcome A) (f : A -> outcome B) b :
  m ≫= f = Ok b <-> exists a, m = Ok a /\ f a = Ok b.
Proof. destruct m; simpl; naive_solver. Qed.

Lemma ensure_ok e b u : ensure e b = Ok u <-> b = true.
Proof. destruct b, u; simpl; naive_solver. Qed.

Ltac inv_ok :=
  repeat match goal with
  | H : Ok _ = Ok _ |- _ => injection H; clear H; intros; subst
  | H : Fail _ = Ok _ |- _ => discriminate H
  | H : Ok _ = Fail _ |- _ => discriminate H
  | H : (_ ≫= _) = Ok _ |- _ =>
      let a := fresh "a" in let E := fresh "E" in
      apply bind_ok in H as (a & E & H)
  | H : ensure _ _ = Ok _ |- _ => apply ensure_ok in H
  | H : mret _ = Ok _ |- _ => unfold mret, outcome_ret in H
  | u : unit |- _ => destruct u
  end.

(** Case split on the conditions of the goal's [if]s and [match]es. *)
Ltac split_ifs :=
  repeat match goal with
  | |- context [if ?b then _ else _] => destruct b eqn:?
  end.

(** * Arrays *)

Section arrays.
Context {A : Type}.
Implicit Types (v : list A) (x y : A) (i j : Z).

Lemma vget_ok v i x : vget v i = Ok x <-> 0 <= i /\ v !! Z.to_nat i = Some x.
Proof.
  unfold vget. destruct (Z.ltb_spec i 0).
  - split; [done | lia].
  - destruct (v !! Z.to_nat i); naive_solver.
Qed.

Lemma vget_lt v i : 0 <= i < Z.of_nat (length v) -> exists x, vget v i = Ok x.
Proof.
  intros Hi. destruct (lookup_lt_is_Some_2 v (Z.to_nat i)) as [x Hx]; [lia|].
  exists x. apply vget_ok. auto with lia.
Qed.

Lemma vset_ok v i x v' :
  vset v i x = Ok v' <->
  0 <= i < Z.of_nat (length v) /\ v' = <[Z.to_nat i := x]> v.
Proof.
  unfold vset. destruct (Z.ltb_spec i 0); [naive_solver lia|].
  destruct (Nat.ltb_spec (Z.to_nat i) (length v)); naive_solver lia.
Qed.

Lemma vset_lt v i x :
  0 <= i < Z.of_nat (length v) -> vset v i x = Ok (<[Z.to_nat i := x]> v).
Proof. intros. by apply vset_ok. Qed.

Lemma vget_vset v i x v' : vset v i x = Ok v' -> vget v' i = Ok x.
Proof.
  intros [Hi ->]%vset_ok. apply vget_ok. split; [lia|].
  apply list_lookup_insert_eq. lia.
Qed.

Lemma vget_vset_ne v i j x v' :
  vset v i x = Ok v' -> i <> j -> vget v' j = vget v j.
Proof.
  intros [Hi ->]%vset_ok Hij. unfold vget.
  destruct (Z.ltb_spec j 0); [done|].
  by rewrite list_lookup_insert_ne by lia.
Qed.

Lemma pget_ok v p x : pget v p = Ok x <-> v !! p = Some x.
Proof. unfold pget. destruct (v !! p); naive_solver. Qed.

Lemma pupd_ok f v p v' :
  pupd f v p = Ok v' <-> exists x, v !! p = Some x /\ v' = <[p := f x]> v.
Proof.
  unfold pupd. rewrite bind_ok. setoid_rewrite pget_ok. naive_solver.
Qed.

End arrays.

(** * Bits of machine integers *)

Lemma pow2_pos w : 0 <= w -> 0 < 2 ^ w.
Proof. intros. by apply Z.pow_pos_nonneg. Qed.
#[export] Hint Resolve pow2_pos : gem5.

Lemma shr64_ok a n : n < 64 -> shr64 a n = Ok (Z.shiftr a n).
Proof. intros H. unfold shr64. by rewrite (proj2 (Z.ltb_lt n 64)). Qed.

Lemma uwrap_range w z : 0 <= w -> in_width w (uwrap w z).
Proof. intros. apply Z.mod_pos_bound. by apply pow2_pos. Qed.

Lemma uwrap_small w z : in_width w z -> uwrap w z = z.
Proof. intros. by apply Z.mod_small. Qed.

Lemma s32_small z : - 2 ^ 31 <= z < 2 ^ 31 -> s32 z = z.
Proof. intros. unfold s32. rewrite Z.mod_small; lia. Qed.

Lemma s32_range z : - 2 ^ 31 <= s32 z < 2 ^ 31.
Proof. unfold s32. pose proof (Z.mod_pos_bound (z + 2 ^ 31) (2 ^ 32)). lia. Qed.

Lemma s32_cong z : s32 z mod 2 ^ 32 = z mod 2 ^ 32.
Proof.
  unfold s32. rewrite Zminus_mod_idemp_l. f_equal. lia.
Qed.

Lemma pow2_minus_1 k : 2 ^ k - 1 = Z.ones k.
Proof. by rewrite Z.ones_equiv, Z.sub_1_r. Qed.

Lemma land_mask x k : 0 <= k -> Z.land x (2 ^ k - 1) = x mod 2 ^ k.
Proof. intros. by rewrite pow2_minus_1, Z.land_ones. Qed.

Lemma in_width_testbit_high w x i :
  in_width w x -> w <= i -> Z.testbit x i = false.
Proof.
  intros [H0 H1] Hi. destruct (Z.eq_dec x 0) as [->|Hx]; [apply Z.bits_0|].
  apply Z.bits_above_log2; [done|].
  apply Z.lt_le_trans with w; [|done]. apply Z.log2_lt_pow2; lia.
Qed.

Lemma in_width_bits w x :
  0 <= w -> 0 <= x ->
  (forall i, w <= i -> Z.testbit x i = false) -> in_width w x.
Proof.
  intros Hw H0 Hb. split; [done|]. destruct (Z.eq_dec x 0) as [->|Hx].
  { by apply pow2_pos. }
  apply Z.log2_lt_pow2; [lia|]. destruct (Z.lt_ge_cases (Z.log2 x) w); [done|].
  exfalso. specialize (Hb (Z.log2 x)). rewrite Z.bit_log2 in Hb by lia. by apply Hb in H.
Qed.

Lemma in_width_mono w w' x : 0 <= w <= w' -> in_width w x -> in_width w' x.
Proof.
  intros ? [? ?]. split; [done|].
  apply Z.lt_le_trans with (2 ^ w); [done|]. apply Z.pow_le_mono_r; lia.
Qed.

Lemma land_in_width w x y : 0 <= w -> 0 <= x -> in_width w y -> in_width w (Z.land x y).
Proof.
  intros Hw Hx Hy. apply in_width_bits; [done| |].
  - apply Z.land_nonneg. by left.
  - intros i Hi. rewrite Z.land_spec, (in_width_testbit_high w y) by done.
    by rewrite andb_false_r.
Qed.

Lemma land_not_ldiff w x y : in_width w x -> Z.land x (unot w y) = Z.ldiff x y.
Proof.
  intros Hx. apply Z.bits_inj'. intros i Hi.
  unfold unot. rewrite Z.land_spec, !Z.ldiff_spec.
  destruct (Z.lt_ge_cases i w).
  - rewrite Z.ones_spec_low by lia. by destruct (Z.testbit x i).
  - by rewrite (in_width_testbit_high w x) by done.
Qed.

(** [x & ~(2^k - 1)] clears the low [k] bits. *)
Lemma land_not_mask w x k :
  0 <= k -> in_width w x -> Z.land x (unot w (2 ^ k - 1)) = x - x mod 2 ^ k.
Proof.
  intros Hk Hx. rewrite land_not_ldiff by done. rewrite pow2_minus_1.
  rewrite Z.ldiff_ones_r by done.
  rewrite Z.shiftl_mul_pow2, Z.shiftr_div_pow2 by done.
  pose proof (Z.div_mod x (2 ^ k)). pose proof (pow2_pos k Hk). lia.
Qed.

Lemma aligned_range w x k :
  0 <= k -> in_width w x -> in_width w (x - x mod 2 ^ k).
Proof.
  intros Hk [H0 H1]. pose proof (pow2_pos k Hk).
  pose proof (Z.mod_pos_bound x (2 ^ k)). pose proof (Z.mod_le x (2 ^ k)).
  split; lia.
Qed.

Lemma aligned_mod x k : 0 <= k -> (x - x mod 2 ^ k) mod 2 ^ k = 0.
Proof.
  intros Hk. rewrite Zminus_mod_idemp_r, Z.sub_diag. apply Z.mod_0_l.
  pose proof (pow2_pos k Hk). lia.
Qed.

Lemma shiftr_in_width w x k : 0 <= k -> in_width w x -> in_width w (Z.shiftr x k).
Proof.
  intros Hk [H0 H1]. rewrite Z.shiftr_div_pow2 by done.
  pose proof (pow2_pos k Hk). split.
  - apply Z.div_pos; lia.
  - apply Z.le_lt_trans with x; [|done]. apply Z.div_le_upper_bound; nia.
Qed.

Lemma lor_in_width w x y : 0 <= w -> in_width w x -> in_width w y -> in_width w (Z.lor x y).
Proof.
  intros Hw Hx Hy. apply in_width_bits; [done| |].
  - apply Z.lor_nonneg. destruct Hx, Hy. lia.
  - intros i Hi. rewrite Z.lor_spec.
    by rewrite (in_width_testbit_high w x), (in_width_testbit_high w y) by done.
Qed.

#[export] Hint Resolve uwrap_range shiftr_in_width lor_in_width land_in_width
  aligned_range : gem5.

Lemma any_set_pow2 x i : 0 <= i -> any_set x (2 ^ i) = Z.testbit x i.
Proof.
  intros Hi. unfold any_set.
  destruct (Z.testbit x i) eqn:E.
  - apply negb_true_iff, Z.eqb_neq. intros H.
    assert (Z.testbit (Z.land x (2 ^ i)) i = true) as Hb.
    { rewrite Z.land_spec, E, Z.pow2_bits_true; done. }
    by rewrite H, Z.bits_0 in Hb.
  - apply negb_false_iff, Z.eqb_eq. apply Z.bits_inj'. intros j Hj.
    rewrite Z.land_spec, Z.bits_0, Z.pow2_bits_eqb by done.
    destruct (Z.eqb_spec i j) as [->|]; [by rewrite E | by rewrite andb_false_r].
Qed.

(** * Lists *)

Section lists.
Context {A : Type}.
Implicit Types l k : list A.

Lemma Forall_insert_upd (P : A -> Prop) l i x :
  Forall P l -> P x -> Forall P (<[i := x]> l).
Proof.
  intros Hl Hx. apply Forall_lookup. intros j y.
  destruct (decide (i = j)) as [->|Hne].
  - destruct (decide (j < length l)%nat).
    + rewrite list_lookup_insert_eq by done. naive_solver.
    + rewrite list_insert_ge by lia. intros. by eapply Forall_lookup_1.
  - rewrite list_lookup_insert_ne by done. intros. by eapply Forall_lookup_1.
Qed.

End lists.
#[export] Hint Resolve Forall_insert_upd : gem5.

(** The number of elements a test holds of. *)
Fixpoint countb {A} (P : A -> bool) (l : list A) : Z :=
  match l with
  | [] => 0
  | x :: l => b2z (P x) + countb P l
  end.

Section counting.
Context {A : Type}.
Implicit Types (P Q : A -> bool) (l : list A).

Lemma countb_app P l1 l2 : countb P (l1 ++ l2) = countb P l1 + countb P l2.
Proof. induction l1; simpl; lia. Qed.

Lemma countb_perm P l1 l2 : l1 ≡ₚ l2 -> countb P l1 = countb P l2.
Proof. induction 1; simpl; lia. Qed.

Lemma countb_nonneg P l : 0 <= countb P l.
Proof. induction l as [|x l IH]; simpl; [done|]. destruct (P x); simpl; lia. Qed.

Lemma countb_insert P l i x y :
  l !! i = Some x -> countb P (<[i := y]> l) = countb P l - b2z (P x) + b2z (P y).
Proof.
  revert i. induction l as [|z l IH]; intros [|i] H; simpl in *; try done.
  - injection H as ->. lia.
  - rewrite (IH i) by done. lia.
Qed.

Lemma countb_ext P Q l : (forall x, x ∈ l -> P x = Q x) -> countb P l = countb Q l.
Proof.
  induction l as [|x l IH]; intros H; simpl; [done|].
  rewrite (H x) by left. rewrite IH; [done|]. intros. apply H. by right.
Qed.

Lemma countb_false P l : (forall x, x ∈ l -> P x = false) -> countb P l = 0.
Proof.
  induction l as [|x l IH]; intros H; simpl; [done|].
  rewrite (H x) by left. simpl. apply IH. intros. apply H. by right.
Qed.

End counting.

Lemma alter_add_lookup (l : list Z) d i m x :
  l !! m = Some x ->
  alter (Z.add d) i l !! m = Some (x + (if decide (i = m) then d else 0)).
Proof.
  intros H. rewrite list_lookup_alter. case_decide as E.
  - subst. rewrite H. simpl. f_equal. lia.
  - rewrite H. f_equal. lia.
Qed.
