(* ===== verification/IntMath.v ===== *)
(** Integer and bit-field helpers: base/intmath.hh and base/bitfield.hh.

    [IntMath] translates the integer helpers the cache and predictor code
    calls (powers of two, logarithms, rounding), [BitField] the mask and field
    helpers. Templates are instantiated at an unsigned type of width [w]. *)

From S2P Require Import Prelude.
From Stdlib Require Import Znumtheory.
Local Open Scope Z_scope.

Module IntMath.

Definition leastSigBit (w n : Z) : Z := Z.land n (unot w (uwrap w (n - 1))).

Definition isPowerOf2 (w n : Z) : bool := negb (n =? 0) && (leastSigBit w n =? n).

(** One line of the [floorLog2] cascade:
    [if (x & m) { y += s; x >>= s; }]. *)
Definition log_step (m s : Z) (xy : Z * Z) : Z * Z :=
  let '(x, y) := xy in
  if any_set x m then (Z.shiftr x s, y + s) else (x, y).

(** [floorLog2(unsigned x)]. *)
Definition floorLog2 (x : Z) : outcome Z :=
  _ ← ensure AssertFailed (x >? 0);
  let xy := log_step 0xffff0000 16 (x, 0) in
  let xy := log_step 0x0000ff00 8 xy in
  let xy := log_step 0x000000f0 4 xy in
  let xy := log_step 0x0000000c 2 xy in
  let '(x, y) := xy in
  Ok (if any_set x 0x00000002 then y + 1 else y).

(** [floorLog2(unsigned long long x)]. *)
Definition floorLog2_ull (x : Z) : outcome Z :=
  _ ← ensure AssertFailed (x >? 0);
  let xy := log_step 0xffffffff00000000 32 (x, 0) in
  let xy := log_step 0x00000000ffff0000 16 xy in
  let xy := log_step 0x000000000000ff00 8 xy in
  let xy := log_step 0x00000000000000f0 4 xy in
  let xy := log_step 0x000000000000000c 2 xy in
  let '(x, y) := xy in
  Ok (if any_set x 0x0000000000000002 then y + 1 else y).

(** [ceilLog2] at [unsigned]. *)
Definition ceilLog2 (n : Z) : outcome Z :=
  if n =? 1 then Ok 0
  else y ← floorLog2 (uwrap 32 (n - 1)); Ok (y + 1).

Definition floorPow2 (n : Z) : outcome Z :=
  k ← floorLog2 n; Ok (uwrap 32 (Z.shiftl 1 k)).

Definition ceilPow2 (n : Z) : outcome Z :=
  k ← ceilLog2 n; Ok (uwrap 32 (Z.shiftl 1 k)).

Definition divCeil (w a b : Z) : Z := uwrap w (a + b - 1) / b.

Definition roundUp (w val align : Z) : Z :=
  let mask := uwrap w (align - 1) in
  Z.land (uwrap w (val + mask)) (unot w mask).

Definition roundDown (w val align : Z) : Z :=
  let mask := uwrap w (align - 1) in
  Z.land val (unot w mask).

(** [isPrime<int>]. The loop [for (i = 5; i*i <= n; i += 6)]; [i * i] must not
    overflow an [int]. [fuel] bounds the rounds. *)
Definition INT_MAX : Z := 2 ^ 31 - 1.

Fixpoint isPrime_loop (fuel : nat) (i n : Z) : outcome bool :=
  match fuel with
  | O => Fail Undefined
  | S fuel =>
      _ ← ensure Undefined (i * i <=? INT_MAX);
      if i * i <=? n then
        if (Z.rem n i =? 0) || (Z.rem n (i + 2) =? 0) then Ok false
        else isPrime_loop fuel (i + 6) n
      else Ok true
  end.

Definition isPrime (n : Z) : outcome bool :=
  if (n =? 2) || (n =? 3) then Ok true
  else isPrime_loop (S (Z.to_nat n)) 5 n.

(** The loop of [prevPrime], which ends at 5 or before when it starts above. *)
Fixpoint prev_loop (fuel : nat) (n decr : Z) : outcome Z :=
  match fuel with
  | O => Fail Undefined
  | S fuel =>
      p ← isPrime n;
      if p : bool then Ok n else prev_loop fuel (n - decr) (6 - decr)
  end.

Definition prevPrime (n : Z) : outcome Z :=
  let n := if Z.land n 1 =? 0 then n - 1 else n in
  let decr := Z.rem n 3 in
  let '(n, decr) := if decr =? 0 then (n - 2, 2) else if decr =? 1 then (n, 4) else (n, decr) in
  prev_loop (S (Z.to_nat n)) n decr.

(** ** Primes *)

(** The loop ends, and finds a divisor or shows that there is none of the form
    6k-1 or 6k+1 from [i] to the root of [n]. The bound on [n] keeps [i * i] an
    [int]. *)
Lemma isPrime_loop_spec fuel i n :
  i mod 6 = 5 -> 5 <= i -> n < i + 6 * Z.of_nat fuel + 6 -> n < 46337 * 46337 ->
  (i - 6) * (i - 6) <= n \/ i = 5 ->
  exists b, isPrime_loop (S fuel) i n = Ok b /\
    (if b : bool then forall d, i <= d -> d * d <= n -> d mod 6 = 5 \/ d mod 6 = 1 -> ~ (d | n)
     else exists d, 1 < d < n /\ (d | n)).
Proof.
  revert i. induction fuel as [|fuel IH]; intros i H6 Hi Hf Hn Hp; (assert (i * i <= INT_MAX) as Hm;
    [assert (i <= 46337) by (destruct Hp as [Hp|]; [|lia]; assert (i - 6 < 46337) by nia; Z.div_mod_to_equations; lia);
     unfold INT_MAX; nia|]); change (isPrime_loop (S ?f) i n) with
    (_ ← ensure Undefined (i * i <=? INT_MAX);
     if i * i <=? n then if (Z.rem n i =? 0) || (Z.rem n (i + 2) =? 0) then Ok false
       else isPrime_loop f (i + 6) n else Ok true);
    rewrite (proj2 (Z.leb_le _ _) Hm); cbn [mbind outcome_bind ensure];
    (destruct (Z.leb_spec (i * i) n); [|exists true; split; [done|]; intros d ? ? ? _; nia]).
  { exfalso. nia. }
  rewrite !Z.rem_mod_nonneg by nia.
  destruct (Z.eqb_spec (n mod i) 0) as [E|E].
  { exists false. split; [done|]. exists i. split; [nia|]. by apply Z.mod_divide; [lia|]. }
  destruct (Z.eqb_spec (n mod (i + 2)) 0) as [E'|E']; cbn [orb].
  { exists false. split; [done|]. exists (i + 2). split; [nia|]. by apply Z.mod_divide; [lia|]. }
  destruct (IH (i + 6)) as (b & Eb & Hb); [Z.div_mod_to_equations; lia|lia|lia|done| |].
  { left. replace (i + 6 - 6) with i by lia. done. }
  exists b. split; [done|]. destruct b; [|done]. intros d Hd Hs Hr Hdiv.
  destruct (decide (i + 6 <= d)) as [|Hlt]; [by apply (Hb d)|].
  assert (d = i \/ d = i + 2) as [-> | ->] by (Z.div_mod_to_equations; lia).
  - apply E, Z.mod_divide; [lia|done].
  - apply E', Z.mod_divide; [lia|done].
Qed.

(** On the numbers without the factors 2 and 3, for which its comment says that
    the loop tries every candidate, [isPrime] decides primality. *)
Lemma isPrime_correct n :
  5 <= n < 46337 * 46337 -> n mod 2 <> 0 -> n mod 3 <> 0 -> exists b, isPrime n = Ok b /\ (b = true <-> prime n).
Proof.
  intros Hn H2 H3. unfold isPrime. replace ((n =? 2) || (n =? 3)) with false by lia.
  destruct (isPrime_loop_spec (Z.to_nat n) 5 n) as (b & -> & Hb); [done|lia..|auto|].
  exists b. split; [done|]. rewrite <- prime_alt. destruct b; (split; [intros Eb|]); try done.
  - assert (forall d, 1 < d -> d * d <= n -> ~ (d | n)) as Hno.
    { intros d Hd Hs Hdiv. assert (d mod 2 <> 0 /\ d mod 3 <> 0) as [].
      { split; intros E; [apply H2|apply H3]; apply Z.mod_divide; try lia;
          apply (Z.divide_trans _ d); [by apply Z.mod_divide|done|by apply Z.mod_divide|done]. }
      apply (Hb d); [..|done]; Z.div_mod_to_equations; lia. }
    split; [lia|]. intros d Hd [q Hq]. destruct (Z.le_ge_cases d q).
    + apply (Hno d); [lia|nia|by exists q].
    + apply (Hno q); [nia|nia|]. exists d. lia.
  - intros [_ Hp]. destruct Hb as (d & Hd & Hdiv). by destruct (Hp d).
Qed.

(** [prevPrime] steps from 25 to 21 and from 35 to 33: the two decrements of its
    loop are exchanged when the first number is not a multiple of 3. *)
Lemma prevPrime_composite : prevPrime 25 = Ok 21 /\ prevPrime 35 = Ok 33 /\ 21 = 3 * 7 /\ 33 = 3 * 11.
Proof. by vm_compute. Qed.

(** ** Powers of two *)

Lemma land_pred_pow2 n : 0 < n -> Z.land n (n - 1) = 0 -> n = 2 ^ Z.log2 n.
Proof.
  intros Hn H. destruct (Z.log2_spec n Hn) as [H1 H2].
  destruct (Z.eq_dec n (2 ^ Z.log2 n)); [done|]. exfalso.
  assert (Z.log2 (n - 1) = Z.log2 n) as Hl.
  { apply Z.log2_unique; [apply Z.log2_nonneg|lia]. }
  assert (0 < n - 1) by (pose proof (pow2_pos _ (Z.log2_nonneg n)); lia).
  assert (Z.testbit (Z.land n (n - 1)) (Z.log2 n) = true) as Hb.
  { rewrite Z.land_spec, Z.bit_log2 by lia. rewrite <- Hl, Z.bit_log2 by lia. done. }
  by rewrite H, Z.bits_0 in Hb.
Qed.

Lemma ldiff_self x y : Z.ldiff x y = x <-> Z.land x y = 0.
Proof.
  split; intros H; apply Z.bits_inj'; intros i Hi.
  - rewrite Z.land_spec, Z.bits_0. rewrite <- H, Z.ldiff_spec.
    by destruct (Z.testbit x i), (Z.testbit y i).
  - rewrite Z.ldiff_spec. assert (Z.testbit (Z.land x y) i = false) as Hb.
    { by rewrite H, Z.bits_0. }
    rewrite Z.land_spec in Hb. by destruct (Z.testbit x i), (Z.testbit y i).
Qed.

Lemma isPowerOf2_true w n :
  0 <= w -> in_width w n ->
  isPowerOf2 w n = true <-> exists k, 0 <= k < w /\ n = 2 ^ k.
Proof.
  intros Hw Hn. unfold isPowerOf2, leastSigBit.
  destruct (Z.eqb_spec n 0) as [->|Hne]; simpl.
  { split; [done|]. intros (k & Hk & ?). pose proof (pow2_pos k). lia. }
  destruct Hn as [H0 H1].
  rewrite land_not_ldiff by done. rewrite Z.eqb_eq, uwrap_small by (split; lia).
  rewrite ldiff_self. split.
  - intros H. apply land_pred_pow2 in H; [|lia]. exists (Z.log2 n).
    split; [|done]. split; [apply Z.log2_nonneg|]. apply Z.log2_lt_pow2; lia.
  - intros (k & Hk & ->). rewrite land_mask by lia. apply Z.mod_same.
    pose proof (pow2_pos k). lia.
Qed.

(** ** Logarithms *)

Lemma any_set_high x s : 0 <= s -> in_width (2 * s) x ->
  any_set x (Z.shiftl (Z.ones s) s) = (2 ^ s <=? x).
Proof.
  intros Hs Hx. unfold any_set.
  assert (Z.land x (Z.shiftl (Z.ones s) s) = Z.shiftl (Z.shiftr x s) s) as ->.
  { apply Z.bits_inj'. intros i Hi. rewrite Z.land_spec, !Z.shiftl_spec by done.
    destruct (Z.lt_ge_cases i s).
    { rewrite !(Z.testbit_neg_r _ (i - s)) by lia. apply andb_false_r. }
    rewrite Z.shiftr_spec by lia. replace (i - s + s) with i by lia.
    destruct (Z.lt_ge_cases (i - s) s).
    - rewrite Z.ones_spec_low by lia. apply andb_true_r.
    - rewrite (in_width_testbit_high (2 * s) x) by (done || lia). done. }
  destruct Hx as [H0 H1]. pose proof (pow2_pos s Hs).
  rewrite Z.shiftl_mul_pow2, Z.shiftr_div_pow2 by done.
  destruct (Z.leb_spec (2 ^ s) x).
  - apply negb_true_iff, Z.eqb_neq.
    assert (1 <= x / 2 ^ s) by (apply Z.div_le_lower_bound; lia). nia.
  - rewrite Z.div_small by lia. done.
Qed.

(** What one step of the cascade keeps: [y + log2 x]. *)
Lemma log_step_spec m s x y x' y' :
  0 < s -> m = Z.shiftl (Z.ones s) s -> 0 < x -> in_width (2 * s) x ->
  log_step m s (x, y) = (x', y') ->
  0 < x' /\ in_width s x' /\ y' + Z.log2 x' = y + Z.log2 x.
Proof.
  intros Hs -> Hx Hw Hstep. unfold log_step in Hstep.
  rewrite any_set_high in Hstep by (done || lia).
  pose proof (pow2_pos s). destruct Hw as [H0 H1].
  destruct (Z.leb_spec (2 ^ s) x); simplify_eq.
  - rewrite Z.log2_shiftr by done. rewrite Z.shiftr_div_pow2 by lia.
    assert (1 <= x / 2 ^ s) by (apply Z.div_le_lower_bound; lia).
    assert (s <= Z.log2 x) by (apply Z.log2_le_pow2; lia).
    split_and!; try lia. split; [lia|].
    apply Z.div_lt_upper_bound; [lia|].
    by rewrite <- Z.pow_add_r, Z.add_diag by lia.
  - split_and!; try lia. split; lia.
Qed.

#[local] Arguments log_step : simpl never.

Ltac log_cascade s :=
  match goal with
  | |- context [log_step ?m s (?x, ?y)] =>
      let x' := fresh "x" in let y' := fresh "y" in let E := fresh "E" in
      destruct (log_step m s (x, y)) as [x' y'] eqn:E;
      apply log_step_spec in E as (? & ? & ?);
      [| lia | reflexivity | lia | assumption]
  end.

Lemma log_last x y : 0 < x -> in_width 2 x ->
  (if any_set x 2 then y + 1 else y) = y + Z.log2 x.
Proof.
  intros Hx [_ Hw]. assert (x = 1 \/ x = 2 \/ x = 3) as [->|[->| ->]] by lia.
  all: vm_compute; by destruct y.
Qed.

Lemma floorLog2_ok x : 0 < x < 2 ^ 32 -> floorLog2 x = Ok (Z.log2 x).
Proof.
  intros [H0 H1]. unfold floorLog2.
  destruct (Z.gtb_spec x 0); [|lia]. simpl.
  assert (in_width (2 * 16) x) by (split; lia).
  log_cascade 16. log_cascade 8. log_cascade 4. log_cascade 2.
  rewrite log_last by done. f_equal. lia.
Qed.

Lemma floorLog2_ull_ok x : 0 < x < 2 ^ 64 -> floorLog2_ull x = Ok (Z.log2 x).
Proof.
  intros [H0 H1]. unfold floorLog2_ull.
  destruct (Z.gtb_spec x 0); [|lia]. simpl.
  assert (in_width (2 * 32) x) by (split; lia).
  log_cascade 32. log_cascade 16. log_cascade 8. log_cascade 4.
  log_cascade 2.
  rewrite log_last by done. f_equal. lia.
Qed.

Lemma ceilLog2_ok x : 0 < x < 2 ^ 32 -> ceilLog2 x = Ok (Z.log2_up x).
Proof.
  intros Hx. unfold ceilLog2. destruct (Z.eqb_spec x 1) as [->|Hne]; [done|].
  rewrite uwrap_small by (split; lia). rewrite floorLog2_ok by lia. simpl.
  rewrite Z.log2_up_eqn by lia. by rewrite Z.sub_1_r.
Qed.

(** ** Rounding *)

Lemma roundDown_pow2 w v k :
  0 <= k < w -> in_width w v -> roundDown w v (2 ^ k) = v - v mod 2 ^ k.
Proof.
  intros Hk Hv. unfold roundDown.
  rewrite uwrap_small; [apply land_not_mask; [lia|done]|].
  pose proof (pow2_pos k). pose proof (Z.pow_lt_mono_r 2 k w). split; lia.
Qed.

Lemma roundUp_pow2 w v k :
  0 <= k < w -> 0 <= v -> v + 2 ^ k <= 2 ^ w ->
  roundUp w v (2 ^ k) = (v + 2 ^ k - 1) / 2 ^ k * 2 ^ k.
Proof.
  intros Hk Hv Hb. unfold roundUp. pose proof (pow2_pos k).
  pose proof (Z.pow_lt_mono_r 2 k w).
  rewrite (uwrap_small w (2 ^ k - 1)) by (split; lia).
  rewrite (uwrap_small w) by (split; lia).
  rewrite land_not_mask by (lia || split; lia).
  replace (v + (2 ^ k - 1)) with (v + 2 ^ k - 1) by lia.
  pose proof (Z.div_mod (v + 2 ^ k - 1) (2 ^ k)). lia.
Qed.

End IntMath.

Module BitField.

Definition mask (nbits : Z) : Z :=
  if nbits =? 64 then 2 ^ 64 - 1 else uwrap 64 (uwrap 64 (Z.shiftl 1 nbits) - 1).

(** Shifts of a 64-bit operand; the shift count is in [0, 63]. *)
Definition bits (val first last : Z) : Z :=
  let nbits := first - last + 1 in
  Z.land (Z.shiftr val last) (mask nbits).

Definition bits1 (val bit : Z) : Z := bits val bit bit.

Definition mbits (val first last : Z) : Z :=
  Z.land val (Z.land (mask (first + 1)) (unot 64 (mask last))).

Definition mask2 (first last : Z) : Z := mbits (2 ^ 64 - 1) first last.

Definition sext (N val : Z) : Z :=
  let sign_bit := bits val (N - 1) (N - 1) in
  if negb (sign_bit =? 0) then Z.lor val (unot 64 (mask N)) else val.

Definition insertBits (val first last bit_val : Z) : Z :=
  let t_bit_val := bit_val in
  let bmask := uwrap 64 (Z.shiftl (mask (first - last + 1)) last) in
  Z.lor (Z.land (uwrap 64 (Z.shiftl t_bit_val last)) bmask) (Z.land val (unot 64 bmask)).

Definition replaceBits (val first last bit_val : Z) : Z :=
  insertBits val first last bit_val.

(** [if (bits(val, f, l)) { msb += s; val >>= s; }]. *)
Definition msb_step (f l s : Z) (vm : Z * Z) : Z * Z :=
  let '(val, msb) := vm in
  if negb (bits val f l =? 0) then (Z.shiftr val s, msb + s) else (val, msb).

Definition findMsbSet (val : Z) : Z :=
  if val =? 0 then 0
  else
    let vm := msb_step 63 32 32 (val, 0) in
    let vm := msb_step 31 16 16 vm in
    let vm := msb_step 15 8 8 vm in
    let vm := msb_step 7 4 4 vm in
    let vm := msb_step 3 2 2 vm in
    let '(val, msb) := vm in
    if negb (bits val 1 1 =? 0) then msb + 1 else msb.

(** [if (!bits(val, f, 0)) { lsb += s; val >>= s; }]. *)
Definition lsb_step (f s : Z) (vl : Z * Z) : Z * Z :=
  let '(val, lsb) := vl in
  if bits val f 0 =? 0 then (Z.shiftr val s, lsb + s) else (val, lsb).

Definition findLsbSet (val : Z) : Z :=
  if val =? 0 then 64
  else
    let vl := lsb_step 31 32 (val, 0) in
    let vl := lsb_step 15 16 vl in
    let vl := lsb_step 7 8 vl in
    let vl := lsb_step 3 4 vl in
    let vl := lsb_step 1 2 vl in
    let '(val, lsb) := vl in
    if bits val 0 0 =? 0 then lsb + 1 else lsb.

Definition isPow2 (w v : Z) : bool := Z.land v (uwrap w (v - 1)) =? 0.

Lemma mask_ones n : 0 <= n <= 64 -> mask n = Z.ones n.
Proof.
  intros Hn. unfold mask. destruct (Z.eqb_spec n 64) as [->|]; [done|].
  rewrite Z.shiftl_mul_pow2, Z.mul_1_l by lia.
  assert (2 ^ n < 2 ^ 64) by (apply Z.pow_lt_mono_r; lia).
  pose proof (pow2_pos n).
  rewrite (uwrap_small 64 (2 ^ n)), uwrap_small by (split; lia).
  apply pow2_minus_1.
Qed.

Lemma bits_slice v f l :
  0 <= l <= f -> f < 64 -> bits v f l = (v / 2 ^ l) mod 2 ^ (f - l + 1).
Proof.
  intros. unfold bits. rewrite mask_ones, Z.land_ones by lia.
  by rewrite Z.shiftr_div_pow2 by lia.
Qed.

Lemma uwrap_testbit w z i :
  0 <= w -> 0 <= i -> Z.testbit (uwrap w z) i = (i <? w) && Z.testbit z i.
Proof.
  intros. unfold uwrap. destruct (Z.ltb_spec i w).
  - by rewrite Z.mod_pow2_bits_low by lia.
  - apply Z.mod_pow2_bits_high. lia.
Qed.

Lemma ones_testbit n i : 0 <= n -> 0 <= i -> Z.testbit (Z.ones n) i = (i <? n).
Proof.
  intros. destruct (Z.ltb_spec i n);
    [by rewrite Z.ones_spec_low by lia | by rewrite Z.ones_spec_high by lia].
Qed.

Lemma bits_testbit v f l i :
  0 <= l <= f -> f < 64 -> 0 <= i ->
  Z.testbit (bits v f l) i = Z.testbit v (i + l) && (i <? f - l + 1).
Proof.
  intros. unfold bits.
  by rewrite mask_ones, Z.land_spec, Z.shiftr_spec, ones_testbit by lia.
Qed.

Lemma insertBits_testbit v f l b i :
  0 <= l <= f -> f < 64 -> in_width 64 v -> 0 <= i ->
  Z.testbit (insertBits v f l b) i =
    if (l <=? i) && (i <=? f) then Z.testbit b (i - l) else Z.testbit v i.
Proof.
  intros Hl Hf Hv Hi. unfold insertBits, unot. rewrite mask_ones by lia.
  rewrite Z.lor_spec, !Z.land_spec, Z.ldiff_spec, !uwrap_testbit by lia.
  rewrite !Z.shiftl_spec by lia. rewrite (ones_testbit 64) by lia.
  destruct (Z.leb_spec l i), (Z.leb_spec i f); simpl.
  - rewrite ones_testbit by lia. repeat case_bool_decide.
    destruct (Z.ltb_spec i 64), (Z.ltb_spec (i - l) (f - l + 1)); try lia.
    by rewrite !andb_true_l, andb_false_r, orb_false_r, andb_true_r.
  - rewrite ones_testbit by lia.
    destruct (Z.ltb_spec (i - l) (f - l + 1)); [lia|].
    destruct (Z.ltb_spec i 64); simpl.
    + by rewrite andb_false_r, andb_true_r.
    + by rewrite (in_width_testbit_high 64 v) by done.
  - rewrite !(Z.testbit_neg_r _ (i - l)) by lia.
    destruct (Z.ltb_spec i 64); [|lia]. simpl. by rewrite andb_true_r.
  - lia.
Qed.

(** Reading back a field returns the low bits of what was inserted. *)
Lemma bits_insertBits v f l b :
  0 <= l <= f -> f < 64 -> in_width 64 v ->
  bits (insertBits v f l b) f l = b mod 2 ^ (f - l + 1).
Proof.
  intros. apply Z.bits_inj'. intros i Hi.
  rewrite bits_testbit, insertBits_testbit by lia || done.
  replace (i + l - l) with i by lia.
  destruct (Z.ltb_spec i (f - l + 1)).
  - rewrite Z.mod_pow2_bits_low by lia.
    destruct (Z.leb_spec l (i + l)), (Z.leb_spec (i + l) f); try lia.
    by rewrite andb_true_r.
  - by rewrite Z.mod_pow2_bits_high, andb_false_r by lia.
Qed.

(** A field disjoint from the inserted one is unchanged. *)
Lemma bits_insertBits_other v f l b f' l' :
  0 <= l <= f -> f < 64 -> 0 <= l' <= f' -> f' < 64 -> in_width 64 v ->
  f < l' \/ f' < l ->
  bits (insertBits v f l b) f' l' = bits v f' l'.
Proof.
  intros ????? Hdisj. apply Z.bits_inj'. intros i Hi.
  rewrite !bits_testbit, insertBits_testbit by lia || done.
  destruct (Z.ltb_spec i (f' - l' + 1)); [|by rewrite !andb_false_r].
  destruct (Z.leb_spec l (i + l')), (Z.leb_spec (i + l') f); done || lia.
Qed.

Lemma bits_high_nonzero v s :
  0 < s -> s <= 32 -> in_width (2 * s) v ->
  negb (bits v (2 * s - 1) s =? 0) = (2 ^ s <=? v).
Proof.
  intros Hs Hs' [H0 H1]. rewrite bits_slice by lia.
  pose proof (pow2_pos s). replace (2 * s - 1 - s + 1) with s by lia.
  assert (v / 2 ^ s < 2 ^ s).
  { apply Z.div_lt_upper_bound; [lia|]. by rewrite <- Z.pow_add_r, Z.add_diag by lia. }
  rewrite Z.mod_small by (split; [apply Z.div_pos; lia|done]).
  destruct (Z.leb_spec (2 ^ s) v).
  - apply negb_true_iff, Z.eqb_neq.
    assert (1 <= v / 2 ^ s) by (apply Z.div_le_lower_bound; lia). lia.
  - by rewrite Z.div_small by lia.
Qed.

Lemma msb_step_log v m f s :
  0 < s -> s <= 32 -> f = 2 * s - 1 -> in_width (2 * s) v ->
  msb_step f s s (v, m) = IntMath.log_step (Z.shiftl (Z.ones s) s) s (v, m).
Proof.
  intros Hs Hs' -> Hv. unfold msb_step, IntMath.log_step.
  rewrite bits_high_nonzero, IntMath.any_set_high by (lia || done). done.
Qed.

Lemma bits_1_1 v : in_width 2 v -> negb (bits v 1 1 =? 0) = any_set v 2.
Proof.
  intros [H0 H1]. assert (v = 0 \/ v = 1 \/ v = 2 \/ v = 3) as H by lia.
  destruct_or! H; subst; done.
Qed.

#[local] Arguments msb_step : simpl never.

Ltac msb_cascade s :=
  match goal with
  | |- context [msb_step ?f s s (?x, ?y)] =>
      rewrite (msb_step_log x y f s) by (lia || assumption);
      let x' := fresh "x" in let y' := fresh "y" in let E := fresh "E" in
      destruct (IntMath.log_step (Z.shiftl (Z.ones s) s) s (x, y)) as [x' y'] eqn:E;
      apply IntMath.log_step_spec in E as (? & ? & ?);
      [| lia | reflexivity | lia | assumption]
  end.

Lemma findMsbSet_log2 v : 0 < v < 2 ^ 64 -> findMsbSet v = Z.log2 v.
Proof.
  intros [H0 H1]. unfold findMsbSet.
  destruct (Z.eqb_spec v 0); [lia|].
  assert (in_width (2 * 32) v) by (split; lia).
  msb_cascade 32. msb_cascade 16. msb_cascade 8. msb_cascade 4. msb_cascade 2.
  rewrite bits_1_1 by done. rewrite IntMath.log_last by done. lia.
Qed.

End BitField.
