(* ===== verification/EventQueue.v ===== *)
(** The event queue ([sim/eventq.hh], [sim/eventq.cc], [sim/eventq_impl.hh]) and
    the simulation loop over it ([doSimLoop] of [sim/simulate.cc]).

    The queue is a list of bins: events with the same tick and priority form a
    stack through [nextInBin], and the tops of the stacks form a list through
    [nextBin]. The pointers are kept as the code has them, in a heap of event
    objects, stale [nextBin] pointers below the tops included. Restoring a
    checkpoint goes through [Serializable::create] of [sim/serialize.cc], with the
    classes that [sim/sim_events.cc] and [dev/etherlink.cc] register. *)

From stdpp Require Import fin_maps gmap sorting strings.
From S2P Require Import Prelude.
Local Open Scope Z_scope.

Module EventQueue.

(** ** Events *)

(** The pointers are addresses of other events; [queue] is the queue the event was
    last scheduled on. *)
Record Event := MkEvent {
  nextBin : option nat;
  nextInBin : option nat;
  _when : Z;
  _priority : Z;
  flags : Z;
  queue : option Z;
}.
#[export] Instance eta_Event : Eta Event := fun x =>
  MkEvent (nextBin x) (nextInBin x) (_when x) (_priority x) (flags x) (queue x).

Definition PublicWrite : Z := 0x001d.
Definition Squashed : Z := 0x0001.
Definition Scheduled : Z := 0x0002.
Definition AutoDelete : Z := 0x0004.
Definition AutoSerialize : Z := 0x0008.
Definition IsExitEvent : Z := 0x0010.
Definition IsMainQueue : Z := 0x0020.
Definition Initialized : Z := 0x7a40.
Definition InitMask : Z := 0xffc0.

Definition set_flag (f : Z) (e : Event) : Event := e <| flags ::= (fun x => Z.lor x f) |>.
Definition clear_flag (f : Z) (e : Event) : Event := e <| flags ::= (fun x => Z.land x (unot 16 f)) |>.

Definition initialized (e : Event) : bool := Z.land (flags e) InitMask =? Initialized.
Definition scheduled (e : Event) : bool := any_set (flags e) Scheduled.
Definition squashed (e : Event) : bool := any_set (flags e) Squashed.
Definition isExitEvent (e : Event) : bool := any_set (flags e) IsExitEvent.

Definition Event_new (p f : Z) : outcome Event :=
  _ ← ensure AssertFailed (Z.land f (unot 16 PublicWrite) =? 0);
  Ok (MkEvent None None 0 p (Z.lor Initialized f) None).

(** The comparison operators. *)
Definition ev_lt (l r : Event) : bool :=
  (_when l <? _when r) || (_when l =? _when r) && (_priority l <? _priority r).
Definition ev_le (l r : Event) : bool :=
  (_when l <? _when r) || (_when l =? _when r) && (_priority l <=? _priority r).
Definition ev_eq (l r : Event) : bool := (_when l =? _when r) && (_priority l =? _priority r).

(** The live event objects by their address; to use another address is undefined
    behaviour. *)
Abbreviation heap := (gmap nat Event).

Definition hget (h : heap) (p : nat) : outcome Event :=
  match h !! p with Some e => Ok e | None => Fail Undefined end.
Definition hupd (f : Event -> Event) (h : heap) (p : nat) : outcome heap :=
  e ← hget h p;
  Ok (<[p := f e]> h).

Definition setWhen (when q : Z) (e : Event) : Event := e <| _when := when |> <| queue := Some q |>.

(** [delete event] with its destructor. *)
Definition delete_event (event : nat) (h : heap) : outcome heap :=
  e ← hget h event;
  _ ← ensure AssertFailed (negb (scheduled e));
  Ok (delete event h).

(** ** The bins *)

Definition insertBefore (event : nat) (curr : option nat) (h : heap) : outcome (nat * heap) :=
  e ← hget h event;
  match curr with
  | None =>
      h ← hupd (fun e => e <| nextBin := None |> <| nextInBin := None |>) h event;
      Ok (event, h)
  | Some c =>
      x ← hget h c;
      if ev_lt e x then
        h ← hupd (fun e => e <| nextBin := Some c |> <| nextInBin := None |>) h event;
        Ok (event, h)
      else
        h ← hupd (fun e => e <| nextBin := nextBin x |> <| nextInBin := Some c |>) h event;
        Ok (event, h)
  end.

(** [while (curr && *curr < *event)]. A walk through more objects than there are
    would go on for ever. *)
Fixpoint find_bin (fuel : nat) (event prev : nat) (curr : option nat) (h : heap) : outcome (nat * option nat) :=
  match curr with
  | None => Ok (prev, None)
  | Some c =>
      x ← hget h c;
      e ← hget h event;
      if ev_lt x e then
        match fuel with
        | O => Fail Undefined
        | S fuel => find_bin fuel event c (nextBin x) h
        end
      else Ok (prev, Some c)
  end.

(** [while (event != next)]. *)
Fixpoint find_item (fuel : nat) (event curr : nat) (next : option nat) (h : heap) : outcome nat :=
  match next with
  | None => Fail PanicError
  | Some x =>
      if decide (x = event) then Ok curr
      else match fuel with
           | O => Fail Undefined
           | S fuel => e ← hget h x; find_item fuel event x (nextInBin e) h
           end
  end.

Definition removeItem (event top : nat) (h : heap) : outcome (option nat * heap) :=
  t ← hget h top;
  if decide (event = top) then
    match nextInBin t with
    | None => Ok (nextBin t, h)
    | Some next =>
        h ← hupd (fun e => e <| nextBin := nextBin t |>) h next;
        Ok (Some next, h)
    end
  else
    curr ← find_item (size h) event top (nextInBin t) h;
    next ← hget h event;
    h ← hupd (fun e => e <| nextInBin := nextInBin next |>) h curr;
    Ok (Some top, h).

(** ** The queue *)

(** [qid] stands for the address of the queue; the heap is shared with other
    queues. *)
Record EventQueue := MkQueue {
  qid : Z;
  head : option nat;
  _curTick : Z;
  async_queue : list nat;
  events : heap;
}.
#[export] Instance eta_EventQueue : Eta EventQueue := fun x =>
  MkQueue (qid x) (head x) (_curTick x) (async_queue x) (events x).

Definition EventQueue_new (id : Z) (h : heap) : EventQueue := MkQueue id None 0 [] h.

Definition on_event (f : Event -> Event) (event : nat) (q : EventQueue) : outcome EventQueue :=
  h ← hupd f (events q) event;
  Ok (q <| events := h |>).

Definition insert (event : nat) (q : EventQueue) : outcome EventQueue :=
  let h := events q in
  match head q with
  | None =>
      '(t, h) ← insertBefore event None h;
      Ok (q <| head := Some t |> <| events := h |>)
  | Some hd =>
      e ← hget h event;
      x ← hget h hd;
      if ev_le e x then
        '(t, h) ← insertBefore event (Some hd) h;
        Ok (q <| head := Some t |> <| events := h |>)
      else
        '(prev, curr) ← find_bin (size h) event hd (nextBin x) h;
        '(t, h) ← insertBefore event curr h;
        h ← hupd (fun e => e <| nextBin := Some t |>) h prev;
        Ok (q <| events := h |>)
  end.

Definition remove (event : nat) (q : EventQueue) : outcome EventQueue :=
  let h := events q in
  match head q with
  | None => Fail PanicError
  | Some hd =>
      e ← hget h event;
      _ ← ensure AssertFailed (bool_decide (queue e = Some (qid q)));
      x ← hget h hd;
      if ev_eq x e then
        '(t, h) ← removeItem event hd h;
        Ok (q <| head := t |> <| events := h |>)
      else
        '(prev, curr) ← find_bin (size h) event hd (nextBin x) h;
        match curr with
        | None => Fail PanicError
        | Some c =>
            y ← hget h c;
            if ev_eq y e then
              '(t, h) ← removeItem event c h;
              h ← hupd (fun e => e <| nextBin := t |>) h prev;
              Ok (q <| events := h |>)
            else Fail PanicError
        end
  end.

Definition asyncInsert (event : nat) (q : EventQueue) : EventQueue := q <| async_queue ::= (fun l => l ++ [event]) |>.

(** [inParallelMode] and [curEventQueue()] of the calling thread. *)
Record Mode := MkMode {
  inParallelMode : bool;
  curEventQueue : Z;
}.

Section operations.
Context (m : Mode).

(** The thread is not the one of this queue. *)
Definition elsewhere (q : EventQueue) : bool := inParallelMode m && negb (curEventQueue m =? qid q).

Definition schedule (event : nat) (when : Z) (global : bool) (q : EventQueue) : outcome EventQueue :=
  _ ← ensure AssertFailed (_curTick q <=? when);
  e ← hget (events q) event;
  _ ← ensure AssertFailed (negb (scheduled e));
  _ ← ensure AssertFailed (initialized e);
  q ← on_event (setWhen when (qid q)) event q;
  q ← (if elsewhere q || inParallelMode m && global then Ok (asyncInsert event q) else insert event q);
  on_event (set_flag Scheduled) event q.

Definition deschedule (event : nat) (q : EventQueue) : outcome EventQueue :=
  e ← hget (events q) event;
  _ ← ensure AssertFailed (scheduled e);
  _ ← ensure AssertFailed (initialized e);
  _ ← ensure AssertFailed (negb (elsewhere q));
  q ← remove event q;
  q ← on_event (fun e => clear_flag Scheduled (clear_flag Squashed e)) event q;
  e ← hget (events q) event;
  if any_set (flags e) AutoDelete then
    h ← delete_event event (events q);
    Ok (q <| events := h |>)
  else Ok q.

Definition reschedule (event : nat) (when : Z) (always : bool) (q : EventQueue) : outcome EventQueue :=
  _ ← ensure AssertFailed (_curTick q <=? when);
  e ← hget (events q) event;
  _ ← ensure AssertFailed (always || scheduled e);
  _ ← ensure AssertFailed (initialized e);
  _ ← ensure AssertFailed (negb (elsewhere q));
  q ← (if scheduled e then remove event q else Ok q);
  q ← on_event (setWhen when (qid q)) event q;
  q ← insert event q;
  on_event (fun e => set_flag Scheduled (clear_flag Squashed e)) event q.

Fixpoint insert_all (l : list nat) (q : EventQueue) : outcome EventQueue :=
  match l with
  | [] => Ok q
  | event :: l => q ← insert event q; insert_all l q
  end.

Definition handleAsyncInsertions (q : EventQueue) : outcome EventQueue :=
  _ ← ensure AssertFailed (curEventQueue m =? qid q);
  q' ← insert_all (async_queue q) q;
  Ok (q' <| async_queue := [] |>).

Definition nextTick (q : EventQueue) : outcome Z :=
  match head q with
  | None => Fail Undefined
  | Some p => e ← hget (events q) p; Ok (_when e)
  end.

(** *** What a handler can do to the queue

    Through the public interface; [New] is the construction of an event at an
    address that is not in use. *)
Inductive op :=
  | New (event : nat) (p f : Z)
  | Schedule (event : nat) (when : Z) (global : bool)
  | Deschedule (event : nat)
  | Reschedule (event : nat) (when : Z) (always : bool)
  | Squash (event : nat)
  | HandleAsync.

Definition new_event (event : nat) (p f : Z) (h : heap) : outcome heap :=
  match h !! event with
  | Some _ => Fail Undefined
  | None => e ← Event_new p f; Ok (<[event := e]> h)
  end.

Definition run_op (o : op) (q : EventQueue) : outcome EventQueue :=
  match o with
  | New event p f => h ← new_event event p f (events q); Ok (q <| events := h |>)
  | Schedule event when global => schedule event when global q
  | Deschedule event => deschedule event q
  | Reschedule event when always => reschedule event when always q
  | Squash event => on_event (set_flag Squashed) event q
  | HandleAsync => handleAsyncInsertions q
  end.

Fixpoint run_ops (l : list op) (q : EventQueue) : outcome EventQueue :=
  match l with
  | [] => Ok q
  | o :: l => q ← run_op o q; run_ops l q
  end.
End operations.

(** What is visible of an event without its links. *)
Definition strip (e : Event) : Event := e <| nextBin := None |> <| nextInBin := None |>.

(** The code of the events, which is in other components: what [process] of an event
    does to the rest of the simulated system and to the queue, given the time and
    the events; and what the service routines of asynchronous requests (signals) do
    before an event is taken, with whether an exception ends the loop. *)
Class Handlers (W : Type) := {
  process : nat -> Z -> gmap nat Event -> W -> W * list op;
  interrupt : Z -> gmap nat Event -> W -> option (W * list op * bool);
}.

Section service.
Context {W : Type} `{Handlers W} (m : Mode).

(** The first event is taken off the queue. *)
Definition pop (q : EventQueue) : outcome (nat * EventQueue) :=
  match head q with
  | None => Fail Undefined
  | Some event =>
      e ← hget (events q) event;
      q ← on_event (clear_flag Scheduled) event q;
      match nextInBin e with
      | Some next =>
          q ← on_event (fun x => x <| nextBin := nextBin e |>) next q;
          Ok (event, q <| head := Some next |>)
      | None => Ok (event, q <| head := nextBin e |>)
      end
  end.

(** An event whose handler left it unscheduled is deleted if it asked for that. *)
Definition auto_delete (event : nat) (q : EventQueue) : outcome EventQueue :=
  e ← hget (events q) event;
  if any_set (flags e) AutoDelete && negb (scheduled e) then
    h ← delete_event event (events q);
    Ok (q <| events := h |>)
  else Ok q.

Definition serviceOne (w : W) (q : EventQueue) : outcome (option nat * W * EventQueue) :=
  '(event, q) ← pop q;
  e ← hget (events q) event;
  if squashed e then
    q ← on_event (clear_flag Squashed) event q;
    q ← auto_delete event q;
    Ok (None, w, q)
  else
    let q := q <| _curTick := _when e |> in
    let '(w, ops) := process event (_curTick q) (strip <$> events q) w in
    q ← run_ops m ops q;
    e ← hget (events q) event;
    if isExitEvent e then
      _ ← ensure AssertFailed (negb (any_set (flags e) AutoDelete) || negb (any_set (flags e) IsMainQueue));
      Ok (Some event, w, q)
    else
      q ← auto_delete event q;
      Ok (None, w, q).

(** [serviceEvents] for at most [fuel] events; [None] if there are more. *)
Fixpoint serviceEvents (fuel : nat) (when : Z) (w : W) (q : EventQueue) : outcome (option (W * EventQueue)) :=
  match head q with
  | None => Ok (Some (w, q <| _curTick := when |>))
  | Some _ =>
      t ← nextTick q;
      if when <? t then Ok (Some (w, q <| _curTick := when |>))
      else match fuel with
           | O => Ok None
           | S fuel => '(_, w, q) ← serviceOne w q; serviceEvents fuel when w q
           end
  end.

(** How [fuel] rounds of the loop end: it is still running, an event ended it, or an
    exception did. *)
Inductive loop_end :=
  | Running
  | Exit (event : nat)
  | Exception.

Fixpoint sim_loop (fuel : nat) (w : W) (q : EventQueue) : outcome (loop_end * W * EventQueue) :=
  match fuel with
  | O => Ok (Running, w, q)
  | S fuel =>
      _ ← ensure AssertFailed (match head q with None => false | Some _ => true end);
      t ← nextTick q;
      _ ← ensure AssertFailed (_curTick q <=? t);
      '(stop, w, q) ← (match interrupt (_curTick q) (strip <$> events q) w with
                       | None => Ok (false, w, q)
                       | Some (w, ops, stop) => q ← run_ops m ops q; Ok (stop, w, q)
                       end);
      if stop : bool then Ok (Exception, w, q)
      else
        '(exit_event, w, q) ← serviceOne w q;
        match exit_event with
        | Some event => Ok (Exit event, w, q)
        | None => sim_loop fuel w q
        end
  end.

Definition doSimLoop (fuel : nat) (w : W) (q : EventQueue) : outcome (loop_end * W * EventQueue) :=
  q ← handleAsyncInsertions m q;
  sim_loop fuel w q.
End service.

(** The tick at which [simulate] ends the loop. *)
Definition simulate_limit (num_cycles curTick : Z) : Z :=
  if num_cycles <? u64 (MaxTick - curTick) then u64 (curTick + num_cycles) else MaxTick.

(** ** The consistency check *)

(** One bin from [p] on; [time] and [priority] are those of the event before. *)
Fixpoint verify_bin (fuel : nat) (h : heap) (p : option nat) (time priority : Z) (seen : list nat)
  : outcome (option (Z * Z * list nat)) :=
  match p with
  | None => Ok (Some (time, priority, seen))
  | Some x =>
      match fuel with
      | O => Fail Undefined
      | S fuel =>
          e ← hget h x;
          if _when e <? time then Ok None
          else if (_when e =? time) && (_priority e <? priority) then Ok None
          else if decide (x ∈ seen) then Ok None
          else verify_bin fuel h (nextInBin e) (_when e) (_priority e) (x :: seen)
      end
  end.

Fixpoint verify_bins (fuel : nat) (h : heap) (p : option nat) (time priority : Z) (seen : list nat) : outcome bool :=
  match p with
  | None => Ok true
  | Some x =>
      match fuel with
      | O => Fail Undefined
      | S fuel =>
          r ← verify_bin (S (size h)) h (Some x) time priority seen;
          match r with
          | None => Ok false
          | Some (time, priority, seen) => e ← hget h x; verify_bins fuel h (nextBin e) time priority seen
          end
      end
  end.

Definition debugVerify (q : EventQueue) : outcome bool := verify_bins (S (size (events q))) (events q) (head q) 0 0 [].

(** ** Checkpoints *)

(** The fields of an event in a checkpoint; the flags are written as a [short]. *)
Definition s16 (z : Z) : Z := (z + 2 ^ 15) mod 2 ^ 16 - 2 ^ 15.

Definition serialize (e : Event) : Z * Z * Z := (_when e, _priority e, s16 (flags e)).

(** The overload with a queue, which schedules the event again. *)
Definition unserialize_on (m : Mode) (cp : Z * Z * Z) (event : nat) (q : EventQueue) : outcome EventQueue :=
  e ← hget (events q) event;
  q ← (if scheduled e then deschedule m event q else Ok q);
  let '(when, priority, fl) := cp in
  e ← hget (events q) event;
  _ ← ensure AssertFailed (initialized e);
  let f := Z.lor (u16 fl) Initialized in
  let wasScheduled := any_set f Scheduled && negb (any_set f Squashed) in
  q ← on_event (fun e => e <| _when := when |> <| _priority := priority |>
                           <| flags := Z.land f (unot 16 (Z.lor Squashed Scheduled)) |>) event q;
  if wasScheduled then schedule m event when false q else Ok q.

(** The events a checkpoint has, in its order. *)
Fixpoint serialize_bin (fuel : nat) (h : heap) (p : option nat) : outcome (list nat) :=
  match p with
  | None => Ok []
  | Some x =>
      match fuel with
      | O => Fail Undefined
      | S fuel =>
          e ← hget h x;
          l ← serialize_bin fuel h (nextInBin e);
          Ok (if any_set (flags e) AutoSerialize then x :: l else l)
      end
  end.

Fixpoint serialize_bins (fuel : nat) (h : heap) (p : option nat) : outcome (list nat) :=
  match p with
  | None => Ok []
  | Some x =>
      match fuel with
      | O => Fail Undefined
      | S fuel =>
          l ← serialize_bin (S (size h)) h (Some x);
          e ← hget h x;
          l' ← serialize_bins fuel h (nextBin e);
          Ok (l ++ l')
      end
  end.

Definition serialize_queue (q : EventQueue) : outcome (list nat) := serialize_bins (S (size (events q))) (events q) (head q).

(** The classes of events that write a [type] into their section, and all others,
    which have no more than the fields of [Event::serialize]. *)
Inductive EventClass := LinkDelayEvent | LocalSimLoopExitEvent | OtherEvent.
#[export] Instance EventClass_eq_dec : EqDecision EventClass.
Proof. solve_decision. Defined.

Definition type_entry (c : EventClass) : option string :=
  match c with
  | LinkDelayEvent => Some "LinkDelayEvent"%string
  | LocalSimLoopExitEvent => Some "SimLoopExitEvent"%string
  | OtherEvent => None
  end.

(** What the checkpoint has of these events, each in a section of its own: the
    [type], if there is one, and the fields. *)
Definition snapshot (cls : nat -> EventClass) (q : EventQueue) (l : list nat) : list (option string * (Z * Z * Z)) :=
  omap (fun p => (fun e => (type_entry (cls p), serialize e)) <$> events q !! p) l.

(** The classes registered with [REGISTER_SERIALIZEABLE], with the event that their
    [createForUnserialize] constructs. *)
Definition Default_Pri : Z := 0.
Definition Sim_Exit_Pri : Z := 100.
Definition classMap (className : string) : option (outcome Event) :=
  if decide (className = "LinkDelayEvent"%string) then Some (Event_new Default_Pri (Z.lor AutoSerialize AutoDelete))
  else if decide (className = "LocalSimLoopExitEvent"%string) then Some (Event_new Sim_Exit_Pri (Z.lor IsExitEvent AutoSerialize))
  else None.

Definition createObject (section : option string * (Z * Z * Z)) : outcome Event :=
  match section.1 with
  | None => Fail FatalError
  | Some className =>
      match classMap className with
      | None => Fail FatalError
      | Some object => object
      end
  end.

(** [Event::unserialize] without a queue: its body is empty. The classes that
    override it read nothing of the base class. *)
Definition unserialize (section : option string * (Z * Z * Z)) (e : Event) : Event := e.

(** [Serializable::create]. *)
Definition create (section : option string * (Z * Z * Z)) : outcome Event :=
  object ← createObject section; Ok (unserialize section object).

(** An object is created for each event of the checkpoint, at an address that is
    not in use. *)
Fixpoint unserialize_queue (cps : list (option string * (Z * Z * Z))) (q : EventQueue) : outcome EventQueue :=
  match cps with
  | [] => Ok q
  | section :: cps =>
      object ← create section;
      unserialize_queue cps (q <| events ::= <[fresh (dom (events q)) := object]> |>)
  end.

(** ** The abstract queue *)

(** A list of events in the order in which they will be serviced; an event goes
    before the events of its own tick and priority. *)
Record spec := MkSpec {
  s_id : Z;
  s_now : Z;
  s_pending : list nat;
  s_async : list nat;
  s_events : heap;
}.
#[export] Instance eta_spec : Eta spec := fun x => MkSpec (s_id x) (s_now x) (s_pending x) (s_async x) (s_events x).

Fixpoint s_place (h : heap) (e : Event) (event : nat) (l : list nat) : list nat :=
  match l with
  | [] => [event]
  | x :: l' =>
      match h !! x with
      | Some ex => if ev_lt ex e then x :: s_place h e event l' else event :: l
      | None => event :: l
      end
  end.

Definition s_on (f : Event -> Event) (event : nat) (a : spec) : outcome spec :=
  h ← hupd f (s_events a) event;
  Ok (a <| s_events := h |>).

Definition s_insert (event : nat) (a : spec) : outcome spec :=
  e ← hget (s_events a) event;
  Ok (a <| s_pending ::= s_place (s_events a) e event |>).

Definition s_remove (event : nat) (a : spec) : outcome spec :=
  match s_pending a with
  | [] => Fail PanicError
  | _ =>
      e ← hget (s_events a) event;
      _ ← ensure AssertFailed (bool_decide (queue e = Some (s_id a)));
      if decide (event ∈ s_pending a) then Ok (a <| s_pending ::= filter (fun x => x <> event) |>)
      else Fail PanicError
  end.

Section abstract.
Context (m : Mode).

Definition s_elsewhere (a : spec) : bool := inParallelMode m && negb (curEventQueue m =? s_id a).

Definition s_schedule (event : nat) (when : Z) (global : bool) (a : spec) : outcome spec :=
  _ ← ensure AssertFailed (s_now a <=? when);
  e ← hget (s_events a) event;
  _ ← ensure AssertFailed (negb (scheduled e));
  _ ← ensure AssertFailed (initialized e);
  a ← s_on (setWhen when (s_id a)) event a;
  a ← (if s_elsewhere a || inParallelMode m && global then Ok (a <| s_async ::= (fun l => l ++ [event]) |>) else s_insert event a);
  s_on (set_flag Scheduled) event a.

Definition s_deschedule (event : nat) (a : spec) : outcome spec :=
  e ← hget (s_events a) event;
  _ ← ensure AssertFailed (scheduled e);
  _ ← ensure AssertFailed (initialized e);
  _ ← ensure AssertFailed (negb (s_elsewhere a));
  a ← s_remove event a;
  a ← s_on (fun e => clear_flag Scheduled (clear_flag Squashed e)) event a;
  e ← hget (s_events a) event;
  if any_set (flags e) AutoDelete then
    h ← delete_event event (s_events a);
    Ok (a <| s_events := h |>)
  else Ok a.

Definition s_reschedule (event : nat) (when : Z) (always : bool) (a : spec) : outcome spec :=
  _ ← ensure AssertFailed (s_now a <=? when);
  e ← hget (s_events a) event;
  _ ← ensure AssertFailed (always || scheduled e);
  _ ← ensure AssertFailed (initialized e);
  _ ← ensure AssertFailed (negb (s_elsewhere a));
  a ← (if scheduled e then s_remove event a else Ok a);
  a ← s_on (setWhen when (s_id a)) event a;
  a ← s_insert event a;
  s_on (fun e => set_flag Scheduled (clear_flag Squashed e)) event a.

Fixpoint s_insert_all (l : list nat) (a : spec) : outcome spec :=
  match l with
  | [] => Ok a
  | event :: l => a ← s_insert event a; s_insert_all l a
  end.

Definition s_op (o : op) (a : spec) : outcome spec :=
  match o with
  | New event p f => h ← new_event event p f (s_events a); Ok (a <| s_events := h |>)
  | Schedule event when global => s_schedule event when global a
  | Deschedule event => s_deschedule event a
  | Reschedule event when always => s_reschedule event when always a
  | Squash event => s_on (set_flag Squashed) event a
  | HandleAsync =>
      _ ← ensure AssertFailed (curEventQueue m =? s_id a);
      a' ← s_insert_all (s_async a) a;
      Ok (a' <| s_async := [] |>)
  end.

Fixpoint s_ops (l : list op) (a : spec) : outcome spec :=
  match l with
  | [] => Ok a
  | o :: l => a ← s_op o a; s_ops l a
  end.

Definition s_pop (a : spec) : outcome (nat * spec) :=
  match s_pending a with
  | [] => Fail Undefined
  | event :: l => a ← s_on (clear_flag Scheduled) event a; Ok (event, a <| s_pending := l |>)
  end.
End abstract.

(** ** Order *)

Definition key (e : Event) : Z * Z := (_when e, _priority e).
Definition klt (a b : Z * Z) : Prop := a.1 < b.1 \/ a.1 = b.1 /\ a.2 < b.2.

Lemma ev_lt_spec a b : ev_lt a b = true <-> klt (key a) (key b).
Proof.
  unfold ev_lt, klt, key. simpl. rewrite orb_true_iff, andb_true_iff, !Z.ltb_lt, Z.eqb_eq. done.
Qed.

Lemma ev_lt_false a b : ev_lt a b = false <-> ~ klt (key a) (key b).
Proof. rewrite <- ev_lt_spec. by destruct (ev_lt a b). Qed.

Lemma ev_le_spec a b : ev_le a b = true <-> ~ klt (key b) (key a).
Proof.
  unfold ev_le, klt, key. simpl. rewrite orb_true_iff, andb_true_iff, Z.ltb_lt, Z.eqb_eq, Z.leb_le. lia.
Qed.

Lemma ev_le_false a b : ev_le a b = false <-> klt (key b) (key a).
Proof.
  unfold ev_le, klt, key. simpl. rewrite orb_false_iff, andb_false_iff, Z.ltb_ge, Z.eqb_neq, Z.leb_gt. lia.
Qed.

Lemma ev_eq_spec a b : ev_eq a b = true <-> key a = key b.
Proof.
  unfold ev_eq, key. rewrite andb_true_iff, !Z.eqb_eq. split; [intros [-> ->]; done|by injection 1].
Qed.

Lemma klt_trans a b c : klt a b -> klt b c -> klt a c.
Proof. unfold klt. lia. Qed.

Lemma klt_irrefl a : ~ klt a a.
Proof. unfold klt. lia. Qed.

Lemma klt_total a b : ~ klt a b -> ~ klt b a -> a = b.
Proof. unfold klt. destruct a, b. simpl. intros. f_equal; lia. Qed.

(** ** The representation *)

Definition links (h : heap) (p : nat) : option (option nat * option nat) := (fun e => (nextBin e, nextInBin e)) <$> h !! p.
Definition keyed (h : heap) (k : Z * Z) (p : nat) : Prop := key <$> h !! p = Some k.

(** The stack from [o]. *)
Fixpoint in_bin (h : heap) (o : option nat) (l : list nat) : Prop :=
  match l with
  | [] => o = None
  | p :: l => o = Some p /\ exists e, h !! p = Some e /\ in_bin h (nextInBin e) l
  end.

(** The list of stacks from [o]. *)
Fixpoint bins (h : heap) (o : option nat) (bs : list (list nat)) : Prop :=
  match bs with
  | [] => o = None
  | [] :: _ => False
  | (t :: l) :: bs => o = Some t /\ exists e, h !! t = Some e /\ in_bin h (nextInBin e) l /\ bins h (nextBin e) bs
  end.

Record linked (h : heap) (o : option nat) (bs : list (list nat)) (ks : list (Z * Z)) : Prop := {
  lk_bins : bins h o bs;
  lk_keys : Forall2 (fun b k => Forall (keyed h k) b) bs ks;
  lk_sorted : StronglySorted klt ks;
  lk_nodup : NoDup (concat bs);
}.

(** *** Reading the structure *)

Lemma hget_ok h p e : hget h p = Ok e <-> h !! p = Some e.
Proof. unfold hget. destruct (h !! p); naive_solver. Qed.

Lemma in_bin_frame h h' l : forall o,
  (forall p, p ∈ l -> snd <$> links h' p = snd <$> links h p) -> in_bin h o l -> in_bin h' o l.
Proof.
  induction l as [|p l IH]; [done|]. intros o Hl (-> & e & He & Hin). split; [done|].
  pose proof (Hl p ltac:(left)) as E. unfold links in E. rewrite He in E. destruct (h' !! p) as [e'|] eqn:He'; [|done].
  simpl in E. injection E as E. exists e'. split; [done|]. rewrite E. apply IH; [|done]. intros x Hx. apply Hl. by right.
Qed.

Lemma bins_frame h h' bs : forall o,
  (forall p, p ∈ concat bs -> links h' p = links h p) -> bins h o bs -> bins h' o bs.
Proof.
  induction bs as [|[|t l] bs IH]; [done|done|]. intros o Hl (-> & e & He & Hin & Hb). split; [done|].
  pose proof (Hl t ltac:(left)) as E. unfold links in E. rewrite He in E. destruct (h' !! t) as [e'|] eqn:He'; [|done].
  simpl in E. injection E as E1 E2. exists e'. split; [done|]. rewrite E1, E2. split.
  - apply (in_bin_frame h); [|done]. intros p Hp. rewrite Hl; [done|]. simpl. rewrite elem_of_cons, elem_of_app. auto.
  - apply IH; [|done]. intros p Hp. apply Hl. simpl. rewrite elem_of_cons, elem_of_app. auto.
Qed.

(** A bin whose top gets another successor. *)
Lemma bins_splice h h' bs1 t l bs2 c' bs2' : forall o,
  bins h o (bs1 ++ (t :: l) :: bs2) -> (forall p, p ∈ concat bs1 -> links h' p = links h p) ->
  (forall p, p ∈ l -> snd <$> links h' p = snd <$> links h p) ->
  (forall x, links h t = Some x -> links h' t = Some (c', x.2)) ->
  bins h' c' bs2' -> bins h' o (bs1 ++ (t :: l) :: bs2').
Proof.
  induction bs1 as [|[|t1 l1] bs1 IH]; [|done|]; intros o.
  - intros (-> & e & He & Hin & _) _ Hl Ht Hb. split; [done|].
    specialize (Ht (nextBin e, nextInBin e)). unfold links in Ht at 1. rewrite He in Ht. specialize (Ht eq_refl).
    unfold links in Ht. destruct (h' !! t) as [e'|] eqn:E; [|done]. simpl in Ht. injection Ht as E1 E2.
    exists e'. rewrite E1, E2. split; [done|]. split; [by eapply in_bin_frame|done].
  - intros (-> & e & He & Hin & Hb) Hf Hl Ht Hb'. split; [done|].
    pose proof (Hf t1 ltac:(left)) as E. unfold links in E. rewrite He in E. destruct (h' !! t1) as [e'|] eqn:He'; [|done].
    simpl in E. injection E as E1 E2. exists e'. split; [done|]. rewrite E1, E2. split.
    + apply (in_bin_frame h); [|done]. intros p Hp. rewrite Hf; [done|]. simpl. rewrite elem_of_cons, elem_of_app. auto.
    + apply IH; try done. intros p Hp. apply Hf. simpl. rewrite elem_of_cons, elem_of_app. auto.
Qed.

Lemma bins_top h o b bs : bins h o (b :: bs) -> exists t l e, b = t :: l /\ o = Some t /\ h !! t = Some e /\
  in_bin h (nextInBin e) l /\ bins h (nextBin e) bs.
Proof. destruct b as [|t l]; [done|]. intros (-> & e & ? & ? & ?). naive_solver. Qed.

Lemma bins_length h o bs : bins h o bs -> (length bs <= length (concat bs))%nat.
Proof.
  revert o. induction bs as [|[|t l] bs IH]; intros o; [done|done|]. intros (_ & e & _ & _ & Hb). apply IH in Hb.
  simpl. rewrite length_app. lia.
Qed.

Lemma in_bin_dom h o l : in_bin h o l -> Forall (fun p => is_Some (h !! p)) l.
Proof. revert o. induction l as [|p l IH]; intros o; [done|]. intros (_ & e & He & Hl). constructor; [done|by eapply IH]. Qed.

Lemma bins_dom h o bs : bins h o bs -> Forall (fun p => is_Some (h !! p)) (concat bs).
Proof.
  revert o. induction bs as [|[|t l] bs IH]; intros o; [done|done|]. intros (_ & e & He & Hl & Hb). simpl.
  constructor; [done|]. apply Forall_app. split; [by eapply in_bin_dom|by eapply IH].
Qed.

(** A list of live objects without repetition fits the fuel of the walks. *)
Lemma dom_size (h : heap) l : NoDup l -> Forall (fun p => is_Some (h !! p)) l -> (length l <= size h)%nat.
Proof.
  intros Hn Hd. rewrite <- (size_dom (D := gset nat) h), <- (size_list_to_set (C := gset nat) l) by done.
  apply subseteq_size. intros p Hp%elem_of_list_to_set. apply elem_of_dom. by eapply Forall_forall in Hd.
Qed.

Lemma linked_fuel h o bs ks : linked h o bs ks -> (length bs <= size h)%nat /\ (length (concat bs) <= size h)%nat.
Proof.
  intros [Hb _ _ Hn]. pose proof (bins_length _ _ _ Hb). pose proof (dom_size h _ Hn (bins_dom _ _ _ Hb)). lia.
Qed.

(** Changes of links only. *)
Lemma strip_insert (h : heap) p e e' : h !! p = Some e -> strip e' = strip e -> strip <$> <[p := e']> h = strip <$> h.
Proof. intros He Hs. rewrite fmap_insert, Hs. apply insert_id. by rewrite lookup_fmap, He. Qed.

Lemma key_of_strip (h h' : heap) p : strip <$> h' = strip <$> h -> key <$> h' !! p = key <$> h !! p.
Proof.
  intros E. assert ((strip <$> h') !! p = (strip <$> h) !! p) as E' by by rewrite E. rewrite !lookup_fmap in E'.
  destruct (h' !! p) as [e'|], (h !! p) as [e|]; try done. simpl in *. injection E' as E1 E2 _ _. unfold key. congruence.
Qed.

Lemma keyed_frame h h' k b : (forall p, p ∈ b -> key <$> h' !! p = key <$> h !! p) -> Forall (keyed h k) b -> Forall (keyed h' k) b.
Proof. intros E. rewrite !Forall_forall. intros Hb p Hp. unfold keyed. rewrite E by done. by apply Hb. Qed.

Lemma keys_frame h h' bs ks : (forall p, p ∈ concat bs -> key <$> h' !! p = key <$> h !! p) ->
  Forall2 (fun b k => Forall (keyed h k) b) bs ks -> Forall2 (fun b k => Forall (keyed h' k) b) bs ks.
Proof.
  intros E. induction 1 as [|b k bs ks Hb _ IH]; constructor.
  - apply (keyed_frame h); [|done]. intros p Hp. apply E. simpl. apply elem_of_app. by left.
  - apply IH. intros p Hp. apply E. simpl. apply elem_of_app. by right.
Qed.

Lemma links_insert_ne h p e q : q <> p -> links (<[p := e]> h) q = links h q.
Proof. intros. unfold links. by rewrite lookup_insert_ne by done. Qed.

Lemma links_insert h p e : links (<[p := e]> h) p = Some (nextBin e, nextInBin e).
Proof. unfold links. by rewrite lookup_insert_eq. Qed.

(** *** The search for a bin *)

Fixpoint top_of (prev : nat) (bs : list (list nat)) : nat :=
  match bs with
  | (t :: _) :: bs => top_of t bs
  | _ => prev
  end.

Lemma find_bin_ok h event e : h !! event = Some e -> forall bs ks fuel prev curr,
  bins h curr bs -> Forall2 (fun b k => Forall (keyed h k) b) bs ks -> (length bs <= fuel)%nat ->
  exists bs1 bs2 ks1 ks2 c, bs = bs1 ++ bs2 /\ ks = ks1 ++ ks2 /\ length bs1 = length ks1 /\
    find_bin fuel event prev curr h = Ok (top_of prev bs1, c) /\ bins h c bs2 /\
    Forall (fun k => klt k (key e)) ks1 /\ match ks2 with [] => True | k :: _ => ~ klt k (key e) end.
Proof.
  intros He. induction bs as [|b bs IH]; intros ks fuel prev curr Hb Hk Hf.
  { simpl in Hb. subst curr. inversion Hk; subst. exists [], [], [], [], None. split_and!; try done. by destruct fuel. }
  pose proof Hb as (t & l & et & -> & -> & Ht & Hin & Hbs)%bins_top. inversion Hk as [|? k ? ks' Hbk Hks]; subst.
  assert (key et = k) as <-. { apply Forall_cons_1 in Hbk as [Hkt _]. unfold keyed in Hkt. rewrite Ht in Hkt. by injection Hkt. }
  assert (find_bin fuel event prev (Some t) h = if ev_lt et e then
    match fuel with O => Fail Undefined | S fuel => find_bin fuel event t (nextBin et) h end else Ok (prev, Some t)) as ->.
  { destruct fuel; simpl; unfold hget; by rewrite Ht, He. }
  destruct (ev_lt et e) eqn:E.
  - apply ev_lt_spec in E. simpl in Hf. destruct fuel as [|fuel]; [lia|].
    destruct (IH ks' fuel t (nextBin et) Hbs Hks ltac:(lia)) as (bs1 & bs2 & ks1 & ks2 & c & -> & -> & Hl & Hfb & Hb2 & Hlt & Hh).
    exists ((t :: l) :: bs1), bs2, (key et :: ks1), ks2, c. split_and!; try done.
    + simpl. by rewrite Hl.
    + by constructor.
  - apply ev_lt_false in E. by exists [], ((t :: l) :: bs), [], (key et :: ks'), (Some t).
Qed.

(** The bin before the place that was found. *)
Lemma top_of_bin h o t l bs1 bs2 : bins h o (((t :: l) :: bs1) ++ bs2) ->
  exists bsa lp, (t :: l) :: bs1 = bsa ++ [top_of t bs1 :: lp].
Proof.
  revert o t l. induction bs1 as [|[|t' l'] bs1 IH]; intros o t l.
  - intros _. by exists [], l.
  - intros (_ & e & _ & _ & []).
  - intros (_ & e & _ & _ & Hb). destruct (IH _ t' l' Hb) as (bsa & lp & E). exists ((t :: l) :: bsa), lp. simpl. by f_equal.
Qed.

(** The bins from [c'] on follow the bin of [t] when its link is set. *)
Lemma relink h h' o bs1 t lp bs2 ks1 k ks2 c' bs2' ks2' e :
  linked h o (bs1 ++ (t :: lp) :: bs2) (ks1 ++ k :: ks2) -> length bs1 = length ks1 ->
  strip <$> h' = strip <$> h -> (forall p, p ∈ concat (bs1 ++ [t :: lp]) -> links h' p = links h p) ->
  linked h' c' bs2' ks2' -> (forall p, p ∈ concat bs2' -> p ∉ concat (bs1 ++ [t :: lp])) ->
  Forall (klt k) ks2' -> h' !! t = Some e ->
  linked (<[t := e <| nextBin := c' |>]> h') o (bs1 ++ (t :: lp) :: bs2') (ks1 ++ k :: ks2').
Proof.
  intros [Hb Hk Hs Hn] Hl Est Hlk [Hb' Hk' Hs' Hn'] Hd Hlt He. set (h2 := <[t := _]> h').
  assert (strip <$> h2 = strip <$> h) as Est2 by (unfold h2; rewrite (strip_insert h' t e); done).
  assert (concat (bs1 ++ (t :: lp) :: bs2) = concat (bs1 ++ [t :: lp]) ++ concat bs2) as Ec.
  { rewrite !concat_app. simpl. by rewrite app_nil_r, <- app_assoc. }
  rewrite Ec in Hn. apply NoDup_app in Hn as (Hn1 & _ & Hn2).
  assert (t ∈ concat (bs1 ++ [t :: lp])) as Hti by (rewrite concat_app; apply elem_of_app; right; left).
  pose proof Hn1 as Hn3. rewrite concat_app in Hn3. apply NoDup_app in Hn3 as (_ & Hdj & Hn3). simpl in Hn3. rewrite app_nil_r in Hn3.
  apply NoDup_cons in Hn3 as [Htl _].
  apply Forall2_app_inv in Hk as [Hk1 Hk2]; [|done]. inversion Hk2 as [|? ? ? ? Hkt _]; subst.
  assert (forall p, key <$> h2 !! p = key <$> h !! p) as Hkey by by intros; apply key_of_strip.
  split.
  - apply (bins_splice h h2 bs1 t lp bs2 c'); try done.
    + intros p Hp. unfold h2. rewrite links_insert_ne. { apply Hlk. rewrite concat_app. apply elem_of_app. by left. }
      intros ->. apply (Hdj t Hp). left.
    + intros p Hp. unfold h2. rewrite links_insert_ne by (intros ->; done). rewrite Hlk; [done|].
      rewrite concat_app. apply elem_of_app. right. simpl. rewrite app_nil_r. by right.
    + intros x Hx. unfold h2. rewrite links_insert. rewrite <- (Hlk t Hti) in Hx. unfold links in Hx. rewrite He in Hx.
      by injection Hx as <-.
    + apply (bins_frame h'); [|done]. intros p Hp. unfold h2. apply links_insert_ne. intros ->. by apply (Hd t Hp).
  - apply Forall2_app; [|constructor].
    + by apply (keys_frame h).
    + by apply (keyed_frame h).
    + apply (keys_frame h'); [|done]. intros p _. apply key_of_strip. congruence.
  - apply StronglySorted_app in Hs as (Hs1 & Hs2 & Hs3). apply StronglySorted_app. split_and!; [|done|].
    + intros a b Ha [->|Hb2]%elem_of_cons; [apply Hs1; [done|left]|]. apply (klt_trans _ k); [apply Hs1; [done|left]|].
      by eapply Forall_forall in Hlt.
    + by constructor.
  - replace (concat (bs1 ++ (t :: lp) :: bs2')) with (concat (bs1 ++ [t :: lp]) ++ concat bs2').
    { apply NoDup_app. split_and!; try done. intros p Hp Hp'. by apply (Hd p Hp'). }
    rewrite !concat_app. simpl. by rewrite app_nil_r, <- app_assoc.
Qed.

(** The same for the bin that a search stopped at. *)
Lemma relink_found h h' o t l bs1 bs2 kx ks1 ks2 c' bs2' ks2' :
  linked h o (((t :: l) :: bs1) ++ bs2) ((kx :: ks1) ++ ks2) -> length bs1 = length ks1 ->
  strip <$> h' = strip <$> h -> (forall p, p ∈ concat ((t :: l) :: bs1) -> links h' p = links h p) ->
  linked h' c' bs2' ks2' -> (forall p, p ∈ concat bs2' -> p ∉ concat ((t :: l) :: bs1)) ->
  (forall k, k ∈ kx :: ks1 -> Forall (klt k) ks2') ->
  exists h2, hupd (fun e => e <| nextBin := c' |>) h' (top_of t bs1) = Ok h2 /\
    linked h2 o (((t :: l) :: bs1) ++ bs2') ((kx :: ks1) ++ ks2') /\ strip <$> h2 = strip <$> h.
Proof.
  intros Hlk Hl Est Hlinks Hlk' Hd Hlt. destruct (top_of_bin _ _ _ _ _ _ (lk_bins _ _ _ _ Hlk)) as (bsa & lp & E).
  destruct (exists_last (l := kx :: ks1)) as (ksa & k & Ek); [done|]. rewrite E in Hlk, Hlinks, Hd |- *. rewrite Ek in Hlk, Hlt |- *.
  assert (length bsa = length ksa) as Hl'.
  { apply (f_equal length) in E, Ek. rewrite length_app in E, Ek. simpl in E, Ek. lia. }
  rewrite <- !app_assoc in Hlk |- *. simpl in Hlk |- *. set (p := top_of t bs1) in *.
  assert (is_Some (h' !! p)) as [e He].
  { assert (is_Some (h !! p)) as [x Hx].
    { pose proof (bins_dom _ _ _ (lk_bins _ _ _ _ Hlk)) as Hdom. rewrite Forall_forall in Hdom. apply Hdom.
      rewrite concat_app. simpl. set_solver. }
    assert ((strip <$> h') !! p = Some (strip x)) as Hp by by rewrite Est, lookup_fmap, Hx.
    rewrite lookup_fmap in Hp. by destruct (h' !! p). }
  unfold hupd. rewrite (proj2 (hget_ok _ _ _) He). cbn [mbind outcome_bind]. eexists. split; [reflexivity|]. split.
  - apply (relink h h' o bsa p lp bs2 ksa k ks2); try done. apply Hlt. set_solver.
  - by rewrite (strip_insert h' p e).
Qed.

(** The bins after those the search passed. *)
Lemma linked_after h o t l bs1 bs2 kx ks1 ks2 c :
  linked h o (((t :: l) :: bs1) ++ bs2) ((kx :: ks1) ++ ks2) -> length bs1 = length ks1 -> bins h c bs2 -> linked h c bs2 ks2.
Proof.
  intros [_ Hk Hs Hn] Hl Hb. apply Forall2_app_inv in Hk as [_ Hk]; [|simpl; by rewrite Hl]. split; try done.
  - by apply StronglySorted_app_1_r in Hs.
  - rewrite concat_app in Hn. by apply NoDup_app in Hn as (_ & _ & Hn).
Qed.

Lemma linked_apart h o t l bs1 bs2 kx ks1 ks2 :
  linked h o (((t :: l) :: bs1) ++ bs2) ((kx :: ks1) ++ ks2) ->
  (forall p, p ∈ concat bs2 -> p ∉ concat ((t :: l) :: bs1)) /\ (forall k, k ∈ kx :: ks1 -> Forall (klt k) ks2).
Proof.
  intros [_ _ Hs Hn]. split.
  - rewrite concat_app in Hn. apply NoDup_app in Hn as (_ & Hn & _). intros p Hp Hp'. by apply (Hn p).
  - apply StronglySorted_app in Hs as (Hs & _ & _). intros k Hk. apply Forall_forall. intros k' Hk'. by apply Hs.
Qed.

(** *** Insertion *)

Lemma s_place_split h e event l1 l2 :
  (forall p, p ∈ l1 -> exists x, h !! p = Some x /\ klt (key x) (key e)) ->
  match l2 with [] => True | p :: _ => forall x, h !! p = Some x -> ~ klt (key x) (key e) end ->
  s_place h e event (l1 ++ l2) = l1 ++ event :: l2.
Proof.
  intros H1 H2. induction l1 as [|p l1 IH].
  - destruct l2 as [|p l2]; [done|]. simpl. destruct (h !! p) as [x|] eqn:E; [|done].
    specialize (H2 x eq_refl). by rewrite (proj2 (ev_lt_false x e)).
  - simpl. destruct (H1 p ltac:(left)) as (x & -> & Hx). rewrite (proj2 (ev_lt_spec x e)) by done. f_equal. apply IH.
    intros y Hy. apply H1. by right.
Qed.

Lemma s_place_perm h e event l : s_place h e event l ≡ₚ event :: l.
Proof.
  induction l as [|x l IH]; [done|]. simpl. destruct (h !! x) as [ex|]; [|done]. destruct (ev_lt ex e); [|done].
  rewrite IH. apply Permutation_swap.
Qed.

Lemma keys_in_bins h bs ks p : Forall2 (fun b k => Forall (keyed h k) b) bs ks -> p ∈ concat bs ->
  exists k, k ∈ ks /\ keyed h k p.
Proof.
  induction 1 as [|b k bs ks Hb _ IH]; simpl; [by intros ?%elem_of_nil|]. intros [Hp|Hp]%elem_of_app.
  - exists k. split; [left|]. by eapply Forall_forall in Hb.
  - destruct (IH Hp) as (k' & ? & ?). exists k'. split; [by right|done].
Qed.

(** Where the bins [bs1] are before the event and the bins [bs2] are not. *)
Lemma place_bins h e event bs1 bs2 ks1 ks2 :
  Forall2 (fun b k => Forall (keyed h k) b) bs1 ks1 -> Forall2 (fun b k => Forall (keyed h k) b) bs2 ks2 ->
  Forall (fun b => b <> []) bs2 -> Forall (fun k => klt k (key e)) ks1 ->
  match ks2 with [] => True | k :: _ => ~ klt k (key e) end ->
  s_place (strip <$> h) (strip e) event (concat (bs1 ++ bs2)) = concat bs1 ++ event :: concat bs2.
Proof.
  intros Hk1 Hk2 Hne Hlt Hh. rewrite concat_app. apply s_place_split.
  - intros p Hp. destruct (keys_in_bins _ _ _ _ Hk1 Hp) as (k & Hk & E). unfold keyed in E.
    destruct (h !! p) as [x|] eqn:Ex; [|done]. simpl in E. injection E as <-.
    exists (strip x). split; [by rewrite lookup_fmap, Ex|]. by eapply Forall_forall in Hlt.
  - destruct Hk2 as [|b k bs2 ks2 Hb _]; [done|]. inversion Hne; subst. destruct b as [|p b]; [done|]. simpl. intros x.
    rewrite lookup_fmap. apply Forall_cons_1 in Hb as [E _]. unfold keyed in E. destruct (h !! p) as [y|]; [|done].
    injection E as <-. by injection 1 as <-.
Qed.

Lemma bins_nonempty h o bs : bins h o bs -> Forall (fun b => b <> []) bs.
Proof. revert o. induction bs as [|[|t l] bs IH]; intros o; [done|done|]. intros (_ & e & _ & _ & Hb). constructor; [done|by eapply IH]. Qed.

(** A bin of its own before the others. *)
Lemma new_bin h event e c bs ks :
  linked h c bs ks -> h !! event = Some e -> event ∉ concat bs -> Forall (klt (key e)) ks ->
  linked (<[event := e <| nextBin := c |> <| nextInBin := None |>]> h) (Some event) ([event] :: bs) (key e :: ks).
Proof.
  intros [Hb Hk Hs Hn] He Hni Hlt. set (e' := _ <| nextInBin := _ |>).
  assert (strip <$> <[event := e']> h = strip <$> h) as Est by by apply (strip_insert h event e).
  split.
  - split; [done|]. exists e'. rewrite lookup_insert_eq. split_and!; try done.
    apply (bins_frame h); [|done]. intros p Hp. apply links_insert_ne. set_solver.
  - constructor; [|apply (keys_frame h); [|done]; intros; by apply key_of_strip].
    constructor; [|done]. unfold keyed. by rewrite lookup_insert_eq.
  - by constructor.
  - simpl. by apply NoDup_cons.
Qed.

(** A new top of the first bin. *)
Lemma new_top h event e t x l bs ks :
  linked h (Some t) ((t :: l) :: bs) (key e :: ks) -> h !! event = Some e -> h !! t = Some x -> event ∉ concat ((t :: l) :: bs) ->
  linked (<[event := e <| nextBin := nextBin x |> <| nextInBin := Some t |>]> h) (Some event) ((event :: t :: l) :: bs) (key e :: ks).
Proof.
  intros [Hb Hk Hs Hn] He Ht Hni. set (e' := _ <| nextInBin := _ |>).
  assert (strip <$> <[event := e']> h = strip <$> h) as Est by by apply (strip_insert h event e).
  destruct Hb as (_ & x' & Hx & Hin & Hb). rewrite Ht in Hx. injection Hx as <-.
  assert (forall p, p ∈ concat ((t :: l) :: bs) -> links (<[event := e']> h) p = links h p) as Hlk
    by (intros p Hp; apply links_insert_ne; set_solver).
  simpl in Hni, Hlk. split.
  - split; [done|]. exists e'. rewrite lookup_insert_eq. split; [done|]. split.
    + split; [done|]. exists x. rewrite lookup_insert_ne by set_solver. split; [done|].
      apply (in_bin_frame h); [|done]. intros p Hp. rewrite Hlk by set_solver. done.
    + apply (bins_frame h); [|done]. intros p Hp. apply Hlk. set_solver.
  - inversion Hk as [|? ? ? ? Hk1 Hk2]; subst. constructor; [constructor|].
    + unfold keyed. by rewrite lookup_insert_eq.
    + apply (keyed_frame h); [|done]. intros. by apply key_of_strip.
    + apply (keys_frame h); [|done]. intros. by apply key_of_strip.
  - done.
  - simpl. by apply NoDup_cons.
Qed.

(** The link part of an insertion at a place where the bins that follow are not
    before the event. *)
Lemma insertBefore_ok h event e c bs ks :
  linked h c bs ks -> h !! event = Some e -> event ∉ concat bs ->
  match ks with [] => True | k :: _ => ~ klt k (key e) end ->
  exists e' bs' ks', insertBefore event c h = Ok (event, <[event := e']> h) /\ strip e' = strip e /\
    linked (<[event := e']> h) (Some event) bs' ks' /\ concat bs' = event :: concat bs /\
    (forall k, klt k (key e) -> Forall (klt k) ks -> Forall (klt k) ks').
Proof.
  intros Hlk He Hni Hh. unfold insertBefore, hupd. rewrite (proj2 (hget_ok h event e) He). cbn [mbind outcome_bind].
  destruct c as [t|].
  - destruct bs as [|b bs]; [by destruct Hlk|]. pose proof (lk_bins _ _ _ _ Hlk) as (t' & l & x & -> & [= <-] & Ht & _)%bins_top.
    pose proof (lk_keys _ _ _ _ Hlk) as Hk. inversion Hk as [|? k ? ks' Hk1 _]; subst.
    apply Forall_cons_1 in Hk1 as [Hk1 _]. unfold keyed in Hk1. rewrite Ht in Hk1. injection Hk1 as <-.
    rewrite (proj2 (hget_ok h t x) Ht). cbn [mbind outcome_bind]. destruct (ev_lt e x) eqn:E.
    + apply ev_lt_spec in E. exists (e <| nextBin := Some t |> <| nextInBin := None |>), ([event] :: (t :: l) :: bs), (key e :: key x :: ks').
      split_and!; try done; [|by intros; constructor]. apply new_bin; try done.
      pose proof (lk_sorted _ _ _ _ Hlk) as Hs. inversion Hs as [|? ? Hs' Hs1]; subst. constructor; [done|].
      eapply Forall_impl; [exact Hs1|]. intros k. by apply klt_trans.
    + apply ev_lt_false in E. assert (key x = key e) as Ek by by apply klt_total. rewrite Ek in Hlk.
      eexists _, ((event :: t :: l) :: bs), (key e :: ks'). split; [reflexivity|]. split_and!; try done; [by apply new_top|].
      intros k Hk' Hf. inversion Hf; subst. by constructor.
  - destruct bs as [|b bs]; [|by pose proof (lk_bins _ _ _ _ Hlk) as (? & ? & ? & _ & ? & _)%bins_top].
    pose proof (lk_keys _ _ _ _ Hlk) as Hk. inversion Hk; subst. eexists _, [[event]], [key e]. split; [reflexivity|].
    split_and!; try done; [by apply new_bin|by intros; constructor].
Qed.

Lemma insert_ok q event e bs ks :
  linked (events q) (head q) bs ks -> events q !! event = Some e -> event ∉ concat bs ->
  exists q' bs' ks', insert event q = Ok q' /\ linked (events q') (head q') bs' ks' /\
    concat bs' = s_place (strip <$> events q) (strip e) event (concat bs) /\ strip <$> events q' = strip <$> events q /\
    qid q' = qid q /\ _curTick q' = _curTick q /\ async_queue q' = async_queue q.
Proof.
  intros Hlk He Hni. pose proof (lk_keys _ _ _ _ Hlk) as Hk. pose proof (lk_bins _ _ _ _ Hlk) as Hb.
  assert (forall e', strip e' = strip e -> strip <$> <[event := e']> (events q) = strip <$> events q) as Hst
    by (intros; by apply (strip_insert _ event e)).
  unfold insert. destruct (head q) as [hd|] eqn:Hhd.
  - destruct bs as [|b bs]; [done|]. destruct (bins_top _ _ _ _ Hb) as (t & l & x & -> & [= ->] & Ht & _ & Hb').
    inversion Hk as [|? k ? ks' Hk1 Hks]; subst. assert (k = key x) as ->.
    { apply Forall_cons_1 in Hk1 as [Hk1 _]. unfold keyed in Hk1. rewrite Ht in Hk1. by injection Hk1. }
    rewrite (proj2 (hget_ok _ _ _) He), (proj2 (hget_ok _ _ _) Ht). cbn [mbind outcome_bind]. destruct (ev_le e x) eqn:E.
    + apply ev_le_spec in E. destruct (insertBefore_ok _ event e _ _ _ Hlk He Hni E) as (e' & bs' & ks2 & -> & Es & Hlk' & Ec & _).
      cbn [mbind outcome_bind]. eexists _, bs', ks2. split; [reflexivity|]. simpl. split_and!; try done; [|by apply Hst].
      rewrite Ec. symmetry. apply (place_bins _ e event [] ((t :: l) :: bs) [] (key x :: ks')); try done. by eapply bins_nonempty.
    + apply ev_le_false in E. destruct (linked_fuel _ _ _ _ Hlk) as [Hf _]. simpl in Hf.
      destruct (find_bin_ok _ event e He bs ks' (size (events q)) t (nextBin x) Hb' Hks ltac:(lia))
        as (bs1 & bs2 & ks1 & ks2 & c & -> & -> & Hl & -> & Hb2 & Hlt & Hh).
      cbn [mbind outcome_bind]. apply Forall2_app_inv in Hks as [Hks1 Hks2]; [|done].
      pose proof (linked_after _ _ t l bs1 bs2 (key x) ks1 ks2 c Hlk Hl Hb2) as Hlk2.
      destruct (linked_apart _ _ t l bs1 bs2 (key x) ks1 ks2 Hlk) as [Hap Hkap].
      assert (event ∉ concat bs2) as Hni2 by (simpl in Hni; rewrite concat_app in Hni; set_solver).
      destruct (insertBefore_ok _ event e _ _ _ Hlk2 He Hni2 Hh) as (e' & bs' & ks'' & -> & Es & Hlk' & Ec & Hlt').
      cbn [mbind outcome_bind].
      destruct (relink_found (events q) (<[event := e']> (events q)) (Some t) t l bs1 bs2 (key x) ks1 ks2 (Some event) bs' ks'')
        as (h2 & -> & Hlk2' & Est2); try done.
      { by apply Hst. }
      { intros p Hp. apply links_insert_ne. intros ->. apply Hni. simpl in Hp |- *. rewrite concat_app. set_solver. }
      { intros p. rewrite Ec. intros [->|Hp]%elem_of_cons; [|by apply Hap]. simpl in Hni |- *. rewrite concat_app in Hni. set_solver. }
      { intros k Hk'. apply Hlt'; [|by apply Hkap]. apply elem_of_cons in Hk' as [->|Hk']; [done|]. by eapply Forall_forall in Hlt. }
      assert (concat (((t :: l) :: bs1) ++ bs') = s_place (strip <$> events q) (strip e) event (concat (((t :: l) :: bs1) ++ bs2))) as Epl.
      { rewrite (place_bins _ e event ((t :: l) :: bs1) bs2 (key x :: ks1) ks2); try done; [|by constructor|by eapply bins_nonempty|by constructor].
        by rewrite concat_app, Ec. }
      cbn [mbind outcome_bind]. eexists _, _, _. split; [reflexivity|]. cbn. rewrite Hhd. by split_and!.
  - destruct bs as [|b bs]; [|by destruct (bins_top _ _ _ _ Hb) as (? & ? & ? & _ & ? & _)].
    inversion Hk; subst. destruct (insertBefore_ok _ event e _ _ _ Hlk He Hni I) as (e' & bs' & ks' & -> & Es & Hlk' & Ec & _).
    cbn [mbind outcome_bind]. eexists _, bs', ks'. split; [reflexivity|]. simpl. split_and!; try done. by apply Hst.
Qed.

(** *** Removal *)

Lemma find_item_ok h event l : forall fuel curr next,
  in_bin h next l -> (length l <= fuel)%nat ->
  (event ∉ l -> find_item fuel event curr next h = Fail PanicError) /\
  (event ∈ l -> exists l1 l2 p, l = l1 ++ event :: l2 /\ last (curr :: l1) = Some p /\ find_item fuel event curr next h = Ok p).
Proof.
  induction l as [|x l IH]; intros fuel curr next Hin Hf.
  { simpl in Hin. subst next. split; [by destruct fuel|by intros ?%elem_of_nil]. }
  destruct Hin as (-> & e & He & Hin). simpl in Hf. destruct fuel as [|fuel]; [lia|].
  simpl. unfold hget. rewrite He. cbn [mbind outcome_bind]. destruct (decide (x = event)) as [->|Hne].
  - split; [intros Hn; by rewrite not_elem_of_cons in Hn; naive_solver|]. intros _. by exists [], l, curr.
  - destruct (IH fuel x (nextInBin e) Hin ltac:(lia)) as [IH1 IH2]. split.
    + intros Hn. apply IH1. set_solver.
    + intros [->|Hx]%elem_of_cons; [done|]. destruct (IH2 Hx) as (l1 & l2 & p & -> & Hp & E). exists (x :: l1), l2, p. done.
Qed.

(** Unlinking below the top. *)
Lemma in_bin_unlink h l1 : forall o l2 event p e ee,
  in_bin h o (l1 ++ p :: event :: l2) -> NoDup (l1 ++ p :: event :: l2) -> h !! p = Some e -> h !! event = Some ee ->
  in_bin (<[p := e <| nextInBin := nextInBin ee |>]> h) o (l1 ++ p :: l2).
Proof.
  induction l1 as [|x l1 IH]; intros o l2 event p e ee Hin Hn He Hee; simpl in *.
  - destruct Hin as (-> & e1 & E1 & _ & e2 & E2 & Hin). rewrite He in E1. injection E1 as <-. rewrite Hee in E2. injection E2 as <-.
    split; [done|]. eexists. rewrite lookup_insert_eq. split; [done|]. simpl.
    apply (in_bin_frame h); [|done]. intros x Hx. rewrite links_insert_ne; [done|]. rewrite !NoDup_cons in Hn. set_solver.
  - destruct Hin as (-> & e1 & E1 & Hin). apply NoDup_cons in Hn as [Hx Hn]. split; [done|]. exists e1.
    rewrite lookup_insert_ne by set_solver. split; [done|]. by apply (IH _ _ event).
Qed.

Lemma filter_absent event (l : list nat) : event ∉ l -> filter (fun x => x <> event) l = l.
Proof.
  induction l as [|x l IH]; [done|]. rewrite not_elem_of_cons. intros [Hx Hl]. rewrite filter_cons_True by done. by rewrite IH.
Qed.

Lemma filter_split event (l1 l2 : list nat) : NoDup (l1 ++ event :: l2) -> filter (fun x => x <> event) (l1 ++ event :: l2) = l1 ++ l2.
Proof.
  intros (H1 & H2 & [H3 H4]%NoDup_cons)%NoDup_app. rewrite filter_app, filter_cons_False by (by intros []).
  rewrite !filter_absent; [done|done|]. intros Hx. apply (H2 event Hx). left.
Qed.

Lemma removeItem_ok h event t et l :
  h !! t = Some et -> in_bin h (nextInBin et) l -> NoDup (t :: l) -> event ∈ t :: l -> (length l <= size h)%nat ->
  exists o' h', removeItem event t h = Ok (o', h') /\ strip <$> h' = strip <$> h /\
    (forall p, p ∉ t :: l -> links h' p = links h p) /\
    match filter (fun x => x <> event) (t :: l) with
    | [] => o' = nextBin et
    | t' :: l' => o' = Some t' /\ exists e', h' !! t' = Some e' /\ in_bin h' (nextInBin e') l' /\ nextBin e' = nextBin et
    end.
Proof.
  intros Ht Hin Hn Hev Hf. unfold removeItem, hupd. rewrite (proj2 (hget_ok _ _ _) Ht). cbn [mbind outcome_bind].
  destruct (decide (event = t)) as [->|Hne].
  - change (t :: l) with ([] ++ t :: l) at 2. rewrite (filter_split t [] l Hn). simpl. destruct l as [|t' l]; simpl in Hin.
    { rewrite Hin. by eexists _, h. }
    destruct Hin as (-> & e' & He' & Hin). rewrite (proj2 (hget_ok _ _ _) He'). cbn [mbind outcome_bind].
    eexists _, _. split; [reflexivity|]. rewrite (strip_insert h t' e') by done. split; [done|]. split.
    { intros p Hp. apply links_insert_ne. set_solver. }
    split; [done|]. eexists. rewrite lookup_insert_eq. split; [done|]. split; [|done]. simpl. apply (in_bin_frame h); [|done].
    intros p Hp. rewrite links_insert_ne; [done|]. rewrite !NoDup_cons in Hn. set_solver.
  - apply elem_of_cons in Hev as [->|Hev]; [done|].
    destruct (proj2 (find_item_ok h event l _ t _ Hin Hf) Hev) as (l1 & l2 & p & -> & Hp & ->). cbn [mbind outcome_bind].
    assert (forall x, x ∈ t :: l1 ++ event :: l2 -> is_Some (h !! x)) as Hd.
    { intros x [->|Hx]%elem_of_cons; [done|]. pose proof (in_bin_dom _ _ _ Hin) as Hd. rewrite Forall_forall in Hd. by apply Hd. }
    destruct (Hd event) as [ee Hee]; [set_solver|]. apply last_Some in Hp as [l0 Hp].
    assert (p ∈ t :: l1) as Hpi by (rewrite Hp; set_solver).
    destruct (Hd p) as [ep Hep]; [set_solver|]. rewrite (proj2 (hget_ok _ _ _) Hee). cbn [mbind outcome_bind].
    rewrite (proj2 (hget_ok _ _ _) Hep). cbn [mbind outcome_bind]. eexists _, _. split; [reflexivity|].
    rewrite (strip_insert h p ep) by done. split; [done|].
    split; [intros x Hx; apply links_insert_ne; set_solver|].
    rewrite app_comm_cons, filter_split by done. simpl. split; [done|].
    destruct l0 as [|t0 l0]; injection Hp as Et Hp.
    + subst t l1. rewrite Ht in Hep. injection Hep as <-. eexists. rewrite lookup_insert_eq. split; [done|]. simpl. split; [|done].
      destruct Hin as (_ & e2 & E2 & Hin). rewrite Hee in E2. injection E2 as <-.
      apply (in_bin_frame h); [|done]. intros x Hx. rewrite links_insert_ne; [done|]. rewrite !NoDup_cons in Hn. set_solver.
    + subst t0 l1. exists et. rewrite <- app_assoc in Hn, Hin |- *. simpl in Hn, Hin |- *. apply NoDup_cons in Hn as [Htn Hn].
      rewrite lookup_insert_ne by set_solver. split; [done|]. split; [|done]. by apply (in_bin_unlink h l0 _ l2 event p ep ee).
Qed.

(** Removal from the first bin. *)
Lemma remove_first h event t l bs k ks :
  linked h (Some t) ((t :: l) :: bs) (k :: ks) -> event ∈ t :: l ->
  exists o' h' bs' ks', removeItem event t h = Ok (o', h') /\ strip <$> h' = strip <$> h /\
    (forall p, p ∉ t :: l -> links h' p = links h p) /\ linked h' o' bs' ks' /\
    concat bs' = filter (fun x => x <> event) (concat ((t :: l) :: bs)) /\
    (forall k', Forall (klt k') (k :: ks) -> Forall (klt k') ks').
Proof.
  intros Hlk Hev. destruct (linked_fuel _ _ _ _ Hlk) as [_ Hf]. destruct Hlk as [(_ & et & Ht & Hin & Hb) Hk Hs Hn].
  simpl in Hf, Hn. rewrite length_app in Hf. rewrite app_comm_cons in Hn. pose proof Hn as (Hn1 & Hd & Hn2)%NoDup_app.
  destruct (removeItem_ok h event t et l Ht Hin Hn1 Hev ltac:(lia)) as (o' & h' & E & Est & Hlk & Hm).
  inversion Hk as [|? ? ? ? Hk1 Hk2]; subst. inversion Hs as [|? ? Hs1 Hs2]; subst.
  assert (filter (fun x => x <> event) (concat ((t :: l) :: bs)) = filter (fun x => x <> event) (t :: l) ++ concat bs) as Ec.
  { simpl concat. rewrite app_comm_cons, filter_app. f_equal. apply filter_absent. by apply Hd. }
  assert (bins h' (nextBin et) bs) as Hb'.
  { apply (bins_frame h); [|done]. intros p Hp. apply Hlk. intros Hp'. by apply (Hd p). }
  assert (Forall2 (fun b k => Forall (keyed h' k) b) bs ks) as Hk2' by (apply (keys_frame h); [intros; by apply key_of_strip|done]).
  destruct (filter (fun x => x <> event) (t :: l)) as [|t' l'] eqn:Ef.
  - subst o'. exists (nextBin et), h', bs, ks. split_and!; try done. intros k' Hf'. by inversion Hf'.
  - destruct Hm as (-> & e' & He' & Hin' & En). exists (Some t'), h', ((t' :: l') :: bs), (k :: ks). split_and!; try done.
    assert (forall p, p ∈ t' :: l' -> p ∈ t :: l) as Hsub by (intros p; rewrite <- Ef, list_elem_of_filter; naive_solver).
    split; try done.
    + split; [done|]. exists e'. rewrite En. done.
    + constructor; [|done]. apply (keyed_frame h); [intros; by apply key_of_strip|].
      rewrite Forall_forall in Hk1 |- *. intros p Hp. by apply Hk1, Hsub.
    + change (concat ((t' :: l') :: bs)) with ((t' :: l') ++ concat bs). apply NoDup_app. split_and!; [|intros p Hp; by apply Hd, Hsub|done]. rewrite <- Ef. by apply NoDup_filter.
Qed.

(** An event is in the bin of its tick and priority. *)
Lemma first_key h o b bs k ks event e :
  linked h o (b :: bs) (k :: ks) -> event ∈ concat (b :: bs) -> h !! event = Some e -> ~ klt k (key e) ->
  k = key e /\ event ∈ b.
Proof.
  intros [_ Hk Hs _] Hev He Hlt. inversion Hk as [|? ? ? ? Hk1 Hk2]; subst. inversion Hs as [|? ? _ Hs2]; subst.
  simpl in Hev. apply elem_of_app in Hev as [Hev|Hev].
  - split; [|done]. eapply Forall_forall in Hk1; [|done]. unfold keyed in Hk1. rewrite He in Hk1. by injection Hk1.
  - destruct (keys_in_bins _ _ _ _ Hk2 Hev) as (k' & Hk' & E). unfold keyed in E. rewrite He in E. injection E as <-.
    by eapply Forall_forall in Hs2.
Qed.

Lemma removeItem_panic h event t et l :
  h !! t = Some et -> in_bin h (nextInBin et) l -> event ∉ t :: l -> (length l <= size h)%nat ->
  removeItem event t h = Fail PanicError.
Proof.
  intros Ht Hin Hn Hf. unfold removeItem. rewrite (proj2 (hget_ok _ _ _) Ht). cbn [mbind outcome_bind]. apply not_elem_of_cons in Hn as [Hne Hn].
  rewrite decide_False by done. by rewrite (proj1 (find_item_ok h event l _ t _ Hin Hf) Hn).
Qed.

(** An event that is not in the passed bins or not before the first of the others. *)
Lemma passed_bins h t l bs1 kx ks1 event e :
  Forall2 (fun b k => Forall (keyed h k) b) ((t :: l) :: bs1) (kx :: ks1) -> Forall (fun k => klt k (key e)) (kx :: ks1) ->
  h !! event = Some e -> event ∉ concat ((t :: l) :: bs1).
Proof.
  intros Hk Hlt He Hp. destruct (keys_in_bins _ _ _ _ Hk Hp) as (k & Hk' & E). unfold keyed in E. rewrite He in E.
  injection E as <-. eapply Forall_forall in Hlt; [|done]. by apply klt_irrefl in Hlt.
Qed.

Lemma remove_ok q event e bs ks :
  linked (events q) (head q) bs ks -> events q !! event = Some e -> queue e = Some (qid q) -> event ∈ concat bs ->
  exists q' bs' ks', remove event q = Ok q' /\ linked (events q') (head q') bs' ks' /\
    concat bs' = filter (fun x => x <> event) (concat bs) /\ strip <$> events q' = strip <$> events q /\
    qid q' = qid q /\ _curTick q' = _curTick q /\ async_queue q' = async_queue q.
Proof.
  intros Hlk He Hq Hev. pose proof (lk_keys _ _ _ _ Hlk) as Hk. unfold remove. destruct bs as [|b bs]; [by apply elem_of_nil in Hev|].
  destruct (bins_top _ _ _ _ (lk_bins _ _ _ _ Hlk)) as (t & l & x & -> & Hhd & Ht & _ & Hb'). rewrite Hhd in Hlk |- *.
  inversion Hk as [|? k ? ks' Hk1 Hks]; subst. assert (k = key x) as ->.
  { apply Forall_cons_1 in Hk1 as [Hk1 _]. unfold keyed in Hk1. rewrite Ht in Hk1. by injection Hk1. }
  rewrite (proj2 (hget_ok _ _ _) He). cbn [mbind outcome_bind]. rewrite bool_decide_true by done. simpl ensure. cbn [mbind outcome_bind].
  rewrite (proj2 (hget_ok _ _ _) Ht). cbn [mbind outcome_bind]. destruct (ev_eq x e) eqn:E.
  - apply ev_eq_spec in E. destruct (first_key _ _ _ _ _ _ event e Hlk Hev He) as [_ Hin]; [rewrite E; apply klt_irrefl|].
    destruct (remove_first _ event t l bs _ ks' Hlk Hin) as (o' & h' & bs' & ks2 & -> & Est & _ & Hlk' & Ec & _).
    cbn [mbind outcome_bind]. eexists _, bs', ks2. split; [reflexivity|]. simpl. split_and!; done.
  - assert (key x <> key e) as Hne by (intros Ek; apply ev_eq_spec in Ek; congruence).
    destruct (linked_fuel _ _ _ _ Hlk) as [Hf _]. simpl in Hf.
    destruct (find_bin_ok _ event e He bs ks' (size (events q)) t (nextBin x) Hb' Hks ltac:(lia))
      as (bs1 & bs2 & ks1 & ks2 & c & -> & -> & Hl & -> & Hb2 & Hlt & Hh).
    cbn [mbind outcome_bind]. pose proof (linked_after _ _ t l bs1 bs2 (key x) ks1 ks2 c Hlk Hl Hb2) as Hlk2.
    destruct (linked_apart _ _ t l bs1 bs2 (key x) ks1 ks2 Hlk) as [Hap Hkap].
    destruct (ev_lt x e) eqn:Ex.
    2: { apply ev_lt_false in Ex. by destruct (first_key _ _ _ _ _ _ event e Hlk Hev He Ex). }
    apply ev_lt_spec in Ex. assert (Forall (fun k => klt k (key e)) (key x :: ks1)) as Hlt' by by constructor.
    assert (event ∈ concat bs2) as Hev2.
    { rewrite app_comm_cons, concat_app in Hev. apply elem_of_app in Hev as [Hev|Hev]; [|done]. exfalso. revert Hev.
      apply (passed_bins (events q) t l bs1 (key x) ks1 event e); try done. constructor; [done|].
      by apply Forall2_app_inv in Hks as [? _]. }
    destruct bs2 as [|b2 bs2]; [by apply elem_of_nil in Hev2|]. pose proof (lk_keys _ _ _ _ Hlk2) as Hk2. inversion Hk2 as [|? k2 ? ks2' Hkb _]; subst.
    destruct (bins_top _ _ _ _ Hb2) as (t2 & l2 & y & -> & -> & Ht2 & _ & _).
    destruct (first_key _ _ _ _ _ _ event e Hlk2 Hev2 He Hh) as [-> Hin].
    assert (key y = key e) as Ey. { apply Forall_cons_1 in Hkb as [Hkb _]. unfold keyed in Hkb. rewrite Ht2 in Hkb. by apply (inj Some) in Hkb. }
    rewrite (proj2 (hget_ok _ _ _) Ht2). cbn [mbind outcome_bind]. rewrite (proj2 (ev_eq_spec y e) Ey).
    destruct (remove_first _ event t2 l2 bs2 _ ks2' Hlk2 Hin) as (o' & h' & bs' & ks3 & -> & Est & Hln & Hlk' & Ec & Hmono).
    cbn [mbind outcome_bind].
    destruct (relink_found (events q) h' (Some t) t l bs1 ((t2 :: l2) :: bs2) (key x) ks1 (key e :: ks2') o' bs' ks3) as (h2 & -> & Hlk3 & Est3); try done.
    { intros p Hp. apply Hln. intros Hp'. apply (Hap p); [|done]. simpl. set_solver. }
    { intros p. rewrite Ec, list_elem_of_filter. intros [_ Hp]. by apply Hap. }
    { intros k Hk'. by apply Hmono, Hkap. }
    assert (concat (((t :: l) :: bs1) ++ bs') = filter (fun x => x <> event) (concat (((t :: l) :: bs1) ++ (t2 :: l2) :: bs2))) as Ef.
    { rewrite !(concat_app ((t :: l) :: bs1)), filter_app, Ec. f_equal. symmetry. apply filter_absent. by apply Hap. }
    cbn [mbind outcome_bind]. eexists _, _, _. split; [reflexivity|]. cbn -[filter]. rewrite Hhd. by split_and!.
Qed.

Lemma remove_panic q event e b bs ks :
  linked (events q) (head q) (b :: bs) ks -> events q !! event = Some e -> queue e = Some (qid q) -> event ∉ concat (b :: bs) ->
  remove event q = Fail PanicError.
Proof.
  intros Hlk He Hq Hev. pose proof (lk_keys _ _ _ _ Hlk) as Hk. unfold remove. destruct (linked_fuel _ _ _ _ Hlk) as [Hf Hfc].
  destruct (bins_top _ _ _ _ (lk_bins _ _ _ _ Hlk)) as (t & l & x & -> & Hhd & Ht & Hin & Hb'). rewrite Hhd in Hlk |- *.
  inversion Hk as [|? k ? ks' Hk1 Hks]; subst. simpl in Hf, Hfc, Hev. rewrite length_app in Hfc.
  rewrite (proj2 (hget_ok _ _ _) He). cbn [mbind outcome_bind]. rewrite bool_decide_true by done. simpl ensure. cbn [mbind outcome_bind].
  rewrite (proj2 (hget_ok _ _ _) Ht). cbn [mbind outcome_bind]. destruct (ev_eq x e) eqn:E.
  { rewrite (removeItem_panic _ event t x l); [done|done|done|set_solver|lia]. }
  destruct (find_bin_ok _ event e He bs ks' (size (events q)) t (nextBin x) Hb' Hks ltac:(lia))
    as (bs1 & bs2 & ks1 & ks2 & c & -> & -> & Hl & -> & Hb2 & Hlt & Hh).
  cbn [mbind outcome_bind]. destruct c as [c|]; [|done]. destruct bs2 as [|b2 bs2]; [done|].
  destruct (bins_top _ _ _ _ Hb2) as (t2 & l2 & y & -> & [= ->] & Ht2 & Hin2 & _). rewrite (proj2 (hget_ok _ _ _) Ht2). cbn [mbind outcome_bind].
  rewrite concat_app in Hfc, Hev. simpl in Hfc, Hev. rewrite length_app in Hfc. simpl in Hfc. rewrite length_app in Hfc.
  destruct (ev_eq y e); [|done]. rewrite (removeItem_panic _ event t2 y l2); [done|done|done|set_solver|lia].
Qed.

(** ** Refinement *)

(** Two runs with the same end: both fail in the same way or the results are related. *)
Definition matches {A B} (R : A -> B -> Prop) (x : outcome A) (y : outcome B) : Prop :=
  match x, y with
  | Ok a, Ok b => R a b
  | Fail f, Fail g => f = g
  | _, _ => False
  end.

Lemma matches_bind {A B C D} (R : A -> B -> Prop) (S : C -> D -> Prop) x y f g :
  matches R x y -> (forall a b, R a b -> x = Ok a -> y = Ok b -> matches S (f a) (g b)) -> matches S (x ≫= f) (y ≫= g).
Proof. destruct x, y; simpl; try done. intros H Hs. by apply Hs. Qed.

Lemma matches_ensure {C D} (S : C -> D -> Prop) e b f g :
  (b = true -> matches S (f ()) (g ())) -> matches S (ensure e b ≫= f) (ensure e b ≫= g).
Proof. destruct b; simpl; auto. Qed.

(** The links represent the list of the abstract queue. *)
Record core (q : EventQueue) (a : spec) : Prop := {
  co_links : exists bs ks, linked (events q) (head q) bs ks /\ concat bs = s_pending a;
  co_events : s_events a = strip <$> events q;
  co_id : s_id a = qid q;
  co_now : s_now a = _curTick q;
  co_async : s_async a = async_queue q;
}.

(** The events in the queues are scheduled and in one place only. *)
Record live (a : spec) : Prop := {
  lv_nodup : NoDup (s_pending a ++ s_async a);
  lv_scheduled : Forall (fun p => exists e, s_events a !! p = Some e /\ scheduled e = true) (s_pending a ++ s_async a);
}.

(** A change of the visible part of an event. *)
Record visible (f : Event -> Event) : Prop := {
  vs_bin e : nextBin (f e) = nextBin e;
  vs_in_bin e : nextInBin (f e) = nextInBin e;
  vs_strip e : strip (f e) = f (strip e);
}.

Lemma core_lookup q a p : core q a -> s_events a !! p = strip <$> events q !! p.
Proof. intros [_ -> _ _ _]. by rewrite lookup_fmap. Qed.

Lemma core_hget q a p : core q a -> matches (fun e s => s = strip e) (hget (events q) p) (hget (s_events a) p).
Proof. intros Hc. unfold hget. rewrite (core_lookup q a p Hc). by destruct (events q !! p). Qed.

Lemma linked_frame h h' o bs ks :
  (forall p, p ∈ concat bs -> links h' p = links h p) -> (forall p, p ∈ concat bs -> key <$> h' !! p = key <$> h !! p) ->
  linked h o bs ks -> linked h' o bs ks.
Proof. intros Hl Hk [Hb Hks Hs Hn]. split; try done; [by apply (bins_frame h)|by apply (keys_frame h)]. Qed.

Lemma core_on f event q a : visible f -> (forall e, key (f e) = key e) \/ event ∉ s_pending a -> core q a ->
  matches core (on_event f event q) (s_on f event a).
Proof.
  intros [V1 V2 V3] Hk Hc. unfold on_event, s_on, hupd. unfold hget. rewrite (core_lookup q a event Hc).
  destruct (events q !! event) as [e|] eqn:He; [|done]. simpl. destruct Hc as [(bs & ks & Hlk & Ec) Ee Ei En Ea]. split; simpl; try done.
  - exists bs, ks. split; [|done]. apply (linked_frame (events q)); [| |done].
    + intros p _. destruct (decide (p = event)) as [->|]; [|by apply links_insert_ne]. rewrite links_insert, V1, V2. unfold links. by rewrite He.
    + intros p Hp. destruct (decide (p = event)) as [->|]; [|by rewrite lookup_insert_ne]. rewrite lookup_insert_eq, He. simpl.
      destruct Hk as [Hk|Hk]; [by rewrite Hk|]. by rewrite <- Ec in Hk.
  - by rewrite Ee, fmap_insert, V3.
Qed.

Lemma core_insert event q a : event ∉ s_pending a -> core q a -> matches core (insert event q) (s_insert event a).
Proof.
  intros Hn Hc. unfold s_insert. unfold hget. rewrite (core_lookup q a event Hc). destruct (events q !! event) as [e|] eqn:He; simpl.
  - destruct Hc as [(bs & ks & Hlk & Ec) Ee Ei En Ea]. rewrite <- Ec in Hn.
    destruct (insert_ok q event e bs ks Hlk He Hn) as (q' & bs' & ks' & -> & Hlk' & Ec' & Es & E1 & E2 & E3).
    simpl. split; simpl; try congruence. exists bs', ks'. by rewrite Ec', Ec, Ee.
  - unfold insert. destruct (head q); [|unfold insertBefore]; unfold hget; by rewrite He.
Qed.

Lemma core_remove event q a : core q a -> matches core (remove event q) (s_remove event a).
Proof.
  intros Hc. pose proof (core_lookup q a event Hc) as El. destruct Hc as [(bs & ks & Hlk & Ec) Ee Ei En Ea]. unfold s_remove.
  destruct bs as [|b bs].
  { rewrite <- Ec. simpl. unfold remove. destruct Hlk as [Hb _ _ _]. simpl in Hb. by rewrite Hb. }
  destruct (bins_top _ _ _ _ (lk_bins _ _ _ _ Hlk)) as (t & l & x & -> & Hhd & _). destruct (s_pending a) as [|p l'] eqn:Ep; [done|].
  rewrite <- Ep. unfold hget. rewrite El. destruct (events q !! event) as [e|] eqn:He; simpl.
  2: { unfold remove. rewrite Hhd. unfold hget. by rewrite He. }
  change (queue (strip e)) with (queue e). rewrite Ei. destruct (decide (queue e = Some (qid q))) as [Hq|Hq].
  2: { unfold remove. rewrite Hhd. unfold hget. rewrite He. cbn [mbind outcome_bind]. by rewrite !bool_decide_false by done. }
  rewrite bool_decide_true by done. cbn [ensure mbind outcome_bind]. rewrite Ep, <- Ec. destruct (decide (event ∈ concat ((t :: l) :: bs))) as [Hin|Hin].
  - destruct (remove_ok q event e _ ks Hlk He Hq Hin) as (q' & bs' & ks' & -> & Hlk' & Ec' & Es & E1 & E2 & E3).
    simpl. split; simpl; try congruence. exists bs', ks'. split; [done|]. by rewrite Ec'.
  - by rewrite (remove_panic q event e _ _ ks Hlk He Hq Hin).
Qed.

Lemma core_pop q a : NoDup (s_pending a) -> core q a -> matches (fun x y => x.1 = y.1 /\ core x.2 y.2) (pop q) (s_pop a).
Proof.
  intros Hn [(bs & ks & Hlk & Ec) Ee Ei En Ea]. unfold pop, s_pop. destruct bs as [|b bs].
  { destruct Hlk as [Hb _ _ _]. simpl in Hb. by rewrite Hb, <- Ec. }
  destruct (bins_top _ _ _ _ (lk_bins _ _ _ _ Hlk)) as (t & l & e & -> & Hhd & Ht & Hin & Hb). rewrite Hhd, <- Ec. simpl.
  rewrite (proj2 (hget_ok _ _ _) Ht). cbn [mbind outcome_bind]. unfold on_event, s_on, hupd. rewrite (proj2 (hget_ok _ _ _) Ht). cbn [mbind outcome_bind].
  assert (hget (s_events a) t = Ok (strip e)) as -> by (apply hget_ok; by rewrite Ee, lookup_fmap, Ht). cbn [mbind outcome_bind].
  set (h1 := <[t := clear_flag Scheduled e]> (events q)).
  assert (<[t := clear_flag Scheduled (strip e)]> (s_events a) = strip <$> h1) as Eh by by unfold h1; rewrite Ee, fmap_insert.
  assert (linked h1 (Some t) ((t :: l) :: bs) ks) as Hlk1.
  { rewrite <- Hhd. apply (linked_frame (events q)); [| |done].
    - intros p _. destruct (decide (p = t)) as [->|]; [|by apply links_insert_ne]. unfold h1. rewrite links_insert. unfold links. by rewrite Ht.
    - intros p _. unfold h1. destruct (decide (p = t)) as [->|]; [|by rewrite lookup_insert_ne]. by rewrite lookup_insert_eq, Ht. }
  pose proof (lk_keys _ _ _ _ Hlk1) as Hk. inversion Hk as [|? k ? ks' _ _]; subst ks.
  assert (h1 !! t = Some (clear_flag Scheduled e)) as Ht1 by apply lookup_insert_eq.
  destruct (remove_first h1 t t l bs k ks' Hlk1) as (o' & h' & bs' & ks2 & E & Est & _ & Hlk' & Ec' & _); [left|].
  assert (filter (fun x => x <> t) (concat ((t :: l) :: bs)) = l ++ concat bs) as Ef.
  { rewrite <- Ec in Hn. apply (filter_split t [] (l ++ concat bs)). done. }
  unfold removeItem in E. rewrite (proj2 (hget_ok _ _ _) Ht1) in E. cbn [mbind outcome_bind] in E.
  rewrite decide_True in E by done.
  change (nextInBin (clear_flag Scheduled e)) with (nextInBin e) in E. change (nextBin (clear_flag Scheduled e)) with (nextBin e) in E.
  destruct (nextInBin e) as [next|].
  - apply bind_ok in E as (h2 & E & [= <- <-]). unfold hupd in E. simpl in E |- *. rewrite E. simpl.
    split; [done|]. split; simpl; try done; [|by rewrite Est]. exists bs', ks2. by rewrite Ec', Ef.
  - injection E as <- <-. simpl. split; [done|]. split; simpl; try done. exists bs', ks2. by rewrite Ec', Ef.
Qed.

Lemma core_delete event q a : event ∉ s_pending a -> core q a ->
  matches (fun h h' => core (q <| events := h |>) (a <| s_events := h' |>)) (delete_event event (events q)) (delete_event event (s_events a)).
Proof.
  intros Hn Hc. unfold delete_event. apply (matches_bind (fun e s => s = strip e)); [by apply core_hget|]. intros e s -> _ _.
  apply matches_ensure. intros _. simpl. destruct Hc as [(bs & ks & Hlk & Ec) Ee Ei En Ea]. split; simpl; try done.
  - exists bs, ks. split; [|done]. rewrite <- Ec in Hn.
    apply (linked_frame (events q)); [| |done]; intros p Hp; unfold links; by rewrite lookup_delete_ne by set_solver.
  - by rewrite Ee, fmap_delete.
Qed.

Lemma core_new event p f q a : live a -> core q a ->
  matches (fun h h' => core (q <| events := h |>) (a <| s_events := h' |>)) (new_event event p f (events q)) (new_event event p f (s_events a)).
Proof.
  intros [_ Hl] Hc. unfold new_event. rewrite (core_lookup q a event Hc). destruct (events q !! event) as [e|] eqn:He; [done|]. simpl.
  unfold Event_new. destruct (ensure AssertFailed _); [|done]. cbn [mbind outcome_bind]. simpl.
  destruct Hc as [(bs & ks & Hlk & Ec) Ee Ei En Ea]. split; simpl; try done.
  - exists bs, ks. split; [|done]. pose proof (bins_dom _ _ _ (lk_bins _ _ _ _ Hlk)) as Hd. rewrite Forall_forall in Hd.
    assert (forall x, x ∈ concat bs -> x <> event) as Hne by (intros x Hx ->; destruct (Hd event Hx); congruence).
    apply (linked_frame (events q)); [| |done]; intros x Hx; unfold links; by rewrite lookup_insert_ne by (symmetry; auto).
  - by rewrite Ee, fmap_insert.
Qed.

Lemma flag_visible f : visible (set_flag f) /\ visible (clear_flag f).
Proof. by split; split. Qed.

Lemma when_visible w i : visible (setWhen w i).
Proof. by split. Qed.

Lemma visible_comp f g : visible f -> visible g -> visible (fun e => f (g e)).
Proof. intros [F1 F2 F3] [G1 G2 G3]. split; intros e; [by rewrite F1, G1|by rewrite F2, G2|by rewrite F3, G3]. Qed.

Lemma live_pending a p e : live a -> s_events a !! p = Some e -> scheduled e = false -> (p ∉ s_pending a) /\ p ∉ s_async a.
Proof.
  intros [_ Hl] He Hs. rewrite Forall_forall in Hl.
  split; intros Hp; destruct (Hl p) as (e' & E & Hs'); rewrite ?elem_of_app; auto; congruence.
Qed.

Lemma s_on_ok f event a a' : s_on f event a = Ok a' ->
  exists e, s_events a !! event = Some e /\ a' = a <| s_events := <[event := f e]> (s_events a) |>.
Proof. unfold s_on, hupd. intros H. inv_ok. apply hget_ok in E0. eauto. Qed.

Lemma core_flags f event q a : core q a -> matches core (on_event (set_flag f) event q) (s_on (set_flag f) event a).
Proof. apply core_on; [apply flag_visible|by left]. Qed.

Lemma s_remove_ok event a a' : s_remove event a = Ok a' ->
  event ∈ s_pending a /\ a' = a <| s_pending ::= filter (fun x => x <> event) |>.
Proof.
  unfold s_remove. destruct (s_pending a) eqn:E; [done|]. rewrite <- E. intros H. inv_ok. by destruct (decide _); inv_ok.
Qed.

Lemma not_in_filter event (l : list nat) : event ∉ filter (fun x => x <> event) l.
Proof. rewrite list_elem_of_filter. naive_solver. Qed.

(** One read, guard or operation of both runs. *)
Tactic Notation "both_get" ident(e) ident(E) :=
  apply (matches_bind (fun e s => s = strip e)); [by apply core_hget|intros e ? -> _ E];
  change (scheduled (strip e)) with (scheduled e); change (initialized (strip e)) with (initialized e);
  change (flags (strip e)) with (flags e).
Tactic Notation "both_ensure" ident(E) := apply matches_ensure; intros E.
Tactic Notation "both_run" ident(q) ident(a) ident(H) ident(E) := apply (matches_bind core); [|intros q a H _ E].

Section simulation.
Context (m : Mode).

Lemma elsewhere_core q a : core q a -> s_elsewhere m a = elsewhere m q.
Proof. intros [_ _ E _ _]. unfold s_elsewhere, elsewhere. by rewrite E. Qed.

Lemma schedule_core event when global q a : live a -> core q a ->
  matches core (schedule m event when global q) (s_schedule m event when global a).
Proof.
  intros Hl Hc. unfold schedule, s_schedule. rewrite (co_now _ _ Hc), (co_id _ _ Hc). both_ensure E1. both_get e E2.
  both_ensure E3. both_ensure E4. assert (event ∉ s_pending a) as Hn.
  { apply hget_ok in E2. eapply live_pending; [done|exact E2|]. by apply negb_true_iff in E3. }
  both_run q1 a1 Hc1 E5. { apply core_on; [apply when_visible|by right|done]. }
  apply s_on_ok in E5 as (e1 & He1 & ->). rewrite (elsewhere_core q1 _ Hc1). both_run q2 a2 Hc2 E6; [|by apply core_flags].
  destruct (_ || _); [|by apply core_insert]. destruct Hc1 as [L F1 F2 F3 F4]. split; simpl in *; try done. by rewrite F4.
Qed.

Lemma deschedule_core event q a : core q a -> matches core (deschedule m event q) (s_deschedule m event a).
Proof.
  intros Hc. unfold deschedule, s_deschedule. both_get e E1. rewrite (elsewhere_core q a Hc).
  both_ensure E2. both_ensure E3. both_ensure E4. both_run q1 a1 Hc1 E5; [by apply core_remove|].
  apply s_remove_ok in E5 as [_ ->]. both_run q2 a2 Hc2 E6. { apply core_on; [apply visible_comp; apply flag_visible|by left|done]. }
  apply s_on_ok in E6 as (e1 & He1 & ->). both_get e2 E7. destruct (any_set _ _); [|done].
  eapply matches_bind; [apply core_delete; [|done]; apply not_in_filter|]. by intros.
Qed.

Lemma reschedule_core event when always q a : live a -> core q a ->
  matches core (reschedule m event when always q) (s_reschedule m event when always a).
Proof.
  intros Hl Hc. unfold reschedule, s_reschedule. rewrite (co_now _ _ Hc). both_ensure E1. both_get e E2.
  rewrite (elsewhere_core q a Hc). both_ensure E3. both_ensure E4. both_ensure E5. both_run q1 a1 Hc1 E6.
  { destruct (scheduled e); [by apply core_remove|done]. }
  assert (event ∉ s_pending a1) as Hn.
  { destruct (scheduled e) eqn:Es.
    - apply s_remove_ok in E6 as [_ ->]. apply not_in_filter.
    - injection E6 as <-. apply hget_ok in E2. by eapply live_pending. }
  rewrite (co_id _ _ Hc1). both_run q2 a2 Hc2 E7. { apply core_on; [apply when_visible|by right|done]. }
  apply s_on_ok in E7 as (e1 & He1 & ->). both_run q3 a3 Hc3 E8; [by apply core_insert|].
  apply core_on; [apply visible_comp; apply flag_visible|by left|done].
Qed.

Lemma insert_all_core l : forall q a, NoDup (s_pending a ++ l) -> core q a -> matches core (insert_all l q) (s_insert_all l a).
Proof.
  induction l as [|event l IH]; intros q a Hn Hc; [done|]. simpl. apply NoDup_app in Hn as (Hn1 & Hd & [He Hn2]%NoDup_cons).
  both_run q1 a1 Hc1 E1. { apply core_insert; [|done]. intros Hp. apply (Hd event Hp). left. }
  apply IH; [|done]. unfold s_insert in E1. inv_ok. simpl. rewrite s_place_perm. simpl. apply NoDup_cons. split; [set_solver|].
  apply NoDup_app. split_and!; [done| |done]. intros p Hp Hp'. apply (Hd p Hp). by right.
Qed.

Lemma op_core o q a : live a -> core q a -> matches core (run_op m o q) (s_op m o a).
Proof.
  intros Hl Hc. destruct o as [event p f|event when global|event|event when always|event|]; simpl.
  - eapply matches_bind; [by apply core_new|]. by intros.
  - by apply schedule_core.
  - by apply deschedule_core.
  - by apply reschedule_core.
  - by apply core_flags.
  - unfold handleAsyncInsertions. rewrite (co_id _ _ Hc), (co_async _ _ Hc). both_ensure E1. both_run q1 a1 Hc1 E2.
    { apply insert_all_core; [|done]. rewrite <- (co_async _ _ Hc). apply Hl. }
    simpl. destruct Hc1 as [L F1 F2 F3 F4]. by split.
Qed.
End simulation.

(** ** Scheduled events are in one place *)

Lemma any_set_lor x f i : 0 <= i -> any_set (Z.lor x f) (2 ^ i) = any_set x (2 ^ i) || Z.testbit f i.
Proof. intros Hi. rewrite !any_set_pow2 by done. apply Z.lor_spec. Qed.

Lemma any_set_clear x f i : 0 <= i < 16 -> any_set (Z.land x (unot 16 f)) (2 ^ i) = any_set x (2 ^ i) && negb (Z.testbit f i).
Proof.
  intros Hi. rewrite !any_set_pow2 by lia. rewrite Z.land_spec. unfold unot. by rewrite Z.ldiff_spec, Z.ones_spec_low by lia.
Qed.

Lemma scheduled_set e : scheduled (set_flag Scheduled e) = true.
Proof. unfold scheduled. simpl. change Scheduled with (2 ^ 1) at 2. rewrite any_set_lor by lia. apply orb_true_r. Qed.

Lemma scheduled_squash e : scheduled (set_flag Squashed e) = scheduled e.
Proof. unfold scheduled. simpl. change Scheduled with (2 ^ 1). rewrite any_set_lor by lia. apply orb_false_r. Qed.

Lemma scheduled_unsquash e : scheduled (clear_flag Squashed e) = scheduled e.
Proof. unfold scheduled. simpl. change Scheduled with (2 ^ 1). rewrite any_set_clear by lia. apply andb_true_r. Qed.

Lemma scheduled_clear e : scheduled (clear_flag Scheduled e) = false.
Proof. unfold scheduled. simpl. change Scheduled with (2 ^ 1) at 2. rewrite any_set_clear by lia. apply andb_false_r. Qed.

(** The events [l] are distinct and scheduled. *)
Definition alive (h : heap) (l : list nat) : Prop :=
  NoDup l /\ Forall (fun p => exists e, h !! p = Some e /\ scheduled e = true) l.

Lemma alive_add h l l' event e : alive h l -> event ∉ l -> scheduled e = true -> l' ≡ₚ event :: l -> alive (<[event := e]> h) l'.
Proof.
  intros [Hn Hl] He Hs Hp. split; [rewrite Hp; by apply NoDup_cons|]. rewrite Hp. constructor.
  - exists e. by rewrite lookup_insert_eq.
  - rewrite Forall_forall in Hl |- *. intros p Hp'. rewrite lookup_insert_ne by set_solver. by apply Hl.
Qed.

Lemma alive_sub h h' l l' : alive h l -> NoDup l' -> (forall p, p ∈ l' -> p ∈ l /\ h' !! p = h !! p) -> alive h' l'.
Proof.
  intros [_ Hl] Hn Hs. split; [done|]. rewrite Forall_forall in Hl |- *. intros p Hp. destruct (Hs p Hp) as [Hp' E].
  rewrite E. by apply Hl.
Qed.

Lemma live_alive a : live a <-> alive (s_events a) (s_pending a ++ s_async a).
Proof. split; intros []; by split. Qed.

Lemma alive_filter event h h' l k : alive h (l ++ k) -> event ∈ l -> (forall p, p <> event -> h' !! p = h !! p) ->
  alive h' (filter (fun x => x <> event) l ++ k) /\ event ∉ filter (fun x => x <> event) l ++ k.
Proof.
  intros Ha He Hh. pose proof (proj1 Ha) as (Hn1 & Hd & Hn2)%NoDup_app.
  assert (event ∉ filter (fun x => x <> event) l ++ k) as Hni.
  { rewrite elem_of_app. intros [H|H]; [by apply not_in_filter in H|by apply (Hd event)]. }
  split; [|done]. apply (alive_sub h h' (l ++ k)); [done| |].
  - apply NoDup_app. split_and!; [by apply NoDup_filter| |done]. intros p [_ Hp]%list_elem_of_filter. by apply Hd.
  - intros p Hp. split; [|apply Hh; set_solver]. apply elem_of_app in Hp as [[_ Hp]%list_elem_of_filter|Hp]; apply elem_of_app; auto.
Qed.

Section liveness.
Context (m : Mode).

Lemma schedule_live event when global a a' : live a -> s_schedule m event when global a = Ok a' -> live a'.
Proof.
  intros Hl (_ & _ & (e0 & E0%hget_ok & (_ & E1%ensure_ok & (_ & _ & (a1 & E2 & (a2 & E3 & H)%bind_ok)%bind_ok)%bind_ok)%bind_ok)%bind_ok)%bind_ok.
  apply negb_true_iff in E1. destruct (live_pending _ _ _ Hl E0 E1) as [Hn1 Hn2].
  apply s_on_ok in E2 as (e & He & ->). apply s_on_ok in H as (e2 & He2 & ->). apply live_alive in Hl. apply live_alive.
  assert (<[event := set_flag Scheduled e2]> (s_events a2) = <[event := set_flag Scheduled e2]> (s_events a) /\
    s_pending a2 ++ s_async a2 ≡ₚ event :: s_pending a ++ s_async a) as [Eh Hp].
  { destruct (_ || _); [|unfold s_insert in E3]; inv_ok; simpl in *; rewrite insert_insert_eq; (split; [done|]).
    - by rewrite app_assoc, Permutation_app_comm.
    - by rewrite s_place_perm. }
  simpl. rewrite Eh.
  eapply alive_add; [exact Hl| |apply scheduled_set|exact Hp]. rewrite elem_of_app. tauto.
Qed.

Lemma deschedule_live event a a' : live a -> s_deschedule m event a = Ok a' -> live a'.
Proof.
  intros Hl (_ & _ & (_ & _ & (_ & _ & (_ & _ & (a1 & [Hin ->]%s_remove_ok & (a2 & E4 & (e2 & _ & H)%bind_ok)%bind_ok)%bind_ok)%bind_ok)%bind_ok)%bind_ok)%bind_ok.
  apply s_on_ok in E4 as (e & He & ->).
  apply live_alive in Hl. apply live_alive.
  assert (s_pending a' ++ s_async a' = filter (fun x => x <> event) (s_pending a) ++ s_async a /\
    forall p, p <> event -> s_events a' !! p = s_events a !! p) as [-> Hh].
  { destruct (any_set _ _); inv_ok; simpl; (split; [done|]); intros p Hp.
    - unfold delete_event in E. inv_ok. simpl. rewrite lookup_delete_ne, lookup_insert_ne by done. done.
    - by rewrite lookup_insert_ne by done. }
  by eapply alive_filter.
Qed.

Lemma reschedule_live event when always a a' : live a -> s_reschedule m event when always a = Ok a' -> live a'.
Proof.
  intros Hl (_ & _ & (e0 & E0%hget_ok & (_ & _ & (_ & _ & (_ & _ & (a1 & E4 & (a2 & E5 & (a3 & E6 & H)%bind_ok)%bind_ok)%bind_ok)%bind_ok)%bind_ok)%bind_ok)%bind_ok)%bind_ok.
  apply s_on_ok in E5 as (e & He & ->). apply s_on_ok in H as (e2 & He2 & ->).
  unfold s_insert in E6. inv_ok. apply live_alive. simpl in *. rewrite insert_insert_eq.
  assert (alive (s_events a1) (s_pending a1 ++ s_async a1) /\ event ∉ s_pending a1 ++ s_async a1) as [Ha Hn].
  { destruct (scheduled e0) eqn:Es; inv_ok.
    - apply s_remove_ok in E4 as [Hin ->]. simpl. apply live_alive in Hl. by eapply alive_filter.
    - split; [by apply live_alive|]. destruct (live_pending _ _ _ Hl E0 Es). rewrite elem_of_app. tauto. }
  eapply alive_add; [exact Ha|exact Hn|apply scheduled_set|]. by rewrite s_place_perm.
Qed.

Lemma insert_all_perm l : forall a a', s_insert_all l a = Ok a' ->
  s_pending a' ≡ₚ l ++ s_pending a /\ s_events a' = s_events a /\ s_id a' = s_id a /\ s_now a' = s_now a.
Proof.
  induction l as [|event l IH]; intros a a' H; simpl in H; inv_ok; [done|]. unfold s_insert in E. inv_ok.
  destruct (IH _ _ H) as (Hp & -> & -> & ->). simpl in *. split; [|done]. rewrite Hp, s_place_perm. by rewrite Permutation_middle.
Qed.

Lemma op_live o a a' : live a -> s_op m o a = Ok a' -> live a'.
Proof.
  intros Hl H. destruct o as [event p f|event when global|event|event when always|event|]; simpl in H.
  - inv_ok. unfold new_event in E. destruct (s_events a !! event) eqn:He; [done|]. inv_ok. apply live_alive in Hl. apply live_alive. simpl.
    apply (alive_sub (s_events a) _ (s_pending a ++ s_async a)); [done|apply Hl|]. intros p' Hp'. split; [done|].
    rewrite lookup_insert_ne; [done|]. intros ->. destruct Hl as [_ Hl]. rewrite Forall_forall in Hl. destruct (Hl p' Hp') as (? & ? & _). congruence.
  - by eapply schedule_live.
  - by eapply deschedule_live.
  - by eapply reschedule_live.
  - apply s_on_ok in H as (e & He & ->). apply live_alive in Hl as [Hn Hl]. apply live_alive. split; [done|]. simpl.
    rewrite Forall_forall in Hl |- *. intros p Hp. destruct (decide (p = event)) as [->|]; [|rewrite lookup_insert_ne by done; by apply Hl].
    rewrite lookup_insert_eq. destruct (Hl event Hp) as (e' & E & Hs). assert (e' = e) as -> by congruence.
    eexists. split; [done|]. by rewrite scheduled_squash.
  - inv_ok. destruct (insert_all_perm _ _ _ E0) as (Hp & He & _). apply live_alive in Hl as [Hn Hl]. apply live_alive. simpl.
    rewrite app_nil_r, He. split; [by rewrite Hp, Permutation_app_comm|]. rewrite Hp, Permutation_app_comm. done.
Qed.
End liveness.

(** ** The queue is the abstract queue *)

(** An operation of the interface, or the first event taken off the queue. *)
Inductive step :=
  | Do (o : op)
  | Take.

Fixpoint run_steps (m : Mode) (l : list step) (q : EventQueue) : outcome (list nat * EventQueue) :=
  match l with
  | [] => Ok ([], q)
  | Do o :: l => q ← run_op m o q; run_steps m l q
  | Take :: l => '(p, q) ← pop q; '(ps, q) ← run_steps m l q; Ok (p :: ps, q)
  end.

Fixpoint s_steps (m : Mode) (l : list step) (a : spec) : outcome (list nat * spec) :=
  match l with
  | [] => Ok ([], a)
  | Do o :: l => a ← s_op m o a; s_steps m l a
  | Take :: l => '(p, a) ← s_pop a; '(ps, a) ← s_steps m l a; Ok (p :: ps, a)
  end.

(** No event is before one that will be serviced earlier. *)
Definition ordered (a : spec) : Prop :=
  StronglySorted (fun p p' => forall e e', s_events a !! p = Some e -> s_events a !! p' = Some e' -> ~ klt (key e') (key e)) (s_pending a).

Lemma linked_ordered h o bs ks : linked h o bs ks ->
  StronglySorted (fun p p' => forall e e', h !! p = Some e -> h !! p' = Some e' -> ~ klt (key e') (key e)) (concat bs).
Proof.
  intros [_ Hk Hs _]. induction Hk as [|b k bs ks Hb Hk IH]; [constructor|]. inversion Hs as [|? ? Hs1 Hs2]; subst.
  simpl. apply StronglySorted_app. split_and!; [| |by apply IH].
  - intros p p' Hp Hp' e e' He He'. rewrite Forall_forall in Hb. specialize (Hb p Hp). unfold keyed in Hb. rewrite He in Hb. injection Hb as <-.
    destruct (keys_in_bins _ _ _ _ Hk Hp') as (k' & Hk' & E). unfold keyed in E. rewrite He' in E. injection E as <-.
    rewrite Forall_forall in Hs2. specialize (Hs2 _ Hk'). intros H. by apply (klt_irrefl (key e)), (klt_trans _ (key e')).
  - induction b as [|p b IHb]; [constructor|]. apply Forall_cons_1 in Hb as [Hp Hb]. constructor; [by apply IHb|].
    rewrite Forall_forall in Hb |- *. intros p' Hp' e e' He He'. specialize (Hb p' Hp'). unfold keyed in Hp, Hb. rewrite He in Hp. rewrite He' in Hb.
    injection Hp as <-. injection Hb as Hb. unfold klt, key in *. intros. simpl in *. lia.
Qed.

Lemma sorted_mono {A} (R S : A -> A -> Prop) l : (forall x y, R x y -> S x y) -> StronglySorted R l -> StronglySorted S l.
Proof. intros Hi. induction 1 as [|x l _ IH Hx]; constructor; [done|]. eapply Forall_impl; [exact Hx|]. apply Hi. Qed.

Lemma core_ordered q a : core q a -> ordered a.
Proof.
  intros Hc. destruct (co_links _ _ Hc) as (bs & ks & Hlk & Ec). unfold ordered. rewrite <- Ec.
  eapply sorted_mono; [|exact (linked_ordered _ _ _ _ Hlk)]. intros p p' Hp' e e'. rewrite !(core_lookup q a _ Hc). intros He He'.
  destruct (events q !! p) as [x|] eqn:Ex; [|done]. destruct (events q !! p') as [x'|] eqn:Ex'; [|done].
  injection He as <-. injection He' as <-. by apply (Hp' x x' Ex Ex').
Qed.

Lemma pop_live a p a' : live a -> s_pop a = Ok (p, a') -> live a' /\ exists e l, s_pending a = p :: l /\ s_events a !! p = Some e /\
  a' = a <| s_events := <[p := clear_flag Scheduled e]> (s_events a) |> <| s_pending := l |>.
Proof.
  intros Hl H. unfold s_pop in H. destruct (s_pending a) as [|x l] eqn:Ep; [done|]. inv_ok. apply s_on_ok in E as (e & He & ->).
  split; [|by exists e, l]. apply live_alive in Hl. apply live_alive. rewrite Ep in Hl. simpl in *. destruct Hl as [[Hn1 Hn2]%NoDup_cons Hl].
  split; [done|]. apply Forall_cons_1 in Hl as [_ Hl]. rewrite Forall_forall in Hl |- *. intros y Hy.
  rewrite lookup_insert_ne by set_solver. by apply Hl.
Qed.

Lemma steps_core m l : forall q a, live a -> core q a ->
  matches (fun x y => x.1 = y.1 /\ core x.2 y.2 /\ live y.2) (run_steps m l q) (s_steps m l a).
Proof.
  induction l as [|[o|] l IH]; intros q a Hl Hc; simpl; [done| |].
  - apply (matches_bind core); [by apply op_core|]. intros q1 a1 Hc1 _ E. apply IH; [|done]. by eapply op_live.
  - eapply matches_bind; [apply core_pop; [|done]|].
    { pose proof (lv_nodup _ Hl) as Hn. by apply NoDup_app in Hn as (Hn & _ & _). }
    intros [p q1] [p' a1] [Ep Hc1] _ E. simpl in *. subst p'. destruct (pop_live _ _ _ Hl E) as [Hl1 _].
    eapply matches_bind; [by apply IH|]. intros [ps q2] [ps' a2] (Eps & Hc2 & Hl2) _ _. simpl in *. by subst.
Qed.

Lemma new_core id h : let a := MkSpec id 0 [] [] (strip <$> h) in core (EventQueue_new id h) a /\ live a.
Proof.
  split; [|by split; constructor]. split; try done. exists [], []. split; [|done]. split; [done|constructor..].
Qed.

(** What steps from an empty queue lead to. *)
Lemma steps_reach m id h l ps q : run_steps m l (EventQueue_new id h) = Ok (ps, q) -> exists a, core q a /\ live a.
Proof.
  intros Hrun. destruct (new_core id h) as [Hc Hl]. pose proof (steps_core m l _ _ Hl Hc) as Hm. rewrite Hrun in Hm.
  destruct (s_steps _ _ _) as [[ps' a]|]; [|done]. exists a. split; apply Hm.
Qed.

(** C5: the linked bins of the event queue are a list ordered by tick and priority:
    from an empty queue every sequence of constructions, schedules, deschedules,
    reschedules and squashes of events, merges of the asynchronous queue and removals
    of the first event ends as on the abstract queue, with the same failed assertion
    or panic if one fails, takes off the same events, and leaves links that spell the
    abstract list, in which no event comes after a later one, an event is scheduled at
    most once, and the newest of equal events is first. *)
Theorem event_queue_refines_ordered_list m id h l :
  matches (fun x y => x.1 = y.1 /\ core x.2 y.2 /\ live y.2 /\ ordered y.2)
    (run_steps m l (EventQueue_new id h)) (s_steps m l (MkSpec id 0 [] [] (strip <$> h))).
Proof.
  destruct (new_core id h) as [Hc Hl]. pose proof (steps_core m l _ _ Hl Hc) as Hm.
  destruct (run_steps m l _) as [[ps q]|], (s_steps m l _) as [[ps' a]|]; try done. destruct Hm as (E & Hc' & Hl').
  split_and!; try done. by eapply core_ordered.
Qed.

End EventQueue.
