(* ===== verification/EventLoop.v ===== *)
(** Properties of the simulation loop over the event queue: time does not run
    backwards, a simulation with a limit ends, the consistency check of the queue,
    and checkpoints. *)

From stdpp Require Import fin_maps gmap sorting.
From S2P Require Import Prelude EventQueue.
Import EventQueue.
Local Open Scope Z_scope.

Module EventLoop.

Definition when_of (a : spec) (p : nat) : option Z := _when <$> s_events a !! p.

(** The event that ends the simulation at tick [limit] is pending. *)
Record limited (x : nat) (limit : Z) (a : spec) : Prop := {
  lm_pending : x ∈ s_pending a;
  lm_event : exists e, s_events a !! x = Some e /\ _when e = limit /\ isExitEvent e = true /\ squashed e = false;
}.

(** The state between events in serial mode: no event is in the past. *)
Record sound (a : spec) : Prop := {
  sd_live : live a;
  sd_async : s_async a = [];
  sd_timely p : p ∈ s_pending a -> exists w, when_of a p = Some w /\ s_now a <= w;
  sd_main p e : s_events a !! p = Some e -> any_set (flags e) IsMainQueue = false;
  sd_complete p e : s_events a !! p = Some e -> scheduled e = true -> p ∈ s_pending a;
}.

(** The operation leaves event [x] alone. *)
Definition spares (x : nat) (o : op) : Prop :=
  match o with
  | New _ _ _ | HandleAsync => True
  | Schedule p _ _ | Deschedule p | Reschedule p _ _ | Squash p => p <> x
  end.

(** It schedules at least [d] ticks after [t]. *)
Definition delays (d t : Z) (o : op) : Prop :=
  match o with
  | Schedule _ w _ | Reschedule _ w _ => t + d <= w
  | _ => True
  end.

(** What operations that spare [x] do to the pending events. *)
Record advance (d t : Z) (x : nat) (a a' : spec) : Prop := {
  ad_now : s_now a' = s_now a;
  ad_id : s_id a' = s_id a;
  ad_pending p : p ∈ s_pending a' -> p ∈ s_pending a /\ when_of a' p = when_of a p \/ exists w, when_of a' p = Some w /\ t + d <= w;
  ad_limit : x ∈ s_pending a -> x ∈ s_pending a' /\ s_events a' !! x = s_events a !! x;
}.

Lemma advance_refl d t x a : advance d t x a a.
Proof. split; auto. Qed.

Lemma advance_trans d t x a b c : advance d t x a b -> advance d t x b c -> advance d t x a c.
Proof.
  intros [A1 A2 A3 A4] [B1 B2 B3 B4]. split; [congruence|congruence| |].
  - intros p Hp. destruct (B3 p Hp) as [[Hb E]|H]; [|by right]. destruct (A3 p Hb) as [[Ha E']|(w & E' & Hw)].
    + left. split; [done|congruence].
    + right. exists w. split; [congruence|done].
  - intros Hx. destruct (A4 Hx) as [Hx1 E1]. destruct (B4 Hx1) as [Hx2 E2]. split; [done|congruence].
Qed.

Lemma place_in h e event l p : p ∈ s_place h e event l <-> p = event \/ p ∈ l.
Proof. rewrite s_place_perm. apply elem_of_cons. Qed.

Section ops.
Context (m : Mode) (Hm : inParallelMode m = false) (d : Z) (x : nat).

Lemma schedule_advance p w g a a' t : p <> x -> t + d <= w -> s_async a = [] -> s_schedule m p w g a = Ok a' ->
  advance d t x a a' /\ s_async a' = [].
Proof.
  intros Hx Hw Ha (_ & _ & (e0 & E0%hget_ok & (_ & E1%ensure_ok & (_ & _ & (a1 & E2 & (a2 & E3 & H)%bind_ok)%bind_ok)%bind_ok)%bind_ok)%bind_ok)%bind_ok.
  apply s_on_ok in E2 as (e & He & ->). apply s_on_ok in H as (e2 & He2 & ->). unfold s_elsewhere in E3. rewrite Hm in E3. simpl in E3.
  unfold s_insert in E3. inv_ok. apply hget_ok in E. simpl in *. rewrite lookup_insert_eq in He2, E. injection He2 as <-. injection E as <-.
  split; [|done]. split; simpl; try done; unfold when_of; simpl; rewrite insert_insert_eq.
  - intros q [->|Hq]%place_in.
    + right. exists w. by rewrite lookup_insert_eq.
    + destruct (decide (q = p)) as [->|]; [right; exists w; by rewrite lookup_insert_eq|]. left. by rewrite lookup_insert_ne by done.
  - intros Hin. split; [apply place_in; by right|]. by rewrite lookup_insert_ne by done.
Qed.

Lemma deschedule_advance p a a' t : p <> x -> s_async a = [] -> s_deschedule m p a = Ok a' -> advance d t x a a' /\ s_async a' = [].
Proof.
  intros Hx Ha (_ & _ & (_ & _ & (_ & _ & (_ & _ & (a1 & [Hin ->]%s_remove_ok & (a2 & E4 & (e2 & _ & H)%bind_ok)%bind_ok)%bind_ok)%bind_ok)%bind_ok)%bind_ok)%bind_ok.
  apply s_on_ok in E4 as (e & He & ->). simpl in *.
  assert (s_pending a' = filter (fun x => x <> p) (s_pending a) /\ s_async a' = s_async a /\ s_now a' = s_now a /\ s_id a' = s_id a /\
    forall q, q <> p -> s_events a' !! q = s_events a !! q) as (Ep & Ea & En & Ei & Hh).
  { destruct (any_set _ _); inv_ok; simpl; split_and!; try done; intros q Hq.
    - unfold delete_event in E. inv_ok. simpl. by rewrite lookup_delete_ne, lookup_insert_ne by done.
    - by rewrite lookup_insert_ne by done. }
  split; [|congruence]. split; try done; rewrite Ep.
  - intros q [Hne Hq]%list_elem_of_filter. left. split; [done|]. unfold when_of. by rewrite Hh.
  - intros Hq. split; [by apply list_elem_of_filter|]. by apply Hh.
Qed.

Lemma reschedule_advance p w al a a' t : p <> x -> t + d <= w -> s_async a = [] -> s_reschedule m p w al a = Ok a' ->
  advance d t x a a' /\ s_async a' = [].
Proof.
  intros Hx Hw Ha (_ & _ & (e0 & E0%hget_ok & (_ & _ & (_ & _ & (_ & _ & (a1 & E4 & (a2 & E5 & (a3 & E6 & H)%bind_ok)%bind_ok)%bind_ok)%bind_ok)%bind_ok)%bind_ok)%bind_ok)%bind_ok.
  assert ((forall q, q ∈ s_pending a1 -> q ∈ s_pending a) /\ (x ∈ s_pending a -> x ∈ s_pending a1) /\ s_async a1 = s_async a /\
    s_now a1 = s_now a /\ s_id a1 = s_id a /\ s_events a1 = s_events a) as (Hp & Hxp & Ea & En & Ei & Ee).
  { destruct (scheduled e0); inv_ok; [|done]. apply s_remove_ok in E4 as [_ ->]. simpl. split_and!; try done.
    - by intros q [_ ?]%list_elem_of_filter.
    - intros. by apply list_elem_of_filter. }
  apply s_on_ok in E5 as (e & He & ->). apply s_on_ok in H as (e2 & He2 & ->). unfold s_insert in E6. inv_ok. apply hget_ok in E.
  simpl in *. rewrite lookup_insert_eq in He2, E. injection He2 as <-. injection E as <-. rewrite insert_insert_eq, Ee.
  split; [|congruence]. split; simpl; try done; unfold when_of; simpl.
  - intros q [->|Hq]%place_in.
    + right. exists w. by rewrite lookup_insert_eq.
    + destruct (decide (q = p)) as [->|]; [right; exists w; by rewrite lookup_insert_eq|]. left. rewrite lookup_insert_ne by done. auto.
  - intros Hin. split; [apply place_in; auto|]. by rewrite lookup_insert_ne by done.
Qed.

Lemma op_advance o a a' t : live a -> s_async a = [] -> spares x o -> delays d t o -> s_op m o a = Ok a' ->
  advance d t x a a' /\ s_async a' = [].
Proof.
  intros Hl Ha Hx Hd H. destruct o as [p pr f|p w g|p|p w al|p|]; simpl in *.
  - inv_ok. unfold new_event in E. destruct (s_events a !! p) eqn:He; [done|]. inv_ok. split; [|done].
    assert (forall q, q ∈ s_pending a -> q <> p) as Hne.
    { intros q Hq ->. destruct Hl as [_ Hl]. rewrite Forall_forall in Hl. destruct (Hl p) as (? & ? & _); [apply elem_of_app; by left|congruence]. }
    split; simpl; try done; unfold when_of; simpl; intros.
    + left. rewrite lookup_insert_ne by (symmetry; auto). done.
    + rewrite lookup_insert_ne by (symmetry; auto). done.
  - by eapply schedule_advance.
  - by eapply deschedule_advance.
  - by eapply reschedule_advance.
  - apply s_on_ok in H as (e & He & ->). split; [|done]. split; simpl; try done; unfold when_of; simpl; intros.
    + left. split; [done|]. destruct (decide (p0 = p)) as [->|]; [by rewrite lookup_insert_eq, He|by rewrite lookup_insert_ne].
    + by rewrite lookup_insert_ne by done.
  - rewrite Ha in H. simpl in H. inv_ok. split; [|done]. by split; simpl; auto.
Qed.
End ops.

(** *** Facts that hold of all events *)

Section all_events.
Context (P : Event -> Prop) (Pwhen : forall w i e, P e -> P (setWhen w i e)).
Context (Pset : forall f e, f = Scheduled \/ f = Squashed -> P e -> P (set_flag f e)).
Context (Pclear : forall f e, f = Scheduled \/ f = Squashed -> P e -> P (clear_flag f e)).
Context (Pnew : forall p f e, Event_new p f = Ok e -> P e).
Local Abbreviation all a := (forall p e, s_events a !! p = Some e -> P e).

Lemma on_all f p a a' : (forall e, P e -> P (f e)) -> all a -> s_on f p a = Ok a' -> all a'.
Proof.
  intros Hf Ha (e & He & ->)%s_on_ok q e'. simpl. destruct (decide (q = p)) as [->|].
  - rewrite lookup_insert_eq. injection 1 as <-. eauto.
  - rewrite lookup_insert_ne by done. apply Ha.
Qed.

Lemma delete_all p (h h' : gmap nat Event) :
  (forall q e, h !! q = Some e -> P e) -> delete_event p h = Ok h' -> forall q e, h' !! q = Some e -> P e.
Proof. intros Ha H q e He. unfold delete_event in H. inv_ok. apply lookup_delete_Some in He as [_ He]. eauto. Qed.

Lemma op_all m o a a' : all a -> s_op m o a = Ok a' -> all a'.
Proof.
  intros Ha H. destruct o as [p pr f|p w g|p|p w al|p|]; simpl in H.
  - intros q e'. inv_ok. unfold new_event in E. destruct (s_events a !! p) eqn:He; [done|]. inv_ok. simpl in *.
    destruct (decide (q = p)) as [->|]; [rewrite lookup_insert_eq in *; inv_ok; simplify_eq; eauto|].
    rewrite lookup_insert_ne in * by done. by eapply Ha.
  - apply bind_ok in H as (_ & _ & (e0 & _ & (_ & _ & (_ & _ & (a1 & E2 & (a2 & E3 & H)%bind_ok)%bind_ok)%bind_ok)%bind_ok)%bind_ok).
    assert (all a1) as H1 by (by eapply on_all; [apply Pwhen| |exact E2]).
    assert (all a2) as H2 by (intros q e He; destruct (_ || _); [|unfold s_insert in E3]; inv_ok; simpl in He; eauto).
    eapply on_all; [|exact H2|exact H]. auto.
  - apply bind_ok in H as (_ & _ & (_ & _ & (_ & _ & (_ & _ & (a1 & [Hin ->]%s_remove_ok & (a2 & E4 & (e2 & _ & H)%bind_ok)%bind_ok)%bind_ok)%bind_ok)%bind_ok)%bind_ok).
    assert (all a2) as H1 by (eapply on_all; [| |exact E4]; [intros ? ?; apply Pclear; auto|exact Ha]).
    destruct (any_set _ _); [|by injection H as <-]. apply bind_ok in H as (h & E & [= <-]). simpl. by eapply delete_all.
  - apply bind_ok in H as (_ & _ & (e0 & _ & (_ & _ & (_ & _ & (_ & _ & (a1 & E4 & (a2 & E5 & (a3 & E6 & H)%bind_ok)%bind_ok)%bind_ok)%bind_ok)%bind_ok)%bind_ok)%bind_ok).
    assert (all a1) as H1 by (destruct (scheduled e0); [by apply s_remove_ok in E4 as [_ ->]|by injection E4 as <-]).
    assert (all a2) as H2 by (by eapply on_all; [apply Pwhen| |exact E5]).
    apply bind_ok in E6 as (e3 & _ & [= <-]). eapply on_all; [| |exact H]; [|exact H2]. intros ? ?. apply Pset; auto.
  - eapply on_all; [|exact Ha|exact H]. auto.
  - apply bind_ok in H as (_ & _ & (a1 & E & [= <-])%bind_ok). destruct (insert_all_perm _ _ _ E) as (_ & He & _). simpl. by rewrite He.
Qed.
End all_events.

Lemma op_main m o a a' : (forall p e, s_events a !! p = Some e -> any_set (flags e) IsMainQueue = false) -> s_op m o a = Ok a' ->
  forall p e, s_events a' !! p = Some e -> any_set (flags e) IsMainQueue = false.
Proof.
  change IsMainQueue with (2 ^ 5). apply (op_all (fun e => any_set (flags e) (2 ^ 5) = false)); try done.
  - intros f e [-> | ->]; simpl; rewrite any_set_lor by lia; intros ->; done.
  - intros f e [-> | ->]; simpl; rewrite any_set_clear by lia; intros ->; done.
  - intros p f e H. unfold Event_new in H. inv_ok. simpl. rewrite any_set_lor by lia. apply Z.eqb_eq in E.
    apply (f_equal (fun z => Z.testbit z 5)) in E. rewrite Z.land_spec in E. unfold unot in E.
    rewrite Z.ldiff_spec, Z.ones_spec_low, Z.bits_0, andb_true_r in E by lia. by rewrite E.
Qed.

(** Operations that spare an event do not change it. *)
Lemma op_spares m o a a' x e : s_op m o a = Ok a' -> spares x o -> s_events a !! x = Some e -> s_events a' !! x = Some e.
Proof.
  intros H Hx He. destruct o as [p pr f|p w g|p|p w al|p|]; simpl in H, Hx.
  - apply bind_ok in H as (h & E & [= <-]). unfold new_event in E. destruct (s_events a !! p) eqn:Hp; [done|].
    apply bind_ok in E as (e' & _ & [= <-]). simpl. rewrite lookup_insert_ne; [done|]. intros ->. congruence.
  - apply bind_ok in H as (_ & _ & (e0 & _ & (_ & _ & (_ & _ & (a1 & E2 & (a2 & E3 & H)%bind_ok)%bind_ok)%bind_ok)%bind_ok)%bind_ok).
    apply s_on_ok in E2 as (e1 & _ & ->). apply s_on_ok in H as (e2 & _ & ->). simpl. rewrite lookup_insert_ne by done.
    assert (s_events a2 = <[p := setWhen w (s_id a) e1]> (s_events a)) as -> by (destruct (_ || _); [|unfold s_insert in E3]; by inv_ok).
    by rewrite lookup_insert_ne by done.
  - apply bind_ok in H as (_ & _ & (_ & _ & (_ & _ & (_ & _ & (a1 & [_ ->]%s_remove_ok & (a2 & E4 & (e2 & _ & H)%bind_ok)%bind_ok)%bind_ok)%bind_ok)%bind_ok)%bind_ok).
    apply s_on_ok in E4 as (e1 & _ & ->). destruct (any_set _ _).
    + apply bind_ok in H as (h & E & [= <-]). unfold delete_event in E. inv_ok. simpl. by rewrite lookup_delete_ne, lookup_insert_ne by done.
    + injection H as <-. simpl. by rewrite lookup_insert_ne by done.
  - apply bind_ok in H as (_ & _ & (e0 & _ & (_ & _ & (_ & _ & (_ & _ & (a1 & E4 & (a2 & E5 & (a3 & E6 & H)%bind_ok)%bind_ok)%bind_ok)%bind_ok)%bind_ok)%bind_ok)%bind_ok).
    assert (s_events a1 = s_events a) as E1 by (destruct (scheduled e0); [by apply s_remove_ok in E4 as [_ ->]|by injection E4 as <-]).
    apply s_on_ok in E5 as (e1 & _ & ->). apply bind_ok in E6 as (e3 & _ & [= <-]). apply s_on_ok in H as (e2 & _ & ->).
    simpl. by rewrite !lookup_insert_ne, E1 by done.
  - apply s_on_ok in H as (e1 & _ & ->). simpl. by rewrite lookup_insert_ne by done.
  - apply bind_ok in H as (_ & _ & (a1 & E & [= <-])%bind_ok). destruct (insert_all_perm _ _ _ E) as (_ & E' & _). simpl. by rewrite E'.
Qed.

Lemma ops_spares m ops x e : Forall (spares x) ops -> forall a a', s_ops m ops a = Ok a' -> s_events a !! x = Some e -> s_events a' !! x = Some e.
Proof.
  induction 1 as [|o ops Ho _ IH]; intros a a' H He; simpl in H; inv_ok; [done|]. eapply IH; [done|]. by eapply op_spares.
Qed.

(** In serial mode an event that is marked as scheduled is pending. *)
Lemma op_complete m o a a' : inParallelMode m = false -> s_async a = [] ->
  (forall p e, s_events a !! p = Some e -> scheduled e = true -> p ∈ s_pending a) -> s_op m o a = Ok a' ->
  forall p e, s_events a' !! p = Some e -> scheduled e = true -> p ∈ s_pending a'.
Proof.
  intros Hm Ha Hc H q e He Hs. destruct o as [p pr f|p w g|p|p w al|p|]; simpl in H.
  - apply bind_ok in H as (h & E & [= <-]). unfold new_event in E. destruct (s_events a !! p) eqn:Hp; [done|].
    apply bind_ok in E as (e' & E' & [= <-]). simpl in *. destruct (decide (q = p)) as [->|].
    + rewrite lookup_insert_eq in He. injection He as <-. unfold Event_new in E'. inv_ok. unfold scheduled in Hs. simpl in Hs.
      change Scheduled with (2 ^ 1) in Hs. rewrite any_set_lor in Hs by lia. apply Z.eqb_eq in E.
      apply (f_equal (fun z => Z.testbit z 1)) in E. rewrite Z.land_spec in E. unfold unot in E.
      rewrite Z.ldiff_spec, Z.ones_spec_low, Z.bits_0, andb_true_r in E by lia. by rewrite E in Hs.
    + rewrite lookup_insert_ne in He by done. eauto.
  - apply bind_ok in H as (_ & _ & (e0 & _ & (_ & _ & (_ & _ & (a1 & E2 & (a2 & E3 & H)%bind_ok)%bind_ok)%bind_ok)%bind_ok)%bind_ok).
    apply s_on_ok in E2 as (e1 & _ & ->). apply s_on_ok in H as (e2 & _ & ->). unfold s_elsewhere in E3. rewrite Hm in E3. simpl in E3.
    apply bind_ok in E3 as (e3 & _ & [= <-]). simpl in *. apply place_in. destruct (decide (q = p)) as [->|]; [by left|]. right.
    rewrite !lookup_insert_ne in He by done. eauto.
  - apply bind_ok in H as (_ & _ & (_ & _ & (_ & _ & (_ & _ & (a1 & [_ ->]%s_remove_ok & (a2 & E4 & (e2 & E5 & H)%bind_ok)%bind_ok)%bind_ok)%bind_ok)%bind_ok)%bind_ok).
    apply s_on_ok in E4 as (e1 & _ & ->).
    assert (q <> p /\ s_events a !! q = Some e /\ s_pending a' = filter (fun x => x <> p) (s_pending a)) as (Hne & He' & ->).
    { destruct (any_set _ _).
      - apply bind_ok in H as (h & E & [= <-]). unfold delete_event in E. inv_ok. simpl in *.
        apply lookup_delete_Some in He as [Hne He]. rewrite lookup_insert_ne in He by done. auto.
      - injection H as <-. simpl in *. destruct (decide (q = p)) as [->|]; [|rewrite lookup_insert_ne in He by done; auto].
        rewrite lookup_insert_eq in He. injection He as <-. by rewrite scheduled_clear in Hs. }
    apply list_elem_of_filter. eauto.
  - apply bind_ok in H as (_ & _ & (e0 & _ & (_ & _ & (_ & _ & (_ & _ & (a1 & E4 & (a2 & E5 & (a3 & E6 & H)%bind_ok)%bind_ok)%bind_ok)%bind_ok)%bind_ok)%bind_ok)%bind_ok).
    apply s_on_ok in E5 as (e1 & _ & ->). apply bind_ok in E6 as (e3 & _ & [= <-]). apply s_on_ok in H as (e2 & _ & ->).
    simpl in *. apply place_in. destruct (decide (q = p)) as [->|]; [by left|]. right. rewrite !lookup_insert_ne in He by done.
    destruct (scheduled e0); [apply s_remove_ok in E4 as [_ ->]|injection E4 as <-]; simpl in *; [apply list_elem_of_filter|]; eauto.
  - apply s_on_ok in H as (e1 & He1 & ->). simpl in *. destruct (decide (q = p)) as [->|]; [|rewrite lookup_insert_ne in He by done; eauto].
    rewrite lookup_insert_eq in He. injection He as <-. rewrite scheduled_squash in Hs. eauto.
  - apply bind_ok in H as (_ & _ & (a1 & E & [= <-])%bind_ok). rewrite Ha in E. injection E as <-. simpl in *. eauto.
Qed.

Lemma op_id m o a a' : s_op m o a = Ok a' -> s_id a' = s_id a.
Proof.
  assert (forall f p b b', s_on f p b = Ok b' -> s_id b' = s_id b) as Hon by by intros f p b b' (e & _ & ->)%s_on_ok.
  intros H. destruct o as [p pr f|p w g|p|p w al|p|]; simpl in H.
  - by apply bind_ok in H as (h & E & [= <-]).
  - apply bind_ok in H as (_ & _ & (e0 & _ & (_ & _ & (_ & _ & (a1 & E2 & (a2 & E3 & H)%bind_ok)%bind_ok)%bind_ok)%bind_ok)%bind_ok).
    rewrite (Hon _ _ _ _ H), <- (Hon _ _ _ _ E2). destruct (_ || _); [|unfold s_insert in E3]; by inv_ok.
  - apply bind_ok in H as (_ & _ & (_ & _ & (_ & _ & (_ & _ & (a1 & [_ ->]%s_remove_ok & (a2 & E4 & (e2 & _ & H)%bind_ok)%bind_ok)%bind_ok)%bind_ok)%bind_ok)%bind_ok).
    apply Hon in E4. simpl in E4. rewrite <- E4. destruct (any_set _ _); by inv_ok.
  - apply bind_ok in H as (_ & _ & (e0 & _ & (_ & _ & (_ & _ & (_ & _ & (a1 & E4 & (a2 & E5 & (a3 & E6 & H)%bind_ok)%bind_ok)%bind_ok)%bind_ok)%bind_ok)%bind_ok)%bind_ok).
    apply bind_ok in E6 as (e3 & _ & [= <-]). rewrite (Hon _ _ _ _ H). simpl. rewrite (Hon _ _ _ _ E5).
    destruct (scheduled e0); [by apply s_remove_ok in E4 as [_ ->]|by injection E4 as <-].
  - by eapply Hon.
  - apply bind_ok in H as (_ & _ & (a1 & E & [= <-])%bind_ok). simpl. apply (insert_all_perm _ _ _ E).
Qed.

Lemma delays_0 m o a a' : s_op m o a = Ok a' -> delays 0 (s_now a) o.
Proof.
  destruct o as [p pr f|p w g|p|p w al|p|]; simpl; try done; intros H; unfold s_schedule, s_reschedule in H;
    apply bind_ok in H as (_ & E%ensure_ok & _); lia.
Qed.

Section serial.
Context (m : Mode) (Hm : inParallelMode m = false) (d : Z) (Hd : 0 <= d) (x : nat).

Lemma advance_sound t a a' : sound a -> advance d t x a a' -> s_now a <= t -> live a' -> s_async a' = [] ->
  (forall p e, s_events a' !! p = Some e -> any_set (flags e) IsMainQueue = false) ->
  (forall p e, s_events a' !! p = Some e -> scheduled e = true -> p ∈ s_pending a') -> sound a'.
Proof.
  intros Hs Had Ht Hl Ha Hmn Hco. split; try done. intros p Hp. rewrite (ad_now _ _ _ _ _ Had).
  destruct (ad_pending _ _ _ _ _ Had p Hp) as [[Hin E]|(w & E & Hw)].
  - rewrite E. by apply Hs.
  - exists w. split; [done|lia].
Qed.

Lemma ops_advance ops : forall a a', sound a -> Forall (spares x) ops -> Forall (delays d (s_now a)) ops -> s_ops m ops a = Ok a' ->
  sound a' /\ advance d (s_now a) x a a'.
Proof.
  induction ops as [|o ops IH]; intros a a' Hs Hx Hdl H; simpl in H; inv_ok; [by split; [|apply advance_refl]|].
  apply Forall_cons_1 in Hx as [Hx1 Hx2]. apply Forall_cons_1 in Hdl as [Hd1 Hd2].
  destruct (op_advance m Hm d x o a a0 (s_now a) (sd_live _ Hs) (sd_async _ Hs) Hx1 Hd1 E) as [Had Ha].
  assert (sound a0) as Hs1.
  { eapply (advance_sound (s_now a) a); try done; [by eapply op_live, E; apply Hs| |].
    - eapply op_main; [|exact E]. apply Hs.
    - eapply op_complete; [done|apply Hs| |exact E]. apply Hs. }
  rewrite <- (ad_now _ _ _ _ _ Had) in Hd2. destruct (IH a0 a' Hs1 Hx2 Hd2 H) as [Hs2 Had2].
  split; [done|]. rewrite (ad_now _ _ _ _ _ Had) in Had2. by eapply advance_trans.
Qed.
End serial.

(** ** One event *)

Lemma ops_core m ops : forall q a, live a -> core q a -> matches core (run_ops m ops q) (s_ops m ops a).
Proof.
  induction ops as [|o ops IH]; intros q a Hl Hc; simpl; [done|].
  apply (matches_bind core); [by apply op_core|]. intros q1 a1 Hc1 _ E. apply IH; [|done]. by eapply op_live.
Qed.

Lemma auto_delete_ok p q a d t x : sound a -> core q a -> is_Some (s_events a !! p) ->
  exists q' a', auto_delete p q = Ok q' /\ core q' a' /\ sound a' /\ advance d t x a a'.
Proof.
  intros Hs Hc [s He]. pose proof He as He'. rewrite (core_lookup q a p Hc) in He'. destruct (events q !! p) as [e|] eqn:Ee; [|done].
  injection He' as <-. unfold auto_delete. rewrite (proj2 (hget_ok _ _ _) Ee). cbn [mbind outcome_bind].
  destruct (any_set _ _ && _) eqn:Ed; [|by exists q, a; split_and!; [..|apply advance_refl]].
  apply andb_true_iff in Ed as [_ Hns%negb_true_iff]. destruct (live_pending a p (strip e) (sd_live _ Hs) He Hns) as [Hn1 Hn2].
  pose proof (core_delete p q a Hn1 Hc) as Hm. unfold delete_event in Hm. rewrite (proj2 (hget_ok _ _ _) Ee), (proj2 (hget_ok _ _ _) He) in Hm.
  cbn [mbind outcome_bind] in Hm. change (scheduled (strip e)) with (scheduled e) in Hm. unfold delete_event.
  rewrite (proj2 (hget_ok _ _ _) Ee). cbn [mbind outcome_bind]. rewrite Hns in Hm |- *. cbn [negb ensure mbind outcome_bind] in Hm |- *. simpl in Hm.
  assert (forall y, y ∈ s_pending a -> delete p (s_events a) !! y = s_events a !! y) as Hy.
  { intros y Hy. apply lookup_delete_ne. by intros ->. }
  eexists _, _. split; [reflexivity|]. split; [exact Hm|]. split; [split|split]; simpl; try done.
  - apply live_alive. eapply alive_sub; [apply live_alive, Hs|apply Hs|]. simpl. intros y Hy'. split; [done|].
    apply lookup_delete_ne. intros ->. apply elem_of_app in Hy' as [|]; done.
  - apply Hs.
  - intros y Hy'. unfold when_of. simpl. rewrite Hy by done. by apply Hs.
  - intros y e' [_ Hy']%lookup_delete_Some. by eapply Hs.
  - intros y e' [_ Hy']%lookup_delete_Some. by eapply Hs.
  - intros y Hy'. left. split; [done|]. unfold when_of. simpl. by rewrite Hy.
  - intros Hx. split; [done|]. by apply Hy.
Qed.

(** The event [p] is taken off the queue. *)
Lemma pop_sound q a p l e : sound a -> core q a -> s_pending a = p :: l -> s_events a !! p = Some e ->
  exists q', pop q = Ok (p, q') /\
    let a' := a <| s_events := <[p := clear_flag Scheduled e]> (s_events a) |> <| s_pending := l |> in
    core q' a' /\ sound a' /\ (forall y, y ∈ l -> y <> p) /\ (forall y, y ∈ l -> exists w, when_of a' y = Some w /\ _when e <= w).
Proof.
  intros Hs Hc Hp He. pose proof (sd_live _ Hs) as Hl. pose proof (lv_nodup _ Hl) as Hn. apply NoDup_app in Hn as (Hn & _ & _).
  pose proof (core_pop q a Hn Hc) as Hm. rewrite Hp in Hn. apply NoDup_cons in Hn as [Hnp _].
  assert (exists a', s_pop a = Ok (p, a')) as [a' Ea] by (unfold s_pop, s_on, hupd; rewrite Hp, (proj2 (hget_ok _ _ _) He); eauto).
  rewrite Ea in Hm. destruct (pop_live _ _ _ Hl Ea) as (Hl' & e' & l' & Hp' & He' & ->). rewrite Hp in Hp'. injection Hp' as <-.
  rewrite He in He'. injection He' as <-. destruct (pop q) as [[p' q']|]; [|done]. destruct Hm as [Ep Hc']. simpl in Ep. subst p'. exists q'.
  split; [done|]. intros a'. fold a' in Hc', Hl'. assert (forall y, y ∈ l -> y <> p) as Hne by (intros y Hy ->; done).
  assert (forall y, y ∈ l -> when_of a' y = when_of a y) as Hw by (intros y Hy; unfold when_of; simpl; by rewrite lookup_insert_ne by (symmetry; auto)).
  split_and!; try done.
  - split; try done; [apply Hs| | |].
    + intros y Hy. rewrite Hw by done. apply Hs. rewrite Hp. by right.
    + intros y e'. simpl. destruct (decide (y = p)) as [->|]; [|rewrite lookup_insert_ne by done; apply Hs].
      rewrite lookup_insert_eq. injection 1 as <-. simpl. change IsMainQueue with (2 ^ 5). rewrite any_set_clear by lia.
      apply andb_false_iff. left. by apply (sd_main _ Hs p).
    + intros y e'. simpl. destruct (decide (y = p)) as [->|].
      * rewrite lookup_insert_eq. injection 1 as <-. by rewrite scheduled_clear.
      * rewrite lookup_insert_ne by done. intros He' Hsc. pose proof (sd_complete _ Hs y e' He' Hsc) as Hy. rewrite Hp in Hy. set_solver.
  - intros y Hy. rewrite Hw by done. destruct (sd_timely _ Hs y) as (w & Ew & _); [rewrite Hp; by right|]. exists w. split; [done|].
    pose proof (core_ordered _ _ Hc) as Ho. unfold ordered in Ho. rewrite Hp in Ho. inversion Ho as [|? ? _ Ho']; subst.
    rewrite Forall_forall in Ho'. unfold when_of in Ew. destruct (s_events a !! y) as [ey|] eqn:Ey; [|done]. injection Ew as <-.
    specialize (Ho' y Hy e ey He Ey). unfold klt, key in Ho'. simpl in Ho'. lia.
Qed.

Section loop.
Context {W : Type} {HW : Handlers W} (m : Mode) (Hm : inParallelMode m = false) (d : Z) (Hd : 0 <= d) (x : nat) (limit : Z).

(** What is asked of the handlers: their operations are allowed in the state they
    run in, leave the event [x] that ends the simulation alone, do not delete the
    event that runs, and schedule at least [d] ticks ahead. *)
Definition handlers_ok : Prop :=
  forall p w a e w' ops, sound a -> s_events a !! p = Some e -> scheduled e = false -> s_now a = _when e ->
  process p (s_now a) (s_events a) w = (w', ops) ->
  Forall (spares x) ops /\ Forall (delays d (s_now a)) ops /\ exists a', s_ops m ops a = Ok a' /\ is_Some (s_events a' !! p).

Context (Hh : handlers_ok).

(** The state after an event at tick [t]; [l] are the events that were behind it. *)
Record after_event (t : Z) (l : list nat) (a a' : spec) : Prop := {
  ae_sound : sound a';
  ae_limited : limited x limit a';
  ae_pending y : y ∈ s_pending a' -> y ∈ l /\ when_of a' y = when_of a y \/ exists w, when_of a' y = Some w /\ t + d <= w;
}.

Lemma limited_advance t a a' : limited x limit a -> advance d t x a a' -> limited x limit a'.
Proof. intros [L1 L2] Ha. destruct (ad_limit _ _ _ _ _ Ha L1) as [L3 E]. split; [done|]. by rewrite E. Qed.

Lemma squashed_event q a p e : sound a -> core q a -> s_events a !! p = Some e -> p ∉ s_pending a -> limited x limit a -> forall t,
  exists q1 q2 a2, on_event (clear_flag Squashed) p q = Ok q1 /\ auto_delete p q1 = Ok q2 /\ core q2 a2 /\ sound a2 /\
    limited x limit a2 /\ advance d t x a a2.
Proof.
  intros Hs Hc He Hp Hlim t. pose proof (core_on (clear_flag Squashed) p q a (proj2 (flag_visible _)) (or_introl (fun _ => eq_refl)) Hc) as Hmt.
  unfold s_on, hupd in Hmt. rewrite (proj2 (hget_ok _ _ _) He) in Hmt. cbn [mbind outcome_bind] in Hmt. set (a1 := a <| s_events := _ |>) in Hmt.
  destruct (on_event _ p q) as [q1|]; [|done]. simpl in Hmt.
  assert (forall y, y ∈ s_pending a -> s_events a1 !! y = s_events a !! y) as Hy by (intros y Hy; simpl; apply lookup_insert_ne; by intros ->).
  assert (advance d t x a a1) as Had.
  { split; try done; intros; [left|split; [done|by apply Hy]]. split; [done|]. unfold when_of. by rewrite Hy. }
  assert (sound a1) as Hs1.
  { split; simpl; [|apply Hs| | |].
    - apply live_alive. eapply alive_sub; [apply live_alive, Hs|apply Hs|]. intros y Hy'. split; [done|]. apply Hy.
      apply elem_of_app in Hy' as [|Hy']; [done|]. simpl in Hy'. rewrite (sd_async _ Hs) in Hy'. by apply elem_of_nil in Hy'.
    - intros y Hy'. unfold when_of. rewrite Hy by done. by apply Hs.
    - intros y e'. destruct (decide (y = p)) as [->|]; [|rewrite lookup_insert_ne by done; apply Hs].
      rewrite lookup_insert_eq. injection 1 as <-. simpl. change IsMainQueue with (2 ^ 5). rewrite any_set_clear by lia.
      apply andb_false_iff. left. by apply (sd_main _ Hs p).
    - intros y e'. destruct (decide (y = p)) as [->|]; [|rewrite lookup_insert_ne by done; apply Hs].
      rewrite lookup_insert_eq. injection 1 as <-. rewrite scheduled_unsquash. by apply (sd_complete _ Hs). }
  destruct (auto_delete_ok p q1 a1 d t x Hs1 Hmt) as (q2 & a2 & E2 & Hc2 & Hs2 & Had2); [simpl; by rewrite lookup_insert_eq|].
  exists q1, q2, a2. pose proof (advance_trans _ _ _ _ _ _ Had Had2). split_and!; try done. by eapply limited_advance.
Qed.

Lemma processed_event q a p e w : sound a -> core q a -> s_events a !! p = Some e -> scheduled e = false -> s_now a = _when e ->
  exists w' ops q1 a1, process p (_curTick q) (strip <$> events q) w = (w', ops) /\ run_ops m ops q = Ok q1 /\ core q1 a1 /\ sound a1 /\
    advance d (_when e) x a a1 /\ is_Some (events q1 !! p) /\ (p = x -> s_events a1 !! p = Some e).
Proof.
  intros Hs Hc He Hns Hnow. rewrite <- (co_events _ _ Hc), <- (co_now _ _ Hc). destruct (process p (s_now a) (s_events a) w) as [w' ops] eqn:Ep.
  destruct (Hh p w a e w' ops Hs He Hns Hnow Ep) as (Hsp & Hdl & a1 & Ea1 & Hp1). pose proof (ops_core m ops q a (sd_live _ Hs) Hc) as Hmt.
  rewrite Ea1 in Hmt. destruct (run_ops m ops q) as [q1|] eqn:Eq; [|done]. simpl in Hmt.
  destruct (ops_advance m Hm d Hd x ops a a1 Hs Hsp Hdl Ea1) as [Hs1 Had]. rewrite Hnow in Had.
  exists w', ops, q1, a1. split_and!; try done.
  - rewrite (core_lookup q1 a1 p Hmt) in Hp1. by apply fmap_is_Some in Hp1.
  - intros ->. by eapply ops_spares.
Qed.

Lemma service_ok w q a p l e : sound a -> core q a -> limited x limit a -> s_pending a = p :: l -> s_events a !! p = Some e ->
  exists r w' q' a', serviceOne m w q = Ok (r, w', q') /\ core q' a' /\ s_now a <= s_now a' <= _when e /\
    match r with
    | Some _ => True
    | None => after_event (_when e) l a a' /\ p <> x
    end.
Proof.
  intros Hs Hc Hlim Hp He. destruct (pop_sound q a p l e Hs Hc Hp He) as (q0 & Epop & Hc0 & Hs0 & Hne & Hle). set (a0 := a <| s_events := _ |> <| s_pending := l |>) in *.
  assert (s_events a0 !! p = Some (clear_flag Scheduled e)) as He0 by apply lookup_insert_eq.
  assert (s_now a <= _when e) as Hnow.
  { destruct (sd_timely _ Hs p) as (w0 & E & ?); [rewrite Hp; left|]. unfold when_of in E. rewrite He in E. by injection E as <-. }
  assert (p <> x -> limited x limit a0) as Hlim0.
  { intros Hpx. destruct Hlim as [L1 L2]. rewrite Hp in L1. apply elem_of_cons in L1 as [->|L1]; [done|]. split; [done|].
    simpl. by rewrite lookup_insert_ne by done. }
  assert (forall y, y ∈ l -> when_of a0 y = when_of a y) as Hw by (intros y Hy; unfold when_of; simpl; by rewrite lookup_insert_ne by (symmetry; auto)).
  assert (p ∉ s_pending a0) as Hp0 by (intros Hp'; by apply (Hne p)).
  pose proof He0 as Hec. rewrite (core_lookup q0 a0 p Hc0) in Hec. destruct (events q0 !! p) as [ec|] eqn:Eec; [|done]. apply (inj Some) in Hec.
  unfold serviceOne. rewrite Epop. cbn [mbind outcome_bind]. rewrite (proj2 (hget_ok _ _ _) Eec). cbn [mbind outcome_bind].
  assert (squashed ec = squashed e /\ _when ec = _when e) as [-> ->].
  { change (squashed ec) with (squashed (strip ec)). change (_when ec) with (_when (strip ec)). rewrite Hec. split; [|done].
    unfold squashed. simpl. change Squashed with (2 ^ 0). rewrite any_set_clear by lia. apply andb_true_r. }
  destruct (squashed e) eqn:Esq.
  - assert (p <> x) as Hpx. { intros ->. destruct (lm_event _ _ _ Hlim) as (e' & E & _ & _ & Es). congruence. }
    destruct (squashed_event q0 a0 p _ Hs0 Hc0 He0 Hp0 (Hlim0 Hpx) (_when e)) as (q1 & q2 & a2 & -> & E2 & Hc2 & Hs2 & Hl2 & Had).
    cbn [mbind outcome_bind]. rewrite E2. cbn [mbind outcome_bind]. exists None, w, q2, a2. split; [done|]. split; [done|].
    rewrite (ad_now _ _ _ _ _ Had). split; [simpl; lia|]. split; [|done]. split; [done|done|]. intros y Hy.
    destruct (ad_pending _ _ _ _ _ Had y Hy) as [[Hy' E]|H]; [left|by right]. split; [done|]. rewrite E. by apply Hw.
  - set (q1 := q0 <| _curTick := _when e |>). set (a1 := a0 <| s_now := _when e |>).
    assert (core q1 a1) as Hc1 by (destruct Hc0; by split).
    assert (sound a1) as Hs1 by (destruct Hs0 as [S1 S2 S3 S4 S5]; split; [by destruct S1|done|exact Hle|done|done]).
    destruct (processed_event q1 a1 p _ w Hs1 Hc1 He0) as (w' & ops & q2 & a2 & Epr & Eops & Hc2 & Hs2 & Had & [e2 He2] & Hpx2); [apply scheduled_clear|done|].
    rewrite Epr, Eops. cbn [mbind outcome_bind]. rewrite (proj2 (hget_ok _ _ _) He2). cbn [mbind outcome_bind].
    assert (s_events a2 !! p = Some (strip e2)) as He2' by by rewrite (core_lookup q2 a2 p Hc2), He2.
    assert (s_now a <= s_now a2 <= _when e) as Hn2 by (rewrite (ad_now _ _ _ _ _ Had); simpl; lia).
    destruct (isExitEvent e2) eqn:Ex.
    + pose proof (sd_main _ Hs2 p _ He2') as Hmn. change (flags (strip e2)) with (flags e2) in Hmn. rewrite Hmn, orb_true_r.
      cbn [ensure mbind outcome_bind]. by exists (Some p), w', q2, a2.
    + assert (p <> x) as Hpx.
      { intros ->. destruct (lm_event _ _ _ Hlim) as (e' & E' & _ & Hex & _). rewrite He in E'. injection E' as <-.
        specialize (Hpx2 eq_refl). rewrite He2' in Hpx2. apply (inj Some) in Hpx2. change (isExitEvent e2) with (isExitEvent (strip e2)) in Ex.
        rewrite Hpx2 in Ex. unfold isExitEvent in Ex, Hex. simpl in Ex. change IsExitEvent with (2 ^ 4) in Ex, Hex.
        rewrite any_set_clear, Hex in Ex by lia. done. }
      destruct (auto_delete_ok p q2 a2 d (_when e) x Hs2 Hc2 ltac:(by rewrite He2')) as (q3 & a3 & -> & Hc3 & Hs3 & Had3).
      cbn [mbind outcome_bind]. exists None, w', q3, a3. split; [done|]. split; [done|]. rewrite (ad_now _ _ _ _ _ Had3). split; [done|].
      pose proof (advance_trans _ _ _ _ _ _ Had Had3) as Had'. split; [|done]. split; [done| |].
      * eapply limited_advance; [|exact Had']. destruct (Hlim0 Hpx). by split.
      * intros y Hy. destruct (ad_pending _ _ _ _ _ Had' y Hy) as [[Hy' E]|H]; [left|by right]. split; [done|]. rewrite E. by apply Hw.
Qed.
(** ** The loop *)

(** The same for what asynchronous requests do before an event is taken. *)
Definition interrupts_ok : Prop :=
  forall w a w' ops stop, sound a -> interrupt (s_now a) (s_events a) w = Some (w', ops, stop) ->
  Forall (spares x) ops /\ Forall (delays d (s_now a)) ops /\ exists a', s_ops m ops a = Ok a'.

Lemma core_first q a p l : core q a -> s_pending a = p :: l -> head q = Some p /\ exists e, events q !! p = Some e /\ s_events a !! p = Some (strip e).
Proof.
  intros Hc Hp. destruct (co_links _ _ Hc) as (bs & ks & Hlk & Ec). rewrite Hp in Ec. destruct bs as [|b bs]; [done|].
  destruct (bins_top _ _ _ _ (lk_bins _ _ _ _ Hlk)) as (t & l' & e & -> & Hhd & Ht & _). injection Ec as -> _.
  split; [done|]. exists e. split; [done|]. by rewrite (core_lookup q a p Hc), Ht.
Qed.

(** The first event is due before the limit. *)
Lemma first_due q a : sound a -> core q a -> limited x limit a ->
  exists p l e, s_pending a = p :: l /\ s_events a !! p = Some e /\ s_now a <= _when e <= limit /\ head q = Some p /\ nextTick q = Ok (_when e).
Proof.
  intros Hs Hc [L1 (ex & L2 & L3 & _)]. destruct (s_pending a) as [|p l] eqn:Hp; [by apply elem_of_nil in L1|].
  destruct (core_first q a p l Hc Hp) as (Hhd & e & He & Hse). exists p, l, (strip e). split_and!; try done.
  - destruct (sd_timely _ Hs p) as (w & E & Hw); [rewrite Hp; left|]. unfold when_of in E. rewrite Hse in E. by injection E as <-.
  - pose proof (core_ordered _ _ Hc) as Ho. unfold ordered in Ho. rewrite Hp in Ho. inversion Ho as [|? ? _ Ho']; subst.
    apply elem_of_cons in L1 as [->|L1]; [rewrite Hse in L2; injection L2 as <-; done|]. rewrite Forall_forall in Ho'.
    specialize (Ho' x L1 _ _ Hse L2). unfold klt, key in Ho'. simpl in Ho'. simpl. lia.
  - unfold nextTick. rewrite Hhd, (proj2 (hget_ok _ _ _) He). done.
Qed.

Lemma loop_safe fuel : interrupts_ok -> forall w q a, sound a -> core q a -> limited x limit a ->
  exists r w' q' a', sim_loop m fuel w q = Ok (r, w', q') /\ core q' a' /\ s_now a <= s_now a' <= limit.
Proof.
  intros Hi. induction fuel as [|fuel IH]; intros w q a Hs Hc Hl; destruct (first_due q a Hs Hc Hl) as (p & l & e & Hp & He & Hn & Hhd & Ht).
  { exists Running, w, q, a. split; [done|]. split; [done|]. lia. }
  simpl. rewrite Hhd, Ht. cbn [ensure mbind outcome_bind]. rewrite <- (co_now _ _ Hc), (proj2 (Z.leb_le _ _)) by lia. cbn [ensure mbind outcome_bind].
  rewrite <- (co_events _ _ Hc).
  assert (exists stop w1 q1 a1, (match interrupt (s_now a) (s_events a) w with
      | None => Ok (false, w, q)
      | Some (w, ops, stop) => q ← run_ops m ops q; Ok (stop, w, q)
      end) = Ok (stop, w1, q1) /\ sound a1 /\ core q1 a1 /\ limited x limit a1 /\ s_now a1 = s_now a) as (stop & w1 & q1 & a1 & -> & Hs1 & Hc1 & Hl1 & En).
  { destruct (interrupt _ _ w) as [[[w1 ops] stop]|] eqn:Ei; [|by exists false, w, q, a].
    destruct (Hi w a w1 ops stop Hs Ei) as (Hsp & Hdl & a1 & Ea1). pose proof (ops_core m ops q a (sd_live _ Hs) Hc) as Hmt. rewrite Ea1 in Hmt.
    destruct (run_ops m ops q) as [q1|]; [|done]. destruct (ops_advance m Hm d Hd x ops a a1 Hs Hsp Hdl Ea1) as [Hs1 Had].
    exists stop, w1, q1, a1. split_and!; try done; [by eapply limited_advance|apply Had]. }
  cbn [mbind outcome_bind]. destruct stop. { exists Exception, w1, q1, a1. rewrite En. split; [done|]. split; [done|]. lia. }
  destruct (first_due q1 a1 Hs1 Hc1 Hl1) as (p1 & l1 & e1 & Hp1 & He1 & Hn1 & _).
  destruct (service_ok w1 q1 a1 p1 l1 e1 Hs1 Hc1 Hl1 Hp1 He1) as (r & w2 & q2 & a2 & -> & Hc2 & Hn2 & Hr). cbn [mbind outcome_bind].
  destruct r as [ev|]; [exists (Exit ev), w2, q2, a2; split; [done|]; split; [done|]; lia|].
  destruct Hr as [[Hs2 Hl2 _] _]. destruct (IH w2 q2 a2 Hs2 Hc2 Hl2) as (r & w3 & q3 & a3 & -> & Hc3 & Hn3).
  exists r, w3, q3, a3. split; [done|]. split; [done|]. lia.
Qed.

(** The events due at tick [t]. *)
Definition due (a : spec) (t : Z) (l : list nat) : list nat := filter (fun y => when_of a y = Some t) l.

Lemma loop_ends : 1 <= d -> (forall now evs w, interrupt now evs w = None) -> forall n k w q a p l e, sound a -> core q a -> limited x limit a ->
  s_pending a = p :: l -> s_events a !! p = Some e -> Z.to_nat (limit - _when e) = n -> length (due a (_when e) (s_pending a)) = k ->
  exists fuel ev w' q', sim_loop m fuel w q = Ok (Exit ev, w', q').
Proof.
  intros Hd1 Hi n. induction n as [n IHn] using lt_wf_ind. intros k. induction k as [k IHk] using lt_wf_ind.
  intros w q a p l e Hs Hc Hl Hp He En Ek. destruct (first_due q a Hs Hc Hl) as (p' & l' & e' & Hp' & He' & Hn & Hhd & Ht).
  assert (p' = p /\ l' = l /\ e' = e) as (-> & -> & ->) by (split_and!; congruence).
  destruct (service_ok w q a p l e Hs Hc Hl Hp He) as (r & w1 & q1 & a1 & Esv & Hc1 & Hn1 & Hr).
  assert (forall fuel, sim_loop m (S fuel) w q = match r with Some ev => Ok (Exit ev, w1, q1) | None => sim_loop m fuel w1 q1 end) as Eloop.
  { intros fuel. simpl. rewrite Hhd, Ht. cbn [ensure mbind outcome_bind]. rewrite <- (co_now _ _ Hc), (proj2 (Z.leb_le _ _)) by lia.
    cbn [ensure mbind outcome_bind]. rewrite Hi. cbn [mbind outcome_bind]. rewrite Esv. by destruct r. }
  destruct r as [ev|]; [by exists 1%nat, ev, w1, q1|]. destruct Hr as [[Hs1 Hl1 Hpd] _].
  destruct (first_due q1 a1 Hs1 Hc1 Hl1) as (p1 & l1 & e1 & Hp1 & He1 & Hle1 & _).
  assert (exists fuel ev w' q', sim_loop m fuel w1 q1 = Ok (Exit ev, w', q')) as (fuel & ev & w' & q' & E).
  2: { exists (S fuel), ev, w', q'. by rewrite Eloop. }
  assert (_when e <= _when e1) as Hge.
  { destruct (Hpd p1) as [[Hy E]|(w' & E & Hw)]; [rewrite Hp1; left| |].
    - destruct (pop_sound q a p l e Hs Hc Hp He) as (_ & _ & _ & _ & Hne & Hle). destruct (Hle p1 Hy) as (w' & Ew & Hw).
      unfold when_of in E, Ew. simpl in Ew. rewrite lookup_insert_ne in Ew by (symmetry; auto). rewrite He1 in E. rewrite <- E in Ew. injection Ew as <-. done.
    - unfold when_of in E. rewrite He1 in E. injection E as <-. lia. }
  destruct (decide (_when e1 = _when e)) as [E1|Hne].
  - eapply (IHk (length (due a1 (_when e1) (s_pending a1)))); try done; [|lia]. rewrite <- Ek, E1. unfold due at 2. rewrite Hp.
    rewrite filter_cons_True by (unfold when_of; by rewrite He). simpl. apply Nat.lt_succ_r.
    apply submseteq_length, NoDup_submseteq. { apply NoDup_filter. pose proof (lv_nodup _ (sd_live _ Hs1)) as Hn'. by apply NoDup_app in Hn' as (? & _ & _). }
    intros y [Hy1 Hy2]%list_elem_of_filter. destruct (Hpd y Hy2) as [[Hy E]|(w' & E & Hw)].
    + apply list_elem_of_filter. split; [congruence|done].
    + rewrite Hy1 in E. injection E as <-. lia.
  - eapply IHn; [|done..]. lia.
Qed.
End loop.

(** ** From an empty queue *)

Lemma op_sound m o a a' : inParallelMode m = false -> sound a -> s_op m o a = Ok a' -> sound a'.
Proof.
  intros Hm Hs H.
  assert (exists x, spares x o) as [x Hx] by (destruct o as [p ? ?|p ? ?|p|p ? ?|p|]; exists (S p) || exists 0%nat; simpl; lia || done).
  destruct (op_advance m Hm 0 x o a a' (s_now a) (sd_live _ Hs) (sd_async _ Hs) Hx (delays_0 _ _ _ _ H) H) as [Had Ha].
  eapply (advance_sound 0 ltac:(lia) x (s_now a) a); try done; [by eapply op_live, H; apply Hs| |].
  - eapply op_main; [|exact H]. apply Hs.
  - eapply op_complete; [done|apply Hs| |exact H]. apply Hs.
Qed.

Lemma ops_sound m ops : inParallelMode m = false -> forall a a', sound a -> s_ops m ops a = Ok a' -> sound a'.
Proof.
  intros Hm. induction ops as [|o ops IH]; intros a a' Hs H; simpl in H; inv_ok; [done|]. eapply IH; [|done]. by eapply op_sound.
Qed.

(** The queue after some operations, with an event that ends the simulation. *)
Record set_up (m : Mode) (id : Z) (ops : list op) (x : nat) (limit : Z) (q : EventQueue) : Prop := {
  su_serial : inParallelMode m = false;
  su_queue : curEventQueue m = id;
  su_ops : run_ops m ops (EventQueue_new id ∅) = Ok q;
  su_exit : exists e, events q !! x = Some e /\ _when e = limit /\ scheduled e = true /\ isExitEvent e = true /\ squashed e = false;
}.

Lemma set_up_sound m id ops x limit q : set_up m id ops x limit q ->
  exists a, core q a /\ sound a /\ limited x limit a /\ qid q = id /\ async_queue q = [].
Proof.
  intros [Hm Hq Hops (e & He & Hw & Hsc & Hex & Hsq)]. set (a0 := MkSpec id 0 [] [] (strip <$> ∅)). destruct (new_core id ∅) as [Hc0 _]. fold a0 in Hc0.
  assert (sound a0) as Hs0. { split; [split; constructor|done|by intros ? ?%elem_of_nil|done|done]. }
  pose proof (ops_core m ops _ _ (sd_live _ Hs0) Hc0) as Hmt. rewrite Hops in Hmt. destruct (s_ops m ops a0) as [a|] eqn:Ea; [|done].
  simpl in Hmt. assert (sound a) as Hs by by eapply ops_sound. exists a.
  assert (s_events a !! x = Some (strip e)) as Hx by by rewrite (core_lookup q a x Hmt), He.
  split_and!; try done.
  - split; [by eapply (sd_complete _ Hs)|]. by exists (strip e).
  - rewrite <- (co_id _ _ Hmt). clear -Ea. change id with (s_id a0). clearbody a0. revert a0 Ea.
    induction ops as [|o ops IH]; intros a0 Ea; simpl in Ea; inv_ok; [done|]. rewrite (IH _ Ea). by eapply op_id.
  - rewrite <- (co_async _ _ Hmt). apply Hs.
Qed.

Lemma doSimLoop_serial {W} {HW : Handlers W} m id ops x limit q fuel (w : W) : set_up m id ops x limit q ->
  doSimLoop m fuel w q = sim_loop m fuel w q.
Proof.
  intros Hsu. destruct (set_up_sound m id ops x limit q Hsu) as (a & _ & _ & _ & Hid & Ha). unfold doSimLoop, handleAsyncInsertions.
  rewrite Hid, (su_queue _ _ _ _ _ _ Hsu), Z.eqb_refl, Ha. cbn [ensure mbind outcome_bind insert_all]. f_equal. destruct q. simpl in *. by rewrite Ha.
Qed.

(** C6: time does not run backwards: in serial mode, from any queue built through the
    interface, with handlers and asynchronous requests that keep to the interface and
    leave the event alone that ends the simulation, any number of rounds of the
    simulation loop fails no assertion (the queue is never empty, no event is in the
    past), never panics, and the time at its end is between the time at its start and
    the tick of that event. *)
Theorem simulation_time_safe {W} {HW : Handlers W} m id ops x limit q (w : W) fuel :
  set_up m id ops x limit q -> handlers_ok m 0 x -> interrupts_ok m 0 x ->
  exists r w' q', doSimLoop m fuel w q = Ok (r, w', q') /\ _curTick q <= _curTick q' <= limit.
Proof.
  intros Hsu Hh Hi. rewrite (doSimLoop_serial m id ops x limit q fuel w Hsu).
  destruct (set_up_sound m id ops x limit q Hsu) as (a & Hc & Hs & Hl & _).
  destruct (loop_safe m (su_serial _ _ _ _ _ _ Hsu) 0 ltac:(lia) x limit Hh fuel Hi w q a Hs Hc Hl) as (r & w' & q' & a' & E & Hc' & Hn).
  exists r, w', q'. split; [done|]. by rewrite <- (co_now _ _ Hc), <- (co_now _ _ Hc').
Qed.

(** C7: a simulation with a limit ends: if moreover handlers schedule only later
    ticks than their own and there are no asynchronous requests, the loop is left
    after finitely many events, by an exit event. *)
Theorem simulation_ends {W} {HW : Handlers W} m id ops x limit q (w : W) :
  set_up m id ops x limit q -> handlers_ok m 1 x -> (forall now evs w, interrupt now evs w = None) ->
  exists fuel ev w' q', doSimLoop m fuel w q = Ok (Exit ev, w', q').
Proof.
  intros Hsu Hh Hi. destruct (set_up_sound m id ops x limit q Hsu) as (a & Hc & Hs & Hl & _).
  destruct (first_due x limit q a Hs Hc Hl) as (p & l & e & Hp & He & _).
  destruct (loop_ends m (su_serial _ _ _ _ _ _ Hsu) 1 ltac:(lia) x limit Hh ltac:(lia) Hi _ _ w q a p l e Hs Hc Hl Hp He eq_refl eq_refl)
    as (fuel & ev & w' & q' & E).
  exists fuel, ev, w', q'. by rewrite (doSimLoop_serial m id ops x limit q fuel w Hsu).
Qed.

(** A clock, event 1, that schedules itself every 10 ticks and writes down its runs,
    and event 0 that ends the simulation at tick 25. *)
#[local] Instance clock : Handlers (list Z) := {
  process p now evs w :=
    (now :: w, match evs !! p with
               | Some e => if initialized e && negb (Nat.eqb p 0) then [Reschedule p (now + 10) true] else []
               | None => []
               end);
  interrupt _ _ _ := None;
}.
Definition example_mode : Mode := MkMode false 7.
Definition example_ops : list op := [New 0 100 IsExitEvent; New 1 50 0; Schedule 0 25 false; Schedule 1 3 false].
Definition example_queue : EventQueue := match run_ops example_mode example_ops (EventQueue_new 7 ∅) with Ok q => q | Fail _ => EventQueue_new 7 ∅ end.

Lemma clock_ok d : d <= 10 -> handlers_ok (HW := clock) example_mode d 0.
Proof.
  intros Hd p w a e w' ops Hs He Hsc Hnow H. unfold process, clock in H. rewrite He in H. injection H as _ <-.
  destruct (initialized e && _) eqn:Ei; [|split_and!; [constructor..|by exists a]].
  apply andb_true_iff in Ei as [Ei Hp%negb_true_iff%Nat.eqb_neq].
  split; [by repeat constructor|]. split; [repeat constructor; simpl; lia|].
  unfold s_ops, s_op, s_reschedule, s_on, s_insert, hupd. rewrite (proj2 (Z.leb_le _ _)) by lia. cbn [ensure mbind outcome_bind].
  rewrite (proj2 (hget_ok _ _ _) He). cbn [mbind outcome_bind]. rewrite Ei, Hsc. cbn [orb ensure mbind outcome_bind].
  rewrite (proj2 (hget_ok _ _ _) He). cbn. rewrite (proj2 (hget_ok _ p _) (lookup_insert_eq _ _ _)). cbn.
  rewrite (proj2 (hget_ok _ p _) (lookup_insert_eq _ _ _)). cbn. eexists. split; [reflexivity|]. simpl. by rewrite lookup_insert_eq.
Qed.

Lemma example_set_up : set_up example_mode 7 example_ops 0 25 example_queue.
Proof. split; [done|done|vm_compute; reflexivity|]. eexists. split; [vm_compute; reflexivity|]. vm_compute. auto. Qed.

Lemma simulation_time_safe_witness :
  exists r w' q', doSimLoop (W := list Z) example_mode 3 [] example_queue = Ok (r, w', q') /\ 0 <= _curTick q' <= 25.
Proof.
  destruct (simulation_time_safe (HW := clock) example_mode 7 example_ops 0 25 example_queue [] 3) as (r & w' & q' & E & Ht).
  - apply example_set_up.
  - apply clock_ok. lia.
  - intros w a w' ops stop _ H. discriminate H.
  - exists r, w', q'. split; [exact E|]. exact Ht.
Defined.

Lemma simulation_ends_witness :
  (exists fuel ev w' q', doSimLoop (W := list Z) example_mode fuel [] example_queue = Ok (Exit ev, w', q')) /\
  exists q', doSimLoop (W := list Z) example_mode 4 [] example_queue = Ok (Exit 0%nat, [25; 23; 13; 3], q').
Proof.
  split.
  - apply (simulation_ends (HW := clock) example_mode 7 example_ops 0 25 example_queue []).
    + apply example_set_up.
    + apply clock_ok. lia.
    + intros. reflexivity.
  - eexists. vm_compute. reflexivity.
Defined.


(** ** The consistency check *)

(** An event at [k] after one at [time] and [priority]. *)
Lemma verify_bin_ok h k l : forall fuel o time priority seen,
  in_bin h o l -> Forall (keyed h k) l -> ~ klt k (time, priority) -> NoDup l -> (forall p, p ∈ l -> p ∉ seen) -> (length l < fuel)%nat ->
  verify_bin fuel h o time priority seen = Ok (Some (match l with [] => (time, priority) | _ => k end, reverse l ++ seen)).
Proof.
  induction l as [|p l IH]; intros fuel o time priority seen Hin Hk Hle Hn Hs Hf.
  { simpl in Hin. subst o. by destruct fuel. }
  destruct Hin as (-> & e & He & Hin). apply Forall_cons_1 in Hk as [Hp Hk]. unfold keyed in Hp. rewrite He in Hp. injection Hp as <-.
  apply NoDup_cons in Hn as [Hnp Hn]. simpl in Hf. destruct fuel as [|fuel]; [lia|]. simpl. rewrite (proj2 (hget_ok _ _ _) He). cbn [mbind outcome_bind].
  unfold klt, key in Hle. simpl in Hle. rewrite (proj2 (Z.ltb_ge _ _)) by lia.
  replace ((_when e =? time) && (_priority e <? priority)) with false by (symmetry; apply andb_false_iff; rewrite Z.eqb_neq, Z.ltb_ge; lia).
  rewrite decide_False by (apply Hs; left).
  rewrite (IH fuel (nextInBin e) (_when e) (_priority e) (p :: seen) Hin); [|done|apply klt_irrefl|done| |lia].
  - rewrite reverse_cons, <- app_assoc. by destruct l.
  - intros y Hy. rewrite not_elem_of_cons. split; [by intros ->|]. apply Hs. by right.
Qed.

Lemma verify_bins_ok h bs : forall ks fuel o time priority seen,
  bins h o bs -> Forall2 (fun b k => Forall (keyed h k) b) bs ks -> StronglySorted klt ks ->
  match ks with [] => True | k :: _ => ~ klt k (time, priority) end -> NoDup (concat bs) -> (forall p, p ∈ concat bs -> p ∉ seen) ->
  (length bs < fuel)%nat -> (length (concat bs) <= size h)%nat -> verify_bins fuel h o time priority seen = Ok true.
Proof.
  induction bs as [|b bs IH]; intros ks fuel o time priority seen Hb Hk Hs Hle Hn Hd Hf Hsz.
  { simpl in Hb. subst o. by destruct fuel. }
  destruct (bins_top _ _ _ _ Hb) as (t & l & e & -> & -> & Ht & Hin & Hb'). inversion Hk as [|? k ? ks' Hk1 Hks]; subst.
  inversion Hs as [|? ? Hs1 Hs2]; subst. simpl in Hf, Hsz, Hn, Hd. rewrite length_app in Hsz. destruct fuel as [|fuel]; [lia|].
  rewrite app_comm_cons in Hn. apply NoDup_app in Hn as (Hn1 & Hn2 & Hn3). cbn [verify_bins].
  rewrite (verify_bin_ok h k (t :: l) (S (size h)) (Some t) time priority seen); [|by split; [|exists e]|done|done|done|set_solver|simpl; lia].
  cbn [mbind outcome_bind]. destruct k as [kw kp]. rewrite (proj2 (hget_ok _ _ _) Ht). cbn [mbind outcome_bind].
  apply (IH ks'); try done; [| |lia|lia].
  - destruct ks' as [|k' ks']; [done|]. inversion Hs2; subst. intros H. by apply (klt_irrefl k'), (klt_trans _ (kw, kp)).
  - intros p Hp. rewrite elem_of_app, elem_of_reverse. intros [Hp'|Hp']; [by apply (Hn2 p)|]. apply (Hd p); [set_solver|done].
Qed.

(** The consistency check of the queue, on every queue that operations of the
    interface and removals of events from an empty queue can lead to: it reports no
    problem, unless the first event is at tick 0 and of negative priority. Such a
    queue is in order, but the check starts as if an event of priority 0 at tick 0 had
    come before, and reports an inversion of priorities. *)
Theorem debug_verify_false_alarm m id h l ps q :
  run_steps m l (EventQueue_new id h) = Ok (ps, q) -> (forall p e, events q !! p = Some e -> 0 <= _when e) ->
  debugVerify q = Ok (match head q with
                      | Some p => match events q !! p with
                                  | Some e => negb ((_when e =? 0) && (_priority e <? 0))
                                  | None => true
                                  end
                      | None => true
                      end).
Proof.
  intros Hrun Hpos. destruct (steps_reach m id h l ps q Hrun) as (a & Hc & _).
  destruct (co_links _ _ Hc) as (bs & ks & Hlk & _). unfold debugVerify. destruct (linked_fuel _ _ _ _ Hlk) as [Hf1 Hf2].
  destruct bs as [|b bs]. { destruct Hlk as [Hb _ _ _]. simpl in Hb. by rewrite Hb. }
  destruct (bins_top _ _ _ _ (lk_bins _ _ _ _ Hlk)) as (t & l' & e & -> & Hh & Ht & _). rewrite Hh, Ht.
  pose proof (lk_keys _ _ _ _ Hlk) as Hk. inversion Hk as [|? k ? ks' Hk1 _]; subst. apply Forall_cons_1 in Hk1 as [Hk1 _].
  unfold keyed in Hk1. rewrite Ht in Hk1. injection Hk1 as <-. destruct ((_when e =? 0) && (_priority e <? 0)) eqn:E.
  - simpl. rewrite (proj2 (hget_ok _ _ _) Ht). cbn [mbind outcome_bind]. pose proof (Hpos t e Ht). rewrite (proj2 (Z.ltb_ge _ _)) by lia. by rewrite E.
  - destruct Hlk as [Hb _ Hs Hn]. rewrite Hh in Hb. apply (verify_bins_ok _ ((t :: l') :: bs) (key e :: ks')); try done; [|set_solver|lia].
    apply andb_false_iff in E. rewrite Z.eqb_neq, Z.ltb_ge in E. pose proof (Hpos t e Ht). unfold klt, key. simpl. lia.
Qed.

(** An event of priority -1 at tick 0. *)
Lemma debug_verify_false_alarm_witness :
  exists q, run_steps example_mode [Do (New 0 (-1) 0); Do (Schedule 0 0 false)] (EventQueue_new 7 ∅) = Ok ([], q) /\ debugVerify q = Ok false.
Proof.
  eexists. split; [vm_compute; reflexivity|].
  rewrite (debug_verify_false_alarm example_mode 7 ∅ [Do (New 0 (-1) 0); Do (Schedule 0 0 false)] []).
  - vm_compute. reflexivity.
  - vm_compute. reflexivity.
  - apply (bool_decide_eq_true_1 (map_Forall (fun _ e => 0 <= _when e) _)). vm_compute. reflexivity.
Defined.


(** ** Checkpoints *)

(** The events of the heap that a checkpoint has. *)
Definition auto (h : gmap nat Event) (p : nat) : bool :=
  match h !! p with Some e => any_set (flags e) AutoSerialize | None => false end.
Definition autos (h : gmap nat Event) (l : list nat) : list nat := filter (fun p => auto h p = true) l.

Lemma serialize_bin_ok h l : forall fuel o, in_bin h o l -> (length l < fuel)%nat -> serialize_bin fuel h o = Ok (autos h l).
Proof.
  induction l as [|p l IH]; intros fuel o Hin Hf. { simpl in Hin. subst o. by destruct fuel. }
  destruct Hin as (-> & e & He & Hin). simpl in Hf. destruct fuel as [|fuel]; [lia|]. simpl. rewrite (proj2 (hget_ok _ _ _) He). cbn [mbind outcome_bind].
  rewrite (IH fuel _ Hin ltac:(lia)). cbn [mbind outcome_bind]. unfold autos. rewrite filter_cons.
  assert (auto h p = any_set (flags e) AutoSerialize) as Ea by (unfold auto; by rewrite He).
  destruct (decide (auto h p = true)) as [E|E]; rewrite Ea in E; [by rewrite E|]. by apply not_true_is_false in E as ->.
Qed.

Lemma serialize_bins_ok h bs : forall fuel o, bins h o bs -> (length bs < fuel)%nat -> (length (concat bs) <= size h)%nat ->
  serialize_bins fuel h o = Ok (autos h (concat bs)).
Proof.
  induction bs as [|b bs IH]; intros fuel o Hb Hf Hsz. { simpl in Hb. subst o. by destruct fuel. }
  destruct (bins_top _ _ _ _ Hb) as (t & l & e & -> & -> & Ht & Hin & Hb'). simpl in Hf, Hsz. rewrite length_app in Hsz.
  destruct fuel as [|fuel]; [lia|]. cbn [serialize_bins].
  rewrite (serialize_bin_ok h (t :: l)); [|by split; [|exists e]|simpl; lia].
  cbn [mbind outcome_bind]. rewrite (proj2 (hget_ok _ _ _) Ht). cbn [mbind outcome_bind].
  rewrite (IH fuel _ Hb'); [|lia|lia]. cbn [mbind outcome_bind concat]. unfold autos. by rewrite filter_app.
Qed.

(** The flags of a scheduled event come back. *)
Definition flags_ok (f : Z) : Prop :=
  in_width 16 f /\ Z.land f InitMask = Initialized /\ Z.testbit f 1 = true /\ Z.testbit f 0 = false.

Lemma flags_restored f : flags_ok f ->
  u16 (s16 f) = f /\ Z.lor f Initialized = f /\ Z.lor (Z.land f (unot 16 (Z.lor Squashed Scheduled))) Scheduled = f.
Proof.
  intros (Hw & Hi & H1 & H0). split_and!.
  - unfold uwrap, s16. rewrite Zminus_mod_idemp_l. replace (f + 2 ^ 15 - 2 ^ 15) with f by lia. by apply Z.mod_small.
  - rewrite <- Hi. apply Z.bits_inj'. intros i _. rewrite Z.lor_spec, Z.land_spec. by destruct (Z.testbit f i).
  - apply Z.bits_inj'. intros i Hi'. rewrite Z.lor_spec, Z.land_spec. destruct (decide (i = 0)) as [->|]; [by rewrite H0|].
    destruct (decide (i = 1)) as [->|]; [by rewrite H1|]. change Scheduled with (2 ^ 1). rewrite Z.pow2_bits_false, orb_false_r by lia.
    destruct (decide (i < 16)); [|by rewrite (in_width_testbit_high 16 f) by (done || lia)].
    unfold unot. change (Z.lor Squashed (2 ^ 1)) with (Z.ones 2). rewrite Z.ldiff_spec, Z.ones_spec_low, (Z.ones_spec_high 2) by lia. apply andb_true_r.
Qed.

Lemma place_ext (h h' : gmap nat Event) e e' p l : key e' = key e -> (forall y, y ∈ l -> h' !! y = h !! y) -> s_place h' e' p l = s_place h e p l.
Proof.
  intros Ek. induction l as [|y l IH]; intros Hl; [done|]. simpl. rewrite Hl by left. destruct (h !! y) as [ey|]; [|done].
  rewrite IH by (intros; apply Hl; by right). unfold ev_lt. injection Ek as -> ->. done.
Qed.

(** The overload of [unserialize] with a queue gives back the tick, the priority and
    the flags of an event and schedules it again. *)
Lemma restore_one m p e e0 q a : inParallelMode m = false -> core q a -> live a -> s_async a = [] ->
  s_events a !! p = Some e0 -> scheduled e0 = false -> initialized e0 = true -> flags_ok (flags e) -> s_now a <= _when e ->
  exists q' a' e', unserialize_on m (serialize e) p q = Ok q' /\ core q' a' /\ live a' /\ s_async a' = [] /\ s_now a' = s_now a /\
    s_events a' = <[p := e']> (s_events a) /\ key e' = key e /\ flags e' = flags e /\
    s_pending a' = s_place (s_events a) e' p (s_pending a).
Proof.
  intros Hm Hc Hl Ha He0 Hs Hi Hf Hnow. destruct (flags_restored _ Hf) as (F1 & F2 & F3). pose proof Hf as (_ & Hini & Hb1 & Hb0).
  destruct (live_pending a p e0 Hl He0 Hs) as [Hn1 Hn2].
  pose proof He0 as Hc0. rewrite (core_lookup q a p Hc) in Hc0. destruct (events q !! p) as [c0|] eqn:Ec0; [|done]. apply (inj Some) in Hc0.
  unfold unserialize_on, serialize. rewrite (proj2 (hget_ok _ _ _) Ec0). cbn [mbind outcome_bind].
  replace (scheduled c0) with (scheduled e0) by (by rewrite <- Hc0). rewrite Hs. cbn [mbind outcome_bind].
  rewrite (proj2 (hget_ok _ _ _) Ec0). cbn [mbind outcome_bind]. replace (initialized c0) with (initialized e0) by (by rewrite <- Hc0). rewrite Hi.
  cbn [ensure mbind outcome_bind]. rewrite F1, F2. set (fl := Z.land (flags e) (unot 16 (Z.lor Squashed Scheduled))) in *.
  assert (any_set (flags e) Scheduled = true) as -> by (change Scheduled with (2 ^ 1); by rewrite any_set_pow2 by lia).
  assert (any_set (flags e) Squashed = false) as -> by (change Squashed with (2 ^ 0); by rewrite any_set_pow2 by lia). cbn [negb andb].
  set (f := fun e1 : Event => _). pose proof (core_on f p q a ltac:(by split) (or_intror Hn1) Hc) as Hmt.
  unfold s_on, hupd in Hmt. rewrite (proj2 (hget_ok _ _ _) He0) in Hmt. cbn [mbind outcome_bind] in Hmt. set (a1 := a <| s_events := _ |>) in Hmt.
  destruct (on_event f p q) as [q1|]; [|done]. simpl in Hmt. cbn [mbind outcome_bind].
  assert (live a1) as Hl1.
  { apply live_alive. eapply alive_sub; [by apply live_alive|apply Hl|]. intros y Hy. split; [done|]. simpl. apply lookup_insert_ne. intros ->.
    apply elem_of_app in Hy as [|]; done. }
  pose proof (schedule_core m p (_when e) false q1 a1 Hl1 Hmt) as Hsc.
  set (e' := set_flag Scheduled (setWhen (_when e) (s_id a) (f e0))).
  assert (s_schedule m p (_when e) false a1 = Ok (a <| s_events := <[p := e']> (s_events a) |>
    <| s_pending := s_place (<[p := setWhen (_when e) (s_id a) (f e0)]> (s_events a)) (setWhen (_when e) (s_id a) (f e0)) p (s_pending a) |>)) as Es.
  { unfold s_schedule, s_on, s_insert, hupd, a1. simpl. rewrite (proj2 (Z.leb_le _ _)) by lia. cbn [ensure mbind outcome_bind].
    rewrite (proj2 (hget_ok _ p _) (lookup_insert_eq _ _ _)). cbn [mbind outcome_bind].
    assert (scheduled (f e0) = false) as ->.
    { change (scheduled (f e0)) with (any_set fl (2 ^ 1)). unfold fl. rewrite any_set_clear by lia. apply andb_false_r. }
    assert (initialized (f e0) = true) as ->.
    { change (initialized (f e0)) with (Z.land fl InitMask =? Initialized). unfold fl. apply Z.eqb_eq. rewrite <- Hini. apply Z.bits_inj'. intros i Hi'. rewrite !Z.land_spec.
      destruct (Z.testbit InitMask i) eqn:Ei; [|by rewrite !andb_false_r]. rewrite !andb_true_r.
      destruct (decide (i < 16)); [|by rewrite (in_width_testbit_high 16 InitMask) in Ei by (done || lia)].
      unfold unot. rewrite Z.ldiff_spec, Z.ones_spec_low by lia. destruct (decide (i < 6)).
      - change InitMask with (Z.shiftl (Z.ones 10) 6) in Ei. by rewrite Z.shiftl_spec_low in Ei by lia.
      - change (Z.lor Squashed Scheduled) with (Z.ones 2). rewrite (Z.ones_spec_high 2) by lia. apply andb_true_r. }
    cbn [negb ensure mbind outcome_bind]. unfold s_elsewhere. rewrite Hm. simpl.
    rewrite (proj2 (hget_ok _ p _) (lookup_insert_eq _ _ _)). cbn. rewrite insert_insert_eq.
    rewrite (proj2 (hget_ok _ p _) (lookup_insert_eq _ _ _)). cbn. by rewrite insert_insert_eq. }
  rewrite Es in Hsc. destruct (schedule m p (_when e) false q1) as [q2|]; [|done].
  eexists q2, _, e'. split; [done|]. split; [exact Hsc|]. split; [by eapply schedule_live, Es|]. split_and!; try done.
  apply place_ext; [done|]. intros y Hy. rewrite lookup_insert_ne; [done|]. by intros ->.
Qed.

(** Creating the events of a checkpoint leaves the queue alone. *)
Lemma unserialize_queue_frame cps : forall q q', unserialize_queue cps q = Ok q' ->
  head q' = head q /\ async_queue q' = async_queue q /\ _curTick q' = _curTick q /\ events q ⊆ events q' /\
  forall p e, events q' !! p = Some e -> events q !! p = None -> scheduled e = false.
Proof.
  induction cps as [|[t cp] cps IH]; intros q q' H; simpl in H.
  { injection H as <-. split_and!; try done. congruence. }
  apply bind_ok in H as (e & He & H). unfold create in He. apply bind_ok in He as (e0 & He & E). injection E as <-.
  assert (scheduled e0 = false) as Hs.
  { unfold createObject, classMap in He. simpl in He. destruct t as [t|]; [|done].
    repeat case_decide; [..|done]; unfold Event_new in He; inv_ok; reflexivity. }
  set (p0 := fresh (dom (events q))) in *. assert (events q !! p0 = None) as Hp0 by apply not_elem_of_dom, is_fresh.
  destruct (IH _ _ H) as (H1 & H2 & H3 & H4 & H5). simpl in *. split_and!; try done.
  - etransitivity; [by apply insert_subseteq|exact H4].
  - intros p e Hp Hn. destruct (decide (p = p0)) as [->|Hne].
    + assert (events q' !! p0 = Some e0) as Hq by (eapply lookup_weaken; [apply lookup_insert_eq|exact H4]). congruence.
    + apply (H5 p e Hp). by rewrite lookup_insert_ne.
Qed.

(** Restoring succeeds exactly when every event is a [LinkDelayEvent]. *)
Lemma unserialize_queue_result cls q l : forall q1, Forall (fun p => is_Some (events q !! p)) l ->
  if decide (Forall (fun p => cls p = LinkDelayEvent) l) then exists q2, unserialize_queue (snapshot cls q l) q1 = Ok q2
  else unserialize_queue (snapshot cls q l) q1 = Fail FatalError.
Proof.
  induction l as [|p l IH]; intros q1 Hl. { rewrite decide_True by constructor. by exists q1. }
  apply Forall_cons in Hl as [[e He] Hl]. unfold snapshot. cbn [omap list_omap]. rewrite He. cbn [fmap option_fmap option_map unserialize_queue].
  destruct (cls p) eqn:Ec.
  - change (create (type_entry LinkDelayEvent, serialize e)) with (Ok (MkEvent None None 0 Default_Pri (Z.lor Initialized (Z.lor AutoSerialize AutoDelete)) None)).
    cbn [mbind outcome_bind]. specialize (IH (q1 <| events ::= <[fresh (dom (events q1)) := MkEvent None None 0 Default_Pri (Z.lor Initialized (Z.lor AutoSerialize AutoDelete)) None]> |>) Hl).
    destruct (decide (Forall _ l)) as [Hall|Hn]; [rewrite decide_True by by constructor|rewrite decide_False by by intros [_ ?]%Forall_cons]; exact IH.
  - rewrite decide_False; [done|]. intros [E _]%Forall_cons. congruence.
  - rewrite decide_False; [done|]. intros [E _]%Forall_cons. congruence.
Qed.

Lemma linked_weaken h h' o bs ks : h ⊆ h' -> Forall (fun p => is_Some (h !! p)) (concat bs) -> linked h o bs ks -> linked h' o bs ks.
Proof.
  intros Hs Hall [H1 H2 H3 H4]. rewrite Forall_forall in Hall.
  assert (forall p, p ∈ concat bs -> h' !! p = h !! p) as Hp.
  { intros p Hin. destruct (Hall p Hin) as [e He]. rewrite He. by eapply lookup_weaken. }
  split; try done.
  - apply (bins_frame h); [|done]. intros p Hin. unfold links. by rewrite Hp.
  - apply (keys_frame h); [|done]. intros p Hin. by rewrite Hp.
Qed.

Lemma linked_events h o bs ks : linked h o bs ks -> Forall (fun p => is_Some (h !! p)) (concat bs).
Proof.
  intros Hlk. pose proof (lk_keys _ _ _ _ Hlk) as Hk. clear Hlk. induction Hk as [|b k bs ks Hb _ IH]; [constructor|].
  simpl. apply Forall_app. split; [|done]. eapply Forall_impl; [exact Hb|]. intros p Hp. unfold keyed in Hp. by destruct (h !! p).
Qed.

(** C32: a checkpoint does not bring the events of a queue back. For every queue that
    operations and removals from an empty queue lead to, the checkpoint has exactly
    the events marked [AutoSerialize], in the order of service; restoring it into any
    queue is a fatal error as soon as one of them is not a [LinkDelayEvent] (an exit
    event writes a type that no class is registered for, other events write none),
    and otherwise it constructs an object for each and schedules none: the queue has
    the pending events it had before, at the same ticks and in the same order. Only
    the overload of [Event::unserialize] with an empty body is reached. *)
Theorem restored_queue_schedules_nothing m id h l ps q cls q1 bs1 ks1 :
  run_steps m l (EventQueue_new id h) = Ok (ps, q) -> linked (events q1) (head q1) bs1 ks1 ->
  exists bs ks, linked (events q) (head q) bs ks /\ serialize_queue q = Ok (autos (events q) (concat bs)) /\
    let saved := autos (events q) (concat bs) in
    if decide (Forall (fun p => cls p = LinkDelayEvent) saved)
    then exists q2, unserialize_queue (snapshot cls q saved) q1 = Ok q2 /\
      linked (events q2) (head q2) bs1 ks1 /\ async_queue q2 = async_queue q1 /\ events q1 ⊆ events q2 /\
      forall p e, events q2 !! p = Some e -> events q1 !! p = None -> scheduled e = false
    else unserialize_queue (snapshot cls q saved) q1 = Fail FatalError.
Proof.
  intros Hrun Hl1. destruct (steps_reach m id h l ps q Hrun) as (a & Hc & _).
  destruct (co_links _ _ Hc) as (bs & ks & Hlk & _). destruct (linked_fuel _ _ _ _ Hlk) as [Hf1 Hf2].
  exists bs, ks. split; [done|]. split; [unfold serialize_queue; apply serialize_bins_ok; [apply Hlk|lia|done]|]. cbv zeta.
  assert (Forall (fun p => is_Some (events q !! p)) (autos (events q) (concat bs))) as Hev.
  { unfold autos. apply Forall_forall. intros p [_ Hp]%list_elem_of_filter.
    pose proof (linked_events _ _ _ _ Hlk) as He. rewrite Forall_forall in He. by apply He. }
  pose proof (unserialize_queue_result cls q _ q1 Hev) as Hr. destruct (decide _); [|exact Hr].
  destruct Hr as [q2 E2]. exists q2. destruct (unserialize_queue_frame _ _ _ E2) as (E1 & E3 & _ & Hsub & Hn).
  split_and!; try done. rewrite E1. eapply linked_weaken; [done|by eapply linked_events|done].
Qed.

(** Two events of the same tick and priority. *)
Definition checkpoint_steps : list step :=
  [Do (New 0 0 AutoSerialize); Do (New 1 0 AutoSerialize); Do (Schedule 0 5 false); Do (Schedule 1 5 false)].
Definition checkpoint_queue : EventQueue := match run_steps example_mode checkpoint_steps (EventQueue_new 7 ∅) with Ok (_, q) => q | Fail _ => EventQueue_new 7 ∅ end.

(** Two delayed packets of a link are lost; an exit event cannot be restored. *)
Lemma restored_queue_schedules_nothing_witness :
  serialize_queue checkpoint_queue = Ok [1%nat; 0%nat] /\
  (exists q2, unserialize_queue (snapshot (fun _ => LinkDelayEvent) checkpoint_queue [1%nat; 0%nat]) (EventQueue_new 8 ∅) = Ok q2 /\
    linked (events q2) (head q2) [] []) /\
  unserialize_queue (snapshot (fun _ => LocalSimLoopExitEvent) checkpoint_queue [1%nat; 0%nat]) (EventQueue_new 8 ∅) = Fail FatalError.
Proof.
  assert (serialize_queue checkpoint_queue = Ok [1%nat; 0%nat]) as Es by (vm_compute; reflexivity).
  assert (linked (events (EventQueue_new 8 ∅)) (head (EventQueue_new 8 ∅)) [] []) as Hl by (split; simpl; try done; constructor).
  assert (run_steps example_mode checkpoint_steps (EventQueue_new 7 ∅) = Ok ([], checkpoint_queue)) as Hrun by (vm_compute; reflexivity).
  split; [exact Es|]. split.
  - destruct (restored_queue_schedules_nothing example_mode 7 ∅ checkpoint_steps [] checkpoint_queue (fun _ => LinkDelayEvent) (EventQueue_new 8 ∅) [] [] Hrun Hl)
      as (bs & ks & _ & E & Hr).
    rewrite Es in E. injection E as E. rewrite <- E in Hr. cbv zeta in Hr.
    rewrite decide_True in Hr by (repeat constructor). destruct Hr as (q2 & E2 & Hl2 & _). exists q2. split; [exact E2|exact Hl2].
  - destruct (restored_queue_schedules_nothing example_mode 7 ∅ checkpoint_steps [] checkpoint_queue (fun _ => LocalSimLoopExitEvent) (EventQueue_new 8 ∅) [] [] Hrun Hl)
      as (bs & ks & _ & E & Hr).
    rewrite Es in E. injection E as E. rewrite <- E in Hr. cbv zeta in Hr.
    rewrite decide_False in Hr by (intros [H _]%Forall_cons; discriminate). exact Hr.
Defined.

End EventLoop.
