(* ===== verification/ClockDomain.v ===== *)
(** Clocks: the objects that count cycles ([sim/clocked_object.hh]), the clock domains
    that set their period ([sim/clock_domain.hh] and [clock_domain.cc]), the voltage
    domains these belong to ([sim/voltage_domain.hh] and [voltage_domain.cc]), and the
    handler of the requests of software for another performance level
    ([sim/dvfs_handler.hh] and [dvfs_handler.cc]).

    Pointers to clock and voltage domains are indices. Voltages are numbers of which
    only the order matters. *)

From stdpp Require Import fin_maps gmap.
From S2P Require Import Prelude IntMath.
Local Open Scope Z_scope.

Module ClockDomain.

(** ** Clocked objects *)

(** The next edge at the time of the last update, and its number. *)
Record ClockedObject := MkClocked {
  tick : Z;
  cycle : Z;
}.
#[export] Instance eta_ClockedObject : Eta ClockedObject := fun x => MkClocked (tick x) (cycle x).

Definition ClockedObject_new : ClockedObject := MkClocked 0 0.

Definition update (curTick clockPeriod : Z) (c : ClockedObject) : outcome ClockedObject :=
  if tick c >=? curTick then Ok c
  else
    let c := c <| tick ::= (fun x => u64 (x + clockPeriod)) |> <| cycle ::= (fun x => u64 (x + 1)) |> in
    if tick c >=? curTick then Ok c
    else
      _ ← ensure Undefined (negb (clockPeriod =? 0));
      let elapsedCycles := IntMath.divCeil 64 (u64 (curTick - tick c)) clockPeriod in
      Ok (c <| cycle ::= (fun x => u64 (x + elapsedCycles)) |> <| tick ::= (fun x => u64 (x + elapsedCycles * clockPeriod)) |>).

(** The tick at which the cycle begins that is [cycles] after the next edge. *)
Definition clockEdge (curTick clockPeriod cycles : Z) (c : ClockedObject) : outcome (Z * ClockedObject) :=
  c ← update curTick clockPeriod c;
  Ok (u64 (tick c + clockPeriod * cycles), c).

Definition curCycle (curTick clockPeriod : Z) (c : ClockedObject) : outcome (Z * ClockedObject) :=
  c ← update curTick clockPeriod c;
  Ok (cycle c, c).

Definition nextCycle (curTick clockPeriod : Z) (c : ClockedObject) : outcome (Z * ClockedObject) := clockEdge curTick clockPeriod 1 c.

Definition resetClock (curTick clockPeriod : Z) (c : ClockedObject) : outcome ClockedObject :=
  _ ← ensure Undefined (negb (clockPeriod =? 0));
  let elapsedCycles := IntMath.divCeil 64 curTick clockPeriod in
  Ok (c <| cycle := elapsedCycles |> <| tick := u64 (elapsedCycles * clockPeriod) |>).

Definition ticksToCycles (clockPeriod t : Z) : outcome Z :=
  _ ← ensure Undefined (negb (clockPeriod =? 0));
  Ok (IntMath.divCeil 64 t clockPeriod).

(** ** Clock domains *)

(** The period, the objects that follow it, and the derived domains with their
    dividers. *)
#[local] Set Warnings "-register-all".
Inductive ClockDomain := MkDomain (period : Z) (members : list ClockedObject) (children : list (Z * ClockDomain)).

Definition _clockPeriod (d : ClockDomain) : Z := let 'MkDomain p _ _ := d in p.
Definition members (d : ClockDomain) : list ClockedObject := let 'MkDomain _ ms _ := d in ms.
Definition children (d : ClockDomain) : list (Z * ClockDomain) := let 'MkDomain _ _ cs := d in cs.

Definition registerWithClockDomain (c : ClockedObject) (d : ClockDomain) : ClockDomain :=
  let 'MkDomain p ms cs := d in MkDomain p (ms ++ [c]) cs.
Definition addDerivedDomain (c : Z * ClockDomain) (d : ClockDomain) : ClockDomain :=
  let 'MkDomain p ms cs := d in MkDomain p ms (cs ++ [c]).

Section traverse.
Context {A B : Type} (f : A -> outcome B).
Fixpoint traverse (l : list A) : outcome (list B) :=
  match l with
  | [] => Ok []
  | x :: l => y ← f x; ys ← traverse l; Ok (y :: ys)
  end.
End traverse.

(** [DerivedClockDomain::updateClockPeriod] with the new period of the parent. *)
Fixpoint updateClockPeriod (curTick parentPeriod clockDivider : Z) (d : ClockDomain) : outcome ClockDomain :=
  let 'MkDomain p ms cs := d in
  ms ← traverse (update curTick p) ms;
  let p := u64 (parentPeriod * clockDivider) in
  cs ← traverse (fun c => d ← updateClockPeriod curTick p c.1 c.2; Ok (c.1, d)) cs;
  Ok (MkDomain p ms cs).

(** The constructor, given the parent: the parent then knows the domain. *)
Definition DerivedClockDomain_new (curTick clockDivider : Z) (parent : ClockDomain) : outcome ClockDomain :=
  _ ← ensure FatalError (negb (clockDivider <? 1));
  d ← updateClockPeriod curTick (_clockPeriod parent) clockDivider (MkDomain 0 [] []);
  Ok (addDerivedDomain (clockDivider, d) parent).

(** The setter of the period of a source domain. *)
Definition clockPeriod (curTick clock_period : Z) (d : ClockDomain) : outcome ClockDomain :=
  _ ← ensure FatalError (negb (clock_period =? 0));
  let 'MkDomain p ms cs := d in
  ms ← traverse (update curTick p) ms;
  cs ← traverse (fun c => d ← updateClockPeriod curTick clock_period c.1 c.2; Ok (c.1, d)) cs;
  Ok (MkDomain clock_period ms cs).

Record SrcClockDomain := MkSrc {
  base : ClockDomain;
  _voltageDomain : nat;
  freqOpPoints : list Z;
  _domainID : Z;
  _perfLevel : Z;
}.
#[export] Instance eta_SrcClockDomain : Eta SrcClockDomain := fun x =>
  MkSrc (base x) (_voltageDomain x) (freqOpPoints x) (_domainID x) (_perfLevel x).

Definition numPerfLevels (d : SrcClockDomain) : Z := Z.of_nat (length (freqOpPoints d)).
Definition validPerfLevel (perf_level : Z) (d : SrcClockDomain) : bool := perf_level <? numPerfLevels d.
Definition clkPeriodAtPerfLevel (perf_level : Z) (d : SrcClockDomain) : outcome Z :=
  _ ← ensure AssertFailed (validPerfLevel perf_level d);
  vget (freqOpPoints d) perf_level.

Record VoltageDomain := MkVoltage {
  voltageOpPoints : list Z;
  v_perfLevel : Z;
  srcClockChildren : list nat;
}.
#[export] Instance eta_VoltageDomain : Eta VoltageDomain := fun x => MkVoltage (voltageOpPoints x) (v_perfLevel x) (srcClockChildren x).

Definition numVoltages (v : VoltageDomain) : Z := Z.of_nat (length (voltageOpPoints v)).
Definition voltage (v : VoltageDomain) : outcome Z := vget (voltageOpPoints v) (v_perfLevel v).

(** *** All domains of a system *)

Record Domains := MkDomains {
  clocks : list SrcClockDomain;
  voltages : list VoltageDomain;
}.
#[export] Instance eta_Domains : Eta Domains := fun x => MkDomains (clocks x) (voltages x).

Fixpoint is_sorted (le : Z -> Z -> bool) (l : list Z) : bool :=
  match l with
  | x :: ((y :: _) as l') => le x y && is_sorted le l'
  | _ => true
  end.

Definition VoltageDomain_new (voltage : list Z) (s : Domains) : outcome (nat * Domains) :=
  _ ← ensure FatalError (negb (bool_decide (voltage = [])));
  _ ← ensure FatalError (is_sorted Z.geb voltage);
  Ok (length (voltages s), s <| voltages ::= (fun l => l ++ [MkVoltage voltage 0 []]) |>).

Definition registerSrcClockDom (d : nat) (v : VoltageDomain) : VoltageDomain := v <| srcClockChildren ::= (fun l => l ++ [d]) |>.

(** The arguments are the parameters [clock], [domain_id], [init_perf_level] and
    [voltage_domain]. *)
Definition SrcClockDomain_new (curTick : Z) (clock : list Z) (domain_id init_perf_level : Z) (vdom : nat) (s : Domains)
  : outcome (nat * Domains) :=
  _ ← ensure FatalError (negb (bool_decide (clock = [])));
  v ← pget (voltages s) vdom;
  _ ← ensure FatalError (negb ((1 <? numVoltages v) && negb (numVoltages v =? Z.of_nat (length clock))));
  _ ← ensure FatalError (is_sorted Z.leb clock);
  _ ← ensure FatalError (negb (init_perf_level >=? Z.of_nat (length clock)));
  p ← vget clock init_perf_level;
  b ← clockPeriod curTick p (MkDomain 0 [] []);
  vs ← pupd (registerSrcClockDom (length (clocks s))) (voltages s) vdom;
  Ok (length (clocks s), s <| clocks ::= (fun l => l ++ [MkSrc b vdom clock domain_id init_perf_level]) |> <| voltages := vs |>).

(** [VoltageDomain::perfLevel]. *)
Definition set_v_perfLevel (perf_level : Z) (v : VoltageDomain) : outcome VoltageDomain :=
  _ ← ensure AssertFailed (perf_level <? numVoltages v);
  if perf_level =? v_perfLevel v then Ok v else Ok (v <| v_perfLevel := perf_level |>).

(** The loop of [sanitiseVoltages] over the source domains. *)
Fixpoint max_level (vdom : nat) (ds : list nat) (cs : list SrcClockDomain) (perf_max : Z) : outcome Z :=
  match ds with
  | [] => Ok perf_max
  | i :: ds =>
      d ← pget cs i;
      _ ← ensure AssertFailed (bool_decide (_voltageDomain d = vdom));
      max_level vdom ds cs (if _perfLevel d <? perf_max then _perfLevel d else perf_max)
  end.

Definition sanitiseVoltages (vdom : nat) (s : Domains) : outcome (bool * Domains) :=
  v ← pget (voltages s) vdom;
  if numVoltages v =? 1 then Ok (false, s)
  else
    perf_max ← max_level vdom (srcClockChildren v) (clocks s) (u32 (-1));
    if negb (perf_max =? v_perfLevel v) then
      v ← set_v_perfLevel perf_max v;
      Ok (true, s <| voltages ::= <[vdom := v]> |>)
    else Ok (false, s).

(** [SrcClockDomain::perfLevel]. *)
Definition perfLevel (curTick perf_level : Z) (i : nat) (s : Domains) : outcome Domains :=
  d ← pget (clocks s) i;
  _ ← ensure AssertFailed (validPerfLevel perf_level d);
  if perf_level =? _perfLevel d then Ok s
  else
    let s := s <| clocks ::= <[i := d <| _perfLevel := perf_level |>]> |> in
    '(_, s) ← sanitiseVoltages (_voltageDomain d) s;
    d ← pget (clocks s) i;
    p ← vget (freqOpPoints d) (_perfLevel d);
    b ← clockPeriod curTick p (base d);
    Ok (s <| clocks ::= <[i := d <| base := b |>]> |>).

(** [startup] of the two kinds of domains, and what a checkpoint has of a source
    domain. *)
Definition startup_clock (curTick : Z) (i : nat) (s : Domains) : outcome Domains :=
  d ← pget (clocks s) i;
  perfLevel curTick (_perfLevel d) i s.

Definition startup_voltage (vdom : nat) (s : Domains) : outcome Domains :=
  '(_, s) ← sanitiseVoltages vdom s;
  Ok s.

Definition serialize_clock (d : SrcClockDomain) : Z := _perfLevel d.
Definition unserialize_clock (cp : Z) (i : nat) (s : Domains) : outcome Domains :=
  cs ← pupd (fun d => d <| _perfLevel := cp |>) (clocks s) i;
  Ok (s <| clocks := cs |>).

Definition unserialize_voltage (cp : Z) (vdom : nat) (s : Domains) : outcome Domains :=
  v ← pget (voltages s) vdom;
  v ← set_v_perfLevel cp (v <| v_perfLevel := cp |>);
  Ok (s <| voltages ::= <[vdom := v]> |>).

(** ** The handler of requests for another level *)

(** The update event of a domain: the level it will set and the tick it is scheduled
    for. *)
Record UpdateEvent := MkUpdate {
  domainIDToSet : Z;
  perfLevelToSet : Z;
  scheduled : option Z;
}.
#[export] Instance eta_UpdateEvent : Eta UpdateEvent := fun x => MkUpdate (domainIDToSet x) (perfLevelToSet x) (scheduled x).
Definition UpdateEvent_new : UpdateEvent := MkUpdate 0 0 None.

Record DVFSHandler := MkHandler {
  domains : gmap Z nat;
  domainIDList : list Z;
  sysClkDomain : nat;
  enableHandler : bool;
  _transLatency : Z;
  updatePerfLevelEvents : gmap Z UpdateEvent;
}.
#[export] Instance eta_DVFSHandler : Eta DVFSHandler := fun x =>
  MkHandler (domains x) (domainIDList x) (sysClkDomain x) (enableHandler x) (_transLatency x) (updatePerfLevelEvents x).

Definition emptyDomainID : Z := -1.

(** [updatePerfLevelEvents[id]]: a missing event is created. *)
Definition event_of (id : Z) (h : DVFSHandler) : UpdateEvent := default UpdateEvent_new (updatePerfLevelEvents h !! id).

(** One round of the constructor. *)
Definition add_domain (s : Domains) (i : nat) (h : DVFSHandler) : outcome DVFSHandler :=
  d ← pget (clocks s) i;
  let domain_id := s32 (_domainID d) in
  _ ← ensure FatalError (negb (bool_decide (sysClkDomain h = i)));
  _ ← ensure FatalError (negb (domain_id =? emptyDomainID));
  _ ← ensure FatalError (bool_decide (domains h !! domain_id = None));
  Ok (h <| domains ::= <[domain_id := i]> |>
        <| updatePerfLevelEvents ::= <[domain_id := (event_of domain_id h) <| domainIDToSet := domain_id |>]> |>
        <| domainIDList ::= (fun l => l ++ [domain_id]) |>).

Fixpoint add_domains (s : Domains) (l : list nat) (h : DVFSHandler) : outcome DVFSHandler :=
  match l with
  | [] => Ok h
  | i :: l => h ← add_domain s i h; add_domains s l h
  end.

Definition DVFSHandler_new (sys_clk_domain : nat) (doms : list nat) (enable : bool) (transition_latency : Z) (s : Domains)
  : outcome DVFSHandler :=
  add_domains s doms (MkHandler ∅ [] sys_clk_domain enable transition_latency ∅).

Definition findDomain (domain_id : Z) (h : DVFSHandler) : outcome nat :=
  match domains h !! domain_id with Some i => Ok i | None => Fail PanicError end.

Definition numDomains (h : DVFSHandler) : Z := Z.of_nat (length (domainIDList h)).

Definition domainID (index : Z) (h : DVFSHandler) : outcome Z :=
  _ ← ensure FatalError (negb (index >=? numDomains h));
  id ← vget (domainIDList h) index;
  _ ← ensure AssertFailed (bool_decide (is_Some (domains h !! id)));
  Ok id.

Definition validDomainID (domain_id : Z) (h : DVFSHandler) : outcome bool :=
  _ ← ensure AssertFailed (enableHandler h);
  Ok (bool_decide (is_Some (domains h !! domain_id))).

Definition clkPeriodAt (domain_id perf_level : Z) (s : Domains) (h : DVFSHandler) : outcome Z :=
  i ← findDomain domain_id h;
  d ← pget (clocks s) i;
  if perf_level <? numPerfLevels d then clkPeriodAtPerfLevel perf_level d else Ok 0.

Definition voltageAtPerfLevel (domain_id perf_level : Z) (s : Domains) (h : DVFSHandler) : outcome Z :=
  i ← findDomain domain_id h;
  d ← pget (clocks s) i;
  v ← pget (voltages s) (_voltageDomain d);
  if perf_level <? numVoltages v then vget (voltageOpPoints v) perf_level
  else if numVoltages v =? 1 then vget (voltageOpPoints v) 0
  else Ok 0.

(** [DVFSHandler::perfLevel]: a request of the software. *)
Definition request (curTick domain_id perf_level : Z) (s : Domains) (h : DVFSHandler) : outcome (bool * DVFSHandler) :=
  _ ← ensure AssertFailed (enableHandler h);
  i ← findDomain domain_id h;
  d ← pget (clocks s) i;
  if negb (validPerfLevel perf_level d) then Ok (false, h)
  else
    let e := event_of domain_id h in
    let e := e <| scheduled := None |> <| perfLevelToSet := perf_level |> in
    if _perfLevel d =? perf_level then Ok (false, h <| updatePerfLevelEvents ::= <[domain_id := e]> |>)
    else
      ev ← schedule curTick (u64 (curTick + _transLatency h)) (scheduled e);
      Ok (true, h <| updatePerfLevelEvents ::= <[domain_id := (e <| scheduled := ev |>)]> |>).

(** [UpdateEvent::updatePerfLevel] of the event of [domain_id], which is no longer
    scheduled when it runs. *)
Definition updatePerfLevel (curTick domain_id : Z) (s : Domains) (h : DVFSHandler) : outcome (Domains * DVFSHandler) :=
  let e := (event_of domain_id h) <| scheduled := None |> in
  let h := h <| updatePerfLevelEvents ::= <[domain_id := e]> |> in
  i ← findDomain (domainIDToSet e) h;
  d ← pget (clocks s) i;
  _ ← ensure AssertFailed (negb (_perfLevel d =? perfLevelToSet e));
  s ← perfLevel curTick (perfLevelToSet e) i s;
  Ok (s, h).

(** A checkpoint of the handler: for each event the domain, the level and the tick, 0
    when it is not scheduled. *)
Definition serialize_handler (h : DVFSHandler) : outcome (bool * list (Z * Z * Z)) :=
  l ← traverse (fun '(id, e) =>
        _ ← ensure AssertFailed (id =? domainIDToSet e);
        Ok (id, perfLevelToSet e, default 0 (scheduled e))) (map_to_list (updatePerfLevelEvents h));
  Ok (enableHandler h, l).

Fixpoint restore_events (curTick : Z) (l : list (Z * Z * Z)) (h : DVFSHandler) : outcome DVFSHandler :=
  match l with
  | [] => Ok h
  | (id, level, when) :: l =>
      let e := (event_of id h) <| domainIDToSet := id |> <| perfLevelToSet := level |> in
      ev ← (if negb (when =? 0) then schedule curTick when (scheduled e) else Ok (scheduled e));
      restore_events curTick l (h <| updatePerfLevelEvents ::= <[id := (e <| scheduled := ev |>)]> |>)
  end.

Definition unserialize_handler (curTick : Z) (cp : bool * list (Z * Z * Z)) (h : DVFSHandler) : outcome DVFSHandler :=
  restore_events curTick cp.2 (h <| enableHandler := cp.1 |>).

(** ** Clocks that step *)

(** A clock that goes from edge to edge until it has reached the time. *)
Fixpoint step_to (n : nat) (now p : Z) (c : ClockedObject) : ClockedObject :=
  match n with
  | O => c
  | S n => if now <=? tick c then c else step_to n now p (MkClocked (tick c + p) (u64 (cycle c + 1)))
  end.

Definition walk (now p : Z) (c : ClockedObject) : ClockedObject := step_to (Z.to_nat (now - tick c)) now p c.

(** No tick overflows. *)
Definition clock_ok (c : ClockedObject) : Prop := 0 <= tick c < 2 ^ 63.

Lemma step_to_edges k : forall n now p c, (k <= n)%nat -> 0 < p -> now <= tick c + Z.of_nat k * p -> (forall j, (j < k)%nat -> tick c + Z.of_nat j * p < now) ->
  step_to n now p c = MkClocked (tick c + Z.of_nat k * p) (if decide (k = 0)%nat then cycle c else u64 (cycle c + Z.of_nat k)).
Proof.
  induction k as [|k IH]; intros n now p c Hn Hp Hk Hj.
  - rewrite decide_True by done. destruct c as [ti cy]. cbn [tick cycle] in *.
    replace (ti + Z.of_nat 0 * p) with ti by lia. destruct n; cbn [step_to tick]; [done|]. by rewrite (proj2 (Z.leb_le _ _)) by lia.
  - destruct n as [|n]; [lia|]. rewrite decide_False by lia. simpl.
    rewrite (proj2 (Z.leb_gt _ _)) by (specialize (Hj 0%nat); lia).
    rewrite IH; simpl; [|lia|lia|lia|intros j ?; specialize (Hj (S j)); lia]. f_equal; [lia|].
    destruct (decide (k = 0)%nat) as [->|]; [done|]. unfold u64, uwrap. rewrite Zplus_mod_idemp_l. f_equal. lia.
Qed.

(** The update jumps to where the steps lead. *)
Lemma update_walks now p c : 0 < p < 2 ^ 62 -> 0 <= now < 2 ^ 62 -> clock_ok c -> update now p c = Ok (walk now p c).
Proof.
  intros Hp Hnow [H0 H63]. unfold update, walk. destruct (Z.geb_spec (tick c) now) as [Hge|Hlt].
  { replace (Z.to_nat (now - tick c)) with 0%nat by lia. done. }
  destruct c as [ti cy]. cbn -[uwrap Z.to_nat step_to IntMath.divCeil] in *. rewrite !(uwrap_small 64 (ti + p)) by (split; lia).
  destruct (Z.geb_spec (ti + p) now) as [Hge|Hlt1].
  { f_equal. rewrite (step_to_edges 1); cbn [tick cycle]; [|lia|lia|lia|intros j ?; replace j with 0%nat by lia; lia].
    rewrite decide_False by lia. f_equal. lia. }
  rewrite (proj2 (Z.eqb_neq p 0)) by lia. cbn [negb ensure mbind outcome_bind]. unfold IntMath.divCeil.
  rewrite (uwrap_small 64 (now - (ti + p))) by (split; lia). rewrite (uwrap_small 64 (now - (ti + p) + p - 1)) by (split; lia).
  set (e := (now - (ti + p) + p - 1) / p).
  assert (0 < e /\ (e - 1) * p < now - (ti + p) <= e * p) as (He & Hlo & Hhi).
  { pose proof (Z.div_mod (now - (ti + p) + p - 1) p ltac:(lia)) as E. pose proof (Z.mod_pos_bound (now - (ti + p) + p - 1) p ltac:(lia)).
    fold e in E. split; [|nia]. apply Z.div_str_pos. lia. }
  rewrite (uwrap_small 64 (ti + p + e * p)) by (split; nia). f_equal.
  rewrite (step_to_edges (Z.to_nat (e + 1))); cbn [tick cycle]; [|nia|lia|nia|intros j Hj; nia]. rewrite decide_False by lia. unfold uwrap.
  f_equal; [nia|]. rewrite Zplus_mod_idemp_l. f_equal. lia.
Qed.

Lemma step_to_bounds n : forall now p c, 0 < p -> now - tick c <= Z.of_nat n ->
  now <= tick (step_to n now p c) /\ tick c <= tick (step_to n now p c) /\ (tick c < now -> tick (step_to n now p c) < now + p) /\
  (now <= tick c -> step_to n now p c = c).
Proof.
  induction n as [|n IH]; intros now p c Hp Hn; cbn [step_to]; [split_and!; try lia; done|].
  destruct (Z.leb_spec now (tick c)); [split_and!; try lia; done|].
  specialize (IH now p (MkClocked (tick c + p) (u64 (cycle c + 1)))). cbn [tick] in IH. destruct IH as (? & ? & H3 & H4); [lia|lia|].
  split_and!; try lia. intros _. destruct (decide (tick c + p < now)); [by apply H3|]. rewrite H4 by lia. cbn. lia.
Qed.

(** The edge that is found is the first one at or after the time. *)
Lemma walk_bounds now p c : 0 < p ->
  now <= tick (walk now p c) /\ tick c <= tick (walk now p c) /\ (tick c < now -> tick (walk now p c) < now + p) /\ (now <= tick c -> walk now p c = c).
Proof. intros Hp. apply step_to_bounds; lia. Qed.

Lemma walk_ok now p c : 0 < p < 2 ^ 62 -> now < 2 ^ 62 -> clock_ok c -> clock_ok (walk now p c).
Proof.
  intros Hp Hnow [H0 H63]. destruct (walk_bounds now p c) as (? & ? & H3 & H4); [lia|]. split; [lia|].
  destruct (decide (tick c < now)); [lia|]. rewrite H4 by lia. done.
Qed.

(** ** Trees of domains *)

(** A domain without its period: the clocks, and the derived domains with their
    dividers. *)
Inductive tree := Node (ms : list ClockedObject) (cs : list (Z * tree)).

Lemma tree_rec_ind (P : tree -> Prop) : (forall ms cs, Forall (fun c => P c.2) cs -> P (Node ms cs)) -> forall t, P t.
Proof.
  intros H. fix IH 1. intros [ms cs]. apply H. induction cs as [|[z t] cs IHcs]; constructor; [apply IH|apply IHcs].
Qed.

(** The domain for a period of its source. *)
Fixpoint build (p : Z) (t : tree) : ClockDomain :=
  let 'Node ms cs := t in MkDomain p ms (map (fun c => (c.1, build (p * c.1) c.2)) cs).

(** All clocks walk to the time. *)
Fixpoint sync (now p : Z) (t : tree) : tree :=
  let 'Node ms cs := t in Node (walk now p <$> ms) (map (fun c => (c.1, sync now (p * c.1) c.2)) cs).

(** No period of the tree overflows when that of the source is at most [M]. *)
Inductive fits : Z -> tree -> Prop :=
  | fits_node M ms cs : M < 2 ^ 62 -> Forall clock_ok ms -> Forall (fun c => 1 <= c.1 /\ fits (M * c.1) c.2) cs -> fits M (Node ms cs).

Lemma fits_le t : forall M p, 0 < p <= M -> fits M t -> fits p t.
Proof.
  induction t as [ms cs IH] using tree_rec_ind. intros M p Hp Hf. inversion Hf as [? ? ? HM Hms Hcs]; subst. constructor; [lia|done|].
  rewrite Forall_forall in IH, Hcs |- *. intros c Hc. destruct (Hcs c Hc) as [H1 H2]. split; [done|]. apply (IH c Hc (M * c.1)); [nia|done].
Qed.

Lemma traverse_map {A B C} (f : B -> outcome C) (h : A -> B) (k : A -> C) l : Forall (fun x => f (h x) = Ok (k x)) l -> traverse f (map h l) = Ok (map k l).
Proof. induction 1 as [|x l E _ IH]; [done|]. simpl. rewrite E. simpl. by rewrite IH. Qed.

Lemma sync_members now p ms : 0 < p < 2 ^ 62 -> 0 <= now < 2 ^ 62 -> Forall clock_ok ms -> traverse (update now p) ms = Ok (walk now p <$> ms).
Proof.
  intros Hp Hnow Hms. rewrite <- (map_id ms) at 1. apply (traverse_map _ id). apply (Forall_impl _ _ _ Hms). intros c Hc. by apply update_walks.
Qed.

Lemma sync_fits now t : forall p M, 0 < p <= M -> now < 2 ^ 62 -> fits M t -> fits M (sync now p t).
Proof.
  induction t as [ms cs IH] using tree_rec_ind. intros p M Hp Hnow Hf. inversion Hf as [? ? ? HM Hms Hcs]; subst. cbn [sync]. constructor; [done| |].
  - apply Forall_fmap. apply (Forall_impl _ _ _ Hms). intros c Hc. apply walk_ok; [lia|done|done].
  - apply Forall_fmap. rewrite Forall_forall in IH, Hcs |- *. intros c Hc. destruct (Hcs c Hc) as [H1 H2]. cbn. split; [done|]. apply (IH c Hc); [nia|done|done].
Qed.

(** A new period for a derived domain. *)
Lemma updateClockPeriod_ok now t : forall p pp div, 0 < p -> 0 < pp * div -> 0 <= now < 2 ^ 62 -> fits p t -> fits (pp * div) t ->
  updateClockPeriod now pp div (build p t) = Ok (build (pp * div) (sync now p t)).
Proof.
  induction t as [ms cs IH] using tree_rec_ind. intros p pp div Hp Hpp Hnow Hf Hf'. inversion Hf as [? ? ? HM Hms Hcs]; subst. inversion Hf' as [? ? ? HM' _ Hcs']; subst.
  cbn [build updateClockPeriod sync]. rewrite sync_members by (done || lia). cbn [mbind outcome_bind]. rewrite (uwrap_small 64 (pp * div)) by (split; lia).
  rewrite (traverse_map _ _ (fun c => (c.1, build (pp * div * c.1) (sync now (p * c.1) c.2)))); [cbn; by rewrite map_map|].
  rewrite Forall_forall in IH, Hcs, Hcs' |- *. intros c Hc. destruct (Hcs c Hc), (Hcs' c Hc). cbn [fst snd]. by rewrite (IH c Hc) by (done || nia).
Qed.

(** A new period for a source domain. *)
Lemma clockPeriod_ok now t p p' : 0 < p -> 0 < p' -> 0 <= now < 2 ^ 62 -> fits p t -> fits p' t ->
  clockPeriod now p' (build p t) = Ok (build p' (sync now p t)).
Proof.
  intros Hp Hp' Hnow Hf Hf'. destruct t as [ms cs]. inversion Hf as [? ? ? HM Hms Hcs]; subst. inversion Hf' as [? ? ? HM' _ Hcs']; subst.
  unfold clockPeriod. rewrite (proj2 (Z.eqb_neq p' 0)) by lia. cbn [negb ensure mbind outcome_bind build sync]. rewrite sync_members by (done || lia). cbn [mbind outcome_bind].
  rewrite (traverse_map _ _ (fun c => (c.1, build (p' * c.1) (sync now (p * c.1) c.2)))); [cbn; by rewrite map_map|].
  rewrite Forall_forall in Hcs, Hcs' |- *. intros c Hc. destruct (Hcs c Hc), (Hcs' c Hc). cbn [fst snd]. by rewrite updateClockPeriod_ok by (done || nia).
Qed.

(** ** Cycles of a clock with a fixed period *)

(** The cycle and the edges that an object reports at the given times. *)
Fixpoint ask (p : Z) (ts : list (Z * Z)) (c : ClockedObject) : outcome (list (Z * Z)) :=
  match ts with
  | [] => Ok []
  | (now, n) :: ts =>
      '(k, c) ← curCycle now p c;
      '(e, c) ← clockEdge now p n c;
      l ← ask p ts c;
      Ok ((k, e) :: l)
  end.

(** The number of the first edge at or after a time. *)
Definition first_edge (p now : Z) : Z := - (- now / p).

Fixpoint ordered (t0 : Z) (ts : list (Z * Z)) : Prop :=
  match ts with
  | [] => True
  | (now, n) :: ts => t0 <= now < 2 ^ 62 /\ ordered now ts
  end.

Lemma first_edge_unique p now k : 0 < p -> now <= p * k < now + p -> first_edge p now = k.
Proof.
  intros Hp Hk. unfold first_edge. assert (- now / p = - k) as ->; [|lia].
  symmetry. apply (Z.div_unique _ _ _ (p * k - now)); lia.
Qed.

Lemma step_to_cycle n : forall now p c, 0 < p -> 0 <= cycle c -> tick c = p * cycle c -> now < 2 ^ 62 -> cycle c < 2 ^ 63 ->
  tick (step_to n now p c) = p * cycle (step_to n now p c) /\ 0 <= cycle (step_to n now p c) < 2 ^ 63.
Proof.
  induction n as [|n IH]; intros now p c Hp H0 Ht Hnow Hc; cbn [step_to]; [lia|]. destruct (Z.leb_spec now (tick c)); [lia|].
  assert (cycle c + 1 <= 2 ^ 62) by nia. apply IH; cbn [tick cycle]; rewrite ?(uwrap_small 64 (cycle c + 1)) by (split; lia); lia.
Qed.

Lemma ask_closed p ts : forall t0 c, 0 < p < 2 ^ 62 -> 0 <= t0 < 2 ^ 62 -> tick c = p * cycle c -> 0 <= cycle c < 2 ^ 63 -> tick c < t0 + p -> ordered t0 ts ->
  ask p ts c = Ok ((fun '(now, n) => (first_edge p now, u64 (p * (first_edge p now + n)))) <$> ts).
Proof.
  induction ts as [|[now n] ts IH]; intros t0 c Hp Ht0 Ht Hc Hlt Ho; [done|]. destruct Ho as [Hnow Ho]. cbn [ask].
  assert (clock_ok c) as Hok by (unfold clock_ok; nia). set (c' := walk now p c).
  assert (clock_ok c') as Hok' by (apply walk_ok; [done|lia|done]).
  destruct (walk_bounds now p c) as (Hge & _ & H3 & H4); [lia|]. fold c' in Hge, H3, H4.
  destruct (step_to_cycle (Z.to_nat (now - tick c)) now p c) as [Ht' Hc']; try lia. fold (walk now p c) in Ht', Hc'. fold c' in Ht', Hc'.
  assert (tick c' < now + p) as Hlt' by (destruct (decide (tick c < now)); [by apply H3|rewrite H4 by lia; lia]).
  assert (first_edge p now = cycle c') as E by (apply first_edge_unique; lia).
  unfold curCycle, clockEdge. rewrite update_walks by (done || lia). cbn [mbind outcome_bind]. fold c'. rewrite update_walks by (done || lia). cbn [mbind outcome_bind].
  destruct (walk_bounds now p c') as (_ & _ & _ & H4'); [lia|]. rewrite H4' by done. rewrite (IH now c') by (done || lia). cbn. rewrite E. do 4 f_equal. rewrite Ht'. lia.
Qed.

(** C12: an object counts the cycles of its clock: asked at any times in order, with a
    period that does not change, its cycle number is that of the first edge at or after
    the time (the time divided by the period, rounded up), and the edge [n] cycles on is
    the period times that number plus [n], although the object only remembers its last
    answer and takes a shortcut when one period suffices.
    Period and times are below [2 ^ 62] ticks. *)
Theorem clock_counts_cycles p ts : 0 < p < 2 ^ 62 -> ordered 0 ts ->
  ask p ts ClockedObject_new = Ok ((fun '(now, n) => (first_edge p now, u64 (p * (first_edge p now + n)))) <$> ts).
Proof. intros Hp Ho. apply (ask_closed p ts 0); cbn; try lia; done. Qed.

Lemma clock_counts_cycles_witness : ask 10 [(0, 0); (5, 2); (10, 0); (11, 1); (73, 0)] ClockedObject_new = Ok [(0, 0); (1, 30); (1, 10); (2, 30); (8, 80)].
Proof. rewrite (clock_counts_cycles 10 [(0, 0); (5, 2); (10, 0); (11, 1); (73, 0)]); [vm_compute; reflexivity|lia|cbn; lia]. Defined.
End ClockDomain.
