(* ===== verification/DVFS.v ===== *)
(** Dynamic voltage and frequency scaling: the clock and voltage domains of
    ClockDomain.v and the handler over them, as one system that is constructed, started
    and then driven by requests of the software, by update events, and by objects that
    join domains and ask for their clock edges. *)

From stdpp Require Import fin_maps gmap.
From S2P Require Import Prelude IntMath ClockDomain.
Local Open Scope Z_scope.

Module DVFS.
Import ClockDomain.

(** ** The system *)

Record System := MkSystem {
  doms : Domains;
  handler : DVFSHandler;
  now : Z;
}.
#[export] Instance eta_System : Eta System := fun x => MkSystem (doms x) (handler x) (now x).

Fixpoint new_voltages (vs : list (list Z)) (s : Domains) : outcome Domains :=
  match vs with
  | [] => Ok s
  | v :: vs => '(_, s) ← VoltageDomain_new v s; new_voltages vs s
  end.

(** The parameters of a source domain. *)
Record SrcParams := MkSrcParams {
  p_clock : list Z;
  p_domain_id : Z;
  p_init_perf_level : Z;
  p_voltage_domain : nat;
}.

Fixpoint new_clocks (cs : list SrcParams) (s : Domains) : outcome Domains :=
  match cs with
  | [] => Ok s
  | c :: cs => '(_, s) ← SrcClockDomain_new 0 (p_clock c) (p_domain_id c) (p_init_perf_level c) (p_voltage_domain c) s; new_clocks cs s
  end.

Fixpoint startups (f : nat -> Domains -> outcome Domains) (l : list nat) (s : Domains) : outcome Domains :=
  match l with
  | [] => Ok s
  | i :: l => s ← f i s; startups f l s
  end.

(** Construction of all objects, then their [startup]. *)
Definition boot (vs : list (list Z)) (cs : list SrcParams) (sys_clk_domain : nat) (ids : list nat) (enable : bool) (latency : Z)
  : outcome System :=
  s ← new_voltages vs (MkDomains [] []);
  s ← new_clocks cs s;
  h ← DVFSHandler_new sys_clk_domain ids enable latency s;
  s ← startups startup_voltage (seq 0 (length (voltages s))) s;
  s ← startups (startup_clock 0) (seq 0 (length (clocks s))) s;
  Ok (MkSystem s h 0).

(** An operation on the domain that is reached through derived domains by [path]. *)
Fixpoint at_path (path : list nat) (f : ClockDomain -> outcome (Z * ClockDomain)) (d : ClockDomain) : outcome (Z * ClockDomain) :=
  match path with
  | [] => f d
  | i :: path =>
      let 'MkDomain p ms cs := d in
      c ← pget cs i;
      '(r, x) ← at_path path f c.2;
      Ok (r, MkDomain p ms (<[i := (c.1, x)]> cs))
  end.

Definition on_domain (i : nat) (path : list nat) (f : ClockDomain -> outcome (Z * ClockDomain)) (s : Domains) : outcome (Z * Domains) :=
  d ← pget (clocks s) i;
  '(r, b) ← at_path path f (base d);
  Ok (r, s <| clocks ::= <[i := d <| base := b |>]> |>).

(** An object asks for an edge; an object is constructed; a derived domain is. *)
Definition ask_edge (curTick : Z) (m : nat) (cycles : Z) (d : ClockDomain) : outcome (Z * ClockDomain) :=
  let 'MkDomain p ms cs := d in
  c ← pget ms m;
  '(r, c) ← clockEdge curTick p cycles c;
  Ok (r, MkDomain p (<[m := c]> ms) cs).

Definition join (d : ClockDomain) : outcome (Z * ClockDomain) := Ok (0, registerWithClockDomain ClockedObject_new d).

Definition derive (curTick clockDivider : Z) (d : ClockDomain) : outcome (Z * ClockDomain) :=
  d ← DerivedClockDomain_new curTick clockDivider d; Ok (0, d).

Inductive op :=
  | Request (domain_id perf_level : Z)
  | Fire (domain_id : Z)
  | Edge (i : nat) (path : list nat) (m : nat) (cycles : Z)
  | Join (i : nat) (path : list nat)
  | Derive (i : nat) (path : list nat) (clockDivider : Z)
  | Advance (t : Z).

Definition run_op (o : op) (s : System) : outcome (Z * System) :=
  match o with
  | Request id level => '(r, h) ← request (now s) id level (doms s) (handler s); Ok (Z.b2z r, s <| handler := h |>)
  | Fire id => '(d, h) ← updatePerfLevel (now s) id (doms s) (handler s); Ok (0, s <| doms := d |> <| handler := h |>)
  | Edge i path m cycles => '(r, d) ← on_domain i path (ask_edge (now s) m cycles) (doms s); Ok (r, s <| doms := d |>)
  | Join i path => '(r, d) ← on_domain i path join (doms s); Ok (r, s <| doms := d |>)
  | Derive i path div => '(r, d) ← on_domain i path (derive (now s) div) (doms s); Ok (r, s <| doms := d |>)
  | Advance t => Ok (0, s <| now := t |>)
  end.

Fixpoint run_ops (os : list op) (s : System) : outcome (list Z * System) :=
  match os with
  | [] => Ok ([], s)
  | o :: os => '(r, s) ← run_op o s; '(rs, s) ← run_ops os s; Ok (r :: rs, s)
  end.

(** ** Specification *)

(** A domain has a level and clocks that walk from edge to edge; its period and those of
    the derived domains follow from the level. *)
Record dom := MkDom {
  a_freq : list Z;
  a_id : Z;
  a_vdom : nat;
  a_level : Z;
  a_tree : tree;
}.
#[export] Instance eta_dom : Eta dom := fun x => MkDom (a_freq x) (a_id x) (a_vdom x) (a_level x) (a_tree x).

Definition a_period (d : dom) : Z := nth (Z.to_nat (a_level d)) (a_freq d) 0.

(** [a_pending] has the level a domain will go to, and when. *)
Record spec := MkSpec {
  a_doms : list dom;
  a_ids : gmap Z nat;
  a_pending : gmap Z (Z * Z);
  a_enabled : bool;
  a_latency : Z;
  a_now : Z;
}.
#[export] Instance eta_spec : Eta spec := fun x => MkSpec (a_doms x) (a_ids x) (a_pending x) (a_enabled x) (a_latency x) (a_now x).

Definition s_find (id : Z) (a : spec) : outcome nat := match a_ids a !! id with Some i => Ok i | None => Fail PanicError end.

(** A request replaces an earlier one that is still pending; one for the level the
    domain has only cancels it. *)
Definition s_request (id level : Z) (a : spec) : outcome (bool * spec) :=
  _ ← ensure AssertFailed (a_enabled a);
  i ← s_find id a;
  d ← pget (a_doms a) i;
  if negb (level <? Z.of_nat (length (a_freq d))) then Ok (false, a)
  else if a_level d =? level then Ok (false, a <| a_pending ::= delete id |>)
  else Ok (true, a <| a_pending ::= <[id := (level, a_now a + a_latency a)]> |>).

(** The level changes; the clocks first walk to the present with the old period. *)
Definition s_fire (id : Z) (a : spec) : outcome spec :=
  match a_pending a !! id with
  | None => Fail Undefined
  | Some (level, _) =>
      i ← s_find id a;
      d ← pget (a_doms a) i;
      Ok (a <| a_doms ::= <[i := d <| a_level := level |> <| a_tree := sync (a_now a) (a_period d) (a_tree d) |>]> |>
            <| a_pending ::= delete id |>)
  end.

Fixpoint t_at (path : list nat) (f : Z -> tree -> outcome (Z * tree)) (p : Z) (t : tree) : outcome (Z * tree) :=
  match path with
  | [] => f p t
  | i :: path =>
      let 'Node ms cs := t in
      c ← pget cs i;
      '(r, x) ← t_at path f (p * c.1) c.2;
      Ok (r, Node ms (<[i := (c.1, x)]> cs))
  end.

Definition s_on (i : nat) (path : list nat) (f : Z -> tree -> outcome (Z * tree)) (a : spec) : outcome (Z * spec) :=
  d ← pget (a_doms a) i;
  '(r, t) ← t_at path f (a_period d) (a_tree d);
  Ok (r, a <| a_doms ::= <[i := d <| a_tree := t |>]> |>).

Definition s_edge (curTick : Z) (m : nat) (cycles : Z) (p : Z) (t : tree) : outcome (Z * tree) :=
  let 'Node ms cs := t in
  c ← pget ms m;
  let c := walk curTick p c in
  Ok (u64 (tick c + p * cycles), Node (<[m := c]> ms) cs).

Definition s_join (p : Z) (t : tree) : outcome (Z * tree) := let 'Node ms cs := t in Ok (0, Node (ms ++ [MkClocked 0 0]) cs).

Definition s_derive (div : Z) (p : Z) (t : tree) : outcome (Z * tree) :=
  _ ← ensure FatalError (negb (div <? 1));
  let 'Node ms cs := t in Ok (0, Node ms (cs ++ [(div, Node [] [])])).

Definition s_op (o : op) (a : spec) : outcome (Z * spec) :=
  match o with
  | Request id level => '(r, a) ← s_request id level a; Ok (Z.b2z r, a)
  | Fire id => a ← s_fire id a; Ok (0, a)
  | Edge i path m cycles => s_on i path (s_edge (a_now a) m cycles) a
  | Join i path => s_on i path s_join a
  | Derive i path div => s_on i path (s_derive div) a
  | Advance t => Ok (0, a <| a_now := t |>)
  end.

Fixpoint s_ops (os : list op) (a : spec) : outcome (list Z * spec) :=
  match os with
  | [] => Ok ([], a)
  | o :: os => '(r, a) ← s_op o a; '(rs, a) ← s_ops os a; Ok (r :: rs, a)
  end.

(** The domains of a voltage domain, and the level of its fastest one. *)
Definition children_of (j : nat) (ds : list dom) : list nat := filter (fun i => a_vdom <$> ds !! i = Some j) (seq 0 (length ds)).
Definition levels (j : nat) (ds : list dom) : list Z := omap (fun i => a_level <$> ds !! i) (children_of j ds).
Definition fastest (j : nat) (ds : list dom) : Z := foldl Z.min (2 ^ 32 - 1) (levels j ds).

(** ** Which histories are possible *)

(** No period overflows at the slowest level. *)
Definition dom_fits (d : dom) : Prop := exists M, Forall (fun p => 0 < p <= M) (a_freq d) /\ fits M (a_tree d).

(** An event runs at its tick, and time does not pass an event; no period that a derived
    domain would get overflows. *)
Definition legal (o : op) (a : spec) : Prop :=
  match o with
  | Request _ level => 0 <= level
  | Fire id => exists level, a_pending a !! id = Some (level, a_now a)
  | Derive _ _ _ => forall r a', s_op o a = Ok (r, a') -> Forall dom_fits (a_doms a')
  | Advance t => a_now a <= t < 2 ^ 62 /\ map_Forall (fun _ p => t <= p.2) (a_pending a)
  | _ => True
  end.

Fixpoint legal_ops (os : list op) (a : spec) : Prop :=
  match os with
  | [] => True
  | o :: os => legal o a /\ forall r a', s_op o a = Ok (r, a') -> legal_ops os a'
  end.

(** ** The domains *)

Definition concrete (d : dom) : SrcClockDomain := MkSrc (build (a_period d) (a_tree d)) (a_vdom d) (a_freq d) (a_id d) (a_level d).

Record dom_ok (d : dom) : Prop := {
  do_fits : dom_fits d;
  do_level : 0 <= a_level d < Z.of_nat (length (a_freq d));
  do_width : Z.of_nat (length (a_freq d)) < 2 ^ 32;
}.

Record volt_ok (ds : list dom) (j : nat) (v : VoltageDomain) : Prop := {
  vo_children : srcClockChildren v = children_of j ds;
  vo_level : v_perfLevel v = if numVoltages v =? 1 then 0 else fastest j ds;
  vo_points d : d ∈ ds -> a_vdom d = j -> numVoltages v = 1 \/ numVoltages v = Z.of_nat (length (a_freq d));
}.

Record drel (s : Domains) (ds : list dom) : Prop := {
  dr_clocks : clocks s = concrete <$> ds;
  dr_doms : Forall dom_ok ds;
  dr_volts j v : voltages s !! j = Some v -> volt_ok ds j v;
  dr_vdom d : d ∈ ds -> (a_vdom d < length (voltages s))%nat;
}.

Lemma drel_dom s ds i d : drel s ds -> ds !! i = Some d -> dom_ok d /\ pget (clocks s) i = Ok (concrete d).
Proof.
  intros [Hc Hd _ _] Hi. split; [by apply (Forall_lookup_1 _ _ _ _ Hd Hi)|]. apply pget_ok. by rewrite Hc, list_lookup_fmap, Hi.
Qed.

Lemma drel_none s ds i : drel s ds -> ds !! i = None -> pget (clocks s) i = Fail Undefined.
Proof. intros [Hc _ _ _] Hi. unfold pget. by rewrite Hc, list_lookup_fmap, Hi. Qed.

Lemma period_in d : dom_ok d -> a_freq d !! Z.to_nat (a_level d) = Some (a_period d).
Proof.
  intros [_ Hl _]. unfold a_period. destruct (lookup_lt_is_Some_2 (a_freq d) (Z.to_nat (a_level d))) as [p Hp]; [lia|].
  rewrite Hp. f_equal. symmetry. by apply nth_lookup_Some.
Qed.

Lemma period_ok d : dom_ok d -> exists M, 0 < a_period d <= M /\ fits M (a_tree d) /\ Forall (fun p => 0 < p <= M) (a_freq d).
Proof.
  intros Hd. destruct (do_fits _ Hd) as (M & Hf & Ht). exists M. split; [|done]. by apply (Forall_lookup_1 _ _ _ _ Hf (period_in d Hd)).
Qed.

(** The level of a voltage domain depends on the levels of its domains only. *)
Definition shape (cs : list SrcClockDomain) (ds : list dom) : Prop :=
  forall i d, ds !! i = Some d -> exists x, cs !! i = Some x /\ _voltageDomain x = a_vdom d /\ _perfLevel x = a_level d.

Lemma drel_shape s ds : drel s ds -> shape (clocks s) ds.
Proof. intros Hr i d Hi. destruct (drel_dom s ds i d Hr Hi) as [_ E%pget_ok]. by exists (concrete d). Qed.

Lemma max_level_ok cs ds j : shape cs ds -> forall l m, (forall i, i ∈ l -> a_vdom <$> ds !! i = Some j) ->
  max_level j l cs m = Ok (foldl Z.min m (omap (fun i => a_level <$> ds !! i) l)).
Proof.
  intros Hr. induction l as [|i l IH]; intros m Hl; [done|]. simpl. destruct (ds !! i) as [d|] eqn:Ed; [|by specialize (Hl i ltac:(left)); rewrite Ed in Hl].
  destruct (Hr i d Ed) as (x & E & Ev & El). rewrite (proj2 (pget_ok _ _ _) E). cbn [mbind outcome_bind].
  specialize (Hl i ltac:(left)) as Hi. rewrite Ed in Hi. injection Hi as Hi.
  rewrite Ev, bool_decide_eq_true_2 by done. cbn [ensure mbind outcome_bind].
  rewrite IH by (intros i' Hi'; apply Hl; by right). cbn. rewrite El. f_equal. f_equal. destruct (Z.ltb_spec (a_level d) m); lia.
Qed.

Lemma foldl_min_le l : forall m, foldl Z.min m l <= m.
Proof. induction l as [|x l IH]; intros m; simpl; [lia|]. specialize (IH (Z.min m x)). lia. Qed.

Lemma foldl_min_elem x l : forall m, x ∈ l -> foldl Z.min m l <= x.
Proof.
  induction l as [|y l IH]; intros m; simpl; [by intros ?%elem_of_nil|]. intros [->|Hx]%elem_of_cons; [|by apply IH].
  pose proof (foldl_min_le l (Z.min m y)). lia.
Qed.

Lemma child_of ds i d : ds !! i = Some d -> i ∈ children_of (a_vdom d) ds.
Proof.
  intros Hi. apply list_elem_of_filter. rewrite Hi. split; [done|]. apply elem_of_seq. apply lookup_lt_Some in Hi. lia.
Qed.

Lemma fastest_le ds i d : ds !! i = Some d -> fastest (a_vdom d) ds <= a_level d.
Proof.
  intros Hi. apply foldl_min_elem. apply list_elem_of_omap. exists i. split; [by apply child_of|]. by rewrite Hi.
Qed.

(** A change of the level of one domain. *)
Lemma children_insert ds i d d' j : ds !! i = Some d -> a_vdom d' = a_vdom d -> children_of j (<[i := d']> ds) = children_of j ds.
Proof.
  intros Hi Hv. unfold children_of. rewrite length_insert. apply list_filter_iff. intros k. destruct (decide (k = i)) as [->|].
  - rewrite list_lookup_insert_eq, Hi by (by eapply lookup_lt_Some). simpl. by rewrite Hv.
  - by rewrite list_lookup_insert_ne.
Qed.

Lemma fastest_insert ds i d d' j : ds !! i = Some d -> a_vdom d' = a_vdom d -> a_vdom d <> j \/ a_level d' = a_level d -> fastest j (<[i := d']> ds) = fastest j ds.
Proof.
  intros Hi Hv Hj. unfold fastest, levels. rewrite (children_insert ds i d) by done. f_equal.
  assert (forall k, k ∈ children_of j ds -> a_level <$> <[i := d']> ds !! k = a_level <$> ds !! k) as Hk.
  { intros k [Hk _]%list_elem_of_filter. destruct (decide (k = i)) as [->|]; [|by rewrite list_lookup_insert_ne].
    rewrite list_lookup_insert_eq by (by eapply lookup_lt_Some). rewrite Hi in Hk |- *. simpl in *. destruct Hj as [Hj|Hj]; congruence. }
  induction (children_of j ds) as [|k l IH]; [done|].
  cbn [omap list_omap]. rewrite Hk by left. destruct (a_level <$> ds !! k); [f_equal|]; apply IH; intros k' ?; apply Hk; by right.
Qed.

Lemma sanitise_ok s ds j : shape (clocks s) ds -> (forall v, voltages s !! j = Some v -> srcClockChildren v = children_of j ds /\
    (numVoltages v = 1 \/ fastest j ds < numVoltages v)) -> (j < length (voltages s))%nat ->
  exists b s', sanitiseVoltages j s = Ok (b, s') /\ clocks s' = clocks s /\ length (voltages s') = length (voltages s) /\
    (forall k v, voltages s' !! k = Some v -> exists v0, voltages s !! k = Some v0 /\
       v = if decide (k = j) then (if numVoltages v0 =? 1 then v0 else v0 <| v_perfLevel := fastest j ds |>) else v0).
Proof.
  intros Hsh Hv Hj. destruct (lookup_lt_is_Some_2 _ _ Hj) as [v Ev]. destruct (Hv v Ev) as [Hch Hlt].
  unfold sanitiseVoltages. rewrite (proj2 (pget_ok _ _ _) Ev). cbn [mbind outcome_bind].
  destruct (Z.eqb_spec (numVoltages v) 1) as [E1|E1].
  { exists false, s. split_and!; try done. intros k w Hw. exists w. split; [done|]. destruct (decide (k = j)) as [->|]; [|done].
    assert (w = v) as -> by congruence. by rewrite E1. }
  destruct Hlt as [|Hlt]; [done|].
  rewrite (max_level_ok _ ds j Hsh) by (rewrite Hch; by intros k [? _]%list_elem_of_filter). rewrite Hch. fold (levels j ds).
  change (u32 (-1)) with (2 ^ 32 - 1). fold (fastest j ds). cbn [mbind outcome_bind].
  destruct (Z.eqb_spec (fastest j ds) (v_perfLevel v)) as [E|E]; cbn [negb].
  - exists false, s. split_and!; try done. intros k w Hw. exists w. split; [done|]. destruct (decide (k = j)) as [->|]; [|done].
    assert (w = v) as -> by congruence. rewrite (proj2 (Z.eqb_neq _ _) E1), E. by destruct v.
  - unfold set_v_perfLevel. rewrite (proj2 (Z.ltb_lt _ _) Hlt), (proj2 (Z.eqb_neq _ _) E). cbn [ensure mbind outcome_bind].
    eexists true, _. split; [done|]. simpl. rewrite length_insert. split_and!; try done. intros k w Hw.
    apply list_lookup_insert_Some in Hw as [(<- & <- & _)|[Hne Hw]].
    + exists v. rewrite decide_True by done. by rewrite (proj2 (Z.eqb_neq _ _) E1).
    + exists w. by rewrite decide_False.
Qed.

Definition at_level (t l : Z) (d : dom) : dom := d <| a_level := l |> <| a_tree := sync t (a_period d) (a_tree d) |>.

Lemma at_level_ok t l d : dom_ok d -> 0 <= t < 2 ^ 62 -> 0 <= l < Z.of_nat (length (a_freq d)) ->
  dom_ok (at_level t l d) /\ vget (a_freq d) l = Ok (a_period (at_level t l d)) /\
  clockPeriod t (a_period (at_level t l d)) (build (a_period d) (a_tree d)) = Ok (build (a_period (at_level t l d)) (a_tree (at_level t l d))).
Proof.
  intros Hd Ht Hl. destruct (period_ok d Hd) as (M & Hp & Hf & Hfr).
  assert (dom_ok (at_level t l d)) as Hd'.
  { split; [|done|apply Hd]. exists M. split; [done|]. apply sync_fits; [done|lia|done]. }
  pose proof (period_in _ Hd') as E. change (a_freq (at_level t l d)) with (a_freq d) in E. change (a_level (at_level t l d)) with l in E.
  split; [done|]. split; [apply vget_ok; split; [lia|done]|]. pose proof (Forall_lookup_1 _ _ _ _ Hfr E) as Hp'.
  cbv beta in Hp'. apply clockPeriod_ok; [lia|lia|lia|by apply (fits_le _ M)..].
Qed.

Lemma set_level_ok s ds t i d l : drel s ds -> ds !! i = Some d -> 0 <= t < 2 ^ 62 -> 0 <= l < Z.of_nat (length (a_freq d)) -> l <> a_level d ->
  exists s', perfLevel t l i s = Ok s' /\ drel s' (<[i := at_level t l d]> ds) /\ length (voltages s') = length (voltages s).
Proof.
  intros Hr Hi Ht Hl Hne. destruct (drel_dom s ds i d Hr Hi) as [Hd Eg]. destruct (at_level_ok t l d Hd Ht Hl) as (Hd' & Ev & Ec).
  set (d' := at_level t l d) in *. set (ds' := <[i := d']> ds). pose proof (lookup_lt_Some _ _ _ Hi) as Hlen.
  assert (i < length (clocks s))%nat as Hlc by (rewrite (dr_clocks _ _ Hr), length_fmap; done).
  unfold perfLevel. rewrite Eg. cbn [mbind outcome_bind]. unfold validPerfLevel, numPerfLevels. change (freqOpPoints (concrete d)) with (a_freq d).
  rewrite (proj2 (Z.ltb_lt _ _)) by lia. cbn [ensure mbind outcome_bind]. change (_perfLevel (concrete d)) with (a_level d).
  rewrite (proj2 (Z.eqb_neq _ _) Hne). change (_voltageDomain (concrete d)) with (a_vdom d). set (s1 := s <| clocks ::= _ |>).
  assert (a_vdom d < length (voltages s))%nat as Hvl by (apply (dr_vdom _ _ Hr); by apply list_elem_of_lookup_2 with i).
  assert (ds' !! i = Some d') as Hi' by (by apply list_lookup_insert_eq).
  destruct (sanitise_ok s1 ds' (a_vdom d)) as (b & s2 & -> & Ecs & Elv & Hvs).
  { intros k x Hk. unfold s1. cbn. destruct (decide (k = i)) as [->|].
    - rewrite list_lookup_insert_eq by done. rewrite Hi' in Hk. injection Hk as <-. eexists. done.
    - rewrite list_lookup_insert_ne by done. apply (drel_shape s ds Hr). unfold ds' in Hk. by rewrite list_lookup_insert_ne in Hk. }
  { intros v Hv. destruct (dr_volts _ _ Hr _ _ Hv) as [Hch _ Hpt]. split; [unfold ds'; by rewrite (children_insert ds i d)|].
    destruct (Hpt d) as [H1|H1]; [by apply list_elem_of_lookup_2 with i|done|by left|right]. rewrite H1.
    pose proof (fastest_le ds' i d' Hi') as Hle. change (a_vdom d') with (a_vdom d) in Hle. change (a_level d') with l in Hle. lia. }
  { done. }
  cbn [mbind outcome_bind]. rewrite Ecs. unfold s1 at 1. cbn [clocks]. simpl clocks. unfold pget. rewrite list_lookup_insert_eq by done. cbn [mbind outcome_bind].
  simpl freqOpPoints. simpl _perfLevel. rewrite Ev. cbn [mbind outcome_bind]. simpl base. rewrite Ec. cbn [mbind outcome_bind].
  eexists. split; [done|]. split; [|done].
  assert (forall x, x ∈ ds' -> exists y, y ∈ ds /\ a_vdom y = a_vdom x /\ a_freq y = a_freq x) as Hin.
  { intros x [k Hk]%list_elem_of_lookup. unfold ds' in Hk. apply list_lookup_insert_Some in Hk as [(<- & <- & _)|[_ Hk]].
    - exists d. split; [by apply list_elem_of_lookup_2 with i|done].
    - exists x. split; [by apply list_elem_of_lookup_2 with k|done]. }
  split; simpl.
  - rewrite Ecs. unfold s1. simpl. rewrite list_insert_insert_eq. unfold ds'. rewrite list_fmap_insert, <- (dr_clocks _ _ Hr). done.
  - apply Forall_insert; [apply Hr|done].
  - intros j v Hv. destruct (Hvs j v Hv) as (v0 & Ev0 & ->). destruct (dr_volts _ _ Hr j v0 Ev0) as [Hch Hlv Hpt].
    assert (forall x, x ∈ ds' -> a_vdom x = j -> numVoltages v0 = 1 \/ numVoltages v0 = Z.of_nat (length (a_freq x))) as Hpt'.
    { intros x Hx Hj. destruct (Hin x Hx) as (y & Hy & E1 & E2). rewrite <- E2. apply Hpt; [done|congruence]. }
    pose proof (children_insert ds i d d' j Hi eq_refl) as Ech. destruct (decide (j = a_vdom d)) as [->|Hj].
    + destruct (Z.eqb_spec (numVoltages v0) 1) as [E1|E1].
      * split; [by rewrite Hch, <- Ech|rewrite Hlv; by rewrite E1|done].
      * split; [by simpl; rewrite Hch, <- Ech| |done]. 
        match goal with |- context [?x =? 1] => destruct (Z.eqb_spec x 1) as [E2|] end; [by destruct (E1 E2)|done].
    + split; [by rewrite Hch, <- Ech| |done]. rewrite Hlv. destruct (_ =? _); [done|]. symmetry. apply (fastest_insert ds i d); [done|done|by left].
  - intros x Hx. destruct (Hin x Hx) as (y & Hy & <- & _). rewrite Elv. by apply (dr_vdom _ _ Hr).
Qed.

(** ** Operations inside a domain *)

Definition node_match (p : Z) (x : outcome (Z * ClockDomain)) (y : outcome (Z * tree)) : Prop :=
  match x, y with
  | Ok (r, d), Ok (r', t) => r = r' /\ d = build p t
  | Fail e, Fail e' => e = e'
  | _, _ => False
  end.

Lemma at_path_match f g path : (forall p t, 0 < p -> fits p t -> (forall r t', g p t = Ok (r, t') -> fits p t') -> node_match p (f (build p t)) (g p t)) ->
  forall p t, 0 < p -> fits p t -> (forall r t', t_at path g p t = Ok (r, t') -> fits p t') -> node_match p (at_path path f (build p t)) (t_at path g p t).
Proof.
  intros Hfg. induction path as [|i path IH]; intros p t Hp Hf Hres; [by apply Hfg|]. destruct t as [ms cs]. inversion Hf as [? ? ? HM Hms Hcs]; subst.
  cbn [at_path t_at build] in *. unfold pget in *. rewrite list_lookup_fmap. destruct (cs !! i) as [c|] eqn:Ec; [|done]. cbn [fmap option_fmap option_map mbind outcome_bind fst snd] in *.
  destruct (Forall_lookup_1 _ _ _ _ Hcs Ec) as [H1 H2].
  assert (node_match (p * c.1) (at_path path f (build (p * c.1) c.2)) (t_at path g (p * c.1) c.2)) as Hm.
  { apply IH; [nia|done|]. intros r x Ex. rewrite Ex in Hres. specialize (Hres r _ eq_refl). inversion Hres as [? ? ? _ _ Hcs']; subst.
    apply (Forall_lookup_1 _ _ i (c.1, x) Hcs'). apply list_lookup_insert_eq. by apply lookup_lt_Some in Ec. }
  destruct (at_path path f _) as [[r d]|e], (t_at path g _ _) as [[r' x]|e']; try done. destruct Hm as [-> ->].
  cbn. split; [done|]. f_equal. change (map ?h (<[i := ?v]> cs)) with (h <$> <[i := v]> cs). by rewrite list_fmap_insert.
Qed.

Lemma t_at_fits g path : (forall p M t r t', 0 < p <= M -> fits M t -> g p t = Ok (r, t') -> fits M t') ->
  forall p M t r t', 0 < p <= M -> fits M t -> t_at path g p t = Ok (r, t') -> fits M t'.
Proof.
  intros Hg. induction path as [|i path IH]; intros p M t r t' Hp Hf E; [by apply (Hg p M t r t')|]. destruct t as [ms cs]. inversion Hf as [? ? ? HM Hms Hcs]; subst.
  cbn [t_at] in E. apply bind_ok in E as (c & Ec%pget_ok & E). apply bind_ok in E as ([r1 x] & Ex & E). injection E as <- <-.
  destruct (Forall_lookup_1 _ _ _ _ Hcs Ec) as [H1 H2]. constructor; [done|done|]. apply Forall_insert; [done|]. split; [done|].
  apply (IH (p * c.1) (M * c.1) c.2 r1 x); [nia|done|done].
Qed.

Lemma edge_match now m cycles p t : 0 <= now < 2 ^ 62 -> 0 < p -> fits p t -> node_match p (ask_edge now m cycles (build p t)) (s_edge now m cycles p t).
Proof.
  intros Hnow Hp Hf. destruct t as [ms cs]. inversion Hf as [? ? ? HM Hms Hcs]; subst. cbn [ask_edge s_edge build]. unfold pget.
  destruct (ms !! m) as [c|] eqn:Ec; [|done]. cbn [mbind outcome_bind]. unfold clockEdge. rewrite update_walks by (lia || by apply (Forall_lookup_1 _ _ _ _ Hms Ec)).
  done.
Qed.

Lemma edge_fits now m cycles p M t r t' : 0 <= now < 2 ^ 62 -> 0 < p <= M -> fits M t -> s_edge now m cycles p t = Ok (r, t') -> fits M t'.
Proof.
  intros Hnow Hp Hf E. destruct t as [ms cs]. inversion Hf as [? ? ? HM Hms Hcs]; subst. cbn [s_edge] in E. apply bind_ok in E as (c & Ec%pget_ok & E).
  injection E as <- <-. constructor; [done| |done]. apply Forall_insert; [done|]. apply walk_ok; [lia|lia|by apply (Forall_lookup_1 _ _ _ _ Hms Ec)].
Qed.

Lemma join_match p t : node_match p (join (build p t)) (s_join p t).
Proof. by destruct t as [ms cs]. Qed.

Lemma join_fits p M t r t' : fits M t -> s_join p t = Ok (r, t') -> fits M t'.
Proof.
  intros Hf E. destruct t as [ms cs]. inversion Hf as [? ? ? HM Hms Hcs]; subst. injection E as <- <-. constructor; [done| |done].
  apply Forall_app. split; [done|]. constructor; [|done]. done.
Qed.

Lemma derive_match now div p t : 0 < p -> (forall r t', s_derive div p t = Ok (r, t') -> fits p t') -> node_match p (derive now div (build p t)) (s_derive div p t).
Proof.
  intros Hp Hres. destruct t as [ms cs].
  assert (0 < p * div < 2 ^ 62 \/ div < 1) as Hd.
  { unfold s_derive in Hres. destruct (Z.ltb_spec div 1); [by right|left]. specialize (Hres 0 _ eq_refl). inversion Hres as [? ? ? _ _ Hcs]; subst.
    apply Forall_app in Hcs as [_ Hcs]. inversion Hcs as [|? ? [_ Hc] _]; subst. inversion Hc. cbn in *. nia. }
  unfold derive, DerivedClockDomain_new, s_derive. destruct (Z.ltb_spec div 1); cbn [negb ensure mbind outcome_bind]; [done|].
  destruct Hd as [Hd|]; [|lia]. cbn. rewrite (uwrap_small 64 (p * div)) by (split; lia). split; [done|]. f_equal.
  change (map ?h (cs ++ ?l)) with (h <$> (cs ++ l)). by rewrite fmap_app.
Qed.

(** ** The system implements the specification *)

Record rel (s : System) (a : spec) : Prop := {
  re_doms : drel (doms s) (a_doms a);
  re_ids : domains (handler s) = a_ids a;
  re_enabled : enableHandler (handler s) = a_enabled a;
  re_latency : _transLatency (handler s) = a_latency a /\ 0 <= a_latency a < 2 ^ 62;
  re_now : now s = a_now a /\ 0 <= a_now a < 2 ^ 62;
  re_dom id i : a_ids a !! id = Some i -> exists d e, a_doms a !! i = Some d /\ s32 (a_id d) = id /\
    updatePerfLevelEvents (handler s) !! id = Some e /\ domainIDToSet e = id /\
    a_pending a !! id = (fun w => (perfLevelToSet e, w)) <$> scheduled e;
  re_pending id l w : a_pending a !! id = Some (l, w) -> exists i d, a_ids a !! id = Some i /\ a_doms a !! i = Some d /\
    0 <= l < Z.of_nat (length (a_freq d)) /\ l <> a_level d /\ a_now a <= w;
}.

Definition matches {R} (x : outcome (R * System)) (y : outcome (R * spec)) : Prop :=
  match x, y with
  | Ok (r, s), Ok (r', a) => r = r' /\ rel s a
  | Fail e, Fail e' => e = e'
  | _, _ => False
  end.

(** Domains change neither their names nor their levels. *)
Lemma drel_tree s ds i d M tr : drel s ds -> ds !! i = Some d -> Forall (fun p => 0 < p <= M) (a_freq d) -> fits M tr ->
  let d' := d <| a_tree := tr |> in
  drel (s <| clocks ::= <[i := concrete d']> |>) (<[i := d']> ds).
Proof.
  intros [Hc Hd Hv Hvd] Hi HM Htr d'. pose proof (Forall_lookup_1 _ _ _ _ Hd Hi) as Hdo. pose proof (lookup_lt_Some _ _ _ Hi) as Hlt.
  assert (forall x, x ∈ <[i := d']> ds -> exists y, y ∈ ds /\ a_vdom y = a_vdom x /\ a_freq y = a_freq x) as Hin.
  { intros x [k Hk]%list_elem_of_lookup. apply list_lookup_insert_Some in Hk as [(<- & <- & _)|[_ Hk]].
    - exists d. split; [by apply list_elem_of_lookup_2 with i|done].
    - exists x. split; [by apply list_elem_of_lookup_2 with k|done]. }
  split; simpl.
  - by rewrite list_fmap_insert, Hc.
  - apply Forall_insert; [done|]. destruct Hdo. split; [by exists M|done|done].
  - intros j v Ev. destruct (Hv j v Ev) as [Hch Hlv Hpt]. split.
    + by rewrite (children_insert ds i d).
    + rewrite (fastest_insert ds i d); [done|done|done|by right].
    + intros x Hx Hj. destruct (Hin x Hx) as (y & Hy & E1 & <-). apply Hpt; [done|congruence].
  - intros x Hx. destruct (Hin x Hx) as (y & Hy & <- & _). by apply Hvd.
Qed.

Lemma rel_tree s a i d M tr : rel s a -> a_doms a !! i = Some d -> Forall (fun p => 0 < p <= M) (a_freq d) -> fits M tr ->
  let d' := d <| a_tree := tr |> in
  rel (s <| doms ::= (fun x => x <| clocks ::= <[i := concrete d']> |>) |>) (a <| a_doms ::= <[i := d']> |>).
Proof.
  intros Hr Hi HM Htr d'. destruct Hr as [Hd ? ? ? ? Hdom Hpe]. pose proof (lookup_lt_Some _ _ _ Hi) as Hlt. split; try done.
  - by apply (drel_tree _ _ _ _ M).
  - intros id k Hk. destruct (Hdom id k Hk) as (x & e & Hx & He). destruct (decide (k = i)) as [->|].
    + exists d', e. cbn. rewrite list_lookup_insert_eq by done. assert (x = d) as -> by congruence. done.
    + exists x, e. cbn. by rewrite list_lookup_insert_ne.
  - intros id l w Hp. destruct (Hpe id l w Hp) as (k & x & Hk & Hx & Hx'). exists k. destruct (decide (k = i)) as [->|].
    + exists d'. cbn. rewrite list_lookup_insert_eq by done. assert (x = d) as -> by congruence. done.
    + exists x. cbn. by rewrite list_lookup_insert_ne.
Qed.

Lemma on_matches s a i path f g : rel s a ->
  (forall p t, 0 < p -> fits p t -> (forall r t', g p t = Ok (r, t') -> fits p t') -> node_match p (f (build p t)) (g p t)) ->
  (forall d r t', a_doms a !! i = Some d -> t_at path g (a_period d) (a_tree d) = Ok (r, t') -> dom_fits (d <| a_tree := t' |>)) ->
  matches ('(r, d) ← on_domain i path f (doms s); Ok (r, s <| doms := d |>)) (s_on i path g a).
Proof.
  intros Hr Hfg Hfits. unfold on_domain, s_on. destruct (a_doms a !! i) as [d|] eqn:Ed; cycle 1.
  { rewrite (drel_none _ _ i (re_doms _ _ Hr) Ed). unfold pget. by rewrite Ed. }
  destruct (drel_dom _ _ i d (re_doms _ _ Hr) Ed) as [Hd ->]. rewrite (proj2 (pget_ok _ _ _) Ed). cbn [mbind outcome_bind].
  destruct (period_ok d Hd) as (M & Hp & Hf & Hfr). change (base (concrete d)) with (build (a_period d) (a_tree d)).
  assert (node_match (a_period d) (at_path path f (build (a_period d) (a_tree d))) (t_at path g (a_period d) (a_tree d))) as Hm.
  { apply at_path_match; [done|lia|by apply (fits_le _ M)|]. intros r t' E. destruct (Hfits d r t' eq_refl E) as (M' & HM' & Ht').
    apply (fits_le _ M'); [|done]. apply (Forall_lookup_1 _ _ _ _ HM' (period_in d Hd)). }
  destruct (at_path path f _) as [[r b]|e], (t_at path g _ _) as [[r' tr]|e'] eqn:Et; try done. destruct Hm as [-> ->]. cbn [mbind outcome_bind matches].
  split; [done|]. destruct (Hfits d r' tr eq_refl Et) as (M' & HM' & Ht'). exact (rel_tree s a i d M' tr Hr Ed HM' Ht').
Qed.

Lemma fits_result a i path g : Forall dom_ok (a_doms a) -> (forall p M t r t', 0 < p <= M -> fits M t -> g p t = Ok (r, t') -> fits M t') ->
  forall d r t', a_doms a !! i = Some d -> t_at path g (a_period d) (a_tree d) = Ok (r, t') -> dom_fits (d <| a_tree := t' |>).
Proof.
  intros Ha Hg d r t' Hi E. destruct (period_ok d) as (M & Hp & Hf & Hfr); [by apply (Forall_lookup_1 _ _ _ _ Ha Hi)|]. exists M. split; [done|].
  by apply (t_at_fits g path Hg (a_period d) M (a_tree d) r).
Qed.

Lemma find_agrees s a id : rel s a -> findDomain id (handler s) = s_find id a.
Proof. intros Hr. unfold findDomain, s_find. by rewrite (re_ids _ _ Hr). Qed.

Lemma find_rel s a id i : rel s a -> s_find id a = Ok i -> a_ids a !! id = Some i.
Proof. intros Hr E. unfold s_find in E. destruct (a_ids a !! id); [by injection E as ->|done]. Qed.

(** Replacing the event of a domain. *)
Lemma rel_event s a id i e pend : rel s a -> a_ids a !! id = Some i -> domainIDToSet e = id ->
  pend !! id = (fun w => (perfLevelToSet e, w)) <$> scheduled e -> (forall id', id' <> id -> pend !! id' = a_pending a !! id') ->
  (forall l w, pend !! id = Some (l, w) -> exists d, a_doms a !! i = Some d /\ 0 <= l < Z.of_nat (length (a_freq d)) /\ l <> a_level d /\ a_now a <= w) ->
  rel (s <| handler ::= (fun h => h <| updatePerfLevelEvents ::= <[id := e]> |>) |>) (a <| a_pending := pend |>).
Proof.
  intros Hr Hid He Hp Hother Hnew. destruct Hr as [Hd ? ? ? ? Hdom Hpe]. split; try done.
  - intros id' k Hk. destruct (Hdom id' k Hk) as (x & e' & Hx & Hi & He' & Hi' & Hp'). exists x. cbn. destruct (decide (id' = id)) as [->|Hne].
    + exists e. rewrite lookup_insert_eq. done.
    + exists e'. rewrite lookup_insert_ne, Hother by done. done.
  - intros id' l w Hw. cbn in Hw. destruct (decide (id' = id)) as [->|Hne].
    + destruct (Hnew l w Hw) as (x & Hx). by exists i, x.
    + rewrite Hother in Hw by done. by apply Hpe.
Qed.

Lemma request_matches s a id level : rel s a -> 0 <= level -> matches (run_op (Request id level) s) (s_op (Request id level) a).
Proof.
  intros Hr Hlv. cbn [run_op s_op]. unfold request, s_request. rewrite (re_enabled _ _ Hr). destruct (a_enabled a); [|done]. cbn [ensure mbind outcome_bind].
  rewrite (find_agrees s a id Hr). destruct (s_find id a) as [i|e] eqn:Ef; [|done]. cbn [mbind outcome_bind]. apply (find_rel s a id i Hr) in Ef.
  destruct (re_dom _ _ Hr id i Ef) as (d & e & Hd & Hid & He & Heid & Hp). destruct (drel_dom _ _ i d (re_doms _ _ Hr) Hd) as [_ ->].
  rewrite (proj2 (pget_ok _ _ _) Hd). cbn [mbind outcome_bind]. unfold validPerfLevel, numPerfLevels. change (freqOpPoints (concrete d)) with (a_freq d).
  destruct (Z.ltb_spec level (Z.of_nat (length (a_freq d)))) as [Hlt|Hge]; cbn [negb]; [|cbn; split; [done|]; by destruct s, Hr].
  change (_perfLevel (concrete d)) with (a_level d). unfold event_of. rewrite He. cbn [default].
  destruct (Z.eqb_spec (a_level d) level) as [El|El]; cbn [mbind outcome_bind matches Z.b2z].
  - split; [done|]. apply (rel_event s a id i _ (delete id (a_pending a)) Hr Ef); [done|by rewrite lookup_delete_eq|intros; by rewrite lookup_delete_ne|].
    intros l w Hw. by rewrite lookup_delete_eq in Hw.
  - destruct (re_latency _ _ Hr) as [El' Hlat]. destruct (re_now _ _ Hr) as [En Hnow]. rewrite El', En, (uwrap_small 64) by (split; lia).
    unfold schedule. rewrite (proj2 (Z.leb_le _ _)) by lia. cbn. split; [done|].
    apply (rel_event s a id i _ (<[id := (level, a_now a + a_latency a)]> (a_pending a)) Hr Ef); [done|by rewrite lookup_insert_eq|intros; by rewrite lookup_insert_ne|].
    intros l w. rewrite lookup_insert_eq. intros [= <- <-]. exists d. split_and!; try done; lia.
Qed.

Lemma rel_level s a i d t l s' : rel s a -> a_doms a !! i = Some d -> drel s' (<[i := at_level t l d]> (a_doms a)) ->
  (forall id, a_ids a !! id = Some i -> a_pending a !! id = None) ->
  rel (s <| doms := s' |>) (a <| a_doms ::= <[i := at_level t l d]> |>).
Proof.
  intros Hr Hi Hs Hno. destruct Hr as [Hd ? ? ? ? Hdom Hpe]. pose proof (lookup_lt_Some _ _ _ Hi) as Hlt. split; try done.
  - intros id k Hk. destruct (Hdom id k Hk) as (x & e & Hx & He). destruct (decide (k = i)) as [->|].
    + exists (at_level t l d), e. cbn. rewrite list_lookup_insert_eq by done. assert (x = d) as -> by congruence. done.
    + exists x, e. cbn. by rewrite list_lookup_insert_ne.
  - intros id l' w Hp. destruct (Hpe id l' w Hp) as (k & x & Hk & Hx & Hx'). exists k. destruct (decide (k = i)) as [->|].
    + cbn in Hp. by rewrite Hno in Hp.
    + exists x. cbn. by rewrite list_lookup_insert_ne.
Qed.

Lemma fire_matches s a id : rel s a -> legal (Fire id) a -> matches (run_op (Fire id) s) (s_op (Fire id) a).
Proof.
  intros Hr [l Hl]. cbn [run_op s_op]. unfold updatePerfLevel, s_fire. rewrite Hl. destruct (re_pending _ _ Hr id l _ Hl) as (i & d & Hid & Hd & Hlv & Hne & _).
  destruct (re_dom _ _ Hr id i Hid) as (d1 & e & Hd1 & Hid1 & He & Heid & Hp). assert (d1 = d) as -> by congruence. rewrite Hl in Hp.
  destruct (scheduled e) as [w|] eqn:Ew; [|done]. injection Hp as El Enow. unfold event_of. rewrite He. cbn [default]. simpl domainIDToSet. rewrite Heid.
  unfold findDomain at 1, s_find. simpl domains. rewrite (re_ids _ _ Hr), Hid. cbn [mbind outcome_bind].
  destruct (drel_dom _ _ i d (re_doms _ _ Hr) Hd) as [_ ->]. rewrite (proj2 (pget_ok _ _ _) Hd). cbn [mbind outcome_bind]. simpl perfLevelToSet. rewrite <- El.
  change (_perfLevel (concrete d)) with (a_level d). rewrite (proj2 (Z.eqb_neq (a_level d) l)) by congruence. cbn [negb ensure mbind outcome_bind].
  destruct (re_now _ _ Hr) as [En Hnow]. rewrite En. destruct (set_level_ok (doms s) (a_doms a) (a_now a) i d l (re_doms _ _ Hr) Hd Hnow Hlv Hne) as (s' & -> & Hs' & _).
  cbn [mbind outcome_bind matches]. split; [done|].
  set (s1 := s <| handler ::= (fun h => h <| updatePerfLevelEvents ::= <[id := (e <| scheduled := None |>)]> |>) |>).
  assert (rel s1 (a <| a_pending := delete id (a_pending a) |>)) as Hr1.
  { apply (rel_event s a id i); [done|done|done|by rewrite lookup_delete_eq|intros; by rewrite lookup_delete_ne|intros l' w'; by rewrite lookup_delete_eq]. }
  apply (rel_level s1 (a <| a_pending := delete id (a_pending a) |>) i d (a_now a) l s' Hr1 Hd Hs').
  intros id' Hid'. destruct (re_dom _ _ Hr id' i Hid') as (d2 & _ & Hd2 & Hid2 & _). assert (id' = id) as -> by congruence. cbn. by rewrite lookup_delete_eq.
Qed.

Lemma dvfs_op_matches o s a : rel s a -> legal o a -> matches (run_op o s) (s_op o a).
Proof.
  intros Hr Hl. destruct (re_now _ _ Hr) as [En Hnow]. pose proof (dr_doms _ _ (re_doms _ _ Hr)) as Hok. destruct o as [id lv|id|i path m cy|i path|i path div|t].
  - by apply request_matches.
  - by apply fire_matches.
  - cbn [run_op s_op]. rewrite En. apply on_matches; [done|intros p t ? ? _; by apply edge_match|]. apply fits_result; [done|]. intros; by eapply edge_fits.
  - cbn [run_op s_op]. apply on_matches; [done|intros p t ? ? _; by apply join_match|]. apply fits_result; [done|]. intros; by eapply join_fits.
  - cbn [run_op s_op]. apply on_matches; [done|intros p t ? ? ?; by apply derive_match|]. intros d r t' Hd E. cbn [legal s_op] in Hl. unfold s_on in Hl.
    rewrite (proj2 (pget_ok _ _ _) Hd) in Hl. cbn [mbind outcome_bind] in Hl. rewrite E in Hl. specialize (Hl r _ eq_refl).
    apply (Forall_lookup_1 _ _ i _ Hl). apply list_lookup_insert_eq. by apply lookup_lt_Some in Hd.
  - cbn [run_op s_op matches]. split; [done|]. destruct Hl as [Ht Hp]. destruct Hr as [? ? ? ? ? ? Hpe]. split; try done; [cbn; lia|].
    intros id l w Hw. destruct (Hpe id l w Hw) as (i & d & ? & ? & ? & ? & _). exists i, d. split_and!; try done; try lia. apply (Hp id (l, w) Hw).
Qed.

Lemma dvfs_ops_match os : forall s a, rel s a -> legal_ops os a -> matches (run_ops os s) (s_ops os a).
Proof.
  induction os as [|o os IH]; intros s a Hr Hl; [done|]. destruct Hl as [Ho Hos]. cbn [run_ops s_ops]. pose proof (dvfs_op_matches o s a Hr Ho) as Hm.
  destruct (run_op o s) as [[r s1]|e], (s_op o a) as [[r' a1]|e'] eqn:Es; try done. destruct Hm as [-> Hr1]. cbn [mbind outcome_bind].
  specialize (IH s1 a1 Hr1 (Hos r' a1 eq_refl)). destruct (run_ops os s1) as [[rs s2]|e], (s_ops os a1) as [[rs' a2]|e']; try done. by destruct IH as [-> ?].
Qed.

(** ** Construction and start *)

Record params_ok (c : SrcParams) : Prop := {
  pk_clock : Forall (fun p => 0 < p < 2 ^ 62) (p_clock c);
  pk_level : 0 <= p_init_perf_level c;
  pk_width : Z.of_nat (length (p_clock c)) < 2 ^ 32;
}.

Definition new_dom (c : SrcParams) : dom := MkDom (p_clock c) (p_domain_id c) (p_voltage_domain c) (p_init_perf_level c) (Node [] []).

(** The handler knows the domains [ids] by their identifiers. *)
Definition known (ds : list dom) (m : gmap Z nat) (i : nat) : gmap Z nat :=
  match ds !! i with Some d => <[s32 (a_id d) := i]> m | None => m end.

Definition s_boot (cs : list SrcParams) (ids : list nat) (enable : bool) (latency : Z) : spec :=
  MkSpec (new_dom <$> cs) (foldl (known (new_dom <$> cs)) ∅ ids) ∅ enable latency 0.

(** Before the start: the voltage domains are still at level 0. *)
Record volt_new (ds : list dom) (j : nat) (v : VoltageDomain) : Prop := {
  vn_children : srcClockChildren v = children_of j ds;
  vn_level : v_perfLevel v = 0;
  vn_some : 1 <= numVoltages v;
  vn_points d : d ∈ ds -> a_vdom d = j -> numVoltages v = 1 \/ numVoltages v = Z.of_nat (length (a_freq d));
}.

Record made (s : Domains) (ds : list dom) : Prop := {
  ma_clocks : clocks s = concrete <$> ds;
  ma_doms : Forall dom_ok ds;
  ma_volts j v : voltages s !! j = Some v -> volt_new ds j v;
  ma_vdom d : d ∈ ds -> (a_vdom d < length (voltages s))%nat;
}.

Lemma new_voltages_made vs : forall s s', made s [] -> new_voltages vs s = Ok s' -> made s' [].
Proof.
  induction vs as [|v vs IH]; intros s s' Hm E; [by injection E as <-|]. cbn [new_voltages] in E. apply bind_ok in E as ([n s1] & E1 & E). apply (IH s1 s'); [|done].
  unfold VoltageDomain_new in E1. apply bind_ok in E1 as (_ & Hne%ensure_ok & E1). apply bind_ok in E1 as (_ & _ & E1). injection E1 as <- <-.
  destruct Hm as [Hc Hd Hv Hvd]. split; try done; cbn; [|intros d Hd'; by apply elem_of_nil in Hd'].
  intros j w Hw. apply lookup_app_Some in Hw as [Hw|[_ Hw]]; [by apply Hv|]. apply list_lookup_singleton_Some in Hw as [_ <-].
  split; [done|done| |intros d Hd'; by apply elem_of_nil in Hd']. apply negb_true_iff, bool_decide_eq_false in Hne. unfold numVoltages. cbn. destruct v; [done|]. cbn. lia.
Qed.

Lemma children_app ds d j : children_of j (ds ++ [d]) = children_of j ds ++ (if decide (a_vdom d = j) then [length ds] else []).
Proof.
  unfold children_of. rewrite length_app, seq_app, filter_app. cbn [length seq Nat.add]. f_equal.
  - assert (forall l : list nat, (forall i, i ∈ l -> (i < length ds)%nat) -> filter (fun i => a_vdom <$> (ds ++ [d]) !! i = Some j) l = filter (fun i => a_vdom <$> ds !! i = Some j) l) as H.
    { induction l as [|i l IH]; intros Hl; [done|]. rewrite !filter_cons. rewrite lookup_app_l by (apply Hl; left). rewrite IH by (intros k Hk; apply Hl; by right). done. }
    apply H. intros i Hi%elem_of_seq. lia.
  - destruct (decide (a_vdom d = j)) as [Hj|Hj].
    + rewrite filter_cons_True; [done|]. rewrite list_lookup_middle by done. cbn. by rewrite Hj.
    + rewrite filter_cons_False; [done|]. rewrite list_lookup_middle by done. cbn. congruence.
Qed.

Lemma pupd_some {A} (f : A -> A) (v : list A) p x : v !! p = Some x -> pupd f v p = Ok (<[p := f x]> v).
Proof. intros Hp. unfold pupd. by rewrite (proj2 (pget_ok _ _ _) Hp). Qed.

Lemma new_clock_made c s ds n s' : params_ok c -> made s ds ->
  SrcClockDomain_new 0 (p_clock c) (p_domain_id c) (p_init_perf_level c) (p_voltage_domain c) s = Ok (n, s') -> made s' (ds ++ [new_dom c]).
Proof.
  intros [Hck Hl Hw] [Hc Hd Hv Hvd] E. unfold SrcClockDomain_new in E.
  apply bind_ok in E as (_ & _ & E). apply bind_ok in E as (v & Ev%pget_ok & E). apply bind_ok in E as (_ & Hpts%ensure_ok & E).
  apply bind_ok in E as (_ & _ & E). apply bind_ok in E as (_ & Hlt%ensure_ok & E). apply bind_ok in E as (p & Ep%vget_ok & E).
  destruct Ep as [_ Ep]. pose proof (Forall_lookup_1 _ _ _ _ Hck Ep) as Hp. cbv beta in Hp.
  unfold clockPeriod in E. rewrite (proj2 (Z.eqb_neq p 0)) in E by lia. cbn [negb ensure mbind outcome_bind traverse] in E.
  rewrite (pupd_some _ _ _ _ Ev) in E. cbn [mbind outcome_bind] in E. injection E as <- <-.
  pose proof (lookup_lt_Some _ _ _ Ev) as Hvl.
  assert (p_init_perf_level c < Z.of_nat (length (p_clock c))) as Hlv by (apply negb_true_iff in Hlt; lia).
  assert (a_period (new_dom c) = p) as Eper by (by apply nth_lookup_Some).
  split; cbn.
  - rewrite fmap_app, Hc. cbn. unfold concrete. rewrite Eper. done.
  - apply Forall_app. split; [done|]. constructor; [|done]. split; [|cbn; lia|done]. exists (2 ^ 62 - 1). split; [|constructor; [lia|done|done]].
    apply (Forall_impl _ _ _ Hck). intros q Hq. cbv beta in Hq. lia.
  - intros j w Hw'. apply list_lookup_insert_Some in Hw' as [(<- & <- & _)|[Hne Hw']].
    + destruct (Hv _ _ Ev) as [Hch Hlev Hso Hpt]. split; [|done|done|].
      * cbn. rewrite children_app, Hch, decide_True by done. by rewrite Hc, length_fmap.
      * intros d Hin Hdv. apply elem_of_app in Hin as [Hin|Hin%list_elem_of_singleton]; [by apply Hpt|]. subst d.
        change (numVoltages (registerSrcClockDom (length (clocks s)) v)) with (numVoltages v).
        cbn. destruct (Z.ltb_spec 1 (numVoltages v)); cbn in Hpts; [right; apply negb_true_iff, negb_false_iff in Hpts; lia|].
        left. lia.
    + destruct (Hv _ _ Hw') as [Hch Hlev Hso Hpt]. split; [|done|done|].
      * rewrite children_app, decide_False, app_nil_r by (cbn; congruence). done.
      * intros d Hin Hdv. apply elem_of_app in Hin as [Hin|Hin%list_elem_of_singleton]; [by apply Hpt|]. subst d. cbn in Hdv. congruence.
  - intros d Hin. rewrite length_insert. apply elem_of_app in Hin as [Hin|Hin%list_elem_of_singleton]; [by apply Hvd|by subst d].
Qed.

Lemma new_clocks_made cs : forall s ds s', Forall params_ok cs -> made s ds -> new_clocks cs s = Ok s' -> made s' (ds ++ (new_dom <$> cs)).
Proof.
  induction cs as [|c cs IH]; intros s ds s' Hcs Hm E; [injection E as <-; by rewrite app_nil_r|]. apply Forall_cons in Hcs as [Hc Hcs].
  cbn [new_clocks] in E. apply bind_ok in E as ([n s1] & E1 & E). apply (new_clock_made c s ds n s1 Hc Hm) in E1.
  apply (IH _ _ _ Hcs E1) in E. by rewrite <- app_assoc in E.
Qed.

(** The handler after it has been told of some domains. *)
Record handler_ok (ds : list dom) (m : gmap Z nat) (h : DVFSHandler) : Prop := {
  hk_domains : domains h = m;
  hk_known id i : m !! id = Some i -> exists d e, ds !! i = Some d /\ s32 (a_id d) = id /\ updatePerfLevelEvents h !! id = Some e /\ domainIDToSet e = id;
  hk_idle id e : updatePerfLevelEvents h !! id = Some e -> scheduled e = None;
}.

Lemma add_domain_ok s ds m h i h' : made s ds -> handler_ok ds m h -> add_domain s i h = Ok h' ->
  handler_ok ds (known ds m i) h' /\ enableHandler h' = enableHandler h /\ _transLatency h' = _transLatency h.
Proof.
  intros Hm [Hd Hk Hi] E. unfold add_domain in E. apply bind_ok in E as (x & Ex%pget_ok & E). rewrite (ma_clocks _ _ Hm), list_lookup_fmap in Ex.
  destruct (ds !! i) as [d|] eqn:Ed; [|done]. injection Ex as <-. change (_domainID (concrete d)) with (a_id d) in E.
  apply bind_ok in E as (_ & _ & E). apply bind_ok in E as (_ & _ & E). apply bind_ok in E as (_ & _ & E). injection E as <-.
  split; [|done]. unfold known. rewrite Ed. split; cbn; [by rewrite Hd| |].
  - intros id k. destruct (decide (id = s32 (a_id d))) as [->|Hne].
    + rewrite lookup_insert_eq. intros [= <-]. eexists d, _. rewrite lookup_insert_eq. done.
    + rewrite !lookup_insert_ne by done. apply Hk.
  - intros id e [[<- <-]|[_ He]]%lookup_insert_Some; [|by apply (Hi id)]. cbn. unfold event_of. destruct (updatePerfLevelEvents h !! _) as [e|] eqn:Ee; [by apply (Hi _ _ Ee)|done].
Qed.

Lemma add_domains_ok s ds l : forall m h h', made s ds -> handler_ok ds m h -> add_domains s l h = Ok h' ->
  handler_ok ds (foldl (known ds) m l) h' /\ enableHandler h' = enableHandler h /\ _transLatency h' = _transLatency h.
Proof.
  induction l as [|i l IH]; intros m h h' Hm Hh E; [by injection E as <-|]. cbn [add_domains] in E. apply bind_ok in E as (h1 & E1 & E).
  destruct (add_domain_ok s ds m h i h1 Hm Hh E1) as (H1 & <- & <-). by apply (IH (known ds m i)).
Qed.

(** The start brings each voltage domain to the level of its fastest clock domain. *)
Definition started (ds : list dom) (l : list nat) (s : Domains) : Prop :=
  forall j v, voltages s !! j = Some v -> srcClockChildren v = children_of j ds /\ 1 <= numVoltages v /\
    (forall d, d ∈ ds -> a_vdom d = j -> numVoltages v = 1 \/ numVoltages v = Z.of_nat (length (a_freq d))) /\
    v_perfLevel v = (if numVoltages v =? 1 then 0 else if decide (j ∈ l) then fastest j ds else 0).

Lemma startup_voltage_started ds l j s s' : shape (clocks s) ds -> started ds l s -> startup_voltage j s = Ok s' ->
  clocks s' = clocks s /\ length (voltages s') = length (voltages s) /\ started ds (j :: l) s'.
Proof.
  intros Hsh Hst E. unfold startup_voltage in E. apply bind_ok in E as ([b s1] & E1 & E). injection E as ->. unfold sanitiseVoltages in E1.
  apply bind_ok in E1 as (v & Ev%pget_ok & E1). destruct (Hst j v Ev) as (Hch & Hge & Hpt & Hlv).
  assert (forall k, (if decide (k ∈ j :: l) then fastest k ds else 0) = (if decide (k = j) then fastest k ds else if decide (k ∈ l) then fastest k ds else 0)) as Hin.
  { intros k. destruct (decide (k = j)) as [->|]; [by rewrite decide_True by left|]. destruct (decide (k ∈ l)); [by rewrite decide_True by (by right)|].
    rewrite decide_False; [done|]. by intros [?|?]%elem_of_cons. }
  assert (started ds (j :: l) (s <| voltages ::= <[j := v <| v_perfLevel := if numVoltages v =? 1 then 0 else fastest j ds |>]> |>)) as Hgoal.
  { intros k w Hw. cbn in Hw. rewrite Hin. apply list_lookup_insert_Some in Hw as [(<- & <- & _)|[Hne Hw]].
    - rewrite (decide_True (P := j = j)) by done. split_and!; try done.
    - rewrite decide_False by done. by apply Hst. }
  assert (v <| v_perfLevel := v_perfLevel v |> = v) as Hid by (by destruct v).
  assert (s <| voltages ::= <[j := v]> |> = s) as Hsid by (destruct s; cbn in *; by rewrite list_insert_id).
  destruct (Z.eqb_spec (numVoltages v) 1) as [E2|E2].
  { injection E1 as _ <-. rewrite <- Hlv, Hid, Hsid in Hgoal. done. }
  rewrite (max_level_ok _ ds j Hsh) in E1 by (rewrite Hch; by intros k [? _]%list_elem_of_filter). rewrite Hch in E1. fold (levels j ds) in E1.
  change (u32 (-1)) with (2 ^ 32 - 1) in E1. fold (fastest j ds) in E1. cbn [mbind outcome_bind] in E1.
  destruct (Z.eqb_spec (fastest j ds) (v_perfLevel v)) as [E3|E3]; cbn [negb] in E1.
  - injection E1 as _ <-. rewrite E3, Hid, Hsid in Hgoal. done.
  - unfold set_v_perfLevel in E1. rewrite (proj2 (Z.eqb_neq _ _) E3) in E1. destruct (_ <? _); [|done]. injection E1 as _ <-. split; [done|]. split; [|done]. cbn. apply length_insert.
Qed.

Lemma startups_started ds l : forall done s s', shape (clocks s) ds -> started ds done s -> startups startup_voltage l s = Ok s' ->
  clocks s' = clocks s /\ length (voltages s') = length (voltages s) /\ started ds (rev l ++ done) s'.
Proof.
  induction l as [|j l IH]; intros done s s' Hsh Hst E; [by injection E as <-|]. cbn [startups] in E. apply bind_ok in E as (s1 & E1 & E).
  destruct (startup_voltage_started ds done j s s1 Hsh Hst E1) as (Hc & Hl & H1). rewrite <- Hc in Hsh. destruct (IH _ _ _ Hsh H1 E) as (Hc' & Hl' & H2).
  split; [congruence|]. split; [congruence|]. cbn. by rewrite <- app_assoc.
Qed.

(** The start of a clock domain sets the level it has, which changes nothing. *)
Lemma startup_clock_id t i s s' : startup_clock t i s = Ok s' -> s' = s.
Proof.
  intros E. unfold startup_clock in E. apply bind_ok in E as (d & Ed & E). unfold perfLevel in E. rewrite Ed in E. cbn [mbind outcome_bind] in E.
  apply bind_ok in E as (_ & _ & E). rewrite Z.eqb_refl in E. by injection E.
Qed.

Lemma startups_clock_id t l : forall s s', startups (startup_clock t) l s = Ok s' -> s' = s.
Proof.
  induction l as [|i l IH]; intros s s' E; [by injection E|]. cbn [startups] in E. apply bind_ok in E as (s1 & <-%startup_clock_id & E). by apply IH.
Qed.

Lemma boot_rel vs cs sys ids enable lat s : Forall params_ok cs -> 0 <= lat < 2 ^ 62 -> boot vs cs sys ids enable lat = Ok s -> rel s (s_boot cs ids enable lat).
Proof.
  intros Hcs Hlat E. unfold boot in E. apply bind_ok in E as (s1 & E1 & E). apply bind_ok in E as (s2 & E2 & E). apply bind_ok in E as (h & Eh & E).
  apply bind_ok in E as (s3 & E3 & E). apply bind_ok in E as (s4 & <-%startups_clock_id & E). injection E as <-.
  assert (made s1 []) as Hm1.
  { apply (new_voltages_made vs _ _) in E1; [done|]. split; [done|done|done|]. intros d Hd. by apply elem_of_nil in Hd. }
  pose proof (new_clocks_made cs s1 [] s2 Hcs Hm1 E2) as Hm. cbn [app] in Hm. set (ds := new_dom <$> cs) in *. pose proof Hm as [Hc Hd Hv Hvd].
  unfold DVFSHandler_new in Eh. assert (handler_ok ds ∅ (MkHandler ∅ [] sys enable lat ∅)) as Hh0.
  { split; [done|intros id i Hi; by rewrite lookup_empty in Hi|intros id e He; cbn in He; by rewrite lookup_empty in He]. }
  destruct (add_domains_ok s2 ds ids ∅ _ h Hm Hh0 Eh) as ([Hhd Hhk Hhi] & Hen & Hla).
  assert (shape (clocks s2) ds) as Hsh by (intros i d Hi; exists (concrete d); by rewrite Hc, list_lookup_fmap, Hi).
  assert (started ds [] s2) as Hst.
  { intros j v Hj. destruct (Hv j v Hj) as [Hch Hlv Hge Hpt]. split_and!; try done. rewrite Hlv. destruct (_ =? _); [done|]. rewrite decide_False; [done|]. apply not_elem_of_nil. }
  destruct (startups_started ds _ _ _ _ Hsh Hst E3) as (Ec & El & Hst3). rewrite app_nil_r in Hst3.
  split; cbn [doms handler now s_boot a_doms a_ids a_pending a_enabled a_latency a_now]; fold ds; try done; try lia.
  - split; [congruence|done| |intros d Hin; rewrite El; by apply Hvd]. intros j v Hj. destruct (Hst3 j v Hj) as (Hch & _ & Hpt & Hlv).
    split; [done| |done]. rewrite Hlv. destruct (_ =? _); [done|]. rewrite decide_True; [done|]. apply list_elem_of_In, in_rev. rewrite rev_involutive. apply list_elem_of_In, elem_of_seq.
    apply lookup_lt_Some in Hj. lia.
  - intros id i Hi. destruct (Hhk id i Hi) as (d & e & H1 & H2 & H3 & H4). exists d, e. split_and!; try done. rewrite lookup_empty. by rewrite (Hhi id e H3).
Qed.

(** C11: dynamic voltage and frequency scaling does what the software asks: after any
    construction and start of a system of clock and voltage domains, any requests,
    update events, clock queries and new objects and derived domains have the results
    of the specification, in which a request replaces the pending one or cancels it, a
    domain changes its level only at the tick of its event, clocks keep the edge they
    have reached and go on from it with the new period, and derived periods are products of the
    dividers; in particular the update event never finds its level already set, and at
    the end every voltage domain of several points is at the level of its fastest clock
    domain. *)
Theorem dvfs_follows_requests vs cs sys ids enable lat s os :
  Forall params_ok cs -> 0 <= lat < 2 ^ 62 -> boot vs cs sys ids enable lat = Ok s -> legal_ops os (s_boot cs ids enable lat) ->
  match run_ops os s, s_ops os (s_boot cs ids enable lat) with
  | Ok (rs, s'), Ok (rs', a) => rs = rs' /\ clocks (doms s') = concrete <$> a_doms a /\
      forall j v, voltages (doms s') !! j = Some v -> v_perfLevel v = if numVoltages v =? 1 then 0 else fastest j (a_doms a)
  | Fail e, Fail e' => e = e'
  | _, _ => False
  end.
Proof.
  intros Hcs Hlat E Hl. pose proof (dvfs_ops_match os _ _ (boot_rel vs cs sys ids enable lat s Hcs Hlat E) Hl) as Hm.
  destruct (run_ops os s) as [[rs s']|e], (s_ops os _) as [[rs' a]|e']; try done. destruct Hm as [-> Hr]. pose proof (re_doms _ _ Hr) as Hd.
  split; [done|]. split; [apply Hd|]. intros j v Hj. apply (vo_level _ _ _ (dr_volts _ _ Hd j v Hj)).
Qed.

(** *** A decision procedure for possible histories *)

Fixpoint fitsb (M : Z) (t : tree) : bool :=
  let 'Node ms cs := t in
  (M <? 2 ^ 62) && forallb (fun c => (0 <=? tick c) && (tick c <? 2 ^ 63)) ms && forallb (fun c => (1 <=? c.1) && fitsb (M * c.1) c.2) cs.

Lemma fitsb_ok t : forall M, fitsb M t = true -> fits M t.
Proof.
  induction t as [ms cs IH] using tree_rec_ind. intros M E. cbn [fitsb] in E. apply andb_true_iff in E as [[HM%Z.ltb_lt Hms]%andb_true_iff Hcs].
  rewrite forallb_forall in Hms, Hcs. rewrite Forall_forall in IH. constructor; [done| |]; apply Forall_forall; intros c Hc.
  - specialize (Hms c ltac:(by apply list_elem_of_In)). unfold clock_ok. lia.
  - specialize (Hcs c ltac:(by apply list_elem_of_In)). apply andb_true_iff in Hcs as [H1%Z.leb_le H2]. split; [done|]. by apply IH.
Qed.

Definition dom_fitsb (d : dom) : bool :=
  let M := foldr Z.max 1 (a_freq d) in forallb (fun p => (0 <? p) && (p <=? M)) (a_freq d) && fitsb M (a_tree d).

Lemma dom_fitsb_ok d : dom_fitsb d = true -> dom_fits d.
Proof.
  intros [H1 H2%fitsb_ok]%andb_true_iff. eexists. split; [|exact H2]. rewrite forallb_forall in H1. apply Forall_forall. intros p Hp.
  specialize (H1 p ltac:(by apply list_elem_of_In)). lia.
Qed.

Definition legalb (o : op) (a : spec) : bool :=
  match o with
  | Request _ level => 0 <=? level
  | Fire id => match a_pending a !! id with Some (_, w) => w =? a_now a | None => false end
  | Derive _ _ _ => match s_op o a with Ok (_, a') => forallb dom_fitsb (a_doms a') | Fail _ => true end
  | Advance t => (a_now a <=? t) && (t <? 2 ^ 62) && bool_decide (map_Forall (fun _ p => t <= p.2) (a_pending a))
  | _ => true
  end.

Fixpoint legal_opsb (os : list op) (a : spec) : bool :=
  match os with
  | [] => true
  | o :: os => legalb o a && match s_op o a with Ok (_, a') => legal_opsb os a' | Fail _ => true end
  end.

Lemma legalb_ok o a : legalb o a = true -> legal o a.
Proof.
  destruct o; cbn [legalb legal]; intros E; try done.
  - by apply Z.leb_le.
  - destruct (a_pending a !! domain_id) as [[l w]|]; [|done]. apply Z.eqb_eq in E as ->. by exists l.
  - intros r a' Es. rewrite Es, forallb_forall in E. apply Forall_forall. intros d Hd. apply dom_fitsb_ok, E. by apply list_elem_of_In.
  - apply andb_true_iff in E as [E1 E2%bool_decide_eq_true]. split; [lia|done].
Qed.

Lemma legal_opsb_ok os : forall a, legal_opsb os a = true -> legal_ops os a.
Proof.
  induction os as [|o os IH]; intros a; [done|]. intros [H1%legalb_ok H2]%andb_true_iff. split; [done|]. intros r a' E. rewrite E in H2. by apply IH.
Qed.

(** A system clock, and two domains of one voltage domain of two points; the second
    has a derived domain with an object. *)
Definition example_clocks : list SrcParams := [MkSrcParams [1000] (-1) 0 1; MkSrcParams [10; 20] 3 0 0; MkSrcParams [8; 50] 4 1 0].
Definition example_ops : list op :=
  [Derive 2 [] 2; Join 2 [0%nat]; Request 3 1; Request 4 0; Advance 30; Edge 2 [0%nat] 0 1; Advance 100; Fire 3; Fire 4; Edge 2 [0%nat] 0 1;
   Advance 101; Edge 2 [0%nat] 0 0].

Lemma example_params : Forall params_ok example_clocks.
Proof. repeat constructor; cbn; lia. Qed.

Lemma dvfs_follows_requests_witness : exists s rs s', boot [[12; 9]; [7]] example_clocks 0 [1; 2]%nat true 100 = Ok s /\
  run_ops example_ops s = Ok (rs, s') /\ rs = [0; 0; 1; 1; 0; 200; 0; 0; 0; 116; 0; 116] /\
  forall v, voltages (doms s') !! 0%nat = Some v -> v_perfLevel v = 0.
Proof.
  destruct (boot [[12; 9]; [7]] example_clocks 0 [1; 2]%nat true 100) as [s|e] eqn:E; [|by vm_compute in E]. exists s.
  assert (match s_ops example_ops (s_boot example_clocks [1; 2]%nat true 100) with
    | Ok (rs, a) => rs = [0; 0; 1; 1; 0; 200; 0; 0; 0; 116; 0; 116] /\ fastest 0 (a_doms a) = 0
    | Fail _ => False
    end) as Hs by (vm_compute; done).
  pose proof (dvfs_follows_requests [[12; 9]; [7]] example_clocks 0 [1; 2]%nat true 100 s example_ops example_params ltac:(lia) E
    ltac:(apply legal_opsb_ok; vm_compute; reflexivity)) as H.
  destruct (s_ops example_ops _) as [[rs' a]|e]; [|done]. destruct Hs as [-> Hf].
  destruct (run_ops example_ops s) as [[rs s']|e]; [|done]. destruct H as (-> & _ & Hv). exists [0; 0; 1; 1; 0; 200; 0; 0; 0; 116; 0; 116], s'.
  split_and!; try done. intros v Hj. rewrite (Hv _ _ Hj), Hf. by destruct (_ =? _).
Defined.

(** C33: a restored performance level does not reach the clock: when a checkpoint sets the
    level of a domain and the domain is then started, which should bring the clock to
    that level, the domain has the level and the clock still has the period of the level
    it was constructed with, because setting a level that is already recorded is
    ignored. *)
Theorem restored_level_keeps_old_period vs cs sys ids enable lat s i d l t :
  Forall params_ok cs -> 0 <= lat < 2 ^ 62 -> boot vs cs sys ids enable lat = Ok s -> (new_dom <$> cs) !! i = Some d ->
  0 <= l < Z.of_nat (length (a_freq d)) ->
  exists s1 x, unserialize_clock l i (doms s) = Ok s1 /\ startup_clock t i s1 = Ok s1 /\ clocks s1 !! i = Some x /\
    _perfLevel x = l /\ vget (freqOpPoints x) (a_level d) = Ok (_clockPeriod (base x)).
Proof.
  intros Hcs Hlat E Hi Hl. pose proof (re_doms _ _ (boot_rel vs cs sys ids enable lat s Hcs Hlat E)) as Hd. destruct (drel_dom _ _ i d Hd Hi) as [Hok Eg%pget_ok].
  pose proof (lookup_lt_Some _ _ _ Eg) as Hlt. unfold unserialize_clock. rewrite (pupd_some _ _ _ _ Eg). cbn [mbind outcome_bind].
  eexists _, _. split; [done|]. cbn [clocks]. set (s1 := (doms s) <| clocks := _ |>).
  assert (clocks s1 !! i = Some ((concrete d) <| _perfLevel := l |>)) as E1 by (by apply list_lookup_insert_eq).
  split_and!; [|exact E1|done|].
  - unfold startup_clock. rewrite (proj2 (pget_ok _ _ _) E1). cbn [mbind outcome_bind]. unfold perfLevel. rewrite (proj2 (pget_ok _ _ _) E1). cbn [mbind outcome_bind].
    unfold validPerfLevel, numPerfLevels. cbn. rewrite (proj2 (Z.ltb_lt _ _)) by lia. cbn. by rewrite Z.eqb_refl.
  - apply vget_ok. split; [apply Hok|]. cbn. rewrite (period_in d Hok). by destruct (a_tree d).
Qed.

Lemma restored_level_keeps_old_period_witness : exists s, boot [[12; 9]; [7]] example_clocks 0 [1; 2]%nat true 100 = Ok s /\
  exists s1 x, unserialize_clock 1 1 (doms s) = Ok s1 /\ startup_clock 500 1 s1 = Ok s1 /\ clocks s1 !! 1%nat = Some x /\
    _perfLevel x = 1 /\ vget (freqOpPoints x) 0 = Ok (_clockPeriod (base x)).
Proof.
  destruct (boot [[12; 9]; [7]] example_clocks 0 [1; 2]%nat true 100) as [s|e] eqn:E; [|by vm_compute in E]. exists s. split; [done|].
  apply (restored_level_keeps_old_period [[12; 9]; [7]] example_clocks 0 [1; 2]%nat true 100 s 1 (new_dom (MkSrcParams [10; 20] 3 0 0)) 1 500 example_params ltac:(lia) E);
    [reflexivity|cbn; lia].
Defined.
End DVFS.
