(* ===== verification/AddrRange.v ===== *)
(** Address ranges, plain and interleaved, and the map from ranges to values
    that routes addresses: [base/addr_range.hh] and
    [base/addr_range_map.hh]. *)

From Stdlib Require Import Sorting.Sorted.
From S2P Require Import Prelude IntMath.
Local Open Scope Z_scope.

Module AddrRange.

Record AddrRange := MkAddrRange {
  _start : Z;
  _end : Z;
  intlvHighBit : Z;
  xorHighBit : Z;
  intlvBits : Z;
  intlvMatch : Z;
}.
#[global] Instance eta_AddrRange : Eta AddrRange := fun r =>
  MkAddrRange (_start r) (_end r) (intlvHighBit r) (xorHighBit r) (intlvBits r) (intlvMatch r).

#[global] Instance AddrRange_eq_dec : EqDecision AddrRange.
Proof. solve_decision. Defined.

Definition AddrRange0 : AddrRange := MkAddrRange 1 0 0 0 0 0.

(** [intlvMatch >= ULL(1) << intlvBits] shifts by less than 64 bits. *)
Definition AddrRange_intlv (start end' intlv_high_bit xor_high_bit intlv_bits intlv_match : Z)
  : outcome AddrRange :=
  let r := MkAddrRange start end' intlv_high_bit xor_high_bit intlv_bits intlv_match in
  _ ← ensure FatalError (negb (negb (intlvBits r =? 0)
        && (intlvMatch r >=? u64 (Z.shiftl 1 (intlvBits r)))));
  if negb (intlvBits r =? 0) && negb (xorHighBit r =? 0) then
    if xorHighBit r =? intlvHighBit r then Fail FatalError
    else if xorHighBit r >? intlvHighBit r then
      _ ← ensure FatalError (negb (xorHighBit r - intlvHighBit r <? intlvBits r)); Ok r
    else
      _ ← ensure FatalError (negb (intlvHighBit r - xorHighBit r <? intlvBits r)); Ok r
  else Ok r.

Definition AddrRange_plain (start end' : Z) : AddrRange := MkAddrRange start end' 0 0 0 0.

Definition interleaved (r : AddrRange) : bool := negb (intlvBits r =? 0).
Definition hashed (r : AddrRange) : bool := interleaved r && negb (xorHighBit r =? 0).
Definition granularity (r : AddrRange) : Z :=
  u64 (Z.shiftl 1 (intlvHighBit r - intlvBits r + 1)).
Definition stripes (r : AddrRange) : Z := u32 (Z.shiftl 1 (intlvBits r)).
Definition size (r : AddrRange) : Z := Z.shiftr (u64 (_end r - _start r + 1)) (intlvBits r).
Definition valid (r : AddrRange) : bool := _start r <=? _end r.

Definition mergesWith (t r : AddrRange) : bool :=
  (_start r =? _start t) && (_end r =? _end t) && (intlvHighBit r =? intlvHighBit t)
  && (xorHighBit r =? xorHighBit t) && (intlvBits r =? intlvBits t).

(** The address bits that select the stripe. *)
Definition selector (t : AddrRange) (a : Z) : Z :=
  if negb (hashed t)
  then BitField.bits a (intlvHighBit t) (intlvHighBit t - intlvBits t + 1)
  else Z.lxor (BitField.bits a (intlvHighBit t) (intlvHighBit t - intlvBits t + 1))
              (BitField.bits a (xorHighBit t) (xorHighBit t - intlvBits t + 1)).

Definition contains (t : AddrRange) (a : Z) : bool :=
  let in_range := (a >=? _start t) && (a <=? _end t) in
  if negb (interleaved t) then in_range
  else if in_range then selector t a =? intlvMatch t
  else false.

Definition intersects (t r : AddrRange) : outcome bool :=
  if (_start t >? _end r) || (_end t <? _start r) then Ok false
  else if negb (interleaved t) && negb (interleaved r) then Ok true
  else if size r =? 1 then Ok (contains t (_start r))
  else if mergesWith t r then Ok (intlvMatch t =? intlvMatch r)
  else Fail PanicError.

Definition isSubset (t r : AddrRange) : outcome bool :=
  if interleaved t then Fail PanicError
  else Ok ((_start t >=? _start r) && (_end t <=? _end r)).

Definition lt (t r : AddrRange) : bool :=
  if negb (_start t =? _start r) then _start t <? _start r
  else intlvMatch t <? intlvMatch r.

Definition eq (t r : AddrRange) : bool :=
  (_start t =? _start r) && (_end t =? _end r) && (intlvBits t =? intlvBits r)
  && ((intlvBits t =? 0)
      || ((intlvHighBit t =? intlvHighBit r) && (intlvMatch t =? intlvMatch r))).

Definition RangeEx (start end' : Z) : AddrRange := AddrRange_plain start (u64 (end' - 1)).
Definition RangeIn (start end' : Z) : AddrRange := AddrRange_plain start end'.
Definition RangeSize (start size : Z) : AddrRange := AddrRange_plain start (u64 (start + size - 1)).

(** The constructor that merges interleaved ranges; [match'] counts modulo 256. *)
Fixpoint merge_loop (t : AddrRange) (match' : Z) (ranges : list AddrRange) : outcome unit :=
  match ranges with
  | [] => Ok tt
  | r :: ranges =>
      _ ← ensure FatalError (mergesWith t r);
      _ ← ensure FatalError (intlvMatch r =? match');
      merge_loop t (u8 (match' + 1)) ranges
  end.
Definition AddrRange_merge (ranges : list AddrRange) : outcome AddrRange :=
  match ranges with
  | [] => Ok AddrRange0
  | f :: _ =>
      let t := f <| intlvMatch := 0 |> in
      _ ← ensure FatalError (Z.of_nat (length ranges) =? u64 (Z.shiftl 1 (intlvBits t)));
      _ ← merge_loop t 0 ranges;
      Ok (t <| intlvHighBit := 0 |> <| xorHighBit := 0 |> <| intlvBits := 0 |>)
  end.

(** ** Interleaving *)

(** The slices of [intlvBits] bits that select the stripe lie in the address. *)
Record slices_ok (t : AddrRange) : Prop := {
  so_bits : 0 < intlvBits t;
  so_high : intlvBits t - 1 <= intlvHighBit t < 64;
  so_xor : xorHighBit t = 0 \/ intlvBits t - 1 <= xorHighBit t < 64;
}.

Lemma bits_range a f n : 0 < n -> n - 1 <= f < 64 -> 0 <= BitField.bits a f (f - n + 1) < 2 ^ n.
Proof.
  intros Hn Hf. rewrite BitField.bits_slice by lia. replace (f - (f - n + 1) + 1) with n by lia.
  apply Z.mod_pos_bound, pow2_pos. lia.
Qed.

Lemma lxor_range n x y : 0 < n -> 0 <= x < 2 ^ n -> 0 <= y < 2 ^ n -> 0 <= Z.lxor x y < 2 ^ n.
Proof.
  intros Hn Hx Hy. assert (0 <= Z.lxor x y) as Hp by (apply Z.lxor_nonneg; lia). split; [done|].
  destruct (Z.eq_dec (Z.lxor x y) 0) as [->|Hne]; [apply pow2_pos; lia|].
  apply Z.log2_lt_pow2; [lia|]. pose proof (Z.log2_lxor x y ltac:(lia) ltac:(lia)) as Hl.
  assert (forall z, 0 <= z < 2 ^ n -> Z.log2 z < n) as Hlog.
  { intros z Hz. destruct (Z.eq_dec z 0) as [->|]; [done|]. apply Z.log2_lt_pow2; lia. }
  pose proof (Hlog x Hx). pose proof (Hlog y Hy). lia.
Qed.

Lemma selector_range t a : slices_ok t -> 0 <= selector t a < 2 ^ intlvBits t.
Proof.
  intros [Hb Hh Hx]. unfold selector, hashed, interleaved.
  pose proof (bits_range a _ _ Hb Hh) as H1. rewrite (proj2 (Z.eqb_neq (intlvBits t) 0)) by lia.
  destruct (Z.eqb_spec (xorHighBit t) 0); cbn [negb andb]; [done|].
  destruct Hx as [|Hx]; [lia|]. pose proof (bits_range a _ _ Hb Hx) as H2.
  apply lxor_range; [lia|split; lia|split; lia].
Qed.

Lemma merge_loop_ok t ranges : forall m,
  0 <= m -> m + Z.of_nat (length ranges) <= 256 -> merge_loop t m ranges = Ok tt ->
  forall i r, ranges !! i = Some r -> mergesWith t r = true /\ intlvMatch r = m + Z.of_nat i.
Proof.
  induction ranges as [|r0 ranges IH]; intros m Hm Hl E i r Hi; [done|]. simpl in *.
  apply bind_ok in E as ([] & E1 & E). apply ensure_ok in E1.
  apply bind_ok in E as ([] & E2 & E). apply ensure_ok, Z.eqb_eq in E2.
  destruct i as [|i]; simpl in Hi; [injection Hi as <-; split; [done|lia]|].
  destruct ranges as [|r1 ranges]; [done|]. simpl in Hl. rewrite uwrap_small in E by (split; simpl; lia).
  destruct (IH (m + 1) ltac:(lia) ltac:(simpl; lia) E i r Hi) as [H1 H2]. split; [done|lia].
Qed.

(** Ranges that merge agree on which stripe an address belongs to. *)
Lemma merges_same t r a :
  mergesWith t r = true ->
  selector r a = selector t a /\ interleaved r = interleaved t /\ _start r = _start t /\ _end r = _end t.
Proof.
  unfold mergesWith. intros H. repeat (apply andb_true_iff in H as [H ?Hx]).
  apply Z.eqb_eq in H, Hx, Hx0, Hx1, Hx2. unfold selector, hashed, interleaved.
  by rewrite H, Hx, Hx0, Hx1, Hx2.
Qed.

(** C29: interleaved ranges that merge partition the merged range: an address
    is in the merged range exactly if it is in one of the ranges, and it is
    then in exactly one of them, the one whose match value its selecting bits
    (hashed or not) give. *)
Theorem interleaving_partitions f ranges t a :
  slices_ok f -> intlvBits f <= 8 -> AddrRange_merge (f :: ranges) = Ok t ->
  interleaved t = false /\
  (contains t a = true <->
     exists i r, (f :: ranges) !! i = Some r /\ contains r a = true /\ Z.of_nat i = selector f a) /\
  (forall i j r r', (f :: ranges) !! i = Some r -> (f :: ranges) !! j = Some r' ->
     contains r a = true -> contains r' a = true -> i = j).
Proof.
  intros Hs Hb E. unfold AddrRange_merge in E. set (f0 := f <| intlvMatch := 0 |>) in E.
  apply bind_ok in E as ([] & El & E). apply ensure_ok, Z.eqb_eq in El.
  apply bind_ok in E as ([] & Em & E). injection E as <-.
  pose proof Hs as [Hb0 _ _]. pose proof (Z.pow_le_mono_r 2 (intlvBits f) 8 ltac:(lia) ltac:(lia)).
  pose proof (pow2_pos (intlvBits f) ltac:(lia)).
  rewrite Z.shiftl_mul_pow2, Z.mul_1_l, uwrap_small in El by (simpl; try split; lia). simpl intlvBits in El.
  pose proof (merge_loop_ok f0 (f :: ranges) 0 ltac:(lia) ltac:(lia) Em) as Hl.
  assert (forall i r, (f :: ranges) !! i = Some r ->
    contains r a = (_start f <=? a) && (a <=? _end f) && (selector f a =? Z.of_nat i)) as Hc.
  { intros i r Hi. destruct (Hl i r Hi) as [Hm Hmatch].
    destruct (merges_same f0 r a Hm) as (H1 & H2 & H3 & H4). unfold contains. rewrite H1, H2, H3, H4, Hmatch.
    change (interleaved f0) with (interleaved f). change (selector f0 a) with (selector f a).
    unfold interleaved. rewrite (proj2 (Z.eqb_neq (intlvBits f) 0)) by lia. simpl. rewrite Z.geb_leb.
    by destruct (_ && _). }
  split; [done|]. split.
  - change (contains _ a) with ((a >=? _start f) && (a <=? _end f)) at 1. rewrite Z.geb_leb. split.
    + intros Hin. pose proof (selector_range f a Hs) as Hr.
      destruct (lookup_lt_is_Some_2 (f :: ranges) (Z.to_nat (selector f a))) as [r Hi]; [lia|].
      exists (Z.to_nat (selector f a)), r. rewrite (Hc _ _ Hi), Hin, Z2Nat.id, Z.eqb_refl by lia. done.
    + intros (i & r & Hi & Hin & _). rewrite (Hc _ _ Hi) in Hin. by apply andb_true_iff in Hin as [? _].
  - intros i j r r' Hi Hj H1 H2. rewrite (Hc _ _ Hi) in H1. rewrite (Hc _ _ Hj) in H2.
    apply andb_true_iff in H1 as [_ H1%Z.eqb_eq]. apply andb_true_iff in H2 as [_ H2%Z.eqb_eq]. lia.
Qed.

Lemma interleaving_partitions_witness :
  let f := MkAddrRange 0 255 7 0 1 0 in
  exists t, AddrRange_merge [f; f <| intlvMatch := 1 |>] = Ok t /\
    exists i r, [f; f <| intlvMatch := 1 |>] !! i = Some r /\ contains r 200 = true /\ i = 1%nat.
Proof.
  intros f. eexists. split; [reflexivity|].
  destruct (interleaving_partitions f [f <| intlvMatch := 1 |>] (MkAddrRange 0 255 0 0 0 0) 200) as (_ & Hc & _).
  - split; vm_compute; intuition congruence.
  - vm_compute. congruence.
  - reflexivity.
  - destruct (proj1 Hc eq_refl) as (i & r & Hi & Hr & Es). exists i, r. split_and!; try done.
    change (selector f 200) with 1 in Es. lia.
Defined.

End AddrRange.

Module AddrRangeMap.
Import AddrRange.

Section map.
Context {V : Type}.

(** The red-black tree as the list of its entries in key order; an iterator is
    an index, the length being [end()]. *)
Definition tree := list (AddrRange * V).

(** [upper_bound(r)]: the first entry whose key is greater than [r]. *)
Fixpoint upper_bound (r : AddrRange) (t : tree) : nat :=
  match t with
  | [] => O
  | (k, _) :: t => if lt r k then O else S (upper_bound r t)
  end.

Definition key (t : tree) (i : nat) : outcome AddrRange :=
  e ← pget t i; Ok (e.1).

(** The loop that steps back through the stripes of one range. *)
Fixpoint back_loop (t : tree) (r orig : AddrRange) (i : nat) : outcome nat :=
  match i with
  | O =>
      k ← key t O;
      hit ← intersects k r;
      Ok (if hit : bool then O else length t)
  | S j =>
      k ← key t (S j);
      if mergesWith k orig then
        k' ← key t j;
        hit ← intersects k' r;
        if hit : bool then Ok j else back_loop t r orig j
      else
        hit ← intersects k r;
        Ok (if hit : bool then S j else length t)
  end.

Definition find (t : tree) (r : AddrRange) : outcome nat :=
  match t with
  | [] => Ok O
  | _ =>
      match upper_bound r t with
      | O =>
          k ← key t O;
          hit ← intersects k r;
          Ok (if hit : bool then O else length t)
      | S i =>
          k ← key t i;
          hit ← intersects k r;
          if hit : bool then Ok i
          else if interleaved k then back_loop t r k i
          else Ok (length t)
      end
  end.

Definition find_addr (t : tree) (a : Z) : outcome nat := find t (RangeSize a 1).

Definition intersect (t : tree) (r : AddrRange) : outcome bool :=
  i ← find t r; Ok (negb (i =? length t)%nat).

(** [std::map::insert]: in key order, and not when the key is there. *)
Fixpoint map_insert (r : AddrRange) (d : V) (t : tree) : tree :=
  match t with
  | [] => [(r, d)]
  | (k, v) :: t' =>
      if lt r k then (r, d) :: t
      else if lt k r then (k, v) :: map_insert r d t'
      else t
  end.

(** The result tells whether the range was accepted. *)
Definition insert (r : AddrRange) (d : V) (t : tree) : outcome (bool * tree) :=
  hit ← intersect t r;
  if hit : bool then Ok (false, t) else Ok (true, map_insert r d t).

Definition erase (i : nat) (t : tree) : tree := delete i t.
Definition clear (t : tree) : tree := [].

(** ** Plain ranges *)

Definition plain (r : AddrRange) : Prop :=
  intlvBits r = 0 /\ intlvMatch r = 0 /\ 0 <= _start r <= _end r /\ _end r < 2 ^ 64.
Definition before (e e' : AddrRange * V) : Prop := _end e.1 < _start e'.1.
Definition disjoint (r r' : AddrRange) : Prop := _end r < _start r' \/ _end r' < _start r.

(** Plain ranges in order, none overlapping another. *)
Definition tree_ok (t : tree) : Prop :=
  Forall (fun e => plain e.1) t /\ StronglySorted before t.

Lemma plain_contains r a : plain r -> contains r a = true <-> _start r <= a <= _end r.
Proof.
  intros (Hb & _). unfold contains, interleaved. rewrite Hb. simpl.
  rewrite Z.geb_leb, andb_true_iff, !Z.leb_le. lia.
Qed.

Lemma plain_lt r k : plain r -> plain k -> lt r k = (_start r <? _start k).
Proof.
  intros (_ & Hr & _) (_ & Hk & _). unfold lt. rewrite Hr, Hk.
  destruct (Z.eqb_spec (_start r) (_start k)) as [->|]; [by rewrite !Z.ltb_irrefl|done].
Qed.

Lemma plain_intersects k r : plain k -> plain r ->
  intersects k r = Ok (negb ((_start k >? _end r) || (_end k <? _start r))).
Proof.
  intros (Hk & _) (Hr & _). unfold intersects, interleaved. rewrite Hk, Hr. by destruct (_ || _).
Qed.

Lemma upper_bound_spec r t : plain r -> tree_ok t ->
  (upper_bound r t <= length t)%nat /\
  forall i e, t !! i = Some e -> (i < upper_bound r t)%nat <-> _start e.1 <= _start r.
Proof.
  intros Hr [Hp Hs]. induction Hs as [|[k v] t Hs IH Hall]; simpl; [split; [lia|done]|].
  inversion Hp as [|? ? Hk Hp']; subst. destruct (IH Hp') as [Hlen Hub]. simpl in Hk.
  rewrite plain_lt by done. destruct (Z.ltb_spec (_start r) (_start k)) as [Hlt|Hge].
  - split; [lia|]. intros i e Hi. split; [lia|]. intros Hle. exfalso.
    destruct i as [|i]; simpl in Hi; [injection Hi as <-; simpl in Hle; lia|].
    rewrite Forall_lookup in Hall. specialize (Hall i e Hi). unfold before in Hall. simpl in Hall.
    destruct Hk as (_ & _ & ? & _). lia.
  - split; [lia|]. intros [|i] e Hi; simpl in Hi.
    + injection Hi as <-. simpl. lia.
    + rewrite <- (Hub i e Hi). lia.
Qed.

(** What [find] returns on plain ranges: the last entry that starts no later,
    or the first one when there is none, if it intersects. *)
Lemma range_find_spec r t : plain r -> tree_ok t -> t <> [] ->
  exists i e, t !! i = Some e /\
    i = pred (upper_bound r t) /\
    find t r = Ok (if negb ((_start e.1 >? _end r) || (_end e.1 <? _start r)) then i else length t).
Proof.
  intros Hr Ht Hne. destruct (upper_bound_spec r t Hr Ht) as [Hlen _]. destruct Ht as [Hp _].
  destruct t as [|e0 t']; [done|]. set (t := e0 :: t') in *. unfold find, t. fold t.
  destruct (upper_bound r t) as [|i] eqn:Eu.
  - exists O, e0. split; [done|]. split; [done|]. simpl.
    inversion Hp; subst. rewrite plain_intersects by done. simpl. by destruct (negb _).
  - destruct (lookup_lt_is_Some_2 t i) as [e Hi]; [lia|]. exists i, e. split; [done|]. split; [done|].
    unfold key, pget. rewrite Hi. cbn [mbind outcome_bind].
    rewrite Forall_lookup in Hp. specialize (Hp i e Hi). rewrite plain_intersects by done.
    cbn [mbind outcome_bind]. destruct (negb _); [done|]. unfold interleaved. by rewrite (proj1 Hp).
Qed.

Lemma one_plain a : 0 <= a < 2 ^ 64 -> RangeSize a 1 = AddrRange_plain a a /\ plain (AddrRange_plain a a).
Proof.
  intros Ha. unfold RangeSize. rewrite Z.add_simpl_r, uwrap_small by (split; lia).
  split; [done|]. split_and!; simpl; lia || done.
Qed.

Lemma sorted_lookup {A} (R : A -> A -> Prop) (l : list A) : forall i j x y,
  StronglySorted R l -> (i < j)%nat -> l !! i = Some x -> l !! j = Some y -> R x y.
Proof.
  induction l as [|z l IH]; intros [|i] [|j] x y Hs Hij Hi Hj; try done || lia;
    apply StronglySorted_inv in Hs as [Hs Hall]; simpl in Hi, Hj.
  - injection Hi as <-. rewrite Forall_lookup in Hall. by apply (Hall j).
  - apply (IH i j); done || lia.
Qed.

Lemma find_addr_ok t a : tree_ok t -> 0 <= a < 2 ^ 64 ->
  exists i, find_addr t a = Ok i /\ (i <= length t)%nat /\
    forall j e, t !! j = Some e -> contains e.1 a = true <-> j = i.
Proof.
  intros Ht Ha. unfold find_addr. destruct (one_plain a Ha) as [-> Hr]. set (r := AddrRange_plain a a) in *.
  destruct t as [|e0 t0] eqn:Et; [by exists O|]. rewrite <- Et in *.
  destruct (range_find_spec r t Hr Ht) as (i & e & Hi & Ei & ->); [by subst|].
  destruct (upper_bound_spec r t Hr Ht) as [Hlen Hub]. pose proof (lookup_lt_Some _ _ _ Hi) as Hlt.
  destruct Ht as [Hp Hs]. rewrite Forall_lookup in Hp. pose proof (Hp i e Hi) as Hpe.
  rewrite Z.gtb_ltb. simpl (_end r). simpl (_start r). eexists. split; [reflexivity|].
  assert (forall j e', t !! j = Some e' -> contains e'.1 a = true -> j = i) as Honly.
  { intros j e' Hj Hc. apply plain_contains in Hc; [|by eapply Hp].
    pose proof (proj2 (Hub j e' Hj)) as Hju. simpl in Hju. specialize (Hju ltac:(lia)).
    destruct (decide (j = i)) as [|Hne]; [done|]. exfalso. assert (j < i)%nat as Hji by lia.
    pose proof (proj1 (Hub i e Hi) ltac:(lia)) as Hie. simpl in Hie.
    pose proof (sorted_lookup before t j i e' e Hs Hji Hj Hi) as Hb. unfold before in Hb. lia. }
  pose proof (plain_contains e.1 a Hpe) as Hce.
  destruct (Z.ltb_spec a (_start e.1)), (Z.ltb_spec (_end e.1) a); simpl; (split; [lia|]); intros j e' Hj.
  1-3: split; [intros Hc; pose proof (Honly j e' Hj Hc); subst j; rewrite Hi in Hj; injection Hj as <-;
    apply Hce in Hc; lia|intros ->; apply lookup_lt_Some in Hj; lia].
  split; [by apply Honly|]. intros ->. rewrite Hi in Hj. injection Hj as <-. apply Hce. lia.
Qed.

Lemma map_insert_ok r d t : plain r -> tree_ok t -> Forall (fun e => disjoint r e.1) t ->
  tree_ok (map_insert r d t) /\ map_insert r d t ≡ₚ (r, d) :: t.
Proof.
  intros Hr [Hp Hs] Hd. induction Hs as [|[k v] t Hs IH Hall]; simpl.
  { split; [|done]. split; [by apply Forall_singleton|repeat constructor]. }
  inversion Hp as [|? ? Hk Hp']; inversion Hd as [|? ? Hdk Hd']; subst. simpl in Hk, Hdk.
  destruct (IH Hp' Hd') as [[IHp IHs] IHperm]. rewrite !plain_lt by done.
  assert (_start r <= _end r /\ _start k <= _end k) as [? ?] by (unfold plain in Hr, Hk; lia). unfold disjoint in Hdk.
  destruct (Z.ltb_spec (_start r) (_start k)); [|destruct (Z.ltb_spec (_start k) (_start r)); [|lia]].
  - split; [|done]. split; [by constructor|]. constructor; [by constructor|]. constructor; [unfold before; simpl; lia|].
    eapply Forall_impl; [exact Hall|]. unfold before. simpl. lia.
  - split.
    + split; [by constructor|]. constructor; [done|]. rewrite IHperm. constructor; [unfold before; simpl; lia|done].
    + rewrite IHperm. apply Permutation_swap.
Qed.

Lemma intersect_disjoint r t : plain r -> tree_ok t -> Forall (fun e => disjoint r e.1) t ->
  intersect t r = Ok false.
Proof.
  intros Hr Ht Hd. unfold intersect. destruct t as [|e0 t0] eqn:Et; [done|]. rewrite <- Et in *.
  destruct (range_find_spec r t Hr Ht) as (i & e & Hi & _ & ->); [by subst|].
  rewrite Forall_lookup in Hd. specialize (Hd i e Hi). unfold disjoint in Hd. cbn [mbind outcome_bind].
  destruct Hr as (_ & _ & Hr & _), Ht as [Hp _]. rewrite Forall_lookup in Hp.
  destruct (Hp i e Hi) as (_ & _ & He & _). rewrite Z.gtb_ltb.
  destruct (Z.ltb_spec (_end r) (_start e.1)), (Z.ltb_spec (_end e.1) (_start r)); simpl;
    try (by rewrite Nat.eqb_refl). lia.
Qed.

Fixpoint inserts (es : list (AddrRange * V)) (t : tree) : outcome tree :=
  match es with
  | [] => Ok t
  | (r, d) :: es => '(ok, t) ← insert r d t; if ok : bool then inserts es t else Fail AssertFailed
  end.

Lemma inserts_ok es : forall t,
  Forall (fun e => plain e.1) es -> tree_ok t ->
  (forall i j e e', es !! i = Some e -> es !! j = Some e' -> i <> j -> disjoint e.1 e'.1) ->
  Forall (fun e => Forall (fun e' => disjoint e.1 e'.1) t) es ->
  exists t', inserts es t = Ok t' /\ tree_ok t' /\ t' ≡ₚ es ++ t.
Proof.
  induction es as [|[r d] es IH]; intros t Hp Ht Hd Hdt; simpl; [by exists t|].
  inversion Hp as [|? ? Hr Hp']; inversion Hdt as [|? ? Hrt Hdt']; subst.
  unfold insert. rewrite intersect_disjoint by done. cbn [mbind outcome_bind].
  destruct (map_insert_ok r d t Hr Ht Hrt) as [Ht1 Hperm].
  destruct (IH (map_insert r d t) Hp' Ht1) as (t' & E & Ht' & Hperm').
  - intros i j e e' Hi Hj Hne. apply (Hd (S i) (S j)); [done|done|lia].
  - rewrite Forall_lookup. intros i e Hi. rewrite Hperm. constructor.
    + destruct (Hd O (S i) (r, d) e eq_refl Hi ltac:(lia)) as [?|?]; [by right|by left].
    + rewrite Forall_lookup in Hdt'. by apply (Hdt' i).
  - exists t'. split; [done|]. split; [done|]. rewrite Hperm', Hperm. symmetry. apply Permutation_middle.
Qed.

End map.

(** A map from address ranges routes addresses: when ranges that do not
    overlap are inserted, in any order, each is accepted, and a lookup of an
    address finds the entry of the range that contains it and no entry when
    none does. *)
Theorem addr_map_routes {V : Type} (es : list (AddrRange * V)) :
  Forall (fun e => plain e.1) es ->
  (forall i j e e', es !! i = Some e -> es !! j = Some e' -> i <> j -> disjoint e.1 e'.1) ->
  exists t, inserts es [] = Ok t /\
    forall a, 0 <= a < 2 ^ 64 -> exists i, find_addr t a = Ok i /\
      (forall r v, (r, v) ∈ es -> contains r a = true -> t !! i = Some (r, v)) /\
      ((forall r v, (r, v) ∈ es -> contains r a = false) -> i = length t).
Proof.
  intros Hp Hd. destruct (inserts_ok es [] Hp) as (t & E & Ht & Hperm); [by split; constructor|done| |].
  { rewrite Forall_lookup. intros i e _. constructor. }
  rewrite app_nil_r in Hperm. exists t. split; [done|]. intros a Ha.
  destruct (find_addr_ok t a Ht Ha) as (i & Ei & Hlen & Hi). exists i. split; [done|]. split.
  - intros r v Hin Hc. rewrite <- Hperm in Hin. apply list_elem_of_lookup in Hin as [j Hj].
    by rewrite <- (proj1 (Hi j (r, v) Hj) Hc).
  - intros Hnone. destruct (decide (i < length t)%nat) as [Hlt|]; [|lia]. exfalso.
    destruct (lookup_lt_is_Some_2 t i Hlt) as [[r v] Hr]. pose proof (proj2 (Hi i (r, v) Hr) eq_refl) as Hc.
    apply list_elem_of_lookup_2 in Hr. rewrite Hperm in Hr. simpl in Hc. by rewrite (Hnone r v Hr) in Hc.
Qed.

Lemma addr_map_routes_witness :
  exists t i, inserts [(AddrRange_plain 16 31, 1); (AddrRange_plain 0 7, 2)] [] = Ok t /\
    find_addr t 5 = Ok i /\ t !! i = Some (AddrRange_plain 0 7, 2).
Proof.
  destruct (addr_map_routes [(AddrRange_plain 16 31, 1); (AddrRange_plain 0 7, 2)]) as (t & E & H).
  - repeat constructor; vm_compute; congruence.
  - intros [|[|i]] [|[|j]] e e' Hi Hj Hne; simpl in *; simplify_eq; (by left) || by right.
  - destruct (H 5 ltac:(lia)) as (i & Ei & Hf & _). exists t, i. split; [done|]. split; [done|].
    apply Hf; [right; left|reflexivity].
Defined.

(** The check for overlaps in [insert] looks at one neighbour only: when
    the entry before a new range does not overlap it, the range is accepted
    even if it overlaps the entry after it. *)
Theorem insert_misses_successor {V : Type} (k1 k2 r : AddrRange) (v1 v2 d : V) :
  plain k1 -> plain k2 -> plain r ->
  _end k1 < _start r -> _start r < _start k2 -> _start k2 <= _end r ->
  exists t, insert r d [(k1, v1); (k2, v2)] = Ok (true, t) /\
    contains r (_start k2) = true /\ contains k2 (_start k2) = true.
Proof.
  intros H1 H2 Hr Ha Hb Hc. pose proof (plain_contains r (_start k2) Hr) as Hcr.
  pose proof (plain_contains k2 (_start k2) H2) as Hc2.
  assert (tree_ok [(k1, v1); (k2, v2)]) as Ht.
  { split; [by rewrite Forall_cons, Forall_singleton|]. repeat constructor. unfold before. simpl. lia. }
  destruct (range_find_spec r _ Hr Ht) as (i & e & Hi & Ei & Ef); [done|].
  simpl in Ei. rewrite !plain_lt in Ei by done. destruct H1 as (_ & _ & H1 & _).
  rewrite (proj2 (Z.ltb_ge _ (_start k1))), (proj2 (Z.ltb_lt _ (_start k2))) in Ei by lia. simpl in Ei.
  subst i. injection Hi as <-. unfold insert, intersect. rewrite Ef. simpl.
  rewrite (proj2 (Z.ltb_lt (_end k1) _)), orb_true_r by lia. simpl. eexists. split; [reflexivity|].
  destruct H2 as (_ & _ & H2 & _). split; [apply Hcr|apply Hc2]; lia.
Qed.

Lemma insert_misses_successor_witness :
  exists t, insert (AddrRange_plain 12 25) 3 [(AddrRange_plain 0 10, 1); (AddrRange_plain 20 30, 2)]
    = Ok (true, t) /\ contains (AddrRange_plain 12 25) 20 = true /\ contains (AddrRange_plain 20 30) 20 = true.
Proof.
  apply (insert_misses_successor (AddrRange_plain 0 10) (AddrRange_plain 20 30) (AddrRange_plain 12 25) 1 2 3);
    vm_compute; intuition congruence.
Defined.

End AddrRangeMap.
