(* ===== verification/Request.v ===== *)
(** Requests: base/flags.hh and mem/request.hh.

    [Flags] is the bit-set wrapper and [Request] the record a CPU creates for a
    memory access. An accessor that asserts its validity bit returns an
    [outcome]. *)

From S2P Require Import Prelude IntMath.
Local Open Scope Z_scope.

Module Flags.

Definition isSet (f m : Z) : bool := any_set f m.
Definition allSet (f m : Z) : bool := Z.land f m =? m.
Definition noneSet (f m : Z) : bool := Z.land f m =? 0.
Definition clear (w f m : Z) : Z := Z.land f (unot w m).
Definition set (f m : Z) : Z := Z.lor f m.
Definition update (w f flags mask : Z) : Z :=
  Z.lor (Z.land f (unot w mask)) (Z.land flags mask).

Lemma isSet_set_same f k : 0 <= k -> isSet (set f (2 ^ k)) (2 ^ k) = true.
Proof.
  intros. unfold isSet, set. rewrite any_set_pow2, Z.lor_spec, Z.pow2_bits_true by done.
  apply orb_true_r.
Qed.

Lemma isSet_set_other f j k :
  0 <= j -> 0 <= k -> j <> k -> isSet (set f (2 ^ j)) (2 ^ k) = isSet f (2 ^ k).
Proof.
  intros. unfold isSet, set. rewrite !any_set_pow2, Z.lor_spec by done.
  rewrite Z.pow2_bits_false by done. apply orb_false_r.
Qed.

Lemma isSet_clear w f j k :
  0 <= j < w -> 0 <= k < w ->
  isSet (clear w f (2 ^ j)) (2 ^ k) = if decide (j = k) then false else isSet f (2 ^ k).
Proof.
  intros. unfold isSet, clear, unot. rewrite !any_set_pow2 by lia.
  rewrite Z.land_spec, Z.ldiff_spec, Z.ones_spec_low by lia.
  case_decide; subst.
  - rewrite Z.pow2_bits_true by lia. apply andb_false_r.
  - rewrite Z.pow2_bits_false by lia. apply andb_true_r.
Qed.

End Flags.

Module Request.

Definition INST_FETCH : Z := 0x00000100.
Definition UNCACHEABLE : Z := 0x00000400.
Definition STRICT_ORDER : Z := 0x00000800.
Definition CLEAR_LL : Z := 0x00004000.
Definition PRIVILEGED : Z := 0x00008000.
Definition LOCKED_RMW : Z := 0x00100000.
Definition LLSC : Z := 0x00200000.
Definition MEM_SWAP : Z := 0x00400000.
Definition MEM_SWAP_COND : Z := 0x00800000.
Definition PREFETCH : Z := 0x01000000.
Definition SECURE : Z := 0x10000000.
Definition PT_WALK : Z := 0x20000000.
Definition STICKY_FLAGS : Z := INST_FETCH.

Definition wbMasterId : Z := 0.
Definition funcMasterId : Z := 1.
Definition intMasterId : Z := 2.
Definition invldMasterId : Z := 2 ^ 16 - 1.

(** [ContextSwitchTaskId]. *)
Definition TaskId_Prefetcher : Z := 1022.
Definition TaskId_DMA : Z := 1023.
Definition TaskId_Unknown : Z := 1024.
Definition NumTaskId : Z := 1025.

Definition VALID_SIZE : Z := 0x00000001.
Definition VALID_PADDR : Z := 0x00000002.
Definition VALID_VADDR : Z := 0x00000004.
Definition VALID_PC : Z := 0x00000010.
Definition VALID_CONTEXT_ID : Z := 0x00000020.
Definition VALID_THREAD_ID : Z := 0x00000040.
Definition VALID_EXTRA_DATA : Z := 0x00000080.
Definition STICKY_PRIVATE_FLAGS : Z := Z.lor VALID_CONTEXT_ID VALID_THREAD_ID.

Record Request := MkRequest {
  _paddr : Z;
  _size : Z;
  _masterId : Z;
  _flags : Z;
  privateFlags : Z;
  _time : Z;
  _taskId : Z;
  _asid : Z;
  _vaddr : Z;
  _extraData : Z;
  _contextId : Z;
  _threadId : Z;
  _pc : Z;
  translateDelta : Z;
  accessDelta : Z;
  depth : Z;
}.

#[global] Instance eta_Request : Eta Request := fun r =>
  MkRequest (_paddr r) (_size r) (_masterId r) (_flags r) (privateFlags r)
    (_time r) (_taskId r) (_asid r) (_vaddr r) (_extraData r) (_contextId r)
    (_threadId r) (_pc r) (translateDelta r) (accessDelta r) (depth r).

(** The default constructor. *)
Definition Request0 : Request :=
  MkRequest 0 0 invldMasterId 0 0 0 TaskId_Unknown 0 0 0 0 0 0 0 0 0.

Definition setPhys (paddr size flags mid time : Z) (r : Request) : outcome Request :=
  _ ← ensure AssertFailed (0 <=? size);
  Ok (r <| _paddr := paddr |> <| _size := size |> <| _time := time |>
        <| _masterId := mid |>
        <| _flags := Flags.set (Flags.clear 32 (_flags r) (unot 32 STICKY_FLAGS)) flags |>
        <| privateFlags := Flags.set
             (Flags.clear 8 (privateFlags r) (unot 8 STICKY_PRIVATE_FLAGS))
             (Z.lor VALID_PADDR VALID_SIZE) |>
        <| depth := 0 |> <| accessDelta := 0 |>).

(** [Request(paddr, size, flags, mid)] at tick [curTick]. *)
Definition Request_phys (curTick paddr size flags mid : Z) : outcome Request :=
  setPhys paddr size flags mid curTick Request0.

Definition setThreadContext (context_id tid : Z) (r : Request) : Request :=
  r <| _contextId := context_id |> <| _threadId := tid |>
    <| privateFlags := Flags.set (privateFlags r) (Z.lor VALID_CONTEXT_ID VALID_THREAD_ID) |>.

Definition setVirt (curTick asid vaddr size flags mid pc : Z) (r : Request) : Request :=
  r <| _asid := asid |> <| _vaddr := vaddr |> <| _size := size |>
    <| _masterId := mid |> <| _pc := pc |> <| _time := curTick |>
    <| _flags := Flags.set (Flags.clear 32 (_flags r) (unot 32 STICKY_FLAGS)) flags |>
    <| privateFlags := Flags.set
         (Flags.clear 8 (privateFlags r) (unot 8 STICKY_PRIVATE_FLAGS))
         (Z.lor (Z.lor VALID_VADDR VALID_SIZE) VALID_PC) |>
    <| depth := 0 |> <| accessDelta := 0 |> <| translateDelta := 0 |>.

Definition setPaddr (paddr : Z) (r : Request) : Request :=
  r <| _paddr := paddr |> <| privateFlags := Flags.set (privateFlags r) VALID_PADDR |>.

(** [splitOnVaddr]: the requests for the bytes below and from [split_addr]. *)
Definition splitOnVaddr (split_addr : Z) (r : Request) : outcome (Request * Request) :=
  _ ← ensure AssertFailed (Flags.isSet (privateFlags r) VALID_VADDR);
  _ ← ensure AssertFailed (Flags.noneSet (privateFlags r) VALID_PADDR);
  _ ← ensure AssertFailed
        ((split_addr >? _vaddr r) && (split_addr <? u64 (_vaddr r + _size r)));
  let req1 := r <| _size := u32 (split_addr - _vaddr r) |> in
  let req2 := r <| _vaddr := split_addr |> <| _size := u32 (_size r - _size req1) |> in
  Ok (req1, req2).

Definition hasPaddr (r : Request) : bool := Flags.isSet (privateFlags r) VALID_PADDR.

Definition getPaddr (r : Request) : outcome Z :=
  _ ← ensure AssertFailed (Flags.isSet (privateFlags r) VALID_PADDR);
  Ok (_paddr r).

Definition hasSize (r : Request) : bool := Flags.isSet (privateFlags r) VALID_SIZE.

Definition getSize (r : Request) : outcome Z :=
  _ ← ensure AssertFailed (Flags.isSet (privateFlags r) VALID_SIZE);
  Ok (_size r).

Definition getFlags (r : Request) : outcome Z :=
  _ ← ensure AssertFailed (Flags.isSet (privateFlags r) (Z.lor VALID_PADDR VALID_VADDR));
  Ok (_flags r).

Definition setFlags (flags : Z) (r : Request) : outcome Request :=
  _ ← ensure AssertFailed (Flags.isSet (privateFlags r) (Z.lor VALID_PADDR VALID_VADDR));
  Ok (r <| _flags := Flags.set (_flags r) flags |>).

Definition masterId (r : Request) : Z := _masterId r.
Definition taskId (r : Request) : Z := _taskId r.
Definition set_taskId (id : Z) (r : Request) : Request := r <| _taskId := id |>.

Definition extraDataValid (r : Request) : bool :=
  Flags.isSet (privateFlags r) VALID_EXTRA_DATA.

Definition getExtraData (r : Request) : outcome Z :=
  _ ← ensure AssertFailed (Flags.isSet (privateFlags r) VALID_EXTRA_DATA);
  Ok (_extraData r).

Definition setExtraData (extraData : Z) (r : Request) : Request :=
  r <| _extraData := extraData |>
    <| privateFlags := Flags.set (privateFlags r) VALID_EXTRA_DATA |>.

Definition hasContextId (r : Request) : bool :=
  Flags.isSet (privateFlags r) VALID_CONTEXT_ID.

Definition contextId (r : Request) : outcome Z :=
  _ ← ensure AssertFailed (Flags.isSet (privateFlags r) VALID_CONTEXT_ID);
  Ok (_contextId r).

Definition threadId (r : Request) : outcome Z :=
  _ ← ensure AssertFailed (Flags.isSet (privateFlags r) VALID_THREAD_ID);
  Ok (_threadId r).

Definition setPC (pc : Z) (r : Request) : Request :=
  r <| privateFlags := Flags.set (privateFlags r) VALID_PC |> <| _pc := pc |>.

Definition hasPC (r : Request) : bool := Flags.isSet (privateFlags r) VALID_PC.

Definition getPC (r : Request) : outcome Z :=
  _ ← ensure AssertFailed (Flags.isSet (privateFlags r) VALID_PC);
  Ok (_pc r).

Definition isUncacheable (r : Request) : bool := Flags.isSet (_flags r) UNCACHEABLE.
Definition isStrictlyOrdered (r : Request) : bool := Flags.isSet (_flags r) STRICT_ORDER.
Definition isInstFetch (r : Request) : bool := Flags.isSet (_flags r) INST_FETCH.
Definition isPrefetch (r : Request) : bool := Flags.isSet (_flags r) PREFETCH.
Definition isLLSC (r : Request) : bool := Flags.isSet (_flags r) LLSC.
Definition isPriv (r : Request) : bool := Flags.isSet (_flags r) PRIVILEGED.
Definition isLockedRMW (r : Request) : bool := Flags.isSet (_flags r) LOCKED_RMW.
Definition isSwap (r : Request) : bool :=
  Flags.isSet (_flags r) (Z.lor MEM_SWAP MEM_SWAP_COND).
Definition isCondSwap (r : Request) : bool := Flags.isSet (_flags r) MEM_SWAP_COND.
Definition isClearLL (r : Request) : bool := Flags.isSet (_flags r) CLEAR_LL.
Definition isSecure (r : Request) : bool := Flags.isSet (_flags r) SECURE.

(** The two halves of a split request cover the original one: the first starts
    where the original starts, the second where the first ends, and the sizes
    add up. *)
Lemma splitOnVaddr_cover split_addr r r1 r2 :
  in_width 64 (_vaddr r) -> in_width 32 (_size r) -> in_width 64 split_addr ->
  splitOnVaddr split_addr r = Ok (r1, r2) ->
  _vaddr r1 = _vaddr r /\ _vaddr r2 = _vaddr r + _size r1 /\
  _size r1 + _size r2 = _size r /\ 0 < _size r1 /\ 0 < _size r2.
Proof.
  intros [? ?] [? ?] [? ?] Hs. unfold splitOnVaddr in Hs. inv_ok.
  apply andb_true_iff in E1 as [Hlo Hhi].
  apply Z.gtb_lt in Hlo. apply Z.ltb_lt in Hhi.
  simpl.
  assert (u64 (_vaddr r + _size r) <= _vaddr r + _size r)
    by (apply Z.mod_le; lia).
  rewrite !(uwrap_small 32) by (split; rewrite ?(uwrap_small 32) by (split; lia); lia).
  lia.
Qed.

End Request.
