(* ===== verification/MemCmd.v ===== *)
(** Memory commands: class MemCmd of mem/packet.hh and the table
    [commandInfo] of mem/packet.cc. *)

From Stdlib Require Import String.
From S2P Require Import Prelude.
Local Open Scope Z_scope.

Module MemCmd.

Inductive Command :=
  | InvalidCmd | ReadReq | ReadResp | ReadRespWithInvalidate | WriteReq
  | WriteResp | Writeback | SoftPFReq | HardPFReq | SoftPFResp | HardPFResp
  | WriteInvalidateReq | WriteInvalidateResp | UpgradeReq | SCUpgradeReq
  | UpgradeResp | SCUpgradeFailReq | UpgradeFailResp | ReadExReq | ReadExResp
  | LoadLockedReq | StoreCondReq | StoreCondFailReq | StoreCondResp | SwapReq
  | SwapResp | MessageReq | MessageResp | InvalidDestError | BadAddressError
  | FunctionalReadError | FunctionalWriteError | PrintReq | FlushReq
  | InvalidationReq.

#[global] Instance Command_eq_dec : EqDecision Command.
Proof. solve_decision. Defined.

Inductive Attribute :=
  | IsRead | IsWrite | IsUpgrade | IsInvalidate | NeedsExclusive | IsRequest
  | IsResponse | NeedsResponse | IsSWPrefetch | IsHWPrefetch | IsLlsc | HasData
  | IsError | IsPrint | IsFlush.

(** The value of an attribute's enumerator. *)
Definition attr_index (a : Attribute) : Z :=
  match a with
  | IsRead => 0 | IsWrite => 1 | IsUpgrade => 2 | IsInvalidate => 3
  | NeedsExclusive => 4 | IsRequest => 5 | IsResponse => 6 | NeedsResponse => 7
  | IsSWPrefetch => 8 | IsHWPrefetch => 9 | IsLlsc => 10 | HasData => 11
  | IsError => 12 | IsPrint => 13 | IsFlush => 14
  end.

(** [SET1] .. [SET6]. *)
Definition SET (l : list Attribute) : Z :=
  foldl (fun acc a => Z.lor acc (Z.shiftl 1 (attr_index a))) 0 l.

Record CommandInfo := MkCommandInfo {
  attributes : Z;
  response : Command;
  str : string;
}.

Local Open Scope string_scope.

Definition commandInfo (c : Command) : CommandInfo :=
  match c with
  | InvalidCmd => MkCommandInfo 0 InvalidCmd "InvalidCmd"
  | ReadReq => MkCommandInfo (SET [IsRead; IsRequest; NeedsResponse]) ReadResp "ReadReq"
  | ReadResp => MkCommandInfo (SET [IsRead; IsResponse; HasData]) InvalidCmd "ReadResp"
  | ReadRespWithInvalidate =>
      MkCommandInfo (SET [IsRead; IsResponse; HasData; IsInvalidate])
        InvalidCmd "ReadRespWithInvalidate"
  | WriteReq =>
      MkCommandInfo (SET [IsWrite; NeedsExclusive; IsRequest; NeedsResponse; HasData])
        WriteResp "WriteReq"
  | WriteResp => MkCommandInfo (SET [IsWrite; NeedsExclusive; IsResponse]) InvalidCmd "WriteResp"
  | Writeback =>
      MkCommandInfo (SET [IsWrite; NeedsExclusive; IsRequest; HasData])
        InvalidCmd "Writeback"
  | SoftPFReq =>
      MkCommandInfo (SET [IsRead; IsRequest; IsSWPrefetch; NeedsResponse])
        SoftPFResp "SoftPFReq"
  | HardPFReq =>
      MkCommandInfo (SET [IsRead; IsRequest; IsHWPrefetch; NeedsResponse])
        HardPFResp "HardPFReq"
  | SoftPFResp =>
      MkCommandInfo (SET [IsRead; IsResponse; IsSWPrefetch; HasData])
        InvalidCmd "SoftPFResp"
  | HardPFResp =>
      MkCommandInfo (SET [IsRead; IsResponse; IsHWPrefetch; HasData])
        InvalidCmd "HardPFResp"
  | WriteInvalidateReq =>
      MkCommandInfo (SET [IsWrite; NeedsExclusive; IsInvalidate;
                          IsRequest; HasData; NeedsResponse])
        WriteInvalidateResp "WriteInvalidateReq"
  | WriteInvalidateResp =>
      MkCommandInfo (SET [IsWrite; NeedsExclusive; IsResponse])
        InvalidCmd "WriteInvalidateResp"
  | UpgradeReq =>
      MkCommandInfo (SET [IsInvalidate; NeedsExclusive; IsUpgrade; IsRequest; NeedsResponse])
        UpgradeResp "UpgradeReq"
  | SCUpgradeReq =>
      MkCommandInfo (SET [IsInvalidate; NeedsExclusive; IsUpgrade; IsLlsc;
                          IsRequest; NeedsResponse])
        UpgradeResp "SCUpgradeReq"
  | UpgradeResp =>
      MkCommandInfo (SET [NeedsExclusive; IsUpgrade; IsResponse])
        InvalidCmd "UpgradeResp"
  | SCUpgradeFailReq =>
      MkCommandInfo (SET [IsRead; NeedsExclusive; IsInvalidate;
                          IsLlsc; IsRequest; NeedsResponse])
        UpgradeFailResp "SCUpgradeFailReq"
  | UpgradeFailResp =>
      MkCommandInfo (SET [IsRead; NeedsExclusive; IsResponse; HasData])
        InvalidCmd "UpgradeFailResp"
  | ReadExReq =>
      MkCommandInfo (SET [IsRead; NeedsExclusive; IsInvalidate; IsRequest; NeedsResponse])
        ReadExResp "ReadExReq"
  | ReadExResp =>
      MkCommandInfo (SET [IsRead; NeedsExclusive; IsResponse; HasData])
        InvalidCmd "ReadExResp"
  | LoadLockedReq =>
      MkCommandInfo (SET [IsRead; IsLlsc; IsRequest; NeedsResponse])
        ReadResp "LoadLockedReq"
  | StoreCondReq =>
      MkCommandInfo (SET [IsWrite; NeedsExclusive; IsLlsc;
                          IsRequest; NeedsResponse; HasData])
        StoreCondResp "StoreCondReq"
  | StoreCondFailReq =>
      MkCommandInfo (SET [IsWrite; NeedsExclusive; IsLlsc;
                          IsRequest; NeedsResponse; HasData])
        StoreCondResp "StoreCondFailReq"
  | StoreCondResp =>
      MkCommandInfo (SET [IsWrite; NeedsExclusive; IsLlsc; IsResponse])
        InvalidCmd "StoreCondResp"
  | SwapReq =>
      MkCommandInfo (SET [IsRead; IsWrite; NeedsExclusive; IsRequest; HasData; NeedsResponse])
        SwapResp "SwapReq"
  | SwapResp =>
      MkCommandInfo (SET [IsRead; IsWrite; NeedsExclusive; IsResponse; HasData])
        InvalidCmd "SwapResp"
  | MessageReq =>
      MkCommandInfo (SET [IsWrite; IsRequest; NeedsResponse; HasData])
        MessageResp "MessageReq"
  | MessageResp => MkCommandInfo (SET [IsWrite; IsResponse]) InvalidCmd "MessageResp"
  | InvalidDestError => MkCommandInfo (SET [IsResponse; IsError]) InvalidCmd "InvalidDestError"
  | BadAddressError => MkCommandInfo (SET [IsResponse; IsError]) InvalidCmd "BadAddressError"
  | FunctionalReadError =>
      MkCommandInfo (SET [IsRead; IsResponse; IsError]) InvalidCmd "FunctionalReadError"
  | FunctionalWriteError =>
      MkCommandInfo (SET [IsWrite; IsResponse; IsError]) InvalidCmd "FunctionalWriteError"
  | PrintReq => MkCommandInfo (SET [IsRequest; IsPrint]) InvalidCmd "PrintReq"
  | FlushReq => MkCommandInfo (SET [IsRequest; IsFlush; NeedsExclusive]) InvalidCmd "FlushReq"
  | InvalidationReq =>
      MkCommandInfo (SET [NeedsExclusive; IsInvalidate; IsRequest])
        InvalidCmd "InvalidationReq"
  end.

Local Close Scope string_scope.

Definition testCmdAttrib (a : Attribute) (c : Command) : bool :=
  Z.testbit (attributes (commandInfo c)) (attr_index a).

Definition isRead := testCmdAttrib IsRead.
Definition isWrite := testCmdAttrib IsWrite.
Definition isUpgrade := testCmdAttrib IsUpgrade.
Definition isRequest := testCmdAttrib IsRequest.
Definition isResponse := testCmdAttrib IsResponse.
Definition needsExclusive := testCmdAttrib NeedsExclusive.
Definition needsResponse := testCmdAttrib NeedsResponse.
Definition isInvalidate := testCmdAttrib IsInvalidate.
Definition isWriteInvalidate (c : Command) : bool :=
  testCmdAttrib IsWrite c && testCmdAttrib IsInvalidate c.
Definition hasData := testCmdAttrib HasData.
Definition isLLSC := testCmdAttrib IsLlsc.
Definition isSWPrefetch := testCmdAttrib IsSWPrefetch.
Definition isHWPrefetch := testCmdAttrib IsHWPrefetch.
Definition isPrefetch (c : Command) : bool :=
  testCmdAttrib IsSWPrefetch c || testCmdAttrib IsHWPrefetch c.
Definition isError := testCmdAttrib IsError.
Definition isPrint := testCmdAttrib IsPrint.
Definition isFlush := testCmdAttrib IsFlush.
Definition responseCommand (c : Command) : Command := response (commandInfo c).
Definition toString (c : Command) : string := str (commandInfo c).

(** The enumerators in order, for statements about the whole table. *)
Definition commands : list Command :=
  [InvalidCmd; ReadReq; ReadResp; ReadRespWithInvalidate; WriteReq;
   WriteResp; Writeback; SoftPFReq; HardPFReq; SoftPFResp; HardPFResp;
   WriteInvalidateReq; WriteInvalidateResp; UpgradeReq; SCUpgradeReq;
   UpgradeResp; SCUpgradeFailReq; UpgradeFailResp; ReadExReq; ReadExResp;
   LoadLockedReq; StoreCondReq; StoreCondFailReq; StoreCondResp; SwapReq;
   SwapResp; MessageReq; MessageResp; InvalidDestError; BadAddressError;
   FunctionalReadError; FunctionalWriteError; PrintReq; FlushReq;
   InvalidationReq].

Lemma commands_complete c : c ∈ commands.
Proof. destruct c; vm_compute commands; repeat (left || right). Qed.

(** A decidable property of every command is checked on the enumeration. *)
Lemma forall_commands (P : Command -> bool) :
  forallb P commands = true -> forall c, P c = true.
Proof.
  intros H c. eapply forallb_forall in H; [exact H|].
  apply list_elem_of_In, commands_complete.
Qed.

End MemCmd.
