(* ===== verification/Packet.v ===== *)
(** Packets: class Packet of mem/packet.hh and mem/packet.cc, the message
    between two memory objects.

    A packet holds its request by value: a method that changes [pkt->req]
    returns a packet with the changed request. The data pointer is the list of
    bytes it points to, [None] for NULL. The stack of sender states is a list,
    its top first. *)

From S2P Require Import Prelude IntMath Request MemCmd.
Local Open Scope Z_scope.

Module Packet.
Import MemCmd.

Definition PRIVATE_FLAGS : Z := 0x00007F0F.
Definition COPY_FLAGS : Z := 0x0000000F.
Definition SHARED : Z := 0x00000001.
Definition EXPRESS_SNOOP : Z := 0x00000002.
Definition SUPPLY_EXCLUSIVE : Z := 0x00000004.
Definition MEM_INHIBIT : Z := 0x00000008.
Definition VALID_ADDR : Z := 0x00000100.
Definition VALID_SIZE : Z := 0x00000200.
Definition STATIC_DATA : Z := 0x00001000.
Definition DYNAMIC_DATA : Z := 0x00002000.
Definition SUPPRESS_FUNC_ERROR : Z := 0x00008000.
Definition BLOCK_CACHED : Z := 0x00010000.

(** What the sender-state stack can hold: the MSHR with a given identity, the
    record of a forwarded response, or the state of another object. *)
Inductive SenderState :=
  | SSMshr (id : nat)
  | SSForwardResponse
  | SSOther (tag : Z).
#[global] Instance SenderState_eq_dec : EqDecision SenderState.
Proof. solve_decision. Defined.

Record Packet := MkPacket {
  flags : Z;
  cmd : Command;
  req : Request.Request;
  data : option (list Z);
  addr : Z;
  _isSecure : bool;
  size : Z;
  origCmd : Command;
  bytesValid : list bool;
  headerDelay : Z;
  payloadDelay : Z;
  senderState : list SenderState;
}.

#[global] Instance eta_Packet : Eta Packet := fun p =>
  MkPacket (flags p) (cmd p) (req p) (data p) (addr p) (_isSecure p) (size p)
    (origCmd p) (bytesValid p) (headerDelay p) (payloadDelay p) (senderState p).

Definition pushSenderState (s : SenderState) (p : Packet) : Packet :=
  p <| senderState := s :: senderState p |>.

Definition popSenderState (p : Packet) : outcome (SenderState * Packet) :=
  match senderState p with
  | [] => Fail AssertFailed
  | s :: rest => Ok (s, p <| senderState := rest |>)
  end.

(** [findNextSenderState<MSHR>()]. *)
Fixpoint find_mshr (l : list SenderState) : option nat :=
  match l with
  | [] => None
  | SSMshr id :: _ => Some id
  | _ :: l => find_mshr l
  end.
Definition findNextSenderState_MSHR (p : Packet) : option nat :=
  find_mshr (senderState p).

Definition isRead (p : Packet) : bool := MemCmd.isRead (cmd p).
Definition isWrite (p : Packet) : bool := MemCmd.isWrite (cmd p).
Definition isUpgrade (p : Packet) : bool := MemCmd.isUpgrade (cmd p).
Definition isRequest (p : Packet) : bool := MemCmd.isRequest (cmd p).
Definition isResponse (p : Packet) : bool := MemCmd.isResponse (cmd p).
Definition needsExclusive (p : Packet) : bool := MemCmd.needsExclusive (cmd p).
Definition needsResponse (p : Packet) : bool := MemCmd.needsResponse (cmd p).
Definition isInvalidate (p : Packet) : bool := MemCmd.isInvalidate (cmd p).
Definition isWriteInvalidate (p : Packet) : bool := MemCmd.isWriteInvalidate (cmd p).
Definition hasData (p : Packet) : bool := MemCmd.hasData (cmd p).
Definition isLLSC (p : Packet) : bool := MemCmd.isLLSC (cmd p).
Definition isError (p : Packet) : bool := MemCmd.isError (cmd p).
Definition isPrint (p : Packet) : bool := MemCmd.isPrint (cmd p).
Definition isFlush (p : Packet) : bool := MemCmd.isFlush (cmd p).

Definition set_flag (m : Z) (p : Packet) : Packet := p <| flags := Flags.set (flags p) m |>.
Definition clear_flag (m : Z) (p : Packet) : Packet :=
  p <| flags := Flags.clear 32 (flags p) m |>.
Definition has_flag (m : Z) (p : Packet) : bool := Flags.isSet (flags p) m.

Definition assertMemInhibit (p : Packet) : outcome Packet :=
  _ ← ensure AssertFailed (isRequest p);
  _ ← ensure AssertFailed (negb (has_flag MEM_INHIBIT p));
  Ok (set_flag MEM_INHIBIT p).
Definition memInhibitAsserted (p : Packet) : bool := has_flag MEM_INHIBIT p.
Definition assertShared (p : Packet) : Packet := set_flag SHARED p.
Definition sharedAsserted (p : Packet) : bool := has_flag SHARED p.
Definition setExpressSnoop (p : Packet) : Packet := set_flag EXPRESS_SNOOP p.
Definition isExpressSnoop (p : Packet) : bool := has_flag EXPRESS_SNOOP p.
Definition setSupplyExclusive (p : Packet) : Packet := set_flag SUPPLY_EXCLUSIVE p.
Definition clearSupplyExclusive (p : Packet) : Packet := clear_flag SUPPLY_EXCLUSIVE p.
Definition isSupplyExclusive (p : Packet) : bool := has_flag SUPPLY_EXCLUSIVE p.
Definition setBlockCached (p : Packet) : Packet := set_flag BLOCK_CACHED p.
Definition isBlockCached (p : Packet) : bool := has_flag BLOCK_CACHED p.

Definition setBadAddress (p : Packet) : outcome Packet :=
  _ ← ensure AssertFailed (isResponse p);
  Ok (p <| cmd := BadAddressError |>).
Definition copyError (other p : Packet) : outcome Packet :=
  _ ← ensure AssertFailed (isError other);
  Ok (p <| cmd := cmd other |>).

Definition getAddr (p : Packet) : outcome Z :=
  _ ← ensure AssertFailed (has_flag VALID_ADDR p); Ok (addr p).
Definition setAddr (a : Z) (p : Packet) : outcome Packet :=
  _ ← ensure AssertFailed (has_flag VALID_ADDR p); Ok (p <| addr := a |>).
Definition getSize (p : Packet) : outcome Z :=
  _ ← ensure AssertFailed (has_flag VALID_SIZE p); Ok (size p).
Definition getOffset (blkSize : Z) (p : Packet) : outcome Z :=
  a ← getAddr p; Ok (Z.land a (u64 (blkSize - 1))).
Definition isSecure (p : Packet) : outcome bool :=
  _ ← ensure AssertFailed (has_flag VALID_ADDR p); Ok (_isSecure p).

Definition convertScToWrite (p : Packet) : outcome Packet :=
  _ ← ensure AssertFailed (isLLSC p);
  _ ← ensure AssertFailed (isWrite p);
  Ok (p <| cmd := WriteReq |>).
Definition convertLlToRead (p : Packet) : outcome Packet :=
  _ ← ensure AssertFailed (isLLSC p);
  _ ← ensure AssertFailed (isRead p);
  Ok (p <| cmd := ReadReq |>).

(** [Packet(req, cmd)]. *)
Definition Packet_new (r : Request.Request) (c : Command) : outcome Packet :=
  let p := MkPacket 0 c r None 0 false 0 InvalidCmd [] 0 0 [] in
  p ← (if Request.hasPaddr r then
         a ← Request.getPaddr r;
         Ok (set_flag VALID_ADDR (p <| addr := a |>) <| _isSecure := Request.isSecure r |>)
       else Ok p);
  if Request.hasSize r then
    s ← Request.getSize r;
    Ok (set_flag VALID_SIZE (p <| size := s |>))
  else Ok p.

(** [Packet(req, cmd, blkSize)]; [~(blkSize - 1)] is sign-extended. *)
Definition Packet_blk (r : Request.Request) (c : Command) (blkSize : Z) : outcome Packet :=
  let p := MkPacket 0 c r None 0 false 0 InvalidCmd [] 0 0 [] in
  p ← (if Request.hasPaddr r then
         a ← Request.getPaddr r;
         Ok (set_flag VALID_ADDR (p <| addr := Z.land a (u64 (Z.lnot (blkSize - 1))) |>)
               <| _isSecure := Request.isSecure r |>)
       else Ok p);
  Ok (set_flag VALID_SIZE (p <| size := u32 blkSize |>)).

(** [allocate()]: the contents of [new uint8_t[n]] are unspecified; [fresh]
    gives them. *)
Definition allocate (fresh : Z -> list Z) (p : Packet) : outcome Packet :=
  _ ← ensure AssertFailed (Flags.noneSet (flags p) (Z.lor STATIC_DATA DYNAMIC_DATA));
  n ← getSize p;
  Ok (set_flag DYNAMIC_DATA p <| data := Some (fresh n) |>).

(** [Packet(pkt, clear_flags, alloc_data)]. *)
Definition Packet_copy (fresh : Z -> list Z) (p : Packet) (clear_flags alloc_data : bool)
  : outcome Packet :=
  let c := MkPacket 0 (cmd p) (req p) None (addr p) (_isSecure p) (size p)
             InvalidCmd (bytesValid p) (headerDelay p) (payloadDelay p) (senderState p) in
  let c := if clear_flags then c else set_flag (Z.land (flags p) COPY_FLAGS) c in
  let c := set_flag (Z.land (flags p) (Z.lor VALID_ADDR VALID_SIZE)) c in
  if alloc_data then
    if has_flag STATIC_DATA p then
      Ok (set_flag STATIC_DATA (c <| data := data p |>))
    else allocate fresh c
  else Ok c.

Definition makeReadCmd (r : Request.Request) : Command :=
  if Request.isLLSC r then LoadLockedReq
  else if Request.isPrefetch r then SoftPFReq
  else ReadReq.

Definition makeWriteCmd (r : Request.Request) : Command :=
  if Request.isLLSC r then StoreCondReq
  else if Request.isSwap r then SwapReq
  else WriteReq.

Definition createRead (r : Request.Request) : outcome Packet := Packet_new r (makeReadCmd r).
Definition createWrite (r : Request.Request) : outcome Packet := Packet_new r (makeWriteCmd r).

Definition makeResponse (p : Packet) : outcome Packet :=
  _ ← ensure AssertFailed (needsResponse p);
  _ ← ensure AssertFailed (isRequest p);
  Ok (clear_flag EXPRESS_SNOOP
        (p <| origCmd := cmd p |> <| cmd := responseCommand (cmd p) |>)).

Definition setFunctionalResponseStatus (success : bool) (p : Packet) : Packet :=
  if success then p
  else if isWrite p then p <| cmd := FunctionalWriteError |>
  else p <| cmd := FunctionalReadError |>.

Definition setSize (s : Z) (p : Packet) : outcome Packet :=
  _ ← ensure AssertFailed (negb (has_flag VALID_SIZE p));
  Ok (set_flag VALID_SIZE (p <| size := s |>)).

Definition dataStatic (d : list Z) (p : Packet) : outcome Packet :=
  _ ← ensure AssertFailed (Flags.noneSet (flags p) (Z.lor STATIC_DATA DYNAMIC_DATA));
  Ok (set_flag STATIC_DATA (p <| data := Some d |>)).

Definition dataDynamic (d : list Z) (p : Packet) : outcome Packet :=
  _ ← ensure AssertFailed (Flags.noneSet (flags p) (Z.lor STATIC_DATA DYNAMIC_DATA));
  Ok (set_flag DYNAMIC_DATA (p <| data := Some d |>)).

(** The bytes [getPtr()] points to. *)
Definition getPtr (p : Packet) : outcome (list Z) :=
  _ ← ensure AssertFailed (has_flag (Z.lor STATIC_DATA DYNAMIC_DATA) p);
  match data p with Some d => Ok d | None => Fail Undefined end.

Definition deleteData (p : Packet) : Packet :=
  clear_flag (Z.lor STATIC_DATA DYNAMIC_DATA) p <| data := None |>.

(** [memcpy(dst + doff, src + soff, n)]. *)
Definition memcpy (dst : list Z) (doff : Z) (src : list Z) (soff n : Z) : outcome (list Z) :=
  if (0 <=? doff) && (0 <=? soff) && (0 <=? n)
     && (doff + n <=? Z.of_nat (length dst)) && (soff + n <=? Z.of_nat (length src))
  then Ok (take (Z.to_nat doff) dst
           ++ take (Z.to_nat n) (drop (Z.to_nat soff) src)
           ++ drop (Z.to_nat (doff + n)) dst)
  else Fail Undefined.

(** [setData(p)]: the packet's bytes become the [getSize()] bytes at
    [src + soff] (for static data [p] can be the packet's own pointer, and the
    bytes stay). *)
Definition setData (src : list Z) (soff : Z) (p : Packet) : outcome Packet :=
  d ← getPtr p;
  n ← getSize p;
  d' ← memcpy d 0 src soff n;
  Ok (p <| data := Some d' |>).

Definition setDataFromBlock (blk_data : list Z) (blkSize : Z) (p : Packet) : outcome Packet :=
  o ← getOffset blkSize p;
  setData blk_data o p.

Definition writeData (dst : list Z) (doff : Z) (p : Packet) : outcome (list Z) :=
  d ← getPtr p;
  n ← getSize p;
  memcpy dst doff d 0 n.

Definition writeDataToBlock (blk_data : list Z) (blkSize : Z) (p : Packet) : outcome (list Z) :=
  o ← getOffset blkSize p;
  writeData blk_data o p.

(** The bytes of an [n]-byte integer on a little-endian host. *)
Definition le_bytes (n : nat) (v : Z) : list Z :=
  (fun i => Z.land (Z.shiftr v (8 * Z.of_nat i)) 255) <$> seq 0 n.

(** [memcmp(x, blk_data + offset, n) == 0]. *)
Definition same_bytes (x blk_data : list Z) (offset : Z) : bool :=
  bool_decide (x = take (length x) (drop (Z.to_nat offset) blk_data)).

(** ** Copies of bytes *)

(** [memcpy] succeeds when both ranges are inside; it replaces the bytes of its
    range and keeps the others. *)
Lemma memcpy_total dst doff src soff n :
  0 <= doff -> 0 <= soff -> 0 <= n -> doff + n <= Z.of_nat (length dst) ->
  soff + n <= Z.of_nat (length src) -> exists d, memcpy dst doff src soff n = Ok d.
Proof.
  intros. unfold memcpy. rewrite !(proj2 (Z.leb_le _ _)) by done. simpl. eauto.
Qed.

Lemma memcpy_spec dst doff src soff n d :
  memcpy dst doff src soff n = Ok d ->
  length d = length dst /\
  forall i, d !! i = if decide (doff <= Z.of_nat i < doff + n)
                     then src !! (Z.to_nat soff + (i - Z.to_nat doff))%nat else dst !! i.
Proof.
  unfold memcpy. destruct (_ && _) eqn:E; [|done]. intros [= <-].
  rewrite !andb_true_iff, !Z.leb_le in E. destruct E as ((((H1 & H2) & H3) & H4) & H5).
  assert (length (take (Z.to_nat n) (drop (Z.to_nat soff) src)) = Z.to_nat n) as Hl
    by (rewrite length_take, length_drop; lia).
  assert (length (take (Z.to_nat doff) dst) = Z.to_nat doff) as Hd by (rewrite length_take; lia).
  split; [rewrite !length_app, Hl, Hd, length_drop; lia|]. intros i.
  destruct (decide (i < Z.to_nat doff)%nat) as [Hi|Hi].
  { rewrite lookup_app_l, lookup_take_lt by lia. by rewrite decide_False by lia. }
  rewrite lookup_app_r, Hd by lia.
  destruct (decide (i < Z.to_nat doff + Z.to_nat n)%nat) as [Hi'|Hi'].
  - rewrite lookup_app_l, lookup_take_lt, lookup_drop by lia. by rewrite decide_True by lia.
  - rewrite lookup_app_r, Hl, lookup_drop, decide_False by lia. f_equal. lia.
Qed.

(** ** Responses *)

(** The rows of [commandInfo] agree: the response of a command that needs one
    is a response, needs none itself and has the request's direction. *)
Lemma commandInfo_response c :
  MemCmd.needsResponse c = true ->
  let r := MemCmd.responseCommand c in
  MemCmd.isRequest c = true /\ MemCmd.isResponse r = true /\
  MemCmd.isRequest r = false /\ MemCmd.needsResponse r = false /\
  MemCmd.isRead r = MemCmd.isRead c /\ MemCmd.isWrite r = MemCmd.isWrite c /\
  MemCmd.needsExclusive r = MemCmd.needsExclusive c /\
  MemCmd.hasData r = MemCmd.isRead c /\ MemCmd.isPrefetch r = MemCmd.isPrefetch c.
Proof. destruct c; vm_compute; intros [=]; tauto. Qed.

(** [makeResponse] succeeds on every packet whose command needs a response
    and turns it into a response of the same direction (read, write, exclusive,
    prefetch) that carries data exactly when the request reads, is not an
    express snoop, remembers the request's command and keeps address, size,
    data and sender states; a second [makeResponse] fails an assertion. *)
Theorem makeResponse_protocol p :
  needsResponse p = true ->
  exists p', makeResponse p = Ok p' /\
    isResponse p' = true /\ isRequest p' = false /\ needsResponse p' = false /\
    isRead p' = isRead p /\ isWrite p' = isWrite p /\
    needsExclusive p' = needsExclusive p /\ hasData p' = isRead p /\
    isExpressSnoop p' = false /\ origCmd p' = cmd p /\
    addr p' = addr p /\ size p' = size p /\ data p' = data p /\
    senderState p' = senderState p /\
    makeResponse p' = Fail AssertFailed.
Proof.
  intros H. destruct (commandInfo_response (cmd p) H) as (Hq & ? & ? & Hn & ? & ? & ? & ? & ?).
  eexists. split.
  { unfold makeResponse. rewrite H. unfold isRequest. by rewrite Hq. }
  repeat split; try done.
  - apply (Flags.isSet_clear _ (flags p) 1 1); lia.
  - unfold makeResponse, needsResponse. simpl. by rewrite Hn.
Qed.

Lemma makeResponse_protocol_witness :
  exists p', makeResponse (MkPacket EXPRESS_SNOOP ReadExReq Request.Request0 None 64 false 64
                             InvalidCmd [] 0 0 []) = Ok p'
    /\ cmd p' = ReadExResp /\ hasData p' = true /\ isExpressSnoop p' = false.
Proof.
  destruct (makeResponse_protocol (MkPacket EXPRESS_SNOOP ReadExReq Request.Request0 None 64
    false 64 InvalidCmd [] 0 0 [])) as (p' & E & Hr).
  - reflexivity.
  - exists p'. split; [exact E|]. split.
    + vm_compute in E. injection E as <-. reflexivity.
    + tauto.
Defined.

End Packet.
