(* ===== verification/Functional.v ===== *)
(** Functional accesses: [Packet::checkFunctional] of mem/packet.cc.

    A functional access walks over every place a value can sit (caches, queues,
    in-flight packets). [checkFunctional] matches the packet against one such
    value, the [size] bytes at [addr]: a write updates the value in place, a
    read copies the bytes that overlap. The result is the return value, the
    packet after the call and the value after the call. *)

From S2P Require Import Prelude IntMath Request MemCmd Packet.
Import MemCmd Packet.
Local Open Scope Z_scope.

Module Functional.

(** Offsets and sizes of the copy on a partial overlap. *)
Record Overlap := MkOverlap {
  func_offset : Z;
  val_offset : Z;
  overlap_size : Z;
}.

(** The four cases of the partial overlap of a read ([int] variables). *)
Definition overlap (func_start func_end val_start val_end size : Z) : outcome Overlap :=
  if (val_start <? func_start) && (val_end <=? func_end) then
    Ok (MkOverlap 0 (s32 (func_start - val_start)) (s32 (val_end - func_start)))
  else if (val_start >=? func_start) && (val_end >? func_end) then
    Ok (MkOverlap (s32 (val_start - func_start)) 0 (s32 (func_end - val_start)))
  else if (val_start >=? func_start) && (val_end <=? func_end) then
    Ok (MkOverlap (s32 (val_start - func_start)) 0 size)
  else if (val_start <? func_start) && (val_end >? func_end) then
    Ok (MkOverlap 0 (s32 (func_start - val_start)) (s32 (func_end - func_start)))
  else Fail PanicError.

(** [for (i = first; i < first + n; ++i) bytesValid[i] = true;] *)
Definition mark_valid (bv : list bool) (first n : nat) : list bool :=
  take first bv ++ replicate n true ++ drop (first + n) bv.

(** The three loops over [bytesValid]; the result is [all_bytes_valid] and the
    updated vector. The bounds of the loops are [int]s. *)
Definition track_valid (bv : list bool) (o : Overlap) : outcome (bool * list bool) :=
  let first := Z.to_nat (func_offset o) in
  let n := Z.to_nat (overlap_size o) in
  if (length bv <? first + n)%nat then Fail Undefined
  else
    let before := forallb id (take first bv) in
    let bv' := mark_valid bv first n in
    Ok (before && forallb id (drop (first + n) bv'), bv').

Definition checkFunctional (pkt : Packet) (addr : Z) (is_secure : bool) (size : Z)
  (_data : option (list Z)) : outcome (bool * Packet * option (list Z)) :=
  func_start ← getAddr pkt;
  n ← getSize pkt;
  let func_end := u64 (func_start + n - 1) in
  let val_start := addr in
  let val_end := u64 (val_start + size - 1) in
  if negb (eqb is_secure (_isSecure pkt)) || (func_start >? val_end)
     || (val_start >? func_end)
  then Ok (false, pkt, _data)
  else if isPrint pkt then
    _ ← ensure AssertFailed (match _data with None => true | Some _ => false end);
    Ok (false, pkt, _data)
  else
  match _data with
  | None => Ok (false, pkt, None)
  | Some v =>
      let offset := s32 (func_start - val_start) in
      if isRead pkt then
        d ← getPtr pkt;
        if (func_start >=? val_start) && (func_end <=? val_end) then
          d' ← memcpy d 0 v offset n;
          let bv := match bytesValid pkt with
                    | [] => replicate (Z.to_nat n) true
                    | bv => bv
                    end in
          Ok (true, pkt <| data := Some d' |> <| bytesValid := bv |>, Some v)
        else
          o ← overlap func_start func_end val_start val_end size;
          d' ← memcpy d (func_offset o) v (val_offset o) (overlap_size o);
          let bv := match bytesValid pkt with
                    | [] => replicate (Z.to_nat n) false
                    | bv => bv
                    end in
          '(all_bytes_valid, bv') ← track_valid bv o;
          Ok (all_bytes_valid, pkt <| data := Some d' |> <| bytesValid := bv' |>, Some v)
      else if isWrite pkt then
        d ← getPtr pkt;
        v' ← (if offset >=? 0 then
                memcpy v offset d 0 (Z.min func_end val_end - func_start + 1)
              else
                memcpy v 0 d (- offset) (Z.min func_end val_end - val_start + 1));
        Ok (false, pkt, Some v')
      else Fail PanicError
  end.

(** [checkFunctional(PacketPtr other)]. *)
Definition checkFunctional_pkt (pkt other : Packet) : outcome (bool * Packet * Packet) :=
  a ← getAddr other;
  s ← isSecure other;
  n ← getSize other;
  d ← (if hasData other then d ← getPtr other; Ok (Some d) else Ok None);
  '(r, pkt', d') ← checkFunctional pkt a s n d;
  Ok (r, pkt', if hasData other then other <| data := d' |> else other).

(** ** Copies *)

Lemma memcpy_ok dst doff src soff n :
  0 <= doff -> 0 <= soff -> 0 <= n ->
  doff + n <= Z.of_nat (length dst) -> soff + n <= Z.of_nat (length src) ->
  memcpy dst doff src soff n =
    Ok (take (Z.to_nat doff) dst
        ++ take (Z.to_nat n) (drop (Z.to_nat soff) src)
        ++ drop (Z.to_nat (doff + n)) dst).
Proof.
  intros. unfold memcpy.
  repeat match goal with
  | |- context [?a <=? ?b] => destruct (Z.leb_spec a b); [|lia]
  end. done.
Qed.

(** Byte [i] after a copy: the source's byte inside the copied range, the old
    byte outside. *)
Lemma memcpy_lookup dst doff src soff n out (i : Z) :
  memcpy dst doff src soff n = Ok out -> 0 <= i ->
  out !! Z.to_nat i =
    if (doff <=? i) && (i <? doff + n) then src !! Z.to_nat (soff + (i - doff))
    else dst !! Z.to_nat i.
Proof.
  intros H Hi. unfold memcpy in H.
  destruct (_ && _) eqn:E in H; [|done]. inv_ok.
  rewrite !andb_true_iff, !Z.leb_le in E. destruct E as ((((? & ?) & ?) & ?) & ?).
  destruct (Z.leb_spec doff i); simpl.
  - rewrite lookup_app_r by (rewrite length_take; lia).
    rewrite length_take. replace (Z.to_nat i - _)%nat with (Z.to_nat (i - doff)) by lia.
    destruct (Z.ltb_spec i (doff + n)).
    + rewrite lookup_app_l by (rewrite length_take, length_drop; lia).
      rewrite lookup_take_lt by lia. rewrite lookup_drop. f_equal. lia.
    + rewrite lookup_app_r by (rewrite length_take, length_drop; lia).
      rewrite length_take, length_drop, lookup_drop. f_equal. lia.
  - rewrite lookup_app_l by (rewrite length_take; lia).
    apply lookup_take_lt. lia.
Qed.

Lemma memcpy_length dst doff src soff n out :
  memcpy dst doff src soff n = Ok out -> length out = length dst.
Proof.
  intros H. unfold memcpy in H. destruct (_ && _) eqn:E in H; [|done]. inv_ok.
  rewrite !andb_true_iff, !Z.leb_le in E. destruct E as ((((? & ?) & ?) & ?) & ?).
  rewrite !length_app, !length_take, !length_drop. lia.
Qed.

(** ** Well-formed functional accesses *)

(** A packet whose address, size and data are set and in range. *)
Record func_pkt (pkt : Packet) (d : list Z) : Prop := {
  fp_addr : has_flag VALID_ADDR pkt = true;
  fp_size : has_flag VALID_SIZE pkt = true;
  fp_ptr : has_flag (Z.lor STATIC_DATA DYNAMIC_DATA) pkt = true;
  fp_data : data pkt = Some d;
  fp_len : Z.of_nat (length d) = size pkt;
  fp_pos : 0 < size pkt < 2 ^ 31;
  fp_low : 0 <= addr pkt;
  fp_high : addr pkt + size pkt <= 2 ^ 64;
  fp_print : isPrint pkt = false;
  fp_bv : bytesValid pkt = [] \/ length (bytesValid pkt) = length d;
}.

(** A value of [n] bytes at [a]. *)
Record func_val (a n : Z) (v : list Z) : Prop := {
  fv_len : Z.of_nat (length v) = n;
  fv_pos : 0 < n < 2 ^ 31;
  fv_low : 0 <= a;
  fv_high : a + n <= 2 ^ 64;
}.

(** The byte of [d], the bytes at [a], at address [x]. *)
Definition byte_at (a : Z) (d : list Z) (x : Z) : option Z :=
  if x <? a then None else d !! Z.to_nat (x - a).

Lemma getAddr_ok pkt d : func_pkt pkt d -> getAddr pkt = Ok (addr pkt).
Proof. intros H. unfold getAddr. by rewrite (fp_addr _ _ H). Qed.
Lemma getSize_ok pkt d : func_pkt pkt d -> getSize pkt = Ok (size pkt).
Proof. intros H. unfold getSize. by rewrite (fp_size _ _ H). Qed.
Lemma getPtr_ok pkt d : func_pkt pkt d -> getPtr pkt = Ok d.
Proof. intros H. unfold getPtr. by rewrite (fp_ptr _ _ H), (fp_data _ _ H). Qed.

(** The two ranges share a byte and the security attributes agree. *)
Definition overlaps (pkt : Packet) (a : Z) (sec : bool) (n : Z) : Prop :=
  sec = _isSecure pkt /\ addr pkt < a + n /\ a < addr pkt + size pkt.

Lemma overlap_guard pkt d a sec n v :
  func_pkt pkt d -> func_val a n v -> overlaps pkt a sec n ->
  negb (eqb sec (_isSecure pkt)) || (addr pkt >? u64 (a + n - 1))
    || (a >? u64 (addr pkt + size pkt - 1)) = false.
Proof.
  intros [] [] (-> & ? & ?). rewrite eqb_reflx. simpl.
  rewrite !uwrap_small by (split; lia).
  destruct (Z.gtb_spec (addr pkt) (a + n - 1)); [lia|].
  by destruct (Z.gtb_spec a (addr pkt + size pkt - 1)); [lia|].
Qed.

(** [_data[x]] written through [memcpy], seen by address. *)
Lemma memcpy_byte_at da dst sa src lo n out x :
  memcpy dst (lo - da) src (lo - sa) n = Ok out ->
  da <= lo -> sa <= lo ->
  byte_at da out x =
    if (lo <=? x) && (x <? lo + n) then byte_at sa src x else byte_at da dst x.
Proof.
  intros H ? ?. unfold byte_at. destruct (Z.ltb_spec x da).
  - destruct (Z.leb_spec lo x); [lia|]. done.
  - rewrite (memcpy_lookup _ _ _ _ _ _ (x - da) H) by lia.
    replace (lo - da <=? x - da) with (lo <=? x) by (destruct (Z.leb_spec lo x), (Z.leb_spec (lo - da) (x - da)); lia).
    replace (x - da <? lo - da + n) with (x <? lo + n) by (destruct (Z.ltb_spec x (lo + n)), (Z.ltb_spec (x - da) (lo - da + n)); lia).
    destruct (Z.leb_spec lo x); simpl; [|done].
    destruct (Z.ltb_spec x sa); [lia|]. by replace (lo - sa + (x - da - (lo - da))) with (x - sa) by lia.
Qed.

Lemma checkFunctional_data pkt d a sec n v :
  func_pkt pkt d -> func_val a n v -> overlaps pkt a sec n ->
  s32 (addr pkt - a) = addr pkt - a /\
  u64 (addr pkt + size pkt - 1) = addr pkt + size pkt - 1 /\
  u64 (a + n - 1) = a + n - 1.
Proof.
  intros [] [] (? & ? & ?). split; [apply s32_small; lia|].
  split; apply uwrap_small; split; lia.
Qed.

Ltac start_functional Hp Hv Ho :=
  unfold checkFunctional;
  rewrite (getAddr_ok _ _ Hp), (getSize_ok _ _ Hp); simpl mbind; cbv zeta;
  rewrite (overlap_guard _ _ _ _ _ _ Hp Hv Ho), (fp_print _ _ Hp), (getPtr_ok _ _ Hp);
  destruct (checkFunctional_data _ _ _ _ _ _ Hp Hv Ho) as (-> & -> & ->).

(** A functional write that overlaps the value never fails, updates exactly
    the shared bytes with the packet's, leaves the packet and the length of the
    value as they are and lets the access go on to other holders of the data. *)
Theorem functional_write_updates_overlap pkt d a sec n v :
  func_pkt pkt d -> func_val a n v -> overlaps pkt a sec n ->
  isRead pkt = false -> isWrite pkt = true ->
  exists v', checkFunctional pkt a sec n (Some v) = Ok (false, pkt, Some v') /\
    length v' = length v /\
    forall x, byte_at a v' x =
      if (addr pkt <=? x) && (x <? addr pkt + size pkt) && (a <=? x) && (x <? a + n)
      then byte_at (addr pkt) d x else byte_at a v x.
Proof.
  intros Hp Hv Ho Hr Hw. start_functional Hp Hv Ho. rewrite Hr, Hw. simpl mbind.
  remember (Z.max (addr pkt) a) as lo eqn:Hlo.
  remember (Z.min (addr pkt + size pkt - 1) (a + n - 1)) as hi eqn:Hhi.
  assert (exists v', memcpy v (lo - a) d (lo - addr pkt) (hi - lo + 1) = Ok v') as [v' Hc].
  { destruct Hp, Hv, Ho as (? & ? & ?). eexists. apply memcpy_ok; lia. }
  exists v'. split.
  { destruct (Z.geb_spec (addr pkt - a) 0) as [|].
    - assert (lo = addr pkt) as Elo by lia. rewrite Elo, Z.sub_diag in Hc. by rewrite Hc.
    - assert (lo = a) as Elo by lia. rewrite Elo, Z.sub_diag in Hc.
      replace (- (addr pkt - a)) with (a - addr pkt) by lia. by rewrite Hc. }
  split; [by eapply memcpy_length|]. intros x.
  rewrite (memcpy_byte_at a v (addr pkt) d lo _ v' x Hc) by lia.
  replace (_ && _ && _ && _) with ((lo <=? x) && (x <? lo + (hi - lo + 1))); [done|].
  apply eq_bool_prop_intro. rewrite !Is_true_true, !andb_true_iff, !Z.leb_le, !Z.ltb_lt. lia.
Qed.

(** Where the bytes copied by a partially overlapping read end: after the last
    shared byte when the packet contains the value, at the last shared byte
    (which is left out) otherwise. *)
Definition copied_end (pkt : Packet) (a n : Z) : Z :=
  if (addr pkt <=? a) && (a + n <=? addr pkt + size pkt) then a + n
  else Z.min (addr pkt + size pkt) (a + n) - 1.

(** An access to bytes that all lie in the value. *)
Lemma functional_read_within pkt d a sec n v :
  func_pkt pkt d -> func_val a n v -> overlaps pkt a sec n -> isRead pkt = true ->
  a <= addr pkt -> addr pkt + size pkt <= a + n ->
  exists d' bv, checkFunctional pkt a sec n (Some v) =
      Ok (true, pkt <| data := Some d' |> <| bytesValid := bv |>, Some v) /\
    memcpy d 0 v (addr pkt - a) (size pkt) = Ok d' /\ length bv = length d.
Proof.
  intros Hp Hv Ho Hr ? ?. start_functional Hp Hv Ho. rewrite Hr. simpl mbind.
  destruct (Z.geb_spec (addr pkt) a); [|lia].
  destruct (Z.leb_spec (addr pkt + size pkt - 1) (a + n - 1)); [|lia]. simpl andb. cbv iota.
  assert (exists d', memcpy d 0 v (addr pkt - a) (size pkt) = Ok d') as [d' Hc].
  { destruct Hp, Hv. eexists. apply memcpy_ok; lia. }
  rewrite Hc. simpl mbind. eexists d', _. split; [done|]. split; [done|].
  destruct Hp. destruct (bytesValid pkt) eqn:E; [rewrite length_replicate; lia|]. by destruct fp_bv0.
Qed.

Lemma functional_write_within pkt d a sec n v :
  func_pkt pkt d -> func_val a n v -> overlaps pkt a sec n -> isRead pkt = false -> isWrite pkt = true ->
  a <= addr pkt -> addr pkt + size pkt <= a + n ->
  exists v', checkFunctional pkt a sec n (Some v) = Ok (false, pkt, Some v') /\
    memcpy v (addr pkt - a) d 0 (size pkt) = Ok v'.
Proof.
  intros Hp Hv Ho Hr Hw ? ?. start_functional Hp Hv Ho. rewrite Hr, Hw. simpl mbind.
  destruct (Z.geb_spec (addr pkt - a) 0); [|lia].
  replace (Z.min (addr pkt + size pkt - 1) (a + n - 1) - addr pkt + 1) with (size pkt) by lia.
  destruct Hp, Hv. rewrite memcpy_ok by lia. simpl mbind. eauto.
Qed.

(** A functional read of bytes that all lie in the value returns true and
    leaves in the packet exactly the value's bytes of its address range. *)
Theorem functional_read_complete pkt d a sec n v :
  func_pkt pkt d -> func_val a n v -> overlaps pkt a sec n -> isRead pkt = true ->
  a <= addr pkt -> addr pkt + size pkt <= a + n ->
  exists pkt' d', checkFunctional pkt a sec n (Some v) = Ok (true, pkt', Some v) /\
    data pkt' = Some d' /\ length d' = length d /\
    forall x, addr pkt <= x < addr pkt + size pkt ->
      byte_at (addr pkt) d' x = byte_at a v x.
Proof.
  intros Hp Hv Ho Hr ? ?. destruct (functional_read_within pkt d a sec n v) as (d' & bv & E & Hc & _); try done.
  eexists _, d'. split; [exact E|]. split; [done|]. split; [by eapply memcpy_length|].
  intros x Hx. rewrite <- (Z.sub_diag (addr pkt)) in Hc.
  rewrite (memcpy_byte_at (addr pkt) d a v (addr pkt) _ d' x Hc) by lia.
  destruct (Z.leb_spec (addr pkt) x); [|lia]. by destruct (Z.ltb_spec x (addr pkt + size pkt)); [|lia].
Qed.

(** [bytesValid] before the loops of a partial read. *)
Definition valid_before (pkt : Packet) : list bool :=
  match bytesValid pkt with [] => replicate (Z.to_nat (size pkt)) false | bv => bv end.

Lemma valid_before_length pkt d :
  func_pkt pkt d -> length (valid_before pkt) = Z.to_nat (size pkt).
Proof.
  intros []. unfold valid_before. destruct (bytesValid pkt) eqn:E.
  - apply length_replicate.
  - destruct fp_bv0 as [? | ->]; [done|lia].
Qed.

Lemma mark_valid_lookup bv first n i :
  (first + n <= length bv)%nat -> (i < length bv)%nat ->
  mark_valid bv first n !! i =
    if (first <=? i)%nat && (i <? first + n)%nat then Some true else bv !! i.
Proof.
  intros ? ?. unfold mark_valid.
  destruct (Nat.leb_spec first i); simpl.
  - rewrite lookup_app_r by (rewrite length_take; lia). rewrite length_take.
    destruct (Nat.ltb_spec i (first + n)).
    + rewrite lookup_app_l by (rewrite length_replicate; lia).
      apply lookup_replicate_2. lia.
    + rewrite lookup_app_r by (rewrite length_replicate; lia).
      rewrite length_replicate, lookup_drop. f_equal. lia.
  - rewrite lookup_app_l by (rewrite length_take; lia). apply lookup_take_lt. lia.
Qed.

Lemma mark_valid_all bv first n :
  (first + n <= length bv)%nat ->
  forallb id (take first bv) && forallb id (drop (first + n) (mark_valid bv first n))
  = forallb id (mark_valid bv first n).
Proof.
  intros. unfold mark_valid. rewrite !forallb_app.
  assert (forallb id (replicate n true) = true) as -> by (clear; induction n; simpl; auto).
  rewrite app_assoc, drop_app_length'; [done|].
  rewrite length_app, length_take, length_replicate. lia.
Qed.

(** The arm of the overlap chosen copies [lo, copied_end). *)
Lemma overlap_spec pkt d a sec n v :
  func_pkt pkt d -> func_val a n v -> overlaps pkt a sec n ->
  ~ (a <= addr pkt /\ addr pkt + size pkt <= a + n) ->
  let lo := Z.max (addr pkt) a in
  overlap (addr pkt) (addr pkt + size pkt - 1) a (a + n - 1) n =
    Ok (MkOverlap (lo - addr pkt) (lo - a) (copied_end pkt a n - lo)).
Proof.
  intros [] [] (? & ? & ?) ? lo. unfold overlap, copied_end, lo.
  rewrite !Z.geb_leb, !Z.gtb_ltb.
  destruct (Z.ltb_spec a (addr pkt)), (Z.leb_spec (addr pkt) a),
    (Z.leb_spec (a + n - 1) (addr pkt + size pkt - 1)),
    (Z.leb_spec (a + n) (addr pkt + size pkt)),
    (Z.ltb_spec (addr pkt + size pkt - 1) (a + n - 1)); simpl; try lia;
    rewrite ?s32_small by lia; do 2 f_equal; lia.
Qed.

(** C34: a functional read that overlaps the value in part copies the bytes from
    the first shared one up to [copied_end], marks exactly these as valid, keeps
    every other byte and every other mark, and returns true exactly when all
    bytes of the packet are marked. When neither range contains the other the
    last shared byte is not copied ([copied_end] stops one short). *)
Theorem functional_read_partial pkt d a sec n v :
  func_pkt pkt d -> func_val a n v -> overlaps pkt a sec n -> isRead pkt = true ->
  ~ (a <= addr pkt /\ addr pkt + size pkt <= a + n) ->
  let lo := Z.max (addr pkt) a in
  let hi := copied_end pkt a n in
  exists pkt' d',
    checkFunctional pkt a sec n (Some v) = Ok (forallb id (bytesValid pkt'), pkt', Some v) /\
    data pkt' = Some d' /\
    (forall x, byte_at (addr pkt) d' x =
      if (lo <=? x) && (x <? hi) then byte_at a v x else byte_at (addr pkt) d x) /\
    (forall i, (i < Z.to_nat (size pkt))%nat ->
      bytesValid pkt' !! i =
        if (lo <=? addr pkt + Z.of_nat i) && (addr pkt + Z.of_nat i <? hi) then Some true
        else valid_before pkt !! i).
Proof.
  intros Hp Hv Ho Hr Hn lo hi. start_functional Hp Hv Ho. rewrite Hr. simpl mbind.
  assert ((addr pkt >=? a) && (addr pkt + size pkt - 1 <=? a + n - 1) = false) as ->.
  { rewrite Z.geb_leb. apply andb_false_iff. rewrite !Z.leb_gt. lia. }
  rewrite (overlap_spec _ _ _ _ _ _ Hp Hv Ho Hn). simpl mbind. fold lo hi.
  pose proof (valid_before_length _ _ Hp) as Hlen.
  assert (lo <= hi <= Z.min (addr pkt + size pkt) (a + n)) as Hhi.
  { unfold lo, hi, copied_end. destruct Hp, Hv, Ho as (? & ? & ?).
    destruct (_ && _) eqn:E; rewrite ?andb_true_iff, ?Z.leb_le in E; lia. }
  assert (addr pkt <= lo /\ a <= lo) as [? ?] by lia.
  assert (exists d', memcpy d (lo - addr pkt) v (lo - a) (hi - lo) = Ok d') as [d' Hc].
  { destruct Hp, Hv. eexists. apply memcpy_ok; lia. }
  rewrite Hc. simpl mbind. fold (valid_before pkt). unfold track_valid. simpl.
  destruct (Nat.ltb_spec (length (valid_before pkt))
    (Z.to_nat (lo - addr pkt) + Z.to_nat (hi - lo))); [lia|].
  rewrite mark_valid_all by lia. simpl.
  exists (pkt <| data := Some d' |>
    <| bytesValid := mark_valid (valid_before pkt) (Z.to_nat (lo - addr pkt)) (Z.to_nat (hi - lo)) |>), d'.
  split; [done|]. split; [done|]. split.
  - intros x. rewrite (memcpy_byte_at (addr pkt) d a v lo _ d' x Hc) by lia.
    by replace (lo + (hi - lo)) with hi by lia.
  - intros i Hi. simpl. rewrite mark_valid_lookup by lia.
    replace (_ && _) with ((lo <=? addr pkt + Z.of_nat i) && (addr pkt + Z.of_nat i <? hi)); [done|].
    apply eq_bool_prop_intro.
    rewrite !Is_true_true, !andb_true_iff, !Z.leb_le, !Z.ltb_lt, Nat.leb_le, Nat.ltb_lt. lia.
Qed.

(** ** Concrete packets *)

(** A packet for [length d] bytes at [a] with static data. *)
Definition packet_at (c : Command) (a : Z) (d : list Z) : Packet :=
  MkPacket (Z.lor VALID_ADDR (Z.lor VALID_SIZE STATIC_DATA)) c Request.Request0
    (Some d) a false (Z.of_nat (length d)) InvalidCmd [] 0 0 [].

Lemma packet_at_ok c a d :
  MemCmd.isPrint c = false -> (0 < length d < 100)%nat -> 0 <= a <= 2 ^ 40 ->
  func_pkt (packet_at c a d) d.
Proof. intros. split; simpl; auto; lia. Qed.

Lemma functional_write_updates_overlap_witness :
  exists v', checkFunctional (packet_at WriteReq 2 [10; 11; 12; 13]) 4 false 4
               (Some [0; 1; 2; 3]) = Ok (false, packet_at WriteReq 2 [10; 11; 12; 13], Some v')
             /\ byte_at 4 v' 5 = Some 13 /\ byte_at 4 v' 6 = Some 2.
Proof.
  destruct (functional_write_updates_overlap (packet_at WriteReq 2 [10; 11; 12; 13])
    [10; 11; 12; 13] 4 false 4 [0; 1; 2; 3]) as (v' & E & _ & Hb).
  - apply packet_at_ok; [reflexivity | simpl; lia | lia].
  - split; simpl; lia.
  - split; simpl; lia.
  - reflexivity.
  - reflexivity.
  - exists v'. rewrite E, !Hb. auto.
Defined.

Lemma functional_read_complete_witness :
  exists pkt' d', checkFunctional (packet_at ReadReq 2 [0; 0]) 0 false 8
               (Some [0; 1; 2; 3; 4; 5; 6; 7]) = Ok (true, pkt', Some [0; 1; 2; 3; 4; 5; 6; 7])
             /\ data pkt' = Some d' /\ byte_at 2 d' 3 = Some 3.
Proof.
  destruct (functional_read_complete (packet_at ReadReq 2 [0; 0])
    [0; 0] 0 false 8 [0; 1; 2; 3; 4; 5; 6; 7]) as (pkt' & d' & E & Ed & _ & Hb).
  - apply packet_at_ok; [reflexivity | simpl; lia | lia].
  - split; simpl; lia.
  - split; simpl; lia.
  - reflexivity.
  - simpl; lia.
  - simpl; lia.
  - exists pkt', d'. split; [exact E|]. split; [exact Ed|]. apply (Hb 3). simpl; lia.
Defined.

(** A read of [2, 6) against the value at [0, 4): byte 2 is copied, byte 3,
    which the value also holds, is not. *)
Lemma functional_read_partial_witness :
  exists pkt' d', checkFunctional (packet_at ReadReq 2 [9; 9; 9; 9]) 0 false 4
               (Some [0; 1; 2; 3]) = Ok (forallb id (bytesValid pkt'), pkt', Some [0; 1; 2; 3])
             /\ data pkt' = Some d' /\ byte_at 2 d' 2 = Some 2 /\ byte_at 2 d' 3 = Some 9
             /\ bytesValid pkt' !! 1%nat = Some false.
Proof.
  destruct (functional_read_partial (packet_at ReadReq 2 [9; 9; 9; 9])
    [9; 9; 9; 9] 0 false 4 [0; 1; 2; 3]) as (pkt' & d' & E & Ed & Hb & Hv).
  - apply packet_at_ok; [reflexivity | simpl; lia | lia].
  - split; simpl; lia.
  - split; simpl; lia.
  - reflexivity.
  - simpl; lia.
  - exists pkt', d'. split; [exact E|]. split; [exact Ed|].
    split; [apply (Hb 2)|]. split; [apply (Hb 3)|]. apply (Hv 1%nat). simpl; lia.
Defined.

End Functional.
