(* ===== verification/AbstractMemory.v ===== *)
(** Physical memory, [mem/abstract_mem.hh] and [mem/abstract_mem.cc]: untimed
    accesses to a contiguous range of bytes, with the reservations of
    load-locked and store-conditional. *)

From stdpp Require Import fin_maps gmap.
From S2P Require Import Prelude IntMath AddrRange Request MemCmd Packet.
Local Open Scope Z_scope.

Module AbstractMemory.

(** ** Reservations *)

Record LockedAddr := MkLockedAddr {
  addr : Z;
  contextId : Z;
}.
#[global] Instance eta_LockedAddr : Eta LockedAddr := fun l =>
  MkLockedAddr (addr l) (contextId l).
#[global] Instance LockedAddr_eq_dec : EqDecision LockedAddr.
Proof. solve_decision. Defined.

Definition Addr_Mask : Z := 0xf.
Definition mask (paddr : Z) : Z := Z.land paddr (unot 64 Addr_Mask).

Definition matchesContext (req : Request.Request) (l : LockedAddr) : outcome bool :=
  c ← Request.contextId req;
  Ok (contextId l =? c).

Definition LockedAddr_new (req : Request.Request) : outcome LockedAddr :=
  a ← Request.getPaddr req;
  c ← Request.contextId req;
  Ok (MkLockedAddr (mask a) c).

(** ** State *)

(** [pmemAddr] is the host memory, [None] for a null memory. [wakeups] are the
    contexts whose CPU was woken up, in order. The statistics are the masters
    counted so far, with the number of bytes where it is counted. *)
Record AbstractMemory := MkMemory {
  range : AddrRange.AddrRange;
  pmemAddr : option (list Z);
  lockedAddrList : list LockedAddr;
  wakeups : list Z;
  numReads : list Z;
  numWrites : list Z;
  numOther : list Z;
  bytesRead : list (Z * Z);
  bytesInstRead : list (Z * Z);
  bytesWritten : list (Z * Z);
}.
#[global] Instance eta_AbstractMemory : Eta AbstractMemory := fun m =>
  MkMemory (range m) (pmemAddr m) (lockedAddrList m) (wakeups m) (numReads m) (numWrites m)
    (numOther m) (bytesRead m) (bytesInstRead m) (bytesWritten m).

Definition AbstractMemory_new (r : AddrRange.AddrRange) : AbstractMemory :=
  MkMemory r None [] [] [] [] [] [] [] [].

Definition size (m : AbstractMemory) : Z := AddrRange.size (range m).
Definition init (pageBytes : Z) (m : AbstractMemory) : outcome unit :=
  ensure PanicError (size m mod pageBytes =? 0).
Definition setBackingStore (pmem : option (list Z)) (m : AbstractMemory) : AbstractMemory :=
  m <| pmemAddr := pmem |>.
Definition addLockedAddr (l : LockedAddr) (m : AbstractMemory) : AbstractMemory :=
  m <| lockedAddrList ::= (fun ls => ls ++ [l]) |>.

(** ** Load-locked and store-conditional *)

(** The loop of [trackLoadLocked]: the first record of the context, if any, is
    given the new address. *)
Fixpoint retarget (req : Request.Request) (paddr : Z) (ls : list LockedAddr)
  : outcome (option (list LockedAddr)) :=
  match ls with
  | [] => Ok None
  | l :: ls =>
      b ← matchesContext req l;
      if b : bool then Ok (Some (l <| addr := paddr |> :: ls))
      else r ← retarget req paddr ls; Ok (option_map (cons l) r)
  end.

Definition trackLoadLocked (pkt : Packet.Packet) (m : AbstractMemory) : outcome AbstractMemory :=
  let req := Packet.req pkt in
  a ← Request.getPaddr req;
  let paddr := mask a in
  r ← retarget req paddr (lockedAddrList m);
  match r with
  | Some ls => Ok (m <| lockedAddrList := ls |>)
  | None =>
      l ← LockedAddr_new req;
      Ok (m <| lockedAddrList ::= cons l |>)
  end.

(** The search of [checkLockedAddrList] for the context's own reservation. *)
Fixpoint find_lock (req : Request.Request) (paddr : Z) (ls : list LockedAddr) : outcome bool :=
  match ls with
  | [] => Ok false
  | l :: ls =>
      b ← (if addr l =? paddr then matchesContext req l else Ok false);
      if b : bool then Ok true else find_lock req paddr ls
  end.

(** The result is the return value, the packet (the extra data of its request
    reports the outcome of a store-conditional) and the memory. *)
Definition checkLockedAddrList (pkt : Packet.Packet) (m : AbstractMemory)
  : outcome (bool * Packet.Packet * AbstractMemory) :=
  let req := Packet.req pkt in
  a ← Request.getPaddr req;
  let paddr := mask a in
  let isLLSC := Packet.isLLSC pkt in
  '(allowStore, pkt) ←
    (if isLLSC then
       found ← find_lock req paddr (lockedAddrList m);
       Ok (found : bool, pkt <| Packet.req ::= Request.setExtraData (b2z found) |>)
     else Ok (true, pkt));
  let m := if allowStore : bool then
             let erased := filter (fun l => addr l = paddr) (lockedAddrList m) in
             m <| wakeups ::= (fun w => w ++ (contextId <$> erased)) |>
               <| lockedAddrList ::= filter (fun l => addr l <> paddr) |>
           else m in
  Ok (allowStore, pkt, m).

Definition writeOK (pkt : Packet.Packet) (m : AbstractMemory)
  : outcome (bool * Packet.Packet * AbstractMemory) :=
  match lockedAddrList m with
  | [] =>
      let isLLSC := Packet.isLLSC pkt in
      let pkt := if isLLSC then pkt <| Packet.req ::= Request.setExtraData 0 |> else pkt in
      Ok (negb isLLSC, pkt, m)
  | _ => checkLockedAddrList pkt m
  end.

(** ** Accesses *)

(** The assertion at the start of an access, and [hostAddr - pmemAddr]. *)
Definition check_range (pkt : Packet.Packet) (m : AbstractMemory) : outcome Z :=
  a ← Packet.getAddr pkt;
  n ← Packet.getSize pkt;
  sub ← AddrRange.isSubset (AddrRange.AddrRange_plain a (u64 (a + n - 1))) (range m);
  _ ← ensure AssertFailed sub;
  Ok (a - AddrRange._start (range m)).

(** [memcpy(pkt->getPtr(), hostAddr, pkt->getSize())]. *)
Definition copy_out (host : list Z) (off : Z) (pkt : Packet.Packet) : outcome Packet.Packet :=
  d ← Packet.getPtr pkt;
  n ← Packet.getSize pkt;
  d ← Packet.memcpy d 0 host off n;
  Ok (pkt <| Packet.data := Some d |>).

(** [memcpy(hostAddr, pkt->getConstPtr(), pkt->getSize())]. *)
Definition copy_in (host : list Z) (off : Z) (pkt : Packet.Packet) : outcome (list Z) :=
  d ← Packet.getPtr pkt;
  n ← Packet.getSize pkt;
  Packet.memcpy host off d 0 n.

(** Whether a (conditional) swap writes: the comparison with the old bytes. *)
Definition swap_writes (host : list Z) (off n : Z) (req : Request.Request) : outcome bool :=
  if Request.isCondSwap req then
    if n =? 8 then
      v ← Request.getExtraData req; Ok (Packet.same_bytes (Packet.le_bytes 8 v) host off)
    else if n =? 4 then
      v ← Request.getExtraData req; Ok (Packet.same_bytes (Packet.le_bytes 4 v) host off)
    else Fail PanicError
  else Ok true.

Definition access_swap (off : Z) (pkt : Packet.Packet) (m : AbstractMemory)
  : outcome (Packet.Packet * AbstractMemory) :=
  match pmemAddr m with
  | None => Fail PanicError
  | Some host =>
      n ← Packet.getSize pkt;
      d ← Packet.getPtr pkt;
      overwrite_val ← Packet.memcpy (replicate (Z.to_nat n) 0) 0 d 0 n;
      pkt ← copy_out host off pkt;
      overwrite_mem ← swap_writes host off n (Packet.req pkt);
      host ← (if overwrite_mem : bool then Packet.memcpy host off overwrite_val 0 n else Ok host);
      _ ← ensure AssertFailed (negb (Request.isInstFetch (Packet.req pkt)));
      Ok (pkt, m <| pmemAddr := Some host |>
                 <| numOther ::= cons (Request.masterId (Packet.req pkt)) |>)
  end.

Definition access_read (off : Z) (pkt : Packet.Packet) (m : AbstractMemory)
  : outcome (Packet.Packet * AbstractMemory) :=
  _ ← ensure AssertFailed (negb (Packet.isWrite pkt));
  m ← (if Packet.isLLSC pkt then trackLoadLocked pkt m else Ok m);
  pkt ← match pmemAddr m with Some host => copy_out host off pkt | None => Ok pkt end;
  n ← Packet.getSize pkt;
  let id := Request.masterId (Packet.req pkt) in
  let m := m <| numReads ::= cons id |> <| bytesRead ::= cons (id, n) |> in
  Ok (pkt, if Request.isInstFetch (Packet.req pkt) then m <| bytesInstRead ::= cons (id, n) |> else m).

Definition access_write (off : Z) (pkt : Packet.Packet) (m : AbstractMemory)
  : outcome (Packet.Packet * AbstractMemory) :=
  '(ok, pkt, m) ← writeOK pkt m;
  if ok : bool then
    m ← match pmemAddr m with
        | Some host => host ← copy_in host off pkt; Ok (m <| pmemAddr := Some host |>)
        | None => Ok m
        end;
    _ ← ensure AssertFailed (negb (Request.isInstFetch (Packet.req pkt)));
    n ← Packet.getSize pkt;
    let id := Request.masterId (Packet.req pkt) in
    Ok (pkt, m <| numWrites ::= cons id |> <| bytesWritten ::= cons (id, n) |>)
  else Ok (pkt, m).

Definition access (pkt : Packet.Packet) (m : AbstractMemory)
  : outcome (Packet.Packet * AbstractMemory) :=
  off ← check_range pkt m;
  if Packet.memInhibitAsserted pkt then Ok (pkt, m)
  else
    '(pkt, m) ←
      (if decide (Packet.cmd pkt = MemCmd.SwapReq) then access_swap off pkt m
       else if Packet.isRead pkt then access_read off pkt m
       else if Packet.isInvalidate pkt then Ok (pkt, m)
       else if Packet.isWrite pkt then access_write off pkt m
       else Fail PanicError);
    pkt ← (if Packet.needsResponse pkt then Packet.makeResponse pkt else Ok pkt);
    Ok (pkt, m).

(** Printing needs the state of a print request, which is a state of another
    object, and reads the byte at the address; its output is not modelled. *)
Definition functionalAccess (pkt : Packet.Packet) (m : AbstractMemory)
  : outcome (Packet.Packet * AbstractMemory) :=
  off ← check_range pkt m;
  if Packet.isRead pkt then
    pkt ← match pmemAddr m with Some host => copy_out host off pkt | None => Ok pkt end;
    pkt ← Packet.makeResponse pkt;
    Ok (pkt, m)
  else if Packet.isWrite pkt then
    m ← match pmemAddr m with
        | Some host => host ← copy_in host off pkt; Ok (m <| pmemAddr := Some host |>)
        | None => Ok m
        end;
    pkt ← Packet.makeResponse pkt;
    Ok (pkt, m)
  else if Packet.isPrint pkt then
    _ ← ensure AssertFailed (match Packet.senderState pkt with Packet.SSOther _ :: _ => true | _ => false end);
    host ← match pmemAddr m with Some host => Ok host | None => Fail Undefined end;
    _ ← vget host off;
    Ok (pkt, m)
  else Fail PanicError.

(** ** The memory as a function of the address *)

Definition read_bytes (F : Z -> Z) (a n : Z) : list Z := (fun i => F (a + i)) <$> seqZ 0 n.
Definition write_bytes (F : Z -> Z) (a : Z) (d : list Z) : Z -> Z :=
  fun x => if decide (a <= x < a + Z.of_nat (length d)) then d !!! Z.to_nat (x - a) else F x.

Lemma read_bytes_length F a n : 0 <= n -> Z.of_nat (length (read_bytes F a n)) = n.
Proof. intros ?. unfold read_bytes. rewrite length_fmap, length_seqZ. lia. Qed.

Lemma read_bytes_lookup F a n i :
  0 <= i < n -> read_bytes F a n !! Z.to_nat i = Some (F (a + i)).
Proof.
  intros Hi. unfold read_bytes. rewrite list_lookup_fmap, lookup_seqZ_lt by lia. simpl. do 2 f_equal. lia.
Qed.

Lemma read_bytes_ext F F' a n :
  (forall x, a <= x < a + n -> F x = F' x) -> read_bytes F a n = read_bytes F' a n.
Proof.
  intros H. apply list_fmap_ext. intros i x Hx. apply lookup_seqZ in Hx as [-> ?]. apply H. lia.
Qed.

(** A list of the right length with the right bytes. *)
Lemma read_bytes_eq F a n d :
  0 <= n -> Z.of_nat (length d) = n -> (forall i, 0 <= i < n -> d !! Z.to_nat i = Some (F (a + i))) ->
  d = read_bytes F a n.
Proof.
  intros Hn Hl Hd. apply list_eq_same_length with (length d); [|done|].
  { pose proof (read_bytes_length F a n Hn). lia. }
  intros i x y Hi Hx Hy. specialize (Hd (Z.of_nat i) ltac:(lia)).
  pose proof (read_bytes_lookup F a n (Z.of_nat i) ltac:(lia)) as Hr. rewrite Nat2Z.id in *. congruence.
Qed.

(** The host memory holds the bytes [F] of the addresses [lo] to [hi]. *)
Definition host_rep (lo hi : Z) (F : Z -> Z) (host : list Z) : Prop :=
  Z.of_nat (length host) = hi - lo + 1 /\
  forall x, lo <= x <= hi -> host !! Z.to_nat (x - lo) = Some (F x).

(** A request of [d]'s length inside the memory. *)
Record mem_request (lo hi : Z) (pkt : Packet.Packet) (d : list Z) : Prop := {
  mr_addr : Packet.has_flag Packet.VALID_ADDR pkt = true;
  mr_size : Packet.has_flag Packet.VALID_SIZE pkt = true;
  mr_ptr : Packet.getPtr pkt = Ok d;
  mr_bytes : Z.of_nat (length d) = Packet.size pkt;
  mr_pos : 0 < Packet.size pkt;
  mr_lo : 0 <= lo <= Packet.addr pkt;
  mr_hi : Packet.addr pkt + Packet.size pkt - 1 <= hi < 2 ^ 64;
  mr_own : Packet.memInhibitAsserted pkt = false;
  mr_paddr : Request.hasPaddr (Packet.req pkt) = true;
}.

(** Host memory for [lo] to [hi], with the bytes [F]. *)
Record mem_rep (lo hi : Z) (F : Z -> Z) (m : AbstractMemory) : Prop := {
  rep_start : AddrRange._start (range m) = lo;
  rep_end : AddrRange._end (range m) = hi;
  rep_host : exists host, pmemAddr m = Some host /\ host_rep lo hi F host;
}.

Lemma check_range_at lo hi F m pkt :
  mem_rep lo hi F m -> Packet.has_flag Packet.VALID_ADDR pkt = true -> Packet.has_flag Packet.VALID_SIZE pkt = true ->
  0 < Packet.size pkt -> 0 <= lo <= Packet.addr pkt -> Packet.addr pkt + Packet.size pkt - 1 <= hi < 2 ^ 64 ->
  check_range pkt m = Ok (Packet.addr pkt - lo).
Proof.
  intros [Hs He _] Fa Fs Hpos Hlo Hhi. unfold check_range, Packet.getAddr, Packet.getSize.
  rewrite Fa, Fs. cbn [mbind outcome_bind ensure]. unfold AddrRange.isSubset, AddrRange.interleaved. simpl.
  rewrite Hs, He, uwrap_small by (split; lia). rewrite Z.geb_leb, !(proj2 (Z.leb_le _ _)) by lia. done.
Qed.

Lemma check_range_ok lo hi F m pkt d :
  mem_rep lo hi F m -> mem_request lo hi pkt d -> check_range pkt m = Ok (Packet.addr pkt - lo).
Proof. intros Hm []. by apply (check_range_at lo hi F). Qed.

Lemma copy_out_ok lo hi F host pkt d :
  host_rep lo hi F host -> mem_request lo hi pkt d ->
  copy_out host (Packet.addr pkt - lo) pkt =
    Ok (pkt <| Packet.data := Some (read_bytes F (Packet.addr pkt) (Packet.size pkt)) |>).
Proof.
  intros [Hl Hh] [_ Fs Hp Hb Hpos Hlo Hhi _ _]. unfold copy_out, Packet.getSize. rewrite Hp, Fs.
  cbn [mbind outcome_bind ensure].
  destruct (Packet.memcpy_total d 0 host (Packet.addr pkt - lo) (Packet.size pkt)) as (d' & E); try lia.
  rewrite E. cbn [mbind outcome_bind]. destruct (Packet.memcpy_spec _ _ _ _ _ _ E) as [El Ex].
  rewrite <- (read_bytes_eq F (Packet.addr pkt) (Packet.size pkt) d'); [done|lia|lia|].
  intros i Hi. rewrite Ex, decide_True by lia. rewrite <- Hh by lia. f_equal. lia.
Qed.

Lemma copy_in_ok lo hi F host pkt d :
  host_rep lo hi F host -> mem_request lo hi pkt d ->
  exists host', copy_in host (Packet.addr pkt - lo) pkt = Ok host' /\
    host_rep lo hi (write_bytes F (Packet.addr pkt) d) host'.
Proof.
  intros [Hl Hh] [_ Fs Hp Hb Hpos Hlo Hhi _ _]. unfold copy_in, Packet.getSize. rewrite Hp, Fs.
  cbn [mbind outcome_bind ensure].
  destruct (Packet.memcpy_total host (Packet.addr pkt - lo) d 0 (Packet.size pkt)) as (h' & E); try lia.
  exists h'. split; [done|]. destruct (Packet.memcpy_spec _ _ _ _ _ _ E) as [El Ex].
  split; [lia|]. intros x Hx. rewrite Ex. unfold write_bytes.
  destruct (decide (Packet.addr pkt <= x < _)).
  - rewrite decide_True by lia. replace (Z.to_nat 0 + _)%nat with (Z.to_nat (x - Packet.addr pkt)) by lia.
    rewrite list_lookup_lookup_total_lt; [done|lia].
  - rewrite decide_False by lia. by apply Hh.
Qed.

(** ** Reservations as a map from contexts to granules *)

Definition locks (ls : list LockedAddr) : gmap Z Z :=
  list_to_map ((fun l => (contextId l, addr l)) <$> ls).

Lemma locks_cons l ls : locks (l :: ls) = <[contextId l := addr l]> (locks ls).
Proof. done. Qed.

(** Each context has at most one reservation. *)
Definition one_each (ls : list LockedAddr) : Prop := NoDup (contextId <$> ls).

Lemma locks_elem ls c a :
  one_each ls -> locks ls !! c = Some a <-> MkLockedAddr a c ∈ ls.
Proof.
  intros Hnd. unfold locks. rewrite <- elem_of_list_to_map.
  - rewrite list_elem_of_fmap. split.
    + intros ([a' c'] & [= -> ->] & Hin). done.
    + intros Hin. by exists (MkLockedAddr a c).
  - rewrite <- list_fmap_compose. exact Hnd.
Qed.

Lemma find_lock_ok req c paddr ls :
  Request.contextId req = Ok c ->
  find_lock req paddr ls = Ok (bool_decide (MkLockedAddr paddr c ∈ ls)).
Proof.
  intros Hc. induction ls as [|[a' c'] ls IH]; simpl; [done|]. unfold matchesContext. rewrite Hc. simpl.
  rewrite (bool_decide_ext _ (a' = paddr /\ c' = c \/ MkLockedAddr paddr c ∈ ls))
    by (rewrite elem_of_cons; naive_solver).
  destruct (Z.eqb_spec a' paddr), (Z.eqb_spec c' c); subst; simpl;
    try (by rewrite bool_decide_eq_true_2 by auto); rewrite IH; f_equal; apply bool_decide_ext; naive_solver.
Qed.

Lemma retarget_ok req c paddr ls :
  Request.contextId req = Ok c -> one_each ls ->
  exists r, retarget req paddr ls = Ok r /\
    match r with
    | None => c ∉ contextId <$> ls
    | Some ls' => contextId <$> ls' = contextId <$> ls /\ locks ls' = <[c := paddr]> (locks ls)
    end.
Proof.
  intros Hc. induction ls as [|[a' c'] ls IH]; intros Hnd; simpl; [eexists; split; [done|]; simpl; apply not_elem_of_nil|].
  unfold matchesContext. rewrite Hc. simpl. unfold one_each in *. simpl in Hnd. apply NoDup_cons in Hnd as [Hn Hnd].
  destruct (Z.eqb_spec c' c) as [->|Hne].
  - eexists. split; [done|]. split; [done|]. rewrite !locks_cons. by rewrite insert_insert_eq.
  - destruct (IH Hnd) as ([ls'|] & -> & Hr); simpl; eexists; (split; [done|]); simpl.
    + destruct Hr as [E1 E2]. split; [f_equal; exact E1|]. rewrite !locks_cons, E2.
      by apply insert_insert_ne.
    + by apply not_elem_of_cons.
Qed.

Lemma track_ok pkt c m :
  Request.contextId (Packet.req pkt) = Ok c -> Request.hasPaddr (Packet.req pkt) = true ->
  one_each (lockedAddrList m) ->
  exists ls, trackLoadLocked pkt m = Ok (m <| lockedAddrList := ls |>) /\ one_each ls /\
    locks ls = <[c := mask (Request._paddr (Packet.req pkt))]> (locks (lockedAddrList m)).
Proof.
  intros Hc Hp Hnd. unfold trackLoadLocked, LockedAddr_new, Request.getPaddr.
  unfold Request.hasPaddr in Hp. rewrite Hp. cbn [mbind outcome_bind ensure].
  destruct (retarget_ok (Packet.req pkt) c (mask (Request._paddr (Packet.req pkt))) (lockedAddrList m) Hc Hnd)
    as ([ls|] & -> & Hr); cbn [mbind outcome_bind].
  - destruct Hr as [E1 E2]. exists ls. split_and!; try done. unfold one_each. by rewrite E1.
  - rewrite Hc. cbn [mbind outcome_bind]. eexists (_ :: lockedAddrList m). split; [by destruct m|]. split; [|done].
    by apply NoDup_cons.
Qed.

Lemma erase_ok paddr ls :
  one_each ls ->
  one_each (filter (fun l => addr l <> paddr) ls) /\
  locks (filter (fun l => addr l <> paddr) ls) = filter (fun ca => ca.2 <> paddr) (locks ls).
Proof.
  intros Hnd. assert (one_each (filter (fun l => addr l <> paddr) ls)) as Hnd'.
  { unfold one_each in *. induction ls as [|l ls IH]; simpl in *; [done|].
    apply NoDup_cons in Hnd as [Hn Hnd]. rewrite filter_cons. destruct (decide _); [|by apply IH].
    simpl. apply NoDup_cons. split; [|by apply IH]. intros Hin. apply Hn.
    apply list_elem_of_fmap in Hin as (l' & -> & Hl). apply list_elem_of_filter in Hl as [_ Hl].
    by apply list_elem_of_fmap_2. }
  split; [done|]. apply map_eq. intros c. apply option_eq. intros a.
  rewrite map_lookup_filter_Some, !locks_elem by done. rewrite list_elem_of_filter. simpl. naive_solver.
Qed.

(** ** The specification of an access *)

Inductive answer :=
  | Bytes (d : list Z)
  | Stored (ok : bool).

(** The state is the reservation of each context and the byte at each address;
    [g] is the granule of the address. *)
Definition spec_access (c : MemCmd.Command) (ctx g a n : Z) (d : list Z)
  (st : gmap Z Z * (Z -> Z)) : answer * (gmap Z Z * (Z -> Z)) :=
  let '(R, F) := st in
  let stored := (filter (fun ca => ca.2 <> g) R, write_bytes F a d) in
  match c with
  | MemCmd.LoadLockedReq => (Bytes (read_bytes F a n), (<[ctx := g]> R, F))
  | MemCmd.StoreCondReq =>
      if decide (R !! ctx = Some g) then (Stored true, stored) else (Stored false, (R, F))
  | MemCmd.WriteReq => (Stored true, stored)
  | _ => (Bytes (read_bytes F a n), (R, F))
  end.

(** The requests of a CPU to memory. *)
Record cpu_request (lo hi ctx : Z) (pkt : Packet.Packet) (d : list Z) : Prop := {
  cr_mem : mem_request lo hi pkt d;
  cr_ctx : Request.contextId (Packet.req pkt) = Ok ctx;
  cr_cmd : Packet.cmd pkt ∈ [MemCmd.ReadReq; MemCmd.LoadLockedReq; MemCmd.WriteReq; MemCmd.StoreCondReq];
  cr_fetch : Packet.isWrite pkt = true -> Request.isInstFetch (Packet.req pkt) = false;
}.

(** What the response says: the bytes of a read, whether a write was done. *)
Definition answers (pkt : Packet.Packet) (r : answer) : Prop :=
  Packet.isResponse pkt = true /\
  match r with
  | Bytes d => Packet.isRead pkt = true /\ Packet.data pkt = Some d
  | Stored ok => Packet.isWrite pkt = true /\
      (Packet.origCmd pkt = MemCmd.StoreCondReq -> Request.getExtraData (Packet.req pkt) = Ok (b2z ok))
  end.

Record mem_state (lo hi : Z) (st : gmap Z Z * (Z -> Z)) (m : AbstractMemory) : Prop := {
  ms_rep : mem_rep lo hi st.2 m;
  ms_one : one_each (lockedAddrList m);
  ms_locks : locks (lockedAddrList m) = st.1;
}.

(** [pkt] after [makeResponse]. *)
Definition responded (pkt : Packet.Packet) : Packet.Packet :=
  Packet.clear_flag Packet.EXPRESS_SNOOP
    (pkt <| Packet.origCmd := Packet.cmd pkt |>
         <| Packet.cmd := MemCmd.responseCommand (Packet.cmd pkt) |>).

Lemma makeResponse_ok pkt :
  Packet.needsResponse pkt = true -> Packet.makeResponse pkt = Ok (responded pkt).
Proof.
  intros H. unfold Packet.makeResponse. rewrite H. unfold Packet.isRequest.
  by rewrite (proj1 (Packet.commandInfo_response _ H)).
Qed.

Definition granule (pkt : Packet.Packet) : Z := mask (Request._paddr (Packet.req pkt)).

Lemma access_reads lo hi st m pkt d ctx :
  mem_state lo hi st m -> mem_request lo hi pkt d ->
  Packet.isRead pkt = true -> Packet.isWrite pkt = false -> Packet.needsResponse pkt = true ->
  (Packet.isLLSC pkt = true -> Request.contextId (Packet.req pkt) = Ok ctx) ->
  exists m', access pkt m =
      Ok (responded (pkt <| Packet.data := Some (read_bytes st.2 (Packet.addr pkt) (Packet.size pkt)) |>), m') /\
    mem_state lo hi (if Packet.isLLSC pkt then (<[ctx := granule pkt]> st.1, st.2) else st) m'.
Proof.
  intros [Hrep Hone Hlocks] Hq Hr Hw Hn Hc. unfold access. rewrite (check_range_ok lo hi st.2 m pkt d) by done.
  cbn [mbind outcome_bind]. rewrite (mr_own _ _ _ _ Hq), decide_False by (intros E; unfold Packet.isWrite in Hw; by rewrite E in Hw).
  rewrite Hr. unfold access_read. rewrite Hw. cbn [mbind outcome_bind ensure negb].
  assert (exists ls, (if Packet.isLLSC pkt then trackLoadLocked pkt m else Ok m) = Ok (m <| lockedAddrList := ls |>) /\
    one_each ls /\ locks ls = if Packet.isLLSC pkt then <[ctx := granule pkt]> st.1 else st.1) as (ls & -> & Ho & El).
  { destruct (Packet.isLLSC pkt).
    - destruct (track_ok pkt ctx m (Hc eq_refl) (mr_paddr _ _ _ _ Hq) Hone) as (ls & E & Ho & El).
      exists ls. by rewrite <- Hlocks.
    - exists (lockedAddrList m). by destruct m. }
  cbn [mbind outcome_bind]. destruct Hrep as [Hs He (host & Hh & Hrep)]. simpl pmemAddr. rewrite Hh.
  rewrite (copy_out_ok lo hi st.2 host pkt d) by done. cbn [mbind outcome_bind].
  unfold Packet.getSize at 1. change (Packet.has_flag Packet.VALID_SIZE _) with (Packet.has_flag Packet.VALID_SIZE pkt).
  rewrite (mr_size _ _ _ _ Hq). cbn [mbind outcome_bind ensure]. cbv zeta.
  match goal with |- context [Packet.needsResponse ?p] => change (Packet.needsResponse p) with (Packet.needsResponse pkt) end.
  rewrite Hn, makeResponse_ok by done. cbn [mbind outcome_bind].
  eexists. split; [reflexivity|]. destruct (Request.isInstFetch _);
    (split; simpl; [split; simpl; try done; exists host; split; [done|by destruct (Packet.isLLSC pkt)]|done|rewrite El; by destruct (Packet.isLLSC pkt)]).
Qed.

(** Whether a write is done: a store-conditional needs its reservation. *)
Definition allowed (st : gmap Z Z * (Z -> Z)) (ctx : Z) (pkt : Packet.Packet) : bool :=
  negb (Packet.isLLSC pkt) || bool_decide (st.1 !! ctx = Some (granule pkt)).

(** The packet of a store-conditional reports the outcome. *)
Definition reported (ok : bool) (pkt : Packet.Packet) : Packet.Packet :=
  if Packet.isLLSC pkt then pkt <| Packet.req ::= Request.setExtraData (b2z ok) |> else pkt.

Lemma writeOK_ok lo hi st m pkt d ctx :
  mem_state lo hi st m -> mem_request lo hi pkt d ->
  (Packet.isLLSC pkt = true -> Request.contextId (Packet.req pkt) = Ok ctx) ->
  let ok := allowed st ctx pkt in
  exists ls w, writeOK pkt m = Ok (ok, reported ok pkt, m <| lockedAddrList := ls |> <| wakeups := w |>) /\
    one_each ls /\ locks ls = if ok then filter (fun ca => ca.2 <> granule pkt) st.1 else st.1.
Proof.
  intros [Hrep Hone Hlocks] Hq Hc ok. unfold writeOK, ok, allowed, reported.
  destruct (lockedAddrList m) as [|l0 ls0] eqn:Els.
  - assert (st.1 = ∅) as E0 by (rewrite <- Hlocks; done). rewrite E0.
    rewrite bool_decide_eq_false_2 by (rewrite lookup_empty; done). rewrite orb_false_r.
    exists [], (wakeups m). split; [|split; [constructor|]].
    + rewrite <- Els. by destruct (Packet.isLLSC pkt), m.
    + by destruct (Packet.isLLSC pkt); rewrite ?map_filter_empty.
  - rewrite <- Els in *. unfold checkLockedAddrList, Request.getPaddr.
    pose proof (mr_paddr _ _ _ _ Hq) as Hp. unfold Request.hasPaddr in Hp. rewrite Hp.
    cbn [mbind outcome_bind ensure]. fold (granule pkt).
    destruct (erase_ok (granule pkt) (lockedAddrList m) Hone) as [Ho El]. rewrite Hlocks in El.
    destruct (Packet.isLLSC pkt) eqn:Ell; cbn [negb orb].
    + rewrite (find_lock_ok _ ctx) by auto. cbn [mbind outcome_bind].
      rewrite (bool_decide_ext _ (st.1 !! ctx = Some (granule pkt)))
        by (by rewrite <- Hlocks, locks_elem).
      destruct (bool_decide _); eexists _, _; (split; [|split]); [by destruct m|exact Ho|exact El| |exact Hone|exact Hlocks].
      instantiate (1 := wakeups m). by destruct m.
    + cbn [mbind outcome_bind]. eexists _, _. split; [by destruct m|]. split; [exact Ho|exact El].
Qed.

Lemma reported_request lo hi ok pkt d :
  mem_request lo hi pkt d -> mem_request lo hi (reported ok pkt) d.
Proof.
  intros []. unfold reported. destruct (Packet.isLLSC pkt); [|by split]. split; try done.
  unfold Request.hasPaddr in *. simpl. change Request.VALID_EXTRA_DATA with (2 ^ 7).
  change Request.VALID_PADDR with (2 ^ 1) in *. by rewrite Flags.isSet_set_other by lia.
Qed.

Lemma access_writes lo hi st m pkt d ctx :
  mem_state lo hi st m -> mem_request lo hi pkt d ->
  Packet.isRead pkt = false -> Packet.isInvalidate pkt = false -> Packet.isWrite pkt = true ->
  Request.isInstFetch (Packet.req pkt) = false ->
  (Packet.isLLSC pkt = true -> Request.contextId (Packet.req pkt) = Ok ctx) ->
  let ok := allowed st ctx pkt in
  exists m', access pkt m =
      Ok (if Packet.needsResponse pkt then responded (reported ok pkt) else reported ok pkt, m') /\
    mem_state lo hi (if ok then (filter (fun ca => ca.2 <> granule pkt) st.1, write_bytes st.2 (Packet.addr pkt) d)
                     else st) m'.
Proof.
  intros Hms Hq Hr Hi Hw Hf Hc ok. pose proof Hms as [Hrep Hone Hlocks].
  destruct (writeOK_ok lo hi st m pkt d ctx Hms Hq Hc) as (ls & w & E & Ho & El). fold ok in E, El.
  unfold access. rewrite (check_range_ok lo hi st.2 m pkt d) by done.
  cbn [mbind outcome_bind]. rewrite (mr_own _ _ _ _ Hq), decide_False by (intros Ec; unfold Packet.isRead in Hr; by rewrite Ec in Hr).
  rewrite Hr, Hi, Hw. unfold access_write. rewrite E. cbn [mbind outcome_bind].
  assert (forall (p : Packet.Packet) f, Packet.needsResponse (p <| Packet.req ::= f |>) = Packet.needsResponse p) as Hnr by done.
  assert (Packet.needsResponse (reported ok pkt) = Packet.needsResponse pkt) as Enr
    by (unfold reported; by destruct (Packet.isLLSC pkt)).
  assert ((if Packet.needsResponse (reported ok pkt) then Packet.makeResponse (reported ok pkt) else Ok (reported ok pkt))
    = Ok (if Packet.needsResponse pkt then responded (reported ok pkt) else reported ok pkt)) as Emr.
  { rewrite Enr. destruct (Packet.needsResponse pkt) eqn:En; [|done]. apply makeResponse_ok. by rewrite Enr. }
  assert (mem_request lo hi (reported ok pkt) d) as Hq' by by apply reported_request.
  assert (Packet.addr (reported ok pkt) = Packet.addr pkt /\ Request.isInstFetch (Packet.req (reported ok pkt)) = false)
    as [Ea Ef] by (unfold reported; by destruct (Packet.isLLSC pkt)).
  destruct Hrep as [Hs He (host & Hh & Hrep)].
  destruct ok.
  - destruct (copy_in_ok lo hi st.2 host _ d Hrep Hq') as (host' & Eh & Hrep'). rewrite Ea in Eh, Hrep'.
    simpl pmemAddr. rewrite Hh. cbn [mbind outcome_bind]. rewrite Eh. cbn [mbind outcome_bind]. rewrite Ef.
    unfold Packet.getSize. rewrite (mr_size _ _ _ _ Hq'). cbn [mbind outcome_bind ensure negb].
    rewrite Emr. cbn [mbind outcome_bind]. eexists. split; [reflexivity|].
    split; simpl; [split; simpl; try done; by exists host'|done|done].
  - cbn [mbind outcome_bind]. rewrite Emr. cbn [mbind outcome_bind]. eexists. split; [reflexivity|].
    split; simpl; [split; simpl; try done; by exists host|done|done].
Qed.

(** ** Sequences of requests *)

Fixpoint run (pkts : list Packet.Packet) (m : AbstractMemory)
  : outcome (list Packet.Packet * AbstractMemory) :=
  match pkts with
  | [] => Ok ([], m)
  | pkt :: pkts =>
      '(r, m) ← access pkt m;
      '(rs, m) ← run pkts m;
      Ok (r :: rs, m)
  end.

(** A request: its packet, the context it comes from and its bytes. *)
Definition request : Type := Packet.Packet * Z * list Z.

Definition spec_step (q : request) (st : gmap Z Z * (Z -> Z)) : answer * (gmap Z Z * (Z -> Z)) :=
  let '(pkt, ctx, d) := q in
  spec_access (Packet.cmd pkt) ctx (granule pkt) (Packet.addr pkt) (Packet.size pkt) d st.

Fixpoint spec_run (qs : list request) (st : gmap Z Z * (Z -> Z)) : list answer * (gmap Z Z * (Z -> Z)) :=
  match qs with
  | [] => ([], st)
  | q :: qs =>
      let '(r, st) := spec_step q st in
      let '(rs, st) := spec_run qs st in
      (r :: rs, st)
  end.

Lemma read_answers pkt d :
  Packet.cmd pkt ∈ [MemCmd.ReadReq; MemCmd.LoadLockedReq] ->
  answers (responded (pkt <| Packet.data := Some d |>)) (Bytes d).
Proof.
  intros Hc. unfold answers, Packet.isResponse, Packet.isRead. simpl.
  rewrite !elem_of_cons, elem_of_nil in Hc. by destruct Hc as [->|[->|[]]].
Qed.

Lemma write_answers ok pkt :
  Packet.cmd pkt = MemCmd.WriteReq /\ ok = true \/ Packet.cmd pkt = MemCmd.StoreCondReq ->
  Packet.needsResponse pkt = true /\ answers (responded (reported ok pkt)) (Stored ok).
Proof.
  unfold answers, reported, Packet.isLLSC, Packet.isResponse, Packet.isWrite, Packet.needsResponse.
  intros [[E ->]|E]; rewrite E; (split; [done|]); simpl; rewrite E; (split; [done|]); (split; [done|]); [done|].
  intros _. unfold Request.getExtraData. simpl. change Request.VALID_EXTRA_DATA with (2 ^ 7).
  by rewrite Flags.isSet_set_same by lia.
Qed.

Lemma memory_step_refines lo hi st m pkt ctx d :
  mem_state lo hi st m -> cpu_request lo hi ctx pkt d ->
  exists pkt' m', access pkt m = Ok (pkt', m') /\ answers pkt' (spec_step (pkt, ctx, d) st).1 /\
    mem_state lo hi (spec_step (pkt, ctx, d) st).2 m'.
Proof.
  intros Hms [Hq Hctx Hcmd Hf]. destruct st as [R F]. unfold spec_step, spec_access.
  rewrite !elem_of_cons, elem_of_nil in Hcmd. destruct Hcmd as [E|[E|[E|[E|[]]]]].
  1-2: destruct (access_reads lo hi (R, F) m pkt d ctx Hms Hq) as (m' & Ea & Hm');
    try (by unfold Packet.isRead, Packet.isWrite, Packet.needsResponse; rewrite E); [done|];
    unfold Packet.isLLSC in Hm'; rewrite E in Hm'; eexists _, m'; split; [exact Ea|];
    rewrite E; split; [apply read_answers; rewrite E; set_solver|exact Hm'].
  all: destruct (access_writes lo hi (R, F) m pkt d ctx Hms Hq) as (m' & Ea & Hm');
    try (by unfold Packet.isRead, Packet.isWrite, Packet.isInvalidate; rewrite E);
    [apply Hf; unfold Packet.isWrite; by rewrite E|done|].
  - destruct (write_answers (allowed (R, F) ctx pkt) pkt) as [Hn Ha].
    { left. unfold allowed, Packet.isLLSC. by rewrite E. }
    rewrite Hn in Ea. eexists _, m'. split; [exact Ea|]. rewrite E.
    unfold allowed, Packet.isLLSC in Ha, Hm' |- *. by rewrite E in Ha, Hm' |- *.
  - destruct (write_answers (allowed (R, F) ctx pkt) pkt) as [Hn Ha]; [by right|].
    rewrite Hn in Ea. eexists _, m'. split; [exact Ea|]. rewrite E.
    unfold allowed, Packet.isLLSC in Ha, Hm' |- *. rewrite E in Ha, Hm' |- *. simpl in *.
    destruct (decide (R !! ctx = Some (granule pkt))) as [Hd|Hd];
      [rewrite bool_decide_eq_true_2 in Ha, Hm' |- * by done|rewrite bool_decide_eq_false_2 in Ha, Hm' |- * by done]; done.
Qed.

Lemma memory_run_refines lo hi qs : forall st m,
  mem_state lo hi st m -> Forall (fun q => cpu_request lo hi q.1.2 q.1.1 q.2) qs ->
  exists rs m', run ((fun q => q.1.1) <$> qs) m = Ok (rs, m') /\
    Forall2 answers rs (spec_run qs st).1 /\ mem_state lo hi (spec_run qs st).2 m'.
Proof.
  induction qs as [|[[pkt ctx] d] qs IH]; intros st m Hms Hqs; [by exists [], m|].
  inversion Hqs as [|? ? Hq Hqs']; subst. simpl in Hq.
  destruct (memory_step_refines lo hi st m pkt ctx d Hms Hq) as (pkt' & m1 & E & Ha & Hms1).
  destruct (spec_step (pkt, ctx, d) st) as [r st1] eqn:Es.
  destruct (IH st1 m1 Hms1 Hqs') as (rs & m2 & E2 & Ha2 & Hms2).
  cbn [run spec_run]. rewrite fmap_cons. cbn [run]. rewrite Es. change ((pkt, ctx, d).1.1) with pkt.
  rewrite E. cbn [mbind outcome_bind]. rewrite E2. cbn [mbind outcome_bind].
  destruct (spec_run qs st1) as [rs' st2].
  exists (pkt' :: rs), m2. split; [done|]. split; [by constructor|done].
Qed.

Lemma new_state lo hi host :
  Z.of_nat (length host) = hi - lo + 1 ->
  mem_state lo hi (∅, fun x => host !!! Z.to_nat (x - lo))
    (setBackingStore (Some host) (AbstractMemory_new (AddrRange.RangeIn lo hi))).
Proof.
  intros Hl. split; [|constructor|done]. split; try done. exists host. split; [done|]. split; [done|].
  intros x Hx. apply list_lookup_lookup_total_lt. lia.
Qed.

(** C21: physical memory is a map from addresses to bytes together with at most
    one load-locked reservation per context: on every sequence of reads,
    writes, load-locked and store-conditional requests to a new memory, every
    access succeeds, a read returns the bytes last written, a
    store-conditional writes exactly if its context still holds the
    reservation of its 16-byte granule, and says so, and a write takes every
    reservation of its granule away. *)
Theorem memory_refines_flat_memory lo hi host (qs : list request) :
  Z.of_nat (length host) = hi - lo + 1 ->
  Forall (fun q => cpu_request lo hi q.1.2 q.1.1 q.2) qs ->
  let m := setBackingStore (Some host) (AbstractMemory_new (AddrRange.RangeIn lo hi)) in
  let st := (∅, fun x => host !!! Z.to_nat (x - lo)) in
  exists rs m', run ((fun q => q.1.1) <$> qs) m = Ok (rs, m') /\
    Forall2 answers rs (spec_run qs st).1 /\ mem_state lo hi (spec_run qs st).2 m'.
Proof. intros Hl Hqs m st. apply memory_run_refines; [by apply new_state|done]. Qed.

Definition example_packet (c : MemCmd.Command) (ctx a n : Z) (d : list Z) : Packet.Packet :=
  Packet.MkPacket (Z.lor (Z.lor Packet.VALID_ADDR Packet.VALID_SIZE) Packet.STATIC_DATA) c
    (Request.Request0 <| Request._paddr := a |> <| Request._size := n |> <| Request._contextId := ctx |>
       <| Request.privateFlags := Z.lor (Z.lor Request.VALID_SIZE Request.VALID_PADDR) Request.VALID_CONTEXT_ID |>)
    (Some d) a false n MemCmd.InvalidCmd [] 0 0 [].
Definition example_requests : list request :=
  [(example_packet MemCmd.LoadLockedReq 1 34 2 [0; 0], 1, [0; 0]);
   (example_packet MemCmd.LoadLockedReq 2 36 1 [0], 2, [0]);
   (example_packet MemCmd.StoreCondReq 1 34 2 [7; 8], 1, [7; 8]);
   (example_packet MemCmd.StoreCondReq 2 34 2 [9; 9], 2, [9; 9]);
   (example_packet MemCmd.ReadReq 2 33 4 [0; 0; 0; 0], 2, [0; 0; 0; 0])].

(** The second store-conditional fails: the first took the reservation. *)
Lemma memory_refines_flat_memory_witness :
  exists rs m', run ((fun q => q.1.1) <$> example_requests)
      (setBackingStore (Some (seqZ 0 64)) (AbstractMemory_new (AddrRange.RangeIn 0 63))) = Ok (rs, m') /\
    Forall2 answers rs [Bytes [34; 35]; Bytes [36]; Stored true; Stored false; Bytes [33; 7; 8; 36]].
Proof.
  destruct (memory_refines_flat_memory 0 63 (seqZ 0 64) example_requests) as (rs & m' & E & Ha & _).
  - reflexivity.
  - repeat constructor; vm_compute; try congruence; set_solver.
  - exists rs, m'. split; [exact E|].
    replace [Bytes [34; 35]; _; _; _; _]
      with (spec_run example_requests (∅, fun x => seqZ 0 64 !!! Z.to_nat (x - 0))).1
      by (vm_compute; reflexivity). exact Ha.
Defined.

End AbstractMemory.
