(* ===== verification/AtomicPort.v ===== *)
(** The atomic interface of a memory object: [MasterPort::sendAtomic] of
    [mem/port.hh], which hands a packet to the peer's [recvAtomic] and gets the
    packet back, turned into a response, with the latency. The laws say what
    the object above relies on when the one below is the memory of the
    addresses [lo] to [hi]. *)

From S2P Require Import Prelude IntMath AddrRange Request MemCmd Packet AbstractMemory.
Import AbstractMemory.
Local Open Scope Z_scope.

Class AtomicPort (M : Type) :=
  sendAtomic : Packet.Packet -> M -> outcome (Packet.Packet * Z * M).

(** [pkt'] is the response to [pkt], the data aside. *)
Record reply (pkt pkt' : Packet.Packet) : Prop := {
  rp_cmd : Packet.cmd pkt' = MemCmd.responseCommand (Packet.cmd pkt);
  rp_req : Packet.req pkt' = Packet.req pkt;
  rp_addr : Packet.addr pkt' = Packet.addr pkt;
  rp_size : Packet.size pkt' = Packet.size pkt;
  rp_sec : Packet._isSecure pkt' = Packet._isSecure pkt;
  rp_flag i : 0 <= i < 32 -> i <> 1 -> Packet.has_flag (2 ^ i) pkt' = Packet.has_flag (2 ^ i) pkt;
  rp_ptr : Packet.has_flag (Z.lor Packet.STATIC_DATA Packet.DYNAMIC_DATA) pkt' =
    Packet.has_flag (Z.lor Packet.STATIC_DATA Packet.DYNAMIC_DATA) pkt;
}.

Lemma responded_reply pkt d :
  reply pkt (responded (pkt <| Packet.data := Some d |>)) /\
  Packet.data (responded (pkt <| Packet.data := Some d |>)) = Some d.
Proof.
  split; [|done]. split; try done.
  - intros i Hi Hne. unfold Packet.has_flag. simpl. change Packet.EXPRESS_SNOOP with (2 ^ 1).
    rewrite Flags.isSet_clear by lia. by rewrite decide_False by lia.
  - unfold Packet.has_flag, Flags.isSet, any_set. simpl. unfold Flags.clear. by rewrite <- Z.land_assoc.
Qed.

Class AtomicPortOk (M : Type) {AP : AtomicPort M} (lo hi : Z) := {
  (** The memory holds the bytes [F]. *)
  port_rep : (Z -> Z) -> M -> Prop;
  port_read F m pkt d :
    port_rep F m -> mem_request lo hi pkt d ->
    Packet.cmd pkt = MemCmd.ReadReq \/ Packet.cmd pkt = MemCmd.ReadExReq ->
    exists pkt' lat m', sendAtomic pkt m = Ok (pkt', lat, m') /\ port_rep F m' /\ reply pkt pkt' /\
      Packet.data pkt' = Some (read_bytes F (Packet.addr pkt) (Packet.size pkt));
  port_invalidate F m pkt d :
    port_rep F m -> mem_request lo hi pkt d -> Packet.cmd pkt = MemCmd.WriteInvalidateReq ->
    exists pkt' lat m', sendAtomic pkt m = Ok (pkt', lat, m') /\ port_rep F m' /\ reply pkt pkt';
  port_writeback F m pkt d :
    port_rep F m -> mem_request lo hi pkt d -> Packet.cmd pkt = MemCmd.Writeback ->
    Request.isInstFetch (Packet.req pkt) = false ->
    exists pkt' lat m', sendAtomic pkt m = Ok (pkt', lat, m') /\
      port_rep (write_bytes F (Packet.addr pkt) d) m' /\ Packet.isResponse pkt' = false;
}.

(** What an object below a coherent crossbar does besides: an upgrade is answered
    and changes nothing, and a request that a cache has answered is left alone. *)
Class SnoopedPortOk (M : Type) {AP : AtomicPort M} (lo hi : Z) {PO : AtomicPortOk M lo hi} := {
  port_upgrade F m pkt d :
    port_rep F m -> mem_request lo hi pkt d -> Packet.cmd pkt = MemCmd.UpgradeReq ->
    exists pkt' lat m', sendAtomic pkt m = Ok (pkt', lat, m') /\ port_rep F m' /\ reply pkt pkt';
  port_inhibited F m pkt :
    port_rep F m -> Packet.memInhibitAsserted pkt = true ->
    Packet.has_flag Packet.VALID_ADDR pkt = true -> Packet.has_flag Packet.VALID_SIZE pkt = true ->
    0 < Packet.size pkt -> 0 <= lo <= Packet.addr pkt -> Packet.addr pkt + Packet.size pkt - 1 <= hi < 2 ^ 64 ->
    exists lat m', sendAtomic pkt m = Ok (pkt, lat, m') /\ port_rep F m';
}.

(** The functional interface, [MasterPort::sendFunctional]: the packet reads or
    writes whatever is current, wherever it is, without changing the state of the
    objects it passes. *)
Class FunctionalPort (M : Type) :=
  sendFunctional : Packet.Packet -> M -> outcome (Packet.Packet * M).

Class FunctionalPortOk (M : Type) {AP : AtomicPort M} {FP : FunctionalPort M} (lo hi : Z) {PO : AtomicPortOk M lo hi} := {
  port_func_read F m pkt d :
    port_rep F m -> mem_request lo hi pkt d -> Packet.cmd pkt = MemCmd.ReadReq ->
    exists pkt' m', sendFunctional pkt m = Ok (pkt', m') /\ port_rep F m' /\ Packet.isResponse pkt' = true /\
      Packet.data pkt' = Some (read_bytes F (Packet.addr pkt) (Packet.size pkt));
  port_func_write F m pkt d :
    port_rep F m -> mem_request lo hi pkt d -> Packet.cmd pkt = MemCmd.WriteReq ->
    exists pkt' m', sendFunctional pkt m = Ok (pkt', m') /\ port_rep (write_bytes F (Packet.addr pkt) d) m' /\
      Packet.isResponse pkt' = true;
}.
