(* ===== verification/SimpleMemory.v ===== *)
(** The single-ported memory controller, [mem/simple_mem.hh] and
    [mem/simple_mem.cc]: atomic accesses, and the timing protocol of its port
    as a state machine.

    The arguments of the operations are what the controller reads from its
    surroundings: [curTick], the numbers [rnd] that [random_mt] draws, the time
    [duration] a request of a given size occupies the memory
    ([getSize() * bandwidth] as a tick count), and the peer's answer to
    [sendTimingResp]. *)

From stdpp Require Import fin_maps gmap.
From S2P Require Import Prelude IntMath AddrRange Request MemCmd Packet Functional AbstractMemory AtomicPort.
Local Open Scope Z_scope.

Module SimpleMemory.

(** ** State *)

(** A scheduled event is [Some] of its tick. [retries] counts the calls of
    [sendRetryReq], [drains] those of [signalDrainDone]. *)
Record SimpleMemory := MkSimple {
  base : AbstractMemory.AbstractMemory;
  latency : Z;
  latency_var : Z;
  packetQueue : list (Packet.Packet * Z);
  isBusy : bool;
  retryReq : bool;
  retryResp : bool;
  releaseEvent : option Z;
  dequeueEvent : option Z;
  pendingDelete : list Packet.Packet;
  drainManager : bool;
  retries : Z;
  drains : Z;
}.
#[global] Instance eta_SimpleMemory : Eta SimpleMemory := fun m =>
  MkSimple (base m) (latency m) (latency_var m) (packetQueue m) (isBusy m) (retryReq m)
    (retryResp m) (releaseEvent m) (dequeueEvent m) (pendingDelete m) (drainManager m) (retries m)
    (drains m).

Definition SimpleMemory_new (b : AbstractMemory.AbstractMemory) (latency latency_var : Z) : SimpleMemory :=
  MkSimple b latency latency_var [] false false false None None [] false 0 0.

(** ** Atomic and functional accesses *)

Definition getLatency (rnd : Z) (m : SimpleMemory) : Z :=
  u64 (latency m + (if latency_var m =? 0 then 0 else rnd)).

Definition recvAtomic (rnd : Z) (pkt : Packet.Packet) (m : SimpleMemory)
  : outcome (Packet.Packet * Z * SimpleMemory) :=
  '(pkt, b) ← AbstractMemory.access pkt (base m);
  let m := m <| base := b |> in
  Ok (pkt, if Packet.memInhibitAsserted pkt then 0 else getLatency rnd m, m).

(** ** The timing protocol *)

(** [rnd] and [rnd'] are the two draws of a request that needs a response. *)
Definition recvTimingReq (curTick : Z) (duration : Z -> Z) (rnd rnd' : Z) (pkt : Packet.Packet)
  (m : SimpleMemory) : outcome (bool * SimpleMemory) :=
  let m := m <| pendingDelete := [] |> in
  if Packet.memInhibitAsserted pkt then Ok (true, m <| pendingDelete ::= (fun l => l ++ [pkt]) |>)
  else if retryReq m then Ok (false, m)
  else if isBusy m then Ok (false, m <| retryReq := true |>)
  else
    let pkt := pkt <| Packet.headerDelay := 0 |> <| Packet.payloadDelay := 0 |> in
    m ← (if Packet.isRead pkt || Packet.isWrite pkt then
           n ← Packet.getSize pkt;
           let d := duration n in
           if negb (d =? 0) then
             ev ← schedule curTick (u64 (curTick + d)) (releaseEvent m);
             Ok (m <| releaseEvent := ev |> <| isBusy := true |>)
           else Ok m
         else Ok m);
    let needsResponse := Packet.needsResponse pkt in
    '(pkt, _, m) ← recvAtomic rnd pkt m;
    if needsResponse then
      _ ← ensure AssertFailed (Packet.isResponse pkt);
      let when := u64 (curTick + getLatency rnd' m) in
      let m := m <| packetQueue ::= (fun q => q ++ [(pkt, when)]) |> in
      if negb (retryResp m) && match dequeueEvent m with None => true | Some _ => false end then
        ev ← schedule curTick when (dequeueEvent m);
        Ok (true, m <| dequeueEvent := ev |>)
      else Ok (true, m)
    else Ok (true, m <| pendingDelete ::= (fun l => l ++ [pkt]) |>).

(** The release event: it is no longer scheduled when it runs. *)
Definition release (m : SimpleMemory) : outcome SimpleMemory :=
  _ ← ensure AssertFailed (isBusy m);
  let m := m <| isBusy := false |> in
  if retryReq m then Ok (m <| retryReq := false |> <| retries ::= Z.succ |>) else Ok m.

(** The requests the peer sends from within [sendTimingResp]; the result says
    which were accepted. *)
Record inner_request := MkInner {
  i_duration : Z -> Z;
  i_rnd : Z;
  i_rnd' : Z;
  i_req : AbstractMemory.request;
}.
Fixpoint recv_inner (curTick : Z) (rs : list inner_request) (m : SimpleMemory)
  : outcome (list bool * SimpleMemory) :=
  match rs with
  | [] => Ok ([], m)
  | r :: rs =>
      '(ok, m) ← recvTimingReq curTick (i_duration r) (i_rnd r) (i_rnd' r) (i_req r).1.1 m;
      '(oks, m) ← recv_inner curTick rs m;
      Ok (ok :: oks, m)
  end.

(** [ok] is the peer's answer to [sendTimingResp]; the result is the packet
    sent, if it was accepted, and which of the peer's requests were. *)
Definition dequeue (curTick : Z) (inner : list inner_request) (ok : bool) (m : SimpleMemory)
  : outcome (option Packet.Packet * list bool * SimpleMemory) :=
  match packetQueue m with
  | [] => Fail AssertFailed
  | (pkt, _) :: _ =>
      '(oks, m) ← recv_inner curTick inner m;
      let m := m <| retryResp := negb ok |> in
      if ok then
        let m := m <| packetQueue ::= tail |> in
        m ← match packetQueue m with
            | (_, tick) :: _ =>
                ev ← reschedule curTick (Z.max tick curTick);
                Ok (m <| dequeueEvent := ev |>)
            | [] =>
                Ok (if drainManager m then m <| drains ::= Z.succ |> <| drainManager := false |> else m)
            end;
        Ok (Some pkt, oks, m)
      else Ok (None, oks, m)
  end.

Definition recvRespRetry (curTick : Z) (inner : list inner_request) (ok : bool) (m : SimpleMemory)
  : outcome (option Packet.Packet * list bool * SimpleMemory) :=
  _ ← ensure AssertFailed (retryResp m);
  dequeue curTick inner ok m.

(** The result is the number of objects still to drain. *)
Definition drain (m : SimpleMemory) : Z * SimpleMemory :=
  match packetQueue m with
  | [] => (0, m)
  | _ => (1, m <| drainManager := true |>)
  end.

(** The loop of [recvFunctional] over the queued responses. *)
Fixpoint check_queue (pkt : Packet.Packet) (q : list (Packet.Packet * Z))
  : outcome (Packet.Packet * list (Packet.Packet * Z)) :=
  match q with
  | [] => Ok (pkt, [])
  | (p, t) :: q =>
      '(done, pkt, p) ← Functional.checkFunctional_pkt pkt p;
      if done : bool then Ok (pkt, (p, t) :: q)
      else '(pkt, q) ← check_queue pkt q; Ok (pkt, (p, t) :: q)
  end.

Definition recvFunctional (pkt : Packet.Packet) (m : SimpleMemory)
  : outcome (Packet.Packet * SimpleMemory) :=
  '(pkt, b) ← AbstractMemory.functionalAccess pkt (base m);
  '(pkt, q) ← check_queue pkt (packetQueue m);
  Ok (pkt, m <| base := b |> <| packetQueue := q |>).

(** ** The memory below an atomic port *)

(** [rnd] is the number drawn for the latency. *)
#[export] Instance simple_port (rnd : Z) : AtomicPort SimpleMemory := recvAtomic rnd.

Import AbstractMemory.

Lemma recvAtomic_ok rnd pkt m pkt' b :
  access pkt (base m) = Ok (pkt', b) ->
  exists lat, recvAtomic rnd pkt m = Ok (pkt', lat, m <| base := b |>).
Proof. intros E. unfold recvAtomic. rewrite E. cbn [mbind outcome_bind]. eauto. Qed.

(** An invalidation or an upgrade leaves the memory alone. *)
Lemma memory_invalidate_ok rnd lo hi F R m pkt d :
  mem_state lo hi (R, F) (base m) -> mem_request lo hi pkt d ->
  Packet.cmd pkt = MemCmd.WriteInvalidateReq \/ Packet.cmd pkt = MemCmd.UpgradeReq ->
  exists pkt' lat m', recvAtomic rnd pkt m = Ok (pkt', lat, m') /\
    (packetQueue m' = packetQueue m /\ exists R, mem_state lo hi (R, F) (base m')) /\ reply pkt pkt'.
Proof.
  intros Hms Hq Hc.
  assert (access pkt (base m) = Ok (responded pkt, base m)) as E.
  { unfold access. rewrite (check_range_ok lo hi F (base m) pkt d) by (done || apply Hms). cbn [mbind outcome_bind].
    rewrite (mr_own _ _ _ _ Hq), decide_False by (by destruct Hc as [-> | ->]).
    assert (Packet.isRead pkt = false /\ Packet.isInvalidate pkt = true /\ Packet.needsResponse pkt = true) as (-> & -> & Hn).
    { unfold Packet.isRead, Packet.isInvalidate, Packet.needsResponse. by destruct Hc as [-> | ->]. }
    cbn [mbind outcome_bind]. by rewrite Hn, makeResponse_ok. }
  destruct (recvAtomic_ok rnd _ _ _ _ E) as (lat & E'). eexists _, lat, _. split; [exact E'|].
  split; [split; [done|by exists R]|]. destruct Hq. destruct (responded_reply pkt d) as [[] _]. split; done.
Qed.

#[export] Program Instance simple_port_ok (rnd lo hi : Z)
  : AtomicPortOk SimpleMemory (AP := simple_port rnd) lo hi := {|
  port_rep F m := packetQueue m = [] /\ exists R, mem_state lo hi (R, F) (base m);
|}.
Next Obligation.
  intros rnd lo hi F m pkt d (Eq & R & Hms) Hq Hc.
  destruct (access_reads lo hi (R, F) (base m) pkt d 0 Hms Hq) as (b & E & Hb);
    try (unfold Packet.isRead, Packet.isWrite, Packet.needsResponse, Packet.isLLSC; by destruct Hc as [-> | ->]).
  destruct (recvAtomic_ok rnd _ _ _ _ E) as (lat & E'). eexists _, lat, _. split; [exact E'|].
  split; [|apply responded_reply]. split; [done|]. exists R. simpl. unfold Packet.isLLSC in Hb. by destruct Hc as [Hc|Hc]; rewrite Hc in Hb.
Qed.
Next Obligation.
  intros rnd lo hi F m pkt d (Eq & R & Hms) Hq Hc.
  destruct (memory_invalidate_ok rnd lo hi F R m pkt d Hms Hq) as (p & lat & m' & E & [Eq' HR] & Hr); [by auto|].
  exists p, lat, m'. rewrite Eq in Eq'. done.
Qed.
Next Obligation.
  intros rnd lo hi F m pkt d (Eq & R & Hms) Hq Hc Hf.
  destruct (access_writes lo hi (R, F) (base m) pkt d 0 Hms Hq) as (b & E & Hb);
    try (unfold Packet.isRead, Packet.isWrite, Packet.isInvalidate, Packet.isLLSC; by rewrite Hc); [done|].
  destruct (recvAtomic_ok rnd _ _ _ _ E) as (lat & E'). eexists _, lat, _. split; [exact E'|].
  split; [split; [done|]; unfold allowed, Packet.isLLSC in Hb; rewrite Hc in Hb; eexists; exact Hb|].
  unfold Packet.needsResponse, reported, allowed, Packet.isLLSC, Packet.isResponse. rewrite Hc. simpl. by rewrite ?Hc.
Qed.

#[export] Program Instance simple_snooped_ok (rnd lo hi : Z)
  : SnoopedPortOk SimpleMemory (AP := simple_port rnd) lo hi (PO := simple_port_ok rnd lo hi).
Next Obligation.
  intros rnd lo hi F m pkt d (Eq & R & Hms) Hq Hc.
  destruct (memory_invalidate_ok rnd lo hi F R m pkt d Hms Hq) as (p & lat & m' & E & [Eq' HR] & Hr); [by auto|].
  exists p, lat, m'. rewrite Eq in Eq'. done. Qed.
Next Obligation.
  intros rnd lo hi F m pkt (Eq & R & Hms) Hi Fa Fs Hpos Hlo Hhi.
  assert (access pkt (base m) = Ok (pkt, base m)) as E.
  { unfold access. rewrite (check_range_at lo hi F) by (done || apply Hms). cbn [mbind outcome_bind]. by rewrite Hi. }
  destruct (recvAtomic_ok rnd _ _ _ _ E) as (lat & E'). eexists lat, _. split; [exact E'|]. split; [done|]. by exists R.
Qed.

(** ** The timing protocol *)

(** A timing request and its surroundings at [curTick], for a memory with the
    given latency: no tick overflows. *)
Section timing.
Context (lo hi L V : Z) (st0 : gmap Z Z * (Z -> Z)).

Record timing_request (curTick : Z) (r : inner_request) : Prop := {
  tr_cpu : cpu_request lo hi (i_req r).1.2 (i_req r).1.1 (i_req r).2;
  tr_now : 0 <= curTick;
  tr_busy n : 0 <= i_duration r n /\ curTick + i_duration r n < 2 ^ 64;
  tr_when : curTick + u64 (L + (if V =? 0 then 0 else i_rnd' r)) < 2 ^ 64;
}.

Definition receive (curTick : Z) (r : inner_request) (m : SimpleMemory) : outcome (bool * SimpleMemory) :=
  recvTimingReq curTick (i_duration r) (i_rnd r) (i_rnd' r) (i_req r).1.1 m.

(** The requests of [rs] that were accepted. *)
Fixpoint accepted (rs : list inner_request) (oks : list bool) : list request :=
  match rs, oks with
  | r :: rs, ok :: oks => (if ok then [i_req r] else []) ++ accepted rs oks
  | _, _ => []
  end.

(** A peer that refuses the response sends no request in the same call. *)
Definition peer_ok (curTick : Z) (inner : list inner_request) (ok : bool) : Prop :=
  Forall (timing_request curTick) inner /\ (ok = false -> inner = []).

(** The events of the protocol, with the requests they accept and the responses
    they deliver. *)
Inductive step (m : SimpleMemory) : list request -> list Packet.Packet -> SimpleMemory -> Prop :=
  | step_receive t r ok m' : timing_request t r -> receive t r m = Ok (ok, m') ->
      step m (if ok : bool then [i_req r] else []) [] m'
  | step_release t m' : releaseEvent m = Some t -> release (m <| releaseEvent := None |>) = Ok m' ->
      step m [] [] m'
  | step_dequeue t inner ok r oks m' : dequeueEvent m = Some t -> peer_ok t inner ok ->
      dequeue t inner ok (m <| dequeueEvent := None |>) = Ok (r, oks, m') ->
      step m (accepted inner oks) (option_list r) m'
  | step_retry t inner ok r oks m' : retryResp m = true -> peer_ok t inner ok ->
      recvRespRetry t inner ok m = Ok (r, oks, m') ->
      step m (accepted inner oks) (option_list r) m'.

Inductive reach (m0 : SimpleMemory) : list request -> list Packet.Packet -> SimpleMemory -> Prop :=
  | reach_refl : reach m0 [] [] m0
  | reach_step acc del m acc' del' m' : reach m0 acc del m -> step m acc' del' m' ->
      reach m0 (acc ++ acc') (del ++ del') m'.

(** What holds also while a response is being sent. *)
Record core (acc : list request) (del : list Packet.Packet) (m : SimpleMemory) : Prop := {
  co_mem : mem_state lo hi (spec_run acc st0).2 (base m);
  co_answers : Forall2 answers (del ++ (packetQueue m).*1) (spec_run acc st0).1;
  co_busy : isBusy m = match releaseEvent m with Some _ => true | None => false end;
  co_retry : retryReq m = true -> isBusy m = true;
  co_lat : latency m = L /\ latency_var m = V;
}.

(** And between events: a queued response has a wake-up pending. *)
Record inv (acc : list request) (del : list Packet.Packet) (m : SimpleMemory) : Prop := {
  in_core : core acc del m;
  in_wake : packetQueue m <> [] -> is_Some (dequeueEvent m) \/ retryResp m = true;
  in_event : is_Some (dequeueEvent m) -> packetQueue m <> [];
  in_resp : retryResp m = true -> packetQueue m <> [] /\ dequeueEvent m = None;
}.

Lemma spec_run_app qs : forall qs' st,
  spec_run (qs ++ qs') st =
    ((spec_run qs st).1 ++ (spec_run qs' (spec_run qs st).2).1, (spec_run qs' (spec_run qs st).2).2).
Proof.
  induction qs as [|q qs IH]; intros qs' st; [by cbn; destruct (spec_run qs' st)|].
  rewrite <- app_comm_cons. cbn [spec_run]. destruct (spec_step q st) as [r st1]. rewrite IH.
  destruct (spec_run qs st1) as [rs st2]. simpl. by destruct (spec_run qs' st2).
Qed.

Lemma spec_run_one acc q :
  spec_run (acc ++ [q]) st0 =
    ((spec_run acc st0).1 ++ [(spec_step q (spec_run acc st0).2).1], (spec_step q (spec_run acc st0).2).2).
Proof. rewrite spec_run_app. cbn [spec_run]. by destruct (spec_step q _). Qed.

(** The packet without its delays is the same request. *)
Lemma undelayed_request ctx pkt d :
  cpu_request lo hi ctx pkt d ->
  let p := pkt <| Packet.headerDelay := 0 |> <| Packet.payloadDelay := 0 |> in
  cpu_request lo hi ctx p d /\ forall st, spec_step (p, ctx, d) st = spec_step (pkt, ctx, d) st.
Proof. intros [[] ? ? ?]. split; [|done]. by split; [split|..]. Qed.

(** Occupying the memory. *)
Lemma occupy_ok acc del m t r :
  core acc del m -> isBusy m = false -> timing_request t r ->
  exists m1,
    (if Packet.isRead (i_req r).1.1 || Packet.isWrite (i_req r).1.1 then
       n ← Packet.getSize (i_req r).1.1;
       let d := i_duration r n in
       if negb (d =? 0) then
         ev ← schedule t (u64 (t + d)) (releaseEvent m);
         Ok (m <| releaseEvent := ev |> <| isBusy := true |>)
       else Ok m
     else Ok m) = Ok m1 /\ core acc del m1 /\ base m1 = base m /\
    (packetQueue m1, dequeueEvent m1, retryResp m1) = (packetQueue m, dequeueEvent m, retryResp m).
Proof.
  intros Hc Hb Hr. pose proof Hc as [H1 H2 H3 H4 H5]. destruct Hr as [Hq Hnow Hd Hw].
  destruct (_ || _); [|by exists m]. unfold Packet.getSize. rewrite (mr_size _ _ _ _ (cr_mem _ _ _ _ _ Hq)).
  cbn [mbind outcome_bind ensure]. cbv zeta. destruct (Hd (Packet.size (i_req r).1.1)).
  destruct (negb _); [|by exists m]. unfold schedule.
  rewrite uwrap_small, (proj2 (Z.leb_le _ _)) by (try split; lia). cbn [mbind outcome_bind ensure].
  rewrite Hb in H3. destruct (releaseEvent m); [done|]. cbn [mbind outcome_bind ensure].
  eexists. split; [reflexivity|]. split; [|done]. by split.
Qed.

Lemma receive_ok acc del m t r :
  core acc del m -> timing_request t r ->
  exists ok m', receive t r m = Ok (ok, m') /\
    core (acc ++ if ok then [i_req r] else []) del m' /\ retryResp m' = retryResp m /\
    (if ok : bool then
       packetQueue m' <> [] /\ (exists q, packetQueue m' = packetQueue m ++ [q]) /\
       (retryResp m = false -> is_Some (dequeueEvent m')) /\
       (retryResp m = true -> dequeueEvent m' = dequeueEvent m)
     else packetQueue m' = packetQueue m /\ dequeueEvent m' = dequeueEvent m).
Proof.
  intros Hc Hr. pose proof Hc as [H1 H2 H3 H4 [H5 H6]]. pose proof Hr as [Hq Hnow Hd Hw].
  destruct r as [dur rnd rnd' [[pkt ctx] d]]. unfold receive, recvTimingReq.
  cbn [i_duration i_rnd i_rnd' i_req fst snd] in *.
  rewrite (mr_own _ _ _ _ (cr_mem _ _ _ _ _ Hq)). cbv zeta.
  set (m0 := m <| pendingDelete := [] |>). assert (core acc del m0) as Hc0 by by split.
  change (retryReq m0) with (retryReq m). change (isBusy m0) with (isBusy m).
  destruct (retryReq m) eqn:Err.
  { exists false, m0. rewrite app_nil_r. split_and!; done. }
  destruct (isBusy m) eqn:Ebu.
  { exists false, (m0 <| retryReq := true |>). rewrite app_nil_r. split_and!; try done. by split; simpl; rewrite ?Ebu. }
  destruct (occupy_ok acc del m0 t (MkInner dur rnd rnd' (pkt, ctx, d)) Hc0 Ebu Hr) as (m1 & E1 & Hc1 & Eb1 & [= Q1 Q2 Q3]).
  cbn [i_duration i_rnd i_rnd' i_req fst snd] in E1. set (pkt0 := pkt <| Packet.headerDelay := 0 |> <| Packet.payloadDelay := 0 |>).
  destruct (undelayed_request ctx pkt d Hq) as [Hq0 Hs0]. fold pkt0 in Hq0, Hs0.
  change (Packet.isRead pkt0) with (Packet.isRead pkt). change (Packet.isWrite pkt0) with (Packet.isWrite pkt).
  change (Packet.getSize pkt0) with (Packet.getSize pkt). rewrite E1. cbn [mbind outcome_bind].
  destruct (memory_step_refines lo hi _ (base m1) pkt0 ctx d (co_mem _ _ _ Hc1) Hq0) as (pkt' & b & Ea & Hans & Hb).
  rewrite Hs0 in Hans, Hb. destruct (recvAtomic_ok rnd pkt0 m1 _ _ Ea) as (lat & ->). cbn [mbind outcome_bind].
  assert (Packet.needsResponse pkt0 = true) as ->.
  { pose proof (cr_cmd _ _ _ _ _ Hq0) as Hcmd. rewrite !elem_of_cons, elem_of_nil in Hcmd.
    unfold Packet.needsResponse. by destruct Hcmd as [->|[->|[->|[->|[]]]]]. }
  rewrite (proj1 Hans). cbn [mbind outcome_bind ensure].
  set (when := u64 _). assert (t <= when) as Hle.
  { unfold when, getLatency. simpl. destruct (co_lat _ _ _ Hc1) as [-> ->].
    pose proof (uwrap_range 64 (L + (if V =? 0 then 0 else rnd')) ltac:(lia)) as [? ?].
    rewrite (uwrap_small 64 (t + _)) by (split; lia). lia. }
  set (m2 := m1 <| base := b |> <| packetQueue ::= (fun q => q ++ [(pkt', when)]) |>).
  assert (core (acc ++ [(pkt, ctx, d)]) del m2) as Hc2.
  { destruct Hc1. split; try done; rewrite spec_run_one; [done|]. simpl packetQueue.
    rewrite fmap_app, app_assoc. by apply Forall2_app; [|constructor]. }
  exists true. simpl. rewrite Q2, Q3. destruct (retryResp m) eqn:Erp; simpl.
  { eexists. split; [reflexivity|]. split; [exact Hc2|]. simpl. rewrite ?Q1, ?Q2, ?Q3, ?Erp. split_and!; eauto; by destruct (packetQueue m). }
  destruct (dequeueEvent m) eqn:Ede; simpl.
  - eexists. split; [reflexivity|]. split; [exact Hc2|]. simpl. rewrite ?Q1, ?Q2, ?Q3, ?Erp, ?Ede.
    split_and!; eauto; by destruct (packetQueue m).
  - rewrite ?Ede. simpl. unfold schedule. rewrite (proj2 (Z.leb_le _ _) Hle). cbn [mbind outcome_bind ensure].
    eexists. split; [reflexivity|]. split; [destruct Hc2; by split|]. simpl. rewrite ?Q1, ?Q3, ?Erp.
    split_and!; eauto; try done; by destruct (packetQueue m).
Qed.

Lemma inner_ok t rs : forall acc del m,
  core acc del m -> Forall (timing_request t) rs ->
  exists oks m' qs, recv_inner t rs m = Ok (oks, m') /\ core (acc ++ accepted rs oks) del m' /\
    packetQueue m' = packetQueue m ++ qs /\ (qs = [] -> dequeueEvent m' = dequeueEvent m).
Proof.
  induction rs as [|r rs IH]; intros acc del m Hc Hrs; simpl.
  { exists [], m, []. rewrite !app_nil_r. done. }
  inversion Hrs as [|? ? Hr Hrs']; subst.
  destruct (receive_ok acc del m t r Hc Hr) as (ok & m1 & E1 & Hc1 & _ & Hq1). unfold receive in E1.
  rewrite E1. cbn [mbind outcome_bind]. destruct (IH _ _ _ Hc1 Hrs') as (oks & m2 & qs & -> & Hc2 & Hq2 & He2).
  cbn [mbind outcome_bind]. rewrite <- app_assoc in Hc2. destruct ok.
  - destruct Hq1 as (_ & [q Hq1] & _). exists (true :: oks), m2, (q :: qs).
    rewrite Hq2, Hq1, <- app_assoc. done.
  - destruct Hq1 as [Hq1 He1]. exists (false :: oks), m2, qs. rewrite Hq2, Hq1, <- He1. done.
Qed.

Lemma dequeue_ok acc del m t inner ok :
  core acc del m -> packetQueue m <> [] -> dequeueEvent m = None -> peer_ok t inner ok ->
  exists r oks m', dequeue t inner ok m = Ok (r, oks, m') /\
    inv (acc ++ accepted inner oks) (del ++ option_list r) m'.
Proof.
  intros Hc Hne Hev [Hin Hno]. unfold dequeue. destruct (packetQueue m) as [|[pkt tk] q] eqn:Eq; [done|].
  destruct ok; cycle 1.
  { rewrite (Hno eq_refl). cbn [recv_inner mbind outcome_bind]. exists None, [], (m <| retryResp := true |>).
    split; [done|]. simpl. rewrite !app_nil_r. split; simpl; rewrite ?Eq, ?Hev; try done; [destruct Hc as [? Hans ? ? ?]; rewrite Eq in Hans; by split|by right]. }
  destruct (inner_ok t inner acc del m Hc Hin) as (oks & m1 & qs & -> & Hc1 & Hq & He).
  cbn [mbind outcome_bind]. simpl in Hq. rewrite Eq in Hq.
  set (m2 := m1 <| retryResp := false |> <| packetQueue ::= tail |>).
  assert (core (acc ++ accepted inner oks) (del ++ [pkt]) m2 /\ packetQueue m2 = q ++ qs) as [Hc2 Hq2].
  { unfold m2. simpl. rewrite Hq. split; [|done]. destruct Hc1. split; try done. simpl. rewrite Hq in co_answers0.
    simpl in *. by rewrite <- app_assoc. }
  cbv zeta. change (negb true) with false. fold m2.
  destruct (packetQueue m2) as [|[p2 tk2] q2] eqn:Eq2.
  - cbn [mbind outcome_bind]. eexists (Some pkt), oks, _. split; [reflexivity|].
    destruct q, qs; try done. specialize (He eq_refl).
    assert (dequeueEvent m2 = None) as Hev2 by (simpl; congruence).
    set (m3 := if drainManager m2 then _ else _).
    assert (packetQueue m3 = [] /\ dequeueEvent m3 = None /\ retryResp m3 = false) as (F1 & F2 & F3)
      by (unfold m3; by destruct (drainManager m2)).
    split; rewrite ?F1, ?F2, ?F3; try done.
    unfold m3. destruct (drainManager m2), Hc2; by split.
  - unfold reschedule. rewrite (proj2 (Z.leb_le t _)) by lia. cbn [mbind outcome_bind ensure].
    eexists (Some pkt), oks, _. split; [reflexivity|].
    split; [destruct Hc2; by split|left; simpl; eauto|intros _; change (packetQueue m2 <> []); by rewrite Eq2|done].
Qed.

Lemma receive_inv acc del m t r :
  inv acc del m -> timing_request t r ->
  exists ok m', receive t r m = Ok (ok, m') /\ inv (acc ++ if ok : bool then [i_req r] else []) del m'.
Proof.
  intros [Hc Hw He Hp] Hr. destruct (receive_ok acc del m t r Hc Hr) as (ok & m' & E & Hc' & Er & Hq).
  exists ok, m'. split; [done|]. split; [done|..]; rewrite ?Er; destruct ok.
  - intros _. destruct Hq as (_ & _ & Hs & _). destruct (retryResp m); eauto.
  - by destruct Hq as [-> ->].
  - by destruct Hq as [? _].
  - by destruct Hq as [-> ->].
  - intros Hrp. destruct Hq as (Hne & _ & _ & Hs). rewrite Hs by done. destruct (Hp Hrp). done.
  - by destruct Hq as [-> ->].
Qed.

Lemma release_inv acc del m t :
  inv acc del m -> releaseEvent m = Some t ->
  exists m', release (m <| releaseEvent := None |>) = Ok m' /\ inv acc del m'.
Proof.
  intros [[H1 H2 H3 H4 H5] Hw He Hp] Hr. rewrite Hr in H3. unfold release. simpl. rewrite H3. simpl.
  destruct (retryReq m) eqn:E; eexists; (split; [reflexivity|]); split; simpl; try done; by split; simpl; rewrite ?E.
Qed.

Lemma dequeue_inv acc del m t inner ok :
  inv acc del m -> dequeueEvent m = Some t -> peer_ok t inner ok ->
  exists r oks m', dequeue t inner ok (m <| dequeueEvent := None |>) = Ok (r, oks, m') /\
    inv (acc ++ accepted inner oks) (del ++ option_list r) m'.
Proof.
  intros [Hc Hw He Hp] Ht Hi. apply dequeue_ok; [by destruct Hc; split|apply He; by eauto|done|done].
Qed.

Lemma retry_inv acc del m t inner ok :
  inv acc del m -> retryResp m = true -> peer_ok t inner ok ->
  exists r oks m', recvRespRetry t inner ok m = Ok (r, oks, m') /\
    inv (acc ++ accepted inner oks) (del ++ option_list r) m'.
Proof.
  intros [Hc Hw He Hp] Ht Hi. unfold recvRespRetry. rewrite Ht. cbn [mbind outcome_bind ensure].
  destruct (Hp Ht). by apply dequeue_ok.
Qed.

Lemma step_inv acc del m acc' del' m' :
  inv acc del m -> step m acc' del' m' -> inv (acc ++ acc') (del ++ del') m'.
Proof.
  intros Hi [t r ok m1 Hr E|t m1 Hr E|t inner ok r oks m1 Hr Hp E|t inner ok r oks m1 Hr Hp E].
  - destruct (receive_inv _ _ _ _ _ Hi Hr) as (ok' & m2 & E2 & H2). rewrite app_nil_r.
    rewrite E in E2. by injection E2 as <- <-.
  - destruct (release_inv _ _ _ _ Hi Hr) as (m2 & E2 & H2). rewrite !app_nil_r.
    rewrite E in E2. by injection E2 as <-.
  - destruct (dequeue_inv _ _ _ _ _ _ Hi Hr Hp) as (r2 & oks2 & m2 & E2 & H2).
    rewrite E in E2. by injection E2 as <- <- <-.
  - destruct (retry_inv _ _ _ _ _ _ Hi Hr Hp) as (r2 & oks2 & m2 & E2 & H2).
    rewrite E in E2. by injection E2 as <- <- <-.
Qed.

Lemma reach_inv m0 acc del m : inv [] [] m0 -> reach m0 acc del m -> inv acc del m.
Proof. intros H0 Hr. induction Hr as [|acc del m acc' del' m' _ IH Hs]; [done|]. by eapply step_inv. Qed.

(** Every event that can happen succeeds. *)
Record never_fails (m : SimpleMemory) : Prop := {
  nf_receive t r : timing_request t r -> exists x, receive t r m = Ok x;
  nf_release t : releaseEvent m = Some t -> exists x, release (m <| releaseEvent := None |>) = Ok x;
  nf_dequeue t inner ok : dequeueEvent m = Some t -> peer_ok t inner ok ->
    exists x, dequeue t inner ok (m <| dequeueEvent := None |>) = Ok x;
  nf_retry t inner ok : retryResp m = true -> peer_ok t inner ok ->
    exists x, recvRespRetry t inner ok m = Ok x;
}.

Lemma inv_never_fails acc del m : inv acc del m -> never_fails m.
Proof.
  intros Hi. split.
  - intros t r Hr. destruct (receive_inv _ _ _ _ _ Hi Hr) as (ok & m2 & -> & _). eauto.
  - intros t Hr. destruct (release_inv _ _ _ _ Hi Hr) as (m2 & -> & _). eauto.
  - intros t inner ok Hr Hp. destruct (dequeue_inv _ _ _ _ _ _ Hi Hr Hp) as (r & oks & m2 & -> & _). eauto.
  - intros t inner ok Hr Hp. destruct (retry_inv _ _ _ _ _ _ Hi Hr Hp) as (r & oks & m2 & -> & _). eauto.
Qed.
End timing.

(** The memory after construction, with its host memory. *)
Definition new_memory (lo hi : Z) (host : list Z) (L V : Z) : SimpleMemory :=
  SimpleMemory_new (setBackingStore (Some host) (AbstractMemory_new (AddrRange.RangeIn lo hi))) L V.

(** C20: the timing interface of the memory serves requests in order and loses
    none: in every interleaving of arriving requests (also from within the
    delivery of a response), release events, dequeue events and response
    retries, no event fails an assertion; the responses delivered followed by
    those in the queue are, in order, the answers of a flat memory with
    load-locked reservations to the requests accepted so far; while a response
    is queued an event or a retry to deliver it is pending, and while a
    refused request waits for a retry a release is pending.
    The requests are those CPUs make: reads, writes, load-locked and
    store-conditionals inside the range of the memory ([cpu_request]). *)
Theorem timing_memory_serves_in_order lo hi host L V acc del m :
  Z.of_nat (length host) = hi - lo + 1 ->
  reach lo hi L V (new_memory lo hi host L V) acc del m ->
  Forall2 answers (del ++ (packetQueue m).*1)
    (spec_run acc (∅, fun x => host !!! Z.to_nat (x - lo))).1 /\
  (packetQueue m <> [] -> is_Some (dequeueEvent m) \/ retryResp m = true) /\
  (retryReq m = true -> is_Some (releaseEvent m)) /\ never_fails lo hi L V m.
Proof.
  intros Hl Hr. set (st0 := (∅, fun x => host !!! Z.to_nat (x - lo))).
  assert (inv lo hi L V st0 acc del m) as Hi.
  { apply (reach_inv _ _ _ _ _ (new_memory lo hi host L V)); [|done].
    split; try done; [split; try done; by apply new_state|]. intros [? ?]. done. }
  pose proof Hi as [[H1 H2 H3 H4 H5] Hw He Hp]. split_and!; [done|done| |by eapply inv_never_fails].
  intros Hq. specialize (H4 Hq). rewrite H4 in H3. destruct (releaseEvent m); [eauto|done].
Qed.

Definition example_inner (c : MemCmd.Command) (a : Z) (d : list Z) : inner_request :=
  MkInner (fun _ => 3) 0 0 (example_packet c 1 a (Z.of_nat (length d)) d, 1, d).

(** A write is accepted, the memory released and the response delivered; a read
    of the byte is sent from within the delivery. *)
Lemma timing_memory_serves_in_order_witness :
  exists m, packetQueue m <> [] /\
    (is_Some (dequeueEvent m) \/ retryResp m = true) /\
    exists del, Forall2 answers (del ++ (packetQueue m).*1) [Stored true; Bytes [7]].
Proof.
  set (m0 := new_memory 0 63 (seqZ 0 64) 10 0).
  set (r1 := example_inner MemCmd.WriteReq 20 [7]). set (r2 := example_inner MemCmd.ReadReq 20 [0]).
  assert (forall t r, r = r1 \/ r = r2 -> 0 <= t < 1000 -> timing_request 0 63 10 0 t r) as Hq.
  { intros t r Hr Ht. destruct Hr as [-> | ->]; (split; [|lia|intros n; simpl; lia|change (u64 (10 + _)) with 10; lia]);
      (split; [split; vm_compute; congruence || (split; congruence)|reflexivity|vm_compute; set_solver|reflexivity]). }
  destruct (receive 5 r1 m0) as [[[] m1]|] eqn:E1; [|discriminate E1..].
  assert (releaseEvent m1 = Some 8 /\ dequeueEvent m1 = Some 15) as [Er Ed]
    by (vm_compute in E1; injection E1 as <-; split; reflexivity).
  destruct (release (m1 <| releaseEvent := None |>)) as [m2|] eqn:E2;
    [|vm_compute in E1; injection E1 as <-; discriminate E2].
  assert (exists x m3, dequeue 15 [r2] true (m2 <| dequeueEvent := None |>) = Ok (Some x, [true], m3) /\
    dequeueEvent m2 = Some 15 /\ packetQueue m3 <> []) as (x & m3 & E3 & Ed2 & Hne).
  { vm_compute in E1. injection E1 as <-. vm_compute in E2. injection E2 as <-.
    do 2 eexists. split; [vm_compute; reflexivity|]. split; [reflexivity|discriminate]. }
  destruct (timing_memory_serves_in_order 0 63 (seqZ 0 64) 10 0 [i_req r1; i_req r2] [x] m3) as (Ha & Hw & _ & _).
  - reflexivity.
  - apply (reach_step 0 63 10 0 m0 [i_req r1] [] m2 [i_req r2] [x]).
    + apply (reach_step 0 63 10 0 m0 [i_req r1] [] m1 [] []).
      * apply (reach_step 0 63 10 0 m0 [] [] m0 [i_req r1] []); [constructor|].
        apply (step_receive 0 63 10 0 m0 5 r1 true); [apply Hq; [by left|lia]|done].
      * by apply (step_release 0 63 10 0 m1 8).
    + apply (step_dequeue 0 63 10 0 m2 15 [r2] true (Some x) [true]); [done| |done].
      split; [|done]. constructor; [apply Hq; [by right|lia]|constructor].
  - exists m3. split; [done|]. split; [by apply Hw|]. exists [x].
    replace [Stored true; Bytes [7]]
      with (spec_run [i_req r1; i_req r2] (∅, fun x => seqZ 0 64 !!! Z.to_nat (x - 0))).1 by (vm_compute; reflexivity).
    exact Ha.
Defined.

(** A read whose bytes a packet with data has: the packet's bytes are copied. *)
Lemma checkFunctional_same lo hi pkt d p v :
  mem_request lo hi p v -> Packet.cmd p = MemCmd.ReadResp -> Packet.isRead pkt = true -> Packet.isPrint pkt = false ->
  Packet.getAddr pkt = Ok (Packet.addr p) -> Packet.getSize pkt = Ok (Packet.size p) ->
  Packet._isSecure pkt = Packet._isSecure p -> Packet.getPtr pkt = Ok d -> length d = length v ->
  exists bv p', Functional.checkFunctional_pkt pkt p =
    Ok (true, pkt <| Packet.data := Some v |> <| Packet.bytesValid := bv |>, p').
Proof.
  intros [B1 B2 B3 B4 B5 B6 B7 _ _] Hcp Hr Hpr Ga Gs Esec Gp Hl.
  destruct (Packet.memcpy_total d 0 v 0 (Packet.size p)) as (v' & Ev); try lia.
  destruct (Packet.memcpy_spec _ _ _ _ _ _ Ev) as [Hlv Hxv].
  assert (v' = v) as ->.
  { apply list_eq. intros i. rewrite Hxv. destruct (decide _) as [Hi|Hi]; [f_equal; lia|].
    rewrite !lookup_ge_None_2 by lia. done. }
  unfold Functional.checkFunctional_pkt. unfold Packet.getAddr at 1, Packet.isSecure, Packet.getSize at 1.
  rewrite B1, B2. cbn [mbind outcome_bind ensure]. unfold Packet.hasData. rewrite Hcp.
  change (MemCmd.hasData MemCmd.ReadResp) with true. cbn iota.
  rewrite B3. cbn [mbind outcome_bind]. unfold Functional.checkFunctional. rewrite Ga, Gs. cbn [mbind outcome_bind].
  rewrite Esec, eqb_reflx.
  rewrite uwrap_small, Z.gtb_ltb, !(proj2 (Z.ltb_ge _ _)) by (try split; lia). cbn [negb orb].
  rewrite Hpr, Hr, Gp. cbn [mbind outcome_bind]. rewrite Z.geb_leb, !(proj2 (Z.leb_le _ _)) by lia. cbn [andb].
  rewrite Z.sub_diag. change (s32 0) with 0. rewrite Ev. cbn [mbind outcome_bind]. eauto.
Qed.

(** The memory part of a functional read. *)
Lemma functional_reads lo hi F m pkt d :
  mem_rep lo hi F m -> mem_request lo hi pkt d -> Packet.cmd pkt = MemCmd.ReadReq ->
  functionalAccess pkt m =
    Ok (responded (pkt <| Packet.data := Some (read_bytes F (Packet.addr pkt) (Packet.size pkt)) |>), m).
Proof.
  intros Hrep Hq Hc. unfold functionalAccess. rewrite (check_range_ok lo hi F _ pkt d) by done. cbn [mbind outcome_bind].
  unfold Packet.isRead at 1. rewrite Hc. destruct Hrep as [_ _ (host & -> & Hh)]. simpl MemCmd.isRead.
  rewrite (copy_out_ok lo hi F host pkt d) by done. cbn [mbind outcome_bind].
  rewrite makeResponse_ok by (unfold Packet.needsResponse; simpl; by rewrite Hc). done.
Qed.

Lemma functional_writes lo hi F m pkt d :
  mem_rep lo hi F m -> mem_request lo hi pkt d -> Packet.cmd pkt = MemCmd.WriteReq ->
  exists host, functionalAccess pkt m = Ok (responded pkt, m <| pmemAddr := Some host |>) /\
    host_rep lo hi (write_bytes F (Packet.addr pkt) d) host.
Proof.
  intros Hrep Hq Hc. unfold functionalAccess. rewrite (check_range_ok lo hi F _ pkt d) by done. cbn [mbind outcome_bind].
  unfold Packet.isRead at 1, Packet.isWrite at 1. rewrite Hc. destruct Hrep as [_ _ (host & -> & Hh)]. simpl MemCmd.isRead. simpl MemCmd.isWrite.
  destruct (copy_in_ok lo hi F host pkt d Hh Hq) as (host' & -> & Hh'). cbn [mbind outcome_bind].
  rewrite makeResponse_ok by (unfold Packet.needsResponse; simpl; by rewrite Hc). by exists host'.
Qed.

#[export] Instance simple_functional : FunctionalPort SimpleMemory := recvFunctional.

#[export] Program Instance simple_functional_ok (rnd lo hi : Z)
  : FunctionalPortOk SimpleMemory (AP := simple_port rnd) lo hi (PO := simple_port_ok rnd lo hi).
Next Obligation.
  intros rnd lo hi F m pkt d (Eq & R & Hms) Hq Hc. unfold sendFunctional, simple_functional, recvFunctional.
  rewrite (functional_reads lo hi F (base m) pkt d) by (done || apply Hms). cbn [mbind outcome_bind].
  rewrite Eq. cbn [check_queue mbind outcome_bind]. eexists _, _. split; [reflexivity|]. split; [split; [done|by exists R]|].
  split; [|done]. unfold Packet.isResponse. simpl. by rewrite Hc.
Qed.
Next Obligation.
  intros rnd lo hi F m pkt d (Eq & R & Hms) Hq Hc. unfold sendFunctional, simple_functional, recvFunctional.
  destruct (functional_writes lo hi F (base m) pkt d) as (host & -> & Hh); [apply Hms|done..|]. cbn [mbind outcome_bind].
  rewrite Eq. cbn [check_queue mbind outcome_bind]. eexists _, _. split; [reflexivity|]. split; [split; [done|]|].
  - exists R. destruct Hms as [[] ? ?]. split; [|done..]. split; try done. by exists host.
  - unfold Packet.isResponse. simpl. by rewrite Hc.
Qed.

(** A functional read answers with the bytes of a queued response rather
    than with those in memory: when the first queued response is a read of the
    same bytes, its data is copied over what was just read from memory, also
    when a write has changed the memory since. *)
Theorem functional_read_takes_queued_response lo hi F m pkt d p t q v :
  mem_rep lo hi F (base m) -> mem_request lo hi pkt d -> Packet.cmd pkt = MemCmd.ReadReq ->
  packetQueue m = (p, t) :: q -> Packet.cmd p = MemCmd.ReadResp ->
  mem_request lo hi p v -> Packet.addr p = Packet.addr pkt -> Packet.size p = Packet.size pkt ->
  Packet._isSecure p = Packet._isSecure pkt ->
  exists pkt1 pkt' m', functionalAccess pkt (base m) = Ok (pkt1, base m) /\
    Packet.data pkt1 = Some (read_bytes F (Packet.addr pkt) (Packet.size pkt)) /\
    recvFunctional pkt m = Ok (pkt', m') /\ Packet.data pkt' = Some v.
Proof.
  intros Hrep Hq Hc Eq Hcp Hp Ea Es Esec. pose proof (functional_reads lo hi F (base m) pkt d Hrep Hq Hc) as E1.
  set (d1 := read_bytes F (Packet.addr pkt) (Packet.size pkt)) in *.
  set (pkt1 := responded (pkt <| Packet.data := Some d1 |>)) in *.
  destruct (proj1 (responded_reply pkt d1)) as [_ _ _ _ _ Hfl Hpt]. fold pkt1 in Hfl, Hpt.
  pose proof Hq as [A1 A2 A3 A4 A5 A6 A7 _ _]. pose proof Hp as [_ _ _ B4 _ _ _ _ _].
  assert (Z.of_nat (length d1) = Packet.size pkt) as Hl1 by (apply read_bytes_length; lia).
  destruct (checkFunctional_same lo hi pkt1 d1 p v) as (bv & p1 & Ec); try done; [..|lia|].
  - unfold Packet.isRead. simpl. by rewrite Hc.
  - unfold Packet.isPrint. simpl. by rewrite Hc.
  - unfold Packet.getAddr. rewrite Ea. change Packet.VALID_ADDR with (2 ^ 8) in *. by rewrite (Hfl 8), A1 by lia.
  - unfold Packet.getSize. rewrite Es. change Packet.VALID_SIZE with (2 ^ 9) in *. by rewrite (Hfl 9), A2 by lia.
  - unfold Packet.getPtr in A3 |- *. apply bind_ok in A3 as (? & A3%ensure_ok & _). by rewrite Hpt, A3.
  - eexists pkt1, _, _. split; [done|]. split; [done|]. unfold recvFunctional. rewrite E1, Eq.
    cbn [mbind outcome_bind check_queue]. rewrite Ec. cbn [mbind outcome_bind]. split; [reflexivity|done].
Qed.

(** A read is queued, a write follows; the functional read gives the old byte. *)
Lemma functional_read_takes_queued_response_witness :
  exists b m r pkt' m', access (example_packet MemCmd.WriteReq 1 20 1 [7])
      (base (new_memory 0 63 (seqZ 0 64) 10 0)) = Ok (r, b) /\
    base m = b /\ recvFunctional (example_packet MemCmd.ReadReq 1 20 1 [0]) m = Ok (pkt', m') /\
    Packet.data pkt' = Some [20].
Proof.
  set (p := example_packet MemCmd.ReadResp 1 20 1 [20]).
  destruct (access (example_packet MemCmd.WriteReq 1 20 1 [7])
      (base (new_memory 0 63 (seqZ 0 64) 10 0))) as [[r b]|] eqn:E; [|discriminate E].
  set (m := (SimpleMemory_new b 10 0) <| packetQueue := [(p, 30)] |>).
  destruct (functional_read_takes_queued_response 0 63 (write_bytes (fun x => x) 20 [7]) m
    (example_packet MemCmd.ReadReq 1 20 1 [0]) [0] p 30 [] [20]) as (_ & pkt' & m' & _ & _ & E' & Hd).
  - vm_compute in E. injection E as _ <-. split; [reflexivity|reflexivity|]. eexists. split; [reflexivity|].
    split; [reflexivity|]. intros x Hx. assert (x = Z.of_nat (Z.to_nat x)) as Ex by lia. rewrite Z.sub_0_r.
    set (n := Z.to_nat x) in *. assert (n < 64)%nat as Hn by lia. rewrite Ex. clearbody n. clear Ex Hx.
    do 64 (destruct n as [|n]; [reflexivity|]). lia.
  - split; vm_compute; congruence || (split; congruence).
  - reflexivity.
  - reflexivity.
  - reflexivity.
  - split; vm_compute; congruence || (split; congruence).
  - reflexivity.
  - reflexivity.
  - reflexivity.
  - exists b, m, r, pkt', m'. split; [done|]. split; [reflexivity|]. split; [exact E'|exact Hd].
Defined.

End SimpleMemory.
