(* ===== verification/Bridge.v ===== *)
(** The bridge ([mem/bridge.hh] and [bridge.cc]): two ports with a bounded queue in each
    direction. A request is accepted only if there is room for it and, when it expects a
    response, room is reserved for the response too.

    The surroundings are arguments: the clock, the answer of the peer to a packet that
    is sent, and the packets the peer sends from within that call. *)

From stdpp Require Import fin_maps gmap.
From S2P Require Import Prelude IntMath AddrRange Request MemCmd Packet Functional AtomicPort.
Local Open Scope Z_scope.

Module Bridge.

(** ** State *)

(** The fields of the slave port, then those of the master port. A scheduled event is
    [Some] of its tick; [retries] counts the calls of [sendRetryReq]. *)
Record Bridge := MkBridge {
  delay : Z;
  ranges : list AddrRange.AddrRange;
  respList : list (Packet.Packet * Z);
  outstandingResponses : Z;
  retryReq : bool;
  respQueueLimit : Z;
  respEvent : option Z;
  reqList : list (Packet.Packet * Z);
  reqQueueLimit : Z;
  reqEvent : option Z;
  retries : Z;
}.
#[export] Instance eta_Bridge : Eta Bridge := fun x =>
  MkBridge (delay x) (ranges x) (respList x) (outstandingResponses x) (retryReq x) (respQueueLimit x) (respEvent x) (reqList x)
    (reqQueueLimit x) (reqEvent x) (retries x).

(** [delay] is in cycles, [ticksToCycles(p->delay)]. *)
Definition Bridge_new (delay req_size resp_size : Z) (ranges : list AddrRange.AddrRange) : Bridge :=
  MkBridge delay ranges [] 0 false (u32 resp_size) None [] (u32 req_size) None 0.

Definition getAddrRanges (b : Bridge) : list AddrRange.AddrRange := ranges b.

(** [edge] is [clockEdge()] and [period] the clock period. *)
Record Clock := MkClock {
  curTick : Z;
  edge : Z;
  period : Z;
}.

Definition clockEdge (c : Clock) (cycles : Z) : Z := u64 (edge c + cycles * period c).

(** ** The timing protocol *)

Definition respQueueFull (b : Bridge) : bool := outstandingResponses b =? respQueueLimit b.
Definition reqQueueFull (b : Bridge) : bool := Z.of_nat (length (reqList b)) =? reqQueueLimit b.

Definition undelay (pkt : Packet.Packet) : Packet.Packet := pkt <| Packet.headerDelay := 0 |> <| Packet.payloadDelay := 0 |>.

Definition schedTimingReq (c : Clock) (pkt : Packet.Packet) (when : Z) (b : Bridge) : outcome Bridge :=
  b ← match reqList b with
      | [] => ev ← schedule (curTick c) when (reqEvent b); Ok (b <| reqEvent := ev |>)
      | _ => Ok b
      end;
  _ ← ensure AssertFailed (negb (reqQueueFull b));
  Ok (b <| reqList ::= (fun l => l ++ [(pkt, when)]) |>).

Definition schedTimingResp (c : Clock) (pkt : Packet.Packet) (when : Z) (b : Bridge) : outcome Bridge :=
  b ← match respList b with
      | [] => ev ← schedule (curTick c) when (respEvent b); Ok (b <| respEvent := ev |>)
      | _ => Ok b
      end;
  Ok (b <| respList ::= (fun l => l ++ [(pkt, when)]) |>).

Definition recvTimingResp (c : Clock) (pkt : Packet.Packet) (b : Bridge) : outcome (bool * Bridge) :=
  b ← schedTimingResp c (undelay pkt) (clockEdge c (delay b)) b;
  Ok (true, b).

Definition expects_response (pkt : Packet.Packet) : bool := Packet.needsResponse pkt && negb (Packet.memInhibitAsserted pkt).

Definition recvTimingReq (c : Clock) (pkt : Packet.Packet) (b : Bridge) : outcome (bool * Bridge) :=
  _ ← ensure AssertFailed (negb (retryReq b));
  b ← (if reqQueueFull b then Ok (b <| retryReq := true |>)
       else
         b ← (if expects_response pkt then
                if respQueueFull b then Ok (b <| retryReq := true |>)
                else
                  _ ← ensure AssertFailed (negb (outstandingResponses b =? respQueueLimit b));
                  Ok (b <| outstandingResponses ::= (fun n => u32 (n + 1)) |>)
              else Ok b);
         if negb (retryReq b) then schedTimingReq c (undelay pkt) (clockEdge c (delay b)) b else Ok b);
  Ok (negb (retryReq b), b).

Definition retryStalledReq (b : Bridge) : Bridge :=
  if retryReq b then b <| retryReq := false |> <| retries ::= Z.succ |> else b.

(** The packets a peer sends from within a call. *)
Fixpoint recv_resps (c : Clock) (ps : list Packet.Packet) (b : Bridge) : outcome Bridge :=
  match ps with
  | [] => Ok b
  | p :: ps => '(_, b) ← recvTimingResp c p b; recv_resps c ps b
  end.

Fixpoint recv_reqs (c : Clock) (ps : list Packet.Packet) (b : Bridge) : outcome (list bool * Bridge) :=
  match ps with
  | [] => Ok ([], b)
  | p :: ps => '(ok, b) ← recvTimingReq c p b; '(oks, b) ← recv_reqs c ps b; Ok (ok :: oks, b)
  end.

(** [trySendTiming] of the master port: [ok] is the answer to [sendTimingReq] and
    [inner] the responses that arrive during the call. The result is the request, if it
    was taken. *)
Definition trySendReq (c : Clock) (ok : bool) (inner : list Packet.Packet) (b : Bridge) : outcome (option Packet.Packet * Bridge) :=
  match reqList b with
  | [] => Fail AssertFailed
  | (pkt, tick) :: _ =>
      _ ← ensure AssertFailed (tick <=? curTick c);
      b ← recv_resps c inner b;
      if ok then
        let b := b <| reqList ::= tail |> in
        b ← match reqList b with
            | [] => Ok b
            | (_, tick) :: _ =>
                ev ← schedule (curTick c) (Z.max tick (clockEdge c 0)) (reqEvent b);
                Ok (b <| reqEvent := ev |>)
            end;
        Ok (Some pkt, retryStalledReq b)
      else Ok (None, b)
  end.

(** [trySendTiming] of the slave port: [inner] are the requests that arrive during
    [sendTimingResp], and the result says which of them were accepted. *)
Definition trySendResp (c : Clock) (ok : bool) (inner : list Packet.Packet) (b : Bridge)
  : outcome (option Packet.Packet * list bool * Bridge) :=
  match respList b with
  | [] => Fail AssertFailed
  | (pkt, tick) :: _ =>
      _ ← ensure AssertFailed (tick <=? curTick c);
      '(oks, b) ← recv_reqs c inner b;
      if ok then
        let b := b <| respList ::= tail |> in
        _ ← ensure AssertFailed (negb (outstandingResponses b =? 0));
        let b := b <| outstandingResponses ::= (fun n => u32 (n - 1)) |> in
        b ← match respList b with
            | [] => Ok b
            | (_, tick) :: _ =>
                ev ← schedule (curTick c) (Z.max tick (clockEdge c 0)) (respEvent b);
                Ok (b <| respEvent := ev |>)
            end;
        Ok (Some pkt, oks, if negb (reqQueueFull b) && retryReq b then b <| retryReq := false |> <| retries ::= Z.succ |> else b)
      else Ok (None, oks, b)
  end.

Definition recvReqRetry := trySendReq.
Definition recvRespRetry := trySendResp.

(** ** Atomic and functional accesses *)

Section ports.
Context {M : Type} {AP : AtomicPort M} {FP : FunctionalPort M}.

Definition recvAtomic (clockPeriod : Z) (pkt : Packet.Packet) (bm : Bridge * M) : outcome (Packet.Packet * Z * (Bridge * M)) :=
  let '(b, m) := bm in
  '(pkt, lat, m) ← sendAtomic pkt m;
  Ok (pkt, u64 (delay b * clockPeriod + lat), (b, m)).

(** A loop over a queue, which stops at the first packet that satisfies the request. *)
Fixpoint check_list (pkt : Packet.Packet) (l : list (Packet.Packet * Z)) : outcome (bool * Packet.Packet * list (Packet.Packet * Z)) :=
  match l with
  | [] => Ok (false, pkt, [])
  | (p, t) :: l =>
      '(found, pkt, p) ← Functional.checkFunctional_pkt pkt p;
      if found : bool then
        pkt ← Packet.makeResponse pkt;
        Ok (true, pkt, (p, t) :: l)
      else '(found, pkt, l) ← check_list pkt l; Ok (found, pkt, (p, t) :: l)
  end.

Definition checkFunctional (pkt : Packet.Packet) (b : Bridge) : outcome (bool * Packet.Packet * Bridge) :=
  '(found, pkt, l) ← check_list pkt (reqList b);
  Ok (found, pkt, b <| reqList := l |>).

Definition recvFunctional (pkt : Packet.Packet) (bm : Bridge * M) : outcome (Packet.Packet * (Bridge * M)) :=
  let '(b, m) := bm in
  '(found, pkt, l) ← check_list pkt (respList b);
  let b := b <| respList := l |> in
  if found : bool then Ok (pkt, (b, m))
  else
    '(found, pkt, b) ← checkFunctional pkt b;
    if found : bool then Ok (pkt, (b, m))
    else
      '(pkt, m) ← sendFunctional pkt m;
      Ok (pkt, (b, m)).
End ports.

(** ** Histories *)

(** The bridge with what has passed its ports: requests accepted and sent on, responses
    received and delivered; and whether the peer below or above has refused a packet and
    owes a retry. *)
Record State := MkState {
  bridge : Bridge;
  now : Z;
  below_owes : bool;
  above_owes : bool;
  accepted : list Packet.Packet;
  forwarded : list Packet.Packet;
  received : list Packet.Packet;
  delivered : list Packet.Packet;
}.
#[export] Instance eta_State : Eta State := fun x =>
  MkState (bridge x) (now x) (below_owes x) (above_owes x) (accepted x) (forwarded x) (received x) (delivered x).

Inductive event :=
  | Req (pkt : Packet.Packet)
  | Resp (pkt : Packet.Packet)
  | SendReq (ok : bool) (inner : list Packet.Packet)
  | SendResp (ok : bool) (inner : list Packet.Packet)
  | RetryReq (ok : bool) (inner : list Packet.Packet)
  | RetryResp (ok : bool) (inner : list Packet.Packet).

(** The packets whose answer is yes. *)
Fixpoint taken (ps : list Packet.Packet) (oks : list bool) : list Packet.Packet :=
  match ps, oks with
  | p :: ps, ok :: oks => (if ok : bool then [p] else []) ++ taken ps oks
  | _, _ => []
  end.

Definition send_req (c : Clock) (ok : bool) (inner : list Packet.Packet) (b : Bridge) (st : State) : outcome State :=
  '(r, b) ← trySendReq c ok inner b;
  Ok (st <| bridge := b |> <| below_owes := negb ok |> <| forwarded ::= (fun l => l ++ option_list r) |> <| received ::= (fun l => l ++ inner) |>).

Definition send_resp (c : Clock) (ok : bool) (inner : list Packet.Packet) (b : Bridge) (st : State) : outcome State :=
  '(r, oks, b) ← trySendResp c ok inner b;
  Ok (st <| bridge := b |> <| above_owes := negb ok |> <| delivered ::= (fun l => l ++ option_list r) |> <| accepted ::= (fun l => l ++ taken inner oks) |>).

Definition run_event (c : Clock) (e : event) (st : State) : outcome State :=
  let st := st <| now := curTick c |> in
  let b := bridge st in
  match e with
  | Req pkt => '(ok, b) ← recvTimingReq c pkt b; Ok (st <| bridge := b |> <| accepted ::= (fun l => l ++ if ok : bool then [pkt] else []) |>)
  | Resp pkt => '(_, b) ← recvTimingResp c pkt b; Ok (st <| bridge := b |> <| received ::= (fun l => l ++ [pkt]) |>)
  | SendReq ok inner => send_req c ok inner (b <| reqEvent := None |>) st
  | SendResp ok inner => send_resp c ok inner (b <| respEvent := None |>) st
  | RetryReq ok inner => send_req c ok inner b st
  | RetryResp ok inner => send_resp c ok inner b st
  end.

Fixpoint run (es : list (Clock * event)) (st : State) : outcome State :=
  match es with
  | [] => Ok st
  | (c, e) :: es => st ← run_event c e st; run es st
  end.

(** ** What the peers may do *)

(** Time goes on and no tick overflows. *)
Definition clock_ok (c : Clock) (st : State) : Prop :=
  0 <= now st <= curTick c /\ curTick c <= edge c /\ 0 <= period c /\ edge c + delay (bridge st) * period c < 2 ^ 64.

(** A peer whose request was refused waits for the retry. *)
Fixpoint patient (c : Clock) (ps : list Packet.Packet) (b : Bridge) : Prop :=
  match ps with
  | [] => True
  | p :: ps => retryReq b = false /\ forall ok b', recvTimingReq c p b = Ok (ok, b') -> patient c ps b'
  end.

(** The number of responses that requests ask for. *)
Definition expected (ps : list Packet.Packet) : nat := length (filter (fun p => expects_response p = true) ps).
#[global] Arguments expected : simpl never.

(** Responses answer requests that were sent on. *)
Definition answerable (n : nat) (st : State) : Prop := (length (received st) + n <= expected (forwarded st))%nat.

Definition legal (c : Clock) (e : event) (st : State) : Prop :=
  clock_ok c st /\
  match e with
  | Req pkt => retryReq (bridge st) = false
  | Resp pkt => answerable 1 st
  | SendReq ok inner => reqEvent (bridge st) = Some (curTick c) /\ answerable (length inner) st
  | SendResp ok inner => respEvent (bridge st) = Some (curTick c) /\ patient c inner ((bridge st) <| respEvent := None |>)
  | RetryReq ok inner => below_owes st = true /\ answerable (length inner) st
  | RetryResp ok inner => above_owes st = true /\ patient c inner (bridge st)
  end.

Fixpoint legal_run (es : list (Clock * event)) (st : State) : Prop :=
  match es with
  | [] => True
  | (c, e) :: es => legal c e st /\ forall st', run_event c e st = Ok st' -> legal_run es st'
  end.

Definition start (delay req_size resp_size : Z) (ranges : list AddrRange.AddrRange) : State :=
  MkState (Bridge_new delay req_size resp_size ranges) 0 false false [] [] [] [].

(** ** The invariant *)

Section invariant.
Context (D RQ RS : Z) (HD : 0 <= D) (HRQ : 0 < RQ < 2 ^ 32) (HRS : 0 < RS < 2 ^ 32).

(** The first packet of a queue is due when its event runs. *)
Definition due (ev : option Z) (l : list (Packet.Packet * Z)) : Prop :=
  forall t, ev = Some t -> exists p tk l', l = (p, tk) :: l' /\ tk <= t.

(** What holds also while a packet is being sent. *)
Record core (st : State) : Prop := {
  co_reqs : undelay <$> accepted st = forwarded st ++ (reqList (bridge st)).*1;
  co_resps : undelay <$> received st = delivered st ++ (respList (bridge st)).*1;
  co_count : outstandingResponses (bridge st) + Z.of_nat (length (delivered st)) = Z.of_nat (expected (accepted st));
  co_answers : (length (received st) <= expected (forwarded st))%nat;
  co_room : 0 <= outstandingResponses (bridge st) <= RS /\ Z.of_nat (length (reqList (bridge st))) <= RQ;
  co_retry : retryReq (bridge st) = true -> Z.of_nat (length (reqList (bridge st))) = RQ \/ outstandingResponses (bridge st) = RS;
  co_params : delay (bridge st) = D /\ reqQueueLimit (bridge st) = RQ /\ respQueueLimit (bridge st) = RS;
  co_due : due (reqEvent (bridge st)) (reqList (bridge st)) /\ due (respEvent (bridge st)) (respList (bridge st));
}.

(** A queue that is not empty will be looked at: its event is scheduled, or the peer owes
    a retry. *)
Definition awake (ev : option Z) (owes : bool) (l : list (Packet.Packet * Z)) (t : Z) : Prop :=
  (l <> [] -> is_Some ev \/ owes = true) /\
  (owes = true -> ev = None /\ exists p tk l', l = (p, tk) :: l' /\ tk <= t).

Record inv (st : State) : Prop := {
  in_core : core st;
  in_req : awake (reqEvent (bridge st)) (below_owes st) (reqList (bridge st)) (now st);
  in_resp : awake (respEvent (bridge st)) (above_owes st) (respList (bridge st)) (now st);
}.

Lemma due_none l : due None l.
Proof. by intros t. Qed.

Lemma due_app ev l x : due ev l -> due ev (l ++ [x]).
Proof. intros H t E. destruct (H t E) as (p & tk & l' & -> & Hle). by exists p, tk, (l' ++ [x]). Qed.

Lemma due_empty ev : due ev [] -> ev = None.
Proof. intros H. destruct ev as [t|]; [|done]. by destruct (H t eq_refl) as (? & ? & ? & ? & _). Qed.

Lemma expected_app l l' : expected (l ++ l') = (expected l + expected l')%nat.
Proof. unfold expected. by rewrite filter_app, length_app. Qed.

Lemma expected_undelay l : expected (undelay <$> l) = expected l.
Proof.
  unfold expected. induction l as [|p l IH]; [done|]. rewrite fmap_cons, !filter_cons. change (expects_response (undelay p)) with (expects_response p).
  destruct (decide _); cbn; by rewrite IH.
Qed.

Lemma edge_ok c st n : clock_ok c st -> 0 <= n <= delay (bridge st) -> curTick c <= clockEdge c n.
Proof. intros (H1 & H2 & H3 & H4) Hn. unfold clockEdge. rewrite uwrap_small; [nia|]. split; nia. Qed.

Lemma schedule_ok t w : t <= w -> schedule t w None = Ok (Some w).
Proof. intros H. unfold schedule. by rewrite (proj2 (Z.leb_le _ _) H). Qed.

(** *** Packets that arrive *)

(** A queue that gets more packets; the other one is left alone. *)
Definition grown (l l' : list (Packet.Packet * Z)) (ev ev' : option Z) : Prop :=
  (exists k, l' = l ++ k) /\ (l <> [] -> ev' = ev) /\ (l = [] -> l' <> [] -> is_Some ev').

Definition req_grown (b b' : Bridge) : Prop :=
  respList b' = respList b /\ respEvent b' = respEvent b /\ delay b' = delay b /\ grown (reqList b) (reqList b') (reqEvent b) (reqEvent b').

Definition resp_grown (b b' : Bridge) : Prop :=
  reqList b' = reqList b /\ reqEvent b' = reqEvent b /\ delay b' = delay b /\ retryReq b' = retryReq b /\
  grown (respList b) (respList b') (respEvent b) (respEvent b').

Lemma grown_refl l ev : grown l l ev ev.
Proof. split; [exists []; by rewrite app_nil_r|]. by split. Qed.

Lemma grown_trans l1 l2 l3 e1 e2 e3 : grown l1 l2 e1 e2 -> grown l2 l3 e2 e3 -> grown l1 l3 e1 e3.
Proof.
  intros ([k1 ->] & H1 & H1') ([k2 ->] & H2 & H2'). split; [exists (k1 ++ k2); by rewrite app_assoc|]. split.
  - intros Hl. rewrite H2, H1; [done|done|]. destruct l1; done.
  - intros -> Hne. cbn in *. destruct k1 as [|x k1]; [by apply H2'|]. rewrite H2 by done. by apply H1'.
Qed.

(** A request for which there is room, with [n] responses reserved. *)
Lemma accept_ok c st pkt n : core st -> clock_ok c st -> retryReq (bridge st) = false -> Z.of_nat (length (reqList (bridge st))) <> RQ ->
  n + Z.of_nat (length (delivered st)) = Z.of_nat (expected (accepted st ++ [pkt])) -> 0 <= n <= RS ->
  exists b', schedTimingReq c (undelay pkt) (clockEdge c (delay (bridge st))) ((bridge st) <| outstandingResponses := n |>) = Ok b' /\ retryReq b' = false /\
    core (st <| bridge := b' |> <| accepted ::= (fun l => l ++ [pkt]) |>) /\
    req_grown (bridge st) b'.
Proof.
  intros Hco Hc Hre Hq Hn HnR. pose proof Hco as [H1 H2 H3 H4 [H5 H5'] H6 (P1 & P2 & P3) [H7 H8]].
  pose proof (edge_ok c st (delay (bridge st)) Hc ltac:(lia)) as Hw. destruct st as [[dl rg rl o rr rsl re ql rql qe rt] nw bo ao acc fwd rcv dlv]. cbn in *. subst rql rsl rr.
  set (when := clockEdge c dl) in *. unfold schedTimingReq. cbn.
  assert (forall ev, due ev (ql ++ [(undelay pkt, when)]) ->
    core (MkState (MkBridge dl rg rl n false RS re (ql ++ [(undelay pkt, when)]) RQ ev rt) nw bo ao (acc ++ [pkt]) fwd rcv dlv)) as Hnew.
  { intros ev Hev. split; cbn; try done. - by rewrite !fmap_app, H1, app_assoc. - rewrite length_app. cbn. lia. }
  destruct ql as [|x l].
  - rewrite (due_empty _ H7), schedule_ok by done. cbn. unfold reqQueueFull. cbn. rewrite (proj2 (Z.eqb_neq _ _)) by lia. cbn. eexists. split; [done|]. split; [done|].
    split; [apply Hnew; intros t [= <-]; by eexists _, _, []|]. split_and!; try done. split; [by eexists|]. by split.
  - cbn. unfold reqQueueFull. cbn [length reqList reqQueueLimit]. rewrite (proj2 (Z.eqb_neq _ _)) by done. cbn. eexists. split; [done|]. split; [done|].
    split; [apply Hnew; by apply (due_app _ (x :: l))|]. split_and!; try done. split; [by eexists|]. by split.
Qed.

Lemma req_ok c st pkt : core st -> clock_ok c st -> retryReq (bridge st) = false ->
  exists ok b', recvTimingReq c pkt (bridge st) = Ok (ok, b') /\
    core (st <| bridge := b' |> <| accepted ::= (fun l => l ++ if ok : bool then [pkt] else []) |>) /\
    req_grown (bridge st) b'.
Proof.
  intros Hco Hc Hre. pose proof Hco as [H1 H2 H3 H4 [H5 H5'] H6 (P1 & P2 & P3) [H7 H8]].
  assert (Z.of_nat (length (reqList (bridge st))) = RQ \/ outstandingResponses (bridge st) = RS ->
    core (st <| bridge := (bridge st) <| retryReq := true |> |> <| accepted ::= (fun l => l ++ []) |>)) as Hfull.
  { intros Hf. destruct st. split; cbn in *; rewrite ?app_nil_r; done. }
  unfold recvTimingReq. rewrite Hre. cbn [negb ensure mbind outcome_bind]. unfold reqQueueFull at 1. rewrite P2.
  destruct (Z.eqb_spec (Z.of_nat (length (reqList (bridge st)))) RQ) as [Eq|Eq].
  { eexists false, _. split; [done|]. split; [apply Hfull; by left|]. split_and!; try done. apply grown_refl. }
  destruct (expects_response pkt) eqn:Ex.
  - unfold respQueueFull. rewrite P3. destruct (Z.eqb_spec (outstandingResponses (bridge st)) RS) as [Er|Er]; cbn [negb ensure mbind outcome_bind].
    { eexists false, _. split; [done|]. split; [apply Hfull; by right|]. split_and!; try done. apply grown_refl. }
    destruct (accept_ok c st pkt (outstandingResponses (bridge st) + 1)) as (b' & E & Hr' & Hrest); try done; try lia.
    { rewrite expected_app. unfold expected at 2. rewrite filter_cons_True by done. cbn. lia. }
    change ((bridge st) <| outstandingResponses ::= _ |>) with ((bridge st) <| outstandingResponses := u32 (outstandingResponses (bridge st) + 1) |>).
    rewrite (uwrap_small 32) by (split; lia). change (retryReq ((bridge st) <| outstandingResponses := _ |>)) with (retryReq (bridge st)).
    change (delay ((bridge st) <| outstandingResponses := _ |>)) with (delay (bridge st)). rewrite Hre. cbn [negb]. rewrite E. cbn. rewrite Hr'. by exists true, b'.
  - destruct (accept_ok c st pkt (outstandingResponses (bridge st))) as (b' & E & Hr' & Hrest); try done; try lia.
    { rewrite expected_app. unfold expected at 2. rewrite filter_cons_False by (by rewrite Ex). cbn. lia. }
    cbn [mbind outcome_bind]. rewrite Hre. cbn [negb]. assert ((bridge st) <| outstandingResponses := outstandingResponses (bridge st) |> = bridge st) as Eb by (by destruct (bridge st)).
    rewrite Eb in E. rewrite E. cbn. rewrite Hr'. by exists true, b'.
Qed.

Lemma reqs_ok c ps : forall st, core st -> clock_ok c st -> patient c ps (bridge st) ->
  exists oks b', recv_reqs c ps (bridge st) = Ok (oks, b') /\ core (st <| bridge := b' |> <| accepted ::= (fun l => l ++ taken ps oks) |>) /\ req_grown (bridge st) b'.
Proof.
  induction ps as [|p ps IH]; intros st Hco Hc Hp; cbn [recv_reqs].
  - eexists [], _. split; [done|]. split; [|split_and!; try done; apply grown_refl]. destruct st, Hco. split; cbn in *; by rewrite ?app_nil_r.
  - destruct Hp as [Hre Hp]. destruct (req_ok c st p Hco Hc Hre) as (ok & b1 & E1 & Hco1 & Hg1). specialize (Hp ok b1 E1). rewrite E1. cbn [mbind outcome_bind].
    set (st1 := st <| bridge := b1 |> <| accepted ::= _ |>) in Hco1. destruct Hg1 as (G1 & G2 & G3 & G4).
    assert (clock_ok c st1) as Hc1 by (unfold clock_ok; change (bridge st1) with b1; rewrite G3; exact Hc).
    destruct (IH st1 Hco1 Hc1 Hp) as (oks & b2 & E2 & Hco2 & K1 & K2 & K3 & K4). change (bridge st1) with b1 in *. rewrite E2. cbn [mbind outcome_bind].
    eexists _, b2. split; [done|]. split; [|split_and!; try congruence; by eapply grown_trans].
    cbn [taken]. destruct Hco2. destruct st. split; cbn in *; by rewrite ?app_assoc.
Qed.

Lemma resp_ok c st pkt : core st -> clock_ok c st -> answerable 1 st ->
  exists b', recvTimingResp c pkt (bridge st) = Ok (true, b') /\ core (st <| bridge := b' |> <| received ::= (fun l => l ++ [pkt]) |>) /\ resp_grown (bridge st) b'.
Proof.
  intros Hco Hc Ha. unfold answerable in Ha. pose proof Hco as [H1 H2 H3 H4 [H5 H5'] H6 (P1 & P2 & P3) [H7 H8]].
  pose proof (edge_ok c st (delay (bridge st)) Hc ltac:(lia)) as Hw. destruct st as [[dl rg rl o rr rsl re ql rql qe rt] nw bo ao acc fwd rcv dlv]. cbn in *. subst rql rsl.
  unfold recvTimingResp, schedTimingResp. cbn. set (when := clockEdge c dl) in *.
  assert (forall ev, due ev (rl ++ [(undelay pkt, when)]) ->
    core (MkState (MkBridge dl rg (rl ++ [(undelay pkt, when)]) o rr RS ev ql RQ qe rt) nw bo ao acc fwd (rcv ++ [pkt]) dlv)) as Hnew.
  { intros ev Hev. split; cbn; try done; [by rewrite !fmap_app, H2, app_assoc|rewrite length_app; cbn; lia]. }
  destruct rl as [|x l].
  - rewrite (due_empty _ H8), schedule_ok by done. cbn. eexists. split; [done|]. split; [apply Hnew; intros t [= <-]; by eexists _, _, []|].
    split_and!; try done. split; [by eexists|]. by split.
  - cbn. eexists. split; [done|]. split; [apply Hnew; by apply (due_app _ (x :: l))|]. split_and!; try done. split; [by eexists|]. by split.
Qed.

Lemma resps_ok c ps : forall st, core st -> clock_ok c st -> answerable (length ps) st ->
  exists b', recv_resps c ps (bridge st) = Ok b' /\ core (st <| bridge := b' |> <| received ::= (fun l => l ++ ps) |>) /\ resp_grown (bridge st) b'.
Proof.
  induction ps as [|p ps IH]; intros st Hco Hc Ha; cbn [recv_resps].
  - eexists. split; [done|]. split; [|split_and!; try done; apply grown_refl]. destruct st, Hco. split; cbn in *; by rewrite ?app_nil_r.
  - unfold answerable in Ha. cbn [length] in Ha. destruct (resp_ok c st p Hco Hc) as (b1 & -> & Hco1 & G1 & G2 & G3 & G4 & G5); [unfold answerable; lia|]. cbn [mbind outcome_bind].
    set (st1 := st <| bridge := b1 |> <| received ::= _ |>) in Hco1.
    assert (clock_ok c st1) as Hc1 by (unfold clock_ok; change (bridge st1) with b1; rewrite G3; exact Hc).
    destruct (IH st1 Hco1 Hc1) as (b2 & E2 & Hco2 & K1 & K2 & K3 & K4 & K5); [unfold answerable; change (received st1) with (received st ++ [p]); change (forwarded st1) with (forwarded st); rewrite length_app; cbn [length]; lia|]. change (bridge st1) with b1 in *. rewrite E2.
    eexists. split; [done|]. split; [|split_and!; try congruence; by eapply grown_trans].
    destruct Hco2. destruct st. split; cbn in *; try done; by rewrite cons_middle, app_assoc.
Qed.

(** *** Packets that are sent *)

Lemma awake_grown ev ev' owes l l' t : awake ev owes l t -> grown l l' ev ev' -> awake ev' owes l' t.
Proof.
  intros [H1 H2] ([k ->] & H3 & H4). split.
  - intros Hne. destruct (decide (l = [])) as [->|Hl]; [left; by apply H4|]. rewrite H3 by done. by apply H1.
  - intros Ho. destruct (H2 Ho) as [-> (p & tk & l' & -> & Ht)]. split; [by apply H3|]. by exists p, tk, (l' ++ k).
Qed.

Lemma core_owes st bo ao : core st -> core (st <| below_owes := bo |> <| above_owes := ao |>).
Proof. intros []. by split. Qed.

Lemma enough st : core st -> Z.of_nat (length (respList (bridge st))) <= outstandingResponses (bridge st).
Proof.
  intros [H1 H2 H3 H4 _ _ _ _]. apply (f_equal expected) in H1. rewrite expected_undelay, expected_app in H1. apply (f_equal length) in H2.
  rewrite length_fmap, length_app, length_fmap in H2. lia.
Qed.

(** The event of a queue from which the first packet has gone. *)
Definition next_event (c : Clock) (l : list (Packet.Packet * Z)) : option Z :=
  match l with [] => None | (_, tk) :: _ => Some (Z.max tk (clockEdge c 0)) end.

Lemma next_event_awake c l t : due (next_event c l) l /\ awake (next_event c l) false l t.
Proof.
  destruct l as [|[p tk] l]; cbn; [split; [by intros t0|by split]|]. split; [intros t0 [= <-]; eexists _, _, _; split; [done|lia]|]. split; [intros _; by left|done].
Qed.

Lemma send_req_ok c ok inner st : core st -> reqEvent (bridge st) = None -> (exists p tk l, reqList (bridge st) = (p, tk) :: l /\ tk <= curTick c) ->
  clock_ok c st -> now st = curTick c -> answerable (length inner) st -> awake (respEvent (bridge st)) (above_owes st) (respList (bridge st)) (now st) ->
  exists st', send_req c ok inner (bridge st) st = Ok st' /\ inv st'.
Proof.
  intros Hco Hev (p & tk & l & El & Ht) Hc Hnow Ha Haw. unfold send_req, trySendReq. rewrite El, (proj2 (Z.leb_le _ _) Ht). cbn [ensure mbind outcome_bind].
  destruct (resps_ok c inner st Hco Hc Ha) as (b1 & -> & Hco1 & G1 & G2 & G3 & G4 & G5). cbn [mbind outcome_bind].
  pose proof (awake_grown _ _ _ _ _ _ Haw G5) as Haw1. rewrite Hev in G2. rewrite El in G1.
  pose proof (edge_ok c st 0 Hc) as Hed. destruct st as [b nw bo ao acc fwd rcv dlv]. cbn in Hnow, Haw1, Hed, Hc |- *.
  destruct b1 as [dl rg rl o rr rsl re ql rql qe rt]. cbn in G1, G2, G3, G4, G5, Haw1 |- *. subst ql qe nw.
  destruct ok; cycle 1.
  { eexists. split; [done|]. cbn. rewrite app_nil_r. split; cbn; [apply (core_owes _ true ao Hco1)| |done]. split; [intros _; by right|]. intros _. split; [done|]. by eexists _, _, _. }
  destruct Hco1 as [H1 H2 H3 H4 [H5 H5'] H6 (P1 & P2 & P3) [H7 H8]]. cbn in H1, H2, H3, H4, H5, H5', H6, P1, P2, P3, H7, H8. subst rql rsl.
  destruct (next_event_awake c l (curTick c)) as [Hd Hn].
  assert (forall rt', inv (MkState (MkBridge dl rg rl o false RS re l RQ (next_event c l) rt') (curTick c) false ao acc (fwd ++ [p]) (rcv ++ inner) dlv)) as Hinv.
  { intros rt'. split; [|done|done]. split; cbn; try done; [by rewrite H1, <- app_assoc| |lia]. rewrite expected_app. lia. }
  assert (curTick c <= clockEdge c 0) as Hed0 by (apply Hed; destruct Hc; lia).
  destruct l as [|[p2 tk2] l2]; cbn.
  - destruct rr; cbn; eexists; (split; [done|]); apply Hinv.
  - rewrite schedule_ok by lia. destruct rr; cbn; eexists; (split; [done|]); apply Hinv.
Qed.

Lemma send_resp_ok c ok inner st : core st -> respEvent (bridge st) = None -> (exists p tk l, respList (bridge st) = (p, tk) :: l /\ tk <= curTick c) ->
  clock_ok c st -> now st = curTick c -> patient c inner (bridge st) -> awake (reqEvent (bridge st)) (below_owes st) (reqList (bridge st)) (now st) ->
  exists st', send_resp c ok inner (bridge st) st = Ok st' /\ inv st'.
Proof.
  intros Hco Hev (p & tk & l & El & Ht) Hc Hnow Ha Haw. unfold send_resp, trySendResp. rewrite El, (proj2 (Z.leb_le _ _) Ht). cbn [ensure mbind outcome_bind].
  destruct (reqs_ok c inner st Hco Hc Ha) as (oks & b1 & -> & Hco1 & G1 & G2 & G3 & G4). cbn [mbind outcome_bind].
  pose proof (awake_grown _ _ _ _ _ _ Haw G4) as Haw1. rewrite Hev in G2. rewrite El in G1. pose proof (enough _ Hco1) as Hen.
  pose proof (edge_ok c st 0 Hc) as Hed. destruct st as [b nw bo ao acc fwd rcv dlv]. cbn in Hnow, Haw1, Hed, Hc |- *.
  destruct b1 as [dl rg rl o rr rsl re ql rql qe rt]. cbn in G1, G2, G3, G4, Haw1, Hen |- *. subst rl re nw. cbn [length] in Hen.
  destruct ok; cycle 1.
  { eexists. split; [done|]. cbn. rewrite app_nil_r. split; cbn; [apply (core_owes _ bo true Hco1)|done|]. split; [intros _; by right|]. intros _. split; [done|]. by eexists _, _, _. }
  destruct Hco1 as [H1 H2 H3 H4 [H5 H5'] H6 (P1 & P2 & P3) [H7 H8]]. cbn in H1, H2, H3, H4, H5, H5', H6, P1, P2, P3, H7, H8. subst rql rsl.
  destruct (next_event_awake c l (curTick c)) as [Hd Hn].
  assert (forall rr' rt', (rr' = true -> Z.of_nat (length ql) = RQ) ->
    inv (MkState (MkBridge dl rg l (o - 1) rr' RS (next_event c l) ql RQ qe rt') (curTick c) bo false (acc ++ taken inner oks) fwd rcv (dlv ++ [p]))) as Hinv.
  { intros rr' rt' Hrr. split; [|done|done]. split; cbn; try done; [by rewrite H2, <- app_assoc|rewrite length_app; cbn; lia|lia|intros E; left; by apply Hrr]. }
  assert (curTick c <= clockEdge c 0) as Hed0 by (apply Hed; destruct Hc; lia).
  rewrite (proj2 (Z.eqb_neq o 0)) by lia. cbn [negb ensure mbind outcome_bind]. rewrite (uwrap_small 32) by (split; lia). unfold reqQueueFull.
  destruct l as [|[p2 tk2] l2]; cbn; [|rewrite schedule_ok by lia; cbn];
    destruct (Z.eqb_spec (Z.of_nat (length ql)) RQ), rr; cbn; eexists; (split; [done|]); by apply Hinv.
Qed.

Lemma awake_later ev owes l t t' : t <= t' -> awake ev owes l t -> awake ev owes l t'.
Proof. intros Ht [H1 H2]. split; [done|]. intros Ho. destruct (H2 Ho) as [-> (p & tk & l' & -> & H)]. split; [done|]. exists p, tk, l'. split; [done|lia]. Qed.

Lemma bridge_later st t : now st <= t -> inv st -> inv (st <| now := t |>).
Proof. intros Ht [[] H2 H3]. split; [by split|by apply (awake_later _ _ _ _ _ Ht)..]. Qed.

Lemma send_req_bridge c ok inner b b' st : send_req c ok inner b (st <| bridge := b' |>) = send_req c ok inner b st.
Proof. unfold send_req. by destruct (trySendReq c ok inner b) as [[r b1]|e]. Qed.

Lemma send_resp_bridge c ok inner b b' st : send_resp c ok inner b (st <| bridge := b' |>) = send_resp c ok inner b st.
Proof. unfold send_resp. by destruct (trySendResp c ok inner b) as [[[r oks] b1]|e]. Qed.

Lemma event_ok c e st : inv st -> legal c e st -> exists st', run_event c e st = Ok st' /\ inv st'.
Proof.
  intros Hi [Hc Hl]. apply (bridge_later st (curTick c)) in Hi; [|destruct Hc; lia]. unfold run_event. set (s := st <| now := curTick c |>) in *.
  assert (clock_ok c s) as Hcs by (destruct Hc as ([? ?] & ? & ? & ?); split_and!; try done; cbn; lia). pose proof Hi as [Hco Hq Hr]. destruct e; cbn [legal] in Hl.
  - destruct (req_ok c s pkt Hco Hcs Hl) as (ok & b' & -> & Hco' & G1 & G2 & G3 & G4). cbn [mbind outcome_bind]. eexists. split; [done|]. split; [done|by apply (awake_grown _ _ _ _ _ _ Hq G4)|].
    cbn. by rewrite G1, G2.
  - destruct (resp_ok c s pkt Hco Hcs Hl) as (b' & -> & Hco' & G1 & G2 & G3 & G4 & G5). cbn [mbind outcome_bind]. eexists. split; [done|]. split; [done| |by apply (awake_grown _ _ _ _ _ _ Hr G5)].
    cbn. by rewrite G1, G2.
  - destruct Hl as [Hev Ha]. destruct (co_due _ Hco) as [Hd _]. destruct (Hd _ Hev) as (p & tk & l & El & Ht).
    rewrite <- (send_req_bridge _ _ _ _ ((bridge s) <| reqEvent := None |>)).
    match goal with |- context [send_req _ _ _ ?b ?x] => change b with (bridge x) end. apply send_req_ok; try done; [|by exists p, tk, l].
    destruct Hco as [? ? ? ? ? ? ? [? ?]]. by split.
  - destruct Hl as [Hev Ha]. destruct (co_due _ Hco) as [_ Hd]. destruct (Hd _ Hev) as (p & tk & l & El & Ht).
    rewrite <- (send_resp_bridge _ _ _ _ ((bridge s) <| respEvent := None |>)).
    match goal with |- context [send_resp _ _ _ ?b ?x] => change b with (bridge x) end. apply send_resp_ok; try done; [|by exists p, tk, l].
    destruct Hco as [? ? ? ? ? ? ? [? ?]]. by split.
  - destruct Hl as [Ho Ha]. destruct Hq as [_ Hq]. destruct (Hq Ho) as [Hev He]. by apply send_req_ok.
  - destruct Hl as [Ho Ha]. destruct Hr as [_ Hr]. destruct (Hr Ho) as [Hev He]. by apply send_resp_ok.
Qed.

Lemma run_ok es : forall st, inv st -> legal_run es st -> exists st', run es st = Ok st' /\ inv st'.
Proof.
  induction es as [|[c e] es IH]; intros st Hi Hl; [by exists st|]. destruct Hl as [He Hes]. destruct (event_ok c e st Hi He) as (st1 & E & Hi1).
  cbn [run]. rewrite E. cbn [mbind outcome_bind]. apply IH; [done|]. by apply Hes.
Qed.
End invariant.

Lemma start_inv D rq rs ranges : 0 <= D -> 0 < rq < 2 ^ 32 -> 0 < rs < 2 ^ 32 -> inv D rq rs (start D rq rs ranges).
Proof.
  intros HD Hq Hs. unfold start, Bridge_new. rewrite !(uwrap_small 32) by (split; lia). split; [|by split..].
  split; cbn; try done; lia.
Qed.

(** C13: the bridge loses, duplicates and reorders nothing and strands nobody. For every
    order of events in which the peers keep to the protocol (a refused peer waits for
    the retry, responses answer requests that were sent on) no assertion fails; the
    requests accepted are those sent on followed by those queued, and the responses
    received are those delivered followed by those queued, all in order and without
    their delays; the queues respect their limits, the response queue too, although
    responses are never refused; a queue that is not empty has its event scheduled or is
    owed a retry; and while a request is stalled there is something in the bridge or
    below whose departure makes the bridge ask for it again. *)
Theorem bridge_conserves D rq rs ranges es : 0 <= D -> 0 < rq < 2 ^ 32 -> 0 < rs < 2 ^ 32 -> legal_run es (start D rq rs ranges) ->
  exists st, run es (start D rq rs ranges) = Ok st /\ let b := bridge st in
    undelay <$> accepted st = forwarded st ++ (reqList b).*1 /\ undelay <$> received st = delivered st ++ (respList b).*1 /\
    Z.of_nat (length (reqList b)) <= rq /\ Z.of_nat (length (respList b)) <= rs /\
    (reqList b <> [] -> is_Some (reqEvent b) \/ below_owes st = true) /\ (respList b <> [] -> is_Some (respEvent b) \/ above_owes st = true) /\
    (retryReq b = true -> reqList b <> [] \/ (length (delivered st) < expected (forwarded st))%nat).
Proof.
  intros HD Hq Hs Hl. destruct (run_ok D rq rs HD Hq Hs es _ (start_inv D rq rs ranges HD Hq Hs) Hl) as (st & E & [Hco [Hr1 _] [Hr2 _]]). exists st.
  split; [done|]. pose proof (enough D rq rs st Hco) as Hen. destruct Hco as [H1 H2 H3 H4 [H5 H5'] H6 _ _]. cbv zeta. split_and!; try done; try lia.
  intros Hre. destruct (reqList (bridge st)) as [|x l] eqn:El; [right|by left]. destruct (H6 Hre) as [H|H]; [cbn in H; lia|].
  apply (f_equal expected) in H1. rewrite expected_undelay, app_nil_r in H1. lia.
Qed.

(** A bridge with room for one request and one response: the second request is refused,
    and asked for again when the first has gone; so is one that arrives while the response
    is being delivered. *)
Definition example_packet (cmd : MemCmd.Command) (a : Z) : Packet.Packet := Packet.MkPacket 3 cmd Request.Request0 None a false 8 MemCmd.InvalidCmd [] 5 7 [].
Definition example_read : Packet.Packet := example_packet MemCmd.ReadReq 64.
Definition example_answer : Packet.Packet := example_packet MemCmd.ReadResp 64.
Definition example_write : Packet.Packet := example_packet MemCmd.Writeback 128.

Definition at_tick (t : Z) : Clock := MkClock t t 10.
Definition example_events : list (Clock * event) :=
  [(at_tick 0, Req example_read); (at_tick 10, Req example_write); (at_tick 20, SendReq false []); (at_tick 30, RetryReq true []);
   (at_tick 40, Req example_write); (at_tick 60, SendReq true []); (at_tick 70, Resp example_answer); (at_tick 90, SendResp true [example_read])].

Lemma legal_step c e es st st1 : run_event c e st = Ok st1 -> legal c e st -> legal_run es st1 -> legal_run ((c, e) :: es) st.
Proof. intros E Hl Hes. split; [done|]. intros st' E'. assert (st' = st1) as -> by congruence. done. Qed.

Lemma example_legal_run : legal_run example_events (start 2 1 1 []).
Proof.
  unfold example_events. do 8 (eapply legal_step; [vm_compute; reflexivity|split; [split_and!; vm_compute; done|cbn; unfold answerable; try (split; [done|]); done || (vm_compute; lia)]|]). done.
Qed.

Lemma bridge_conserves_witness : exists st, run example_events (start 2 1 1 []) = Ok st /\
  forwarded st = [undelay example_read; undelay example_write] /\ delivered st = [undelay example_answer] /\ retries (bridge st) = 2.
Proof.
  destruct (bridge_conserves 2 1 1 [] example_events ltac:(lia) ltac:(lia) ltac:(lia) example_legal_run) as (st & E & _). exists st. split; [done|].
  vm_compute in E. injection E as <-. done.
Defined.

(** ** The bridge in atomic mode

    It serves what the object below serves, so a cache or a crossbar can be above it. *)
Section below.
Context {M : Type} {AP : AtomicPort M} {FP : FunctionalPort M} (clockPeriod lo hi : Z).
Context {PO : AtomicPortOk M lo hi} {SO : SnoopedPortOk M lo hi} {FO : FunctionalPortOk M lo hi}.

#[export] Instance bridge_port : AtomicPort (Bridge * M) := recvAtomic clockPeriod.
#[export] Instance bridge_functional : FunctionalPort (Bridge * M) := recvFunctional.

(** Nothing is on its way through the bridge. *)
Definition bridge_rep (F : Z -> Z) (bm : Bridge * M) : Prop := reqList bm.1 = [] /\ respList bm.1 = [] /\ port_rep F bm.2.

Lemma bridge_forward_ok pkt b m pkt' lat m' : sendAtomic pkt m = Ok (pkt', lat, m') ->
  exists lat', sendAtomic pkt (b, m) = Ok (pkt', lat', (b, m')).
Proof. intros E. cbn. unfold bridge_port, recvAtomic. rewrite E. cbn. eauto. Qed.

#[export] Program Instance bridge_port_ok : AtomicPortOk (Bridge * M) lo hi := {| port_rep := bridge_rep |}.
Next Obligation.
  intros F [b m] pkt d (H1 & H2 & Hm) Hq Hc. destruct (port_read F m pkt d Hm Hq Hc) as (p & lat & m' & E & Hm' & Hr & Hd).
  destruct (bridge_forward_ok pkt b m p lat m' E) as (lat' & E'). by exists p, lat', (b, m').
Qed.
Next Obligation.
  intros F [b m] pkt d (H1 & H2 & Hm) Hq Hc. destruct (port_invalidate F m pkt d Hm Hq Hc) as (p & lat & m' & E & Hm' & Hr).
  destruct (bridge_forward_ok pkt b m p lat m' E) as (lat' & E'). by exists p, lat', (b, m').
Qed.
Next Obligation.
  intros F [b m] pkt d (H1 & H2 & Hm) Hq Hc Hf. destruct (port_writeback F m pkt d Hm Hq Hc Hf) as (p & lat & m' & E & Hm' & Hr).
  destruct (bridge_forward_ok pkt b m p lat m' E) as (lat' & E'). by exists p, lat', (b, m').
Qed.

#[export] Program Instance bridge_snooped_ok : SnoopedPortOk (Bridge * M) lo hi.
Next Obligation.
  intros F [b m] pkt d (H1 & H2 & Hm) Hq Hc. destruct (port_upgrade F m pkt d Hm Hq Hc) as (p & lat & m' & E & Hm' & Hr).
  destruct (bridge_forward_ok pkt b m p lat m' E) as (lat' & E'). by exists p, lat', (b, m').
Qed.
Next Obligation.
  intros F [b m] pkt (H1 & H2 & Hm) Hi Fa Fs Hs Hl Hh. destruct (port_inhibited F m pkt Hm Hi Fa Fs Hs Hl Hh) as (lat & m' & E & Hm').
  destruct (bridge_forward_ok pkt b m pkt lat m' E) as (lat' & E'). by exists lat', (b, m').
Qed.

Lemma forward_functional_ok pkt b m pkt' m' : reqList b = [] -> respList b = [] -> sendFunctional pkt m = Ok (pkt', m') ->
  sendFunctional pkt (b, m) = Ok (pkt', (b, m')).
Proof.
  intros H1 H2 E. cbn. unfold bridge_functional, recvFunctional, checkFunctional. destruct b. cbn in *. subst. cbn. rewrite E. done.
Qed.

#[export] Program Instance bridge_functional_ok : FunctionalPortOk (Bridge * M) lo hi.
Next Obligation.
  intros F [b m] pkt d (H1 & H2 & Hm) Hq Hc. destruct (port_func_read F m pkt d Hm Hq Hc) as (p & m' & E & Hm' & Hr).
  exists p, (b, m'). by rewrite (forward_functional_ok pkt b m p m').
Qed.
Next Obligation.
  intros F [b m] pkt d (H1 & H2 & Hm) Hq Hc. destruct (port_func_write F m pkt d Hm Hq Hc) as (p & m' & E & Hm' & Hr).
  exists p, (b, m'). by rewrite (forward_functional_ok pkt b m p m').
Qed.
End below.
End Bridge.
