(* ===== verification/PacketQueue.v ===== *)
(** The queue of outgoing packets of a queued port: mem/packet_queue.hh,
    mem/packet_queue.cc and mem/qport.hh.

    Packets wait in the order of the ticks they may be sent at; an event, or the
    retry of a peer that refused, sends the first one. The arguments of the
    operations are [curTick], the peer's answer to [sendTiming], and the packets
    that the owner of the queue adds from within that call. *)

From Stdlib Require Import Sorting.Sorted.
From S2P Require Import Prelude IntMath Request MemCmd Packet Functional.
Local Open Scope Z_scope.

Module PacketQueue.

(** ** State and operations *)

(** A deferred packet and the tick it is ready at. *)
Abbreviation DeferredPacket := (Z * Packet.Packet)%type.

(** [drains] counts the calls of [signalDrainDone]. *)
Record PacketQueue := MkPQ {
  transmitList : list DeferredPacket;
  sendEvent : option Z;
  drainManager : bool;
  waitingOnRetry : bool;
  drains : Z;
}.
#[global] Instance eta_PacketQueue : Eta PacketQueue := fun q =>
  MkPQ (transmitList q) (sendEvent q) (drainManager q) (waitingOnRetry q) (drains q).

Definition PacketQueue_new : PacketQueue := MkPQ [] None false false 0.

Definition is_empty {A} (l : list A) : bool := match l with [] => true | _ => false end.

Definition deferredPacketReady (curTick : Z) (q : PacketQueue) : bool :=
  match transmitList q with [] => false | (t, _) :: _ => t <=? curTick end.

Definition deferredPacketReadyTime (q : PacketQueue) : Z :=
  match transmitList q with [] => MaxTick | (t, _) :: _ => t end.

Fixpoint has_addr (addr : Z) (l : list DeferredPacket) : outcome bool :=
  match l with
  | [] => Ok false
  | (_, p) :: l =>
      a ← Packet.getAddr p;
      if a =? addr then Ok true else has_addr addr l
  end.
Definition hasAddr (addr : Z) (q : PacketQueue) : outcome bool := has_addr addr (transmitList q).

(** The label pushed for the duration of the search only shows in printed
    output. *)
Fixpoint check_list (pkt : Packet.Packet) (l : list DeferredPacket)
  : outcome (bool * Packet.Packet * list DeferredPacket) :=
  match l with
  | [] => Ok (false, pkt, [])
  | (t, p) :: l =>
      '(found, pkt, p) ← Functional.checkFunctional_pkt pkt p;
      if found : bool then Ok (true, pkt, (t, p) :: l)
      else '(found, pkt, l) ← check_list pkt l; Ok (found, pkt, (t, p) :: l)
  end.
Definition checkFunctional (pkt : Packet.Packet) (q : PacketQueue)
  : outcome (bool * Packet.Packet * PacketQueue) :=
  '(found, pkt, l) ← check_list pkt (transmitList q);
  Ok (found, pkt, q <| transmitList := l |>).

Definition schedSendEvent (curTick when : Z) (q : PacketQueue) : outcome PacketQueue :=
  if waitingOnRetry q then
    _ ← ensure AssertFailed (negb (bool_decide (is_Some (sendEvent q))));
    Ok q
  else if negb (when =? MaxTick) then
    let when := Z.max when (u64 (curTick + 1)) in
    match sendEvent q with
    | None => ev ← schedule curTick when (sendEvent q); Ok (q <| sendEvent := ev |>)
    | Some w =>
        if when <? w then ev ← reschedule curTick when; Ok (q <| sendEvent := ev |>)
        else Ok q
    end
  else if drainManager q && is_empty (transmitList q) && negb (bool_decide (is_Some (sendEvent q)))
  then Ok (q <| drains ::= Z.succ |> <| drainManager := false |>)
  else Ok q.

(** The insertion: before the first packet with a later tick. *)
Fixpoint insert_sorted (when : Z) (pkt : Packet.Packet) (l : list DeferredPacket)
  : list DeferredPacket :=
  match l with
  | [] => [(when, pkt)]
  | (t, p) :: l' => if when >=? t then (t, p) :: insert_sorted when pkt l' else (when, pkt) :: l
  end.

Definition schedSendTiming (curTick : Z) (pkt : Packet.Packet) (when : Z) (force_order : bool)
  (q : PacketQueue) : outcome PacketQueue :=
  _ ← ensure AssertFailed (when >=? curTick);
  _ ← ensure AssertFailed (negb (Packet.isExpressSnoop pkt));
  _ ← ensure PanicError (negb (Z.of_nat (length (transmitList q)) >? 100));
  let when :=
    match last (transmitList q) with
    | Some (back, _) => if force_order && (when <? back) then back else when
    | None => when
    end in
  match transmitList q, last (transmitList q) with
  | (front, p) :: rest, Some (back, _) =>
      if when <? front then
        _ ← ensure AssertFailed (negb force_order);
        schedSendEvent curTick when (q <| transmitList := (when, pkt) :: transmitList q |>)
      else if when >=? back then Ok (q <| transmitList := transmitList q ++ [(when, pkt)] |>)
      else
        _ ← ensure AssertFailed (negb force_order);
        Ok (q <| transmitList := (front, p) :: insert_sorted when pkt rest |>)
  | _, _ => schedSendEvent curTick when (q <| transmitList := [(when, pkt)] |>)
  end.

(** The packets added from within [sendTiming]: packet, tick and
    [force_order]. *)
Abbreviation addition := (Packet.Packet * Z * bool)%type.
Fixpoint add_all (curTick : Z) (adds : list addition) (q : PacketQueue) : outcome PacketQueue :=
  match adds with
  | [] => Ok q
  | (pkt, when, fo) :: adds => q ← schedSendTiming curTick pkt when fo q; add_all curTick adds q
  end.

(** [ok] is the result of [sendTiming]; the packet is returned when it was
    sent. *)
Definition sendDeferredPacket (curTick : Z) (inner : list addition) (ok : bool) (q : PacketQueue)
  : outcome (option DeferredPacket * PacketQueue) :=
  _ ← ensure AssertFailed (negb (waitingOnRetry q));
  _ ← ensure AssertFailed (deferredPacketReady curTick q);
  match transmitList q with
  | [] => Fail Undefined
  | dp :: rest =>
      q ← add_all curTick inner (q <| transmitList := rest |>);
      let q := q <| waitingOnRetry := negb ok |> in
      if ok then
        q ← schedSendEvent curTick (deferredPacketReadyTime q) q;
        Ok (Some dp, q)
      else Ok (None, q <| transmitList ::= cons dp |>)
  end.

(** The event is no longer scheduled when it runs. *)
Definition processSendEvent (curTick : Z) (inner : list addition) (ok : bool) (q : PacketQueue)
  : outcome (option DeferredPacket * PacketQueue) :=
  _ ← ensure AssertFailed (negb (waitingOnRetry q));
  sendDeferredPacket curTick inner ok q.

Definition retry (curTick : Z) (inner : list addition) (ok : bool) (q : PacketQueue)
  : outcome (option DeferredPacket * PacketQueue) :=
  _ ← ensure AssertFailed (waitingOnRetry q);
  sendDeferredPacket curTick inner ok (q <| waitingOnRetry := false |>).

(** The result is the number of objects still to drain. *)
Definition drain (q : PacketQueue) : Z * PacketQueue :=
  match transmitList q with [] => (0, q) | _ => (1, q <| drainManager := true |>) end.

(** ** The queue as a stable sort

    What the queue promises: the packets leave in the order in which a stable
    sort by tick puts all packets ever added, a packet added with [force_order]
    counting as no earlier than every packet before it. *)

Definition spec_add (l : list DeferredPacket) (a : addition) : list DeferredPacket :=
  let '(pkt, when, force_order) := a in
  let when := match last l with
              | Some (back, _) => if force_order : bool then Z.max when back else when
              | None => when
              end in
  insert_sorted when pkt l.
Definition spec_run (adds : list addition) : list DeferredPacket := foldl spec_add [] adds.

Definition ticks_sorted (l : list DeferredPacket) : Prop := StronglySorted Z.le l.*1.

Lemma ticks_sorted_cons t p l :
  ticks_sorted ((t, p) :: l) <-> ticks_sorted l /\ Forall (fun d => t <= d.1) l.
Proof.
  unfold ticks_sorted. simpl. rewrite <- (Forall_fmap fst (Z.le t) l). split.
  - intros H. by apply StronglySorted_inv in H.
  - intros []. by constructor.
Qed.

Lemma insert_sorted_perm w p l : insert_sorted w p l ≡ₚ (w, p) :: l.
Proof.
  induction l as [|[t p'] l IH]; simpl; [done|]. destruct (w >=? t); [|done]. rewrite IH. constructor.
Qed.

Lemma insert_sorted_sorted w p l : ticks_sorted l -> ticks_sorted (insert_sorted w p l).
Proof.
  induction l as [|[t p'] l IH]; intros H; simpl; [by repeat constructor|].
  apply ticks_sorted_cons in H as [H1 H2]. rewrite Z.geb_leb. destruct (Z.leb_spec t w) as [Hw|Hw].
  - apply ticks_sorted_cons. split; [auto|]. rewrite insert_sorted_perm. by constructor.
  - rewrite !ticks_sorted_cons. split_and!; try done. constructor; [simpl; lia|].
    eapply Forall_impl; [exact H2|]. intros d. simpl. lia.
Qed.

Lemma insert_sorted_app w p l1 l2 :
  Forall (fun d => d.1 <= w) l1 -> insert_sorted w p (l1 ++ l2) = l1 ++ insert_sorted w p l2.
Proof.
  induction 1 as [|[t p'] l1 Ht Hl IH]; simpl in *; [done|]. by rewrite (proj2 (Z.geb_le _ _) Ht), IH.
Qed.

Lemma insert_sorted_end w p l : Forall (fun d => d.1 <= w) l -> insert_sorted w p l = l ++ [(w, p)].
Proof. intros H. rewrite <- (app_nil_r l) at 1. by rewrite insert_sorted_app. Qed.

Lemma insert_sorted_front w p t p' l : w < t -> insert_sorted w p ((t, p') :: l) = (w, p) :: (t, p') :: l.
Proof. intros H. simpl. by rewrite Z.geb_leb, (proj2 (Z.leb_gt _ _) H). Qed.

Lemma sorted_last l t p : ticks_sorted l -> last l = Some (t, p) -> Forall (fun d => d.1 <= t) l.
Proof.
  induction l as [|[t' p'] l IH]; intros H E; [done|]. apply ticks_sorted_cons in H as [H1 H2].
  destruct l as [|d l]; simpl in E.
  - injection E as -> ->. by repeat constructor.
  - specialize (IH H1 E). constructor; [|done]. simpl. inversion H2; inversion IH; subst. lia.
Qed.

(** ** Invariants *)

(** The pending event wakes the queue up when its first packet is ready. *)
Definition event_ok (now : Z) (q : PacketQueue) : Prop :=
  forall w, sendEvent q = Some w ->
    match transmitList q with
    | [] => False
    | (front, _) :: _ => front <= w <= Z.max front (now + 1)
    end.

(** There is room for [n] more packets. *)
Definition room (n : nat) (q : PacketQueue) : Prop := Z.of_nat (length (transmitList q) + n) <= 101.

(** What holds also while a packet is being sent, when [adds] have been added and
    [sent] have left. *)
Record core (adds : list addition) (sent : list DeferredPacket) (now : Z) (q : PacketQueue) : Prop := {
  co_spec : sent ++ transmitList q = spec_run adds;
  co_sorted : ticks_sorted (transmitList q);
  co_sent : Forall (fun d => d.1 <= now) sent;
  co_range : Forall (fun d => 0 <= d.1 < MaxTick) (transmitList q);
  co_room : room 0 q;
  co_event : event_ok now q;
}.

Record inv (adds : list addition) (sent : list DeferredPacket) (now : Z) (q : PacketQueue) : Prop := {
  in_core : core adds sent now q;
  in_wake : waitingOnRetry q = false -> transmitList q <> [] -> is_Some (sendEvent q);
  in_waiting : waitingOnRetry q = true -> deferredPacketReady now q = true /\ sendEvent q = None;
}.

(** A packet that may be added at [curTick]. *)
Record addition_ok (curTick : Z) (a : addition) : Prop := {
  ad_now : 0 <= curTick;
  ad_when : curTick <= a.1.2 < MaxTick;
  ad_snoop : Packet.isExpressSnoop a.1.1 = false;
}.

Lemma schedSendEvent_ok t when q :
  0 <= t < MaxTick -> 0 <= when < MaxTick -> waitingOnRetry q = false ->
  exists w, schedSendEvent t when q = Ok (q <| sendEvent := Some w |>) /\
    (w = Z.max when (t + 1) \/ sendEvent q = Some w /\ w <= Z.max when (t + 1)).
Proof.
  intros H0 [H1 H2] Hw. unfold schedSendEvent. rewrite Hw, (proj2 (Z.eqb_neq _ _)) by lia.
  cbn [negb]. rewrite uwrap_small by (unfold MaxTick in *; split; lia).
  destruct (sendEvent q) as [w|] eqn:Eev.
  - destruct (Z.ltb_spec (Z.max when (t + 1)) w) as [Hlt|Hge].
    + unfold reschedule. rewrite (proj2 (Z.leb_le _ _)) by lia. cbn [mbind outcome_bind ensure]. eauto.
    + exists w. split; [|right; split; [done|lia]]. f_equal. destruct q; simpl in *. by subst.
  - unfold schedule. rewrite (proj2 (Z.leb_le _ _)) by lia. cbn [mbind outcome_bind ensure]. eauto.
Qed.

Lemma spec_run_snoc adds a : spec_run (adds ++ [a]) = spec_add (spec_run adds) a.
Proof. unfold spec_run. by rewrite foldl_app. Qed.

(** The tick the packet is queued with. *)
Definition eff_when (a : addition) (q : PacketQueue) : Z :=
  match last (transmitList q) with
  | Some (back, _) => if a.2 && (a.1.2 <? back) then back else a.1.2
  | None => a.1.2
  end.

Lemma spec_add_app sent q a :
  Forall (fun d => d.1 <= a.1.2) sent -> ticks_sorted (transmitList q) ->
  spec_add (sent ++ transmitList q) a = sent ++ insert_sorted (eff_when a q) a.1.1 (transmitList q)
  /\ (a.1.2 <= eff_when a q)
  /\ (a.2 = true -> insert_sorted (eff_when a q) a.1.1 (transmitList q) = transmitList q ++ [(eff_when a q, a.1.1)]).
Proof.
  intros Hs Hq. destruct a as [[pkt when] fo]. unfold spec_add, eff_when in *. cbn [fst snd] in *.
  destruct (transmitList q) as [|d l] eqn:El; [rewrite app_nil_r; cbn [last]|].
  - split_and!; [|lia|done]. destruct (last sent) as [[t p]|] eqn:E; [|by rewrite insert_sorted_end].
    apply last_Some_elem_of in E. rewrite Forall_forall in Hs. pose proof (Hs _ E) as Ht. simpl in Ht.
    replace (if fo then _ else _) with when by (destruct fo; lia).
    rewrite insert_sorted_end; [done|by apply Forall_forall].
  - rewrite last_app_cons. destruct (last (d :: l)) as [[back p]|] eqn:E; [|by apply last_None in E].
    pose proof (sorted_last _ _ _ Hq E) as Hb.
    set (w := if fo && (when <? back) then back else when).
    assert (when <= w /\ (fo = true -> back <= w) /\ (if fo then Z.max when back else when) = w) as (Hw & Hw' & ->).
    { unfold w. destruct fo; simpl; [destruct (Z.ltb_spec when back)|]; split_and!; try lia; done. }
    split_and!; [|done|].
    + apply insert_sorted_app. eapply Forall_impl; [exact Hs|]. simpl. lia.
    + intros Hf. apply insert_sorted_end. eapply Forall_impl; [exact Hb|]. simpl. specialize (Hw' Hf). lia.
Qed.

(** [schedSendTiming] inserts at the place the sort gives, and schedules an event
    only for a new first packet. *)
Lemma schedSendTiming_list t a q :
  ticks_sorted (transmitList q) -> addition_ok t a -> room 1 q ->
  schedSendTiming t a.1.1 a.1.2 a.2 q =
    let l := insert_sorted (eff_when a q) a.1.1 (transmitList q) in
    let q' := q <| transmitList := l |> in
    match transmitList q with
    | [] => schedSendEvent t (eff_when a q) q'
    | (front, _) :: _ => if eff_when a q <? front then schedSendEvent t (eff_when a q) q' else Ok q'
    end.
Proof.
  intros Hs [H0 H1 H2] Hr. pose proof (spec_add_app [] q a (Forall_nil_2 _) Hs) as (_ & Hle & Hfo).
  destruct a as [[pkt when] fo]. unfold schedSendTiming. cbn [fst snd] in *.
  rewrite (proj2 (Z.geb_le _ _)), H2 by lia. cbn [mbind outcome_bind ensure negb].
  assert (negb (Z.of_nat (length (transmitList q)) >? 100) = true) as ->.
  { unfold room in Hr. rewrite Z.gtb_ltb, (proj2 (Z.ltb_ge _ _)); [done|lia]. }
  cbn [mbind outcome_bind ensure]. cbv zeta.
  change (match last (transmitList q) with
          | Some (back, _) => if fo && (when <? back) then back else when
          | None => when
          end) with (eff_when (pkt, when, fo) q).
  remember (eff_when (pkt, when, fo) q) as w eqn:Ew.
  destruct (transmitList q) as [|[front p] rest] eqn:El; [done|].
  destruct (last ((front, p) :: rest)) as [[back pb]|] eqn:Elast; [|by apply last_None in Elast].
  pose proof (sorted_last _ _ _ Hs Elast) as Hb.
  destruct (Z.ltb_spec w front) as [Hw|Hw].
  - destruct fo; [|by rewrite insert_sorted_front].
    exfalso. specialize (Hfo eq_refl). rewrite insert_sorted_front in Hfo by done. simpl in Hfo.
    injection Hfo. intros _ _ ?. lia.
  - rewrite Z.geb_leb. destruct (Z.leb_spec back w) as [Hbw|Hbw].
    + rewrite insert_sorted_end; [done|]. eapply Forall_impl; [exact Hb|]. simpl. lia.
    + destruct fo; cbn [mbind outcome_bind ensure negb].
      * exfalso. unfold eff_when in Ew. rewrite El, Elast in Ew. simpl in Ew.
        destruct (Z.ltb_spec when back); lia.
      * simpl insert_sorted. by rewrite Z.geb_leb, (proj2 (Z.leb_le _ _) Hw).
Qed.

Lemma core_add adds sent now t a q :
  core adds sent now q -> now <= t -> addition_ok t a ->
  sent ++ insert_sorted (eff_when a q) a.1.1 (transmitList q) = spec_run (adds ++ [a]) /\
  ticks_sorted (insert_sorted (eff_when a q) a.1.1 (transmitList q)) /\
  Forall (fun d => 0 <= d.1 < MaxTick) (insert_sorted (eff_when a q) a.1.1 (transmitList q)) /\
  t <= eff_when a q < MaxTick.
Proof.
  intros [C1 C2 C3 C4 _ _] Hn [H0 H1 _].
  destruct (spec_add_app sent q a) as (E & Hle & _); [eapply Forall_impl; [exact C3|]; simpl; lia|done|].
  assert (eff_when a q < MaxTick) as Hlt.
  { unfold eff_when in *. destruct (last (transmitList q)) as [[back p]|] eqn:El; [|lia].
    apply last_Some_elem_of in El. rewrite Forall_forall in C4. specialize (C4 _ El). simpl in C4.
    destruct (_ && _); lia. }
  rewrite spec_run_snoc, <- C1. split_and!; [done|by apply insert_sorted_sorted| |lia|done].
  rewrite insert_sorted_perm. constructor; [simpl; lia|done].
Qed.

Lemma schedSendTiming_ok adds sent now t a q :
  core adds sent now q -> now <= t -> addition_ok t a -> room 1 q ->
  (waitingOnRetry q = true -> deferredPacketReady now q = true /\ sendEvent q = None) ->
  exists q', schedSendTiming t a.1.1 a.1.2 a.2 q = Ok q' /\ core (adds ++ [a]) sent t q' /\
    waitingOnRetry q' = waitingOnRetry q /\ length (transmitList q') = S (length (transmitList q)) /\
    (transmitList q = [] -> is_Some (sendEvent q')) /\ (is_Some (sendEvent q) -> is_Some (sendEvent q')) /\
    (waitingOnRetry q = true -> deferredPacketReady t q' = true /\ sendEvent q' = None).
Proof.
  intros Hc Hn Ha Hr Hwait. destruct (core_add _ _ _ _ _ _ Hc Hn Ha) as (E & Hs & Hrg & Hw).
  pose proof Hc as [_ C2 C3 _ _ C5]. pose proof Ha as [H0 Hwh _]. rewrite schedSendTiming_list by done. cbv zeta.
  set (w := eff_when a q) in *. set (l := insert_sorted w a.1.1 (transmitList q)) in *.
  assert (length l = S (length (transmitList q))) as Hlen by (unfold l; by rewrite insert_sorted_perm).
  assert (Forall (fun d => d.1 <= t) sent) as Hsent by (eapply Forall_impl; [exact C3|]; simpl; lia).
  assert (forall ev, event_ok t (q <| transmitList := l |> <| sendEvent := ev |>) ->
    core (adds ++ [a]) sent t (q <| transmitList := l |> <| sendEvent := ev |>)) as Hcore.
  { intros ev Hev. split; try done. unfold room in *. simpl. rewrite Hlen. lia. }
  assert (waitingOnRetry q = false -> (exists rest, l = (w, a.1.1) :: rest) ->
    (forall x, sendEvent q = Some x -> w <= x) ->
    exists q', schedSendEvent t w (q <| transmitList := l |>) = Ok q' /\ core (adds ++ [a]) sent t q' /\
      waitingOnRetry q' = waitingOnRetry q /\ transmitList q' = l /\ is_Some (sendEvent q')) as Hfront.
  { intros Hwr [rest El] Hev. destruct (schedSendEvent_ok t w (q <| transmitList := l |>)) as (x & Ex & Hx); [lia|lia|done|].
    eexists. split; [exact Ex|]. split; [|by eauto]. apply Hcore. intros ? [= <-]. simpl. rewrite El.
    destruct Hx as [->|[Hx ?]]; [lia|]. simpl in Hx. specialize (Hev _ Hx). lia. }
  destruct (transmitList q) as [|[front p] rest] eqn:El.
  - assert (waitingOnRetry q = false) as Hwr.
    { destruct (waitingOnRetry q); [|done]. destruct (Hwait eq_refl) as [Hd _].
      unfold deferredPacketReady in Hd. by rewrite El in Hd. }
    destruct Hfront as (q' & Eq & Hc' & Ew & Hl' & Hsome); [done|by eexists| |].
    { intros x Hx. specialize (C5 _ Hx). by rewrite El in C5. }
    exists q'. rewrite Hl', Hwr in *. split_and!; done.
  - destruct (Z.ltb_spec w front) as [Hlt|Hge].
    + assert (waitingOnRetry q = false) as Hwr.
      { destruct (waitingOnRetry q); [|done]. destruct (Hwait eq_refl) as [Hd _].
        unfold deferredPacketReady in Hd. rewrite El in Hd. apply Z.leb_le in Hd. lia. }
      destruct Hfront as (q' & Eq & Hc' & Ew & Hl' & Hsome); [done| | |].
      { unfold l. rewrite insert_sorted_front by done. eauto. }
      { intros x Hx. specialize (C5 _ Hx). rewrite El in C5. lia. }
      exists q'. rewrite Hl', Hwr in *. split_and!; done.
    + assert (l = (front, p) :: insert_sorted w a.1.1 rest) as Hl.
      { unfold l. simpl. by rewrite (proj2 (Z.geb_le _ _) Hge). }
      exists (q <| transmitList := l |>). split_and!; try done.
      * apply Hcore. intros x Hx. specialize (C5 _ Hx). rewrite El in C5. simpl. rewrite Hl. lia.
      * intros Hwr. destruct (Hwait Hwr) as [Hd He]. unfold deferredPacketReady in *. simpl. rewrite El, Hl in *.
        apply Z.leb_le in Hd. split; [apply Z.leb_le; lia|done].
Qed.

Lemma add_all_ok t inner : forall adds sent q,
  core adds sent t q -> Forall (addition_ok t) inner -> room (length inner) q -> waitingOnRetry q = false ->
  exists q', add_all t inner q = Ok q' /\ core (adds ++ inner) sent t q' /\ waitingOnRetry q' = false.
Proof.
  induction inner as [|a inner IH]; intros adds sent q Hc Hi Hr Hw; simpl.
  { exists q. by rewrite app_nil_r. }
  inversion Hi as [|? ? Ha Hi']; subst. unfold room in Hr. simpl in Hr.
  destruct (schedSendTiming_ok adds sent t t a q) as (q1 & E1 & Hc1 & Hw1 & Hl1 & _); try done.
  { unfold room. lia. } { by rewrite Hw. }
  destruct a as [[pkt when] fo]. simpl in E1. rewrite E1. cbn [mbind outcome_bind].
  destruct (IH _ _ _ Hc1 Hi') as (q2 & E2 & Hc2 & Hw2); [unfold room; lia|congruence|].
  exists q2. by rewrite <- app_assoc in Hc2.
Qed.

(** A peer that refuses the packet causes no additions in the same call. *)
Definition peer_ok (curTick : Z) (inner : list addition) (ok : bool) : Prop :=
  Forall (addition_ok curTick) inner /\ (ok = false -> inner = []).

Lemma sendDeferredPacket_ok adds sent now t inner ok q :
  core adds sent now q -> now <= t -> 0 <= t < MaxTick -> waitingOnRetry q = false -> sendEvent q = None ->
  deferredPacketReady t q = true -> peer_ok t inner ok ->
  room (length inner) (q <| transmitList ::= tail |>) ->
  exists r q', sendDeferredPacket t inner ok q = Ok (r, q') /\
    inv (adds ++ inner) (sent ++ option_list r) t q' /\ (ok = true -> r = head (transmitList q)) /\
    (ok = false -> transmitList q' = transmitList q).
Proof.
  intros [C1 C2 C3 C4 CR _] Hn Ht Hw He Hd [Hi Hno] Hr. unfold sendDeferredPacket. rewrite Hw, Hd.
  cbn [mbind outcome_bind ensure negb]. destruct (transmitList q) as [|[front p] rest] eqn:El.
  { unfold deferredPacketReady in Hd. by rewrite El in Hd. }
  unfold deferredPacketReady in Hd. rewrite El in Hd. apply Z.leb_le in Hd.
  pose proof (proj1 (ticks_sorted_cons _ _ _) C2) as [C2' _]. inversion C4 as [|? ? Hf C4']; subst.
  assert (Forall (fun d => d.1 <= t) (sent ++ [(front, p)])) as Hsent.
  { apply Forall_app. split; [eapply Forall_impl; [exact C3|]; simpl; lia|]. by repeat constructor. }
  assert (core adds (sent ++ [(front, p)]) t (q <| transmitList := rest |>)) as Hc0.
  { split; simpl; try done; [by rewrite <- app_assoc| |]; [|intros w Hx; simpl in Hx; congruence].
    unfold room in *. rewrite El in CR. simpl in *. lia. }
  destruct ok.
  - destruct (add_all_ok t inner _ _ _ Hc0 Hi) as (q1 & E1 & Hc1 & Hw1); [unfold room in *; simpl in *; by rewrite El in Hr|done|].
    rewrite E1. cbn [mbind outcome_bind negb]. set (q2 := q1 <| waitingOnRetry := false |>).
    assert (core (adds ++ inner) (sent ++ [(front, p)]) t q2) as Hc2 by (destruct Hc1; by split).
    pose proof Hc2 as [D1 D2 D3 D4 DR D5].
    unfold deferredPacketReadyTime. destruct (transmitList q2) as [|[f2 p2] l2] eqn:El2.
    + assert (exists q3, schedSendEvent t MaxTick q2 = Ok q3 /\ transmitList q3 = [] /\ sendEvent q3 = None /\
        waitingOnRetry q3 = false) as (q3 & -> & L3 & S3 & W3).
      { unfold schedSendEvent. simpl waitingOnRetry. rewrite Z.eqb_refl. cbn [negb].
        destruct (sendEvent q2) as [w|] eqn:Ew; [specialize (D5 _ Ew); by rewrite El2 in D5|].
        destruct (_ && _); (eexists; split; [reflexivity|done]). }
      cbn [mbind outcome_bind]. eexists _, _. split; [reflexivity|]. split; [|by eauto].
      split; [|by rewrite L3|by rewrite W3]. split; rewrite ?L3; try done; [unfold room; rewrite L3; simpl; lia|]. intros w Hx. congruence.
    + inversion D4 as [|? ? Hf2 _]; subst.
      destruct (schedSendEvent_ok t f2 q2) as (w & -> & Hx); [lia|done|done|]. cbn [mbind outcome_bind].
      eexists _, _. split; [reflexivity|]. split; [|by eauto]. split; [|simpl; eauto|done].
      assert (transmitList (q2 <| sendEvent := Some w |>) = (f2, p2) :: l2) as El3 by done.
      split; rewrite ?El3; try done. intros ? [= <-]. rewrite El3. destruct Hx as [->|[Hx ?]]; [lia|]. specialize (D5 _ Hx). rewrite El2 in D5. lia.
  - rewrite (Hno eq_refl). cbn [add_all mbind outcome_bind negb]. eexists _, _. split; [reflexivity|].
    rewrite !app_nil_r. split; [|done]. split; simpl; [|done|].
    + split; simpl; try done; [eapply Forall_impl; [exact C3|]; simpl; lia| |].
      * unfold room in *. simpl. by rewrite El in CR.
      * intros w Hx. simpl in Hx. congruence.
    + intros _. split; [|done]. unfold deferredPacketReady. simpl. by apply Z.leb_le.
Qed.

(** ** The protocol *)

(** What happens to the queue at a tick [t]: the owner adds a packet, the send
    event fires, or the peer that refused a packet asks for it again; with the
    packets added and the packets that left. *)
Inductive step (now : Z) (q : PacketQueue) : list addition -> list DeferredPacket -> Z -> PacketQueue -> Prop :=
  | step_add t a q' : now <= t -> addition_ok t a ->
      schedSendTiming t a.1.1 a.1.2 a.2 q = Ok q' -> step now q [a] [] t q'
  | step_event t inner ok r q' : now <= t < MaxTick -> sendEvent q = Some t -> peer_ok t inner ok ->
      processSendEvent t inner ok (q <| sendEvent := None |>) = Ok (r, q') ->
      step now q inner (option_list r) t q'
  | step_retry t inner ok r q' : now <= t < MaxTick -> waitingOnRetry q = true -> peer_ok t inner ok ->
      retry t inner ok q = Ok (r, q') -> step now q inner (option_list r) t q'
  | step_drain : step now q [] [] now (drain q).2.

Inductive reach : list addition -> list DeferredPacket -> Z -> PacketQueue -> Prop :=
  | reach_new : reach [] [] 0 PacketQueue_new
  | reach_step adds sent now q adds' sent' now' q' :
      reach adds sent now q -> step now q adds' sent' now' q' ->
      reach (adds ++ adds') (sent ++ sent') now' q'.

Lemma core_no_event adds sent now q :
  core adds sent now q -> core adds sent now (q <| sendEvent := None |>).
Proof. intros []. by split. Qed.

Lemma event_send adds sent now t inner ok q :
  inv adds sent now q -> 0 <= now -> now <= t < MaxTick -> sendEvent q = Some t -> peer_ok t inner ok ->
  room (length inner) (q <| transmitList ::= tail |>) ->
  exists r q', processSendEvent t inner ok (q <| sendEvent := None |>) = Ok (r, q') /\
    inv (adds ++ inner) (sent ++ option_list r) t q' /\ (ok = true -> r = head (transmitList q)).
Proof.
  intros [Hc _ Hwt] H0 Hn He Hp Hr. unfold processSendEvent.
  assert (waitingOnRetry q = false) as Ew by (destruct (waitingOnRetry q); [destruct (Hwt eq_refl); congruence|done]).
  assert (waitingOnRetry (q <| sendEvent := None |>) = false) as -> by done. cbn [mbind outcome_bind ensure negb].
  destruct (sendDeferredPacket_ok adds sent now t inner ok (q <| sendEvent := None |>)) as (r & q' & E & Hi & Hs & _);
    [by apply core_no_event|lia|lia|done|done| |done|done|by exists r, q'].
  pose proof (co_event _ _ _ _ Hc _ He) as Hev. unfold deferredPacketReady. simpl.
  destruct (transmitList q) as [|[front p] l]; [done|]. apply Z.leb_le. lia.
Qed.

Lemma retry_send adds sent now t inner ok q :
  inv adds sent now q -> 0 <= now -> now <= t < MaxTick -> waitingOnRetry q = true -> peer_ok t inner ok ->
  room (length inner) (q <| transmitList ::= tail |>) ->
  exists r q', retry t inner ok q = Ok (r, q') /\
    inv (adds ++ inner) (sent ++ option_list r) t q' /\ (ok = true -> r = head (transmitList q)).
Proof.
  intros [Hc _ Hwt] H0 Hn Hw Hp Hr. unfold retry. rewrite Hw. cbn [mbind outcome_bind ensure].
  destruct (Hwt Hw) as [Hd He].
  destruct (sendDeferredPacket_ok adds sent now t inner ok (q <| waitingOnRetry := false |>)) as (r & q' & E & Hi & Hs & _);
    [destruct Hc; by split|lia|lia|done|done| |done|done|by exists r, q'].
  unfold deferredPacketReady in *. simpl. destruct (transmitList q) as [|[front p] l]; [done|].
  apply Z.leb_le in Hd. apply Z.leb_le. lia.
Qed.

Lemma schedSendEvent_list t w q q' :
  schedSendEvent t w q = Ok q' -> transmitList q' = transmitList q.
Proof.
  unfold schedSendEvent. destruct (waitingOnRetry q); [intros (? & _ & [= <-])%bind_ok; done|].
  destruct (negb _); [|destruct (_ && _); by intros [= <-]].
  destruct (sendEvent q); [destruct (_ <? _)|]; intros H; inv_ok; done.
Qed.

(** A call adds its packet and nothing else. *)
Lemma schedSendTiming_perm t pkt w fo q q' :
  schedSendTiming t pkt w fo q = Ok q' -> exists w', transmitList q' ≡ₚ (w', pkt) :: transmitList q.
Proof.
  unfold schedSendTiming. intros H. apply bind_ok in H as (? & _ & H). apply bind_ok in H as (? & _ & H).
  apply bind_ok in H as (? & _ & H). cbv zeta in H.
  set (w' := match last (transmitList q) with Some _ => _ | None => _ end) in H. exists w'.
  destruct (transmitList q) as [|[front p] rest] eqn:El; [apply schedSendEvent_list in H; by rewrite H|].
  destruct (last _) as [[back pb]|] eqn:Ela; [|by apply last_None in Ela].
  destruct (w' <? front); [apply bind_ok in H as (? & _ & H); apply schedSendEvent_list in H; by rewrite H, <- El|].
  destruct (w' >=? back); [injection H as <-; simpl transmitList; symmetry; apply Permutation_cons_append|].
  apply bind_ok in H as (? & _ & [= <-]). simpl. rewrite insert_sorted_perm. constructor.
Qed.

(** A call that did not panic had room. *)
Lemma schedSendTiming_room t pkt w fo q q' : schedSendTiming t pkt w fo q = Ok q' -> room 1 q.
Proof.
  unfold schedSendTiming. intros H. apply bind_ok in H as (? & _ & H). apply bind_ok in H as (? & _ & H).
  apply bind_ok in H as (? & Hr & _). apply ensure_ok in Hr. rewrite Z.gtb_ltb, negb_true_iff, Z.ltb_ge in Hr.
  unfold room. lia.
Qed.

Lemma add_all_room t inner : forall adds sent q q',
  core adds sent t q -> Forall (addition_ok t) inner -> waitingOnRetry q = false ->
  add_all t inner q = Ok q' -> room (length inner) q.
Proof.
  induction inner as [|[[pkt when] fo] inner IH]; intros adds sent q q' Hc Hi Hw E; [apply Hc|].
  inversion Hi as [|? ? Ha Hi']; subst. simpl in E. apply bind_ok in E as (q1 & E1 & E).
  pose proof (schedSendTiming_room _ _ _ _ _ _ E1) as Hr.
  destruct (schedSendTiming_ok adds sent t t (pkt, when, fo) q) as (q1' & E1' & Hc1 & Hw1 & Hl1 & _);
    [done|done|done|done|by rewrite Hw|]. simpl in E1'. rewrite E1 in E1'. injection E1' as <-.
  specialize (IH _ _ _ _ Hc1 Hi' ltac:(congruence) E). unfold room in *. simpl. lia.
Qed.

Lemma send_room adds sent now t inner ok q r q' :
  core adds sent now q -> now <= t -> waitingOnRetry q = false -> sendEvent q = None ->
  Forall (addition_ok t) inner -> sendDeferredPacket t inner ok q = Ok (r, q') ->
  room (length inner) (q <| transmitList ::= tail |>).
Proof.
  intros [C1 C2 C3 C4 CR _] Hn Hw He Hi E. unfold sendDeferredPacket in E.
  apply bind_ok in E as (? & _ & E). apply bind_ok in E as (? & Hd & E). apply ensure_ok in Hd.
  unfold deferredPacketReady in Hd. destruct (transmitList q) as [|[front p] rest] eqn:El; [done|].
  apply Z.leb_le in Hd. apply bind_ok in E as (q1 & E & _).
  assert (room (length inner) (q <| transmitList := rest |>)) as Hr; [|unfold room in *; simpl in *; by rewrite El].
  eapply (add_all_room t inner adds (sent ++ [(front, p)])); try done.
  split; simpl; try done; [by rewrite <- app_assoc|by apply ticks_sorted_cons in C2 as []| |by inversion C4| |].
  - apply Forall_app. split; [eapply Forall_impl; [exact C3|]; simpl; lia|by repeat constructor].
  - unfold room in *. rewrite El in CR. simpl in *. lia.
  - intros w Hx. simpl in Hx. congruence.
Qed.

Lemma queue_step_inv adds sent now q adds' sent' now' q' :
  inv adds sent now q -> 0 <= now -> step now q adds' sent' now' q' ->
  inv (adds ++ adds') (sent ++ sent') now' q' /\ 0 <= now'.
Proof.
  intros Hi H0 Hs. destruct Hs as [t a q' Hn Ha E|t inner ok r q' Hn He Hp E|t inner ok r q' Hn Hw Hp E|].
  - pose proof (schedSendTiming_room _ _ _ _ _ _ E) as Hr. destruct Hi as [Hc Hwk Hwt].
    destruct (schedSendTiming_ok adds sent now t a q Hc Hn Ha Hr Hwt) as (q1 & E1 & Hc1 & Hw1 & Hl1 & He1 & He1' & Hwt1).
    rewrite E in E1. injection E1 as <-. rewrite app_nil_r. split; [|lia]. split; [done| |by rewrite Hw1].
    rewrite Hw1. intros Hw _. destruct (transmitList q) eqn:El; [by apply He1|]. by apply He1', Hwk.
  - assert (room (length inner) (q <| transmitList ::= tail |>)) as Hr.
    { unfold processSendEvent in E. apply bind_ok in E as (? & Hw & E). apply ensure_ok, negb_true_iff in Hw.
      change (room (length inner) (q <| sendEvent := None |> <| transmitList ::= tail |>)).
      apply (send_room adds sent now t inner ok _ r q'); try done; [|lia|apply Hp]. apply core_no_event, Hi. }
    destruct (event_send adds sent now t inner ok q) as (r' & q1 & E1 & Hi1 & _); try done.
    rewrite E in E1. injection E1 as <- <-. split; [done|lia].
  - assert (room (length inner) (q <| transmitList ::= tail |>)) as Hr.
    { unfold retry in E. rewrite Hw in E. cbn [mbind outcome_bind ensure] in E. destruct Hi as [[] _ Hwt].
      change (room (length inner) (q <| waitingOnRetry := false |> <| transmitList ::= tail |>)).
      apply (send_room adds sent now t inner ok _ r q'); [by split|lia|done|by apply Hwt|apply Hp|done]. }
    destruct (retry_send adds sent now t inner ok q) as (r' & q1 & E1 & Hi1 & _); try done.
    rewrite E in E1. injection E1 as <- <-. split; [done|lia].
  - rewrite !app_nil_r. split; [|done]. unfold drain. destruct (transmitList q) eqn:El; [done|]. destruct Hi as [[] ? ?].
    simpl. split; [split; try done|done|done].
Qed.

Lemma queue_reach_inv adds sent now q : reach adds sent now q -> inv adds sent now q /\ 0 <= now.
Proof.
  induction 1 as [|adds sent now q adds' sent' now' q' _ [Hi H0] Hs]; [|by eapply queue_step_inv].
  split; [|lia]. split; [|done|done]. by split; try done; try constructor.
Qed.

(** C17: a queued port delivers its packets sorted. In every execution the packets
    sent so far followed by those still queued are the stable sort by tick of
    all packets ever added (a packet added with [force_order] counts as no
    earlier than those before it), so nothing is lost, duplicated or
    overtaken. A queue that is not empty waits for a retry or has its event
    scheduled no earlier than the first packet's tick and no later than that
    tick or the next one; and neither the event nor a retry ever fails an
    assertion: whenever the peer accepts, the first packet leaves.
    The peer may add packets while it accepts one, but not while it refuses
    one ([peer_ok]); and what it adds must not bring the queue beyond the 100
    packets at which the code panics ([room]). *)
Theorem packet_queue_delivers_sorted adds sent now q :
  reach adds sent now q ->
  sent ++ transmitList q = spec_run adds /\
  (forall front p rest, transmitList q = (front, p) :: rest ->
     waitingOnRetry q = true \/
     exists w, sendEvent q = Some w /\ front <= w <= Z.max front (now + 1)) /\
  (forall t inner ok, now <= t < MaxTick -> peer_ok t inner ok ->
     room (length inner) (q <| transmitList ::= tail |>) ->
     (sendEvent q = Some t ->
        exists r q', processSendEvent t inner ok (q <| sendEvent := None |>) = Ok (r, q') /\
          (ok = true -> r = head (transmitList q) /\ is_Some r)) /\
     (waitingOnRetry q = true ->
        exists r q', retry t inner ok q = Ok (r, q') /\
          (ok = true -> r = head (transmitList q) /\ is_Some r))).
Proof.
  intros Hr. destruct (queue_reach_inv _ _ _ _ Hr) as [Hi H0]. pose proof Hi as [Hc Hwk Hwt]. split_and!.
  - apply Hc.
  - intros front p rest El. destruct (waitingOnRetry q); [by left|right].
    destruct (Hwk eq_refl ltac:(by rewrite El)) as [w Ew]. exists w. split; [done|].
    pose proof (co_event _ _ _ _ Hc _ Ew) as He. by rewrite El in He.
  - intros t inner ok Ht Hp Hrm. split.
    + intros He. destruct (event_send adds sent now t inner ok q) as (r & q' & E & _ & Hk); try done.
      exists r, q'. split; [done|]. intros Hok. rewrite (Hk Hok). split; [done|].
      pose proof (co_event _ _ _ _ Hc _ He) as Hev. destruct (transmitList q); [done|]. simpl. eauto.
    + intros Hw. destruct (retry_send adds sent now t inner ok q) as (r & q' & E & _ & Hk); try done.
      exists r, q'. split; [done|]. intros Hok. rewrite (Hk Hok). split; [done|].
      destruct (Hwt Hw) as [Hd _]. unfold deferredPacketReady in Hd. destruct (transmitList q); [done|]. simpl. eauto.
Qed.

(** ** Example: a later packet is overtaken by one with an earlier tick *)

Definition example_packet (a : Z) : Packet.Packet :=
  Packet.MkPacket Packet.VALID_ADDR MemCmd.ReadResp Request.Request0 None a false 8
    MemCmd.InvalidCmd [] 0 0 [].

Lemma packet_queue_delivers_sorted_witness :
  exists q, reach [(example_packet 1, 30, false); (example_packet 2, 20, false)] [(20, example_packet 2)] 20 q /\
    [(20, example_packet 2)] ++ transmitList q = [(20, example_packet 2); (30, example_packet 1)].
Proof.
  set (q1 := MkPQ [(30, example_packet 1)] (Some 30) false false 0).
  set (q2 := MkPQ [(20, example_packet 2); (30, example_packet 1)] (Some 20) false false 0).
  set (q3 := MkPQ [(30, example_packet 1)] (Some 30) false false 0).
  assert (reach [(example_packet 1, 30, false); (example_packet 2, 20, false)] [(20, example_packet 2)] 20 q3) as Hr.
  { assert (reach [(example_packet 1, 30, false)] [] 5 q1) as H1.
    { apply (reach_step [] [] 0 PacketQueue_new [(example_packet 1, 30, false)] [] 5 q1 reach_new).
      apply step_add; [lia|split; done|reflexivity]. }
    assert (reach [(example_packet 1, 30, false); (example_packet 2, 20, false)] [] 10 q2) as H2.
    { apply (reach_step _ _ _ _ [(example_packet 2, 20, false)] [] 10 q2 H1).
      apply step_add; [lia|split; done|reflexivity]. }
    apply (reach_step _ _ _ _ [] [(20, example_packet 2)] 20 q3 H2).
    apply (step_event 10 q2 20 [] true (Some (20, example_packet 2)) q3); [done|reflexivity|by split|reflexivity]. }
  exists q3. split; [exact Hr|].
  destruct (packet_queue_delivers_sorted _ _ _ _ Hr) as [E _]. rewrite E. reflexivity.
Defined.

End PacketQueue.
