(* ===== verification/CachePort.v ===== *)
(** The CPU-side port of a cache: [BaseCache::CacheSlavePort] of mem/cache/base.hh
    and base.cc, and the flow control of [Cache::CpuSidePort::recvTimingReq] of
    mem/cache/cache_impl.hh.

    A request that arrives while the port is blocked is refused, and the port
    owes its sender a retry. *)

From S2P Require Import Prelude IntMath Request MemCmd Packet Functional PacketQueue.
Local Open Scope Z_scope.

Module CachePort.

(** [queue] has the responses; [retries] counts the calls of [sendRetryReq]. *)
Record CacheSlavePort := MkSlavePort {
  queue : PacketQueue.PacketQueue;
  blocked : bool;
  mustSendRetry : bool;
  sendRetryEvent : option Z;
  retries : Z;
}.
#[global] Instance eta_CacheSlavePort : Eta CacheSlavePort := fun p =>
  MkSlavePort (queue p) (blocked p) (mustSendRetry p) (sendRetryEvent p) (retries p).

Definition CacheSlavePort_new : CacheSlavePort :=
  MkSlavePort PacketQueue.PacketQueue_new false false None 0.

Definition setBlocked (p : CacheSlavePort) : outcome CacheSlavePort :=
  _ ← ensure AssertFailed (negb (blocked p));
  let p := p <| blocked := true |> in
  Ok (match sendRetryEvent p with
      | Some _ => p <| sendRetryEvent := None |> <| mustSendRetry := true |>
      | None => p
      end).

Definition clearBlocked (curTick : Z) (p : CacheSlavePort) : outcome CacheSlavePort :=
  _ ← ensure AssertFailed (blocked p);
  let p := p <| blocked := false |> in
  if mustSendRetry p then
    ev ← schedule curTick (u64 (curTick + 1)) (sendRetryEvent p);
    Ok (p <| sendRetryEvent := ev |>)
  else Ok p.

(** The event is no longer scheduled when it runs. *)
Definition processSendRetry (p : CacheSlavePort) : CacheSlavePort :=
  p <| mustSendRetry := false |> <| retries ::= Z.succ |>.

(** [recvTimingReq] without the cache behind it: what the port does with a
    request. *)
Inductive verdict := PassInhibited | Refuse | PassOn.
Definition port_verdict (inhibited : bool) (p : CacheSlavePort) : verdict :=
  if inhibited then PassInhibited
  else if blocked p || mustSendRetry p then Refuse else PassOn.

(** ** No sender waits forever *)

(** What happens to the port: requests, with the answer, the cache blocking and
    unblocking it (also from within the handling of a request that was passed
    on), and the retry event. *)
Inductive step (p : CacheSlavePort) : CacheSlavePort -> Prop :=
  | step_refuse : port_verdict false p = Refuse -> step p (p <| mustSendRetry := true |>)
  | step_accept p' : port_verdict false p = PassOn -> inner p p' ->
      step p (p' <| mustSendRetry := false |>)
  | step_inner p' : inner p p' -> step p p'
  | step_retry t : sendRetryEvent p = Some t -> step p (processSendRetry (p <| sendRetryEvent := None |>))
with inner (p : CacheSlavePort) : CacheSlavePort -> Prop :=
  | inner_refl : inner p p
  | inner_block p' p'' : inner p p' -> setBlocked p' = Ok p'' -> inner p p''
  | inner_unblock t p' p'' : inner p p' -> 0 <= t -> clearBlocked t p' = Ok p'' -> inner p p''
  | inner_queue p' q : inner p p' -> inner p (p' <| queue := q |>).

Inductive reach : CacheSlavePort -> Prop :=
  | reach_new : reach CacheSlavePort_new
  | reach_step p p' : reach p -> step p p' -> reach p'.

(** The retry event is pending exactly when a retry is owed and the port is
    open. *)
Definition inv (p : CacheSlavePort) : Prop :=
  is_Some (sendRetryEvent p) <-> mustSendRetry p = true /\ blocked p = false.

Lemma setBlocked_inv p p' :
  inv p -> setBlocked p = Ok p' -> inv p' /\ mustSendRetry p' = mustSendRetry p /\ blocked p' = true.
Proof.
  unfold inv, setBlocked. intros Hi H. apply bind_ok in H as (? & Hb & H). apply ensure_ok, negb_true_iff in Hb.
  injection H as <-. simpl. destruct (sendRetryEvent p) as [t|] eqn:E; simpl.
  - destruct (proj1 Hi) as [Hm _]; [eauto|]. rewrite Hm. split_and!; try done. split; [intros []; done|intros []; done].
  - split_and!; try done. rewrite ?E. split; [intros []; done|intros []; done].
Qed.

Lemma clearBlocked_inv t p p' :
  inv p -> clearBlocked t p = Ok p' -> inv p' /\ mustSendRetry p' = mustSendRetry p /\ blocked p' = false.
Proof.
  unfold inv, clearBlocked. intros Hi H. apply bind_ok in H as (? & Hb & H). apply ensure_ok in Hb. simpl in H.
  destruct (mustSendRetry p) eqn:E.
  - apply bind_ok in H as (ev & Hev & [= <-]). unfold schedule in Hev. apply bind_ok in Hev as (? & _ & Hev).
    apply bind_ok in Hev as (? & _ & [= <-]). simpl. rewrite ?E. split_and!; try done.
  - injection H as <-. simpl. rewrite ?E. split_and!; try done. rewrite Hi, Hb. split; intros []; done.
Qed.

(** Unblocking a blocked port never fails. *)
Lemma clearBlocked_total t p :
  inv p -> 0 <= t < MaxTick -> blocked p = true -> exists p', clearBlocked t p = Ok p'.
Proof.
  unfold inv, clearBlocked. intros Hi Ht Hb. rewrite Hb. cbn [mbind outcome_bind ensure]. simpl.
  destruct (mustSendRetry p) eqn:E; [|eauto]. unfold schedule, MaxTick in *.
  rewrite uwrap_small, (proj2 (Z.leb_le _ _)) by (try split; lia).
  cbn [mbind outcome_bind ensure]. destruct (sendRetryEvent p) as [x|]; [|eauto].
  rewrite Hb in Hi. destruct (proj1 Hi); [eauto|done].
Qed.

Lemma inner_inv p p' : inner p p' -> inv p -> inv p' /\ mustSendRetry p' = mustSendRetry p.
Proof.
  intros H Hi. induction H as [|p' p'' H [IH1 IH2] E|t p' p'' H [IH1 IH2] _ E|p' q H [IH1 IH2]]; try done.
  - destruct (setBlocked_inv _ _ IH1 E) as (? & ? & _). split; [done|congruence].
  - destruct (clearBlocked_inv _ _ _ IH1 E) as (? & ? & _). split; [done|congruence].
Qed.

Lemma port_reach_inv p : reach p -> inv p.
Proof.
  induction 1 as [|p p' _ IH Hs]; [split; [intros []; done|intros []; done]|].
  destruct Hs as [Ha|p' Ha Hn|p' Hn|t Ht].
  - unfold inv in *. simpl. unfold port_verdict in Ha. simpl. destruct (blocked p) eqn:Eb, (mustSendRetry p) eqn:Em;
      try done; rewrite IH; (split; intros []; done).
  - destruct (inner_inv _ _ Hn IH) as [Hi Hm]. unfold port_verdict in Ha.
    destruct (blocked p), (mustSendRetry p); try done. unfold inv in *. simpl. rewrite Hi, Hm. split; intros []; done.
  - by apply (inner_inv _ _ Hn IH).
  - unfold inv. simpl. split; [intros []; done|intros []; done].
Qed.

(** C24: the CPU-side port never forgets a sender it refused. In every reachable
    state a port that owes a retry is blocked or has the retry event scheduled,
    and the event is only pending while a retry is owed and the port is open; a
    request is refused only when the port is blocked or a retry is already on
    its way; unblocking a port that owes a retry always succeeds and schedules
    the retry for the next tick.
    The cache behind the port accepts every request that the port lets through,
    as [Cache::recvTimingReq] does. *)
Theorem refused_request_gets_retry p :
  reach p ->
  (mustSendRetry p = true -> blocked p = true \/ is_Some (sendRetryEvent p)) /\
  (is_Some (sendRetryEvent p) -> mustSendRetry p = true /\ blocked p = false) /\
  (port_verdict false p = Refuse -> blocked p = true \/ is_Some (sendRetryEvent p)) /\
  (forall t, 0 <= t < MaxTick -> blocked p = true -> exists p', clearBlocked t p = Ok p' /\ blocked p' = false /\
     sendRetryEvent p' = if mustSendRetry p then Some (t + 1) else None).
Proof.
  intros Hr. pose proof (port_reach_inv p Hr) as Hi. split_and!.
  - intros Hm. destruct (blocked p) eqn:Eb; [by left|right]. by apply Hi.
  - apply Hi.
  - unfold port_verdict. destruct (blocked p) eqn:Eb; [by left|]. simpl. destruct (mustSendRetry p) eqn:Em; [|done].
    intros _. right. by apply Hi.
  - intros t Ht Hb. destruct (clearBlocked_total t p Hi Ht Hb) as [p' E]. exists p'. split; [done|].
    unfold clearBlocked in E. rewrite Hb in E. cbn [mbind outcome_bind ensure] in E. simpl in E.
    destruct (mustSendRetry p).
    + apply bind_ok in E as (ev & Hev & [= <-]). unfold schedule in Hev. apply bind_ok in Hev as (? & _ & Hev).
      apply bind_ok in Hev as (? & _ & [= <-]). simpl. unfold MaxTick in Ht. rewrite uwrap_small by (split; lia). done.
    + injection E as <-. simpl. split; [done|]. destruct (sendRetryEvent p) eqn:Ee; [|done].
      unfold inv in Hi. rewrite Ee, Hb in Hi. destruct (proj1 Hi); [eauto|done].
Qed.

Lemma refused_request_gets_retry_witness :
  exists p, reach p /\ mustSendRetry p = true /\ blocked p = true /\
    exists p', clearBlocked 7 p = Ok p' /\ sendRetryEvent p' = Some 8.
Proof.
  set (p1 := CacheSlavePort_new <| blocked := true |>). set (p2 := p1 <| mustSendRetry := true |>).
  assert (reach p2) as Hr.
  { apply (reach_step p1 p2); [|by apply step_refuse]. apply (reach_step CacheSlavePort_new p1 reach_new).
    apply step_inner. by eapply inner_block; [apply inner_refl|]. }
  exists p2. destruct (refused_request_gets_retry p2 Hr) as (_ & _ & _ & Hu).
  destruct (Hu 7 ltac:(unfold MaxTick; lia) eq_refl) as (p' & E & _ & Ev). split; [exact Hr|]. split; [reflexivity|]. split; [reflexivity|].
  exists p'. split; [exact E|exact Ev].
Defined.

End CachePort.
