(* ===== verification/XBar.v ===== *)
(** The crossbar: [BaseXBar] of mem/xbar.hh and mem/xbar.cc.

    [XBar] is the part that all crossbars share: the address map with its cache
    of recent lookups, the collection of the address ranges of the objects
    below, and the delays added to a packet. [Layer] is the arbitration for one
    destination port. *)

From S2P Require Import Prelude IntMath AddrRange Request MemCmd Packet.
Local Open Scope Z_scope.

Module XBar.
Import AddrRange.

Definition InvalidPortID : Z := -1.

Record PortCache := MkPortCache { pc_valid : bool; pc_id : Z; pc_range : AddrRange }.
#[global] Instance eta_PortCache : Eta PortCache := fun p => MkPortCache (pc_valid p) (pc_id p) (pc_range p).

(** [portCache0] to [portCache2] are the three entries of the array. *)
Record BaseXBar := MkXBar {
  frontendLatency : Z;
  forwardLatency : Z;
  responseLatency : Z;
  width : Z;
  portMap : list (AddrRange * Z);
  xbarRanges : list AddrRange;
  defaultRange : AddrRange;
  portCache0 : PortCache;
  portCache1 : PortCache;
  portCache2 : PortCache;
  gotAddrRanges : list bool;
  gotAllAddrRanges : bool;
  defaultPortID : Z;
  useDefaultRange : bool;
}.
#[global] Instance eta_BaseXBar : Eta BaseXBar := fun x =>
  MkXBar (frontendLatency x) (forwardLatency x) (responseLatency x) (width x) (portMap x) (xbarRanges x)
    (defaultRange x) (portCache0 x) (portCache1 x) (portCache2 x) (gotAddrRanges x) (gotAllAddrRanges x)
    (defaultPortID x) (useDefaultRange x).

(** The constructor; the derived classes set [defaultPortID] when there is a
    default port, which comes after the [masters] others. *)
Definition BaseXBar_new (frontend forward response w masters : Z) (has_default use_default : bool) : BaseXBar :=
  let none := MkPortCache false 0 AddrRange0 in
  MkXBar frontend forward response w [] [] AddrRange0 none none none
    (replicate (Z.to_nat (masters + b2z has_default)) false) false
    (if has_default then masters else InvalidPortID) use_default.

Definition checkPortCache (addr : Z) (x : BaseXBar) : Z :=
  if pc_valid (portCache0 x) && contains (pc_range (portCache0 x)) addr then pc_id (portCache0 x)
  else if pc_valid (portCache1 x) && contains (pc_range (portCache1 x)) addr then pc_id (portCache1 x)
  else if pc_valid (portCache2 x) && contains (pc_range (portCache2 x)) addr then pc_id (portCache2 x)
  else InvalidPortID.

Definition updatePortCache (id : Z) (range : AddrRange) (x : BaseXBar) : BaseXBar :=
  let x := x <| portCache2 := portCache1 x |> in
  let x := x <| portCache1 := portCache0 x |> in
  x <| portCache0 := MkPortCache true id range |>.

Definition clearPortCache (x : BaseXBar) : BaseXBar :=
  x <| portCache2 ::= (fun p => p <| pc_valid := false |>) |>
    <| portCache1 ::= (fun p => p <| pc_valid := false |>) |>
    <| portCache0 ::= (fun p => p <| pc_valid := false |>) |>.

Definition findPort (addr : Z) (x : BaseXBar) : outcome (Z * BaseXBar) :=
  _ ← ensure AssertFailed (gotAllAddrRanges x);
  let dest_id := checkPortCache addr x in
  if negb (dest_id =? InvalidPortID) then Ok (dest_id, x)
  else
    i ← AddrRangeMap.find_addr (portMap x) addr;
    match portMap x !! i with
    | Some (range, id) => Ok (id, updatePortCache id range x)
    | None =>
        if useDefaultRange x then
          if contains (defaultRange x) addr then Ok (defaultPortID x, x) else Fail FatalError
        else if negb (defaultPortID x =? InvalidPortID) then Ok (defaultPortID x, x)
        else Fail FatalError
    end.

(** The loop of [recvRangeChange] that adds the ranges of a port. *)
Fixpoint add_ranges (id : Z) (ranges : list AddrRange) (t : list (AddrRange * Z))
  : outcome (list (AddrRange * Z)) :=
  match ranges with
  | [] => Ok t
  | r :: ranges =>
      '(ok, t) ← AddrRangeMap.insert r id t;
      if ok : bool then add_ranges id ranges t else Fail FatalError
  end.

(** [if (!(useDefaultRange && r.isSubset(defaultRange))) xbarRanges.push_back(r)] *)
Definition keep_range (x : BaseXBar) (r : AddrRange) (acc : list AddrRange) : outcome (list AddrRange) :=
  sub ← (if useDefaultRange x then isSubset r (defaultRange x) else Ok false);
  Ok (if sub : bool then acc else acc ++ [r]).

(** The loop that merges the interleaved ranges; [intlv] are those that wait. *)
Fixpoint aggregate (x : BaseXBar) (t : list (AddrRange * Z)) (intlv acc : list AddrRange)
  : outcome (list AddrRange) :=
  match t with
  | [] =>
      match intlv with
      | [] => Ok acc
      | _ => m ← AddrRange_merge intlv; keep_range x m acc
      end
  | (r, _) :: t =>
      if interleaved r then
        match last intlv with
        | Some b =>
            if negb (mergesWith b r) then
              m ← AddrRange_merge intlv;
              acc ← keep_range x m acc;
              aggregate x t [r] acc
            else aggregate x t (intlv ++ [r]) acc
        | None => aggregate x t [r] acc
        end
      else
        acc ← keep_range x r acc;
        aggregate x t intlv acc
  end.

(** No range may overlap the default range in part. *)
Fixpoint check_default (x : BaseXBar) (l : list AddrRange) : outcome () :=
  match l with
  | [] => Ok ()
  | r :: l =>
      hit ← intersects r (defaultRange x);
      sub ← (if hit : bool then isSubset r (defaultRange x) else Ok true);
      _ ← ensure FatalError sub;
      check_default x l
  end.

Definition aggregate_ranges (x : BaseXBar) : outcome BaseXBar :=
  acc ← (if useDefaultRange x then
           got ← vget (gotAddrRanges x) (defaultPortID x);
           _ ← ensure FatalError got;
           Ok [defaultRange x]
         else Ok []);
  l ← aggregate x (portMap x) [] acc;
  _ ← (if useDefaultRange x then check_default x l else Ok ());
  Ok (x <| xbarRanges := l |>).

(** The ranges of the default port, or the entries of another port, are replaced. *)
Definition take_ranges (master_port_id : Z) (ranges : list AddrRange) (x : BaseXBar) : outcome BaseXBar :=
  if master_port_id =? defaultPortID x then
    if useDefaultRange x then
      match ranges with
      | [r] => Ok (x <| defaultRange := r |>)
      | _ => Fail FatalError
      end
    else Ok x
  else
    t ← add_ranges master_port_id ranges (filter (fun e => e.2 <> master_port_id) (portMap x));
    Ok (x <| portMap := t |>).

(** [ranges] is what the object below the port answers when it is asked for its
    ranges. The result says whether the objects above are told. *)
Definition recvRangeChange (master_port_id : Z) (ranges : list AddrRange) (x : BaseXBar)
  : outcome (bool * BaseXBar) :=
  got ← vset (gotAddrRanges x) master_port_id true;
  let x := x <| gotAddrRanges := got |> in
  let x := if negb (gotAllAddrRanges x) then x <| gotAllAddrRanges := forallb id got |> else x in
  x ← take_ranges master_port_id ranges x;
  x ← (if gotAllAddrRanges x then aggregate_ranges x else Ok x);
  Ok (gotAllAddrRanges x, clearPortCache x).

Definition getAddrRanges (x : BaseXBar) : outcome (list AddrRange) :=
  _ ← ensure AssertFailed (gotAllAddrRanges x);
  Ok (xbarRanges x).

(** [now] is [clockEdge()] and [us] a microsecond in ticks. *)
Definition calcPacketTiming (clockPeriod now curTick us header_delay : Z) (pkt : Packet.Packet) (x : BaseXBar)
  : outcome Packet.Packet :=
  let offset := u64 (now - curTick) in
  let pkt := pkt <| Packet.headerDelay := u32 (Packet.headerDelay pkt + u64 (offset + header_delay)) |> in
  _ ← ensure PanicError (Packet.headerDelay pkt <=? us);
  if Packet.hasData pkt then
    n ← Packet.getSize pkt;
    Ok (pkt <| Packet.payloadDelay :=
          u32 (Z.max (Packet.payloadDelay pkt) (u64 (IntMath.divCeil 32 n (width x) * clockPeriod))) |>)
  else Ok pkt.

(** ** Every address reaches the port of its range *)

Section routes.
Import AddrRangeMap.

(** [n] ports and possibly a default port. *)
Context (fe fo re w n : Z) (has_default use_default : bool).

Definition dflt : Z := if has_default then n else InvalidPortID.
Definition total : nat := Z.to_nat (n + b2z has_default).
Definition all_reported (reported : list Z) : Prop := forall id, 0 <= id < Z.of_nat total -> id ∈ reported.

Section config.
(** A configuration: [table] says which port leads to which range, and the object
    at the default port answers with the range [dr]. *)
Context (table : list (AddrRange * Z)) (dr : AddrRange).

(** The ranges are plain (not interleaved) and disjoint, and none overlaps the
    default range in part. *)
Record config_ok : Prop := {
  cf_n : 0 <= n;
  cf_plain : Forall (fun e => plain e.1) table;
  cf_ports : Forall (fun e => 0 <= e.2 < n) table;
  cf_nodup : NoDup table;
  cf_disjoint e e' : e ∈ table -> e' ∈ table -> e <> e' -> disjoint e.1 e'.1;
  cf_default : use_default = true -> has_default = true /\ plain dr /\
    forall e, e ∈ table -> disjoint e.1 dr \/ (_start dr <= _start e.1 /\ _end e.1 <= _end dr);
}.

Definition ranges_of (id : Z) : list AddrRange :=
  if id =? dflt then [dr] else (filter (fun e => e.2 = id) table).*1.

(** Where an address belongs. *)
Definition route (a : Z) : outcome Z :=
  match list_find (fun e => contains e.1 a = true) table with
  | Some (_, e) => Ok (e.2)
  | None =>
      if use_default then if contains dr a then Ok dflt else Fail FatalError
      else if has_default then Ok dflt else Fail FatalError
  end.

Definition cached (p : PortCache) (t : list (AddrRange * Z)) : Prop :=
  pc_valid p = true -> (pc_range p, pc_id p) ∈ t.

Record core (reported : list Z) (x : BaseXBar) : Prop := {
  iv_default : defaultPortID x = dflt;
  iv_use : useDefaultRange x = use_default;
  iv_len : length (gotAddrRanges x) = total;
  iv_got (i : nat) : (i < total)%nat -> gotAddrRanges x !! i = Some (bool_decide (Z.of_nat i ∈ reported));
  iv_all : gotAllAddrRanges x = true <-> all_reported reported /\ reported <> [];
  iv_dr : use_default = true -> dflt ∈ reported -> defaultRange x = dr;
  iv_tree : tree_ok (portMap x);
  iv_map : portMap x ≡ₚ filter (fun e => e.2 ∈ reported) table;
}.

Record inv (reported : list Z) (x : BaseXBar) : Prop := {
  iv_core :> core reported x;
  iv_cache : cached (portCache0 x) (portMap x) /\ cached (portCache1 x) (portMap x) /\ cached (portCache2 x) (portMap x);
}.

Context (Hcf : config_ok).

Lemma in_map reported x e : core reported x -> e ∈ portMap x <-> e ∈ table /\ e.2 ∈ reported.
Proof. intros Hi. rewrite (iv_map _ _ Hi), list_elem_of_filter. tauto. Qed.

Lemma table_unique e e' a : e ∈ table -> e' ∈ table -> contains e.1 a = true -> contains e'.1 a = true -> e = e'.
Proof.
  intros He He' Hc Hc'. destruct (decide (e = e')) as [|Hne]; [done|]. exfalso.
  pose proof (cf_plain Hcf) as Hp. rewrite Forall_forall in Hp. apply plain_contains in Hc, Hc'; [|by apply Hp..].
  destruct (cf_disjoint Hcf e e' He He' Hne); lia.
Qed.

(** The route of an address in the map. *)
Lemma route_found e a : e ∈ table -> contains e.1 a = true -> route a = Ok (e.2).
Proof.
  intros He Hc. unfold route. destruct (list_find _ table) as [[i e']|] eqn:E.
  - apply list_find_Some in E as (Hl & Hc' & _). by rewrite (table_unique e' e a (list_elem_of_lookup_2 _ _ _ Hl) He Hc' Hc).
  - rewrite list_find_None, Forall_forall in E. by destruct (E e He).
Qed.

Lemma route_default a :
  (forall e, e ∈ table -> contains e.1 a = false) ->
  route a = if use_default then if contains dr a then Ok dflt else Fail FatalError
            else if has_default then Ok dflt else Fail FatalError.
Proof.
  intros H. unfold route. destruct (list_find _ table) as [[i e']|] eqn:E; [|done].
  apply list_find_Some in E as (Hl & Hc & _). by rewrite (H e') in Hc by by eapply list_elem_of_lookup_2.
Qed.

Lemma cache_entry reported x p a :
  inv reported x -> cached p (portMap x) -> pc_valid p && contains (pc_range p) a = true ->
  route a = Ok (pc_id p) /\ pc_id p <> InvalidPortID.
Proof.
  intros Hi Hp [Hv Hc]%andb_true_iff. apply Hp, (in_map reported x _ Hi) in Hv as [Hin _].
  split; [by apply (route_found (pc_range p, pc_id p))|].
  pose proof (cf_ports Hcf) as Hr. rewrite Forall_forall in Hr. specialize (Hr _ Hin). simpl in Hr. unfold InvalidPortID. lia.
Qed.

Lemma checkPortCache_ok reported x a :
  inv reported x -> checkPortCache a x = InvalidPortID \/ route a = Ok (checkPortCache a x) /\ checkPortCache a x <> InvalidPortID.
Proof.
  intros Hi. destruct (iv_cache _ _ Hi) as (C0 & C1 & C2). unfold checkPortCache.
  destruct (_ && _) eqn:E0; [right; by eapply cache_entry|].
  destruct (_ && contains (pc_range (portCache1 x)) a) eqn:E1; [right; by eapply cache_entry|].
  destruct (_ && contains (pc_range (portCache2 x)) a) eqn:E2; [right; by eapply cache_entry|by left].
Qed.

Lemma updatePortCache_inv reported x r id :
  inv reported x -> (r, id) ∈ portMap x -> inv reported (updatePortCache id r x).
Proof.
  intros Hi Hin. pose proof (iv_cache _ _ Hi) as (C0 & C1 & C2). destruct Hi as [[] _]. split; [by split|].
  split_and!; try done. by intros _.
Qed.

Lemma findPort_ok reported x a :
  inv reported x -> all_reported reported -> gotAllAddrRanges x = true -> 0 <= a < 2 ^ 64 ->
  match route a with
  | Ok id => exists x', findPort a x = Ok (id, x') /\ inv reported x'
  | Fail e => findPort a x = Fail e
  end.
Proof.
  intros Hi Hall Hg Ha. unfold findPort. rewrite Hg. cbn [ensure mbind outcome_bind].
  destruct (checkPortCache_ok reported x a Hi) as [->|[Hr Hne]].
  2:{ rewrite Hr, (proj2 (Z.eqb_neq _ _) Hne). simpl. eauto. }
  rewrite Z.eqb_refl. cbn [negb]. destruct (find_addr_ok (portMap x) a (iv_tree _ _ Hi) Ha) as (i & -> & Hlen & Hc).
  cbn [mbind outcome_bind]. destruct (portMap x !! i) as [[r id]|] eqn:El.
  - pose proof (list_elem_of_lookup_2 _ _ _ El) as Hin. pose proof (proj2 (Hc i _ El) eq_refl) as Hca. simpl in Hca.
    rewrite (route_found (r, id) a) by (done || by apply (in_map reported x _ Hi)). eexists. split; [reflexivity|].
    by apply updatePortCache_inv.
  - rewrite route_default.
    2:{ intros e He. apply not_true_iff_false. intros Hca. assert (e ∈ portMap x) as Hin.
        { apply (in_map reported x _ Hi). split; [done|]. apply Hall. pose proof (cf_ports Hcf) as Hp.
          rewrite Forall_forall in Hp. specialize (Hp e He). unfold total. destruct has_default; simpl; lia. }
        apply list_elem_of_lookup in Hin as [j Hj]. pose proof (proj1 (Hc j e Hj) Hca) as ->.
        apply lookup_lt_Some in Hj. apply lookup_ge_None in El. lia. }
    rewrite (iv_use _ _ Hi), (iv_default _ _ Hi). destruct use_default eqn:Eu.
    + destruct (cf_default Hcf Eu) as (Hd & _). rewrite (iv_dr _ _ Hi Eu).
      * destruct (contains dr a); [eauto|done].
      * apply Hall. unfold dflt, total. rewrite Hd. simpl. pose proof (cf_n Hcf). lia.
    + unfold dflt. destruct has_default; [|done]. pose proof (cf_n Hcf).
      rewrite (proj2 (Z.eqb_neq n InvalidPortID)) by (unfold InvalidPortID; lia). simpl. eauto.
Qed.

Lemma add_ranges_inserts id ranges t t' :
  inserts ((fun r => (r, id)) <$> ranges) t = Ok t' -> add_ranges id ranges t = Ok t'.
Proof.
  revert t. induction ranges as [|r ranges IH]; intros t; simpl; [done|]. intros H.
  apply bind_ok in H as ([b t1] & E & H). rewrite E. cbn [mbind outcome_bind]. destruct b; [|done]. by apply IH.
Qed.

Lemma ranges_of_entries id : id <> dflt ->
  (fun r => (r, id)) <$> ranges_of id = filter (fun e => e.2 = id) table.
Proof.
  intros Hne. unfold ranges_of. rewrite (proj2 (Z.eqb_neq _ _) Hne). generalize table. clear. intros l.
  induction l as [|[r i] l IH]; [done|]. rewrite filter_cons. simpl. destruct (decide (i = id)) as [->|]; [|done].
  rewrite !fmap_cons. by rewrite IH.
Qed.

Lemma Forall_filtered {A} (Q P : A -> Prop) `{!forall e, Decision (P e)} (l : list A) : Forall Q l -> Forall Q (filter P l).
Proof. rewrite !Forall_forall. intros Hl e [_ He]%list_elem_of_filter. by apply Hl. Qed.

Lemma filter_ext_in {A} (P Q : A -> Prop) `{!forall e, Decision (P e)} `{!forall e, Decision (Q e)} (l : list A) :
  (forall e, e ∈ l -> P e <-> Q e) -> filter P l = filter Q l.
Proof.
  induction l as [|e l IH]; intros Hl; [done|]. rewrite !filter_cons, IH by (intros; apply Hl; by right).
  assert (e ∈ e :: l) as He by left. specialize (Hl e He). destruct (decide (P e)), (decide (Q e)); tauto.
Qed.

Lemma tree_filter (P : AddrRange * Z -> Prop) `{!forall e, Decision (P e)} (t : list (AddrRange * Z)) : tree_ok t -> tree_ok (filter P t).
Proof.
  intros [Hp Hs]. split; [by apply Forall_filtered|]. induction Hs as [|e t Hs IH Hall]; [constructor|].
  inversion Hp; subst. rewrite filter_cons. destruct (decide (P e)); [|auto]. constructor; [auto|]. by apply Forall_filtered.
Qed.

Lemma plain_not_interleaved r : plain r -> interleaved r = false.
Proof. intros (E & _). unfold interleaved. by rewrite E. Qed.

Lemma plain_subset r : plain r -> isSubset r dr = Ok ((_start r >=? _start dr) && (_end r <=? _end dr)).
Proof. intros H. unfold isSubset. by rewrite plain_not_interleaved. Qed.

(** The ranges of the crossbar are collected without an error. *)
Lemma aggregate_ok x t : forall acc,
  (use_default = true -> defaultRange x = dr) -> useDefaultRange x = use_default ->
  (forall e, e ∈ t -> e ∈ table) ->
  (use_default = true -> Forall (fun r => r = dr \/ disjoint r dr /\ plain r) acc) ->
  exists l, aggregate x t [] acc = Ok l /\ (use_default = true -> Forall (fun r => r = dr \/ disjoint r dr /\ plain r) l).
Proof.
  induction t as [|[r i] t IH]; intros acc Hd Hu Hin Hacc; [by exists acc|]. cbn [aggregate].
  assert ((r, i) ∈ table) as He by (apply Hin; left). pose proof (cf_plain Hcf) as Hp. rewrite Forall_forall in Hp.
  specialize (Hp _ He). simpl in Hp. rewrite plain_not_interleaved by done. unfold keep_range. rewrite Hu.
  destruct use_default eqn:Eu.
  - rewrite Hd, plain_subset by done. cbn [mbind outcome_bind].
    destruct (cf_default Hcf Eu) as (_ & _ & Hsub). specialize (Hsub _ He). simpl in Hsub.
    destruct (_ && _) eqn:Es; apply IH; try done; try (intros e H; apply Hin; by right).
    intros _. apply Forall_app. split; [auto|]. apply Forall_singleton. right. split; [|done]. destruct Hsub as [?|[H1 H2]]; [done|].
    rewrite Z.geb_leb, (proj2 (Z.leb_le _ _) H1), (proj2 (Z.leb_le _ _) H2) in Es. done.
  - cbn [mbind outcome_bind]. apply IH; try done. intros e H. apply Hin. by right.
Qed.

Lemma check_default_ok x l :
  defaultRange x = dr -> plain dr -> Forall (fun r => r = dr \/ disjoint r dr /\ plain r) l -> check_default x l = Ok ().
Proof.
  intros Hd Hpl. induction 1 as [|r l Hr _ IH]; [done|]. cbn [check_default]. rewrite Hd.
  assert (plain r) as Hp by (destruct Hr as [->|[_ ?]]; done).
  rewrite plain_intersects by done. cbn [mbind outcome_bind].
  destruct Hr as [->|[Hdj _]].
  - destruct (negb _); cbn [mbind outcome_bind ensure]; [|done]. rewrite plain_subset by done. cbn [mbind outcome_bind].
    rewrite Z.geb_leb, !Z.leb_refl. done.
  - assert ((_start r >? _end dr) || (_end r <? _start dr) = true) as ->.
    { rewrite Z.gtb_ltb. destruct Hdj as [H|H]; [rewrite (proj2 (Z.ltb_lt (_end r) _) H); apply orb_true_r|].
      by rewrite (proj2 (Z.ltb_lt (_end dr) _) H). }
    done.
Qed.

Lemma aggregate_ranges_ok reported x :
  core reported x -> all_reported reported ->
  exists l, aggregate_ranges x = Ok (x <| xbarRanges := l |>).
Proof.
  intros Hi Hall. unfold aggregate_ranges. rewrite (iv_use _ _ Hi).
  assert (use_default = true -> defaultRange x = dr /\ vget (gotAddrRanges x) (defaultPortID x) = Ok true) as Hd.
  { intros Eu. destruct (cf_default Hcf Eu) as (Hh & _). pose proof (cf_n Hcf) as Hn.
    assert (dflt ∈ reported) as Hr by (apply Hall; unfold dflt, total; rewrite Hh; simpl; lia).
    split; [by apply (iv_dr _ _ Hi)|]. rewrite (iv_default _ _ Hi). unfold vget.
    assert (dflt = n) as En by (unfold dflt; by rewrite Hh). rewrite En in Hr |- *.
    rewrite (proj2 (Z.ltb_ge _ _)) by lia. rewrite (iv_got _ _ Hi); [|unfold total; rewrite Hh; simpl; lia].
    rewrite Z2Nat.id by lia. by rewrite bool_decide_eq_true_2. }
  destruct (aggregate_ok x (portMap x) (if use_default then [dr] else [])) as (l & E & Hl).
  - intros Eu. by apply Hd.
  - apply Hi.
  - intros e He. by apply (in_map reported x) in He as [? _].
  - intros ->. apply Forall_singleton. by left.
  - exists l. destruct use_default eqn:Eu.
    + destruct (Hd eq_refl) as [Ed Eg]. rewrite Eg. cbn [mbind outcome_bind ensure]. rewrite Ed, E. cbn [mbind outcome_bind].
      rewrite check_default_ok; [done|done| |by apply Hl]. by destruct (cf_default Hcf Eu) as (_ & ? & _).
    + cbn [mbind outcome_bind]. by rewrite E.
Qed.

End config.

Lemma got_all reported got :
  length got = total -> (forall i : nat, (i < total)%nat -> got !! i = Some (bool_decide (Z.of_nat i ∈ reported))) ->
  forallb Datatypes.id got = true <-> all_reported reported.
Proof.
  intros Hlen Hg. rewrite forallb_forall. setoid_rewrite <- list_elem_of_In. split.
  - intros H i Hi. pose proof (Hg (Z.to_nat i) ltac:(lia)) as Hl. apply list_elem_of_lookup_2, H in Hl.
    rewrite Z2Nat.id in Hl by lia. by apply bool_decide_eq_true in Hl.
  - intros H b [i Hb]%list_elem_of_lookup. pose proof (lookup_lt_Some _ _ _ Hb). rewrite (Hg i) in Hb by lia.
    injection Hb as <-. apply bool_decide_eq_true. apply H. lia.
Qed.

Lemma got_insert reported got id :
  length got = total -> (forall i : nat, (i < total)%nat -> got !! i = Some (bool_decide (Z.of_nat i ∈ reported))) ->
  0 <= id < Z.of_nat total -> forall i : nat, (i < total)%nat ->
  <[Z.to_nat id := true]> got !! i = Some (bool_decide (Z.of_nat i ∈ id :: reported)).
Proof.
  intros Hlen Hg Hid i Hlt. destruct (decide (i = Z.to_nat id)) as [->|Hne].
  - rewrite list_lookup_insert_eq by lia. rewrite Z2Nat.id by lia. rewrite bool_decide_eq_true_2; [done|left].
  - rewrite list_lookup_insert_ne, Hg by done. f_equal. apply bool_decide_ext.
    rewrite elem_of_cons. split; [by right|]. intros [?|?]; [lia|done].
Qed.

(** From [table] to [table'] and from [dr] to [dr'] only what port [id] answers
    changes. *)
Definition changes (id : Z) (table table' : list (AddrRange * Z)) (dr dr' : AddrRange) : Prop :=
  (forall e, e.2 <> id -> e ∈ table' <-> e ∈ table) /\ (id <> dflt -> dr' = dr).

Section report.
Context (table table' : list (AddrRange * Z)) (dr dr' : AddrRange) (id : Z).
Context (Hcf : config_ok table dr) (Hcf' : config_ok table' dr') (Hch : changes id table table' dr dr').

(** A port's entries are replaced. *)
Lemma replace_ranges reported x :
  core table dr reported x -> id <> dflt ->
  exists t, add_ranges id (ranges_of table' dr' id) (filter (fun e => e.2 <> id) (portMap x)) = Ok t /\ tree_ok t /\
    t ≡ₚ filter (fun e => e.2 ∈ id :: reported) table'.
Proof.
  intros Hi Hne. set (t0 := filter (fun e => e.2 <> id) (portMap x)).
  assert (forall e, e ∈ t0 <-> e ∈ table' /\ e.2 <> id /\ e.2 ∈ reported) as Ht0.
  { intros e. unfold t0. rewrite list_elem_of_filter, (in_map table dr reported x) by done.
    pose proof (proj1 Hch e). tauto. }
  destruct (inserts_ok (filter (fun e => e.2 = id) table') t0) as (t & E & Ht & Hperm).
  - apply Forall_filtered, Hcf'.
  - apply tree_filter, (iv_tree _ _ _ _ Hi).
  - intros i j e e' Hl Hl' Hij. pose proof (list_elem_of_lookup_2 _ _ _ Hl) as [_ He]%list_elem_of_filter.
    pose proof (list_elem_of_lookup_2 _ _ _ Hl') as [_ He']%list_elem_of_filter. apply (cf_disjoint _ _ Hcf'); [done|done|].
    intros ->. apply Hij. eapply NoDup_lookup; [|done..]. apply NoDup_filter, Hcf'.
  - apply Forall_forall. intros e [Hid He]%list_elem_of_filter. apply Forall_forall. intros e' He'.
    apply Ht0 in He' as (Hin & Hn & _). apply (cf_disjoint _ _ Hcf'); [done|done|]. congruence.
  - exists t. split; [|split; [done|]].
    + apply add_ranges_inserts. by rewrite ranges_of_entries.
    + rewrite Hperm. apply NoDup_Permutation.
      * apply NoDup_app. split; [apply NoDup_filter, Hcf'|]. split.
        -- intros e [Hid _]%list_elem_of_filter (_ & Hn & _)%Ht0. done.
        -- apply NoDup_filter. rewrite (iv_map _ _ _ _ Hi). apply NoDup_filter, Hcf.
      * apply NoDup_filter, Hcf'.
      * intros e. rewrite elem_of_app, !list_elem_of_filter, Ht0, elem_of_cons. destruct (decide (e.2 = id)); tauto.
Qed.

Lemma take_ranges_ok reported x x' :
  core table dr reported x -> defaultPortID x' = defaultPortID x -> useDefaultRange x' = useDefaultRange x ->
  portMap x' = portMap x -> defaultRange x' = defaultRange x ->
  exists t d, take_ranges id (ranges_of table' dr' id) x' = Ok (x' <| portMap := t |> <| defaultRange := d |>) /\
    tree_ok t /\ t ≡ₚ filter (fun e => e.2 ∈ id :: reported) table' /\
    (use_default = true -> dflt ∈ id :: reported -> d = dr').
Proof.
  intros Hi Ed Eu Em Er. unfold take_ranges. rewrite Ed, Eu, Em, (iv_default _ _ _ _ Hi), (iv_use _ _ _ _ Hi).
  destruct (Z.eqb_spec id dflt) as [Eid|Hne].
  - assert (portMap x ≡ₚ filter (fun e => e.2 ∈ id :: reported) table') as Ef.
    { rewrite (iv_map _ _ _ _ Hi). apply NoDup_Permutation; [apply NoDup_filter, Hcf|apply NoDup_filter, Hcf'|].
      assert (forall tb d0 e, config_ok tb d0 -> e ∈ tb -> e.2 <> id) as Hnd.
      { intros tb d0 e Hc He. pose proof (cf_ports _ _ Hc) as Hp. rewrite Forall_forall in Hp. specialize (Hp e He).
        subst id. unfold dflt, InvalidPortID. destruct has_default; lia. }
      intros e. rewrite !list_elem_of_filter, elem_of_cons. pose proof (proj1 Hch e) as Hc.
      split; intros [Hr He]; [pose proof (Hnd _ _ _ Hcf He)|pose proof (Hnd _ _ _ Hcf' He)]; tauto. }
    subst id. unfold ranges_of. rewrite Z.eqb_refl. destruct use_default.
    + exists (portMap x), dr'. split; [rewrite <- Em; by destruct x'|]. split_and!; [apply (iv_tree _ _ _ _ Hi)|done|done].
    + exists (portMap x), (defaultRange x). split; [rewrite <- Em, <- Er; by destruct x'|].
      split_and!; [apply (iv_tree _ _ _ _ Hi)|done|done].
  - destruct (replace_ranges reported x Hi Hne) as (t & -> & Ht & Hperm). exists t, (defaultRange x).
    split; [rewrite <- Er; by destruct x'|]. split_and!; try done. intros Hu Hin.
    rewrite (proj2 Hch Hne). apply (iv_dr _ _ _ _ Hi Hu). apply elem_of_cons in Hin as [?|?]; [congruence|done].
Qed.

(** The ranges of an object are taken without an error. *)
Lemma report_ok reported x :
  inv table dr reported x -> 0 <= id < Z.of_nat total ->
  exists b x', recvRangeChange id (ranges_of table' dr' id) x = Ok (b, x') /\ inv table' dr' (id :: reported) x' /\
    (b = true <-> all_reported (id :: reported)).
Proof.
  intros Hi Hid. unfold recvRangeChange, vset. rewrite (proj2 (Z.ltb_ge _ _)) by lia.
  rewrite (proj2 (Nat.ltb_lt _ _)) by (rewrite (iv_len _ _ _ _ Hi); lia). cbn [mbind outcome_bind].
  set (got := <[Z.to_nat id := true]> (gotAddrRanges x)).
  assert (length got = total) as Hlen by (unfold got; rewrite length_insert; apply (iv_len _ _ _ _ Hi)).
  pose proof (got_insert reported (gotAddrRanges x) id (iv_len _ _ _ _ Hi) (iv_got _ _ _ _ Hi) Hid) as Hgot. fold got in Hgot.
  pose proof (got_all (id :: reported) got Hlen Hgot) as Hall.
  assert (gotAllAddrRanges x = true -> all_reported (id :: reported)) as Hmono.
  { intros Hg i Hin. right. by apply (iv_all _ _ _ _ Hi). }
  set (x0 := x <| gotAddrRanges := got |>). cbv zeta.
  set (x1 := if negb (gotAllAddrRanges x0) then x0 <| gotAllAddrRanges := forallb Datatypes.id got |> else x0).
  assert (exists g, x1 = x <| gotAddrRanges := got |> <| gotAllAddrRanges := g |> /\
    (g = true <-> all_reported (id :: reported))) as (g & Ex1 & Hg).
  { unfold x1, x0. simpl. destruct (gotAllAddrRanges x) eqn:Eg; simpl; [|by eexists].
    exists true. split; [|split; auto]. destruct x. simpl in *. by subst. }
  rewrite Ex1. clear x1 Ex1 x0. set (x1 := x <| gotAddrRanges := got |> <| gotAllAddrRanges := g |>).
  destruct (take_ranges_ok reported x x1 Hi) as (t & d0 & -> & Ht & Hperm & Hd0); [done..|].
  cbn [mbind outcome_bind]. set (x2 := x1 <| portMap := t |> <| defaultRange := d0 |>).
  assert (core table' dr' (id :: reported) x2) as Hc2.
  { split; try done; [apply (iv_default _ _ _ _ Hi)|apply (iv_use _ _ _ _ Hi)|]. simpl. rewrite Hg. split; [by split|by intros [? _]]. }
  assert (forall l, inv table' dr' (id :: reported) (clearPortCache (x2 <| xbarRanges := l |>))) as Hinv.
  { intros l. destruct Hc2. by split; [split|]. }
  simpl (gotAllAddrRanges x2). destruct g.
  - destruct (aggregate_ranges_ok table' dr' Hcf' (id :: reported) x2 Hc2) as (l & ->); [by apply Hg|].
    cbn [mbind outcome_bind]. eexists _, _. split; [reflexivity|]. split; [apply Hinv|done].
  - cbn [mbind outcome_bind]. eexists _, _. split; [reflexivity|]. split; [|done].
    specialize (Hinv (xbarRanges x)). by destruct x.
Qed.

End report.

(** Any order of reports and lookups, the objects answering with other ranges from
    one report to the next; [reported] has the ports whose objects have sent their
    ranges at least once, [table] and [dr] what they answered last. *)
Inductive reach : list (AddrRange * Z) -> AddrRange -> list Z -> BaseXBar -> Prop :=
  | reach_new table dr : config_ok table dr -> reach table dr [] (BaseXBar_new fe fo re w n has_default use_default)
  | reach_report table dr table' dr' reported x id b x' :
      reach table dr reported x -> 0 <= id < Z.of_nat total -> config_ok table' dr' -> changes id table table' dr dr' ->
      recvRangeChange id (ranges_of table' dr' id) x = Ok (b, x') -> reach table' dr' (id :: reported) x'
  | reach_lookup table dr reported x a id x' :
      reach table dr reported x -> 0 <= a < 2 ^ 64 -> findPort a x = Ok (id, x') -> reach table dr reported x'.

Lemma reach_config table dr reported x : reach table dr reported x -> config_ok table dr.
Proof. by induction 1. Qed.

Lemma xbar_reach_inv table dr reported x : reach table dr reported x -> inv table dr reported x.
Proof.
  induction 1 as [table dr _|table dr table' dr' reported x id b x' Hr IH Hid Hc Hch E|table dr reported x a id x' Hr IH Ha E].
  - assert (filter (fun e : AddrRange * Z => e.2 ∈ @nil Z) table = []) as Ef.
    { generalize table. clear. intros l. induction l as [|e l IH]; [done|]. rewrite filter_cons, decide_False; [done|].
      apply not_elem_of_nil. }
    split; [|by split_and!]. split; try done.
    + apply length_replicate.
    + intros i Hlt. rewrite bool_decide_eq_false_2 by apply not_elem_of_nil. by apply lookup_replicate_2.
    + simpl. split; [done|]. by intros [_ ?].
    + intros _ Hin. by apply not_elem_of_nil in Hin.
    + split; constructor.
    + by rewrite Ef.
  - destruct (report_ok table table' dr dr' id (reach_config _ _ _ _ Hr) Hc Hch reported x IH Hid) as (b' & x'' & E' & Hi & _). congruence.
  - assert (gotAllAddrRanges x = true) as Hg by (unfold findPort in E; apply bind_ok in E as (? & Hg%ensure_ok & _); done).
    pose proof (proj1 (iv_all _ _ _ _ IH) Hg) as [Hall _].
    pose proof (findPort_ok table dr (reach_config _ _ _ _ Hr) reported x a IH Hall Hg Ha) as H.
    destruct (route table dr a); [|congruence]. destruct H as (x'' & E' & Hi). congruence.
Qed.

(** C14: a crossbar routes every address to the port whose range contains it.
    However reports of address ranges and lookups alternate, and though an object
    may answer with other ranges every time it reports, as long as the ranges last
    reported are plain (not interleaved), pairwise disjoint and, when the default
    range is used, inside or outside it: taking the ranges of an object does not
    stop with an error, the objects above are told exactly from the moment when
    every port has reported, and from then on a lookup answers, in spite of its
    three-entry cache, with the port of the range as last reported, with the
    default port, or with the fatal error, as the configuration says; before
    that it fails its assertion. *)
Theorem crossbar_routes table dr reported x :
  reach table dr reported x ->
  (forall id table' dr', 0 <= id < Z.of_nat total -> config_ok table' dr' -> changes id table table' dr dr' ->
     exists b x', recvRangeChange id (ranges_of table' dr' id) x = Ok (b, x') /\
       (b = true <-> all_reported (id :: reported))) /\
  (all_reported reported -> reported <> [] -> forall a, 0 <= a < 2 ^ 64 ->
     ('(id, _) ← findPort a x; Ok id) = route table dr a) /\
  (~ all_reported reported -> forall a, findPort a x = Fail AssertFailed).
Proof.
  intros Hr. pose proof (xbar_reach_inv _ _ _ _ Hr) as Hi. pose proof (reach_config _ _ _ _ Hr) as Hcf. split_and!.
  - intros id table' dr' Hid Hcf' Hch.
    destruct (report_ok table table' dr dr' id Hcf Hcf' Hch reported x Hi Hid) as (b & x' & E & _ & Hb). eauto.
  - intros Hall Hne a Ha. assert (gotAllAddrRanges x = true) as Hg by by apply (iv_all _ _ _ _ Hi).
    pose proof (findPort_ok table dr Hcf reported x a Hi Hall Hg Ha) as H. destruct (route table dr a); [|by rewrite H].
    by destruct H as (x' & -> & _).
  - intros Hn a. unfold findPort. destruct (gotAllAddrRanges x) eqn:Eg; [|done]. by apply (iv_all _ _ _ _ Hi) in Eg as [? _].
Qed.

End routes.

(** Two memories and a default port; one of the memories moves. *)
Definition example_table : list (AddrRange * Z) := [(AddrRange_plain 0 99, 1); (AddrRange_plain 100 199, 0)].
Definition moved_table : list (AddrRange * Z) := [(AddrRange_plain 300 399, 1); (AddrRange_plain 100 199, 0)].
Definition report (id : Z) (ranges : list AddrRange) (x : BaseXBar) : BaseXBar :=
  match recvRangeChange id ranges x with Ok (_, x') => x' | Fail _ => x end.
Definition example_x0 : BaseXBar := BaseXBar_new 1 1 1 16 2 true true.
Definition example_x1 : BaseXBar := report 2 [AddrRange_plain 0 999] example_x0.
Definition example_x2 : BaseXBar := report 0 [AddrRange_plain 100 199] example_x1.
Definition example_x3 : BaseXBar := report 1 [AddrRange_plain 0 99] example_x2.
Definition example_x4 : BaseXBar := report 1 [AddrRange_plain 300 399] example_x3.

Lemma two_ranges_ok lo hi :
  0 <= lo <= hi -> hi <= 999 -> hi < 100 \/ 199 < lo ->
  config_ok 2 true true [(AddrRange_plain lo hi, 1); (AddrRange_plain 100 199, 0)] (AddrRange_plain 0 999).
Proof.
  intros Hl Hh Hd. split; try done.
  - repeat constructor; simpl; lia.
  - repeat constructor; simpl; lia.
  - apply NoDup_cons_2; [|apply NoDup_singleton]. intros H. by apply list_elem_of_singleton in H.
  - intros e e' He He' Hne. rewrite elem_of_cons, list_elem_of_singleton in He, He'. unfold disjoint.
    destruct He as [-> | ->], He' as [-> | ->]; try done; simpl; lia.
  - intros _. split_and!; try done. intros e He. right. rewrite elem_of_cons, list_elem_of_singleton in He.
    destruct He as [-> | ->]; simpl; lia.
Qed.

Lemma crossbar_routes_witness :
  ('(id, _) ← findPort 5 example_x4; Ok id) = Ok 2 /\ ('(id, _) ← findPort 150 example_x4; Ok id) = Ok 0 /\
  ('(id, _) ← findPort 350 example_x4; Ok id) = Ok 1 /\ ('(id, _) ← findPort 1000 example_x4; Ok id) = Fail FatalError.
Proof.
  assert (config_ok 2 true true example_table (AddrRange_plain 0 999)) as Hc by (apply two_ranges_ok; lia).
  assert (forall id, 0 <= id < 3 -> 0 <= id < Z.of_nat (total 2 true)) as Hid
    by (intros id; change (Z.of_nat (total 2 true)) with 3; done).
  assert (forall id, changes 2 true id example_table example_table (AddrRange_plain 0 999) (AddrRange_plain 0 999)) as Hsame by done.
  assert (reach 1 1 1 16 2 true true moved_table (AddrRange_plain 0 999) [1; 1; 0; 2] example_x4) as Hr.
  { apply (reach_report _ _ _ _ _ _ _ example_table (AddrRange_plain 0 999) _ _ _ example_x3 1 true);
      [|apply Hid; lia|apply two_ranges_ok; lia| |vm_compute; reflexivity].
    2:{ split; [|done]. intros e Hne. unfold moved_table, example_table. rewrite !elem_of_cons.
        split; (intros [->|H]; [by destruct Hne|by right]). }
    apply (reach_report _ _ _ _ _ _ _ example_table (AddrRange_plain 0 999) _ _ _ example_x2 1 true); [|apply Hid; lia|done|apply Hsame|vm_compute; reflexivity].
    apply (reach_report _ _ _ _ _ _ _ example_table (AddrRange_plain 0 999) _ _ _ example_x1 0 false); [|apply Hid; lia|done|apply Hsame|vm_compute; reflexivity].
    apply (reach_report _ _ _ _ _ _ _ example_table (AddrRange_plain 0 999) _ _ _ example_x0 2 false); [|apply Hid; lia|done|apply Hsame|vm_compute; reflexivity].
    by apply reach_new. }
  destruct (crossbar_routes 1 1 1 16 2 true true moved_table (AddrRange_plain 0 999) [1; 1; 0; 2] example_x4 Hr) as (_ & Hroute & _).
  assert (all_reported 2 true [1; 1; 0; 2]) as Hall.
  { intros i Hi. change (Z.of_nat (total 2 true)) with 3 in Hi.
    assert (i = 0 \/ i = 1 \/ i = 2) as [->|[->| ->]] by lia; apply list_elem_of_In; simpl; auto. }
  assert ([1; 1; 0; 2] <> []) as Hne by discriminate.
  split_and!; (rewrite (Hroute Hall Hne) by lia); vm_compute; reflexivity.
Defined.

End XBar.

(** * Arbitration for one destination *)

Module Layer.

Inductive State := IDLE | BUSY | RETRY.
#[global] Instance State_eq_dec : EqDecision State.
Proof. solve_decision. Defined.

(** Ports are identified by numbers. [draining] is a [drainManager] other than
    null, [drainsDone] counts its signals, and [retries] lists the ports that
    were told to retry, the latest first. *)
Record Layer := MkLayer {
  state : State;
  draining : bool;
  drainsDone : Z;
  waitingForLayer : list Z;
  waitingForPeer : option Z;
  releaseEvent : option Z;
  occupancy : Z;
  retries : list Z;
}.
#[global] Instance eta_Layer : Eta Layer := fun l =>
  MkLayer (state l) (draining l) (drainsDone l) (waitingForLayer l) (waitingForPeer l) (releaseEvent l)
    (occupancy l) (retries l).

Definition Layer_new : Layer := MkLayer IDLE false 0 [] None None 0 [].

Definition occupyLayer (curTick until : Z) (l : Layer) : outcome Layer :=
  _ ← ensure AssertFailed (bool_decide (state l = BUSY));
  _ ← ensure AssertFailed (negb (until =? 0));
  ev ← schedule curTick until (releaseEvent l);
  Ok (l <| releaseEvent := ev |> <| occupancy ::= Z.add (until - curTick) |>).

Definition tryTiming (src_port : Z) (l : Layer) : outcome (bool * Layer) :=
  if bool_decide (state l = BUSY) || bool_decide (is_Some (waitingForPeer l)) then
    _ ← ensure AssertFailed (negb (bool_decide (src_port ∈ waitingForLayer l)));
    Ok (false, l <| waitingForLayer ::= (fun w => w ++ [src_port]) |>)
  else Ok (true, l <| state := BUSY |>).

Definition succeededTiming (curTick busy_time : Z) (l : Layer) : outcome Layer :=
  _ ← ensure AssertFailed (bool_decide (state l = BUSY));
  occupyLayer curTick busy_time l.

Definition failedTiming (curTick src_port busy_time : Z) (l : Layer) : outcome Layer :=
  _ ← ensure AssertFailed (negb (bool_decide (is_Some (waitingForPeer l))));
  let l := l <| waitingForPeer := Some src_port |> in
  _ ← ensure AssertFailed (bool_decide (state l = BUSY));
  occupyLayer curTick busy_time l.

(** What the peer of a source port does while it is told to retry: nothing, or
    it sends again. Then, between the layer's consent and the answer of the
    destination, other ports may try and are refused ([inner]); [ok] is the
    answer and [busy_time] the tick until which the layer is occupied. *)
Record sending := MkSending { inner : list Z; ok : bool; busy_time : Z }.

Fixpoint try_all (ports : list Z) (l : Layer) : outcome Layer :=
  match ports with
  | [] => Ok l
  | p :: ports => '(_, l) ← tryTiming p l; try_all ports l
  end.

(** A source port sends: the use the crossbars make of the three operations. *)
Definition send (curTick src_port : Z) (snd : sending) (l : Layer) : outcome (bool * Layer) :=
  '(mine, l) ← tryTiming src_port l;
  if mine : bool then
    l ← try_all (inner snd) l;
    l ← (if ok snd then succeededTiming curTick (busy_time snd) l
         else failedTiming curTick src_port (busy_time snd) l);
    Ok (ok snd, l)
  else Ok (false, l).

(** [clockEdge] is the next edge of the crossbar's clock. *)
Definition retryWaiting (curTick clockEdge : Z) (again : option sending) (l : Layer) : outcome Layer :=
  match waitingForLayer l with
  | [] => Fail AssertFailed
  | retryingPort :: rest =>
      _ ← ensure AssertFailed (bool_decide (state l = IDLE));
      let l := l <| state := RETRY |> <| waitingForLayer := rest |> <| retries ::= cons retryingPort |> in
      l ← match again with
          | Some snd => '(_, l) ← send curTick retryingPort snd l; Ok l
          | None => Ok l
          end;
      if decide (state l = RETRY) then occupyLayer curTick clockEdge (l <| state := BUSY |>) else Ok l
  end.

(** The event is no longer scheduled when it runs. *)
Definition releaseLayer (curTick clockEdge : Z) (again : option sending) (l : Layer) : outcome Layer :=
  _ ← ensure AssertFailed (bool_decide (state l = BUSY));
  _ ← ensure AssertFailed (negb (bool_decide (is_Some (releaseEvent l))));
  let l := l <| state := IDLE |> in
  match waitingForLayer l with
  | _ :: _ =>
      match waitingForPeer l with
      | None => retryWaiting curTick clockEdge again l
      | Some _ => Ok l
      end
  | [] =>
      if negb (bool_decide (is_Some (waitingForPeer l))) && draining l
      then Ok (l <| drainsDone ::= Z.succ |> <| draining := false |>)
      else Ok l
  end.

Definition recvRetry (curTick clockEdge : Z) (again : option sending) (l : Layer) : outcome Layer :=
  match waitingForPeer l with
  | None => Fail AssertFailed
  | Some p =>
      let l := l <| waitingForLayer ::= cons p |> <| waitingForPeer := None |> in
      if decide (state l = IDLE) then retryWaiting curTick clockEdge again l
      else
        _ ← ensure AssertFailed (bool_decide (state l = BUSY));
        Ok l
  end.

(** *** The halves around the call of the retried port

    What the port does when it is told to retry can involve the whole crossbar.
    The functions above stop at that call, with the port that is told, and go on
    after it. *)
Definition tell_retry (l : Layer) : outcome (option Z * Layer) :=
  match waitingForLayer l with
  | [] => Fail AssertFailed
  | retryingPort :: rest =>
      _ ← ensure AssertFailed (bool_decide (state l = IDLE));
      Ok (Some retryingPort, l <| state := RETRY |> <| waitingForLayer := rest |> <| retries ::= cons retryingPort |>)
  end.

Definition after_retry (curTick clockEdge : Z) (told : option Z) (l : Layer) : outcome Layer :=
  match told with
  | Some _ => if decide (state l = RETRY) then occupyLayer curTick clockEdge (l <| state := BUSY |>) else Ok l
  | None => Ok l
  end.

Definition release_first (l : Layer) : outcome (option Z * Layer) :=
  _ ← ensure AssertFailed (bool_decide (state l = BUSY));
  _ ← ensure AssertFailed (negb (bool_decide (is_Some (releaseEvent l))));
  let l := l <| state := IDLE |> in
  match waitingForLayer l with
  | _ :: _ =>
      match waitingForPeer l with
      | None => tell_retry l
      | Some _ => Ok (None, l)
      end
  | [] =>
      if negb (bool_decide (is_Some (waitingForPeer l))) && draining l
      then Ok (None, l <| drainsDone ::= Z.succ |> <| draining := false |>)
      else Ok (None, l)
  end.

Definition recvRetry_first (l : Layer) : outcome (option Z * Layer) :=
  match waitingForPeer l with
  | None => Fail AssertFailed
  | Some p =>
      let l := l <| waitingForLayer ::= cons p |> <| waitingForPeer := None |> in
      if decide (state l = IDLE) then tell_retry l
      else
        _ ← ensure AssertFailed (bool_decide (state l = BUSY));
        Ok (None, l)
  end.

(** A port that uses this layer only. *)
Definition resend (curTick : Z) (again : option sending) (told : option Z) (l : Layer) : outcome Layer :=
  match told, again with
  | Some p, Some snd => '(_, l) ← send curTick p snd l; Ok l
  | _, _ => Ok l
  end.

Lemma releaseLayer_halves curTick edge again l :
  releaseLayer curTick edge again l =
    ('(told, l) ← release_first l; l ← resend curTick again told l; after_retry curTick edge told l).
Proof.
  unfold releaseLayer, release_first.
  destruct (ensure AssertFailed (bool_decide (state l = BUSY))) as [[]|]; cbn [mbind outcome_bind]; [|done].
  destruct (ensure AssertFailed (negb _)) as [[]|]; cbn [mbind outcome_bind]; [|done]. cbv zeta. set (l1 := l <| state := IDLE |>).
  destruct (waitingForLayer l1) as [|p rest] eqn:Ew; [by destruct (_ && _)|]. destruct (waitingForPeer l1); [done|].
  unfold retryWaiting, tell_retry. rewrite Ew. destruct (ensure _ _) as [[]|]; cbn [mbind outcome_bind]; [|done]. by destruct again.
Qed.

Lemma recvRetry_halves curTick edge again l :
  recvRetry curTick edge again l =
    ('(told, l) ← recvRetry_first l; l ← resend curTick again told l; after_retry curTick edge told l).
Proof.
  unfold recvRetry, recvRetry_first. destruct (waitingForPeer l) as [p|]; [|done]. cbv zeta.
  set (l1 := l <| waitingForLayer ::= cons p |> <| waitingForPeer := None |>). destruct (decide (state l1 = IDLE)).
  - unfold retryWaiting, tell_retry. change (waitingForLayer l1) with (p :: waitingForLayer l).
    destruct (ensure _ _) as [[]|]; cbn [mbind outcome_bind]; [|done]. by destruct again.
  - by destruct (ensure _ _) as [[]|].
Qed.

(** The result is the number of objects still to drain. *)
Definition drain (l : Layer) : Z * Layer :=
  if decide (state l = IDLE) then (0, l) else (1, l <| draining := true |>).

(** ** No port waits in vain *)

(** What happens to the layer at a tick; the result includes the ports that were
    refused. *)
Inductive action :=
  | Send (src_port : Z) (snd : sending)
  | Release (clockEdge : Z) (again : option sending)
  | PeerRetry (clockEdge : Z) (again : option sending)
  | Drain.

Definition refusals (src_port : Z) (mine : bool) (snd : sending) : list Z :=
  if mine then inner snd ++ (if ok snd then [] else [src_port]) else [src_port].

(** The retried port takes the layer. *)
Definition again_refusals (port : option Z) (again : option sending) : list Z :=
  match port, again with
  | Some p, Some snd => refusals p true snd
  | _, _ => []
  end.

Definition act (now : Z) (a : action) (l : Layer) : outcome (list Z * Layer) :=
  match a with
  | Send src snd =>
      '(_, l') ← send now src snd l;
      Ok (refusals src (negb (bool_decide (state l = BUSY) || bool_decide (is_Some (waitingForPeer l)))) snd, l')
  | Release edge again =>
      l' ← releaseLayer now edge again (l <| releaseEvent := None |>);
      Ok (match waitingForPeer l with
          | None => again_refusals (head (waitingForLayer l)) again
          | Some _ => []
          end, l')
  | PeerRetry edge again =>
      l' ← recvRetry now edge again l;
      Ok (if decide (state l = IDLE) then again_refusals (waitingForPeer l) again else [], l')
  | Drain => Ok ([], (drain l).2)
  end.

Definition waiting (l : Layer) : list Z := waitingForLayer l ++ option_list (waitingForPeer l).

(** The protocol of ports: who waits for a retry does not send. *)
Definition sending_ok (now src_port : Z) (waiters : list Z) (snd : sending) : Prop :=
  NoDup (src_port :: inner snd) /\ (forall p, p ∈ src_port :: inner snd -> p ∉ waiters) /\
  now <= busy_time snd /\ 0 < busy_time snd.

Definition again_ok (now edge : Z) (port : option Z) (waiters : list Z) (again : option sending) : Prop :=
  now <= edge /\ 0 < edge /\
  match port, again with
  | Some p, Some snd => sending_ok now p (filter (fun q => q <> p) waiters) snd
  | _, _ => True
  end.

(** A release is the event that was scheduled; a retry of the peer answers a
    packet it refused. *)
Definition allowed (now : Z) (a : action) (l : Layer) : Prop :=
  match a with
  | Send src snd => sending_ok now src (waiting l) snd
  | Release edge again =>
      releaseEvent l = Some now /\ again_ok now edge (head (waitingForLayer l)) (waiting l) again
  | PeerRetry edge again =>
      is_Some (waitingForPeer l) /\ again_ok now edge (waitingForPeer l) (waiting l) again
  | Drain => True
  end.

Inductive reach : Z -> list Z -> Layer -> Prop :=
  | reach_new : reach 0 [] Layer_new
  | reach_time now now' refused l :
      reach now refused l -> now <= now' -> (forall t, releaseEvent l = Some t -> now' <= t) ->
      reach now' refused l
  | reach_act now refused l a r l' :
      reach now refused l -> allowed now a l -> act now a l = Ok (r, l') -> reach now (r ++ refused) l'.

(** [busy] is the state [BUSY] with its event. *)
Record inv (now : Z) (refused : list Z) (l : Layer) : Prop := {
  iv_state : (state l = IDLE /\ releaseEvent l = None) \/
    (state l = BUSY /\ exists t, releaseEvent l = Some t /\ now <= t);
  iv_nodup : NoDup (waiting l);
  iv_idle : state l = IDLE -> waitingForPeer l = None -> waitingForLayer l = [];
  iv_acct : refused ≡ₚ retries l ++ waiting l;
}.

Lemma try_all_ok ports l :
  state l = BUSY -> NoDup ports -> (forall p, p ∈ ports -> p ∉ waitingForLayer l) ->
  try_all ports l = Ok (l <| waitingForLayer ::= (fun w => w ++ ports) |>).
Proof.
  revert l. induction ports as [|p ports IH]; intros l Hb Hn Hd.
  - simpl. f_equal. destruct l. simpl. by rewrite app_nil_r.
  - cbn [try_all]. unfold tryTiming. rewrite (bool_decide_eq_true_2 (state l = BUSY)) by done. cbn [orb].
    rewrite (bool_decide_eq_false_2 (p ∈ _)) by (apply Hd; left). cbn [negb ensure mbind outcome_bind].
    inversion Hn as [|? ? Hp Hn']; subst. rewrite IH; [|done|done|].
    + f_equal. destruct l. simpl. by rewrite <- app_assoc.
    + intros q Hq. simpl. rewrite elem_of_app, list_elem_of_singleton. intros [H| ->]; [|done]. by eapply Hd; [right|].
Qed.

(** What a sender that gets the layer leaves. *)
Definition after_send (now src : Z) (snd : sending) (l : Layer) : Layer :=
  l <| state := BUSY |> <| waitingForLayer ::= (fun w => w ++ inner snd) |>
    <| waitingForPeer := (if ok snd then None else Some src) |>
    <| releaseEvent := Some (busy_time snd) |> <| occupancy ::= Z.add (busy_time snd - now) |>.

Lemma send_mine now src snd l ws :
  state l <> BUSY -> waitingForPeer l = None -> releaseEvent l = None ->
  sending_ok now src ws snd -> (forall p, p ∈ waitingForLayer l -> p ∈ ws) ->
  send now src snd l = Ok (ok snd, after_send now src snd l).
Proof.
  intros Hs Hp He (Hn & Hd & Hb & Hb0) Hsub. unfold send, tryTiming.
  rewrite (bool_decide_eq_false_2 (state l = BUSY)), (bool_decide_eq_false_2 (is_Some (waitingForPeer l)))
    by (done || rewrite Hp; by intros []). cbn [orb mbind outcome_bind].
  inversion Hn as [|? ? H1 H2]; subst. rewrite try_all_ok; [|done|done|].
  2:{ intros p Hin Hw. apply (Hd p); [by right|]. apply Hsub. done. }
  cbn [mbind outcome_bind]. unfold succeededTiming, failedTiming, occupyLayer, schedule. simpl.
  rewrite Hp, He. rewrite (proj2 (Z.leb_le _ _)), (proj2 (Z.eqb_neq _ 0)) by lia.
  unfold after_send. destruct l, (ok snd); simpl in *; subst; done.
Qed.

Lemma elem_of_waiting l p : p ∈ waitingForLayer l -> p ∈ waiting l.
Proof. intros H. unfold waiting. apply elem_of_app. by left. Qed.

(** The layer after a retry, and that the ports are accounted for. *)
Lemma retryWaiting_ok now edge again p rest l :
  waitingForLayer l = p :: rest -> state l = IDLE -> waitingForPeer l = None -> releaseEvent l = None ->
  NoDup (p :: rest) -> again_ok now edge (Some p) (p :: rest) again ->
  exists l', retryWaiting now edge again l = Ok l' /\ state l' = BUSY /\
    (exists t, releaseEvent l' = Some t /\ now <= t) /\ NoDup (waiting l') /\ retries l' = p :: retries l /\
    waiting l' ≡ₚ rest ++ again_refusals (Some p) again.
Proof.
  intros Hw Hs Hp He Hn (Hedge & Hedge0 & Ha). unfold retryWaiting. rewrite Hw, (bool_decide_eq_true_2 (state l = IDLE)) by done. cbn [ensure mbind outcome_bind].
  set (l1 := l <| state := RETRY |> <| waitingForLayer := rest |> <| retries ::= cons p |>).
  inversion Hn as [|? ? Hp1 Hn1]; subst. destruct again as [snd|].
  - rewrite (send_mine now p snd l1 (filter (fun q => q <> p) (p :: rest))); [|done|done|done|done|].
    2:{ intros q Hq. simpl in Hq. apply list_elem_of_filter. split; [|by right]. intros ->. done. }
    cbn [mbind outcome_bind]. eexists. split; [reflexivity|]. destruct Ha as (Hd1 & Hd2 & Hb & _).
    inversion Hd1 as [|? ? Hpi Hni]; subst.
    assert (forall q, q ∈ inner snd -> q ∉ rest) as Hir.
    { intros q Hq Hr. apply (Hd2 q); [by right|]. apply list_elem_of_filter. split; [intros ->; done|by right]. }
    split; [done|]. split; [by exists (busy_time snd)|]. simpl. split; [|split; [done|]].
    + unfold waiting. simpl. rewrite <- app_assoc. apply NoDup_app. split; [done|]. split.
      * intros q Hq. rewrite elem_of_app. intros [Hi|Hi]; [by apply (Hir q)|].
        destruct (ok snd); simpl in Hi; [by apply not_elem_of_nil in Hi|]. apply list_elem_of_singleton in Hi as ->. done.
      * destruct (ok snd); simpl; [by rewrite app_nil_r|]. rewrite Permutation_app_comm. by constructor.
    + unfold waiting. simpl. rewrite <- app_assoc. by destruct (ok snd).
  - cbn [mbind outcome_bind]. simpl. unfold occupyLayer, schedule. simpl. rewrite He.
    rewrite (proj2 (Z.leb_le _ _)), (proj2 (Z.eqb_neq _ 0)) by lia. cbn [negb ensure mbind outcome_bind].
    eexists. split; [reflexivity|]. split; [done|]. split; [by exists edge|]. unfold waiting. simpl. rewrite Hp, !app_nil_r. done.
Qed.

Lemma waiting_idle l : waitingForPeer l = None -> waiting l = waitingForLayer l.
Proof. intros H. unfold waiting. rewrite H. apply app_nil_r. Qed.

Lemma send_inv now refused src snd l :
  inv now refused l -> sending_ok now src (waiting l) snd ->
  exists r l', act now (Send src snd) l = Ok (r, l') /\ inv now (r ++ refused) l'.
Proof.
  intros [Hs Hn Hi Ha] Hok. simpl. pose proof Hok as (Hd1 & Hd2 & Hb & Hb0). inversion Hd1 as [|? ? Hsi Hni]; subst.
  destruct (bool_decide (state l = BUSY) || bool_decide (is_Some (waitingForPeer l))) eqn:Eb.
  - unfold send, tryTiming. rewrite Eb, (bool_decide_eq_false_2 (src ∈ waitingForLayer l)).
    2:{ intros H%elem_of_waiting. apply (Hd2 src); [left|done]. }
    cbn [negb ensure mbind outcome_bind refusals]. eexists _, _. split; [reflexivity|].
    assert (waiting (l <| waitingForLayer ::= (fun w => w ++ [src]) |>) ≡ₚ src :: waiting l) as Ew
      by (unfold waiting; simpl; rewrite <- app_assoc; simpl; by rewrite <- Permutation_middle).
    split; try done.
    + rewrite Ew. constructor; [apply Hd2; left|done].
    + simpl. intros E1 E2. exfalso. rewrite E1, E2 in Eb. done.
    + rewrite Ew, Ha. simpl. by rewrite <- Permutation_middle.
  - apply orb_false_iff in Eb as [Eb1%bool_decide_eq_false Eb2%bool_decide_eq_false].
    assert (waitingForPeer l = None) as Hp by (destruct (waitingForPeer l); [destruct Eb2; eauto|done]).
    destruct Hs as [[Hs He]|[Hs _]]; [|done]. specialize (Hi Hs Hp).
    rewrite (send_mine now src snd l (waiting l)); [|done|done|done|done|intros p; apply elem_of_waiting].
    cbn [negb mbind outcome_bind refusals]. eexists _, _. split; [reflexivity|].
    rewrite (waiting_idle l Hp), Hi in Hn, Ha. rewrite app_nil_r in Ha.
    assert (waiting (after_send now src snd l) = inner snd ++ (if ok snd then [] else [src])) as Ew
      by (unfold waiting; simpl; rewrite Hi; simpl; by destruct (ok snd)).
    split; [right; split; [done|by exists (busy_time snd)]| |done|].
    + rewrite Ew. destruct (ok snd); [by rewrite app_nil_r|]. rewrite Permutation_app_comm. by constructor.
    + rewrite Ew, Ha. simpl. by rewrite Permutation_app_comm.
Qed.

Lemma perm_retry {A} (R T W : list A) p : R ++ T ++ p :: W ≡ₚ (p :: T) ++ W ++ R.
Proof. rewrite (Permutation_app_comm R), <- app_assoc. simpl. by rewrite <- Permutation_middle. Qed.

Lemma layer_release_inv now refused edge again l :
  inv now refused l -> allowed now (Release edge again) l ->
  exists r l', act now (Release edge again) l = Ok (r, l') /\ inv now (r ++ refused) l'.
Proof.
  intros [Hs Hn Hi Ha] [He Hg]. destruct Hs as [[_ ?]|[Hs _]]; [congruence|]. cbn [act]. unfold releaseLayer.
  rewrite (bool_decide_eq_true_2 (state _ = BUSY)), (bool_decide_eq_false_2 (is_Some (releaseEvent _))) by (done || by intros []).
  cbn [ensure negb mbind outcome_bind]. set (l1 := l <| releaseEvent := None |> <| state := IDLE |>). cbv zeta.
  change (waitingForLayer l1) with (waitingForLayer l). change (waitingForPeer l1) with (waitingForPeer l).
  assert (forall l', waiting l' = waiting l -> retries l' = retries l -> state l' = IDLE -> releaseEvent l' = None ->
    (waitingForPeer l' = None -> waitingForLayer l' = []) -> inv now refused l') as Hinv.
  { intros l' E1 E2 E3 E4 E5. split; rewrite ?E1, ?E2; auto. }
  destruct (waitingForLayer l) as [|p rest] eqn:Ew.
  - destruct (_ && _); cbn [mbind outcome_bind]; eexists _, _; (split; [reflexivity|]);
      (replace (match waitingForPeer l with None => _ | Some _ => _ end) with (@nil Z) by (by destruct (waitingForPeer l)));
      apply Hinv; simpl; try done; unfold waiting; by rewrite Ew.
  - destruct (waitingForPeer l) as [q|] eqn:Ep; cbn [mbind outcome_bind].
    + eexists _, _. split; [reflexivity|]. apply Hinv; try done. unfold waiting. simpl. by rewrite Ep, Ew.
    + rewrite (waiting_idle l Ep), Ew in Hn, Ha, Hg.
      destruct (retryWaiting_ok now edge again p rest l1)
        as (l' & E & Es & Et & Hn' & Er & Hw'); try done.
      rewrite E. cbn [mbind outcome_bind]. eexists _, l'. split; [reflexivity|].
      split; [by right|done|congruence|]. rewrite Hw', Er, Ha. apply perm_retry.
Qed.

Lemma layer_retry_inv now refused edge again l :
  inv now refused l -> allowed now (PeerRetry edge again) l ->
  exists r l', act now (PeerRetry edge again) l = Ok (r, l') /\ inv now (r ++ refused) l'.
Proof.
  intros [Hs Hn Hi Ha] [[p Hp] Hg]. simpl. unfold recvRetry. rewrite Hp.
  set (l1 := l <| waitingForLayer ::= cons p |> <| waitingForPeer := None |>).
  assert (waiting l ≡ₚ p :: waitingForLayer l) as Ew
    by (unfold waiting; rewrite Hp; simpl; by rewrite Permutation_app_comm).
  rewrite Ew in Hn, Ha. change (state l1) with (state l).
  destruct Hs as [[Hs He]|[Hs He]].
  - rewrite !(decide_True (P := state l = IDLE)) by done.
    destruct (retryWaiting_ok now edge again p (waitingForLayer l) l1) as (l' & E & Es & Et & Hn' & Er & Hw'); try done.
    { rewrite Hp in Hg. destruct Hg as (? & ? & Hg). split_and!; try done. destruct again as [snd|]; [|done].
      destruct Hg as (G1 & G2 & G3 & G4). split_and!; try done. intros q Hq Hf. apply (G2 q Hq).
      apply list_elem_of_filter in Hf as [? Hf]. apply list_elem_of_filter. split; [done|]. by rewrite Ew. }
    rewrite E. cbn [mbind outcome_bind]. eexists _, l'. split; [reflexivity|]. split; [by right|done|congruence|].
    rewrite Hw', Er, Ha. apply perm_retry.
  - rewrite !(decide_False (P := state l = IDLE)) by congruence.
    rewrite (bool_decide_eq_true_2 (state l = BUSY)) by done. cbn [ensure mbind outcome_bind].
    eexists _, l1. split; [reflexivity|]. assert (waiting l1 = p :: waitingForLayer l) as Ew1 by apply app_nil_r.
    split; rewrite ?Ew1; try done; [by right|]. simpl. rewrite Hs. done.
Qed.

Lemma act_inv now refused a l :
  inv now refused l -> allowed now a l -> exists r l', act now a l = Ok (r, l') /\ inv now (r ++ refused) l'.
Proof.
  intros Hi Ha. destruct a; [by apply send_inv|by apply layer_release_inv|by apply layer_retry_inv|].
  simpl. eexists _, _. split; [reflexivity|]. unfold drain. destruct (decide _); [done|]. destruct Hi. by split.
Qed.

Lemma layer_reach_inv now refused l : reach now refused l -> inv now refused l.
Proof.
  induction 1 as [|now now' refused l _ [Hs Hn Hi Ha] Hle Ht|now refused l a r l' _ IH Hal E].
  - split; try done; [by left|]. constructor.
  - split; try done. destruct Hs as [?|(? & t & E & _)]; [by left|right]. split; [done|]. exists t. split; [done|]. by apply Ht.
  - destruct (act_inv _ _ _ _ IH Hal) as (r' & l'' & E' & Hi). congruence.
Qed.

(** C15: the arbiter of a crossbar destination serves everybody. Whatever ports
    send, whatever the destination refuses and whenever it asks for a retry, as
    long as a port that waits for a retry does not send: no assertion fails; the
    ports that were refused are, one for one, those that were told to retry and
    those that wait; no port waits twice; and when a port waits, the event that
    releases the layer is scheduled or the destination still owes a retry, and
    the release tells the first one in the queue to retry. *)
Theorem layer_strands_nobody now refused l :
  reach now refused l ->
  refused ≡ₚ retries l ++ waiting l /\ NoDup (waiting l) /\
  (waiting l <> [] -> (exists t, releaseEvent l = Some t /\ now <= t) \/ is_Some (waitingForPeer l)) /\
  (forall a, allowed now a l -> exists r l', act now a l = Ok (r, l')) /\
  (forall edge again p rest r l', waitingForLayer l = p :: rest -> waitingForPeer l = None ->
     allowed now (Release edge again) l -> act now (Release edge again) l = Ok (r, l') ->
     retries l' = p :: retries l).
Proof.
  intros Hr. pose proof (layer_reach_inv _ _ _ Hr) as Hinv. pose proof Hinv as [Hs Hn Hi Ha]. split_and!; try done.
  - intros Hw. destruct (waitingForPeer l) as [q|] eqn:Ep; [by right; eauto|left].
    destruct Hs as [[Hs _]|[_ ?]]; [|done]. destruct Hw. rewrite (waiting_idle l Ep). by apply Hi.
  - intros a Hal. destruct (act_inv _ _ _ _ Hinv Hal) as (r & l' & E & _). eauto.
  - intros edge again p rest r l' Ew Ep [He Hg] E. cbn [act] in E. apply bind_ok in E as (l2 & E & [= _ <-]).
    unfold releaseLayer in E. do 2 apply bind_ok in E as (? & _ & E). cbv zeta in E.
    set (l1 := l <| releaseEvent := None |> <| state := IDLE |>) in E. change (waitingForLayer l1) with (waitingForLayer l) in E.
    change (waitingForPeer l1) with (waitingForPeer l) in E. rewrite Ew, Ep in E.
    rewrite (waiting_idle l Ep), Ew in Hn, Hg.
    destruct (retryWaiting_ok now edge again p rest l1) as (l' & E' & _ & _ & _ & Er & _); try done.
    rewrite E' in E. by injection E as <-.
Qed.

(** Port 1 takes the layer until tick 5, port 2 is refused and waits. *)
Definition example_layer : Layer := MkLayer BUSY false 0 [2] None (Some 5) 4 [].

Lemma layer_strands_nobody_witness :
  reach 5 [2] example_layer /\
  exists l', act 5 (Release 10 (Some (MkSending [1] false 9))) example_layer = Ok ([1; 2], l') /\ retries l' = [2].
Proof.
  assert (reach 5 [2] example_layer) as Hr.
  { assert (reach 1 [] Layer_new) as H1 by (eapply reach_time; [apply reach_new|lia|discriminate]).
    eapply (reach_act 1 [] _ (Send 1 (MkSending [] true 5)) []) in H1; [|split_and!|reflexivity];
      [|apply NoDup_singleton|intros p _ H; by apply not_elem_of_nil in H|simpl; lia|simpl; lia].
    eapply (reach_act 1 _ _ (Send 2 (MkSending [] true 5)) [2]) in H1; [|split_and!|reflexivity];
      [|apply NoDup_singleton|intros p _ H; by apply not_elem_of_nil in H|simpl; lia|simpl; lia].
    eapply reach_time; [exact H1|lia|]. intros t [= <-]. lia. }
  split; [exact Hr|]. destruct (layer_strands_nobody 5 [2] example_layer Hr) as (_ & _ & _ & Hall & Hnext).
  assert (allowed 5 (Release 10 (Some (MkSending [1] false 9))) example_layer) as Hal.
  { split; [reflexivity|]. split_and!; [lia|lia|]. split_and!; [|intros p _ H; by apply not_elem_of_nil in H|simpl; lia|simpl; lia].
    apply NoDup_cons_2; [|apply NoDup_singleton]. intros H. by apply list_elem_of_singleton in H. }
  destruct (Hall _ Hal) as (r & l' & E). exists l'. split.
  - rewrite E. vm_compute in E. injection E as <- _. reflexivity.
  - apply (Hnext 10 (Some (MkSending [1] false 9)) 2 [] r l'); [reflexivity|reflexivity|exact Hal|exact E].
Defined.

End Layer.
