(* ===== verification/SnoopFilter.v ===== *)
(** The snoop filter of a coherent crossbar: [SnoopFilter] of mem/snoop_filter.hh
    and mem/snoop_filter.cc.

    For every line the filter keeps two bit masks over the ports above: who has
    asked for the line, and who may hold it. *)

From S2P Require Import Prelude IntMath Request MemCmd Packet.
From stdpp Require Import gmap.
Local Open Scope Z_scope.

Module SnoopFilter.

Record SnoopItem := MkItem { requested : Z; holder : Z }.
#[global] Instance eta_SnoopItem : Eta SnoopItem := fun i => MkItem (requested i) (holder i).

(** [slavePorts] has the identifiers of the ports. *)
Record SnoopFilter := MkFilter {
  cachedLocations : gmap Z SnoopItem;
  slavePorts : list Z;
  linesize : Z;
  lookupLatency : Z;
  totRequests : Z;
  hitSingleRequests : Z;
  hitMultiRequests : Z;
  totSnoops : Z;
  hitSingleSnoops : Z;
  hitMultiSnoops : Z;
}.
#[global] Instance eta_SnoopFilter : Eta SnoopFilter := fun f =>
  MkFilter (cachedLocations f) (slavePorts f) (linesize f) (lookupLatency f) (totRequests f)
    (hitSingleRequests f) (hitMultiRequests f) (totSnoops f) (hitSingleSnoops f) (hitMultiSnoops f).

Definition SnoopFilter_new (line lat : Z) : SnoopFilter := MkFilter ∅ [] line lat 0 0 0 0 0 0.

Definition setSlavePorts (ports : list Z) (f : SnoopFilter) : SnoopFilter := f <| slavePorts := ports |>.

Definition portToMask (port : Z) : outcome Z :=
  _ ← ensure AssertFailed (negb (port =? -1));
  _ ← ensure AssertFailed (port <? 64);
  Ok (Z.shiftl 1 port).

Fixpoint mask_loop (port_mask : Z) (ports : list Z) : outcome (list Z) :=
  match ports with
  | [] => Ok []
  | p :: ports =>
      m ← portToMask p;
      rest ← mask_loop port_mask ports;
      Ok (if any_set port_mask m then p :: rest else rest)
  end.
Definition maskToPortList (port_mask : Z) (f : SnoopFilter) : outcome (list Z) :=
  mask_loop port_mask (slavePorts f).

(** [addr & ~(linesize - 1)], where [linesize] is an [unsigned] and the mask is
    computed at 32 bits. *)
Definition line_addr (addr : Z) (f : SnoopFilter) : Z := Z.land addr (unot 32 (u32 (linesize f - 1))).

(** [cachedLocations[line]], which creates the entry. *)
Definition item (line : Z) (f : SnoopFilter) : SnoopItem := default (MkItem 0 0) (cachedLocations f !! line).
Definition set_item (line : Z) (i : SnoopItem) (f : SnoopFilter) : SnoopFilter :=
  f <| cachedLocations ::= <[line := i]> |>.

Definition lookupRequest (cpkt : Packet.Packet) (slave_port : Z) (f : SnoopFilter)
  : outcome (list Z * Z * SnoopFilter) :=
  a ← Packet.getAddr cpkt;
  let line := line_addr a f in
  req_port ← portToMask slave_port;
  let is_hit := bool_decide (is_Some (cachedLocations f !! line)) in
  let sf_item := item line f in
  let interested := Z.lor (holder sf_item) (requested sf_item) in
  let f := f <| totRequests ::= Z.succ |> in
  let f := if is_hit then
             if BitField.isPow2 64 interested then f <| hitSingleRequests ::= Z.succ |>
             else f <| hitMultiRequests ::= Z.succ |>
           else f in
  sf_item ←
    (if negb (Request.isUncacheable (Packet.req cpkt)) && Packet.needsResponse cpkt then
       if negb (Packet.memInhibitAsserted cpkt) then
         _ ← ensure PanicError (negb (any_set (requested sf_item) req_port));
         Ok (sf_item <| requested ::= (fun r => Z.lor r req_port) |>)
       else
         _ ← ensure PanicError (any_set (holder sf_item) req_port);
         Ok sf_item
     else Ok sf_item);
  let f := set_item line sf_item f in
  ports ← maskToPortList (Z.land interested (unot 64 req_port)) f;
  Ok (ports, lookupLatency f, f).

Definition updateRequest (cpkt : Packet.Packet) (slave_port : Z) (will_retry : bool) (f : SnoopFilter)
  : outcome SnoopFilter :=
  if Request.isUncacheable (Packet.req cpkt) then Ok f
  else
    a ← Packet.getAddr cpkt;
    let line := line_addr a f in
    req_port ← portToMask slave_port;
    let sf_item := item line f in
    if will_retry then
      Ok (set_item line (sf_item <| requested ::= (fun r => Z.land r (unot 64 req_port)) |>) f)
    else if negb (Packet.needsResponse cpkt) then
      if decide (Packet.cmd cpkt = MemCmd.Writeback) then
        _ ← ensure PanicError (negb (any_set (requested sf_item) req_port));
        _ ← ensure PanicError (any_set (holder sf_item) req_port);
        Ok (set_item line (sf_item <| holder ::= (fun h => Z.land h (unot 64 req_port)) |>) f)
      else Fail AssertFailed
    else Ok (set_item line sf_item f).

Definition lookupSnoop (cpkt : Packet.Packet) (f : SnoopFilter) : outcome (list Z * Z * SnoopFilter) :=
  _ ← ensure AssertFailed (Packet.isRequest cpkt);
  a ← Packet.getAddr cpkt;
  let line := line_addr a f in
  let is_hit := bool_decide (is_Some (cachedLocations f !! line)) in
  let sf_item := item line f in
  let interested := Z.lor (holder sf_item) (requested sf_item) in
  let f := f <| totSnoops ::= Z.succ |> in
  let f := if is_hit then
             if BitField.isPow2 64 interested then f <| hitSingleSnoops ::= Z.succ |>
             else f <| hitMultiSnoops ::= Z.succ |>
           else f in
  _ ← ensure AssertFailed (bool_decide (Packet.isInvalidate cpkt = Packet.needsExclusive cpkt));
  let sf_item := if Packet.isInvalidate cpkt && (requested sf_item =? 0)
                 then sf_item <| holder := 0 |> else sf_item in
  let f := set_item line sf_item f in
  ports ← maskToPortList interested f;
  Ok (ports, lookupLatency f, f).

Definition updateSnoopResponse (cpkt : Packet.Packet) (rsp_port req_port : Z) (f : SnoopFilter)
  : outcome SnoopFilter :=
  _ ← ensure AssertFailed (Packet.isResponse cpkt);
  _ ← ensure AssertFailed (Packet.memInhibitAsserted cpkt);
  if Request.isUncacheable (Packet.req cpkt) then Ok f
  else
    a ← Packet.getAddr cpkt;
    let line := line_addr a f in
    rsp_mask ← portToMask rsp_port;
    req_mask ← portToMask req_port;
    let sf_item := item line f in
    _ ← ensure PanicError (any_set (holder sf_item) rsp_mask);
    _ ← ensure PanicError (any_set (requested sf_item) req_mask);
    let sf_item := if Packet.needsExclusive cpkt || negb (Packet.sharedAsserted cpkt)
                   then sf_item <| holder := 0 |> else sf_item in
    _ ← ensure AssertFailed (negb (bool_decide (Packet.cmd cpkt = MemCmd.Writeback)));
    let sf_item := sf_item <| holder ::= (fun h => Z.lor h req_mask) |>
                           <| requested ::= (fun r => Z.land r (unot 64 req_mask)) |> in
    Ok (set_item line sf_item f).

Definition updateSnoopForward (cpkt : Packet.Packet) (rsp_port : Z) (f : SnoopFilter) : outcome SnoopFilter :=
  a ← Packet.getAddr cpkt;
  let line := line_addr a f in
  let sf_item := item line f in
  _ ← portToMask rsp_port;
  _ ← ensure AssertFailed (Packet.isResponse cpkt);
  _ ← ensure AssertFailed (Packet.memInhibitAsserted cpkt);
  Ok (set_item line (if Packet.needsExclusive cpkt then sf_item <| holder := 0 |> else sf_item) f).

Definition updateResponse (cpkt : Packet.Packet) (slave_port : Z) (f : SnoopFilter) : outcome SnoopFilter :=
  _ ← ensure AssertFailed (Packet.isResponse cpkt);
  if Request.isUncacheable (Packet.req cpkt) then Ok f
  else
    a ← Packet.getAddr cpkt;
    let line := line_addr a f in
    slave_mask ← portToMask slave_port;
    let sf_item := item line f in
    _ ← ensure PanicError (any_set (requested sf_item) slave_mask);
    let sf_item := if Packet.needsExclusive cpkt || negb (Packet.sharedAsserted cpkt)
                   then sf_item <| holder := 0 |> else sf_item in
    let sf_item := sf_item <| holder ::= (fun h => Z.lor h slave_mask) |>
                           <| requested ::= (fun r => Z.land r (unot 64 slave_mask)) |> in
    Ok (set_item line sf_item f).

(** ** The entry of a line

    [n] ports above, lines of [2^k] bytes below 4 GiB. *)

Section tracking.
Context (n : nat) (k : Z) (Hn : Z.of_nat n <= 64) (Hk : 0 <= k < 32).

Record wf (f : SnoopFilter) : Prop := {
  wf_line : linesize f = 2 ^ k;
  wf_ports : slavePorts f = seqZ 0 (Z.of_nat n);
}.

(** The entries other than that of the line [L] are the same. *)
Definition others_same (L : Z) (f f' : SnoopFilter) : Prop :=
  forall a, a <> L * 2 ^ k -> item a f' = item a f.

Lemma line_addr_ok f L : wf f -> 0 <= L * 2 ^ k < 2 ^ 32 -> line_addr (L * 2 ^ k) f = L * 2 ^ k.
Proof.
  intros [El _] HL. unfold line_addr. rewrite El. pose proof (pow2_pos k ltac:(lia)).
  pose proof (Z.pow_lt_mono_r 2 k 32 ltac:(lia) ltac:(lia)).
  rewrite uwrap_small by (split; lia). rewrite land_not_mask by (try split; lia). rewrite Z.mod_mul by lia. lia.
Qed.

Lemma portToMask_ok (i : nat) : (i < n)%nat -> portToMask (Z.of_nat i) = Ok (2 ^ Z.of_nat i).
Proof.
  intros Hi. unfold portToMask. rewrite (proj2 (Z.eqb_neq _ _)) by lia. cbn [mbind outcome_bind ensure negb].
  rewrite (proj2 (Z.ltb_lt _ _)) by lia. cbn [mbind outcome_bind ensure]. by rewrite Z.shiftl_1_l.
Qed.

Lemma mask_loop_ok m ports : Forall (fun p => 0 <= p < 64) ports ->
  mask_loop m ports = Ok (filter (fun p => Z.testbit m p = true) ports).
Proof.
  induction 1 as [|p ports Hp _ IH]; [done|]. cbn [mask_loop]. unfold portToMask.
  rewrite (proj2 (Z.eqb_neq _ _)) by lia. cbn [mbind outcome_bind ensure negb].
  rewrite (proj2 (Z.ltb_lt _ _)) by lia. cbn [mbind outcome_bind ensure]. rewrite IH. cbn [mbind outcome_bind].
  rewrite Z.shiftl_1_l, any_set_pow2, filter_cons by lia. by destruct (Z.testbit m p).
Qed.

Lemma maskToPortList_ok f m : wf f ->
  maskToPortList m f = Ok (filter (fun p => Z.testbit m p = true) (seqZ 0 (Z.of_nat n))).
Proof.
  intros [_ E]. unfold maskToPortList. rewrite E. apply mask_loop_ok. apply Forall_forall. intros p Hp%elem_of_seqZ. lia.
Qed.

Lemma item_set_same a it f : item a (set_item a it f) = it.
Proof. unfold item, set_item. simpl. by rewrite lookup_insert_eq. Qed.
Lemma item_set_other a a' it f : a' <> a -> item a' (set_item a it f) = item a' f.
Proof. intros Hne. unfold item, set_item. simpl. by rewrite lookup_insert_ne. Qed.

Lemma clear_bit m i : 0 <= i < 64 -> 0 <= m < 2 ^ 64 ->
  Z.land m (unot 64 (2 ^ i)) = Z.clearbit m i.
Proof.
  intros Hi Hm. apply Z.bits_inj'. intros j Hj. unfold unot. rewrite Z.land_spec, Z.ldiff_spec, Z.pow2_bits_eqb by lia.
  rewrite Z.clearbit_eqb by lia. destruct (Z.lt_ge_cases j 64); [by rewrite Z.ones_spec_low by lia|].
  by rewrite (in_width_testbit_high 64 m j) by (done || lia).
Qed.

(** The ports to snoop for a request of port [i] when [h] may hold the line. *)
Definition snoop_list (h : Z) (i : nat) : list Z :=
  filter (fun p => Z.testbit h p = true /\ p <> Z.of_nat i) (seqZ 0 (Z.of_nat n)).

Lemma snoop_list_ok h i : (i < n)%nat ->
  filter (fun p => Z.testbit (Z.land h (unot 64 (2 ^ Z.of_nat i))) p = true) (seqZ 0 (Z.of_nat n)) = snoop_list h i.
Proof.
  intros Hi. unfold snoop_list.
  assert (forall p, 0 <= p < Z.of_nat n -> Z.testbit (Z.land h (unot 64 (2 ^ Z.of_nat i))) p = true <->
    Z.testbit h p = true /\ p <> Z.of_nat i) as Hiff.
  { intros p Hp. unfold unot. rewrite Z.land_spec, Z.ldiff_spec, Z.ones_spec_low, Z.pow2_bits_eqb by lia.
    rewrite andb_true_iff. simpl. destruct (Z.eqb_spec (Z.of_nat i) p); naive_solver lia. }
  assert (forall l, Forall (fun p => 0 <= p < Z.of_nat n) l ->
    filter (fun p => Z.testbit (Z.land h (unot 64 (2 ^ Z.of_nat i))) p = true) l =
    filter (fun p => Z.testbit h p = true /\ p <> Z.of_nat i) l) as Hl.
  { induction 1 as [|p l Hp _ IH]; [done|]. rewrite !filter_cons, IH. pose proof (Hiff p Hp).
    destruct (decide _), (decide (Z.testbit h p = true /\ _)); tauto. }
  apply Hl, Forall_forall. intros p Hp%elem_of_seqZ. lia.
Qed.

Lemma lookupRequest_ok f pkt (i : nat) L h :
  wf f -> (i < n)%nat -> 0 <= L * 2 ^ k < 2 ^ 32 -> item (L * 2 ^ k) f = MkItem 0 h ->
  Packet.getAddr pkt = Ok (L * 2 ^ k) -> Packet.memInhibitAsserted pkt = false ->
  let asks := negb (Request.isUncacheable (Packet.req pkt)) && Packet.needsResponse pkt in
  exists f', lookupRequest pkt (Z.of_nat i) f = Ok (snoop_list h i, lookupLatency f, f') /\ wf f' /\
    item (L * 2 ^ k) f' = MkItem (if asks then 2 ^ Z.of_nat i else 0) h /\ others_same L f f'.
Proof.
  intros Hf Hi HL Hit Ha Hinh asks. unfold lookupRequest. rewrite Ha. cbn [mbind outcome_bind].
  rewrite line_addr_ok, portToMask_ok by done. cbn [mbind outcome_bind]. rewrite Hit, Hinh. cbv zeta. cbn [requested holder negb].
  fold asks. rewrite Z.lor_0_r.
  set (f1 := if bool_decide _ then _ else _).
  assert (wf f1 /\ lookupLatency f1 = lookupLatency f /\ forall a, item a f1 = item a f) as (Hf1 & El & Hi1).
  { destruct Hf. unfold f1. destruct (bool_decide _); [destruct (BitField.isPow2 64 h)|]; done. }
  assert ((if asks then
             _ ← ensure PanicError (negb (any_set 0 (2 ^ Z.of_nat i)));
             Ok ((MkItem 0 h) <| requested ::= (fun r => Z.lor r (2 ^ Z.of_nat i)) |>)
           else Ok (MkItem 0 h)) = Ok (MkItem (if asks then 2 ^ Z.of_nat i else 0) h)) as ->.
  { destruct asks; [|done]. unfold any_set. rewrite Z.land_0_l. done. }
  cbn [mbind outcome_bind]. rewrite maskToPortList_ok by (destruct Hf1; by split). rewrite snoop_list_ok by done.
  cbn [mbind outcome_bind]. eexists. split; [|split; [|split]].
  - change (lookupLatency (set_item _ _ f1)) with (lookupLatency f1). by rewrite El.
  - destruct Hf1. by split.
  - apply item_set_same.
  - intros a Hne. by rewrite item_set_other, Hi1.
Qed.

(** A response for port [i] ends its request; [p] is the port that supplied the
    line, if one did. *)
Definition responded_item (excl : bool) (h : Z) (i : nat) : SnoopItem :=
  MkItem 0 (Z.lor (if excl then 0 else h) (2 ^ Z.of_nat i)).

Lemma request_done (i : nat) : (i < n)%nat -> Z.land (2 ^ Z.of_nat i) (unot 64 (2 ^ Z.of_nat i)) = 0.
Proof.
  intros Hi. rewrite clear_bit by (try split; try apply Z.pow_nonneg; try apply Z.pow_lt_mono_r; lia).
  apply Z.bits_inj'. intros j Hj. rewrite Z.clearbit_eqb, Z.pow2_bits_eqb, Z.bits_0 by lia. by destruct (_ =? _).
Qed.

Section response.
Context (f : SnoopFilter) (pkt : Packet.Packet) (i : nat) (L h : Z).
Context (Hf : wf f) (Hi : (i < n)%nat) (HL : 0 <= L * 2 ^ k < 2 ^ 32).
Context (Hit : item (L * 2 ^ k) f = MkItem (2 ^ Z.of_nat i) h).
Context (Ha : Packet.getAddr pkt = Ok (L * 2 ^ k)) (Hr : Packet.isResponse pkt = true).
Context (Hc : Request.isUncacheable (Packet.req pkt) = false).
Definition exclusive : bool := Packet.needsExclusive pkt || negb (Packet.sharedAsserted pkt).

Lemma updateResponse_ok :
  exists f', updateResponse pkt (Z.of_nat i) f = Ok f' /\ wf f' /\
    item (L * 2 ^ k) f' = responded_item exclusive h i /\ others_same L f f'.
Proof.
  unfold updateResponse. rewrite Hr, Hc, Ha. cbn [mbind outcome_bind ensure].
  rewrite line_addr_ok, portToMask_ok by done. cbn [mbind outcome_bind]. rewrite Hit. cbn [requested holder].
  rewrite any_set_pow2, Z.pow2_bits_true by lia. cbn [mbind outcome_bind ensure]. fold exclusive.
  eexists. split; [reflexivity|]. split; [destruct Hf; by split|]. rewrite item_set_same. split.
  - unfold responded_item. destruct exclusive; simpl; by rewrite request_done.
  - intros a Hne. by apply item_set_other.
Qed.

Lemma updateSnoopResponse_ok (p : nat) :
  (p < n)%nat -> Z.testbit h (Z.of_nat p) = true -> Packet.memInhibitAsserted pkt = true ->
  Packet.cmd pkt <> MemCmd.Writeback ->
  exists f', updateSnoopResponse pkt (Z.of_nat p) (Z.of_nat i) f = Ok f' /\ wf f' /\
    item (L * 2 ^ k) f' = responded_item exclusive h i /\ others_same L f f'.
Proof.
  intros Hp Hb Hin Hw. unfold updateSnoopResponse. rewrite Hr, Hin, Hc, Ha. cbn [mbind outcome_bind ensure].
  rewrite line_addr_ok, !portToMask_ok by done. cbn [mbind outcome_bind]. rewrite Hit. cbn [requested holder].
  rewrite !any_set_pow2, Hb, Z.pow2_bits_true by lia. cbn [mbind outcome_bind ensure]. fold exclusive.
  rewrite bool_decide_eq_false_2 by done. cbn [mbind outcome_bind ensure negb].
  eexists. split; [reflexivity|]. split; [destruct Hf; by split|]. rewrite item_set_same. split.
  - unfold responded_item. destruct exclusive; simpl; by rewrite request_done.
  - intros a Hne. by apply item_set_other.
Qed.

End response.
End tracking.

(** Addresses that differ by a multiple of 4 GiB have one entry. *)
Lemma line_addr_alias a c f : 0 <= a -> line_addr (a + 2 ^ 32 * c) f = line_addr a f.
Proof.
  intros Ha. unfold line_addr. apply Z.bits_inj'. intros i Hi. rewrite !Z.land_spec. unfold unot. rewrite Z.ldiff_spec.
  destruct (Z.lt_ge_cases i 32) as [H|H]; [|rewrite (Z.ones_spec_high 32 i) by lia; by rewrite !andb_false_r].
  f_equal. rewrite <- (Z.mod_pow2_bits_low _ 32 i), <- (Z.mod_pow2_bits_low a 32 i) by lia.
  by rewrite Z.mul_comm, Z.mod_add by lia.
Qed.

(** C30: the filter confuses lines that lie a multiple of 4 GiB apart, since the mask
    of the line address is computed in an [unsigned]: if the filter knows that
    port [i] may hold the line of address [a], and port [j] gets a different line
    exclusively whose address is equal modulo [2^32], the filter forgets port
    [i]: a later request of port [j] for [a] is not shown to port [i], though
    port [i] still holds the line. *)
Theorem filter_forgets_aliased_holder n k f (i j : nat) a c pkt f' q ports lat f'' :
  Z.of_nat n <= 64 -> wf n k f -> (i < n)%nat -> (j < n)%nat -> i <> j -> 0 <= a -> 1 <= c ->
  item (line_addr a f) f = MkItem (2 ^ Z.of_nat j) (2 ^ Z.of_nat i) ->
  Packet.getAddr pkt = Ok (a + 2 ^ 32 * c) -> Packet.needsExclusive pkt = true -> Request.isUncacheable (Packet.req pkt) = false ->
  updateResponse pkt (Z.of_nat j) f = Ok f' ->
  Packet.getAddr q = Ok a -> lookupRequest q (Z.of_nat j) f' = Ok (ports, lat, f'') ->
  Z.of_nat i ∉ ports.
Proof.
  intros Hn Hf Hi Hj Hij Ha _ Hit Had Hx Hc E Haq Eq.
  assert (wf n k f' /\ item (line_addr a f') f' = MkItem 0 (2 ^ Z.of_nat j)) as [Hf' Hit'].
  { unfold updateResponse in E. apply bind_ok in E as ([] & _ & E). rewrite Hc, Had in E. cbn [mbind outcome_bind] in E.
    rewrite (portToMask_ok n Hn j Hj) in E. cbn [mbind outcome_bind] in E. rewrite (line_addr_alias a c f Ha), Hit in E.
    apply bind_ok in E as ([] & _ & [= <-]). rewrite Hx. cbn [orb requested holder]. split; [destruct Hf; by split|].
    change (line_addr a (set_item _ _ f)) with (line_addr a f). rewrite item_set_same. simpl. f_equal. by apply (request_done n). }
  unfold lookupRequest in Eq. rewrite Haq in Eq. cbn [mbind outcome_bind] in Eq. rewrite (portToMask_ok n Hn j Hj), Hit' in Eq.
  cbn [mbind outcome_bind requested holder] in Eq. apply bind_ok in Eq as (it & _ & Eq). apply bind_ok in Eq as (l & El & [= <- _ _]).
  rewrite (maskToPortList_ok n k Hn) in El.
  - injection El as <-. intros [Hb _]%list_elem_of_filter. rewrite Z.lor_0_r, Z.land_spec, Z.pow2_bits_eqb in Hb by lia.
    apply andb_true_iff in Hb as [Hb _]. apply Z.eqb_eq in Hb. lia.
  - destruct Hf'. destruct (bool_decide _); [destruct (BitField.isPow2 _ _)|]; by split.
Qed.

(** Port 0 has line 0, port 1 asks for the line 4 GiB above exclusively and then
    for line 0. *)
Definition example_packet (c : MemCmd.Command) (addr : Z) : Packet.Packet :=
  Packet.MkPacket (Z.lor Packet.VALID_ADDR Packet.VALID_SIZE) c Request.Request0 None addr false 64 MemCmd.InvalidCmd [] 0 0 [].
Definition example_filter : outcome SnoopFilter :=
  let f := setSlavePorts [0; 1] (SnoopFilter_new 64 1) in
  '(_, _, f) ← lookupRequest (example_packet MemCmd.ReadReq 0) 0 f;
  f ← updateResponse (example_packet MemCmd.ReadResp 0) 0 f;
  '(_, _, f) ← lookupRequest (example_packet MemCmd.ReadExReq (2 ^ 32)) 1 f;
  Ok f.

Lemma filter_forgets_aliased_holder_witness :
  exists f f' lat f'' ports, example_filter = Ok f /\ updateResponse (example_packet MemCmd.ReadExResp (2 ^ 32)) 1 f = Ok f' /\
    lookupRequest (example_packet MemCmd.ReadExReq 0) 1 f' = Ok (ports, lat, f'') /\ 0 ∉ ports.
Proof.
  destruct example_filter as [f|] eqn:E; [|vm_compute in E; discriminate].
  destruct (updateResponse (example_packet MemCmd.ReadExResp (2 ^ 32)) 1 f) as [f'|] eqn:E1;
    [|vm_compute in E; injection E as <-; vm_compute in E1; discriminate].
  destruct (lookupRequest (example_packet MemCmd.ReadExReq 0) 1 f') as [[[ports lat] f'']|] eqn:E2;
    [|vm_compute in E; injection E as <-; vm_compute in E1; injection E1 as <-; vm_compute in E2; discriminate].
  exists f, f', lat, f'', ports. split; [reflexivity|]. split; [exact E1|]. split; [exact E2|].
  apply (filter_forgets_aliased_holder 2 6 f 0 1 0 1 (example_packet MemCmd.ReadExResp (2 ^ 32)) f' (example_packet MemCmd.ReadExReq 0) ports lat f'');
    try lia; try exact E1; try exact E2; try (vm_compute; reflexivity).
  - vm_compute in E. injection E as <-. split; vm_compute; reflexivity.
  - vm_compute in E. injection E as <-. vm_compute. reflexivity.
Defined.

End SnoopFilter.
