(* ===== verification/Blk.v ===== *)
(** Cache blocks: mem/cache/blk.hh and the printing wrapper of blk.cc.

    A block is a record of its fields. [data], a pointer into the array that the
    tag store owns, is the list of the block's bytes. The load-locked
    reservations are a list, the most recent first. *)

From Stdlib Require Import Ascii String.
From S2P Require Import Prelude IntMath Request MemCmd Packet.
Local Open Scope Z_scope.

Module Blk.

Definition BlkValid : Z := 0x01.
Definition BlkWritable : Z := 0x02.
Definition BlkReadable : Z := 0x04.
Definition BlkDirty : Z := 0x08.
Definition BlkReferenced : Z := 0x10.
Definition BlkHWPrefetched : Z := 0x20.
Definition BlkSecure : Z := 0x40.

(** A load-locked reservation: the context and the range of addresses. *)
Record Lock := MkLock {
  contextId : Z;
  lowAddr : Z;
  highAddr : Z;
}.

(** [req_low] and [req_high]. *)
Definition req_range (req : Request.Request) : outcome (Z * Z) :=
  req_low ← Request.getPaddr req;
  n ← Request.getSize req;
  Ok (req_low, u64 (req_low + n - 1)).

Definition matchesContext (l : Lock) (req : Request.Request) : outcome bool :=
  '(req_low, req_high) ← req_range req;
  c ← Request.contextId req;
  Ok ((contextId l =? c) && (req_low >=? lowAddr l) && (req_high <=? highAddr l)).

Definition overlapping (l : Lock) (req : Request.Request) : outcome bool :=
  '(req_low, req_high) ← req_range req;
  Ok ((req_low <=? highAddr l) && (req_high >=? lowAddr l)).

(** The constructor [Lock(req)]. *)
Definition Lock_new (req : Request.Request) : outcome Lock :=
  c ← Request.contextId req;
  '(low, high) ← req_range req;
  Ok (MkLock c low high).

Record CacheBlk := MkCacheBlk {
  task_id : Z;
  asid : Z;
  tag : Z;
  data : list Z;
  size : Z;
  status : Z;
  whenReady : Z;
  set : Z;
  isTouched : bool;
  refCount : Z;
  srcMasterId : Z;
  tickInserted : Z;
  lockList : list Lock;
}.

#[global] Instance eta_CacheBlk : Eta CacheBlk := fun b =>
  MkCacheBlk (task_id b) (asid b) (tag b) (data b) (size b) (status b) (whenReady b) (set b)
    (isTouched b) (refCount b) (srcMasterId b) (tickInserted b) (lockList b).

(** The default constructor. *)
Definition CacheBlk0 : CacheBlk :=
  MkCacheBlk Request.TaskId_Unknown (-1) 0 [] 0 0 0 (-1) false 0 Request.invldMasterId 0 [].

(** [operator=]: what is not assigned keeps the left-hand side's value. *)
Definition assign (lhs rhs : CacheBlk) : CacheBlk :=
  lhs <| asid := asid rhs |> <| tag := tag rhs |> <| data := data rhs |>
      <| size := size rhs |> <| status := status rhs |> <| whenReady := whenReady rhs |>
      <| set := set rhs |> <| refCount := refCount rhs |> <| task_id := task_id rhs |>.

Definition isWritable (b : CacheBlk) : bool :=
  let needed_bits := Z.lor BlkWritable BlkValid in
  Z.land (status b) needed_bits =? needed_bits.

Definition isReadable (b : CacheBlk) : bool :=
  let needed_bits := Z.lor BlkReadable BlkValid in
  Z.land (status b) needed_bits =? needed_bits.

Definition isValid (b : CacheBlk) : bool := any_set (status b) BlkValid.
Definition isDirty (b : CacheBlk) : bool := any_set (status b) BlkDirty.
Definition isReferenced (b : CacheBlk) : bool := any_set (status b) BlkReferenced.
Definition wasPrefetched (b : CacheBlk) : bool := any_set (status b) BlkHWPrefetched.
Definition isSecure (b : CacheBlk) : bool := any_set (status b) BlkSecure.

Definition trackLoadLocked (pkt : Packet.Packet) (b : CacheBlk) : outcome CacheBlk :=
  _ ← ensure AssertFailed (Packet.isLLSC pkt);
  l ← Lock_new (Packet.req pkt);
  Ok (b <| lockList ::= cons l |>).

(** The loop of [clearLoadLocks(req)]. *)
Fixpoint erase_overlapping (req : Request.Request) (ls : list Lock) : outcome (list Lock) :=
  match ls with
  | [] => Ok []
  | l :: ls =>
      o ← overlapping l req;
      rest ← erase_overlapping req ls;
      Ok (if o : bool then rest else l :: rest)
  end.

Definition clearLoadLocks (req : option Request.Request) (b : CacheBlk) : outcome CacheBlk :=
  match req with
  | None => Ok (b <| lockList := [] |>)
  | Some r => ls ← erase_overlapping r (lockList b); Ok (b <| lockList := ls |>)
  end.

Definition invalidate (b : CacheBlk) : CacheBlk :=
  b <| status := 0 |> <| isTouched := false |> <| lockList := [] |>.

(** The loop of [checkWrite] that looks for a matching reservation. *)
Fixpoint has_match (req : Request.Request) (ls : list Lock) : outcome bool :=
  match ls with
  | [] => Ok false
  | l :: ls => m ← matchesContext l req; if m : bool then Ok true else has_match req ls
  end.

(** The result is the return value, the packet (whose request has the extra
    data set) and the block. *)
Definition checkWrite (pkt : Packet.Packet) (b : CacheBlk)
  : outcome (bool * Packet.Packet * CacheBlk) :=
  let req := Packet.req pkt in
  if Packet.isLLSC pkt then
    success ← has_match req (lockList b);
    let req' := Request.setExtraData (b2z success) req in
    b' ← clearLoadLocks (Some req') b;
    Ok (success, pkt <| Packet.req := req' |>, b')
  else
    b' ← clearLoadLocks (Some req) b;
    Ok (true, pkt, b').

(** The state letter of [print]. *)
Definition state_char (b : CacheBlk) : ascii :=
  match Z.lor (Z.lor (Z.shiftl (b2z (isWritable b)) 2) (Z.shiftl (b2z (isDirty b)) 1))
              (b2z (isValid b)) with
  | 7 => "M"
  | 3 => "O"
  | 5 => "E"
  | 1 => "S"
  | 0 => "I"
  | _ => "T"
  end%char.

(** [CacheBlkPrintWrapper::print], the four letters. *)
Definition print_wrapper (b : CacheBlk) : list ascii :=
  [if isValid b then "V" else "-"; if isWritable b then "E" else "-";
   if isDirty b then "M" else "-"; if isSecure b then "S" else "-"]%char.

(** ** Reservations

    The specification of the lock list: a reservation made by a load-locked is
    alive until a write touches its range or the line loses its locks. *)

Inductive lock_op :=
  | LoadLocked (pkt : Packet.Packet)
  | Write (pkt : Packet.Packet)
  | ClearAll.

Definition lock_step (op : lock_op) (b : CacheBlk) : outcome CacheBlk :=
  match op with
  | LoadLocked pkt => trackLoadLocked pkt b
  | Write pkt => r ← checkWrite pkt b; Ok r.2
  | ClearAll => clearLoadLocks None b
  end.

Fixpoint lock_run (ops : list lock_op) (b : CacheBlk) : outcome CacheBlk :=
  match ops with
  | [] => Ok b
  | op :: ops => b' ← lock_step op b; lock_run ops b'
  end.

(** The operation ends the reservation [l]. *)
Definition kills (l : Lock) (op : lock_op) : bool :=
  match op with
  | LoadLocked _ => false
  | Write pkt =>
      match overlapping l (Packet.req pkt) with Ok o => o | Fail _ => true end
  | ClearAll => true
  end.

(** [l] was made by an operation of the history and none after it ended it. *)
Definition alive (ops : list lock_op) (l : Lock) : Prop :=
  exists before pkt after, ops = before ++ LoadLocked pkt :: after /\
    Lock_new (Packet.req pkt) = Ok l /\ forall op, In op after -> kills l op = false.

(** ** Lemmas *)

Lemma req_range_setExtraData x req : req_range (Request.setExtraData x req) = req_range req.
Proof.
  unfold req_range, Request.getPaddr, Request.getSize, Request.setExtraData. simpl.
  rewrite (Flags.isSet_set_other _ 7 1), (Flags.isSet_set_other _ 7 0) by lia. done.
Qed.

Lemma erase_overlapping_setExtraData x req ls :
  erase_overlapping (Request.setExtraData x req) ls = erase_overlapping req ls.
Proof.
  induction ls as [|l ls IH]; [done|]. simpl. unfold overlapping.
  by rewrite req_range_setExtraData, IH.
Qed.

(** What is left is what the request does not overlap. *)
Lemma erase_overlapping_In req ls ls' :
  erase_overlapping req ls = Ok ls' ->
  forall l, In l ls' <-> In l ls /\ overlapping l req = Ok false.
Proof.
  revert ls'. induction ls as [|k ls IH]; simpl; intros ls' H l; inv_ok; [naive_solver|].
  match goal with H : erase_overlapping _ _ = _ |- _ => specialize (IH _ H l) end.
  case_match; simpl in *; rewrite IH; split; intuition (subst; congruence).
Qed.

(** The lock list after a write, conditional or not. *)
Lemma checkWrite_locks pkt b r pkt' b' :
  checkWrite pkt b = Ok (r, pkt', b') ->
  erase_overlapping (Packet.req pkt) (lockList b) = Ok (lockList b').
Proof.
  unfold checkWrite. intros H. destruct (Packet.isLLSC pkt); simpl in H; inv_ok; [|done].
  by erewrite <- erase_overlapping_setExtraData.
Qed.

Lemma lock_run_snoc ops op b :
  lock_run (ops ++ [op]) b = (b' ← lock_run ops b; lock_step op b').
Proof.
  revert b. induction ops as [|o ops IH]; intros b; simpl.
  - by destruct (lock_step op b).
  - destruct (lock_step o b); simpl; auto.
Qed.

Lemma alive_snoc ops op l :
  alive (ops ++ [op]) l <->
  (exists pkt, op = LoadLocked pkt /\ Lock_new (Packet.req pkt) = Ok l) \/
  (alive ops l /\ kills l op = false).
Proof.
  split.
  - intros (before & pkt & after & E & Hl & Hk).
    destruct after as [|o after _] using rev_ind.
    + apply app_inj_2 in E as [-> [= ->]]; [|done]. eauto.
    + rewrite app_comm_cons, app_assoc in E. apply app_inj_2 in E as [-> [= ->]]; [|done].
      right. split; [|apply Hk, in_or_app; simpl; auto].
      exists before, pkt, after. split; [done|]. split; [done|].
      intros o' ?. apply Hk, in_or_app. auto.
  - intros [(pkt & -> & Hl) | [(before & pkt & after & -> & Hl & Hk) Ho]].
    + exists ops, pkt, []. naive_solver.
    + exists before, pkt, (after ++ [op]). rewrite <- app_assoc. split; [done|].
      split; [done|]. intros o [?|[<-|[]]]%in_app_or; auto.
Qed.

(** The lock list holds exactly the live reservations. *)
Lemma lockList_alive ops b b' :
  lockList b = [] -> lock_run ops b = Ok b' ->
  forall l, In l (lockList b') <-> alive ops l.
Proof.
  intros Hb. revert b'. induction ops as [|op ops IH] using rev_ind; intros b' H l.
  { simpl in H. inv_ok. rewrite Hb. split; [done|].
    by intros ([|] & ? & ? & [=] & _). }
  rewrite lock_run_snoc in H. inv_ok.
  match goal with H : lock_run _ _ = _ |- _ => specialize (IH _ H) end. rewrite alive_snoc.
  destruct op as [pkt|pkt|]; simpl in H.
  - unfold trackLoadLocked in H. inv_ok. simpl. rewrite IH.
    split; [intros [<- | ?]; eauto | intros [(? & [= <-] & ?) | [? _]]; [left; congruence | auto]].
  - inv_ok. match goal with p : (_ * _)%type |- _ => destruct p as [[r pkt'] b''] end. simpl.
    match goal with E : checkWrite _ _ = _ |- _ => apply checkWrite_locks in E; rename E into Hc end.
    rewrite (erase_overlapping_In _ _ _ Hc), IH. simpl.
    split; [intros [Ha ->]; auto|]. intros [(? & ? & ?) | [Ha Hk]]; [done|].
    split; [done|]. destruct (overlapping l (Packet.req pkt)) eqn:Eo; congruence.
  - inv_ok. simpl. naive_solver.
Qed.

(** The request's address, size and context are set. *)
Definition locatable (req : Request.Request) : bool :=
  Request.hasPaddr req && Request.hasSize req && Request.hasContextId req.

Lemma locatable_ok req :
  locatable req = true -> exists lo hi c, req_range req = Ok (lo, hi) /\
    Request.contextId req = Ok c.
Proof.
  unfold locatable. intros [[Hp Hs]%andb_true_iff Hc]%andb_true_iff.
  unfold req_range, Request.getPaddr, Request.getSize, Request.contextId.
  unfold Request.hasPaddr, Request.hasSize, Request.hasContextId in *.
  rewrite Hp, Hs, Hc. simpl. eauto.
Qed.

Lemma has_match_spec req ls :
  locatable req = true ->
  exists m, has_match req ls = Ok m /\
    (m = true <-> exists l, In l ls /\ matchesContext l req = Ok true).
Proof.
  intros Hr. induction ls as [|l ls (m & Em & IH)]; simpl.
  { exists false. naive_solver. }
  destruct (matchesContext l req) as [[]|] eqn:E; simpl.
  - exists true. naive_solver.
  - exists m. split; [done|]. rewrite IH. naive_solver congruence.
  - destruct (locatable_ok _ Hr) as (lo & hi & c & Er & Ec).
    unfold matchesContext in E. by rewrite Er, Ec in E.
Qed.

Lemma erase_overlapping_total req ls :
  locatable req = true -> exists ls', erase_overlapping req ls = Ok ls'.
Proof.
  intros Hr. destruct (locatable_ok _ Hr) as (lo & hi & c & Er & _).
  induction ls as [|l ls (ls' & IH)]; simpl; [eauto|].
  unfold overlapping. rewrite Er. simpl. rewrite IH. simpl. eauto.
Qed.

(** C28: after any sequence of load-lockeds, stores and clears on a line without
    reservations, a store conditional with a locatable request succeeds exactly
    when its context has a live load-locked whose range contains the store (no
    later write touched that range, nothing cleared the line); the outcome is
    reported in the request's extra data, and exactly the reservations that do not
    overlap the store survive it (comments of blk.hh say that a store clears all
    of them; the code keeps those of other bytes of the line). *)
Theorem store_conditional_iff_reserved ops b b' pkt :
  lockList b = [] -> lock_run ops b = Ok b' ->
  Packet.isLLSC pkt = true -> locatable (Packet.req pkt) = true ->
  exists success pkt' b'',
    checkWrite pkt b' = Ok (success, pkt', b'') /\
    (success = true <->
       exists l, alive ops l /\ matchesContext l (Packet.req pkt) = Ok true) /\
    Request.getExtraData (Packet.req pkt') = Ok (b2z success) /\
    (forall l, In l (lockList b'') <->
       alive ops l /\ overlapping l (Packet.req pkt) = Ok false).
Proof.
  intros Hb Hrun Hll Hr. pose proof (lockList_alive _ _ _ Hb Hrun) as Ha.
  destruct (has_match_spec _ (lockList b') Hr) as (m & Em & Hm).
  destruct (erase_overlapping_total _ (lockList b') Hr) as (ls' & El).
  eexists m, _, _. split.
  { unfold checkWrite. rewrite Hll, Em. simpl.
    rewrite erase_overlapping_setExtraData, El. simpl. done. }
  split; [|split].
  - rewrite Hm. by setoid_rewrite Ha.
  - unfold Request.getExtraData, Request.setExtraData. simpl.
    by rewrite (Flags.isSet_set_same _ 7).
  - intros l. simpl. rewrite (erase_overlapping_In _ _ _ El). by rewrite Ha.
Qed.

(** A packet with a located request, for examples. *)
Definition llsc_packet (c : MemCmd.Command) (ctx a n : Z) : Packet.Packet :=
  let req := Request.Request0 <| Request._paddr := a |> <| Request._size := n |>
               <| Request._contextId := ctx |> <| Request.privateFlags := 0x23 |> in
  Packet.MkPacket 3 c req None a false n MemCmd.InvalidCmd [] 0 0 [].

Lemma store_conditional_iff_reserved_witness :
  exists pkt' b'',
    checkWrite (llsc_packet MemCmd.StoreCondReq 1 64 4)
      (CacheBlk0 <| lockList := [MkLock 1 64 71] |>) = Ok (true, pkt', b'')
    /\ lockList b'' = [].
Proof.
  destruct (store_conditional_iff_reserved
    [LoadLocked (llsc_packet MemCmd.LoadLockedReq 2 60 8);
     LoadLocked (llsc_packet MemCmd.LoadLockedReq 1 64 8);
     Write (llsc_packet MemCmd.WriteReq 3 60 4)]
    CacheBlk0 (CacheBlk0 <| lockList := [MkLock 1 64 71] |>)
    (llsc_packet MemCmd.StoreCondReq 1 64 4)) as (r & pkt' & b'' & E & Hs & _ & Hl).
  - reflexivity.
  - reflexivity.
  - reflexivity.
  - reflexivity.
  - exists pkt', b''. vm_compute in E. injection E as <- <- <-. split; reflexivity.
Defined.

End Blk.
