(* ===== verification/FALRU.v ===== *)
(** The fully associative LRU tags ([mem/cache/tags/fa_lru.hh] and [fa_lru.cc]): all
    blocks in one doubly linked list in order of use, a hash table of their
    addresses, and for each smaller cache size that is tracked a pointer to the last
    block that a cache of this size would have, with a bit in each block that says
    whether it would be there. *)

From stdpp Require Import fin_maps gmap.
From S2P Require Import Prelude IntMath Blk.
Local Open Scope Z_scope.

Module FALRU.

(** ** Data *)

(** Pointers to blocks are indices into [blks]. *)
Record FALRUBlk := MkFALRUBlk {
  base : Blk.CacheBlk;
  prev : option nat;
  next : option nat;
  isTouched : bool;
  inCache : Z;
}.
#[export] Instance eta_FALRUBlk : Eta FALRUBlk := fun x => MkFALRUBlk (base x) (prev x) (next x) (isTouched x) (inCache x).

Record Params := MkParams {
  p_size : Z;
  p_block_size : Z;
  p_hit_latency : Z;
}.

Record FALRU := MkFALRU {
  blkSize : Z;
  size : Z;
  accessLatency : Z;
  warmupBound : Z;
  warmedUp : bool;
  warmupCycle : Z;
  numBlocks : Z;
  tagsInUse : Z;
  replacements : Z;
  cacheBoundaries : list (option nat);
  cacheMask : Z;
  numCaches : Z;
  blks : list FALRUBlk;
  head : nat;
  tail : nat;
  tagHash : gmap Z nat;
  hits : list Z;
  misses : list Z;
  accesses : Z;
}.
#[export] Instance eta_FALRU : Eta FALRU := fun x =>
  MkFALRU (blkSize x) (size x) (accessLatency x) (warmupBound x) (warmedUp x) (warmupCycle x) (numBlocks x) (tagsInUse x)
    (replacements x) (cacheBoundaries x) (cacheMask x) (numCaches x) (blks x) (head x) (tail x) (tagHash x) (hits x)
    (misses x) (accesses x).

(** ** Construction *)

(** [new FALRUBlk[n]]. *)
Definition new_blks (n : nat) : list FALRUBlk := replicate n (MkFALRUBlk Blk.CacheBlk0 None None false 0).

(** The rounds of the loop for the blocks [ids] between the first and the last. *)
Fixpoint init_loop (ids : list nat) (index j flags : Z) (bounds : list (option nat)) (bs : list FALRUBlk)
  : outcome (Z * Z * list (option nat) * list FALRUBlk) :=
  match ids with
  | [] => Ok (index, j, bounds, bs)
  | i :: ids =>
      bs ← pupd (fun b => b <| inCache := flags |>) bs i;
      '(index', j', flags, bounds) ←
        (if Z.of_nat i =? u32 (index - 1) then
           bounds ← vset bounds j (Some i);
           Ok (u32 (Z.shiftl index 1), j + 1, Z.land flags (unot 32 (Z.shiftl 1 j)), bounds)
         else Ok (index, j, flags, bounds));
      bs ← pupd (fun b => b <| prev := Some (i - 1)%nat |> <| next := Some (i + 1)%nat |> <| isTouched := false |>) bs i;
      init_loop ids index' j' flags bounds bs
  end.

Definition FALRU_new (p : Params) : outcome FALRU :=
  let blkSize := p_block_size p in
  let size := p_size p in
  _ ← ensure FatalError (IntMath.isPowerOf2 32 blkSize);
  _ ← ensure FatalError (IntMath.isPowerOf2 32 size);
  l ← IntMath.floorLog2 size;
  let numCaches := u32 (l - 17) in
  _ ← ensure Undefined (numCaches <? 31);
  let cacheMask := if 0 <? numCaches then Z.shiftl 1 numCaches - 1 else 0 in
  let numBlocks := size / blkSize in
  _ ← ensure Undefined (2 <=? numBlocks);
  let n := Z.to_nat numBlocks in
  let head := 0%nat in
  let tail := (n - 1)%nat in
  bs ← pupd (fun b => b <| prev := None |> <| next := Some 1%nat |> <| inCache := cacheMask |>) (new_blks n) head;
  bs ← pupd (fun b => b <| prev := Some (n - 2)%nat |> <| next := None |> <| inCache := 0 |>) bs tail;
  '(index, j, bounds, bs) ← init_loop (seq 1 (n - 2)) (2 ^ 17 / blkSize) 0 cacheMask (replicate (Z.to_nat numCaches) None) bs;
  _ ← ensure AssertFailed (j =? numCaches);
  _ ← ensure AssertFailed (index =? numBlocks);
  Ok (MkFALRU blkSize size (p_hit_latency p) (size / blkSize) false 0 numBlocks 0 0 bounds cacheMask numCaches bs head tail ∅
        (replicate (S (Z.to_nat numCaches)) 0) (replicate (S (Z.to_nat numCaches)) 0) 0).

(** ** Operations *)

Definition blkAlign (t : FALRU) (addr : Z) : Z := Z.land addr (unot 64 (u32 (blkSize t - 1))).
Definition extractTag (t : FALRU) (addr : Z) : Z := blkAlign t addr.
Definition extractSet (t : FALRU) (addr : Z) : Z := 0.
Definition regenerateBlkAddr (t : FALRU) (tag set : Z) : Z := tag.

Definition hashLookup (t : FALRU) (addr : Z) : option nat := tagHash t !! addr.

Definition invalidate (blk : nat) (t : FALRU) : FALRU := t <| tagsInUse ::= (fun x => x - 1) |>.

(** One round of the loop over the boundaries; [updateMask] are the sizes whose cache
    does not have the block. *)
Definition move_boundary (blk : nat) (updateMask i : Z) (t : FALRU) : outcome FALRU :=
  b ← vget (cacheBoundaries t) i;
  if any_set (Z.shiftl 1 i) updateMask then
    match b with
    | None => Fail Undefined
    | Some x =>
        bs ← pupd (fun y => y <| inCache ::= (fun m => Z.land m (unot 32 (Z.shiftl 1 i))) |>) (blks t) x;
        y ← pget bs x;
        bounds ← vset (cacheBoundaries t) i (prev y);
        Ok (t <| blks := bs |> <| cacheBoundaries := bounds |>)
    end
  else if decide (b = Some blk) then
    y ← pget (blks t) blk;
    bounds ← vset (cacheBoundaries t) i (prev y);
    Ok (t <| cacheBoundaries := bounds |>)
  else Ok t.

Fixpoint move_boundaries (blk : nat) (updateMask : Z) (ids : list nat) (t : FALRU) : outcome FALRU :=
  match ids with
  | [] => Ok t
  | i :: ids => t ← move_boundary blk updateMask (Z.of_nat i) t; move_boundaries blk updateMask ids t
  end.

(** The object a pointer that must not be null points to. *)
Definition deref (p : option nat) : outcome nat := match p with Some x => Ok x | None => Fail Undefined end.

Definition moveToHead (blk : nat) (t : FALRU) : outcome FALRU :=
  b ← pget (blks t) blk;
  t ← move_boundaries blk (Z.lxor (inCache b) (cacheMask t)) (seq 0 (Z.to_nat (numCaches t))) t;
  bs ← pupd (fun b => b <| inCache := cacheMask t |>) (blks t) blk;
  let t := t <| blks := bs |> in
  if decide (blk = head t) then Ok t
  else
    b ← pget (blks t) blk;
    t ← (if decide (blk = tail t) then
           _ ← ensure AssertFailed (match next b with None => true | Some _ => false end);
           p ← deref (prev b);
           bs ← pupd (fun b => b <| next := None |>) (blks t) p;
           Ok (t <| tail := p |> <| blks := bs |>)
         else
           p ← deref (prev b);
           n ← deref (next b);
           bs ← pupd (fun x => x <| next := next b |>) (blks t) p;
           bs ← pupd (fun x => x <| prev := prev b |>) bs n;
           Ok (t <| blks := bs |>));
    bs ← pupd (fun b => b <| next := Some (head t) |> <| prev := None |>) (blks t) blk;
    bs ← pupd (fun b => b <| prev := Some blk |>) bs (head t);
    Ok (t <| blks := bs |> <| head := blk |>).

(** [v[i]++] for the indices of a test. *)
Definition bump (f : nat -> bool) (v : list Z) : list Z := imap (fun i x => if f i then x + 1 else x) v.

(** The block, the latency and the sizes in which the access hits. *)
Definition accessBlock (addr : Z) (is_secure : bool) (t : FALRU) : outcome (option nat * Z * Z * FALRU) :=
  let t := t <| accesses ::= (fun x => x + 1) |> in
  let blkAddr := blkAlign t addr in
  let n := Z.to_nat (numCaches t) in
  let miss := t <| misses ::= bump (fun _ => true) |> in
  match hashLookup t blkAddr with
  | None => Ok (None, accessLatency t, 0, miss)
  | Some p =>
      b ← pget (blks t) p;
      if Blk.isValid (base b) then
        _ ← ensure AssertFailed (Blk.tag (base b) =? blkAddr);
        let has i := any_set (Z.shiftl 1 (Z.of_nat i)) (inCache b) in
        let t := t <| hits ::= bump (fun i => (i <? n)%nat && has i || (i =? n)%nat) |>
                   <| misses ::= bump (fun i => (i <? n)%nat && negb (has i)) |> in
        t ← (if decide (p = head t) then Ok t else moveToHead p t);
        Ok (Some p, accessLatency t, inCache b, t)
      else Ok (None, accessLatency t, 0, miss)
  end.

Definition findBlock (addr : Z) (is_secure : bool) (t : FALRU) : outcome (option nat) :=
  let blkAddr := blkAlign t addr in
  match hashLookup t blkAddr with
  | None => Ok None
  | Some p =>
      b ← pget (blks t) p;
      if Blk.isValid (base b) then
        _ ← ensure AssertFailed (Blk.tag (base b) =? blkAddr);
        Ok (Some p)
      else Ok None
  end.

Definition findVictim (curTick addr : Z) (t : FALRU) : outcome (nat * FALRU) :=
  let blk := tail t in
  b ← pget (blks t) blk;
  _ ← ensure AssertFailed (inCache b =? 0);
  t ← moveToHead blk t;
  b ← pget (blks t) blk;
  let t := t <| tagHash ::= (fun h => <[blkAlign t addr := blk]> (delete (Blk.tag (base b)) h)) |> in
  if Blk.isValid (base b) then Ok (blk, t <| replacements ::= (fun x => x + 1) |>)
  else
    let t := t <| tagsInUse ::= (fun x => x + 1) |> in
    bs ← pupd (fun b => b <| isTouched := true |>) (blks t) blk;
    let t := t <| blks := bs |> in
    if negb (warmedUp t) && (warmupBound t <=? tagsInUse t) then Ok (blk, t <| warmedUp := true |> <| warmupCycle := curTick |>)
    else Ok (blk, t).

(** [insertBlock] has an empty body. *)
Definition insertBlock (blk : nat) (t : FALRU) : FALRU := t.

Definition clearLocks (t : FALRU) : FALRU :=
  t <| blks ::= map (fun b => b <| base ::= (fun c => c <| Blk.lockList := [] |>) |>) |>.

(** [forEachBlk]: the visitor may change the block it visits and stops the walk by
    answering [false]. *)
Fixpoint visit_blks (visitor : Blk.CacheBlk -> Blk.CacheBlk * bool) (bs : list FALRUBlk) : list FALRUBlk :=
  match bs with
  | [] => []
  | b :: bs =>
      let '(c, continue) := visitor (base b) in
      (b <| base := c |>) :: (if continue then visit_blks visitor bs else bs)
  end.

Definition forEachBlk (visitor : Blk.CacheBlk -> Blk.CacheBlk * bool) (t : FALRU) : FALRU := t <| blks ::= visit_blks visitor |>.

(** *** The consistency check *)

(** The walk from [blk]; more rounds than blocks would never end. *)
Fixpoint check_loop (fuel : nat) (blk : option nat) (tot_size boundary j flags : Z) (t : FALRU) : outcome bool :=
  match blk with
  | None => Ok true
  | Some x =>
      match fuel with
      | O => Fail Undefined
      | S fuel =>
          b ← pget (blks t) x;
          let tot_size := tot_size + blkSize t in
          _ ← ensure Undefined (tot_size <? 2 ^ 31);
          if negb (inCache b =? flags) then Ok false
          else if (tot_size =? boundary) && negb (Nat.eqb x (tail t)) then
            c ← vget (cacheBoundaries t) j;
            if decide (c = Some x) then
              _ ← ensure Undefined (Z.shiftl boundary 1 <? 2 ^ 31);
              check_loop fuel (next b) tot_size (Z.shiftl boundary 1) (j + 1) (Z.land flags (unot 32 (Z.shiftl 1 j))) t
            else Ok false
          else check_loop fuel (next b) tot_size boundary j flags t
      end
  end.

Definition check (t : FALRU) : outcome bool := check_loop (length (blks t)) (Some (head t)) 0 (2 ^ 17) 0 (cacheMask t) t.

(** ** Histories *)

(** The calls of the cache; [Write] is what the cache itself does to the fields of a
    block between them. *)
Inductive op :=
  | Access (addr : Z) (is_secure : bool)
  | Find (addr : Z) (is_secure : bool)
  | Victim (curTick addr : Z)
  | Insert (blk : nat)
  | Write (blk : nat) (c : Blk.CacheBlk)
  | Invalidate (blk : nat)
  | ClearLocks
  | ForEach (visitor : Blk.CacheBlk -> Blk.CacheBlk * bool).

Definition write (blk : nat) (c : Blk.CacheBlk) (t : FALRU) : outcome FALRU :=
  bs ← pupd (fun b => b <| base := c |>) (blks t) blk; Ok (t <| blks := bs |>).

(** The block that is returned, and in which sizes an access hits. *)
Definition result : Type := option nat * list bool.

Definition sizes (m : Z) (t : FALRU) : list bool :=
  (fun j => any_set (Z.shiftl 1 (Z.of_nat j)) m) <$> seq 0 (Z.to_nat (numCaches t)).

Definition run_op (o : op) (t : FALRU) : outcome (result * FALRU) :=
  match o with
  | Access addr is_secure => '(blk, lat, m, t) ← accessBlock addr is_secure t; Ok ((blk, sizes m t), t)
  | Find addr is_secure => blk ← findBlock addr is_secure t; Ok ((blk, []), t)
  | Victim curTick addr => '(blk, t) ← findVictim curTick addr t; Ok ((Some blk, []), t)
  | Insert blk => Ok ((None, []), insertBlock blk t)
  | Write blk c => t ← write blk c t; Ok ((None, []), t)
  | Invalidate blk => Ok ((None, []), invalidate blk t)
  | ClearLocks => Ok ((None, []), clearLocks t)
  | ForEach visitor => Ok ((None, []), forEachBlk visitor t)
  end.

Fixpoint run_ops (os : list op) (t : FALRU) : outcome (list result * FALRU) :=
  match os with
  | [] => Ok ([], t)
  | o :: os => '(r, t) ← run_op o t; '(rs, t) ← run_ops os t; Ok (r :: rs, t)
  end.

(** ** Specification *)

(** The blocks in order of use, what they hold, and the hits and misses of a cache of
    each size. *)
Record lru := MkLru {
  order : list nat;
  contents : list Blk.CacheBlk;
  lines : gmap Z nat;
  l_hits : list Z;
  l_misses : list Z;
}.
#[export] Instance eta_lru : Eta lru := fun x => MkLru (order x) (contents x) (lines x) (l_hits x) (l_misses x).

Section spec.
Context (c nc : nat).

(** The number of blocks of a cache of size [j]: blocks have [2 ^ (17 - c)] bytes and
    the caches [2 ^ (17 + j)]. *)
Definition bnd (j : nat) : nat := 2 ^ (c + j).

Definition line (addr : Z) : Z := Z.land addr (unot 64 (2 ^ (17 - Z.of_nat c) - 1)).

(** The number of blocks used after [p]. *)
Definition distance (p : nat) (s : list nat) : nat :=
  match list_find (fun y => y = p) s with Some (i, _) => i | None => length s end.

Definition use (p : nat) (a : lru) : lru := a <| order ::= (fun s => p :: filter (fun y => y <> p) s) |>.

Definition s_lookup (addr : Z) (a : lru) : outcome (option nat) :=
  match lines a !! line addr with
  | None => Ok None
  | Some p =>
      b ← pget (contents a) p;
      if Blk.isValid b then _ ← ensure AssertFailed (Blk.tag b =? line addr); Ok (Some p) else Ok None
  end.

(** An access to a block hits in the caches that have more blocks than were used since
    its last use. *)
Definition s_access (addr : Z) (a : lru) : outcome (result * lru) :=
  r ← s_lookup addr a;
  match r with
  | None => Ok ((None, replicate nc false), a <| l_misses ::= fmap (Z.add 1) |>)
  | Some p =>
      let hit j := bool_decide (distance p (order a) < bnd j)%nat in
      Ok ((Some p, hit <$> seq 0 nc),
          use p a <| l_hits ::= imap (fun j x => if bool_decide (j = nc) || hit j then x + 1 else x) |>
                  <| l_misses ::= imap (fun j x => if bool_decide (j = nc) || hit j then x else x + 1) |>)
  end.

(** The victim is the block whose last use is longest ago. *)
Definition s_victim (addr : Z) (a : lru) : outcome (result * lru) :=
  match last (order a) with
  | None => Fail Undefined
  | Some p =>
      b ← pget (contents a) p;
      Ok ((Some p, []), use p a <| lines ::= (fun h => <[line addr := p]> (delete (Blk.tag b) h)) |>)
  end.

Fixpoint s_visit (visitor : Blk.CacheBlk -> Blk.CacheBlk * bool) (bs : list Blk.CacheBlk) : list Blk.CacheBlk :=
  match bs with
  | [] => []
  | b :: bs => let '(b, continue) := visitor b in b :: (if continue then s_visit visitor bs else bs)
  end.

Definition s_op (o : op) (a : lru) : outcome (result * lru) :=
  match o with
  | Access addr _ => s_access addr a
  | Find addr _ => r ← s_lookup addr a; Ok ((r, []), a)
  | Victim _ addr => s_victim addr a
  | Insert _ | Invalidate _ => Ok ((None, []), a)
  | Write p b => v ← pupd (fun _ => b) (contents a) p; Ok ((None, []), a <| contents := v |>)
  | ClearLocks => Ok ((None, []), a <| contents ::= fmap (fun b => b <| Blk.lockList := [] |>) |>)
  | ForEach visitor => Ok ((None, []), a <| contents ::= s_visit visitor |>)
  end.

Fixpoint s_ops (os : list op) (a : lru) : outcome (list result * lru) :=
  match os with
  | [] => Ok ([], a)
  | o :: os => '(r, a) ← s_op o a; '(rs, a) ← s_ops os a; Ok (r :: rs, a)
  end.

Definition s_new : lru :=
  MkLru (seq 0 (bnd nc)) (replicate (bnd nc) Blk.CacheBlk0) ∅ (replicate (S nc) 0) (replicate (S nc) 0).
End spec.

(** ** Bits and blocks *)

Lemma shifted_bit i m : 0 <= i -> any_set (Z.shiftl 1 i) m = Z.testbit m i.
Proof. intros Hi. rewrite Z.shiftl_1_l. unfold any_set. rewrite Z.land_comm. by apply any_set_pow2. Qed.

Lemma cleared_bit i m j : 0 <= i < 32 -> 0 <= j -> (32 <= j -> Z.testbit m j = false) ->
  Z.testbit (Z.land m (unot 32 (Z.shiftl 1 i))) j = Z.testbit m j && negb (j =? i).
Proof.
  intros Hi Hj Hh. rewrite Z.land_spec. unfold unot. rewrite Z.ldiff_spec, Z.shiftl_1_l, Z.pow2_bits_eqb by lia.
  destruct (decide (j < 32)); [rewrite Z.ones_spec_low by lia; by rewrite Z.eqb_sym|by rewrite Hh by lia].
Qed.

(** A bump of one block in the vector of blocks. *)
Lemma pupd_alter {A} (f : A -> A) (v : list A) p x : v !! p = Some x -> pupd f v p = Ok (alter f p v).
Proof.
  intros Hp. unfold pupd. rewrite (proj2 (pget_ok _ _ _) Hp). simpl. f_equal. apply list_eq. intros i.
  destruct (decide (i = p)) as [->|Hne].
  - rewrite list_lookup_alter_eq, list_lookup_insert_eq by (by eapply lookup_lt_Some). by rewrite Hp.
  - by rewrite list_lookup_insert_ne, list_lookup_alter_ne by done.
Qed.

Lemma pupd_lt {A} (f : A -> A) (v : list A) p : (p < length v)%nat -> pupd f v p = Ok (alter f p v).
Proof. intros [x Hp]%lookup_lt_is_Some_2. by apply pupd_alter with x. Qed.

Lemma alter_if {A} (f : A -> A) (v : list A) p i : alter f p v !! i = if decide (i = p) then f <$> v !! i else v !! i.
Proof. destruct (decide (i = p)) as [->|]; [apply list_lookup_alter_eq|by apply list_lookup_alter_ne]. Qed.

Lemma alter_base f (v : list FALRUBlk) p : (forall b, base (f b) = base b) -> base <$> alter f p v = base <$> v.
Proof.
  intros Hf. apply list_eq. intros i. rewrite !list_lookup_fmap, alter_if. destruct (decide (i = p)); [|done].
  destruct (v !! i); simpl; [by rewrite Hf|done].
Qed.

Lemma pred_lookup {A} (l : list A) i : (0 < i)%nat -> match i with O => None | S i => l !! i end = l !! (i - 1)%nat.
Proof. destruct i; simpl; [lia|]. by rewrite Nat.sub_0_r. Qed.

(** ** The order of use *)

(** [nc] sizes are tracked; a cache of size [j] has [bnd j] blocks. *)
Section stack.
Context (nc : nat) (bnd : nat -> nat).

(** The bits of a block at position [i]. *)
Definition mask_ok (i : nat) (m : Z) : Prop :=
  forall j, 0 <= j -> Z.testbit m j = bool_decide (j < Z.of_nat nc /\ (i < bnd (Z.to_nat j))%nat).

(** The list, the bits and the boundaries are those of the blocks [s] in order of
    use. *)
Record stack (t : FALRU) (s : list nat) : Prop := {
  st_len : length s = length (blks t);
  st_nodup : NoDup s;
  st_blk i x : s !! i = Some x -> exists b, blks t !! x = Some b /\ prev b = match i with O => None | S i => s !! i end /\
    next b = s !! S i /\ mask_ok i (inCache b);
  st_head : s !! 0%nat = Some (head t);
  st_tail : last s = Some (tail t);
  st_bounds j : (j < nc)%nat -> exists x, cacheBoundaries t !! j = Some (Some x) /\ s !! (bnd j - 1)%nat = Some x;
  st_mask : cacheMask t = Z.ones (Z.of_nat nc);
  st_caches : numCaches t = Z.of_nat nc;
}.

Context (Hnc : (nc <= 30)%nat) (Hbnd : forall j, (j < nc)%nat -> (2 <= bnd j)%nat).

Lemma mask_head m : (forall j, (j < nc)%nat -> (0 < bnd j)%nat) -> mask_ok 0 m <-> m = Z.ones (Z.of_nat nc).
Proof.
  intros Hb. split.
  - intros Hm. apply Z.bits_inj'. intros j Hj. rewrite (Hm j Hj), Z.testbit_ones_nonneg by lia. case_bool_decide as H.
    + symmetry. apply Z.ltb_lt. lia.
    + symmetry. apply Z.ltb_ge. destruct (decide (j < Z.of_nat nc)); [|lia]. exfalso. apply H. split; [done|]. apply Hb. lia.
  - intros ->. intros j Hj. rewrite Z.testbit_ones_nonneg by lia. case_bool_decide as H; [apply Z.ltb_lt; lia|].
    apply Z.ltb_ge. destruct (decide (j < Z.of_nat nc)); [|lia]. exfalso. apply H. split; [done|]. apply Hb. lia.
Qed.

(** *** The boundaries *)

Context (s : list nat) (pos x : nat) (Hs : NoDup s) (Hx : s !! pos = Some x) (t0 : FALRU).

Definition new_bound (j : nat) : nat :=
  if decide (bnd j <= pos)%nat then (bnd j - 2)%nat else if decide (pos = bnd j - 1)%nat then (pos - 1)%nat else (bnd j - 1)%nat.

(** After the rounds for the sizes below [k]. *)
Record moved (k : nat) (t : FALRU) : Prop := {
  mv_blk i y : s !! i = Some y -> exists b b0, blks t !! y = Some b /\ blks t0 !! y = Some b0 /\
    b = b0 <| inCache := inCache b |> /\
    forall j, 0 <= j -> Z.testbit (inCache b) j =
      bool_decide (j < Z.of_nat nc /\ (i < bnd (Z.to_nat j))%nat /\ ~ ((Z.to_nat j < k)%nat /\ (bnd (Z.to_nat j) <= pos)%nat /\ S i = bnd (Z.to_nat j)));
  mv_len : length (blks t) = length (blks t0);
  mv_bounds j : (j < nc)%nat -> exists z, cacheBoundaries t !! j = Some (Some z) /\ s !! (if decide (j < k)%nat then new_bound j else (bnd j - 1)%nat) = Some z;
  mv_base : base <$> blks t = base <$> blks t0;
  mv_rest : t = t0 <| blks := blks t |> <| cacheBoundaries := cacheBoundaries t |>;
}.

Lemma move_boundary_ok m k t : moved k t -> stack t0 s -> (k < nc)%nat ->
  (forall j, 0 <= j < Z.of_nat nc -> Z.testbit m j = bool_decide (bnd (Z.to_nat j) <= pos)%nat) -> s !! 0%nat <> Some x ->
  exists t', move_boundary x m (Z.of_nat k) t = Ok t' /\ moved (S k) t'.
Proof.
  intros [Mb Ml Mc Mf Mr] Hst Hk Hm Hhd. destruct (Mc k Hk) as (z & Hz & Hsz). rewrite decide_False in Hsz by lia.
  pose proof (Hbnd k Hk) as Hb2. assert (0 < pos)%nat as Hpos by (destruct pos; [congruence|lia]).
  assert (forall i y, s !! i = Some y -> (y = x <-> i = pos) /\ (y = z <-> i = bnd k - 1)%nat) as Hinj.
  { intros i y Hy. split; split; intros ->; try congruence.
    - by apply (NoDup_lookup s i pos x).
    - by apply (NoDup_lookup s i (bnd k - 1) z). }
  unfold move_boundary. assert (vget (cacheBoundaries t) (Z.of_nat k) = Ok (Some z)) as -> by (apply vget_ok; split; [lia|by rewrite Nat2Z.id]).
  cbn [mbind outcome_bind]. rewrite shifted_bit, (Hm (Z.of_nat k)), Nat2Z.id by lia.
  assert (length (cacheBoundaries t) > k)%nat as Hcl by by apply lookup_lt_Some in Hz.
  assert (forall v, vset (cacheBoundaries t) (Z.of_nat k) v = Ok (<[k := v]> (cacheBoundaries t))) as Hvs
    by (intros v; rewrite vset_lt by lia; by rewrite Nat2Z.id).
  assert (forall w, s !! new_bound k = Some w -> forall j, (j < nc)%nat -> exists z', <[k := Some w]> (cacheBoundaries t) !! j = Some (Some z') /\
    s !! (if decide (j < S k)%nat then new_bound j else (bnd j - 1)%nat) = Some z') as Hnb.
  { intros w Hw j Hj. destruct (decide (j = k)) as [->|Hne].
    - exists w. rewrite list_lookup_insert_eq by lia. rewrite decide_True by lia. done.
    - destruct (Mc j Hj) as (z' & E1 & E2). exists z'. rewrite list_lookup_insert_ne by done. split; [done|].
      destruct (decide (j < k)%nat); [by rewrite decide_True by lia|by rewrite decide_False by lia]. }
  assert (forall i y, s !! i = Some y -> exists b, blks t !! y = Some b /\ prev b = match i with O => None | S i => s !! i end) as Hprev.
  { intros i y Hy. destruct (Mb i y Hy) as (b & b0 & E & E0 & Eb & _). exists b. split; [done|]. rewrite Eb. simpl.
    destruct (st_blk _ _ Hst i y Hy) as (b1 & E1 & Ep & _). congruence. }
  case_bool_decide as Hle.
  - destruct (Hprev _ _ Hsz) as (bz & Ez & Epz). rewrite (pupd_alter _ _ _ _ Ez). cbn [mbind outcome_bind]. 
    match goal with |- context [alter ?g z _] => set (f := g) end.
    assert (pget (alter f z (blks t)) z = Ok (f bz)) as -> by (apply pget_ok; by rewrite alter_if, decide_True, Ez by done).
    cbn [mbind outcome_bind]. change (prev (f bz)) with (prev bz). rewrite Epz, Hvs. cbn [mbind outcome_bind].
    eexists. split; [reflexivity|]. assert (exists w, s !! (bnd k - 2)%nat = Some w) as [w Hw].
    { apply lookup_lt_is_Some_2. apply lookup_lt_Some in Hsz. lia. }
    replace (match (bnd k - 1)%nat with 0%nat => None | S i => s !! i end) with (Some w)
      by (rewrite <- Hw; replace (bnd k - 1)%nat with (S (bnd k - 2)) by lia; done).
    split; simpl.
    + intros i y Hy. destruct (Mb i y Hy) as (b & b0 & E & E0 & Eb & Hbits). rewrite alter_if. destruct (Hinj i y Hy) as [_ Hiz].
      destruct (decide (y = z)) as [Hyz|Hyz].
      * exists (f b), b0. rewrite E. split_and!; try done; [by rewrite Eb|]. apply Hiz in Hyz. intros j Hj.
        change (inCache (f b)) with (Z.land (inCache b) (unot 32 (Z.shiftl 1 (Z.of_nat k)))).
        rewrite cleared_bit by (try lia; intros; rewrite Hbits by lia; apply bool_decide_eq_false; lia). rewrite Hbits by done.
        destruct (decide (j = Z.of_nat k)) as [->|].
        -- rewrite Z.eqb_refl, andb_false_r. symmetry. apply bool_decide_eq_false. rewrite Nat2Z.id. lia.
        -- rewrite (proj2 (Z.eqb_neq _ _)), andb_true_r by done. apply bool_decide_ext. lia.
      * exists b, b0. split_and!; try done. intros j Hj. rewrite Hbits by done. apply bool_decide_ext.
        assert (i <> bnd k - 1)%nat by tauto. destruct (decide (Z.to_nat j = k)) as [Ej|]; [rewrite Ej|]; lia.
    + by rewrite length_alter.
    + apply Hnb. unfold new_bound. by rewrite decide_True.
    + by rewrite alter_base.
    + rewrite Mr. done.
  - destruct (decide (Some z = Some x)) as [Ezx|Hne].
    + injection Ezx as ->. assert (bnd k - 1 = pos)%nat as Ek by (apply (NoDup_lookup s _ _ x); done).
      destruct (Hprev _ _ Hx) as (b & E & Ep). rewrite (proj2 (pget_ok _ _ _) E). cbn [mbind outcome_bind]. rewrite Ep, Hvs. cbn [mbind outcome_bind].
      eexists. split; [reflexivity|]. assert (exists w, s !! (pos - 1)%nat = Some w) as [w Hw].
      { apply lookup_lt_is_Some_2. apply lookup_lt_Some in Hx. lia. }
      replace (match pos with 0%nat => None | S i => s !! i end) with (Some w)
        by (rewrite <- Hw; replace pos with (S (pos - 1)) at 2 by lia; done).
      split; simpl; [|done| |done|by rewrite Mr].
      * intros i y Hy. destruct (Mb i y Hy) as (b1 & b0 & E1 & E0 & Eb & Hbits). exists b1, b0. split_and!; try done.
        intros j Hj. rewrite Hbits by done. apply bool_decide_ext. destruct (decide (Z.to_nat j = k)) as [Ej|]; [rewrite Ej|]; lia.
      * apply Hnb. unfold new_bound. rewrite decide_False, decide_True by lia. done.
    + exists t. split; [done|]. split; try done.
      * intros i y Hy. destruct (Mb i y Hy) as (b1 & b0 & E1 & E0 & Eb & Hbits). exists b1, b0. split_and!; try done.
        intros j Hj. rewrite Hbits by done. apply bool_decide_ext. destruct (decide (Z.to_nat j = k)) as [Ej|]; [rewrite Ej|]; lia.
      * intros j Hj. destruct (decide (j = k)) as [->|]; [|destruct (Mc j Hj) as (z' & ? & E2); exists z'; split; [done|];
          destruct (decide (j < k)%nat); [by rewrite decide_True by lia|by rewrite decide_False by lia]].
        exists z. split; [done|]. rewrite decide_True by lia. unfold new_bound. rewrite decide_False by done.
        rewrite decide_False; [done|]. intros ->. congruence.
Qed.

Lemma moved_start : stack t0 s -> moved 0 t0.
Proof.
  intros Hst. split; try done.
  - intros i y Hy. destruct (st_blk _ _ Hst i y Hy) as (b & E & _ & _ & Hm). exists b, b. split_and!; try done; [by destruct b|].
    intros j Hj. rewrite (Hm j Hj). apply bool_decide_ext. lia.
  - intros j Hj. destruct (st_bounds _ _ Hst j Hj) as (z & E & Ez). exists z. by rewrite decide_False by lia.
  - by destruct t0.
Qed.

Lemma move_boundaries_ok m n : forall k t, moved k t -> stack t0 s -> (k + n = nc)%nat ->
  (forall j, 0 <= j < Z.of_nat nc -> Z.testbit m j = bool_decide (bnd (Z.to_nat j) <= pos)%nat) -> s !! 0%nat <> Some x ->
  exists t', move_boundaries x m (seq k n) t = Ok t' /\ moved nc t'.
Proof.
  induction n as [|n IH]; intros k t Hmv Hst Hk Hm Hhd; simpl.
  - exists t. split; [done|]. by replace nc with k by lia.
  - destruct (move_boundary_ok m k t) as (t1 & -> & H1); try done; [lia|]. simpl. apply IH; try done. lia.
Qed.

(** The list after the block at [pos] has gone to the front. *)
Lemma front_lookup i : (x :: delete pos s) !! i =
  match i with O => Some x | S i => if decide (i < pos)%nat then s !! i else s !! S i end.
Proof.
  destruct i as [|i]; [done|]. simpl. destruct (decide (i < pos)%nat); [by rewrite list_lookup_delete_lt|by rewrite list_lookup_delete_ge by lia].
Qed.

Lemma alter_at {A} (f : A -> A) (v : list A) i y i' y' : s !! i = Some y -> s !! i' = Some y' ->
  alter f y' v !! y = if decide (i = i') then f <$> v !! y else v !! y.
Proof.
  intros Hy Hy'. rewrite alter_if. destruct (decide (i = i')) as [->|Hne].
  - rewrite decide_True; [done|congruence].
  - rewrite decide_False; [done|]. intros ->. apply Hne. by apply (NoDup_lookup s _ _ y').
Qed.

(** The block at position [i] once the list is relinked. *)
Definition relinked (h : nat) (m : Z) (i : nat) (b : FALRUBlk) : FALRUBlk :=
  MkFALRUBlk (base b)
    (if decide (i = pos) then None else if decide (i = 0)%nat then Some x else if decide (i = S pos) then s !! (pos - 1)%nat else prev b)
    (if decide (i = pos) then Some h else if decide (i = pos - 1)%nat then s !! S pos else next b)
    (isTouched b) (if decide (i = pos) then m else inCache b).

Lemma relinked_stack t t' : stack t0 s -> moved nc t -> (0 < pos)%nat ->
  (forall i y b, s !! i = Some y -> blks t !! y = Some b -> blks t' !! y = Some (relinked (head t0) (Z.ones (Z.of_nat nc)) i b)) ->
  length (blks t') = length (blks t) -> cacheBoundaries t' = cacheBoundaries t -> head t' = x ->
  Some (tail t') = (if decide (S pos = length s) then s !! (pos - 1)%nat else Some (tail t0)) ->
  cacheMask t' = cacheMask t0 -> numCaches t' = numCaches t0 ->
  stack t' (x :: delete pos s).
Proof.
  intros Hst Hmv Hpos Hblk Hl Hcb Hhd Htl Hcm Hcn. pose proof (lookup_lt_Some _ _ _ Hx) as Hlen.
  assert (length (x :: delete pos s) = length s) as Hls by (simpl; rewrite length_delete by (by exists x); lia).
  split.
  - rewrite Hls, Hl, (mv_len _ _ Hmv). apply (st_len _ _ Hst).
  - rewrite (delete_Permutation s pos x Hx) in Hs. done.
  - intros i y. rewrite front_lookup. destruct i as [|i].
    + intros [= <-]. destruct (mv_blk _ _ Hmv pos x Hx) as (b & b0 & E & _ & _ & _). eexists. split; [by apply (Hblk pos)|].
      unfold relinked. rewrite !(decide_True (P := pos = pos)) by done. cbn [prev next inCache]. split_and!; [done| |].
      * rewrite front_lookup, decide_True by lia. symmetry. apply (st_head _ _ Hst).
      * apply mask_head; [|done]. intros j Hj. specialize (Hbnd j Hj). lia.
    + intros Hy. assert (exists k, s !! k = Some y /\ k <> pos /\ k = if decide (i < pos)%nat then i else S i) as (k & Hk & Hkp & Ek).
      { destruct (decide (i < pos)%nat); eexists; (split; [done|]); lia. }
      destruct (mv_blk _ _ Hmv k y Hk) as (b & b0 & E & E0 & Eb & Hbits). destruct (st_blk _ _ Hst k y Hk) as (b1 & E1 & Ep & En & _).
      assert (b1 = b0) as -> by congruence. eexists. split; [by apply (Hblk k)|]. unfold relinked. cbn [prev next inCache].
      rewrite !(decide_False (P := k = pos)) by done.
      assert (prev b = prev b0 /\ next b = next b0) as [-> ->] by (by rewrite Eb). split_and!.
      * rewrite front_lookup, Ep.
        destruct (decide (i < pos)%nat); subst k; destruct i as [|i]; repeat case_decide; simpl; try done; try lia; try (f_equal; lia).
      * rewrite front_lookup, En.
        destruct (decide (i < pos)%nat); subst k; repeat case_decide; try done; try lia; try (f_equal; lia).
      * intros j Hj. rewrite (Hbits j Hj). apply bool_decide_ext. specialize (Hbnd (Z.to_nat j)).
        destruct (decide (i < pos)%nat); subst k; lia.
  - by rewrite Hhd.
  - rewrite last_lookup, Hls. replace (Init.Nat.pred (length s)) with (S (length s - 2)) by lia. rewrite front_lookup.
    rewrite Htl. pose proof (st_tail _ _ Hst) as Hlast. rewrite last_lookup in Hlast.
    destruct (decide (S pos = length s)); case_decide; try lia; [f_equal; lia|]. rewrite <- Hlast. f_equal. lia.
  - intros j Hj. destruct (mv_bounds _ _ Hmv j Hj) as (z & E & Ez). exists z. rewrite Hcb. split; [done|]. rewrite decide_True in Ez by done.
    rewrite <- Ez. specialize (Hbnd j Hj). replace (bnd j - 1)%nat with (S (bnd j - 2)) by lia. rewrite front_lookup. unfold new_bound.
    repeat case_decide; try lia; f_equal; lia.
  - rewrite Hcm. apply (st_mask _ _ Hst).
  - rewrite Hcn. apply (st_caches _ _ Hst).
Qed.

(** What the move of a block to the front leaves alone. *)
Definition same_rest (t t' : FALRU) : Prop :=
  base <$> blks t' = base <$> blks t /\
  t' = t <| blks := blks t' |> <| cacheBoundaries := cacheBoundaries t' |> <| head := head t' |> <| tail := tail t' |>.

Lemma to_front_ok : stack t0 s -> (0 < pos)%nat -> exists t', moveToHead x t0 = Ok t' /\ stack t' (x :: delete pos s) /\ same_rest t0 t'.
Proof.
  intros Hst Hpos. pose proof (st_head _ _ Hst) as Hhd. pose proof (st_tail _ _ Hst) as Htl. rewrite last_lookup in Htl.
  pose proof (lookup_lt_Some _ _ _ Hx) as Hlen.
  assert (s !! 0%nat <> Some x) as Hx0 by (intros E; pose proof (NoDup_lookup s _ _ _ Hs Hx E); lia).
  destruct (st_blk _ _ Hst pos x Hx) as (b0 & E0 & Ep0 & En0 & Hm0). unfold moveToHead. rewrite (proj2 (pget_ok _ _ _) E0). cbn [mbind outcome_bind].
  rewrite (st_caches _ _ Hst), Nat2Z.id.
  destruct (move_boundaries_ok (Z.lxor (inCache b0) (cacheMask t0)) nc 0 t0) as (t1 & -> & Hmv); try done; [by apply moved_start| |].
  { intros j Hj. rewrite Z.lxor_spec, Hm0 by lia. rewrite (st_mask _ _ Hst), Z.testbit_ones_nonneg by lia.
    rewrite (proj2 (Z.ltb_lt _ _)), xorb_true_r by lia. repeat case_bool_decide; simpl; try done; lia. }
  cbn [mbind outcome_bind]. destruct (mv_blk _ _ Hmv pos x Hx) as (b1 & b0' & E1 & E0' & Eb1 & _). assert (b0' = b0) as -> by congruence.
  rewrite (pupd_alter _ _ _ _ E1). cbn [mbind outcome_bind].
  assert (forall i y, s !! i = Some y -> (y < length (blks t1))%nat) as Hlt
    by (intros i y Hy; destruct (mv_blk _ _ Hmv i y Hy) as (b & _ & E & _); by apply lookup_lt_Some in E).
  assert (head t1 = head t0 /\ tail t1 = tail t0 /\ cacheMask t1 = cacheMask t0 /\ numCaches t1 = numCaches t0) as (Eh & Et & Ecm & Ecn)
    by (rewrite (mv_rest _ _ Hmv); done).
  match goal with |- context [alter ?g x (blks t1)] => set (f1 := g) end.
  rewrite decide_False by (simpl; rewrite Eh; congruence).
  assert (pget (alter f1 x (blks t1)) x = Ok (f1 b1)) as Hg by (apply pget_ok; by rewrite alter_if, decide_True, E1 by done).
  assert (prev (f1 b1) = prev b0 /\ next (f1 b1) = next b0) as [Ep En] by (unfold f1; simpl; by rewrite Eb1).
  rewrite pred_lookup in Ep0 by done. destruct (lookup_lt_is_Some_2 s (pos - 1)%nat ltac:(lia)) as [p Hp].
  rewrite Hp in Ep0. rewrite Ep0 in Ep. rewrite En0 in En.
  change (blks (t1 <| blks := ?v |>)) with v. rewrite Hg. cbn [mbind outcome_bind].
  destruct (decide (S pos = length s)) as [Elast|Hlast].
  - assert (x = tail t0) as Ext by (rewrite <- Elast in Htl; simpl in Htl; congruence). rewrite decide_True by (simpl; congruence).
    rewrite (lookup_ge_None_2 s (S pos)) in En by lia. rewrite En, Ep. cbn [ensure deref mbind outcome_bind]. simpl (ensure _ _).
    cbn [mbind outcome_bind]. rewrite pupd_lt by (rewrite length_alter; by apply (Hlt _ _ Hp)). cbn [mbind outcome_bind].
    change (head (t1 <| blks := _ |> <| tail := p |> <| blks := _ |>)) with (head t1).
    change (blks (t1 <| blks := _ |> <| tail := p |> <| blks := ?v |>)) with v.
    rewrite Eh.
    rewrite pupd_lt by (rewrite !length_alter; by apply (Hlt _ _ Hx)). cbn [mbind outcome_bind].
    rewrite pupd_lt by (rewrite !length_alter; by apply (Hlt _ _ Hhd)). cbn [mbind outcome_bind].
    eexists. split; [done|]. split; [|split; [simpl; by rewrite !alter_base, (mv_base _ _ Hmv)|rewrite (mv_rest _ _ Hmv); done]].
    apply (relinked_stack t1); try done.
    + intros i y b Hy Eb. simpl. rewrite (alter_at _ _ i y _ _ Hy Hhd), !(alter_at _ _ i y _ _ Hy Hx), !(alter_at _ _ i y _ _ Hy Hp), !(alter_at _ _ i y _ _ Hy Hx), Eb.
      pose proof (lookup_lt_Some _ _ _ Hy). unfold f1, relinked. rewrite Ecm, (st_mask _ _ Hst), (lookup_ge_None_2 s (S pos)) by lia.
      destruct b. repeat case_decide; subst; simpl; try done; lia.
    + simpl. by rewrite !length_alter.
    + rewrite decide_True by done. by rewrite Hp.
  - destruct (lookup_lt_is_Some_2 s (S pos) ltac:(lia)) as [n Hn].
    rewrite decide_False by (simpl; rewrite Et; intros E; rewrite <- E in Htl; pose proof (NoDup_lookup s _ _ _ Hs Hx Htl); lia).
    rewrite Hn in En. rewrite Ep, En. cbn [deref mbind outcome_bind].
    rewrite pupd_lt by (rewrite length_alter; by apply (Hlt _ _ Hp)). cbn [mbind outcome_bind].
    rewrite pupd_lt by (rewrite !length_alter; by apply (Hlt _ _ Hn)). cbn [mbind outcome_bind].
    change (head (t1 <| blks := _ |> <| blks := _ |>)) with (head t1).
    change (blks (t1 <| blks := _ |> <| blks := ?v |>)) with v.
    rewrite Eh.
    rewrite pupd_lt by (rewrite !length_alter; by apply (Hlt _ _ Hx)). cbn [mbind outcome_bind].
    rewrite pupd_lt by (rewrite !length_alter; by apply (Hlt _ _ Hhd)). cbn [mbind outcome_bind].
    eexists. split; [done|]. split; [|split; [simpl; by rewrite !alter_base, (mv_base _ _ Hmv)|rewrite (mv_rest _ _ Hmv); done]].
    apply (relinked_stack t1); try done.
    + intros i y b Hy Eb. simpl. rewrite (alter_at _ _ i y _ _ Hy Hhd), (alter_at _ _ i y _ _ Hy Hx), (alter_at _ _ i y _ _ Hy Hn), (alter_at _ _ i y _ _ Hy Hp), (alter_at _ _ i y _ _ Hy Hx), Eb.
      unfold f1, relinked. rewrite Ecm, (st_mask _ _ Hst), Hn, Hp.
      destruct b. repeat case_decide; subst; simpl; try done; lia.
    + simpl. by rewrite !length_alter.
    + rewrite decide_False by done. simpl. by rewrite Et.
Qed.
End stack.
(** ** The sizes *)

(** Blocks of [2 ^ (17 - c)] bytes and a cache of [2 ^ (17 + nc)] bytes. *)
Section geometry.
Context (c nc : nat) (Hc : (1 <= c <= 17)%nat) (Hnc : (nc <= 13)%nat).

#[local] Abbreviation bnd := (bnd c).

Lemma bnd_S j : bnd (S j) = (2 * bnd j)%nat.
Proof. unfold FALRU.bnd. rewrite Nat.add_succ_r. apply Nat.pow_succ_r'. Qed.

Lemma bnd_ge j : (2 <= bnd j)%nat.
Proof. change 2%nat with (2 ^ 1)%nat. apply Nat.pow_le_mono_r; lia. Qed.

Lemma bnd_lt j k : (j < k)%nat -> (bnd j < bnd k)%nat.
Proof. intros. apply Nat.pow_lt_mono_r; lia. Qed.

Lemma bnd_le j k : (j <= k)%nat -> (bnd j <= bnd k)%nat.
Proof. intros. apply Nat.pow_le_mono_r; lia. Qed.

Lemma bnd_Z j : Z.of_nat (bnd j) = 2 ^ (Z.of_nat c + Z.of_nat j).
Proof. unfold FALRU.bnd. rewrite Nat2Z.inj_pow. by rewrite Nat2Z.inj_add. Qed.

(** The sizes a walk has passed at position [i]. *)
Definition passed (i j : nat) : Prop := (j <= nc)%nat /\ (i < bnd j)%nat /\ forall k, (k < j)%nat -> (bnd k <= i)%nat.

Lemma mask_unique i m m' : mask_ok nc bnd i m -> mask_ok nc bnd i m' -> m = m'.
Proof. intros H H'. apply Z.bits_inj'. intros j Hj. by rewrite (H j Hj), (H' j Hj). Qed.

(** A walk that passes a size clears its bit. *)
Lemma mask_pass i j m : mask_ok nc bnd i m -> passed i j -> S i = bnd j -> (j < nc)%nat ->
  mask_ok nc bnd (S i) (Z.land m (unot 32 (Z.shiftl 1 (Z.of_nat j)))) /\ passed (S i) (S j).
Proof.
  intros Hm (Hj & Hi & Hk) Hb Hlt. split.
  - intros k Hk0. rewrite cleared_bit; [|lia|done|intros; rewrite (Hm k Hk0); apply bool_decide_eq_false; lia]. rewrite (Hm k Hk0).
    destruct (decide (k = Z.of_nat j)) as [->|Hne].
    + rewrite Z.eqb_refl, andb_false_r. symmetry. apply bool_decide_eq_false. rewrite Nat2Z.id. lia.
    + rewrite (proj2 (Z.eqb_neq _ _)), andb_true_r by done. apply bool_decide_ext.
      destruct (decide (Z.to_nat k < j)%nat); [specialize (Hk (Z.to_nat k)); lia|]. pose proof (bnd_lt j (Z.to_nat k)). lia.
  - split; [lia|]. rewrite bnd_S. split; [lia|]. intros k Hk'. destruct (decide (k = j)) as [->|]; [lia|]. specialize (Hk k). lia.
Qed.

Lemma mask_keep i j m : mask_ok nc bnd i m -> passed i j -> S i <> bnd j -> mask_ok nc bnd (S i) m /\ passed (S i) j.
Proof.
  intros Hm (Hj & Hi & Hk) Hb. split; [|split_and!; try lia; intros k ?; specialize (Hk k); lia].
  intros k Hk0. rewrite (Hm k Hk0). apply bool_decide_ext.
  destruct (decide (Z.to_nat k < j)%nat); [specialize (Hk (Z.to_nat k)); lia|]. pose proof (bnd_le j (Z.to_nat k)). lia.
Qed.

(** The consistency check. *)
Lemma check_loop_ok t s : stack nc bnd t s -> length s = bnd nc -> blkSize t = 2 ^ (17 - Z.of_nat c) ->
  forall fuel i j flags, (length s <= i + fuel)%nat -> (i <= length s)%nat -> (i < length s -> passed i j)%nat -> mask_ok nc bnd i flags ->
  check_loop fuel (s !! i) (Z.of_nat i * blkSize t) (Z.of_nat (bnd j) * blkSize t) (Z.of_nat j) flags t = Ok true.
Proof.
  intros Hst Hl HB. pose proof (st_tail _ _ _ _ Hst) as Htl. rewrite last_lookup in Htl.
  assert (0 < blkSize t) as HB0 by (rewrite HB; apply Z.pow_pos_nonneg; lia).
  assert (Z.of_nat (bnd nc) * blkSize t <= 2 ^ 30) as Hmax.
  { rewrite HB, bnd_Z, <- Z.pow_add_r by lia. apply Z.pow_le_mono_r; lia. }
  induction fuel as [|fuel IH]; intros i j flags Hf Hi Hpass Hm.
  - by rewrite lookup_ge_None_2 by lia.
  - destruct (decide (i < length s)%nat) as [Hlt|]; [|by rewrite lookup_ge_None_2 by lia].
    destruct (lookup_lt_is_Some_2 s i Hlt) as [x Hx]. rewrite Hx. destruct (st_blk _ _ _ _ Hst i x Hx) as (b & E & _ & En & Hmb).
    simpl. rewrite (proj2 (pget_ok _ _ _) E). cbn [mbind outcome_bind].
    replace (Z.of_nat i * blkSize t + blkSize t) with (Z.of_nat (S i) * blkSize t) by lia.
    assert ((Z.of_nat (S i) * blkSize t <? 2 ^ 31) = true) as -> by (apply Z.ltb_lt; nia). cbn [ensure mbind outcome_bind].
    rewrite (mask_unique _ _ _ Hmb Hm), Z.eqb_refl. simpl negb. cbv iota. specialize (Hpass Hlt).
    rewrite En. destruct (decide (S i = bnd j)) as [Eb|Hne].
    + assert ((Z.of_nat (S i) * blkSize t =? Z.of_nat (bnd j) * blkSize t) = true) as -> by (apply Z.eqb_eq; by rewrite Eb).
      destruct (decide (S i = length s)) as [El|Hnl].
      * assert (x = tail t) as -> by (rewrite <- El in Htl; simpl in Htl; congruence). rewrite Nat.eqb_refl. simpl.
        rewrite (lookup_ge_None_2 s (S i)) by lia. destruct fuel; done.
      * assert ((x =? tail t)%nat = false) as ->.
        { apply Nat.eqb_neq. intros ->. pose proof (NoDup_lookup s _ _ _ (st_nodup _ _ _ _ Hst) Hx Htl). lia. }
        simpl andb. cbv iota. assert (j < nc)%nat as Hj by (destruct Hpass; destruct (decide (j = nc)) as [->|]; lia).
        destruct (st_bounds _ _ _ _ Hst j Hj) as (z & Ez & Esz). assert (z = x) as -> by (replace (bnd j - 1)%nat with i in Esz by lia; congruence).
        assert (vget (cacheBoundaries t) (Z.of_nat j) = Ok (Some x)) as -> by (apply vget_ok; split; [lia|by rewrite Nat2Z.id]).
        cbn [mbind outcome_bind]. rewrite decide_True by done. rewrite Z.shiftl_mul_pow2 by lia.
        replace (Z.of_nat (bnd j) * blkSize t * 2 ^ 1) with (Z.of_nat (bnd (S j)) * blkSize t) by (rewrite bnd_S; lia).
        assert ((Z.of_nat (bnd (S j)) * blkSize t <? 2 ^ 31) = true) as -> by (apply Z.ltb_lt; pose proof (bnd_le (S j) nc); nia).
        cbn [ensure mbind outcome_bind]. destruct (mask_pass _ _ _ Hm Hpass Eb Hj) as [Hm' Hp'].
        replace (Z.of_nat j + 1) with (Z.of_nat (S j)) by lia. apply IH; try done; lia.
    + assert ((Z.of_nat (S i) * blkSize t =? Z.of_nat (bnd j) * blkSize t) = false) as -> by (apply Z.eqb_neq; nia).
      simpl andb. cbv iota. destruct (mask_keep _ _ _ Hm Hpass Hne). apply IH; try done; lia.
Qed.

Lemma check_ok t s : stack nc bnd t s -> length s = bnd nc -> blkSize t = 2 ^ (17 - Z.of_nat c) -> check t = Ok true.
Proof.
  intros Hst Hl HB. unfold check. rewrite <- (st_head _ _ _ _ Hst), <- (st_len _ _ _ _ Hst). change 0 with (Z.of_nat 0) at 2.
  replace 0 with (Z.of_nat 0 * blkSize t) at 1 by lia.
  replace (2 ^ 17) with (Z.of_nat (bnd 0) * blkSize t) by (rewrite HB, bnd_Z, <- Z.pow_add_r by lia; f_equal; lia).
  apply (check_loop_ok t s); try done; try lia.
  - intros _. split; [lia|]. split; [pose proof (bnd_ge 0); lia|lia].
  - apply mask_head; [lia|intros; pose proof (bnd_ge j); lia|]. apply (st_mask _ _ _ _ Hst).
Qed.
(** *** The constructor *)

(** The blocks once those before [i] are linked. *)
Record built (i : nat) (bounds : list (option nat)) (bs : list FALRUBlk) (j : nat) : Prop := {
  bt_len : length bs = bnd nc;
  bt_base : base <$> bs = replicate (bnd nc) Blk.CacheBlk0;
  bt_blk y : (y < i)%nat -> exists b, bs !! y = Some b /\ prev b = match y with O => None | S y => Some y end /\ next b = Some (S y) /\ mask_ok nc bnd y (inCache b);
  bt_tail : exists b, bs !! (bnd nc - 1)%nat = Some b /\ prev b = Some (bnd nc - 2)%nat /\ next b = None /\ mask_ok nc bnd (bnd nc - 1) (inCache b);
  bt_bounds_len : length bounds = nc;
  bt_bounds k : (k < j)%nat -> bounds !! k = Some (Some (bnd k - 1)%nat);
}.

Lemma built_step i j bounds bs flags bounds' j' : built i bounds bs j -> (1 <= i)%nat -> (S i < bnd nc)%nat -> mask_ok nc bnd i flags ->
  length bounds' = nc -> (forall k, (k < j')%nat -> bounds' !! k = Some (Some (bnd k - 1)%nat)) ->
  exists bs1 bs2, pupd (fun b => b <| inCache := flags |>) bs i = Ok bs1 /\
    pupd (fun b => b <| prev := Some (i - 1)%nat |> <| next := Some (i + 1)%nat |> <| isTouched := false |>) bs1 i = Ok bs2 /\ built (S i) bounds' bs2 j'.
Proof.
  intros [Hl Hbase Hblk Htl Hbl Hb] H1 Hi Hm Hl' Hb'. rewrite pupd_lt by lia. eexists _, _. split; [done|].
  rewrite pupd_lt by (rewrite length_alter; lia). split; [done|]. split; try done.
  - by rewrite !length_alter.
  - by rewrite !alter_base.
  - intros y Hy. rewrite !alter_if. destruct (decide (y = i)) as [->|]; [|apply Hblk; lia].
    destruct (lookup_lt_is_Some_2 bs i ltac:(lia)) as [b ->]. eexists. split; [done|]. simpl. split_and!; [|f_equal; lia|done].
    destruct i; [lia|]. f_equal. lia.
  - rewrite !alter_if, !decide_False by lia. done.
Qed.

Lemma init_loop_ok m : forall i j flags bounds bs, built i bounds bs j -> (1 <= i)%nat -> (S (i + m) = bnd nc)%nat -> passed i j -> mask_ok nc bnd i flags ->
  exists bounds' bs', init_loop (seq i m) (Z.of_nat (bnd j)) (Z.of_nat j) flags bounds bs = Ok (Z.of_nat (bnd nc), Z.of_nat nc, bounds', bs') /\
    built (bnd nc - 1) bounds' bs' nc.
Proof.
  assert (Z.of_nat (bnd nc) <= 2 ^ 30) as Hmax by (rewrite bnd_Z; apply Z.pow_le_mono_r; lia).
  induction m as [|m IH]; intros i j flags bounds bs Hbt H1 Hi Hp Hm.
  - destruct (decide (j = nc)) as [->|]; [|destruct Hp as (? & ? & _); pose proof (bnd_lt j nc); lia].
    exists bounds, bs. split; [done|]. by replace (bnd nc - 1)%nat with i by lia.
  - assert (j <= nc)%nat as Hj by apply Hp. pose proof (bnd_le j nc Hj) as Hle. pose proof (bnd_ge j) as Hge.
    cbn [seq init_loop]. unfold u32, uwrap. rewrite (Z.mod_small (_ - 1)) by lia. destruct (decide (S i = bnd j)) as [Eb|Hne].
    + assert ((Z.of_nat i =? Z.of_nat (bnd j) - 1) = true) as -> by (apply Z.eqb_eq; lia).
      assert (j < nc)%nat as Hj' by (destruct (decide (j = nc)) as [->|]; lia). destruct (mask_pass _ _ _ Hm Hp Eb Hj') as [Hm' Hp'].
      destruct (built_step i j bounds bs flags (<[j := Some i]> bounds) (S j) Hbt) as (bs1 & bs2 & -> & E2 & Hbt'); try done; [lia| | |].
      { rewrite length_insert. apply (bt_bounds_len _ _ _ _ Hbt). }
      { intros k Hk. destruct (decide (k = j)) as [->|].
        - rewrite list_lookup_insert_eq by (rewrite (bt_bounds_len _ _ _ _ Hbt); lia). do 2 f_equal. lia.
        - rewrite list_lookup_insert_ne by done. apply (bt_bounds _ _ _ _ Hbt). lia. }
      cbn [mbind outcome_bind]. rewrite vset_lt by (rewrite (bt_bounds_len _ _ _ _ Hbt); lia). cbn [mbind outcome_bind]. rewrite Nat2Z.id, E2.
      cbn [mbind outcome_bind]. rewrite Z.shiftl_mul_pow2, Z.mod_small by lia.
      replace (Z.of_nat (bnd j) * 2 ^ 1) with (Z.of_nat (bnd (S j))) by (rewrite bnd_S; lia). replace (Z.of_nat j + 1) with (Z.of_nat (S j)) by lia.
      apply IH; try done; lia.
    + assert ((Z.of_nat i =? Z.of_nat (bnd j) - 1) = false) as -> by (apply Z.eqb_neq; lia). destruct (mask_keep _ _ _ Hm Hp Hne) as [Hm' Hp'].
      destruct (built_step i j bounds bs flags bounds j Hbt) as (bs1 & bs2 & -> & E2 & Hbt'); try done; [lia|apply Hbt|apply Hbt|].
      cbn [mbind outcome_bind]. rewrite E2. cbn [mbind outcome_bind]. apply IH; try done; lia.
Qed.
Lemma built_stack bounds bs t : built (bnd nc - 1) bounds bs nc -> blks t = bs -> cacheBoundaries t = bounds -> head t = 0%nat ->
  tail t = (bnd nc - 1)%nat -> cacheMask t = Z.ones (Z.of_nat nc) -> numCaches t = Z.of_nat nc -> stack nc bnd t (seq 0 (bnd nc)).
Proof.
  intros [Hl Hbase Hblk Htl Hbl Hb] <- <- Hhd Ht Hm Hn. pose proof (bnd_ge nc) as Hge. split; try done.
  - by rewrite length_seq.
  - apply NoDup_ListNoDup, seq_NoDup.
  - intros i x Hx. apply lookup_seq in Hx as [-> Hi]. simpl. destruct (decide (i = bnd nc - 1)%nat) as [->|].
    + destruct Htl as (b & E & Ep & En & Hmb). exists b. split_and!; try done.
      * rewrite Ep. destruct (bnd nc - 1)%nat eqn:E1; [lia|]. symmetry. apply lookup_seq. lia.
      * rewrite En. symmetry. apply lookup_seq_ge. lia.
    + destruct (Hblk i) as (b & E & Ep & En & Hmb); [lia|]. exists b. split_and!; try done.
      * rewrite Ep. destruct i; [done|]. symmetry. apply lookup_seq. lia.
      * rewrite En. symmetry. apply lookup_seq. lia.
  - rewrite Hhd. apply lookup_seq. lia.
  - rewrite last_lookup, length_seq, Ht. apply lookup_seq. lia.
  - intros j Hj. exists (bnd j - 1)%nat. split; [by apply Hb|]. apply lookup_seq. pose proof (bnd_lt j nc Hj). lia.
Qed.

(** The first two blocks are in the caches of all sizes, the last in none. *)
Lemma mask_first i : (i <= 1)%nat -> mask_ok nc bnd i (Z.ones (Z.of_nat nc)).
Proof.
  intros Hi j Hj. rewrite Z.testbit_ones_nonneg by lia. pose proof (bnd_ge (Z.to_nat j)).
  destruct (Z.ltb_spec j (Z.of_nat nc)); symmetry; [apply bool_decide_eq_true|apply bool_decide_eq_false]; lia.
Qed.

Lemma mask_last m : mask_ok nc bnd (bnd nc - 1) m <-> m = 0.
Proof.
  assert (mask_ok nc bnd (bnd nc - 1) 0) as H0.
  { intros j Hj. rewrite Z.bits_0. symmetry. apply bool_decide_eq_false. intros [Hlt Hb]. pose proof (bnd_lt (Z.to_nat j) nc). lia. }
  split; [|by intros ->]. intros Hm. by apply (mask_unique (bnd nc - 1)).
Qed.

Lemma built_start : built 1 (replicate nc None)
  (alter (fun b => b <| prev := Some (bnd nc - 2)%nat |> <| next := None |> <| inCache := 0 |>) (bnd nc - 1)%nat
     (alter (fun b => b <| prev := None |> <| next := Some 1%nat |> <| inCache := Z.ones (Z.of_nat nc) |>) 0%nat (new_blks (bnd nc)))) 0.
Proof.
  pose proof (bnd_ge nc) as Hge. unfold new_blks. split.
  - by rewrite !length_alter, length_replicate.
  - rewrite !alter_base by done. by rewrite fmap_replicate.
  - intros y Hy. replace y with 0%nat by lia. rewrite alter_if, decide_False by lia. rewrite alter_if, decide_True, lookup_replicate_2 by lia.
    eexists. split; [done|]. simpl. split_and!; try done. apply mask_first. lia.
  - rewrite alter_if, decide_True, alter_if, decide_False, lookup_replicate_2 by lia. eexists. split; [done|]. simpl. split_and!; try done. by apply mask_last.
  - by rewrite length_replicate.
  - lia.
Qed.

Definition geometry (lat : Z) : Params := MkParams (2 ^ (17 + Z.of_nat nc)) (2 ^ (17 - Z.of_nat c)) lat.

Lemma FALRU_new_ok lat : exists t, FALRU_new (geometry lat) = Ok t /\ stack nc bnd t (seq 0 (bnd nc)) /\ base <$> blks t = replicate (bnd nc) Blk.CacheBlk0 /\
  tagHash t = ∅ /\ hits t = replicate (S nc) 0 /\ misses t = replicate (S nc) 0 /\ blkSize t = 2 ^ (17 - Z.of_nat c).
Proof.
  unfold FALRU_new, geometry. cbn [p_size p_block_size p_hit_latency].
  assert (0 < 2 ^ (17 + Z.of_nat nc) < 2 ^ 32) as Hsz by (split; [apply Z.pow_pos_nonneg; lia|apply Z.pow_lt_mono_r; lia]).
  assert (0 < 2 ^ (17 - Z.of_nat c) < 2 ^ 32) as Hbs by (split; [apply Z.pow_pos_nonneg; lia|apply Z.pow_lt_mono_r; lia]).
  rewrite (proj2 (IntMath.isPowerOf2_true 32 (2 ^ (17 - Z.of_nat c)) ltac:(lia) ltac:(unfold in_width; lia)))
    by (exists (17 - Z.of_nat c); lia).
  rewrite (proj2 (IntMath.isPowerOf2_true 32 (2 ^ (17 + Z.of_nat nc)) ltac:(lia) ltac:(unfold in_width; lia)))
    by (exists (17 + Z.of_nat nc); lia).
  cbn [ensure mbind outcome_bind]. rewrite IntMath.floorLog2_ok, Z.log2_pow2 by lia. cbn [mbind outcome_bind].
  replace (17 + Z.of_nat nc - 17) with (Z.of_nat nc) by lia. unfold u32, uwrap. rewrite Z.mod_small by lia.
  rewrite (proj2 (Z.ltb_lt (Z.of_nat nc) 31)) by lia. cbn [ensure mbind outcome_bind].
  rewrite <- !Z.pow_sub_r by lia.
  replace (17 + Z.of_nat nc - (17 - Z.of_nat c)) with (Z.of_nat c + Z.of_nat nc) by lia. rewrite <- bnd_Z.
  replace (2 ^ (17 - (17 - Z.of_nat c))) with (Z.of_nat (bnd 0)) by (rewrite bnd_Z; f_equal; lia).
  pose proof (bnd_ge nc) as Hge. rewrite (proj2 (Z.leb_le 2 _)) by lia. cbn [ensure mbind outcome_bind]. rewrite !Nat2Z.id.
  assert ((if 0 <? Z.of_nat nc then Z.shiftl 1 (Z.of_nat nc) - 1 else 0) = Z.ones (Z.of_nat nc)) as ->.
  { rewrite Z.ones_equiv, Z.shiftl_1_l. destruct (Z.ltb_spec 0 (Z.of_nat nc)); [lia|]. by replace (Z.of_nat nc) with 0 by lia. }
  rewrite pupd_lt by (unfold new_blks; rewrite length_replicate; lia). cbn [mbind outcome_bind].
  rewrite pupd_lt by (unfold new_blks; rewrite length_alter, length_replicate; lia). cbn [mbind outcome_bind].
  destruct (init_loop_ok (bnd nc - 2) 1 0 (Z.ones (Z.of_nat nc)) (replicate nc None)
    (alter (fun b => b <| prev := Some (bnd nc - 2)%nat |> <| next := None |> <| inCache := 0 |>) (bnd nc - 1)%nat
       (alter (fun b => b <| prev := None |> <| next := Some 1%nat |> <| inCache := Z.ones (Z.of_nat nc) |>) 0%nat (new_blks (bnd nc)))))
    as (bounds & bs & E & Hbt); [apply built_start|lia|lia| |by apply mask_first; lia|].
  { split; [lia|]. split; [pose proof (bnd_ge 0)|]; lia. }
  change (Z.of_nat 0) with 0 in E. rewrite E. cbn [mbind outcome_bind]. rewrite !Z.eqb_refl. cbn [ensure mbind outcome_bind].
  eexists. split; [done|]. split; [by apply (built_stack bounds bs)|]. split; [apply (bt_base _ _ _ _ Hbt)|done].
Qed.
(** *** The operations *)

Lemma distance_ok s i p : NoDup s -> s !! i = Some p -> distance p s = i.
Proof.
  intros Hs Hp. unfold distance. assert (list_find (fun y => y = p) s = Some (i, p)) as ->; [|done].
  apply list_find_Some. split_and!; try done. intros j y Hy Hj ->. pose proof (NoDup_lookup s _ _ _ Hs Hp Hy). lia.
Qed.

Lemma filter_delete s : forall i p, NoDup s -> s !! i = Some p -> filter (fun y : nat => y <> p) s = delete i s.
Proof.
  induction s as [|y s IH]; intros i p Hs Hp; [done|]. apply NoDup_cons in Hs as [Hy Hs]. destruct i as [|i]; simpl in Hp.
  - injection Hp as ->. rewrite filter_cons_False by tauto. clear -Hy. induction s as [|z s IH]; [done|]. rewrite elem_of_cons in Hy.
    rewrite filter_cons_True by (intros ->; tauto). simpl. f_equal. apply IH. tauto.
  - rewrite filter_cons_True by (intros ->; apply Hy; by apply list_elem_of_lookup_2 with i). simpl. f_equal. by apply IH.
Qed.

Lemma in_order t s p : stack nc bnd t s -> (p < length s)%nat -> exists i, s !! i = Some p.
Proof.
  intros Hst Hp. apply list_elem_of_lookup. assert (s ≡ₚ seq 0 (length s)) as ->; [|apply elem_of_seq; lia].
  apply submseteq_length_Permutation; [|by rewrite length_seq]. apply NoDup_submseteq; [apply Hst|].
  intros y [i Hy]%list_elem_of_lookup. destruct (st_blk _ _ _ _ Hst i y Hy) as (b & E%lookup_lt_Some & _).
  apply elem_of_seq. rewrite <- (st_len _ _ _ _ Hst) in E. lia.
Qed.

Lemma moved_front t s p i : stack nc bnd t s -> s !! i = Some p -> (0 < i)%nat ->
  exists t', moveToHead p t = Ok t' /\ stack nc bnd t' (p :: filter (fun y => y <> p) s) /\ same_rest t t'.
Proof.
  intros Hst Hp Hi. rewrite (filter_delete s i) by (try done; apply Hst).
  apply to_front_ok; try done; [lia|intros; apply bnd_ge|apply Hst].
Qed.

Lemma used_front t s p : stack nc bnd t s -> (p < length s)%nat ->
  exists t', (if decide (p = head t) then Ok t else moveToHead p t) = Ok t' /\ stack nc bnd t' (p :: filter (fun y => y <> p) s) /\ same_rest t t'.
Proof.
  intros Hst Hp. pose proof (st_head _ _ _ _ Hst) as Hh. case_decide as Hd.
  - subst p. exists t. rewrite (filter_delete s 0) by (try done; apply Hst). destruct s as [|y s]; [done|]. injection Hh as ->.
    split; [done|]. split; [done|]. split; [done|]. by destruct t.
  - destruct (in_order t s p Hst Hp) as [i Hi]. destruct (decide (i = 0)%nat) as [->|]; [congruence|]. apply moved_front with i; try done. lia.
Qed.

(** The tags implement the specification. *)
Record rel (t : FALRU) (a : lru) : Prop := {
  r_stack : stack nc bnd t (order a);
  r_len : length (order a) = bnd nc;
  r_base : base <$> blks t = contents a;
  r_hash : tagHash t = lines a;
  r_lines l p : lines a !! l = Some p -> (p < bnd nc)%nat;
  r_hits : hits t = l_hits a /\ length (l_hits a) = S nc;
  r_misses : misses t = l_misses a /\ length (l_misses a) = S nc;
  r_size : blkSize t = 2 ^ (17 - Z.of_nat c);
}.

Lemma line_ok t addr : blkSize t = 2 ^ (17 - Z.of_nat c) -> blkAlign t addr = line c addr.
Proof.
  intros E. unfold blkAlign, line, u32, uwrap. rewrite E, Z.mod_small; [done|].
  assert (0 < 2 ^ (17 - Z.of_nat c) < 2 ^ 32); [|lia]. split; [apply Z.pow_pos_nonneg; lia|apply Z.pow_lt_mono_r; lia].
Qed.

Lemma rel_get t a p : rel t a -> (p < bnd nc)%nat -> exists b, pget (blks t) p = Ok b /\ pget (contents a) p = Ok (base b).
Proof.
  intros Hr Hp. destruct (lookup_lt_is_Some_2 (blks t) p) as [b Hb].
  { rewrite <- (st_len _ _ _ _ (r_stack _ _ Hr)), (r_len _ _ Hr). done. }
  exists b. split; apply pget_ok; [done|]. rewrite <- (r_base _ _ Hr), list_lookup_fmap. by rewrite Hb.
Qed.

Lemma order_use (s : list nat) p : NoDup s -> p ∈ s -> length (p :: filter (fun y => y <> p) s) = length s.
Proof.
  intros Hs [i Hi]%list_elem_of_lookup. rewrite (filter_delete s i) by done. simpl. rewrite length_delete by (by exists p).
  apply lookup_lt_Some in Hi. lia.
Qed.

(** The bits of the block say in which sizes it is. *)
Lemma has_hit t s p i b j : stack nc bnd t s -> s !! i = Some p -> blks t !! p = Some b -> (j < nc)%nat ->
  any_set (Z.shiftl 1 (Z.of_nat j)) (inCache b) = bool_decide (distance p s < bnd j)%nat.
Proof.
  intros Hst Hp Hb Hj. destruct (st_blk _ _ _ _ Hst i p Hp) as (b' & E & _ & _ & Hm). assert (b' = b) as -> by congruence.
  rewrite shifted_bit, (Hm (Z.of_nat j)), Nat2Z.id by lia. rewrite (distance_ok s i) by (try done; apply Hst). apply bool_decide_ext. lia.
Qed.

Lemma rel_front t a t' p : rel t a -> (p < bnd nc)%nat -> stack nc bnd t' (p :: filter (fun y => y <> p) (order a)) -> same_rest t t' -> rel t' (use p a).
Proof.
  intros Hr Hp Hst [Hb Et]. destruct (in_order t _ p (r_stack _ _ Hr)) as [i Hi]; [by rewrite (r_len _ _ Hr)|].
  destruct Hr as [Hst0 Hlen Hbase ? ? ? ? ?]. split; try (rewrite Et; done); [done| |by rewrite Hb|done].
  cbn [use order]. rewrite <- Hlen. apply order_use; [apply Hst0|]. by apply list_elem_of_lookup_2 with i.
Qed.

(** The outcomes agree. *)
Definition matches {R} (x : outcome (R * FALRU)) (y : outcome (R * lru)) : Prop :=
  match x, y with
  | Ok (r, t), Ok (r', a) => r = r' /\ rel t a
  | Fail e, Fail e' => e = e'
  | _, _ => False
  end.

Lemma lookup_agrees t a addr sec : rel t a -> findBlock addr sec t = s_lookup c addr a.
Proof.
  intros Hr. unfold findBlock, s_lookup, hashLookup. rewrite (line_ok t addr (r_size _ _ Hr)), (r_hash _ _ Hr).
  destruct (lines a !! _) as [p|] eqn:E; [|done]. destruct (rel_get t a p Hr) as (b & -> & ->); [by apply (r_lines _ _ Hr _ _ E)|]. done.
Qed.

(** A hit, once the counters are updated. *)
Lemma rel_counted t a h m h' m' n : rel t a -> h = h' -> m = m' -> length h' = S nc -> length m' = S nc ->
  rel (t <| accesses := n |> <| hits := h |> <| misses := m |>) (a <| l_hits := h' |> <| l_misses := m' |>).
Proof. intros [[]] -> ->. by split. Qed.

Lemma access_matches t a addr sec : rel t a -> matches (run_op (Access addr sec) t) (s_op c nc (Access addr sec) a).
Proof.
  intros Hr. pose proof (r_stack _ _ Hr) as Hst. destruct (r_hits _ _ Hr) as [Eh Lh]. destruct (r_misses _ _ Hr) as [Em Lm].
  cbn [run_op s_op]. unfold accessBlock, s_access, s_lookup, hashLookup. simpl tagHash. change (blkAlign (t <| accesses ::= _ |>) addr) with (blkAlign t addr).
  rewrite (line_ok t addr (r_size _ _ Hr)), (r_hash _ _ Hr). change (blks (t <| accesses ::= _ |>)) with (blks t).
  assert (matches (Ok ((None, sizes 0 t), t <| accesses ::= (fun x => x + 1) |> <| misses ::= bump (fun _ => true) |>))
    (Ok ((None : option nat, replicate nc false), a <| l_misses ::= fmap (Z.add 1) |>))) as Hmiss.
  { simpl. split.
    - f_equal. unfold sizes. rewrite (st_caches _ _ _ _ Hst), Nat2Z.id. apply list_eq. intros i. rewrite list_lookup_fmap.
      destruct (decide (i < nc)%nat); [rewrite (proj2 (lookup_seq 0 nc i i)), lookup_replicate_2 by lia|by rewrite lookup_seq_ge, lookup_ge_None_2 by (rewrite ?length_replicate; lia)].
      simpl. rewrite shifted_bit by lia. by rewrite Z.bits_0.
    - assert (bump (fun _ => true) (misses t) = (Z.add 1) <$> l_misses a) as Hb.
      { rewrite Em. apply list_eq. intros i. unfold bump. rewrite list_lookup_imap, list_lookup_fmap.
        destruct (l_misses a !! i); simpl; [f_equal; lia|done]. }
      apply (rel_counted t a (hits t) _ (l_hits a)); try done. by rewrite length_fmap. }
  destruct (lines a !! line c addr) as [p|] eqn:El; [|by cbn [mbind outcome_bind]].
  pose proof (r_lines _ _ Hr _ _ El) as Hp. destruct (rel_get t a p Hr Hp) as (b & Eb & ->). rewrite Eb. cbn [mbind outcome_bind].
  destruct (Blk.isValid (base b)); [|by cbn [mbind outcome_bind]].
  destruct (Blk.tag (base b) =? line c addr); cbn [ensure mbind outcome_bind]; [|done].
  apply pget_ok in Eb. destruct (in_order t _ p Hst) as [i Hi]; [by rewrite (r_len _ _ Hr)|].
  pose proof (fun j => has_hit t _ p i b j Hst Hi Eb) as Hhas. pose proof (st_caches _ _ _ _ Hst) as Enc.
  match goal with |- context [if decide (p = head ?u) then _ else _] => assert (rel u (a <| l_hits ::= imap (fun j x => if bool_decide (j = nc) || bool_decide (distance p (order a) < bnd j)%nat then x + 1 else x) |>
    <| l_misses ::= imap (fun j x => if bool_decide (j = nc) || bool_decide (distance p (order a) < bnd j)%nat then x else x + 1) |>)) as Hr'; [|set (u' := u) in *] end.
  { apply (rel_counted t a _ _ _ _ (accesses t + 1)); [done| | |by rewrite length_imap|by rewrite length_imap].
    - cbn. rewrite Eh. unfold bump. apply imap_ext. intros j x Hj%lookup_lt_Some. rewrite Lh in Hj. cbn. rewrite Enc, Nat2Z.id.
      destruct (Nat.ltb_spec j nc); simpl; [rewrite Hhas, (bool_decide_eq_false_2 (j = nc)), orb_comm by lia; simpl; destruct (Nat.eqb_spec j nc); [lia|done]|].
      rewrite bool_decide_eq_true_2 by lia. by rewrite (proj2 (Nat.eqb_eq j nc)) by lia.
    - cbn. rewrite Em. unfold bump. apply imap_ext. intros j x Hj%lookup_lt_Some. rewrite Lm in Hj. cbn. rewrite Enc, Nat2Z.id.
      destruct (Nat.ltb_spec j nc); simpl; [rewrite Hhas, (bool_decide_eq_false_2 (j = nc)) by lia; simpl; by destruct (bool_decide _)|].
      by rewrite bool_decide_eq_true_2 by lia. }
  destruct (used_front u' (order a) p (r_stack _ _ Hr')) as (t' & -> & Hst' & Hsame); [by rewrite (r_len _ _ Hr)|].
  cbn [mbind outcome_bind matches]. split; [|by apply (rel_front _ _ _ _ Hr')]. f_equal.
  unfold sizes. rewrite (st_caches _ _ _ _ Hst'), Nat2Z.id. apply list_fmap_ext. intros k j [-> Hj]%lookup_seq. by apply Hhas.
Qed.
(** The other fields of the blocks do not matter for the order. *)
Lemma stack_blks t s bs : stack nc bnd t s -> length bs = length (blks t) ->
  (forall y b, blks t !! y = Some b -> exists b', bs !! y = Some b' /\ prev b' = prev b /\ next b' = next b /\ inCache b' = inCache b) ->
  stack nc bnd (t <| blks := bs |>) s.
Proof.
  intros [] Hl Hb. split; try done; simpl; [by rewrite Hl|]. intros i x Hx. destruct (st_blk0 i x Hx) as (b & E & Ep & En & Hm).
  destruct (Hb x b E) as (b' & E' & Ep' & En' & Ei). exists b'. by rewrite Ep', En', Ei.
Qed.

Lemma stack_alter t s f p : stack nc bnd t s -> (forall b, prev (f b) = prev b /\ next (f b) = next b /\ inCache (f b) = inCache b) ->
  stack nc bnd (t <| blks ::= alter f p |>) s.
Proof.
  intros Hst Hf. apply stack_blks; [done|apply length_alter|]. intros y b E. rewrite alter_if, E. simpl. destruct (decide (y = p)).
  - exists (f b). destruct (Hf b) as (? & ? & ?). done.
  - by exists b.
Qed.

Lemma rel_alter t a f p v : rel t a -> (forall b, prev (f b) = prev b /\ next (f b) = next b /\ inCache (f b) = inCache b) ->
  base <$> alter f p (blks t) = v -> rel (t <| blks ::= alter f p |>) (a <| contents := v |>).
Proof. intros Hr Hf Hv. pose proof (stack_alter t (order a) f p (r_stack _ _ Hr) Hf). destruct Hr. by split. Qed.

(** What happens to the counters of the tags does not matter either. *)
Lemma rel_stats t a h h' n m w k : rel t a -> h = h' -> (forall l p, h' !! l = Some p -> (p < bnd nc)%nat) ->
  rel (t <| tagHash := h |> <| replacements := n |> <| tagsInUse := m |> <| warmedUp := w |> <| warmupCycle := k |>) (a <| lines := h' |>).
Proof. intros [[]] -> Hh. by split. Qed.

Lemma victim_matches t a now addr : rel t a -> matches (run_op (Victim now addr) t) (s_op c nc (Victim now addr) a).
Proof.
  intros Hr. pose proof (r_stack _ _ Hr) as Hst. pose proof (st_tail _ _ _ _ Hst) as Htl. cbn [run_op s_op]. unfold findVictim, s_victim. rewrite Htl.
  rewrite last_lookup, (r_len _ _ Hr) in Htl. pose proof (bnd_ge nc) as Hge. replace (Init.Nat.pred (bnd nc)) with (bnd nc - 1)%nat in Htl by lia.
  destruct (st_blk _ _ _ _ Hst _ _ Htl) as (b & Eb & _ & _ & Hm%mask_last). rewrite (proj2 (pget_ok _ _ _) Eb). cbn [mbind outcome_bind]. rewrite Hm.
  cbn [Z.eqb ensure mbind outcome_bind]. destruct (moved_front t _ _ _ Hst Htl) as (t1 & -> & Hst1 & Hsame); [lia|]. cbn [mbind outcome_bind].
  assert (tail t < bnd nc)%nat as Hlt by (rewrite <- (r_len _ _ Hr), (st_len _ _ _ _ Hst); by apply lookup_lt_Some in Eb).
  pose proof (rel_front _ _ _ _ Hr Hlt Hst1 Hsame) as Hr1. destruct (rel_get _ _ _ Hr1 Hlt) as (b1 & -> & Ec). cbn [mbind outcome_bind].
  change (contents (use (tail t) a)) with (contents a) in Ec. rewrite Ec. cbn [mbind outcome_bind].
  set (h' := <[line c addr := tail t]> (delete (Blk.tag (base b1)) (lines a))).
  assert (forall l p, h' !! l = Some p -> (p < bnd nc)%nat) as Hh.
  { intros l p [[_ <-]|[_ [_ ?]%lookup_delete_Some]]%lookup_insert_Some; [done|]. by apply (r_lines _ _ Hr l). }
  set (h := <[blkAlign t1 addr := tail t]> (delete (Blk.tag (base b1)) (tagHash t1))).
  assert (h = h') as Ehh by (unfold h, h'; by rewrite (line_ok t1 addr (r_size _ _ Hr1)), (r_hash _ _ Hr1)).
  pose proof (fun n m w k => rel_stats _ _ h h' n m w k Hr1 Ehh Hh) as Hr2.
  destruct (Blk.isValid (base b1)); cbn [mbind outcome_bind matches].
  - split; [done|]. apply (Hr2 (replacements t1 + 1) (tagsInUse t1) (warmedUp t1) (warmupCycle t1)).
  - rewrite pupd_lt. 2: { simpl. rewrite <- (st_len _ _ _ _ (r_stack _ _ Hr1)), (r_len _ _ Hr1). done. }
    cbn [mbind outcome_bind].
    assert (forall w k, rel ((t1 <| tagHash := h |> <| replacements := replacements t1 |> <| tagsInUse := tagsInUse t1 + 1 |> <| warmedUp := w |> <| warmupCycle := k |>)
      <| blks ::= alter (fun b => b <| isTouched := true |>) (tail t) |>) (use (tail t) a <| lines := h' |>)) as Hr3.
    { intros w k. apply (rel_alter _ (use (tail t) a <| lines := h' |>)); [apply Hr2|done|]. rewrite alter_base by done. apply (r_base _ _ Hr1). }
    destruct (_ && _); cbn [matches]; (split; [done|]); [apply (Hr3 true now)|apply (Hr3 (warmedUp t1) (warmupCycle t1))].
Qed.
Lemma write_matches t a p b : rel t a -> matches (run_op (Write p b) t) (s_op c nc (Write p b) a).
Proof.
  intros Hr. cbn [run_op s_op]. unfold write. destruct (decide (p < bnd nc)%nat) as [Hp|Hp].
  - assert (length (blks t) = bnd nc) as Hl by (by rewrite <- (st_len _ _ _ _ (r_stack _ _ Hr)), (r_len _ _ Hr)).
    rewrite !pupd_lt by (rewrite <- ?(r_base _ _ Hr), ?length_fmap; lia). cbn [mbind outcome_bind matches]. split; [done|].
    apply rel_alter; [done|done|]. rewrite <- (r_base _ _ Hr). apply list_eq. intros i. rewrite list_lookup_fmap, !alter_if, list_lookup_fmap.
    destruct (decide (i = p)), (blks t !! i); done.
  - assert (blks t !! p = None) as E by (apply lookup_ge_None_2; rewrite <- (st_len _ _ _ _ (r_stack _ _ Hr)), (r_len _ _ Hr); lia).
    unfold pupd, pget. rewrite E, <- (r_base _ _ Hr), list_lookup_fmap, E. done.
Qed.

Lemma clear_matches t a : rel t a -> matches (run_op ClearLocks t) (s_op c nc ClearLocks a).
Proof.
  intros Hr. cbn [run_op s_op matches]. split; [done|]. unfold clearLocks. set (g := fun b : FALRUBlk => _).
  assert (stack nc bnd (t <| blks := map g (blks t) |>) (order a)) as Hst.
  { apply stack_blks; [apply Hr|apply length_map|]. intros y b E. exists (g b). by rewrite list_lookup_fmap, E. }
  destruct Hr. split; try done. simpl. rewrite <- r_base0. rewrite <- !list_fmap_compose. apply list_fmap_ext. done.
Qed.

Lemma visit_links visitor bs : forall y b, bs !! y = Some b -> exists b', visit_blks visitor bs !! y = Some b' /\ prev b' = prev b /\ next b' = next b /\ inCache b' = inCache b.
Proof.
  induction bs as [|x bs IH]; intros y b Hy; [done|]. simpl. destruct (visitor (base x)) as [x' []], y as [|y]; simpl in *.
  - injection Hy as ->. by eexists.
  - by apply IH.
  - injection Hy as ->. by eexists.
  - by exists b.
Qed.

Lemma visit_base visitor bs : base <$> visit_blks visitor bs = s_visit visitor (base <$> bs).
Proof. induction bs as [|x bs IH]; [done|]. simpl. destruct (visitor (base x)) as [x' []]; simpl; f_equal; apply IH. Qed.

Lemma foreach_matches t a visitor : rel t a -> matches (run_op (ForEach visitor) t) (s_op c nc (ForEach visitor) a).
Proof.
  intros Hr. cbn [run_op s_op matches]. split; [done|]. unfold forEachBlk.
  assert (stack nc bnd (t <| blks := visit_blks visitor (blks t) |>) (order a)) as Hst.
  { apply stack_blks; [apply Hr| |apply visit_links]. pose proof (visit_base visitor (blks t)) as E. apply (f_equal length) in E.
    rewrite !length_fmap in E. rewrite E. clear. generalize (blks t). intros bs. rewrite <- (length_fmap base bs). generalize (base <$> bs).
    intros l. induction l as [|x l IH]; [done|]. simpl. destruct (visitor x) as [x' []]; simpl; by rewrite ?IH. }
  destruct Hr. split; try done. simpl. by rewrite visit_base, r_base0.
Qed.

Lemma op_matches o t a : rel t a -> matches (run_op o t) (s_op c nc o a).
Proof.
  intros Hr. destruct o; [by apply access_matches| |by apply victim_matches| |by apply write_matches| |by apply clear_matches|by apply foreach_matches].
  - cbn [run_op s_op]. rewrite (lookup_agrees t a) by done. by destruct (s_lookup c addr a).
  - done.
  - cbn [run_op s_op matches]. split; [done|]. destruct Hr as [[]]. by split.
Qed.

Lemma ops_match os : forall t a, rel t a -> matches (run_ops os t) (s_ops c nc os a).
Proof.
  induction os as [|o os IH]; intros t a Hr; [done|]. cbn [run_ops s_ops]. pose proof (op_matches o t a Hr) as Ho.
  destruct (run_op o t) as [[r t1]|e], (s_op c nc o a) as [[r' a1]|e']; try done; cbn [mbind outcome_bind].
  destruct Ho as [-> Hr1]. specialize (IH t1 a1 Hr1).
  destruct (run_ops os t1) as [[rs t2]|e], (s_ops c nc os a1) as [[rs' a2]|e']; try done; cbn [mbind outcome_bind matches].
  destruct IH as [-> Hr2]. done.
Qed.

Lemma new_rel lat : exists t, FALRU_new (geometry lat) = Ok t /\ rel t (s_new c nc).
Proof.
  destruct (FALRU_new_ok lat) as (t & E & Hst & Hb & Hh & Hhi & Hmi & HB). exists t. split; [done|].
  split; try done; cbn [s_new order lines l_hits l_misses];
    [by rewrite length_seq|split; [done|]; by rewrite length_replicate..].
Qed.

Lemma rel_check t a : rel t a -> check t = Ok true.
Proof. intros Hr. apply (check_ok t (order a)); apply Hr. Qed.
End geometry.

(** C10: the fully associative LRU tags implement LRU for all tracked cache sizes at
    once. Whatever calls the cache makes and whatever it writes to the blocks in
    between, the tags built for a cache of [2 ^ (17 + nc)] bytes give the results of
    the specification: the victim is the block whose last use is longest ago, an access
    hits in exactly the sizes that have more blocks than were used since the block was
    last used, the counters count these hits, the only failure is the assertion on the
    tag of a block that is found (or an index that is not a block's), and the
    consistency check holds. *)
Theorem falru_is_lru_of_every_size c nc lat os : (1 <= c <= 17)%nat -> (nc <= 13)%nat ->
  exists t, FALRU_new (geometry c nc lat) = Ok t /\
    match run_ops os t, s_ops c nc os (s_new c nc) with
    | Ok (rs, t'), Ok (rs', a) => rs = rs' /\ hits t' = l_hits a /\ misses t' = l_misses a /\ stack nc (bnd c) t' (order a) /\ check t' = Ok true
    | Fail e, Fail e' => e = e'
    | _, _ => False
    end.
Proof.
  intros Hc Hnc. destruct (new_rel c nc Hc Hnc lat) as (t & E & Hr). exists t. split; [done|]. pose proof (ops_match c nc Hc Hnc os t _ Hr) as H.
  destruct (run_ops os t) as [[rs t']|e], (s_ops c nc os (s_new c nc)) as [[rs' a]|e']; try done. destruct H as [-> Hr'].
  split_and!; try done; try apply Hr'. by apply (rel_check c nc Hc Hnc t' a).
Qed.

(** Blocks of 64 KB in a cache of 256 KB: a second access to a line hits in both
    sizes, a line used before two others only in the larger one. *)
Definition tagged (line : Z) : Blk.CacheBlk := Blk.CacheBlk0 <| Blk.tag := line |> <| Blk.status := Blk.BlkValid |>.

Definition example_ops : list op :=
  [Victim 0 0x10000; Write 3 (tagged 0x10000); Victim 1 0x20000; Write 2 (tagged 0x20000); Access 0x10004 false; Access 0x10008 false;
   Victim 2 0x30000; Write 1 (tagged 0x30000); Access 0x20000 false; Find 0x30000 false; Invalidate 3; ClearLocks].

Definition example_results : list result :=
  [(Some 3%nat, []); (None, []); (Some 2%nat, []); (None, []); (Some 3%nat, [true]); (Some 3%nat, [true]);
   (Some 1%nat, []); (None, []); (Some 2%nat, [false]); (Some 1%nat, []); (None, []); (None, [])].

Lemma falru_is_lru_of_every_size_witness : exists t t', FALRU_new (geometry 1 1 2) = Ok t /\ run_ops example_ops t = Ok (example_results, t') /\
  hits t' = [2; 3] /\ stack 1 (bnd 1) t' [2; 1; 3; 0]%nat /\ check t' = Ok true.
Proof.
  destruct (falru_is_lru_of_every_size 1 1 2 example_ops ltac:(lia) ltac:(lia)) as (t & E & H). exists t.
  assert (match s_ops 1 1 example_ops (s_new 1 1) with
    | Ok (rs, a) => rs = example_results /\ l_hits a = [2; 3] /\ order a = [2; 1; 3; 0]%nat
    | Fail _ => False
    end) as Hs by (vm_compute; done).
  destruct (s_ops 1 1 example_ops (s_new 1 1)) as [[rs' a]|e]; [|done]. destruct Hs as (-> & <- & <-).
  destruct (run_ops example_ops t) as [[rs t']|e]; [|done]. destruct H as (-> & Hh & _ & Hst & Hc). exists t'. done.
Defined.

(** *** The tags are never set *)

(** Calls after which the tags of the blocks are those of new blocks: the cache leaves
    setting them to [insertBlock]. *)
Definition keeps_tag (o : op) : Prop :=
  match o with
  | Write _ b => Blk.tag b = 0
  | ForEach visitor => forall b, Blk.tag (visitor b).1 = Blk.tag b
  | _ => True
  end.

Lemma op_tags c nc o a r a' : keeps_tag o -> s_op c nc o a = Ok (r, a') -> Forall (fun b => Blk.tag b = 0) (contents a) -> Forall (fun b => Blk.tag b = 0) (contents a').
Proof.
  intros Hk E Ha. destruct o; cbn [s_op] in E.
  - unfold s_access in E. apply bind_ok in E as (p & _ & E). destruct p; by injection E as <- <-.
  - apply bind_ok in E as (p & _ & E). by injection E as <- <-.
  - unfold s_victim in E. destruct (last (order a)); [|done]. apply bind_ok in E as (b & _ & E). by injection E as <- <-.
  - by injection E as <- <-.
  - apply bind_ok in E as (v & E1 & E). injection E as <- <-. apply pupd_ok in E1 as (b0 & _ & ->). by apply Forall_insert.
  - by injection E as <- <-.
  - injection E as <- <-. cbn. apply Forall_fmap. by apply (Forall_impl _ _ _ Ha).
  - injection E as <- <-. cbn. cbn in Hk. induction (contents a) as [|b l IH]; [done|]. apply Forall_cons in Ha as [Hb Ha]. simpl.
    specialize (Hk b) as Hkb. destruct (visitor b) as [b' []]; simpl in Hkb; constructor; try congruence; auto.
Qed.

Lemma ops_tags c nc os : forall a rs a', Forall keeps_tag os -> s_ops c nc os a = Ok (rs, a') -> Forall (fun b => Blk.tag b = 0) (contents a) ->
  Forall (fun b => Blk.tag b = 0) (contents a').
Proof.
  induction os as [|o os IH]; intros a rs a' Hk E Ha; [by injection E as <- <-|]. apply Forall_cons in Hk as [Ho Hk]. cbn [s_ops] in E.
  apply bind_ok in E as ([r a1] & E1 & E). apply bind_ok in E as ([rs1 a2] & E2 & E). injection E as <- <-.
  apply (IH a1 rs1 a2 Hk E2). by apply (op_tags c nc o a r a1).
Qed.

(** C31: a block that the fully associative tags provide is never found again.
    [findVictim] enters the block under its line but nothing sets the block's tag
    ([insertBlock] has an empty body), so after any calls, once the cache has made the
    victim for an address outside line 0 valid, the next lookup of that address fails
    the assertion that the tag of the block is the line. *)
Theorem falru_filled_block_aborts c nc lat os t0 rs t now addr sec fill : (1 <= c <= 17)%nat -> (nc <= 13)%nat ->
  FALRU_new (geometry c nc lat) = Ok t0 -> Forall keeps_tag os -> run_ops os t0 = Ok (rs, t) ->
  line c addr <> 0 -> (forall b, Blk.isValid (fill b) = true /\ Blk.tag (fill b) = Blk.tag b) ->
  exists p t1 b t2, findVictim now addr t = Ok (p, t1) /\ pget (blks t1) p = Ok b /\ write p (fill (base b)) (insertBlock p t1) = Ok t2 /\
    findBlock addr sec t2 = Fail AssertFailed /\ accessBlock addr sec t2 = Fail AssertFailed.
Proof.
  intros Hc Hnc E0 Hk Hrun Hl Hfill. destruct (new_rel c nc Hc Hnc lat) as (t0' & E0' & Hr0). assert (t0' = t0) as -> by congruence.
  pose proof (ops_match c nc Hc Hnc os t0 _ Hr0) as Hm. rewrite Hrun in Hm. destruct (s_ops c nc os (s_new c nc)) as [[rs' a]|e] eqn:Es; [|done].
  destruct Hm as [_ Hr]. pose proof (victim_matches c nc Hc Hnc t a now addr Hr) as Hvm. cbn [run_op s_op] in Hvm. unfold s_victim in Hvm.
  pose proof (r_stack _ _ _ _ Hr) as Hst. rewrite (st_tail _ _ _ _ Hst) in Hvm. set (p := tail t) in *.
  assert (p < bnd c nc)%nat as Hp.
  { rewrite <- (r_len _ _ _ _ Hr), (st_len _ _ _ _ Hst). pose proof (st_tail _ _ _ _ Hst) as Hl'. rewrite last_lookup in Hl'.
    destruct (st_blk _ _ _ _ Hst _ _ Hl') as (b1 & E & _). by apply lookup_lt_Some in E. }
  destruct (rel_get c nc t a p Hr Hp) as (b0 & _ & Eb0). rewrite Eb0 in Hvm. cbn [mbind outcome_bind] in Hvm.
  destruct (findVictim now addr t) as [[p' t1]|e]; [|done]. destruct Hvm as [[= ->] Hr1]. set (a1 := use p a <| lines ::= _ |>) in Hr1.
  destruct (rel_get c nc t1 a1 p Hr1 Hp) as (b & Eb & Eb'). exists p, t1, b. destruct (Hfill (base b)) as [Hv Htag].
  assert (Blk.tag (base b) = 0) as H0.
  { assert (Forall (fun b => Blk.tag b = 0) (contents a)) as Ha by (apply (ops_tags c nc os _ _ _ Hk Es); by apply Forall_replicate).
    apply pget_ok in Eb'. apply (Forall_lookup_1 _ _ _ _ Ha Eb'). }
  pose proof (write_matches c nc Hc Hnc t1 a1 p (fill (base b)) Hr1) as Hw. cbn [run_op s_op] in Hw. unfold insertBlock.
  rewrite (pupd_lt _ (contents a1)) in Hw by (apply pget_ok, lookup_lt_Some in Eb'; done). cbn [mbind outcome_bind] in Hw.
  destruct (write p _ t1) as [t2|e]; [|done]. destruct Hw as [_ Hr2]. set (a2 := a1 <| contents := _ |>) in Hr2. exists t2.
  assert (s_lookup c addr a2 = Fail AssertFailed) as Hs.
  { unfold s_lookup. change (lines a2) with (<[line c addr := p]> (delete (Blk.tag (base b0)) (lines a))). rewrite lookup_insert_eq.
    assert (pget (contents a2) p = Ok (fill (base b))) as -> by (apply pget_ok in Eb'; apply pget_ok;
      change (contents a2) with (alter (fun _ => fill (base b)) p (contents a1)); by rewrite alter_if, decide_True, Eb').
    cbn [mbind outcome_bind]. by rewrite Hv, Htag, H0, (proj2 (Z.eqb_neq _ _)). }
  split; [done|]. split; [done|]. split; [done|]. split; [by rewrite (lookup_agrees c nc Hc Hnc t2 a2)|].
  pose proof (access_matches c nc Hc Hnc t2 a2 addr sec Hr2) as Ha. cbn [run_op s_op] in Ha. unfold s_access in Ha. rewrite Hs in Ha.
  destruct (accessBlock addr sec t2) as [[[[x l] m] t3]|e]; cbn [mbind outcome_bind matches] in Ha; [done|by rewrite Ha].
Qed.

Lemma falru_filled_block_aborts_witness : exists t0, FALRU_new (geometry 1 1 2) = Ok t0 /\
  exists p t1 b t2, findVictim 0 0x10000 t0 = Ok (p, t1) /\ pget (blks t1) p = Ok b /\
    write p ((base b) <| Blk.status := Blk.BlkValid |>) (insertBlock p t1) = Ok t2 /\
    findBlock 0x10000 false t2 = Fail AssertFailed /\ accessBlock 0x10000 false t2 = Fail AssertFailed.
Proof.
  eexists. split; [vm_compute; reflexivity|].
  eapply (falru_filled_block_aborts 1 1 2 [] _ [] _ 0 0x10000 false (fun b => b <| Blk.status := Blk.BlkValid |>));
    [lia|lia|vm_compute; reflexivity|constructor|reflexivity|by vm_compute|by intros []].
Defined.

End FALRU.
