(* ===== verification/CacheSet.v ===== *)
(** An associative set of cache blocks: mem/cache/tags/cacheset.hh.

    The set holds pointers to blocks, in LRU order with the most recently used
    first; a pointer is an index into the block array of the tag store. *)

From S2P Require Import Prelude Blk.
Local Open Scope Z_scope.

Module CacheSet.

Record CacheSet := MkCacheSet {
  assoc : Z;
  blks : list nat;
}.
#[global] Instance eta_CacheSet : Eta CacheSet := fun s => MkCacheSet (assoc s) (blks s).

(** The condition of the loop of [findBlk]. *)
Definition matches (tag : Z) (is_secure : bool) (b : Blk.CacheBlk) : bool :=
  (Blk.tag b =? tag) && Blk.isValid b && eqb (Blk.isSecure b) is_secure.

(** The loop of [findBlk] from way [i] on: the pointer and the way found. *)
Fixpoint findBlk_loop (store : list Blk.CacheBlk) (tag : Z) (is_secure : bool)
  (ways : list nat) (i : Z) : outcome (option (nat * Z)) :=
  match ways with
  | [] => Ok None
  | p :: ways =>
      b ← pget store p;
      if matches tag is_secure b then Ok (Some (p, i))
      else findBlk_loop store tag is_secure ways (i + 1)
  end.

(** [findBlk(tag, is_secure, way_id)]: the pointer and [way_id]. *)
Definition findBlk_way (store : list Blk.CacheBlk) (s : CacheSet) (tag : Z)
  (is_secure : bool) : outcome (option nat * Z) :=
  if Z.of_nat (length (blks s)) <? assoc s then Fail Undefined
  else
    r ← findBlk_loop store tag is_secure (take (Z.to_nat (assoc s)) (blks s)) 0;
    Ok (match r with Some (p, i) => (Some p, i) | None => (None, assoc s) end).

Definition findBlk (store : list Blk.CacheBlk) (s : CacheSet) (tag : Z) (is_secure : bool)
  : outcome (option nat) :=
  r ← findBlk_way store s tag is_secure; Ok r.1.

(** The do-while loop of [moveToHead]. The assertion stops it at [assoc], so
    [assoc + 1] rounds are enough fuel. *)
Fixpoint head_loop (fuel : nat) (assoc : Z) (blk : nat) (i : Z) (next : nat)
  (blks : list nat) : outcome (list nat) :=
  match fuel with
  | O => Fail Undefined
  | S fuel =>
      _ ← ensure AssertFailed (i <? assoc);
      tmp ← vget blks i;
      blks ← vset blks i next;
      if decide (tmp = blk) then Ok blks
      else head_loop fuel assoc blk (i + 1) tmp blks
  end.

Definition moveToHead (blk : nat) (s : CacheSet) : outcome CacheSet :=
  head ← vget (blks s) 0;
  if decide (head = blk) then Ok s
  else
    l ← head_loop (S (Z.to_nat (assoc s))) (assoc s) blk 0 blk (blks s);
    Ok (s <| blks := l |>).

(** The do-while loop of [moveToTail]. *)
Fixpoint tail_loop (fuel : nat) (blk : nat) (i : Z) (next : nat) (blks : list nat)
  : outcome (list nat) :=
  match fuel with
  | O => Fail Undefined
  | S fuel =>
      _ ← ensure AssertFailed (i >=? 0);
      tmp ← vget blks i;
      blks ← vset blks i next;
      if decide (tmp = blk) then Ok blks
      else tail_loop fuel blk (i - 1) tmp blks
  end.

Definition moveToTail (blk : nat) (s : CacheSet) : outcome CacheSet :=
  tail ← vget (blks s) (assoc s - 1);
  if decide (tail = blk) then Ok s
  else
    l ← tail_loop (S (Z.to_nat (assoc s))) blk (assoc s - 1) blk (blks s);
    Ok (s <| blks := l |>).

(** ** Lemmas *)

(** The loop shifts the ways it passes by one and stops where [blk] was. *)
Lemma head_loop_spec fuel a blk done next pre post :
  ~ In blk pre -> (length pre < fuel)%nat ->
  Z.of_nat (length done + length pre) < a ->
  head_loop fuel a blk (Z.of_nat (length done)) next (done ++ pre ++ blk :: post) =
    Ok (done ++ next :: pre ++ post).
Proof.
  revert done next fuel. induction pre as [|p pre IH]; intros done next fuel Hin Hf Ha;
    (destruct fuel as [|fuel]; simpl in Hf; [lia|]); simpl.
  - destruct (Z.ltb_spec (Z.of_nat (length done)) a); [|simpl in Ha; lia]. simpl.
    unfold vget, vset. destruct (Z.ltb_spec (Z.of_nat (length done)) 0); [lia|].
    rewrite Nat2Z.id, list_lookup_middle by done. simpl.
    destruct (Nat.ltb_spec (length done) (length (done ++ blk :: post)));
      [|rewrite length_app in *; simpl in *; lia]. simpl.
    rewrite decide_True by done. by rewrite insert_app_r_alt, Nat.sub_diag.
  - destruct (Z.ltb_spec (Z.of_nat (length done)) a); [|simpl in Ha; lia]. simpl.
    unfold vget, vset. destruct (Z.ltb_spec (Z.of_nat (length done)) 0); [lia|].
    rewrite Nat2Z.id, list_lookup_middle by done. simpl.
    destruct (Nat.ltb_spec (length done) (length (done ++ p :: pre ++ blk :: post)));
      [|rewrite length_app in *; simpl in *; lia]. simpl.
    rewrite insert_app_r_alt, Nat.sub_diag by done. simpl.
    rewrite decide_False by (intros ->; apply Hin; by left).
    specialize (IH (done ++ [next]) p fuel). rewrite length_app in IH. simpl in IH.
    replace (Z.of_nat (length done + 1)) with (Z.of_nat (length done) + 1) in IH by lia.
    rewrite <- !app_assoc in IH. apply IH; [naive_solver|lia|simpl in Ha; lia].
Qed.

Lemma tail_loop_spec fuel blk done next pre post :
  ~ In blk post -> (length post < fuel)%nat ->
  tail_loop fuel blk (Z.of_nat (length pre + length post)) next
    (pre ++ blk :: post ++ done) = Ok (pre ++ post ++ next :: done).
Proof.
  revert done next fuel. induction post as [|p post IH] using rev_ind;
    intros done next fuel Hin Hf; (destruct fuel as [|fuel]; [rewrite ?length_app in Hf; simpl in Hf; lia|]);
    simpl tail_loop.
  - rewrite Nat.add_0_r. destruct (Z.geb_spec (Z.of_nat (length pre)) 0); [|lia]. simpl.
    unfold vget, vset. destruct (Z.ltb_spec (Z.of_nat (length pre)) 0); [lia|].
    rewrite Nat2Z.id, list_lookup_middle by done. simpl.
    destruct (Nat.ltb_spec (length pre) (length (pre ++ blk :: done)));
      [|rewrite length_app in *; simpl in *; lia]. simpl.
    rewrite decide_True by done. by rewrite insert_app_r_alt, Nat.sub_diag.
  - rewrite length_app in *. simpl in Hf |- *.
    destruct (Z.geb_spec (Z.of_nat (length pre + (length post + 1))) 0); [|lia]. simpl.
    unfold vget, vset.
    destruct (Z.ltb_spec (Z.of_nat (length pre + (length post + 1))) 0); [lia|].
    assert (pre ++ blk :: (post ++ [p]) ++ done = (pre ++ blk :: post) ++ p :: done) as Eq.
    { by rewrite <- !app_assoc. }
    rewrite Nat2Z.id, Eq, list_lookup_middle by (rewrite length_app; simpl; lia). simpl.
    destruct (Nat.ltb_spec (length pre + (length post + 1)) (length ((pre ++ blk :: post) ++ p :: done)));
      [|rewrite !length_app in *; simpl in *; lia]. simpl.
    rewrite insert_app_r_alt by (rewrite length_app; simpl; lia).
    rewrite length_app. simpl length.
    replace (length pre + (length post + 1) - (length pre + S (length post)))%nat with 0%nat by lia.
    simpl. rewrite decide_False by (intros ->; apply Hin, in_or_app; simpl; auto).
    specialize (IH (next :: done) p fuel). rewrite <- app_assoc. simpl.
    replace (Z.of_nat (length pre + (length post + 1)) - 1)
      with (Z.of_nat (length pre + length post)) by lia.
    rewrite <- app_assoc. simpl. apply IH; [|lia]. intros ?. apply Hin, in_or_app. auto.
Qed.

#[local] Arguments head_loop : simpl never.
#[local] Arguments tail_loop : simpl never.

(** The other pointers, in order. *)
Definition others (blk : nat) (l : list nat) : list nat := filter (fun p => p <> blk) l.

Lemma others_not_in blk l : blk ∉ l -> others blk l = l.
Proof.
  intros H. unfold others. induction l as [|p l IH]; [done|].
  rewrite not_elem_of_cons in H. rewrite filter_cons_True by naive_solver.
  by rewrite IH by naive_solver.
Qed.

Lemma others_middle blk pre post :
  NoDup (pre ++ blk :: post) -> others blk (pre ++ blk :: post) = pre ++ post.
Proof.
  rewrite NoDup_app, NoDup_cons. intros (_ & H1 & H2 & _). unfold others.
  rewrite filter_app, filter_cons_False by auto.
  fold (others blk pre) (others blk post). rewrite !others_not_in; [done|done|].
  intros ?. by eapply H1; [|left].
Qed.

Lemma others_perm blk l : NoDup l -> blk ∈ l -> blk :: others blk l ≡ₚ l.
Proof.
  intros Hnd (pre & post & ->)%list_elem_of_split. rewrite others_middle by done.
  apply Permutation_middle.
Qed.

Lemma moveToHead_ok blk s :
  NoDup (blks s) -> blk ∈ blks s -> assoc s = Z.of_nat (length (blks s)) ->
  moveToHead blk s = Ok (s <| blks := blk :: others blk (blks s) |>).
Proof.
  destruct s as [a l]; simpl. intros Hnd (pre & post & ->)%list_elem_of_split ->.
  rewrite others_middle by done. unfold moveToHead. cbn [assoc blks].
  destruct pre as [|p pre].
  - change (vget _ 0) with (Ok blk). cbn [mbind outcome_bind]. by rewrite decide_True.
  - apply NoDup_app in Hnd as (_ & Hb & _).
    assert (blk ∉ p :: pre) as Hin by (intros ?; by eapply Hb; [|left]).
    change (vget _ 0) with (Ok p). cbn [mbind outcome_bind].
    rewrite decide_False by (intros ->; apply Hin; left).
    pose proof (head_loop_spec (S (Z.to_nat (Z.of_nat (length ((p :: pre) ++ blk :: post)))))
      (Z.of_nat (length ((p :: pre) ++ blk :: post))) blk [] blk (p :: pre) post) as Hl.
    change (Z.of_nat (length [])) with 0 in Hl. rewrite app_nil_l in Hl.
    rewrite Hl; [done| | |]; rewrite ?length_app; simpl; try lia.
    rewrite list_elem_of_In in Hin. simpl in Hin. tauto.
Qed.

Lemma moveToTail_ok blk s :
  NoDup (blks s) -> blk ∈ blks s -> assoc s = Z.of_nat (length (blks s)) ->
  moveToTail blk s = Ok (s <| blks := others blk (blks s) ++ [blk] |>).
Proof.
  destruct s as [a l]; simpl. intros Hnd (pre & post & ->)%list_elem_of_split ->.
  rewrite others_middle by done. unfold moveToTail. simpl assoc. simpl blks.
  apply NoDup_app in Hnd as (_ & _ & [Hin _]%NoDup_cons).
  replace (Z.of_nat (length (pre ++ blk :: post)) - 1)
    with (Z.of_nat (length pre + length post)) by (rewrite length_app; simpl; lia).
  destruct (vget_lt (pre ++ blk :: post) (Z.of_nat (length pre + length post))) as [t Ht].
  { rewrite length_app. simpl. lia. }
  rewrite Ht. simpl. case_decide as E.
  - subst t. apply vget_ok in Ht as [_ Ht]. rewrite Nat2Z.id in Ht.
    destruct post as [|q post _] using rev_ind; [by rewrite app_nil_r|].
    exfalso. apply Hin. rewrite app_comm_cons, app_assoc in Ht.
    rewrite lookup_app_r in Ht by (rewrite !length_app; simpl; lia).
    rewrite !length_app in Ht. simpl in Ht.
    replace (_ - _)%nat with 0%nat in Ht by lia. injection Ht as ->.
    apply elem_of_app. right. left.
  - pose proof (tail_loop_spec (S (Z.to_nat (Z.of_nat (length (pre ++ blk :: post))))) blk [] blk pre post) as Hl.
    rewrite app_nil_r in Hl. rewrite Hl; simpl; [by rewrite app_assoc| |].
    + by rewrite <- list_elem_of_In.
    + rewrite length_app. simpl. lia.
Qed.

(** On a set whose ways are distinct, moving a block of the set to the head
    or to the tail never fails an assertion and keeps the order of the others:
    the LRU order becomes the block before, or after, all other blocks. *)
Theorem move_reorders blk s :
  NoDup (blks s) -> blk ∈ blks s -> assoc s = Z.of_nat (length (blks s)) ->
  moveToHead blk s = Ok (s <| blks := blk :: others blk (blks s) |>) /\
  moveToTail blk s = Ok (s <| blks := others blk (blks s) ++ [blk] |>) /\
  blk :: others blk (blks s) ≡ₚ blks s.
Proof. auto using moveToHead_ok, moveToTail_ok, others_perm. Qed.

Lemma move_reorders_witness :
  moveToHead 5 (MkCacheSet 4 [4; 7; 5; 6]%nat) = Ok (MkCacheSet 4 [5; 4; 7; 6]%nat) /\
  moveToTail 5 (MkCacheSet 4 [4; 7; 5; 6]%nat) = Ok (MkCacheSet 4 [4; 7; 6; 5]%nat).
Proof.
  destruct (move_reorders 5 (MkCacheSet 4 [4; 7; 5; 6]%nat)) as (H1 & H2 & _).
  - vm_compute. repeat constructor; rewrite list_elem_of_In; simpl; lia.
  - apply list_elem_of_In. simpl. auto.
  - reflexivity.
  - split; [exact H1 | exact H2].
Defined.

(** What [findBlk] returns: the first matching way, if any. *)
Lemma findBlk_spec store s tag sec :
  assoc s = Z.of_nat (length (blks s)) ->
  (forall p, p ∈ blks s -> is_Some (store !! p)) ->
  exists r, findBlk store s tag sec = Ok r /\
    match r with
    | Some p => exists pre post b, blks s = pre ++ p :: post /\ store !! p = Some b /\
        matches tag sec b = true /\
        forall q c, q ∈ pre -> store !! q = Some c -> matches tag sec c = false
    | None => forall q c, q ∈ blks s -> store !! q = Some c -> matches tag sec c = false
    end.
Proof.
  intros Ha Hs. unfold findBlk, findBlk_way.
  destruct (Z.ltb_spec (Z.of_nat (length (blks s))) (assoc s)); [lia|].
  rewrite take_ge by lia. clear Ha H. generalize 0.
  induction (blks s) as [|p l IH]; intros i; simpl.
  { eexists. split; [done|]. simpl. intros ? ? ?%elem_of_nil. done. }
  destruct (Hs p) as [b Hb]; [left|]. unfold pget. rewrite Hb. simpl.
  destruct (matches tag sec b) eqn:E; simpl.
  - eexists. split; [done|]. exists [], l, b. split_and!; try done.
    intros ? ? ?%elem_of_nil. done.
  - destruct (IH (fun q Hq => Hs q (list_elem_of_further _ _ _ Hq)) (i + 1)) as (r & Er & Hr).
    exists r. split; [done|]. destruct r as [q|].
    + destruct Hr as (pre & post & c & -> & ? & ? & Hpre). exists (p :: pre), post, c.
      split_and!; try done. intros q' c' [->|Hq]%elem_of_cons Hc; [congruence|eauto].
    + intros q' c' [->|Hq]%elem_of_cons Hc; [congruence|eauto].
Qed.

End CacheSet.
