(* ===== verification/BaseSetAssoc.v ===== *)
(** The set-associative tag store: mem/cache/tags/base.hh, base.cc,
    base_set_assoc.hh and base_set_assoc.cc.

    The blocks are an array; a set holds pointers into it. The values the tag
    store reads from its surroundings are arguments: [curTick] is the current
    tick, [maxMasters] the number of masters of the system and [clockPeriod] the
    period of the cache's clock. Statistics are integers ([Z]); the averages and
    formulas derived from them when they are dumped are not part of the state. *)

From S2P Require Import Prelude IntMath Request MemCmd Packet Blk CacheSet.
Local Open Scope Z_scope.

Module BaseSetAssoc.

(** The parameters the constructor reads. *)
Record Params := MkParams {
  p_size : Z;
  p_block_size : Z;
  p_assoc : Z;
  p_hit_latency : Z;
  p_sequential_access : bool;
}.

Record Tags := MkTags {
  blkSize : Z;
  size : Z;
  accessLatency : Z;
  warmupBound : Z;
  warmedUp : bool;
  numBlocks : Z;
  assoc : Z;
  numSets : Z;
  sequentialAccess : bool;
  sets : list CacheSet.CacheSet;
  blks : list Blk.CacheBlk;
  setShift : Z;
  tagShift : Z;
  setMask : Z;
  blkMask : Z;
  replacements : Z;
  tagsInUse : Z;
  totalRefs : Z;
  sampledRefs : Z;
  warmupCycle : Z;
  occupancies : list Z;
  occupanciesTaskId : list Z;
  ageTaskId : list (list Z);
  tagAccesses : Z;
  dataAccesses : Z;
}.

#[global] Instance eta_Tags : Eta Tags := fun t =>
  MkTags (blkSize t) (size t) (accessLatency t) (warmupBound t) (warmedUp t) (numBlocks t)
    (assoc t) (numSets t) (sequentialAccess t) (sets t) (blks t) (setShift t) (tagShift t)
    (setMask t) (blkMask t) (replacements t) (tagsInUse t) (totalRefs t) (sampledRefs t)
    (warmupCycle t) (occupancies t) (occupanciesTaskId t) (ageTaskId t) (tagAccesses t)
    (dataAccesses t).

(** The block set up by the inner loop of the constructor, way [j] of set [i].
    The bytes of [new uint8_t[]] are unspecified: [fresh] is the contents. *)
Definition new_blk (fresh : list Z) (blkSize i j : Z) : Blk.CacheBlk :=
  Blk.invalidate (Blk.CacheBlk0 <| Blk.data := fresh |>)
    <| Blk.tag := j |> <| Blk.whenReady := 0 |> <| Blk.isTouched := false |>
    <| Blk.size := blkSize |> <| Blk.set := i |>.

(** The constructor, with the statistics registered for [masters] masters. The
    nested loops visit set [i], way [j] with [blkIndex = i * assoc + j]. *)
Definition BaseSetAssoc_new (fresh : list Z) (masters : Z) (p : Params) : outcome Tags :=
  let blkSize := p_block_size p in
  let assoc := p_assoc p in
  _ ← ensure Undefined (negb (u32 (blkSize * assoc) =? 0));
  let numSets := p_size p / u32 (blkSize * assoc) in
  _ ← ensure FatalError (negb ((blkSize <? 4) || negb (IntMath.isPowerOf2 32 blkSize)));
  _ ← ensure FatalError (negb ((numSets <=? 0) || negb (IntMath.isPowerOf2 32 numSets)));
  _ ← ensure FatalError (negb (assoc <=? 0));
  setShift ← IntMath.floorLog2 blkSize;
  s ← IntMath.floorLog2 numSets;
  let n := Z.to_nat numSets in
  let a := Z.to_nat assoc in
  Ok {| blkSize := blkSize; size := p_size p; accessLatency := p_hit_latency p;
        warmupBound := s32 (numSets * assoc); warmedUp := false;
        numBlocks := u32 (numSets * assoc); assoc := assoc; numSets := numSets;
        sequentialAccess := p_sequential_access p;
        sets := (fun i => CacheSet.MkCacheSet assoc (seq (i * a) a)) <$> seq 0 n;
        blks := (fun blkIndex => new_blk fresh blkSize (Z.of_nat (blkIndex / a))
                                  (Z.of_nat (blkIndex mod a))) <$> seq 0 (n * a);
        setShift := setShift; tagShift := setShift + s;
        setMask := numSets - 1; blkMask := blkSize - 1;
        replacements := 0; tagsInUse := 0; totalRefs := 0; sampledRefs := 0;
        warmupCycle := 0; occupancies := replicate (Z.to_nat masters) 0;
        occupanciesTaskId := replicate (Z.to_nat Request.NumTaskId) 0;
        ageTaskId := replicate (Z.to_nat Request.NumTaskId) (replicate 5 0);
        tagAccesses := 0; dataAccesses := 0 |}.

Definition extractBlkOffset (t : Tags) (addr : Z) : Z :=
  s32 (Z.land addr (u32 (blkSize t - 1))).
Definition extractTag (t : Tags) (addr : Z) : Z := Z.shiftr addr (tagShift t).
Definition extractSet (t : Tags) (addr : Z) : Z :=
  s32 (Z.land (Z.shiftr addr (setShift t)) (setMask t)).
Definition blkAlign (t : Tags) (addr : Z) : Z := Z.land addr (unot 64 (blkMask t)).
Definition regenerateBlkAddr (t : Tags) (tag set : Z) : Z :=
  Z.lor (u64 (Z.shiftl tag (tagShift t))) (u64 (Z.shiftl set (setShift t))).

Definition ticksToCycles (clockPeriod t : Z) : Z := IntMath.divCeil 64 t clockPeriod.

Definition findBlock (t : Tags) (addr : Z) (is_secure : bool) : outcome (option nat) :=
  s ← vget (sets t) (u32 (extractSet t addr));
  CacheSet.findBlk (blks t) s (extractTag t addr) is_secure.

(** The result is the block, the access latency and the state. *)
Definition accessBlock (curTick clockPeriod : Z) (t : Tags) (addr : Z) (is_secure : bool)
  : outcome (option nat * Z * Tags) :=
  s ← vget (sets t) (extractSet t addr);
  blk ← CacheSet.findBlk (blks t) s (extractTag t addr) is_secure;
  let t := t <| tagAccesses ::= Z.add (assoc t) |> in
  let t := if sequentialAccess t
           then match blk with Some _ => t <| dataAccesses ::= Z.add 1 |> | None => t end
           else t <| dataAccesses ::= Z.add (assoc t) |> in
  match blk with
  | None => Ok (None, accessLatency t, t)
  | Some p =>
      b ← pget (blks t) p;
      let wait := ticksToCycles clockPeriod (Blk.whenReady b - curTick) in
      let lat := if (Blk.whenReady b >? curTick) && (wait >? accessLatency t)
                 then wait else accessLatency t in
      v ← pupd (fun b => b <| Blk.refCount ::= Z.add 1 |>) (blks t) p;
      Ok (Some p, lat, t <| blks := v |>)
  end.

(** The loop of [findVictim]: the first invalid way, else the last one. *)
Fixpoint victim_loop (store : list Blk.CacheBlk) (ways : list nat) (blk : option nat)
  : outcome (option nat) :=
  match ways with
  | [] => Ok blk
  | p :: ways =>
      b ← pget store p;
      if negb (Blk.isValid b) then Ok (Some p) else victim_loop store ways (Some p)
  end.

Definition findVictim (t : Tags) (addr : Z) : outcome (option nat) :=
  s ← vget (sets t) (extractSet t addr);
  _ ← ensure Undefined (assoc t <=? Z.of_nat (length (CacheSet.blks s)));
  victim_loop (blks t) (take (Z.to_nat (assoc t)) (CacheSet.blks s)) None.

(** [occupancies[m] += d], after the assertion on [m]. *)
Definition count_master (maxMasters m d : Z) (t : Tags) : outcome Tags :=
  _ ← ensure AssertFailed (m <? maxMasters);
  x ← vget (occupancies t) m;
  v ← vset (occupancies t) m (x + d);
  Ok (t <| occupancies := v |>).

Definition invalidate (curTick maxMasters : Z) (blk : nat) (t : Tags) : outcome Tags :=
  b ← pget (blks t) blk;
  _ ← ensure AssertFailed (Blk.isValid b);
  let t := t <| tagsInUse ::= Z.pred |> in
  t ← count_master maxMasters (Blk.srcMasterId b) (-1) t;
  v ← pupd (fun b => b <| Blk.srcMasterId := Request.invldMasterId |>
                       <| Blk.task_id := Request.TaskId_Unknown |>
                       <| Blk.tickInserted := curTick |>) (blks t) blk;
  Ok (t <| blks := v |>).

(** The [!blk->isTouched] block of [insertBlock]. *)
Definition touch (curTick : Z) (b : Blk.CacheBlk) (t : Tags) : Tags :=
  if Blk.isTouched b then t
  else
    let t := t <| tagsInUse ::= Z.succ |> in
    if negb (warmedUp t) && (tagsInUse t >=? warmupBound t)
    then t <| warmedUp := true |> <| warmupCycle := curTick |>
    else t.

Definition insertBlock (curTick maxMasters : Z) (pkt : Packet.Packet) (blk : nat) (t : Tags)
  : outcome Tags :=
  addr ← Packet.getAddr pkt;
  let master_id := Request.masterId (Packet.req pkt) in
  let task_id := Request.taskId (Packet.req pkt) in
  b ← pget (blks t) blk;
  let t := touch curTick b t in
  '(b, t) ←
    (if Blk.isValid b then
       let t := t <| replacements ::= Z.succ |> <| totalRefs ::= Z.add (Blk.refCount b) |>
                  <| sampledRefs ::= Z.succ |> in
       t ← count_master maxMasters (Blk.srcMasterId b) (-1) t;
       Ok (Blk.invalidate (b <| Blk.refCount := 0 |>), t)
     else Ok (b, t));
  let b := b <| Blk.isTouched := true |> <| Blk.tag := extractTag t addr |> in
  t ← count_master maxMasters master_id 1 t;
  let b := b <| Blk.srcMasterId := master_id |> <| Blk.task_id := task_id |>
             <| Blk.tickInserted := curTick |> in
  Ok (t <| blks := <[blk := b]> (blks t) |>
        <| tagAccesses ::= Z.succ |> <| dataAccesses ::= Z.succ |>).

Definition clearLocks (t : Tags) : Tags :=
  t <| blks ::= fmap (fun b => b <| Blk.lockList := [] |>) |>.

Definition cleanupRefs (t : Tags) : Tags :=
  foldl (fun t b =>
    if Blk.isValid b
    then t <| totalRefs ::= Z.add (Blk.refCount b) |> <| sampledRefs ::= Z.succ |>
    else t) t (blks t).

(** The age bucket of [computeStats]; [us] and [ms] are the ticks of a
    microsecond and a millisecond. *)
Definition age_index (us ms age : Z) : Z :=
  if age / us <? 10 then 0
  else if age / us <? 100 then 1
  else if age / ms <? 1 then 2
  else if age / ms <? 10 then 3
  else 4.

(** One round of the second loop of [computeStats]. *)
Definition count_age (curTick us ms : Z) (t : Tags) (b : Blk.CacheBlk) : outcome Tags :=
  if Blk.isValid b then
    _ ← ensure AssertFailed (Blk.task_id b <? Request.NumTaskId);
    n ← vget (occupanciesTaskId t) (Blk.task_id b);
    occ ← vset (occupanciesTaskId t) (Blk.task_id b) (n + 1);
    _ ← ensure AssertFailed (Blk.tickInserted b <=? curTick);
    let k := age_index us ms (curTick - Blk.tickInserted b) in
    row ← vget (ageTaskId t) (Blk.task_id b);
    x ← vget row k;
    row ← vset row k (x + 1);
    ages ← vset (ageTaskId t) (Blk.task_id b) row;
    Ok (t <| occupanciesTaskId := occ |> <| ageTaskId := ages |>)
  else Ok t.

Fixpoint count_ages (curTick us ms : Z) (t : Tags) (l : list Blk.CacheBlk) : outcome Tags :=
  match l with
  | [] => Ok t
  | b :: l => t ← count_age curTick us ms t b; count_ages curTick us ms t l
  end.

Definition computeStats (curTick us ms : Z) (t : Tags) : outcome Tags :=
  let t := t <| occupanciesTaskId := replicate (Z.to_nat Request.NumTaskId) 0 |>
             <| ageTaskId := replicate (Z.to_nat Request.NumTaskId) (replicate 5 0) |> in
  count_ages curTick us ms t (blks t).

(** [forEachBlk]: the visitor may change the block it visits and stops the
    traversal by returning [false]. *)
Fixpoint forEach (visitor : Blk.CacheBlk -> Blk.CacheBlk * bool) (l : list Blk.CacheBlk)
  : list Blk.CacheBlk :=
  match l with
  | [] => []
  | b :: l => let '(b', more) := visitor b in
              if more : bool then b' :: forEach visitor l else b' :: l
  end.

Definition forEachBlk (visitor : Blk.CacheBlk -> Blk.CacheBlk * bool) (t : Tags) : Tags :=
  t <| blks ::= forEach visitor |>.

(** ** Geometry *)

(** Block size [2^k], [2^s] sets, and the shifts and masks derived from them. *)
Record geometry (t : Tags) (k s : Z) : Prop := {
  geo_k : 2 <= k < 32;
  geo_s : 0 <= s < 31;
  geo_blkSize : blkSize t = 2 ^ k;
  geo_numSets : numSets t = 2 ^ s;
  geo_setShift : setShift t = k;
  geo_tagShift : tagShift t = k + s;
  geo_setMask : setMask t = 2 ^ s - 1;
  geo_blkMask : blkMask t = 2 ^ k - 1;
}.

Lemma extractSet_div t k s addr :
  geometry t k s -> 0 <= addr -> extractSet t addr = addr / 2 ^ k mod 2 ^ s.
Proof.
  intros [] ?. unfold extractSet. rewrite geo_setShift0, geo_setMask0.
  rewrite land_mask, Z.shiftr_div_pow2 by lia. apply s32_small.
  pose proof (Z.mod_pos_bound (addr / 2 ^ k) (2 ^ s) ltac:(apply pow2_pos; lia)).
  pose proof (Z.pow_lt_mono_r 2 s 31). lia.
Qed.

Lemma extractSet_range t k s addr :
  geometry t k s -> 0 <= addr -> 0 <= extractSet t addr < numSets t.
Proof.
  intros Hg ?. rewrite (extractSet_div _ k s) by done. destruct Hg.
  rewrite geo_numSets0. apply Z.mod_pos_bound, pow2_pos. lia.
Qed.

Lemma extractTag_div t k s addr :
  geometry t k s -> 0 <= addr -> extractTag t addr = addr / 2 ^ k / 2 ^ s.
Proof.
  intros [] ?. unfold extractTag. rewrite geo_tagShift0, Z.shiftr_div_pow2 by lia.
  rewrite Z.pow_add_r by lia. rewrite Z.div_div; [done| |].
  - pose proof (pow2_pos k). lia.
  - apply pow2_pos. lia.
Qed.

(** Disjoint bit ranges: [|] adds. *)
Lemma lor_shiftl_add a b n :
  0 <= n -> 0 <= b < 2 ^ n -> Z.lor (a * 2 ^ n) b = a * 2 ^ n + b.
Proof.
  intros Hn Hb. rewrite <- Z.shiftl_mul_pow2 by done.
  assert (Z.land (Z.shiftl a n) b = 0) as H.
  { apply Z.bits_inj'. intros i Hi. rewrite Z.land_spec, Z.shiftl_spec, Z.bits_0 by done.
    destruct (Z.lt_ge_cases i n).
    - by rewrite Z.testbit_neg_r by lia.
    - rewrite (in_width_testbit_high n b i) by done. apply andb_false_r. }
  by rewrite <- Z.lxor_lor, Z.add_nocarry_lxor.
Qed.

Lemma regenerate_add t k s tag set :
  geometry t k s -> 0 <= tag -> 0 <= set < 2 ^ s -> (tag * 2 ^ s + set) * 2 ^ k < 2 ^ 64 ->
  regenerateBlkAddr t tag set = (tag * 2 ^ s + set) * 2 ^ k.
Proof.
  intros [] Ht Hset Hw. unfold regenerateBlkAddr. rewrite geo_tagShift0, geo_setShift0.
  rewrite !Z.shiftl_mul_pow2 by lia.
  pose proof (pow2_pos k ltac:(lia)). pose proof (pow2_pos s ltac:(lia)).
  assert (tag * 2 ^ (k + s) + set * 2 ^ k = (tag * 2 ^ s + set) * 2 ^ k) as E.
  { rewrite Z.pow_add_r by lia. ring. }
  assert (0 <= tag * 2 ^ (k + s)) by (apply Z.mul_nonneg_nonneg; [done|apply Z.pow_nonneg; lia]).
  rewrite (uwrap_small 64 (tag * _)), (uwrap_small 64 (set * _)) by (split; nia).
  rewrite lor_shiftl_add; [done|lia|].
  rewrite Z.pow_add_r by lia. nia.
Qed.

(** Tag and set index of an address determine its block: regenerating the
    address from them gives [blkAlign] of it, the address rounded down to the
    block size; and tag and set are recovered from a regenerated address. *)
Theorem regenerateBlkAddr_roundtrip t k s addr :
  geometry t k s -> in_width 64 addr ->
  let a := regenerateBlkAddr t (extractTag t addr) (extractSet t addr) in
  a = blkAlign t addr /\ a = addr - addr mod blkSize t /\
  extractTag t a = extractTag t addr /\ extractSet t a = extractSet t addr.
Proof.
  intros Hg Ha a. pose proof Ha as [Ha0 Ha1]. pose proof Hg as [].
  pose proof (pow2_pos k ltac:(lia)). pose proof (pow2_pos s ltac:(lia)).
  assert (a = addr / 2 ^ k * 2 ^ k) as Ea.
  { unfold a. rewrite (extractTag_div _ k s), (extractSet_div _ k s) by done.
    pose proof (Z.div_mod (addr / 2 ^ k) (2 ^ s) ltac:(lia)) as Ed.
    pose proof (Z.mod_pos_bound (addr / 2 ^ k) (2 ^ s) ltac:(lia)).
    pose proof (Z.mul_div_le addr (2 ^ k) ltac:(lia)).
    rewrite (regenerate_add _ k s); [|done| |done|]; rewrite ?(Z.mul_comm _ (2 ^ s)), <- ?Ed.
    - done.
    - apply Z.div_pos; [apply Z.div_pos|]; lia.
    - nia. }
  assert (addr / 2 ^ k * 2 ^ k = addr - addr mod 2 ^ k) as Er.
  { pose proof (Z.div_mod addr (2 ^ k) ltac:(lia)). lia. }
  assert (0 <= a) as Ha' by (rewrite Ea; apply Z.mul_nonneg_nonneg; [apply Z.div_pos|]; lia).
  split_and!.
  - unfold blkAlign. rewrite geo_blkMask0, land_not_mask by (done || lia). lia.
  - rewrite geo_blkSize0. lia.
  - rewrite !(extractTag_div _ k s) by done. by rewrite Ea, Z.div_mul by lia.
  - rewrite !(extractSet_div _ k s) by done. by rewrite Ea, Z.div_mul by lia.
Qed.

Lemma regenerateBlkAddr_roundtrip_witness :
  exists t, BaseSetAssoc_new [] 1 (MkParams 0x8000 64 2 2 false) = Ok t /\
    regenerateBlkAddr t (extractTag t 0x12345678) (extractSet t 0x12345678) = 0x12345640.
Proof.
  eexists. split; [reflexivity|].
  assert (forall t, BaseSetAssoc_new [] 1 (MkParams 0x8000 64 2 2 false) = Ok t ->
    regenerateBlkAddr t (extractTag t 0x12345678) (extractSet t 0x12345678) = 0x12345640) as H.
  { intros t E. destruct (regenerateBlkAddr_roundtrip t 6 8 0x12345678) as (_ & Hr & _ & _).
    - vm_compute in E. injection E as <-. split; vm_compute; auto; split; congruence.
    - split; vm_compute; congruence.
    - rewrite Hr. vm_compute in E. injection E as <-. reflexivity. }
  apply H. reflexivity.
Defined.

(** ** Well-formed tag stores *)

(** Every set holds, in some order, its own [assoc] blocks of the array. *)
Record wf (t : Tags) : Prop := {
  wf_geo : exists k s, geometry t k s;
  wf_assoc : 0 < assoc t;
  wf_sets : length (sets t) = Z.to_nat (numSets t);
  wf_ways i cs : sets t !! i = Some cs ->
    CacheSet.assoc cs = assoc t /\
    CacheSet.blks cs ≡ₚ seq (i * Z.to_nat (assoc t)) (Z.to_nat (assoc t));
  wf_blks : length (blks t) = (Z.to_nat (numSets t) * Z.to_nat (assoc t))%nat;
  wf_set p b : blks t !! p = Some b -> Blk.set b = Z.of_nat (p / Z.to_nat (assoc t));
}.

Lemma pow2_bounded n : IntMath.isPowerOf2 32 n = true -> 0 <= n < 2 ^ 32 ->
  exists k, 0 <= k < 32 /\ n = 2 ^ k.
Proof. intros H ?. by apply IntMath.isPowerOf2_true in H. Qed.

(** The parameters the constructor accepts: a block size of at least 4, a number
    of sets that are powers of two, and sizes that fit their C types. *)
Definition valid_params (p : Params) : bool :=
  (4 <=? p_block_size p) && (0 <? p_assoc p) && (p_block_size p * p_assoc p <? 2 ^ 32) &&
  (0 <=? p_size p) && (p_size p <? 2 ^ 32) && IntMath.isPowerOf2 32 (p_block_size p) &&
  IntMath.isPowerOf2 32 (p_size p / (p_block_size p * p_assoc p)).

(** It builds a well-formed store of invalid blocks. *)
Lemma tags_new_wf fresh masters p :
  valid_params p = true ->
  exists t, BaseSetAssoc_new fresh masters p = Ok t /\ wf t /\
    (forall q b, blks t !! q = Some b -> Blk.status b = 0 /\ Blk.isTouched b = false) /\
    occupancies t = replicate (Z.to_nat masters) 0 /\ tagsInUse t = 0 /\
    blkSize t = p_block_size p /\ assoc t = p_assoc p /\
    numSets t = p_size p / (p_block_size p * p_assoc p).
Proof.
  unfold valid_params. rewrite !andb_true_iff, !Z.leb_le, !Z.ltb_lt.
  intros ((((((H4 & Ha) & Hprod) & Hs0) & Hs1) & Hpb) & Hps). unfold BaseSetAssoc_new.
  rewrite (uwrap_small 32 (p_block_size p * p_assoc p)) by (split; nia).
  set (n := p_size p / (p_block_size p * p_assoc p)) in *.
  assert (0 <= n < 2 ^ 30) as Hn.
  { split; [apply Z.div_pos; nia|]. apply Z.div_lt_upper_bound; nia. }
  destruct (pow2_bounded _ Hpb) as (k & Hk & Ek); [nia|].
  destruct (pow2_bounded _ Hps) as (s & Hs & Es); [lia|].
  assert (2 <= k).
  { destruct (Z.lt_ge_cases k 2); [|done]. pose proof (Z.pow_lt_mono_r 2 k 2). lia. }
  assert (s < 30).
  { destruct (Z.lt_ge_cases s 30); [done|]. pose proof (Z.pow_le_mono_r 2 30 s). lia. }
  pose proof (pow2_pos s ltac:(lia)).
  rewrite Hpb, Hps, !IntMath.floorLog2_ok by lia.
  destruct (Z.eqb_spec (p_block_size p * p_assoc p) 0); [nia|].
  destruct (Z.ltb_spec (p_block_size p) 4); [lia|].
  destruct (Z.leb_spec n 0); [lia|]. destruct (Z.leb_spec (p_assoc p) 0); [lia|].
  cbn [negb orb ensure mbind outcome_bind]. eexists. split; [done|].
  split; [|split; [|done]].
  - split; simpl.
    + exists k, s. rewrite Ek, Es, !Z.log2_pow2 by lia. split; simpl; (done || lia).
    + done.
    + by rewrite length_fmap, length_seq.
    + intros i cs Hi. rewrite list_lookup_fmap in Hi.
      destruct (seq 0 (Z.to_nat n) !! i) as [i'|] eqn:E; [|done].
      apply lookup_seq in E as [-> _]. injection Hi as <-. done.
    + by rewrite length_fmap, length_seq.
    + intros q b Hq. rewrite list_lookup_fmap in Hq.
      destruct (seq 0 _ !! q) as [i'|] eqn:E; [|done].
      apply lookup_seq in E as [-> _]. injection Hq as <-. done.
  - intros q b Hq. simpl in Hq. rewrite list_lookup_fmap in Hq.
    destruct (seq 0 _ !! q) as [i'|] eqn:E; [|done].
    apply lookup_seq in E as [-> _]. injection Hq as <-. done.
Qed.

(** ** Accounting

    Between two operations of the cache a block is touched exactly when it is
    valid, and the statistics count the valid blocks. *)

Record blk_ok (masters : Z) (b : Blk.CacheBlk) : Prop := {
  bo_touched : Blk.isTouched b = Blk.isValid b;
  bo_master : Blk.isValid b = true -> 0 <= Blk.srcMasterId b < masters;
  bo_status : Blk.isValid b = false -> Blk.status b = 0;
}.

Definition owned_by (m : nat) (b : Blk.CacheBlk) : bool :=
  Blk.isValid b && (Blk.srcMasterId b =? Z.of_nat m).

Record acct (masters : Z) (t : Tags) : Prop := {
  ac_blk p b : blks t !! p = Some b -> blk_ok masters b;
  ac_len : Z.of_nat (length (occupancies t)) = masters;
  ac_used : tagsInUse t = countb Blk.isValid (blks t);
  ac_occ m : (m < length (occupancies t))%nat ->
    occupancies t !! m = Some (countb (owned_by m) (blks t));
}.

(** The fields no operation changes. *)
Definition same_geo (t t' : Tags) : Prop :=
  blkSize t' = blkSize t /\ numSets t' = numSets t /\ assoc t' = assoc t /\
  setShift t' = setShift t /\ tagShift t' = tagShift t /\ setMask t' = setMask t /\
  blkMask t' = blkMask t.

Lemma same_geo_geometry t t' k s : same_geo t t' -> geometry t k s -> geometry t' k s.
Proof. intros (?&?&?&?&?&?&?) []. split; congruence. Qed.

Lemma same_geo_extract t t' a :
  same_geo t t' -> extractTag t' a = extractTag t a /\ extractSet t' a = extractSet t a.
Proof.
  intros (?&?&?&Hs&Ht&Hm&?). unfold extractTag, extractSet. by rewrite Hs, Ht, Hm.
Qed.

(** One block and the way order of one set change. *)
Lemma wf_update t t' p b b' :
  wf t -> same_geo t t' -> blks t !! p = Some b -> blks t' = <[p := b']> (blks t) ->
  Blk.set b' = Blk.set b ->
  (forall i cs', sets t' !! i = Some cs' -> exists cs, sets t !! i = Some cs /\
     CacheSet.assoc cs' = CacheSet.assoc cs /\ CacheSet.blks cs' ≡ₚ CacheSet.blks cs) ->
  length (sets t') = length (sets t) ->
  wf t'.
Proof.
  intros [(k & s & Hg) ? ? Hw Hb Hset] Hgeo Hp Eb Es Hways Hlen.
  pose proof Hgeo as (E1 & E2 & E3 & _).
  split; rewrite ?E1, ?E2, ?E3, ?Eb; try done.
  - exists k, s. by eapply same_geo_geometry.
  - congruence.
  - intros i cs' Hi. destruct (Hways i cs' Hi) as (cs & Hcs & -> & ->). eauto.
  - by rewrite length_insert.
  - intros q c. destruct (decide (p = q)) as [<-|Hne].
    + rewrite list_lookup_insert_eq by (by eapply lookup_lt_Some). intros [= <-].
      rewrite Es. eauto.
    + rewrite list_lookup_insert_ne by done. eauto.
Qed.

(** The new occupancies when a block of one owner becomes one of another. *)
Lemma acct_update masters t t' p b b' :
  acct masters t -> blks t !! p = Some b -> blks t' = <[p := b']> (blks t) ->
  blk_ok masters b' ->
  tagsInUse t' = tagsInUse t - b2z (Blk.isValid b) + b2z (Blk.isValid b') ->
  length (occupancies t') = length (occupancies t) ->
  (forall m x, occupancies t !! m = Some x ->
     occupancies t' !! m = Some (x - b2z (owned_by m b) + b2z (owned_by m b'))) ->
  acct masters t'.
Proof.
  intros [Hb Hl Hu Ho] Hp Eb Hok Eu El Eo. split; rewrite ?Eb, ?El.
  - intros q c. destruct (decide (p = q)) as [<-|Hne].
    + rewrite list_lookup_insert_eq by (by eapply lookup_lt_Some). by intros [= <-].
    + rewrite list_lookup_insert_ne by done. eauto.
  - done.
  - rewrite Eu, Hu. by rewrite (countb_insert _ _ _ _ _ Hp).
  - intros m Hm. erewrite Eo by (apply Ho; lia). by rewrite (countb_insert _ _ _ _ _ Hp).
Qed.

Lemma count_master_ok masters m d t :
  0 <= m < masters -> Z.of_nat (length (occupancies t)) = masters ->
  count_master masters m d t = Ok (t <| occupancies ::= alter (Z.add d) (Z.to_nat m) |>).
Proof.
  intros Hm Hl. unfold count_master. destruct (Z.ltb_spec m masters); [|lia]. simpl.
  destruct (vget_lt (occupancies t) m) as [x Hx]; [lia|]. rewrite Hx. simpl.
  rewrite vset_lt by lia. simpl. do 2 f_equal.
  apply vget_ok in Hx as [_ Hx]. apply list_eq. intros i.
  destruct (decide (i = Z.to_nat m)) as [->|Hi].
  - rewrite list_lookup_insert_eq by lia. rewrite list_lookup_alter_eq, Hx. simpl.
    f_equal. lia.
  - by rewrite list_lookup_insert_ne, list_lookup_alter_ne by done.
Qed.

(** The block after [insertBlock]. *)
Definition inserted (curTick : Z) (pkt : Packet.Packet) (tag : Z) (b : Blk.CacheBlk)
  : Blk.CacheBlk :=
  (if Blk.isValid b then Blk.invalidate (b <| Blk.refCount := 0 |>) else b)
    <| Blk.isTouched := true |> <| Blk.tag := tag |>
    <| Blk.srcMasterId := Request.masterId (Packet.req pkt) |>
    <| Blk.task_id := Request.taskId (Packet.req pkt) |> <| Blk.tickInserted := curTick |>.

Lemma touch_frame curTick b t :
  let t' := touch curTick b t in
  same_geo t t' /\ sets t' = sets t /\ blks t' = blks t /\ occupancies t' = occupancies t /\
  tagsInUse t' = tagsInUse t + b2z (negb (Blk.isTouched b)).
Proof.
  unfold touch, same_geo. destruct (Blk.isTouched b); simpl; [split_and!; done || lia|].
  destruct (_ && _); simpl; split_and!; done || lia.
Qed.

Lemma insertBlock_ok curTick masters pkt p t b addr :
  acct masters t -> blks t !! p = Some b -> Packet.getAddr pkt = Ok addr ->
  0 <= Request.masterId (Packet.req pkt) < masters ->
  exists t', insertBlock curTick masters pkt p t = Ok t' /\ same_geo t t' /\
    sets t' = sets t /\ blks t' = <[p := inserted curTick pkt (extractTag t addr) b]> (blks t) /\
    tagsInUse t' = tagsInUse t + b2z (negb (Blk.isTouched b)) /\
    occupancies t' =
      alter (Z.add 1) (Z.to_nat (Request.masterId (Packet.req pkt)))
        (if Blk.isValid b then alter (Z.add (-1)) (Z.to_nat (Blk.srcMasterId b)) (occupancies t)
         else occupancies t).
Proof.
  intros Hac Hp Ha Hm. pose proof (ac_blk _ _ Hac _ _ Hp) as Hok.
  pose proof (ac_len _ _ Hac) as Hl.
  destruct (touch_frame curTick b t) as (Hg & Es & Eb & Eo & Eu). unfold insertBlock.
  rewrite Ha. unfold pget. rewrite Hp. cbn [mbind outcome_bind]. cbv zeta.
  set (u := touch curTick b t) in *.
  assert (extractTag u addr = extractTag t addr) as Et by (by apply same_geo_extract).
  unfold inserted. destruct (Blk.isValid b) eqn:Ev.
  - rewrite count_master_ok; [|by apply Hok|simpl; by rewrite Eo].
    cbn [mbind outcome_bind]. rewrite count_master_ok;
      [|done|simpl; by rewrite length_alter, Eo].
    cbn [mbind outcome_bind]. eexists. split; [done|]. unfold same_geo in *. simpl.
    rewrite Eo, Eb. unfold extractTag in *. simpl. rewrite Et. split_and!; done || tauto.
  - cbn [mbind outcome_bind]. rewrite count_master_ok; [|done|by rewrite Eo].
    cbn [mbind outcome_bind]. eexists. split; [done|]. unfold same_geo in *. simpl.
    rewrite Eo, Eb. unfold extractTag in *. simpl. rewrite Et. split_and!; done || tauto.
Qed.

(** The block after the cache dropped it: [tags->invalidate(blk)] followed by
    [blk->invalidate()]. *)
Definition dropped (curTick : Z) (b : Blk.CacheBlk) : Blk.CacheBlk :=
  Blk.invalidate (b <| Blk.srcMasterId := Request.invldMasterId |>
    <| Blk.task_id := Request.TaskId_Unknown |> <| Blk.tickInserted := curTick |>).

Lemma invalidate_ok curTick masters p t b :
  acct masters t -> blks t !! p = Some b -> Blk.isValid b = true ->
  exists t' b', invalidate curTick masters p t = Ok t' /\ same_geo t t' /\
    sets t' = sets t /\ blks t' = <[p := b']> (blks t) /\
    Blk.set b' = Blk.set b /\ Blk.invalidate b' = dropped curTick b /\
    tagsInUse t' = tagsInUse t - 1 /\
    occupancies t' = alter (Z.add (-1)) (Z.to_nat (Blk.srcMasterId b)) (occupancies t).
Proof.
  intros Hac Hp Hv. pose proof (ac_blk _ _ Hac _ _ Hp) as Hok.
  unfold invalidate, pget. rewrite Hp. cbn [mbind outcome_bind]. rewrite Hv.
  cbn [mbind outcome_bind ensure]. cbv zeta.
  rewrite count_master_ok; [|by apply Hok|by apply Hac].
  cbn [mbind outcome_bind]. unfold pupd, pget. simpl. rewrite Hp.
  cbn [mbind outcome_bind]. eexists _, _. split; [done|]. unfold same_geo. simpl.
  split_and!; done || lia.
Qed.

(** What [handleFill] adds to the status of the block it fills. *)
Definition fill_status (is_secure sharedAsserted memInhibitAsserted : bool)
  (b : Blk.CacheBlk) : Blk.CacheBlk :=
  let b := if is_secure then b <| Blk.status ::= Z.lor Blk.BlkSecure |> else b in
  let b := b <| Blk.status ::= Z.lor (Z.lor Blk.BlkValid Blk.BlkReadable) |> in
  if sharedAsserted then b
  else
    let b := b <| Blk.status ::= Z.lor Blk.BlkWritable |> in
    if memInhibitAsserted then b <| Blk.status ::= Z.lor Blk.BlkDirty |> else b.

(** What a block holds: its tag and security state, when it is valid. *)
Definition key : Type := Z * bool.
Definition slot (b : Blk.CacheBlk) : option key :=
  if Blk.isValid b then Some (Blk.tag b, Blk.isSecure b) else None.

Lemma matches_slot tag sec b : CacheSet.matches tag sec b = true <-> slot b = Some (tag, sec).
Proof.
  unfold CacheSet.matches, slot. destruct (Blk.isValid b); simpl.
  - rewrite andb_true_r, andb_true_iff, Z.eqb_eq, eqb_true_iff. naive_solver.
  - rewrite andb_false_r. naive_solver.
Qed.

(** A filled block holds its line and is accounted for. *)
Lemma filled_ok masters curTick pkt tag sec sh inh b :
  blk_ok masters b -> 0 <= Request.masterId (Packet.req pkt) < masters ->
  let b' := fill_status sec sh inh (inserted curTick pkt tag b) in
  blk_ok masters b' /\ slot b' = Some (tag, sec) /\ Blk.isValid b' = true /\
  Blk.set b' = Blk.set b /\ Blk.srcMasterId b' = Request.masterId (Packet.req pkt).
Proof.
  intros [_ _ Hs] Hm. cbv zeta.
  assert (exists b0, inserted curTick pkt tag b = b0 /\ Blk.status b0 = 0 /\
    Blk.tag b0 = tag /\ Blk.isTouched b0 = true /\
    Blk.srcMasterId b0 = Request.masterId (Packet.req pkt) /\ Blk.set b0 = Blk.set b)
    as (b0 & -> & E1 & E2 & E3 & E4 & E5).
  { eexists. split; [done|]. unfold inserted.
    destruct (Blk.isValid b); simpl; split_and!; auto. }
  destruct b0; simpl in *; subst. unfold slot.
  destruct sec, sh, inh; simpl; (split; [split; auto|]); auto; discriminate.
Qed.

(** [insertBlock] followed by the status update keeps the accounts. *)
Lemma acct_fill curTick masters pkt p t b tag sec sh inh t' :
  acct masters t -> blks t !! p = Some b ->
  0 <= Request.masterId (Packet.req pkt) < masters ->
  blks t' = <[p := fill_status sec sh inh (inserted curTick pkt tag b)]> (blks t) ->
  tagsInUse t' = tagsInUse t + b2z (negb (Blk.isTouched b)) ->
  occupancies t' =
    alter (Z.add 1) (Z.to_nat (Request.masterId (Packet.req pkt)))
      (if Blk.isValid b then alter (Z.add (-1)) (Z.to_nat (Blk.srcMasterId b)) (occupancies t)
       else occupancies t) ->
  acct masters t'.
Proof.
  intros Hac Hp Hm Eb Eu Eo. pose proof (ac_blk _ _ Hac _ _ Hp) as Hok.
  destruct (filled_ok masters curTick pkt tag sec sh inh b Hok Hm) as (Hok' & _ & Hv & _ & Hsrc).
  eapply acct_update; try done.
  - rewrite Eu, Hv, (bo_touched _ _ Hok). destruct (Blk.isValid b); simpl; lia.
  - rewrite Eo. by destruct (Blk.isValid b); rewrite ?length_alter.
  - intros m x Hx. rewrite Eo. unfold owned_by. rewrite Hv, Hsrc. simpl.
    destruct (Blk.isValid b) eqn:Evb; simpl.
    + pose proof (bo_master _ _ Hok Evb).
      rewrite !(alter_add_lookup _ _ _ _ _ (alter_add_lookup _ _ _ _ _ Hx)). f_equal.
      destruct (Z.eqb_spec (Blk.srcMasterId b) (Z.of_nat m)),
        (Z.eqb_spec (Request.masterId (Packet.req pkt)) (Z.of_nat m));
        repeat case_decide; simpl; lia.
    + rewrite (alter_add_lookup _ _ _ _ _ Hx). f_equal.
      destruct (Z.eqb_spec (Request.masterId (Packet.req pkt)) (Z.of_nat m));
        repeat case_decide; simpl; lia.
Qed.

Lemma acct_drop curTick masters p t b t' :
  acct masters t -> blks t !! p = Some b -> Blk.isValid b = true ->
  blks t' = <[p := dropped curTick b]> (blks t) ->
  tagsInUse t' = tagsInUse t - 1 ->
  occupancies t' = alter (Z.add (-1)) (Z.to_nat (Blk.srcMasterId b)) (occupancies t) ->
  acct masters t'.
Proof.
  intros Hac Hp Hv Eb Eu Eo. pose proof (ac_blk _ _ Hac _ _ Hp) as Hok.
  pose proof (bo_master _ _ Hok Hv). eapply acct_update; try done.
  - rewrite Eu, Hv. simpl. lia.
  - by rewrite Eo, length_alter.
  - intros m x Hx. rewrite Eo. unfold owned_by. rewrite Hv. simpl.
    rewrite (alter_add_lookup _ _ _ _ _ Hx). f_equal.
    destruct (Z.eqb_spec (Blk.srcMasterId b) (Z.of_nat m));
      repeat case_decide; simpl; lia.
Qed.

End BaseSetAssoc.
