(* ===== verification/LRU.v ===== *)
(** The LRU tag store, mem/cache/tags/lru.cc, as a refinement of an abstract LRU
    cache: per set, the list of the lines held, most recently used first. *)

From S2P Require Import Prelude IntMath Request MemCmd Packet Blk CacheSet BaseSetAssoc.
Import BaseSetAssoc.
Local Open Scope Z_scope.

Module LRU.

(** [sets[set].f(blk)]. *)
Definition on_set (f : nat -> CacheSet.CacheSet -> outcome CacheSet.CacheSet)
  (set : Z) (blk : nat) (t : Tags) : outcome Tags :=
  s ← vget (sets t) set;
  s' ← f blk s;
  v ← vset (sets t) set s';
  Ok (t <| sets := v |>).

Definition accessBlock (curTick clockPeriod : Z) (t : Tags) (addr : Z) (is_secure : bool)
  : outcome (option nat * Z * Tags) :=
  '(blk, lat, t) ← BaseSetAssoc.accessBlock curTick clockPeriod t addr is_secure;
  match blk with
  | None => Ok (None, lat, t)
  | Some p =>
      b ← pget (blks t) p;
      t ← on_set CacheSet.moveToHead (Blk.set b) p t;
      Ok (Some p, lat, t)
  end.

Definition findVictim (t : Tags) (addr : Z) : outcome nat :=
  s ← vget (sets t) (extractSet t addr);
  vget (CacheSet.blks s) (assoc t - 1).

Definition insertBlock (curTick maxMasters : Z) (pkt : Packet.Packet) (blk : nat) (t : Tags)
  : outcome Tags :=
  t ← BaseSetAssoc.insertBlock curTick maxMasters pkt blk t;
  addr ← Packet.getAddr pkt;
  on_set CacheSet.moveToHead (extractSet t addr) blk t.

Definition invalidate (curTick maxMasters : Z) (blk : nat) (t : Tags) : outcome Tags :=
  t ← BaseSetAssoc.invalidate curTick maxMasters blk t;
  b ← pget (blks t) blk;
  on_set CacheSet.moveToTail (Blk.set b) blk t.

(** ** The operations of a cache on its tags

    [Access] looks a line up; [Fill] brings in a line that is not there: the
    victim is replaced and its status set as [handleFill] does; [Drop]
    invalidates a line that is there, in the tags and in the block. *)

Inductive op :=
  | Access (tick addr : Z) (sec : bool)
  | Fill (tick addr : Z) (pkt : Packet.Packet) (sec shared inhibit : bool)
  | Drop (tick addr : Z) (sec : bool).

Definition step (clockPeriod masters : Z) (o : op) (t : Tags) : outcome (bool * Tags) :=
  match o with
  | Access tick addr sec =>
      '(blk, _, t) ← accessBlock tick clockPeriod t addr sec;
      Ok (match blk with Some _ => true | None => false end, t)
  | Fill tick addr pkt sec shared inhibit =>
      r ← findBlock t addr sec;
      match r with
      | Some _ => Ok (false, t)
      | None =>
          p ← findVictim t addr;
          t ← insertBlock tick masters pkt p t;
          v ← pupd (fill_status sec shared inhibit) (blks t) p;
          Ok (true, t <| blks := v |>)
      end
  | Drop tick addr sec =>
      r ← findBlock t addr sec;
      match r with
      | None => Ok (false, t)
      | Some p =>
          t ← invalidate tick masters p t;
          v ← pupd Blk.invalidate (blks t) p;
          Ok (true, t <| blks := v |>)
      end
  end.

Fixpoint run (clockPeriod masters : Z) (ops : list op) (t : Tags)
  : outcome (list bool * Tags) :=
  match ops with
  | [] => Ok ([], t)
  | o :: ops =>
      '(r, t) ← step clockPeriod masters o t;
      '(rs, t) ← run clockPeriod masters ops t;
      Ok (r :: rs, t)
  end.

(** ** The abstract LRU cache *)

(** [2^k]-byte lines, [2^s] sets, [ways] lines per set. *)
Section abstract.
Context (k s : Z) (ways : nat).

Definition set_of (addr : Z) : nat := Z.to_nat (addr / 2 ^ k mod 2 ^ s).
Definition key_of (addr : Z) (sec : bool) : key := (addr / 2 ^ k / 2 ^ s, sec).

Definition remove_key (x : key) (l : list key) : list key := filter (fun y => y <> x) l.

Definition lru_access (x : key) (l : list key) : bool * list key :=
  if decide (x ∈ l) then (true, x :: remove_key x l) else (false, l).

Definition lru_fill (x : key) (l : list key) : bool * list key :=
  if decide (x ∈ l) then (false, l) else (true, take ways (x :: l)).

Definition lru_drop (x : key) (l : list key) : bool * list key :=
  if decide (x ∈ l) then (true, remove_key x l) else (false, l).

(** Apply [f] to the lines of the set of [addr]. *)
Definition at_set (addr : Z) (f : list key -> bool * list key) (A : list (list key))
  : bool * list (list key) :=
  let l := default [] (A !! set_of addr) in
  ((f l).1, <[set_of addr := (f l).2]> A).

Definition abs_step (o : op) : list (list key) -> bool * list (list key) :=
  match o with
  | Access _ addr sec => at_set addr (lru_access (key_of addr sec))
  | Fill _ addr _ sec _ _ => at_set addr (lru_fill (key_of addr sec))
  | Drop _ addr sec => at_set addr (lru_drop (key_of addr sec))
  end.

Fixpoint abs_run (ops : list op) (A : list (list key)) : list bool * list (list key) :=
  match ops with
  | [] => ([], A)
  | o :: ops =>
      let '(r, A) := abs_step o A in
      let '(rs, A) := abs_run ops A in
      (r :: rs, A)
  end.

End abstract.

(** ** Way lists as lists of lines *)

(** [l] is the ways of a set: first the lines [ks], then the invalid blocks. *)
Definition repr (l : list (option key)) (ks : list key) : Prop :=
  l = (Some <$> ks) ++ replicate (length l - length ks) None.

Lemma repr_length l ks : repr l ks -> (length ks <= length l)%nat.
Proof.
  unfold repr. intros E. rewrite E, length_app, length_fmap. lia.
Qed.

Lemma repr_In l ks x : repr l ks -> x ∈ ks <-> Some x ∈ l.
Proof.
  intros ->. rewrite elem_of_app, list_elem_of_fmap. split.
  - intros H. left. eauto.
  - intros [(y & [= ->] & ?) | H]; [done|]. by apply elem_of_replicate in H as [? _].
Qed.

(** A line at a known way. *)
Lemma repr_split pre x post ks :
  repr (pre ++ Some x :: post) ks -> exists ks1 ks2 n,
    ks = ks1 ++ x :: ks2 /\ pre = Some <$> ks1 /\ post = (Some <$> ks2) ++ replicate n None.
Proof.
  intros Hr. pose proof (repr_length _ _ Hr) as Hl. unfold repr in Hr.
  assert (Hk : ks !! length pre = Some x).
  { assert ((pre ++ Some x :: post) !! length pre = Some (Some x)) as Hx
      by (by rewrite list_lookup_middle).
    rewrite Hr in Hx. apply lookup_app_Some in Hx as [Hx | [_ Hx]].
    - rewrite list_lookup_fmap in Hx. destruct (ks !! length pre); naive_solver.
    - by apply lookup_replicate_1 in Hx as [? _]. }
  apply list_elem_of_split_length in Hk as (ks1 & ks2 & -> & Hlen).
  rewrite fmap_app, <- app_assoc in Hr. simpl in Hr.
  apply app_inj_1 in Hr as [-> Hr]; [|by rewrite length_fmap].
  injection Hr as ->. eauto 10.
Qed.

Lemma repr_app ks n : repr ((Some <$> ks) ++ replicate n None) ks.
Proof.
  unfold repr. f_equal. f_equal. rewrite length_app, length_fmap, length_replicate. lia.
Qed.

Lemma remove_key_middle x ks1 ks2 :
  NoDup (ks1 ++ x :: ks2) -> remove_key x (ks1 ++ x :: ks2) = ks1 ++ ks2.
Proof.
  intros Hnd. apply NoDup_app in Hnd as (_ & H1 & [H2 _]%NoDup_cons). unfold remove_key.
  assert (forall l : list key, x ∉ l -> filter (fun y => y <> x) l = l) as Hf.
  { intros l Hl. induction l as [|y l IH]; [done|]. apply not_elem_of_cons in Hl as [? ?].
    rewrite filter_cons_True by congruence. by rewrite IH. }
  rewrite filter_app, filter_cons_False by auto. rewrite !Hf; [done|done|].
  intros ?. by eapply H1; [|left].
Qed.

Lemma NoDup_remove_key x l : NoDup l -> NoDup (remove_key x l).
Proof. apply NoDup_filter. Qed.

Lemma repr_touch pre x post ks :
  NoDup ks -> repr (pre ++ Some x :: post) ks ->
  repr (Some x :: pre ++ post) (x :: remove_key x ks).
Proof.
  intros Hnd (ks1 & ks2 & n & -> & -> & ->)%repr_split. rewrite remove_key_middle by done.
  rewrite app_assoc, <- fmap_app. apply (repr_app (x :: ks1 ++ ks2)).
Qed.

Lemma repr_drop pre x post ks :
  NoDup ks -> repr (pre ++ Some x :: post) ks ->
  repr (pre ++ post ++ [None]) (remove_key x ks).
Proof.
  intros Hnd (ks1 & ks2 & n & -> & -> & ->)%repr_split. rewrite remove_key_middle by done.
  rewrite <- app_assoc, app_assoc, <- fmap_app.
  change [None] with (replicate 1 (@None key)). rewrite <- replicate_add. apply repr_app.
Qed.

(** The last way is replaced and becomes the first. *)
Lemma repr_fill l y x ks :
  repr (l ++ [y]) ks -> repr (Some x :: l) (take (S (length l)) (x :: ks)).
Proof.
  intros Hr. pose proof (repr_length _ _ Hr) as Hl. rewrite length_app in Hl. simpl in *.
  unfold repr in Hr. rewrite length_app in Hr. simpl in Hr.
  destruct (decide (length ks = length l + 1)%nat) as [E|E].
  - rewrite E, Nat.sub_diag, app_nil_r in Hr.
    destruct ks as [|z ks _] using rev_ind; [simpl in E; lia|].
    rewrite fmap_app in Hr. apply app_inj_2 in Hr as [-> _]; [|done].
    rewrite length_fmap, take_app_length'; [|done].
    rewrite <- (app_nil_r (Some <$> ks)). apply (repr_app (x :: ks) 0).
  - rewrite take_ge by lia.
    replace (length l + 1 - length ks)%nat with ((length l - length ks) + 1)%nat in Hr by lia.
    rewrite replicate_add, app_assoc in Hr. apply app_inj_2 in Hr as [-> _]; [|done].
    apply (repr_app (x :: ks)).
Qed.

(** ** The refinement relation *)

Definition way_slot (store : list Blk.CacheBlk) (p : nat) : option key :=
  match store !! p with Some b => slot b | None => None end.

Definition slots (t : Tags) (cs : CacheSet.CacheSet) : list (option key) :=
  way_slot (blks t) <$> CacheSet.blks cs.

Record refines (k s masters : Z) (t : Tags) (A : list (list key)) : Prop := {
  rf_wf : wf t;
  rf_geo : geometry t k s;
  rf_acct : acct masters t;
  rf_len : length A = length (sets t);
  rf_repr i cs ks : sets t !! i = Some cs -> A !! i = Some ks ->
    repr (slots t cs) ks /\ NoDup ks;
}.

Lemma ways_facts t i cs :
  wf t -> sets t !! i = Some cs ->
  NoDup (CacheSet.blks cs) /\ CacheSet.assoc cs = Z.of_nat (length (CacheSet.blks cs)) /\
  CacheSet.assoc cs = assoc t /\
  forall p, p ∈ CacheSet.blks cs -> exists b, blks t !! p = Some b /\ Blk.set b = Z.of_nat i.
Proof.
  intros Hwf Hi. destruct (wf_ways _ Hwf _ _ Hi) as [Ea Hp].
  pose proof (wf_assoc _ Hwf). pose proof (wf_blks _ Hwf) as Hb.
  apply lookup_lt_Some in Hi as Hlt. rewrite (wf_sets _ Hwf) in Hlt. split_and!.
  - rewrite Hp. apply NoDup_seq.
  - rewrite Hp, length_seq. lia.
  - done.
  - intros p Hin. rewrite Hp in Hin. apply elem_of_seq in Hin.
    assert (p / Z.to_nat (assoc t) = i)%nat as Ed.
    { symmetry. apply (Nat.div_unique p _ i (p - i * Z.to_nat (assoc t))); lia. }
    destruct (lookup_lt_is_Some_2 (blks t) p) as [b Hpb].
    { rewrite Hb. nia. }
    exists b. split; [done|]. rewrite (wf_set _ Hwf _ _ Hpb). by rewrite Ed.
Qed.

Lemma way_slot_notin store p b (ways : list nat) :
  p ∉ ways -> way_slot (<[p := b]> store) <$> ways = way_slot store <$> ways.
Proof.
  intros Hp. apply list_fmap_ext. intros i q Hq. unfold way_slot.
  rewrite list_lookup_insert_ne; [done|]. intros ->. apply Hp. by eapply list_elem_of_lookup_2.
Qed.

Lemma way_slot_insert store p b :
  (p < length store)%nat -> way_slot (<[p := b]> store) p = slot b.
Proof. intros ?. unfold way_slot. by rewrite list_lookup_insert_eq. Qed.

(** One block and the order of its set change. *)
Lemma refines_update k s masters t A i cs p b t' b' cs' ks' :
  refines k s masters t A -> sets t !! i = Some cs -> p ∈ CacheSet.blks cs ->
  blks t !! p = Some b -> same_geo t t' -> blks t' = <[p := b']> (blks t) ->
  Blk.set b' = Blk.set b -> sets t' = <[i := cs']> (sets t) ->
  CacheSet.assoc cs' = CacheSet.assoc cs -> CacheSet.blks cs' ≡ₚ CacheSet.blks cs ->
  acct masters t' -> repr (slots t' cs') ks' -> NoDup ks' ->
  refines k s masters t' (<[i := ks']> A).
Proof.
  intros [Hwf Hgeo Hac Hlen Hr] Hi Hpin Hp Hg Eb Eset Es Ea Hperm Hac' Hrepr Hnd.
  assert (i < length (sets t))%nat as Hlt by (by eapply lookup_lt_Some).
  split.
  - eapply wf_update; [done..| |].
    + intros j cs1. rewrite Es. destruct (decide (i = j)) as [<-|Hne].
      * rewrite list_lookup_insert_eq by done. intros [= <-]. eauto.
      * rewrite list_lookup_insert_ne by done. eauto.
    + by rewrite Es, length_insert.
  - by eapply same_geo_geometry.
  - done.
  - by rewrite Es, !length_insert.
  - intros j cs1 ks1. rewrite Es. destruct (decide (i = j)) as [<-|Hne].
    + rewrite !list_lookup_insert_eq by lia. by intros [= <-] [= <-].
    + rewrite !list_lookup_insert_ne by done. intros Hj HA.
      destruct (Hr _ _ _ Hj HA) as [Hr1 ?]. split; [|done].
      unfold slots. rewrite Eb, way_slot_notin; [done|]. intros Hin.
      destruct (ways_facts _ _ _ Hwf Hi) as (_ & _ & _ & F1).
      destruct (ways_facts _ _ _ Hwf Hj) as (_ & _ & _ & F2).
      destruct (F1 _ Hpin) as (? & ? & ?), (F2 _ Hin) as (? & ? & ?). simplify_eq. lia.
Qed.

Lemma on_set_ok f i p t cs cs' :
  sets t !! i = Some cs -> f p cs = Ok cs' ->
  on_set f (Z.of_nat i) p t = Ok (t <| sets ::= <[i := cs']> |>).
Proof.
  intros Hi Hf. unfold on_set.
  assert (vget (sets t) (Z.of_nat i) = Ok cs) as ->.
  { apply vget_ok. rewrite Nat2Z.id. split; [lia|done]. }
  cbn [mbind outcome_bind]. rewrite Hf. cbn [mbind outcome_bind].
  apply lookup_lt_Some in Hi. rewrite vset_lt by lia. by rewrite Nat2Z.id.
Qed.

(** Looking a line up finds the way that holds it. *)
Lemma find_spec k s masters t A addr sec :
  refines k s masters t A -> 0 <= addr ->
  let i := set_of k s addr in
  let x := key_of k s addr sec in
  exists cs ks, sets t !! i = Some cs /\ A !! i = Some ks /\
    extractSet t addr = Z.of_nat i /\ extractTag t addr = x.1 /\
    repr (slots t cs) ks /\ NoDup ks /\
    exists r, CacheSet.findBlk (blks t) cs (extractTag t addr) sec = Ok r /\
      match r with
      | None => x ∉ ks
      | Some p => x ∈ ks /\ exists pre post b, CacheSet.blks cs = pre ++ p :: post /\
          blks t !! p = Some b /\ slot b = Some x
      end.
Proof.
  intros Hrf Ha i x. pose proof Hrf as [Hwf Hgeo Hac Hlen Hr].
  pose proof (extractSet_range _ _ _ addr Hgeo Ha) as Hrange.
  rewrite (extractSet_div _ k s) in * by done. rewrite (extractTag_div _ k s) by done.
  assert (i < length (sets t))%nat as Hlt by (rewrite (wf_sets _ Hwf); unfold i, set_of; lia).
  destruct (lookup_lt_is_Some_2 _ _ Hlt) as [cs Hcs].
  destruct (lookup_lt_is_Some_2 A i ltac:(lia)) as [ks Hks].
  destruct (Hr _ _ _ Hcs Hks) as [Hrepr Hnd].
  destruct (ways_facts _ _ _ Hwf Hcs) as (_ & Elen & _ & F).
  exists cs, ks. split_and!; try done; [unfold i, set_of; lia|].
  destruct (CacheSet.findBlk_spec (blks t) cs (addr / 2 ^ k / 2 ^ s) sec Elen) as (r & Er & Hres).
  { intros p Hp. destruct (F p Hp) as (b & -> & _). eauto. }
  exists r. split; [done|].
  assert (x ∈ ks <-> exists p, Some x = way_slot (blks t) p /\ p ∈ CacheSet.blks cs) as Hx.
  { rewrite (repr_In _ _ x Hrepr). unfold slots. by rewrite list_elem_of_fmap. }
  destruct r as [p|]; rewrite Hx.
  - destruct Hres as (pre & post & b & Ew & Hb & Hm & _). apply matches_slot in Hm. split.
    + exists p. unfold way_slot. rewrite Hb, Hm, Ew. split; [done|].
      apply elem_of_app. right. left.
    + eauto 10.
  - intros (p & Ep & Hp). destruct (F p Hp) as (b & Hb & _). unfold way_slot in Ep.
    rewrite Hb in Ep. symmetry in Ep. apply matches_slot in Ep.
    by rewrite (Hres p b) in Ep.
Qed.

Lemma list_alter_insert {A} (f : A -> A) (l : list A) (i : nat) x :
  l !! i = Some x -> alter f i l = <[i := f x]> l.
Proof.
  intros H. apply list_eq. intros j. rewrite list_lookup_alter.
  case_decide as E; subst.
  - rewrite H, list_lookup_insert_eq; [done|]. by eapply lookup_lt_Some.
  - by rewrite list_lookup_insert_ne.
Qed.

(** The statistics [accessBlock] updates. *)
Lemma base_access_ok tick cp t addr sec cs r :
  vget (sets t) (extractSet t addr) = Ok cs ->
  CacheSet.findBlk (blks t) cs (extractTag t addr) sec = Ok r ->
  (forall p, r = Some p -> is_Some (blks t !! p)) ->
  exists lat t', BaseSetAssoc.accessBlock tick cp t addr sec = Ok (r, lat, t') /\
    same_geo t t' /\ sets t' = sets t /\ occupancies t' = occupancies t /\
    tagsInUse t' = tagsInUse t /\
    blks t' = match r with
              | Some p => alter (fun b => b <| Blk.refCount ::= Z.add 1 |>) p (blks t)
              | None => blks t
              end.
Proof.
  intros Hcs Hr Hp. unfold BaseSetAssoc.accessBlock. rewrite Hcs. cbn [mbind outcome_bind].
  rewrite Hr. cbn [mbind outcome_bind]. unfold same_geo.
  destruct r as [p|].
  - destruct (Hp p eq_refl) as [b Hb].
    assert (alter (fun b => b <| Blk.refCount ::= Z.add 1 |>) p (blks t) =
      <[p := b <| Blk.refCount ::= Z.add 1 |>]> (blks t)) as ->.
    { by apply list_alter_insert. }
    simpl. destruct (sequentialAccess t); simpl; unfold pupd, pget; simpl; rewrite Hb;
      simpl; eexists _, _; (split; [done|]); simpl; split_and!; done.
  - simpl. destruct (sequentialAccess t); eexists _, _; (split; [done|]); simpl; split_and!; done.
Qed.

Lemma vget_nat {A} (l : list A) i x : l !! i = Some x -> vget l (Z.of_nat i) = Ok x.
Proof. intros H. apply vget_ok. rewrite Nat2Z.id. split; [lia|done]. Qed.

Lemma at_set_eq k s addr f A ks :
  A !! set_of k s addr = Some ks ->
  at_set k s addr f A = ((f ks).1, <[set_of k s addr := (f ks).2]> A).
Proof. intros H. unfold at_set. by rewrite H. Qed.

(** A list of blocks of one set: its slots when one block changes. *)
Lemma slots_around store p b pre post :
  NoDup (pre ++ p :: post) -> (p < length store)%nat ->
  way_slot (<[p := b]> store) <$> (pre ++ post) = way_slot store <$> (pre ++ post) /\
  way_slot (<[p := b]> store) p = slot b.
Proof.
  intros Hnd Hp. split; [|by apply way_slot_insert]. apply way_slot_notin.
  apply NoDup_app in Hnd as (_ & H1 & [H2 _]%NoDup_cons).
  intros [Hin|Hin]%elem_of_app; [|done]. by eapply H1; [|left].
Qed.

(** Only statistics change. *)
Lemma refines_frame k s masters t t' A :
  refines k s masters t A -> same_geo t t' -> sets t' = sets t -> blks t' = blks t ->
  occupancies t' = occupancies t -> tagsInUse t' = tagsInUse t ->
  refines k s masters t' A.
Proof.
  intros [[] ? [] ? ?] Hg Es Eb Eo Eu. pose proof Hg as (E1 & E2 & E3 & _).
  split; rewrite ?Es, ?Eb; try done; [|by eapply same_geo_geometry| |].
  - split; rewrite ?E1, ?E2, ?E3, ?Es, ?Eb; try done. exists k, s. by eapply same_geo_geometry.
  - split; rewrite ?Eb, ?Eo, ?Eu; done.
  - intros i cs' ks' Hi Hk. unfold slots. rewrite Eb. eauto.
Qed.

(** The state and the answer of [Access] are the abstract cache's. *)
Lemma access_refines k s masters cp tick addr sec t A :
  refines k s masters t A -> 0 <= addr ->
  exists r t', step cp masters (Access tick addr sec) t = Ok (r, t') /\
    r = (abs_step k s (Z.to_nat (assoc t)) (Access tick addr sec) A).1 /\
    refines k s masters t' (abs_step k s (Z.to_nat (assoc t)) (Access tick addr sec) A).2 /\
    assoc t' = assoc t.
Proof.
  intros Hrf Ha. pose proof Hrf as [Hwf Hgeo Hac Hlen _].
  destruct (find_spec _ _ _ _ _ addr sec Hrf Ha)
    as (cs & ks & Hcs & Hks & Ei & Et & Hrepr & Hnd & r & Hr & Hres).
  destruct (ways_facts _ _ _ Hwf Hcs) as (Hnw & Elen & _ & F).
  destruct (base_access_ok tick cp t addr sec cs r) as (lat & t1 & Eacc & Hg & Es & Eo & Eu & Eb).
  { rewrite Ei. by apply vget_nat. }
  { done. }
  { intros p ->. destruct Hres as (_ & pre & post & b & _ & -> & _). eauto. }
  cbn [step abs_step]. rewrite (at_set_eq _ _ _ _ _ ks) by done. unfold lru_access.
  unfold accessBlock. rewrite Eacc. cbn [mbind outcome_bind].
  destruct r as [p|]; cbn [mbind outcome_bind].
  - destruct Hres as (Hin & pre & post & b & Ew & Hb & Hs). rewrite decide_True by done.
    assert (p ∈ CacheSet.blks cs) as Hpin by (rewrite Ew; apply elem_of_app; right; left).
    rewrite (list_alter_insert _ _ _ _ Hb) in Eb.
    remember (b <| Blk.refCount ::= Z.add 1 |>) as b' eqn:Eb'.
    assert (slot b' = slot b /\ Blk.set b' = Blk.set b /\ Blk.isValid b' = Blk.isValid b /\
      (forall m, owned_by m b' = owned_by m b) /\ (blk_ok masters b -> blk_ok masters b'))
      as (Esl & Est & Ev & Eown & Hbok).
    { subst b'. split_and!; try done. intros []. by split. }
    clear Eb'. assert (p < length (blks t))%nat as Hplt by (by eapply lookup_lt_Some).
    unfold pget. rewrite Eb, list_lookup_insert_eq by done. cbn [mbind outcome_bind].
    destruct (F p Hpin) as (b2 & Hb2 & Eset). simplify_eq. rewrite Est, Eset.
    erewrite on_set_ok; [|by rewrite Es|by apply CacheSet.moveToHead_ok].
    cbn [mbind outcome_bind]. eexists _, _. split; [done|]. split; [done|].
    split; [|simpl; by destruct Hg as (_ & _ & -> & _)].
    eapply (refines_update k s masters t A _ cs p b _ b'
      (cs <| CacheSet.blks := p :: CacheSet.others p (CacheSet.blks cs) |>)); try done.
    + simpl. by rewrite Es.
    + simpl. by apply CacheSet.others_perm.
    + eapply acct_update; [done..| | | |].
      * by eapply Hbok, ac_blk.
      * simpl. rewrite Eu, Ev. lia.
      * simpl. by rewrite Eo.
      * intros m x Hx. simpl. rewrite Eo, Hx, Eown. f_equal. lia.
    + change (repr (way_slot (blks t1) <$> p :: CacheSet.others p (CacheSet.blks cs))
        (key_of k s addr sec :: remove_key (key_of k s addr sec) ks)).
      rewrite Ew in Hnw. destruct (slots_around (blks t) p b' pre post Hnw Hplt) as [E1 E2].
      rewrite Eb, Ew, CacheSet.others_middle, fmap_cons, E1, E2, Esl, Hs, fmap_app by done.
      apply repr_touch; [done|]. unfold slots in Hrepr.
      rewrite Ew, fmap_app, fmap_cons in Hrepr. unfold way_slot at 2 in Hrepr.
      by rewrite Hb, Hs in Hrepr.
    + simpl. constructor; [|by apply NoDup_remove_key].
      unfold remove_key. rewrite list_elem_of_filter. naive_solver.
  - rewrite decide_False by done. eexists _, _. split; [done|]. split; [done|]. simpl.
    split; [|by destruct Hg as (_ & _ & -> & _)].
    rewrite list_insert_id by done. by eapply refines_frame.
Qed.

Lemma findBlock_eq k s t addr sec cs i :
  geometry t k s -> 0 <= addr -> extractSet t addr = Z.of_nat i -> sets t !! i = Some cs ->
  findBlock t addr sec = CacheSet.findBlk (blks t) cs (extractTag t addr) sec.
Proof.
  intros Hg Ha Ei Hcs. unfold findBlock.
  pose proof (extractSet_range _ _ _ addr Hg Ha) as Hr. destruct Hg.
  pose proof (Z.pow_lt_mono_r 2 s 31). rewrite uwrap_small by (split; lia).
  rewrite Ei. erewrite vget_nat by done. done.
Qed.

(** The last way of a set. *)
Lemma findVictim_ok t addr cs i :
  wf t -> extractSet t addr = Z.of_nat i -> sets t !! i = Some cs ->
  exists pre p b, findVictim t addr = Ok p /\ CacheSet.blks cs = pre ++ [p] /\
    blks t !! p = Some b /\ Blk.set b = Z.of_nat i.
Proof.
  intros Hwf Ei Hcs. destruct (ways_facts _ _ _ Hwf Hcs) as (_ & El & Ea & F).
  pose proof (wf_assoc _ Hwf).
  destruct (CacheSet.blks cs) as [|p pre _] eqn:E using rev_ind; [simpl in El; lia|].
  destruct (F p) as (b & Hb & Hs); [apply elem_of_app; right; left|].
  exists pre, p, b. split_and!; try done. unfold findVictim. rewrite Ei.
  erewrite vget_nat by done. cbn [mbind outcome_bind]. apply vget_ok.
  rewrite length_app in El. simpl in El. split; [lia|]. rewrite E.
  replace (Z.to_nat (assoc t - 1)) with (length pre) by lia. by apply list_lookup_middle.
Qed.

(** The fill of a missing line: victim, insertion, status. *)
Lemma fill_miss k s masters tick addr pkt sec sh inh t A cs ks :
  refines k s masters t A -> 0 <= addr ->
  Packet.getAddr pkt = Ok addr -> 0 <= Request.masterId (Packet.req pkt) < masters ->
  let i := set_of k s addr in
  let x := key_of k s addr sec in
  sets t !! i = Some cs -> A !! i = Some ks -> repr (slots t cs) ks -> NoDup ks -> x ∉ ks ->
  extractSet t addr = Z.of_nat i -> extractTag t addr = x.1 ->
  exists p t1 v, findVictim t addr = Ok p /\ insertBlock tick masters pkt p t = Ok t1 /\
    pupd (fill_status sec sh inh) (blks t1) p = Ok v /\
    refines k s masters (t1 <| blks := v |>) (<[i := take (Z.to_nat (assoc t)) (x :: ks)]> A) /\
    assoc t1 = assoc t /\
    exists b, blks t !! p = Some b /\ Blk.set b = Z.of_nat i /\
      blks t1 = <[p := inserted tick pkt (extractTag t addr) b]> (blks t).
Proof.
  intros Hrf Ha Hpa Hm i x Hcs Hks Hrepr Hnd Hx Ei Et.
  pose proof Hrf as [Hwf Hgeo Hac Hlen _].
  destruct (ways_facts _ _ _ Hwf Hcs) as (Hnw & Elen & Eas & F).
  destruct (findVictim_ok _ _ _ _ Hwf Ei Hcs) as (pre & p & b & Hv & Ew & Hb & Hbs).
  assert (p ∈ CacheSet.blks cs) as Hpin by (rewrite Ew; apply elem_of_app; right; left).
  assert (p < length (blks t))%nat as Hplt by (by eapply lookup_lt_Some).
  destruct (insertBlock_ok tick masters pkt p t b addr Hac Hb Hpa Hm)
    as (t1 & E1 & Hg & Es & Eb & Eu & Eo).
  destruct (filled_ok masters tick pkt (extractTag t addr) sec sh inh b)
    as (_ & Eslot & _ & Eset & _); [by eapply ac_blk|done|].
  exists p. unfold insertBlock. rewrite E1, Hpa. cbn [mbind outcome_bind].
  rewrite (proj2 (same_geo_extract _ _ _ Hg)), Ei.
  erewrite on_set_ok; [|by rewrite Es|by apply CacheSet.moveToHead_ok].
  eexists _, _. split; [done|]. split; [done|]. split.
  { apply pupd_ok. eexists. simpl. rewrite Eb. split; [|done].
    by apply list_lookup_insert_eq. }
  rewrite list_insert_insert_eq.
  split; [|split; [simpl; by destruct Hg as (_ & _ & -> & _)|]].
  2:{ exists b. by simpl. }
  eapply (refines_update k s masters t A i cs p b _
    (fill_status sec sh inh (inserted tick pkt (extractTag t addr) b))
    (cs <| CacheSet.blks := p :: CacheSet.others p (CacheSet.blks cs) |>)); try done.
  - simpl. by rewrite Es.
  - simpl. by apply CacheSet.others_perm.
  - by eapply (acct_fill tick masters pkt p t b (extractTag t addr) sec sh inh).
  - unfold slots. cbn [blks CacheSet.blks upd_field].
    rewrite Ew in Hnw. destruct (slots_around (blks t) p
      (fill_status sec sh inh (inserted tick pkt (extractTag t addr) b)) pre [] Hnw Hplt) as [S1 S2].
    rewrite Ew, CacheSet.others_middle, fmap_cons, S1, S2, Eslot, Et, app_nil_r by done.
    rewrite Ew, length_app in Elen. simpl in Elen.
    replace (Z.to_nat (assoc t)) with (S (length (way_slot (blks t) <$> pre)))
      by (rewrite length_fmap; lia).
    apply (repr_fill _ (way_slot (blks t) p)).
    unfold slots in Hrepr. by rewrite Ew, fmap_app in Hrepr.
  - assert (NoDup (x :: ks)) as Hnd2 by (by constructor).
    rewrite <- (take_drop (Z.to_nat (assoc t)) (x :: ks)) in Hnd2. by apply NoDup_app in Hnd2 as [? _].
Qed.

(** A block may change as long as what it holds and whose it is stays. *)
Lemma refines_blk k s masters t A p b b' :
  refines k s masters t A -> blks t !! p = Some b ->
  slot b' = slot b -> Blk.isValid b' = Blk.isValid b -> Blk.isTouched b' = Blk.isTouched b ->
  Blk.srcMasterId b' = Blk.srcMasterId b -> Blk.set b' = Blk.set b ->
  (Blk.isValid b = false -> Blk.status b' = Blk.status b) ->
  refines k s masters (t <| blks ::= <[p := b']> |>) A.
Proof.
  intros [Hwf Hgeo Hac Hlen Hr] Hp Hs Hv Ht Hm Hset Hst. split; try done.
  - eapply (wf_update t _ p b b'); try done. simpl. eauto.
  - destruct Hgeo. by split.
  - destruct (ac_blk _ _ Hac _ _ Hp) as [B1 B2 B3].
    apply (acct_update masters t _ p b b'); try done.
    + split; rewrite ?Hv, ?Ht, ?Hm; try done. intros Hn. rewrite Hst by done. auto.
    + simpl. rewrite Hv. lia.
    + intros m x Hx. simpl. rewrite Hx. f_equal. unfold owned_by. rewrite Hv, Hm. lia.
  - intros i cs ks Hi Hk. destruct (Hr i cs ks Hi Hk) as [Hr1 Hn]. split; [|done].
    unfold slots in *. simpl. replace (way_slot (<[p:=b']> (blks t)) <$> CacheSet.blks cs)
      with (way_slot (blks t) <$> CacheSet.blks cs); [done|].
    apply list_fmap_ext. intros j q _. unfold way_slot.
    destruct (decide (q = p)) as [->|Hne]; [|by rewrite list_lookup_insert_ne].
    rewrite list_lookup_insert_eq by (by eapply lookup_lt_Some). by rewrite Hp, Hs.
Qed.

(** The way that holds a line is the one found. *)
Lemma find_holder k s masters t A addr sec p b :
  refines k s masters t A -> 0 <= addr -> blks t !! p = Some b ->
  Blk.set b = Z.of_nat (set_of k s addr) -> slot b = Some (key_of k s addr sec) ->
  findBlock t addr sec = Ok (Some p).
Proof.
  intros Hrf Ha Hp Hset Hs. pose proof Hrf as [Hwf Hgeo _ _ _].
  destruct (find_spec _ _ _ _ _ addr sec Hrf Ha)
    as (cs & ks & Hcs & Hks & Ei & Et & Hrepr & Hnd & r & Hr & Hres).
  rewrite (findBlock_eq k s _ _ _ cs _ Hgeo Ha Ei Hcs), Hr.
  assert (p ∈ CacheSet.blks cs) as Hpin.
  { destruct (wf_ways _ Hwf _ _ Hcs) as [_ ->]. pose proof (wf_set _ Hwf _ _ Hp) as E.
    pose proof (wf_assoc _ Hwf). assert (p / Z.to_nat (assoc t) = set_of k s addr)%nat as Ed by lia.
    apply elem_of_seq. rewrite <- Ed.
    pose proof (Nat.div_mod p (Z.to_nat (assoc t)) ltac:(lia)).
    pose proof (Nat.mod_upper_bound p (Z.to_nat (assoc t)) ltac:(lia)). lia. }
  assert (forall q c, q ∈ CacheSet.blks cs -> blks t !! q = Some c ->
    slot c = Some (key_of k s addr sec) ->
    exists n, CacheSet.blks cs !! n = Some q /\ ks !! n = Some (key_of k s addr sec)) as Hpos.
  { intros q c (n & Hn)%list_elem_of_lookup Hq Hc. exists n. split; [done|].
    assert (slots t cs !! n = Some (Some (key_of k s addr sec))) as Hsl.
    { unfold slots. rewrite list_lookup_fmap, Hn. simpl. unfold way_slot. by rewrite Hq, Hc. }
    rewrite Hrepr in Hsl. apply lookup_app_Some in Hsl as [Hsl|[_ Hsl]].
    - rewrite list_lookup_fmap in Hsl. destruct (ks !! n); naive_solver.
    - by apply lookup_replicate in Hsl as [? _]. }
  destruct (Hpos p b Hpin Hp Hs) as (n & Hn & Hkn). destruct r as [q|].
  - destruct Hres as (_ & pre & post & c & Ew & Hq & Hc).
    destruct (Hpos q c) as (n' & Hn' & Hkn'); [rewrite Ew; apply elem_of_app; right; left|done|done|].
    rewrite (NoDup_lookup _ _ _ _ Hnd Hkn Hkn') in Hn. congruence.
  - destruct Hres. by eapply list_elem_of_lookup_2.
Qed.

(** Dropping a line that is there. *)
Lemma drop_hit k s masters tick addr sec t A cs ks pre p post b :
  refines k s masters t A ->
  let i := set_of k s addr in
  let x := key_of k s addr sec in
  sets t !! i = Some cs -> A !! i = Some ks -> repr (slots t cs) ks -> NoDup ks ->
  CacheSet.blks cs = pre ++ p :: post -> blks t !! p = Some b -> slot b = Some x ->
  exists t1 v, invalidate tick masters p t = Ok t1 /\
    pupd Blk.invalidate (blks t1) p = Ok v /\
    refines k s masters (t1 <| blks := v |>) (<[i := remove_key x ks]> A) /\
    assoc t1 = assoc t.
Proof.
  intros Hrf i x Hcs Hks Hrepr Hnd Ew Hb Hs.
  pose proof Hrf as [Hwf Hgeo Hac Hlen _].
  destruct (ways_facts _ _ _ Hwf Hcs) as (Hnw & Elen & Eas & F).
  assert (p ∈ CacheSet.blks cs) as Hpin by (rewrite Ew; apply elem_of_app; right; left).
  assert (p < length (blks t))%nat as Hplt by (by eapply lookup_lt_Some).
  destruct (F p Hpin) as (b2 & Hb2 & Eset). simplify_eq.
  assert (Blk.isValid b = true) as Hv by (unfold slot in Hs; by destruct (Blk.isValid b)).
  destruct (invalidate_ok tick masters p t b Hac Hb Hv)
    as (t1 & b1 & E1 & Hg & Es & Eb & Est & Edr & Eu & Eo).
  unfold invalidate. rewrite E1. cbn [mbind outcome_bind]. unfold pget.
  rewrite Eb, list_lookup_insert_eq by done. cbn [mbind outcome_bind]. rewrite Est, Eset.
  erewrite on_set_ok; [|by rewrite Es|by apply CacheSet.moveToTail_ok].
  eexists _, _. split; [done|]. split.
  { apply pupd_ok. eexists. simpl. rewrite Eb. split; [|done].
    by apply list_lookup_insert_eq. }
  rewrite list_insert_insert_eq, Edr. split; [|simpl; by destruct Hg as (_ & _ & -> & _)].
  eapply (refines_update k s masters t A i cs p b _ (dropped tick b)
    (cs <| CacheSet.blks := CacheSet.others p (CacheSet.blks cs) ++ [p] |>)); try done.
  - simpl. by rewrite Es.
  - simpl. rewrite <- Permutation_cons_append. by apply CacheSet.others_perm.
  - by eapply (acct_drop tick masters p t b).
  - unfold slots. cbn [blks CacheSet.blks upd_field].
    rewrite Ew in Hnw. destruct (slots_around (blks t) p (dropped tick b) pre post Hnw Hplt)
      as [S1 S2].
    rewrite Ew, CacheSet.others_middle, fmap_app, S1, fmap_app by done.
    change (way_slot (<[p:=dropped tick b]> (blks t)) <$> [p])
      with [way_slot (<[p:=dropped tick b]> (blks t)) p]. rewrite S2, <- app_assoc.
    apply repr_drop; [done|]. unfold slots in Hrepr.
    rewrite Ew, fmap_app, fmap_cons in Hrepr. unfold way_slot at 2 in Hrepr.
    by rewrite Hb, Hs in Hrepr.
  - by apply NoDup_remove_key.
Qed.

(** The operation is well formed: its address is an address, and the packet of
    a fill carries it and comes from a registered master. *)
Definition op_ok (masters : Z) (o : op) : Prop :=
  match o with
  | Access _ addr _ | Drop _ addr _ => 0 <= addr
  | Fill _ addr pkt _ _ _ =>
      0 <= addr /\ Packet.getAddr pkt = Ok addr /\
      0 <= Request.masterId (Packet.req pkt) < masters
  end.

Lemma step_refines k s masters cp o t A :
  refines k s masters t A -> op_ok masters o ->
  exists t', step cp masters o t =
      Ok ((abs_step k s (Z.to_nat (assoc t)) o A).1, t') /\
    refines k s masters t' (abs_step k s (Z.to_nat (assoc t)) o A).2 /\ assoc t' = assoc t.
Proof.
  intros Hrf Hok. destruct o as [tick addr sec|tick addr pkt sec sh inh|tick addr sec].
  - destruct (access_refines k s masters cp tick addr sec t A Hrf Hok)
      as (r & t' & E & -> & ? & ?). eauto.
  - destruct Hok as (Ha & Hpa & Hm).
    destruct (find_spec _ _ _ _ _ addr sec Hrf Ha)
      as (cs & ks & Hcs & Hks & Ei & Et & Hrepr & Hnd & r & Hr & Hres).
    cbn [step abs_step]. rewrite (at_set_eq _ _ _ _ _ ks) by done. unfold lru_fill.
    rewrite (findBlock_eq k s _ _ _ cs _ (rf_geo _ _ _ _ _ Hrf) Ha Ei Hcs), Hr.
    cbn [mbind outcome_bind]. destruct r as [p|].
    + rewrite decide_True by apply Hres. simpl. rewrite list_insert_id by done. eauto.
    + rewrite decide_False by done.
      destruct (fill_miss k s masters tick addr pkt sec sh inh t A cs ks)
        as (p & t1 & v & -> & Hi & Hu & ? & ? & _); try done.
      cbn [mbind outcome_bind]. rewrite Hi. cbn [mbind outcome_bind]. rewrite Hu.
      cbn [mbind outcome_bind]. eauto.
  - destruct (find_spec _ _ _ _ _ addr sec Hrf Hok)
      as (cs & ks & Hcs & Hks & Ei & Et & Hrepr & Hnd & r & Hr & Hres).
    cbn [step abs_step]. rewrite (at_set_eq _ _ _ _ _ ks) by done. unfold lru_drop.
    rewrite (findBlock_eq k s _ _ _ cs _ (rf_geo _ _ _ _ _ Hrf) Hok Ei Hcs), Hr.
    cbn [mbind outcome_bind]. destruct r as [p|].
    + destruct Hres as (Hx & pre & post & b & Ew & Hb & Hs). rewrite decide_True by done.
      destruct (drop_hit k s masters tick addr sec t A cs ks pre p post b)
        as (t1 & v & Hi & Hu & ? & ?); try done.
      rewrite Hi. cbn [mbind outcome_bind]. rewrite Hu. cbn [mbind outcome_bind]. eauto.
    + rewrite decide_False by done. simpl. rewrite list_insert_id by done. eauto.
Qed.

Lemma run_refines k s masters cp ops t A :
  refines k s masters t A -> Forall (op_ok masters) ops ->
  exists t', run cp masters ops t = Ok ((abs_run k s (Z.to_nat (assoc t)) ops A).1, t') /\
    refines k s masters t' (abs_run k s (Z.to_nat (assoc t)) ops A).2.
Proof.
  intros Hrf Hops. revert t A Hrf.
  induction Hops as [|o ops Ho Hops IH]; intros t A Hrf; simpl; [eauto|].
  destruct (step_refines k s masters cp o t A Hrf Ho) as (t1 & -> & Hrf1 & Ea).
  cbn [mbind outcome_bind]. destruct (abs_step k s _ o A) as [r A1]. simpl in Hrf1.
  destruct (IH t1 A1 Hrf1) as (t2 & -> & Hrf2). rewrite Ea in *.
  destruct (abs_run k s _ ops A1) as [rs A2]. simpl. eauto.
Qed.

(** A new tag store refines the empty abstract cache. *)
Lemma new_refines fresh masters p :
  valid_params p = true -> 0 <= masters ->
  exists t k s, BaseSetAssoc_new fresh masters p = Ok t /\ p_block_size p = 2 ^ k /\
    numSets t = 2 ^ s /\ assoc t = p_assoc p /\
    refines k s masters t (replicate (Z.to_nat (numSets t)) []).
Proof.
  intros Hp Hm. destruct (tags_new_wf fresh masters p Hp)
    as (t & E & Hwf & Hinv & Ho & Hu & Ebs & Ea & En).
  destruct (wf_geo _ Hwf) as (k & s & Hg). exists t, k, s.
  assert (forall q b, blks t !! q = Some b -> Blk.isValid b = false) as Hv.
  { intros q b [Hs _]%Hinv. unfold Blk.isValid. by rewrite Hs. }
  assert (forall b, b ∈ blks t -> Blk.isValid b = false) as Hv'.
  { intros b [q Hq]%list_elem_of_lookup. eauto. }
  split_and!; try done; [by rewrite <- Ebs; apply Hg|apply Hg|]. split; try done.
  - split.
    + intros q b Hq. destruct (Hinv _ _ Hq). pose proof (Hv _ _ Hq). by split; congruence.
    + rewrite Ho, length_replicate. lia.
    + rewrite Hu. symmetry. by apply countb_false.
    + intros m. rewrite Ho, length_replicate. intros Hlt.
      rewrite countb_false; [by apply lookup_replicate_2|]. intros b Hb. unfold owned_by.
      by rewrite Hv'.
  - by rewrite length_replicate, (wf_sets _ Hwf).
  - intros i cs ks Hi [-> _]%lookup_replicate_1. split; [|constructor]. unfold repr, slots.
    simpl. rewrite length_fmap, Nat.sub_0_r. apply list_eq. intros j.
    rewrite list_lookup_fmap. destruct (CacheSet.blks cs !! j) as [q|] eqn:Eq; simpl.
    + rewrite lookup_replicate_2 by (by eapply lookup_lt_Some). f_equal. unfold way_slot.
      destruct (blks t !! q) as [b|] eqn:Eb; [|done]. unfold slot. by rewrite (Hv _ _ Eb).
    + symmetry. apply lookup_replicate_None. by apply lookup_ge_None in Eq.
Qed.

(** C9: a new LRU tag store behaves as the abstract LRU cache: on every sequence
    of accesses, fills and drops no operation fails, each answers as the
    abstract cache does, and the ways of every set list its lines with the most
    recently used first; a fill of a full set replaces the least recently used
    line. *)
Theorem lru_refines_recency_order fresh masters p cp ops :
  valid_params p = true -> 0 <= masters -> Forall (op_ok masters) ops ->
  exists t k s t', BaseSetAssoc_new fresh masters p = Ok t /\
    p_block_size p = 2 ^ k /\ numSets t = 2 ^ s /\
    let a := abs_run k s (Z.to_nat (p_assoc p)) ops (replicate (Z.to_nat (numSets t)) []) in
    run cp masters ops t = Ok (a.1, t') /\
    forall i cs ks, sets t' !! i = Some cs -> a.2 !! i = Some ks ->
      repr (slots t' cs) ks /\ NoDup ks.
Proof.
  intros Hp Hm Hops.
  destruct (new_refines fresh masters p Hp Hm) as (t & k & s & E & Ek & Es & Ea & Hrf).
  destruct (run_refines k s masters cp ops t _ Hrf Hops) as (t' & Hrun & Hrf').
  rewrite Ea in *. exists t, k, s, t'. split_and!; try done. split; [exact Hrun|apply Hrf'].
Qed.

(** The accounts of a new LRU tag store stay right: after every sequence of
    accesses, fills and drops [tagsInUse] is the number of valid blocks and
    [occupancies] counts, for each master, the valid blocks it brought in; a
    block is touched exactly when it is valid. *)
Theorem occupancies_count_valid_blocks fresh masters p cp ops :
  valid_params p = true -> 0 <= masters -> Forall (op_ok masters) ops ->
  exists t rs t', BaseSetAssoc_new fresh masters p = Ok t /\
    run cp masters ops t = Ok (rs, t') /\
    tagsInUse t' = countb Blk.isValid (blks t') /\
    (forall m, (m < Z.to_nat masters)%nat ->
       occupancies t' !! m = Some (countb (owned_by m) (blks t'))) /\
    (forall b, b ∈ blks t' -> Blk.isTouched b = Blk.isValid b).
Proof.
  intros Hp Hm Hops.
  destruct (new_refines fresh masters p Hp Hm) as (t & k & s & E & Ek & Es & Ea & Hrf).
  destruct (run_refines k s masters cp ops t _ Hrf Hops) as (t' & Hrun & [_ _ Hac _ _]).
  eexists t, _, t'. split_and!; try done.
  - apply Hac.
  - intros m Hlt. apply Hac. pose proof (ac_len _ _ Hac). lia.
  - intros b [q Hq]%list_elem_of_lookup. by eapply bo_touched, ac_blk.
Qed.

(** A read response for [addr] from master [m], for examples. *)
Definition fill_packet (addr m : Z) : Packet.Packet :=
  Packet.MkPacket (Z.lor Packet.VALID_ADDR Packet.VALID_SIZE) MemCmd.ReadResp
    (Request.Request0 <| Request._masterId := m |>) None addr false 64
    MemCmd.InvalidCmd [] 0 0 [].

Definition example_ops : list op :=
  [Fill 1 0x100 (fill_packet 0x100 0) false false false;
   Fill 2 0x200 (fill_packet 0x200 1) false true false;
   Access 3 0x104 false;
   Fill 4 0x300 (fill_packet 0x300 1) false false false;
   Access 5 0x200 false; Access 6 0x13f false; Drop 7 0x300 false].

Lemma example_ops_ok : Forall (op_ok 2) example_ops.
Proof. repeat (constructor; [simpl; auto with lia|]). constructor. Qed.

(** Two ways, one set: the line accessed again survives the third fill. *)
Lemma lru_refines_recency_order_witness :
  exists t t', BaseSetAssoc_new [] 2 (MkParams 128 64 2 2 false) = Ok t /\
    run 1000 2 example_ops t = Ok ([true; true; true; true; false; true; true], t').
Proof.
  destruct (lru_refines_recency_order [] 2 (MkParams 128 64 2 2 false) 1000 example_ops)
    as (t & k & s & t' & E & Ek & Es & Hrun & _).
  - reflexivity.
  - lia.
  - exact example_ops_ok.
  - exists t, t'. split; [exact E|].
    assert (numSets t = 1) as En by (vm_compute in E; injection E as <-; reflexivity).
    assert (k = 6) as -> by (apply (Z.pow_inj_r 2); simpl in *; try lia;
      destruct (Z.lt_ge_cases k 0) as [Hk|Hk]; [rewrite Z.pow_neg_r in Ek; simpl in Ek; lia|lia]).
    assert (s = 0) as -> by (rewrite En in Es; apply (Z.pow_inj_r 2); try lia;
      destruct (Z.lt_ge_cases s 0) as [Hk|Hk]; [rewrite Z.pow_neg_r in Es; lia|lia]).
    rewrite En in Hrun. exact Hrun.
Defined.

Lemma occupancies_count_valid_blocks_witness :
  exists t rs t', BaseSetAssoc_new [] 2 (MkParams 128 64 2 2 false) = Ok t /\
    run 1000 2 example_ops t = Ok (rs, t') /\ tagsInUse t' = 1 /\
    occupancies t' !! 0%nat = Some 1 /\ occupancies t' !! 1%nat = Some 0.
Proof.
  destruct (occupancies_count_valid_blocks [] 2 (MkParams 128 64 2 2 false) 1000 example_ops)
    as (t & rs & t' & E & Hrun & H1 & H2 & _).
  - reflexivity.
  - lia.
  - exact example_ops_ok.
  - exists t, rs, t'. split; [exact E|]. split; [exact Hrun|].
    rewrite H1, (H2 0%nat), (H2 1%nat) by (simpl; lia).
    vm_compute in E. injection E as <-. vm_compute in Hrun. injection Hrun as _ <-.
    split; [|split]; reflexivity.
Defined.

End LRU.
