(* ===== verification/RandomRepl.v ===== *)
(** The tag store with random replacement, mem/cache/tags/random_repl.cc. The
    value drawn from [random_mt.random<int>(0, assoc - 1)] is an argument. *)

From S2P Require Import Prelude IntMath Request MemCmd Packet Blk CacheSet BaseSetAssoc.
Import BaseSetAssoc.
Local Open Scope Z_scope.

Module RandomRepl.

Definition accessBlock := BaseSetAssoc.accessBlock.
Definition insertBlock := BaseSetAssoc.insertBlock.
Definition invalidate := BaseSetAssoc.invalidate.

(** A null [blk] (a set without ways) is dereferenced. *)
Definition findVictim (idx : Z) (t : Tags) (addr : Z) : outcome nat :=
  r ← BaseSetAssoc.findVictim t addr;
  match r with
  | None => Fail Undefined
  | Some p =>
      b ← pget (blks t) p;
      if Blk.isValid b then
        _ ← ensure AssertFailed (idx <? assoc t);
        _ ← ensure AssertFailed (idx >=? 0);
        s ← vget (sets t) (extractSet t addr);
        vget (CacheSet.blks s) idx
      else Ok p
  end.

(** The loop stops at the first invalid way and otherwise runs to the last. *)
Lemma victim_loop_spec store ways last :
  (forall p, p ∈ ways -> is_Some (store !! p)) ->
  exists r, victim_loop store ways last = Ok r /\
    ((exists p b, r = Some p /\ p ∈ ways /\ store !! p = Some b /\ Blk.isValid b = false) \/
     ((forall p b, p ∈ ways -> store !! p = Some b -> Blk.isValid b = true) /\
      (r = last /\ ways = [] \/ exists p b, r = Some p /\ p ∈ ways /\ store !! p = Some b /\
         Blk.isValid b = true))).
Proof.
  revert last. induction ways as [|p ways IH]; intros last Hs; simpl.
  { exists last. split; [done|]. right. split; [|auto]. intros ? ? ?%elem_of_nil. done. }
  destruct (Hs p) as [b Hb]; [left|]. unfold pget. rewrite Hb. simpl.
  destruct (Blk.isValid b) eqn:Ev; simpl.
  - destruct (IH (Some p)) as (r & -> & Hr).
    { intros q Hq. apply Hs. by right. }
    exists r. split; [done|]. destruct Hr as [(q & c & -> & ? & ?) | [Hall Hr]].
    + left. exists q, c. split_and!; try done; [by right|tauto|tauto].
    + right. split.
      * intros q c [->|Hq]%elem_of_cons Hc; [congruence|eauto].
      * right. destruct Hr as [[-> ->] | (q & c & -> & ? & ? & ?)].
        -- exists p, b. split_and!; try done. left.
        -- exists q, c. split_and!; try done. by right.
  - exists (Some p). split; [done|]. left. exists p, b. split_and!; try done. left.
Qed.

(** Random replacement picks a way of the address's own set for every draw
    in range, and evicts a valid block only when all ways of the set are valid. *)
Lemma random_victim_prefers_invalid t k s addr idx :
  wf t -> geometry t k s -> 0 <= addr -> 0 <= idx < assoc t ->
  exists cs p b, sets t !! Z.to_nat (extractSet t addr) = Some cs /\
    findVictim idx t addr = Ok p /\ p ∈ CacheSet.blks cs /\ blks t !! p = Some b /\
    (Blk.isValid b = true ->
     forall q c, q ∈ CacheSet.blks cs -> blks t !! q = Some c -> Blk.isValid c = true).
Proof.
  intros Hwf Hg Ha Hidx. pose proof (extractSet_range _ _ _ addr Hg Ha) as Hr.
  destruct (lookup_lt_is_Some_2 (sets t) (Z.to_nat (extractSet t addr))) as [cs Hcs].
  { rewrite (wf_sets _ Hwf). lia. }
  destruct (wf_ways _ Hwf _ _ Hcs) as [_ Hp].
  assert (vget (sets t) (extractSet t addr) = Ok cs) as Hv by (apply vget_ok; auto with lia).
  assert (Z.of_nat (length (CacheSet.blks cs)) = assoc t) as Hl.
  { rewrite Hp, length_seq. pose proof (wf_assoc _ Hwf). lia. }
  assert (forall p, p ∈ CacheSet.blks cs -> is_Some (blks t !! p)) as Hst.
  { intros p Hin. rewrite Hp, elem_of_seq in Hin. apply lookup_lt_is_Some_2.
    rewrite (wf_blks _ Hwf). nia. }
  destruct (victim_loop_spec (blks t) (CacheSet.blks cs) None Hst) as (r & Er & Hres).
  exists cs. unfold findVictim, BaseSetAssoc.findVictim. rewrite Hv. cbn [mbind outcome_bind].
  destruct (Z.leb_spec (assoc t) (Z.of_nat (length (CacheSet.blks cs)))); [|lia].
  cbn [mbind outcome_bind ensure]. rewrite take_ge by lia. rewrite Er. cbn [mbind outcome_bind].
  destruct Hres as [(p & b & -> & Hin & Hb & Hi) | [Hall Hres]].
  - exists p, b. unfold pget. rewrite Hb. cbn [mbind outcome_bind]. rewrite Hi.
    split_and!; try done; congruence.
  - destruct Hres as [[_ E] | (p & b & -> & Hin & Hb & Hi)].
    { rewrite E in Hl. simpl in Hl. lia. }
    unfold pget. rewrite Hb. cbn [mbind outcome_bind]. rewrite Hi.
    destruct (Z.ltb_spec idx (assoc t)); [|lia]. destruct (Z.geb_spec idx 0); [|lia].
    cbn [mbind outcome_bind ensure].
    destruct (vget_lt (CacheSet.blks cs) idx) as [q Hq]; [lia|].
    apply vget_ok in Hq as Hq'. destruct Hq' as [_ Hq'%list_elem_of_lookup_2].
    destruct (Hst q Hq') as [c Hc]. exists q, c. split_and!; done.
Qed.

End RandomRepl.
