(* ===== verification/Direction_Predictor.v ===== *)
(** The direction predictor of the LDS prefetcher: direction_predictor.hh and
    direction_predictor.cc.

    A table of [dp_entry] records says, per cache block or pair of blocks,
    whether the pointers found there are worth following. Two places of the
    source do not type check; they are read by the names they use:
    [assign_DP_entry] writes the fields of its reference argument [new_entry]
    (the text has [dp_array], the vector, on the left of the assignments), and
    [PtrInsideDC] returns the [inside] bit of the entry (the text converts the
    entry to [bool]). *)

From S2P Require Import Prelude IntMath.
Local Open Scope Z_scope.

Module Direction_Predictor.

Record dp_entry := MkEntry {
  pref1 : bool;
  pref2 : bool;
  prefed : bool;
  pollution : bool;
  inside : bool;
}.
#[global] Instance eta_dp_entry : Eta dp_entry := fun e =>
  MkEntry (pref1 e) (pref2 e) (prefed e) (pollution e) (inside e).

Record Direction_Predictor := MkDP {
  dp_array : list dp_entry;
  Dire_PredSize : Z;
  Dire_PredMask : Z;
  cache_block_size : Z;
}.
#[global] Instance eta_DP : Eta Direction_Predictor := fun d =>
  MkDP (dp_array d) (Dire_PredSize d) (Dire_PredMask d) (cache_block_size d).

(** The constructor; the parameters are [unsigned]. *)
Definition Direction_Predictor_new (dire_predsize cacheblksize : Z)
  : outcome Direction_Predictor :=
  if negb (IntMath.isPowerOf2 32 dire_predsize) then Fail FatalError
  else Ok (MkDP (replicate (Z.to_nat dire_predsize) (MkEntry false false false false false))
             dire_predsize (u32 (dire_predsize - 1)) cacheblksize).

(** [addr >> n] of an [unsigned]: a count of 32 or more is undefined. *)
Definition shr32 (addr n : Z) : outcome Z :=
  if n <? 32 then Ok (Z.shiftr addr n) else Fail Undefined.

Definition calcu2DP_Eidx (d : Direction_Predictor) (addr : Z) : outcome Z :=
  x ← shr32 addr (u32 (1 + cache_block_size d));
  Ok (Z.land x (Dire_PredMask d)).

Definition calcu1DP_Eidx (d : Direction_Predictor) (addr : Z) : outcome Z :=
  x ← shr32 addr (cache_block_size d);
  Ok (Z.land x (Dire_PredMask d)).

Definition getPrediction1 (d : Direction_Predictor) (addr : Z) : outcome dp_entry :=
  index ← calcu1DP_Eidx d addr;
  vget (dp_array d) index.

(** [inside] is not among the fields copied. *)
Definition assign_DP_entry (new_entry old_entry : dp_entry) : dp_entry :=
  new_entry <| pref1 := pref1 old_entry |> <| pref2 := pref2 old_entry |>
            <| prefed := prefed old_entry |> <| pollution := pollution old_entry |>.

(** [assign_DP_entry(dp_array[index], e)]. *)
Definition assign_at (index : Z) (e : dp_entry) (d : Direction_Predictor)
  : outcome Direction_Predictor :=
  old ← vget (dp_array d) index;
  v ← vset (dp_array d) index (assign_DP_entry old e);
  Ok (d <| dp_array := v |>).

Definition updateDP_array (addr : Z) (e : dp_entry) (d : Direction_Predictor)
  : outcome Direction_Predictor :=
  index ← calcu1DP_Eidx d addr;
  assign_at index e d.

Definition update_array (addr : Z) (e : dp_entry * dp_entry) (two_mode : bool)
  (d : Direction_Predictor) : outcome Direction_Predictor :=
  if two_mode then
    index1 ← calcu2DP_Eidx d addr;
    index2 ← (i ← calcu2DP_Eidx d addr; Ok (u32 (i + 1)));
    d ← assign_at index1 e.1 d;
    assign_at index2 e.2 d
  else updateDP_array addr e.1 d.

(** The entries are stored into the array passed in; in one-entry mode its
    second element stays. *)
Definition getPrediction (d : Direction_Predictor) (addr : Z) (e : dp_entry * dp_entry)
  (two_mode : bool) : outcome (dp_entry * dp_entry) :=
  if two_mode then
    index1 ← calcu2DP_Eidx d addr;
    e0 ← vget (dp_array d) index1;
    index2 ← (i ← calcu2DP_Eidx d addr; Ok (u32 (i + 1)));
    e1 ← vget (dp_array d) index2;
    Ok (e0, e1)
  else e0 ← getPrediction1 d addr; Ok (e0, e.2).

(** [one_mode] is not used. *)
Definition PtrInsideDC (d : Direction_Predictor) (addr : Z) (one_mode : bool) : outcome bool :=
  evictionIDX ← calcu1DP_Eidx d (u32 addr);
  e ← vget (dp_array d) evictionIDX;
  Ok (inside e).

(** ** Invariant and lemmas *)

Record wf (d : Direction_Predictor) (n : Z) : Prop := {
  wf_n : 0 <= n < 32;
  wf_size : Dire_PredSize d = 2 ^ n;
  wf_mask : Dire_PredMask d = 2 ^ n - 1;
  wf_len : Z.of_nat (length (dp_array d)) = 2 ^ n;
  wf_blk : 0 <= cache_block_size d < 31;
}.

Lemma dp_new_wf dire_predsize cbs :
  in_width 32 dire_predsize -> 0 <= cbs < 31 ->
  (exists n, 0 <= n < 32 /\ dire_predsize = 2 ^ n) <->
  (exists d n, Direction_Predictor_new dire_predsize cbs = Ok d /\ wf d n).
Proof.
  intros Hw Hc. unfold Direction_Predictor_new. split.
  - intros (n & Hn & E). rewrite (proj2 (IntMath.isPowerOf2_true 32 dire_predsize ltac:(lia) Hw)) by eauto.
    simpl. exists (MkDP (replicate (Z.to_nat dire_predsize) (MkEntry false false false false false))
      dire_predsize (u32 (dire_predsize - 1)) cbs), n. split; [done|].
    pose proof (pow2_pos n ltac:(lia)). destruct Hw.
    split; simpl; rewrite ?length_replicate, ?uwrap_small by (split; lia); lia.
  - intros (d & n & E & _). destruct (IntMath.isPowerOf2 32 dire_predsize) eqn:Ep; [|done].
    by apply IntMath.isPowerOf2_true in Ep.
Qed.

Lemma index1_ok d n addr :
  wf d n -> in_width 32 addr ->
  calcu1DP_Eidx d addr = Ok (addr / 2 ^ cache_block_size d mod 2 ^ n).
Proof.
  intros [] Ha. unfold calcu1DP_Eidx, shr32.
  destruct (Z.ltb_spec (cache_block_size d) 32); [|lia]. simpl.
  by rewrite wf_mask0, land_mask, Z.shiftr_div_pow2 by lia.
Qed.

Lemma index2_ok d n addr :
  wf d n -> in_width 32 addr ->
  calcu2DP_Eidx d addr = Ok (addr / 2 ^ (1 + cache_block_size d) mod 2 ^ n).
Proof.
  intros [] Ha. unfold calcu2DP_Eidx, shr32. rewrite uwrap_small by (split; lia).
  destruct (Z.ltb_spec (1 + cache_block_size d) 32); [|lia]. cbn [mbind outcome_bind].
  by rewrite wf_mask0, land_mask, Z.shiftr_div_pow2 by lia.
Qed.

Lemma mod_range a n : 0 <= n -> 0 <= a mod 2 ^ n < 2 ^ n.
Proof. intros. by apply Z.mod_pos_bound, pow2_pos. Qed.

Lemma assign_at_ok d n i e :
  wf d n -> 0 <= i < 2 ^ n ->
  exists old, dp_array d !! Z.to_nat i = Some old /\
    assign_at i e d = Ok (d <| dp_array ::= <[Z.to_nat i := assign_DP_entry old e]> |>).
Proof.
  intros [] Hi. destruct (vget_lt (dp_array d) i) as [old Hold]; [lia|].
  exists old. apply vget_ok in Hold as Ho. split; [tauto|]. unfold assign_at.
  rewrite Hold. cbn [mbind outcome_bind]. by rewrite vset_lt by lia.
Qed.

(** In one-entry mode every prediction and update stays inside the table;
    an update is seen by the next prediction for the same index (all fields but
    [inside], which keeps its old value) and changes no other entry. *)
Theorem one_entry_mode_update d n addr e spare :
  wf d n -> in_width 32 addr ->
  exists d' old, update_array addr (e, spare) false d = Ok d' /\ wf d' n /\
    getPrediction1 d addr = Ok old /\
    getPrediction1 d' addr = Ok (e <| inside := inside old |>) /\
    forall other, in_width 32 other ->
      calcu1DP_Eidx d other <> calcu1DP_Eidx d addr ->
      getPrediction1 d' other = getPrediction1 d other.
Proof.
  intros Hwf Ha. pose proof Hwf as [].
  set (i := addr / 2 ^ cache_block_size d mod 2 ^ n).
  assert (0 <= i < 2 ^ n) as Hi by (apply mod_range; lia).
  destruct (assign_at_ok d n i e Hwf Hi) as (old & Ho & Eas).
  unfold update_array, updateDP_array, getPrediction1. simpl fst.
  rewrite (index1_ok d n) by done. fold i. cbn [mbind outcome_bind]. rewrite Eas.
  eexists _, old. split; [done|].
  assert (forall a, calcu1DP_Eidx (d <| dp_array ::= <[Z.to_nat i:=assign_DP_entry old e]> |>) a
    = calcu1DP_Eidx d a) as Eidx by done.
  split; [split; simpl; rewrite ?length_insert; done|]. split.
  { apply vget_ok. split; [lia|done]. }
  split.
  - rewrite Eidx, (index1_ok d n) by done. fold i. cbn [mbind outcome_bind].
    apply vget_ok. split; [lia|]. simpl. rewrite list_lookup_insert_eq by lia.
    by destruct e.
  - intros other Hother Hne. rewrite Eidx, !(index1_ok d n) in * by done.
    cbn [mbind outcome_bind]. fold i in Hne. simpl. unfold vget.
    set (j := other / 2 ^ cache_block_size d mod 2 ^ n) in *.
    assert (0 <= j < 2 ^ n) as Hj by (apply mod_range; lia).
    destruct (Z.ltb_spec j 0); [done|].
    rewrite list_lookup_insert_ne; [done|]. intros E. apply Hne. f_equal. lia.
Qed.

Lemma one_entry_mode_update_witness :
  exists d, Direction_Predictor_new 16 6 = Ok d /\
  exists d', update_array 0x1040 (MkEntry true false true false true, MkEntry false false false false false)
               false d = Ok d' /\
    getPrediction1 d' 0x1040 = Ok (MkEntry true false true false false).
Proof.
  eexists. split; [reflexivity|].
  destruct (one_entry_mode_update
    (MkDP (replicate 16 (MkEntry false false false false false)) 16 15 6) 4 0x1040
    (MkEntry true false true false true) (MkEntry false false false false false))
    as (d' & old & E & _ & Ho & Hn & _).
  - split; simpl; lia.
  - split; lia.
  - exists d'. split; [exact E|]. rewrite Hn. vm_compute in Ho. injection Ho as <-. reflexivity.
Defined.

(** C39: in two-entry mode a prediction for an address whose index is the last of
    the table reads past its end; every other address is in bounds. *)
Theorem two_entry_mode_bounds d n addr e :
  wf d n -> in_width 32 addr ->
  (exists r, getPrediction d addr e true = Ok r) <->
  addr / 2 ^ (1 + cache_block_size d) mod 2 ^ n <> 2 ^ n - 1.
Proof.
  intros Hwf Ha. pose proof Hwf as []. unfold getPrediction.
  rewrite (index2_ok d n) by done. cbn [mbind outcome_bind].
  set (i := addr / 2 ^ (1 + cache_block_size d) mod 2 ^ n).
  assert (0 <= i < 2 ^ n) as Hi by (apply mod_range; lia).
  pose proof (Z.pow_le_mono_r 2 n 31 ltac:(lia) ltac:(lia)).
  rewrite uwrap_small by (split; lia).
  destruct (vget_lt (dp_array d) i) as [e0 ->]; [lia|]. cbn [mbind outcome_bind]. split.
  - intros [r Hr] E. inv_ok.
    match goal with H : vget _ (i + 1) = Ok _ |- _ => apply vget_ok in H as [_ H%lookup_lt_Some] end. lia.
  - intros Hne. destruct (vget_lt (dp_array d) (i + 1)) as [e1 ->]; [lia|].
    cbn [mbind outcome_bind]. eauto.
Qed.

(** With 16 entries and 64-byte blocks, address 0x780 has index 15. *)
Lemma two_entry_mode_bounds_witness :
  exists d, Direction_Predictor_new 16 6 = Ok d /\
    ~ exists r, getPrediction d 0x780 (MkEntry false false false false false,
                                       MkEntry false false false false false) true = Ok r.
Proof.
  eexists. split; [reflexivity|]. intros Hr.
  apply (two_entry_mode_bounds
    (MkDP (replicate 16 (MkEntry false false false false false)) 16 15 6) 4) in Hr.
  - apply Hr. reflexivity.
  - split; simpl; lia.
  - split; lia.
Defined.

End Direction_Predictor.
