(* ===== verification/Pattern_Table.v ===== *)
(** The pattern table of the LDS prefetcher: pattern_table.hh and
    pattern_table.cc.

    The table learns which registers hold pointers of a linked data structure
    and hands out prefetches for them. The source is a draft: some conditions
    are prose and some names are not declared. They are read as follows.

    - [inst is load] is the field [isLoad] of the instruction.
    - [pattern table is empty] is prose that could mean more than one thing; it
      is an argument, [table_is_empty], and no theorem assumes anything of it.
    - [pointer[i]] of an entry, and [pf[j]] without an entry in front, are the
      pointer fields [pf] of the entry the loop is at; [i] in a loop over [j] is
      [j]; [p[i]->valid] is the field of [p]; [_addr] in [updatePaddr] is its
      argument [_paddr].
    - [v_pointer] and [real_ptr], which no record declares, are fields of
      [PointerField].
    - the fields [new PT_entry] leaves unset are those of an argument [fresh].

    The bounds of the loops are as written: a loop that runs from [begin()] while
    the iterator differs from [begin()] makes no round. A call of a function with a
    result that reaches its end without a [return] is undefined.

    [get_ptr_infos], [AccessTLB] and [AccessDC] are not modelled: they work on
    objects that are declared nowhere ([pointer], [lsq_unit], [dcachePort],
    [initiateTranslation]). [PtrInsideDC] is in LDSPrefetcher.v, with the direction
    predictor it calls. *)

From S2P Require Import Prelude IntMath.
Local Open Scope Z_scope.

Module Pattern_Table.

Record PointerField := MkPF {
  dest_reg : Z;
  addr : Z;
  offset : Z;
  pref : bool;
  addr_valid : bool;
  valid : bool;
  translating : bool;
  pref_issued : bool;
  pref_done : bool;
  v_pointer : bool;
  real_ptr : bool;
}.
#[global] Instance eta_PF : Eta PointerField := fun p =>
  MkPF (dest_reg p) (addr p) (offset p) (pref p) (addr_valid p) (valid p) (translating p)
    (pref_issued p) (pref_done p) (v_pointer p) (real_ptr p).

Inductive PTE_status := idle | busy | meet_mispred.

Record PT_entry := MkPTE {
  pte_valid : bool;
  src_base_reg : Z;
  pte_status : PTE_status;
  pf : list PointerField;
}.
#[global] Instance eta_PTE : Eta PT_entry := fun e =>
  MkPTE (pte_valid e) (src_base_reg e) (pte_status e) (pf e).

Record Pattern_Table := MkPT {
  pattern_table_set : Z;
  pt_maxnumpointers : Z;
  pattern_table : list PT_entry;
}.
#[global] Instance eta_PT : Eta Pattern_Table := fun t =>
  MkPT (pattern_table_set t) (pt_maxnumpointers t) (pattern_table t).

(** What the table reads of a decoded instruction. *)
Record DynInst := MkInst {
  isLoad : bool;
  srcRegIdx0 : Z;
  destRegIdx0 : Z;
  effaddr : Z;
  imm : Z;
}.

(** The initialisation of a pointer field by the constructor. *)
Definition reset_pf (p : PointerField) : PointerField :=
  p <| pref := false |> <| addr_valid := false |> <| valid := false |>
    <| translating := false |> <| pref_issued := false |> <| pref_done := false |>.

(** Apply [f] to the first [n] pointer fields. *)
Definition upd_fields (n : Z) (f : PointerField -> PointerField) (l : list PointerField)
  : outcome (list PointerField) :=
  if Z.of_nat (length l) <? n then Fail Undefined
  else Ok ((f <$> take (Z.to_nat n) l) ++ drop (Z.to_nat n) l).

(** The constructor. [resize] fills the table with value-initialised entries
    ([zero], whose [pf] is the array [_pt_pointerfield_maxnum] sizes). *)
Definition Pattern_Table_new (zero : PT_entry) (_pattern_table_set _pt_maxnumpointers : Z)
  : outcome Pattern_Table :=
  if negb (IntMath.isPowerOf2 32 _pattern_table_set) then Fail FatalError
  else
    fields ← upd_fields _pt_maxnumpointers reset_pf (pf zero);
    Ok (MkPT _pattern_table_set _pt_maxnumpointers
          (replicate (Z.to_nat _pattern_table_set)
             (zero <| pte_valid := false |> <| pf := fields |>))).

(** A loop over the table from iterator [it] while it differs from [stop]. The
    body returns the changed entry and whether the function returns there. *)
Fixpoint iter_loop (fuel : nat) (it stop : nat) (body : PT_entry -> outcome (PT_entry * bool))
  (tbl : list PT_entry) : outcome (list PT_entry) :=
  if decide (it = stop) then Ok tbl
  else
    match fuel with
    | O => Fail Undefined
    | S fuel =>
        e ← pget tbl it;
        '(e, ret) ← body e;
        let tbl := <[it := e]> tbl in
        if ret : bool then Ok tbl else iter_loop fuel (S it) stop body tbl
    end.

(** [for(i=0; i<n; i++)] over the pointer fields, stopping at the first one
    [test] holds of and changing it by [f]. *)
Fixpoint first_field (n : nat) (i : nat) (test : PointerField -> bool)
  (f : PointerField -> PointerField) (l : list PointerField)
  : outcome (list PointerField * bool) :=
  match n with
  | O => Ok (l, false)
  | S n =>
      p ← pget l i;
      if test p then Ok (<[i := f p]> l, true) else first_field n (S i) test f l
  end.

(** The body of the loop of [DecodedInstAccess] for a load. *)
Definition load_body (n : Z) (inst : DynInst) (e : PT_entry) : outcome (PT_entry * bool) :=
  if srcRegIdx0 inst =? src_base_reg e then
    '(l, ret) ← first_field (Z.to_nat n) 0 (fun p => negb (valid p))
      (fun p => p <| valid := true |> <| dest_reg := destRegIdx0 inst |>
                  <| offset := s32 (effaddr inst - imm inst) |>) (pf e);
    Ok (e <| pf := l |>, ret)
  else
    l ← upd_fields n (fun p => if valid p && (dest_reg p =? srcRegIdx0 inst)
                               then p <| v_pointer := true |> else p) (pf e);
    Ok (e <| pf := l |>, false).

(** The body for any other instruction. *)
Definition other_body (n : Z) (inst : DynInst) (e : PT_entry) : outcome (PT_entry * bool) :=
  '(l, ret) ← first_field (Z.to_nat n) 0 (fun p => destRegIdx0 inst =? dest_reg p)
    (fun p => p <| valid := false |>) (pf e);
  Ok (e <| pf := l |>, ret).

Section table.
Context (table_is_empty : list PT_entry -> bool).

Definition DecodedInstAccess (fresh : PT_entry) (inst : DynInst) (t : Pattern_Table)
  : outcome Pattern_Table :=
  let tbl := pattern_table t in
  let begin := 0%nat in
  if isLoad inst then
    if table_is_empty tbl then
      let temp_entry := fresh <| src_base_reg := srcRegIdx0 inst |> <| pte_valid := true |> in
      Ok (t <| pattern_table := tbl ++ [temp_entry] |>)
    else
      tbl ← iter_loop (length tbl) begin begin (load_body (pt_maxnumpointers t) inst) tbl;
      Ok (t <| pattern_table := tbl |>)
  else
    tbl ← iter_loop (length tbl) begin begin (other_body (pt_maxnumpointers t) inst) tbl;
    Ok (t <| pattern_table := tbl |>).

(** The condition under which a prefetch is issued for a pointer. *)
Definition should_issue (p : PointerField) : bool :=
  valid p && addr_valid p && negb (pref_issued p) && pref p.

(** The body of the loop of [calculatePref]; the function returns a packet when
    a pointer qualifies. *)
Definition pref_body (n : Z) (e : PT_entry) : outcome (PT_entry * bool) :=
  if pte_valid e then
    '(l, ret) ← first_field (Z.to_nat n) 0 should_issue
      (fun p => p <| pref_issued := true |>) (pf e);
    Ok (e <| pf := l |>, ret)
  else Ok (e, false).

(** The loop of [calculatePref], with whether a packet is returned. *)
Fixpoint pref_loop (fuel : nat) (it stop : nat) (n : Z) (tbl : list PT_entry)
  : outcome (list PT_entry * bool) :=
  if decide (it = stop) then Ok (tbl, false)
  else
    match fuel with
    | O => Fail Undefined
    | S fuel =>
        e ← pget tbl it;
        '(e, ret) ← pref_body n e;
        let tbl := <[it := e]> tbl in
        if ret : bool then Ok (tbl, true) else pref_loop fuel (S it) stop n tbl
    end.

(** It returns, with a new packet, from inside the loop only. *)
Definition calculatePref (t : Pattern_Table) : outcome Pattern_Table :=
  let tbl := pattern_table t in
  let begin := 0%nat in
  '(tbl, issued) ← pref_loop (length tbl) begin begin (pt_maxnumpointers t) tbl;
  if issued : bool then Ok (t <| pattern_table := tbl |>) else Fail Undefined.

Definition updatePaddr (PtrFieldID _paddr _pteid : Z) (t : Pattern_Table)
  : outcome Pattern_Table :=
  e ← vget (pattern_table t) _pteid;
  p ← vget (pf e) PtrFieldID;
  l ← vset (pf e) PtrFieldID (p <| addr := _paddr |> <| addr_valid := true |>);
  v ← vset (pattern_table t) _pteid (e <| pf := l |>);
  Ok (t <| pattern_table := v |>).

(** [for (i = 0; i < pattern_table_set; i++) if (valid) ...]. *)
Fixpoint valid_rows (n : nat) (f : PT_entry -> outcome PT_entry) (tbl : list PT_entry)
  : outcome (list PT_entry) :=
  match n, tbl with
  | O, _ => Ok tbl
  | S _, [] => Fail Undefined
  | S n, e :: tbl =>
      e ← (if pte_valid e then f e else Ok e);
      tbl ← valid_rows n f tbl;
      Ok (e :: tbl)
  end.

Definition on_rows (f : PT_entry -> outcome PT_entry) (t : Pattern_Table)
  : outcome Pattern_Table :=
  v ← valid_rows (Z.to_nat (pattern_table_set t)) f (pattern_table t);
  Ok (t <| pattern_table := v |>).

Definition capPattern (inst : DynInst) (t : Pattern_Table) : outcome Pattern_Table :=
  on_rows (fun e =>
    l ← upd_fields (pt_maxnumpointers t)
      (fun p => if valid p && (srcRegIdx0 inst =? dest_reg p)
                then p <| real_ptr := true |> else p) (pf e);
    Ok (e <| pf := l |>)) t.

Definition stopPref (t : Pattern_Table) : outcome Pattern_Table :=
  on_rows (fun e => Ok (e <| pte_status := meet_mispred |>)) t.

(** There is no [return] statement. *)
Definition needAccessTLB (t : Pattern_Table) : outcome (bool * Pattern_Table) :=
  _ ← on_rows (fun e =>
    l ← upd_fields (pt_maxnumpointers t)
      (fun p => if valid p && negb (addr_valid p) && negb (translating p)
                then p <| translating := true |> else p) (pf e);
    Ok (e <| pf := l |>)) t;
  Fail Undefined.

(** The bodies are empty. *)
Definition NewsFromL1D (inst : DynInst) (t : Pattern_Table) : Pattern_Table := t.
Definition NewsFromL2 (inst : DynInst) (t : Pattern_Table) : Pattern_Table := t.

(** ** Sequences of calls *)

(** The calls that have no result. *)
Inductive op :=
  | Decoded (fresh : PT_entry) (inst : DynInst)
  | FromL1D (inst : DynInst)
  | FromL2 (inst : DynInst)
  | UpdatePaddr (PtrFieldID paddr pteid : Z)
  | CapPattern (inst : DynInst)
  | StopPref.

Definition step (o : op) (t : Pattern_Table) : outcome Pattern_Table :=
  match o with
  | Decoded fresh inst => DecodedInstAccess fresh inst t
  | FromL1D inst => Ok (NewsFromL1D inst t)
  | FromL2 inst => Ok (NewsFromL2 inst t)
  | UpdatePaddr i a e => updatePaddr i a e t
  | CapPattern inst => capPattern inst t
  | StopPref => stopPref t
  end.

Fixpoint run (ops : list op) (t : Pattern_Table) : outcome Pattern_Table :=
  match ops with
  | [] => Ok t
  | o :: ops => t ← step o t; run ops t
  end.

(** ** What the table learns *)

(** A row that records nothing: not valid, none of its pointers valid. *)
Definition blank (n : Z) (e : PT_entry) : Prop :=
  pte_valid e = false /\ n <= Z.of_nat (length (pf e)) /\
  forall j p, (j < Z.to_nat n)%nat -> pf e !! j = Some p -> valid p = false.

Record unlearned (t : Pattern_Table) : Prop := {
  un_len : pattern_table_set t <= Z.of_nat (length (pattern_table t));
  un_rows i e : (i < Z.to_nat (pattern_table_set t))%nat ->
    pattern_table t !! i = Some e -> blank (pt_maxnumpointers t) e;
}.

Lemma iter_loop_begin fuel it body tbl : iter_loop fuel it it body tbl = Ok tbl.
Proof. destruct fuel; simpl; by rewrite decide_True. Qed.

Lemma pref_loop_begin fuel it n tbl : pref_loop fuel it it n tbl = Ok (tbl, false).
Proof. destruct fuel; simpl; by rewrite decide_True. Qed.

(** The loops over the rows skip rows that are not valid. *)
Lemma valid_rows_skip n f tbl :
  (n <= length tbl)%nat ->
  (forall i e, (i < n)%nat -> tbl !! i = Some e -> pte_valid e = false) ->
  valid_rows n f tbl = Ok tbl.
Proof.
  revert tbl. induction n as [|n IH]; intros [|e tbl] Hl He; simpl in *; try done; [lia|].
  rewrite (He 0%nat e) by (done || lia). simpl.
  rewrite IH; [done|lia|]. intros i e' Hi. apply (He (S i)). lia.
Qed.

Lemma on_rows_unlearned f t : unlearned t -> on_rows f t = Ok t.
Proof.
  intros [Hl Hr]. unfold on_rows. rewrite valid_rows_skip; [by destruct t|lia|].
  intros i e Hi He. by apply (Hr i e Hi He).
Qed.

(** [updatePaddr] with indices in range. *)
Definition op_ok (t : Pattern_Table) (o : op) : Prop :=
  match o with
  | UpdatePaddr i _ e =>
      0 <= i < pt_maxnumpointers t /\ 0 <= e < pattern_table_set t
  | _ => True
  end.

Lemma updatePaddr_unlearned i a r t :
  unlearned t -> op_ok t (UpdatePaddr i a r) ->
  exists t', updatePaddr i a r t = Ok t' /\ unlearned t' /\
    pattern_table_set t' = pattern_table_set t /\ pt_maxnumpointers t' = pt_maxnumpointers t.
Proof.
  intros [Hl Hr] [Hi Hre]. unfold updatePaddr.
  destruct (vget_lt (pattern_table t) r) as [e He]; [lia|].
  pose proof He as [_ He']%vget_ok.
  destruct (Hr (Z.to_nat r) e) as (Hv & Hlen & Hp); [lia|done|].
  destruct (vget_lt (pf e) i) as [p Hpi]; [lia|]. pose proof Hpi as [_ Hpi']%vget_ok.
  rewrite He. cbn [mbind outcome_bind]. rewrite Hpi. cbn [mbind outcome_bind].
  rewrite vset_lt by lia. cbn [mbind outcome_bind]. rewrite vset_lt by lia.
  cbn [mbind outcome_bind]. eexists. split; [done|]. split; [|done].
  split; simpl; [by rewrite length_insert|]. intros j c Hj Hc.
  destruct (decide (Z.to_nat r = j)) as [<-|Hne].
  - rewrite list_lookup_insert_eq in Hc by lia. injection Hc as <-.
    split; simpl; [done|]. rewrite length_insert. split; [done|]. intros k q Hk Hq.
    destruct (decide (Z.to_nat i = k)) as [<-|Hne'].
    + rewrite list_lookup_insert_eq in Hq by lia. injection Hq as <-. simpl. eauto.
    + rewrite list_lookup_insert_ne in Hq by done. eauto.
  - rewrite list_lookup_insert_ne in Hc by done. eauto.
Qed.

Lemma decoded_unlearned fresh inst t :
  unlearned t -> exists t', DecodedInstAccess fresh inst t = Ok t' /\ unlearned t' /\
    pattern_table_set t' = pattern_table_set t /\ pt_maxnumpointers t' = pt_maxnumpointers t /\
    (pattern_table t' = pattern_table t \/
     exists e, pattern_table t' = pattern_table t ++ [e] /\ isLoad inst = true /\
       table_is_empty (pattern_table t) = true).
Proof.
  intros Hun. pose proof Hun as [Hl Hr]. unfold DecodedInstAccess. rewrite !iter_loop_begin.
  destruct (isLoad inst); [destruct (table_is_empty _)|]; cbn [mbind outcome_bind];
    eexists; (split; [done|]); (split; [|by eauto 10]); split; simpl; try done.
  - rewrite length_app. simpl. lia.
  - intros i e Hi He. rewrite lookup_app_l in He by lia. eauto.
Qed.

Lemma step_unlearned o t :
  unlearned t -> op_ok t o ->
  exists t', step o t = Ok t' /\ unlearned t' /\
    pattern_table_set t' = pattern_table_set t /\ pt_maxnumpointers t' = pt_maxnumpointers t.
Proof.
  intros Hun Hok. destruct o as [fresh inst|inst|inst|i a r|inst|]; simpl.
  - destruct (decoded_unlearned fresh inst t Hun) as (t' & -> & ? & ? & ? & _). eauto.
  - by exists t.
  - by exists t.
  - by apply updatePaddr_unlearned.
  - unfold capPattern. rewrite on_rows_unlearned by done. eauto.
  - unfold stopPref. rewrite on_rows_unlearned by done. eauto.
Qed.

Lemma new_unlearned zero set max :
  IntMath.isPowerOf2 32 set = true -> 0 <= max <= Z.of_nat (length (pf zero)) -> 0 <= set ->
  exists t, Pattern_Table_new zero set max = Ok t /\ unlearned t /\
    pattern_table_set t = set /\ pt_maxnumpointers t = max.
Proof.
  intros Hp Hm Hs. unfold Pattern_Table_new, upd_fields. rewrite Hp. simpl.
  destruct (Z.ltb_spec (Z.of_nat (length (pf zero))) max); [lia|]. simpl.
  eexists. split; [done|]. split; [|done]. split; simpl.
  - rewrite length_replicate. lia.
  - intros i e Hi [-> _]%lookup_replicate_1. split; simpl; [done|].
    rewrite length_app, length_fmap, length_take, length_drop. split; [lia|].
    intros j p Hj. rewrite lookup_app_l by (rewrite length_fmap, length_take; lia).
    rewrite list_lookup_fmap. destruct (take _ _ !! j); naive_solver.
Qed.

Lemma run_unlearned ops t :
  unlearned t -> Forall (op_ok t) ops ->
  exists t', run ops t = Ok t' /\ unlearned t' /\
    pattern_table_set t' = pattern_table_set t /\ pt_maxnumpointers t' = pt_maxnumpointers t.
Proof.
  revert t. induction ops as [|o ops IH]; intros t Hun Hops; simpl; [eauto|].
  apply Forall_cons in Hops as [Ho Hops].
  destruct (step_unlearned o t Hun Ho) as (t1 & -> & Hun1 & Es & Em). cbn [mbind outcome_bind].
  destruct (IH t1 Hun1) as (t2 & -> & Hun2 & ? & ?).
  { eapply Forall_impl; [exact Hops|]. intros [] Hok; simpl in *; rewrite ?Es, ?Em; done. }
  eexists. split; [done|]. split; [done|]. by rewrite <- Es, <- Em.
Qed.

(** C40: whatever the prose condition [pattern table is empty] means, the table
    never learns a pointer and never issues a prefetch. After every sequence of
    calls of [DecodedInstAccess], [NewsFromL1D], [NewsFromL2], [updatePaddr] (with
    indices in range), [capPattern] and [stopPref] the rows the constructor made
    are still invalid with no valid pointer, and [calculatePref] does not return a
    packet: its loop compares the iterator with [begin()] and makes no round, so
    that the function runs off its end, as [needAccessTLB] does on every path; both
    are undefined behaviour. The methods without a usable body ([get_ptr_infos],
    [AccessTLB], [AccessDC]) are not part of the sequences. *)
Theorem pattern_table_never_prefetches zero set max ops :
  IntMath.isPowerOf2 32 set = true -> 0 <= max <= Z.of_nat (length (pf zero)) -> 0 <= set ->
  Forall (op_ok (MkPT set max [])) ops ->
  exists t t', Pattern_Table_new zero set max = Ok t /\ run ops t = Ok t' /\
    (forall i e, (i < Z.to_nat set)%nat -> pattern_table t' !! i = Some e -> blank max e) /\
    calculatePref t' = Fail Undefined /\ needAccessTLB t' = Fail Undefined.
Proof.
  intros Hp Hm Hs Hops.
  destruct (new_unlearned zero set max Hp Hm Hs) as (t & E & Hun & Es & Em).
  destruct (run_unlearned ops t Hun) as (t' & Er & Hun' & Es' & Em').
  { eapply Forall_impl; [exact Hops|]. intros [] Hok; simpl in *; rewrite ?Es, ?Em; done. }
  exists t, t'. split; [done|]. split; [done|]. split_and!.
  - intros i e Hi He. rewrite <- Em, <- Em'. apply (un_rows _ Hun' i e); [|done]. by rewrite Es', Es.
  - unfold calculatePref. by rewrite pref_loop_begin.
  - unfold needAccessTLB. by rewrite on_rows_unlearned.
Qed.

End table.

(** One row of one pointer; a load is decoded, its pointer translated, and a
    prefetch asked for. *)
Lemma pattern_table_never_prefetches_witness :
  exists t t', Pattern_Table_new
      (MkPTE false 0 idle [MkPF 0 0 0 false false false false false false false false]) 1 1 = Ok t /\
    run (fun _ => false)
      [Decoded (MkPTE false 0 idle []) (MkInst true 3 4 0x1000 8); FromL1D (MkInst true 3 4 0x1000 8);
       UpdatePaddr 0 0x1000 0] t = Ok t' /\
    calculatePref t' = Fail Undefined.
Proof.
  destruct (pattern_table_never_prefetches (fun _ => false)
    (MkPTE false 0 idle [MkPF 0 0 0 false false false false false false false false]) 1 1
    [Decoded (MkPTE false 0 idle []) (MkInst true 3 4 0x1000 8); FromL1D (MkInst true 3 4 0x1000 8);
     UpdatePaddr 0 0x1000 0]) as (t & t' & E & Hr & _ & Hc & _).
  - reflexivity.
  - simpl. lia.
  - lia.
  - repeat constructor; simpl; lia.
  - exists t, t'. split; [exact E|]. split; [exact Hr|exact Hc].
Defined.

End Pattern_Table.
