(* ===== verification/LDSPrefetcher.v ===== *)
(** The target register bitmap (targetregbitmap.hh, targetregbitmap.cc) and the
    LDS prefetcher that owns the parts (ldsprefetcher.hh, ldsprefetcher.cc).

    The conditions of the bitmap's methods are prose about the branch at hand;
    they are the fields of [Branch]. [_BQ.pop()], which [std::list] does not
    have, removes the oldest checkpoint, as its comment says. *)

From S2P Require Import Prelude IntMath Direction_Predictor Pattern_Table.
Local Open Scope Z_scope.

Module Target_Reg_Bitmap.

(** [_TRB] is a [bitset<32>]. *)
Record Target_Reg_Bitmap := MkTRB {
  bitmap_size : Z;
  _TRB : Z;
  _BQ : list Z;
}.
#[global] Instance eta_TRB : Eta Target_Reg_Bitmap := fun t =>
  MkTRB (bitmap_size t) (_TRB t) (_BQ t).

Record Branch := MkBranch {
  may_mispred : bool;
  mispred : bool;
  well_pred : bool;
}.

(** The body is empty. *)
Definition access_TRB (inst : Branch) (t : Target_Reg_Bitmap) : Target_Reg_Bitmap := t.

Definition EnqTRB_ToBQ (inst : Branch) (t : Target_Reg_Bitmap) : Target_Reg_Bitmap :=
  if may_mispred inst then t <| _BQ := _BQ t ++ [_TRB t] |> else t.

(** [front()] and the removal of an element of an empty list are undefined. *)
Definition Deq_BQ (inst : Branch) (t : Target_Reg_Bitmap) : outcome Target_Reg_Bitmap :=
  t ← (if mispred inst then
         match _BQ t with
         | [] => Fail Undefined
         | c :: _ => Ok (t <| _TRB := c |> <| _BQ := [] |>)
         end
       else Ok t);
  if well_pred inst then
    match _BQ t with
    | [] => Fail Undefined
    | _ :: rest => Ok (t <| _BQ := rest |>)
    end
  else Ok t.

Inductive op := Decode (inst : Branch) | Resolve (inst : Branch).

Definition step (o : op) (t : Target_Reg_Bitmap) : outcome Target_Reg_Bitmap :=
  match o with
  | Decode inst => Ok (EnqTRB_ToBQ inst (access_TRB inst t))
  | Resolve inst => Deq_BQ inst t
  end.

Fixpoint run (ops : list op) (t : Target_Reg_Bitmap) : outcome Target_Reg_Bitmap :=
  match ops with
  | [] => Ok t
  | o :: ops => t ← step o t; run ops t
  end.

(** The number of checkpoints after a call, [None] where it reads an empty
    queue. A branch is resolved as predicted well or as mispredicted. *)
Definition pending_step (o : op) (n : nat) : option nat :=
  match o with
  | Decode inst => Some (if may_mispred inst then S n else n)
  | Resolve inst =>
      if mispred inst then
        match n with O => None | S _ => if well_pred inst then None else Some O end
      else if well_pred inst then match n with O => None | S n => Some n end
      else Some n
  end.

Fixpoint pending (ops : list op) (n : nat) : option nat :=
  match ops with
  | [] => Some n
  | o :: ops => match pending_step o n with Some n => pending ops n | None => None end
  end.

Lemma step_constant o size x n :
  step o (MkTRB size x (replicate n x)) =
    match pending_step o n with
    | Some m => Ok (MkTRB size x (replicate m x))
    | None => Fail Undefined
    end.
Proof.
  destruct o as [inst|inst]; simpl.
  - unfold EnqTRB_ToBQ, access_TRB. destruct (may_mispred inst); simpl; [|done].
    do 2 f_equal. by rewrite <- replicate_S_end.
  - unfold Deq_BQ. destruct (mispred inst), n as [|n]; simpl; try done;
      by destruct (well_pred inst).
Qed.

(** On every sequence of decoded and resolved branches the calls fail
    exactly when a branch is resolved with no checkpoint left, and otherwise
    the bitmap keeps its initial value and every checkpoint is a copy of it:
    no method ever sets or clears a bit. *)
Theorem target_reg_bitmap_constant ops size x n :
  run ops (MkTRB size x (replicate n x)) =
    match pending ops n with
    | Some m => Ok (MkTRB size x (replicate m x))
    | None => Fail Undefined
    end.
Proof.
  revert n. induction ops as [|o ops IH]; intros n; cbn [run pending]; [done|].
  rewrite step_constant. destruct (pending_step o n); simpl; [apply IH|done].
Qed.

End Target_Reg_Bitmap.

Module LDSPrefetcher.

Record LDSPrefetcher := MkLDSP {
  _trb : Target_Reg_Bitmap.Target_Reg_Bitmap;
  _pattern_table : Pattern_Table.Pattern_Table;
  _dire_pred : Direction_Predictor.Direction_Predictor;
}.
#[global] Instance eta_LDSP : Eta LDSPrefetcher := fun l =>
  MkLDSP (_trb l) (_pattern_table l) (_dire_pred l).

Record Params := MkParams {
  p_bitmap_size : Z;
  p_pattern_table_set : Z;
  p_pt_maxnumpointers : Z;
  p_dire_predsize : Z;
  p_cache_block_size : Z;
}.

(** The constructor builds the parts; the bitmap starts with all bits clear. *)
Definition LDSPrefetcher_new (zero : Pattern_Table.PT_entry) (p : Params)
  : outcome LDSPrefetcher :=
  let trb := Target_Reg_Bitmap.MkTRB (p_bitmap_size p) 0 [] in
  pt ← Pattern_Table.Pattern_Table_new zero (p_pattern_table_set p) (p_pt_maxnumpointers p);
  dp ← Direction_Predictor.Direction_Predictor_new (p_dire_predsize p) (p_cache_block_size p);
  Ok (MkLDSP trb pt dp).

(** The result of the table's method, which does not return one, is not used. *)
Definition needAccessTLB (l : LDSPrefetcher) : outcome LDSPrefetcher :=
  '(_, pt) ← Pattern_Table.needAccessTLB (_pattern_table l);
  Ok (l <| _pattern_table := pt |>).

(** [Pattern_Table::PtrInsideDC] asks the direction predictor and has no [return]
    statement for its answer. *)
Definition PtrInsideDC (l : LDSPrefetcher) (addr : Z) (one_mode : bool) : outcome bool :=
  _ ← Direction_Predictor.PtrInsideDC (_dire_pred l) addr one_mode;
  Fail Undefined.

(** The direction predictor of a new prefetcher finds no pointer inside the data
    cache. *)
Lemma new_PtrInsideDC zero p l addr one_mode :
  LDSPrefetcher_new zero p = Ok l -> 0 <= p_cache_block_size p < 31 ->
  in_width 32 (p_dire_predsize p) -> in_width 32 addr ->
  Direction_Predictor.PtrInsideDC (_dire_pred l) addr one_mode = Ok false.
Proof.
  unfold LDSPrefetcher_new. intros H Hc Hw Ha. inv_ok.
  assert (exists n, Direction_Predictor.wf a0 n) as [n Hwf].
  { pose proof E0 as E1. unfold Direction_Predictor.Direction_Predictor_new in E1.
    destruct (IntMath.isPowerOf2 32 (p_dire_predsize p)) eqn:Ep; [|done]. clear E1.
    apply IntMath.isPowerOf2_true in Ep; [|lia|done].
    destruct (proj1 (Direction_Predictor.dp_new_wf _ _ Hw Hc) Ep) as (d & n & Ed & Hd).
    rewrite E0 in Ed. injection Ed as <-. eauto. }
  unfold Direction_Predictor.PtrInsideDC. simpl.
  rewrite uwrap_small by done. rewrite (Direction_Predictor.index1_ok a0 n) by done.
  cbn [mbind outcome_bind].
  set (i := addr / 2 ^ Direction_Predictor.cache_block_size a0 mod 2 ^ n).
  assert (0 <= i < 2 ^ n) as Hi by (apply Direction_Predictor.mod_range; apply Hwf).
  destruct (vget_lt (Direction_Predictor.dp_array a0) i) as [e He].
  { pose proof (Direction_Predictor.wf_len _ _ Hwf). lia. }
  rewrite He. cbn [mbind outcome_bind]. apply vget_ok in He as [_ He].
  unfold Direction_Predictor.Direction_Predictor_new in E0.
  destruct (negb _) in E0; [done|]. injection E0 as <-. simpl in He.
  by apply lookup_replicate_1 in He as [-> _].
Qed.

End LDSPrefetcher.
