(* ===== verification/BasePrefetcher.v ===== *)
(** What all prefetchers share: mem/cache/prefetch/base.hh and base.cc.

    The prefetcher asks its cache two questions, whether a line is in the cache
    and whether it is in the miss queue. [CacheView] is the interface through
    which it does; the theorems on prefetchers hold for every instance. *)

From S2P Require Import Prelude IntMath Request MemCmd Packet.
Local Open Scope Z_scope.

(** What [BaseCache] offers to its prefetcher. *)
Class CacheView (C : Type) := {
  inCache : C -> Z -> bool -> bool;
  inMissQueue : C -> Z -> bool -> bool;
}.

Module BasePrefetcher.

Record BasePrefetcher := MkBase {
  blkSize : Z;
  onMiss : bool;
  onRead : bool;
  onWrite : bool;
  onData : bool;
  onInst : bool;
  masterId : Z;
  pageBytes : Z;
}.
#[global] Instance eta_Base : Eta BasePrefetcher := fun b =>
  MkBase (blkSize b) (onMiss b) (onRead b) (onWrite b) (onData b) (onInst b) (masterId b)
    (pageBytes b).

(** The constructor, and [setCache] with the cache's block size. *)
Definition BasePrefetcher_new (on_miss on_read on_write on_data on_inst : bool)
  (masterId pageBytes : Z) : BasePrefetcher :=
  MkBase 0 on_miss on_read on_write on_data on_inst masterId pageBytes.

Definition setCache (blockSize : Z) (b : BasePrefetcher) : BasePrefetcher :=
  b <| blkSize := blockSize |>.

(** The filters of [observeAccess] before the cache is asked. *)
Definition observed_kind (b : BasePrefetcher) (pkt : Packet.Packet) : bool :=
  let fetch := Request.isInstFetch (Packet.req pkt) in
  let read := Packet.isRead pkt in
  let inv := Packet.isInvalidate pkt in
  if Request.isUncacheable (Packet.req pkt) then false
  else if fetch && negb (onInst b) then false
  else if negb fetch && negb (onData b) then false
  else if negb fetch && read && negb (onRead b) then false
  else if negb fetch && negb read && negb (onWrite b) then false
  else if negb fetch && negb read && inv then false
  else true.

Definition observeAccess `{CacheView C} (cache : C) (b : BasePrefetcher) (pkt : Packet.Packet)
  : outcome bool :=
  addr ← Packet.getAddr pkt;
  is_secure ← Packet.isSecure pkt;
  if negb (observed_kind b pkt) then Ok false
  else if onMiss b then
    Ok (negb (inCache cache addr is_secure) && negb (inMissQueue cache addr is_secure))
  else Ok true.

Definition samePage (b : BasePrefetcher) (x y : Z) : bool :=
  IntMath.roundDown 64 x (pageBytes b) =? IntMath.roundDown 64 y (pageBytes b).

(** [addr & ~(Addr)(blkSize - 1)]. *)
Definition block_align (b : BasePrefetcher) (addr : Z) : Z :=
  Z.land addr (unot 64 (u32 (blkSize b - 1))).

(** ** Lemmas *)

(** Block and page sizes are powers of two. *)
Record wf (b : BasePrefetcher) (k g : Z) : Prop := {
  wf_k : 0 <= k < 32;
  wf_g : 0 <= g < 64;
  wf_blkSize : blkSize b = 2 ^ k;
  wf_page : pageBytes b = 2 ^ g;
}.

Lemma block_align_mod b k g addr :
  wf b k g -> in_width 64 addr -> block_align b addr = addr - addr mod 2 ^ k.
Proof.
  intros [] Ha. unfold block_align. rewrite wf_blkSize0.
  pose proof (pow2_pos k ltac:(lia)). pose proof (Z.pow_lt_mono_r 2 k 32).
  rewrite uwrap_small by (split; lia). apply land_not_mask; [lia|done].
Qed.

Lemma block_align_aligned b k g addr :
  wf b k g -> in_width 64 addr ->
  block_align b addr mod 2 ^ k = 0 /\ in_width 64 (block_align b addr).
Proof.
  intros Hw Ha. rewrite (block_align_mod b k g) by done. split.
  - apply aligned_mod. apply Hw.
  - apply aligned_range; [apply Hw|done].
Qed.

(** Two addresses are on the same page when they agree above the page offset. *)
Lemma samePage_div b k g x y :
  wf b k g -> in_width 64 x -> in_width 64 y ->
  samePage b x y = true <-> x / 2 ^ g = y / 2 ^ g.
Proof.
  intros [] Hx Hy. unfold samePage. rewrite wf_page0, !IntMath.roundDown_pow2 by done.
  pose proof (pow2_pos g ltac:(lia)).
  pose proof (Z.div_mod x (2 ^ g)). pose proof (Z.div_mod y (2 ^ g)).
  rewrite Z.eqb_eq. split; nia.
Qed.

(** ** Candidate loops

    The loop that ends both [calculatePrefetch] methods: for [d] from 1 to
    [degree], push [next d] while it is on the page of [origin]; at the first
    one that is not, add [degree - d + 1] to [pfSpanPage] and return. The
    recursion is on the rounds left, [n = degree - d + 1]. *)
Fixpoint page_loop (b : BasePrefetcher) (origin degree : Z) (next : Z -> Z) (n : nat) (d : Z)
  : list Z * Z :=
  match n with
  | O => ([], 0)
  | S n =>
      if samePage b origin (next d) then
        let '(l, span) := page_loop b origin degree next n (d + 1) in (next d :: l, span)
      else ([], degree - d + 1)
  end.

(** [for (int d = 1; d <= degree; d++)]. *)
Definition candidates (b : BasePrefetcher) (origin degree : Z) (next : Z -> Z) : list Z * Z :=
  page_loop b origin degree next (Z.to_nat degree) 1.

(** The addresses pushed are the first ones, all on the page of [origin], and
    together with the page-crossing count they make up the degree. *)
Lemma page_loop_spec b origin degree next n d :
  Z.of_nat n = degree - d + 1 ->
  let '(l, span) := page_loop b origin degree next n d in
  exists m, (m <= n)%nat /\ l = (fun i => next (d + Z.of_nat i)) <$> seq 0 m /\
    span = Z.of_nat (n - m) /\ Forall (fun x => samePage b origin x = true) l /\
    ((m < n)%nat -> samePage b origin (next (d + Z.of_nat m)) = false).
Proof.
  revert d. induction n as [|n IH]; intros d Hd; cbn [page_loop].
  { exists 0%nat. split_and!; try done. lia. }
  destruct (samePage b origin (next d)) eqn:E.
  - specialize (IH (d + 1) ltac:(lia)). destruct (page_loop b origin degree next n (d + 1)) as [l span].
    destruct IH as (m & Hm & -> & -> & Hall & Hend). exists (S m). split_and!; [lia| |lia| |].
    + cbn [seq]. rewrite fmap_cons. f_equal; [f_equal; lia|]. rewrite <- fmap_S_seq, <- list_fmap_compose.
      apply list_fmap_ext. intros i x _. simpl. f_equal. lia.
    + by constructor.
    + intros Hlt. rewrite <- (Hend ltac:(lia)). do 2 f_equal. lia.
  - exists 0%nat. split_and!; try done; [lia..|]. intros _. by rewrite Z.add_0_r.
Qed.

Lemma candidates_spec b origin degree next :
  0 <= degree ->
  let '(l, span) := candidates b origin degree next in
  exists m, Z.of_nat m + span = degree /\ 0 <= span /\
    l = (fun i => next (1 + Z.of_nat i)) <$> seq 0 m /\
    Forall (fun x => samePage b origin x = true) l /\
    (span <> 0 -> samePage b origin (next (1 + Z.of_nat m)) = false).
Proof.
  intros Hd. unfold candidates.
  pose proof (page_loop_spec b origin degree next (Z.to_nat degree) 1 ltac:(lia)) as H.
  destruct (page_loop _ _ _ _ _ _) as [l span]. destruct H as (m & Hm & -> & -> & Hall & Hend).
  exists m. split_and!; try done; [lia|lia|]. intros Hs. apply Hend. lia.
Qed.

End BasePrefetcher.
