(* ===== verification/QueuedPrefetcher.v ===== *)
(** The prefetch queue: mem/cache/prefetch/queued.hh and queued.cc.

    [notify] asks the concrete prefetcher for candidate addresses, filters them
    and queues a prefetch packet for each one left. The virtual method
    [calculatePrefetch] is the class [Generator]; the stride and the tagged
    prefetcher are its instances. [deassertMemSideBusRequest] has an empty body
    and is left out. *)

From Stdlib Require Import Sorted.
From S2P Require Import Prelude IntMath Request MemCmd Packet BasePrefetcher.
Import BasePrefetcher.
Local Open Scope Z_scope.

(** [calculatePrefetch(pkt, addresses)]: the addresses pushed, what is added to
    [pfSpanPage], and the state of the concrete prefetcher. *)
Class Generator (G : Type) :=
  calculatePrefetch : BasePrefetcher -> Packet.Packet -> G -> outcome (list Z * Z * G).

Module QueuedPrefetcher.

Record DeferredPacket := MkDeferred {
  tick : Z;
  pkt : Packet.Packet;
}.

Record Queued (G : Type) := MkQueued {
  base : BasePrefetcher;
  gen : G;
  pfq : list DeferredPacket;
  queueSize : Z;
  latency : Z;
  queueSquash : bool;
  queueFilter : bool;
  cacheSnoop : bool;
  tagPrefetch : bool;
  pfIssued : Z;
  pfIdentified : Z;
  pfBufferHit : Z;
  pfInCache : Z;
  pfRemovedFull : Z;
  pfSpanPage : Z;
}.
#[global] Arguments MkQueued {G}.
#[global] Arguments base {G}.
#[global] Arguments gen {G}.
#[global] Arguments pfq {G}.
#[global] Arguments queueSize {G}.
#[global] Arguments latency {G}.
#[global] Arguments queueSquash {G}.
#[global] Arguments queueFilter {G}.
#[global] Arguments cacheSnoop {G}.
#[global] Arguments tagPrefetch {G}.
#[global] Arguments pfIssued {G}.
#[global] Arguments pfIdentified {G}.
#[global] Arguments pfBufferHit {G}.
#[global] Arguments pfInCache {G}.
#[global] Arguments pfRemovedFull {G}.
#[global] Arguments pfSpanPage {G}.

#[global] Instance eta_Queued {G} : Eta (Queued G) := fun q =>
  MkQueued (base q) (gen q) (pfq q) (queueSize q) (latency q) (queueSquash q) (queueFilter q)
    (cacheSnoop q) (tagPrefetch q) (pfIssued q) (pfIdentified q) (pfBufferHit q) (pfInCache q)
    (pfRemovedFull q) (pfSpanPage q).

(** The constructor, with an empty queue and clear statistics. *)
Definition Queued_new {G} (b : BasePrefetcher) (g : G) (queue_size latency : Z)
  (queue_squash queue_filter cache_snoop tag_prefetch : bool) : Queued G :=
  MkQueued b g [] queue_size latency queue_squash queue_filter cache_snoop tag_prefetch
    0 0 0 0 0 0.

(** The test shared by the squash loop and [inPrefetch]. *)
Definition same_line (address : Z) (is_secure : bool) (dp : DeferredPacket) : outcome bool :=
  a ← Packet.getAddr (pkt dp);
  s ← Packet.isSecure (pkt dp);
  Ok ((a =? address) && eqb s is_secure).

Fixpoint inPrefetch (address : Z) (is_secure : bool) (l : list DeferredPacket)
  : outcome bool :=
  match l with
  | [] => Ok false
  | dp :: l => b ← same_line address is_secure dp;
               if b : bool then Ok true else inPrefetch address is_secure l
  end.

(** The loop that erases the queued prefetches of a line. *)
Fixpoint squash (blk_addr : Z) (is_secure : bool) (l : list DeferredPacket)
  : outcome (list DeferredPacket) :=
  match l with
  | [] => Ok []
  | dp :: l => b ← same_line blk_addr is_secure dp;
               rest ← squash blk_addr is_secure l;
               Ok (if b : bool then rest else dp :: rest)
  end.

Section queue.
Context {C : Type} `{CacheView C} {G : Type} `{Generator G}.
(** The current tick, the prefetcher's clock period and the contents of newly
    allocated bytes. *)
Context (curTick clockPeriod : Z) (fresh : Z -> list Z).

(** The prefetch packet for [pf_addr], created on behalf of [trigger]. *)
Definition make_prefetch (q : Queued G) (trigger : Packet.Packet) (pf_addr : Z)
  (is_secure : bool) : outcome Packet.Packet :=
  let treq := Packet.req trigger in
  pf_req ← Request.Request_phys curTick pf_addr (blkSize (base q)) 0 (masterId (base q));
  pf_req ← (if is_secure then Request.setFlags Request.SECURE pf_req else Ok pf_req);
  let pf_req := Request.set_taskId Request.TaskId_Prefetcher pf_req in
  pf_pkt ← Packet.Packet_new pf_req MemCmd.HardPFReq;
  pf_pkt ← Packet.allocate fresh pf_pkt;
  pf_pkt ← (if Request.hasContextId treq then
              c ← Request.contextId treq;
              t ← Request.threadId treq;
              Ok (pf_pkt <| Packet.req ::= Request.setThreadContext c t |>)
            else Ok pf_pkt);
  if tagPrefetch q && Request.hasPC treq then
    pc ← Request.getPC treq;
    Ok (pf_pkt <| Packet.req ::= Request.setPC pc |>)
  else Ok pf_pkt.

(** The end of the loop body: make room, then append. *)
Definition enqueue (pf_pkt : Packet.Packet) (q : Queued G) : outcome (Queued G) :=
  q ← (if Z.of_nat (length (pfq q)) =? queueSize q then
         match pfq q with
         | [] => Fail Undefined
         | _ :: rest => Ok (q <| pfRemovedFull ::= Z.succ |> <| pfq := rest |>)
         end
       else Ok q);
  let pf_time := u64 (curTick + clockPeriod * latency q) in
  Ok (q <| pfq := pfq q ++ [MkDeferred pf_time pf_pkt] |>).

(** One round of the loop over the candidates. *)
Definition queue_candidate (cache : C) (trigger : Packet.Packet) (is_secure : bool)
  (pf_addr : Z) (q : Queued G) : outcome (Queued G) :=
  let pf_addr := block_align (base q) pf_addr in
  let q := q <| pfIdentified ::= Z.succ |> in
  dup ← (if queueFilter q then inPrefetch pf_addr is_secure (pfq q) else Ok false);
  if dup : bool then Ok (q <| pfBufferHit ::= Z.succ |>)
  else if cacheSnoop q && (inCache cache pf_addr is_secure || inMissQueue cache pf_addr is_secure)
  then Ok (q <| pfInCache ::= Z.succ |>)
  else
    pf_pkt ← make_prefetch q trigger pf_addr is_secure;
    enqueue pf_pkt q.

Fixpoint queue_candidates (cache : C) (trigger : Packet.Packet) (is_secure : bool)
  (addresses : list Z) (q : Queued G) : outcome (Queued G) :=
  match addresses with
  | [] => Ok q
  | a :: addresses =>
      q ← queue_candidate cache trigger is_secure a q;
      queue_candidates cache trigger is_secure addresses q
  end.

Definition nextPrefetchReadyTime (q : Queued G) : Z :=
  match pfq q with [] => MaxTick | dp :: _ => tick dp end.

Definition notify (cache : C) (trigger : Packet.Packet) (q : Queued G)
  : outcome (Z * Queued G) :=
  observed ← observeAccess cache (base q) trigger;
  q ← (if observed : bool then
         a ← Packet.getAddr trigger;
         let blk_addr := block_align (base q) a in
         is_secure ← Packet.isSecure trigger;
         q ← (if queueSquash q then
                l ← squash blk_addr is_secure (pfq q); Ok (q <| pfq := l |>)
              else Ok q);
         '(addresses, span, g) ← calculatePrefetch (base q) trigger (gen q);
         let q := q <| gen := g |> <| pfSpanPage ::= Z.add span |> in
         queue_candidates cache trigger is_secure addresses q
       else Ok q);
  Ok (nextPrefetchReadyTime q, q).

Definition getPacket (q : Queued G) : option Packet.Packet * Queued G :=
  match pfq q with
  | [] => (None, q)
  | dp :: rest => (Some (pkt dp), q <| pfq := rest |> <| pfIssued ::= Z.succ |>)
  end.

End queue.

(** ** Packets in the queue *)

(** The line a queued prefetch is for. *)
Definition line (dp : DeferredPacket) : Z * bool :=
  (Packet.addr (pkt dp), Packet._isSecure (pkt dp)).

(** A queued packet is a block-aligned hardware prefetch of one block. *)
Record pf_ok (b : BasePrefetcher) (p : Packet.Packet) : Prop := {
  pf_valid : Packet.has_flag Packet.VALID_ADDR p = true;
  pf_cmd : Packet.cmd p = MemCmd.HardPFReq;
  pf_size : Packet.size p = blkSize b;
  pf_aligned : Packet.addr p mod blkSize b = 0;
  pf_task : Request.taskId (Packet.req p) = Request.TaskId_Prefetcher;
  pf_master : Request.masterId (Packet.req p) = masterId b;
}.

Definition dp_ok (b : BasePrefetcher) (dp : DeferredPacket) : Prop := pf_ok b (pkt dp).

(** A packet that can be passed to [notify]: it has an address, a request with a
    context also has a thread, and the program counter is an address. *)
Record trigger_ok (p : Packet.Packet) : Prop := {
  tr_addr : Packet.has_flag Packet.VALID_ADDR p = true;
  tr_range : in_width 64 (Packet.addr p);
  tr_thread : Request.hasContextId (Packet.req p) = true ->
    Flags.isSet (Request.privateFlags (Packet.req p)) Request.VALID_THREAD_ID = true;
  tr_pc : 0 <= Request._pc (Packet.req p);
}.

Lemma trigger_reads p : trigger_ok p ->
  Packet.getAddr p = Ok (Packet.addr p) /\ Packet.isSecure p = Ok (Packet._isSecure p).
Proof. intros []. unfold Packet.getAddr, Packet.isSecure. by rewrite tr_addr0. Qed.

Lemma same_line_ok b dp address sec :
  dp_ok b dp -> same_line address sec dp = Ok (bool_decide (line dp = (address, sec))).
Proof.
  intros []. unfold same_line, Packet.getAddr, Packet.isSecure. rewrite pf_valid0. simpl.
  f_equal. unfold line. destruct (Z.eqb_spec (Packet.addr (pkt dp)) address) as [->|Hne]; simpl.
  - destruct (Packet._isSecure (pkt dp)), sec; simpl; symmetry;
      (apply bool_decide_eq_true || apply bool_decide_eq_false); congruence.
  - symmetry. apply bool_decide_eq_false. congruence.
Qed.

Lemma inPrefetch_ok b l address sec :
  Forall (dp_ok b) l ->
  inPrefetch address sec l = Ok (bool_decide ((address, sec) ∈ line <$> l)).
Proof.
  induction 1 as [|dp l Hd Hl IH]; [done|]. cbn [inPrefetch].
  rewrite (same_line_ok b) by done. cbn [mbind outcome_bind].
  destruct (bool_decide_reflect (line dp = (address, sec))) as [E|E].
  - f_equal. symmetry. apply bool_decide_eq_true. rewrite fmap_cons, E. left.
  - rewrite IH. f_equal. apply bool_decide_ext. rewrite fmap_cons, elem_of_cons. naive_solver.
Qed.

(** Squashing keeps exactly the prefetches of other lines, in order. *)
Lemma squash_ok b l address sec :
  Forall (dp_ok b) l ->
  squash address sec l = Ok (filter (fun dp => line dp <> (address, sec)) l).
Proof.
  induction 1 as [|dp l Hd Hl IH]; [done|]. cbn [squash].
  rewrite (same_line_ok b) by done. cbn [mbind outcome_bind]. rewrite IH.
  cbn [mbind outcome_bind]. rewrite filter_cons.
  destruct (bool_decide_reflect (line dp = (address, sec))); case_decide; naive_solver.
Qed.

Lemma request_phys_eq t a n m :
  0 <= n ->
  Request.Request_phys t a n 0 m =
    Ok (Request.MkRequest a n m 0 3 t Request.TaskId_Unknown 0 0 0 0 0 0 0 0 0).
Proof.
  intros Hn. unfold Request.Request_phys, Request.setPhys.
  apply Z.leb_le in Hn. rewrite Hn. reflexivity.
Qed.

(** ** What a candidate does *)

Section specs.
Context {C : Type} `{CacheView C} {G : Type} `{Generator G}.
Context (curTick clockPeriod : Z) (fresh : Z -> list Z).
Implicit Types q : Queued G.

Lemma make_prefetch_ok q k g trigger a sec :
  wf (base q) k g -> trigger_ok trigger -> a mod blkSize (base q) = 0 ->
  exists p, make_prefetch curTick fresh q trigger a sec = Ok p /\
    pf_ok (base q) p /\ Packet.addr p = a /\ Packet._isSecure p = sec.
Proof.
  intros [] [] Hal. unfold make_prefetch. rewrite request_phys_eq
    by (rewrite wf_blkSize0; apply Z.pow_nonneg; lia).
  cbn [mbind outcome_bind].
  set (r0 := Request.MkRequest _ _ _ _ _ _ _ _ _ _ _ _ _ _ _ _).
  set (r1 := Request.MkRequest a (blkSize (base q)) (masterId (base q))
    (if sec then Request.SECURE else 0) 3 curTick Request.TaskId_Prefetcher 0 0 0 0 0 0 0 0 0).
  assert ((if sec then Request.setFlags Request.SECURE r0 else Ok r0) =
    Ok (r1 <| Request._taskId := Request.TaskId_Unknown |>)) as -> by (by destruct sec).
  cbn [mbind outcome_bind].
  set (p0 := Packet.MkPacket 0x2300 MemCmd.HardPFReq r1 (Some (fresh (blkSize (base q)))) a sec
    (blkSize (base q)) MemCmd.InvalidCmd [] 0 0 []).
  assert (Packet.Packet_new (Request.set_taskId Request.TaskId_Prefetcher
    (r1 <| Request._taskId := Request.TaskId_Unknown |>)) MemCmd.HardPFReq ≫= Packet.allocate fresh
    = Ok p0) as E0 by (by destruct sec).
  rewrite bind_ok in E0. destruct E0 as (p' & -> & E0). cbn [mbind outcome_bind].
  rewrite E0. cbn [mbind outcome_bind].
  set (m1 := if Request.hasContextId (Packet.req trigger) then _ else _).
  assert (exists p1, m1 = Ok p1 /\ pf_ok (base q) p1 /\ Packet.addr p1 = a /\
    Packet._isSecure p1 = sec) as (p1 & -> & Hok & Ha & Hs).
  { unfold m1, Request.contextId, Request.threadId, Request.hasContextId in *.
    destruct (Flags.isSet (Request.privateFlags (Packet.req trigger)) Request.VALID_CONTEXT_ID).
    - rewrite tr_thread0 by done. eexists. split; [done|]. by split; [split|].
    - eexists. split; [done|]. by split; [split|]. }
  cbn [mbind outcome_bind]. unfold Request.hasPC, Request.getPC.
  destruct (tagPrefetch q); simpl; [|eauto].
  destruct (Flags.isSet (Request.privateFlags (Packet.req trigger)) Request.VALID_PC); simpl; [|eauto].
  eexists. split; [done|]. destruct Hok. by split; [split|].
Qed.

(** The queue is full. *)
Definition full q : bool := Z.of_nat (length (pfq q)) =? queueSize q.

Lemma enqueue_ok p q :
  0 < queueSize q ->
  enqueue curTick clockPeriod p q = Ok (q
    <| pfRemovedFull ::= Z.add (b2z (full q)) |>
    <| pfq := (if full q then tail (pfq q) else pfq q) ++
              [MkDeferred (u64 (curTick + clockPeriod * latency q)) p] |>).
Proof.
  intros Hs. unfold enqueue, full.
  destruct (Z.eqb_spec (Z.of_nat (length (pfq q))) (queueSize q)) as [E|E].
  - destruct q as [? ? [|dp rest]]; simpl in *; [lia|]. do 2 f_equal. lia.
  - destruct q; simpl. done.
Qed.

(** The three outcomes for a candidate: already queued, already in the cache, or
    queued, after the oldest prefetch made room if the queue was full. *)
Lemma queue_candidate_ok cache trigger sec a q k g :
  wf (base q) k g -> trigger_ok trigger -> Forall (dp_ok (base q)) (pfq q) ->
  0 < queueSize q -> in_width 64 a ->
  let x := block_align (base q) a in
  let dup := queueFilter q && bool_decide ((x, sec) ∈ line <$> pfq q) in
  let present := cacheSnoop q && (inCache cache x sec || inMissQueue cache x sec) in
  let q1 := q <| pfIdentified ::= Z.succ |> in
  exists q', queue_candidate curTick clockPeriod fresh cache trigger sec a q = Ok q' /\
    if dup then q' = q1 <| pfBufferHit ::= Z.succ |>
    else if present then q' = q1 <| pfInCache ::= Z.succ |>
    else exists p, pf_ok (base q) p /\ Packet.addr p = x /\ Packet._isSecure p = sec /\
      q' = q1 <| pfRemovedFull ::= Z.add (b2z (full q)) |>
              <| pfq := (if full q then tail (pfq q) else pfq q) ++
                        [MkDeferred (u64 (curTick + clockPeriod * latency q)) p] |>.
Proof.
  intros Hwf Htr Hok Hs Ha x dup present q1. unfold queue_candidate. fold x.
  change (pfq (q <| pfIdentified ::= Z.succ |>)) with (pfq q).
  change (queueFilter (q <| pfIdentified ::= Z.succ |>)) with (queueFilter q).
  change (cacheSnoop (q <| pfIdentified ::= Z.succ |>)) with (cacheSnoop q).
  fold q1 present.
  assert ((if queueFilter q then inPrefetch x sec (pfq q) else Ok false) = Ok dup) as ->.
  { unfold dup. destruct (queueFilter q); [|done]. by rewrite (inPrefetch_ok (base q)). }
  cbn [mbind outcome_bind]. destruct dup; [eauto|]. destruct present; [eauto|].
  destruct (make_prefetch_ok q1 k g trigger x sec) as (p & -> & Hp & Hpa & Hps); [done|done| |].
  { change (base q1) with (base q). rewrite (wf_blkSize _ _ _ Hwf).
    by apply (block_align_aligned (base q) k g). }
  cbn [mbind outcome_bind]. rewrite enqueue_ok by done. eexists. split; [done|].
  exists p. done.
Qed.

End specs.

(** ** Runs of a prefetcher *)

(** What a concrete prefetcher promises: from a state that satisfies its
    invariant, candidates are generated for every packet, and they are
    addresses. *)
Class GeneratorOk (G : Type) `{Generator G} := {
  gen_inv : BasePrefetcher -> G -> Prop;
  gen_total b p s : gen_inv b s -> trigger_ok p ->
    exists l n s', calculatePrefetch b p s = Ok (l, n, s') /\
      Forall (in_width 64) l /\ 0 <= n /\ gen_inv b s';
}.

Section runs.
Context {C : Type} `{CacheView C} {G : Type} `{GeneratorOk G}.
Context (clockPeriod : Z) (fresh : Z -> list Z).
Implicit Types q : Queued G.

(** The cache reports an access, at a tick and with the cache in a state, or
    asks for a prefetch to issue. *)
Inductive event :=
  | Notify (now : Z) (cache : C) (trigger : Packet.Packet)
  | GetPacket.

Definition step (e : event) q : outcome (Queued G) :=
  match e with
  | Notify now cache trigger =>
      r ← notify now clockPeriod fresh cache trigger q; Ok r.2
  | GetPacket => Ok (getPacket q).2
  end.

Fixpoint run (es : list event) q : outcome (Queued G) :=
  match es with
  | [] => Ok q
  | e :: es => q ← step e q; run es q
  end.

(** Time does not go back and no ready time overflows. *)
Fixpoint timed (lat now : Z) (es : list event) : Prop :=
  match es with
  | [] => True
  | Notify t _ p :: es =>
      now <= t /\ t + clockPeriod * lat < 2 ^ 64 /\ trigger_ok p /\ timed lat t es
  | GetPacket :: es => timed lat now es
  end.

(** Candidates counted and not yet accounted for by a drop, an issue or a place
    in the queue: the squashed ones. *)
Definition squashed q : Z :=
  pfIdentified q - (pfBufferHit q + pfInCache q + pfRemovedFull q + pfIssued q
                    + Z.of_nat (length (pfq q))).

Record inv (k g now : Z) q : Prop := {
  iv_base : wf (base q) k g;
  iv_gen : gen_inv (base q) (gen q);
  iv_size : 0 < queueSize q;
  iv_len : Z.of_nat (length (pfq q)) <= queueSize q;
  iv_ok : Forall (dp_ok (base q)) (pfq q);
  iv_nodup : queueFilter q = true -> NoDup (line <$> pfq q);
  iv_sorted : StronglySorted Z.le (tick <$> pfq q);
  iv_ticks : Forall (fun dp => tick dp <= now + clockPeriod * latency q) (pfq q);
  iv_squashed : 0 <= squashed q /\ (queueSquash q = false -> squashed q = 0);
}.

Lemma sorted_snoc l x :
  StronglySorted Z.le l -> Forall (fun y => y <= x) l -> StronglySorted Z.le (l ++ [x]).
Proof.
  induction 1 as [|y l Hl IH Hy]; intros Hx; simpl.
  - repeat constructor.
  - apply Forall_cons in Hx as [? ?]. constructor; [auto|].
    apply Forall_app. split; [done|]. by constructor.
Qed.

Lemma sorted_filter (P : DeferredPacket -> Prop) `{forall x, Decision (P x)} l :
  StronglySorted Z.le (tick <$> l) -> StronglySorted Z.le (tick <$> filter P l).
Proof.
  induction l as [|x l IH]; intros Hs; [done|]. rewrite fmap_cons in Hs.
  apply StronglySorted_inv in Hs as [Hs Hx]. rewrite filter_cons. case_decide; [|auto].
  rewrite fmap_cons. constructor; [auto|]. rewrite Forall_forall in Hx |- *.
  intros t (y & -> & Hy)%list_elem_of_fmap. apply list_elem_of_filter in Hy as [_ Hy].
  apply Hx. by apply list_elem_of_fmap_2.
Qed.

Lemma Forall_filter_sub (P Q : DeferredPacket -> Prop) `{forall x, Decision (P x)} l :
  Forall Q l -> Forall Q (filter P l).
Proof.
  rewrite !Forall_forall. intros HQ x Hx. apply list_elem_of_filter in Hx as [_ ?]. auto.
Qed.

(** The parameters, which no operation changes. *)
Definition config q :=
  (base q, queueSize q, latency q, queueSquash q, queueFilter q, cacheSnoop q, tagPrefetch q).

Lemma config_latency q q' : config q' = config q -> latency q' = latency q.
Proof. by intros [=]. Qed.

Ltac solve_squashed Hsq :=
  let Hz := fresh "Hz" in let Hf := fresh "Hf" in
  unfold squashed in *; simpl; rewrite ?length_app; simpl; destruct Hsq as [? Hz];
  split; [lia | intros Hf; specialize (Hz Hf); lia].

(** A candidate keeps the invariant. *)
Lemma candidate_inv k g now cache trigger sec a q :
  inv k g now q -> trigger_ok trigger -> in_width 64 a ->
  0 <= now + clockPeriod * latency q < 2 ^ 64 ->
  exists q', queue_candidate now clockPeriod fresh cache trigger sec a q = Ok q' /\
    inv k g now q' /\ config q' = config q.
Proof.
  intros [Hb Hg Hs Hl Hok Hnd Hso Ht Hsq] Htr Ha Hnow.
  destruct (queue_candidate_ok now clockPeriod fresh cache trigger sec a q k g)
    as (q' & E & Hq'); try done.
  exists q'. split; [done|]. clear E. unfold squashed in Hsq.
  destruct (queueFilter q && _) eqn:Edup.
  { subst q'. split; [|done]. split; try done. solve_squashed Hsq. }
  destruct (cacheSnoop q && _).
  { subst q'. split; [|done]. split; try done. solve_squashed Hsq. }
  destruct Hq' as (p & Hp & Hpa & Hps & ->). split; [|done].
  rewrite uwrap_small by done.
  set (l := if full q then tail (pfq q) else pfq q).
  assert (exists pre, pfq q = pre ++ l /\ Z.of_nat (length pre) = b2z (full q)) as (pre & El & Epre).
  { unfold l, full. destruct (Z.eqb_spec (Z.of_nat (length (pfq q))) (queueSize q)).
    - destruct (pfq q) as [|dp rest]; [simpl in *; lia|]. by exists [dp].
    - by exists []. }
  split; simpl; try done.
  - rewrite length_app. simpl. apply (f_equal length) in El. rewrite length_app in El.
    unfold full in Epre. destruct (Z.eqb_spec (Z.of_nat (length (pfq q))) (queueSize q));
      simpl in Epre; lia.
  - rewrite El in Hok. apply Forall_app in Hok as [_ Hok]. apply Forall_app.
    split; [done|]. by constructor.
  - intros Hf. specialize (Hnd Hf). rewrite Hf in Edup. simpl in Edup.
    apply bool_decide_eq_false in Edup. rewrite El, fmap_app in Hnd, Edup.
    apply NoDup_app in Hnd as (_ & _ & Hnd). rewrite fmap_app. apply NoDup_app.
    split; [done|]. split; [|apply NoDup_singleton].
    intros y Hy ->%list_elem_of_singleton. apply Edup, elem_of_app. right.
    unfold line in Hy at 1. simpl in Hy. by rewrite Hpa, Hps in Hy.
  - rewrite El in Hso, Ht. rewrite fmap_app in Hso |- *. apply sorted_snoc.
    + clear -Hso. induction (tick <$> pre) as [|y m IH]; [done|].
      simpl in Hso. apply IH. by apply StronglySorted_inv in Hso as [? _].
    + apply Forall_app in Ht as [_ Ht]. apply Forall_fmap. exact Ht.
  - rewrite El in Ht. apply Forall_app in Ht as [_ Ht]. apply Forall_app.
    split; [done|]. by constructor.
  - apply (f_equal length) in El. rewrite length_app in El. rewrite El in Hsq.
    solve_squashed Hsq.
Qed.

Lemma candidates_inv k g now cache trigger sec l q :
  inv k g now q -> trigger_ok trigger -> Forall (in_width 64) l ->
  0 <= now + clockPeriod * latency q < 2 ^ 64 ->
  exists q', queue_candidates now clockPeriod fresh cache trigger sec l q = Ok q' /\
    inv k g now q' /\ config q' = config q.
Proof.
  intros Hi Htr Hl. revert q Hi. induction Hl as [|a l Ha Hl IH]; intros q Hi Hn; simpl; [eauto|].
  destruct (candidate_inv k g now cache trigger sec a q) as (q1 & -> & Hi1 & El); try done.
  cbn [mbind outcome_bind].
  destruct (IH q1 Hi1) as (q2 & -> & ? & ?); [by rewrite (config_latency _ _ El)|]. eexists. split; [done|]. split; [done|]. congruence.
Qed.

Lemma inv_later k g now now' q : inv k g now q -> now <= now' -> inv k g now' q.
Proof.
  intros [] ?. split; try done. eapply Forall_impl; [exact iv_ticks0|]. simpl. lia.
Qed.

Lemma squash_inv k g now x q :
  inv k g now q -> queueSquash q = true ->
  inv k g now (q <| pfq ::= filter (fun dp => line dp <> x) |>).
Proof.
  intros [Hb Hg Hs Hl Hok Hnd Hso Ht [Hsq _]] Hqs.
  pose proof (length_filter (fun dp => line dp <> x) (pfq q)) as Hlen.
  split; simpl; try done.
  - lia.
  - by apply Forall_filter_sub.
  - intros Hf. specialize (Hnd Hf). clear -Hnd. induction (pfq q) as [|dp l IH]; [done|].
    rewrite fmap_cons, NoDup_cons in Hnd. destruct Hnd as [Hn Hnd]. rewrite filter_cons.
    case_decide; [|auto]. rewrite fmap_cons. constructor; [|auto].
    intros (y & Ey & Hy)%list_elem_of_fmap. apply Hn. rewrite Ey.
    apply list_elem_of_fmap_2. by apply list_elem_of_filter in Hy as [_ ?].
  - by apply sorted_filter.
  - by apply Forall_filter_sub.
  - unfold squashed in *. simpl. split; [lia|]. by rewrite Hqs.
Qed.

Lemma notify_inv k g now0 now cache trigger q :
  inv k g now0 q -> now0 <= now -> trigger_ok trigger ->
  0 <= now + clockPeriod * latency q < 2 ^ 64 ->
  exists t q', notify now clockPeriod fresh cache trigger q = Ok (t, q') /\
    inv k g now q' /\ config q' = config q.
Proof.
  intros Hi Hnow Htr Hov. destruct (trigger_reads _ Htr) as [Ea Es].
  apply (inv_later _ _ _ now) in Hi; [|done].
  unfold notify, observeAccess. rewrite Ea, Es. cbn [mbind outcome_bind].
  set (obs := if negb _ then _ else _).
  assert (exists o, obs = Ok o) as (o & ->).
  { unfold obs. destruct (negb _); [eauto|]. destruct (onMiss _); eauto. }
  cbn [mbind outcome_bind]. destruct o; [|simpl; eauto].
  set (x := block_align (base q) (Packet.addr trigger)).
  set (m := if queueSquash q then _ else _).
  assert (exists q1, m = Ok q1 /\ inv k g now q1 /\ config q1 = config q)
    as (q1 & -> & Hi1 & El1).
  { unfold m. destruct (queueSquash q) eqn:Eq; [|eauto].
    rewrite (squash_ok (base q)) by apply Hi. cbn [mbind outcome_bind].
    eexists. split; [done|]. split; [|done]. by apply squash_inv. }
  cbn [mbind outcome_bind]. pose proof Hi1 as [Hb1 Hg1 ? ? ? ? ? ? Hsq1].
  destruct (gen_total _ trigger _ Hg1 Htr) as (l & n & s' & -> & Hl & Hn & Hg').
  cbn [mbind outcome_bind].
  destruct (candidates_inv k g now cache trigger (Packet._isSecure trigger) l
    (q1 <| gen := s' |> <| pfSpanPage ::= Z.add n |>)) as (q2 & -> & Hi2 & El2); try done.
  - simpl. by rewrite (config_latency _ _ El1).
  - cbn [mbind outcome_bind]. eexists _, _. split; [done|]. split; [done|].
    rewrite El2. by rewrite <- El1.
Qed.

Lemma getPacket_inv k g now q : inv k g now q -> inv k g now (getPacket q).2.
Proof.
  intros Hi. unfold getPacket. destruct (pfq q) as [|dp rest] eqn:E; [done|].
  destruct Hi as [Hb Hg Hs Hl Hok Hnd Hso Ht Hsq]. unfold squashed in Hsq.
  rewrite E in *. simpl in Hl. rewrite fmap_cons in *.
  apply Forall_cons in Hok as [_ Hok]. apply Forall_cons in Ht as [_ Ht].
  apply StronglySorted_inv in Hso as [Hso _]. split; simpl; try done.
  - lia.
  - intros Hf. by apply Hnd, NoDup_cons in Hf as [_ ?].
  - simpl in Hsq. solve_squashed Hsq.
Qed.

Lemma run_inv k g lat now es q :
  inv k g now q -> latency q = lat -> 0 <= now + clockPeriod * lat -> timed lat now es ->
  exists q' now', run es q = Ok q' /\ inv k g now' q' /\ config q' = config q.
Proof.
  revert now q. induction es as [|[t cache p|] es IH]; intros now q Hi El Hn Ht; simpl in *.
  - eauto.
  - destruct Ht as (Hle & Hov & Hp & Ht).
    destruct (notify_inv k g now t cache p q) as (r & q1 & -> & Hi1 & El1); try done.
    { rewrite El. lia. }
    cbn [mbind outcome_bind snd]. rewrite <- El1.
    apply (IH t); [done| |lia|done]. by rewrite (config_latency _ _ El1).
  - assert (config (getPacket q).2 = config q) as Ec by (unfold getPacket; by destruct (pfq q)).
    rewrite <- Ec. apply (IH now); try done; [by apply getPacket_inv|].
    by rewrite (config_latency _ _ Ec).
Qed.

(** C26: for every concrete prefetcher that keeps its promise, every sequence of
    reported accesses (in time order) and requests for a prefetch runs without
    failing an assertion, and afterwards the queue holds at most [queueSize]
    packets, each a block-aligned hardware prefetch of one block; it is sorted
    by ready time; with the queue filter no line is queued twice; and every
    candidate identified is a hit in the queue, a hit in the cache, a removal
    for space, an issued prefetch, a queued one, or (only with [queueSquash])
    a squashed one.
    Block and page size are powers of two ([wf]), the queue has room for one
    packet, and no ready time overflows ([timed]). *)
Theorem prefetch_queue_invariant k g b s queue_size lat qsquash qfilter snoop tag es :
  wf b k g -> gen_inv b s -> 0 < queue_size -> 0 <= clockPeriod * lat -> timed lat 0 es ->
  exists q', run es (Queued_new b s queue_size lat qsquash qfilter snoop tag) = Ok q' /\
    Z.of_nat (length (pfq q')) <= queue_size /\
    Forall (dp_ok b) (pfq q') /\
    StronglySorted Z.le (tick <$> pfq q') /\
    (qfilter = true -> NoDup (line <$> pfq q')) /\
    0 <= squashed q' /\ (qsquash = false -> squashed q' = 0).
Proof.
  intros Hb Hg Hs Hlat Ht.
  destruct (run_inv k g lat 0 es (Queued_new b s queue_size lat qsquash qfilter snoop tag))
    as (q' & now' & E & Hi & Ec); try done; try lia.
  - split; simpl; try done; try lia; try by constructor.
  - exists q'. split; [done|]. injection Ec as E1 E2 E3 E4 E5 E6 E7.
    destruct Hi. by rewrite <- E1, <- E2, <- E4, <- E5.
Qed.

End runs.

End QueuedPrefetcher.
