(* ===== verification/TaggedPrefetcher.v ===== *)
(** The tagged prefetcher: mem/cache/prefetch/tagged.hh and tagged.cc. Its
    candidates are the next [degree] blocks of the page. *)

From S2P Require Import Prelude IntMath Request MemCmd Packet BasePrefetcher QueuedPrefetcher.
Import BasePrefetcher QueuedPrefetcher.
Local Open Scope Z_scope.

Module TaggedPrefetcher.

Record Tagged := MkTagged { degree : Z }.

(** [blkAddr + d*(blkSize)]: the product is [unsigned]. *)
Definition next_block (b : BasePrefetcher) (blkAddr d : Z) : Z :=
  u64 (blkAddr + u32 (d * blkSize b)).

#[global] Instance calculatePrefetch_tagged : Generator Tagged := fun b pkt s =>
  a ← Packet.getAddr pkt;
  let blkAddr := block_align b a in
  let '(addresses, span) := candidates b blkAddr (degree s) (next_block b blkAddr) in
  Ok (addresses, span, s).

#[global, refine] Instance tagged_ok : GeneratorOk Tagged :=
  {| gen_inv := fun _ s => 0 <= degree s |}.
Proof.
  intros b p s Hs Hp. destruct (trigger_reads _ Hp) as [Ea _].
  unfold calculatePrefetch, calculatePrefetch_tagged. rewrite Ea. cbn [mbind outcome_bind].
  pose proof (candidates_spec b (block_align b (Packet.addr p)) (degree s)
    (next_block b (block_align b (Packet.addr p))) Hs) as H.
  destruct (candidates _ _ _ _) as [l span]. destruct H as (m & _ & Hsp & -> & _).
  eexists _, _, _. split; [done|]. split; [|done]. apply Forall_fmap, Forall_true.
  intros i. unfold compose, next_block. apply uwrap_range. lia.
Defined.

(** The candidates of the tagged prefetcher are the blocks right after the
    accessed one, in order, all on its page; together with the page-crossing
    count they make up the degree, and the first one left out is on another
    page (or, at the top of the address space, wraps around). *)
Theorem tagged_candidates b k g pkt s :
  wf b k g -> trigger_ok pkt -> 0 <= degree s -> degree s * blkSize b < 2 ^ 32 ->
  let a := Packet.addr pkt - Packet.addr pkt mod 2 ^ k in
  exists m span, calculatePrefetch b pkt s =
      Ok ((fun i => u64 (a + (1 + Z.of_nat i) * 2 ^ k)) <$> seq 0 m, span, s) /\
    Z.of_nat m + span = degree s /\ 0 <= span /\
    (forall i, (i < m)%nat -> u64 (a + (1 + Z.of_nat i) * 2 ^ k) / 2 ^ g = a / 2 ^ g) /\
    (span <> 0 -> u64 (a + (1 + Z.of_nat m) * 2 ^ k) / 2 ^ g <> a / 2 ^ g).
Proof.
  intros Hwf Hp Hd Hov a. destruct (trigger_reads _ Hp) as [Ea _].
  pose proof (tr_range _ Hp) as Hr. pose proof (wf_blkSize _ _ _ Hwf) as Ek.
  assert (block_align b (Packet.addr pkt) = a) as Eal by (by apply (block_align_mod b k g)).
  assert (in_width 64 a) as Ha by (rewrite <- Eal; by apply (block_align_aligned b k g)).
  unfold calculatePrefetch, calculatePrefetch_tagged. rewrite Ea. cbn [mbind outcome_bind].
  rewrite Eal. pose proof (candidates_spec b a (degree s) (next_block b a) Hd) as H.
  destruct (candidates _ _ _ _) as [l span]. destruct H as (m & Hm & Hsp & -> & Hall & Hend).
  pose proof (pow2_pos k ltac:(apply Hwf)).
  assert (forall i, (i < Z.to_nat (degree s))%nat ->
    next_block b a (1 + Z.of_nat i) = u64 (a + (1 + Z.of_nat i) * 2 ^ k)) as En.
  { intros i Hi. unfold next_block. rewrite Ek in *. rewrite (uwrap_small 32) by (split; nia). done. }
  exists m, span. split_and!; try done.
  - do 3 f_equal. apply list_fmap_ext. intros i x [-> Hx]%lookup_seq. simpl. apply En. lia.
  - intros i Hi. rewrite <- En by lia. symmetry.
    apply (samePage_div b k g); [done|done|apply uwrap_range; lia|].
    rewrite Forall_fmap, Forall_forall in Hall. apply Hall, elem_of_seq. lia.
  - intros Hne E. specialize (Hend Hne). rewrite <- En in E by lia.
    symmetry in E. apply (samePage_div b k g) in E; [congruence|done|done|apply uwrap_range; lia].
Qed.

(** 64-byte blocks, 4-KByte pages: two of the four next blocks of 0xf78 are on
    its page. *)
Definition example_base : BasePrefetcher := MkBase 64 false true true true true 0 4096.
Definition example_access (a : Z) : Packet.Packet :=
  Packet.MkPacket Packet.VALID_ADDR MemCmd.ReadReq Request.Request0 None a false 4
    MemCmd.InvalidCmd [] 0 0 [].

Lemma example_access_ok a : in_width 64 a -> trigger_ok (example_access a).
Proof. intros Ha. split; [reflexivity|exact Ha|discriminate|simpl; lia]. Qed.

Lemma example_base_wf : wf example_base 6 12.
Proof. split; simpl; lia. Qed.

Lemma tagged_candidates_witness :
  exists m span, Z.of_nat m + span = 4 /\ m = 2%nat /\
    calculatePrefetch example_base (example_access 0xf58) (MkTagged 4) =
      Ok ((fun i => u64 (0xf40 + (1 + Z.of_nat i) * 64)) <$> seq 0 m, span, MkTagged 4).
Proof.
  destruct (tagged_candidates example_base 6 12 (example_access 0xf58) (MkTagged 4))
    as (m & span & E & Hm & _ & _).
  - exact example_base_wf.
  - apply example_access_ok. split; lia.
  - simpl. lia.
  - simpl. lia.
  - exists m, span. split; [exact Hm|]. split; [|exact E].
    assert (calculatePrefetch example_base (example_access 0xf58) (MkTagged 4) =
      Ok ([0xf80; 0xfc0], 2, MkTagged 4)) as E2 by (vm_compute; reflexivity).
    rewrite E in E2. injection E2 as El _. apply (f_equal length) in El.
    rewrite length_fmap, length_seq in El. exact El.
Defined.

End TaggedPrefetcher.
