(* ===== verification/StridePrefetcher.v ===== *)
(** The stride prefetcher: mem/cache/prefetch/stride.hh and stride.cc.

    Per context, a set-associative table indexed by a hash of the program
    counter holds the last address, the stride and a confidence of each load.
    The table of a context is created when it is first looked up. The ways that
    [random_mt.random<int>(0, pcTableAssoc - 1)] returns are a sequence [ways];
    [drawn] counts the draws made. *)

From stdpp Require Import gmap.
From S2P Require Import Prelude IntMath Request MemCmd Packet BasePrefetcher QueuedPrefetcher.
Import BasePrefetcher QueuedPrefetcher.
Local Open Scope Z_scope.

Module StridePrefetcher.

Record StrideEntry := MkEntry {
  instAddr : Z;
  lastAddr : Z;
  isSecure : bool;
  stride : Z;
  confidence : Z;
}.
#[global] Instance eta_StrideEntry : Eta StrideEntry := fun e =>
  MkEntry (instAddr e) (lastAddr e) (isSecure e) (stride e) (confidence e).

(** The constructor of [StrideEntry]. *)
Definition StrideEntry0 : StrideEntry := MkEntry 0 0 false 0 0.

Record Stride := MkStride {
  maxConf : Z;
  threshConf : Z;
  minConf : Z;
  startConf : Z;
  pcTableAssoc : Z;
  pcTableSets : Z;
  useMasterId : bool;
  degree : Z;
  entries : gmap Z (list (list StrideEntry));
  ways : nat -> Z;
  drawn : nat;
}.
#[global] Instance eta_Stride : Eta Stride := fun s =>
  MkStride (maxConf s) (threshConf s) (minConf s) (startConf s) (pcTableAssoc s)
    (pcTableSets s) (useMasterId s) (degree s) (entries s) (ways s) (drawn s).

(** The constructor; the caller's [onInst] becomes [false]. *)
Definition Stride_new (max thresh min start assoc sets : Z) (use_master_id : bool) (degree : Z)
  (ways : nat -> Z) : outcome Stride :=
  _ ← ensure AssertFailed (IntMath.isPowerOf2 32 sets);
  Ok (MkStride max thresh min start assoc sets use_master_id degree ∅ ways 0).

Definition ignore_inst (b : BasePrefetcher) : BasePrefetcher := b <| onInst := false |>.

(** [allocateNewContext]: the new table of a context, and the map with it. *)
Definition allocateNewContext (context : Z) (s : Stride)
  : outcome (list (list StrideEntry) * Stride) :=
  let t := replicate (Z.to_nat (pcTableSets s))
             (replicate (Z.to_nat (pcTableAssoc s)) StrideEntry0) in
  _ ← ensure AssertFailed (match entries s !! context with None => true | Some _ => false end);
  Ok (t, s <| entries ::= <[context := t]> |>).

(** [pcTable[context]]. *)
Definition pcTable (context : Z) (s : Stride) : outcome (list (list StrideEntry) * Stride) :=
  match entries s !! context with
  | Some t => Ok (t, s)
  | None => allocateNewContext context s
  end.

Definition pcHash (s : Stride) (pc : Z) : outcome Z :=
  let hash1 := Z.shiftr pc 1 in
  k ← IntMath.floorLog2 (pcTableSets s);
  let hash2 := Z.shiftr hash1 k in
  Ok (Z.land (Z.lxor hash1 hash2) (pcTableSets s - 1)).

(** The loop of [pcTableHit] over the ways of a set. *)
Fixpoint find_way (n : nat) (way : Z) (pc : Z) (is_secure : bool) (set : list StrideEntry)
  : outcome (option Z) :=
  match n with
  | O => Ok None
  | S n =>
      e ← vget set way;
      if (instAddr e =? pc) && eqb (isSecure e) is_secure then Ok (Some way)
      else find_way n (way + 1) pc is_secure set
  end.

(** [pcTableHit]: the way found, if any; the table of the context is created on
    the way. *)
Definition pcTableHit (pc : Z) (is_secure : bool) (master_id : Z) (s : Stride)
  : outcome (option Z * Stride) :=
  h ← pcHash s pc;
  let set := s32 h in
  '(t, s) ← pcTable master_id s;
  set_entries ← vget t set;
  r ← find_way (Z.to_nat (pcTableAssoc s)) 0 pc is_secure set_entries;
  Ok (r, s).

(** [pcTableVictim]: the way drawn. *)
Definition pcTableVictim (s : Stride) : Z * Stride :=
  (ways s (drawn s), s <| drawn ::= S |>).

(** [f] applied to [pcTable[master_id][set][way]]. *)
Definition upd_entry (pc master_id way : Z) (f : StrideEntry -> StrideEntry) (s : Stride)
  : outcome Stride :=
  h ← pcHash s pc;
  '(t, s) ← pcTable master_id s;
  set_entries ← vget t (s32 h);
  e ← vget set_entries way;
  set_entries ← vset set_entries way (f e);
  t ← vset t (s32 h) set_entries;
  Ok (s <| entries ::= <[master_id := t]> |>).

Definition get_entry (pc master_id way : Z) (s : Stride) : outcome StrideEntry :=
  h ← pcHash s pc;
  '(t, s) ← pcTable master_id s;
  set_entries ← vget t (s32 h);
  vget set_entries way.

(** The entry after a hit: confidence, stride and last address. *)
Definition train (s : Stride) (pkt_addr : Z) (e : StrideEntry) : StrideEntry :=
  let new_stride := s32 (pkt_addr - lastAddr e) in
  let stride_match := new_stride =? stride e in
  let e :=
    if stride_match && negb (new_stride =? 0) then
      if confidence e <? maxConf s then e <| confidence ::= Z.succ |> else e
    else
      let e := if confidence e >? minConf s then e <| confidence ::= Z.pred |> else e in
      if confidence e <? threshConf s then e <| stride := new_stride |> else e in
  e <| lastAddr := pkt_addr |>.

(** [prefetch_stride]: the stride rounded up to at least one block. [blkSize] is
    [unsigned], so are the comparison and the conditional expression. *)
Definition prefetch_stride (b : BasePrefetcher) (new_stride : Z) : Z :=
  if u32 (Z.abs new_stride) <? blkSize b then
    s32 (if new_stride <? 0 then u32 (- blkSize b) else blkSize b)
  else new_stride.

(** [pkt_addr + d * prefetch_stride]: an [int] product, sign-extended. *)
Definition next_addr (b : BasePrefetcher) (pkt_addr new_stride d : Z) : Z :=
  u64 (pkt_addr + s32 (d * prefetch_stride b new_stride)).

(** The entry a miss sets up. *)
Definition new_entry (s : Stride) (pc pkt_addr : Z) (is_secure : bool) : StrideEntry :=
  MkEntry pc pkt_addr is_secure 0 (startConf s).

#[global] Instance calculatePrefetch_stride : Generator Stride := fun b pkt s =>
  if negb (Request.hasPC (Packet.req pkt)) then Ok ([], 0, s)
  else
    pkt_addr ← Packet.getAddr pkt;
    pc ← Request.getPC (Packet.req pkt);
    is_secure ← Packet.isSecure pkt;
    let master_id := if useMasterId s then Request.masterId (Packet.req pkt) else 0 in
    '(hit, s) ← pcTableHit pc is_secure master_id s;
    match hit with
    | Some way =>
        e ← get_entry pc master_id way s;
        let new_stride := s32 (pkt_addr - lastAddr e) in
        let e' := train s pkt_addr e in
        s ← upd_entry pc master_id way (fun _ => e') s;
        if confidence e' <? threshConf s then Ok ([], 0, s)
        else
          let '(addresses, span) :=
            candidates b pkt_addr (degree s) (next_addr b pkt_addr new_stride) in
          Ok (addresses, span, s)
    | None =>
        let '(way, s) := pcTableVictim s in
        s ← upd_entry pc master_id way (fun _ => new_entry s pc pkt_addr is_secure) s;
        Ok ([], 0, s)
    end.

(** ** Invariant *)

Definition entry_ok (s : Stride) (e : StrideEntry) : Prop :=
  minConf s <= confidence e <= maxConf s.

Definition table_ok (s : Stride) (t : list (list StrideEntry)) : Prop :=
  Z.of_nat (length t) = pcTableSets s /\
  Forall (fun set => Z.of_nat (length set) = pcTableAssoc s /\ Forall (entry_ok s) set) t.

Record wf (s : Stride) : Prop := {
  wf_sets : exists n, 0 <= n < 31 /\ pcTableSets s = 2 ^ n;
  wf_assoc : 0 < pcTableAssoc s;
  wf_conf : minConf s <= 0 <= maxConf s;
  wf_start : minConf s <= startConf s <= maxConf s;
  wf_degree : 0 <= degree s;
  wf_ways n : 0 <= ways s n < pcTableAssoc s;
  wf_tables c t : entries s !! c = Some t -> table_ok s t;
}.

(** The table of a context, as it is or as it would be created. *)
Definition tbl (c : Z) (s : Stride) : list (list StrideEntry) :=
  default (replicate (Z.to_nat (pcTableSets s))
             (replicate (Z.to_nat (pcTableAssoc s)) StrideEntry0)) (entries s !! c).

Lemma pcTable_ok c s : pcTable c s = Ok (tbl c s, s <| entries ::= <[c := tbl c s]> |>).
Proof.
  unfold pcTable, tbl. destruct (entries s !! c) as [t|] eqn:E; simpl.
  - rewrite insert_id by done. by destruct s.
  - unfold allocateNewContext. by rewrite E.
Qed.

Lemma tbl_table_ok c s : wf s -> table_ok s (tbl c s).
Proof.
  intros Hwf. unfold tbl. destruct (entries s !! c) as [t|] eqn:E; simpl.
  - by eapply wf_tables.
  - destruct (wf_sets _ Hwf) as (n & Hn & En). pose proof (pow2_pos n ltac:(lia)).
    pose proof (wf_assoc _ Hwf). split; [rewrite length_replicate; lia|].
    apply Forall_replicate. split; [rewrite length_replicate; lia|].
    apply Forall_replicate. apply Hwf.
Qed.

Lemma tbl_insert c t s : tbl c (s <| entries ::= <[c := t]> |>) = t.
Proof. unfold tbl. simpl. by rewrite lookup_insert_eq. Qed.

Lemma wf_insert c t s :
  wf s -> table_ok s t -> wf (s <| entries ::= <[c := t]> |>).
Proof.
  intros [] Ht. split; try done. intros c' t'. simpl. destruct (decide (c = c')) as [->|Hne].
  - rewrite lookup_insert_eq. by intros [= <-].
  - rewrite lookup_insert_ne by done. eauto.
Qed.

Definition set_index (s : Stride) (pc : Z) : Z :=
  Z.lxor (Z.shiftr pc 1) (Z.shiftr (Z.shiftr pc 1) (Z.log2 (pcTableSets s))) mod pcTableSets s.

(** The hash is a set index. *)
Lemma pcHash_ok s pc :
  wf s -> 0 <= pc ->
  pcHash s pc = Ok (set_index s pc) /\ 0 <= set_index s pc < pcTableSets s /\
  s32 (set_index s pc) = set_index s pc.
Proof.
  intros Hwf Hpc. destruct (wf_sets _ Hwf) as (n & Hn & En).
  pose proof (pow2_pos n ltac:(lia)). pose proof (Z.pow_lt_mono_r 2 n 31 ltac:(lia) ltac:(lia)).
  assert (0 <= set_index s pc < pcTableSets s) as Hr by (apply Z.mod_pos_bound; lia).
  split; [|split; [done|apply s32_small; lia]]. unfold pcHash.
  rewrite IntMath.floorLog2_ok by lia. cbn [mbind outcome_bind]. f_equal.
  unfold set_index. rewrite En. by rewrite land_mask by lia.
Qed.

Lemma find_way_ok n i pc sec (set : list StrideEntry) :
  0 <= i -> Z.of_nat n + i <= Z.of_nat (length set) ->
  exists r, find_way n i pc sec set = Ok r /\
    match r with
    | Some w => i <= w < i + Z.of_nat n /\ exists e, set !! Z.to_nat w = Some e /\
                  instAddr e = pc /\ isSecure e = sec
    | None => forall w e, i <= w < i + Z.of_nat n -> set !! Z.to_nat w = Some e ->
                ~ (instAddr e = pc /\ isSecure e = sec)
    end.
Proof.
  revert i. induction n as [|n IH]; intros i Hi Hl; cbn [find_way].
  { exists None. split; [done|]. lia. }
  destruct (vget_lt set i) as [e He]; [lia|]. rewrite He. cbn [mbind outcome_bind].
  apply vget_ok in He as [_ He].
  destruct ((instAddr e =? pc) && eqb (isSecure e) sec) eqn:E.
  - apply andb_true_iff in E as [E1%Z.eqb_eq E2%eqb_prop]. exists (Some i).
    split; [done|]. split; [lia|]. eauto.
  - destruct (IH (i + 1)) as (r & -> & Hr); [lia|lia|]. exists r. split; [done|].
    destruct r as [w|]; [destruct Hr; split; [lia|done]|].
    intros w e' Hw He' [H1 H2]. destruct (decide (w = i)) as [->|Hne].
    + simplify_eq. by rewrite Z.eqb_refl, eqb_reflx in E.
    + apply (Hr w e'); [lia|done|done].
Qed.

(** What [pcTableHit] finds in the set of the program counter. *)
Lemma pcTableHit_ok pc sec c s :
  wf s -> 0 <= pc ->
  exists set r, tbl c s !! Z.to_nat (set_index s pc) = Some set /\
    Z.of_nat (length set) = pcTableAssoc s /\ Forall (entry_ok s) set /\
    pcTableHit pc sec c s = Ok (r, s <| entries ::= <[c := tbl c s]> |>) /\
    match r with
    | Some w => 0 <= w < pcTableAssoc s /\ exists e, set !! Z.to_nat w = Some e /\
                  instAddr e = pc /\ isSecure e = sec
    | None => forall e, e ∈ set -> ~ (instAddr e = pc /\ isSecure e = sec)
    end.
Proof.
  intros Hwf Hpc. destruct (pcHash_ok s pc Hwf Hpc) as (Eh & Hr & E32).
  destruct (tbl_table_ok c s Hwf) as [Hlen Hall]. pose proof (wf_assoc _ Hwf).
  destruct (vget_lt (tbl c s) (set_index s pc)) as [set Hset]; [lia|].
  pose proof Hset as [_ Hset']%vget_ok.
  destruct (Forall_lookup_1 _ _ _ _ Hall Hset') as [Hsl Hse].
  destruct (find_way_ok (Z.to_nat (pcTableAssoc s)) 0 pc sec set) as (r & Er & Hres); [lia|lia|].
  exists set, r. split_and!; try done.
  - unfold pcTableHit. rewrite Eh. cbn [mbind outcome_bind]. rewrite pcTable_ok.
    cbn [mbind outcome_bind]. rewrite E32, Hset. cbn [mbind outcome_bind].
    change (pcTableAssoc (s <| entries ::= <[c := tbl c s]> |>)) with (pcTableAssoc s).
    by rewrite Er.
  - destruct r as [w|]; [destruct Hres; split; [lia|done]|].
    intros e [i Hi]%list_elem_of_lookup. apply lookup_lt_Some in Hi as Hlt.
    apply (Hres (Z.of_nat i)); [lia|]. by rewrite Nat2Z.id.
Qed.

(** The state with entry [e] at way [w] of the set of [pc] in context [c]. *)
Definition put (c pc w : Z) (e : StrideEntry) (s : Stride) : Stride :=
  s <| entries ::= <[c := alter <[Z.to_nat w := e]> (Z.to_nat (set_index s pc)) (tbl c s)]> |>.

Lemma upd_entry_ok pc c w f s set e :
  wf s -> 0 <= pc -> 0 <= w ->
  tbl c s !! Z.to_nat (set_index s pc) = Some set -> set !! Z.to_nat w = Some e ->
  get_entry pc c w s = Ok e /\ upd_entry pc c w f s = Ok (put c pc w (f e) s).
Proof.
  intros Hwf Hpc Hw Hset He. destruct (pcHash_ok s pc Hwf Hpc) as (Eh & Hr & E32).
  assert (vget (tbl c s) (set_index s pc) = Ok set) as Hv by (apply vget_ok; split; [lia|done]).
  assert (vget set w = Ok e) as Hve by (by apply vget_ok).
  unfold get_entry, upd_entry. rewrite Eh. cbn [mbind outcome_bind]. rewrite pcTable_ok.
  cbn [mbind outcome_bind]. rewrite E32, Hv. cbn [mbind outcome_bind]. rewrite Hve.
  cbn [mbind outcome_bind]. split; [done|].
  apply lookup_lt_Some in He as Hl1. apply lookup_lt_Some in Hset as Hl2.
  rewrite vset_lt by lia. cbn [mbind outcome_bind]. rewrite vset_lt by lia.
  cbn [mbind outcome_bind]. f_equal. unfold put. simpl. f_equal.
  rewrite insert_insert_eq. f_equal. apply list_eq. intros j. rewrite list_lookup_alter.
  case_decide as Ej; subst.
  - rewrite Hset. simpl. by rewrite list_lookup_insert_eq by lia.
  - by rewrite list_lookup_insert_ne by done.
Qed.

Lemma put_wf c pc w e s : wf s -> entry_ok s e -> wf (put c pc w e s).
Proof.
  intros Hwf He. apply wf_insert; [done|]. destruct (tbl_table_ok c s Hwf) as [Hl Hall].
  split; [by rewrite length_alter|]. apply Forall_lookup. intros i set Hi.
  rewrite list_lookup_alter in Hi. case_decide as Ei; [|exact (Forall_lookup_1 _ _ _ _ Hall Hi)].
  subst. destruct (tbl c s !! Z.to_nat (set_index s pc)) as [set'|] eqn:E; [|done].
  injection Hi as <-. destruct (Forall_lookup_1 _ _ _ _ Hall E) as [? ?].
  rewrite length_insert. split; [done|]. by apply Forall_insert_upd.
Qed.

(** Training keeps the confidence within its bounds. *)
Lemma train_ok s a e : minConf s <= maxConf s -> entry_ok s e -> entry_ok s (train s a e).
Proof.
  intros Hm [H1 H2]. unfold train, entry_ok.
  destruct (_ && _).
  - destruct (Z.ltb_spec (confidence e) (maxConf s)); simpl; lia.
  - destruct (Z.gtb_spec (confidence e) (minConf s)); simpl;
      match goal with |- context [if ?b then _ else _] => destruct b end; simpl; lia.
Qed.

(** The context whose table an access uses. *)
Definition context_of (s : Stride) (pkt : Packet.Packet) : Z :=
  if useMasterId s then Request.masterId (Packet.req pkt) else 0.

Lemma tbl_put_tbl c s : tbl c (s <| entries ::= <[c := tbl c s]> |>) = tbl c s.
Proof. apply tbl_insert. Qed.

Lemma put_put_tbl c pc w e s :
  put c pc w e (s <| entries ::= <[c := tbl c s]> |>) = put c pc w e s.
Proof.
  unfold put. rewrite tbl_put_tbl. change (set_index (s <| entries ::= <[c:=tbl c s]> |>) pc)
    with (set_index s pc). simpl. f_equal. apply insert_insert_eq.
Qed.

(** What an access with a program counter does, on a hit and on a miss. *)
Lemma calculate_ok b pkt s :
  wf s -> trigger_ok pkt -> Request.hasPC (Packet.req pkt) = true ->
  let pc := Request._pc (Packet.req pkt) in
  let a := Packet.addr pkt in
  let c := context_of s pkt in
  exists set, tbl c s !! Z.to_nat (set_index s pc) = Some set /\
    ((exists w e, 0 <= w /\ set !! Z.to_nat w = Some e /\ entry_ok s e /\
        instAddr e = pc /\ isSecure e = Packet._isSecure pkt /\
        let s' := put c pc w (train s a e) s in
        calculatePrefetch b pkt s =
          if confidence (train s a e) <? threshConf s then Ok ([], 0, s')
          else Ok (candidates b a (degree s) (next_addr b a (s32 (a - lastAddr e))), s')) \/
     ((forall e, e ∈ set -> ~ (instAddr e = pc /\ isSecure e = Packet._isSecure pkt)) /\
      let w := ways s (drawn s) in
      calculatePrefetch b pkt s =
        Ok ([], 0, put c pc w (new_entry s pc a (Packet._isSecure pkt)) (s <| drawn ::= S |>)))).
Proof.
  intros Hwf Htr Hpc pc a c. destruct (trigger_reads _ Htr) as [Ea Es].
  pose proof (tr_pc _ Htr) as Hpc0.
  assert (Request.getPC (Packet.req pkt) = Ok pc) as Epc.
  { unfold Request.getPC. unfold Request.hasPC in Hpc. by rewrite Hpc. }
  destruct (pcTableHit_ok pc (Packet._isSecure pkt) c s Hwf Hpc0)
    as (set & r & Hset & Hlen & Hall & Ehit & Hres).
  exists set. split; [done|]. unfold calculatePrefetch, calculatePrefetch_stride.
  rewrite Hpc, Ea, Epc, Es. cbn [negb mbind outcome_bind]. cbv zeta.
  change (if useMasterId s then Request.masterId (Packet.req pkt) else 0) with c.
  rewrite Ehit. cbn [mbind outcome_bind].
  set (s1 := s <| entries ::= <[c := tbl c s]> |>).
  assert (wf s1) as Hwf1 by (apply wf_insert; [done|by apply tbl_table_ok]).
  destruct r as [w|].
  - left. destruct Hres as (Hw & e & He & Hi & Hsec). exists w, e.
    split; [lia|]. split; [done|]. split; [by eapply Forall_lookup_1|]. split; [done|]. split; [done|].
    destruct (upd_entry_ok pc c w (fun _ => train s1 a e) s1 set e) as [Eg Eu];
      [done|done|lia|by unfold s1; rewrite tbl_put_tbl|done|].
    assert (put c pc w (train s1 a e) s1 = put c pc w (train s a e) s) as Ep
      by apply put_put_tbl.
    rewrite Ep in Eu. rewrite Eg. cbn [mbind outcome_bind]. fold a. rewrite Eu.
    cbn [mbind outcome_bind]. change (train s1 a e) with (train s a e).
    change (threshConf (put c pc w (train s a e) s)) with (threshConf s).
    change (degree (put c pc w (train s a e) s)) with (degree s).
    destruct (confidence (train s a e) <? threshConf s); [done|].
    by destruct (candidates _ _ _ _).
  - right. split; [done|]. cbv zeta.
    pose proof (wf_ways _ Hwf (drawn s)) as Hway.
    destruct (lookup_lt_is_Some_2 set (Z.to_nat (ways s (drawn s)))) as [e0 He0]; [lia|].
    set (s2 := s1 <| drawn ::= S |>).
    destruct (upd_entry_ok pc c (ways s (drawn s))
      (fun _ => new_entry s2 pc a (Packet._isSecure pkt)) s2 set e0) as [_ Eu];
      [by destruct Hwf1; split|done|lia|by change (tbl c s1 !! Z.to_nat (set_index s pc) = Some set);
        unfold s1; rewrite tbl_put_tbl|done|].
    change (pcTableVictim s1) with (ways s (drawn s), s2). cbv iota beta. fold a.
    rewrite Eu. cbn [mbind outcome_bind].
    assert (put c pc (ways s (drawn s)) (new_entry s2 pc a (Packet._isSecure pkt)) s2 =
      put c pc (ways s (drawn s)) (new_entry s pc a (Packet._isSecure pkt)) (s <| drawn ::= S |>))
      as -> by exact (put_put_tbl c pc _ _ (s <| drawn ::= S |>)). done.
Qed.

(** The stride used for prefetching is at least a block, up or down. *)
Lemma prefetch_stride_block b n :
  0 <= blkSize b < 2 ^ 31 -> - 2 ^ 31 <= n < 2 ^ 31 -> blkSize b <= Z.abs (prefetch_stride b n).
Proof.
  intros Hb Hn. unfold prefetch_stride. rewrite uwrap_small by (split; lia).
  destruct (Z.ltb_spec (Z.abs n) (blkSize b)); [|lia].
  destruct (Z.ltb_spec n 0); [|rewrite s32_small; lia].
  unfold s32, uwrap.
  rewrite <- (Z.mod_add (- blkSize b) 1 (2 ^ 32)) by lia.
  rewrite (Z.mod_small (- blkSize b + _)) by lia.
  rewrite <- (Z.mod_add _ (-1) (2 ^ 32)) by lia. rewrite Z.mod_small; lia.
Qed.

Lemma next_addr_range b a n d : in_width 64 (next_addr b a n d).
Proof. apply uwrap_range. lia. Qed.

(** One access keeps the invariant and yields addresses. *)
Lemma calculate_wf b pkt s :
  wf s -> trigger_ok pkt ->
  exists l n s', calculatePrefetch b pkt s = Ok (l, n, s') /\
    Forall (in_width 64) l /\ 0 <= n /\ wf s' /\
    maxConf s' = maxConf s /\ minConf s' = minConf s.
Proof.
  intros Hwf Htr. destruct (Request.hasPC (Packet.req pkt)) eqn:E.
  2:{ exists [], 0, s. unfold calculatePrefetch, calculatePrefetch_stride. rewrite E. done. }
  destruct (calculate_ok b pkt s Hwf Htr E) as (set & _ & [Hhit | [_ ->]]).
  - destruct Hhit as (w & e & Hw & He & Hok & _ & _ & ->).
    assert (wf (put (context_of s pkt) (Request._pc (Packet.req pkt)) w
      (train s (Packet.addr pkt) e) s)) as Hwf'.
    { apply put_wf; [done|]. apply train_ok; [|done]. pose proof (wf_conf _ Hwf). lia. }
    destruct (_ <? _); [eexists [], 0, _; split; [done|]; done|].
    pose proof (candidates_spec b (Packet.addr pkt) (degree s)
      (next_addr b (Packet.addr pkt) (s32 (Packet.addr pkt - lastAddr e))) (wf_degree _ Hwf)) as Hc.
    destruct (candidates _ _ _ _) as [l span]. destruct Hc as (m & _ & Hsp & -> & _).
    eexists _, _, _. split; [done|]. split_and!; try done.
    apply Forall_fmap, Forall_true. intros i. apply next_addr_range.
  - eexists [], 0, _. split; [done|]. split_and!; try done.
    apply (put_wf _ _ _ _ (s <| drawn ::= S |>)); [by destruct Hwf; split|]. apply Hwf.
Qed.

#[global, refine] Instance stride_ok : GeneratorOk Stride := {| gen_inv := fun _ s => wf s |}.
Proof.
  intros b p s Hwf Htr. destruct (calculate_wf b p s Hwf Htr) as (l & n & s' & E & ? & ? & ? & _).
  eauto 10.
Defined.

(** A sequence of accesses. *)
Fixpoint run (b : BasePrefetcher) (pkts : list Packet.Packet) (s : Stride)
  : outcome (list (list Z) * Stride) :=
  match pkts with
  | [] => Ok ([], s)
  | pkt :: pkts =>
      '(l, _, s) ← calculatePrefetch b pkt s;
      '(ls, s) ← run b pkts s;
      Ok (l :: ls, s)
  end.

Lemma run_wf b pkts s :
  wf s -> Forall trigger_ok pkts ->
  exists ls s', run b pkts s = Ok (ls, s') /\ wf s' /\
    maxConf s' = maxConf s /\ minConf s' = minConf s.
Proof.
  intros Hwf Ht. revert s Hwf. induction Ht as [|pkt pkts Htr Ht IH]; intros s Hwf; simpl.
  { by exists [], s. }
  destruct (calculate_wf b pkt s Hwf Htr) as (l & n & s1 & -> & _ & _ & Hwf1 & E1 & E2).
  cbn [mbind outcome_bind].
  destruct (IH s1 Hwf1) as (ls & s2 & -> & Hwf2 & E3 & E4). cbn [mbind outcome_bind].
  eexists _, _. split; [done|]. split; [done|]. by rewrite E3, E4.
Qed.

Lemma stride_new_wf max thresh min start assoc sets um deg ws s :
  Stride_new max thresh min start assoc sets um deg ws = Ok s ->
  0 < sets < 2 ^ 31 -> 0 < assoc -> min <= 0 <= max -> min <= start <= max -> 0 <= deg ->
  (forall n, 0 <= ws n < assoc) -> wf s.
Proof.
  unfold Stride_new. intros E Hs. inv_ok. intros. split; simpl; try done.
  match goal with H : IntMath.isPowerOf2 _ _ = true |- _ =>
    apply IntMath.isPowerOf2_true in H; [destruct H as (k & Hk & ->)|lia|split; lia] end.
  exists k. split; [|done]. split; [lia|]. destruct (Z.lt_ge_cases k 31); [done|].
  pose proof (Z.pow_le_mono_r 2 31 k). lia.
Qed.

(** From its constructor, on every sequence of accesses the stride
    prefetcher fails no assertion and leaves no index out of range, and every
    entry of every context's table keeps its confidence between [minConf] and
    [maxConf]; the tables keep [pcTableSets] sets of [pcTableAssoc] ways. *)
Theorem stride_table_invariant max thresh min start assoc sets um deg ws s b pkts :
  Stride_new max thresh min start assoc sets um deg ws = Ok s ->
  0 < sets < 2 ^ 31 -> 0 < assoc -> min <= 0 <= max -> min <= start <= max -> 0 <= deg ->
  (forall n, 0 <= ws n < assoc) ->
  Forall trigger_ok pkts ->
  exists ls s', run b pkts s = Ok (ls, s') /\
    forall c t, entries s' !! c = Some t ->
      Z.of_nat (length t) = pcTableSets s' /\
      forall set, set ∈ t -> Z.of_nat (length set) = pcTableAssoc s' /\
        forall e, e ∈ set -> min <= confidence e <= max.
Proof.
  intros E Hs Ha Hc Hst Hd Hw Ht.
  pose proof (stride_new_wf _ _ _ _ _ _ _ _ _ _ E Hs Ha Hc Hst Hd Hw) as Hwf.
  destruct (run_wf b pkts s Hwf Ht) as (ls & s' & Er & Hwf' & E1 & E2).
  exists ls, s'. split; [done|]. intros c t Hct.
  destruct (wf_tables _ Hwf' _ _ Hct) as [Hl Hall]. split; [done|].
  intros set Hset. rewrite Forall_forall in Hall. destruct (Hall set Hset) as [Hl' Hes].
  split; [done|]. intros e He. rewrite Forall_forall in Hes.
  destruct (Hes e He). unfold Stride_new in E. inv_ok. simpl in *. lia.
Qed.

(** Whatever the stride prefetcher generates for an access comes from an
    entry of the access's program counter and security state whose confidence
    is at least the threshold after the access: the candidates are the
    addresses one to [m] strides away, all on the page of the access, the
    rounded stride is at least a block, and [m] plus the page-crossing count is
    the degree. *)
Theorem stride_candidates b k g pkt s l span s' :
  BasePrefetcher.wf b k g -> k < 31 -> wf s -> trigger_ok pkt ->
  calculatePrefetch b pkt s = Ok (l, span, s') -> (l, span) <> ([], 0) ->
  let a := Packet.addr pkt in
  exists e m, instAddr e = Request._pc (Packet.req pkt) /\
    isSecure e = Packet._isSecure pkt /\
    threshConf s <= confidence (train s a e) /\
    let st := prefetch_stride b (s32 (a - lastAddr e)) in
    blkSize b <= Z.abs st /\
    l = (fun i => u64 (a + s32 ((1 + Z.of_nat i) * st))) <$> seq 0 m /\
    Z.of_nat m + span = degree s /\
    forall x, x ∈ l -> x / 2 ^ g = a / 2 ^ g.
Proof.
  intros Hb Hk Hwf Htr E Hne a. destruct (Request.hasPC (Packet.req pkt)) eqn:Epc.
  2:{ unfold calculatePrefetch, calculatePrefetch_stride in E. rewrite Epc in E. simpl in E. inv_ok.
      done. }
  destruct (calculate_ok b pkt s Hwf Htr Epc) as (set & _ & [Hhit | [_ Em]]).
  2:{ rewrite Em in E. injection E as <- <- _. done. }
  destruct Hhit as (w & e & Hw & He & Hok & Hi & Hsec & Ec). rewrite Ec in E. clear Ec.
  fold a in E. destruct (Z.ltb_spec (confidence (train s a e)) (threshConf s)) as [|Hth].
  { injection E as <- <- _. done. }
  pose proof (candidates_spec b a (degree s) (next_addr b a (s32 (a - lastAddr e)))
    (wf_degree _ Hwf)) as Hc.
  destruct (candidates _ _ _ _) as [l' span']. injection E as <- <- _.
  destruct Hc as (m & Hm & _ & -> & Hall & _).
  exists e, m. cbv zeta. split_and!; try done.
  - apply prefetch_stride_block; [|apply s32_range]. destruct Hb.
    pose proof (Z.pow_le_mono_r 2 k 30). pose proof (pow2_pos k). lia.
  - intros x Hx. rewrite Forall_forall in Hall. specialize (Hall x Hx).
    symmetry. apply (samePage_div b k g); try done; [apply Htr|].
    apply list_elem_of_fmap in Hx as (i & -> & _). apply next_addr_range.
Qed.

(** ** Training *)

Lemma train_mismatch s a st e :
  - 2 ^ 31 <= st < 2 ^ 31 -> lastAddr e = a -> stride e <> st ->
  train s (a + st) e =
    let c := if confidence e >? minConf s then confidence e - 1 else confidence e in
    MkEntry (instAddr e) (a + st) (isSecure e) (if c <? threshConf s then st else stride e) c.
Proof.
  intros Hst Ha Hne. unfold train. rewrite Ha.
  replace (a + st - a) with st by lia. rewrite s32_small by done.
  destruct (Z.eqb_spec st (stride e)); [congruence|]. simpl.
  destruct e as [i l sec str c]; simpl in *. rewrite <- Z.sub_1_r.
  destruct (c >? minConf s); simpl; by destruct (_ <? threshConf s).
Qed.

Lemma train_match s a st e :
  - 2 ^ 31 <= st < 2 ^ 31 -> st <> 0 -> lastAddr e = a -> stride e = st ->
  train s (a + st) e =
    MkEntry (instAddr e) (a + st) (isSecure e) st
      (if confidence e <? maxConf s then confidence e + 1 else confidence e).
Proof.
  intros Hst H0 Ha Es. unfold train. rewrite Ha, Es.
  replace (a + st - a) with st by lia. rewrite s32_small, Z.eqb_refl by done.
  destruct (Z.eqb_spec st 0); [done|]. simpl. unfold Z.succ.
  destruct e as [i l sec str c]; simpl in *. subst.
  destruct (Z.ltb_spec c (maxConf s)); simpl; f_equal; lia.
Qed.

(** The accesses of a walk: the first is at [a], each one [st] further. *)
Definition walk (a st : Z) (i : nat) : Z := a + Z.of_nat i * st.

(** The access at which the stride is learnt, and the confidence it leaves: until
    then the confidence falls, from there on it rises. *)
Definition learns (s : Stride) : Z := Z.max 1 (startConf s - threshConf s + 1).
Definition floor (s : Stride) : Z := Z.max (minConf s) (Z.min (startConf s - 1) (threshConf s - 1)).

(** The entry after the access [i]. *)
Definition walked (s : Stride) (pc a : Z) (sec : bool) (st : Z) (i : nat) : StrideEntry :=
  MkEntry pc (walk a st i) sec (if Z.of_nat i <? learns s then 0 else st)
    (if Z.of_nat i <? learns s then startConf s - Z.of_nat i
     else Z.min (maxConf s) (floor s + (Z.of_nat i - learns s))).

(** The accesses for which nothing is generated: the first one, and from the one
    at which the stride is learnt as long as the confidence is below the
    threshold. *)
Definition silent (s : Stride) (i : nat) : bool :=
  (Z.of_nat i =? 0) || (learns s <=? Z.of_nat i) && (Z.of_nat i <? learns s + (threshConf s - floor s)).

Section walk.
Context (s : Stride) (pc a st : Z) (sec : bool).
Context (Hwf : wf s) (Hconf : minConf s < threshConf s <= maxConf s).
Context (Hst : - 2 ^ 31 <= st < 2 ^ 31) (Hst0 : st <> 0).

Lemma walked_first : walked s pc a sec st 0 = new_entry s pc a sec.
Proof.
  unfold walked, new_entry, walk, learns. rewrite (proj2 (Z.ltb_lt _ _)) by lia. f_equal; lia.
Qed.

Lemma walked_next i : train s (walk a st (S i)) (walked s pc a sec st i) = walked s pc a sec st (S i).
Proof.
  pose proof (wf_start _ Hwf). replace (walk a st (S i)) with (walk a st i + st) by (unfold walk; lia).
  destruct (Z.ltb_spec (Z.of_nat i) (learns s)) as [Hi|Hi].
  - rewrite train_mismatch; [|done|done|by unfold walked; rewrite (proj2 (Z.ltb_lt _ _)) by done; simpl].
    unfold walked, floor. rewrite (proj2 (Z.ltb_lt _ _)) by done. cbn [instAddr isSecure stride confidence lastAddr].
    unfold learns in *. cbv zeta.
    f_equal; [unfold walk; lia| |];
      repeat match goal with |- context [?x >? ?y] => destruct (Z.gtb_spec x y) | |- context [?x <? ?y] => destruct (Z.ltb_spec x y) end; lia.
  - rewrite train_match; [|done|done|done|unfold walked; rewrite (proj2 (Z.ltb_ge _ _)) by done; done].
    unfold walked, floor. rewrite (proj2 (Z.ltb_ge _ _)) by done. rewrite (proj2 (Z.ltb_ge _ (learns s))) by lia.
    cbn [instAddr isSecure stride confidence lastAddr].
    f_equal; [unfold walk; lia|].
    repeat match goal with |- context [?x <? ?y] => destruct (Z.ltb_spec x y) end; lia.
Qed.

Lemma walked_silent i : (confidence (walked s pc a sec st (S i)) <? threshConf s) = silent s (S i).
Proof.
  pose proof (wf_start _ Hwf). unfold walked, silent. cbn [confidence].
  rewrite (proj2 (Z.eqb_neq (Z.of_nat (S i)) 0)) by lia. cbn [orb].
  destruct (Z.ltb_spec (Z.of_nat (S i)) (learns s)); unfold floor, learns in *;
    repeat match goal with |- context [?x <? ?y] => destruct (Z.ltb_spec x y) | |- context [?x <=? ?y] => destruct (Z.leb_spec x y) end;
    cbn [andb]; try done; lia.
Qed.

(** The state reached from [s]: tables and draws. *)
Definition at_ (E : gmap Z (list (list StrideEntry))) (D : nat) : Stride := s <| entries := E |> <| drawn := D |>.

(** Context [c] has entry [e] for [pc] and [sec], and no other one. *)
Definition tracked (c w : Z) (e : StrideEntry) (s' : Stride) : Prop :=
  0 <= w /\ instAddr e = pc /\ isSecure e = sec /\
  exists set, tbl c s' !! Z.to_nat (set_index s pc) = Some set /\ set !! Z.to_nat w = Some e /\
    forall j e', set !! j = Some e' -> instAddr e' = pc -> isSecure e' = sec -> j = Z.to_nat w.

Definition untracked (c : Z) (s' : Stride) : Prop :=
  forall set e, tbl c s' !! Z.to_nat (set_index s pc) = Some set -> e ∈ set -> ~ (instAddr e = pc /\ isSecure e = sec).

Lemma tbl_put c c' pc' w e s' :
  tbl c (put c' pc' w e s') =
    if decide (c' = c) then alter <[Z.to_nat w := e]> (Z.to_nat (set_index s' pc')) (tbl c s') else tbl c s'.
Proof.
  unfold put. case_decide as Hc; [subst; apply tbl_insert|]. unfold tbl. simpl. by rewrite lookup_insert_ne.
Qed.

Lemma put_tracked c w e e0 s' set :
  set_index s' pc = set_index s pc -> tbl c s' !! Z.to_nat (set_index s pc) = Some set -> 0 <= w -> set !! Z.to_nat w = Some e0 ->
  instAddr e = pc -> isSecure e = sec ->
  (forall j e', set !! j = Some e' -> instAddr e' = pc -> isSecure e' = sec -> j = Z.to_nat w) ->
  tracked c w e (put c pc w e s').
Proof.
  intros Hi Hset Hw He0 H1 H2 Hu. apply lookup_lt_Some in He0 as Hlt. split_and!; try done. exists (<[Z.to_nat w := e]> set).
  rewrite tbl_put, decide_True, Hi by done. split; [by rewrite list_lookup_alter_eq, Hset|].
  split; [by rewrite list_lookup_insert_eq|]. intros j e' Hj. destruct (decide (j = Z.to_nat w)) as [->|Hne]; [done|].
  rewrite list_lookup_insert_ne in Hj by done. by apply Hu.
Qed.

Context (b : BasePrefetcher) (c : Z).

(** The accesses of the walk, and accesses that use another context, another set of
    the table, or no program counter. *)
Definition mine (pkt : Packet.Packet) : bool :=
  Request.hasPC (Packet.req pkt) && (Request._pc (Packet.req pkt) =? pc) &&
  (context_of s pkt =? c) && eqb (Packet._isSecure pkt) sec.
Definition elsewhere (pkt : Packet.Packet) : Prop :=
  Request.hasPC (Packet.req pkt) = false \/ context_of s pkt <> c \/
  set_index s (Request._pc (Packet.req pkt)) <> set_index s pc.

Lemma mine_ok pkt : mine pkt = true ->
  Request.hasPC (Packet.req pkt) = true /\ Request._pc (Packet.req pkt) = pc /\ context_of s pkt = c /\ Packet._isSecure pkt = sec.
Proof. unfold mine. rewrite !andb_true_iff, !Z.eqb_eq, eqb_true_iff. tauto. Qed.

(** The prefetches the access [i] of the walk generates: those of the loop over
    the degree, which stops at the end of the page. *)
Definition expected (i : nat) : list Z :=
  if silent s i then []
  else fst (candidates b (walk a st i) (degree s) (next_addr b (walk a st i) st)).

(** After [i] accesses of the walk. *)
Definition phase (i : nat) (s' : Stride) : Prop :=
  match i with O => untracked c s' | S j => exists w, tracked c w (walked s pc a sec st j) s' end.

(** What an access of the walk finds. *)
Lemma access_at E D pkt :
  wf (at_ E D) -> trigger_ok pkt -> mine pkt = true ->
  exists set, tbl c (at_ E D) !! Z.to_nat (set_index s pc) = Some set /\
    ((exists w e, 0 <= w /\ set !! Z.to_nat w = Some e /\ instAddr e = pc /\ isSecure e = sec /\
        let s' := put c pc w (train s (Packet.addr pkt) e) (at_ E D) in
        calculatePrefetch b pkt (at_ E D) =
          if confidence (train s (Packet.addr pkt) e) <? threshConf s then Ok ([], 0, s')
          else Ok (candidates b (Packet.addr pkt) (degree s)
                     (next_addr b (Packet.addr pkt) (s32 (Packet.addr pkt - lastAddr e))), s')) \/
     ((forall e, e ∈ set -> ~ (instAddr e = pc /\ isSecure e = sec)) /\
      calculatePrefetch b pkt (at_ E D) =
        Ok ([], 0, put c pc (ways s D) (new_entry s pc (Packet.addr pkt) sec) (at_ E (S D))))).
Proof.
  intros Hw Ht (Hpc & Epc & Ec & Es)%mine_ok. pose proof (calculate_ok b pkt (at_ E D) Hw Ht Hpc) as Hc. cbv zeta in Hc.
  change (context_of (at_ E D) pkt) with (context_of s pkt) in Hc. rewrite Epc, Ec, Es in Hc.
  destruct Hc as (set & Hset & [(w & e & H0 & H1 & _ & H2) | H]); exists set; split; [done| |done|]; [left|by right].
  by exists w, e.
Qed.

Lemma first_access E D pkt :
  wf (at_ E D) -> trigger_ok pkt -> mine pkt = true -> Packet.addr pkt = a -> untracked c (at_ E D) ->
  exists E' D', calculatePrefetch b pkt (at_ E D) = Ok ([], 0, at_ E' D') /\ phase 1 (at_ E' D').
Proof.
  intros Hw Ht Hmine Ea Hun.
  destruct (access_at E D pkt Hw Ht Hmine) as (set & Hset & [Hhit | [_ Em]]); rewrite Ea in *.
  - destruct Hhit as (w & e & _ & He & H1 & H2 & _). destruct (Hun set e Hset); [by eapply list_elem_of_lookup_2|done].
  - do 2 eexists. split; [exact Em|]. exists (ways s D). rewrite walked_first.
    pose proof (wf_ways _ Hwf D) as Hway.
    destruct (tbl_table_ok c _ Hw) as [_ Hall]. destruct (Forall_lookup_1 _ _ _ _ Hall Hset) as [Hl _].
    destruct (lookup_lt_is_Some_2 set (Z.to_nat (ways s D))) as [e0 He0].
    { change (pcTableAssoc (at_ E D)) with (pcTableAssoc s) in Hl. lia. }
    eapply (put_tracked c _ _ e0 (at_ E (S D)) set); try done; [lia|].
    intros j e' Hj H1 H2. destruct (Hun set e' Hset); [by eapply list_elem_of_lookup_2|done].
Qed.

Lemma next_access E D pkt i :
  wf (at_ E D) -> trigger_ok pkt -> mine pkt = true -> Packet.addr pkt = walk a st (S i) -> phase (S i) (at_ E D) ->
  exists span E' D', calculatePrefetch b pkt (at_ E D) = Ok (expected (S i), span, at_ E' D') /\ phase (S (S i)) (at_ E' D').
Proof.
  intros Hw Ht Hmine Ea (w & Hw0 & T1 & T2 & set & Tset & Tw & Tu).
  destruct (access_at E D pkt Hw Ht Hmine) as (set' & Hset & [Hhit | [Hmiss _]]); rewrite Tset in Hset; injection Hset as <-.
  2:{ destruct (Hmiss (walked s pc a sec st i)); [by eapply list_elem_of_lookup_2|done]. }
  rewrite Ea in Hhit.
  destruct Hhit as (w' & e & Hw' & He & H1 & H2 & ->). assert (w' = w) as -> by (specialize (Tu _ _ He H1 H2); lia).
  rewrite Tw in He. injection He as <-. change (train (at_ E D)) with (train s). rewrite walked_next.
  change (threshConf (at_ E D)) with (threshConf s). change (degree (at_ E D)) with (degree s). rewrite walked_silent.
  assert (tracked c w (walked s pc a sec st (S i)) (put c pc w (walked s pc a sec st (S i)) (at_ E D))) as Htr.
  { by eapply (put_tracked c _ _ (walked s pc a sec st i) _ set). }
  unfold expected. destruct (silent s (S i)).
  - do 3 eexists. split; [reflexivity|]. by exists w.
  - replace (s32 (walk a st (S i) - lastAddr (walked s pc a sec st i))) with st.
    2:{ simpl. replace (walk a st (S i) - walk a st i) with st by (unfold walk; lia). by rewrite s32_small. }
    destruct (candidates _ _ _ _) as [l span]. do 3 eexists. split; [reflexivity|]. by exists w.
Qed.

Lemma other_access E D pkt :
  wf (at_ E D) -> trigger_ok pkt -> 0 <= pc -> elsewhere pkt ->
  exists l span E' D', calculatePrefetch b pkt (at_ E D) = Ok (l, span, at_ E' D') /\
    tbl c (at_ E' D') !! Z.to_nat (set_index s pc) = tbl c (at_ E D) !! Z.to_nat (set_index s pc).
Proof.
  intros Hw Ht Hpc0 Hel. destruct (Request.hasPC (Packet.req pkt)) eqn:Hpc.
  2:{ exists [], 0, E, D. unfold calculatePrefetch, calculatePrefetch_stride. by rewrite Hpc. }
  set (pc' := Request._pc (Packet.req pkt)) in *.
  assert (forall w e D', tbl c (put (context_of s pkt) pc' w e (at_ E D')) !! Z.to_nat (set_index s pc) =
    tbl c (at_ E D) !! Z.to_nat (set_index s pc)) as Hput.
  { intros w e D'. rewrite tbl_put. case_decide as Hc; [|done].
    apply list_lookup_alter_ne. change (set_index (at_ E D') pc') with (set_index s pc').
    destruct (pcHash_ok s pc Hwf Hpc0) as (_ & ? & _). destruct (pcHash_ok s pc' Hwf (tr_pc _ Ht)) as (_ & ? & _).
    destruct Hel as [|[|Hne]]; [congruence|done|]. change (Request._pc (Packet.req pkt)) with pc' in Hne. lia. }
  destruct (calculate_ok b pkt (at_ E D) Hw Ht Hpc) as (set & _ & [(w & e & _ & _ & _ & _ & _ & ->) | (_ & ->)]);
    change (context_of (at_ E D) pkt) with (context_of s pkt).
  - destruct (_ <? _); [do 4 eexists; split; [reflexivity|]; apply Hput|].
    destruct (candidates _ _ _ _) as [l span]. do 4 eexists. split; [reflexivity|]. apply Hput.
  - do 4 eexists. split; [reflexivity|]. apply (Hput _ _ (S D)).
Qed.

Lemma other_phase E D E' D' i :
  tbl c (at_ E' D') !! Z.to_nat (set_index s pc) = tbl c (at_ E D) !! Z.to_nat (set_index s pc) ->
  phase i (at_ E D) -> phase i (at_ E' D').
Proof.
  intros Ht. destruct i; simpl; unfold untracked, tracked; rewrite Ht; done.
Qed.

(** The answers to the accesses of the walk among all answers. *)
Definition answers (pkts : list Packet.Packet) (ls : list (list Z)) : list (list Z) :=
  snd <$> filter (fun x => mine (fst x) = true) (zip pkts ls).

Lemma run_walk pkts : forall i n E D,
  wf (at_ E D) -> 0 <= pc -> phase i (at_ E D) -> Forall trigger_ok pkts ->
  Forall (fun p => mine p = true \/ elsewhere p) pkts ->
  Packet.addr <$> filter (fun p => mine p = true) pkts = walk a st <$> seq i n ->
  exists ls s', run b pkts (at_ E D) = Ok (ls, s') /\ answers pkts ls = expected <$> seq i n.
Proof.
  induction pkts as [|pkt pkts IH]; intros i n E D Hw Hpc0 Hph Ht Hm Ha.
  { destruct n; [|done]. by exists [], (at_ E D). }
  apply Forall_cons in Ht as [Htr Ht]. apply Forall_cons in Hm as [Hmo Hm]. cbn [run].
  destruct (calculate_wf b pkt (at_ E D) Hw Htr) as (l & span & s1 & E1 & _ & _ & Hw1 & _).
  destruct (decide (mine pkt = true)) as [Hmine|Hmine].
  - rewrite filter_cons_True in Ha by done. destruct n as [|n]; [done|]. cbn [seq] in Ha. rewrite !fmap_cons in Ha.
    injection Ha as Ha0 Ha.
    assert (exists E' D', s1 = at_ E' D' /\ phase (S i) (at_ E' D') /\ l = expected i) as (E' & D' & -> & Hph' & ->).
    { destruct i as [|i].
      - destruct (first_access E D pkt Hw Htr Hmine) as (E' & D' & Ec & Hp); [unfold walk in Ha0; lia|done|].
        rewrite E1 in Ec. injection Ec as -> -> ->. by exists E', D'.
      - destruct (next_access E D pkt i Hw Htr Hmine Ha0 Hph) as (sp & E' & D' & Ec & Hp).
        rewrite E1 in Ec. injection Ec as -> -> ->. by exists E', D'. }
    rewrite E1. cbn [mbind outcome_bind]. destruct (IH (S i) n E' D') as (ls & s2 & -> & Hans); try done.
    cbn [mbind outcome_bind]. do 2 eexists. split; [reflexivity|].
    unfold answers. cbn [zip zip_with]. rewrite filter_cons_True by done. cbn [seq]. rewrite !fmap_cons. by rewrite <- Hans.
  - rewrite filter_cons_False in Ha by done. destruct Hmo as [|Hel]; [done|].
    destruct (other_access E D pkt Hw Htr Hpc0 Hel) as (l' & sp & E' & D' & Ec & Htb). rewrite E1 in Ec. injection Ec as -> -> ->.
    rewrite E1. cbn [mbind outcome_bind].
    destruct (IH i n E' D') as (ls & s2 & -> & Hans); try done; [by eapply other_phase|].
    cbn [mbind outcome_bind]. do 2 eexists. split; [reflexivity|].
    unfold answers. cbn [zip zip_with]. by rewrite filter_cons_False.
Qed.

End walk.

(** C27: a load that walks through memory with a constant stride [st] is learnt, and
    the prefetches of each access are exactly known. In a prefetcher whose table
    has no entry for the load, with [n] accesses of the walk among any other
    accesses that use another set, another context or no program counter (so that
    the entry is not replaced), and a threshold above [minConf] and not above
    [maxConf]: no prefetch is generated by the first access, nor from the one that
    learns the stride, after the confidence has fallen below the threshold, until
    it is back at the threshold ([silent]; for a start value of the threshold that
    is one access); every other access generates the addresses one to [degree]
    strides ahead, the stride rounded up to a block, up to the first one on
    another page. *)
Theorem stride_stream_learnt b s c pc a sec st n pkts :
  wf s -> minConf s < threshConf s <= maxConf s -> - 2 ^ 31 <= st < 2 ^ 31 -> st <> 0 -> 0 <= pc ->
  untracked s pc sec c s -> Forall trigger_ok pkts ->
  Forall (fun p => mine s pc sec c p = true \/ elsewhere s pc c p) pkts ->
  Packet.addr <$> filter (fun p => mine s pc sec c p = true) pkts = walk a st <$> seq 0 n ->
  exists ls s', run b pkts s = Ok (ls, s') /\
    answers s pc sec c pkts ls =
      (fun i => if silent s i then []
                else fst (candidates b (walk a st i) (degree s) (next_addr b (walk a st i) st))) <$> seq 0 n.
Proof.
  intros Hwf Hc Hst H0 Hpc Hun Ht Hm Ha.
  assert (s = at_ s (entries s) (drawn s)) as Es by (by destruct s).
  destruct (run_walk s pc a st sec Hwf Hc Hst H0 b c pkts 0 n (entries s) (drawn s)) as (ls & s' & E & Hans); try done; try by rewrite <- Es.
  rewrite <- Es in E. eauto.
Qed.

(** The default parameters: confidences up to 7, threshold and start 4. *)
Definition example_stride : Stride :=
  MkStride 7 4 0 4 4 16 true 4 ∅ (fun _ => 0) 0.

(** A read of [a] by the load at [pc]. *)
Definition load_at (pc a : Z) : Packet.Packet :=
  Packet.MkPacket Packet.VALID_ADDR MemCmd.ReadReq
    (Request.Request0 <| Request._pc := pc |> <| Request.privateFlags := Request.VALID_PC |>)
    None a false 4 MemCmd.InvalidCmd [] 0 0 [].

Lemma load_at_ok pc a : 0 <= pc -> in_width 64 a -> trigger_ok (load_at pc a).
Proof. intros Hpc Ha. split; [reflexivity|exact Ha|discriminate|exact Hpc]. Qed.

Definition example_base : BasePrefetcher := MkBase 64 false true true true false 0 4096.

Lemma example_stride_wf : wf example_stride.
Proof.
  split; simpl; try lia.
  - exists 4. lia.
  - intros c t Hc. by rewrite lookup_empty in Hc.
Qed.

(** A walk with stride 128 up to the end of its page, with another load in between. *)
Lemma stride_stream_learnt_witness :
  let pkts := [load_at 0x400 0x1c00; load_at 0x400 0x1c80; load_at 0x406 0x5000; load_at 0x400 0x1d00; load_at 0x400 0x1d80;
               load_at 0x400 0x1e00; load_at 0x400 0x1e80] in
  exists ls s', run example_base pkts example_stride = Ok (ls, s') /\
    answers example_stride 0x400 false Request.invldMasterId pkts ls =
      [[]; []; [0x1d80; 0x1e00; 0x1e80; 0x1f00]; [0x1e00; 0x1e80; 0x1f00; 0x1f80]; [0x1e80; 0x1f00; 0x1f80]; [0x1f00; 0x1f80]].
Proof.
  intros pkts.
  destruct (stride_stream_learnt example_base example_stride Request.invldMasterId 0x400 0x1c00 false 128 6 pkts) as (ls & s' & E & Ha).
  - exact example_stride_wf.
  - simpl. lia.
  - lia.
  - lia.
  - lia.
  - intros set e Hset He [H1 _]. vm_compute in Hset. injection Hset as <-. vm_compute in He.
    repeat (apply elem_of_cons in He as [-> | He]; [discriminate|]). by apply elem_of_nil in He.
  - repeat (constructor; [apply load_at_ok; [lia | split; lia]|]). constructor.
  - unfold pkts. do 2 (constructor; [by left|]). constructor; [right; right; right; vm_compute; discriminate|].
    do 4 (constructor; [by left|]). constructor.
  - vm_compute. reflexivity.
  - exists ls, s'. split; [exact E|]. rewrite Ha. vm_compute. reflexivity.
Defined.

(** The entry after two accesses of a walk with stride 128. *)
Definition trained_state : Stride :=
  put 0 0x400 0 (MkEntry 0x400 0x1080 false 128 3)
    (example_stride <| useMasterId := false |>).

Lemma trained_state_wf : wf trained_state.
Proof.
  apply put_wf; [|unfold entry_ok; simpl; lia]. split; simpl; try lia.
  - exists 4. lia.
  - intros c t Hc. by rewrite lookup_empty in Hc.
Qed.

Lemma stride_table_invariant_witness :
  exists s ls s', Stride_new 7 4 0 4 4 16 true 4 (fun _ => 0) = Ok s /\
    run example_base [load_at 0x400 0x1000; load_at 0x400 0x1080; load_at 0x400 0x1100] s = Ok (ls, s') /\
    forall c t, entries s' !! c = Some t -> Z.of_nat (length t) = pcTableSets s'.
Proof.
  destruct (stride_table_invariant 7 4 0 4 4 16 true 4 (fun _ => 0) example_stride example_base
    [load_at 0x400 0x1000; load_at 0x400 0x1080; load_at 0x400 0x1100])
    as (ls & s' & E & Hinv); try lia.
  - reflexivity.
  - repeat (constructor; [apply load_at_ok; [lia | split; lia]|]). constructor.
  - exists example_stride, ls, s'. split; [reflexivity|]. split; [exact E|].
    intros c t Ht. apply (Hinv c t Ht).
Defined.

Lemma stride_candidates_witness :
  exists l span s', calculatePrefetch example_base (load_at 0x400 0x1100) trained_state = Ok (l, span, s') /\
    exists e m, instAddr e = 0x400 /\ Z.of_nat m + span = 4 /\
      (forall x, x ∈ l -> x / 4096 = 1).
Proof.
  assert (calculatePrefetch example_base (load_at 0x400 0x1100) trained_state =
    Ok ([0x1180; 0x1200; 0x1280; 0x1300], 0,
        put 0 0x400 0 (MkEntry 0x400 0x1100 false 128 4) trained_state)) as E
    by (vm_compute; reflexivity).
  destruct (stride_candidates example_base 6 12 (load_at 0x400 0x1100) trained_state _ _ _
    ltac:(split; simpl; lia) ltac:(lia) trained_state_wf
    ltac:(apply load_at_ok; [lia | split; lia]) E ltac:(discriminate))
    as (e & m & Hi & _ & _ & _ & _ & Hm & Hp).
  eexists _, _, _. split; [exact E|]. exists e, m. split; [exact Hi|]. split; [exact Hm|]. exact Hp.
Defined.

End StridePrefetcher.
