(* ===== verification/MSHR.v ===== *)
(** Miss status holding registers: mem/cache/mshr.hh and mshr.cc.

    All MSHRs of all caches are one heap, a list indexed by their identities: a
    target's packet carries, in its sender-state stack, the identity of the MSHR
    of the cache above that forwarded it, and marking or clearing the
    [downstreamPending] flag follows these identities. A packet is a value of
    the target that holds it: converting a target's command changes the packet
    in the target list. *)

From S2P Require Import Prelude IntMath Request MemCmd Packet Functional Blk.
Local Open Scope Z_scope.

Module MSHR.

Inductive Source := FromCPU | FromSnoop | FromPrefetcher.
#[global] Instance Source_eq_dec : EqDecision Source.
Proof. solve_decision. Defined.

Record Target := MkTarget {
  recvTime : Z;
  t_readyTime : Z;
  t_order : Z;
  t_pkt : Packet.Packet;
  source : Source;
  markedPending : bool;
}.
#[global] Instance eta_Target : Eta Target := fun t =>
  MkTarget (recvTime t) (t_readyTime t) (t_order t) (t_pkt t) (source t) (markedPending t).

Record TargetList := MkTargetList {
  items : list Target;
  tl_needsExclusive : bool;
  hasUpgrade : bool;
}.
#[global] Instance eta_TargetList : Eta TargetList := fun l =>
  MkTargetList (items l) (tl_needsExclusive l) (hasUpgrade l).

Definition TargetList0 : TargetList := MkTargetList [] false false.

Definition resetFlags (l : TargetList) : TargetList :=
  l <| tl_needsExclusive := false |> <| hasUpgrade := false |>.

Definition isReset (l : TargetList) : bool := negb (tl_needsExclusive l) && negb (hasUpgrade l).

Record MSHR := MkMSHR {
  readyTime : Z;
  _isUncacheable : bool;
  downstreamPending : bool;
  pendingDirty : bool;
  postInvalidate : bool;
  postDowngrade : bool;
  order : Z;
  blkAddr : Z;
  blkSize : Z;
  isSecure : bool;
  inService : bool;
  isForward : bool;
  threadNum : Z;
  targets : TargetList;
  deferredTargets : TargetList;
}.
#[global] Instance eta_MSHR : Eta MSHR := fun m =>
  MkMSHR (readyTime m) (_isUncacheable m) (downstreamPending m) (pendingDirty m)
    (postInvalidate m) (postDowngrade m) (order m) (blkAddr m) (blkSize m) (isSecure m)
    (inService m) (isForward m) (threadNum m) (targets m) (deferredTargets m).

(** The constructor; [InvalidThreadID] is -1. *)
Definition MSHR0 : MSHR :=
  MkMSHR 0 false false false false false 0 0 0 false false false (-1) TargetList0 TargetList0.

Abbreviation heap := (list MSHR).

Definition needsExclusive (m : MSHR) : bool := tl_needsExclusive (targets m).
Definition isPendingDirty (m : MSHR) : outcome bool :=
  _ ← ensure AssertFailed (inService m); Ok (pendingDirty m).
Definition hasPostInvalidate (m : MSHR) : outcome bool :=
  _ ← ensure AssertFailed (inService m); Ok (postInvalidate m).
Definition hasPostDowngrade (m : MSHR) : outcome bool :=
  _ ← ensure AssertFailed (inService m); Ok (postDowngrade m).
Definition isUncacheable (m : MSHR) : bool := _isUncacheable m.
Definition getNumTargets (m : MSHR) : Z :=
  Z.of_nat (length (items (targets m)) + length (items (deferredTargets m))).
Definition hasTargets (m : MSHR) : bool :=
  match items (targets m) with [] => false | _ => true end.
Definition getTarget (m : MSHR) : outcome Target :=
  match items (targets m) with [] => Fail AssertFailed | t :: _ => Ok t end.
Definition popTarget (m : MSHR) : outcome MSHR :=
  match items (targets m) with
  | [] => Fail Undefined
  | _ :: l => Ok (m <| targets ::= (fun tl => tl <| items := l |>) |>)
  end.

(** With one target in all, the regular list may still be the empty one. *)
Definition isForwardNoResponse (m : MSHR) : outcome bool :=
  if negb (getNumTargets m =? 1) then Ok false
  else match items (targets m) with
       | [] => Fail Undefined
       | t :: _ => Ok (bool_decide (source t = FromCPU) && negb (Packet.needsResponse (t_pkt t)))
       end.

(** The flags [TargetList::add] sets for a target that is not a snoop. *)
Definition add_flags (pkt : Packet.Packet) (src : Source) (l : TargetList) : TargetList :=
  if decide (src = FromSnoop) then l
  else
    let l := if Packet.needsExclusive pkt then l <| tl_needsExclusive := true |> else l in
    if Packet.isUpgrade pkt || bool_decide (Packet.cmd pkt = MemCmd.StoreCondReq)
    then l <| hasUpgrade := true |> else l.

(** Mark the MSHR the packet came from, if any. *)
Definition mark_upstream (pkt : Packet.Packet) (h : heap) : outcome heap :=
  match Packet.findNextSenderState_MSHR pkt with
  | None => Ok h
  | Some up =>
      m ← pget h up;
      _ ← ensure AssertFailed (negb (downstreamPending m));
      Ok (<[up := m <| downstreamPending := true |>]> h)
  end.

(** The two target lists of an MSHR. *)
Inductive which := Regular | Deferred.
Definition get_list (w : which) (m : MSHR) : TargetList :=
  match w with Regular => targets m | Deferred => deferredTargets m end.
Definition upd_list (w : which) (f : TargetList -> TargetList) (m : MSHR) : MSHR :=
  match w with
  | Regular => m <| targets ::= f |>
  | Deferred => m <| deferredTargets ::= f |>
  end.

(** [add] on a list of the MSHR [self]. *)
Definition add (curTick : Z) (self : nat) (w : which) (pkt : Packet.Packet)
  (ready ord : Z) (src : Source) (markPending : bool) (h : heap) : outcome heap :=
  h ← pupd (upd_list w (add_flags pkt src)) h self;
  h ← (if markPending then mark_upstream pkt h else Ok h);
  pupd (upd_list w (fun l =>
    l <| items := items l ++ [MkTarget curTick ready ord pkt src markPending] |>)) h self.

(** The static function [replaceUpgrade]. *)
Definition replaceUpgrade (pkt : Packet.Packet) : Packet.Packet :=
  match Packet.cmd pkt with
  | MemCmd.UpgradeReq => pkt <| Packet.cmd := MemCmd.ReadExReq |>
  | MemCmd.SCUpgradeReq => pkt <| Packet.cmd := MemCmd.SCUpgradeFailReq |>
  | MemCmd.StoreCondReq => pkt <| Packet.cmd := MemCmd.StoreCondFailReq |>
  | _ => pkt
  end.

Definition replaceUpgrades (l : TargetList) : TargetList :=
  if negb (hasUpgrade l) then l
  else l <| items ::= fmap (fun t => t <| t_pkt ::= replaceUpgrade |>) |>
         <| hasUpgrade := false |>.

(** [TargetList::clearDownstreamPending]; [rec] is the method of the MSHRs it
    calls. *)
Fixpoint clear_list (rec : nat -> heap -> outcome heap) (ts : list Target) (h : heap)
  : outcome heap :=
  match ts with
  | [] => Ok h
  | t :: ts =>
      h ← (if markedPending t then
             match Packet.findNextSenderState_MSHR (t_pkt t) with
             | Some up => rec up h
             | None => Ok h
             end
           else Ok h);
      clear_list rec ts h
  end.

(** [MSHR::clearDownstreamPending]. Every call clears a flag that was set, so the
    number of set flags bounds the depth of the recursion. *)
Fixpoint clearDownstreamPending (fuel : nat) (id : nat) (h : heap) : outcome heap :=
  match fuel with
  | O => Fail Undefined
  | S fuel =>
      m ← pget h id;
      _ ← ensure AssertFailed (downstreamPending m);
      clear_list (clearDownstreamPending fuel) (items (targets m))
        (<[id := m <| downstreamPending := false |>]> h)
  end.

(** The number of MSHRs marked as pending downstream, and the fuel it gives. *)
Definition pending_count (h : heap) : Z := countb downstreamPending h.
Definition clear_fuel (h : heap) : nat := S (Z.to_nat (pending_count h)).

Definition allocate (curTick : Z) (self : nat) (blk_addr blk_size : Z)
  (target : Packet.Packet) (when_ready _order : Z) (h : heap) : outcome heap :=
  sec ← Packet.isSecure target;
  m ← pget h self;
  let m := m <| blkAddr := blk_addr |> <| blkSize := blk_size |> <| isSecure := sec |>
             <| readyTime := when_ready |> <| order := _order |> <| isForward := false |>
             <| _isUncacheable := Request.isUncacheable (Packet.req target) |>
             <| inService := false |> <| downstreamPending := false |> <| threadNum := 0 |> in
  _ ← ensure AssertFailed (isReset (targets m));
  let source := if decide (Packet.cmd target = MemCmd.HardPFReq)
                then FromPrefetcher else FromCPU in
  h ← add curTick self Regular target when_ready _order source true (<[self := m]> h);
  m ← pget h self;
  _ ← ensure AssertFailed (isReset (deferredTargets m));
  Ok h.

(** The result says whether the MSHR only forwarded a request that needs no
    response. *)
Definition markInService (self : nat) (pending_dirty_resp : bool) (h : heap)
  : outcome (bool * heap) :=
  m ← pget h self;
  _ ← ensure AssertFailed (negb (inService m));
  f ← isForwardNoResponse m;
  if f : bool then
    _ ← ensure AssertFailed (getNumTargets m =? 1);
    m ← popTarget m;
    Ok (true, <[self := m]> h)
  else
    let m := m <| inService := true |>
               <| pendingDirty := tl_needsExclusive (targets m) || pending_dirty_resp |>
               <| postInvalidate := false |> <| postDowngrade := false |> in
    let h := <[self := m]> h in
    h ← (if negb (downstreamPending m)
         then clear_list (clearDownstreamPending (clear_fuel h)) (items (targets m)) h else Ok h);
    Ok (false, h).

Definition deallocate (m : MSHR) : outcome MSHR :=
  _ ← ensure AssertFailed (negb (hasTargets m));
  let m := m <| targets ::= resetFlags |> in
  _ ← ensure AssertFailed (isReset (deferredTargets m));
  Ok (m <| inService := false |>).

(** The condition of [allocateTarget]: the new target has to wait for the
    response to the request in service. *)
Definition must_defer (pkt : Packet.Packet) (m : MSHR) : bool :=
  inService m &&
  (negb (match items (deferredTargets m) with [] => true | _ => false end)
   || postInvalidate m
   || (Packet.needsExclusive pkt
       && (negb (pendingDirty m) || postDowngrade m || isForward m))).

Definition allocateTarget (curTick : Z) (self : nat) (pkt : Packet.Packet)
  (whenReady _order : Z) (h : heap) : outcome heap :=
  m ← pget h self;
  _ ← ensure AssertFailed (negb (bool_decide (Packet.cmd pkt = MemCmd.HardPFReq)));
  _ ← ensure AssertFailed (negb (_isUncacheable m));
  if must_defer pkt m then
    let pkt := if postInvalidate m then replaceUpgrade pkt else pkt in
    add curTick self Deferred pkt whenReady _order FromCPU true h
  else add curTick self Regular pkt whenReady _order FromCPU (negb (inService m)) h.

(** [handleSnoop] also changes flags of the snooped packet. [fresh] gives the
    bytes of newly allocated data. *)
Definition handleSnoop (curTick : Z) (fresh : Z -> list Z) (self : nat) (pkt : Packet.Packet)
  (_order : Z) (h : heap) : outcome (bool * Packet.Packet * heap) :=
  m ← pget h self;
  if negb (inService m) || (Packet.isExpressSnoop pkt && downstreamPending m) then
    let m := if Packet.needsExclusive pkt
             then m <| targets ::= replaceUpgrades |> <| deferredTargets ::= replaceUpgrades |>
             else m in
    Ok (false, pkt, <[self := m]> h)
  else
    let m := if Packet.needsExclusive pkt
             then m <| deferredTargets ::= replaceUpgrades |> else m in
    let h := <[self := m]> h in
    if postInvalidate m then Ok (true, pkt, h)
    else
      '(pkt, h) ←
        (if pendingDirty m || Packet.isInvalidate pkt then
           '(cp_pkt, pkt) ←
             (if pendingDirty m then
                cp_pkt ← Packet.Packet_copy fresh pkt true true;
                pkt ← Packet.assertMemInhibit pkt;
                Ok (cp_pkt, Packet.setSupplyExclusive pkt)
              else
                cp_pkt ← Packet.Packet_new (Packet.req pkt) (Packet.cmd pkt);
                Ok (cp_pkt, pkt));
           h ← add curTick self Regular cp_pkt curTick _order FromSnoop
                 (downstreamPending m && tl_needsExclusive (targets m)) h;
           h ← (if Packet.needsExclusive pkt
                then pupd (fun m => m <| postInvalidate := true |>) h self else Ok h);
           Ok (pkt, h)
         else Ok (pkt, h));
      if negb (Packet.needsExclusive pkt) && negb (Request.isUncacheable (Packet.req pkt)) then
        h ← pupd (fun m => m <| postDowngrade := true |>) h self;
        Ok (true, Packet.assertShared pkt, h)
      else Ok (true, pkt, h).

Definition promoteDeferredTargets (curTick : Z) (m : MSHR) : outcome (bool * MSHR) :=
  _ ← ensure AssertFailed (negb (hasTargets m));
  match items (deferredTargets m) with
  | [] => Ok (false, m)
  | t :: _ =>
      let tl := targets m in
      Ok (true, m <| targets := deferredTargets m |> <| deferredTargets := resetFlags tl |>
                  <| order := t_order t |> <| readyTime := Z.max curTick (t_readyTime t) |>)
  end.

(** [splice] moves the items; the flags of the lists are set by hand. *)
Definition handleFill (self : nat) (pkt : Packet.Packet) (h : heap) : outcome heap :=
  m ← pget h self;
  if Packet.sharedAsserted pkt then Ok h
  else
    post ← (i ← hasPostInvalidate m; if i : bool then Ok true else hasPostDowngrade m);
    if negb post && tl_needsExclusive (deferredTargets m) then
      _ ← ensure AssertFailed (negb (tl_needsExclusive (targets m)));
      let m := m <| targets ::= (fun l => l <| tl_needsExclusive := true |>) |> in
      _ ← ensure AssertFailed (negb (downstreamPending m));
      let h := <[self := m]> h in
      h ← clear_list (clearDownstreamPending (clear_fuel h)) (items (deferredTargets m)) h;
      pupd (fun m =>
        m <| targets ::= (fun l => l <| items := items l ++ items (deferredTargets m) |>) |>
          <| deferredTargets := TargetList0 |>) h self
    else Ok h.

(** [TargetList::checkFunctional]: the functional packet meets the targets in
    order; the first that satisfies it ends the search. *)
Fixpoint list_checkFunctional (pkt : Packet.Packet) (ts : list Target)
  : outcome (bool * Packet.Packet * list Target) :=
  match ts with
  | [] => Ok (false, pkt, [])
  | t :: ts =>
      '(r, pkt, other) ← Functional.checkFunctional_pkt pkt (t_pkt t);
      let t := t <| t_pkt := other |> in
      if r : bool then Ok (true, pkt, t :: ts)
      else
        '(r, pkt, ts) ← list_checkFunctional pkt ts;
        Ok (r, pkt, t :: ts)
  end.

Definition checkFunctional (pkt : Packet.Packet) (m : MSHR)
  : outcome (bool * Packet.Packet * MSHR) :=
  if Packet.isPrint pkt then
    '(_, pkt, _) ← Functional.checkFunctional pkt (blkAddr m) (isSecure m) (blkSize m) None;
    Ok (false, pkt, m)
  else
    '(r, pkt, ts) ← list_checkFunctional pkt (items (targets m));
    let m := m <| targets ::= (fun l => l <| items := ts |>) |> in
    if r : bool then Ok (true, pkt, m)
    else
      '(r, pkt, ts) ← list_checkFunctional pkt (items (deferredTargets m));
      Ok (r, pkt, m <| deferredTargets ::= (fun l => l <| items := ts |>) |>).

(** ** Clearing [downstreamPending] *)

(** [h'] is [h] with some of the flags cleared. *)
Definition clears (h h' : heap) : Prop :=
  Forall2 (fun m m' => m' = m \/ m' = m <| downstreamPending := false |>) h h'.

#[export] Instance clears_preorder : PreOrder clears.
Proof.
  split.
  - intros h. apply Forall_Forall2_diag, Forall_true. auto.
  - intros h1 h2 h3 H12. revert h3. induction H12 as [|m1 m2 h1 h2 Hm H12 IH]; intros h3 H23.
    + exact H23.
    + inversion H23 as [|? m3 ? h3' Hm' H23']; subst. constructor; [|by apply IH].
      destruct Hm as [-> | ->], Hm' as [-> | ->]; auto.
Qed.

Lemma clears_insert h id m :
  h !! id = Some m -> clears h (<[id := m <| downstreamPending := false |>]> h).
Proof.
  revert id. induction h as [|x h IH]; intros [|id] E; simpl in *; try done.
  - injection E as ->. constructor; [auto|]. reflexivity.
  - constructor; [auto|]. by apply IH.
Qed.

Lemma clears_count h h' : clears h h' -> pending_count h' <= pending_count h.
Proof.
  unfold pending_count. induction 1 as [|m m' h h' [-> | ->] Hh IH]; simpl; [lia|lia|].
  destruct (downstreamPending m); simpl; lia.
Qed.

Lemma clear_S n id h :
  clearDownstreamPending (S n) id h =
    match h !! id with
    | None => Fail Undefined
    | Some m =>
        if downstreamPending m then
          clear_list (clearDownstreamPending n) (items (targets m))
            (<[id := m <| downstreamPending := false |>]> h)
        else Fail AssertFailed
    end.
Proof.
  simpl. unfold pget. destruct (h !! id) as [m|]; simpl; [|done].
  by destruct (downstreamPending m).
Qed.

(** The fuel does not matter once it exceeds the number of flags that are set,
    and a successful call clears flags and nothing else. *)
Lemma clear_fuel_enough n :
  (forall id h, pending_count h < Z.of_nat n ->
     (forall k, (n <= k)%nat -> clearDownstreamPending k id h = clearDownstreamPending n id h) /\
     (forall h', clearDownstreamPending n id h = Ok h' ->
        clears h h' /\ pending_count h' < pending_count h)) /\
  (forall ts h, pending_count h < Z.of_nat n ->
     (forall k, (n <= k)%nat -> clear_list (clearDownstreamPending k) ts h =
                                clear_list (clearDownstreamPending n) ts h) /\
     (forall h', clear_list (clearDownstreamPending n) ts h = Ok h' -> clears h h')).
Proof.
  induction n as [|n [IHc IHl]].
  { split; intros ? h Hn; pose proof (countb_nonneg downstreamPending h);
      unfold pending_count in Hn; lia. }
  assert (forall id h, pending_count h < Z.of_nat (S n) ->
     (forall k, (S n <= k)%nat -> clearDownstreamPending k id h = clearDownstreamPending (S n) id h) /\
     (forall h', clearDownstreamPending (S n) id h = Ok h' ->
        clears h h' /\ pending_count h' < pending_count h)) as Hc.
  { intros id h Hn.
    assert (forall k, (S n <= k)%nat -> exists k', k = S k' /\ (n <= k')%nat) as Hpred.
    { intros [|k] Hk; [lia|]. exists k. split; [done|lia]. }
    destruct (h !! id) as [m|] eqn:Em.
    2:{ rewrite clear_S, Em. split; [|done]. intros k (k' & -> & _)%Hpred. by rewrite clear_S, Em. }
    destruct (downstreamPending m) eqn:Ed.
    2:{ rewrite clear_S, Em, Ed. split; [|done]. intros k (k' & -> & _)%Hpred.
        by rewrite clear_S, Em, Ed. }
    rewrite clear_S, Em, Ed. set (h1 := <[id := m <| downstreamPending := false |>]> h).
    assert (pending_count h1 = pending_count h - 1) as E1.
    { unfold pending_count, h1. rewrite (countb_insert _ _ _ _ _ Em), Ed. simpl. lia. }
    destruct (IHl (items (targets m)) h1) as [Hk Hok]; [lia|]. split.
    - intros k (k' & -> & Hk')%Hpred. rewrite clear_S, Em, Ed. by apply Hk.
    - intros h' E. specialize (Hok h' E). pose proof (clears_count _ _ Hok). split; [|lia].
      transitivity h1; [by apply clears_insert|done]. }
  split; [exact Hc|]. induction ts as [|t ts IHts]; intros h Hn; cbn [clear_list].
  { split; [done|]. intros h' [= <-]. reflexivity. }
  destruct (markedPending t), (Packet.findNextSenderState_MSHR (t_pkt t)) as [up|];
    cbn [mbind outcome_bind]; try by apply IHts.
  destruct (Hc up h Hn) as [Hk Hok].
  destruct (clearDownstreamPending (S n) up h) as [h1|e] eqn:E1; cbn [mbind outcome_bind].
  - destruct (Hok h1 eq_refl) as [Hcl Hlt]. destruct (IHts h1) as [Hk' Hok']; [lia|]. split.
    + intros k Hle. rewrite Hk by done. cbn [mbind outcome_bind]. by apply Hk'.
    + intros h' E. transitivity h1; auto.
  - split; [|done]. intros k Hle. by rewrite Hk.
Qed.

(** Clearing [downstreamPending] terminates: every fuel of at least the
    number of flags set plus one gives the same result, so the recursion
    through the caches above is never cut off; and when no assertion fails,
    flags are cleared, at least one, and nothing else changes. *)
Theorem clearDownstreamPending_terminates id h fuel :
  (clear_fuel h <= fuel)%nat ->
  clearDownstreamPending fuel id h = clearDownstreamPending (clear_fuel h) id h /\
  forall h', clearDownstreamPending fuel id h = Ok h' ->
    clears h h' /\ pending_count h' < pending_count h.
Proof.
  intros Hf. pose proof (countb_nonneg downstreamPending h) as H0.
  destruct (clear_fuel_enough (clear_fuel h)) as [Hc _].
  destruct (Hc id h) as [Hk Hok]; [unfold clear_fuel, pending_count; lia|].
  rewrite (Hk fuel) by done. auto.
Qed.

(** A target whose packet came through the MSHR [up]. *)
Definition example_target (up : nat) : Target :=
  MkTarget 0 0 0 (Packet.MkPacket 0 MemCmd.ReadReq Request.Request0 None 0 false 0
    MemCmd.InvalidCmd [] 0 0 [Packet.SSMshr up]) FromCPU true.
Definition example_mshr (ts : list Target) : MSHR :=
  MSHR0 <| downstreamPending := true |> <| targets := MkTargetList ts false false |>.

Lemma clearDownstreamPending_terminates_witness :
  exists h', clearDownstreamPending 10 0 [example_mshr [example_target 1]; example_mshr []] = Ok h' /\
    pending_count h' < 2.
Proof.
  eexists. split; [reflexivity|].
  apply (clearDownstreamPending_terminates 0
    [example_mshr [example_target 1]; example_mshr []] 10); [vm_compute; lia|reflexivity].
Defined.

(** ** Soundness of the list flags *)

(** The packets [hasUpgrade] stands for. *)
Definition upgrading (pkt : Packet.Packet) : bool :=
  Packet.isUpgrade pkt || bool_decide (Packet.cmd pkt = MemCmd.StoreCondReq).

(** Targets that are not snoops are requests, and the flags cover them. *)
Definition excl_sound (l : TargetList) : Prop :=
  forall t, t ∈ items l -> source t <> FromSnoop ->
    Packet.isRequest (t_pkt t) = true /\
    (Packet.needsExclusive (t_pkt t) = true -> tl_needsExclusive l = true).
Definition upg_sound (l : TargetList) : Prop :=
  forall t, t ∈ items l -> source t <> FromSnoop ->
    upgrading (t_pkt t) = true -> hasUpgrade l = true.

(** While a request is in service the upgrades among its targets are not looked
    at any more. *)
Record sound (m : MSHR) : Prop := {
  so_excl : excl_sound (targets m);
  so_excl' : excl_sound (deferredTargets m);
  so_upg : inService m = false -> upg_sound (targets m);
  so_upg' : upg_sound (deferredTargets m);
}.

Lemma replaceUpgrade_ok pkt :
  Packet.isRequest pkt = true ->
  upgrading (replaceUpgrade pkt) = false /\ Packet.isRequest (replaceUpgrade pkt) = true /\
  Packet.needsExclusive (replaceUpgrade pkt) = Packet.needsExclusive pkt.
Proof.
  destruct pkt as [fl c]. unfold upgrading, replaceUpgrade, Packet.isUpgrade,
    Packet.isRequest, Packet.needsExclusive. simpl.
  destruct c; vm_compute; intros [=]; auto.
Qed.

(** Afterwards no target that is not a snoop is an upgrade. *)
Lemma replaceUpgrades_ok l :
  excl_sound l -> upg_sound l ->
  let l' := replaceUpgrades l in
  excl_sound l' /\ upg_sound l' /\ hasUpgrade l' = false /\
  length (items l') = length (items l) /\
  forall t, t ∈ items l' -> source t <> FromSnoop -> upgrading (t_pkt t) = false.
Proof.
  intros He Hu. unfold replaceUpgrades. destruct (hasUpgrade l) eqn:E; simpl.
  - assert (forall t, t ∈ (fun t => t <| t_pkt ::= replaceUpgrade |>) <$> items l ->
      exists t0, t = t0 <| t_pkt ::= replaceUpgrade |> /\ t0 ∈ items l) as Hin.
    { intros t (t0 & -> & H0)%list_elem_of_fmap. eauto. }
    split_and!.
    + intros t (t0 & -> & H0)%Hin Hs. destruct (He t0 H0 Hs) as [Hreq Hex].
      destruct (replaceUpgrade_ok (t_pkt t0) Hreq) as (_ & Hr & Hn). simpl. split; [done|].
      rewrite Hn. done.
    + intros t (t0 & -> & H0)%Hin Hs. destruct (He t0 H0 Hs) as [Hreq _].
      destruct (replaceUpgrade_ok (t_pkt t0) Hreq) as (Hr & _). simpl. by rewrite Hr.
    + done.
    + by rewrite length_fmap.
    + intros t (t0 & -> & H0)%Hin Hs. destruct (He t0 H0 Hs) as [Hreq _].
      apply (replaceUpgrade_ok (t_pkt t0) Hreq).
  - split_and!; try done. intros t Ht Hs. destruct (upgrading (t_pkt t)) eqn:Eu; [|done].
    by rewrite (Hu t Ht Hs Eu) in E.
Qed.

(** An exclusive snoop that reaches an MSHR whose request has not been issued
    changes no other MSHR and reports false; afterwards none of the MSHR's CPU
    targets, regular or deferred, is an upgrade: each one has become a request
    for the data, since the copy it wanted to upgrade is gone. *)
Theorem snoop_before_issue_replaces_upgrades curTick fresh self pkt ord h m :
  h !! self = Some m -> sound m -> inService m = false -> Packet.needsExclusive pkt = true ->
  exists m', handleSnoop curTick fresh self pkt ord h = Ok (false, pkt, <[self := m']> h) /\
    sound m' /\ getNumTargets m' = getNumTargets m /\
    forall t, t ∈ items (targets m') ++ items (deferredTargets m') ->
      source t <> FromSnoop -> upgrading (t_pkt t) = false.
Proof.
  intros Hm [He He' Hu Hu'] Hs Hn. specialize (Hu Hs).
  destruct (replaceUpgrades_ok _ He Hu) as (Re & Ru & _ & Rl & Rt).
  destruct (replaceUpgrades_ok _ He' Hu') as (Re' & Ru' & _ & Rl' & Rt').
  unfold handleSnoop, pget. rewrite Hm. cbn [mbind outcome_bind]. rewrite Hs, Hn. simpl orb.
  eexists. split; [done|]. split; [by split|]. split.
  - unfold getNumTargets. simpl. by rewrite Rl, Rl'.
  - intros t [Ht|Ht]%elem_of_app Hsrc; [by apply Rt|by apply Rt'].
Qed.

Lemma snoop_before_issue_replaces_upgrades_witness :
  let pkt c := Packet.MkPacket 0 c Request.Request0 None 0 false 0 MemCmd.InvalidCmd [] 0 0 [] in
  let m := MSHR0 <| targets := MkTargetList [MkTarget 0 0 0 (pkt MemCmd.UpgradeReq) FromCPU true] true true |> in
  exists m', handleSnoop 5 (fun _ => []) 0 (pkt MemCmd.ReadExReq) 1 [m] =
      Ok (false, pkt MemCmd.ReadExReq, [m']) /\
    (Packet.cmd ∘ t_pkt) <$> items (targets m') = [MemCmd.ReadExReq].
Proof.
  intros pkt m.
  destruct (snoop_before_issue_replaces_upgrades 5 (fun _ => []) 0 (pkt MemCmd.ReadExReq) 1 [m] m)
    as (m' & E & _).
  - reflexivity.
  - split; simpl.
    + intros t Ht. apply list_elem_of_singleton in Ht as ->. done.
    + intros t Ht. by apply elem_of_nil in Ht.
    + intros _ t Ht. done.
    + intros t Ht. by apply elem_of_nil in Ht.
  - reflexivity.
  - reflexivity.
  - exists m'. split; [exact E|]. vm_compute in E. injection E as <-. reflexivity.
Defined.

(** ** The invariant over sequences of operations *)

(** [h'] is [h] up to the [downstreamPending] flags. *)
Definition same_lists (h h' : heap) : Prop :=
  Forall2 (fun m m' => exists d, m' = m <| downstreamPending := d |>) h h'.

Lemma clears_same_lists h h' : clears h h' -> same_lists h h'.
Proof.
  intros H. eapply Forall2_impl; [exact H|]. intros m m' [-> | ->]; [|eauto].
  exists (downstreamPending m). by destruct m.
Qed.

Lemma mark_same_lists pkt h h' : mark_upstream pkt h = Ok h' -> same_lists h h'.
Proof.
  unfold mark_upstream. destruct (Packet.findNextSenderState_MSHR pkt) as [up|]; intros H; inv_ok.
  - apply pget_ok in E. revert up E. induction h as [|m h IH]; intros [|up] E; simpl in *; try done.
    + injection E as ->. constructor; [eauto|].
      apply Forall_Forall2_diag, Forall_true. intros x. exists (downstreamPending x). by destruct x.
    + constructor; [exists (downstreamPending m); by destruct m|]. by apply IH.
  - apply Forall_Forall2_diag, Forall_true. intros x. exists (downstreamPending x). by destruct x.
Qed.

Lemma same_lists_lookup h h' i m :
  same_lists h h' -> h !! i = Some m -> exists d, h' !! i = Some (m <| downstreamPending := d |>).
Proof.
  intros H Hm. destruct (Forall2_lookup_l _ _ _ _ _ H Hm) as (m' & E & d & ->). eauto.
Qed.

Lemma sound_flag m d : sound m -> sound (m <| downstreamPending := d |>).
Proof. intros []. by split. Qed.

Lemma same_lists_sound h h' : same_lists h h' -> Forall sound h -> Forall sound h'.
Proof.
  induction 1 as [|m m' h h' (d & ->) H IH]; intros Hs; [done|].
  apply Forall_cons in Hs as [Hm Hs]. constructor; [by apply sound_flag|auto].
Qed.

Lemma clear_list_same_lists ts h h' :
  clear_list (clearDownstreamPending (clear_fuel h)) ts h = Ok h' -> same_lists h h'.
Proof.
  intros E. apply clears_same_lists.
  destruct (clear_fuel_enough (clear_fuel h)) as [_ Hl].
  apply (proj2 (Hl ts h ltac:(unfold clear_fuel; pose proof (countb_nonneg downstreamPending h);
    unfold pending_count; lia)) h' E).
Qed.

(** What [add] does to a list. *)
Definition push (pkt : Packet.Packet) (t : Target) (l : TargetList) : TargetList :=
  let l := add_flags pkt (source t) l in l <| items := items l ++ [t] |>.

Lemma add_flags_items pkt src l : items (add_flags pkt src l) = items l.
Proof. unfold add_flags. by split_ifs. Qed.

Lemma push_sound pkt t l :
  t_pkt t = pkt -> (source t <> FromSnoop -> Packet.isRequest pkt = true) ->
  (excl_sound l -> excl_sound (push pkt t l)) /\ (upg_sound l -> upg_sound (push pkt t l)).
Proof.
  intros Hp Hr. unfold excl_sound, upg_sound, push. simpl. rewrite add_flags_items.
  assert (tl_needsExclusive l = true -> tl_needsExclusive (add_flags pkt (source t) l) = true) as Hx.
  { unfold add_flags. by split_ifs. }
  assert (hasUpgrade l = true -> hasUpgrade (add_flags pkt (source t) l) = true) as Hy.
  { unfold add_flags. by split_ifs. }
  split; intros H x [Hin | ->%list_elem_of_singleton]%elem_of_app Hs.
  - destruct (H x Hin Hs). auto.
  - rewrite Hp. split; [auto|]. intros Hn. unfold add_flags. rewrite decide_False, Hn by done.
    by split_ifs.
  - eauto.
  - rewrite Hp. intros Hn. unfold add_flags. rewrite decide_False by done.
    unfold upgrading in Hn. rewrite Hn. by split_ifs.
Qed.

Lemma upd_list_sound w f m :
  (excl_sound (get_list w m) -> excl_sound (f (get_list w m))) ->
  (upg_sound (get_list w m) -> upg_sound (f (get_list w m))) ->
  sound m -> sound (upd_list w f m).
Proof. destruct w; intros H1 H2 [He He' Hu Hu']; split; simpl in *; auto. Qed.

(** A successful [add] pushes the target; the MSHRs differ otherwise only in
    their [downstreamPending] flags. *)
Lemma add_inv ct self w pkt rd od src mp h h' :
  add ct self w pkt rd od src mp h = Ok h' ->
  exists m, h !! self = Some m /\
    same_lists (<[self := upd_list w (push pkt (MkTarget ct rd od pkt src mp)) m]> h) h'.
Proof.
  unfold add. intros H. inv_ok. apply pupd_ok in E as (m & Em & ->).
  exists m. split; [done|]. apply pupd_ok in H as (m1 & E1 & ->).
  pose proof (lookup_lt_Some _ _ _ Em) as Hlt.
  set (m0 := upd_list w (add_flags pkt src) m) in *.
  assert (same_lists (<[self := m0]> h) a0) as Hs.
  { destruct mp; [by eapply mark_same_lists|]. inv_ok.
    apply Forall_Forall2_diag, Forall_true. intros x. exists (downstreamPending x). by destruct x. }
  destruct (same_lists_lookup _ _ self m0 Hs) as (d & Ed); [by rewrite list_lookup_insert_eq|].
  rewrite Ed in E1. injection E1 as <-.
  replace (<[self := upd_list w (push pkt (MkTarget ct rd od pkt src mp)) m]> h)
    with (<[self := upd_list w (push pkt (MkTarget ct rd od pkt src mp)) m]> (<[self := m0]> h))
    by apply list_insert_insert_eq.
  apply Forall2_insert; [done|]. exists d. destruct w, m; done.
Qed.

Lemma add_sound ct self w pkt rd od src mp h h' :
  add ct self w pkt rd od src mp h = Ok h' ->
  (src <> FromSnoop -> Packet.isRequest pkt = true) -> Forall sound h -> Forall sound h'.
Proof.
  intros (m & Em & Hs)%add_inv Hr Hh. eapply same_lists_sound; [exact Hs|].
  apply Forall_insert; [done|].
  destruct (push_sound pkt (MkTarget ct rd od pkt src mp) (get_list w m) eq_refl Hr).
  apply upd_list_sound; [done|done|]. eapply Forall_lookup_1; eauto.
Qed.

(** The operations the caches apply to MSHRs. *)
Inductive op :=
  | OpAllocate (addr size : Z) (pkt : Packet.Packet) (when ord : Z)
  | OpMarkInService (dirty : bool)
  | OpDeallocate
  | OpAllocateTarget (pkt : Packet.Packet) (when ord : Z)
  | OpSnoop (pkt : Packet.Packet) (ord : Z)
  | OpPromote
  | OpFill (pkt : Packet.Packet)
  | OpPop.

(** One operation on the MSHR [self] at time [ct]. *)
Definition run_op (fresh : Z -> list Z) (ct : Z) (self : nat) (o : op) (h : heap)
  : outcome heap :=
  match o with
  | OpAllocate a s pkt w ord => allocate ct self a s pkt w ord h
  | OpMarkInService d => '(_, h) ← markInService self d h; Ok h
  | OpDeallocate => m ← pget h self; m ← deallocate m; Ok (<[self := m]> h)
  | OpAllocateTarget pkt w ord => allocateTarget ct self pkt w ord h
  | OpSnoop pkt ord => '(_, h) ← handleSnoop ct fresh self pkt ord h; Ok h
  | OpPromote =>
      m ← pget h self; '(_, m) ← promoteDeferredTargets ct m; Ok (<[self := m]> h)
  | OpFill pkt => handleFill self pkt h
  | OpPop => m ← pget h self; m ← popTarget m; Ok (<[self := m]> h)
  end.

(** New targets are requests, and only an MSHR without targets is allocated. *)
Definition op_ok (self : nat) (o : op) (h : heap) : Prop :=
  match o with
  | OpAllocate _ _ pkt _ _ =>
      Packet.isRequest pkt = true /\
      forall m, h !! self = Some m -> items (targets m) = [] /\ items (deferredTargets m) = []
  | OpAllocateTarget pkt _ _ => Packet.isRequest pkt = true
  | _ => True
  end.

Inductive reachable (fresh : Z -> list Z) : heap -> Prop :=
  | reach_init n : reachable fresh (replicate n MSHR0)
  | reach_step ct self o h h' :
      reachable fresh h -> op_ok self o h -> run_op fresh ct self o h = Ok h' ->
      reachable fresh h'.

Lemma sublist_sound l ts :
  (forall t, t ∈ ts -> t ∈ items l) ->
  (excl_sound l -> excl_sound (l <| items := ts |>)) /\
  (upg_sound l -> upg_sound (l <| items := ts |>)).
Proof. intros H. split; intros Hl t Ht; apply Hl; auto. Qed.

Lemma nil_sound l : items l = [] -> excl_sound l /\ upg_sound l.
Proof. intros E. split; intros t; rewrite E; by intros ?%elem_of_nil. Qed.

Lemma popTarget_sound m m' : popTarget m = Ok m' -> sound m -> sound m'.
Proof.
  unfold popTarget. destruct (items (targets m)) as [|t l] eqn:E; [done|]. intros [= <-].
  destruct (sublist_sound (targets m) l) as [H1 H2].
  { intros x Hx. rewrite E. by constructor. }
  intros []. split; simpl; auto.
Qed.

Lemma deallocate_sound m m' : deallocate m = Ok m' -> sound m -> sound m'.
Proof.
  unfold deallocate, hasTargets. intros H [_ He _ Hu]. inv_ok. unfold negb in *.
  destruct (items (targets m)) eqn:El; [|done].
  destruct (nil_sound (resetFlags (targets m)) El). by split.
Qed.

Lemma promote_sound ct m b m' : promoteDeferredTargets ct m = Ok (b, m') -> sound m -> sound m'.
Proof.
  unfold promoteDeferredTargets, hasTargets. intros H [He He' _ Hu']. inv_ok.
  destruct (items (targets m)) eqn:Et; [|done].
  destruct (items (deferredTargets m)) as [|t l] eqn:Ed; inv_ok.
  - destruct (nil_sound (targets m') Et). by split.
  - destruct (nil_sound (resetFlags (targets m)) Et). by split.
Qed.

Lemma sound_replaceUpgrades m :
  sound m -> sound (m <| deferredTargets ::= replaceUpgrades |>).
Proof.
  intros [He He' Hu Hu'].
  destruct (replaceUpgrades_ok _ He' Hu') as (? & ? & _). by split.
Qed.

(** Without its [hasUpgrade] flag a list of requests stays sound for
    exclusiveness. *)
Lemma excl_replaceUpgrades l : excl_sound l -> excl_sound (replaceUpgrades l).
Proof.
  intros He. unfold replaceUpgrades. destruct (negb _); [done|].
  intros t (t0 & -> & H0)%list_elem_of_fmap Hs. destruct (He t0 H0 Hs) as [Hr Hx]. simpl.
  destruct (replaceUpgrade_ok (t_pkt t0) Hr) as (_ & Hr' & ->). auto.
Qed.

(** Updates that leave the target lists and [inService] alone. *)
Lemma pupd_sound f h self h' :
  (forall m, targets (f m) = targets m /\ deferredTargets (f m) = deferredTargets m /\
             inService (f m) = inService m) ->
  pupd f h self = Ok h' -> Forall sound h -> Forall sound h'.
Proof.
  intros Hf (m & Em & ->)%pupd_ok Hh. apply Forall_insert; [done|].
  destruct (Hf m) as (E1 & E2 & E3), (Forall_lookup_1 _ _ _ _ Hh Em) as [? ? Hu ?].
  split; rewrite ?E1, ?E2, ?E3; auto.
Qed.

Lemma allocate_sound ct self a s pkt w ord h h' :
  op_ok self (OpAllocate a s pkt w ord) h -> allocate ct self a s pkt w ord h = Ok h' ->
  Forall sound h -> Forall sound h'.
Proof.
  intros [Hr Hnil] H Hh. unfold allocate in H. inv_ok. apply pget_ok in E0.
  destruct (Hnil _ E0) as [N1 N2]. eapply add_sound; [exact E2|done|].
  apply Forall_insert; [done|].
  destruct (nil_sound (targets a1) N1), (nil_sound (deferredTargets a1) N2). by split.
Qed.

Lemma markInService_sound self d h b h' :
  markInService self d h = Ok (b, h') -> Forall sound h -> Forall sound h'.
Proof.
  intros H Hh. unfold markInService in H. inv_ok. apply pget_ok in E.
  pose proof (Forall_lookup_1 _ _ _ _ Hh E) as Ha. destruct a1; inv_ok.
  - apply Forall_insert; [done|]. by eapply popTarget_sound.
  - assert (forall x, same_lists (<[self := x]> h) h' -> sound x -> Forall sound h') as K.
    { intros x Hx Hsx. eapply same_lists_sound; [exact Hx|]. by apply Forall_insert. }
    destruct Ha as [He He' _ Hu']. eapply K.
    + destruct (negb _) in E2; [by eapply clear_list_same_lists|]. inv_ok.
      apply Forall_Forall2_diag, Forall_true. intros y. exists (downstreamPending y). by destruct y.
    + by split.
Qed.

Lemma allocateTarget_sound ct self pkt w ord h h' :
  Packet.isRequest pkt = true -> allocateTarget ct self pkt w ord h = Ok h' ->
  Forall sound h -> Forall sound h'.
Proof.
  intros Hr H Hh. unfold allocateTarget in H. inv_ok.
  destruct (must_defer pkt a); eapply add_sound; try exact H; try done.
  intros _. destruct (postInvalidate a); [|done]. by apply replaceUpgrade_ok.
Qed.

Lemma handleSnoop_sound ct fresh self pkt ord h r h' :
  handleSnoop ct fresh self pkt ord h = Ok (r, h') -> Forall sound h -> Forall sound h'.
Proof.
  intros H Hh. unfold handleSnoop in H. inv_ok. apply pget_ok in E.
  pose proof (Forall_lookup_1 _ _ _ _ Hh E) as Ha. revert H.
  destruct (negb (inService a) || _) eqn:Es; intros H; inv_ok.
  - apply Forall_insert; [done|]. destruct (Packet.needsExclusive pkt); [|done].
    destruct Ha as [He He' Hu Hu'].
    destruct (replaceUpgrades_ok _ He' Hu') as (? & ? & _). split; simpl; try done.
    + by apply excl_replaceUpgrades.
    + intros Hs. by destruct (replaceUpgrades_ok _ He (Hu Hs)) as (_ & ? & _).
  - set (m := if Packet.needsExclusive pkt then _ else a) in H.
    assert (Forall sound (<[self := m]> h)) as Hm.
    { apply Forall_insert; [done|]. unfold m. destruct (Packet.needsExclusive pkt); [|done].
      by apply sound_replaceUpgrades. }
    clearbody m. generalize dependent (<[self := m]> h). clear h E Hh. intros h H Hh.
    destruct (postInvalidate m); inv_ok; [done|]. destruct a0 as [pkt1 h1].
    assert (Forall sound h1) as H1.
    { destruct (pendingDirty m || _); inv_ok; [|done]. destruct a0 as [cp pkt2]. inv_ok.
      assert (Forall sound a0) by by eapply add_sound.
      destruct (Packet.needsExclusive pkt1); inv_ok; [|done].
      eapply pupd_sound; [|eassumption|eassumption]; done. }
    destruct (negb _ && _); inv_ok; [|done]. eapply pupd_sound; [|eassumption|eassumption]; done.
Qed.

Lemma handleFill_sound self pkt h h' :
  handleFill self pkt h = Ok h' -> Forall sound h -> Forall sound h'.
Proof.
  intros H Hh. unfold handleFill in H. inv_ok. apply pget_ok in E.
  destruct (Packet.sharedAsserted pkt); inv_ok; [done|].
  assert (inService a = true) as Hs by (unfold hasPostInvalidate in E1; inv_ok; done).
  destruct (negb a0 && _); inv_ok; [|done].
  pose proof (Forall_lookup_1 _ _ _ _ Hh E) as [He He' _ Hu'].
  set (m := a <| targets ::= _ |>) in *. apply clear_list_same_lists in E4.
  assert (sound m) as Hm.
  { split; [|done|simpl; congruence|done]. intros t Ht Hsrc. by destruct (He t Ht Hsrc). }
  assert (Forall sound a4) as H2.
  { eapply same_lists_sound; [exact E4|]. by apply Forall_insert. }
  destruct (same_lists_lookup _ _ self m E4) as (d & Ed).
  { rewrite list_lookup_insert_eq; [done|]. by eapply lookup_lt_Some. }
  apply pupd_ok in H as (m' & Em & ->). rewrite Ed in Em. injection Em as <-.
  apply Forall_insert; [done|]. split; simpl; try (intros; congruence).
  - intros t [Ht|Ht]%elem_of_app Hsrc; [by destruct (He t Ht Hsrc)|by destruct (He' t Ht Hsrc)].
  - intros t Ht. by apply elem_of_nil in Ht.
  - intros t Ht. by apply elem_of_nil in Ht.
Qed.

Lemma run_op_sound fresh ct self o h h' :
  op_ok self o h -> run_op fresh ct self o h = Ok h' -> Forall sound h -> Forall sound h'.
Proof.
  intros Hok H Hh. destruct o; simpl in *.
  - by eapply allocate_sound.
  - inv_ok. destruct a as [b h1]. inv_ok. by eapply markInService_sound.
  - inv_ok. apply pget_ok in E. apply Forall_insert; [done|]. eapply deallocate_sound; [done|].
    by eapply Forall_lookup_1.
  - by eapply allocateTarget_sound.
  - inv_ok. destruct a as [[b p] h1]. inv_ok. by eapply handleSnoop_sound.
  - inv_ok. destruct a0 as [b m]. inv_ok. apply pget_ok in E.
    apply Forall_insert; [done|]. eapply promote_sound; [done|]. by eapply Forall_lookup_1.
  - by eapply handleFill_sound.
  - inv_ok. apply pget_ok in E. apply Forall_insert; [done|]. eapply popTarget_sound; [done|].
    by eapply Forall_lookup_1.
Qed.

(** C25: in every state the MSHRs can reach, the flags of the target lists cover
    their targets: every target that is not a snoop is a request, a list with an
    exclusive one has [needsExclusive] set, and a list with an upgrade or a store
    conditional has [hasUpgrade] set, for the regular list as long as the request
    has not been issued. *)
Theorem mshr_flags_sound fresh h : reachable fresh h -> Forall sound h.
Proof.
  induction 1 as [n|ct self o h h' _ IH Hok Hrun]; [|by eapply run_op_sound].
  apply Forall_replicate. destruct (nil_sound TargetList0 eq_refl). by split.
Qed.

Lemma mshr_flags_sound_witness :
  let pkt := Packet.MkPacket 0 MemCmd.UpgradeReq Request.Request0 None 0 false 0
               MemCmd.InvalidCmd [] 0 0 [] in
  exists h, run_op (fun _ => []) 3 0 (OpAllocateTarget pkt 5 1) [MSHR0] = Ok h /\ Forall sound h.
Proof.
  intros pkt. eexists. split; [reflexivity|]. apply (mshr_flags_sound (fun _ => [])).
  eapply (reach_step _ 3 0 (OpAllocateTarget pkt 5 1) [MSHR0]); [apply (reach_init _ 1)| |];
    reflexivity.
Defined.

(** The MSHR a packet came from, if any, can be marked. *)
Definition can_mark (pkt : Packet.Packet) (h : heap) : Prop :=
  match Packet.findNextSenderState_MSHR pkt with
  | None => True
  | Some up => exists m, h !! up = Some m /\ downstreamPending m = false
  end.

Lemma add_total ct self w pkt rd od src mp h m :
  h !! self = Some m -> can_mark pkt h ->
  exists h', add ct self w pkt rd od src mp h = Ok h'.
Proof.
  intros Hm Hc. unfold add, pupd, pget. rewrite Hm. cbn [mbind outcome_bind].
  pose proof (lookup_lt_Some _ _ _ Hm) as Hlt.
  destruct mp; cbn [mbind outcome_bind]; [|rewrite list_lookup_insert_eq by done; simpl; eauto].
  unfold mark_upstream, can_mark in *.
  destruct (Packet.findNextSenderState_MSHR pkt) as [up|]; cbn [mbind outcome_bind].
  - destruct Hc as (mu & Hu & Hd). unfold pget.
    assert (exists mu', <[self := upd_list w (add_flags pkt src) m]> h !! up = Some mu' /\
      downstreamPending mu' = false) as (mu' & -> & Hd').
    { destruct (decide (up = self)) as [->|Hne].
      - rewrite list_lookup_insert_eq by done. eexists. split; [done|].
        rewrite Hm in Hu. injection Hu as ->. by destruct w.
      - rewrite list_lookup_insert_ne by done. eauto. }
    cbn [mbind outcome_bind]. rewrite Hd'. simpl ensure. cbn [mbind outcome_bind].
    destruct (lookup_lt_is_Some_2 (<[up := mu' <| downstreamPending := true |>]>
      (<[self := upd_list w (add_flags pkt src) m]> h)) self) as (x & ->);
      [by rewrite !length_insert|]. simpl. eauto.
  - rewrite list_lookup_insert_eq by done. simpl. eauto.
Qed.

Lemma same_lists_insert_lookup h h' self m x :
  h !! self = Some m -> same_lists (<[self := x]> h) h' ->
  exists d, h' !! self = Some (x <| downstreamPending := d |>).
Proof.
  intros Hm Hs. apply (same_lists_lookup _ _ _ _ Hs).
  rewrite list_lookup_insert_eq; [done|]. by eapply lookup_lt_Some.
Qed.

(** What an invalidating snoop does to an MSHR whose request is in service. *)
Lemma snoop_in_service ct fresh self pkt ord h m r pkt' h1 :
  h !! self = Some m -> inService m = true ->
  Packet.isExpressSnoop pkt && downstreamPending m = false -> postInvalidate m = false ->
  Packet.needsExclusive pkt = true -> pendingDirty m || Packet.isInvalidate pkt = true ->
  handleSnoop ct fresh self pkt ord h = Ok (r, pkt', h1) ->
  r = true /\ exists m1 t, h1 !! self = Some m1 /\ postInvalidate m1 = true /\
    inService m1 = true /\ _isUncacheable m1 = _isUncacheable m /\
    items (targets m1) = items (targets m) ++ [t] /\ source t = FromSnoop /\
    deferredTargets m1 = replaceUpgrades (deferredTargets m).
Proof.
  intros Hm Hs He Hp Hn Hd. unfold handleSnoop, pget. rewrite Hm. cbn [mbind outcome_bind].
  rewrite Hs, He, Hn. set (m0 := m <| deferredTargets ::= replaceUpgrades |>).
  change (postInvalidate m0) with (postInvalidate m).
  change (pendingDirty m0) with (pendingDirty m). rewrite Hp, Hd. intros H. simpl orb in H.
  cbv iota in H. apply bind_ok in H as ([pkt2 h2] & H1 & H).
  apply bind_ok in H1 as ([cp pkt3] & H3 & H1). apply bind_ok in H1 as (h3 & Hadd & H1).
  apply bind_ok in H1 as (h4 & Hpost & H1). injection H1 as -> ->.
  assert (Packet.needsExclusive pkt2 = true) as Hn3.
  { destruct (pendingDirty m); inv_ok; [|done].
    match goal with H : Packet.assertMemInhibit _ = _ |- _ => unfold Packet.assertMemInhibit in H end.
    inv_ok. done. }
  assert (<[self := m0]> h !! self = Some m0) as Hm0
    by (rewrite list_lookup_insert_eq; [done|by eapply lookup_lt_Some]).
  apply add_inv in Hadd as (x & Ex & Hsl). rewrite Hm0 in Ex. injection Ex as <-.
  destruct (same_lists_insert_lookup _ _ _ _ _ Hm0 Hsl) as (d & Ed).
  rewrite Hn3 in Hpost. apply pupd_ok in Hpost as (y & Ey & ->).
  rewrite Ed in Ey. injection Ey as <-.
  rewrite Hn3 in H. injection H as <- <- <-. split; [done|]. do 2 eexists. split.
  { rewrite list_lookup_insert_eq; [done|]. by eapply lookup_lt_Some. }
  split_and!; done.
Qed.

(** [h'] is [h] for the MSHRs other than [self], up to [downstreamPending]. *)
Definition touches (self : nat) (h h' : heap) : Prop :=
  forall i m, i <> self -> h !! i = Some m -> exists d, h' !! i = Some (m <| downstreamPending := d |>).

Lemma touches_refl self h : touches self h h.
Proof. intros i m _ Hm. exists (downstreamPending m). rewrite Hm. by destruct m. Qed.

Lemma touches_trans self h1 h2 h3 : touches self h1 h2 -> touches self h2 h3 -> touches self h1 h3.
Proof.
  intros H12 H23 i m Hi Hm. destruct (H12 i m Hi Hm) as (d & E). destruct (H23 i _ Hi E) as (d' & E').
  exists d'. rewrite E'. by destruct m.
Qed.

Lemma touches_insert self x h h' : touches self (<[self := x]> h) h' -> touches self h h'.
Proof. intros H i m Hi Hm. apply H; [done|]. by rewrite list_lookup_insert_ne. Qed.

Lemma touches_lists self h h' : same_lists h h' -> touches self h h'.
Proof. intros H i m _ Hm. by eapply same_lists_lookup. Qed.

Lemma touches_set self x h : touches self h (<[self := x]> h).
Proof. eapply touches_insert, touches_refl. Qed.

Lemma touches_pupd f self h h' : pupd f h self = Ok h' -> touches self h h'.
Proof. intros (m & _ & ->)%pupd_ok. apply touches_set. Qed.

Lemma touches_add ct self w pkt rd od src mp h h' :
  add ct self w pkt rd od src mp h = Ok h' -> touches self h h'.
Proof. intros (m & _ & Hs)%add_inv. by eapply touches_insert, touches_lists. Qed.

Create HintDb touches.
#[local] Hint Resolve touches_refl touches_set touches_pupd touches_add : touches.

(** An operation changes other MSHRs in [downstreamPending] only. *)
Lemma snoop_touches ct fresh self pkt ord h r h' :
  handleSnoop ct fresh self pkt ord h = Ok (r, h') -> touches self h h'.
Proof.
  intros H. unfold handleSnoop in H. inv_ok. destruct (negb (inService a) || _); inv_ok; [auto with touches|].
  eapply touches_insert. destruct (postInvalidate _); inv_ok; [auto with touches|]. destruct a0 as [p1 h1].
  assert (touches self (<[self := if Packet.needsExclusive pkt then a <| deferredTargets ::= replaceUpgrades |> else a]> h) h1) as H1.
  { destruct (pendingDirty _ || _); inv_ok; [|auto with touches]. destruct a0 as [cp p2]. inv_ok.
    eapply touches_trans; [by eapply touches_add|].
    destruct (Packet.needsExclusive p1); inv_ok; eauto with touches. }
  destruct (negb _ && _); inv_ok; [|done]. eapply touches_trans; [exact H1|]. eauto with touches.
Qed.

Lemma fill_touches self pkt h h' : handleFill self pkt h = Ok h' -> touches self h h'.
Proof.
  intros H. unfold handleFill in H. inv_ok. destruct (Packet.sharedAsserted pkt); inv_ok; [auto with touches|].
  destruct (negb a0 && _); inv_ok; [|auto with touches].
  match goal with E : clear_list _ _ _ = Ok _ |- _ => apply clear_list_same_lists in E as Hc end.
  eapply touches_trans; [by eapply touches_insert, touches_lists|]. eauto with touches.
Qed.

Lemma run_op_touches fresh ct self o h h' : run_op fresh ct self o h = Ok h' -> touches self h h'.
Proof.
  intros H. destruct o; simpl in H.
  - unfold allocate in H. inv_ok. eapply touches_insert. eauto with touches.
  - inv_ok. destruct a as [b h1]. inv_ok. unfold markInService in E. inv_ok. destruct a1; inv_ok; [auto with touches|].
    eapply touches_insert. destruct (negb _) in E3; inv_ok; [|auto with touches].
    by eapply touches_lists, clear_list_same_lists.
  - inv_ok. auto with touches.
  - unfold allocateTarget in H. inv_ok. destruct (must_defer pkt a); eauto with touches.
  - inv_ok. destruct a as [[b p] h1]. inv_ok. by eapply snoop_touches.
  - inv_ok. destruct a0 as [b m]. inv_ok. auto with touches.
  - by eapply fill_touches.
  - inv_ok. auto with touches.
Qed.

(** Sequences of operations: time, MSHR and operation. *)
Fixpoint run_ops (fresh : Z -> list Z) (ops : list (Z * nat * op)) (h : heap) : outcome heap :=
  match ops with
  | [] => Ok h
  | (ct, i, o) :: ops => h ← run_op fresh ct i o h; run_ops fresh ops h
  end.

(** Until its response arrives an MSHR gets targets and snoops; what happens to
    the others does not matter. *)
Definition waiting (self : nat) (x : Z * nat * op) : Prop :=
  let '(_, i, o) := x in
  i = self ->
  match o with
  | OpAllocateTarget pkt _ _ => Packet.isRequest pkt = true
  | OpSnoop _ _ => True
  | _ => False
  end.

(** The targets that requests of the sequence make when they are deferred. *)
Definition arrivals (self : nat) (ops : list (Z * nat * op)) : list Target :=
  omap (fun '(ct, i, o) =>
    match o with
    | OpAllocateTarget pkt w ord =>
        if decide (i = self) then Some (MkTarget ct w ord (replaceUpgrade pkt) FromCPU true) else None
    | _ => None
    end) ops.

(** A target, or what [replaceUpgrades] makes of it. *)
Definition same_target (t t' : Target) : Prop := t' = t \/ t' = t <| t_pkt ::= replaceUpgrade |>.

Lemma replaceUpgrade_idem pkt : replaceUpgrade (replaceUpgrade pkt) = replaceUpgrade pkt.
Proof. destruct pkt as [? []]; done. Qed.

Lemma same_target_trans t1 t2 t3 : same_target t1 t2 -> same_target t2 t3 -> same_target t1 t3.
Proof. intros [-> | ->] [-> | ->]; [by left|by right|by right|]. right. destruct t1. simpl. by rewrite replaceUpgrade_idem. Qed.

Lemma same_targets_trans l1 l2 l3 :
  Forall2 same_target l1 l2 -> Forall2 same_target l2 l3 -> Forall2 same_target l1 l3.
Proof.
  intros H. revert l3. induction H as [|t1 t2 l1 l2 Ht _ IH]; intros l3 H3; inversion H3; subst; constructor.
  - by eapply same_target_trans.
  - by apply IH.
Qed.

Lemma same_targets_replaced l : Forall2 same_target (items l) (items (replaceUpgrades l)).
Proof.
  unfold replaceUpgrades. destruct (negb _).
  - apply Forall_Forall2_diag, Forall_true. by left.
  - simpl. induction (items l) as [|t ts IH]; constructor; [by right|done].
Qed.

(** The MSHR after the snoop: [m1] is its state then, [arr] what arrived since. *)
Record recorded (m1 : MSHR) (arr : list Target) (m : MSHR) : Prop := {
  rc_service : inService m = true;
  rc_post : postInvalidate m = true;
  rc_cacheable : _isUncacheable m = false;
  rc_plain : hasUpgrade (deferredTargets m) = false;
  rc_deferred : items (deferredTargets m) = items (deferredTargets m1) ++ arr;
  rc_targets : Forall2 same_target (items (targets m1)) (items (targets m));
}.

Lemma recorded_flag m1 arr m d : recorded m1 arr m -> recorded m1 arr (m <| downstreamPending := d |>).
Proof. intros []. by split. Qed.

Lemma recorded_defers m1 arr m pkt : recorded m1 arr m -> must_defer pkt m = true.
Proof. intros []. unfold must_defer. by rewrite rc_service0, rc_post0, orb_true_r. Qed.

Lemma request_recorded ct self pkt w ord h m m1 arr h' :
  h !! self = Some m -> recorded m1 arr m -> Packet.isRequest pkt = true ->
  allocateTarget ct self pkt w ord h = Ok h' ->
  exists m', h' !! self = Some m' /\ recorded m1 (arr ++ [MkTarget ct w ord (replaceUpgrade pkt) FromCPU true]) m'.
Proof.
  intros Hm Hr Hreq H. unfold allocateTarget, pget in H. rewrite Hm in H. cbn [mbind outcome_bind] in H. inv_ok.
  rewrite (recorded_defers _ _ _ _ Hr), (rc_post _ _ _ Hr) in H. destruct (add_inv _ _ _ _ _ _ _ _ _ _ H) as (x & Ex & Hsl).
  rewrite Hm in Ex. injection Ex as <-. destruct (same_lists_insert_lookup _ _ _ _ _ Hm Hsl) as (d & Ed).
  eexists. split; [exact Ed|]. apply recorded_flag. destruct Hr. destruct (replaceUpgrade_ok pkt Hreq) as (Hu & _).
  split; simpl; try done; [|by rewrite add_flags_items, rc_deferred0, app_assoc].
  unfold add_flags. rewrite decide_False by done. unfold upgrading in Hu. rewrite Hu. by destruct (Packet.needsExclusive _).
Qed.

Lemma snoop_recorded ct fresh self pkt ord h m m1 arr r h' :
  h !! self = Some m -> recorded m1 arr m -> handleSnoop ct fresh self pkt ord h = Ok (r, h') ->
  exists m', h' !! self = Some m' /\ recorded m1 arr m'.
Proof.
  intros Hm Hr H. unfold handleSnoop, pget in H. rewrite Hm in H. cbn [mbind outcome_bind] in H.
  destruct Hr as [R1 R2 R3 R4 R5 R6]. rewrite R1 in H. cbn [negb orb] in H.
  pose proof (lookup_lt_Some _ _ _ Hm) as Hlt.
  assert (replaceUpgrades (deferredTargets m) = deferredTargets m) as Er by (unfold replaceUpgrades; by rewrite R4).
  destruct (Packet.isExpressSnoop pkt && downstreamPending m); inv_ok.
  - rewrite list_lookup_insert_eq by done. eexists. split; [done|]. destruct (Packet.needsExclusive pkt); [|by split].
    split; simpl; rewrite ?Er; try done. eapply same_targets_trans; [exact R6|apply same_targets_replaced].
  - assert (postInvalidate (if Packet.needsExclusive pkt then m <| deferredTargets ::= replaceUpgrades |> else m) = true) as Hp
      by (by destruct (Packet.needsExclusive pkt)).
    rewrite Hp in H. injection H as <- <-. rewrite list_lookup_insert_eq by done. eexists. split; [done|].
    destruct (Packet.needsExclusive pkt); [|by split]. split; simpl; by rewrite ?Er.
Qed.

Lemma run_ops_recorded fresh self m1 ops : forall arr h m h',
  h !! self = Some m -> recorded m1 arr m -> Forall (waiting self) ops -> run_ops fresh ops h = Ok h' ->
  exists m', h' !! self = Some m' /\ recorded m1 (arr ++ arrivals self ops) m'.
Proof.
  induction ops as [|[[ct i] o] ops IH]; intros arr h m h' Hm Hr Hw H; simpl in H.
  { injection H as <-. exists m. by rewrite app_nil_r. }
  apply Forall_cons in Hw as [Ho Hw]. apply bind_ok in H as (h1 & H1 & H).
  destruct (decide (i = self)) as [->|Hne].
  - specialize (Ho eq_refl). destruct o as [| | |pkt w ord|pkt ord| | |]; try done; simpl in H1.
    + destruct (request_recorded _ _ _ _ _ _ _ _ _ _ Hm Hr Ho H1) as (m' & Em' & Hr').
      destruct (IH _ _ _ _ Em' Hr' Hw H) as (m2 & E2 & Hr2). exists m2. split; [done|].
      cbn [arrivals omap list_omap]. rewrite decide_True by done. by rewrite <- app_assoc in Hr2.
    + apply bind_ok in H1 as ([r h2] & H1 & E). injection E as ->.
      destruct (snoop_recorded _ _ _ _ _ _ _ _ _ _ _ Hm Hr H1) as (m' & Em' & Hr'). eauto.
  - destruct (run_op_touches _ _ _ _ _ _ H1 self m (not_eq_sym Hne) Hm) as (d & Ed).
    destruct (IH _ _ _ _ Ed (recorded_flag _ _ _ d Hr) Hw H) as (m2 & E2 & Hr2). exists m2. split; [done|].
    destruct o; cbn [arrivals omap list_omap]; try done. by rewrite decide_False.
Qed.

Lemma arrivals_replaced self ops t :
  Forall (waiting self) ops -> t ∈ arrivals self ops ->
  exists pkt, Packet.isRequest pkt = true /\ t_pkt t = replaceUpgrade pkt.
Proof.
  intros Hw ([[ct i] o] & Hin & Ho)%list_elem_of_omap. rewrite Forall_forall in Hw. specialize (Hw _ Hin). simpl in Hw.
  destruct o as [| | |pkt w ord| | | |]; try done. destruct (decide (i = self)); [|done]. injection Ho as <-. eauto.
Qed.

(** C22: once an invalidating snoop has been recorded in an MSHR whose request is
    in service, the snoop is the last target served with the response, and every
    request that arrives before the response is deferred behind it. Whatever
    sequence of further requests and snoops reaches the MSHR, and whatever is done
    to the other MSHRs meanwhile, [postInvalidate] stays set, the targets served
    with the response stay the same (an upgrade among them can become the request
    that replaces it), the deferred targets are the old ones followed by the
    requests in the order of arrival with their upgrades replaced, so that no
    deferred CPU target is an upgrade of the copy that is about to go; and the next
    request can again be taken, unless the MSHR above that sent it is already
    marked as pending. *)
Theorem snoop_defers_later_targets ct fresh self pkt ord h m r pkt' h1 :
  h !! self = Some m -> sound m -> inService m = true -> _isUncacheable m = false ->
  Packet.isExpressSnoop pkt && downstreamPending m = false -> postInvalidate m = false ->
  Packet.needsExclusive pkt = true -> pendingDirty m || Packet.isInvalidate pkt = true ->
  handleSnoop ct fresh self pkt ord h = Ok (r, pkt', h1) ->
  r = true /\ exists m1 t, h1 !! self = Some m1 /\ postInvalidate m1 = true /\
    items (targets m1) = items (targets m) ++ [t] /\ source t = FromSnoop /\
    forall ops h2, Forall (waiting self) ops -> run_ops fresh ops h1 = Ok h2 ->
      exists m2, h2 !! self = Some m2 /\ postInvalidate m2 = true /\ inService m2 = true /\
        Forall2 same_target (items (targets m1)) (items (targets m2)) /\
        items (deferredTargets m2) = items (deferredTargets m1) ++ arrivals self ops /\
        (forall t', t' ∈ items (deferredTargets m2) -> source t' <> FromSnoop ->
          upgrading (t_pkt t') = false) /\
        forall ct' req w o, Packet.cmd req <> MemCmd.HardPFReq -> can_mark (replaceUpgrade req) h2 ->
          exists h3, allocateTarget ct' self req w o h2 = Ok h3.
Proof.
  intros Hm [_ He' _ Hu'] Hs Hc Hx Hp Hn Hd Hsn.
  destruct (snoop_in_service _ _ _ _ _ _ _ _ _ _ Hm Hs Hx Hp Hn Hd Hsn)
    as (-> & m1 & t & H1 & Hp1 & Hs1 & Hc1 & Ht & Hsrc & Hdef).
  destruct (replaceUpgrades_ok _ He' Hu') as (_ & _ & Hpl & _ & Hno). rewrite <- Hdef in Hpl, Hno.
  assert (recorded m1 [] m1) as Hr1.
  { split; try done; [congruence|by rewrite app_nil_r|]. apply Forall_Forall2_diag, Forall_true. by left. }
  split; [done|]. exists m1, t. split_and!; try done. intros ops h2 Hw Hrun.
  destruct (run_ops_recorded fresh self m1 ops [] h1 m1 h2 H1 Hr1 Hw Hrun) as (m2 & E2 & Hr2).
  pose proof Hr2 as [R1 R2 R3 R4 R5 R6]. exists m2. split_and!; try done.
  - intros t'. rewrite R5. intros [Ht'|Ht']%elem_of_app; [by apply Hno|]. intros _.
    destruct (arrivals_replaced self ops t' Hw Ht') as (p & Hreq & ->). by apply replaceUpgrade_ok.
  - intros ct' req w o Hpf Hmark. unfold allocateTarget, pget. rewrite E2. cbn [mbind outcome_bind].
    rewrite bool_decide_false, R3 by done. cbn [mbind outcome_bind ensure negb].
    rewrite (recorded_defers _ _ _ _ Hr2), R2. by eapply add_total.
Qed.

(** An upgrade and a snoop arrive while the first snoop waits. *)
Lemma snoop_defers_later_targets_witness :
  let pkt c := Packet.MkPacket 0 c Request.Request0 None 0 false 0 MemCmd.InvalidCmd [] 0 0 [] in
  let m := MSHR0 <| inService := true |>
             <| targets := MkTargetList [MkTarget 0 0 0 (pkt MemCmd.ReadReq) FromCPU true] false false |> in
  let ops := [(6, 0%nat, OpAllocateTarget (pkt MemCmd.UpgradeReq) 7 2); (7, 0%nat, OpSnoop (pkt MemCmd.ReadExReq) 3);
              (8, 0%nat, OpAllocateTarget (pkt MemCmd.ReadReq) 9 4)] in
  exists m1 t h2 m2,
    handleSnoop 5 (fun _ => []) 0 (pkt MemCmd.UpgradeReq) 1 [m] = Ok (true, pkt MemCmd.UpgradeReq, [m1]) /\
    items (targets m1) = items (targets m) ++ [t] /\
    run_ops (fun _ => []) ops [m1] = Ok h2 /\ h2 !! 0%nat = Some m2 /\
    (Packet.cmd ∘ t_pkt) <$> items (deferredTargets m2) = [MemCmd.ReadExReq; MemCmd.ReadReq].
Proof.
  intros pkt m ops.
  assert (exists m1, handleSnoop 5 (fun _ => []) 0 (pkt MemCmd.UpgradeReq) 1 [m] =
    Ok (true, pkt MemCmd.UpgradeReq, [m1])) as (m1 & E1) by (eexists; reflexivity).
  destruct (snoop_defers_later_targets 5 (fun _ => []) 0 (pkt MemCmd.UpgradeReq) 1 [m] m true
    (pkt MemCmd.UpgradeReq) [m1]) as (_ & m1' & t & H1 & _ & Ht & _ & Hlater);
    try reflexivity; try exact E1.
  { split; simpl; intros ?; try by intros ?%elem_of_nil.
    - by intros ->%list_elem_of_singleton.
    - done. }
  injection H1 as <-.
  assert (exists h2, run_ops (fun _ => []) ops [m1] = Ok h2) as (h2 & E2)
    by (vm_compute in E1; injection E1 as <-; eexists; vm_compute; reflexivity).
  destruct (Hlater ops h2) as (m2 & L2 & _ & _ & _ & Hi & _); [|exact E2|].
  { repeat constructor. }
  exists m1, t, h2, m2. split_and!; try done.
  rewrite Hi. vm_compute in E1. injection E1 as <-. reflexivity.
Defined.

(** A fill neither drops, duplicates nor reorders targets: the regular targets
    followed by the deferred ones are the same before and after. The deferred ones
    join the regular list exactly when the response is exclusive, no snoop took or
    downgraded the block in the meantime and one of them waits for an exclusive
    copy; the deferred list is then empty with clear flags. *)
Theorem handleFill_conserves_targets self pkt h m h' :
  h !! self = Some m -> handleFill self pkt h = Ok h' ->
  exists m', h' !! self = Some m' /\
    items (targets m') ++ items (deferredTargets m') =
      items (targets m) ++ items (deferredTargets m) /\
    (if negb (Packet.sharedAsserted pkt) && negb (postInvalidate m || postDowngrade m)
        && tl_needsExclusive (deferredTargets m)
     then needsExclusive m' = true /\ deferredTargets m' = TargetList0
     else h' = h).
Proof.
  intros Hm H. unfold handleFill, pget in H. rewrite Hm in H. cbn [mbind outcome_bind] in H.
  destruct (Packet.sharedAsserted pkt); simpl; [inv_ok; eauto|].
  unfold hasPostInvalidate, hasPostDowngrade in H. destruct (inService m); [|done].
  simpl in H. destruct (postInvalidate m); simpl in *; [inv_ok; eauto|].
  destruct (postDowngrade m); simpl in *; [inv_ok; eauto|].
  destruct (tl_needsExclusive (deferredTargets m)); [|inv_ok; eauto].
  apply bind_ok in H as (_ & _ & H). apply bind_ok in H as (_ & _ & H).
  apply bind_ok in H as (h1 & Hc & H). apply clear_list_same_lists in Hc.
  destruct (same_lists_insert_lookup _ _ _ _ _ Hm Hc) as (d & Ed).
  apply pupd_ok in H as (y & Ey & ->). rewrite Ed in Ey. injection Ey as <-.
  eexists. split; [rewrite list_lookup_insert_eq; [done|by eapply lookup_lt_Some]|].
  simpl. by rewrite app_nil_r.
Qed.

Lemma handleFill_conserves_targets_witness :
  let pkt c := Packet.MkPacket 0 c Request.Request0 None 0 false 0 MemCmd.InvalidCmd [] 0 0 [] in
  let tgt c := MkTarget 0 0 0 (pkt c) FromCPU false in
  let m := MSHR0 <| inService := true |>
             <| targets := MkTargetList [tgt MemCmd.ReadReq] false false |>
             <| deferredTargets := MkTargetList [tgt MemCmd.WriteReq; tgt MemCmd.ReadReq] true false |> in
  exists m', handleFill 0 (pkt MemCmd.ReadResp) [m] = Ok [m'] /\
    items (targets m') = [tgt MemCmd.ReadReq; tgt MemCmd.WriteReq; tgt MemCmd.ReadReq].
Proof.
  intros pkt tgt m.
  assert (exists m', handleFill 0 (pkt MemCmd.ReadResp) [m] = Ok [m']) as (m1 & E)
    by (eexists; reflexivity).
  destruct (handleFill_conserves_targets 0 (pkt MemCmd.ReadResp) [m] m [m1] eq_refl E)
    as (m' & Hm' & Hi & _ & Hd).
  injection Hm' as <-. exists m1. split; [exact E|].
  rewrite Hd in Hi. simpl in Hi. by rewrite app_nil_r in Hi.
Defined.

End MSHR.
