(* ===== verification/MSHRQueue.v ===== *)
(** The queue of miss status holding registers, [mem/cache/mshr_queue.hh] and
    [mshr_queue.cc], over the MSHRs of [MSHR]. *)
From stdpp Require Import base list sorting.
From S2P Require Import Prelude Request MemCmd Packet MSHR.
Local Open Scope Z_scope.

Module MSHRQueue.
Import MSHR.

(** ** State *)

(** [Drainable::State]. *)
Inductive DrainState := Running | Draining | Drained.

(** The registers of the queue are [numEntries] consecutive MSHRs of the heap,
    and the lists hold their positions. The iterators [allocIter] and
    [readyIter] of an MSHR are the places where it stands in the lists.
    [drainDone] collects the managers whose [signalDrainDone] was called. *)
Record MSHRQueue := MkQueue {
  numEntries : Z;
  numReserve : Z;
  demandReserve : Z;
  allocatedList : list nat;
  readyList : list nat;
  freeList : list nat;
  drainManager : option nat;
  drainState : DrainState;
  drainDone : list nat;
  allocated : Z;
  inServiceEntries : Z;
  index : Z;
}.
#[global] Instance eta_MSHRQueue : Eta MSHRQueue := fun q =>
  MkQueue (numEntries q) (numReserve q) (demandReserve q) (allocatedList q) (readyList q)
    (freeList q) (drainManager q) (drainState q) (drainDone q) (allocated q)
    (inServiceEntries q) (index q).

(** The constructor; [base] is the position of [registers[0]]. *)
Definition MSHRQueue_new (base : nat) (num_entries reserve demand_reserve _index : Z)
  : MSHRQueue :=
  let n := num_entries + reserve - 1 in
  MkQueue n reserve demand_reserve [] [] (seq base (Z.to_nat n)) None Running [] 0 0 _index.

(** ** Queries *)

Definition havePending (q : MSHRQueue) : bool :=
  negb (match readyList q with [] => true | _ => false end).
Definition isFull (q : MSHRQueue) : bool := allocated q >? numEntries q - numReserve q.
Definition canPrefetch (q : MSHRQueue) : bool :=
  allocated q <? numEntries q - (numReserve q + demandReserve q).

Definition getNextMSHR (curTick : Z) (h : heap) (q : MSHRQueue) : outcome (option nat) :=
  match readyList q with
  | [] => Ok None
  | i :: _ => m ← pget h i; Ok (if readyTime m >? curTick then None else Some i)
  end.

Definition nextMSHRReadyTime (MaxTick : Z) (h : heap) (q : MSHRQueue) : outcome Z :=
  match readyList q with
  | [] => Ok MaxTick
  | i :: _ => m ← pget h i; Ok (readyTime m)
  end.

(** The condition of [findMatch] and [findMatches]. *)
Definition is_match (blk_addr : Z) (is_secure : bool) (m : MSHR) : bool :=
  negb (isUncacheable m) && (blkAddr m =? blk_addr) && Bool.eqb (isSecure m) is_secure.

(** The first position of the list whose MSHR satisfies [p]. *)
Fixpoint find_first (p : MSHR -> bool) (h : heap) (l : list nat) : outcome (option nat) :=
  match l with
  | [] => Ok None
  | i :: l => m ← pget h i; if p m then Ok (Some i) else find_first p h l
  end.

Definition findMatch (blk_addr : Z) (is_secure : bool) (h : heap) (q : MSHRQueue)
  : outcome (option nat) :=
  find_first (is_match blk_addr is_secure) h (allocatedList q).

Fixpoint find_all (p : MSHR -> bool) (h : heap) (l : list nat) : outcome (list nat) :=
  match l with
  | [] => Ok []
  | i :: l =>
      m ← pget h i;
      r ← find_all p h l;
      Ok (if p m then i :: r else r)
  end.

Definition findMatches (blk_addr : Z) (is_secure : bool) (matches : list nat) (h : heap)
  (q : MSHRQueue) : outcome (bool * list nat) :=
  _ ← ensure AssertFailed (match matches with [] => true | _ => false end);
  matches ← find_all (is_match blk_addr is_secure) h (allocatedList q);
  Ok (negb (match matches with [] => true | _ => false end), matches).

Definition findPending (blk_addr : Z) (is_secure : bool) (h : heap) (q : MSHRQueue)
  : outcome (option nat) :=
  find_first (fun m => (blkAddr m =? blk_addr) && Bool.eqb (isSecure m) is_secure) h
    (readyList q).

(** The label pushed for the duration of the search only shows in printed
    output. *)
Fixpoint check_loop (pkt : Packet.Packet) (blk_addr : Z) (l : list nat) (h : heap)
  : outcome (bool * Packet.Packet * heap) :=
  match l with
  | [] => Ok (false, pkt, h)
  | i :: l =>
      m ← pget h i;
      if blkAddr m =? blk_addr then
        '(r, pkt, m) ← MSHR.checkFunctional pkt m;
        let h := <[i := m]> h in
        if r : bool then Ok (true, pkt, h) else check_loop pkt blk_addr l h
      else check_loop pkt blk_addr l h
  end.
Definition checkFunctional (pkt : Packet.Packet) (blk_addr : Z) (q : MSHRQueue) (h : heap)
  : outcome (bool * Packet.Packet * heap) :=
  check_loop pkt blk_addr (allocatedList q) h.

(** ** Operations *)

(** [erase] through the iterator kept in the MSHR [id]. *)
Fixpoint erase (id : nat) (l : list nat) : outcome (list nat) :=
  match l with
  | [] => Fail Undefined
  | i :: l => if decide (i = id) then Ok l else l ← erase id l; Ok (i :: l)
  end.

(** The loop of [addToReadyList]; running off the end is the [assert(false)]. *)
Fixpoint insert_before_later (h : heap) (t : Z) (id : nat) (l : list nat)
  : outcome (list nat) :=
  match l with
  | [] => Fail AssertFailed
  | i :: l =>
      m ← pget h i;
      if readyTime m >? t then Ok (id :: i :: l)
      else l ← insert_before_later h t id l; Ok (i :: l)
  end.

Definition addToReadyList (h : heap) (id : nat) (q : MSHRQueue) : outcome MSHRQueue :=
  m ← pget h id;
  app ← match last (readyList q) with
        | None => Ok true
        | Some b => bm ← pget h b; Ok (readyTime bm <=? readyTime m)
        end;
  if app : bool then Ok (q <| readyList := readyList q ++ [id] |>)
  else
    l ← insert_before_later h (readyTime m) id (readyList q);
    Ok (q <| readyList := l |>).

Definition allocate (curTick : Z) (blk_addr blk_size : Z) (pkt : Packet.Packet)
  (when_ready ord : Z) (q : MSHRQueue) (h : heap) : outcome (nat * MSHRQueue * heap) :=
  match freeList q with
  | [] => Fail AssertFailed
  | id :: free =>
      m ← pget h id;
      _ ← ensure AssertFailed (getNumTargets m =? 0);
      h ← MSHR.allocate curTick id blk_addr blk_size pkt when_ready ord h;
      let q := q <| freeList := free |> <| allocatedList := allocatedList q ++ [id] |> in
      q ← addToReadyList h id q;
      Ok (id, q <| allocated ::= Z.add 1 |>, h)
  end.

Definition deallocateOne (id : nat) (q : MSHRQueue) (h : heap) : outcome (MSHRQueue * heap) :=
  al ← erase id (allocatedList q);
  let q := q <| allocatedList := al |> <| freeList ::= cons id |>
             <| allocated := allocated q - 1 |> in
  m ← pget h id;
  q ← (if inService m then Ok (q <| inServiceEntries := inServiceEntries q - 1 |>)
       else rl ← erase id (readyList q); Ok (q <| readyList := rl |>));
  m ← MSHR.deallocate m;
  let h := <[id := m]> h in
  match drainManager q with
  | Some dm =>
      if allocated q =? 0
      then Ok (q <| drainDone ::= cons dm |> <| drainManager := None |>
                 <| drainState := Drained |>, h)
      else Ok (q, h)
  | None => Ok (q, h)
  end.

Definition deallocate (id : nat) (q : MSHRQueue) (h : heap) : outcome (MSHRQueue * heap) :=
  deallocateOne id q h.

Definition moveToFront (id : nat) (q : MSHRQueue) (h : heap) : outcome MSHRQueue :=
  m ← pget h id;
  if negb (inService m) then
    rl ← erase id (readyList q);
    Ok (q <| readyList := id :: rl |>)
  else Ok q.

Definition markInService (id : nat) (pending_dirty_resp : bool) (q : MSHRQueue) (h : heap)
  : outcome (MSHRQueue * heap) :=
  '(done, h) ← MSHR.markInService id pending_dirty_resp h;
  if done : bool then deallocate id q h
  else
    rl ← erase id (readyList q);
    Ok (q <| readyList := rl |> <| inServiceEntries ::= Z.add 1 |>, h).

Definition markPending (id : nat) (q : MSHRQueue) (h : heap) : outcome (MSHRQueue * heap) :=
  m ← pget h id;
  _ ← ensure AssertFailed (inService m);
  let h := <[id := m <| inService := false |>]> h in
  q ← addToReadyList h id (q <| inServiceEntries := inServiceEntries q - 1 |>);
  Ok (q, h).

Definition forceDeallocateTarget (curTick : Z) (id : nat) (q : MSHRQueue) (h : heap)
  : outcome (bool * MSHRQueue * heap) :=
  let was_full := isFull q in
  m ← pget h id;
  _ ← ensure AssertFailed (hasTargets m);
  m ← popTarget m;
  '(q, h) ←
    (if hasTargets m then Ok (q, <[id := m]> h)
     else
       '(b, m) ← promoteDeferredTargets curTick m;
       if b : bool then Ok (q, <[id := m]> h) else deallocateOne id q (<[id := m]> h));
  Ok (was_full && negb (isFull q), q, h).

(** The inner loop of [squash]: each target popped has to belong to thread 0. *)
Fixpoint pop_all (tid : Z) (ts : list Target) : outcome (list Target) :=
  match ts with
  | [] => Ok []
  | _ :: ts => _ ← ensure AssertFailed (0 =? tid); pop_all tid ts
  end.

(** [deallocateOne] returns the position after the erased one, so the loop meets
    the entries of the list in order. *)
Fixpoint squash_loop (tid : Z) (l : list nat) (q : MSHRQueue) (h : heap)
  : outcome (MSHRQueue * heap) :=
  match l with
  | [] => Ok (q, h)
  | id :: l =>
      m ← pget h id;
      if threadNum m =? tid then
        ts ← pop_all tid (items (targets m));
        let m := m <| targets ::= (fun tl => tl <| items := ts |>) |> in
        _ ← ensure AssertFailed (getNumTargets m =? 0);
        let h := <[id := m]> h in
        '(q, h) ← (if negb (inService m) then deallocateOne id q h else Ok (q, h));
        squash_loop tid l q h
      else squash_loop tid l q h
  end.
Definition squash (tid : Z) (q : MSHRQueue) (h : heap) : outcome (MSHRQueue * heap) :=
  squash_loop tid (allocatedList q) q h.

Definition drain (dm : nat) (q : MSHRQueue) : Z * MSHRQueue :=
  if allocated q =? 0 then (0, q <| drainState := Drained |>)
  else (1, q <| drainManager := Some dm |> <| drainState := Draining |>).

(** ** The invariant *)

(** An MSHR that is not allocated. *)
Definition idle (m : MSHR) : Prop :=
  getNumTargets m = 0 /\ isReset (targets m) = true /\ isReset (deferredTargets m) = true.

(** The flags of an empty deferred list are clear. *)
Definition deferred_ok (m : MSHR) : Prop :=
  items (deferredTargets m) = [] -> isReset (deferredTargets m) = true.

(** The registers are split between the allocated and the free list, the ready
    list has the allocated ones whose request is not in service, and the
    counters count. *)
Record qinv (base : nat) (q : MSHRQueue) (h : heap) : Prop := {
  qi_split : allocatedList q ++ freeList q ≡ₚ seq base (Z.to_nat (numEntries q));
  qi_regs : forall i, i ∈ allocatedList q \/ i ∈ freeList q ->
              exists m, h !! i = Some m /\ deferred_ok m;
  qi_free : forall i m, i ∈ freeList q -> h !! i = Some m -> idle m;
  qi_nodup : NoDup (readyList q);
  qi_ready : forall i m, h !! i = Some m ->
               i ∈ readyList q <-> i ∈ allocatedList q /\ inService m = false;
  qi_alloc : allocated q = Z.of_nat (length (allocatedList q));
  qi_serv : inServiceEntries q =
              Z.of_nat (length (allocatedList q)) - Z.of_nat (length (readyList q));
  qi_bound : forall i, i ∈ readyList q -> i ∈ allocatedList q;
}.

#[export] Instance same_lists_preorder : PreOrder same_lists.
Proof.
  split.
  - intros h. apply Forall_Forall2_diag, Forall_true. intros m.
    exists (downstreamPending m). by destruct m.
  - intros h1 h2 h3 H12. revert h3. induction H12 as [|m1 m2 h1 h2 (d & ->) H12 IH]; intros h3 H23.
    + exact H23.
    + inversion H23 as [|? m3 ? h3' (d' & ->) H23']; subst. constructor; [|by apply IH].
      exists d'. by destruct m1.
Qed.

Lemma same_lists_sym_lookup h h' i m' :
  same_lists h h' -> h' !! i = Some m' ->
  exists m d, h !! i = Some m /\ m' = m <| downstreamPending := d |>.
Proof.
  intros H Hm. destruct (Forall2_lookup_r _ _ _ _ _ H Hm) as (m & E & d & ->). eauto.
Qed.

Lemma qinv_same_lists base q h h' : same_lists h h' -> qinv base q h -> qinv base q h'.
Proof.
  intros Hs [H1 H2 H3 H4 H5 H6 H7 H8]. split; try done.
  - intros i Hi. destruct (H2 i Hi) as (m & Em & Hd).
    destruct (same_lists_lookup _ _ _ _ Hs Em) as (d & ->). eauto.
  - intros i m' Hi (m & d & Em & ->)%(same_lists_sym_lookup _ _ _ _ Hs). by apply (H3 i m).
  - intros i m' (m & d & Em & ->)%(same_lists_sym_lookup _ _ _ _ Hs). by apply (H5 i m).
Qed.

Lemma qinv_disjoint base q h i : qinv base q h -> i ∈ allocatedList q -> i ∈ freeList q -> False.
Proof.
  intros [H1 _ _ _ _ _ _ _] Ha Hf.
  assert (NoDup (allocatedList q ++ freeList q)) as Hn by (rewrite H1; apply NoDup_seq).
  apply NoDup_app in Hn as (_ & Hn & _). by eapply Hn.
Qed.

Lemma qinv_nodup_alloc base q h : qinv base q h -> NoDup (allocatedList q).
Proof.
  intros [H1 _ _ _ _ _ _ _].
  assert (NoDup (allocatedList q ++ freeList q)) as Hn by (rewrite H1; apply NoDup_seq).
  by apply NoDup_app in Hn as (? & _ & _).
Qed.

Lemma lookup_insert_cases (h : heap) i j x m :
  <[i := x]> h !! j = Some m -> j = i /\ m = x \/ j <> i /\ h !! j = Some m.
Proof.
  intros E. destruct (decide (j = i)) as [->|Hne].
  - left. split; [done|]. rewrite list_lookup_insert_eq in E; [by injection E|].
    apply lookup_lt_Some in E. by rewrite length_insert in E.
  - right. by rewrite list_lookup_insert_ne in E by done.
Qed.

(** Changing an allocated register without touching [inService]. *)
Lemma qinv_update base q h id m x :
  qinv base q h -> h !! id = Some m -> id ∈ allocatedList q ->
  inService x = inService m -> deferred_ok x -> qinv base q (<[id := x]> h).
Proof.
  intros Hq Hm Hid Hs Hx. pose proof Hq as [H1 H2 H3 H4 H5 H6 H7 H8]. split; try done.
  - intros i Hi. destruct (decide (i = id)) as [->|Hne].
    + exists x. rewrite list_lookup_insert_eq; [done|]. by eapply lookup_lt_Some.
    + rewrite list_lookup_insert_ne by done. auto.
  - intros i m' Hi [(-> & ->)|(Hne & Em)]%lookup_insert_cases; [|by apply (H3 i)].
    destruct (qinv_disjoint _ _ _ _ Hq Hid Hi).
  - intros i m' [(-> & ->)|(Hne & Em)]%lookup_insert_cases; [|by apply H5].
    rewrite Hs. by apply H5.
Qed.

Lemma erase_inv id l l' : erase id l = Ok l' -> l ≡ₚ id :: l'.
Proof.
  revert l'. induction l as [|i l IH]; intros l' H; simpl in H; [done|].
  destruct (decide (i = id)) as [->|Hne]; [by injection H as ->|]. inv_ok.
  rewrite (IH _ E). apply Permutation_swap.
Qed.

Lemma erase_total id l : id ∈ l -> exists l', erase id l = Ok l'.
Proof.
  induction l as [|i l IH]; [by intros ?%elem_of_nil|]. simpl.
  destruct (decide (i = id)) as [->|Hne]; [eauto|]. intros [?|Hin]%elem_of_cons; [done|].
  destruct (IH Hin) as (l' & ->). simpl. eauto.
Qed.

Lemma erase_elem id l l' :
  NoDup l -> erase id l = Ok l' -> NoDup l' /\ forall i, i ∈ l' <-> i ∈ l /\ i <> id.
Proof.
  intros Hn H%erase_inv. rewrite H in Hn. apply NoDup_cons in Hn as [Hid Hn]. split; [done|].
  intros i. rewrite H, elem_of_cons. naive_solver.
Qed.

Lemma insert_before_later_perm h t id l l' :
  insert_before_later h t id l = Ok l' -> l' ≡ₚ id :: l.
Proof.
  revert l'. induction l as [|i l IH]; intros l' H; simpl in H; [done|]. inv_ok.
  destruct (readyTime a >? t); inv_ok; [done|]. rewrite (IH _ E0). apply Permutation_swap.
Qed.

Lemma addToReadyList_inv h id q q' :
  addToReadyList h id q = Ok q' -> exists l, q' = q <| readyList := l |> /\ l ≡ₚ id :: readyList q.
Proof.
  unfold addToReadyList. intros H. inv_ok. destruct a0; inv_ok.
  - eexists. split; [done|]. by rewrite Permutation_app_comm.
  - eexists. split; [done|]. by eapply insert_before_later_perm.
Qed.

Lemma insert_before_later_total h t id l :
  (forall i, i ∈ l -> exists m, h !! i = Some m) ->
  (exists i m, i ∈ l /\ h !! i = Some m /\ readyTime m > t) ->
  exists l', insert_before_later h t id l = Ok l'.
Proof.
  induction l as [|i l IH]; intros Hr (j & mj & Hj & Ej & Ht); [by apply elem_of_nil in Hj|].
  simpl. destruct (Hr i ltac:(by left)) as (m & Em). unfold pget. rewrite Em.
  cbn [mbind outcome_bind]. destruct (readyTime m >? t) eqn:E; [eauto|].
  apply elem_of_cons in Hj as [->|Hj]; [rewrite Ej in Em; injection Em as ->; lia|].
  destruct IH as (l' & ->); [intros k Hk; apply Hr; by right|eauto|]. simpl. eauto.
Qed.

(** The [assert(false)] at the end of [addToReadyList] is not reached. *)
Lemma addToReadyList_total h id q m :
  h !! id = Some m -> (forall i, i ∈ readyList q -> exists m, h !! i = Some m) ->
  exists q', addToReadyList h id q = Ok q'.
Proof.
  intros Hm Hr. unfold addToReadyList, pget. rewrite Hm. cbn [mbind outcome_bind].
  destruct (last (readyList q)) as [b|] eqn:El; cbn [mbind outcome_bind]; [|eauto].
  apply last_Some in El as (l & El). assert (b ∈ readyList q) as Hb.
  { rewrite El. apply elem_of_app. right. by left. }
  destruct (Hr b Hb) as (bm & Eb). rewrite Eb. cbn [mbind outcome_bind].
  destruct (readyTime bm <=? readyTime m) eqn:Et; [eauto|].
  destruct (insert_before_later_total h (readyTime m) id (readyList q) Hr) as (l' & ->).
  { exists b, bm. split_and!; try done. lia. }
  simpl. eauto.
Qed.

(** Where the entry goes: with the ready list in order of ready time, the order
    is kept. *)
Definition ready_time (h : heap) (i : nat) : Z :=
  match h !! i with Some m => readyTime m | None => 0 end.
Definition ready_le (h : heap) (i j : nat) : Prop := ready_time h i <= ready_time h j.

Lemma insert_before_later_sorted h t id l l' :
  ready_time h id = t -> StronglySorted (ready_le h) l ->
  insert_before_later h t id l = Ok l' -> StronglySorted (ready_le h) l'.
Proof.
  intros Ht. revert l'. induction l as [|i l IH]; intros l' Hs H; simpl in H; [done|].
  inversion Hs as [|? ? Hs' Hall]; subst. inv_ok. apply pget_ok in E.
  assert (ready_time h i = readyTime a) as Hi by (unfold ready_time; by rewrite E).
  destruct (readyTime a >? ready_time h id) eqn:Eg; inv_ok.
  - constructor; [done|]. constructor; [unfold ready_le; lia|].
    eapply Forall_impl; [exact Hall|]. unfold ready_le. intros; lia.
  - constructor; [by apply IH|]. rewrite (insert_before_later_perm _ _ _ _ _ E0).
    constructor; [unfold ready_le; lia|done].
Qed.

Lemma addToReadyList_sorted h id q q' :
  StronglySorted (ready_le h) (readyList q) -> addToReadyList h id q = Ok q' ->
  StronglySorted (ready_le h) (readyList q').
Proof.
  intros Hs H. unfold addToReadyList in H. inv_ok. apply pget_ok in E.
  assert (ready_time h id = readyTime a) as Hi by (unfold ready_time; by rewrite E).
  destruct a0; inv_ok; simpl; [|by eapply insert_before_later_sorted].
  destruct (last (readyList q)) as [b|] eqn:El.
  2:{ apply last_None in El as ->. repeat constructor. }
  apply bind_ok in E0 as (bm & E1 & Hle). apply pget_ok in E1. injection Hle as Hle.
  assert (ready_time h b = readyTime bm) as Hb by (unfold ready_time; by rewrite E1).
  apply last_Some in El as (l & El). rewrite El in Hs |- *.
  clear El. induction l as [|i l IH]; simpl in *.
  - repeat constructor. unfold ready_le. lia.
  - inversion Hs as [|? ? Hs' Hall]; subst. constructor; [by apply IH|].
    apply Forall_app in Hall as [Hl Hb']. inversion Hb' as [|? ? Hib]; subst.
    unfold ready_le in *. repeat (apply Forall_app; split); try done; repeat constructor; lia.
Qed.

(** ** The operations preserve the invariant *)

Lemma qinv_allocate base q h id free m x l :
  qinv base q h -> freeList q = id :: free -> h !! id = Some m ->
  inService x = false -> deferred_ok x -> l ≡ₚ id :: readyList q ->
  qinv base (q <| freeList := free |> <| allocatedList := allocatedList q ++ [id] |>
               <| readyList := l |> <| allocated ::= Z.add 1 |>) (<[id := x]> h).
Proof.
  intros Hq Hf Hm Hx Hd Hl. pose proof Hq as [H1 H2 H3 H4 H5 H6 H7 H8].
  assert (id ∉ allocatedList q) as Hna.
  { intros Ha. apply (qinv_disjoint _ _ _ _ Hq Ha). rewrite Hf. by left. }
  assert (id ∉ free) as Hnf.
  { assert (NoDup (allocatedList q ++ freeList q)) as Hn by (rewrite H1; apply NoDup_seq).
    apply NoDup_app in Hn as (_ & _ & Hn). rewrite Hf in Hn. by apply NoDup_cons in Hn as [? _]. }
  split; simpl.
  - rewrite <- app_assoc. simpl. by rewrite <- Hf.
  - intros i Hi. destruct (decide (i = id)) as [->|Hne].
    + exists x. rewrite list_lookup_insert_eq; [done|]. by eapply lookup_lt_Some.
    + rewrite list_lookup_insert_ne by done. apply H2. rewrite Hf, elem_of_cons.
      rewrite elem_of_app, list_elem_of_singleton in Hi. naive_solver.
  - intros i m' Hi [(-> & ->)|(Hne & Em)]%lookup_insert_cases; [done|].
    apply (H3 i); [|done]. rewrite Hf. by right.
  - rewrite Hl. constructor; [|done]. intros ?%H8. done.
  - intros i m'. rewrite Hl, elem_of_cons, elem_of_app, list_elem_of_singleton.
    intros [(-> & ->)|(Hne & Em)]%lookup_insert_cases; [naive_solver|].
    rewrite (H5 i m' Em). naive_solver.
  - rewrite H6, length_app. simpl. lia.
  - rewrite H7, Hl, length_app. simpl. lia.
  - intros i. rewrite Hl, elem_of_cons, elem_of_app, list_elem_of_singleton.
    intros [->|Hi]; auto.
Qed.

Lemma mshr_allocate_inv ct id a s pkt w ord h h' :
  MSHR.allocate ct id a s pkt w ord h = Ok h' ->
  exists m x, h !! id = Some m /\ same_lists (<[id := x]> h) h' /\ inService x = false /\
    isReset (deferredTargets x) = true /\
    blkAddr x = a /\ _isUncacheable x = Request.isUncacheable (Packet.req pkt) /\
    Packet.isSecure pkt = Ok (isSecure x) /\ readyTime x = w.
Proof.
  unfold MSHR.allocate. intros H. apply bind_ok in H as (sec & Hsec & H).
  apply bind_ok in H as (m & Em & H). apply pget_ok in Em.
  apply bind_ok in H as ([] & _ & H). apply bind_ok in H as (h1 & Hadd & H).
  apply bind_ok in H as (m1 & Em1 & H). apply pget_ok in Em1.
  apply bind_ok in H as ([] & Hr & H). apply ensure_ok in Hr. injection H as <-.
  apply add_inv in Hadd as (x0 & Ex & Hs).
  rewrite list_lookup_insert_eq in Ex by by eapply lookup_lt_Some. injection Ex as <-.
  rewrite list_insert_insert_eq in Hs.
  destruct (same_lists_insert_lookup _ _ _ _ _ Em Hs) as (d & Ed).
  rewrite Ed in Em1. injection Em1 as <-.
  eexists m, _. split_and!; [done|exact Hs|..]; done.
Qed.

Lemma allocate_qinv base ct a s pkt w ord q h id q' h' :
  qinv base q h -> allocate ct a s pkt w ord q h = Ok (id, q', h') -> qinv base q' h'.
Proof.
  intros Hq H. unfold allocate in H. destruct (freeList q) as [|i free] eqn:Hf; [done|].
  apply bind_ok in H as (m & Em & H). apply pget_ok in Em.
  apply bind_ok in H as ([] & _ & H). apply bind_ok in H as (h1 & Hal & H).
  apply bind_ok in H as (q1 & Hq1 & H). injection H as -> <- <-.
  apply mshr_allocate_inv in Hal as (m0 & x & E0 & Hs & Hx & Hr & _).
  apply addToReadyList_inv in Hq1 as (l & -> & Hl).
  eapply qinv_same_lists; [exact Hs|].
  apply (qinv_allocate base q h id free m x l); try done. by intros _.
Qed.

(** What [deallocateOne] does to the lists and counters, the drain aside. *)
Lemma deallocateOne_inv id q h q' h' :
  deallocateOne id q h = Ok (q', h') ->
  exists al rl m m', erase id (allocatedList q) = Ok al /\ h !! id = Some m /\
    MSHR.deallocate m = Ok m' /\ h' = <[id := m']> h /\
    (if inService m then rl = readyList q else erase id (readyList q) = Ok rl) /\
    allocatedList q' = al /\ freeList q' = id :: freeList q /\ readyList q' = rl /\
    numEntries q' = numEntries q /\ numReserve q' = numReserve q /\
    allocated q' = allocated q - 1 /\
    inServiceEntries q' = inServiceEntries q - (if inService m then 1 else 0).
Proof.
  unfold deallocateOne. intros H. apply bind_ok in H as (al & Ha & H).
  apply bind_ok in H as (m & Em & H). apply pget_ok in Em.
  apply bind_ok in H as (q1 & Hq1 & H). apply bind_ok in H as (m' & Em' & H).
  exists al, (readyList q1), m, m'.
  assert (h' = <[id := m']> h /\ allocatedList q' = allocatedList q1 /\
    freeList q' = freeList q1 /\ readyList q' = readyList q1 /\ numEntries q' = numEntries q1 /\
    numReserve q' = numReserve q1 /\ allocated q' = allocated q1 /\
    inServiceEntries q' = inServiceEntries q1) as (-> & -> & -> & -> & -> & -> & -> & ->).
  { destruct (drainManager q1); [destruct (allocated q1 =? 0)|]; by injection H as <- <-. }
  destruct (inService m).
  - injection Hq1 as <-. by split_and!.
  - apply bind_ok in Hq1 as (rl & Hrl & Hq1). injection Hq1 as <-. split_and!; try done. simpl. lia.
Qed.

Lemma mshr_deallocate_inv m m' :
  MSHR.deallocate m = Ok m' -> getNumTargets m = 0 ->
  idle m' /\ deferred_ok m' /\ inService m' = false.
Proof.
  unfold MSHR.deallocate. intros H Hn. inv_ok.
  split_and!; [split_and!; done|intros ?; done|done].
Qed.

Lemma deallocateOne_qinv base id q h q' h' m :
  qinv base q h -> h !! id = Some m -> getNumTargets m = 0 ->
  deallocateOne id q h = Ok (q', h') -> qinv base q' h'.
Proof.
  intros Hq Hm Hn (al & rl & m1 & m' & Hal & Em & Hde & -> & Hrl & E1 & E2 & E3 & E4 & _ & E6 & E7)
    %deallocateOne_inv. rewrite Hm in Em. injection Em as <-.
  pose proof Hq as [H1 H2 H3 H4 H5 H6 H7 H8].
  destruct (mshr_deallocate_inv _ _ Hde Hn) as (Hi & Hd & Hs').
  destruct (erase_elem _ _ _ (qinv_nodup_alloc _ _ _ Hq) Hal) as [_ Hel].
  pose proof (erase_inv _ _ _ Hal) as Pal.
  assert (id ∈ allocatedList q) as Hid by (rewrite Pal; by left).
  assert (NoDup rl /\ (forall i, i ∈ rl <-> i ∈ readyList q /\ i <> id) /\
    Z.of_nat (length rl) = Z.of_nat (length (readyList q)) - (if inService m then 0 else 1))
    as (Nrl & Rel & Rlen).
  { destruct (inService m) eqn:Es.
    - subst rl. split_and!; [done| |lia]. intros i. split; [|by intros []]. intros Hr.
      split; [done|]. intros ->. apply (H5 id m Hm) in Hr as [_ Hr]. congruence.
    - destruct (erase_elem _ _ _ H4 Hrl) as [? ?]. split_and!; try done.
      rewrite (erase_inv _ _ _ Hrl). simpl. lia. }
  split; rewrite ?E1, ?E2, ?E3, ?E4.
  - rewrite <- H1, Pal. simpl. by rewrite <- Permutation_middle.
  - intros i Hi'. destruct (decide (i = id)) as [->|Hne].
    + exists m'. rewrite list_lookup_insert_eq; [done|]. by eapply lookup_lt_Some.
    + rewrite list_lookup_insert_ne by done. apply H2. rewrite elem_of_cons, Hel in Hi'.
      naive_solver.
  - intros i x [->|Hf]%elem_of_cons [(? & ->)|(Hne & Ex)]%lookup_insert_cases; try done.
    by apply (H3 i).
  - done.
  - intros i x. rewrite Rel, Hel. intros [(-> & ->)|(Hne & Ex)]%lookup_insert_cases; [naive_solver|].
    rewrite (H5 i x Ex). naive_solver.
  - rewrite E6, H6, Pal. simpl. lia.
  - rewrite E7, H7, Pal. simpl. destruct (inService m); lia.
  - intros i. rewrite Rel, Hel. naive_solver.
Qed.

Lemma moveToFront_qinv base id q h q' :
  qinv base q h -> moveToFront id q h = Ok q' -> qinv base q' h.
Proof.
  intros [H1 H2 H3 H4 H5 H6 H7 H8] H. unfold moveToFront in H. inv_ok.
  destruct (negb (inService a)); inv_ok; [|done]. apply erase_inv in E0.
  split; try done; cbn.
  - by rewrite <- E0.
  - intros i m Hm. rewrite <- E0. by apply H5.
  - rewrite H7, E0. simpl. lia.
  - intros i. rewrite <- E0. apply H8.
Qed.

(** Moving a register between the ready ones and those in service. *)
Lemma qinv_set_service base q h id m x rl n :
  qinv base q h -> h !! id = Some m -> id ∈ allocatedList q ->
  inService x = negb (inService m) -> deferred_ok x ->
  (if inService m then rl ≡ₚ id :: readyList q else readyList q ≡ₚ id :: rl) ->
  n = inServiceEntries q + (if inService m then -1 else 1) ->
  qinv base (q <| readyList := rl |> <| inServiceEntries := n |>) (<[id := x]> h).
Proof.
  intros Hq Hm Hid Hs Hd Hrl ->. pose proof Hq as [H1 H2 H3 H4 H5 H6 H7 H8].
  assert (inService m = true -> id ∉ readyList q) as Hno.
  { intros Es Hr. apply (H5 id m Hm) in Hr as [_ Hr]. congruence. }
  assert (NoDup rl /\ (forall i, i ∈ rl <-> if decide (i = id) then inService m = true
      else i ∈ readyList q) /\ Z.of_nat (length rl) = Z.of_nat (length (readyList q)) +
      (if inService m then 1 else -1)) as (Nrl & Rel & Rlen).
  { destruct (inService m).
    - rewrite Hrl. split_and!; [by constructor; [apply Hno|]| |simpl; lia].
      intros i. rewrite Hrl, elem_of_cons. destruct (decide (i = id)); naive_solver.
    - rewrite Hrl in H4. apply NoDup_cons in H4 as [Hni Hn].
      split_and!; [done| |rewrite Hrl; simpl; lia].
      intros i. destruct (decide (i = id)); rewrite ?Hrl, ?elem_of_cons; naive_solver. }
  split; simpl; try done.
  - intros i Hi. destruct (decide (i = id)) as [->|Hne].
    + exists x. rewrite list_lookup_insert_eq; [done|]. by eapply lookup_lt_Some.
    + rewrite list_lookup_insert_ne by done. auto.
  - intros i m' Hi [(-> & ->)|(Hne & Em)]%lookup_insert_cases; [|by apply (H3 i)].
    destruct (qinv_disjoint _ _ _ _ Hq Hid Hi).
  - intros i m'. rewrite Rel. intros [(-> & ->)|(Hne & Em)]%lookup_insert_cases.
    + rewrite decide_True, Hs by done. destruct (inService m); naive_solver.
    + rewrite decide_False by done. by apply H5.
  - rewrite H7. destruct (inService m); lia.
  - intros i. rewrite Rel. destruct (decide (i = id)) as [->|]; [done|]. apply H8.
Qed.

Lemma popTarget_inv m m' :
  popTarget m = Ok m' ->
  inService m' = inService m /\ deferredTargets m' = deferredTargets m /\
  getNumTargets m' = getNumTargets m - 1.
Proof.
  unfold popTarget, getNumTargets. destruct (items (targets m)) as [|t l]; [done|].
  intros [= <-]. simpl. split_and!; [done..|lia].
Qed.

Lemma mshr_markInService_inv id d h b h1 :
  MSHR.markInService id d h = Ok (b, h1) ->
  exists m x, h !! id = Some m /\ same_lists (<[id := x]> h) h1 /\ inService m = false /\
    deferredTargets x = deferredTargets m /\
    if b : bool then inService x = false /\ getNumTargets x = 0 /\ h1 = <[id := x]> h
    else inService x = true.
Proof.
  unfold MSHR.markInService. intros H. apply bind_ok in H as (m & Em & H). apply pget_ok in Em.
  apply bind_ok in H as ([] & Hs & H). apply ensure_ok, negb_true_iff in Hs.
  apply bind_ok in H as (f & _ & H). exists m. destruct f.
  - apply bind_ok in H as ([] & Hn & H). apply ensure_ok in Hn.
    apply bind_ok in H as (m' & Hp & H). injection H as <- <-.
    destruct (popTarget_inv _ _ Hp) as (E1 & E2 & E3). exists m'.
    split_and!; try done; [congruence|lia].
  - apply bind_ok in H as (h2 & Hc & H). injection H as <- <-. eexists. split; [done|]. split.
    + destruct (negb _) in Hc; [by eapply clear_list_same_lists|]. by injection Hc as <-.
    + done.
Qed.

Lemma qinv_deferred_ok base q h id m :
  qinv base q h -> id ∈ allocatedList q -> h !! id = Some m -> deferred_ok m.
Proof.
  intros Hq Hid Hm. destruct (qi_regs _ _ _ Hq id) as (x & Ex & Hx); [by left|]. rewrite Hm in Ex. by injection Ex as ->.
Qed.

Lemma markInService_qinv base id d q h q' h' :
  qinv base q h -> id ∈ allocatedList q -> markInService id d q h = Ok (q', h') ->
  qinv base q' h'.
Proof.
  intros Hq Hid H. unfold markInService in H. apply bind_ok in H as ([b h1] & Hm & H).
  apply mshr_markInService_inv in Hm as (m & x & Em & Hs & Hns & Hd & Hb).
  assert (deferred_ok x) as Hx.
  { unfold deferred_ok. rewrite Hd. by apply (qinv_deferred_ok base q h id). }
  destruct b.
  - destruct Hb as (Hxs & Hx0 & ->).
    eapply (deallocateOne_qinv base id q (<[id := x]> h)); [..|exact Hx0|exact H].
    + apply (qinv_update _ _ _ _ m); [done..|congruence|done].
    + rewrite list_lookup_insert_eq; [done|]. by eapply lookup_lt_Some.
  - apply bind_ok in H as (rl & Hrl & H). injection H as <- <-.
    eapply qinv_same_lists; [exact Hs|].
    apply (qinv_set_service base q h id m x rl (1 + inServiceEntries q)); rewrite ?Hns; try done.
    + by apply erase_inv.
    + lia.
Qed.

Lemma markPending_qinv base id q h q' h' :
  qinv base q h -> id ∈ allocatedList q -> markPending id q h = Ok (q', h') -> qinv base q' h'.
Proof.
  intros Hq Hid H. unfold markPending in H. apply bind_ok in H as (m & Em & H).
  apply pget_ok in Em. apply bind_ok in H as ([] & Hs & H). apply ensure_ok in Hs.
  apply bind_ok in H as (q1 & Hq1 & H). injection H as <- <-.
  apply addToReadyList_inv in Hq1 as (l & -> & Hl).
  refine (qinv_set_service base q h id m (m <| inService := false |>) l
    (inServiceEntries q - 1) _ _ _ _ _ _ _); rewrite ?Hs; try done.
  exact (qinv_deferred_ok base q h id m Hq Hid Em).
Qed.

Lemma promote_inv ct m b m' :
  promoteDeferredTargets ct m = Ok (b, m') ->
  inService m' = inService m /\ (deferred_ok m -> deferred_ok m') /\
  (b = false -> m' = m /\ getNumTargets m' = 0).
Proof.
  unfold promoteDeferredTargets, hasTargets, getNumTargets. intros H. inv_ok.
  destruct (items (targets m)) as [|] eqn:Et; [|done].
  destruct (items (deferredTargets m)) as [|t l] eqn:Ed; inv_ok; split_and!; try done.
  rewrite Et, Ed. done.
Qed.

Lemma forceDeallocateTarget_qinv base ct id q h r q' h' :
  qinv base q h -> id ∈ allocatedList q ->
  forceDeallocateTarget ct id q h = Ok (r, q', h') -> qinv base q' h'.
Proof.
  intros Hq Hid H. unfold forceDeallocateTarget in H. apply bind_ok in H as (m & Em & H).
  apply pget_ok in Em. apply bind_ok in H as ([] & Hs & H).
  apply bind_ok in H as (m1 & Hp & H). apply bind_ok in H as ([q1 h1] & Hb & H).
  injection H as <- <- <-. destruct (popTarget_inv _ _ Hp) as (E1 & E2 & _).
  assert (deferred_ok m1) as Hd1.
  { unfold deferred_ok. rewrite E2. by apply (qinv_deferred_ok base q h id). }
  destruct (hasTargets m1).
  { injection Hb as <- <-. by apply (qinv_update _ _ _ _ m). }
  apply bind_ok in Hb as ([b m2] & Hpr & Hb). apply promote_inv in Hpr as (P1 & P2 & P3).
  assert (qinv base q (<[id := m2]> h)) as Hq2.
  { apply (qinv_update _ _ _ _ m); [done..|congruence|auto]. }
  destruct b; [by injection Hb as <- <-|]. destruct (P3 eq_refl) as [-> P4].
  eapply (deallocateOne_qinv base id q _ _ _ m1); [done| |done|done].
  rewrite list_lookup_insert_eq; [done|]. by eapply lookup_lt_Some.
Qed.

Lemma pop_all_nil tid ts ts' : pop_all tid ts = Ok ts' -> ts' = [].
Proof.
  revert ts'. induction ts as [|t ts IH]; intros ts' H; simpl in H; [by injection H|].
  apply bind_ok in H as ([] & _ & H). auto.
Qed.

Lemma squash_loop_qinv base tid l q h q' h' :
  qinv base q h -> NoDup l -> (forall i, i ∈ l -> i ∈ allocatedList q) ->
  squash_loop tid l q h = Ok (q', h') -> qinv base q' h'.
Proof.
  revert q h. induction l as [|id l IH]; intros q h Hq Hn Hl H; cbn [squash_loop] in H.
  { by injection H as <- <-. }
  apply NoDup_cons in Hn as [Hnid Hn]. apply bind_ok in H as (m & Em & H). apply pget_ok in Em.
  assert (forall i, i ∈ l -> i ∈ allocatedList q) as Hl' by (intros i Hi; apply Hl; by right).
  destruct (threadNum m =? tid); [|by apply (IH q h)].
  apply bind_ok in H as (ts & _ & H). set (x := m <| targets ::= _ |>) in H.
  apply bind_ok in H as ([] & Hx & H). apply ensure_ok in Hx.
  apply bind_ok in H as ([q1 h1] & Hd & H). assert (id ∈ allocatedList q) as Hid by (apply Hl; by left).
  assert (qinv base q (<[id := x]> h)) as Hqx.
  { apply (qinv_update _ _ _ _ m); try done. exact (qinv_deferred_ok base q h id m Hq Hid Em). }
  destruct (negb (inService x)).
  - assert (qinv base q1 h1) as Hq1.
    { eapply (deallocateOne_qinv base id q (<[id := x]> h) _ _ x); [done| |lia|done].
      rewrite list_lookup_insert_eq; [done|]. by eapply lookup_lt_Some. }
    apply (IH q1 h1); try done. intros i Hi.
    apply deallocateOne_inv in Hd as (al & rl & ? & ? & Hal & _ & _ & _ & _ & -> & _).
    apply (erase_elem _ _ _ (qinv_nodup_alloc _ _ _ Hq) Hal). split; [auto|]. by intros ->.
  - injection Hd as <- <-. by apply (IH q (<[id := x]> h)).
Qed.

(** [h'] changes the MSHR [id] without touching [inService]. *)
Definition tweaks (id : nat) (h h' : heap) : Prop :=
  exists m x, h !! id = Some m /\ same_lists (<[id := x]> h) h' /\
    inService x = inService m /\ (deferred_ok m -> deferred_ok x).

Lemma tweaks_insert id h m x :
  h !! id = Some m -> inService x = inService m -> (deferred_ok m -> deferred_ok x) ->
  tweaks id h (<[id := x]> h).
Proof. intros. exists m, x. by split_and!. Qed.

Lemma tweaks_same id h h' m : h !! id = Some m -> same_lists h h' -> tweaks id h h'.
Proof. intros Hm Hs. exists m, m. split_and!; try done. by rewrite list_insert_id. Qed.

Lemma tweaks_trans id h1 h2 h3 : tweaks id h1 h2 -> tweaks id h2 h3 -> tweaks id h1 h3.
Proof.
  intros (m & x & Em & Hs & Hi & Hd) (m2 & y & Em2 & Hs2 & Hi2 & Hd2).
  destruct (same_lists_insert_lookup _ _ _ _ _ Em Hs) as (d & Ed).
  rewrite Ed in Em2. injection Em2 as <-. exists m, y. split_and!; [done| |by rewrite <- Hi|auto].
  rewrite <- Hs2. rewrite <- (list_insert_insert_eq h1 id y x).
  apply Forall2_insert; [exact Hs|]. exists (downstreamPending y). by destruct y.
Qed.

Lemma tweaks_lookup id h h' : tweaks id h h' -> exists m, h' !! id = Some m.
Proof.
  intros (m & x & Em & Hs & _).
  destruct (same_lists_insert_lookup _ _ _ _ _ Em Hs) as (d & ->). eauto.
Qed.

Lemma tweaks_pupd id f h h' :
  (forall m, inService (f m) = inService m /\ deferredTargets (f m) = deferredTargets m) ->
  pupd f h id = Ok h' -> tweaks id h h'.
Proof.
  intros Hf (m & Em & ->)%pupd_ok. destruct (Hf m) as [E1 E2].
  apply (tweaks_insert _ _ m); [done..|]. unfold deferred_ok. by rewrite E2.
Qed.

Lemma tweaks_add ct id w pkt rd od src mp h h' :
  add ct id w pkt rd od src mp h = Ok h' -> tweaks id h h'.
Proof.
  intros (m & Em & Hs)%add_inv. eexists m, _. split_and!; [done|exact Hs|by destruct w|].
  destruct w; [done|]. intros _ Hnil. simpl in Hnil. by apply app_nil in Hnil as [_ ?].
Qed.

Lemma qinv_tweaks base q h h' id :
  qinv base q h -> id ∈ allocatedList q -> tweaks id h h' -> qinv base q h'.
Proof.
  intros Hq Hid (m & x & Em & Hs & Hi & Hd). eapply qinv_same_lists; [exact Hs|].
  apply (qinv_update _ _ _ _ m); try done. apply Hd. exact (qinv_deferred_ok _ _ _ _ _ Hq Hid Em).
Qed.

Lemma replaceUpgrades_deferred_ok m :
  deferred_ok m -> deferred_ok (m <| deferredTargets ::= replaceUpgrades |>).
Proof.
  unfold deferred_ok, replaceUpgrades, isReset. simpl.
  destruct (hasUpgrade (deferredTargets m)) eqn:E; simpl; [|by rewrite E].
  intros H Hn. apply fmap_nil_inv in Hn. apply H in Hn. by rewrite andb_false_r in Hn.
Qed.

Lemma allocateTarget_tweaks ct id pkt w ord h h' :
  MSHR.allocateTarget ct id pkt w ord h = Ok h' -> tweaks id h h'.
Proof.
  unfold MSHR.allocateTarget. intros H. inv_ok.
  destruct (must_defer pkt a); by eapply tweaks_add.
Qed.

Lemma handleSnoop_tweaks ct fresh id pkt ord h r h' :
  handleSnoop ct fresh id pkt ord h = Ok (r, h') -> tweaks id h h'.
Proof.
  unfold handleSnoop. intros H. apply bind_ok in H as (m & Em & H). apply pget_ok in Em.
  assert (forall f, tweaks id h (<[id := if Packet.needsExclusive pkt
      then m <| targets ::= f |> <| deferredTargets ::= replaceUpgrades |> else m]> h)) as Hf.
  { intros f. destruct (Packet.needsExclusive pkt); apply (tweaks_insert _ _ m); try done.
    exact (replaceUpgrades_deferred_ok m). }
  destruct (negb (inService m) || _); [injection H as <- <-; exact (Hf replaceUpgrades)|].
  assert (tweaks id h (<[id := if Packet.needsExclusive pkt
      then m <| deferredTargets ::= replaceUpgrades |> else m]> h)) as H0.
  { destruct (Packet.needsExclusive pkt); apply (tweaks_insert _ _ m); try done.
    exact (replaceUpgrades_deferred_ok m). }
  set (m0 := if Packet.needsExclusive pkt then _ else m) in *. clearbody m0. clear Hf.
  generalize dependent (<[id := m0]> h). intros h0 H H0.
  eapply tweaks_trans; [exact H0|].
  destruct (tweaks_lookup _ _ _ H0) as (x & Ex).
  destruct (postInvalidate m0); [injection H as <- <-; by apply (tweaks_same _ _ _ x)|].
  apply bind_ok in H as ([pkt1 h1] & H1 & H). assert (tweaks id h0 h1) as T1.
  { destruct (pendingDirty m0 || _); [|injection H1 as <- <-; by apply (tweaks_same _ _ _ x)].
    apply bind_ok in H1 as ([cp pkt2] & _ & H1). apply bind_ok in H1 as (h2 & Ha & H1).
    apply bind_ok in H1 as (h3 & Hp & H1). injection H1 as <- <-. apply tweaks_add in Ha.
    destruct (Packet.needsExclusive pkt2); [|by injection Hp as <-].
    eapply tweaks_trans; [exact Ha|]. eapply tweaks_pupd; [|exact Hp]. done. }
  destruct (negb _ && _); [|by injection H as <- <-].
  apply bind_ok in H as (h2 & Hp & H). injection H as <- <-.
  eapply tweaks_trans; [exact T1|]. eapply tweaks_pupd; [|exact Hp]. done.
Qed.

Lemma handleFill_tweaks id pkt h h' : handleFill id pkt h = Ok h' -> tweaks id h h'.
Proof.
  unfold handleFill. intros H. apply bind_ok in H as (m & Em & H). apply pget_ok in Em.
  destruct (Packet.sharedAsserted pkt); [injection H as <-; by apply (tweaks_same _ _ _ m)|].
  apply bind_ok in H as (post & _ & H).
  destruct (negb post && _); [|injection H as <-; by apply (tweaks_same _ _ _ m)].
  apply bind_ok in H as ([] & _ & H). apply bind_ok in H as ([] & _ & H).
  apply bind_ok in H as (h1 & Hc & H). apply clear_list_same_lists in Hc.
  apply (tweaks_trans _ _ h1).
  - eexists m, _. split_and!; [done|exact Hc|done..].
  - apply pupd_ok in H as (y & Ey & ->). by apply (tweaks_insert _ _ y).
Qed.

Lemma popTarget_tweaks id h m m' :
  h !! id = Some m -> popTarget m = Ok m' -> tweaks id h (<[id := m']> h).
Proof.
  intros Em (E1 & E2 & _)%popTarget_inv. apply (tweaks_insert _ _ m); [done..|].
  unfold deferred_ok. by rewrite E2.
Qed.

Lemma promote_tweaks ct id h m b m' :
  h !! id = Some m -> promoteDeferredTargets ct m = Ok (b, m') -> tweaks id h (<[id := m']> h).
Proof. intros Em (E1 & E2 & _)%promote_inv. by apply (tweaks_insert _ _ m). Qed.

(** ** Sequences of operations *)

(** The queue's operations, and those a cache applies to an allocated MSHR. *)
Inductive qop :=
  | QAllocate (addr size : Z) (pkt : Packet.Packet) (when ord : Z)
  | QDeallocate (id : nat)
  | QMoveToFront (id : nat)
  | QMarkInService (id : nat) (dirty : bool)
  | QMarkPending (id : nat)
  | QForceDeallocateTarget (id : nat)
  | QSquash (tid : Z)
  | QDrain (dm : nat)
  | QAllocateTarget (id : nat) (pkt : Packet.Packet) (when ord : Z)
  | QSnoop (id : nat) (pkt : Packet.Packet) (ord : Z)
  | QFill (id : nat) (pkt : Packet.Packet)
  | QPop (id : nat)
  | QPromote (id : nat).

Definition run_qop (fresh : Z -> list Z) (ct : Z) (o : qop) (q : MSHRQueue) (h : heap)
  : outcome (MSHRQueue * heap) :=
  match o with
  | QAllocate a s pkt w ord => '(_, q, h) ← allocate ct a s pkt w ord q h; Ok (q, h)
  | QDeallocate id => deallocate id q h
  | QMoveToFront id => q ← moveToFront id q h; Ok (q, h)
  | QMarkInService id d => markInService id d q h
  | QMarkPending id => markPending id q h
  | QForceDeallocateTarget id => '(_, q, h) ← forceDeallocateTarget ct id q h; Ok (q, h)
  | QSquash tid => squash tid q h
  | QDrain dm => Ok (snd (drain dm q), h)
  | QAllocateTarget id pkt w ord => h ← MSHR.allocateTarget ct id pkt w ord h; Ok (q, h)
  | QSnoop id pkt ord => '(_, h) ← handleSnoop ct fresh id pkt ord h; Ok (q, h)
  | QFill id pkt => h ← handleFill id pkt h; Ok (q, h)
  | QPop id => m ← pget h id; m ← popTarget m; Ok (q, <[id := m]> h)
  | QPromote id =>
      m ← pget h id; '(_, m) ← promoteDeferredTargets ct m; Ok (q, <[id := m]> h)
  end.

(** The operations name allocated MSHRs, and one is deallocated when it has no
    target left. *)
Definition qop_ok (o : qop) (q : MSHRQueue) (h : heap) : Prop :=
  match o with
  | QDeallocate id => exists m, h !! id = Some m /\ getNumTargets m = 0
  | QMarkInService id _ | QMarkPending id | QForceDeallocateTarget id
  | QAllocateTarget id _ _ _ | QSnoop id _ _ | QFill id _ | QPop id | QPromote id =>
      id ∈ allocatedList q
  | _ => True
  end.

(** The MSHRs of all caches with the queue's own ones at [base]. Between two
    operations on the queue the other caches may change flags of its MSHRs. *)
Inductive qreachable (fresh : Z -> list Z) (base : nat) : MSHRQueue -> heap -> Prop :=
  | qreach_init n r d ix h :
      Forall (fun m => m = MSHR0) h -> (base + Z.to_nat (n + r - 1) <= length h)%nat ->
      qreachable fresh base (MSHRQueue_new base n r d ix) h
  | qreach_step ct o q h q' h' :
      qreachable fresh base q h -> qop_ok o q h -> run_qop fresh ct o q h = Ok (q', h') ->
      qreachable fresh base q' h'
  | qreach_flags q h h' :
      qreachable fresh base q h -> same_lists h h' -> qreachable fresh base q h'.

Lemma run_qop_qinv fresh base ct o q h q' h' :
  qinv base q h -> qop_ok o q h -> run_qop fresh ct o q h = Ok (q', h') -> qinv base q' h'.
Proof.
  intros Hq Hok H. destruct o; simpl in Hok, H.
  - apply bind_ok in H as ([[i q1] h1] & Ha & H). injection H as <- <-. by eapply allocate_qinv.
  - destruct Hok as (m & Em & Hn). by eapply deallocateOne_qinv.
  - apply bind_ok in H as (q1 & Hm & H). injection H as <- <-. by eapply moveToFront_qinv.
  - by eapply markInService_qinv.
  - by eapply markPending_qinv.
  - apply bind_ok in H as ([[r q1] h1] & Ha & H). injection H as <- <-.
    by eapply forceDeallocateTarget_qinv.
  - eapply squash_loop_qinv; [exact Hq|by eapply qinv_nodup_alloc|done|exact H].
  - injection H as <- <-. unfold drain. destruct (allocated q =? 0); by destruct Hq.
  - apply bind_ok in H as (h1 & Ha & H). injection H as <- <-.
    by eapply qinv_tweaks, allocateTarget_tweaks.
  - apply bind_ok in H as ([[r p] h1] & Ha & H). injection H as <- <-.
    by eapply qinv_tweaks, handleSnoop_tweaks.
  - apply bind_ok in H as (h1 & Ha & H). injection H as <- <-.
    by eapply qinv_tweaks, handleFill_tweaks.
  - apply bind_ok in H as (m & Em & H). apply pget_ok in Em. apply bind_ok in H as (m1 & Hp & H).
    injection H as <- <-. by eapply qinv_tweaks, popTarget_tweaks.
  - apply bind_ok in H as (m & Em & H). apply pget_ok in Em.
    apply bind_ok in H as ([b m1] & Hp & H).
    injection H as <- <-. by eapply qinv_tweaks, promote_tweaks.
Qed.

Lemma new_qinv base n r d ix h :
  Forall (fun m => m = MSHR0) h -> (base + Z.to_nat (n + r - 1) <= length h)%nat ->
  qinv base (MSHRQueue_new base n r d ix) h.
Proof.
  intros Hh Hlen.
  assert (forall i m, h !! i = Some m -> m = MSHR0) as H0 by (intros i m E; exact (Forall_lookup_1 _ _ _ _ Hh E)).
  split; simpl; try done.
  - intros i [?%elem_of_nil|Hi]; [done|]. apply elem_of_seq in Hi.
    destruct (lookup_lt_is_Some_2 h i) as (m & Em); [lia|]. exists m. split; [done|].
    rewrite (H0 _ _ Em). by intros _.
  - intros i m _ ->%H0. by split_and!.
  - constructor.
  - intros i m _. split; [by intros ?%elem_of_nil|]. by intros [?%elem_of_nil _].
Qed.

Lemma qreachable_qinv fresh base q h : qreachable fresh base q h -> qinv base q h.
Proof.
  induction 1 as [n r d ix h Hh Hl|ct o q h q' h' _ IH Hok Hrun|q h h' _ IH Hs].
  - by apply new_qinv.
  - by eapply run_qop_qinv.
  - by eapply qinv_same_lists.
Qed.

(** C23: whatever operations are applied to an MSHR queue and its MSHRs, every
    register is in exactly one of the allocated and the free list, the ready list
    has, without repetition, the allocated MSHRs whose request is not in service,
    free MSHRs have no targets and clear flags, and [allocated] and
    [inServiceEntries] count what they say.
    The operations are used as the cache uses them: those on a register name an
    allocated one, and one is deallocated when it has no targets left ([qop_ok]). *)
Theorem mshr_queue_invariant fresh base q h : qreachable fresh base q h -> qinv base q h.
Proof. apply qreachable_qinv. Qed.

Definition example_pkt (c : MemCmd.Command) : Packet.Packet :=
  Packet.MkPacket Packet.VALID_ADDR c Request.Request0 None 0 false 0 MemCmd.InvalidCmd [] 0 0 [].

Lemma mshr_queue_invariant_witness :
  let fresh := fun _ : Z => [] in
  exists q h, run_qop fresh 1 (QAllocate 64 64 (example_pkt MemCmd.ReadReq) 4 0)
      (MSHRQueue_new 0 2 1 0 0) [MSHR0; MSHR0] = Ok (q, h) /\
    readyList q = [0%nat] /\ qinv 0 q h.
Proof.
  intros fresh. do 2 eexists. split; [vm_compute; reflexivity|]. split; [reflexivity|].
  apply (mshr_queue_invariant fresh).
  eapply (qreach_step fresh 0 1 (QAllocate 64 64 (example_pkt MemCmd.ReadReq) 4 0)
    (MSHRQueue_new 0 2 1 0 0) [MSHR0; MSHR0]); [|exact I|vm_compute; reflexivity].
  apply (qreach_init fresh 0 2 1 0 0); [repeat constructor|]. vm_compute. lia.
Defined.

(** ** Allocation *)

Lemma free_when_not_full base q h :
  qinv base q h -> 1 <= numReserve q -> isFull q = false -> exists id free, freeList q = id :: free.
Proof.
  intros [H1 _ _ _ _ H6 _ _] Hr Hf. unfold isFull in Hf.
  destruct (freeList q) as [|id free]; [|eauto]. apply Permutation_length in H1.
  rewrite app_nil_r, length_seq in H1. lia.
Qed.

Lemma mshr_allocate_total ct id a s pkt w ord h m sec :
  h !! id = Some m -> idle m -> Packet.isSecure pkt = Ok sec -> can_mark pkt h ->
  exists h', MSHR.allocate ct id a s pkt w ord h = Ok h'.
Proof.
  intros Hm (Hn & Hr & Hr') Hsec Hc. unfold MSHR.allocate, pget. rewrite Hsec, Hm.
  cbn [mbind outcome_bind]. set (m0 := m <| blkAddr := a |> <| blkSize := s |> <| isSecure := sec |>
    <| readyTime := w |> <| order := ord |> <| isForward := false |>
    <| _isUncacheable := Request.isUncacheable (Packet.req pkt) |>
    <| inService := false |> <| downstreamPending := false |> <| threadNum := 0 |>).
  change (isReset (targets m0)) with (isReset (targets m)). rewrite Hr.
  cbn [mbind outcome_bind ensure].
  assert (<[id := m0]> h !! id = Some m0) as E0
    by (rewrite list_lookup_insert_eq; [done|by eapply lookup_lt_Some]).
  destruct (add_total ct id Regular pkt w ord
    (if decide (Packet.cmd pkt = MemCmd.HardPFReq) then FromPrefetcher else FromCPU) true
    (<[id := m0]> h) m0 E0) as (h1 & Ha).
  { unfold can_mark in *. destruct (Packet.findNextSenderState_MSHR pkt) as [up|]; [|done].
    destruct Hc as (x & Ex & Hx). destruct (decide (up = id)) as [->|Hne]; [by exists m0|].
    exists x. by rewrite list_lookup_insert_ne by done. }
  rewrite Ha. cbn [mbind outcome_bind]. apply add_inv in Ha as (y & Ey & Hs).
  rewrite E0 in Ey. injection Ey as <-.
  destruct (same_lists_insert_lookup _ _ _ _ _ E0 Hs) as (d & ->). cbn [mbind outcome_bind].
  simpl deferredTargets. rewrite Hr'. simpl. eauto.
Qed.

Lemma ready_le_same_lists h h' l :
  (forall i, i ∈ l -> ready_time h' i = ready_time h i) ->
  StronglySorted (ready_le h) l -> StronglySorted (ready_le h') l.
Proof.
  intros He Hs. induction Hs as [|i l Hs IH Hall]; constructor.
  - apply IH. intros j Hj. apply He. by right.
  - rewrite Forall_forall in *. intros j Hj. unfold ready_le.
    rewrite !He by (by left || by right). by apply Hall.
Qed.

Lemma find_first_ok p h l :
  (forall i, i ∈ l -> exists m, h !! i = Some m) ->
  exists r, find_first p h l = Ok r /\
    match r with
    | Some i => i ∈ l /\ exists m, h !! i = Some m /\ p m = true
    | None => forall i m, i ∈ l -> h !! i = Some m -> p m = false
    end.
Proof.
  induction l as [|i l IH]; intros Hr; simpl.
  { exists None. split; [done|]. by intros i m ?%elem_of_nil. }
  destruct (Hr i) as (m & Em); [by left|]. unfold pget. rewrite Em. cbn [mbind outcome_bind].
  destruct (p m) eqn:Ep.
  - exists (Some i). split; [done|]. split; [by left|eauto].
  - destruct IH as (r & Er & Hrr); [intros j Hj; apply Hr; by right|]. exists r. split; [done|].
    destruct r as [j|].
    + destruct Hrr as [Hj He]. split; [by right|done].
    + intros j mj [->|Hj]%elem_of_cons Ej; [congruence|eauto].
Qed.

(** The MSHRs other than [id] after an update of [id] and of flags. *)
Lemma same_lists_other h h' id x i m' :
  same_lists (<[id := x]> h) h' -> i <> id -> h' !! i = Some m' ->
  exists m d, h !! i = Some m /\ m' = m <| downstreamPending := d |>.
Proof.
  intros Hs Hne (m & d & Em & ->)%(same_lists_sym_lookup _ _ _ _ Hs).
  rewrite list_lookup_insert_ne in Em by done. eauto.
Qed.

(** A cacheable MSHR just allocated is found, and it is the one found when none
    was before. *)
Lemma findMatch_after_allocate q q' h h' id a sec x d :
  same_lists (<[id := x]> h) h' -> h' !! id = Some (x <| downstreamPending := d |>) ->
  is_match a sec x = true -> allocatedList q' = allocatedList q ++ [id] ->
  (forall i, i ∈ allocatedList q -> i <> id /\ exists m, h !! i = Some m) ->
  exists j, findMatch a sec h' q' = Ok (Some j) /\ (findMatch a sec h q = Ok None -> j = id).
Proof.
  intros Hs Hid Hx Hal Hin. unfold findMatch.
  destruct (find_first_ok (is_match a sec) h' (allocatedList q')) as (r & -> & Hr).
  { intros i. rewrite Hal, elem_of_app, list_elem_of_singleton.
    intros [Hi| ->]; [|eauto]. destruct (Hin i Hi) as [Hne (m & Em)].
    destruct (same_lists_lookup _ _ i m Hs) as (d' & ->); [by rewrite list_lookup_insert_ne|eauto]. }
  destruct (find_first_ok (is_match a sec) h (allocatedList q)) as (r0 & -> & Hr0).
  { intros i Hi. by destruct (Hin i Hi). }
  destruct r as [j|].
  - exists j. split; [done|]. intros [= ->]. destruct Hr as (Hj & mj & Ej & Hm).
    rewrite Hal, elem_of_app, list_elem_of_singleton in Hj. destruct Hj as [Hj|]; [|done].
    destruct (Hin j Hj) as [Hne _].
    destruct (same_lists_other _ _ _ _ _ _ Hs Hne Ej) as (m & d' & Em & ->).
    specialize (Hr0 j m Hj Em). change (is_match a sec m = true) in Hm. congruence.
  - specialize (Hr id _ ltac:(rewrite Hal, elem_of_app; right; by left) Hid).
    change (is_match a sec x = false) in Hr. congruence.
Qed.

Lemma allocate_ok base ct a s pkt w ord q h sec :
  qinv base q h -> 1 <= numReserve q -> isFull q = false ->
  Packet.isSecure pkt = Ok sec -> can_mark pkt h ->
  exists id q' h', allocate ct a s pkt w ord q h = Ok (id, q', h') /\
    id ∈ freeList q /\ allocatedList q' = allocatedList q ++ [id] /\
    readyList q' ≡ₚ id :: readyList q /\
    (StronglySorted (ready_le h) (readyList q) -> StronglySorted (ready_le h') (readyList q')) /\
    (Request.isUncacheable (Packet.req pkt) = false ->
     exists j, findMatch a sec h' q' = Ok (Some j) /\ (findMatch a sec h q = Ok None -> j = id)) /\
    allocated q' = 1 + allocated q /\ numEntries q' = numEntries q /\
    numReserve q' = numReserve q /\ demandReserve q' = demandReserve q.
Proof.
  intros Hq Hr Hf Hsec Hc. destruct (free_when_not_full _ _ _ Hq Hr Hf) as (id & free & Ef).
  pose proof Hq as [H1 H2 H3 H4 H5 H6 H7 H8].
  assert (id ∈ freeList q) as Hid by (rewrite Ef; by left).
  destruct (H2 id (or_intror Hid)) as (m & Em & _). pose proof (H3 id m Hid Em) as Hi.
  destruct (mshr_allocate_total ct id a s pkt w ord h m sec Em Hi Hsec Hc) as (h' & Ha).
  destruct (mshr_allocate_inv _ _ _ _ _ _ _ _ _ Ha) as (m1 & x & Em1 & Hs & _ & _ & Hb & Hu & Hx & Hw).
  destruct (same_lists_insert_lookup _ _ _ _ _ Em Hs) as (d & Ed).
  assert (forall i, i ∈ allocatedList q -> i <> id /\ exists m, h !! i = Some m) as Hin.
  { intros i Hal. split; [intros ->; exact (qinv_disjoint _ _ _ _ Hq Hal Hid)|].
    destruct (H2 i) as (mi & Ei & _); [by left|eauto]. }
  set (q0 := q <| freeList := free |> <| allocatedList := allocatedList q ++ [id] |>).
  destruct (addToReadyList_total h' id q0 _ Ed) as (q1 & Hq1).
  { intros i Hi'. destruct (Hin i (H8 i Hi')) as [Hne (mi & Ei)].
    destruct (same_lists_lookup _ _ i mi Hs) as (d' & ->); [by rewrite list_lookup_insert_ne|eauto]. }
  destruct (addToReadyList_inv _ _ _ _ Hq1) as (l & El & Hl).
  exists id, (q1 <| allocated ::= Z.add 1 |>), h'. split_and!.
  - unfold allocate, pget. rewrite Ef, Em. cbn [mbind outcome_bind].
    destruct Hi as (Hn & _). rewrite (proj2 (Z.eqb_eq _ _) Hn). cbn [mbind outcome_bind ensure].
    rewrite Ha. cbn [mbind outcome_bind]. fold q0. by rewrite Hq1.
  - done.
  - by rewrite El.
  - by rewrite El.
  - intros Hso. apply (addToReadyList_sorted h' id q0 q1); [|done].
    apply (ready_le_same_lists h); [|done]. intros i Hi'.
    destruct (Hin i (H8 i Hi')) as [Hne (mi & Ei)]. unfold ready_time.
    destruct (same_lists_lookup _ _ i mi Hs) as (d' & ->); [by rewrite list_lookup_insert_ne|].
    by rewrite Ei.
  - intros Hun. apply (findMatch_after_allocate q _ h h' id a sec x d); try done; [|by rewrite El].
    unfold is_match, isUncacheable. rewrite Hu, Hun, Hb, Z.eqb_refl.
    rewrite Hsec in Hx. injection Hx as ->. simpl. apply eqb_reflx.
  - by rewrite El.
  - by rewrite El.
  - by rewrite El.
  - by rewrite El.
Qed.

(** An MSHR queue that is not full can take a miss: [allocate] runs without a
    failing assertion, uses a free MSHR, appends it to the allocated list and
    enters it in the ready list, which stays ordered by ready time if it was. A
    later [findMatch] for the block finds the new MSHR unless one was there
    already. *)
Theorem allocate_when_not_full base ct a s pkt w ord q h sec :
  qinv base q h -> 1 <= numReserve q -> isFull q = false ->
  Packet.isSecure pkt = Ok sec -> can_mark pkt h ->
  exists id q' h', allocate ct a s pkt w ord q h = Ok (id, q', h') /\
    id ∈ freeList q /\ allocatedList q' = allocatedList q ++ [id] /\
    readyList q' ≡ₚ id :: readyList q /\
    (StronglySorted (ready_le h) (readyList q) -> StronglySorted (ready_le h') (readyList q')) /\
    (Request.isUncacheable (Packet.req pkt) = false ->
     exists j, findMatch a sec h' q' = Ok (Some j) /\ (findMatch a sec h q = Ok None -> j = id)).
Proof.
  intros Hq Hr Hf Hsec Hc.
  destruct (allocate_ok base ct a s pkt w ord q h sec Hq Hr Hf Hsec Hc)
    as (id & q' & h' & H1 & H2 & H3 & H4 & H5 & H6 & _). eauto 10.
Qed.

Lemma allocate_when_not_full_witness :
  exists id q' h', allocate 1 64 64 (example_pkt MemCmd.ReadReq) 4 0
      (MSHRQueue_new 0 2 1 0 0) [MSHR0; MSHR0] = Ok (id, q', h') /\
    exists j, findMatch 64 false h' q' = Ok (Some j).
Proof.
  destruct (allocate_when_not_full 0 1 64 64 (example_pkt MemCmd.ReadReq) 4 0
    (MSHRQueue_new 0 2 1 0 0) [MSHR0; MSHR0] false) as (id & q' & h' & E & _ & _ & _ & _ & Hf).
  - apply new_qinv; [repeat constructor|]. vm_compute. lia.
  - vm_compute. discriminate.
  - reflexivity.
  - reflexivity.
  - exact I.
  - exists id, q', h'. split; [exact E|]. destruct (Hf eq_refl) as (j & Hj & _). eauto.
Defined.

End MSHRQueue.
