(* ===== verification/Cache.v ===== *)
(** The data path of the cache, [mem/cache/cache_impl.hh]: lookups of the
    prefetcher, serving a request from a block, the access from the CPU side,
    victims and their writebacks, and fills, over the LRU tags and the MSHR
    queue. *)

From S2P Require Import Prelude IntMath Request MemCmd Packet Blk CacheSet BaseSetAssoc LRU.
From S2P Require Import MSHR MSHRQueue BasePrefetcher.
Local Open Scope Z_scope.

Module Cache.

(** ** State *)

(** The statistics [hits] and [misses] are the lists of the (command, master)
    pairs counted so far; [exitLoop] is set by [exitSimLoop]. The MSHRs
    themselves are in the heap shared by all caches. *)
Record Cache := MkCache {
  tags : BaseSetAssoc.Tags;
  mshrQueue : MSHRQueue.MSHRQueue;
  tempBlock : Blk.CacheBlk;
  blkSize : Z;
  isTopLevel : bool;
  lookupLatency : Z;
  fillLatency : Z;
  maxMasters : Z;
  missCount : Z;
  exitLoop : bool;
  hits : list (MemCmd.Command * Z);
  misses : list (MemCmd.Command * Z);
  writebackCount : Z;
}.
#[global] Instance eta_Cache : Eta Cache := fun c =>
  MkCache (tags c) (mshrQueue c) (tempBlock c) (blkSize c) (isTopLevel c) (lookupLatency c)
    (fillLatency c) (maxMasters c) (missCount c) (exitLoop c) (hits c) (misses c)
    (writebackCount c).

(** A [CacheBlk *] other than null: a block of the tags or [tempBlock]. *)
Inductive blkptr := InTags (p : nat) | Temp.

Definition get_blk (r : blkptr) (c : Cache) : outcome Blk.CacheBlk :=
  match r with
  | InTags p => pget (BaseSetAssoc.blks (tags c)) p
  | Temp => Ok (tempBlock c)
  end.
Definition put_blk (r : blkptr) (b : Blk.CacheBlk) (c : Cache) : Cache :=
  match r with
  | InTags p => c <| tags ::= (fun t => t <| BaseSetAssoc.blks ::= <[p := b]> |>) |>
  | Temp => c <| tempBlock := b |>
  end.

(** ** Lookups *)

Definition inCache (c : Cache) (addr : Z) (is_secure : bool) : outcome bool :=
  r ← BaseSetAssoc.findBlock (tags c) addr is_secure;
  Ok (match r with Some _ => true | None => false end).
Definition inMissQueue (h : list MSHR.MSHR) (c : Cache) (addr : Z) (is_secure : bool)
  : outcome bool :=
  r ← MSHRQueue.findMatch addr is_secure h (mshrQueue c);
  Ok (match r with Some _ => true | None => false end).

(** The cache as its prefetcher sees it. *)
#[global] Instance cache_view : CacheView (Cache * list MSHR.MSHR) := {|
  BasePrefetcher.inCache := fun ch addr sec =>
    match inCache ch.1 addr sec with Ok b => b | Fail _ => false end;
  BasePrefetcher.inMissQueue := fun ch addr sec =>
    match inMissQueue ch.2 ch.1 addr sec with Ok b => b | Fail _ => false end;
|}.

Definition incMissCount (pkt : Packet.Packet) (c : Cache) : outcome (Packet.Packet * Cache) :=
  let m := Request.masterId (Packet.req pkt) in
  _ ← ensure AssertFailed (m <? maxMasters c);
  let c := c <| misses ::= cons (Packet.cmd pkt, m) |> in
  let pkt := pkt <| Packet.req ::= (fun r => r <| Request.depth ::= Z.add 1 |>) |> in
  let c := if missCount c =? 0 then c
           else
             let c := c <| missCount ::= Z.pred |> in
             if missCount c =? 0 then c <| exitLoop := true |> else c in
  Ok (pkt, c).

Definition incHitCount (pkt : Packet.Packet) (c : Cache) : outcome Cache :=
  let m := Request.masterId (Packet.req pkt) in
  _ ← ensure AssertFailed (m <? maxMasters c);
  Ok (c <| hits ::= cons (Packet.cmd pkt, m) |>).

(** ** Serving a request from a block *)

Definition cmpAndSwap (blk : blkptr) (pkt : Packet.Packet) (c : Cache)
  : outcome (Packet.Packet * Cache) :=
  _ ← ensure AssertFailed (Packet.isRequest pkt);
  a ← Packet.getAddr pkt;
  let offset := BaseSetAssoc.extractBlkOffset (tags c) a in
  b ← get_blk blk c;
  n ← Packet.getSize pkt;
  _ ← ensure AssertFailed (8 >=? n);
  overwrite_val ← Packet.writeData (replicate 8 0) 0 pkt;
  pkt ← Packet.setData (Blk.data b) offset pkt;
  overwrite_mem ←
    (if Request.isCondSwap (Packet.req pkt) then
       if n =? 8 then
         v ← Request.getExtraData (Packet.req pkt);
         Ok (Packet.same_bytes (Packet.le_bytes 8 v) (Blk.data b) offset)
       else if n =? 4 then
         v ← Request.getExtraData (Packet.req pkt);
         Ok (Packet.same_bytes (Packet.le_bytes 4 v) (Blk.data b) offset)
       else Fail PanicError
     else Ok true);
  if overwrite_mem : bool then
    d ← Packet.memcpy (Blk.data b) offset overwrite_val 0 n;
    Ok (pkt, put_blk blk (b <| Blk.data := d |> <| Blk.status ::= Z.lor Blk.BlkDirty |>) c)
  else Ok (pkt, c).

(** [tags->invalidate(blk)] unless the block is the temporary one, and
    [blk->invalidate()]. *)
Definition drop_blk (curTick : Z) (blk : blkptr) (c : Cache) : outcome Cache :=
  c ← match blk with
      | InTags p =>
          t ← LRU.invalidate curTick (maxMasters c) p (tags c);
          Ok (c <| tags := t |>)
      | Temp => Ok c
      end;
  b ← get_blk blk c;
  Ok (put_blk blk (Blk.invalidate b) c).

Definition satisfyCpuSideRequest (curTick : Z) (deferred_response pending_downgrade : bool)
  (pkt : Packet.Packet) (blk : blkptr) (c : Cache) : outcome (Packet.Packet * Cache) :=
  _ ← ensure AssertFailed (Packet.isRequest pkt);
  b ← get_blk blk c;
  _ ← ensure AssertFailed (Blk.isValid b);
  o ← Packet.getOffset (blkSize c) pkt;
  n ← Packet.getSize pkt;
  _ ← ensure AssertFailed (o + n <=? blkSize c);
  if decide (Packet.cmd pkt = MemCmd.SwapReq) then cmpAndSwap blk pkt c
  else if Packet.isWrite pkt && (negb (Packet.isWriteInvalidate pkt) || isTopLevel c) then
    _ ← ensure AssertFailed (Blk.isWritable b);
    '(ok, pkt, b) ← Blk.checkWrite pkt b;
    d ← (if ok : bool then Packet.writeDataToBlock (Blk.data b) (blkSize c) pkt
         else Ok (Blk.data b));
    Ok (pkt, put_blk blk (b <| Blk.data := d |> <| Blk.status ::= Z.lor Blk.BlkDirty |>) c)
  else if Packet.isRead pkt then
    b ← (if Packet.isLLSC pkt then Blk.trackLoadLocked pkt b else Ok b);
    let c := put_blk blk b c in
    pkt ← Packet.setDataFromBlock (Blk.data b) (blkSize c) pkt;
    if n =? blkSize c then
      if Packet.needsExclusive pkt then
        pkt ← (if Blk.isDirty b then Packet.assertMemInhibit pkt else Ok pkt);
        c ← drop_blk curTick blk c;
        Ok (pkt, c)
      else if Blk.isWritable b && negb pending_downgrade && negb (Packet.sharedAsserted pkt)
              && negb (Request.isInstFetch (Packet.req pkt)) then
        if Blk.isDirty b then
          if negb deferred_response && negb (isTopLevel c) then
            pkt ← Packet.assertMemInhibit pkt;
            Ok (pkt, put_blk blk (b <| Blk.status ::= (fun s => Z.land s (unot 32 Blk.BlkDirty)) |>) c)
          else Ok (Packet.assertShared pkt, c)
        else Ok (pkt, c)
      else Ok (Packet.assertShared pkt, c)
    else Ok (pkt, c)
  else
    _ ← ensure AssertFailed (Packet.isUpgrade pkt
          || (Packet.isWriteInvalidate pkt && negb (isTopLevel c)));
    _ ← ensure AssertFailed (match blk with Temp => false | InTags _ => true end);
    c ← drop_blk curTick blk c;
    Ok (pkt, c).

(** ** Victims *)

(** The writeback of a dirty block; [fresh] gives the bytes of newly allocated
    data. *)
Definition writebackBlk (curTick : Z) (fresh : Z -> list Z) (blk : blkptr) (c : Cache)
  : outcome (Packet.Packet * Cache) :=
  b ← get_blk blk c;
  _ ← ensure AssertFailed (Blk.isValid b && Blk.isDirty b);
  let c := c <| writebackCount ::= Z.succ |> in
  r ← Request.Request_phys curTick
        (BaseSetAssoc.regenerateBlkAddr (tags c) (Blk.tag b) (Blk.set b)) (blkSize c) 0
        Request.wbMasterId;
  r ← (if Blk.isSecure b then Request.setFlags Request.SECURE r else Ok r);
  let r := Request.set_taskId (Blk.task_id b) r in
  let b := b <| Blk.task_id := Request.TaskId_Unknown |> <| Blk.tickInserted := curTick |> in
  wb ← Packet.Packet_new r MemCmd.Writeback;
  let wb := if Blk.isWritable b then Packet.setSupplyExclusive wb else wb in
  wb ← Packet.allocate fresh wb;
  d ← Packet.getPtr wb;
  d ← Packet.memcpy d 0 (Blk.data b) 0 (blkSize c);
  Ok (wb <| Packet.data := Some d |>,
      put_blk blk (b <| Blk.status ::= (fun s => Z.land s (unot 32 Blk.BlkDirty)) |>) c).

(** [None] is the null pointer: no block can be replaced. *)
Definition allocateBlock (curTick : Z) (fresh : Z -> list Z) (h : list MSHR.MSHR) (addr : Z)
  (is_secure : bool) (writebacks : list Packet.Packet) (c : Cache)
  : outcome (option nat * list Packet.Packet * Cache) :=
  p ← LRU.findVictim (tags c) addr;
  b ← get_blk (InTags p) c;
  if Blk.isValid b then
    let repl_addr := BaseSetAssoc.regenerateBlkAddr (tags c) (Blk.tag b) (Blk.set b) in
    r ← MSHRQueue.findMatch repl_addr (Blk.isSecure b) h (mshrQueue c);
    match r with
    | Some id =>
        _ ← ensure AssertFailed (negb (Blk.isWritable b) || Blk.isDirty b);
        m ← pget h id;
        _ ← ensure AssertFailed (MSHR.needsExclusive m);
        Ok (None, writebacks, c)
    | None =>
        if Blk.isDirty b then
          '(wb, c) ← writebackBlk curTick fresh (InTags p) c;
          Ok (Some p, writebacks ++ [wb], c)
        else Ok (Some p, writebacks, c)
    end
  else Ok (Some p, writebacks, c).

(** ** Accesses from the CPU side *)

(** The result of [access]: the return value, the block, the latency, and the
    packet, the writebacks and the cache afterwards. *)
Record AccessResult := MkAccess {
  r_hit : bool;
  r_blk : option blkptr;
  r_lat : Z;
  r_pkt : Packet.Packet;
  r_writebacks : list Packet.Packet;
  r_cache : Cache;
}.

(** The uncacheable case: any copy of the block is written back and dropped. *)
Definition flush_uncacheable (curTick : Z) (fresh : Z -> list Z) (pkt : Packet.Packet)
  (writebacks : list Packet.Packet) (c : Cache) : outcome (list Packet.Packet * Cache) :=
  let c := if Request.isClearLL (Packet.req pkt) then c <| tags ::= BaseSetAssoc.clearLocks |>
           else c in
  a ← Packet.getAddr pkt;
  sec ← Packet.isSecure pkt;
  old ← BaseSetAssoc.findBlock (tags c) a sec;
  match old with
  | None => Ok (writebacks, c)
  | Some p =>
      b ← get_blk (InTags p) c;
      if Blk.isValid b then
        '(writebacks, c) ←
          (if Blk.isDirty b then
             '(wb, c) ← writebackBlk curTick fresh (InTags p) c;
             Ok (writebacks ++ [wb], c)
           else Ok (writebacks, c));
        c ← drop_blk curTick (InTags p) c;
        Ok (writebacks, c)
      else Ok (writebacks, c)
  end.

(** The block a writeback goes to: the one found, or a newly allocated one. *)
Definition writeback_target (curTick : Z) (fresh : Z -> list Z) (h : list MSHR.MSHR)
  (pkt : Packet.Packet) (blk : option nat) (writebacks : list Packet.Packet) (c : Cache)
  : outcome (option nat * list Packet.Packet * Cache) :=
  match blk with
  | Some p => Ok (Some p, writebacks, c)
  | None =>
      a ← Packet.getAddr pkt;
      sec ← Packet.isSecure pkt;
      '(blk, writebacks, c) ← allocateBlock curTick fresh h a sec writebacks c;
      match blk with
      | None => Ok (None, writebacks, c)
      | Some p =>
          t ← LRU.insertBlock curTick (maxMasters c) pkt p (tags c);
          let c := c <| tags := t |> in
          b ← get_blk (InTags p) c;
          let s := Z.lor Blk.BlkValid Blk.BlkReadable in
          let s := if sec : bool then Z.lor s Blk.BlkSecure else s in
          Ok (Some p, writebacks, put_blk (InTags p) (b <| Blk.status := s |>) c)
      end
  end.

Definition access (curTick clockPeriod : Z) (fresh : Z -> list Z) (h : list MSHR.MSHR)
  (pkt : Packet.Packet) (writebacks : list Packet.Packet) (c : Cache) : outcome AccessResult :=
  _ ← ensure AssertFailed (Packet.isRequest pkt);
  if Request.isUncacheable (Packet.req pkt) then
    '(writebacks, c) ← flush_uncacheable curTick fresh pkt writebacks c;
    Ok (MkAccess false None (lookupLatency c) pkt writebacks c)
  else
    a ← Packet.getAddr pkt;
    sec ← Packet.isSecure pkt;
    '(blk, lat, t) ← LRU.accessBlock curTick clockPeriod (tags c) a sec;
    let c := c <| tags := t |> in
    if decide (Packet.cmd pkt = MemCmd.Writeback) then
      n ← Packet.getSize pkt;
      _ ← ensure AssertFailed (blkSize c =? n);
      '(blk, writebacks, c) ← writeback_target curTick fresh h pkt blk writebacks c;
      match blk with
      | None =>
          '(pkt, c) ← incMissCount pkt c;
          Ok (MkAccess false None lat pkt writebacks c)
      | Some p =>
          b ← get_blk (InTags p) c;
          let b := b <| Blk.status ::= Z.lor Blk.BlkDirty |> in
          let b := if Packet.isSupplyExclusive pkt
                   then b <| Blk.status ::= Z.lor Blk.BlkWritable |> else b in
          _ ← ensure AssertFailed (negb (Packet.needsResponse pkt));
          src ← Packet.getPtr pkt;
          d ← Packet.memcpy (Blk.data b) 0 src 0 (blkSize c);
          let c := put_blk (InTags p) (b <| Blk.data := d |>) c in
          c ← incHitCount pkt c;
          Ok (MkAccess true (Some (InTags p)) lat pkt writebacks c)
      end
    else
      usable ← match blk with
               | None => Ok false
               | Some p =>
                   b ← get_blk (InTags p) c;
                   Ok (if Packet.needsExclusive pkt then Blk.isWritable b
                       else Blk.isReadable b)
               end;
      match blk, usable with
      | Some p, true =>
          c ← incHitCount pkt c;
          '(pkt, c) ← satisfyCpuSideRequest curTick false false pkt (InTags p) c;
          Ok (MkAccess true (Some (InTags p)) lat pkt writebacks c)
      | _, _ =>
          '(pkt, c) ← incMissCount pkt c;
          match blk with
          | None =>
              if Packet.isLLSC pkt && Packet.isWrite pkt then
                let pkt := pkt <| Packet.req ::= Request.setExtraData 0 |> in
                Ok (MkAccess true None lat pkt writebacks c)
              else Ok (MkAccess false None lat pkt writebacks c)
          | Some p => Ok (MkAccess false (Some (InTags p)) lat pkt writebacks c)
          end
      end.

(** ** Fills *)

(** [now] is [clockEdge() + fillLatency * clockPeriod()]. *)
Definition handleFill (curTick now : Z) (fresh : Z -> list Z) (h : list MSHR.MSHR)
  (pkt : Packet.Packet) (blk : option blkptr) (writebacks : list Packet.Packet) (c : Cache)
  : outcome (blkptr * list Packet.Packet * Cache) :=
  _ ← ensure AssertFailed (Packet.isResponse pkt || Packet.isWriteInvalidate pkt);
  addr ← Packet.getAddr pkt;
  is_secure ← Packet.isSecure pkt;
  '(blk, writebacks, c) ←
    match blk with
    | None =>
        _ ← ensure AssertFailed (Packet.hasData pkt);
        _ ← ensure AssertFailed (Packet.isRead pkt || Packet.isWriteInvalidate pkt);
        '(p, writebacks, c) ← allocateBlock curTick fresh h addr is_secure writebacks c;
        '(blk, c) ←
          match p with
          | None =>
              _ ← ensure AssertFailed (negb (Blk.isValid (tempBlock c)));
              Ok (Temp, c <| tempBlock ::= (fun b =>
                b <| Blk.set := BaseSetAssoc.extractSet (tags c) addr |>
                  <| Blk.tag := BaseSetAssoc.extractTag (tags c) addr |>) |>)
          | Some p =>
              t ← LRU.insertBlock curTick (maxMasters c) pkt p (tags c);
              Ok (InTags p, c <| tags := t |>)
          end;
        b ← get_blk blk c;
        _ ← ensure AssertFailed (negb (Blk.isValid b));
        Ok (blk, writebacks, c)
    | Some blk =>
        b ← get_blk blk c;
        _ ← ensure AssertFailed (Blk.tag b =? BaseSetAssoc.extractTag (tags c) addr);
        _ ← ensure AssertFailed (Packet.hasData pkt || Blk.isValid b);
        Ok (blk, writebacks, c)
    end;
  b ← get_blk blk c;
  let b := BaseSetAssoc.fill_status is_secure (Packet.sharedAsserted pkt)
             (Packet.memInhibitAsserted pkt) b in
  d ← (if Packet.isRead pkt then
         _ ← ensure AssertFailed (Packet.hasData pkt);
         n ← Packet.getSize pkt;
         _ ← ensure AssertFailed (n =? blkSize c);
         src ← Packet.getPtr pkt;
         Packet.memcpy (Blk.data b) 0 src 0 (blkSize c)
       else Ok (Blk.data b));
  let b := b <| Blk.data := d |>
             <| Blk.whenReady := now + Packet.payloadDelay pkt |> in
  Ok (blk, writebacks, put_blk blk b c).

(** ** Blocks of the cache *)

Lemma get_put r b b' c : get_blk r c = Ok b -> get_blk r (put_blk r b' c) = Ok b'.
Proof.
  destruct r as [p|]; [|done]. simpl. rewrite !pget_ok. intros H. simpl.
  rewrite list_lookup_insert_eq; [done|]. by eapply lookup_lt_Some.
Qed.

Lemma put_blk_frame r b c :
  blkSize (put_blk r b c) = blkSize c /\ isTopLevel (put_blk r b c) = isTopLevel c.
Proof. by destruct r. Qed.

Lemma lor_dirty b : Blk.isDirty (b <| Blk.status ::= Z.lor Blk.BlkDirty |>) = true.
Proof.
  unfold Blk.isDirty. simpl. change Blk.BlkDirty with (2 ^ 3).
  rewrite any_set_pow2, Z.lor_spec by lia. reflexivity.
Qed.

Lemma lor_dirty_valid b :
  Blk.isValid (b <| Blk.status ::= Z.lor Blk.BlkDirty |>) = Blk.isValid b.
Proof.
  unfold Blk.isValid. simpl. change Blk.BlkDirty with (2 ^ 3). change Blk.BlkValid with (2 ^ 0).
  rewrite !any_set_pow2, Z.lor_spec by lia. reflexivity.
Qed.

Lemma writable_valid b : Blk.isWritable b = true -> Blk.isValid b = true.
Proof.
  unfold Blk.isWritable, Blk.isValid. intros H%Z.eqb_eq. change Blk.BlkValid with (2 ^ 0).
  rewrite any_set_pow2 by lia.
  assert (Z.testbit (Z.land (Blk.status b) (Z.lor Blk.BlkWritable Blk.BlkValid)) 0 = true) as Ht
    by (by rewrite H). rewrite Z.land_spec in Ht. by apply andb_true_iff in Ht as [? _].
Qed.

(** The requests of a CPU: the packet has an address, a size and bytes for them,
    and lies in one block. *)
Definition offset (c : Cache) (pkt : Packet.Packet) : Z :=
  Z.land (Packet.addr pkt) (u64 (blkSize c - 1)).

Record in_block (c : Cache) (pkt : Packet.Packet) (bytes : list Z) : Prop := {
  ib_addr : Packet.has_flag Packet.VALID_ADDR pkt = true;
  ib_size : Packet.has_flag Packet.VALID_SIZE pkt = true;
  ib_ptr : Packet.getPtr pkt = Ok bytes;
  ib_bytes : Z.of_nat (length bytes) = Packet.size pkt;
  ib_fits : offset c pkt + Packet.size pkt <= blkSize c;
  ib_low : 0 <= Packet.addr pkt;
}.

Lemma offset_nonneg c pkt : 0 <= Packet.addr pkt -> 0 <= offset c pkt.
Proof. intros ?. unfold offset. apply Z.land_nonneg. by left. Qed.

Lemma in_block_get c pkt bytes :
  in_block c pkt bytes ->
  Packet.getOffset (blkSize c) pkt = Ok (offset c pkt) /\
  Packet.getSize pkt = Ok (Packet.size pkt).
Proof.
  intros [Ha Hs _ _ _ _]. unfold Packet.getOffset, Packet.getAddr, Packet.getSize.
  by rewrite Ha, Hs.
Qed.

Lemma in_block_frame c c' pkt bytes :
  blkSize c' = blkSize c -> in_block c pkt bytes -> in_block c' pkt bytes.
Proof. intros E [????? ?]. split; try done. unfold offset. by rewrite E. Qed.

(** A write without reservations to check always goes through [checkWrite]. *)
Lemma checkWrite_plain w b :
  Packet.isLLSC w = false ->
  Request.hasPaddr (Packet.req w) = true -> Request.hasSize (Packet.req w) = true ->
  exists ls, Blk.checkWrite w b = Ok (true, w, b <| Blk.lockList := ls |>).
Proof.
  intros Hc Hp Hs. unfold Blk.checkWrite. rewrite Hc. simpl.
  assert (forall ls, exists ls', Blk.erase_overlapping (Packet.req w) ls = Ok ls') as H.
  { induction ls as [|l ls (ls' & IH)]; simpl; [eauto|].
    unfold Blk.overlapping, Blk.req_range, Request.getPaddr, Request.getSize.
    unfold Request.hasPaddr in Hp. unfold Request.hasSize in Hs. rewrite Hp, Hs. simpl.
    rewrite IH. simpl. eauto. }
  destruct (H (Blk.lockList b)) as (ls & ->). simpl. eauto.
Qed.

(** ** Reads return what was written *)

(** A plain write, or at the top level the write of a whole line. *)
Definition writes (c : Cache) (w : Packet.Packet) : Prop :=
  Packet.cmd w = MemCmd.WriteReq \/ Packet.cmd w = MemCmd.WriteInvalidateReq /\ isTopLevel c = true.

Lemma satisfy_write ct dr pd r c b w bytes :
  get_blk r c = Ok b -> Blk.isWritable b = true ->
  Z.of_nat (length (Blk.data b)) = blkSize c ->
  writes c w -> in_block c w bytes ->
  Request.hasPaddr (Packet.req w) = true -> Request.hasSize (Packet.req w) = true ->
  exists d ls, Packet.memcpy (Blk.data b) (offset c w) bytes 0 (Packet.size w) = Ok d /\
    satisfyCpuSideRequest ct dr pd w r c =
      Ok (w, put_blk r (b <| Blk.lockList := ls |> <| Blk.data := d |>
                          <| Blk.status ::= Z.lor Blk.BlkDirty |>) c).
Proof.
  intros Hb Hw Hlen Hc Hi Hp Hs. destruct (in_block_get _ _ _ Hi) as [Ho Hn].
  destruct (checkWrite_plain w b) as (ls & Hcw); [unfold Packet.isLLSC; by destruct Hc as [->|[-> _]]|done..|]. pose proof Hi as [_ _ Hptr Hby Hf Ha].
  destruct (Packet.memcpy_total (Blk.data b) (offset c w) bytes 0 (Packet.size w)) as (d & Hd);
    try (pose proof (offset_nonneg c w Ha); lia).
  exists d, ls. split; [done|].
  assert (Packet.isRequest w = true /\ Packet.cmd w <> MemCmd.SwapReq /\
    Packet.isWrite w && (negb (Packet.isWriteInvalidate w) || isTopLevel c) = true) as (Q1 & Q2 & Q3).
  { unfold Packet.isRequest, Packet.isWrite, Packet.isWriteInvalidate. by destruct Hc as [->|[-> ->]]. }
  unfold satisfyCpuSideRequest. rewrite Q1, Hb. cbn [mbind outcome_bind ensure].
  rewrite (writable_valid _ Hw), Ho, Hn. cbn [mbind outcome_bind ensure].
  rewrite (proj2 (Z.leb_le _ _) Hf), decide_False, Q3 by done. cbn [mbind outcome_bind ensure].
  rewrite Hw, Hcw. simpl. unfold Packet.writeDataToBlock, Packet.writeData.
  rewrite Ho, Hptr, Hn. cbn [mbind outcome_bind]. by rewrite Hd.
Qed.

Lemma satisfy_read ct dr pd r c b rd bytes :
  get_blk r c = Ok b -> Blk.isValid b = true ->
  Z.of_nat (length (Blk.data b)) = blkSize c ->
  Packet.cmd rd = MemCmd.ReadReq -> in_block c rd bytes -> Packet.size rd < blkSize c ->
  exists d, Packet.memcpy bytes 0 (Blk.data b) (offset c rd) (Packet.size rd) = Ok d /\
    satisfyCpuSideRequest ct dr pd rd r c = Ok (rd <| Packet.data := Some d |>, put_blk r b c).
Proof.
  intros Hb Hv Hlen Hc Hi Hsz. destruct (in_block_get _ _ _ Hi) as [Ho Hn].
  pose proof Hi as [_ _ Hptr Hby Hf Ha].
  destruct (Packet.memcpy_total bytes 0 (Blk.data b) (offset c rd) (Packet.size rd)) as (d & Hd);
    try (pose proof (offset_nonneg c rd Ha); lia).
  exists d. split; [done|]. unfold satisfyCpuSideRequest, Packet.isRequest, Packet.isWrite,
    Packet.isRead, Packet.isLLSC. rewrite Hc, Hb. cbn [mbind outcome_bind].
  rewrite Hv, Ho, Hn. cbn [mbind outcome_bind ensure].
  rewrite (proj2 (Z.leb_le _ _) Hf), decide_False by done. cbn [mbind outcome_bind ensure].
  simpl. destruct (put_blk_frame r b c) as [-> _].
  unfold Packet.setDataFromBlock, Packet.setData. rewrite Ho, Hptr, Hn. cbn [mbind outcome_bind].
  rewrite Hd. cbn [mbind outcome_bind].
  by rewrite (proj2 (Z.eqb_neq (Packet.size rd) (blkSize c))) by lia.
Qed.

(** At the top level a read of a whole block keeps it, and may be told that it is
    shared. *)
Lemma satisfy_read_top ct r c b rd bytes :
  get_blk r c = Ok b -> Blk.isValid b = true -> isTopLevel c = true ->
  Z.of_nat (length (Blk.data b)) = blkSize c ->
  Packet.cmd rd = MemCmd.ReadReq -> in_block c rd bytes ->
  exists d rd', Packet.memcpy bytes 0 (Blk.data b) (offset c rd) (Packet.size rd) = Ok d /\
    satisfyCpuSideRequest ct false false rd r c = Ok (rd', put_blk r b c) /\
    Packet.cmd rd' = MemCmd.ReadReq /\ Packet.data rd' = Some d.
Proof.
  intros Hb Hv Ht Hlen Hc Hi. destruct (decide (Packet.size rd < blkSize c)) as [Hsz|Hsz].
  { destruct (satisfy_read ct false false r c b rd bytes) as (d & Hd & E); try done. by exists d, (rd <| Packet.data := Some d |>). }
  destruct (in_block_get _ _ _ Hi) as [Ho Hn]. pose proof Hi as [_ _ Hptr Hby Hf Ha]. pose proof (offset_nonneg c rd Ha).
  destruct (Packet.memcpy_total bytes 0 (Blk.data b) (offset c rd) (Packet.size rd)) as (d & Hd); try lia.
  set (rd1 := rd <| Packet.data := Some d |>). assert (Packet.cmd (Packet.assertShared rd1) = MemCmd.ReadReq) as Hcs by done.
  assert (exists rd', (rd' = rd1 \/ rd' = Packet.assertShared rd1) /\
    satisfyCpuSideRequest ct false false rd r c = Ok (rd', put_blk r b c)) as (rd' & Hrd & E).
  { unfold satisfyCpuSideRequest, Packet.isRequest, Packet.isWrite, Packet.isRead, Packet.isLLSC. rewrite Hc, Hb.
    cbn [mbind outcome_bind]. rewrite Hv, Ho, Hn. cbn [mbind outcome_bind ensure].
    rewrite (proj2 (Z.leb_le _ _) Hf), decide_False by done. cbn [mbind outcome_bind ensure]. simpl.
    destruct (put_blk_frame r b c) as [-> ->].
    unfold Packet.setDataFromBlock, Packet.setData. rewrite Ho, Hptr, Hn. cbn [mbind outcome_bind].
    rewrite Hd. cbn [mbind outcome_bind]. fold rd1.
    rewrite (proj2 (Z.eqb_eq (Packet.size rd) (blkSize c))) by lia. unfold Packet.needsExclusive.
    change (Packet.cmd rd1) with (Packet.cmd rd). rewrite Hc, Ht. simpl.
    destruct (_ && _ && _); [destruct (Blk.isDirty b)|]; eexists; eauto. }
  exists d, rd'. split; [done|]. split; [done|]. by destruct Hrd as [-> | ->].
Qed.

(** A write to a writable block and a later read from the block both succeed,
    whatever their sizes and positions in the block: each byte read is the byte
    written where the read overlaps the write, and the block's old byte
    elsewhere; and the block is dirty after the write. *)
Theorem write_then_read ct ct' r c b w wd rd rbuf :
  get_blk r c = Ok b -> Blk.isWritable b = true ->
  Z.of_nat (length (Blk.data b)) = blkSize c ->
  Packet.cmd w = MemCmd.WriteReq -> in_block c w wd ->
  Request.hasPaddr (Packet.req w) = true -> Request.hasSize (Packet.req w) = true ->
  Packet.cmd rd = MemCmd.ReadReq -> in_block c rd rbuf -> Packet.size rd < blkSize c ->
  exists w' c1 b1 rd' c2 d,
    satisfyCpuSideRequest ct false false w r c = Ok (w', c1) /\
    get_blk r c1 = Ok b1 /\ Blk.isDirty b1 = true /\
    satisfyCpuSideRequest ct' false false rd r c1 = Ok (rd', c2) /\
    Packet.data rd' = Some d /\
    forall i, 0 <= i < Packet.size rd ->
      d !! Z.to_nat i =
        if decide (offset c w <= offset c rd + i < offset c w + Packet.size w)
        then wd !! Z.to_nat (offset c rd + i - offset c w)
        else Blk.data b !! Z.to_nat (offset c rd + i).
Proof.
  intros Hb Hw Hlen Hcw Hiw Hp Hs Hcr Hir Hsz.
  destruct (satisfy_write ct false false r c b w wd) as (d1 & ls & Hd1 & E1); try done; [by left|].
  set (b1 := b <| Blk.lockList := ls |> <| Blk.data := d1 |>
               <| Blk.status ::= Z.lor Blk.BlkDirty |>) in E1.
  pose proof (get_put r b b1 c Hb) as Hb1. destruct (put_blk_frame r b1 c) as [Ebs _].
  destruct (Packet.memcpy_spec _ _ _ _ _ _ Hd1) as [Hl1 Hx1].
  destruct (satisfy_read ct' false false r (put_blk r b1 c) b1 rd rbuf) as (d2 & Hd2 & E2);
    try done; rewrite ?Ebs; try done.
  { unfold b1. rewrite lor_dirty_valid. by apply (writable_valid b). }
  { simpl. by rewrite Hl1. }
  { by apply (in_block_frame c). }
  replace (offset (put_blk r b1 c) rd) with (offset c rd) in Hd2 by (unfold offset; by rewrite Ebs).
  destruct (Packet.memcpy_spec _ _ _ _ _ _ Hd2) as [_ Hx2].
  exists w, (put_blk r b1 c), b1. do 2 eexists. exists d2.
  split_and!; [done|done|apply lor_dirty|exact E2|done|]. intros i Hi. rewrite Hx2.
  pose proof (offset_nonneg c rd (ib_low _ _ _ Hir)). pose proof (offset_nonneg c w (ib_low _ _ _ Hiw)).
  rewrite decide_True by lia. simpl Blk.data. rewrite Hx1.
  replace (Z.of_nat (Z.to_nat (offset c rd) + (Z.to_nat i - Z.to_nat 0))) with (offset c rd + i) by lia.
  destruct (decide _); f_equal; lia.
Qed.

(** A small cache: two sets of one 8-byte block, block 0 exclusive. *)
Definition example_tags : BaseSetAssoc.Tags :=
  match BaseSetAssoc.BaseSetAssoc_new (seqZ 10 8) 2 (BaseSetAssoc.MkParams 16 8 1 2 false) with
  | Ok t => t
  | Fail _ => BaseSetAssoc.MkTags 0 0 0 0 false 0 0 0 false [] [] 0 0 0 0 0 0 0 0 0 [] [] [] 0 0
  end.
Definition example_cache : Cache :=
  MkCache (example_tags <| BaseSetAssoc.blks ::=
             alter (BaseSetAssoc.fill_status false false false) 0%nat |>)
    (MSHRQueue.MSHRQueue_new 0 2 1 0 0) Blk.CacheBlk0 8 true 2 2 2 0 false [] [] 0.
Definition example_request (c : MemCmd.Command) (addr size : Z) (bytes : list Z)
  : Packet.Packet :=
  Packet.MkPacket (Z.lor (Z.lor Packet.VALID_ADDR Packet.VALID_SIZE) Packet.STATIC_DATA) c
    (Request.Request0 <| Request._paddr := addr |> <| Request._size := size |>
       <| Request.privateFlags := Z.lor Request.VALID_SIZE Request.VALID_PADDR |>)
    (Some bytes) addr false size MemCmd.InvalidCmd [] 0 0 [].

Lemma write_then_read_witness :
  exists w' c1 rd' c2,
    satisfyCpuSideRequest 5 false false (example_request MemCmd.WriteReq 2 2 [7; 8])
      (InTags 0) example_cache = Ok (w', c1) /\
    satisfyCpuSideRequest 6 false false (example_request MemCmd.ReadReq 1 4 [0; 0; 0; 0])
      (InTags 0) c1 = Ok (rd', c2) /\
    exists d, Packet.data rd' = Some d /\ d !! 1%nat = Some 7 /\ d !! 3%nat = Some 14.
Proof.
  assert (exists b, get_blk (InTags 0) example_cache = Ok b /\ Blk.isWritable b = true /\
    Blk.data b = seqZ 10 8) as (b & Hb & Hw & Hd) by (eexists; split_and!; reflexivity).
  destruct (write_then_read 5 6 (InTags 0) example_cache b
    (example_request MemCmd.WriteReq 2 2 [7; 8]) [7; 8]
    (example_request MemCmd.ReadReq 1 4 [0; 0; 0; 0]) [0; 0; 0; 0])
    as (w' & c1 & b1 & rd' & c2 & d & E1 & _ & _ & E2 & Hr & Hx).
  - exact Hb.
  - exact Hw.
  - rewrite Hd. reflexivity.
  - reflexivity.
  - split; vm_compute; congruence || reflexivity.
  - reflexivity.
  - reflexivity.
  - reflexivity.
  - split; vm_compute; congruence || reflexivity.
  - reflexivity.
  - exists w', c1, rd', c2. split_and!; try done. exists d. split; [done|]. split.
    + change 1%nat with (Z.to_nat 1). rewrite (Hx 1) by (vm_compute; split; congruence). reflexivity.
    + change 3%nat with (Z.to_nat 3). rewrite (Hx 3) by (vm_compute; split; congruence). rewrite Hd. reflexivity.
Defined.

(** ** Dirty data *)

Lemma memInhibit_set pkt pkt' :
  Packet.assertMemInhibit pkt = Ok pkt' -> Packet.memInhibitAsserted pkt' = true.
Proof.
  unfold Packet.assertMemInhibit. intros H. inv_ok.
  unfold Packet.memInhibitAsserted, Packet.has_flag, Flags.isSet, Packet.set_flag. simpl.
  unfold Flags.set. change Packet.MEM_INHIBIT with (2 ^ 3).
  change (any_set (Z.lor (Packet.flags pkt) (2 ^ 3)) (2 ^ 3) = true).
  rewrite any_set_pow2, Z.lor_spec by lia. apply orb_true_r.
Qed.

Lemma drop_blk_invalid ct r c c' :
  drop_blk ct r c = Ok c' -> exists b, get_blk r c' = Ok b /\ Blk.isValid b = false.
Proof.
  unfold drop_blk. intros H. apply bind_ok in H as (c1 & _ & H).
  apply bind_ok in H as (b & Hb & H). injection H as <-.
  eexists. split; [by eapply get_put|]. done.
Qed.

Lemma checkWrite_frame pkt b ok pkt' b' :
  Blk.checkWrite pkt b = Ok (ok, pkt', b') -> exists ls, b' = b <| Blk.lockList := ls |>.
Proof.
  unfold Blk.checkWrite, Blk.clearLoadLocks. intros H.
  destruct (Packet.isLLSC pkt); inv_ok; eauto.
Qed.

(** The block at [r] is valid and dirty. *)
Definition holds_dirty (r : blkptr) (c : Cache) : Prop :=
  exists b, get_blk r c = Ok b /\ Blk.isValid b = true /\ Blk.isDirty b = true.

Lemma put_dirty r b b' c :
  get_blk r c = Ok b -> Blk.isValid b' = true ->
  holds_dirty r (put_blk r (b' <| Blk.status ::= Z.lor Blk.BlkDirty |>) c).
Proof.
  intros Hb Hv. eexists. split; [by eapply get_put|]. by rewrite lor_dirty_valid, lor_dirty.
Qed.

Lemma cmpAndSwap_dirty r pkt c pkt' c' :
  cmpAndSwap r pkt c = Ok (pkt', c') -> holds_dirty r c -> holds_dirty r c'.
Proof.
  intros H (b & Hb & Hv & Hd). unfold cmpAndSwap in H. rewrite Hb in H.
  apply bind_ok in H as (_ & _ & H). apply bind_ok in H as (a & _ & H).
  cbn [mbind outcome_bind] in H. apply bind_ok in H as (n & _ & H).
  apply bind_ok in H as (_ & _ & H). apply bind_ok in H as (ov & _ & H).
  apply bind_ok in H as (pkt1 & _ & H). apply bind_ok in H as ([] & _ & H).
  - apply bind_ok in H as (d & _ & H). injection H as <- <-.
    set (b1 := b <| Blk.data := d |>). exact (put_dirty r b b1 c Hb Hv).
  - injection H as <- <-. by exists b.
Qed.

(** The bytes of the whole block, handed to the requester. *)
Lemma full_block_data c pkt d pkt' o :
  Packet.getOffset (blkSize c) pkt = Ok o -> 0 <= Packet.addr pkt ->
  Packet.getSize pkt = Ok (blkSize c) -> o + blkSize c <= blkSize c ->
  Packet.setDataFromBlock d (blkSize c) pkt = Ok pkt' ->
  exists d', Packet.data pkt' = Some d' /\
    forall i, 0 <= i < blkSize c -> d' !! Z.to_nat i = d !! Z.to_nat i.
Proof.
  intros Ho Ha Hn Hf H. unfold Packet.setDataFromBlock, Packet.setData in H.
  rewrite Ho, Hn in H. cbn [mbind outcome_bind] in H.
  apply bind_ok in H as (buf & _ & H). apply bind_ok in H as (d' & Hm & H). injection H as <-.
  assert (0 <= o) as Ho0.
  { unfold Packet.getOffset, Packet.getAddr in Ho. inv_ok. apply Z.land_nonneg. by left. }
  exists d'. split; [done|]. intros i Hi. destruct (Packet.memcpy_spec _ _ _ _ _ _ Hm) as [_ ->].
  rewrite decide_True by lia. f_equal. lia.
Qed.

(** C19: serving a request never loses modified data: a dirty block stays valid
    and dirty, or the response claims ownership (memory is inhibited) and carries
    the whole block, or the requester is about to overwrite its own copy
    (an upgrade or a write-invalidate). *)
Theorem satisfy_keeps_dirty_data ct dr pd pkt r c b pkt' c' :
  get_blk r c = Ok b -> Blk.isValid b = true -> Blk.isDirty b = true -> 0 <= Packet.addr pkt ->
  satisfyCpuSideRequest ct dr pd pkt r c = Ok (pkt', c') ->
  holds_dirty r c' \/
  (Packet.memInhibitAsserted pkt' = true /\ exists d, Packet.data pkt' = Some d /\
     forall i, 0 <= i < blkSize c -> d !! Z.to_nat i = Blk.data b !! Z.to_nat i) \/
  Packet.isUpgrade pkt || Packet.isWriteInvalidate pkt = true.
Proof.
  intros Hb Hv Hd Ha H. unfold satisfyCpuSideRequest in H. rewrite Hb in H.
  apply bind_ok in H as (_ & _ & H). cbn [mbind outcome_bind] in H.
  apply bind_ok in H as (_ & _ & H). apply bind_ok in H as (o & Ho & H).
  apply bind_ok in H as (n & Hn & H). apply bind_ok in H as ([] & Hf & H).
  apply ensure_ok, Z.leb_le in Hf.
  destruct (decide (Packet.cmd pkt = MemCmd.SwapReq)).
  { left. apply (cmpAndSwap_dirty _ _ _ _ _ H). by exists b. }
  destruct (Packet.isWrite pkt && _).
  { left. apply bind_ok in H as (_ & _ & H). apply bind_ok in H as ([[ok pkt1] b1] & Hc & H).
    apply checkWrite_frame in Hc as (ls & ->). apply bind_ok in H as (d & _ & H).
    injection H as <- <-. set (b1 := b <| Blk.lockList := ls |> <| Blk.data := d |>).
    exact (put_dirty r b b1 c Hb Hv). }
  destruct (Packet.isRead pkt).
  - apply bind_ok in H as (b1 & Hb1 & H).
    assert (exists ls, b1 = b <| Blk.lockList := ls |>) as (ls & ->).
    { destruct (Packet.isLLSC pkt); [|injection Hb1 as <-; exists (Blk.lockList b); by destruct b].
      unfold Blk.trackLoadLocked in Hb1. inv_ok. eauto. }
    set (b1 := b <| Blk.lockList := ls |>) in *. set (c1 := put_blk r b1 c) in *.
    assert (get_blk r c1 = Ok b1) as Hg by by eapply get_put.
    assert (holds_dirty r c1) as Hd1 by by exists b1.
    destruct (put_blk_frame r b1 c) as [Ebs _]. fold c1 in Ebs. rewrite Ebs in H.
    apply bind_ok in H as (pkt1 & Hs & H). change (Blk.data b1) with (Blk.data b) in Hs.
    destruct (n =? blkSize c) eqn:En; [|injection H as <- <-; by left]. apply Z.eqb_eq in En as ->.
    destruct (full_block_data c pkt (Blk.data b) pkt1 o Ho Ha Hn Hf Hs) as (d & Hdd & Hx).
    change (Blk.isDirty b1) with (Blk.isDirty b) in H. rewrite Hd in H.
    assert (forall pkt2, Packet.assertMemInhibit pkt1 = Ok pkt2 ->
      Packet.memInhibitAsserted pkt2 = true /\ Packet.data pkt2 = Some d) as Hmi.
    { intros pkt2 Hi. split; [by eapply memInhibit_set|].
      unfold Packet.assertMemInhibit in Hi. by inv_ok. }
    destruct (Packet.needsExclusive pkt1).
    + apply bind_ok in H as (pkt2 & Hi & H). apply bind_ok in H as (c2 & _ & H).
      injection H as <- <-. right; left. destruct (Hmi _ Hi). eauto.
    + destruct (Blk.isWritable b1 && _ && _ && _); [|injection H as <- <-; by left].
      destruct (negb dr && _); [|injection H as <- <-; by left].
      apply bind_ok in H as (pkt2 & Hi & H). injection H as <- <-. right; left.
      destruct (Hmi _ Hi). eauto.
  - do 2 right. apply bind_ok in H as ([] & Hu & H). apply ensure_ok in Hu.
    destruct (Packet.isUpgrade pkt); [done|]. simpl in *. by apply andb_true_iff in Hu as [-> _].
Qed.

Lemma satisfy_keeps_dirty_data_witness :
  let c := example_cache <| isTopLevel := false |>
             <| tags ::= (fun t => t <| BaseSetAssoc.blks ::=
                  alter (BaseSetAssoc.fill_status false false true) 0%nat |>) |> in
  exists pkt' c', satisfyCpuSideRequest 5 false false
      (example_request MemCmd.ReadReq 0 8 (replicate 8 0)) (InTags 0) c = Ok (pkt', c') /\
    Packet.data pkt' = Some (seqZ 10 8) /\
    (holds_dirty (InTags 0) c' \/ Packet.memInhibitAsserted pkt' = true).
Proof.
  intros c. assert (exists r b, satisfyCpuSideRequest 5 false false
      (example_request MemCmd.ReadReq 0 8 (replicate 8 0)) (InTags 0) c = Ok r /\
    Packet.data r.1 = Some (seqZ 10 8) /\ get_blk (InTags 0) c = Ok b /\
    Blk.isValid b = true /\ Blk.isDirty b = true) as ([pkt' c'] & b & E & Hd & Hb & Hv & Hdi)
    by (do 2 eexists; split_and!; vm_compute; reflexivity).
  exists pkt', c'. split; [exact E|]. split; [exact Hd|].
  destruct (satisfy_keeps_dirty_data 5 false false
    (example_request MemCmd.ReadReq 0 8 (replicate 8 0)) (InTags 0) c b pkt' c')
    as [H|[[H _]|H]].
  - exact Hb.
  - exact Hv.
  - exact Hdi.
  - discriminate.
  - exact E.
  - by left.
  - by right.
  - discriminate H.
Defined.

(** ** Victims and fills *)

(** [b'] holds the same line as [b] for the same owner. *)
Record same_holder (b b' : Blk.CacheBlk) : Prop := {
  sh_slot : BaseSetAssoc.slot b' = BaseSetAssoc.slot b;
  sh_valid : Blk.isValid b' = Blk.isValid b;
  sh_touched : Blk.isTouched b' = Blk.isTouched b;
  sh_master : Blk.srcMasterId b' = Blk.srcMasterId b;
  sh_set : Blk.set b' = Blk.set b;
  sh_data : Blk.data b' = Blk.data b;
}.

Lemma clear_dirty_bit s i :
  0 <= i < 32 -> i <> 3 -> any_set (Z.land s (unot 32 Blk.BlkDirty)) (2 ^ i) = any_set s (2 ^ i).
Proof.
  intros Hi Hne. pose proof (Flags.isSet_clear 32 s 3 i ltac:(lia) ltac:(lia)) as H.
  rewrite decide_False in H by lia. exact H.
Qed.

Lemma clear_dirty_holder b ti tk :
  same_holder b (b <| Blk.task_id := ti |> <| Blk.tickInserted := tk |>
                   <| Blk.status ::= (fun s => Z.land s (unot 32 Blk.BlkDirty)) |>).
Proof.
  pose proof (clear_dirty_bit (Blk.status b) 0 ltac:(lia) ltac:(lia)) as H0.
  pose proof (clear_dirty_bit (Blk.status b) 6 ltac:(lia) ltac:(lia)) as H6.
  split; try done. unfold BaseSetAssoc.slot, Blk.isValid, Blk.isSecure. simpl.
  change Blk.BlkValid with (2 ^ 0). change Blk.BlkSecure with (2 ^ 6). by rewrite H0, H6.
Qed.

Lemma memcpy_full d src n d' :
  Packet.memcpy d 0 src 0 n = Ok d' -> Z.of_nat (length d) = n -> Z.of_nat (length src) = n ->
  d' = src.
Proof.
  intros H Hd Hs. destruct (Packet.memcpy_spec _ _ _ _ _ _ H) as [Hl Hx].
  apply list_eq. intros i. rewrite Hx. destruct (decide _) as [Hi|Hi].
  - f_equal. lia.
  - rewrite !lookup_ge_None_2 by lia. done.
Qed.

(** The writeback of the block [b]: a packet of its own with the block's address
    and bytes. *)
Record writeback_of (c : Cache) (b : Blk.CacheBlk) (wb : Packet.Packet) : Prop := {
  wo_cmd : Packet.cmd wb = MemCmd.Writeback;
  wo_addr : Packet.getAddr wb = Ok (BaseSetAssoc.regenerateBlkAddr (tags c) (Blk.tag b) (Blk.set b));
  wo_size : Packet.getSize wb = Ok (blkSize c);
  wo_sec : Packet._isSecure wb = Blk.isSecure b;
  wo_data : Packet.getPtr wb = Ok (Blk.data b);
  wo_own : Packet.memInhibitAsserted wb = false;
  wo_paddr : Request.hasPaddr (Packet.req wb) = true;
  wo_fetch : Request.isInstFetch (Packet.req wb) = false;
}.

(** The victim keeps its line and is clean. *)
Lemma writebackBlk_ok ct fresh p b c :
  get_blk (InTags p) c = Ok b -> Blk.isValid b = true -> Blk.isDirty b = true ->
  0 <= blkSize c -> Z.of_nat (length (Blk.data b)) = blkSize c ->
  (forall n, 0 <= n -> Z.of_nat (length (fresh n)) = n) ->
  exists wb b',
    writebackBlk ct fresh (InTags p) c =
      Ok (wb, put_blk (InTags p) b' (c <| writebackCount ::= Z.succ |>)) /\
    same_holder b b' /\ writeback_of c b wb.
Proof.
  intros Hb Hv Hd Hs Hlen Hfresh. unfold writebackBlk. rewrite Hb. cbn [mbind outcome_bind].
  rewrite Hv, Hd. cbn [mbind outcome_bind ensure andb]. cbv zeta.
  destruct (Packet.memcpy_total (fresh (blkSize c)) 0 (Blk.data b) 0 (blkSize c)) as (d & Hm);
    rewrite ?Hfresh by done; try lia.
  rewrite (memcpy_full _ _ _ _ Hm) in Hm by (rewrite ?Hfresh; done).
  unfold Request.Request_phys, Request.setPhys. simpl blkSize.
  rewrite (proj2 (Z.leb_le _ _) Hs). cbn [mbind outcome_bind ensure].
  destruct (Blk.isSecure b) eqn:Esec;
    (match goal with |- context [Blk.isWritable ?x] => destruct (Blk.isWritable x) end);
    (do 2 eexists; split_and!; [simpl; rewrite Hm; simpl; reflexivity
      |apply clear_dirty_holder|]); (split; reflexivity || by rewrite Esec).
Qed.

(** The tags refine the abstract LRU state [A], and every block has its bytes. *)
Record cache_ok (k s : Z) (A : list (list BaseSetAssoc.key)) (c : Cache) : Prop := {
  co_refines : LRU.refines k s (maxMasters c) (tags c) A;
  co_blkSize : blkSize c = 2 ^ k;
  co_data : forall p b, BaseSetAssoc.blks (tags c) !! p = Some b ->
              Z.of_nat (length (Blk.data b)) = blkSize c;
}.

Lemma cache_ok_size k s A c : cache_ok k s A c -> 0 < blkSize c.
Proof.
  intros [[_ [] _ _ _] -> _]. apply pow2_pos. lia.
Qed.

(** A block may be replaced by one that holds the same line. *)
Lemma cache_ok_put k s A c p b b' :
  cache_ok k s A c -> BaseSetAssoc.blks (tags c) !! p = Some b -> same_holder b b' ->
  Blk.isValid b = true -> cache_ok k s A (put_blk (InTags p) b' c).
Proof.
  intros [Hr Hb Hd] Hp [] Hv. split; simpl; try done.
  - apply (LRU.refines_blk _ _ _ _ _ p b); try done. congruence.
  - intros q x. destruct (decide (q = p)) as [->|Hne].
    + rewrite list_lookup_insert_eq by by eapply lookup_lt_Some. intros [= <-].
      rewrite sh_data0. eauto.
    + rewrite list_lookup_insert_ne by done. eauto.
Qed.

(** What is written back when the victim [b] is replaced. *)
Definition victim_writeback (c : Cache) (b : Blk.CacheBlk) (wbs : list Packet.Packet) : Prop :=
  if Blk.isValid b && Blk.isDirty b then
    exists wb, wbs = [wb] /\ writeback_of c b wb
  else wbs = [].

Lemma put_same p b c : BaseSetAssoc.blks (tags c) !! p = Some b -> put_blk (InTags p) b c = c.
Proof. intros H. destruct c as [t]. destruct t. unfold put_blk. simpl in *. by rewrite list_insert_id. Qed.

Lemma allocateBlock_ok k s A ct fresh h addr sec writebacks c p b :
  cache_ok k s A c -> LRU.findVictim (tags c) addr = Ok p ->
  BaseSetAssoc.blks (tags c) !! p = Some b ->
  (Blk.isValid b = true ->
   MSHRQueue.findMatch (BaseSetAssoc.regenerateBlkAddr (tags c) (Blk.tag b) (Blk.set b))
     (Blk.isSecure b) h (mshrQueue c) = Ok None) ->
  (forall n, 0 <= n -> Z.of_nat (length (fresh n)) = n) ->
  exists wbs c1, allocateBlock ct fresh h addr sec writebacks c =
      Ok (Some p, writebacks ++ wbs, c1) /\
    cache_ok k s A c1 /\ LRU.findVictim (tags c1) addr = Ok p /\ victim_writeback c b wbs /\
    exists n b1, c1 = put_blk (InTags p) b1 (c <| writebackCount := n |>) /\ same_holder b b1.
Proof.
  intros Hc Hvic Hp Hmshr Hfresh. unfold allocateBlock, victim_writeback. rewrite Hvic.
  cbn [mbind outcome_bind get_blk]. unfold pget. rewrite Hp. cbn [mbind outcome_bind].
  assert (exists n b1, c = put_blk (InTags p) b1 (c <| writebackCount := n |>) /\ same_holder b b1) as Hsame.
  { exists (writebackCount c), b. split; [|done]. rewrite put_same; [by destruct c|done]. }
  destruct (Blk.isValid b) eqn:Ev; simpl andb.
  2:{ exists [], c. by rewrite app_nil_r. }
  rewrite Hmshr by done. cbn [mbind outcome_bind].
  destruct (Blk.isDirty b) eqn:Ed.
  2:{ exists [], c. by rewrite app_nil_r. }
  pose proof (cache_ok_size _ _ _ _ Hc).
  destruct (writebackBlk_ok ct fresh p b c) as (wb & b' & -> & Hh & Hwo);
    try done; [by apply pget_ok|lia|by eapply co_data|].
  cbn [mbind outcome_bind]. eexists [wb], _. split; [reflexivity|]. split_and!.
  - apply (cache_ok_put _ _ _ _ p b); try done. by destruct Hc.
  - exact Hvic.
  - by exists wb.
  - exists (Z.succ (writebackCount c)), b'. by destruct c.
Qed.

(** The state of a block just filled. *)
Lemma fill_status_state sec sh inh x :
  Blk.status x = 0 ->
  let b := BaseSetAssoc.fill_status sec sh inh x in
  Blk.isReadable b = true /\ Blk.isWritable b = negb sh /\ Blk.isDirty b = negb sh && inh.
Proof.
  intros E. unfold BaseSetAssoc.fill_status, Blk.isReadable, Blk.isWritable, Blk.isDirty.
  destruct sec, sh, inh; simpl; rewrite E; by split_and!.
Qed.

Lemma inserted_status masters ct pkt tag b :
  BaseSetAssoc.blk_ok masters b ->
  Blk.status (BaseSetAssoc.inserted ct pkt tag b) = 0 /\
  Blk.data (BaseSetAssoc.inserted ct pkt tag b) = Blk.data b.
Proof.
  intros [_ _ H]. unfold BaseSetAssoc.inserted. destruct (Blk.isValid b); simpl; auto.
Qed.

(** The part of [handleFill] after the block is chosen. *)
Lemma fill_data_ok c b pkt bytes :
  Packet.hasData pkt = true -> Packet.isRead pkt = true -> Packet.getSize pkt = Ok (blkSize c) ->
  Packet.getPtr pkt = Ok bytes -> Z.of_nat (length bytes) = blkSize c ->
  Z.of_nat (length (Blk.data b)) = blkSize c ->
  (if Packet.isRead pkt then
     _ ← ensure AssertFailed (Packet.hasData pkt);
     n ← Packet.getSize pkt;
     _ ← ensure AssertFailed (n =? blkSize c);
     src ← Packet.getPtr pkt;
     Packet.memcpy (Blk.data b) 0 src 0 (blkSize c)
   else Ok (Blk.data b)) = Ok bytes.
Proof.
  intros Hh Hr Hs Hp Hl Hd. rewrite Hr, Hh, Hs. cbn [mbind outcome_bind ensure].
  rewrite Z.eqb_refl, Hp. cbn [mbind outcome_bind ensure].
  destruct (Packet.memcpy_total (Blk.data b) 0 bytes 0 (blkSize c)) as (d & E); try lia.
  rewrite E. f_equal. by eapply memcpy_full.
Qed.

(** The responses that bring in a line that is not in the cache. *)
Record fill_packet (c : Cache) (pkt : Packet.Packet) (addr : Z) (sec : bool) (bytes : list Z)
  : Prop := {
  fp_response : Packet.isResponse pkt = true;
  fp_data : Packet.hasData pkt = true;
  fp_read : Packet.isRead pkt = true;
  fp_addr : Packet.getAddr pkt = Ok addr;
  fp_sec : Packet.isSecure pkt = Ok sec;
  fp_size : Packet.getSize pkt = Ok (blkSize c);
  fp_ptr : Packet.getPtr pkt = Ok bytes;
  fp_bytes : Z.of_nat (length bytes) = blkSize c;
  fp_low : 0 <= addr;
  fp_master : 0 <= Request.masterId (Packet.req pkt) < maxMasters c;
}.

Lemma put_put p b b' c : put_blk (InTags p) b' (put_blk (InTags p) b c) = put_blk (InTags p) b' c.
Proof. destruct c as [t]. destruct t. unfold put_blk. simpl. by rewrite list_insert_insert_eq. Qed.

(** Which lines are in depends on the abstract state only. *)
Lemma missing_by_abs k s masters masters' t t' A addr sec :
  LRU.refines k s masters t A -> LRU.refines k s masters' t' A -> 0 <= addr ->
  BaseSetAssoc.findBlock t addr sec = Ok None -> BaseSetAssoc.findBlock t' addr sec = Ok None.
Proof.
  intros H H' Ha.
  destruct (LRU.find_spec _ _ _ _ _ addr sec H Ha)
    as (cs & ks & Hcs & Hks & Ei & _ & _ & _ & r & Hr & Hres).
  destruct (LRU.find_spec _ _ _ _ _ addr sec H' Ha)
    as (cs' & ks' & Hcs' & Hks' & Ei' & _ & _ & _ & r' & Hr' & Hres').
  rewrite (LRU.findBlock_eq k s _ _ _ cs _ (LRU.rf_geo _ _ _ _ _ H) Ha Ei Hcs), Hr.
  rewrite (LRU.findBlock_eq k s _ _ _ cs' _ (LRU.rf_geo _ _ _ _ _ H') Ha Ei' Hcs'), Hr'.
  intros [= ->]. destruct r' as [p|]; [|done]. rewrite Hks in Hks'. injection Hks' as <-.
  by destruct Hres' as [? _].
Qed.

(** Inserting a missing line at the victim and filling it in. *)
Lemma fill_insert k s A ct pkt addr sec c p :
  cache_ok k s A c -> Packet.getAddr pkt = Ok addr -> 0 <= addr ->
  0 <= Request.masterId (Packet.req pkt) < maxMasters c ->
  BaseSetAssoc.findBlock (tags c) addr sec = Ok None -> LRU.findVictim (tags c) addr = Ok p ->
  exists t1 x, LRU.insertBlock ct (maxMasters c) pkt p (tags c) = Ok t1 /\
    BaseSetAssoc.blks t1 = <[p := x]> (BaseSetAssoc.blks (tags c)) /\ Blk.status x = 0 /\
    (exists b0, BaseSetAssoc.blks (tags c) !! p = Some b0 /\ Blk.data x = Blk.data b0) /\
    forall w d, Z.of_nat (length d) = blkSize c ->
      let b := (BaseSetAssoc.fill_status sec (Packet.sharedAsserted pkt)
                  (Packet.memInhibitAsserted pkt) x) <| Blk.data := d |> <| Blk.whenReady := w |> in
      BaseSetAssoc.slot b = Some (LRU.key_of k s addr sec) /\
      Blk.set b = Z.of_nat (LRU.set_of k s addr) /\
      exists A', cache_ok k s A' (put_blk (InTags p) b (c <| tags := t1 |>)).
Proof.
  intros Hc Fa Fl Fm Hmiss Hv. pose proof (co_refines _ _ _ _ Hc) as Hrf.
  destruct (LRU.find_spec _ _ _ _ _ addr sec Hrf Fl)
    as (cs & ks & Hcs & Hks & Ei & Et & Hrepr & Hnd & r & Hr & Hres).
  rewrite (LRU.findBlock_eq k s _ _ _ cs _ (LRU.rf_geo _ _ _ _ _ Hrf) Fl Ei Hcs), Hr in Hmiss.
  injection Hmiss as ->. set (sh := Packet.sharedAsserted pkt). set (inh := Packet.memInhibitAsserted pkt).
  destruct (LRU.fill_miss k s (maxMasters c) ct addr pkt sec sh inh (tags c) A cs ks)
    as (p' & t1 & v & Hv' & Hins & Hpu & Hrf2 & _ & b & Hb & Hset & Hx); try done.
  rewrite Hv in Hv'. injection Hv' as <-. set (x := BaseSetAssoc.inserted _ _ _ b) in *.
  assert (BaseSetAssoc.blk_ok (maxMasters c) b) as Hok
    by (eapply BaseSetAssoc.ac_blk; [apply Hrf|done]).
  destruct (inserted_status _ ct pkt (BaseSetAssoc.extractTag (tags c) addr) b Hok) as [Est Edt].
  destruct (BaseSetAssoc.filled_ok (maxMasters c) ct pkt (BaseSetAssoc.extractTag (tags c) addr)
    sec sh inh b Hok Fm) as (_ & Fslot & Fval & Fset & _). fold x in Est, Edt, Fslot, Fval, Fset.
  exists t1, x. split_and!; try done; [by exists b|]. intros w d Hd. cbv zeta.
  assert (BaseSetAssoc.blks t1 !! p = Some x) as Hx1
    by (rewrite Hx; apply list_lookup_insert_eq; by eapply lookup_lt_Some).
  apply pupd_ok in Hpu as (y & Ey & ->). rewrite Hx1 in Ey. injection Ey as <-.
  set (x1 := BaseSetAssoc.fill_status sec sh inh x) in *.
  set (x2 := x1 <| Blk.data := d |> <| Blk.whenReady := w |>).
  assert (p < length (BaseSetAssoc.blks t1))%nat as Hlt by by eapply lookup_lt_Some.
  change (BaseSetAssoc.slot x2) with (BaseSetAssoc.slot x1). change (Blk.set x2) with (Blk.set x1).
  split; [by rewrite Fslot, Et|]. split; [by rewrite Fset|].
  exists (<[LRU.set_of k s addr :=
         take (Z.to_nat (BaseSetAssoc.assoc (tags c))) (LRU.key_of k s addr sec :: ks)]> A).
  split; [|apply Hc|].
  - match goal with |- LRU.refines _ _ _ _ ?A' =>
      change (LRU.refines k s (maxMasters c) (t1 <| BaseSetAssoc.blks ::= <[p := x2]> |>) A') end.
    replace (t1 <| BaseSetAssoc.blks ::= <[p := x2]> |>)
      with ((t1 <| BaseSetAssoc.blks := <[p := x1]> (BaseSetAssoc.blks t1) |>)
              <| BaseSetAssoc.blks ::= <[p := x2]> |>)
      by (destruct t1; simpl; by rewrite list_insert_insert_eq).
    apply (LRU.refines_blk _ _ _ _ _ p x1); [exact Hrf2| |done..]. simpl. by rewrite list_lookup_insert_eq.
  - intros q b0. simpl. rewrite Hx, list_insert_insert_eq. destruct (decide (q = p)) as [->|Hne].
    + rewrite list_lookup_insert_eq by by eapply lookup_lt_Some. by intros [= <-].
    + rewrite list_lookup_insert_ne by done. apply Hc.
Qed.

(** What can be filled in: a response with data, or a write of a whole line. *)
Record fill_source (c : Cache) (pkt : Packet.Packet) (addr : Z) (sec : bool) (bytes : list Z)
  : Prop := {
  fs_response : Packet.isResponse pkt || Packet.isWriteInvalidate pkt = true;
  fs_data : Packet.hasData pkt = true;
  fs_kind : Packet.isRead pkt || Packet.isWriteInvalidate pkt = true;
  fs_addr : Packet.getAddr pkt = Ok addr;
  fs_sec : Packet.isSecure pkt = Ok sec;
  fs_bytes : Packet.isRead pkt = true -> Packet.getSize pkt = Ok (blkSize c) /\
               Packet.getPtr pkt = Ok bytes /\ Z.of_nat (length bytes) = blkSize c;
  fs_low : 0 <= addr;
  fs_master : 0 <= Request.masterId (Packet.req pkt) < maxMasters c;
}.

(** The block [b] just filled in from [pkt] over the victim [v]. *)
Record filled (k s : Z) (pkt : Packet.Packet) (addr : Z) (sec : bool) (bytes : list Z)
  (v b : Blk.CacheBlk) : Prop := {
  fl_slot : BaseSetAssoc.slot b = Some (LRU.key_of k s addr sec);
  fl_set : Blk.set b = Z.of_nat (LRU.set_of k s addr);
  fl_data : Blk.data b = if Packet.isRead pkt then bytes else Blk.data v;
  fl_readable : Blk.isReadable b = true;
  fl_writable : Blk.isWritable b = negb (Packet.sharedAsserted pkt);
  fl_dirty : Blk.isDirty b = negb (Packet.sharedAsserted pkt) && Packet.memInhibitAsserted pkt;
}.

Lemma fill_data_cases c x pkt addr sec bytes :
  fill_source c pkt addr sec bytes -> Z.of_nat (length (Blk.data x)) = blkSize c ->
  let d := if Packet.isRead pkt then bytes else Blk.data x in
  Z.of_nat (length d) = blkSize c /\
  (if Packet.isRead pkt then
     _ ← ensure AssertFailed (Packet.hasData pkt);
     n ← Packet.getSize pkt;
     _ ← ensure AssertFailed (n =? blkSize c);
     src ← Packet.getPtr pkt;
     Packet.memcpy (Blk.data x) 0 src 0 (blkSize c)
   else Ok (Blk.data x)) = Ok d.
Proof.
  intros Hf Hx d. unfold d. destruct (Packet.isRead pkt) eqn:Er; [|done].
  destruct (fs_bytes _ _ _ _ _ Hf Er) as (Hs & Hp & Hl). split; [done|].
  pose proof (fill_data_ok c x pkt bytes (fs_data _ _ _ _ _ Hf) Er Hs Hp Hl Hx) as H. by rewrite Er in H.
Qed.

(** The fill of a line that is not in the cache, with the new state. *)
Lemma handleFill_ok k s A ct now fresh h pkt addr sec bytes writebacks c :
  cache_ok k s A c -> fill_source c pkt addr sec bytes ->
  BaseSetAssoc.findBlock (tags c) addr sec = Ok None ->
  (forall p b, LRU.findVictim (tags c) addr = Ok p ->
     BaseSetAssoc.blks (tags c) !! p = Some b -> Blk.isValid b = true ->
     MSHRQueue.findMatch (BaseSetAssoc.regenerateBlkAddr (tags c) (Blk.tag b) (Blk.set b))
       (Blk.isSecure b) h (mshrQueue c) = Ok None) ->
  (forall n, 0 <= n -> Z.of_nat (length (fresh n)) = n) ->
  exists p v wbs b t n, handleFill ct now fresh h pkt None writebacks c =
      Ok (InTags p, writebacks ++ wbs, c <| writebackCount := n |> <| tags := t |>) /\
    LRU.findVictim (tags c) addr = Ok p /\ BaseSetAssoc.blks (tags c) !! p = Some v /\
    victim_writeback c v wbs /\ filled k s pkt addr sec bytes v b /\
    BaseSetAssoc.blks t = <[p := b]> (BaseSetAssoc.blks (tags c)) /\
    exists A', cache_ok k s A' (c <| writebackCount := n |> <| tags := t |>).
Proof.
  intros Hc Hf Hmiss Hmshr Hfresh. pose proof Hf as [Fr Fd Fk Fa Fs Fb Fl Fm].
  pose proof (co_refines _ _ _ _ Hc) as Hrf.
  destruct (LRU.find_spec _ _ _ _ _ addr sec Hrf Fl) as (cs & _ & Hcs & _ & Ei & _).
  destruct (LRU.findVictim_ok _ _ _ _ (LRU.rf_wf _ _ _ _ _ Hrf) Ei Hcs)
    as (_ & p & v & Hv & _ & Hp & _).
  destruct (allocateBlock_ok k s A ct fresh h addr sec writebacks c p v Hc Hv Hp (Hmshr p v Hv Hp) Hfresh)
    as (wbs & c1 & Ea & Hc1 & Hv1 & Hwb & n & b1 & Ec1 & Hh).
  assert (blkSize c1 = blkSize c /\ maxMasters c1 = maxMasters c) as [Ebs Emm] by by subst.
  destruct (fill_insert k s A ct pkt addr sec c1 p) as (t1 & x & Hins & Hx & Est & (b0 & Hb0 & Edx) & Hfill);
    rewrite ?Emm; try done.
  { by eapply missing_by_abs; [apply Hrf|apply Hc1|..]. }
  set (sh := Packet.sharedAsserted pkt) in *. set (inh := Packet.memInhibitAsserted pkt) in *.
  set (x1 := BaseSetAssoc.fill_status sec sh inh x).
  assert (Blk.data x1 = Blk.data x) as Edt by (by unfold x1; destruct sec, sh, inh).
  assert (BaseSetAssoc.blks t1 !! p = Some x) as Hx1.
  { rewrite Hx, list_lookup_insert_eq; [done|]. subst c1. simpl. rewrite length_insert. by eapply lookup_lt_Some. }
  assert (Blk.data x = Blk.data v) as Edv.
  { rewrite Edx. subst c1. simpl in Hb0. rewrite list_lookup_insert_eq in Hb0 by by eapply lookup_lt_Some.
    injection Hb0 as <-. apply Hh. }
  destruct (fill_data_cases c x1 pkt addr sec bytes Hf) as [Hld Ed]; [rewrite Edt, Edv; by eapply co_data|].
  rewrite Edt in Hld, Ed. set (d := if Packet.isRead pkt then bytes else Blk.data x) in *.
  set (b := x1 <| Blk.data := d |> <| Blk.whenReady := now + Packet.payloadDelay pkt |>).
  destruct (Hfill (now + Packet.payloadDelay pkt) d) as (Hslot & Hset & A' & Hc2); [by rewrite Ebs|].
  fold x1 in Hslot, Hset, Hc2. fold b in Hslot, Hset, Hc2.
  set (c2 := c1 <| tags := t1 |>) in *.
  assert (put_blk (InTags p) b c2 =
    c <| writebackCount := n |> <| tags := t1 <| BaseSetAssoc.blks ::= <[p := b]> |> |>) as Ec2.
  { unfold c2. rewrite Ec1. by destruct c. }
  exists p, v, wbs, b, (t1 <| BaseSetAssoc.blks ::= <[p := b]> |>), n. rewrite <- Ec2.
  split_and!; try done; [| | |by exists A'].
  - unfold handleFill. rewrite Fr, Fa, Fs, Fd, Fk. cbn [mbind outcome_bind ensure].
    rewrite Ea. cbn [mbind outcome_bind]. rewrite Hins. cbn [mbind outcome_bind]. fold c2.
    assert (get_blk (InTags p) c2 = Ok x) as Hg by by apply pget_ok.
    assert (Blk.isValid x = false) as Hinv by (unfold Blk.isValid; by rewrite Est).
    rewrite Hg. cbn [mbind outcome_bind]. rewrite Hinv. cbn [mbind outcome_bind ensure negb].
    rewrite Hg. cbn [mbind outcome_bind]. fold sh inh x1. rewrite Edt.
    change (blkSize c2) with (blkSize c1). rewrite Ebs.
    rewrite Fd in Ed. cbn [mbind outcome_bind ensure] in Ed. rewrite Ed. done.
  - destruct (fill_status_state sec sh inh x Est) as (S1 & S2 & S3). split; try done. simpl. unfold d.
    by rewrite Edv.
  - simpl. rewrite Hx, Ec1. simpl. by rewrite !list_insert_insert_eq.
Qed.

(** C18: a response for a line that is not in the cache is filled in completely:
    when no MSHR holds the victim, the fill runs without failing an assertion,
    the victim's data is written back under its own address if it was dirty, and
    afterwards a lookup of the address finds the block, readable, with the bytes
    of the response, writable exactly if no other cache shares it and dirty
    exactly if the response passed on ownership. *)
Theorem fill_then_found k s A ct now fresh h pkt addr sec bytes writebacks c :
  cache_ok k s A c -> fill_packet c pkt addr sec bytes ->
  BaseSetAssoc.findBlock (tags c) addr sec = Ok None ->
  (forall p b, LRU.findVictim (tags c) addr = Ok p ->
     BaseSetAssoc.blks (tags c) !! p = Some b -> Blk.isValid b = true ->
     MSHRQueue.findMatch (BaseSetAssoc.regenerateBlkAddr (tags c) (Blk.tag b) (Blk.set b))
       (Blk.isSecure b) h (mshrQueue c) = Ok None) ->
  (forall n, 0 <= n -> Z.of_nat (length (fresh n)) = n) ->
  exists p v wbs b c', handleFill ct now fresh h pkt None writebacks c =
      Ok (InTags p, writebacks ++ wbs, c') /\
    LRU.findVictim (tags c) addr = Ok p /\ BaseSetAssoc.blks (tags c) !! p = Some v /\
    victim_writeback c v wbs /\
    BaseSetAssoc.findBlock (tags c') addr sec = Ok (Some p) /\
    get_blk (InTags p) c' = Ok b /\ Blk.data b = bytes /\ Blk.isReadable b = true /\
    Blk.isWritable b = negb (Packet.sharedAsserted pkt) /\
    Blk.isDirty b = negb (Packet.sharedAsserted pkt) && Packet.memInhibitAsserted pkt.
Proof.
  intros Hc Hf Hmiss Hmshr Hfresh. pose proof Hf as [Fr Fd Frd Fa Fs Fz Fp Fb Fl Fm].
  destruct (handleFill_ok k s A ct now fresh h pkt addr sec bytes writebacks c)
    as (p & v & wbs & b & t & n & E & Hv & Hp & Hwb & [H1 H2 H3 H4 H5 H6] & Hb & A' & Hc'); try done.
  { split; try done; by rewrite ?Fr, ?Frd. }
  set (c' := c <| writebackCount := n |> <| tags := t |>) in *. rewrite Frd in H3.
  assert (BaseSetAssoc.blks (tags c') !! p = Some b) as Hpb.
  { simpl. rewrite Hb, list_lookup_insert_eq; [done|]. by eapply lookup_lt_Some. }
  exists p, v, wbs, b, c'. split_and!; try done; [|by apply pget_ok].
  eapply LRU.find_holder; [apply (co_refines _ _ _ _ Hc')|done..].
Qed.

Definition empty_cache : Cache :=
  MkCache example_tags (MSHRQueue.MSHRQueue_new 0 2 1 0 0) Blk.CacheBlk0 8 true 2 2 2 0 false
    [] [] 0.

Lemma fill_then_found_witness :
  let pkt := (example_request MemCmd.ReadResp 24 8 (seqZ 50 8)) <| Packet.req ::=
               (fun r => r <| Request._masterId := 1 |>) |> in
  exists p wbs c' b,
    handleFill 7 9 (fun n => replicate (Z.to_nat n) 0) [] pkt None [] empty_cache =
      Ok (InTags p, wbs, c') /\
    BaseSetAssoc.findBlock (tags c') 24 false = Ok (Some p) /\
    get_blk (InTags p) c' = Ok b /\ Blk.data b = seqZ 50 8.
Proof.
  intros pkt.
  destruct (LRU.new_refines (seqZ 10 8) 2 (BaseSetAssoc.MkParams 16 8 1 2 false) eq_refl ltac:(lia))
    as (t & k & s & E & Ek & _ & _ & Hrf).
  assert (t = example_tags) as -> by (vm_compute in E; injection E as <-; reflexivity).
  destruct (fill_then_found k s (replicate (Z.to_nat (BaseSetAssoc.numSets example_tags)) [])
    7 9 (fun n => replicate (Z.to_nat n) 0) [] pkt 24 false (seqZ 50 8)
    [] empty_cache) as (p & v & wbs & b & c' & Ef & _ & _ & _ & Hf & Hb & Hd & _).
  - split; [exact Hrf|exact Ek|].
    intros [|[|p]] b Hp; vm_compute in Hp; injection Hp as <- || discriminate Hp; reflexivity.
  - split; try reflexivity; vm_compute; try split; congruence.
  - reflexivity.
  - intros p b Hp Hb Hv. vm_compute in Hp. injection Hp as <-. vm_compute in Hb.
    injection Hb as <-. discriminate Hv.
  - intros n Hn. rewrite length_replicate. lia.
  - exists p, wbs, c', b. split_and!; try done.
Defined.

End Cache.
