(* ===== verification/CacheIssue.v ===== *)
(** What a cache sends towards memory next: the buffers of [mem/cache/base.hh]
    and [Cache::getNextMSHR] of [mem/cache/cache_impl.hh], which chooses between
    the miss queue, the write buffer and the prefetcher. *)

From S2P Require Import Prelude IntMath Request MemCmd Packet Blk CacheSet BaseSetAssoc LRU.
From S2P Require Import BasePrefetcher QueuedPrefetcher TaggedPrefetcher MSHR MSHRQueue Cache.
From S2P Require Import AddrRange PacketQueue CachePort.
Local Open Scope Z_scope.

Module CacheIssue.
Import Cache.

(** ** State *)

(** The parameters of [BaseCache] and [Cache]. *)
Record Params := MkParams {
  forwardLatency : Z;
  responseLatency : Z;
  numTarget : Z;
  forwardSnoops : bool;
  prefetchOnAccess : bool;
  addrRanges : list AddrRange.AddrRange;
}.

(** The statistics of misses, as the list of what was counted: the command, the
    master and, for the latencies, the ticks added. *)
Inductive Stat :=
  | MshrMiss (c : MemCmd.Command) (m : Z)
  | MshrHit (c : MemCmd.Command) (m : Z)
  | MshrUncacheable (c : MemCmd.Command) (m : Z)
  | MshrUncacheableLat (c : MemCmd.Command) (m t : Z)
  | MshrMissLat (c : MemCmd.Command) (m t : Z)
  | MissLat (c : MemCmd.Command) (m t : Z).

Section issue.
Context {G : Type} `{Generator G}.

(** [blocked] is the bit vector of causes; [reqQueue] and [snoopRespQueue] are
    the queues of the memory-side port; [expressReqs] collects the packets sent
    below at once, and [pendingDelete] the packets whose deletion is put off. *)
Record Issue := MkIssue {
  cache : Cache;
  writeBuffer : MSHRQueue.MSHRQueue;
  prefetcher : option (QueuedPrefetcher.Queued G);
  params : Params;
  order : Z;
  blocked : Z;
  noTargetMSHR : option nat;
  cpuSidePort : CachePort.CacheSlavePort;
  reqQueue : PacketQueue.PacketQueue;
  snoopRespQueue : PacketQueue.PacketQueue;
  expressReqs : list Packet.Packet;
  pendingDelete : list Packet.Packet;
  stats : list Stat;
  heap : list MSHR.MSHR;
}.
#[global] Instance eta_Issue : Eta Issue := fun s =>
  MkIssue (cache s) (writeBuffer s) (prefetcher s) (params s) (order s) (blocked s)
    (noTargetMSHR s) (cpuSidePort s) (reqQueue s) (snoopRespQueue s) (expressReqs s)
    (pendingDelete s) (stats s) (heap s).

Definition blockAlign (s : Issue) (addr : Z) : Z :=
  Z.land addr (unot 64 (blkSize (cache s) - 1)).

(** ** Blocking *)

Definition Blocked_NoTargets : Z := 2.
Definition Request_PF : Z := 2.

Definition isBlocked (s : Issue) : bool := negb (blocked s =? 0).

Definition setBlocked (cause : Z) (s : Issue) : outcome Issue :=
  let flag := u8 (Z.shiftl 1 cause) in
  s ← (if blocked s =? 0 then
         p ← CachePort.setBlocked (cpuSidePort s);
         Ok (s <| cpuSidePort := p |>)
       else Ok s);
  Ok (s <| blocked := Z.lor (blocked s) flag |>).

Definition clearBlocked (curTick cause : Z) (s : Issue) : outcome Issue :=
  let flag := u8 (Z.shiftl 1 cause) in
  let s := s <| blocked := Z.land (blocked s) (unot 8 flag) |> in
  if blocked s =? 0 then
    p ← CachePort.clearBlocked curTick (cpuSidePort s);
    Ok (s <| cpuSidePort := p |>)
  else Ok s.

(** ** Buffers *)

(** The two queues. *)
Inductive which := Misses | Writes.
Definition queue (w : which) (s : Issue) : MSHRQueue.MSHRQueue :=
  match w with Misses => mshrQueue (cache s) | Writes => writeBuffer s end.
Definition set_queue (w : which) (q : MSHRQueue.MSHRQueue) (s : Issue) : Issue :=
  match w with
  | Misses => s <| cache ::= (fun c => c <| mshrQueue := q |>) |>
  | Writes => s <| writeBuffer := q |>
  end.

(** [mshr->queue]: the registers of a queue are those on its allocated and its
    free list. *)
Definition queue_of (id : nat) (s : Issue) : which :=
  let q := mshrQueue (cache s) in
  if decide (id ∈ MSHRQueue.allocatedList q ++ MSHRQueue.freeList q) then Misses else Writes.

(** [memSidePort->requestBus(cause, time)]; the cause is only printed. *)
Definition requestMemSideBus (curTick cause time : Z) (s : Issue) : outcome Issue :=
  q ← PacketQueue.schedSendEvent curTick time (reqQueue s);
  Ok (s <| reqQueue := q |>).

Definition allocateBufferInternal (curTick : Z) (mq : which) (addr size : Z)
  (pkt : Packet.Packet) (time : Z) (requestBus : bool) (s : Issue) : outcome (nat * Issue) :=
  _ ← ensure AssertFailed (addr =? blockAlign s addr);
  '(id, q, h) ← MSHRQueue.allocate curTick addr size pkt time (order s) (queue mq s) (heap s);
  let s := (set_queue mq q s) <| heap := h |> <| order := u64 (order s + 1) |> in
  s ← (if MSHRQueue.isFull q then setBlocked (MSHRQueue.index q) s else Ok s);
  s ← (if requestBus then requestMemSideBus curTick (MSHRQueue.index q) time s else Ok s);
  Ok (id, s).

Definition allocateMissBuffer (curTick : Z) (pkt : Packet.Packet) (time : Z) (requestBus : bool)
  (s : Issue) : outcome (nat * Issue) :=
  a ← Packet.getAddr pkt;
  allocateBufferInternal curTick Misses (blockAlign s a) (blkSize (cache s)) pkt time requestBus s.

Definition allocateWriteBuffer (curTick : Z) (pkt : Packet.Packet) (time : Z) (requestBus : bool)
  (s : Issue) : outcome (nat * Issue) :=
  _ ← ensure AssertFailed (Packet.isWrite pkt && negb (Packet.isRead pkt));
  a ← Packet.getAddr pkt;
  allocateBufferInternal curTick Writes (blockAlign s a) (blkSize (cache s)) pkt time requestBus s.

Definition markInServiceInternal (curTick : Z) (id : nat) (pending_dirty_resp : bool) (s : Issue)
  : outcome Issue :=
  let mq := queue_of id s in
  let wasFull := MSHRQueue.isFull (queue mq s) in
  '(q, h) ← MSHRQueue.markInService id pending_dirty_resp (queue mq s) (heap s);
  let s := (set_queue mq q s) <| heap := h |> in
  if wasFull && negb (MSHRQueue.isFull q) then clearBlocked curTick (MSHRQueue.index q) s
  else Ok s.

(** The last part of [getNextMSHR]: try a prefetch. *)
Definition try_prefetch (curTick : Z) (s : Issue) : outcome (option nat * Issue) :=
  match prefetcher s with
  | Some pf =>
      if MSHRQueue.canPrefetch (mshrQueue (cache s)) then
        let '(p, pf) := QueuedPrefetcher.getPacket pf in
        let s := s <| prefetcher := Some pf |> in
        match p with
        | None => Ok (None, s)
        | Some pkt =>
            a ← Packet.getAddr pkt;
            let pf_addr := blockAlign s a in
            sec ← Packet.isSecure pkt;
            b ← BaseSetAssoc.findBlock (tags (cache s)) pf_addr sec;
            m ← (match b with
                 | Some _ => Ok None
                 | None => MSHRQueue.findMatch pf_addr sec (heap s) (mshrQueue (cache s))
                 end);
            w ← (match b, m with
                 | None, None => MSHRQueue.findMatch pf_addr sec (heap s) (writeBuffer s)
                 | _, _ => Ok None
                 end);
            match b, m, w with
            | None, None, None =>
                let mid := Request.masterId (Packet.req pkt) in
                _ ← ensure AssertFailed (mid <? maxMasters (cache s));
                let s := s <| stats ::= cons (MshrMiss (Packet.cmd pkt) mid) |> in
                '(id, s) ← allocateMissBuffer curTick pkt curTick false s;
                Ok (Some id, s)
            | _, _, _ => Ok (None, s)
            end
        end
      else Ok (None, s)
  | None => Ok (None, s)
  end.

Definition getNextMSHR (curTick : Z) (s : Issue) : outcome (option nat * Issue) :=
  miss ← MSHRQueue.getNextMSHR curTick (heap s) (mshrQueue (cache s));
  write ← MSHRQueue.getNextMSHR curTick (heap s) (writeBuffer s);
  let write_first :=
    (MSHRQueue.isFull (writeBuffer s) && (MSHRQueue.inServiceEntries (writeBuffer s) =? 0))
    || match miss with None => true | Some _ => false end in
  match write, write_first, miss with
  | Some w, true, _ =>
      wm ← pget (heap s) w;
      conflict ← MSHRQueue.findPending (MSHR.blkAddr wm) (MSHR.isSecure wm) (heap s)
                   (mshrQueue (cache s));
      match conflict with
      | Some c =>
          cm ← pget (heap s) c;
          Ok (Some (if MSHR.order cm <? MSHR.order wm then c else w), s)
      | None => Ok (Some w, s)
      end
  | _, _, Some i =>
      mm ← pget (heap s) i;
      conflict ← MSHRQueue.findPending (MSHR.blkAddr mm) (MSHR.isSecure mm) (heap s)
                   (writeBuffer s);
      Ok (Some (default i conflict), s)
  | _, _, None =>
      _ ← ensure AssertFailed (match write with None => true | Some _ => false end);
      try_prefetch curTick s
  end.

Definition nextMSHRReadyTime (s : Issue) : outcome Z :=
  a ← MSHRQueue.nextMSHRReadyTime MaxTick (heap s) (mshrQueue (cache s));
  b ← MSHRQueue.nextMSHRReadyTime MaxTick (heap s) (writeBuffer s);
  let next := Z.min a b in
  Ok (match prefetcher s with
      | Some pf =>
          if MSHRQueue.canPrefetch (mshrQueue (cache s))
          then Z.min next (QueuedPrefetcher.nextPrefetchReadyTime pf) else next
      | None => next
      end).

(** ** Prefetches *)

Lemma blockAlign_aligned s k a :
  blkSize (cache s) = 2 ^ k -> 0 <= k -> in_width 64 a -> a mod 2 ^ k = 0 -> blockAlign s a = a.
Proof.
  intros Hk Hk0 Ha Hm. unfold blockAlign. rewrite Hk, land_not_mask by done. lia.
Qed.

(** The miss queue and the heap of the cache. *)
Definition issue_ok (base : nat) (s : Issue) : Prop :=
  MSHRQueue.qinv base (mshrQueue (cache s)) (heap s) /\
  1 <= MSHRQueue.numReserve (mshrQueue (cache s)) /\
  0 <= MSHRQueue.demandReserve (mshrQueue (cache s)).

(** The prefetch at the head of the queue can be issued from this state. *)
Record prefetch_ready (s : Issue) (pf : QueuedPrefetcher.Queued G) (pkt : Packet.Packet) : Prop := {
  pr_pf : prefetcher s = Some pf;
  pr_head : exists t rest, QueuedPrefetcher.pfq pf = QueuedPrefetcher.MkDeferred t pkt :: rest;
  pr_addr : Packet.has_flag Packet.VALID_ADDR pkt = true;
  pr_width : in_width 64 (Packet.addr pkt);
  pr_size : exists k, 0 <= k /\ blkSize (cache s) = 2 ^ k /\ Packet.addr pkt mod 2 ^ k = 0;
  pr_sender : Packet.findNextSenderState_MSHR pkt = None;
  pr_cacheable : Request.isUncacheable (Packet.req pkt) = false;
  pr_master : Request.masterId (Packet.req pkt) < maxMasters (cache s);
}.

(** The block of the packet is nowhere in the cache. *)
Definition absent (s : Issue) (pkt : Packet.Packet) : Prop :=
  BaseSetAssoc.findBlock (tags (cache s)) (Packet.addr pkt) (Packet._isSecure pkt) = Ok None /\
  MSHRQueue.findMatch (Packet.addr pkt) (Packet._isSecure pkt) (heap s) (mshrQueue (cache s))
    = Ok None /\
  MSHRQueue.findMatch (Packet.addr pkt) (Packet._isSecure pkt) (heap s) (writeBuffer s) = Ok None.

Lemma try_prefetch_allocates base ct s pf pkt :
  issue_ok base s -> prefetch_ready s pf pkt ->
  MSHRQueue.canPrefetch (mshrQueue (cache s)) = true -> absent s pkt ->
  exists id s', try_prefetch ct s = Ok (Some id, s') /\
    prefetcher s' = Some (snd (QueuedPrefetcher.getPacket pf)) /\
    MSHRQueue.findMatch (Packet.addr pkt) (Packet._isSecure pkt) (heap s') (mshrQueue (cache s'))
      = Ok (Some id) /\
    issue_ok base s' /\ blocked s' = blocked s /\
    MSHRQueue.allocated (mshrQueue (cache s')) + MSHRQueue.demandReserve (mshrQueue (cache s))
      <= MSHRQueue.numEntries (mshrQueue (cache s)) - MSHRQueue.numReserve (mshrQueue (cache s)).
Proof.
  intros (Hq & Hr & Hd) [Hpf (t & rest & Hh) Ha Hw (k & Hk & Hbs & Hm) Hsnd Hun Hmm] Hcan (Hb & Hmq & Hwb).
  unfold try_prefetch. rewrite Hpf, Hcan. unfold QueuedPrefetcher.getPacket. rewrite Hh.
  cbn [QueuedPrefetcher.pkt]. set (pf' := pf <| QueuedPrefetcher.pfq := rest |> <| _ ::= _ |>).
  set (s0 := s <| prefetcher := Some pf' |>).
  unfold Packet.getAddr, Packet.isSecure. rewrite Ha. cbn [mbind outcome_bind ensure].
  assert (blockAlign s0 (Packet.addr pkt) = Packet.addr pkt) as Eal by by apply (blockAlign_aligned s0 k).
  rewrite Eal. change (cache s0) with (cache s). change (heap s0) with (heap s).
  change (writeBuffer s0) with (writeBuffer s).
  rewrite Hb. cbn [mbind outcome_bind]. rewrite Hmq. cbn [mbind outcome_bind]. rewrite Hwb.
  cbn [mbind outcome_bind]. rewrite (proj2 (Z.ltb_lt _ _) Hmm). cbn [mbind outcome_bind ensure].
  unfold MSHRQueue.canPrefetch in Hcan. apply Z.ltb_lt in Hcan.
  destruct (MSHRQueue.allocate_ok base ct (Packet.addr pkt) (blkSize (cache s)) pkt ct (order s)
    (mshrQueue (cache s)) (heap s) (Packet._isSecure pkt)) as
    (id & q' & h' & E & _ & _ & _ & _ & Hf & En & Ene & Enr & Edr); try done.
  { unfold MSHRQueue.isFull. rewrite Z.gtb_ltb. apply Z.ltb_ge. lia. }
  { unfold Packet.isSecure. by rewrite Ha. }
  { unfold MSHR.can_mark. by rewrite Hsnd. }
  assert (MSHRQueue.isFull q' = false) as Hnf.
  { unfold MSHRQueue.isFull. rewrite Z.gtb_ltb. apply Z.ltb_ge. lia. }
  destruct (Hf Hun) as (j & Hj & Hid). rewrite (Hid Hmq) in Hj.
  unfold allocateMissBuffer, Packet.getAddr. rewrite Ha. cbn [mbind outcome_bind ensure].
  unfold allocateBufferInternal. change (blockAlign _ (Packet.addr pkt)) with (blockAlign s0 (Packet.addr pkt)).
  rewrite Eal. change (blockAlign _ (Packet.addr pkt)) with (blockAlign s0 (Packet.addr pkt)).
  rewrite Eal, Z.eqb_refl. cbn [mbind outcome_bind ensure].
  cbn [queue cache heap order upd_field]. cbn. rewrite E. cbn [mbind outcome_bind]. rewrite Hnf.
  do 2 eexists. split; [reflexivity|]. cbn. split_and!; try done; try lia.
  split_and!; [|cbn; lia|cbn; lia]. by eapply MSHRQueue.allocate_qinv.
Qed.

(** A prefetch of a block that is already there is dropped. *)
Lemma try_prefetch_drops ct s pf pkt b m w :
  prefetch_ready s pf pkt -> MSHRQueue.canPrefetch (mshrQueue (cache s)) = true ->
  BaseSetAssoc.findBlock (tags (cache s)) (Packet.addr pkt) (Packet._isSecure pkt) = Ok b ->
  MSHRQueue.findMatch (Packet.addr pkt) (Packet._isSecure pkt) (heap s) (mshrQueue (cache s))
    = Ok m ->
  MSHRQueue.findMatch (Packet.addr pkt) (Packet._isSecure pkt) (heap s) (writeBuffer s) = Ok w ->
  ~ (b = None /\ m = None /\ w = None) ->
  try_prefetch ct s =
    Ok (None, s <| prefetcher := Some (snd (QueuedPrefetcher.getPacket pf)) |>).
Proof.
  intros [Hpf (t & rest & Hh) Ha Hw (k & Hk & Hbs & Hm) _ _ _] Hcan Hb Hmq Hwb Hno.
  unfold try_prefetch. rewrite Hpf, Hcan. unfold QueuedPrefetcher.getPacket. rewrite Hh.
  cbn [QueuedPrefetcher.pkt snd]. set (s0 := s <| prefetcher := Some _ |>).
  unfold Packet.getAddr, Packet.isSecure. rewrite Ha. cbn [mbind outcome_bind ensure].
  assert (blockAlign s0 (Packet.addr pkt) = Packet.addr pkt) as -> by by apply (blockAlign_aligned s0 k).
  change (cache s0) with (cache s). change (heap s0) with (heap s).
  change (writeBuffer s0) with (writeBuffer s). rewrite Hb. cbn [mbind outcome_bind].
  destruct b as [b|]; [done|]. rewrite Hmq. cbn [mbind outcome_bind].
  destruct m as [m|]; [done|]. rewrite Hwb. cbn [mbind outcome_bind].
  destruct w as [w|]; [done|]. by destruct Hno.
Qed.

(** When nothing else is ready and prefetches are allowed, the prefetch at the
    head of the prefetcher's queue is taken off. If its block is nowhere in the
    cache, the miss queue or the write buffer, an MSHR is allocated for it
    without a failing assertion and is the one found for the block; the demand
    reserve stays free and the cache does not block. Otherwise the prefetch is
    dropped and nothing else changes. *)
Theorem prefetch_issue base ct s pf pkt b m w :
  issue_ok base s -> prefetch_ready s pf pkt ->
  MSHRQueue.getNextMSHR ct (heap s) (mshrQueue (cache s)) = Ok None ->
  MSHRQueue.getNextMSHR ct (heap s) (writeBuffer s) = Ok None ->
  MSHRQueue.canPrefetch (mshrQueue (cache s)) = true ->
  BaseSetAssoc.findBlock (tags (cache s)) (Packet.addr pkt) (Packet._isSecure pkt) = Ok b ->
  MSHRQueue.findMatch (Packet.addr pkt) (Packet._isSecure pkt) (heap s) (mshrQueue (cache s))
    = Ok m ->
  MSHRQueue.findMatch (Packet.addr pkt) (Packet._isSecure pkt) (heap s) (writeBuffer s) = Ok w ->
  (b = None /\ m = None /\ w = None /\
   exists id s', getNextMSHR ct s = Ok (Some id, s') /\
     prefetcher s' = Some (snd (QueuedPrefetcher.getPacket pf)) /\
     MSHRQueue.findMatch (Packet.addr pkt) (Packet._isSecure pkt) (heap s') (mshrQueue (cache s'))
       = Ok (Some id) /\
     issue_ok base s' /\ blocked s' = blocked s /\
     MSHRQueue.allocated (mshrQueue (cache s')) + MSHRQueue.demandReserve (mshrQueue (cache s))
       <= MSHRQueue.numEntries (mshrQueue (cache s)) - MSHRQueue.numReserve (mshrQueue (cache s)))
  \/
  (~ (b = None /\ m = None /\ w = None) /\
   getNextMSHR ct s = Ok (None, s <| prefetcher := Some (snd (QueuedPrefetcher.getPacket pf)) |>)).
Proof.
  intros Hs Hp Hm1 Hw1 Hcan Hb Hm Hw. unfold getNextMSHR. rewrite Hm1. cbn [mbind outcome_bind].
  rewrite Hw1. cbn [mbind outcome_bind ensure]. destruct (decide (b = None /\ m = None /\ w = None))
    as [(-> & -> & ->)|Hno].
  - left. split_and!; try done. by apply try_prefetch_allocates.
  - right. split; [done|]. by eapply try_prefetch_drops.
Qed.

End issue.

(** ** Examples: a tagged prefetcher of degree 2 on an empty cache *)

Definition example_queue : QueuedPrefetcher.Queued TaggedPrefetcher.Tagged :=
  QueuedPrefetcher.Queued_new TaggedPrefetcher.example_base (TaggedPrefetcher.MkTagged 2)
    4 1 true true true true.

Definition example_events : list (QueuedPrefetcher.event (C := Cache * list MSHR.MSHR)) :=
  [QueuedPrefetcher.Notify 10 (empty_cache, []) (TaggedPrefetcher.example_access 0x1000);
   QueuedPrefetcher.GetPacket;
   QueuedPrefetcher.Notify 20 (empty_cache, []) (TaggedPrefetcher.example_access 0x1040)].

Lemma prefetch_queue_invariant_witness :
  exists q', QueuedPrefetcher.run 1000 (fun n => replicate (Z.to_nat n) 0) example_events example_queue
      = Ok q' /\
    Z.of_nat (length (QueuedPrefetcher.pfq q')) <= 4 /\
    NoDup (QueuedPrefetcher.line <$> QueuedPrefetcher.pfq q').
Proof.
  destruct (QueuedPrefetcher.prefetch_queue_invariant (C := Cache * list MSHR.MSHR) 1000
    (fun n => replicate (Z.to_nat n) 0) 6 12 TaggedPrefetcher.example_base
    (TaggedPrefetcher.MkTagged 2) 4 1 true true true true example_events)
    as (q' & E & Hl & _ & _ & Hn & _).
  - split; vm_compute; auto; split; congruence.
  - vm_compute. congruence.
  - lia.
  - lia.
  - simpl. split_and!; try lia; try (apply TaggedPrefetcher.example_access_ok; split; vm_compute; congruence).
  - exists q'. split; [exact E|]. split; [exact Hl|exact (Hn eq_refl)].
Defined.

Definition example_prefetch : Packet.Packet :=
  Packet.MkPacket Packet.VALID_ADDR MemCmd.HardPFReq
    (Request.Request0 <| Request._masterId := 1 |>) None 0x40 false 8 MemCmd.InvalidCmd [] 0 0 [].
Definition example_issue : Issue (G := TaggedPrefetcher.Tagged) :=
  MkIssue (empty_cache <| mshrQueue := MSHRQueue.MSHRQueue_new 0 4 1 1 0 |>)
    (MSHRQueue.MSHRQueue_new 4 4 1 0 1)
    (Some (example_queue <| QueuedPrefetcher.pfq := [QueuedPrefetcher.MkDeferred 5 example_prefetch] |>))
    (MkParams 1 1 4 true false []) 0 0 None CachePort.CacheSlavePort_new
    PacketQueue.PacketQueue_new PacketQueue.PacketQueue_new [] [] [] (replicate 8 MSHR.MSHR0).

Lemma prefetch_issue_witness :
  exists id s', getNextMSHR 9 example_issue = Ok (Some id, s') /\
    MSHRQueue.findMatch 0x40 false (heap s') (mshrQueue (cache s')) = Ok (Some id) /\
    blocked s' = 0.
Proof.
  destruct (prefetch_issue 0 9 example_issue
    (example_queue <| QueuedPrefetcher.pfq := [QueuedPrefetcher.MkDeferred 5 example_prefetch] |>)
    example_prefetch None None None)
    as [(_ & _ & _ & id & s' & E & _ & Hf & _ & Hb & _)|[Hno _]].
  - split_and!; [|vm_compute; congruence|vm_compute; congruence].
    apply MSHRQueue.new_qinv; [repeat constructor|]. vm_compute. lia.
  - split; try reflexivity.
    + exists 5, []. reflexivity.
    + split; vm_compute; congruence.
    + exists 3. split_and!; vm_compute; congruence.
  - reflexivity.
  - reflexivity.
  - reflexivity.
  - reflexivity.
  - reflexivity.
  - reflexivity.
  - exists id, s'. split; [exact E|]. split; [exact Hf|exact Hb].
  - destruct Hno. done.
Defined.

End CacheIssue.
