(* ===== verification/CacheAtomic.v ===== *)
(** The cache in atomic mode, [Cache::recvAtomic] of [mem/cache/cache_impl.hh],
    above any object with an atomic port; and the theorem that a cache above a
    memory is that memory. *)

From S2P Require Import Prelude IntMath AddrRange Request MemCmd Packet AbstractMemory AtomicPort SimpleMemory.
From S2P Require Import Blk CacheSet BaseSetAssoc LRU MSHR MSHRQueue Cache.
Import AbstractMemory Cache.
Local Open Scope Z_scope.

Module CacheAtomic.

(** ** Operations *)

(** [BaseCache::blockAlign]. *)
Definition blockAlign (c : Cache) (addr : Z) : Z := Z.land addr (unot 64 (blkSize c - 1)).

Definition promoteWholeLineWrites (doFastWrites : bool) (pkt : Packet.Packet) (c : Cache)
  : outcome Packet.Packet :=
  if doFastWrites && bool_decide (Packet.cmd pkt = MemCmd.WriteReq) then
    n ← Packet.getSize pkt;
    if n =? blkSize c then
      o ← Packet.getOffset (blkSize c) pkt;
      if o =? 0 then
        _ ← ensure AssertFailed (isTopLevel c);
        Ok (pkt <| Packet.cmd := MemCmd.WriteInvalidateReq |>)
      else Ok pkt
    else Ok pkt
  else Ok pkt.

(** [None] is the null pointer: the request is forwarded as it is. *)
Definition getBusPacket (fresh : Z -> list Z) (cpu_pkt : Packet.Packet) (blk : option blkptr)
  (needsExclusive : bool) (c : Cache) : outcome (option Packet.Packet) :=
  b ← match blk with Some r => b ← get_blk r c; Ok (Some b) | None => Ok None end;
  let blkValid := match b with Some b => Blk.isValid b | None => false end in
  if Request.isUncacheable (Packet.req cpu_pkt) then Ok None
  else if negb blkValid
          && (bool_decide (Packet.cmd cpu_pkt = MemCmd.Writeback) || Packet.isUpgrade cpu_pkt)
  then Ok None
  else
    _ ← ensure AssertFailed (Packet.needsResponse cpu_pkt);
    cmd ←
      (if blkValid then
         _ ← ensure AssertFailed needsExclusive;
         _ ← ensure AssertFailed (match b with Some b => negb (Blk.isWritable b) | None => false end);
         Ok (if Packet.isLLSC cpu_pkt then MemCmd.SCUpgradeReq else MemCmd.UpgradeReq)
       else if bool_decide (Packet.cmd cpu_pkt = MemCmd.SCUpgradeFailReq)
               || bool_decide (Packet.cmd cpu_pkt = MemCmd.StoreCondFailReq)
       then Ok MemCmd.SCUpgradeFailReq
       else if Packet.isWriteInvalidate cpu_pkt then Ok (Packet.cmd cpu_pkt)
       else Ok (if needsExclusive then MemCmd.ReadExReq else MemCmd.ReadReq));
    pkt ← Packet.Packet_blk (Packet.req cpu_pkt) cmd (blkSize c);
    let pkt := if Packet.sharedAsserted cpu_pkt then Packet.assertShared pkt else pkt in
    a ← Packet.getAddr pkt;
    _ ← ensure AssertFailed (a =? blockAlign c a);
    pkt ← Packet.allocate fresh pkt;
    Ok (Some pkt).

(** What surrounds the cache: the mode of the system, the clock, and the
    contents of newly allocated data; [now] is [clockEdge()]. *)
Record Env := MkEnv {
  doFastWrites : bool;
  bypassCaches : bool;
  clockPeriod : Z;
  curTick : Z;
  now : Z;
  fresh : Z -> list Z;
}.

Section port.
Context {M : Type} {AP : AtomicPort M}.

(** The loop that sends the writebacks. *)
Fixpoint send_all (wbs : list Packet.Packet) (m : M) : outcome M :=
  match wbs with
  | [] => Ok m
  | wb :: wbs => '(_, _, m) ← sendAtomic wb m; send_all wbs m
  end.

(** A packet with memory inhibited: an upper cache responds. *)
Definition recv_inhibited (e : Env) (pkt : Packet.Packet) (c : Cache) (m : M)
  : outcome (Packet.Packet * Z * Cache * M) :=
  let lat := lookupLatency c in
  '(pkt, lat, c, m) ←
    (if Packet.isInvalidate pkt then
       a ← Packet.getAddr pkt;
       sec ← Packet.isSecure pkt;
       r ← BaseSetAssoc.findBlock (tags c) a sec;
       c ← match r with
           | None => Ok c
           | Some p =>
               b ← get_blk (InTags p) c;
               if Blk.isValid b then drop_blk (curTick e) (InTags p) c else Ok c
           end;
       '(pkt, t, m) ← sendAtomic pkt m;
       Ok (pkt, lat + BaseSetAssoc.ticksToCycles (clockPeriod e) t, c, m)
     else Ok (pkt, lat, c, m));
  Ok (pkt, lat * clockPeriod e, c, m).

(** The response of the object below, when the request was not just
    forwarded; the result is the packet, the writebacks and the cache. *)
Definition atomic_response (e : Env) (h : list MSHR.MSHR) (pkt bus_pkt : Packet.Packet)
  (blk : option blkptr) (c : Cache) : outcome (Packet.Packet * list Packet.Packet * Cache) :=
  let fill p c :=
    handleFill (curTick e) (now e + fillLatency c * clockPeriod e) (fresh e) h p blk [] c in
  if Packet.needsResponse pkt then
    _ ← ensure AssertFailed (Packet.isResponse bus_pkt);
    if Packet.isError bus_pkt then
      pkt ← Packet.makeResponse pkt;
      pkt ← Packet.copyError bus_pkt pkt;
      Ok (pkt, [], c)
    else if Packet.isWriteInvalidate pkt then
      if isTopLevel c then
        '(r, wbs, c) ← fill pkt c;
        '(pkt, c) ← satisfyCpuSideRequest (curTick e) false false pkt r c;
        Ok (pkt, wbs, c)
      else match blk with
           | Some r =>
               '(pkt, c) ← satisfyCpuSideRequest (curTick e) false false pkt r c;
               Ok (pkt, [], c)
           | None => Ok (pkt, [], c)
           end
    else if Packet.isRead bus_pkt || bool_decide (Packet.cmd bus_pkt = MemCmd.UpgradeResp) then
      '(r, wbs, c) ← fill bus_pkt c;
      '(pkt, c) ← satisfyCpuSideRequest (curTick e) false false pkt r c;
      Ok (pkt, wbs, c)
    else
      pkt ← Packet.makeResponse pkt;
      Ok (pkt, [], c)
  else Ok (pkt, [], c).

(** The miss: the request goes to the object below. The packet and the one sent
    below share their request. *)
Definition atomic_miss (e : Env) (h : list MSHR.MSHR) (pkt : Packet.Packet) (blk : option blkptr)
  (lat : Z) (c : Cache) (m : M)
  : outcome (Packet.Packet * Z * list Packet.Packet * Cache * M) :=
  bus ← getBusPacket (fresh e) pkt blk (Packet.needsExclusive pkt) c;
  match bus with
  | None =>
      '(pkt, t, m) ← sendAtomic pkt m;
      Ok (pkt, lat + BaseSetAssoc.ticksToCycles (clockPeriod e) t, [], c, m)
  | Some bus_pkt =>
      '(bus_pkt, t, m) ← sendAtomic bus_pkt m;
      let lat := lat + BaseSetAssoc.ticksToCycles (clockPeriod e) t in
      let pkt := pkt <| Packet.req := Packet.req bus_pkt |> in
      '(pkt, wbs, c) ← atomic_response e h pkt bus_pkt blk c;
      Ok (pkt, lat, wbs, c, m)
  end.

(** The result is the packet, the returned tick count, the cache and the object
    below. *)
Definition recvAtomic (e : Env) (h : list MSHR.MSHR) (pkt : Packet.Packet) (c : Cache) (m : M)
  : outcome (Packet.Packet * Z * Cache * M) :=
  if bypassCaches e then
    '(pkt, t, m) ← sendAtomic pkt m;
    Ok (pkt, BaseSetAssoc.ticksToCycles (clockPeriod e) t, c, m)
  else
    pkt ← promoteWholeLineWrites (doFastWrites e) pkt c;
    if Packet.memInhibitAsserted pkt then recv_inhibited e pkt c m
    else
      a ← access (curTick e) (clockPeriod e) (fresh e) h pkt [] c;
      m ← send_all (r_writebacks a) m;
      '(pkt, lat, wbs, c, m) ←
        (if r_hit a then Ok (r_pkt a, r_lat a, [], r_cache a, m)
         else atomic_miss e h (r_pkt a) (r_blk a) (r_lat a) (r_cache a) m);
      m ← send_all wbs m;
      pkt ← (if Packet.needsResponse pkt then Packet.makeResponse pkt else Ok pkt);
      Ok (pkt, lat * clockPeriod e, c, m).

End port.
(** ** Lines *)

(** The line a block holds: its number in units of [2^k] bytes, for [2^s] sets. *)
Definition line (s : Z) (b : Blk.CacheBlk) : Z := Blk.tag b * 2 ^ s + Blk.set b.

Section lines.
Context (k s : Z) (A : list (list BaseSetAssoc.key)) (c : Cache) (Hc : cache_ok k s A c).

Lemma geo_bounds : 2 <= k < 32 /\ 0 <= s < 31 /\ 0 < 2 ^ k /\ 0 < 2 ^ s.
Proof. destruct Hc as [[_ [] _ _ _] _ _]. split_and!; try lia; apply pow2_pos; lia. Qed.

Lemma set_range p b : BaseSetAssoc.blks (tags c) !! p = Some b -> 0 <= Blk.set b < 2 ^ s.
Proof.
  intros Hp. destruct Hc as [[Hwf [] _ _ _] _ _]. rewrite (BaseSetAssoc.wf_set _ Hwf p b Hp).
  pose proof (BaseSetAssoc.wf_assoc _ Hwf). apply lookup_lt_Some in Hp. rewrite (BaseSetAssoc.wf_blks _ Hwf) in Hp.
  rewrite <- geo_numSets. split; [lia|].
  assert (p / Z.to_nat (BaseSetAssoc.assoc (tags c)) < Z.to_nat (BaseSetAssoc.numSets (tags c)))%nat as Hd
    by (apply Nat.Div0.div_lt_upper_bound; lia). lia.
Qed.

Lemma line_key p b x : BaseSetAssoc.blks (tags c) !! p = Some b -> line s b = x / 2 ^ k ->
  Blk.tag b = x / 2 ^ k / 2 ^ s /\ Blk.set b = x / 2 ^ k mod 2 ^ s.
Proof.
  intros Hp <-. pose proof (set_range p b Hp). destruct geo_bounds as (_ & _ & _ & ?). unfold line.
  split; [apply (Z.div_unique _ _ _ (Blk.set b)); lia|apply (Z.mod_unique _ _ (Blk.tag b)); lia].
Qed.

Lemma holder_found p b x :
  BaseSetAssoc.blks (tags c) !! p = Some b -> Blk.isValid b = true -> Blk.isSecure b = false ->
  0 <= x -> line s b = x / 2 ^ k -> BaseSetAssoc.findBlock (tags c) x false = Ok (Some p).
Proof.
  intros Hp Hv Hs Hx Hl. destruct (line_key p b x Hp Hl) as [Ht Hset].
  eapply LRU.find_holder; [apply Hc|done..| |].
  - unfold LRU.set_of. rewrite Hset, Z2Nat.id; [done|]. apply Z.mod_pos_bound. by destruct geo_bounds as (_ & _ & _ & ?).
  - unfold BaseSetAssoc.slot, LRU.key_of. by rewrite Hv, Hs, Ht.
Qed.

Lemma found_holder p x : 0 <= x -> BaseSetAssoc.findBlock (tags c) x false = Ok (Some p) ->
  exists b, BaseSetAssoc.blks (tags c) !! p = Some b /\ Blk.isValid b = true /\ line s b = x / 2 ^ k.
Proof.
  intros Hx. pose proof (co_refines _ _ _ _ Hc) as Hrf.
  destruct (LRU.find_spec _ _ _ _ _ x false Hrf Hx) as (cs & ks & Hcs & _ & Ei & Et & _ & _ & r & Hr & Hres).
  rewrite (LRU.findBlock_eq k s _ _ _ cs _ (LRU.rf_geo _ _ _ _ _ Hrf) Hx Ei Hcs), Hr. intros [= ->].
  destruct Hres as (_ & pre & post & b & Ew & Hb & Hs). exists b. split; [done|].
  unfold BaseSetAssoc.slot in Hs. destruct (Blk.isValid b); [|done]. split; [done|]. injection Hs as Ht _.
  destruct (LRU.ways_facts _ _ _ (LRU.rf_wf _ _ _ _ _ Hrf) Hcs) as (_ & _ & _ & Hf).
  destruct (Hf p) as (b' & Hb' & Hset); [rewrite Ew; apply elem_of_app; right; left|].
  rewrite Hb in Hb'. injection Hb' as <-. destruct geo_bounds as (_ & _ & _ & ?).
  unfold line. rewrite Ht, Hset. unfold LRU.set_of.
  pose proof (Z.mod_pos_bound (x / 2 ^ k) (2 ^ s) ltac:(lia)). rewrite Z2Nat.id by lia.
  pose proof (Z.div_mod (x / 2 ^ k) (2 ^ s) ltac:(lia)). lia.
Qed.

(** Two blocks do not hold the same line. *)
Lemma line_unique p q b b' :
  BaseSetAssoc.blks (tags c) !! p = Some b -> BaseSetAssoc.blks (tags c) !! q = Some b' ->
  Blk.isValid b = true -> Blk.isValid b' = true -> Blk.isSecure b = false -> Blk.isSecure b' = false ->
  0 <= line s b -> line s b = line s b' -> p = q.
Proof.
  intros Hp Hq Hv Hv' Hs Hs' H0 Hl. destruct geo_bounds as (_ & _ & ? & _).
  assert (line s b = line s b * 2 ^ k / 2 ^ k) as E by (by rewrite Z.div_mul by lia).
  pose proof (holder_found p b (line s b * 2 ^ k) Hp Hv Hs ltac:(nia) E) as F1.
  pose proof (holder_found q b' (line s b * 2 ^ k) Hq Hv' Hs' ltac:(nia) ltac:(lia)) as F2. congruence.
Qed.

Lemma regenerate_line b :
  0 <= Blk.tag b -> 0 <= Blk.set b < 2 ^ s -> line s b * 2 ^ k < 2 ^ 64 ->
  BaseSetAssoc.regenerateBlkAddr (tags c) (Blk.tag b) (Blk.set b) = line s b * 2 ^ k.
Proof. intros. unfold line. apply BaseSetAssoc.regenerate_add; [apply Hc|done..]. Qed.

(** A block may take other data of the same length. *)
Lemma cache_ok_upd p b b' :
  BaseSetAssoc.blks (tags c) !! p = Some b -> BaseSetAssoc.slot b' = BaseSetAssoc.slot b ->
  Blk.isValid b' = Blk.isValid b -> Blk.isTouched b' = Blk.isTouched b ->
  Blk.srcMasterId b' = Blk.srcMasterId b -> Blk.set b' = Blk.set b -> Blk.isValid b = true ->
  Z.of_nat (length (Blk.data b')) = blkSize c -> cache_ok k s A (put_blk (InTags p) b' c).
Proof.
  intros Hp Hs Hv Ht Hm Hset Hvb Hl. destruct Hc as [Hr Hb Hd]. split; simpl; [|done|].
  - apply (LRU.refines_blk _ _ _ _ _ p b); try done. congruence.
  - intros q x. destruct (decide (q = p)) as [->|Hne].
    + rewrite list_lookup_insert_eq by by eapply lookup_lt_Some. by intros [= <-].
    + rewrite list_lookup_insert_ne by done. apply Hd.
Qed.

End lines.

(** ** The cache and the memory below it together hold [F] *)

Section coherent.
Context {M : Type} {AP : AtomicPort M} (lo hi : Z) {PO : AtomicPortOk M lo hi} (k s mm : Z).

(** A block: exclusive, and its bytes are those of [F]; if it is clean, the
    memory [G] has them too. *)
Record good (F G : Z -> Z) (b : Blk.CacheBlk) : Prop := {
  gd_writable : Blk.isWritable b = true;
  gd_readable : Blk.isReadable b = true;
  gd_secure : Blk.isSecure b = false;
  gd_tag : 0 <= Blk.tag b;
  gd_lo : lo <= line s b * 2 ^ k;
  gd_hi : line s b * 2 ^ k + 2 ^ k - 1 <= hi;
  gd_data : Blk.data b = read_bytes F (line s b * 2 ^ k) (2 ^ k);
  gd_clean : Blk.isDirty b = false -> forall x, x / 2 ^ k = line s b -> G x = F x;
}.

Record coherent (F G : Z -> Z) (c : Cache) (m : M) : Prop := {
  ch_ok : exists A, cache_ok k s A c;
  ch_masters : maxMasters c = mm;
  ch_top : isTopLevel c = true;
  ch_idle : MSHRQueue.allocatedList (mshrQueue c) = [];
  ch_blk p b : BaseSetAssoc.blks (tags c) !! p = Some b -> Blk.isValid b = true -> good F G b;
  ch_rest x : lo <= x <= hi ->
    (forall p b, BaseSetAssoc.blks (tags c) !! p = Some b -> Blk.isValid b = true ->
       line s b <> x / 2 ^ k) -> G x = F x;
  ch_mem : port_rep G m;
}.

(** What the relation reads of a block. *)
Definition obs (b : Blk.CacheBlk) : Z * Z * Z * list Z := (Blk.status b, Blk.tag b, Blk.set b, Blk.data b).

Lemma good_obs F G b b' : obs b' = obs b -> good F G b -> good F G b'.
Proof.
  intros [= Es Et Eset Ed] []. unfold Blk.isWritable, Blk.isReadable, Blk.isSecure, Blk.isDirty in *.
  split; unfold Blk.isWritable, Blk.isReadable, Blk.isSecure, Blk.isDirty, line in *;
    rewrite ?Es, ?Et, ?Eset, ?Ed; done.
Qed.

Lemma obs_lookup (l l' : list Blk.CacheBlk) p b' :
  obs <$> l' = obs <$> l -> l' !! p = Some b' -> exists b, l !! p = Some b /\ obs b' = obs b.
Proof.
  intros Eo Hp. pose proof (f_equal (fun l => l !! p) Eo) as Ep. rewrite !list_lookup_fmap, Hp in Ep.
  destruct (l !! p) as [b|]; [|done]. exists b. split; [done|]. simpl in Ep. congruence.
Qed.

Lemma obs_state b b' : obs b' = obs b -> Blk.isValid b' = Blk.isValid b /\ Blk.isSecure b' = Blk.isSecure b /\
  line s b' = line s b /\ Blk.data b' = Blk.data b.
Proof.
  intros [= Es Et Eset Ed]. unfold Blk.isValid, Blk.isSecure, line. by rewrite Es, Et, Eset, Ed.
Qed.

(** The cache may change in what the relation does not read. *)
Lemma coherent_frame F G c c' m :
  coherent F G c m -> (exists A, cache_ok k s A c') ->
  maxMasters c' = maxMasters c -> isTopLevel c' = isTopLevel c -> mshrQueue c' = mshrQueue c ->
  obs <$> BaseSetAssoc.blks (tags c') = obs <$> BaseSetAssoc.blks (tags c) -> coherent F G c' m.
Proof.
  intros [H1 H2 H3 H4 H5 H6 H7] Hc E1 E2 E3 Eo.
  split; rewrite ?E1, ?E2, ?E3; try done.
  - intros p b' Hp Hv. destruct (obs_lookup _ _ p b' Eo Hp) as (b & Hb & Eb). apply (good_obs F G b); [done|].
    apply (H5 p b Hb). by rewrite <- (proj1 (obs_state _ _ Eb)).
  - intros x Hx Hno. apply H6; [done|]. intros p b Hp Hv.
    destruct (obs_lookup _ _ p b (eq_sym Eo) Hp) as (b' & Hb' & Eb). destruct (obs_state _ _ Eb) as (Ev & _ & -> & _).
    apply (Hno p b' Hb'). by rewrite <- Ev.
Qed.

(** *** Writes *)

Lemma lor_dirty_state (b : Blk.CacheBlk) :
  let b' := b <| Blk.status ::= Z.lor Blk.BlkDirty |> in
  Blk.isWritable b' = Blk.isWritable b /\ Blk.isReadable b' = Blk.isReadable b /\
  Blk.isSecure b' = Blk.isSecure b /\ Blk.isValid b' = Blk.isValid b.
Proof.
  assert (forall st n, Z.land Blk.BlkDirty n = 0 -> Z.land (Z.lor Blk.BlkDirty st) n = Z.land st n) as H.
  { intros st n Hn. by rewrite Z.land_lor_distr_l, Hn, Z.lor_0_l. }
  unfold Blk.isWritable, Blk.isReadable, Blk.isSecure, Blk.isValid, any_set. simpl. by rewrite !H by done.
Qed.

(** A block takes the new bytes of its line and becomes dirty. *)
Lemma write_coherent F F' G c m p b ls :
  coherent F G c m -> BaseSetAssoc.blks (tags c) !! p = Some b -> Blk.isValid b = true ->
  (forall x, x / 2 ^ k <> line s b -> F' x = F x) ->
  coherent F' G (put_blk (InTags p) (b <| Blk.lockList := ls |>
    <| Blk.data := read_bytes F' (line s b * 2 ^ k) (2 ^ k) |> <| Blk.status ::= Z.lor Blk.BlkDirty |>) c) m.
Proof.
  intros Hch Hp Hv HF. pose proof Hch as [[A Hok] H2 H3 H4 H5 H6 H7].
  destruct (geo_bounds _ _ _ _ Hok) as (Hk & Hs & Hk0 & Hs0).
  set (d := read_bytes F' _ _). set (b0 := b <| Blk.lockList := ls |> <| Blk.data := d |>).
  set (b' := b0 <| Blk.status ::= Z.lor Blk.BlkDirty |>).
  destruct (lor_dirty_state b0) as (W1 & W2 & W3 & W4). fold b' in W1, W2, W3, W4.
  pose proof (H5 p b Hp Hv) as Hg. pose proof (lor_dirty b0) as Hdirty. fold b' in Hdirty.
  assert (p < length (BaseSetAssoc.blks (tags c)))%nat as Hlt by by eapply lookup_lt_Some.
  split; try done.
  - exists A. apply (cache_ok_upd k s A c Hok p b); try done.
    + unfold BaseSetAssoc.slot. rewrite W3, W4. done.
    + simpl. unfold d. rewrite read_bytes_length by lia. symmetry. apply Hok.
  - intros q b2. simpl. destruct (decide (q = p)) as [->|Hne].
    + rewrite list_lookup_insert_eq by done. intros [= <-] _. fold b0 b'. destruct Hg. split; rewrite ?W1, ?W2, ?W3; try done.
      by rewrite Hdirty.
    + rewrite list_lookup_insert_ne by done. intros Hq Hvq. pose proof (H5 q b2 Hq Hvq) as Hg2.
      assert (line s b2 <> line s b) as Hl.
      { intros El. apply Hne. apply (line_unique k s A c Hok q p b2 b); try done; [apply Hg2|apply Hg|].
        pose proof (set_range k s A c Hok q b2 Hq). unfold line. pose proof (gd_tag _ _ _ Hg2). nia. }
      destruct Hg2. split; try done.
      * rewrite gd_data0. apply read_bytes_ext. intros x Hx. symmetry. apply HF.
        rewrite <- (Z.div_unique x (2 ^ k) (line s b2) (x - line s b2 * 2 ^ k)) by lia. done.
      * intros Hd x Hx. rewrite HF by congruence. by apply gd_clean0.
  - intros x Hx Hno. rewrite HF.
    + apply H6; [done|]. intros q b2 Hq Hvq. destruct (decide (q = p)) as [->|Hne].
      * rewrite Hp in Hq. injection Hq as <-. apply (Hno p b'); [simpl; by rewrite list_lookup_insert_eq|by rewrite W4].
      * apply (Hno q b2); [simpl; by rewrite list_lookup_insert_ne|done].
    + intros E. eapply (Hno p b'); [simpl; by rewrite list_lookup_insert_eq|by rewrite W4|]. by rewrite E.
Qed.

(** *** Fills *)

Lemma victim_sent F G c m p v wbs :
  0 <= lo -> hi < 2 ^ 64 ->
  coherent F G c m -> BaseSetAssoc.blks (tags c) !! p = Some v -> victim_writeback c v wbs ->
  exists m' G', send_all wbs m = Ok m' /\ port_rep G' m' /\
    (forall x, G' x = F x \/ G' x = G x) /\
    (Blk.isValid v = true -> forall x, x / 2 ^ k = line s v -> G' x = F x).
Proof.
  intros Hlo Hhi Hch Hp Hw. pose proof Hch as [[A Hok] H2 H3 H4 H5 H6 H7].
  destruct (geo_bounds _ _ _ _ Hok) as (Hk & Hs & Hk0 & Hs0). unfold victim_writeback in Hw.
  destruct (Blk.isValid v) eqn:Ev; simpl in Hw; [|subst; exists m, G; split_and!; try done; by right].
  pose proof (H5 p v Hp Ev) as [G1 G2 G3 G4 G5 G6 G7 G8].
  destruct (Blk.isDirty v) eqn:Ed; [|subst; exists m, G; split_and!; try done; [by right|by auto]].
  destruct Hw as (wb & -> & [W1 W2 W3 W4 W5 W6 W7 W8]).
  pose proof (set_range k s A c Hok p v Hp) as Hset.
  rewrite (regenerate_line k s A c Hok) in W2 by lia.
  unfold Packet.getAddr in W2. apply bind_ok in W2 as ([] & Fa & [= Ea]). apply ensure_ok in Fa.
  unfold Packet.getSize in W3. apply bind_ok in W3 as ([] & Fz & [= Ez]). apply ensure_ok in Fz.
  rewrite (co_blkSize _ _ _ _ Hok) in Ez.
  assert (Z.of_nat (length (Blk.data v)) = 2 ^ k) as Hlen by (rewrite G7, read_bytes_length; lia).
  assert (mem_request lo hi wb (Blk.data v)) as Hq by (split; rewrite ?Ea, ?Ez; done || lia).
  destruct (port_writeback G m wb (Blk.data v) H7 Hq W1 W8) as (pkt' & lat & m' & E & Hm' & _).
  exists m', (write_bytes G (line s v * 2 ^ k) (Blk.data v)). rewrite Ea in Hm'.
  assert (forall x, line s v * 2 ^ k <= x < line s v * 2 ^ k + 2 ^ k ->
    Blk.data v !!! Z.to_nat (x - line s v * 2 ^ k) = F x) as Hx.
  { intros x Hx. apply list_lookup_total_correct. rewrite G7, read_bytes_lookup by lia. do 2 f_equal. lia. }
  split; [cbn [send_all]; by rewrite E|]. split; [done|]. unfold write_bytes. rewrite Hlen. split.
  - intros x. destruct (decide _); [left; by apply Hx|by right].
  - intros _ x Hl. pose proof (Z.div_mod x (2 ^ k) ltac:(lia)). pose proof (Z.mod_pos_bound x (2 ^ k) ltac:(lia)).
    rewrite decide_True by (rewrite <- Hl; lia). apply Hx. rewrite <- Hl. lia.
Qed.

(** After a fill and the writeback of the victim; the block's data is set to the
    bytes of its line. *)
Lemma fill_coherent F G e h pkt a bytes c m :
  0 <= lo -> hi < 2 ^ 64 -> coherent F G c m -> fill_source c pkt a false bytes ->
  BaseSetAssoc.findBlock (tags c) a false = Ok None ->
  lo <= a / 2 ^ k * 2 ^ k -> a / 2 ^ k * 2 ^ k + 2 ^ k - 1 <= hi ->
  Packet.sharedAsserted pkt = false -> Packet.memInhibitAsserted pkt = false ->
  (forall n, 0 <= n -> Z.of_nat (length (fresh e n)) = n) ->
  exists p b wbs c' m' G',
    handleFill (curTick e) (now e + fillLatency c * clockPeriod e) (fresh e) h pkt None [] c =
      Ok (InTags p, wbs, c') /\
    send_all wbs m = Ok m' /\ BaseSetAssoc.blks (tags c') !! p = Some b /\ line s b = a / 2 ^ k /\
    Blk.isValid b = true /\ Blk.isWritable b = true /\ blkSize c' = 2 ^ k /\ isTopLevel c' = true /\
    Z.of_nat (length (Blk.data b)) = 2 ^ k /\ (Packet.isRead pkt = true -> Blk.data b = bytes) /\
    coherent F G' (put_blk (InTags p) (b <| Blk.data := read_bytes F (a / 2 ^ k * 2 ^ k) (2 ^ k) |>) c') m'.
Proof.
  intros Hlo Hhi Hch Hf Hmiss Hl1 Hl2 Hsh Hinh Hfresh. pose proof Hch as [[A Hok] H2 H3 H4 H5 H6 H7].
  destruct (geo_bounds _ _ _ _ Hok) as (Hk & Hs & Hk0 & Hs0).
  destruct (handleFill_ok k s A (curTick e) (now e + fillLatency c * clockPeriod e) (fresh e) h pkt a false bytes [] c)
    as (p & v & wbs & b & t & n & E & _ & Hp & Hwb & [S1 S2 S3 S4 S5 S6] & Hb & A' & Hok'); try done.
  { intros q bq _ _ _. unfold MSHRQueue.findMatch. by rewrite H4. }
  set (c' := c <| writebackCount := n |> <| tags := t |>) in *.
  destruct (victim_sent F G c m p v wbs Hlo Hhi Hch Hp Hwb) as (m' & G' & Es & Hm' & Hor & Hvic).
  rewrite Hsh in S5, S6. rewrite Hinh in S6. simpl in S5, S6.
  assert (p < length (BaseSetAssoc.blks (tags c)))%nat as Hlt by by eapply lookup_lt_Some.
  assert (BaseSetAssoc.blks (tags c') !! p = Some b) as Hpb by (simpl; by rewrite Hb, list_lookup_insert_eq).
  unfold BaseSetAssoc.slot in S1. destruct (Blk.isValid b) eqn:Ev; [|done]. injection S1 as St Ssec.
  assert (line s b = a / 2 ^ k) as El.
  { unfold line. rewrite St, S2. unfold LRU.set_of. pose proof (Z.mod_pos_bound (a / 2 ^ k) (2 ^ s) ltac:(lia)).
    pose proof (Z.div_mod (a / 2 ^ k) (2 ^ s) ltac:(lia)). lia. }
  assert (forall q bq, BaseSetAssoc.blks (tags c) !! q = Some bq -> Blk.isValid bq = true -> line s bq <> a / 2 ^ k) as Hnh.
  { intros q bq Hq Hvq Elq. pose proof (holder_found k s A c Hok q bq a Hq Hvq (gd_secure _ _ _ (H5 q bq Hq Hvq))
      (fs_low _ _ _ _ _ Hf) Elq) as Hq'. congruence. }
  assert (forall x, x / 2 ^ k = a / 2 ^ k -> G' x = F x) as Hnew.
  { intros x Hx. destruct (Hor x) as [?| ->]; [done|]. apply H6; [|rewrite Hx; apply Hnh].
    pose proof (Z.div_mod x (2 ^ k) ltac:(lia)). pose proof (Z.mod_pos_bound x (2 ^ k) ltac:(lia)). nia. }
  exists p, b, wbs, c', m', G'. split_and!; try done.
  - apply Hok.
  - rewrite <- (co_blkSize _ _ _ _ Hok). apply (co_data _ _ _ _ Hok' p b Hpb).
  - intros Hr. by rewrite Hr in S3.
  - set (b1 := b <| Blk.data := _ |>). split; try done.
    + exists A'. apply (cache_ok_upd k s A' c' Hok' p b); try done. simpl. rewrite read_bytes_length by lia. symmetry. apply Hok.
    + intros q bq. simpl. rewrite Hb, list_insert_insert_eq. destruct (decide (q = p)) as [->|Hne].
      * rewrite list_lookup_insert_eq by done. intros [= <-] _.
        assert (0 <= Blk.tag b) as Ht by (rewrite St; apply Z.div_pos; [apply Z.div_pos; [apply Hf|lia]|lia]).
        split; try done; unfold b1; change (line s _) with (line s b); rewrite ?El; done || lia.
      * rewrite list_lookup_insert_ne by done. intros Hq Hvq. destruct (H5 q bq Hq Hvq). split; try done.
        intros Hd x Hx. destruct (Hor x) as [?| ->]; [done|]. by apply gd_clean0.
    + intros x Hx Hno. destruct (Hor x) as [?|Eg]; [done|].
      destruct (Blk.isValid v) eqn:Evv; [destruct (decide (x / 2 ^ k = line s v)); [by apply Hvic|]|].
      all: rewrite Eg; apply H6; [done|]; intros q bq Hq Hvq; (destruct (decide (q = p)) as [->|Hne];
        [rewrite Hp in Hq; injection Hq as <-; congruence|]);
        apply (Hno q bq); [simpl; rewrite Hb, list_insert_insert_eq; by rewrite list_lookup_insert_ne|done].
Qed.

(** *** Requests *)

(** A request of the CPU's data side that lies in one line of memory; a
    write-invalidate covers its line. *)
Record access_ok (pkt : Packet.Packet) (d : list Z) : Prop := {
  ac_cmd : Packet.cmd pkt = MemCmd.ReadReq \/ Packet.cmd pkt = MemCmd.WriteReq \/
    Packet.cmd pkt = MemCmd.WriteInvalidateReq /\ Packet.size pkt = 2 ^ k;
  ac_addr : Packet.has_flag Packet.VALID_ADDR pkt = true;
  ac_size : Packet.has_flag Packet.VALID_SIZE pkt = true;
  ac_ptr : Packet.getPtr pkt = Ok d;
  ac_bytes : Z.of_nat (length d) = Packet.size pkt;
  ac_fits : Packet.addr pkt mod 2 ^ k + Packet.size pkt <= 2 ^ k;
  ac_low : 0 <= Packet.addr pkt;
  ac_lo : lo <= Packet.addr pkt / 2 ^ k * 2 ^ k;
  ac_hi : Packet.addr pkt / 2 ^ k * 2 ^ k + 2 ^ k - 1 <= hi;
  ac_sec : Packet._isSecure pkt = false;
  ac_own : Packet.memInhibitAsserted pkt = false;
  ac_excl : Packet.sharedAsserted pkt = false;
  ac_paddr : Request.hasPaddr (Packet.req pkt) = true;
  ac_hsize : Request.hasSize (Packet.req pkt) = true;
  ac_same : Request._paddr (Packet.req pkt) = Packet.addr pkt;
  ac_cached : Request.isUncacheable (Packet.req pkt) = false;
  ac_rsec : Request.isSecure (Packet.req pkt) = false;
  ac_master : 0 <= Request.masterId (Packet.req pkt) < mm;
}.

Lemma access_in_block pkt d c :
  access_ok pkt d -> 0 < k < 64 -> blkSize c = 2 ^ k ->
  in_block c pkt d /\ offset c pkt = Packet.addr pkt mod 2 ^ k.
Proof.
  intros [] Hk Hb. assert (offset c pkt = Packet.addr pkt mod 2 ^ k) as Eo.
  { unfold offset. rewrite Hb. pose proof (pow2_pos k ltac:(lia)). pose proof (Z.pow_le_mono_r 2 k 63 ltac:(lia) ltac:(lia)).
    rewrite uwrap_small by (split; lia). apply land_mask. lia. }
  split; [|done]. split; try done. rewrite Eo, Hb. lia.
Qed.

(** The memory after a request. *)
Definition after (F : Z -> Z) (pkt : Packet.Packet) (d : list Z) : Z -> Z :=
  if Packet.isWrite pkt then write_bytes F (Packet.addr pkt) d else F.

(** Copying between a request and its line. *)
Lemma line_read F a n o d d' :
  0 <= n -> a = a / 2 ^ k * 2 ^ k + o -> 0 <= o -> o + n <= 2 ^ k -> Z.of_nat (length d) = n ->
  Packet.memcpy d 0 (read_bytes F (a / 2 ^ k * 2 ^ k) (2 ^ k)) o n = Ok d' -> d' = read_bytes F a n.
Proof.
  intros Hn Ea Ho Hf Hl E. destruct (Packet.memcpy_spec _ _ _ _ _ _ E) as [El Ex].
  apply read_bytes_eq; [done|lia|]. intros i Hi. rewrite Ex, decide_True by lia.
  replace (Z.to_nat o + _)%nat with (Z.to_nat (o + i)) by lia. rewrite read_bytes_lookup by lia. do 2 f_equal. lia.
Qed.

Lemma line_write F a n o d bd d' :
  0 < 2 ^ k -> 0 <= n -> a = a / 2 ^ k * 2 ^ k + o -> 0 <= o -> o + n <= 2 ^ k ->
  Z.of_nat (length d) = n -> Z.of_nat (length bd) = 2 ^ k ->
  bd = read_bytes F (a / 2 ^ k * 2 ^ k) (2 ^ k) \/ n = 2 ^ k ->
  Packet.memcpy bd o d 0 n = Ok d' ->
  d' = read_bytes (write_bytes F a d) (a / 2 ^ k * 2 ^ k) (2 ^ k).
Proof.
  intros Hk Hn Ea Ho Hf Hl Hlb Hbd E. destruct (Packet.memcpy_spec _ _ _ _ _ _ E) as [El Ex].
  apply read_bytes_eq; [lia|lia|]. intros i Hi. rewrite Ex. unfold write_bytes. destruct (decide (a <= _ < _)).
  - rewrite decide_True by lia. replace (Z.to_nat 0 + _)%nat with (Z.to_nat (i - o)) by lia.
    rewrite list_lookup_lookup_total_lt by lia. do 2 f_equal. lia.
  - rewrite decide_False by lia. destruct Hbd as [->|]; [|lia]. by rewrite read_bytes_lookup.
Qed.

Lemma addr_split a : 0 < 2 ^ k -> a = a / 2 ^ k * 2 ^ k + a mod 2 ^ k /\ 0 <= a mod 2 ^ k < 2 ^ k.
Proof. intros H. pose proof (Z.div_mod a (2 ^ k) ltac:(lia)). pose proof (Z.mod_pos_bound a (2 ^ k) H). lia. Qed.

(** Serving the request from its block, whose data may be anything for a write
    of the whole line. *)
Lemma serve F G ct c m p b pkt d :
  0 < k < 64 -> access_ok pkt d -> BaseSetAssoc.blks (tags c) !! p = Some b ->
  Blk.isValid b = true -> Blk.isWritable b = true -> line s b = Packet.addr pkt / 2 ^ k ->
  blkSize c = 2 ^ k -> isTopLevel c = true -> Z.of_nat (length (Blk.data b)) = 2 ^ k ->
  let bytes := read_bytes F (Packet.addr pkt / 2 ^ k * 2 ^ k) (2 ^ k) in
  Blk.data b = bytes \/ Packet.cmd pkt = MemCmd.WriteInvalidateReq ->
  coherent F G (put_blk (InTags p) (b <| Blk.data := bytes |>) c) m ->
  exists pkt' c', satisfyCpuSideRequest ct false false pkt (InTags p) c = Ok (pkt', c') /\
    coherent (after F pkt d) G c' m /\ Packet.cmd pkt' = Packet.cmd pkt /\
    (Packet.cmd pkt = MemCmd.ReadReq ->
       Packet.data pkt' = Some (read_bytes F (Packet.addr pkt) (Packet.size pkt))).
Proof.
  intros Hk Ha Hp Hv Hw Hl Hbs Ht Hlen bytes Hd Hch.
  destruct (access_in_block pkt d c Ha Hk Hbs) as [Hi Eo]. pose proof (pow2_pos k ltac:(lia)) as Hk0.
  destruct (addr_split (Packet.addr pkt) Hk0) as [Ea Hmod]. pose proof Ha as [Hc _ _ _ Hby Hfit _ _ _ _ _ _ Hpa Hhs _ _ _ _].
  assert (get_blk (InTags p) c = Ok b) as Hg by by apply pget_ok.
  destruct (decide (Packet.cmd pkt = MemCmd.ReadReq)) as [Er|Er].
  - destruct Hd as [Hd|Hd]; [|congruence].
    destruct (satisfy_read_top ct (InTags p) c b pkt d) as (d' & pkt' & Em & E & Ec & Ed); rewrite ?Hbs; try done.
    exists pkt', (put_blk (InTags p) b c). split; [done|]. unfold after, Packet.isWrite. rewrite Er, Ec. split; [|split; [done|]].
    + rewrite <- Hd in Hch. by replace (b <| Blk.data := Blk.data b |>) with b in Hch by (by destruct b).
    + intros _. rewrite Ed. f_equal. rewrite Hd, Eo in Em. unfold bytes in Em.
      apply (line_read F _ _ (Packet.addr pkt mod 2 ^ k) d d'); lia || done.
  - assert (writes c pkt) as Hwr by (destruct Hc as [?|[?|[? _]]]; [done|by left|by right]).
    destruct (satisfy_write ct false false (InTags p) c b pkt d) as (d' & ls & Em & E); rewrite ?Hbs; try done.
    eexists pkt, _. split; [exact E|]. unfold after.
    assert (Packet.isWrite pkt = true) as -> by (unfold Packet.isWrite; destruct Hwr as [->|[-> _]]; done).
    split; [|done]. rewrite Eo in Em.
    assert (Blk.data b = bytes \/ Packet.size pkt = 2 ^ k) as Hd'.
    { destruct Hc as [?|[Hc|[_ ?]]]; [done| |by right]. left. destruct Hd; [done|congruence]. }
    pose proof (line_write F (Packet.addr pkt) (Packet.size pkt) (Packet.addr pkt mod 2 ^ k) d (Blk.data b) d'
      Hk0 ltac:(lia) Ea ltac:(lia) Hfit Hby Hlen Hd' Em) as ->.
    set (F' := write_bytes F (Packet.addr pkt) d). set (b1 := b <| Blk.data := bytes |>) in Hch.
    pose proof (write_coherent F F' G _ m p b1 ls Hch) as Hwc. rewrite put_put in Hwc.
    change (line s b1) with (line s b) in Hwc. rewrite Hl in Hwc. apply Hwc; [|done|].
    + simpl. rewrite list_lookup_insert_eq; [done|]. by eapply lookup_lt_Some.
    + intros x Hx. unfold F', write_bytes. rewrite decide_False; [done|]. intros Hin. apply Hx.
      symmetry. apply (Z.div_unique x (2 ^ k) _ (x - Packet.addr pkt / 2 ^ k * 2 ^ k)); lia.
Qed.

Lemma accessBlock_inv ct cp t a r lat t' :
  LRU.accessBlock ct cp t a false = Ok (r, lat, t') ->
  exists cs, vget (BaseSetAssoc.sets t) (BaseSetAssoc.extractSet t a) = Ok cs /\
    CacheSet.findBlk (BaseSetAssoc.blks t) cs (BaseSetAssoc.extractTag t a) false = Ok r /\
    obs <$> BaseSetAssoc.blks t' = obs <$> BaseSetAssoc.blks t.
Proof.
  intros E. unfold LRU.accessBlock in E. apply bind_ok in E as ([[r0 lat0] t0] & E0 & E).
  unfold BaseSetAssoc.accessBlock in E0. apply bind_ok in E0 as (cs & Hcs & E0).
  apply bind_ok in E0 as (r1 & Hr & E0). exists cs. split; [done|].
  assert (r1 = r0 /\ obs <$> BaseSetAssoc.blks t0 = obs <$> BaseSetAssoc.blks t) as [-> Eo].
  { destruct r1 as [p|]; simpl in E0; destruct (BaseSetAssoc.sequentialAccess t); inv_ok; (split; [done|]); simpl; try done.
    all: match goal with H : pupd _ _ _ = Ok _ |- _ => apply pupd_ok in H as (x & Hx & ->) end; simpl; rewrite list_fmap_insert; apply list_insert_id;
      rewrite list_lookup_fmap; simpl in Hx; by rewrite Hx. }
  assert (r = r0 /\ BaseSetAssoc.blks t' = BaseSetAssoc.blks t0) as [-> ->]; [|done].
  destruct r0 as [p|]; [|by inv_ok]. unfold LRU.on_set in E. by inv_ok.
Qed.

(** The lookup changes nothing the relation reads. *)
Lemma lookup_coherent F G ct cp c m a :
  coherent F G c m -> 0 <= a ->
  exists r lat t, LRU.accessBlock ct cp (tags c) a false = Ok (r, lat, t) /\
    coherent F G (c <| tags := t |>) m /\
    match r with
    | Some p => exists b, BaseSetAssoc.blks t !! p = Some b /\ Blk.isValid b = true /\ line s b = a / 2 ^ k
    | None => BaseSetAssoc.findBlock t a false = Ok None
    end.
Proof.
  intros Hch Ha. pose proof Hch as [[A Hok] H2 H3 H4 H5 H6 H7]. pose proof (co_refines _ _ _ _ Hok) as Hrf.
  destruct (LRU.access_refines k s (maxMasters c) cp ct a false (tags c) A Hrf Ha) as (hit & t & E & _ & Hrf' & _).
  cbn [LRU.step] in E. apply bind_ok in E as ([[r lat] t'] & E & [= _ <-]). rename t' into t.
  assert (obs <$> BaseSetAssoc.blks t = obs <$> BaseSetAssoc.blks (tags c)) as Eo.
  { by eapply accessBlock_inv in E as (cs & _ & _ & ?). }
  assert (coherent F G (c <| tags := t |>) m) as Hch'.
  { apply (coherent_frame F G c); try done. eexists. split; [exact Hrf'|apply Hok|]. intros p b Hp.
    destruct (obs_lookup _ _ p b Eo Hp) as (b0 & Hb0 & Eb). destruct (obs_state _ _ Eb) as (_ & _ & _ & ->).
    exact (co_data _ _ _ _ Hok p b0 Hb0). }
  exists r, lat, t. split; [done|]. split; [done|].
  assert (BaseSetAssoc.findBlock (tags c) a false = Ok r) as Hr.
  { apply accessBlock_inv in E as (cs & Hcs & Hr & _).
    destruct (LRU.find_spec _ _ _ _ _ a false Hrf Ha) as (cs' & _ & Hcs' & _ & Ei & _).
    rewrite (LRU.findBlock_eq k s _ _ false cs' _ (LRU.rf_geo _ _ _ _ _ Hrf) Ha Ei Hcs').
    rewrite Ei in Hcs. apply vget_ok in Hcs as [_ Hcs]. rewrite Nat2Z.id in Hcs. congruence. }
  destruct r as [p|].
  - destruct (found_holder k s A c Hok p a Ha Hr) as (b & Hb & Hv & Hl).
    destruct (obs_lookup _ _ p b (eq_sym Eo) Hb) as (b' & Hb' & Eb). destruct (obs_state _ _ Eb) as (Ev & _ & El & _).
    exists b'. rewrite <- Ev, <- El. done.
  - destruct (ch_ok _ _ _ _ Hch') as (A' & Hok').
    destruct (LRU.find_spec _ _ _ _ _ a false (co_refines _ _ _ _ Hok') Ha) as (cs & ks & Hcs & _ & Ei & _ & _ & _ & r' & Er & _).
    pose proof (LRU.findBlock_eq k s _ _ false cs _ (LRU.rf_geo _ _ _ _ _ (co_refines _ _ _ _ Hok')) Ha Ei Hcs) as Ef.
    rewrite Er in Ef. destruct r' as [p|]; [|exact Ef].
    destruct (found_holder k s A' _ Hok' p a Ha Ef) as (b' & Hb' & Hv & Hl).
    destruct (obs_lookup _ _ p b' Eo Hb') as (b & Hb & Eb). destruct (obs_state _ _ Eb) as (Ev & Es & El & _).
    rewrite (holder_found k s A c Hok p b a Hb) in Hr; [done|by rewrite <- Ev| |done|by rewrite <- El].
    apply (gd_secure F G), (H5 p b Hb). by rewrite <- Ev.
Qed.

(** *** Misses *)

Lemma lnot_unot w x : 0 <= w -> uwrap w (Z.lnot x) = unot w x.
Proof.
  intros Hw. apply Z.bits_inj'. intros i Hi. unfold uwrap, unot. rewrite Z.ldiff_spec.
  destruct (Z.lt_ge_cases i w).
  - rewrite Z.mod_pow2_bits_low, Z.lnot_spec, Z.ones_spec_low by lia. done.
  - by rewrite Z.mod_pow2_bits_high, Z.ones_spec_high by lia.
Qed.

Definition bus_cmd (pkt : Packet.Packet) : MemCmd.Command :=
  if Packet.isWriteInvalidate pkt then Packet.cmd pkt
  else if Packet.needsExclusive pkt then MemCmd.ReadExReq else MemCmd.ReadReq.

(** A packet for the whole line. *)
Lemma line_packet fr cmd pkt d c :
  0 <= lo -> hi < 2 ^ 64 -> 2 <= k < 32 -> access_ok pkt d -> blkSize c = 2 ^ k ->
  (forall n, 0 <= n -> Z.of_nat (length (fr n)) = n) ->
  exists bus,
    (pkt' ← Packet.Packet_blk (Packet.req pkt) cmd (blkSize c);
     let pkt' := if Packet.sharedAsserted pkt then Packet.assertShared pkt' else pkt' in
     a ← Packet.getAddr pkt';
     _ ← ensure AssertFailed (a =? blockAlign c a);
     pkt' ← Packet.allocate fr pkt';
     Ok (Some pkt')) = Ok (Some bus) /\
    Packet.cmd bus = cmd /\ Packet.req bus = Packet.req pkt /\
    Packet.addr bus = Packet.addr pkt / 2 ^ k * 2 ^ k /\ Packet.size bus = 2 ^ k /\
    Packet._isSecure bus = false /\ Packet.sharedAsserted bus = false /\ mem_request lo hi bus (fr (2 ^ k)).
Proof.
  intros Hlo Hhi Hk [_ _ _ _ _ _ Hl Hl1 Hl2 _ _ Hex Hpa _ Hsame Hca Hrs _] Hbs Hfr.
  pose proof (pow2_pos k ltac:(lia)) as Hk0. pose proof (Z.pow_lt_mono_r 2 k 32 ltac:(lia) ltac:(lia)) as Hk32.
  destruct (addr_split (Packet.addr pkt) Hk0) as [Ea Hmod].
  unfold Packet.Packet_blk, Request.getPaddr. unfold Request.hasPaddr in Hpa |- *.
  rewrite Hpa, Hsame, Hrs, Hex, Hbs. cbn [mbind outcome_bind ensure].
  assert (Z.land (Packet.addr pkt) (u64 (Z.lnot (2 ^ k - 1))) = Packet.addr pkt / 2 ^ k * 2 ^ k) as ->.
  { rewrite lnot_unot, land_not_mask by (try split; lia). lia. }
  rewrite uwrap_small by (split; lia). set (a := Packet.addr pkt / 2 ^ k * 2 ^ k) in *.
  unfold Packet.getAddr. simpl. unfold blockAlign. rewrite Hbs, land_not_mask by (try split; unfold a; lia).
  assert (a mod 2 ^ k = 0) as -> by (unfold a; apply Z.mod_mul; lia). rewrite Z.sub_0_r, Z.eqb_refl. simpl.
  eexists. split; [reflexivity|]. split_and!; try done. split; simpl; try done; try (unfold a; lia).
  by apply Hfr; lia.
Qed.

(** The packet sent below for a line that is not in the cache. *)
Lemma bus_packet fr pkt d c :
  0 <= lo -> hi < 2 ^ 64 -> 2 <= k < 32 -> access_ok pkt d -> blkSize c = 2 ^ k ->
  (forall n, 0 <= n -> Z.of_nat (length (fr n)) = n) ->
  exists bus, getBusPacket fr pkt None (Packet.needsExclusive pkt) c = Ok (Some bus) /\
    Packet.cmd bus = bus_cmd pkt /\ Packet.req bus = Packet.req pkt /\
    Packet.addr bus = Packet.addr pkt / 2 ^ k * 2 ^ k /\ Packet.size bus = 2 ^ k /\
    Packet._isSecure bus = false /\ Packet.sharedAsserted bus = false /\ mem_request lo hi bus (fr (2 ^ k)).
Proof.
  intros Hlo Hhi Hk Ha Hbs Hfr. destruct (line_packet fr (bus_cmd pkt) pkt d c) as (bus & E & Hbus); try done.
  exists bus. split; [|done]. rewrite <- E. pose proof (ac_cmd _ _ Ha) as Hc.
  unfold getBusPacket. cbn [mbind outcome_bind]. rewrite (ac_cached _ _ Ha). cbn [negb andb].
  assert (bool_decide (Packet.cmd pkt = MemCmd.Writeback) || Packet.isUpgrade pkt = false /\
    Packet.needsResponse pkt = true /\
    bool_decide (Packet.cmd pkt = MemCmd.SCUpgradeFailReq) || bool_decide (Packet.cmd pkt = MemCmd.StoreCondFailReq) = false)
    as (-> & -> & ->).
  { unfold Packet.isUpgrade, Packet.needsResponse. destruct Hc as [->|[->|[-> _]]]; by vm_compute. }
  cbn [mbind outcome_bind ensure].
  assert ((if Packet.isWriteInvalidate pkt then Ok (Packet.cmd pkt)
           else Ok (if Packet.needsExclusive pkt then MemCmd.ReadExReq else MemCmd.ReadReq)) = Ok (bus_cmd pkt)) as ->
    by (unfold bus_cmd; by destruct (Packet.isWriteInvalidate pkt)).
  done.
Qed.

(** The packet sent below for a line that is there but may not be written. *)
Lemma upgrade_packet fr pkt d c p b :
  0 <= lo -> hi < 2 ^ 64 -> 2 <= k < 32 -> access_ok pkt d -> blkSize c = 2 ^ k ->
  (forall n, 0 <= n -> Z.of_nat (length (fr n)) = n) ->
  get_blk p c = Ok b -> Blk.isValid b = true -> Blk.isWritable b = false -> Packet.needsExclusive pkt = true ->
  exists bus, getBusPacket fr pkt (Some p) true c = Ok (Some bus) /\
    Packet.cmd bus = MemCmd.UpgradeReq /\ Packet.req bus = Packet.req pkt /\
    Packet.addr bus = Packet.addr pkt / 2 ^ k * 2 ^ k /\ Packet.size bus = 2 ^ k /\
    Packet._isSecure bus = false /\ Packet.sharedAsserted bus = false /\ mem_request lo hi bus (fr (2 ^ k)).
Proof.
  intros Hlo Hhi Hk Ha Hbs Hfr Hb Hv Hw Hx. destruct (line_packet fr MemCmd.UpgradeReq pkt d c) as (bus & E & Hbus); try done.
  exists bus. split; [|done]. rewrite <- E. pose proof (ac_cmd _ _ Ha) as Hc.
  unfold getBusPacket. rewrite Hb. cbn [mbind outcome_bind]. rewrite (ac_cached _ _ Ha), Hv, Hw. cbn [negb andb].
  assert (Packet.needsResponse pkt = true /\ Packet.isLLSC pkt = false) as (-> & ->).
  { unfold Packet.needsResponse, Packet.isLLSC. destruct Hc as [->|[->|[-> _]]]; by vm_compute. }
  done.
Qed.

(** A line that is not in the cache is in memory. *)
Lemma missing_in_memory F G c m a x :
  coherent F G c m -> 0 <= a -> BaseSetAssoc.findBlock (tags c) a false = Ok None ->
  lo <= x <= hi -> x / 2 ^ k = a / 2 ^ k -> G x = F x.
Proof.
  intros [[A Hok] H2 H3 H4 H5 H6 H7] Ha Hf Hx El. apply H6; [done|]. intros p b Hp Hv Hl.
  rewrite (holder_found k s A c Hok p b a Hp Hv) in Hf; [done| |done|congruence].
  by apply (gd_secure F G), (H5 p b Hp).
Qed.

Definition env_ok (e : Env) : Prop :=
  bypassCaches e = false /\ forall n, 0 <= n -> Z.of_nat (length (fresh e n)) = n.

(** The packet with the depth of its request counted up. *)
Lemma access_ok_depth pkt d f :
  access_ok pkt d -> access_ok (pkt <| Packet.req ::= (fun r => r <| Request.depth ::= f |>) |>) d.
Proof. intros []. by split. Qed.

Lemma coherent_mem F G c m m' : coherent F G c m -> port_rep G m' -> coherent F G c m'.
Proof. intros [] ?. by split. Qed.

Lemma findBlock_line A c a a' :
  cache_ok k s A c -> 0 <= a -> 0 <= a' -> a / 2 ^ k = a' / 2 ^ k ->
  BaseSetAssoc.findBlock (tags c) a false = BaseSetAssoc.findBlock (tags c) a' false.
Proof.
  intros Hok Ha Ha' El. pose proof (LRU.rf_geo _ _ _ _ _ (co_refines _ _ _ _ Hok)) as Hg.
  unfold BaseSetAssoc.findBlock. by rewrite !(BaseSetAssoc.extractSet_div _ k s), !(BaseSetAssoc.extractTag_div _ k s), El by done.
Qed.

(** The response from below, for reads and writes and for whole-line writes. *)
Lemma read_response F G e h c m bus bus' pkt d :
  0 <= lo -> hi < 2 ^ 64 -> env_ok e -> coherent F G c m -> access_ok pkt d ->
  BaseSetAssoc.findBlock (tags c) (Packet.addr pkt) false = Ok None ->
  Packet.cmd pkt <> MemCmd.WriteInvalidateReq -> Packet.cmd bus = bus_cmd pkt -> Packet.req bus = Packet.req pkt ->
  Packet.addr bus = Packet.addr pkt / 2 ^ k * 2 ^ k -> Packet.size bus = 2 ^ k -> Packet._isSecure bus = false ->
  Packet.sharedAsserted bus = false -> mem_request lo hi bus (fresh e (2 ^ k)) -> reply bus bus' ->
  Packet.data bus' = Some (read_bytes G (Packet.addr bus) (Packet.size bus)) ->
  exists pkt' wbs c' m' G', atomic_response e h pkt bus' None c = Ok (pkt', wbs, c') /\
    send_all wbs m = Ok m' /\ coherent (after F pkt d) G' c' m' /\ Packet.cmd pkt' = Packet.cmd pkt /\
    (Packet.cmd pkt = MemCmd.ReadReq ->
       Packet.data pkt' = Some (read_bytes F (Packet.addr pkt) (Packet.size pkt))).
Proof.
  intros Hlo Hhi [_ Hfr] Hch Ha Hmiss Hnwi Bc Br Ba Bz Bs Bsh Bm Hrep Hdata.
  pose proof Hch as [[A Hok] Hmm Htop H4 H5 H6 H7].
  destruct (geo_bounds _ _ _ _ Hok) as (Hk & Hs & Hk0 & Hs0). pose proof (co_blkSize _ _ _ _ Hok) as Hbs.
  destruct (addr_split (Packet.addr pkt) Hk0) as [Ea Hmod]. pose proof (ac_low _ _ Ha) as Hlow.
  pose proof (ac_lo _ _ Ha) as Hl1. pose proof (ac_hi _ _ Ha) as Hl2.
  set (a := Packet.addr pkt / 2 ^ k * 2 ^ k) in *.
  assert (a / 2 ^ k = Packet.addr pkt / 2 ^ k) as Eal by (unfold a; by rewrite Z.div_mul by lia).
  assert (read_bytes G a (2 ^ k) = read_bytes F a (2 ^ k)) as Erb.
  { apply read_bytes_ext. intros x Hx. apply (missing_in_memory F G c m (Packet.addr pkt)); try done; [lia|].
    symmetry. apply (Z.div_unique x (2 ^ k) _ (x - a)); unfold a in *; lia. }
  rewrite Ba, Bz, Erb in Hdata. destruct Hrep as [R1 R2 R3 R4 R5 R6 R7].
  assert (Packet.needsResponse pkt = true /\ Packet.isWriteInvalidate pkt = false /\
    (Packet.cmd bus' = MemCmd.ReadResp \/ Packet.cmd bus' = MemCmd.ReadExResp)) as (Q1 & Q2 & Q3).
  { rewrite R1, Bc. unfold bus_cmd, Packet.needsResponse, Packet.isWriteInvalidate, Packet.needsExclusive.
    destruct (ac_cmd _ _ Ha) as [->|[->|[? _]]]; [| |done]; vm_compute; auto. }
  assert (Packet.isResponse bus' = true /\ Packet.isError bus' = false /\ Packet.isRead bus' = true /\
    Packet.hasData bus' = true) as (Q4 & Q5 & Q6 & Q7).
  { unfold Packet.isResponse, Packet.isError, Packet.isRead, Packet.hasData. by destruct Q3 as [->| ->]. }
  change Packet.VALID_ADDR with (2 ^ 8) in *. change Packet.VALID_SIZE with (2 ^ 9) in *.
  destruct (fill_coherent F G e h bus' a (read_bytes F a (2 ^ k)) c m)
    as (p & b & wbs & c' & m' & G' & Ef & Es & Hpb & Hlb & Hvb & Hwb & Hbs' & Htop' & Hlen & Hdb & Hch');
    rewrite ?Eal; try done.
  { destruct Bm. split; try done.
    - by rewrite Q4.
    - by rewrite Q6.
    - unfold Packet.getAddr. change Packet.VALID_ADDR with (2 ^ 8) in *. rewrite R6, mr_addr0, R3, Ba by lia. done.
    - unfold Packet.isSecure. change Packet.VALID_ADDR with (2 ^ 8) in *. rewrite R6, mr_addr0, R5, Bs by lia. done.
    - intros _. unfold Packet.getSize. change Packet.VALID_SIZE with (2 ^ 9) in *. rewrite R6, mr_size0, R4, Bz by lia.
      rewrite Hbs. split; [done|]. split; [|rewrite read_bytes_length; lia].
      unfold Packet.getPtr in mr_ptr0 |- *. apply bind_ok in mr_ptr0 as (? & Hpt%ensure_ok & _).
      by rewrite R7, Hpt, Hdata.
    - lia.
    - rewrite R2, Br, Hmm. apply Ha. }
  { by rewrite (findBlock_line A c a (Packet.addr pkt)) by (done || lia). }
  { unfold Packet.sharedAsserted in *. change Packet.SHARED with (2 ^ 0) in *. by rewrite R6 by lia. }
  { destruct Bm. unfold Packet.memInhibitAsserted in *. change Packet.MEM_INHIBIT with (2 ^ 3) in *. by rewrite R6 by lia. }
  specialize (Hdb Q6). rewrite Eal in Hlb, Hch'. fold a in Hch'.
  destruct (serve F G' (curTick e) c' m' p b pkt d) as (pkt' & c'' & Esv & Hfin); try done; [lia|by left|].
  unfold atomic_response. rewrite Q1, Q4, Q5, Q2, Q6. cbn [mbind outcome_bind ensure orb]. cbv zeta.
  rewrite Ef. cbn [mbind outcome_bind]. rewrite Esv. cbn [mbind outcome_bind]. by exists pkt', wbs, c'', m', G'.
Qed.

Lemma invalidate_response F G e h c m bus' pkt d :
  0 <= lo -> hi < 2 ^ 64 -> env_ok e -> coherent F G c m -> access_ok pkt d ->
  BaseSetAssoc.findBlock (tags c) (Packet.addr pkt) false = Ok None ->
  Packet.cmd pkt = MemCmd.WriteInvalidateReq -> Packet.cmd bus' = MemCmd.WriteInvalidateResp ->
  exists pkt' wbs c' m' G', atomic_response e h pkt bus' None c = Ok (pkt', wbs, c') /\
    send_all wbs m = Ok m' /\ coherent (after F pkt d) G' c' m' /\ Packet.cmd pkt' = Packet.cmd pkt.
Proof.
  intros Hlo Hhi [_ Hfr] Hch Ha Hmiss Hwi Hb. pose proof Hch as [[A Hok] Hmm Htop H4 H5 H6 H7].
  destruct (geo_bounds _ _ _ _ Hok) as (Hk & Hs & Hk0 & Hs0).
  assert (Packet.needsResponse pkt = true /\ Packet.isWriteInvalidate pkt = true /\ Packet.isRead pkt = false /\
    Packet.hasData pkt = true) as (Q1 & Q2 & Q3 & Q4)
    by (unfold Packet.needsResponse, Packet.isWriteInvalidate, Packet.isRead, Packet.hasData; by rewrite Hwi).
  assert (Packet.isResponse bus' = true /\ Packet.isError bus' = false) as (Q5 & Q6)
    by (unfold Packet.isResponse, Packet.isError; by rewrite Hb).
  destruct (fill_coherent F G e h pkt (Packet.addr pkt) [] c m)
    as (p & b & wbs & c' & m' & G' & Ef & Es & Hpb & Hlb & Hvb & Hwb & Hbs' & Htop' & Hlen & _ & Hch');
    try (done || apply Ha).
  { destruct Ha. split; try done; rewrite ?Q2, ?Q3, ?orb_true_r; try done.
    - unfold Packet.getAddr. by rewrite ac_addr0.
    - unfold Packet.isSecure. by rewrite ac_addr0, ac_sec0.
    - by rewrite Hmm. }
  destruct (serve F G' (curTick e) c' m' p b pkt d) as (pkt' & c'' & Esv & Hfin & Ec & _); try done; [lia|by right|].
  unfold atomic_response. rewrite Q1, Q5, Q6, Q2, Htop. cbn [mbind outcome_bind ensure]. cbv zeta.
  rewrite Ef. cbn [mbind outcome_bind]. rewrite Esv. cbn [mbind outcome_bind]. by exists pkt', wbs, c'', m', G'.
Qed.

Lemma miss_coherent F G e h c m pkt d lat :
  0 <= lo -> hi < 2 ^ 64 -> env_ok e -> coherent F G c m -> access_ok pkt d ->
  BaseSetAssoc.findBlock (tags c) (Packet.addr pkt) false = Ok None ->
  exists pkt' lat' wbs c' m1 m' G',
    atomic_miss e h pkt None lat c m = Ok (pkt', lat', wbs, c', m1) /\ send_all wbs m1 = Ok m' /\
    coherent (after F pkt d) G' c' m' /\ Packet.cmd pkt' = Packet.cmd pkt /\
    (Packet.cmd pkt = MemCmd.ReadReq ->
       Packet.data pkt' = Some (read_bytes F (Packet.addr pkt) (Packet.size pkt))).
Proof.
  intros Hlo Hhi He Hch Ha Hmiss. pose proof He as [_ Hfr]. pose proof Hch as [[A Hok] Hmm Htop H4 H5 H6 H7].
  destruct (geo_bounds _ _ _ _ Hok) as (Hk & Hs & Hk0 & Hs0). pose proof (co_blkSize _ _ _ _ Hok) as Hbs.
  destruct (bus_packet (fresh e) pkt d c Hlo Hhi Hk Ha Hbs Hfr) as (bus & Eb & Bc & Br & Ba & Bz & Bs & Bsh & Bm).
  unfold atomic_miss. rewrite Eb. cbn [mbind outcome_bind].
  assert (forall bus', reply bus bus' -> pkt <| Packet.req := Packet.req bus' |> = pkt) as Hreq.
  { intros bus' Hr. rewrite (rp_req _ _ Hr), Br. by destruct pkt. }
  destruct (decide (Packet.cmd pkt = MemCmd.WriteInvalidateReq)) as [Ewi|Ewi].
  - destruct (port_invalidate G m bus (fresh e (2 ^ k)) H7 Bm) as (bus' & t & m1 & E & Hm1 & Hr).
    { rewrite Bc. unfold bus_cmd, Packet.isWriteInvalidate. by rewrite Ewi. }
    destruct (invalidate_response F G e h c m1 bus' pkt d) as (pkt' & wbs & c' & m' & G' & E2 & E3 & Hfin & Ec); try done.
    { by apply (coherent_mem F G c m). }
    { rewrite (rp_cmd _ _ Hr), Bc. unfold bus_cmd, Packet.isWriteInvalidate. by rewrite Ewi. }
    rewrite E. cbn [mbind outcome_bind]. rewrite (Hreq bus' Hr), E2. cbn [mbind outcome_bind].
    eexists pkt', _, wbs, c', m1, m', G'. split_and!; try done. by rewrite Ewi.
  - destruct (port_read G m bus (fresh e (2 ^ k)) H7 Bm) as (bus' & t & m1 & E & Hm1 & Hr & Hd).
    { rewrite Bc. unfold bus_cmd, Packet.isWriteInvalidate, Packet.needsExclusive.
      destruct (ac_cmd _ _ Ha) as [->|[->|[? _]]]; [by left|by right|done]. }
    destruct (read_response F G e h c m1 bus bus' pkt d) as (pkt' & wbs & c' & m' & G' & E2 & E3 & Hfin & Ec & Hrd); try done.
    { by apply (coherent_mem F G c m). }
    rewrite E. cbn [mbind outcome_bind]. rewrite (Hreq bus' Hr), E2. cbn [mbind outcome_bind].
    eexists pkt', _, wbs, c', m1, m', G'. done.
Qed.

(** *** A request *)

(** The hit and miss counters are not read by the relation. *)
Lemma coherent_stats F G c m f g h' n b :
  coherent F G c m ->
  coherent F G (c <| hits ::= f |>) m /\
  coherent F G (c <| misses ::= g |>) m /\ coherent F G (c <| missCount := n |>) m /\
  coherent F G (c <| exitLoop := b |>) m /\ coherent F G (c <| writebackCount ::= h' |>) m.
Proof.
  intros Hch. pose proof Hch as [[A Hok] _ _ _ _ _ _].
  split_and!; (apply (coherent_frame F G c); try done; exists A; destruct Hok; by split).
Qed.

Lemma miss_counted F G c m pkt d :
  coherent F G c m -> access_ok pkt d ->
  exists c', incMissCount pkt c = Ok (pkt <| Packet.req ::= (fun r => r <| Request.depth ::= Z.add 1 |>) |>, c') /\
    coherent F G c' m /\ tags c' = tags c.
Proof.
  intros Hch Ha. unfold incMissCount. rewrite (ch_masters _ _ _ _ Hch), (proj2 (Z.ltb_lt _ _)) by apply Ha.
  cbn [mbind outcome_bind ensure]. cbv zeta. eexists. split; [reflexivity|].
  set (c1 := c <| misses ::= cons (Packet.cmd pkt, Request.masterId (Packet.req pkt)) |>).
  assert (coherent F G c1 m /\ tags c1 = tags c) as [H1 E1].
  { split; [|done]. by destruct (coherent_stats F G c m id (cons (Packet.cmd pkt, Request.masterId (Packet.req pkt))) id 0 false Hch) as (_ & ? & _). }
  destruct (missCount c1 =? 0); [done|]. set (c2 := c1 <| missCount ::= Z.pred |>).
  assert (coherent F G c2 m) as H2.
  { by destruct (coherent_stats F G c1 m id id id (Z.pred (missCount c1)) false H1) as (_ & _ & ? & _). }
  destruct (missCount c2 =? 0); [|done]. split; [|done].
  by destruct (coherent_stats F G c2 m id id id 0 true H2) as (_ & _ & _ & ? & _).
Qed.

Lemma access_coherent F G e h c m pkt d :
  coherent F G c m -> access_ok pkt d ->
  exists a, Cache.access (curTick e) (clockPeriod e) (fresh e) h pkt [] c = Ok a /\ r_writebacks a = [] /\
    (if r_hit a then
       coherent (after F pkt d) G (r_cache a) m /\ Packet.cmd (r_pkt a) = Packet.cmd pkt /\
       (Packet.cmd pkt = MemCmd.ReadReq ->
          Packet.data (r_pkt a) = Some (read_bytes F (Packet.addr pkt) (Packet.size pkt)))
     else
       r_blk a = None /\
       r_pkt a = pkt <| Packet.req ::= (fun r => r <| Request.depth ::= Z.add 1 |>) |> /\
       coherent F G (r_cache a) m /\
       BaseSetAssoc.findBlock (tags (r_cache a)) (Packet.addr pkt) false = Ok None).
Proof.
  intros Hch Ha. pose proof Ha as [Hc Fa _ _ _ _ Hl _ _ Hs _ _ _ _ _ Hu _ _].
  assert (Packet.isRequest pkt = true /\ Packet.cmd pkt <> MemCmd.Writeback /\ Packet.isLLSC pkt = false) as (Q1 & Q2 & Q3).
  { unfold Packet.isRequest, Packet.isLLSC. by destruct Hc as [->|[->|[-> _]]]. }
  unfold Cache.access. rewrite Q1, Hu. cbn [mbind outcome_bind ensure]. unfold Packet.getAddr, Packet.isSecure.
  rewrite Fa, Hs. cbn [mbind outcome_bind ensure].
  destruct (lookup_coherent F G (curTick e) (clockPeriod e) c m (Packet.addr pkt) Hch Hl) as (r & lat & t & E & Hch1 & Hr).
  rewrite E. cbn [mbind outcome_bind]. rewrite decide_False by done. set (c1 := c <| tags := t |>) in *.
  destruct r as [p|].
  - destruct Hr as (b & Hb & Hv & Hlb). pose proof (ch_blk _ _ _ _ Hch1 p b Hb Hv) as Hg.
    assert (get_blk (InTags p) c1 = Ok b) as Hgb by by apply pget_ok. rewrite Hgb. cbn [mbind outcome_bind].
    assert ((if Packet.needsExclusive pkt then Blk.isWritable b else Blk.isReadable b) = true) as ->
      by (rewrite (gd_writable _ _ _ Hg), (gd_readable _ _ _ Hg); by destruct (Packet.needsExclusive pkt)).
    unfold incHitCount. rewrite (ch_masters _ _ _ _ Hch1), (proj2 (Z.ltb_lt _ _)) by apply Ha. cbn [mbind outcome_bind ensure].
    set (c2 := c1 <| hits ::= _ |>).
    assert (coherent F G c2 m) as Hch2
      by (by destruct (coherent_stats F G c1 m (cons (Packet.cmd pkt, Request.masterId (Packet.req pkt))) id id 0 false Hch1) as (? & _)).
    pose proof (ch_ok _ _ _ _ Hch2) as (A & Hok). destruct (geo_bounds _ _ _ _ Hok) as (Hk & _ & Hk0 & _).
    destruct (serve F G (curTick e) c2 m p b pkt d) as (pkt' & c' & Es & Hfin & Ec & Hrd); try done.
    + lia.
    + apply Hg.
    + apply Hok.
    + apply (ch_top _ _ _ _ Hch2).
    + rewrite <- (co_blkSize _ _ _ _ Hok). exact (co_data _ _ _ _ Hok p b Hb).
    + left. rewrite (gd_data _ _ _ Hg), Hlb. done.
    + rewrite <- Hlb, <- (gd_data _ _ _ Hg).
      replace (b <| Blk.data := Blk.data b |>) with b by (by destruct b). by rewrite put_same.
    + rewrite Es. cbn [mbind outcome_bind]. eexists. split; [reflexivity|]. done.
  - cbn [mbind outcome_bind]. destruct (miss_counted F G c1 m pkt d Hch1 Ha) as (c2 & -> & Hch2 & Et).
    cbn [mbind outcome_bind]. unfold Packet.isLLSC. change (Packet.cmd (_ <| Packet.req ::= _ |>)) with (Packet.cmd pkt).
    fold (Packet.isLLSC pkt). rewrite Q3. cbn [andb]. eexists. split; [reflexivity|]. split; [done|]. simpl.
    by rewrite Et.
Qed.

Lemma promote_ok e pkt d F c :
  access_ok pkt d -> 0 < k < 64 -> blkSize c = 2 ^ k -> isTopLevel c = true ->
  Packet.cmd pkt <> MemCmd.WriteInvalidateReq ->
  exists pkt1, promoteWholeLineWrites (doFastWrites e) pkt c = Ok pkt1 /\ access_ok pkt1 d /\
    after F pkt1 d = after F pkt d /\ Packet.addr pkt1 = Packet.addr pkt /\ Packet.size pkt1 = Packet.size pkt /\
    (Packet.cmd pkt1 = MemCmd.ReadReq <-> Packet.cmd pkt = MemCmd.ReadReq).
Proof.
  intros Ha Hk Hbs Ht Hwi. unfold promoteWholeLineWrites. destruct (access_in_block pkt d c Ha Hk Hbs) as [Hi _].
  destruct (in_block_get _ _ _ Hi) as [Ho Hn]. rewrite Hn, Ho, Hbs, Ht.
  destruct (doFastWrites e); cbn [andb]; [|by exists pkt].
  destruct (bool_decide_reflect (Packet.cmd pkt = MemCmd.WriteReq)) as [Ew|]; [|by exists pkt].
  cbn [mbind outcome_bind ensure]. destruct (Z.eqb_spec (Packet.size pkt) (2 ^ k)); [|by exists pkt].
  cbn [mbind outcome_bind].
  destruct (_ =? 0); [|by exists pkt]. eexists. split; [reflexivity|]. split; [|split; [|split; [done|split; [done|]]]].
  - destruct Ha. split; try done. auto.
  - unfold after, Packet.isWrite. simpl. by rewrite Ew.
  - rewrite Ew. done.
Qed.

Lemma step_coherent F G e h c m pkt d :
  0 <= lo -> hi < 2 ^ 64 -> env_ok e -> coherent F G c m -> access_ok pkt d ->
  Packet.cmd pkt <> MemCmd.WriteInvalidateReq ->
  exists pkt' lat c' m' G', recvAtomic e h pkt c m = Ok (pkt', lat, c', m') /\
    coherent (after F pkt d) G' c' m' /\ Packet.isResponse pkt' = true /\
    (Packet.cmd pkt = MemCmd.ReadReq ->
       Packet.data pkt' = Some (read_bytes F (Packet.addr pkt) (Packet.size pkt))).
Proof.
  intros Hlo Hhi He Hch Ha Hwi. pose proof (ch_ok _ _ _ _ Hch) as (A & Hok).
  destruct (geo_bounds _ _ _ _ Hok) as (Hk & _ & Hk0 & _).
  destruct (promote_ok e pkt d F c Ha ltac:(lia) (co_blkSize _ _ _ _ Hok) (ch_top _ _ _ _ Hch) Hwi)
    as (pkt1 & Ep & Ha1 & Ef & Eaddr & Esize & Ecmd).
  assert (forall p, Packet.cmd p = Packet.cmd pkt1 -> Packet.needsResponse p = true /\
    Packet.isResponse (responded p) = true) as Hresp.
  { intros p Hp. unfold Packet.needsResponse, Packet.isResponse. simpl. rewrite Hp.
    by destruct (ac_cmd _ _ Ha1) as [->|[->|[-> _]]]. }
  unfold recvAtomic. rewrite (proj1 He), Ep. cbn [mbind outcome_bind]. rewrite (ac_own _ _ Ha1).
  destruct (access_coherent F G e h c m pkt1 d Hch Ha1) as (a & Eacc & Ewb & Hres). rewrite Eacc. cbn [mbind outcome_bind].
  rewrite Ewb. cbn [send_all mbind outcome_bind]. rewrite <- Ef.
  destruct (r_hit a).
  - destruct Hres as (Hfin & Ec & Hrd). cbn [mbind outcome_bind send_all]. destruct (Hresp _ Ec) as [Hn Hr].
    rewrite Hn, makeResponse_ok by done. cbn [mbind outcome_bind]. eexists _, _, _, m, G. split; [reflexivity|].
    split; [done|]. split; [done|]. intros Hrq. rewrite <- Eaddr, <- Esize. apply Hrd. by apply Ecmd.
  - destruct Hres as (Er & Epk & Hch1 & Hmiss). rewrite Er, Epk. set (pkt2 := pkt1 <| Packet.req ::= _ |>).
    pose proof (access_ok_depth pkt1 d (Z.add 1) Ha1) as Ha2. fold pkt2 in Ha2.
    destruct (miss_coherent F G e h (r_cache a) m pkt2 d (r_lat a) Hlo Hhi He Hch1 Ha2 Hmiss)
      as (pkt' & lat' & wbs & c' & m1 & m' & G' & E1 & E2 & Hfin & Ec & Hrd).
    rewrite E1. cbn [mbind outcome_bind]. rewrite E2. cbn [mbind outcome_bind]. destruct (Hresp _ Ec) as [Hn Hr].
    rewrite Hn, makeResponse_ok by done. cbn [mbind outcome_bind]. eexists _, _, c', m', G'. split; [reflexivity|].
    split; [done|]. split; [done|]. intros Hrq. rewrite <- Eaddr, <- Esize. apply Hrd. by apply Ecmd.
Qed.
End coherent.

(** ** Sequences of requests *)

(** A request: the surroundings at the time, the packet and its bytes. *)
Definition request : Type := Env * Packet.Packet * list Z.

Fixpoint run {M : Type} {AP : AtomicPort M} (h : list MSHR.MSHR) (qs : list request) (c : Cache) (m : M)
  : outcome (list Packet.Packet * Cache * M) :=
  match qs with
  | [] => Ok ([], c, m)
  | (e, pkt, _) :: qs =>
      '(r, _, c, m) ← recvAtomic e h pkt c m;
      '(rs, c, m) ← run h qs c m;
      Ok (r :: rs, c, m)
  end.

(** The same requests to a flat memory: the bytes of each read. *)
Fixpoint flat_run (qs : list request) (F : Z -> Z) : list (option (list Z)) * (Z -> Z) :=
  match qs with
  | [] => ([], F)
  | (_, pkt, d) :: qs =>
      let r := if decide (Packet.cmd pkt = MemCmd.ReadReq)
               then Some (read_bytes F (Packet.addr pkt) (Packet.size pkt)) else None in
      let '(rs, F') := flat_run qs (after F pkt d) in
      (r :: rs, F')
  end.

(** A response, with the bytes the flat memory gives. *)
Definition agrees (pkt : Packet.Packet) (r : option (list Z)) : Prop :=
  Packet.isResponse pkt = true /\ forall d, r = Some d -> Packet.data pkt = Some d.

(** The requests of a CPU: plain reads and writes inside a line of memory. *)
Definition cpu_access (lo hi k masters : Z) (q : request) : Prop :=
  env_ok q.1.1 /\ access_ok lo hi k masters q.1.2 q.2 /\
  Packet.cmd q.1.2 <> MemCmd.WriteInvalidateReq.

Lemma run_coherent {M : Type} {AP : AtomicPort M} lo hi {PO : AtomicPortOk M lo hi} k s masters h qs :
  0 <= lo -> hi < 2 ^ 64 -> Forall (cpu_access lo hi k masters) qs -> forall F G c (m : M),
  coherent lo hi k s masters F G c m ->
  exists rs c' m' G', run h qs c m = Ok (rs, c', m') /\ Forall2 agrees rs (flat_run qs F).1 /\
    coherent lo hi k s masters (flat_run qs F).2 G' c' m'.
Proof.
  intros Hlo Hhi. induction qs as [|[[e pkt] d] qs IH]; intros Hqs F G c m Hch; [by exists [], c, m, G|].
  inversion Hqs as [|? ? (He & Ha & Hwi) Hqs']; subst. simpl in He, Ha, Hwi.
  destruct (step_coherent lo hi k s masters F G e h c m pkt d Hlo Hhi He Hch Ha Hwi)
    as (pkt' & lat & c1 & m1 & G1 & E & Hch1 & Hr & Hrd).
  destruct (IH Hqs' _ _ _ _ Hch1) as (rs & c2 & m2 & G2 & E2 & Hrs & Hch2).
  cbn [run flat_run]. rewrite E. cbn [mbind outcome_bind]. rewrite E2. cbn [mbind outcome_bind].
  destruct (flat_run qs (after F pkt d)) as [rs' F']. eexists _, c2, m2, G2. split; [reflexivity|].
  split; [|done]. constructor; [|done]. split; [done|]. intros d' Hd'. destruct (decide _); [|done].
  injection Hd' as <-. by apply Hrd.
Qed.

Lemma tags_new_data fresh masters p t q b :
  BaseSetAssoc.BaseSetAssoc_new fresh masters p = Ok t -> BaseSetAssoc.blks t !! q = Some b ->
  Blk.data b = fresh /\ Blk.isValid b = false /\ Blk.isDirty b = false.
Proof.
  intros E Hb. unfold BaseSetAssoc.BaseSetAssoc_new in E. inv_ok. simpl in Hb. rewrite list_lookup_fmap in Hb.
  destruct (seq _ _ !! q); [|done]. injection Hb as <-. done.
Qed.

(** A cache just constructed, at the top level, with no miss outstanding. *)
Record new_cache (fresh : list Z) (masters : Z) (p : BaseSetAssoc.Params) (c : Cache) : Prop := {
  nc_tags : BaseSetAssoc.BaseSetAssoc_new fresh masters p = Ok (tags c);
  nc_fresh : Z.of_nat (length fresh) = BaseSetAssoc.p_block_size p;
  nc_size : blkSize c = BaseSetAssoc.p_block_size p;
  nc_masters : maxMasters c = masters;
  nc_top : isTopLevel c = true;
  nc_idle : MSHRQueue.allocatedList (mshrQueue c) = [];
}.

Lemma new_coherent {M : Type} {AP : AtomicPort M} lo hi {PO : AtomicPortOk M lo hi} fr masters p c k F (m : M) :
  BaseSetAssoc.valid_params p = true -> 0 <= masters -> new_cache fr masters p c ->
  BaseSetAssoc.p_block_size p = 2 ^ k -> 0 <= k -> port_rep F m ->
  exists s, coherent lo hi k s masters F F c m.
Proof.
  intros Hp Hm [N1 N2 N3 N4 N5 N6] Hk Hk0 Hrep.
  destruct (LRU.new_refines fr masters p Hp Hm) as (t & k' & s & E & Ek & _ & _ & Hrf).
  rewrite N1 in E. injection E as <-.
  assert (k' = k) as ->.
  { destruct Hrf as [_ [] _ _ _]. apply (Z.pow_inj_r 2); lia. }
  exists s. split; try done.
  - eexists. split; [rewrite N4; exact Hrf|congruence|]. intros q b Hb.
    destruct (tags_new_data _ _ _ _ _ _ N1 Hb) as [-> _]. congruence.
  - intros q b Hb Hv. destruct (tags_new_data _ _ _ _ _ _ N1 Hb) as (_ & ? & _). congruence.
Qed.

(** C4: in atomic mode a cache above a memory is that memory: from an empty
    cache, every sequence of reads and writes of any sizes, alignments and
    lines (with hits, misses, evictions of dirty lines, and whole-line writes
    promoted to write-invalidates) is answered without a failed assertion, and
    each read returns the bytes that a flat memory returns after the same
    writes; at the end every line is in an exclusive block or in memory. It
    holds above any object that keeps the atomic interface's laws.
    Each access lies within one line, as the cache asserts, is cacheable and not
    secure ([access_ok]), and the cache is a top-level one ([new_cache]). *)
Theorem atomic_cache_is_memory {M : Type} {AP : AtomicPort M} lo hi {PO : AtomicPortOk M lo hi}
  fr masters p c k F (m : M) h qs :
  0 <= lo -> hi < 2 ^ 64 -> BaseSetAssoc.valid_params p = true -> 0 <= masters ->
  new_cache fr masters p c -> BaseSetAssoc.p_block_size p = 2 ^ k -> 0 <= k -> port_rep F m ->
  Forall (cpu_access lo hi k masters) qs ->
  exists rs c' m' s G, run h qs c m = Ok (rs, c', m') /\ Forall2 agrees rs (flat_run qs F).1 /\
    coherent lo hi k s masters (flat_run qs F).2 G c' m'.
Proof.
  intros Hlo Hhi Hp Hm Hn Hk Hk0 Hrep Hqs.
  destruct (new_coherent lo hi fr masters p c k F m Hp Hm Hn Hk Hk0 Hrep) as (s & Hch).
  destruct (run_coherent lo hi k s masters h qs Hlo Hhi Hqs F F c m Hch) as (rs & c' & m' & G & E & Hrs & Hfin).
  by exists rs, c', m', s, G.
Qed.

(** The small cache above a memory of 64 bytes: two writes to lines of one set,
    so that the second evicts the first, and a read of the first line. *)
Definition example_env : Env := MkEnv true false 10 5 5 (fun n => replicate (Z.to_nat n) 0).
Definition example_requests : list request :=
  [(example_env, example_request MemCmd.WriteReq 2 2 [7; 8], [7; 8]);
   (example_env, example_request MemCmd.WriteReq 16 8 (seqZ 90 8), seqZ 90 8);
   (example_env, example_request MemCmd.ReadReq 1 4 [0; 0; 0; 0], [0; 0; 0; 0])].
Definition with_master (q : request) : request :=
  (q.1.1, q.1.2 <| Packet.req ::= (fun r => r <| Request._masterId := 1 |>) |>, q.2).

Lemma atomic_cache_is_memory_witness :
  exists rs c' m', run (AP := SimpleMemory.simple_port 0) [] (with_master <$> example_requests) empty_cache
      (SimpleMemory.new_memory 0 63 (seqZ 0 64) 10 0) = Ok (rs, c', m') /\
    Forall2 agrees rs [None; None; Some [1; 7; 8; 4]].
Proof.
  destruct (atomic_cache_is_memory (AP := SimpleMemory.simple_port 0) 0 63
    (PO := SimpleMemory.simple_port_ok 0 0 63) (seqZ 10 8) 2
    (BaseSetAssoc.MkParams 16 8 1 2 false) empty_cache 3 (fun x => seqZ 0 64 !!! Z.to_nat (x - 0))
    (SimpleMemory.new_memory 0 63 (seqZ 0 64) 10 0) [] (with_master <$> example_requests))
    as (rs & c' & m' & s & G & E & Ha & _).
  - lia.
  - lia.
  - reflexivity.
  - lia.
  - split; reflexivity.
  - reflexivity.
  - lia.
  - split; [reflexivity|]. exists ∅. by apply new_state.
  - apply Forall_fmap, Forall_forall. intros q Hq. unfold example_requests in Hq.
    rewrite !elem_of_cons, elem_of_nil in Hq.
    destruct Hq as [->|[->|[->|[]]]];
      (split; [split; [reflexivity|intros n Hn; simpl; rewrite length_replicate; lia]|split; [split|]]);
      vm_compute; first [reflexivity|congruence|split; congruence|by auto].
  - exists rs, c', m'. split; [exact E|].
    replace [None; None; Some [1; 7; 8; 4]]
      with (flat_run (with_master <$> example_requests) (fun x => seqZ 0 64 !!! Z.to_nat (x - 0))).1
      by (vm_compute; reflexivity). exact Ha.
Defined.

End CacheAtomic.
