(* ===== verification/CacheSnoop.v ===== *)
(** Snoops: what a cache does with the requests of others that reach its
    memory-side port, [Cache::handleSnoop], [doTimingSupplyResponse],
    [recvTimingSnoopReq] and [recvAtomicSnoop] of mem/cache/cache_impl.hh.

    [SnoopPort] is what the CPU-side port offers: the objects above see a snoop
    before the cache does. A cache is such an object again, so caches stack. *)

From S2P Require Import Prelude IntMath AddrRange Request MemCmd Packet Functional PacketQueue CachePort.
From S2P Require Import Blk CacheSet BaseSetAssoc LRU BasePrefetcher QueuedPrefetcher MSHR MSHRQueue.
From S2P Require Import AbstractMemory AtomicPort SimpleMemory Cache CacheIssue CacheAtomic.
Local Open Scope Z_scope.

(** The objects above a cache, of state [U]. A snoop changes the packet and,
    in timing mode, the MSHRs of the caches it meets; in atomic mode it returns
    a latency. *)
Class SnoopPort (U : Type) := {
  sendTimingSnoopReq : Packet.Packet -> list MSHR.MSHR -> U ->
    outcome (Packet.Packet * list MSHR.MSHR * U);
  sendAtomicSnoop : Packet.Packet -> U -> outcome (Packet.Packet * Z * U);
  isSnooping : U -> bool;
}.

(** Nothing above listens, as above a first-level cache. *)
#[export] Instance no_snoopers : SnoopPort () := {|
  sendTimingSnoopReq pkt h u := Ok (pkt, h, u);
  sendAtomicSnoop pkt u := Ok (pkt, 0, u);
  isSnooping _ := false;
|}.

Module CacheSnoop.
Import Cache CacheIssue CacheAtomic.

Section snoop.
Context {G : Type} `{Generator G} {U : Type} `{SnoopPort U}.

(** [clockEdge(cycles)]. *)
Definition clockEdge (e : Env) (cycles : Z) : Z := now e + cycles * clockPeriod e.

Definition no_delay (pkt : Packet.Packet) : Packet.Packet :=
  pkt <| Packet.headerDelay := 0 |> <| Packet.payloadDelay := 0 |>.

Definition inRange (addr : Z) (s : Issue (G := G)) : bool :=
  existsb (fun r => AddrRange.contains r addr) (addrRanges (params s)).

(** [Cache::markInService]. *)
Definition markInService (e : Env) (id : nat) (pending_dirty_resp : bool) (s : Issue (G := G))
  : outcome Issue := markInServiceInternal (curTick e) id pending_dirty_resp s.

Definition doTimingSupplyResponse (e : Env) (req_pkt : Packet.Packet) (blk_data : list Z)
  (already_copied pending_inval : bool) (s : Issue (G := G)) : outcome Issue :=
  _ ← ensure AssertFailed (Packet.isRequest req_pkt);
  _ ← ensure AssertFailed (Packet.needsResponse req_pkt);
  pkt ← (if already_copied then Ok req_pkt
         else Packet.Packet_copy (fresh e) req_pkt false (Packet.isRead req_pkt));
  _ ← ensure AssertFailed (Request.isUncacheable (Packet.req req_pkt)
        || Packet.isInvalidate req_pkt || Packet.sharedAsserted pkt);
  pkt ← Packet.makeResponse pkt;
  pkt ← (if Packet.isRead pkt then Packet.setDataFromBlock blk_data (blkSize (cache s)) pkt
         else Ok pkt);
  let pkt := if bool_decide (Packet.cmd pkt = MemCmd.ReadResp) && pending_inval
             then pkt <| Packet.cmd := MemCmd.ReadRespWithInvalidate |> else pkt in
  let forward_time := clockEdge e (forwardLatency (params s)) + Packet.headerDelay pkt in
  q ← PacketQueue.schedSendTiming (curTick e) (no_delay pkt) forward_time true (snoopRespQueue s);
  Ok (s <| snoopRespQueue := q |>).

(** The part of [handleSnoop] that asks the caches above first. *)
Definition forward_snoop (e : Env) (is_timing : bool) (pkt : Packet.Packet)
  (s : Issue (G := G)) (u : U) : outcome (Packet.Packet * Issue (G := G) * U) :=
  let alreadyResponded := Packet.memInhibitAsserted pkt in
  if is_timing then
    snoopPkt ← Packet.Packet_copy (fresh e) pkt true true;
    let snoopPkt := no_delay (Packet.pushSenderState Packet.SSForwardResponse
                                (Packet.setExpressSnoop snoopPkt)) in
    '(snoopPkt, h, u) ← sendTimingSnoopReq snoopPkt (heap s) u;
    pkt ← (if Packet.memInhibitAsserted snoopPkt then
             _ ← ensure AssertFailed (negb alreadyResponded);
             Packet.assertMemInhibit pkt
           else
             _ ← Packet.popSenderState snoopPkt;
             Ok pkt);
    let pkt := if Packet.sharedAsserted snoopPkt then Packet.assertShared pkt else pkt in
    let pkt := if Packet.isBlockCached snoopPkt then Packet.setBlockCached pkt else pkt in
    Ok (pkt, s <| heap := h |>, u)
  else
    '(pkt, _, u) ← sendAtomicSnoop pkt u;
    _ ← ensure AssertFailed (alreadyResponded || negb (Packet.memInhibitAsserted pkt)
                             || Packet.isResponse pkt);
    Ok (pkt, s, u).

(** The part that follows: the cache's own block. [invalidate] and
    [needs_exclusive] are those of the packet as it arrived. *)
Definition snoop_block (e : Env) (is_timing is_deferred pending_inval invalidate needs_exclusive : bool)
  (pkt : Packet.Packet) (blk : blkptr) (s : Issue (G := G)) : outcome (Packet.Packet * Issue (G := G)) :=
  b ← get_blk blk (cache s);
  let respond := Blk.isDirty b && Packet.needsResponse pkt && negb (Packet.isWriteInvalidate pkt) in
  let have_exclusive := Blk.isWritable b in
  if decide (Packet.cmd pkt = MemCmd.HardPFReq) then Ok (Packet.setBlockCached pkt, s)
  else
    '(pkt, s) ←
      (if negb (Request.isUncacheable (Packet.req pkt)) && Packet.isRead pkt && negb invalidate then
         _ ← ensure AssertFailed (negb needs_exclusive);
         let b := b <| Blk.status ::= (fun st => Z.land st (unot 32 Blk.BlkWritable)) |> in
         Ok (Packet.assertShared pkt, s <| cache ::= put_blk blk b |>)
       else Ok (pkt, s));
    '(pkt, s) ←
      (if respond then
         pkt ← Packet.assertMemInhibit pkt;
         let pkt := if have_exclusive then Packet.setSupplyExclusive pkt else pkt in
         if is_timing then
           s ← doTimingSupplyResponse e pkt (Blk.data b) is_deferred pending_inval s;
           Ok (pkt, s)
         else
           pkt ← Packet.makeResponse pkt;
           pkt ← Packet.setDataFromBlock (Blk.data b) (blkSize (cache s)) pkt;
           Ok (pkt, s)
       else Ok (pkt, s));
    _ ← (if negb respond && is_timing && is_deferred
         then ensure AssertFailed (Packet.needsResponse pkt) else Ok ());
    if invalidate then
      c ← drop_blk (curTick e) blk (cache s);
      Ok (pkt, s <| cache := c |>)
    else Ok (pkt, s).

Definition handleSnoop (e : Env) (pkt : Packet.Packet) (blk : option blkptr)
  (is_timing is_deferred pending_inval : bool) (s : Issue (G := G)) (u : U)
  : outcome (Packet.Packet * Issue (G := G) * U) :=
  _ ← ensure AssertFailed (negb (is_deferred && negb is_timing));
  _ ← ensure AssertFailed (negb (pending_inval && negb is_deferred));
  _ ← ensure AssertFailed (Packet.isRequest pkt);
  let invalidate := Packet.isInvalidate pkt in
  let needs_exclusive := Packet.needsExclusive pkt in
  '(pkt, s, u) ← (if forwardSnoops (params s) then forward_snoop e is_timing pkt s u
                  else Ok (pkt, s, u));
  match blk with
  | None => Ok (pkt, s, u)
  | Some r =>
      b ← get_blk r (cache s);
      if negb (Blk.isValid b) then Ok (pkt, s, u)
      else
        '(pkt, s) ← snoop_block e is_timing is_deferred pending_inval invalidate needs_exclusive
                      pkt r s;
        Ok (pkt, s, u)
  end.

(** The part of [recvTimingSnoopReq] for a snoop that meets a writeback in the
    write buffer. *)
Definition snoop_writeback (e : Env) (id : nat) (pkt : Packet.Packet) (s : Issue (G := G))
  : outcome (Packet.Packet * Issue (G := G)) :=
  m ← pget (heap s) id;
  _ ← ensure AssertFailed (negb (MSHR.isUncacheable m));
  _ ← ensure AssertFailed (MSHR.getNumTargets m =? 1);
  t ← MSHR.getTarget m;
  let wb_pkt := MSHR.t_pkt t in
  _ ← ensure AssertFailed (bool_decide (Packet.cmd wb_pkt = MemCmd.Writeback));
  _ ← ensure AssertFailed (negb (Packet.memInhibitAsserted pkt));
  pkt ← Packet.assertMemInhibit pkt;
  '(pkt, wb_pkt) ←
    (if negb (Packet.needsExclusive pkt)
     then Ok (Packet.assertShared pkt, Packet.clearSupplyExclusive wb_pkt)
     else
       _ ← ensure AssertFailed (Packet.isInvalidate pkt);
       Ok (pkt, wb_pkt));
  let m := m <| MSHR.targets ::= (fun l =>
             l <| MSHR.items := (t <| MSHR.t_pkt := wb_pkt |>) :: tail (MSHR.items l) |>) |> in
  let s := s <| heap ::= <[id := m]> |> in
  d ← Packet.getPtr wb_pkt;
  s ← doTimingSupplyResponse e pkt d false false s;
  s ← (if Packet.isInvalidate pkt then markInService e id false s else Ok s);
  Ok (pkt, s).

Definition recvTimingSnoopReq (e : Env) (pkt : Packet.Packet) (s : Issue (G := G)) (u : U)
  : outcome (Packet.Packet * Issue (G := G) * U) :=
  _ ← ensure AssertFailed (negb (bypassCaches e));
  if decide (Packet.cmd pkt = MemCmd.Writeback) then Ok (pkt, s, u)
  else
    a ← Packet.getAddr pkt;
    if negb (inRange a s) then Ok (pkt, s, u)
    else
      is_secure ← Packet.isSecure pkt;
      blk ← BaseSetAssoc.findBlock (tags (cache s)) a is_secure;
      let blk_addr := blockAlign (cache s) a in
      mshr ← MSHRQueue.findMatch blk_addr is_secure (heap s) (mshrQueue (cache s));
      if bool_decide (is_Some mshr) && bool_decide (Packet.cmd pkt = MemCmd.HardPFReq)
      then Ok (Packet.setBlockCached pkt, s, u)
      else
        '(deferred, pkt, s) ←
          match mshr with
          | None => Ok (false, pkt, s)
          | Some id =>
              '(d, pkt, h) ← MSHR.handleSnoop (curTick e) (fresh e) id pkt (order s) (heap s);
              Ok (d, pkt, s <| heap := h |> <| order := u64 (order s + 1) |>)
          end;
        if deferred : bool then Ok (pkt, s, u)
        else
          '(found, writebacks) ← MSHRQueue.findMatches blk_addr is_secure [] (heap s) (writeBuffer s);
          '(pkt, s) ←
            (if found : bool then
               match writebacks with
               | [id] => snoop_writeback e id pkt s
               | _ => Fail AssertFailed
               end
             else Ok (pkt, s));
          handleSnoop e pkt (InTags <$> blk) true false false s u.

(** The result includes the returned latency. *)
Definition recvAtomicSnoop (e : Env) (pkt : Packet.Packet) (s : Issue (G := G)) (u : U)
  : outcome (Packet.Packet * Z * Issue (G := G) * U) :=
  _ ← ensure AssertFailed (negb (bypassCaches e));
  if decide (Packet.cmd pkt = MemCmd.Writeback) then Ok (pkt, 0, s, u)
  else
    a ← Packet.getAddr pkt;
    if negb (inRange a s) then Ok (pkt, 0, s, u)
    else
      is_secure ← Packet.isSecure pkt;
      blk ← BaseSetAssoc.findBlock (tags (cache s)) a is_secure;
      '(pkt, s, u) ← handleSnoop e pkt (InTags <$> blk) false false false s u;
      Ok (pkt, forwardLatency (params s) * clockPeriod e, s, u).

End snoop.

(** A cache and what is above it, seen from below at [e]. *)
#[export] Instance cache_above {G : Type} `{Generator G} {U : Type} `{SnoopPort U} (e : Env)
  : SnoopPort (Issue (G := G) * U) := {|
  sendTimingSnoopReq pkt h su :=
    '(pkt, s, u) ← recvTimingSnoopReq e pkt (su.1 <| heap := h |>) su.2;
    Ok (pkt, heap s, (s, u));
  sendAtomicSnoop pkt su :=
    '(pkt, lat, s, u) ← recvAtomicSnoop e pkt su.1 su.2;
    Ok (pkt, lat, (s, u));
  isSnooping _ := true;
|}.

End CacheSnoop.
