(* ===== verification/CacheFunctional.v ===== *)
(** Functional accesses to a cache, and the write-back and the invalidation of
    all of its blocks: [Cache::functionalAccess], [memWriteback], [memInvalidate]
    and [isDirty] of mem/cache/cache_impl.hh.

    [functionalAccess] is called by both ports; [recvFunctional] is its case for
    the CPU side, [recvFunctionalSnoop] its case for the memory side. Labels,
    which only printing uses, are left out. *)

From S2P Require Import Prelude IntMath AddrRange Request MemCmd Packet Functional PacketQueue CachePort.
From S2P Require Import Blk CacheSet BaseSetAssoc LRU BasePrefetcher QueuedPrefetcher MSHR MSHRQueue.
From S2P Require Import AbstractMemory AtomicPort SimpleMemory Cache CacheIssue CacheAtomic CacheSnoop.
Local Open Scope Z_scope.

(** The objects above, which see a functional snoop. *)
Class FunctionalSnoop (U : Type) :=
  sendFunctionalSnoop : Packet.Packet -> U -> outcome (Packet.Packet * U).

#[export] Instance no_functional_snoopers : FunctionalSnoop () := fun pkt u => Ok (pkt, u).

Module CacheFunctional.
Import Cache CacheIssue CacheAtomic.

Section functional.
Context {G : Type} `{Generator G}.

(** The block: whether its data satisfies the packet. *)
Definition check_block (pkt : Packet.Packet) (blk_addr : Z) (is_secure : bool) (blk : option nat) (s : Issue (G := G))
  : outcome (bool * Packet.Packet * Issue (G := G)) :=
  match blk with
  | None => Ok (false, pkt, s)
  | Some p =>
      b ← get_blk (InTags p) (cache s);
      if Blk.isValid b then
        '(have_data, pkt, d) ← Functional.checkFunctional pkt blk_addr is_secure (blkSize (cache s)) (Some (Blk.data b));
        Ok (have_data, pkt, match d with
                            | Some d => s <| cache ::= put_blk (InTags p) (b <| Blk.data := d |>) |>
                            | None => s
                            end)
      else Ok (false, pkt, s)
  end.

(** Whether the data of the block is dirty, or will be once an upgrade is
    answered. *)
Definition check_dirty (have_data : bool) (blk mshr : option nat) (s : Issue (G := G)) : outcome bool :=
  match have_data, blk with
  | true, Some p =>
      b ← get_blk (InTags p) (cache s);
      if Blk.isDirty b then Ok true
      else match mshr with
           | Some id => m ← pget (heap s) id; if MSHR.inService m then MSHR.isPendingDirty m else Ok false
           | None => Ok false
           end
  | _, _ => Ok false
  end.

(** The queues of the ports and the MSHRs, up to the first that satisfies the
    packet. *)
Definition check_buffers (pkt : Packet.Packet) (blk_addr : Z) (s : Issue (G := G))
  : outcome (bool * Packet.Packet * Issue (G := G)) :=
  '(done, pkt, q) ← PacketQueue.checkFunctional pkt (CachePort.queue (cpuSidePort s));
  let s := s <| cpuSidePort ::= (fun p => p <| CachePort.queue := q |>) |> in
  if done : bool then Ok (true, pkt, s) else
  '(done, pkt, h) ← MSHRQueue.checkFunctional pkt blk_addr (mshrQueue (cache s)) (heap s);
  let s := s <| heap := h |> in
  if done : bool then Ok (true, pkt, s) else
  '(done, pkt, h) ← MSHRQueue.checkFunctional pkt blk_addr (writeBuffer s) (heap s);
  let s := s <| heap := h |> in
  if done : bool then Ok (true, pkt, s) else
  '(done, pkt, q) ← PacketQueue.checkFunctional pkt (reqQueue s);
  let s := s <| reqQueue := q |> in
  if done : bool then Ok (true, pkt, s) else
  '(done, pkt, q) ← PacketQueue.checkFunctional pkt (snoopRespQueue s);
  Ok (done, pkt, s <| snoopRespQueue := q |>).

(** What both cases share. *)
Definition functional_check (pkt : Packet.Packet) (s : Issue (G := G))
  : outcome (bool * Packet.Packet * Issue (G := G)) :=
  a ← Packet.getAddr pkt;
  let blk_addr := CacheIssue.blockAlign s a in
  is_secure ← Packet.isSecure pkt;
  blk ← BaseSetAssoc.findBlock (tags (cache s)) a is_secure;
  mshr ← MSHRQueue.findMatch blk_addr is_secure (heap s) (mshrQueue (cache s));
  '(have_data, pkt, s) ← check_block pkt blk_addr is_secure blk s;
  have_dirty ← check_dirty have_data blk mshr s;
  if have_dirty : bool then Ok (true, pkt, s) else check_buffers pkt blk_addr s.

Definition recvFunctional {M : Type} {FP : FunctionalPort M} (e : Env) (pkt : Packet.Packet) (s : Issue (G := G)) (m : M)
  : outcome (Packet.Packet * Issue (G := G) * M) :=
  if bypassCaches e then '(pkt, m) ← sendFunctional pkt m; Ok (pkt, s, m)
  else
    '(done, pkt, s) ← functional_check pkt s;
    if done : bool then pkt ← Packet.makeResponse pkt; Ok (pkt, s, m)
    else '(pkt, m) ← sendFunctional pkt m; Ok (pkt, s, m).

Definition recvFunctionalSnoop {U : Type} `{SnoopPort U} `{FunctionalSnoop U} (e : Env) (pkt : Packet.Packet)
  (s : Issue (G := G)) (u : U) : outcome (Packet.Packet * Issue (G := G) * U) :=
  _ ← ensure AssertFailed (negb (bypassCaches e));
  '(done, pkt, s) ← functional_check pkt s;
  if done : bool then pkt ← Packet.makeResponse pkt; Ok (pkt, s, u)
  else if forwardSnoops (params s) && isSnooping u then
    '(pkt, u) ← sendFunctionalSnoop pkt u; Ok (pkt, s, u)
  else Ok (pkt, s, u).

(** A cache above another object, with what is above it. *)
Definition functional_above {U : Type} `{SnoopPort U} `{FunctionalSnoop U} (e : Env)
  : FunctionalSnoop (Issue (G := G) * U) :=
  fun pkt su => '(pkt, s, u) ← recvFunctionalSnoop e pkt su.1 su.2; Ok (pkt, (s, u)).

End functional.

(** ** The whole cache *)

(** The packet that writes a block back; the request is not marked as secure. *)
Definition writeback_packet (curTick addr size task_id : Z) (data : list Z) : outcome Packet.Packet :=
  request ← Request.Request_phys curTick addr size 0 Request.funcMasterId;
  let request := Request.set_taskId task_id request in
  packet ← Packet.Packet_new request MemCmd.WriteReq;
  Packet.dataStatic data packet.

Section flush.
Context {M : Type} {FP : FunctionalPort M}.

Definition writebackVisitor (curTick : Z) (p : nat) (c : Cache) (m : M) : outcome (Cache * M) :=
  b ← get_blk (InTags p) c;
  if Blk.isDirty b then
    _ ← ensure AssertFailed (Blk.isValid b);
    packet ← writeback_packet curTick (BaseSetAssoc.regenerateBlkAddr (tags c) (Blk.tag b) (Blk.set b)) (blkSize c)
               (Blk.task_id b) (Blk.data b);
    '(_, m) ← sendFunctional packet m;
    Ok (put_blk (InTags p) (b <| Blk.status ::= (fun st => Z.land st (unot 32 Blk.BlkDirty)) |>) c, m)
  else Ok (c, m).

(** [forEachBlk] with this visitor, which always goes on. *)
Fixpoint writeback_blks (curTick : Z) (ps : list nat) (c : Cache) (m : M) : outcome (Cache * M) :=
  match ps with
  | [] => Ok (c, m)
  | p :: ps =>
      '(c, m) ← writebackVisitor curTick p c m;
      writeback_blks curTick ps c m
  end.

Definition all_blks (c : Cache) : list nat := seq 0 (length (BaseSetAssoc.blks (tags c))).

Definition memWriteback (curTick : Z) (c : Cache) (m : M) : outcome (Cache * M) :=
  writeback_blks curTick (all_blks c) c m.

End flush.

Definition invalidateVisitor (curTick : Z) (p : nat) (c : Cache) : outcome Cache :=
  b ← get_blk (InTags p) c;
  if Blk.isValid b then
    _ ← ensure AssertFailed (negb (Blk.isDirty b));
    drop_blk curTick (InTags p) c
  else Ok c.

Fixpoint invalidate_blks (curTick : Z) (ps : list nat) (c : Cache) : outcome Cache :=
  match ps with
  | [] => Ok c
  | p :: ps => c ← invalidateVisitor curTick p c; invalidate_blks curTick ps c
  end.

Definition memInvalidate (curTick : Z) (c : Cache) : outcome Cache := invalidate_blks curTick (all_blks c) c.

(** [CacheBlkIsDirtyVisitor] stops at the first dirty block. *)
Definition isDirty (c : Cache) : bool := existsb Blk.isDirty (BaseSetAssoc.blks (tags c)).

End CacheFunctional.
