(* ===== verification/CacheTiming.v ===== *)
(** The cache in timing mode: [Cache::recvTimingReq], [recvTimingResp],
    [recvTimingSnoopResp], [getTimingPacket] and
    [CacheReqPacketQueue::sendDeferredPacket] of mem/cache/cache_impl.hh.

    A request that hits is answered after the latency of the lookup; a miss
    allocates or joins an MSHR, whose request goes below when the request queue
    of the memory-side port asks for it, and whose targets are answered when the
    response arrives. *)

From S2P Require Import Prelude IntMath AddrRange Request MemCmd Packet Functional PacketQueue CachePort.
From S2P Require Import Blk CacheSet BaseSetAssoc LRU BasePrefetcher QueuedPrefetcher MSHR MSHRQueue.
From S2P Require Import AbstractMemory AtomicPort SimpleMemory Cache CacheIssue CacheAtomic CacheSnoop.
Local Open Scope Z_scope.

(** The object below a cache: it accepts or refuses a request, and marks the
    packet with what the snoops on the way found. *)
Class TimingPort (M : Type) :=
  sendTimingReq : Packet.Packet -> list MSHR.MSHR -> M ->
    outcome (bool * Packet.Packet * list MSHR.MSHR * M).

Module CacheTiming.
Import Cache CacheIssue CacheAtomic CacheSnoop.

Section timing.
Context {G : Type} `{Generator G} {U : Type} `{SnoopPort U}.

(** ** Requests *)

(** [cpuSidePort->schedTimingResp(pkt, when)]. *)
Definition schedTimingResp (e : Env) (pkt : Packet.Packet) (when : Z) (s : Issue (G := G))
  : outcome Issue :=
  q ← PacketQueue.schedSendTiming (curTick e) pkt when false (CachePort.queue (cpuSidePort s));
  Ok (s <| cpuSidePort ::= (fun p => p <| CachePort.queue := q |>) |>).

(** The loops that move the writebacks to the write buffer. *)
Fixpoint buffer_writebacks (e : Env) (time : Z) (wbs : list Packet.Packet) (s : Issue (G := G))
  : outcome Issue :=
  match wbs with
  | [] => Ok s
  | wb :: wbs =>
      '(_, s) ← allocateWriteBuffer (curTick e) wb time true s;
      buffer_writebacks e time wbs s
  end.

(** [prefetcher->notify(pkt)], if there is a prefetcher and the packet is not a
    software prefetch; the result is [next_pf_time]. *)
Definition notify (e : Env) (pkt : Packet.Packet) (s : Issue (G := G)) : outcome (Z * Issue (G := G)) :=
  match prefetcher s with
  | Some pf =>
      if negb (MemCmd.isSWPrefetch (Packet.cmd pkt)) then
        '(t, pf) ← QueuedPrefetcher.notify (curTick e) (clockPeriod e) (fresh e)
                     (cache s, heap s) pkt pf;
        Ok (t, s <| prefetcher := Some pf |>)
      else Ok (MaxTick, s)
  | None => Ok (MaxTick, s)
  end.

(** A request for which a cache above responds; [accepts] is the answer of the
    object below to an express snoop. *)
Definition timing_inhibited (e : Env) (accepts : bool) (pkt : Packet.Packet) (s : Issue (G := G))
  : outcome Issue :=
  s ← (if Packet.needsExclusive pkt && negb (Packet.isSupplyExclusive pkt) then
         snoop_pkt ← Packet.Packet_copy (fresh e) pkt true false;
         snoop_pkt ← Packet.assertMemInhibit (Packet.setExpressSnoop (no_delay snoop_pkt));
         _ ← ensure AssertFailed accepts;
         Ok (s <| expressReqs ::= (fun l => l ++ [snoop_pkt]) |>)
       else Ok s);
  Ok (s <| pendingDelete ::= (fun l => l ++ [pkt]) |>).

(** The request hit. *)
Definition timing_hit (e : Env) (pkt : Packet.Packet) (blk : option blkptr) (request_time : Z)
  (s : Issue (G := G)) : outcome (Z * Issue (G := G)) :=
  _ ← ensure AssertFailed (negb (Request.isUncacheable (Packet.req pkt)));
  b ← match blk with Some r => b ← get_blk r (cache s); Ok (Some (r, b)) | None => Ok None end;
  let tell := match prefetcher s with
              | Some _ => prefetchOnAccess (params s)
                          || match b with Some (_, b) => Blk.wasPrefetched b | None => false end
              | None => false
              end in
  '(next_pf_time, s) ←
    (if tell then
       let s := match b with
                | Some (r, b) =>
                    s <| cache ::= put_blk r (b <| Blk.status ::= (fun st =>
                           Z.land st (unot 32 Blk.BlkHWPrefetched)) |>) |>
                | None => s
                end in
       notify e pkt s
     else Ok (MaxTick, s));
  s ← (if Packet.needsResponse pkt then
         pkt ← Packet.makeResponse pkt;
         schedTimingResp e (no_delay pkt) request_time s
       else Ok (s <| pendingDelete ::= (fun l => l ++ [pkt]) |>));
  Ok (next_pf_time, s).

(** A software prefetch at the top level is answered at once with dummy data;
    the packet that goes on is a copy, or none when the block is already on its
    way. *)
Definition ack_prefetch (e : Env) (pkt : Packet.Packet) (mshr : option nat) (request_time : Z)
  (s : Issue (G := G)) : outcome (option Packet.Packet * Issue (G := G)) :=
  let r := Packet.req pkt in
  _ ← ensure AssertFailed (Packet.needsResponse pkt);
  _ ← ensure AssertFailed (Request.hasPaddr r);
  _ ← ensure AssertFailed (negb (Request.isUncacheable r));
  pf ← match mshr with
       | Some _ => Ok None
       | None =>
           paddr ← Request.getPaddr r;
           n ← Request.getSize r;
           fl ← Request.getFlags r;
           req ← Request.Request_phys (curTick e) paddr n fl (Request.masterId r);
           pf ← Packet.Packet_new req (Packet.cmd pkt);
           pf ← Packet.allocate (fresh e) pf;
           a ← Packet.getAddr pf; a' ← Packet.getAddr pkt;
           _ ← ensure AssertFailed (a =? a');
           n ← Packet.getSize pf; n' ← Packet.getSize pkt;
           _ ← ensure AssertFailed (n =? n');
           Ok (Some pf)
       end;
  pkt ← Packet.makeResponse pkt;
  n ← Packet.getSize pkt;
  pkt ← Packet.setData (replicate (Z.to_nat n) 0xFF) 0 pkt;
  s ← schedTimingResp e pkt request_time s;
  Ok (pf, s).

(** A miss on a block that has an MSHR. *)
Definition coalesce (e : Env) (id : nat) (pkt : Packet.Packet) (forward_time : Z) (s : Issue (G := G))
  : outcome (Z * Issue (G := G)) :=
  let mid := Request.masterId (Packet.req pkt) in
  _ ← ensure AssertFailed (mid <? maxMasters (cache s));
  let s := s <| stats ::= cons (MshrHit (Packet.cmd pkt) mid) |> in
  m ← pget (heap s) id;
  let m := if negb (MSHR.threadNum m =? 0) then m <| MSHR.threadNum := -1 |> else m in
  h ← MSHR.allocateTarget (curTick e) id pkt forward_time (order s) (<[id := m]> (heap s));
  let s := s <| heap := h |> <| order := u64 (order s + 1) |> in
  m ← pget h id;
  s ← (if MSHR.getNumTargets m =? numTarget (params s)
       then setBlocked Blocked_NoTargets (s <| noTargetMSHR := Some id |>) else Ok s);
  notify e pkt s.

(** A miss on a block that has none. *)
Definition new_miss (e : Env) (pkt : Packet.Packet) (blk : option blkptr) (forward_time : Z)
  (s : Issue (G := G)) : outcome (Z * Issue (G := G)) :=
  let r := Packet.req pkt in
  let mid := Request.masterId r in
  _ ← ensure AssertFailed (mid <? maxMasters (cache s));
  let st := if Request.isUncacheable r then MshrUncacheable (Packet.cmd pkt) mid
            else MshrMiss (Packet.cmd pkt) mid in
  let s := s <| stats ::= cons st |> in
  s ← (if bool_decide (Packet.cmd pkt = MemCmd.Writeback)
          || Request.isUncacheable r && Packet.isWrite pkt then
         '(_, s) ← allocateWriteBuffer (curTick e) pkt forward_time true s;
         Ok s
       else
         s ← match blk with
             | None => Ok s
             | Some p =>
                 b ← get_blk p (cache s);
                 if Blk.isValid b then
                   _ ← ensure AssertFailed (negb (Request.isUncacheable r));
                   _ ← ensure AssertFailed (Packet.needsExclusive pkt);
                   _ ← ensure AssertFailed (negb (Blk.isWritable b));
                   Ok (s <| cache ::= put_blk p (b <| Blk.status ::= (fun st =>
                         Z.land st (unot 32 Blk.BlkReadable)) |>) |>)
                 else Ok s
             end;
         '(_, s) ← allocateMissBuffer (curTick e) pkt forward_time true s;
         Ok s);
  notify e pkt s.

Definition timing_miss (e : Env) (pkt : Packet.Packet) (blk : option blkptr)
  (request_time forward_time : Z) (s : Issue (G := G)) : outcome (Z * Issue (G := G)) :=
  a ← Packet.getAddr pkt;
  mshr ← (if Request.isUncacheable (Packet.req pkt) then Ok None
          else
            sec ← Packet.isSecure pkt;
            MSHRQueue.findMatch (blockAlign (cache s) a) sec (heap s) (mshrQueue (cache s)));
  '(p, s) ← (if MemCmd.isSWPrefetch (Packet.cmd pkt) && isTopLevel (cache s)
             then ack_prefetch e pkt mshr request_time s else Ok (Some pkt, s));
  match mshr, p with
  | Some id, Some pkt => coalesce e id pkt forward_time s
  | Some _, None => Ok (MaxTick, s)
  | None, Some pkt => new_miss e pkt blk forward_time s
  | None, None => Fail Undefined
  end.

(** The return value is always [true]. *)
Definition recvTimingReq (e : Env) (accepts : bool) (pkt : Packet.Packet) (s : Issue (G := G))
  : outcome Issue :=
  let s := s <| pendingDelete := [] |> in
  _ ← ensure AssertFailed (Packet.isRequest pkt);
  if bypassCaches e then
    _ ← ensure AssertFailed accepts;
    Ok (s <| expressReqs ::= (fun l => l ++ [pkt]) |>)
  else
    pkt ← promoteWholeLineWrites (doFastWrites e) pkt (cache s);
    if Packet.memInhibitAsserted pkt then timing_inhibited e accepts pkt s
    else
      let forward_time := clockEdge e (forwardLatency (params s)) + Packet.headerDelay pkt in
      a ← access (curTick e) (clockPeriod e) (fresh e) (heap s) pkt [] (cache s);
      s ← buffer_writebacks e forward_time (r_writebacks a) (s <| cache := r_cache a |>);
      let request_time := clockEdge e (r_lat a) + Packet.headerDelay (r_pkt a) in
      let pkt := no_delay (r_pkt a) in
      '(next_pf_time, s) ←
        (if r_hit a then timing_hit e pkt (r_blk a) request_time s
         else timing_miss e pkt (r_blk a) request_time forward_time s);
      if negb (next_pf_time =? MaxTick)
      then requestMemSideBus (curTick e) Request_PF
             (Z.max (clockEdge e (forwardLatency (params s))) next_pf_time) s
      else Ok s.

(** [CpuSidePort::recvTimingReq]: the result says whether the request was
    accepted. *)
Definition port_recvTimingReq (e : Env) (accepts : bool) (pkt : Packet.Packet) (s : Issue (G := G))
  : outcome (bool * Issue (G := G)) :=
  _ ← ensure AssertFailed (negb (bypassCaches e));
  match CachePort.port_verdict (Packet.memInhibitAsserted pkt) (cpuSidePort s) with
  | CachePort.PassInhibited => s ← recvTimingReq e accepts pkt s; Ok (true, s)
  | CachePort.Refuse =>
      Ok (false, s <| cpuSidePort ::= (fun p => p <| CachePort.mustSendRetry := true |>) |>)
  | CachePort.PassOn =>
      s ← recvTimingReq e accepts pkt s;
      Ok (true, s <| cpuSidePort ::= (fun p => p <| CachePort.mustSendRetry := false |>) |>)
  end.

(** ** Responses *)

Definition upd_status (f : Z -> Z) (blk : option blkptr) (s : Issue (G := G)) : outcome Issue :=
  match blk with
  | None => Ok s
  | Some r =>
      b ← get_blk r (cache s);
      Ok (s <| cache ::= put_blk r (b <| Blk.status ::= f |>) |>)
  end.

(** What the loop over the targets carries: the block, whether the response
    fills it, and the writebacks. *)
Record Fill := MkFill {
  f_blk : option blkptr;
  f_is_fill : bool;
  f_writebacks : list Packet.Packet;
}.

(** [mshr->handleFill(pkt, blk)] and [blk = handleFill(pkt, blk, writebacks)]. *)
Definition fill (e : Env) (id : nat) (pkt : Packet.Packet) (f : Fill) (s : Issue (G := G))
  : outcome (Fill * Issue (G := G)) :=
  h ← MSHR.handleFill id pkt (heap s);
  '(r, wbs, c) ← handleFill (curTick e) (clockEdge e (fillLatency (cache s))) (fresh e) h pkt
                   (f_blk f) (f_writebacks f) (cache s);
  Ok (MkFill (Some r) true wbs, s <| heap := h |> <| cache := c |>).

(** The data and the completion time of a target from the CPU side; the result
    is the target's packet. *)
Definition complete_target (e : Env) (id : nat) (pkt tgt_pkt : Packet.Packet) (recvTime initial_offset : Z)
  (f : Fill) (s : Issue (G := G)) : outcome (Packet.Packet * Z * Issue (G := G)) :=
  let base := Packet.headerDelay pkt + clockEdge e (responseLatency (params s)) in
  m ← pget (heap s) id;
  if f_is_fill f then
    post_downgrade ← MSHR.hasPostDowngrade m;
    match f_blk f with
    | None => Fail Undefined
    | Some r =>
        '(tgt_pkt, c) ← satisfyCpuSideRequest (curTick e) true post_downgrade tgt_pkt r (cache s);
        o ← Packet.getOffset (blkSize c) tgt_pkt;
        let transfer_offset := let t := o - initial_offset in if t <? 0 then t + blkSize c else t in
        let completion_time := base + (if transfer_offset =? 0 then 0 else Packet.payloadDelay pkt) in
        let req := Packet.req tgt_pkt in
        _ ← ensure AssertFailed (negb (Request.isUncacheable req));
        _ ← ensure AssertFailed (Request.masterId req <? maxMasters c);
        let st := MissLat (Packet.cmd tgt_pkt) (Request.masterId req) (completion_time - recvTime) in
        Ok (tgt_pkt, completion_time, s <| cache := c |> <| stats ::= cons st |>)
    end
  else if decide (Packet.cmd pkt = MemCmd.UpgradeFailResp) then
    _ ← ensure AssertFailed (bool_decide (Packet.cmd tgt_pkt = MemCmd.StoreCondReq)
          || bool_decide (Packet.cmd tgt_pkt = MemCmd.StoreCondFailReq)
          || bool_decide (Packet.cmd tgt_pkt = MemCmd.SCUpgradeFailReq));
    Ok (tgt_pkt <| Packet.req ::= Request.setExtraData 0 |>, base + Packet.payloadDelay pkt, s)
  else
    tgt_pkt ← (if Packet.isRead pkt && negb (Packet.isError pkt) then
                 a ← Packet.getAddr pkt; a' ← Packet.getAddr tgt_pkt;
                 _ ← ensure AssertFailed (a =? a');
                 n ← Packet.getSize pkt; n' ← Packet.getSize tgt_pkt;
                 _ ← ensure AssertFailed (n >=? n');
                 d ← Packet.getPtr pkt;
                 Packet.setData d 0 tgt_pkt
               else Ok tgt_pkt);
    Ok (tgt_pkt, base + Packet.payloadDelay pkt, s).

(** A target from the CPU side. *)
Definition serve_cpu (e : Env) (id : nat) (pkt : Packet.Packet) (t : MSHR.Target) (initial_offset : Z)
  (f : Fill) (s : Issue (G := G)) : outcome (Fill * Issue (G := G)) :=
  let tgt_pkt := MSHR.t_pkt t in
  if MemCmd.isSWPrefetch (Packet.cmd tgt_pkt) && isTopLevel (cache s) then Ok (f, s)
  else
    '(f, s) ← (if Packet.isWriteInvalidate tgt_pkt && isTopLevel (cache s) then
                 _ ← ensure AssertFailed (negb (Packet.isError pkt));
                 fill e id tgt_pkt f s
               else Ok (f, s));
    '(tgt_pkt, completion_time, s) ←
      complete_target e id pkt tgt_pkt (MSHR.recvTime t) initial_offset f s;
    tgt_pkt ← Packet.makeResponse tgt_pkt;
    tgt_pkt ← (if Packet.isError pkt then Packet.copyError pkt tgt_pkt else Ok tgt_pkt);
    tgt_pkt ← (if decide (Packet.cmd tgt_pkt = MemCmd.ReadResp) then
                 m ← pget (heap s) id;
                 inv ← (if Packet.isInvalidate pkt then Ok true else MSHR.hasPostInvalidate m);
                 Ok (if inv : bool then tgt_pkt <| Packet.cmd := MemCmd.ReadRespWithInvalidate |>
                     else tgt_pkt)
               else Ok tgt_pkt);
    s ← schedTimingResp e (no_delay tgt_pkt) completion_time s;
    Ok (f, s).

(** The body of the loop, without [popTarget]. *)
Definition serve_target (e : Env) (id : nat) (pkt : Packet.Packet) (t : MSHR.Target) (initial_offset : Z)
  (f : Fill) (s : Issue (G := G)) (u : U) : outcome (Fill * Issue (G := G) * U) :=
  match MSHR.source t with
  | MSHR.FromCPU => '(f, s) ← serve_cpu e id pkt t initial_offset f s; Ok (f, s, u)
  | MSHR.FromPrefetcher =>
      _ ← ensure AssertFailed (bool_decide (Packet.cmd (MSHR.t_pkt t) = MemCmd.HardPFReq));
      s ← upd_status (Z.lor Blk.BlkHWPrefetched) (f_blk f) s;
      Ok (f, s, u)
  | MSHR.FromSnoop =>
      _ ← ensure AssertFailed (negb (Packet.isError pkt));
      m ← pget (heap s) id;
      post_inval ← MSHR.hasPostInvalidate m;
      _ ← ensure AssertFailed (negb (Packet.isInvalidate pkt && negb post_inval));
      '(_, s, u) ← handleSnoop e (MSHR.t_pkt t) (f_blk f) true true post_inval s u;
      Ok (f, s, u)
  end.

(** A round of the loop: the first target is served and removed. *)
Definition serve_round (e : Env) (id : nat) (pkt : Packet.Packet) (t : MSHR.Target) (initial_offset : Z)
  (f : Fill) (s : Issue (G := G)) (u : U) : outcome (Fill * Issue (G := G) * U) :=
  '(f, s, u) ← serve_target e id pkt t initial_offset f s u;
  m ← pget (heap s) id;
  m ← MSHR.popTarget m;
  Ok (f, s <| heap ::= <[id := m]> |>, u).

(** The loop over the targets. Every round removes a target; a fill for a write
    that invalidates can add the deferred ones. The number of targets of both
    lists is enough fuel. *)
Fixpoint serve_targets (fuel : nat) (e : Env) (id : nat) (pkt : Packet.Packet) (initial_offset : Z)
  (f : Fill) (s : Issue (G := G)) (u : U) : outcome (Fill * Issue (G := G) * U) :=
  m ← pget (heap s) id;
  match MSHR.items (MSHR.targets m) with
  | [] => Ok (f, s, u)
  | t :: _ =>
      match fuel with
      | O => Fail Undefined
      | S fuel =>
          '(f, s, u) ← serve_round e id pkt t initial_offset f s u;
          serve_targets fuel e id pkt initial_offset f s u
      end
  end.

(** What remains of the block after its targets have been served. *)
Definition settle_block (e : Env) (id : nat) (pkt : Packet.Packet) (blk : option blkptr)
  (s : Issue (G := G)) : outcome Issue :=
  match blk with
  | None => Ok s
  | Some r =>
      b ← get_blk r (cache s);
      if Blk.isValid b then
        m ← pget (heap s) id;
        inv ← (if Packet.isInvalidate pkt then Ok true else MSHR.hasPostInvalidate m);
        if inv && (negb (Packet.isWriteInvalidate pkt) || negb (isTopLevel (cache s))) then
          _ ← ensure AssertFailed (match r with Temp => false | InTags _ => true end);
          c ← drop_blk (curTick e) r (cache s);
          Ok (s <| cache := c |>)
        else
          down ← MSHR.hasPostDowngrade m;
          if down : bool then upd_status (fun st => Z.land st (unot 32 Blk.BlkWritable)) blk s
          else Ok s
      else Ok s
  end.

(** The deferred targets become the next request, or the MSHR is free. *)
Definition retire_mshr (e : Env) (id : nat) (wasFull : bool) (pkt : Packet.Packet) (blk : option blkptr)
  (s : Issue (G := G)) : outcome Issue :=
  m ← pget (heap s) id;
  '(promoted, m) ← MSHR.promoteDeferredTargets (curTick e) m;
  let s := s <| heap ::= <[id := m]> |> in
  let mq := queue_of id s in
  if promoted : bool then
    s ← upd_status (fun st => Z.land st (unot 32 Blk.BlkReadable)) blk s;
    '(q, h) ← MSHRQueue.markPending id (queue mq s) (heap s);
    requestMemSideBus (curTick e) (MSHRQueue.index q) (clockEdge e 0 + Packet.payloadDelay pkt)
      ((set_queue mq q s) <| heap := h |>)
  else
    '(q, h) ← MSHRQueue.deallocate id (queue mq s) (heap s);
    let s := (set_queue mq q s) <| heap := h |> in
    s ← (if wasFull && negb (MSHRQueue.isFull q) then clearBlocked (curTick e) (MSHRQueue.index q) s
         else Ok s);
    match prefetcher s, mq with
    | Some pf, Misses =>
        if MSHRQueue.canPrefetch q then
          let next_pf_time := Z.max (QueuedPrefetcher.nextPrefetchReadyTime pf) (curTick e) in
          if negb (next_pf_time =? MaxTick)
          then requestMemSideBus (curTick e) Request_PF next_pf_time s else Ok s
        else Ok s
    | _, _ => Ok s
    end.

(** The block of a response that found no place in the tags is written back and
    forgotten. *)
Definition clear_temp (e : Env) (forward_time : Z) (blk : option blkptr) (s : Issue (G := G))
  : outcome Issue :=
  match blk with
  | Some Temp =>
      s ← (if Blk.isDirty (tempBlock (cache s)) then
             '(wb, c) ← writebackBlk (curTick e) (fresh e) Temp (cache s);
             '(_, s) ← allocateWriteBuffer (curTick e) wb forward_time true (s <| cache := c |>);
             Ok s
           else Ok s);
      Ok (s <| cache ::= (fun c => c <| tempBlock ::= Blk.invalidate |>) |>)
  | _ => Ok s
  end.

Definition recvTimingResp (e : Env) (pkt : Packet.Packet) (s : Issue (G := G)) (u : U)
  : outcome (Issue (G := G) * U) :=
  _ ← ensure AssertFailed (Packet.isResponse pkt);
  match Packet.senderState pkt with
  | Packet.SSMshr id :: _ =>
      let wasFull := MSHRQueue.isFull (queue (queue_of id s) s) in
      s ← (if decide (noTargetMSHR s = Some id) then
             s ← clearBlocked (curTick e) Blocked_NoTargets s;
             Ok (s <| noTargetMSHR := None |>)
           else Ok s);
      m ← pget (heap s) id;
      initial_tgt ← MSHR.getTarget m;
      a ← Packet.getAddr pkt;
      sec ← Packet.isSecure pkt;
      blk ← BaseSetAssoc.findBlock (tags (cache s)) a sec;
      let miss_latency := u64 (curTick e - MSHR.recvTime initial_tgt) in
      let forward_time := clockEdge e (forwardLatency (params s)) + Packet.headerDelay pkt in
      let mid := Request.masterId (Packet.req pkt) in
      _ ← ensure AssertFailed (mid <? maxMasters (cache s));
      let c := Packet.cmd (MSHR.t_pkt initial_tgt) in
      let st := if Request.isUncacheable (Packet.req pkt) then MshrUncacheableLat c mid miss_latency
                else MshrMissLat c mid miss_latency in
      let s := s <| stats ::= cons st |> in
      let is_fill := negb (MSHR.isForward m)
                     && (Packet.isRead pkt || bool_decide (Packet.cmd pkt = MemCmd.UpgradeResp)) in
      let f := MkFill (InTags <$> blk) is_fill [] in
      '(f, s) ← (if is_fill && negb (Packet.isError pkt) then fill e id pkt f s else Ok (f, s));
      initial_offset ← Packet.getOffset (blkSize (cache s)) (MSHR.t_pkt initial_tgt);
      m ← pget (heap s) id;
      '(f, s, u) ← serve_targets (Z.to_nat (MSHR.getNumTargets m)) e id pkt initial_offset f s u;
      s ← settle_block e id pkt (f_blk f) s;
      s ← retire_mshr e id wasFull pkt (f_blk f) s;
      s ← buffer_writebacks e (clockEdge e (forwardLatency (params s))) (f_writebacks f) s;
      s ← clear_temp e forward_time (f_blk f) s;
      Ok (s, u)
  | _ => Fail AssertFailed
  end.

(** A response from a cache above to a snoop that this cache forwarded. *)
Definition recvTimingSnoopResp (e : Env) (pkt : Packet.Packet) (s : Issue (G := G)) (u : U)
  : outcome (Issue (G := G) * U) :=
  _ ← ensure AssertFailed (Packet.isResponse pkt);
  _ ← ensure AssertFailed (negb (bypassCaches e));
  match Packet.senderState pkt with
  | Packet.SSForwardResponse :: _ =>
      '(_, pkt) ← Packet.popSenderState pkt;
      let snoop_resp_time := clockEdge e (forwardLatency (params s)) + Packet.headerDelay pkt in
      q ← PacketQueue.schedSendTiming (curTick e) (no_delay pkt) snoop_resp_time false
            (snoopRespQueue s);
      Ok (s <| snoopRespQueue := q |>, u)
  | _ =>
      _ ← ensure AssertFailed (bool_decide (Packet.cmd pkt = MemCmd.HardPFResp));
      recvTimingResp e pkt s u
  end.

(** ** Sending *)

(** The upward snoop before a prefetch is sent; [true] when there is nothing
    left to send. *)
Definition snoop_prefetch (e : Env) (id : nat) (tgt_pkt : Packet.Packet) (blk : option nat)
  (s : Issue (G := G)) (u : U) : outcome (bool * Issue (G := G) * U) :=
  snoop_pkt ← Packet.Packet_copy (fresh e) tgt_pkt true false;
  let snoop_pkt := (Packet.setExpressSnoop snoop_pkt) <| Packet.senderState := [Packet.SSMshr id] |> in
  '(snoop_pkt, h, u) ← sendTimingSnoopReq snoop_pkt (heap s) u;
  let s := s <| heap := h |> in
  if Packet.memInhibitAsserted snoop_pkt then
    s ← markInService e id (negb (Packet.sharedAsserted snoop_pkt)) s;
    Ok (true, s, u)
  else if Packet.isBlockCached snoop_pkt || bool_decide (is_Some blk) then
    let mq := queue_of id s in
    '(freed, q, h) ← MSHRQueue.forceDeallocateTarget (curTick e) id (queue mq s) (heap s);
    let s := (set_queue mq q s) <| heap := h |> in
    s ← (if freed : bool then clearBlocked (curTick e) (MSHRQueue.index q) s else Ok s);
    Ok (true, s, u)
  else Ok (false, s, u).

(** [None] is the null pointer. A packet that needs no response is sent itself,
    not a copy, so its new sender state is also that of the target. *)
Definition getTimingPacket (e : Env) (s : Issue (G := G)) (u : U)
  : outcome (option Packet.Packet * Issue (G := G) * U) :=
  '(mshr, s) ← CacheIssue.getNextMSHR (curTick e) s;
  match mshr with
  | None => Ok (None, s, u)
  | Some id =>
      m ← pget (heap s) id;
      t ← MSHR.getTarget m;
      let tgt_pkt := MSHR.t_pkt t in
      blk ← BaseSetAssoc.findBlock (tags (cache s)) (MSHR.blkAddr m) (MSHR.isSecure m);
      no_response ← MSHR.isForwardNoResponse m;
      if no_response : bool then
        _ ← ensure AssertFailed (negb (bool_decide (is_Some blk)));
        let pkt := tgt_pkt <| Packet.senderState := [Packet.SSMshr id] |> in
        let m := m <| MSHR.targets ::= (fun l =>
                   l <| MSHR.items := (t <| MSHR.t_pkt := pkt |>) :: tail (MSHR.items l) |>) |> in
        Ok (Some pkt, s <| heap ::= <[id := m]> |>, u)
      else
        '(gone, s, u) ←
          (if bool_decide (Packet.cmd tgt_pkt = MemCmd.HardPFReq) && forwardSnoops (params s)
           then snoop_prefetch e id tgt_pkt blk s u else Ok (false, s, u));
        if gone : bool then Ok (None, s, u)
        else
          m ← pget (heap s) id;
          p ← getBusPacket (fresh e) tgt_pkt (InTags <$> blk) (MSHR.needsExclusive m) (cache s);
          let m := m <| MSHR.isForward := negb (bool_decide (is_Some p)) |> in
          let s := s <| heap ::= <[id := m]> |> in
          pkt ← match p with
                | Some pkt => Ok pkt
                | None =>
                    pkt ← Packet.Packet_copy (fresh e) tgt_pkt false true;
                    if Packet.isWrite pkt then
                      d ← Packet.getPtr tgt_pkt;
                      Packet.setData d 0 pkt
                    else Ok pkt
                end;
          Ok (Some (pkt <| Packet.senderState := [Packet.SSMshr id] |>), s, u)
  end.

Context {M : Type} `{TimingPort M}.

(** [CacheReqPacketQueue::sendDeferredPacket]: called by the send event of the
    request queue and by the peer's retry. The result includes the packet that
    was accepted below. *)
Definition sendDeferredPacket (e : Env) (s : Issue (G := G)) (u : U) (m : M)
  : outcome (option Packet.Packet * Issue (G := G) * U * M) :=
  _ ← ensure AssertFailed (negb (PacketQueue.waitingOnRetry (reqQueue s)));
  _ ← ensure AssertFailed (PacketQueue.deferredPacketReadyTime (reqQueue s) =? MaxTick);
  '(p, s, u) ← getTimingPacket e s u;
  let next s :=
    t ← nextMSHRReadyTime s;
    q ← PacketQueue.schedSendEvent (curTick e) t (reqQueue s);
    Ok (s <| reqQueue := q |>) in
  match p with
  | None => s ← next s; Ok (None, s, u, m)
  | Some pkt =>
      match Packet.senderState pkt with
      | Packet.SSMshr id :: _ =>
          x ← pget (heap s) id;
          _ ← MSHR.isForwardNoResponse x;
          a ← Packet.getAddr pkt;
          wait ← PacketQueue.hasAddr a (snoopRespQueue s);
          if wait : bool then
            q ← PacketQueue.schedSendEvent (curTick e)
                  (PacketQueue.deferredPacketReadyTime (snoopRespQueue s)) (reqQueue s);
            Ok (None, s <| reqQueue := q |>, u, m)
          else
            '(ok, pkt, h, m) ← sendTimingReq pkt (heap s) m;
            let s := s <| heap := h |>
                       <| reqQueue ::= (fun q => q <| PacketQueue.waitingOnRetry := negb ok |>) |> in
            if ok : bool then
              s ← markInService e id (negb (Packet.sharedAsserted pkt)
                                      && Packet.memInhibitAsserted pkt) s;
              s ← next s;
              Ok (Some pkt, s, u, m)
            else Ok (None, s, u, m)
      | _ => Fail Undefined
      end
  end.

End timing.
End CacheTiming.
