(* ===== verification/CacheConserve.v ===== *)
(** No request is lost: in timing mode every request a cache accepts and that
    needs a response is, at any later time, a target of exactly one MSHR, a
    response waiting in the CPU-side port, or a response already sent.

    Requests are told apart by their sender states, which the cache never
    touches. The accounting counts, for each sender state, the targets that still
    owe a response and the queued responses. *)

From S2P Require Import Prelude IntMath AddrRange Request MemCmd Packet Functional PacketQueue CachePort.
From S2P Require Import Blk CacheSet BaseSetAssoc LRU BasePrefetcher QueuedPrefetcher TaggedPrefetcher MSHR MSHRQueue.
From S2P Require Import AbstractMemory AtomicPort SimpleMemory Cache CacheIssue CacheAtomic CacheSnoop CacheTiming.
Local Open Scope Z_scope.

(** The objects above and below have no targets of their own in the MSHRs of this
    cache. *)
Class SnoopFrame (U : Type) `{SnoopPort U} := snoop_frame : forall pkt h u pkt' h' u',
  sendTimingSnoopReq pkt h u = Ok (pkt', h', u') -> MSHR.same_lists h h'.
Class TimingFrame (M : Type) `{TimingPort M} := timing_frame : forall pkt h m ok pkt' h' m',
  sendTimingReq pkt h m = Ok (ok, pkt', h', m') -> MSHR.same_lists h h'.

#[export] Instance no_snoopers_frame : SnoopFrame ().
Proof. intros pkt h u pkt' h' u' [= _ <- _]. apply MSHRQueue.same_lists_preorder. Qed.

Module CacheConserve.
Import Cache CacheIssue CacheAtomic CacheSnoop CacheTiming.

(** ** Counting targets *)

Section count.
(** What is counted depends on the source and the packet of a target; it is a
    packet that needs a response, no snoop, and not changed by the replacement of
    upgrades. *)
Context (P : MSHR.Source -> Packet.Packet -> bool).
Context (P_snoop : forall pkt, P MSHR.FromSnoop pkt = false).
Context (P_upgrade : forall src pkt, P src (MSHR.replaceUpgrade pkt) = P src pkt).
Context (P_response : forall src pkt, Packet.needsResponse pkt = false -> P src pkt = false).

Definition counted (t : MSHR.Target) : bool := P (MSHR.source t) (MSHR.t_pkt t).
Definition count_list (l : MSHR.TargetList) : Z := countb counted (MSHR.items l).
Definition count_mshr (m : MSHR.MSHR) : Z :=
  count_list (MSHR.targets m) + count_list (MSHR.deferredTargets m).
Fixpoint count_heap (h : list MSHR.MSHR) : Z :=
  match h with [] => 0 | m :: h => count_mshr m + count_heap h end.

Lemma count_insert h i m m' :
  h !! i = Some m -> count_heap (<[i := m']> h) = count_heap h - count_mshr m + count_mshr m'.
Proof.
  revert i. induction h as [|x h IH]; intros [|i] E; simpl in *; try done; [injection E as ->; lia|].
  rewrite (IH i) by done. lia.
Qed.

Lemma count_same h h' : MSHR.same_lists h h' -> count_heap h' = count_heap h.
Proof. induction 1 as [|m m' h h' (d & ->) _ IH]; simpl; [done|]. rewrite IH. done. Qed.

Lemma count_pupd f h id h' :
  pupd f h id = Ok h' -> (forall m, count_mshr (f m) = count_mshr m) -> count_heap h' = count_heap h.
Proof. intros (m & Em & ->)%pupd_ok Hf. rewrite (count_insert _ _ m) by done. rewrite Hf. lia. Qed.

Lemma count_replace l : count_list (MSHR.replaceUpgrades l) = count_list l.
Proof.
  unfold MSHR.replaceUpgrades. destruct (negb _); [done|]. unfold count_list. simpl.
  induction (MSHR.items l) as [|t ts IH]; [done|].
  rewrite fmap_cons. cbn [countb]. rewrite IH. unfold counted at 1. simpl. by rewrite P_upgrade.
Qed.

Lemma count_add ct self w pkt rd od src mp h h' :
  MSHR.add ct self w pkt rd od src mp h = Ok h' ->
  count_heap h' = count_heap h + b2z (P src pkt).
Proof.
  intros (m & Em & Hs)%MSHR.add_inv. rewrite (count_same _ _ Hs), (count_insert _ _ m) by done.
  assert (forall l, count_list (MSHR.push pkt (MSHR.MkTarget ct rd od pkt src mp) l) = count_list l + b2z (P src pkt)) as Hp.
  { intros l. unfold count_list, MSHR.push. simpl. rewrite MSHR.add_flags_items, countb_app. simpl.
    unfold counted at 2. simpl. destruct (P src pkt); simpl; lia. }
  destruct w; unfold count_mshr; simpl; rewrite Hp; lia.
Qed.

Lemma count_pop m m' t ts :
  MSHR.items (MSHR.targets m) = t :: ts -> MSHR.popTarget m = Ok m' ->
  count_mshr m' = count_mshr m - b2z (counted t).
Proof.
  unfold MSHR.popTarget. intros El. rewrite El. intros [= <-]. unfold count_mshr, count_list. simpl. rewrite El. simpl.
  destruct (counted t); simpl; lia.
Qed.

(** ** The operations of MSHRs *)

Lemma count_allocate ct self a n pkt w ord h h' :
  MSHR.allocate ct self a n pkt w ord h = Ok h' ->
  count_heap h' = count_heap h +
    b2z (P (if decide (Packet.cmd pkt = MemCmd.HardPFReq) then MSHR.FromPrefetcher else MSHR.FromCPU) pkt).
Proof.
  unfold MSHR.allocate. intros H. apply bind_ok in H as (sec & _ & H). apply bind_ok in H as (m & Em & H).
  apply pget_ok in Em. apply bind_ok in H as (? & _ & H). apply bind_ok in H as (h1 & Ha & H).
  apply bind_ok in H as (? & _ & H). apply bind_ok in H as (? & _ & [= <-]).
  rewrite (count_add _ _ _ _ _ _ _ _ _ _ Ha), (count_insert _ _ m) by done. unfold count_mshr. simpl. lia.
Qed.

Lemma count_allocateTarget ct self pkt w ord h h' :
  MSHR.allocateTarget ct self pkt w ord h = Ok h' ->
  count_heap h' = count_heap h + b2z (P MSHR.FromCPU pkt) /\ Packet.cmd pkt <> MemCmd.HardPFReq.
Proof.
  unfold MSHR.allocateTarget. intros H. apply bind_ok in H as (m & Em & H). apply bind_ok in H as (? & Hh & H).
  apply ensure_ok, negb_true_iff, bool_decide_eq_false in Hh. apply bind_ok in H as (? & _ & H). split; [|done].
  destruct (MSHR.must_defer pkt m); rewrite (count_add _ _ _ _ _ _ _ _ _ _ H); [|done].
  destruct (MSHR.postInvalidate m); [|done]. by rewrite P_upgrade.
Qed.

Lemma count_handleSnoop ct fresh self pkt ord h r pkt' h' :
  MSHR.handleSnoop ct fresh self pkt ord h = Ok (r, pkt', h') -> count_heap h' = count_heap h.
Proof.
  unfold MSHR.handleSnoop. intros H. apply bind_ok in H as (m & Em & H). apply pget_ok in Em.
  assert (forall x, count_mshr x = count_mshr m -> count_heap (<[self := x]> h) = count_heap h) as Hi.
  { intros x Hx. rewrite (count_insert _ _ m) by done. lia. }
  destruct (_ || _).
  { injection H as _ _ <-. apply Hi. destruct (Packet.needsExclusive pkt); [|done].
    unfold count_mshr. simpl. by rewrite !count_replace. }
  set (m1 := if Packet.needsExclusive pkt then _ else _) in H.
  assert (count_heap (<[self := m1]> h) = count_heap h) as E1.
  { apply Hi. unfold m1. destruct (Packet.needsExclusive pkt); [|done]. unfold count_mshr. simpl. by rewrite count_replace. }
  destruct (MSHR.postInvalidate m1); [by injection H as _ _ <-|].
  apply bind_ok in H as ([pkt1 h1] & E & H).
  assert (count_heap h1 = count_heap h) as E2.
  { destruct (MSHR.pendingDirty m1 || _); [|by injection E as _ <-].
    apply bind_ok in E as ([cp pkt2] & _ & E). apply bind_ok in E as (h2 & Ha & E). apply bind_ok in E as (h3 & Hu & [= _ <-]).
    apply count_add in Ha. rewrite P_snoop in Ha. simpl in Ha.
    destruct (Packet.needsExclusive pkt2); [apply count_pupd in Hu; [lia|done]|injection Hu as <-; lia]. }
  destruct (negb (Packet.needsExclusive pkt1) && _).
  - apply bind_ok in H as (h2 & Hu & [= _ _ <-]). apply count_pupd in Hu; [lia|done].
  - injection H as _ _ <-. done.
Qed.

Lemma count_handleFill self pkt h h' : MSHR.handleFill self pkt h = Ok h' -> count_heap h' = count_heap h.
Proof.
  unfold MSHR.handleFill. intros H. apply bind_ok in H as (m & Em & H). apply pget_ok in Em.
  destruct (Packet.sharedAsserted pkt); [by injection H as <-|]. apply bind_ok in H as (post & _ & H).
  destruct (negb post && _); [|by injection H as <-]. apply bind_ok in H as (? & _ & H). apply bind_ok in H as (? & _ & H).
  apply bind_ok in H as (h1 & Hc & H). apply MSHR.clear_list_same_lists, count_same in Hc.
  rewrite (count_insert _ _ m) in Hc by done.
  rewrite (count_pupd _ _ _ _ H); [|intros y; unfold count_mshr, count_list; simpl; rewrite countb_app; lia].
  unfold count_mshr in Hc. simpl in Hc. unfold count_list in *. simpl in Hc. lia.
Qed.

Lemma count_markInService id d h b h' : MSHR.markInService id d h = Ok (b, h') -> count_heap h' = count_heap h.
Proof.
  unfold MSHR.markInService. intros H. apply bind_ok in H as (m & Em & H). apply pget_ok in Em.
  apply bind_ok in H as (? & _ & H). apply bind_ok in H as (f & Hf & H). destruct f.
  - apply bind_ok in H as (? & _ & H). apply bind_ok in H as (m' & Hp & [= _ <-]).
    unfold MSHR.isForwardNoResponse in Hf. destruct (negb _); [done|].
    destruct (MSHR.items (MSHR.targets m)) as [|t ts] eqn:El; [done|]. injection Hf as Hf.
    apply andb_true_iff in Hf as [_ Hf]. apply negb_true_iff in Hf.
    rewrite (count_insert _ _ m), (count_pop _ _ _ _ El Hp) by done. unfold counted. rewrite P_response by done. simpl. lia.
  - apply bind_ok in H as (h1 & Hc & [= _ <-]). set (y := _ <| MSHR.postDowngrade := false |>) in Hc.
    assert (MSHR.same_lists (<[id := y]> h) h1) as Hs.
    { destruct (negb _) in Hc; [by eapply MSHR.clear_list_same_lists|]. injection Hc as <-. apply MSHRQueue.same_lists_preorder. }
    rewrite (count_same _ _ Hs), (count_insert _ _ m) by done. unfold count_mshr. simpl. lia.
Qed.

Lemma count_promote ct m b m' : MSHR.promoteDeferredTargets ct m = Ok (b, m') -> count_mshr m' = count_mshr m.
Proof.
  unfold MSHR.promoteDeferredTargets, MSHR.hasTargets. intros H. apply bind_ok in H as (? & Ht & H). apply ensure_ok in Ht.
  destruct (MSHR.items (MSHR.targets m)) eqn:El; [|done].
  destruct (MSHR.items (MSHR.deferredTargets m)) eqn:Ed; injection H as <- <-; [done|].
  unfold count_mshr, count_list. simpl. rewrite El. simpl. lia.
Qed.

End count.

(** ** The operations of MSHR queues *)

Section queues.
Context (P : MSHR.Source -> Packet.Packet -> bool).
Context (P_response : forall src pkt, Packet.needsResponse pkt = false -> P src pkt = false).
Abbreviation count := (count_heap P).

Lemma count_q_allocate ct a n pkt w ord q h id q' h' :
  MSHRQueue.allocate ct a n pkt w ord q h = Ok (id, q', h') ->
  count h' = count h +
    b2z (P (if decide (Packet.cmd pkt = MemCmd.HardPFReq) then MSHR.FromPrefetcher else MSHR.FromCPU) pkt).
Proof.
  unfold MSHRQueue.allocate. destruct (MSHRQueue.freeList q); [done|]. intros H.
  apply bind_ok in H as (m & _ & H). apply bind_ok in H as (? & _ & H). apply bind_ok in H as (h1 & Ha & H).
  apply bind_ok in H as (? & _ & [= _ _ <-]). by eapply count_allocate.
Qed.

Lemma count_deallocateOne id q h q' h' : MSHRQueue.deallocateOne id q h = Ok (q', h') -> count h' = count h.
Proof.
  intros (al & rl & m & m' & _ & Em & Hd & -> & _)%MSHRQueue.deallocateOne_inv.
  rewrite (count_insert _ _ _ m) by done. unfold MSHR.deallocate in Hd. apply bind_ok in Hd as (? & _ & Hd).
  apply bind_ok in Hd as (? & _ & [= <-]). unfold count_mshr, count_list. simpl. lia.
Qed.

Lemma count_q_markInService id d q h q' h' :
  MSHRQueue.markInService id d q h = Ok (q', h') -> count h' = count h.
Proof.
  unfold MSHRQueue.markInService, MSHRQueue.deallocate. intros H. apply bind_ok in H as ([b h1] & Hm & H).
  apply (count_markInService P P_response) in Hm. destruct b; [apply count_deallocateOne in H; lia|].
  by apply bind_ok in H as (? & _ & [= _ <-]).
Qed.

Lemma count_q_markPending id q h q' h' : MSHRQueue.markPending id q h = Ok (q', h') -> count h' = count h.
Proof.
  unfold MSHRQueue.markPending. intros H. apply bind_ok in H as (m & Em & H). apply pget_ok in Em.
  apply bind_ok in H as (? & _ & H). apply bind_ok in H as (? & _ & [= _ <-]).
  rewrite (count_insert _ _ _ m) by done. unfold count_mshr. simpl. lia.
Qed.

(** The target that is taken away is the first one. *)
Lemma count_forceDeallocate ct id q h r q' h' m t ts :
  MSHRQueue.forceDeallocateTarget ct id q h = Ok (r, q', h') -> h !! id = Some m ->
  MSHR.items (MSHR.targets m) = t :: ts -> count h' = count h - b2z (counted P t).
Proof.
  unfold MSHRQueue.forceDeallocateTarget. intros H Em El. apply bind_ok in H as (m0 & E0 & H). apply pget_ok in E0.
  rewrite Em in E0. injection E0 as <-. apply bind_ok in H as (? & _ & H). apply bind_ok in H as (m1 & Hp & H).
  apply (count_pop P _ _ t ts El) in Hp. apply bind_ok in H as ([q1 h1] & Hb & [= _ _ <-]).
  assert (forall y, count (<[id := y]> h) = count h - count_mshr P m + count_mshr P y) as Hi by (intros; by apply count_insert).
  destruct (MSHR.hasTargets m1); [injection Hb as _ <-; rewrite Hi; lia|].
  apply bind_ok in Hb as ([b m2] & Hpr & Hb). apply (count_promote P) in Hpr.
  destruct b; [injection Hb as _ <-; rewrite Hi; lia|]. apply count_deallocateOne in Hb. rewrite Hi in Hb. lia.
Qed.

End queues.

(** ** What the data path keeps *)

(** Take a successful computation apart along all its branches. *)
Ltac walk :=
  repeat match goal with
  | H : _ ≫= _ = Ok _ |- _ => let y := fresh "y" in let E := fresh "E" in apply bind_ok in H as (y & E & H)
  | H : Fail _ = Ok _ |- _ => discriminate H
  | H : ensure _ _ = Ok _ |- _ => apply ensure_ok in H
  | H : Ok _ = Ok _ |- _ => injection H; clear H; intros; subst
  | H : (if ?b then _ else _) = Ok _ |- _ => destruct b eqn:?
  | H : match ?y with _ => _ end = Ok _ |- _ => destruct y eqn:?
  end.

(** [top] is the level of the cache; no operation changes it. *)
Lemma put_blk_top r b c : isTopLevel (put_blk r b c) = isTopLevel c.
Proof. by destruct r. Qed.

Lemma drop_blk_top ct r c c' : drop_blk ct r c = Ok c' -> isTopLevel c' = isTopLevel c.
Proof. unfold drop_blk. intros H. walk; by rewrite put_blk_top. Qed.

Lemma cmpAndSwap_keeps r pkt c pkt' c' :
  cmpAndSwap r pkt c = Ok (pkt', c') ->
  isTopLevel c' = isTopLevel c /\ Packet.cmd pkt' = Packet.cmd pkt /\ Packet.senderState pkt' = Packet.senderState pkt.
Proof.
  unfold cmpAndSwap, Packet.setData. intros H. walk; rewrite ?put_blk_top; done.
Qed.

(** The packet is still for the same request. *)
Definition same_request (pkt pkt' : Packet.Packet) : Prop :=
  Packet.cmd pkt' = Packet.cmd pkt /\ Packet.senderState pkt' = Packet.senderState pkt.

Lemma setDataFromBlock_same d n pkt pkt' : Packet.setDataFromBlock d n pkt = Ok pkt' -> same_request pkt pkt'.
Proof. unfold Packet.setDataFromBlock, Packet.setData. intros H. walk. done. Qed.

Lemma assertMemInhibit_same pkt pkt' : Packet.assertMemInhibit pkt = Ok pkt' -> same_request pkt pkt'.
Proof. unfold Packet.assertMemInhibit. intros H. walk. done. Qed.

Lemma checkWrite_same pkt b ok pkt' b' : Blk.checkWrite pkt b = Ok (ok, pkt', b') -> same_request pkt pkt'.
Proof. unfold Blk.checkWrite. intros H. walk; done. Qed.

Lemma same_request_trans p1 p2 p3 : same_request p1 p2 -> same_request p2 p3 -> same_request p1 p3.
Proof. intros [? ?] [? ?]. split; congruence. Qed.

Lemma satisfy_keeps ct dr pd pkt r c pkt' c' :
  satisfyCpuSideRequest ct dr pd pkt r c = Ok (pkt', c') ->
  isTopLevel c' = isTopLevel c /\ same_request pkt pkt'.
Proof.
  unfold satisfyCpuSideRequest. intros H. walk; rewrite ?put_blk_top;
    repeat match goal with
    | H : cmpAndSwap _ _ _ = Ok _ |- _ => apply cmpAndSwap_keeps in H as (? & ?)
    | H : drop_blk _ _ _ = Ok _ |- _ => apply drop_blk_top in H; rewrite ?put_blk_top in H
    | H : Packet.setDataFromBlock _ _ _ = Ok _ |- _ => apply setDataFromBlock_same in H
    | H : Packet.assertMemInhibit _ = Ok _ |- _ => apply assertMemInhibit_same in H
    | H : Blk.checkWrite _ _ = Ok _ |- _ => apply checkWrite_same in H
    end; split; try done; eauto using same_request_trans.
Qed.

(** Writebacks. *)
Definition writebacks_ok (wbs : list Packet.Packet) : Prop :=
  Forall (fun p => Packet.cmd p = MemCmd.Writeback) wbs.

Lemma writebackBlk_keeps ct fr r c wb c' :
  writebackBlk ct fr r c = Ok (wb, c') -> isTopLevel c' = isTopLevel c /\ Packet.cmd wb = MemCmd.Writeback.
Proof.
  unfold writebackBlk, Packet.Packet_new, Packet.allocate. intros H. walk; rewrite put_blk_top; split; try done;
    simpl; destruct (Blk.isWritable _); done.
Qed.

Lemma allocateBlock_keeps ct fr h a sec wbs c p wbs' c' :
  allocateBlock ct fr h a sec wbs c = Ok (p, wbs', c') ->
  isTopLevel c' = isTopLevel c /\ (writebacks_ok wbs -> writebacks_ok wbs').
Proof.
  unfold allocateBlock. intros H. walk; try done. apply writebackBlk_keeps in E2 as [-> Hc]. split; [done|].
  intros Hw. apply Forall_app. split; [done|]. by repeat constructor.
Qed.

Lemma flush_keeps ct fr pkt wbs c wbs' c' :
  flush_uncacheable ct fr pkt wbs c = Ok (wbs', c') ->
  isTopLevel c' = isTopLevel c /\ (writebacks_ok wbs -> writebacks_ok wbs').
Proof.
  unfold flush_uncacheable. set (c0 := if Request.isClearLL (Packet.req pkt) then c <| tags ::= BaseSetAssoc.clearLocks |> else c).
  assert (isTopLevel c0 = isTopLevel c) as E0 by (unfold c0; by destruct (Request.isClearLL _)).
  intros H. walk; try done;
    repeat match goal with
    | H : drop_blk _ _ _ = Ok _ |- _ => apply drop_blk_top in H
    | H : writebackBlk _ _ _ _ = Ok _ |- _ => apply writebackBlk_keeps in H as [? ?]
    end; (split; [congruence|]); try done.
  intros Hw. apply Forall_app. split; [done|]. by repeat constructor.
Qed.

Lemma writeback_target_keeps ct fr h pkt blk wbs c p wbs' c' :
  writeback_target ct fr h pkt blk wbs c = Ok (p, wbs', c') ->
  isTopLevel c' = isTopLevel c /\ (writebacks_ok wbs -> writebacks_ok wbs').
Proof.
  unfold writeback_target. intros H. walk; rewrite ?put_blk_top; try done;
    by match goal with H : allocateBlock _ _ _ _ _ _ _ = Ok _ |- _ => apply allocateBlock_keeps in H as [? ?] end.
Qed.

Lemma incMissCount_keeps pkt c pkt' c' :
  incMissCount pkt c = Ok (pkt', c') -> isTopLevel c' = isTopLevel c /\ same_request pkt pkt'.
Proof.
  unfold incMissCount. intros H. walk. split; [|done]. simpl. destruct (missCount c =? 0); simpl; [done|].
  by destruct (Z.pred _ =? 0).
Qed.

Lemma incHitCount_keeps pkt c c' : incHitCount pkt c = Ok c' -> isTopLevel c' = isTopLevel c.
Proof. unfold incHitCount. intros H. by walk. Qed.

Lemma access_keeps ct cp fr h pkt wbs c a :
  access ct cp fr h pkt wbs c = Ok a ->
  isTopLevel (r_cache a) = isTopLevel c /\ same_request pkt (r_pkt a) /\
  (writebacks_ok wbs -> writebacks_ok (r_writebacks a)).
Proof.
  unfold access. intros H. walk; cbn [r_cache r_pkt r_writebacks];
    repeat match goal with
    | H : flush_uncacheable _ _ _ _ _ = Ok _ |- _ => apply flush_keeps in H as [? ?]
    | H : writeback_target _ _ _ _ _ _ _ = Ok _ |- _ => apply writeback_target_keeps in H as [? ?]
    | H : incMissCount _ _ = Ok _ |- _ => apply incMissCount_keeps in H as [? ?]
    | H : incHitCount _ _ = Ok _ |- _ => apply incHitCount_keeps in H; rewrite ?put_blk_top in H
    | H : satisfyCpuSideRequest _ _ _ _ _ _ = Ok _ |- _ => apply satisfy_keeps in H as [? ?]
    end; split_and!; try done; simpl in *; congruence.
Qed.

Lemma handleFill_keeps ct nw fr h pkt blk wbs c r wbs' c' :
  handleFill ct nw fr h pkt blk wbs c = Ok (r, wbs', c') ->
  isTopLevel c' = isTopLevel c /\ (writebacks_ok wbs -> writebacks_ok wbs').
Proof.
  unfold handleFill. intros H. walk; rewrite ?put_blk_top; try done;
    match goal with H : allocateBlock _ _ _ _ _ _ _ = Ok _ |- _ => apply allocateBlock_keeps in H as [? ?] end; done.
Qed.

(** ** Accounting *)

Section accounts.
Context {G : Type} {GN : Generator G}.
(** The level of the cache, and the sender state of the requests counted. *)
Context (top : bool) (x : list Packet.SenderState).

Implicit Types s : Issue (G := G).

(** A target that still owes a response; at the top level a software prefetch
    was answered when it came in. *)
Definition owes (src : MSHR.Source) (pkt : Packet.Packet) : bool :=
  bool_decide (src = MSHR.FromCPU) && Packet.needsResponse pkt
  && negb (MemCmd.isSWPrefetch (Packet.cmd pkt) && top) && bool_decide (Packet.senderState pkt = x).

(** What must not be: a hardware prefetch among the requests from above. *)
Definition odd (src : MSHR.Source) (pkt : Packet.Packet) : bool :=
  bool_decide (src = MSHR.FromCPU) && bool_decide (Packet.cmd pkt = MemCmd.HardPFReq).

Lemma replaceUpgrade_state pkt :
  Packet.senderState (MSHR.replaceUpgrade pkt) = Packet.senderState pkt /\
  Packet.needsResponse (MSHR.replaceUpgrade pkt) = Packet.needsResponse pkt /\
  MemCmd.isSWPrefetch (Packet.cmd (MSHR.replaceUpgrade pkt)) = MemCmd.isSWPrefetch (Packet.cmd pkt) /\
  (Packet.cmd (MSHR.replaceUpgrade pkt) = MemCmd.HardPFReq <-> Packet.cmd pkt = MemCmd.HardPFReq).
Proof. unfold MSHR.replaceUpgrade, Packet.needsResponse. destruct (Packet.cmd pkt) eqn:E; simpl; rewrite ?E; done. Qed.

Lemma owes_snoop pkt : owes MSHR.FromSnoop pkt = false.
Proof. done. Qed.
Lemma owes_upgrade src pkt : owes src (MSHR.replaceUpgrade pkt) = owes src pkt.
Proof. unfold owes. by destruct (replaceUpgrade_state pkt) as (-> & -> & -> & _). Qed.
Lemma owes_response src pkt : Packet.needsResponse pkt = false -> owes src pkt = false.
Proof. unfold owes. intros ->. by rewrite andb_false_r. Qed.
Lemma odd_snoop pkt : odd MSHR.FromSnoop pkt = false.
Proof. done. Qed.
Lemma odd_upgrade src pkt : odd src (MSHR.replaceUpgrade pkt) = odd src pkt.
Proof.
  unfold odd. destruct (replaceUpgrade_state pkt) as (_ & _ & _ & Hc). f_equal. by apply bool_decide_ext.
Qed.
Lemma odd_response src pkt : Packet.needsResponse pkt = false -> odd src pkt = false.
Proof.
  unfold odd, Packet.needsResponse. intros Hn. destruct (decide (Packet.cmd pkt = MemCmd.HardPFReq)) as [E|E].
  - by rewrite E in Hn.
  - by rewrite (bool_decide_eq_false_2 (Packet.cmd pkt = _)), andb_false_r.
Qed.

(** The responses to [x] in the CPU-side port. *)
Definition is_mine (d : Z * Packet.Packet) : bool := bool_decide (Packet.senderState d.2 = x).
Definition queued s : Z := countb is_mine (PacketQueue.transmitList (CachePort.queue (cpuSidePort s))).

Definition tally s : Z := count_heap owes (heap s) + queued s.

(** Every prefetch in the prefetcher's queue is a hardware prefetch. *)
Definition prefetches_ok s : Prop :=
  match prefetcher s with
  | Some pf => Forall (fun dp => Packet.cmd (QueuedPrefetcher.pkt dp) = MemCmd.HardPFReq) (QueuedPrefetcher.pfq pf)
  | None => True
  end.

(** From [s] to [s'] the requests of [x] increase by [n]. *)
Record moves (n : Z) s s' : Prop := {
  mv_tally : tally s' = tally s + n;
  mv_odd : count_heap odd (heap s') <= count_heap odd (heap s);
  mv_top : isTopLevel (cache s') = isTopLevel (cache s);
  mv_pf : prefetches_ok s -> prefetches_ok s';
}.

Lemma moves_refl s : moves 0 s s.
Proof. split; try done; lia. Qed.

Lemma moves_trans n m s1 s2 s3 : moves n s1 s2 -> moves m s2 s3 -> moves (n + m) s1 s3.
Proof. intros [? ? ? ?] [? ? ? ?]. split; [lia|lia|congruence|auto]. Qed.

Lemma moves_0_l m s1 s2 s3 : moves 0 s1 s2 -> moves m s2 s3 -> moves m s1 s3.
Proof. intros. rewrite <- (Z.add_0_l m). by eapply moves_trans. Qed.

Lemma moves_0_r m s1 s2 s3 : moves m s1 s2 -> moves 0 s2 s3 -> moves m s1 s3.
Proof. intros. rewrite <- (Z.add_0_r m). by eapply moves_trans. Qed.

(** Changes the accounts do not see. *)
Lemma moves_frame s s' :
  heap s' = heap s -> CachePort.queue (cpuSidePort s') = CachePort.queue (cpuSidePort s) ->
  isTopLevel (cache s') = isTopLevel (cache s) -> prefetcher s' = prefetcher s -> moves 0 s s'.
Proof.
  intros E1 E2 E3 E4. split; [|by rewrite E1|done|unfold prefetches_ok; by rewrite E4].
  unfold tally, queued. rewrite E1, E2. lia.
Qed.

(** Changes of the heap alone. *)
Lemma moves_heap n s s' :
  count_heap owes (heap s') = count_heap owes (heap s) + n ->
  count_heap odd (heap s') <= count_heap odd (heap s) ->
  CachePort.queue (cpuSidePort s') = CachePort.queue (cpuSidePort s) ->
  isTopLevel (cache s') = isTopLevel (cache s) -> prefetcher s' = prefetcher s -> moves n s s'.
Proof.
  intros E1 E2 E3 E4 E5. split; [|done|done|unfold prefetches_ok; by rewrite E5].
  unfold tally, queued. rewrite E1, E3. lia.
Qed.

Lemma set_queue_keeps w q s :
  heap (set_queue w q s) = heap s /\ cpuSidePort (set_queue w q s) = cpuSidePort s /\
  isTopLevel (cache (set_queue w q s)) = isTopLevel (cache s) /\ prefetcher (set_queue w q s) = prefetcher s.
Proof. by destruct w. Qed.

(** *** Buffers and ports *)

Lemma setBlocked_moves cause s s' : setBlocked cause s = Ok s' -> moves 0 s s'.
Proof.
  unfold setBlocked, CachePort.setBlocked. intros H. walk; apply moves_frame; try done; simpl;
    by destruct (CachePort.sendRetryEvent _).
Qed.

Lemma clearBlocked_moves ct cause s s' : clearBlocked ct cause s = Ok s' -> moves 0 s s'.
Proof. unfold clearBlocked, CachePort.clearBlocked. intros H. walk; by apply moves_frame. Qed.

Lemma requestMemSideBus_moves ct cause t s s' : requestMemSideBus ct cause t s = Ok s' -> moves 0 s s'.
Proof. unfold requestMemSideBus. intros H. walk. by apply moves_frame. Qed.

(** The source of a target that starts an MSHR. *)
Definition first_source (pkt : Packet.Packet) : MSHR.Source :=
  if decide (Packet.cmd pkt = MemCmd.HardPFReq) then MSHR.FromPrefetcher else MSHR.FromCPU.

Lemma odd_first pkt : odd (first_source pkt) pkt = false.
Proof. unfold odd, first_source. destruct (decide _) as [E|E]; [done|]. by rewrite (bool_decide_eq_false_2 (Packet.cmd pkt = _)), andb_false_r. Qed.

Lemma allocateBufferInternal_moves ct mq a n pkt t rb s id s' :
  allocateBufferInternal ct mq a n pkt t rb s = Ok (id, s') -> moves (b2z (owes (first_source pkt) pkt)) s s'.
Proof.
  unfold allocateBufferInternal. intros H. apply bind_ok in H as (? & _ & H). apply bind_ok in H as ([[i q] h] & Ha & H).
  pose proof (count_q_allocate owes _ _ _ _ _ _ _ _ _ _ _ Ha) as Ho.
  pose proof (count_q_allocate odd _ _ _ _ _ _ _ _ _ _ _ Ha) as Hd. fold (first_source pkt) in Ho, Hd.
  rewrite odd_first in Hd. set (s1 := (set_queue mq q s) <| heap := h |> <| order := u64 (order s + 1) |>) in H.
  destruct (set_queue_keeps mq q s) as (K1 & K2 & K3 & K4).
  apply bind_ok in H as (s2 & H2 & H). apply bind_ok in H as (s3 & H3 & [= <- <-]).
  apply (moves_0_r _ s s2); [apply (moves_0_r _ s s1)|].
  - apply moves_heap; simpl; rewrite ?K2, ?K3, ?K4; try done; simpl in Hd; lia.
  - destruct (MSHRQueue.isFull q); [by eapply setBlocked_moves|]. injection H2 as <-. apply moves_refl.
  - destruct rb; [by eapply requestMemSideBus_moves|]. injection H3 as <-. apply moves_refl.
Qed.

Lemma allocateMissBuffer_moves ct pkt t rb s id s' :
  allocateMissBuffer ct pkt t rb s = Ok (id, s') -> moves (b2z (owes (first_source pkt) pkt)) s s'.
Proof. unfold allocateMissBuffer. intros (a & _ & H)%bind_ok. by eapply allocateBufferInternal_moves. Qed.

Lemma allocateWriteBuffer_moves ct pkt t rb s id s' :
  allocateWriteBuffer ct pkt t rb s = Ok (id, s') -> moves (b2z (owes (first_source pkt) pkt)) s s'.
Proof.
  unfold allocateWriteBuffer. intros (? & _ & H)%bind_ok. apply bind_ok in H as (a & _ & H).
  by eapply allocateBufferInternal_moves.
Qed.

Lemma markInService_moves ct id d s s' : markInServiceInternal ct id d s = Ok s' -> moves 0 s s'.
Proof.
  unfold markInServiceInternal. intros ([q h] & Hm & H)%bind_ok. set (mq := queue_of id s) in *.
  pose proof (count_q_markInService owes owes_response _ _ _ _ _ _ Hm) as Ho.
  pose proof (count_q_markInService odd odd_response _ _ _ _ _ _ Hm) as Hd.
  destruct (set_queue_keeps mq q s) as (K1 & K2 & K3 & K4).
  apply (moves_0_l 0 s ((set_queue mq q s) <| heap := h |>)).
  - apply moves_heap; simpl; rewrite ?K2, ?K3, ?K4; try done; lia.
  - destruct (_ && _); [by eapply clearBlocked_moves|]. injection H as <-. apply moves_refl.
Qed.

Lemma buffer_writebacks_moves e t wbs : forall s s',
  writebacks_ok wbs -> buffer_writebacks e t wbs s = Ok s' -> moves 0 s s'.
Proof.
  induction wbs as [|wb wbs IH]; intros s s' Hw H; simpl in H; [injection H as <-; apply moves_refl|].
  apply bind_ok in H as ([id s1] & Ha & H). inversion Hw as [|? ? Hc Hw']; subst.
  apply (moves_0_l 0 s s1); [|by apply IH]. apply allocateWriteBuffer_moves in Ha.
  rewrite owes_response in Ha; [done|]. unfold Packet.needsResponse. by rewrite Hc.
Qed.

Lemma schedTimingResp_moves e pkt t s s' :
  schedTimingResp e pkt t s = Ok s' -> moves (b2z (bool_decide (Packet.senderState pkt = x))) s s'.
Proof.
  unfold schedTimingResp. intros (q & Hq & [= <-])%bind_ok. apply PacketQueue.schedSendTiming_perm in Hq as [w Hq].
  split; [|done|done|done]. unfold tally, queued. simpl.
  rewrite (countb_perm _ _ _ Hq). simpl. unfold is_mine at 1. simpl. destruct (bool_decide _); simpl; lia.
Qed.

(** *** The prefetcher *)

Definition hw (dp : QueuedPrefetcher.DeferredPacket) : Prop :=
  Packet.cmd (QueuedPrefetcher.pkt dp) = MemCmd.HardPFReq.

Lemma make_prefetch_hw ct fr (q : QueuedPrefetcher.Queued G) trig a sec p :
  QueuedPrefetcher.make_prefetch ct fr q trig a sec = Ok p -> Packet.cmd p = MemCmd.HardPFReq.
Proof.
  unfold QueuedPrefetcher.make_prefetch, Packet.Packet_new, Packet.allocate. intros H. walk; done.
Qed.

Lemma squash_hw a sec l l' : QueuedPrefetcher.squash a sec l = Ok l' -> Forall hw l -> Forall hw l'.
Proof.
  revert l'. induction l as [|dp l IH]; intros l' H Hl; simpl in H; [by injection H as <-|]. walk.
  apply Forall_cons in Hl as [? ?]. match goal with |- Forall _ (if ?b then _ else _) => destruct b end; auto.
Qed.

Lemma candidates_hw {C} `{CacheView C} ct cp fr (c : C) trig sec addrs : forall (q q' : QueuedPrefetcher.Queued G),
  QueuedPrefetcher.queue_candidates ct cp fr c trig sec addrs q = Ok q' ->
  Forall hw (QueuedPrefetcher.pfq q) -> Forall hw (QueuedPrefetcher.pfq q').
Proof.
  induction addrs as [|a addrs IH]; intros q q' Hc Hq; simpl in Hc; [by injection Hc as <-|].
  apply bind_ok in Hc as (q1 & H1 & Hc). apply (IH _ _ Hc). clear Hc.
  unfold QueuedPrefetcher.queue_candidate, QueuedPrefetcher.enqueue in H1. walk; simpl in *; try done;
    match goal with H : QueuedPrefetcher.make_prefetch _ _ _ _ _ _ = Ok _ |- _ => apply make_prefetch_hw in H end;
    apply Forall_app; (split; [|by repeat constructor]); try done.
  all: match goal with
  | E : QueuedPrefetcher.pfq ?q1 = _ :: _, Hq : Forall hw (QueuedPrefetcher.pfq ?q1) |- _ =>
      rewrite E in Hq; by apply Forall_cons in Hq as [_ ?]
  end.
Qed.

Lemma notify_moves e pkt s t s' : notify e pkt s = Ok (t, s') -> moves 0 s s'.
Proof.
  unfold notify. destruct (prefetcher s) as [pf|] eqn:Epf; [|intros [= _ <-]; apply moves_refl].
  destruct (negb _); [|intros [= _ <-]; apply moves_refl]. intros ([t1 pf'] & Hn & [= _ <-])%bind_ok.
  split; [unfold tally, queued; simpl; lia|done|done|]. unfold prefetches_ok. rewrite Epf. simpl. fold hw. intros Hq.
  unfold QueuedPrefetcher.notify in Hn. walk; try done.
  - eapply candidates_hw; [eassumption|]. simpl. by eapply squash_hw.
  - by eapply candidates_hw.
Qed.

Lemma try_prefetch_moves ct s r s' : prefetches_ok s -> try_prefetch ct s = Ok (r, s') -> moves 0 s s'.
Proof.
  unfold try_prefetch, prefetches_ok. destruct (prefetcher s) as [pf|] eqn:Epf; [|intros _ [= _ <-]; apply moves_refl].
  destruct (MSHRQueue.canPrefetch _); [|intros _ [= _ <-]; apply moves_refl]. intros Hq.
  unfold QueuedPrefetcher.getPacket. destruct (QueuedPrefetcher.pfq pf) as [|dp rest] eqn:El.
  { intros [= _ <-]. split; [unfold tally, queued; simpl; lia|done|done|]. unfold prefetches_ok. simpl. by rewrite El. }
  apply Forall_cons in Hq as [Hdp Hrest]. set (pf' := pf <| QueuedPrefetcher.pfq := rest |> <| _ ::= _ |>).
  set (s1 := s <| prefetcher := Some pf' |>). intros H.
  assert (moves 0 s s1) as M1 by (split; [unfold tally, queued; simpl; lia|done|done|done]).
  apply (moves_0_l 0 s s1 s' M1). walk; try apply moves_refl.
  match goal with H : allocateMissBuffer _ _ _ _ _ = Ok _ |- _ => apply allocateMissBuffer_moves in H; rename H into Ha end.
  unfold first_source in Ha. rewrite decide_True in Ha by done. simpl in Ha.
  eapply moves_0_l; [|exact Ha]. by apply moves_frame.
Qed.

Lemma getNextMSHR_moves ct s r s' : prefetches_ok s -> getNextMSHR ct s = Ok (r, s') -> moves 0 s s'.
Proof.
  unfold getNextMSHR. intros Hp H. walk; try apply moves_refl; by eapply try_prefetch_moves.
Qed.

(** *** Requests *)

(** What a request adds to the accounts. *)
Definition asks (pkt : Packet.Packet) : Z :=
  b2z (Packet.needsResponse pkt && bool_decide (Packet.senderState pkt = x)).

Lemma asks_same pkt pkt' : same_request pkt pkt' -> asks pkt' = asks pkt.
Proof. intros [E1 E2]. unfold asks, Packet.needsResponse. by rewrite E1, E2. Qed.

Lemma makeResponse_same pkt pkt' :
  Packet.makeResponse pkt = Ok pkt' ->
  Packet.senderState pkt' = Packet.senderState pkt /\ Packet.needsResponse pkt = true.
Proof. unfold Packet.makeResponse. intros H. walk. done. Qed.

Lemma timing_hit_moves e pkt blk rt s t s' : timing_hit e pkt blk rt s = Ok (t, s') -> moves (asks pkt) s s'.
Proof.
  unfold timing_hit. intros H. apply bind_ok in H as (? & _ & H). apply bind_ok in H as (b & _ & H).
  apply bind_ok in H as ([t1 s1] & H1 & H). apply bind_ok in H as (s2 & H2 & [= _ <-]).
  assert (moves 0 s s1) as M1.
  { match type of H1 with (if ?c then _ else _) = _ => destruct c end; [|injection H1 as _ <-; apply moves_refl].
    eapply moves_0_l; [|by eapply notify_moves]. destruct b as [[r b]|]; [|apply moves_refl].
    apply moves_frame; try done. simpl. apply put_blk_top. }
  apply (moves_0_l _ _ _ _ M1). unfold asks. destruct (Packet.needsResponse pkt).
  - apply bind_ok in H2 as (pkt' & Hp & H2). apply makeResponse_same in Hp as [Hp _].
    apply schedTimingResp_moves in H2. simpl in H2. rewrite Hp in H2. done.
  - injection H2 as <-. by apply moves_frame.
Qed.

Lemma ack_prefetch_moves e pkt mshr rt s p s' :
  ack_prefetch e pkt mshr rt s = Ok (p, s') ->
  moves (asks pkt) s s' /\ (forall q, p = Some q -> Packet.cmd q = Packet.cmd pkt).
Proof.
  unfold ack_prefetch. intros H. apply bind_ok in H as (? & _ & H). apply bind_ok in H as (? & _ & H).
  apply bind_ok in H as (? & _ & H). apply bind_ok in H as (pf & Hpf & H). apply bind_ok in H as (pkt1 & H1 & H).
  apply bind_ok in H as (n & _ & H). apply bind_ok in H as (pkt2 & H2 & H). apply bind_ok in H as (s1 & Hs & [= <- <-]).
  apply makeResponse_same in H1 as [E1 Hn]. apply schedTimingResp_moves in Hs.
  assert (Packet.senderState pkt2 = Packet.senderState pkt1) as E2 by (unfold Packet.setData in H2; by walk).
  rewrite E2, E1 in Hs. split; [unfold asks; by rewrite Hn|]. intros q ->.
  destruct mshr; [done|]. unfold Packet.Packet_new, Packet.allocate in Hpf. walk; done.
Qed.

Lemma coalesce_moves e id pkt ft s t s' :
  coalesce e id pkt ft s = Ok (t, s') -> moves (b2z (owes MSHR.FromCPU pkt)) s s' /\ Packet.cmd pkt <> MemCmd.HardPFReq.
Proof.
  unfold coalesce. intros H. apply bind_ok in H as (? & _ & H). apply bind_ok in H as (m & Em & H).
  apply pget_ok in Em. apply bind_ok in H as (h & Ha & H). apply bind_ok in H as (m2 & _ & H).
  apply bind_ok in H as (s2 & H2 & H). simpl in Em, Ha.
  set (m1 := if negb (MSHR.threadNum m =? 0) then _ else _) in Ha.
  assert (forall P, count_heap P (<[id := m1]> (heap s)) = count_heap P (heap s)) as Hi.
  { intros P. rewrite (count_insert _ _ _ m) by done. unfold m1. destruct (negb _); unfold count_mshr; simpl; lia. }
  pose proof (count_allocateTarget owes owes_upgrade _ _ _ _ _ _ _ Ha) as [Ho Hh].
  pose proof (count_allocateTarget odd odd_upgrade _ _ _ _ _ _ _ Ha) as [Hd _]. rewrite Hi in Ho, Hd.
  assert (odd MSHR.FromCPU pkt = false) as E by (unfold odd; by rewrite (bool_decide_eq_false_2 (Packet.cmd pkt = _))).
  rewrite E in Hd. simpl in Hd. split; [|done]. apply notify_moves in H. eapply moves_0_r; [|exact H]. clear H.
  match type of H2 with (if ?c then setBlocked _ ?s3 else Ok ?s4) = _ =>
    assert (moves (b2z (owes MSHR.FromCPU pkt)) s s4) as M by (apply moves_heap; simpl; try done; lia);
    assert (moves (b2z (owes MSHR.FromCPU pkt)) s s3) as M' by (apply moves_heap; simpl; try done; lia);
    destruct c
  end.
  - eapply moves_0_r; [exact M'|]. by eapply setBlocked_moves.
  - by injection H2 as <-.
Qed.

Lemma new_miss_moves e pkt blk ft s t s' :
  new_miss e pkt blk ft s = Ok (t, s') -> moves (b2z (owes (first_source pkt) pkt)) s s'.
Proof.
  unfold new_miss. intros H. apply bind_ok in H as (? & _ & H). apply bind_ok in H as (s2 & H2 & H).
  apply notify_moves in H. eapply moves_0_r; [|exact H]. clear H.
  set (s1 := s <| stats ::= _ |>) in H2. assert (moves 0 s s1) as M1 by by apply moves_frame.
  apply (moves_0_l _ _ _ _ M1). destruct (_ || _).
  - apply bind_ok in H2 as ([id s3] & Ha & [= <-]). by eapply allocateWriteBuffer_moves.
  - apply bind_ok in H2 as (s3 & H3 & H2). apply bind_ok in H2 as ([id s4] & Ha & [= <-]).
    apply allocateMissBuffer_moves in Ha. eapply moves_0_l; [|exact Ha].
    walk; try apply moves_refl. apply moves_frame; try done. simpl. apply put_blk_top.
Qed.

Lemma owes_first pkt :
  Packet.cmd pkt <> MemCmd.HardPFReq ->
  b2z (owes (first_source pkt) pkt) = if MemCmd.isSWPrefetch (Packet.cmd pkt) && top then 0 else asks pkt.
Proof.
  intros Hh. unfold first_source. rewrite decide_False by done. unfold owes, asks. simpl.
  destruct (Packet.needsResponse pkt), (MemCmd.isSWPrefetch _ && top); done.
Qed.

Lemma timing_miss_moves e pkt blk rt ft s t s' :
  isTopLevel (cache s) = top -> Packet.cmd pkt <> MemCmd.HardPFReq ->
  timing_miss e pkt blk rt ft s = Ok (t, s') -> moves (asks pkt) s s'.
Proof.
  unfold timing_miss. intros Ht Hh H. apply bind_ok in H as (a & _ & H). apply bind_ok in H as (mshr & _ & H).
  apply bind_ok in H as ([p s1] & H1 & H). rewrite Ht in H1. pose proof (owes_first pkt Hh) as Ho.
  assert (moves (if MemCmd.isSWPrefetch (Packet.cmd pkt) && top then asks pkt else 0) s s1 /\
    forall q, p = Some q -> Packet.cmd q = Packet.cmd pkt /\
      b2z (owes (first_source q) q) = if MemCmd.isSWPrefetch (Packet.cmd pkt) && top then 0 else asks pkt) as [M1 Hp].
  { destruct (_ && _) eqn:E.
    - apply ack_prefetch_moves in H1 as [M1 Hp]. split; [done|]. intros q Hq. specialize (Hp q Hq). split; [done|].
      rewrite owes_first by congruence. by rewrite Hp, E.
    - injection H1 as <- <-. split; [apply moves_refl|]. by intros q [= <-]. }
  assert (forall m, moves m s1 s' -> m = (if MemCmd.isSWPrefetch (Packet.cmd pkt) && top then 0 else asks pkt) ->
    moves (asks pkt) s s') as Hfin.
  { intros m M2 ->. pose proof (moves_trans _ _ _ _ _ M1 M2) as M. destruct (_ && _); [by rewrite Z.add_0_r in M|done]. }
  destruct mshr as [id|], p as [q|]; try done.
  - destruct (Hp q eq_refl) as [Hc Hq]. apply coalesce_moves in H as [M2 Hh2]. apply (Hfin _ M2).
    unfold first_source in Hq. by rewrite decide_False in Hq by done.
  - destruct (_ && _) eqn:E; [|by injection H1]. injection H as _ <-. apply (Hfin 0); [apply moves_refl|done].
  - destruct (Hp q eq_refl) as [Hc Hq]. apply new_miss_moves in H. by apply (Hfin _ H).
Qed.

Lemma promote_same fw pkt c pkt' :
  promoteWholeLineWrites fw pkt c = Ok pkt' ->
  asks pkt' = asks pkt /\ (Packet.cmd pkt <> MemCmd.HardPFReq -> Packet.cmd pkt' <> MemCmd.HardPFReq) /\
  Packet.memInhibitAsserted pkt' = Packet.memInhibitAsserted pkt.
Proof.
  unfold promoteWholeLineWrites. intros H. walk; try done. split_and!; try done.
  unfold asks, Packet.needsResponse. simpl. apply andb_true_iff in Heqb as [_ Heqb]. apply bool_decide_eq_true in Heqb.
  by rewrite Heqb.
Qed.

(** A request that is answered here adds itself to the accounts. *)
Lemma recvTimingReq_moves e acc pkt s s' :
  isTopLevel (cache s) = top -> Packet.cmd pkt <> MemCmd.HardPFReq ->
  recvTimingReq e acc pkt s = Ok s' ->
  moves (if bypassCaches e || Packet.memInhibitAsserted pkt then 0 else asks pkt) s s'.
Proof.
  unfold recvTimingReq. intros Ht Hh H. set (s0 := s <| pendingDelete := [] |>) in H.
  apply (moves_0_l _ s s0); [by apply moves_frame|]. apply bind_ok in H as (? & _ & H).
  destruct (bypassCaches e); [apply bind_ok in H as (? & _ & [= <-]); by apply moves_frame|].
  apply bind_ok in H as (pkt1 & Hp & H). apply promote_same in Hp as (Ea & Hh1 & Ei). rewrite Ei in H. simpl.
  destruct (Packet.memInhibitAsserted pkt).
  { unfold timing_inhibited in H. walk; by apply moves_frame. }
  apply bind_ok in H as (a & Hacc & H). apply bind_ok in H as (s1 & Hw & H). apply bind_ok in H as ([t s2] & Hs & H).
  apply access_keeps in Hacc as (K1 & K2 & K3). simpl in K1. specialize (Hh1 Hh).
  set (s3 := s0 <| cache := r_cache a |>) in Hw.
  assert (moves 0 s0 s1) as M1.
  { apply (moves_0_l 0 _ s3); [by apply moves_frame|]. eapply buffer_writebacks_moves; [|exact Hw]. by apply K3, Forall_nil. }
  assert (isTopLevel (cache s1) = top) as Ht1 by (rewrite (mv_top _ _ _ M1); done).
  set (pkt2 := no_delay (r_pkt a)) in Hs.
  assert (asks pkt2 = asks pkt) as Ea2 by (rewrite <- Ea; by apply asks_same).
  assert (Packet.cmd pkt2 <> MemCmd.HardPFReq) as Hh2 by (unfold pkt2; simpl; by rewrite (proj1 K2)).
  assert (moves (asks pkt) s1 s2) as M2.
  { rewrite <- Ea2. destruct (r_hit a); [by eapply timing_hit_moves|by eapply timing_miss_moves]. }
  apply (moves_0_l _ _ _ _ M1). eapply moves_0_r; [exact M2|].
  destruct (negb _); [by eapply requestMemSideBus_moves|]. injection H as <-. apply moves_refl.
Qed.

(** *** Snoops *)

Lemma same_lists_moves h s : MSHR.same_lists (heap s) h -> moves 0 s (s <| heap := h |>).
Proof.
  intros Hs. apply moves_heap; simpl; try done; [rewrite (count_same _ _ _ Hs); lia|by rewrite (count_same _ _ _ Hs)].
Qed.

Lemma supply_moves e pkt d ac pi s s' : doTimingSupplyResponse e pkt d ac pi s = Ok s' -> moves 0 s s'.
Proof.
  unfold doTimingSupplyResponse. intros H. do 6 apply bind_ok in H as (? & _ & H). cbv zeta in H.
  apply bind_ok in H as (? & _ & [= <-]). by apply moves_frame.
Qed.

Lemma snoop_block_moves e it de pi iv ne pkt r s pkt' s' :
  snoop_block e it de pi iv ne pkt r s = Ok (pkt', s') -> moves 0 s s'.
Proof.
  unfold snoop_block. intros H. apply bind_ok in H as (b & _ & H).
  destruct (decide _); [injection H as _ <-; apply moves_refl|].
  apply bind_ok in H as ([pkt1 s1] & H1 & H). apply bind_ok in H as ([pkt2 s2] & H2 & H). apply bind_ok in H as (? & _ & H).
  assert (moves 0 s s1) as M1.
  { destruct (_ && _); [apply bind_ok in H1 as (? & _ & [= _ <-])|injection H1 as _ <-; apply moves_refl].
    apply moves_frame; try done. simpl. apply put_blk_top. }
  assert (moves 0 s1 s2) as M2.
  { destruct (Blk.isDirty b && _ && _); [|injection H2 as _ <-; apply moves_refl].
    apply bind_ok in H2 as (pkt3 & _ & H2). cbv zeta in H2. destruct it.
    - apply bind_ok in H2 as (s3 & H3 & [= _ <-]). by eapply supply_moves.
    - apply bind_ok in H2 as (? & _ & H2). apply bind_ok in H2 as (? & _ & [= _ <-]). apply moves_refl. }
  apply (moves_0_l 0 _ _ _ M1), (moves_0_l 0 _ _ _ M2). destruct iv.
  - apply bind_ok in H as (c & Hd & [= _ <-]). apply drop_blk_top in Hd. by apply moves_frame.
  - injection H as _ <-. apply moves_refl.
Qed.

Lemma snoop_block_heap e it de pi iv ne pkt r s pkt' s' :
  snoop_block e it de pi iv ne pkt r s = Ok (pkt', s') -> heap s' = heap s.
Proof. unfold snoop_block, doTimingSupplyResponse. intros H. walk; done. Qed.

Context {U : Type} {UP : SnoopPort U} {UF : SnoopFrame U}.

(** The heap changes in the flags of the caches above only. *)
Lemma handleSnoop_moves e pkt blk it de pi s (u : U) pkt' s' u' :
  handleSnoop e pkt blk it de pi s u = Ok (pkt', s', u') -> moves 0 s s' /\ MSHR.same_lists (heap s) (heap s').
Proof.
  unfold handleSnoop. intros H. do 3 apply bind_ok in H as (? & _ & H). apply bind_ok in H as ([[pkt1 s1] u1] & H1 & H).
  assert (moves 0 s s1 /\ MSHR.same_lists (heap s) (heap s1)) as [M1 S1].
  { destruct (forwardSnoops _); [|injection H1 as _ <- _; split; [apply moves_refl|apply MSHRQueue.same_lists_preorder]].
    unfold forward_snoop in H1. destruct it.
    - apply bind_ok in H1 as (p2 & _ & H1). cbv zeta in H1. apply bind_ok in H1 as ([[p3 h3] u3] & Hs & H1).
      apply bind_ok in H1 as (? & _ & [= _ <- _]). apply UF in Hs. split; [by apply same_lists_moves|done].
    - apply bind_ok in H1 as ([[? ?] ?] & _ & H1). apply bind_ok in H1 as (? & _ & [= _ <- _]).
      split; [apply moves_refl|apply MSHRQueue.same_lists_preorder]. }
  destruct blk as [r|]; [|by injection H as _ <- _]. apply bind_ok in H as (b & _ & H).
  destruct (negb _); [by injection H as _ <- _|]. apply bind_ok in H as ([pkt2 s2] & H2 & [= _ <- _]).
  pose proof (snoop_block_moves _ _ _ _ _ _ _ _ _ _ _ H2) as M2. split; [by eapply moves_0_l|].
  rewrite (snoop_block_heap _ _ _ _ _ _ _ _ _ _ _ H2). done.
Qed.

(** Another packet for the first target, which needs no response before or
    after. *)
Lemma retarget_moves s id m t ts pkt :
  heap s !! id = Some m -> MSHR.items (MSHR.targets m) = t :: ts ->
  Packet.needsResponse (MSHR.t_pkt t) = false -> Packet.needsResponse pkt = false ->
  moves 0 s (s <| heap ::= <[id := m <| MSHR.targets ::= (fun l =>
    l <| MSHR.items := (t <| MSHR.t_pkt := pkt |>) :: tail (MSHR.items l) |>) |>]> |>).
Proof.
  intros Em El Hn Hn'. assert (forall P, (forall src p, Packet.needsResponse p = false -> P src p = false) ->
    count_heap P (<[id := m <| MSHR.targets ::= (fun l =>
      l <| MSHR.items := (t <| MSHR.t_pkt := pkt |>) :: tail (MSHR.items l) |>) |>]> (heap s)) = count_heap P (heap s)) as Hc.
  { intros P HP. rewrite (count_insert _ _ _ m) by done. unfold count_mshr, count_list. simpl. rewrite El. cbn [countb tail].
    assert (counted P t = false /\ counted P (t <| MSHR.t_pkt := pkt |>) = false) as [E1 E2] by (split; by apply HP).
    simpl in E2. rewrite E1, E2. simpl. lia. }
  pose proof (Hc owes owes_response) as Ho. pose proof (Hc odd odd_response) as Hd. clear Hc.
  set (m' := m <| MSHR.targets ::= _ |>) in *. apply moves_heap; simpl; try done; lia.
Qed.

Lemma snoop_writeback_moves e id pkt s pkt' s' : snoop_writeback e id pkt s = Ok (pkt', s') -> moves 0 s s'.
Proof.
  unfold snoop_writeback. intros H. apply bind_ok in H as (m & Em & H). apply pget_ok in Em.
  do 2 apply bind_ok in H as (? & _ & H). apply bind_ok in H as (t & Ht & H). apply bind_ok in H as (? & Hw & H).
  apply ensure_ok, bool_decide_eq_true in Hw. apply bind_ok in H as (? & _ & H). apply bind_ok in H as (pkt1 & _ & H).
  apply bind_ok in H as ([pkt2 wb] & Hwb & H). apply bind_ok in H as (d & _ & H). apply bind_ok in H as (s2 & H2 & H).
  apply bind_ok in H as (s3 & H3 & [= _ <-]).
  unfold MSHR.getTarget in Ht. destruct (MSHR.items (MSHR.targets m)) as [|t' ts] eqn:El; [done|]. injection Ht as ->.
  assert (Packet.cmd wb = MemCmd.Writeback) as Hc.
  { destruct (negb _) in Hwb; [by injection Hwb as _ <-|]. by apply bind_ok in Hwb as (? & _ & [= _ <-]). }
  eapply moves_0_l; [apply (retarget_moves s id m t ts wb Em El); unfold Packet.needsResponse; by rewrite ?Hw, ?Hc|].
  eapply moves_0_l; [by eapply supply_moves|]. destruct (Packet.isInvalidate pkt2); [|injection H3 as <-; apply moves_refl].
  by eapply markInService_moves.
Qed.

Lemma recvTimingSnoopReq_moves e pkt s (u : U) pkt' s' u' :
  recvTimingSnoopReq e pkt s u = Ok (pkt', s', u') -> moves 0 s s'.
Proof.
  unfold recvTimingSnoopReq. intros H. apply bind_ok in H as (? & _ & H).
  destruct (decide _); [injection H as _ <- _; apply moves_refl|]. apply bind_ok in H as (a & _ & H).
  destruct (negb _); [injection H as _ <- _; apply moves_refl|]. do 3 apply bind_ok in H as (? & _ & H).
  destruct (_ && _); [injection H as _ <- _; apply moves_refl|]. apply bind_ok in H as ([[d pkt1] s1] & H1 & H).
  assert (moves 0 s s1) as M1.
  { match type of H1 with match ?o with _ => _ end = _ => destruct o as [id|] end; [|injection H1 as _ _ <-; apply moves_refl].
    apply bind_ok in H1 as ([[r p] h] & Hh & [= _ _ <-]).
    pose proof (count_handleSnoop owes owes_snoop owes_upgrade _ _ _ _ _ _ _ _ _ Hh) as E1.
    pose proof (count_handleSnoop odd odd_snoop odd_upgrade _ _ _ _ _ _ _ _ _ Hh) as E2.
    apply moves_heap; simpl; try done; lia. }
  apply (moves_0_l 0 _ _ _ M1). destruct d; [injection H as _ <- _; apply moves_refl|].
  apply bind_ok in H as ([f wbs] & _ & H). apply bind_ok in H as ([pkt2 s2] & H2 & H).
  apply handleSnoop_moves in H as [M3 _]. eapply moves_0_l; [|exact M3].
  destruct f; [|injection H2 as _ <-; apply moves_refl]. destruct wbs as [|id [|]]; try done.
  by eapply snoop_writeback_moves.
Qed.

(** *** Responses *)

(** The target [t] is the first one of the MSHR [id]. *)
Definition first (id : nat) (t : MSHR.Target) (n : Z) (h : list MSHR.MSHR) : Prop :=
  exists m ts, h !! id = Some m /\ MSHR.items (MSHR.targets m) = t :: ts /\ MSHR.getNumTargets m = n.

Lemma first_same id t n h h' : MSHR.same_lists h h' -> first id t n h -> first id t n h'.
Proof.
  intros Hs (m & ts & Em & El & Hn). destruct (MSHR.same_lists_lookup _ _ _ _ Hs Em) as (d & Ed). by exists (m <| MSHR.downstreamPending := d |>), ts.
Qed.

Lemma first_fill id t n pkt h h' : MSHR.handleFill id pkt h = Ok h' -> first id t n h -> first id t n h'.
Proof.
  unfold MSHR.handleFill. intros H (m & ts & Em & El & Hn). apply bind_ok in H as (m0 & E0 & H). apply pget_ok in E0.
  rewrite Em in E0. injection E0 as <-. destruct (Packet.sharedAsserted pkt); [injection H as <-; by exists m, ts|].
  apply bind_ok in H as (post & _ & H). destruct (negb post && _); [|injection H as <-; by exists m, ts].
  do 2 apply bind_ok in H as (? & _ & H). apply bind_ok in H as (h1 & Hc & H). apply MSHR.clear_list_same_lists in Hc.
  apply pupd_ok in H as (m1 & E1 & ->).
  destruct (MSHR.same_lists_insert_lookup _ _ _ _ _ Em Hc) as (d & Ed). rewrite Ed in E1. injection E1 as <-.
  eexists _, (ts ++ _). rewrite list_lookup_insert_eq by by eapply lookup_lt_Some. unfold MSHR.getNumTargets in *.
  split_and!; [done|simpl; by rewrite El|]. rewrite El in Hn. simpl in *. rewrite El, !length_app. simpl. lia.
Qed.

Lemma fill_moves e id pkt f s f' s' :
  fill e id pkt f s = Ok (f', s') ->
  moves 0 s s' /\ (writebacks_ok (f_writebacks f) -> writebacks_ok (f_writebacks f')) /\
  (forall t n, first id t n (heap s) -> first id t n (heap s')).
Proof.
  unfold fill. intros H. apply bind_ok in H as (h & Hh & H). apply bind_ok in H as ([[r wbs] c] & Hf & [= <- <-]).
  pose proof (count_handleFill owes _ _ _ _ Hh) as E1. pose proof (count_handleFill odd _ _ _ _ Hh) as E2.
  apply handleFill_keeps in Hf as [K1 K2]. split_and!; [|done|].
  - apply moves_heap; simpl; try done; lia.
  - intros t n. by apply (first_fill id t n pkt).
Qed.

Lemma complete_target_moves e id pkt tp rt io f s tp' ct s' :
  complete_target e id pkt tp rt io f s = Ok (tp', ct, s') ->
  moves 0 s s' /\ same_request tp tp' /\ heap s' = heap s.
Proof.
  unfold complete_target. intros H. apply bind_ok in H as (m & _ & H). destruct (f_is_fill f).
  - apply bind_ok in H as (pd & _ & H). destruct (f_blk f) as [r|]; [|done].
    apply bind_ok in H as ([tp1 c] & Hs & H). apply bind_ok in H as (o & _ & H). do 2 apply bind_ok in H as (? & _ & H).
    injection H as <- <- <-. apply satisfy_keeps in Hs as [K1 K2]. split_and!; [by apply moves_frame|done|done].
  - destruct (decide _); [apply bind_ok in H as (? & _ & [= <- <- <-]); split_and!; [apply moves_refl|done|done]|].
    apply bind_ok in H as (tp1 & H1 & [= <- <- <-]). split_and!; [apply moves_refl| |done].
    unfold Packet.setData in H1. destruct (_ && _); walk; done.
Qed.

Lemma serve_cpu_moves e id pkt t n io f s f' s' :
  isTopLevel (cache s) = top -> MSHR.source t = MSHR.FromCPU -> first id t n (heap s) ->
  serve_cpu e id pkt t io f s = Ok (f', s') ->
  moves (b2z (counted owes t)) s s' /\ (writebacks_ok (f_writebacks f) -> writebacks_ok (f_writebacks f')) /\
  first id t n (heap s').
Proof.
  unfold serve_cpu. intros Ht Hsrc Hfirst H. rewrite Ht in H. unfold counted, owes. rewrite Hsrc.
  destruct (MemCmd.isSWPrefetch (Packet.cmd (MSHR.t_pkt t)) && top) eqn:Esw.
  { injection H as <- <-. rewrite andb_false_r. split_and!; [apply moves_refl|done|done]. }
  apply bind_ok in H as ([f1 s1] & H1 & H). apply bind_ok in H as ([[tp ct] s2] & H2 & H).
  apply bind_ok in H as (tp2 & Hr & H). apply bind_ok in H as (tp3 & He & H). apply bind_ok in H as (tp4 & Hi & H).
  apply bind_ok in H as (s3 & H3 & [= <- <-]).
  assert (moves 0 s s1 /\ (writebacks_ok (f_writebacks f) -> writebacks_ok (f_writebacks f1)) /\ first id t n (heap s1)) as (M1 & W1 & F1).
  { destruct (_ && _) in H1; [|injection H1 as <- <-; split_and!; [apply moves_refl|done|done]].
    apply bind_ok in H1 as (? & _ & H1). apply fill_moves in H1 as (? & ? & Hf). auto. }
  apply complete_target_moves in H2 as (M2 & [Ec Es] & Eh). apply makeResponse_same in Hr as [Er Hn].
  unfold Packet.needsResponse in Hn. rewrite Ec in Hn.
  assert (Packet.senderState tp3 = Packet.senderState tp2) as E3.
  { destruct (Packet.isError pkt); [|by injection He as <-]. unfold Packet.copyError in He. by walk. }
  assert (Packet.senderState tp4 = Packet.senderState tp3) as E4.
  { destruct (decide _) in Hi; [|by injection Hi as <-]. walk; try done; match goal with b : bool |- _ => by destruct b end. }
  pose proof (schedTimingResp_moves _ _ _ _ _ H3) as M3. simpl in M3. rewrite E4, E3, Er, Es in M3.
  unfold Packet.needsResponse. rewrite Hn. simpl. split_and!; [|done|].
  - apply (moves_0_l _ _ _ _ M1), (moves_0_l _ _ _ _ M2), M3.
  - unfold schedTimingResp in H3. apply bind_ok in H3 as (? & _ & [= <-]). simpl. by rewrite Eh.
Qed.

Lemma upd_status_moves g blk s s' : upd_status g blk s = Ok s' -> moves 0 s s' /\ heap s' = heap s.
Proof.
  unfold upd_status. intros H. walk; (split; [|done]); [|apply moves_refl]. apply moves_frame; try done. simpl. apply put_blk_top.
Qed.

Lemma serve_target_moves e id pkt t n io f s (u : U) f' s' u' :
  isTopLevel (cache s) = top -> first id t n (heap s) -> serve_target e id pkt t io f s u = Ok (f', s', u') ->
  moves (b2z (counted owes t)) s s' /\ (writebacks_ok (f_writebacks f) -> writebacks_ok (f_writebacks f')) /\
  first id t n (heap s').
Proof.
  unfold serve_target. intros Ht Hfirst H. destruct (MSHR.source t) eqn:Es.
  - apply bind_ok in H as ([f1 s1] & H1 & [= <- <- _]). by eapply serve_cpu_moves.
  - unfold counted, owes. rewrite Es. apply bind_ok in H as (? & _ & H). do 2 apply bind_ok in H as (? & _ & H).
    apply bind_ok in H as (? & _ & H). apply bind_ok in H as ([[p1 s1] u1] & H1 & [= <- <- _]).
    apply handleSnoop_moves in H1 as [M1 S1]. split_and!; [done|done|]. by eapply first_same.
  - unfold counted, owes. rewrite Es. apply bind_ok in H as (? & _ & H). apply bind_ok in H as (s1 & H1 & [= <- <- _]).
    apply upd_status_moves in H1 as [M1 ->]. done.
Qed.

Lemma serve_targets_moves e id pkt io fuel : forall f s (u : U) f' s' u',
  isTopLevel (cache s) = top -> serve_targets fuel e id pkt io f s u = Ok (f', s', u') ->
  moves 0 s s' /\ (writebacks_ok (f_writebacks f) -> writebacks_ok (f_writebacks f')).
Proof.
  induction fuel as [|fuel IH]; intros f s u f' s' u' Ht H; simpl in H; apply bind_ok in H as (m & Em & H);
    (destruct (MSHR.items (MSHR.targets m)) as [|t ts] eqn:El; [injection H as <- <- _; split; [apply moves_refl|done]|]); [done|].
  apply pget_ok in Em. apply bind_ok in H as ([[f2 s2] u2] & R & H). apply bind_ok in R as ([[f1 s1] u1] & H1 & R).
  apply bind_ok in R as (m1 & Em1 & R). apply pget_ok in Em1. apply bind_ok in R as (m2 & Hp & [= <- <- <-]).
  apply (serve_target_moves _ _ _ _ (MSHR.getNumTargets m)) in H1 as (M1 & W1 & (m1' & ts' & Em1' & El1 & _)); [|done|by exists m, ts].
  rewrite Em1 in Em1'. injection Em1' as <-.
  pose proof (count_pop owes _ _ _ _ El1 Hp) as Po. pose proof (count_pop odd _ _ _ _ El1 Hp) as Pd.
  set (s2 := s1 <| heap ::= <[id := m2]> |>) in H.
  assert (moves (- b2z (counted owes t)) s1 s2) as M2.
  { apply moves_heap; try done; unfold s2; cbn [heap upd_field]; simpl; rewrite (count_insert _ _ _ m1) by done; [lia|].
    rewrite Pd. destruct (counted odd t); simpl; lia. }
  pose proof (moves_trans _ _ _ _ _ M1 M2) as M12. rewrite Z.add_opp_diag_r in M12.
  apply IH in H as [M3 W3]; [|etransitivity; [exact (mv_top _ _ _ M12)|exact Ht]]. split; [by eapply moves_0_l|auto].
Qed.

Lemma settle_block_moves e id pkt blk s s' : settle_block e id pkt blk s = Ok s' -> moves 0 s s'.
Proof.
  unfold settle_block. intros H. walk; try apply moves_refl;
    try (match goal with H : upd_status _ _ _ = Ok _ |- _ => by apply upd_status_moves in H as [? _] end);
    match goal with H : drop_blk _ _ _ = Ok _ |- _ => apply drop_blk_top in H end; by apply moves_frame.
Qed.

Lemma retire_mshr_moves e id wf pkt blk s s' : retire_mshr e id wf pkt blk s = Ok s' -> moves 0 s s'.
Proof.
  unfold retire_mshr. intros H. apply bind_ok in H as (m & Em & H). apply pget_ok in Em.
  apply bind_ok in H as ([pr m1] & Hp & H). set (s1 := s <| heap ::= <[id := m1]> |>) in H.
  assert (moves 0 s s1) as M1.
  { pose proof (count_promote owes _ _ _ _ Hp) as E1. pose proof (count_promote odd _ _ _ _ Hp) as E2.
    apply moves_heap; try done; unfold s1; simpl; rewrite (count_insert _ _ _ m) by done; lia. }
  apply (moves_0_l 0 _ _ _ M1). cbv zeta in H. set (mq := queue_of id s1) in H.
  assert (forall q h s2, count_heap owes h = count_heap owes (heap s2) -> count_heap odd h = count_heap odd (heap s2) ->
    moves 0 s2 ((set_queue mq q s2) <| heap := h |>)) as Hq.
  { intros q h s2 E1 E2. destruct (set_queue_keeps mq q s2) as (K1 & K2 & K3 & K4).
    apply moves_heap; simpl; rewrite ?K2, ?K3, ?K4; try done; lia. }
  destruct pr.
  - apply bind_ok in H as (s2 & H2 & H). apply upd_status_moves in H2 as [M2 _]. apply (moves_0_l 0 _ _ _ M2).
    apply bind_ok in H as ([q h] & Hm & H). apply requestMemSideBus_moves in H. eapply moves_0_l; [|exact H].
    apply Hq; by eapply count_q_markPending.
  - apply bind_ok in H as ([q h] & Hm & H). unfold MSHRQueue.deallocate in Hm. apply bind_ok in H as (s3 & H3 & H).
    eapply moves_0_l; [apply Hq; by eapply count_deallocateOne|].
    assert (moves 0 ((set_queue mq q s1) <| heap := h |>) s3) as M3.
    { destruct (_ && _); [by eapply clearBlocked_moves|]. injection H3 as <-. apply moves_refl. }
    apply (moves_0_l 0 _ _ _ M3). walk; try apply moves_refl; by eapply requestMemSideBus_moves.
Qed.

Lemma clear_temp_moves e ft blk s s' : clear_temp e ft blk s = Ok s' -> moves 0 s s'.
Proof.
  unfold clear_temp. destruct blk as [[p|]|]; [intros [= <-]; apply moves_refl| |intros [= <-]; apply moves_refl].
  intros (s1 & H1 & [= <-])%bind_ok. apply (moves_0_l 0 _ s1); [|by apply moves_frame].
  destruct (Blk.isDirty _); [|injection H1 as <-; apply moves_refl].
  apply bind_ok in H1 as ([wb c] & Hw & H1). apply bind_ok in H1 as ([i s2] & Ha & [= <-]).
  apply writebackBlk_keeps in Hw as [K1 K2]. apply allocateWriteBuffer_moves in Ha.
  rewrite owes_response in Ha by (unfold Packet.needsResponse; by rewrite K2).
  eapply moves_0_l; [|exact Ha]. by apply moves_frame.
Qed.

(** A response answers targets and keeps the accounts balanced. *)
Lemma recvTimingResp_moves e pkt s (u : U) s' u' :
  isTopLevel (cache s) = top -> recvTimingResp e pkt s u = Ok (s', u') -> moves 0 s s'.
Proof.
  unfold recvTimingResp. intros Ht H. apply bind_ok in H as (? & _ & H).
  destruct (Packet.senderState pkt) as [|[id| |] ?]; try done. apply bind_ok in H as (s1 & H1 & H).
  assert (moves 0 s s1) as M1.
  { destruct (decide _); [|injection H1 as <-; apply moves_refl]. apply bind_ok in H1 as (s0 & Hc & [= <-]).
    apply clearBlocked_moves in Hc. eapply moves_0_r; [exact Hc|]. by apply moves_frame. }
  apply bind_ok in H as (m & _ & H). apply bind_ok in H as (it & _ & H). do 3 apply bind_ok in H as (? & _ & H).
  apply bind_ok in H as (? & _ & H). set (s2 := s1 <| stats ::= _ |>) in H.
  assert (moves 0 s s2) as M2 by (eapply moves_0_l; [exact M1|]; by apply moves_frame).
  apply bind_ok in H as ([f s3] & H3 & H).
  assert (moves 0 s2 s3 /\ writebacks_ok (f_writebacks f)) as [M3 W3].
  { destruct (_ && negb _); [|injection H3 as <- <-; split; [apply moves_refl|apply Forall_nil_2]].
    apply fill_moves in H3 as (? & Hw & _). split; [done|]. apply Hw, Forall_nil_2. }
  apply bind_ok in H as (io & _ & H). apply bind_ok in H as (m3 & _ & H). apply bind_ok in H as ([[f4 s4] u4] & H4 & H).
  apply bind_ok in H as (s5 & H5 & H). apply bind_ok in H as (s6 & H6 & H). apply bind_ok in H as (s7 & H7 & H).
  apply bind_ok in H as (s8 & H8 & [= <- _]).
  apply (moves_0_l 0 _ _ _ M2), (moves_0_l 0 _ _ _ M3).
  apply serve_targets_moves in H4 as [M4 W4]; [|rewrite (mv_top _ _ _ M3), (mv_top _ _ _ M2); done].
  apply (moves_0_l 0 _ _ _ M4). eapply moves_0_l; [by eapply settle_block_moves|].
  eapply moves_0_l; [by eapply retire_mshr_moves|]. eapply moves_0_l; [by eapply buffer_writebacks_moves; [|exact H7]; auto|].
  by eapply clear_temp_moves.
Qed.

Lemma recvTimingSnoopResp_moves e pkt s (u : U) s' u' :
  isTopLevel (cache s) = top -> recvTimingSnoopResp e pkt s u = Ok (s', u') -> moves 0 s s'.
Proof.
  unfold recvTimingSnoopResp. intros Ht H. do 2 apply bind_ok in H as (? & _ & H).
  destruct (Packet.senderState pkt) as [|[id| |] ?];
    try (apply bind_ok in H as (? & _ & H); by eapply recvTimingResp_moves).
  apply bind_ok in H as ([? ?] & _ & H). apply bind_ok in H as (? & _ & [= <- _]). by apply moves_frame.
Qed.

(** *** Sending *)

Lemma count_mshr_nonneg P m : 0 <= count_mshr P m.
Proof. unfold count_mshr, count_list. pose proof (countb_nonneg (counted P) (MSHR.items (MSHR.targets m))).
  pose proof (countb_nonneg (counted P) (MSHR.items (MSHR.deferredTargets m))). lia. Qed.

Lemma count_heap_nonneg P h : 0 <= count_heap P h.
Proof. induction h as [|y h IH]; simpl; [lia|]. pose proof (count_mshr_nonneg P y). lia. Qed.

Lemma count_heap_lookup P h i m : h !! i = Some m -> count_mshr P m <= count_heap P h.
Proof.
  revert i. induction h as [|y h IH]; intros [|i] E; simpl in *; try done.
  - injection E as ->. pose proof (count_heap_nonneg P h). lia.
  - specialize (IH i E). pose proof (count_mshr_nonneg P y). lia.
Qed.

Lemma no_odd h id m t ts :
  count_heap odd h = 0 -> h !! id = Some m -> MSHR.items (MSHR.targets m) = t :: ts ->
  Packet.cmd (MSHR.t_pkt t) = MemCmd.HardPFReq -> counted owes t = false.
Proof.
  intros H0 Em El Hc. pose proof (count_heap_lookup odd h id m Em) as Hm. unfold count_mshr, count_list in Hm.
  rewrite El in Hm. simpl in Hm. pose proof (countb_nonneg (counted odd) ts).
  pose proof (countb_nonneg (counted odd) (MSHR.items (MSHR.deferredTargets m))).
  assert (counted odd t = bool_decide (MSHR.source t = MSHR.FromCPU)) as E.
  { unfold counted, odd. by rewrite (bool_decide_eq_true_2 (Packet.cmd _ = _)), andb_true_r. }
  rewrite E in Hm. unfold counted, owes. case_bool_decide; simpl in *; [lia|done].
Qed.

Lemma snoop_prefetch_moves e id tp blk s (u : U) g s' u' m t ts :
  count_heap odd (heap s) = 0 -> heap s !! id = Some m -> MSHR.items (MSHR.targets m) = t :: ts ->
  Packet.cmd (MSHR.t_pkt t) = MemCmd.HardPFReq ->
  snoop_prefetch e id tp blk s u = Ok (g, s', u') ->
  moves 0 s s' /\ (g = false -> MSHR.same_lists (heap s) (heap s')).
Proof.
  unfold snoop_prefetch. intros H0 Em El Hc H. apply bind_ok in H as (p & _ & H).
  apply bind_ok in H as ([[p1 h] u1] & Hs & H). apply UF in Hs. set (s1 := s <| heap := h |>) in H.
  assert (moves 0 s s1) as M1 by by apply same_lists_moves. cbv zeta in H.
  destruct (Packet.memInhibitAsserted p1).
  { apply bind_ok in H as (s2 & H2 & [= <- <- _]). split; [|done]. eapply moves_0_l; [exact M1|]. by eapply markInService_moves. }
  destruct (_ || _); [|injection H as <- <- _; done].
  apply bind_ok in H as ([[fr q] h2] & Hf & H). apply bind_ok in H as (s3 & H3 & [= <- <- _]). split; [|done].
  apply (moves_0_l 0 _ _ _ M1). destruct (MSHR.same_lists_lookup _ _ _ _ Hs Em) as (d & Ed).
  pose proof (count_forceDeallocate owes _ _ _ _ _ _ _ _ t ts Hf Ed El) as E1.
  pose proof (count_forceDeallocate odd _ _ _ _ _ _ _ _ t ts Hf Ed El) as E2.
  rewrite (no_odd (heap s) id m t ts) in E1 by done. simpl in E1.
  set (mq := queue_of id s1) in *. destruct (set_queue_keeps mq q s1) as (K1 & K2 & K3 & K4).
  apply (moves_0_l 0 _ ((set_queue mq q s1) <| heap := h2 |>)).
  - apply moves_heap; simpl; rewrite ?K2, ?K3, ?K4; try done; destruct (counted odd t); simpl in *; lia.
  - destruct fr; [by eapply clearBlocked_moves|]. injection H3 as <-. apply moves_refl.
Qed.

Lemma pget_same {A} (h : list A) i a : h !! i = Some a -> pget h i = Ok a.
Proof. unfold pget. by intros ->. Qed.

(** A target whose packet only changes its sender state. *)
Lemma restate_moves id m t ts st s :
  heap s !! id = Some m -> MSHR.items (MSHR.targets m) = t :: ts -> Packet.needsResponse (MSHR.t_pkt t) = false ->
  moves 0 s (s <| heap ::= <[id := m <| MSHR.targets ::= (fun l => l <| MSHR.items :=
    (t <| MSHR.t_pkt := (MSHR.t_pkt t) <| Packet.senderState := st |> |>) :: tail (MSHR.items l) |>) |>]> |>).
Proof.
  intros Em El Hn. apply moves_heap; try done; simpl; rewrite (count_insert _ _ _ m) by done;
    unfold count_mshr, count_list; simpl; rewrite El; simpl; unfold counted; simpl.
  - rewrite !owes_response by done. lia.
  - rewrite !odd_response by done. lia.
Qed.

Lemma getTimingPacket_moves e s (u : U) p s' u' :
  count_heap odd (heap s) = 0 -> prefetches_ok s -> getTimingPacket e s u = Ok (p, s', u') -> moves 0 s s'.
Proof.
  unfold getTimingPacket. intros H0 Hp H. apply bind_ok in H as ([r s1] & Hn & H). apply getNextMSHR_moves in Hn as M1; [|done].
  apply (moves_0_l 0 _ _ _ M1). destruct r as [id|]; [|injection H as _ <- _; apply moves_refl].
  assert (count_heap odd (heap s1) = 0) as O1.
  { pose proof (mv_odd _ _ _ M1). assert (0 <= count_heap odd (heap s1)) as Hge by apply count_heap_nonneg. lia. }
  apply bind_ok in H as (m & Em & H). apply pget_ok in Em. apply bind_ok in H as (t & Et & H).
  apply bind_ok in H as (blk & _ & H). apply bind_ok in H as (nr & Hnr & H).
  assert (exists ts, MSHR.items (MSHR.targets m) = t :: ts) as [ts El].
  { unfold MSHR.getTarget in Et.
    destruct (MSHR.items (MSHR.targets m)) as [|t0 ts]; [done|]. injection Et as ->. by exists ts. }
  destruct nr.
  { apply bind_ok in H as (? & _ & [= _ <- _]). apply (restate_moves _ _ _ ts); try done.
    unfold MSHR.isForwardNoResponse in Hnr. destruct (negb _); [done|]. rewrite El in Hnr. injection Hnr as Hnr.
    apply andb_true_iff in Hnr as [_ Hnr%negb_true_iff]. done. }
  apply bind_ok in H as ([[g s2] u2] & Hg & H).
  assert (moves 0 s1 s2) as M2.
  { destruct (_ && _) eqn:Hc; [|injection Hg as _ <- _; apply moves_refl].
    apply andb_true_iff in Hc as [Hc%bool_decide_eq_true _]. by eapply snoop_prefetch_moves in Hg as [? _]. }
  apply (moves_0_l 0 _ _ _ M2). destruct g; [injection H as _ <- _; apply moves_refl|].
  apply bind_ok in H as (m2 & Em2 & H). apply pget_ok in Em2. apply bind_ok in H as (bp & _ & H).
  apply bind_ok in H as (? & _ & [= _ <- _]).
  apply moves_heap; try done; simpl; rewrite (count_insert _ _ _ m2) by done; unfold count_mshr; simpl; lia.
Qed.

Context {M : Type} {MP : TimingPort M} {MF : TimingFrame M}.

(** Sending the next request, or giving it up, keeps the accounts. *)
Lemma sendDeferredPacket_moves e s (u : U) (m : M) p s' u' m' :
  count_heap odd (heap s) = 0 -> prefetches_ok s ->
  sendDeferredPacket e s u m = Ok (p, s', u', m') -> moves 0 s s'.
Proof.
  unfold sendDeferredPacket. intros H0 Hp H. do 2 apply bind_ok in H as (? & _ & H).
  apply bind_ok in H as ([[r s1] u1] & Hg & H). apply getTimingPacket_moves in Hg; [|done..].
  apply (moves_0_l 0 _ _ _ Hg). cbv zeta in H.
  assert (forall a b, (t ← nextMSHRReadyTime a; q ← PacketQueue.schedSendEvent (curTick e) t (reqQueue a);
                       Ok (a <| reqQueue := q |>)) = Ok b -> moves 0 a b) as Hnext.
  { intros a b (? & _ & (? & _ & [= <-])%bind_ok)%bind_ok. by apply moves_frame. }
  destruct r as [pk|]; [|apply bind_ok in H as (s2 & H2 & [= _ <- _ _]); by apply Hnext].
  destruct (Packet.senderState pk) as [|[id| |] ?]; try done. do 4 apply bind_ok in H as (? & _ & H).
  destruct (_ : bool); [apply bind_ok in H as (? & _ & [= _ <- _ _]); by apply moves_frame|].
  apply bind_ok in H as ([[[ok pk2] h] m1] & Hs & H). apply MF in Hs.
  set (s2 := s1 <| heap := h |> <| reqQueue ::= _ |>) in H.
  assert (moves 0 s1 s2) as M2 by (eapply moves_0_l; [by apply same_lists_moves|]; by apply moves_frame).
  apply (moves_0_l 0 _ _ _ M2). destruct ok; [|injection H as _ <- _ _; apply moves_refl].
  apply bind_ok in H as (s3 & H3 & H). apply bind_ok in H as (s4 & H4 & [= _ <- _ _]).
  eapply moves_0_l; [by eapply markInService_moves|]. by apply Hnext.
Qed.

End accounts.

(** ** No request is lost *)

Section runs.
Context {G : Type} {GN : Generator G}.
Context {U : Type} {UP : SnoopPort U} {UF : SnoopFrame U} {M : Type} {MP : TimingPort M} {MF : TimingFrame M}.

(** What happens to the cache: calls of its ports and its own events. *)
Inductive action :=
  | Request (e : Env) (accepts : bool) (pkt : Packet.Packet)
  | RetryEvent
  | SendRequest (e : Env)
  | RetryRequest (e : Env)
  | Response (e : Env) (pkt : Packet.Packet)
  | SnoopRequest (e : Env) (pkt : Packet.Packet)
  | SnoopResponse (e : Env) (pkt : Packet.Packet)
  | SendSnoopResponse (curTick : Z) (ok : bool)
  | RetrySnoopResponse (curTick : Z) (ok : bool)
  | SendResponse (curTick : Z) (ok : bool)
  | RetryResponse (curTick : Z) (ok : bool)
  | Around (u : U) (m : M).

(** What the objects above see: a request was accepted, a response arrived. *)
Inductive event := Accepted (pkt : Packet.Packet) | Delivered (pkt : Packet.Packet).

Definition delivered (dp : option PacketQueue.DeferredPacket) : list event :=
  match dp with Some d => [Delivered (d.2)] | None => [] end.

Definition send_response (r : outcome (option PacketQueue.DeferredPacket * PacketQueue.PacketQueue))
  (s : Issue (G := G)) : outcome (list event * Issue (G := G)) :=
  '(dp, q) ← r;
  Ok (delivered dp, s <| cpuSidePort ::= (fun p => p <| CachePort.queue := q |>) |>).

Definition act (a : action) (s : Issue (G := G)) (u : U) (m : M)
  : outcome (list event * Issue (G := G) * U * M) :=
  match a with
  | Request e acc pkt =>
      '(ok, s) ← port_recvTimingReq e acc pkt s;
      Ok (if ok && negb (Packet.memInhibitAsserted pkt) then [Accepted pkt] else [], s, u, m)
  | RetryEvent =>
      match CachePort.sendRetryEvent (cpuSidePort s) with
      | Some _ =>
          Ok ([], s <| cpuSidePort ::= (fun p => CachePort.processSendRetry (p <| CachePort.sendRetryEvent := None |>)) |>,
              u, m)
      | None => Fail Undefined
      end
  | SendRequest e => '(_, s, u, m) ← sendDeferredPacket e s u m; Ok ([], s, u, m)
  | RetryRequest e =>
      _ ← ensure AssertFailed (PacketQueue.waitingOnRetry (reqQueue s));
      let s := s <| reqQueue ::= (fun q => q <| PacketQueue.waitingOnRetry := false |>) |> in
      '(_, s, u, m) ← sendDeferredPacket e s u m; Ok ([], s, u, m)
  | Response e pkt => '(s, u) ← recvTimingResp e pkt s u; Ok ([], s, u, m)
  | SnoopRequest e pkt => '(_, s, u) ← recvTimingSnoopReq e pkt s u; Ok ([], s, u, m)
  | SnoopResponse e pkt => '(s, u) ← recvTimingSnoopResp e pkt s u; Ok ([], s, u, m)
  | SendSnoopResponse t ok =>
      '(_, q) ← PacketQueue.processSendEvent t [] ok (snoopRespQueue s); Ok ([], s <| snoopRespQueue := q |>, u, m)
  | RetrySnoopResponse t ok =>
      '(_, q) ← PacketQueue.retry t [] ok (snoopRespQueue s); Ok ([], s <| snoopRespQueue := q |>, u, m)
  | SendResponse t ok =>
      '(l, s) ← send_response (PacketQueue.processSendEvent t [] ok (CachePort.queue (cpuSidePort s))) s;
      Ok (l, s, u, m)
  | RetryResponse t ok =>
      '(l, s) ← send_response (PacketQueue.retry t [] ok (CachePort.queue (cpuSidePort s))) s;
      Ok (l, s, u, m)
  | Around u m => Ok ([], s, u, m)
  end.

Fixpoint run (l : list action) (s : Issue (G := G)) (u : U) (m : M)
  : outcome (list event * Issue (G := G) * U * M) :=
  match l with
  | [] => Ok ([], s, u, m)
  | a :: l =>
      '(ev, s, u, m) ← act a s u m;
      '(evs, s, u, m) ← run l s u m;
      Ok (ev ++ evs, s, u, m)
  end.

(** Caches do not send hardware prefetches down as such. *)
Definition fair (a : action) : bool :=
  match a with Request _ _ pkt => negb (bool_decide (Packet.cmd pkt = MemCmd.HardPFReq)) | _ => true end.

(** No request is waiting in the cache. *)
Definition quiet (s : Issue (G := G)) : bool :=
  forallb (fun m => bool_decide (MSHR.items (MSHR.targets m) = []) && bool_decide (MSHR.items (MSHR.deferredTargets m) = []))
    (heap s)
  && bool_decide (PacketQueue.transmitList (CachePort.queue (cpuSidePort s)) = []).

Section one.
Context (top : bool) (x : list Packet.SenderState).

Definition asked (ev : event) : Z := match ev with Accepted pkt => asks x pkt | _ => 0 end.
Definition answered (ev : event) : Z :=
  match ev with Delivered pkt => b2z (bool_decide (Packet.senderState pkt = x)) | _ => 0 end.
Definition total (f : event -> Z) (l : list event) : Z := foldr (fun ev n => f ev + n) 0 l.

Lemma total_app f l1 l2 : total f (l1 ++ l2) = total f l1 + total f l2.
Proof. induction l1 as [|y l1 IH]; simpl; [done|]. rewrite IH. lia. Qed.

Lemma quiet_tally s : quiet s = true -> tally top x s = 0 /\ count_heap odd (heap s) = 0.
Proof.
  unfold quiet, tally, queued. intros [Hh Hq%bool_decide_eq_true]%andb_true_iff. rewrite Hq. simpl.
  assert (forall P, count_heap P (heap s) = 0) as E; [|by rewrite !E].
  intros P. induction (heap s) as [|y h IH]; simpl in *; [done|]. apply andb_true_iff in Hh as [Hy Hh].
  apply andb_true_iff in Hy as [H1%bool_decide_eq_true H2%bool_decide_eq_true]. rewrite IH by done.
  unfold count_mshr, count_list. by rewrite H1, H2.
Qed.

Lemma sendDeferred_queue t ok q dp q' :
  PacketQueue.sendDeferredPacket t [] ok q = Ok (dp, q') ->
  countb (is_mine x) (PacketQueue.transmitList q)
  = countb (is_mine x) (PacketQueue.transmitList q') + total answered (delivered dp).
Proof.
  unfold PacketQueue.sendDeferredPacket. intros H. do 2 apply bind_ok in H as (? & _ & H).
  destruct (PacketQueue.transmitList q) as [|d rest] eqn:El; [done|]. cbn [PacketQueue.add_all mbind outcome_bind] in H.
  cbv zeta in H. destruct ok.
  - apply bind_ok in H as (q1 & H1 & [= <- <-]). apply PacketQueue.schedSendEvent_list in H1. rewrite H1. simpl.
    unfold is_mine at 1. lia.
  - injection H as <- <-. simpl. lia.
Qed.

Lemma send_response_counts t ok r s l s' :
  (r = PacketQueue.processSendEvent t [] ok (CachePort.queue (cpuSidePort s))
   \/ r = PacketQueue.retry t [] ok (CachePort.queue (cpuSidePort s))) ->
  send_response r s = Ok (l, s') ->
  total asked l = 0 /\ moves top x (- total answered l) s s'.
Proof.
  intros Hr H. unfold send_response in H. apply bind_ok in H as ([dp q] & Hd & [= <- <-]).
  assert (countb (is_mine x) (PacketQueue.transmitList (CachePort.queue (cpuSidePort s)))
          = countb (is_mine x) (PacketQueue.transmitList q) + total answered (delivered dp)) as E.
  { destruct Hr as [-> | ->]; apply bind_ok in Hd as (? & _ & Hd); by apply sendDeferred_queue in Hd. }
  split; [by destruct dp|]. split; try done. unfold tally, queued. simpl. lia.
Qed.

(** What holds between two actions. *)
Definition sane (s : Issue (G := G)) : Prop :=
  isTopLevel (cache s) = top /\ count_heap odd (heap s) = 0 /\ prefetches_ok s.

Lemma sane_moves n s s' : moves top x n s s' -> sane s -> sane s'.
Proof.
  intros [_ Ho Et Hp] (H1 & H2 & H3). unfold sane. rewrite Et. split_and!; try done; [|by apply Hp].
  pose proof (count_heap_nonneg odd (heap s')). lia.
Qed.

Lemma port_recvTimingReq_counts e acc pkt s ok s' :
  isTopLevel (cache s) = top -> Packet.cmd pkt <> MemCmd.HardPFReq ->
  port_recvTimingReq e acc pkt s = Ok (ok, s') ->
  moves top x (if ok && negb (Packet.memInhibitAsserted pkt) then asks x pkt else 0) s s'.
Proof.
  unfold port_recvTimingReq, CachePort.port_verdict. intros Ht Hc H. apply bind_ok in H as (? & Hb & H).
  apply ensure_ok, negb_true_iff in Hb. destruct (Packet.memInhibitAsserted pkt) eqn:Ei.
  - apply bind_ok in H as (s1 & H1 & [= <- <-]). apply (recvTimingReq_moves top x) in H1; [|done..].
    by rewrite Hb, Ei in H1.
  - destruct (_ || _).
    + injection H as <- <-. simpl. by apply moves_frame.
    + apply bind_ok in H as (s1 & H1 & [= <- <-]). apply (recvTimingReq_moves top x) in H1; [|done..].
      rewrite Hb, Ei in H1. eapply moves_0_r; [exact H1|]. by apply moves_frame.
Qed.

Lemma act_counts a s (u : U) (m : M) l s' u' m' :
  fair a = true -> sane s -> act a s u m = Ok (l, s', u', m') ->
  moves top x (total asked l - total answered l) s s'.
Proof.
  intros Hf (Ht & Ho & Hp) H. destruct a; simpl in H, Hf.
  - apply bind_ok in H as ([ok s1] & H1 & [= <- <- _ _]). apply negb_true_iff, bool_decide_eq_false in Hf.
    apply port_recvTimingReq_counts in H1; [|done..].
    destruct (_ && _); simpl; by rewrite ?Z.add_0_r, Z.sub_0_r.
  - destruct (CachePort.sendRetryEvent _); [|done]. injection H as <- <- _ _. by apply moves_frame.
  - apply bind_ok in H as ([[[? s1] ?] ?] & H1 & [= <- <- _ _]). by eapply sendDeferredPacket_moves.
  - apply bind_ok in H as (? & _ & H). apply bind_ok in H as ([[[? s1] ?] ?] & H1 & [= <- <- _ _]).
    eapply moves_0_l; [|eapply sendDeferredPacket_moves, H1; done]. by apply moves_frame.
  - apply bind_ok in H as ([s1 ?] & H1 & [= <- <- _ _]). by eapply recvTimingResp_moves.
  - apply bind_ok in H as ([[? s1] ?] & H1 & [= <- <- _ _]). by eapply recvTimingSnoopReq_moves.
  - apply bind_ok in H as ([s1 ?] & H1 & [= <- <- _ _]). by eapply recvTimingSnoopResp_moves.
  - apply bind_ok in H as ([? q] & _ & [= <- <- _ _]). by apply moves_frame.
  - apply bind_ok in H as ([? q] & _ & [= <- <- _ _]). by apply moves_frame.
  - apply bind_ok in H as ([l1 s1] & H1 & [= <- <- _ _]). eapply send_response_counts in H1 as [-> H1]; [exact H1|eauto].
  - apply bind_ok in H as ([l1 s1] & H1 & [= <- <- _ _]). eapply send_response_counts in H1 as [-> H1]; [exact H1|eauto].
  - injection H as <- <- _ _. by apply moves_frame.
Qed.

Lemma run_moves l s (u : U) (m : M) evs s' u' m' :
  Forall (fun a => fair a = true) l -> sane s -> run l s u m = Ok (evs, s', u', m') ->
  moves top x (total asked evs - total answered evs) s s'.
Proof.
  intros Hf. revert s u m evs. induction Hf as [|a l Ha Hf IH]; intros s u m evs Hs H; simpl in H.
  - injection H as <- <- _ _. apply moves_refl.
  - apply bind_ok in H as ([[[ev s1] u1] m1] & H1 & H). apply bind_ok in H as ([[[ev2 s2] u2] m2] & H2 & [= <- <- <- <-]).
    apply act_counts in H1; [|done..]. apply IH in H2; [|by eapply sane_moves].
    rewrite !total_app. replace (_ - _) with ((total asked ev - total answered ev) + (total asked ev2 - total answered ev2)) by lia.
    by eapply moves_trans.
Qed.

End one.

(** A cache in which nothing has happened yet. *)
Definition starting (s : Issue (G := G)) : bool :=
  quiet s && match prefetcher s with Some pf => bool_decide (QueuedPrefetcher.pfq pf = []) | None => true end.

(** C2: the timing cache loses and invents no request. Start it with empty
    buffers and let anything happen in any order: requests, retries, responses
    from below, snoops from below, snoop responses from above, sending of
    requests, snoop responses and responses, and whatever the objects above and
    below do. For every sender state the requests for a response that the
    CPU-side port accepted are, one for one, the responses it has sent, those in
    its queue, and the targets of MSHRs that still owe one. So when the MSHRs and
    the queue are empty again, each accepted request was answered exactly once.
    A request another cache has undertaken to answer (it comes marked as inhibited)
    is not an accepted one here; no cache above sends a [HardPFReq] ([fair]: caches send
    their prefetches as reads); and while a response is being sent the object
    above sends no new request within the call. *)
Theorem no_request_lost l s0 (u0 : U) (m0 : M) evs s u m x :
  starting s0 = true -> Forall (fun a => fair a = true) l -> run l s0 u0 m0 = Ok (evs, s, u, m) ->
  total (asked x) evs
    = total (answered x) evs + queued x s + count_heap (owes (isTopLevel (cache s0)) x) (heap s) /\
  (quiet s = true -> total (asked x) evs = total (answered x) evs).
Proof.
  intros [Hq Hp]%andb_true_iff Hf H. set (top := isTopLevel (cache s0)).
  destruct (quiet_tally top x s0 Hq) as [E0 O0].
  assert (sane top s0) as Hs.
  { unfold sane. split_and!; try done. unfold prefetches_ok. destruct (prefetcher s0) as [pf|]; [|done].
    apply bool_decide_eq_true in Hp. rewrite Hp. apply Forall_nil_2. }
  pose proof (mv_tally _ _ _ _ _ (run_moves top x _ _ _ _ _ _ _ _ Hf Hs H)) as E. unfold tally in E0, E.
  split; [lia|]. intros [E1 _]%(quiet_tally top x). unfold tally in E1. lia.
Qed.

End runs.

(** A memory that accepts every request and keeps a list of them. *)
#[local] Instance recorder : TimingPort (list Packet.Packet) :=
  fun pkt h m => Ok (true, pkt, h, m ++ [pkt]).
#[local] Instance recorder_frame : TimingFrame (list Packet.Packet).
Proof. intros pkt h m ok pkt' h' m' [= _ _ <- _]. apply MSHRQueue.same_lists_preorder. Qed.

(** Two reads of one line: a miss and a request that joins its MSHR, one request
    below, its response, and two responses above, the second one after a retry. *)
Definition example_time (t : Z) : Env := MkEnv true false 10 t t (fun n => replicate (Z.to_nat n) 0).
Definition example_start : Issue (G := TaggedPrefetcher.Tagged) := example_issue <| prefetcher := None |>.
Definition example_read (tag addr : Z) : Packet.Packet :=
  (example_request MemCmd.ReadReq addr 4 [0; 0; 0; 0]) <| Packet.senderState := [Packet.SSOther tag] |>
    <| Packet.req ::= (fun r => r <| Request._masterId := 1 |>) |>.
Definition example_response : Packet.Packet :=
  (example_request MemCmd.ReadResp 0 8 (seqZ 1 8)) <| Packet.senderState := [Packet.SSMshr 0] |>
    <| Packet.req := Packet.req (example_read 1 4) |>.
Definition example_actions : list (action (U := ()) (M := list Packet.Packet)) :=
  [Request (example_time 10) true (example_read 1 4); Request (example_time 20) true (example_read 2 0);
   SendRequest (example_time 30); Response (example_time 100) example_response;
   SendResponse 110 true; SendResponse 120 false; RetryResponse 130 true].
Definition data_seen (ev : event) : option (list Z) :=
  match ev with Accepted _ => None | Delivered p => Packet.data p end.

Lemma no_request_lost_witness :
  exists evs s u m, run example_actions example_start () [] = Ok (evs, s, u, m) /\
    (data_seen <$> evs) = [None; None; Some [5; 6; 7; 8]; Some [1; 2; 3; 4]] /\
    total (asked [Packet.SSOther 2]) evs = total (answered [Packet.SSOther 2]) evs /\ length m = 1%nat.
Proof.
  destruct (run example_actions example_start () []) as [[[[evs s] u] m]|] eqn:E; [|vm_compute in E; discriminate].
  exists evs, s, u, m. split; [reflexivity|].
  destruct (no_request_lost example_actions example_start () [] evs s u m [Packet.SSOther 2]) as [_ Hq];
    [reflexivity|repeat constructor|exact E|].
  assert (quiet s = true /\ (data_seen <$> evs) = [None; None; Some [5; 6; 7; 8]; Some [1; 2; 3; 4]]
          /\ length m = 1%nat) as (Q & D & L) by (vm_compute in E; injection E as <- <- _ <-; by vm_compute).
  split; [exact D|]. split; [exact (Hq Q)|exact L].
Defined.

(** ** The loop over the targets ends *)

Section fuel.
Context {G : Type} {GN : Generator G} {U : Type} {UP : SnoopPort U} {UF : SnoopFrame U}.

Lemma popTarget_num m m' : MSHR.popTarget m = Ok m' -> MSHR.getNumTargets m = MSHR.getNumTargets m' + 1.
Proof.
  unfold MSHR.popTarget, MSHR.getNumTargets. destruct (MSHR.items (MSHR.targets m)); [done|]. intros [= <-]. simpl. lia.
Qed.

Lemma serve_round_num e id pkt t ts io f s (u : U) f' s' u' m :
  heap s !! id = Some m -> MSHR.items (MSHR.targets m) = t :: ts ->
  serve_round (G := G) e id pkt t io f s u = Ok (f', s', u') ->
  exists m', heap s' !! id = Some m' /\ MSHR.getNumTargets m = MSHR.getNumTargets m' + 1.
Proof.
  intros Em El H. apply bind_ok in H as ([[f1 s1] u1] & E1 & H).
  apply (serve_target_moves (isTopLevel (cache s)) [] _ _ _ _ (MSHR.getNumTargets m)) in E1 as (_ & _ & (m1 & ts1 & Em1 & _ & N1));
    [|done|by exists m, ts].
  rewrite (pget_same _ _ _ Em1) in H. cbn [mbind outcome_bind] in H. apply bind_ok in H as (m2 & Ep & Er).
  injection Er as _ <- _. apply popTarget_num in Ep. exists m2. split; [|lia].
  simpl. by rewrite list_lookup_insert_eq by by eapply lookup_lt_Some.
Qed.

Lemma serve_targets_enough e id pkt io k n : forall f s (u : U) m,
  heap s !! id = Some m -> MSHR.getNumTargets m <= Z.of_nat n ->
  serve_targets (G := G) (n + k) e id pkt io f s u = serve_targets n e id pkt io f s u /\
  (forall f' s' u', serve_targets n e id pkt io f s u = Ok (f', s', u') ->
     exists m', heap s' !! id = Some m' /\ MSHR.hasTargets m' = false).
Proof.
  induction n as [|n IH]; intros f s u m Em Hn.
  - assert (MSHR.items (MSHR.targets m) = []) as El.
    { unfold MSHR.getNumTargets in Hn. destruct (MSHR.items (MSHR.targets m)); [done|]. simpl in Hn. lia. }
    assert (forall j, serve_targets j e id pkt io f s u = Ok (f, s, u)) as E.
    { intros j. destruct j; cbn [serve_targets]; rewrite (pget_same _ _ _ Em); cbn [mbind outcome_bind]; by rewrite El. }
    rewrite !E. split; [done|]. intros f' s' u' [= _ <- _]. exists m. unfold MSHR.hasTargets. by rewrite El.
  - cbn [serve_targets Nat.add]. rewrite (pget_same _ _ _ Em). cbn [mbind outcome_bind].
    destruct (MSHR.items (MSHR.targets m)) as [|t ts] eqn:El.
    { split; [done|]. intros f' s' u' [= _ <- _]. exists m. unfold MSHR.hasTargets. by rewrite El. }
    destruct (serve_round e id pkt t io f s u) as [[[f1 s1] u1]|] eqn:E1; [|by split]. cbn [mbind outcome_bind].
    apply (serve_round_num _ _ _ _ ts _ _ _ _ _ _ _ m Em El) in E1 as (m1 & Em1 & N1).
    apply (IH _ _ _ m1 Em1). lia.
Qed.

(** C16: the loop with which [recvTimingResp] serves the targets of an MSHR
    terminates. Every round that succeeds leaves one target less on the two
    lists, also when a fill for an invalidating write moves deferred targets
    into the list that the loop walks over; so the number of targets bounds the
    rounds, with that bound the result no longer depends on it, and when the loop
    succeeds no target is left unserved. *)
Theorem serve_targets_terminates e id pkt io f s (u : U) m k :
  heap s !! id = Some m ->
  (forall t ts f' s' u', MSHR.items (MSHR.targets m) = t :: ts ->
     serve_round (G := G) e id pkt t io f s u = Ok (f', s', u') ->
     exists m', heap s' !! id = Some m' /\ MSHR.getNumTargets m = MSHR.getNumTargets m' + 1) /\
  serve_targets (G := G) (Z.to_nat (MSHR.getNumTargets m) + k) e id pkt io f s u
    = serve_targets (Z.to_nat (MSHR.getNumTargets m)) e id pkt io f s u /\
  (forall f' s' u', serve_targets (Z.to_nat (MSHR.getNumTargets m)) e id pkt io f s u = Ok (f', s', u') ->
     exists m', heap s' !! id = Some m' /\ MSHR.hasTargets m' = false).
Proof.
  intros Em. split; [intros t ts f' s' u'; by apply serve_round_num|].
  apply (serve_targets_enough _ _ _ _ _ _ _ _ _ m Em). lia.
Qed.

End fuel.

(** The two reads after the line has come back. *)
Definition example_filled : outcome (Fill * Issue (G := TaggedPrefetcher.Tagged)) :=
  '(_, s, _, _) ← run (take 3 example_actions) example_start () [];
  fill (example_time 100) 0 example_response (MkFill None false []) s.

Lemma serve_targets_terminates_witness :
  exists f s f' s' m', example_filled = Ok (f, s) /\
    serve_targets 9 (example_time 100) 0 example_response 4 f s () = Ok (f', s', ()) /\
    heap s' !! 0%nat = Some m' /\ MSHR.hasTargets m' = false.
Proof.
  destruct example_filled as [[f s]|] eqn:E; [|vm_compute in E; discriminate].
  destruct (heap s !! 0%nat) as [m|] eqn:Em; [|vm_compute in E; injection E as _ <-; discriminate].
  assert (MSHR.getNumTargets m = 2) as Hn
    by (vm_compute in E; injection E as _ <-; vm_compute in Em; injection Em as <-; reflexivity).
  destruct (serve_targets_terminates (example_time 100) 0 example_response 4 f s () m 7 Em) as (_ & Ek & Hd).
  rewrite Hn in Ek, Hd. change (Z.to_nat 2 + 7)%nat with 9%nat in Ek.
  destruct (serve_targets (Z.to_nat 2) (example_time 100) 0 example_response 4 f s ()) as [[[f' s'] []]|] eqn:Es.
  - destruct (Hd f' s' () eq_refl) as (m' & Em' & Hm'). exists f, s, f', s', m'.
    split; [reflexivity|]. split; [exact Ek|]. split; [exact Em'|exact Hm'].
  - vm_compute in E. injection E as <- <-. vm_compute in Es. discriminate Es.
Defined.

End CacheConserve.
