(* ===== verification/CoherentXBar.v ===== *)
(** The coherent crossbar: [CoherentXBar] of mem/coherent_xbar.hh and
    mem/coherent_xbar.cc.

    The objects above (of type [U]) are snooped, the objects below (of type [M])
    serve the requests. A request is shown to the other objects above before it
    goes to the one below that its address belongs to. *)

From S2P Require Import Prelude IntMath AddrRange Request MemCmd Packet Functional XBar SnoopFilter.
From S2P Require Import Blk BasePrefetcher QueuedPrefetcher MSHR MSHRQueue AtomicPort Cache CacheIssue CacheAtomic CacheSnoop CacheFunctional CacheTiming CacheConserve.
From stdpp Require Import gmap.
Local Open Scope Z_scope.

Module CoherentXBar.
Import CacheAtomic CacheSnoop XBar.

(** The statistics, as the list of what was counted. *)
Inductive XStat :=
  | PktCount (slave master : Z)
  | PktSize (slave master size : Z)
  | TransDist (c : MemCmd.Command)
  | Snoops
  | SnoopFanout (n : Z).

(** Responses leave to an object above or, for snoops from below, to one below. *)
Inductive sent := ToAbove (slave_port_id : Z) (pkt : Packet.Packet) | ToBelow (master_port_id : Z) (pkt : Packet.Packet).

Section xbar.
Context {U : Type} `{SnoopPort U} {M : Type}.

(** [routeTo] and [outstandingSnoop] are keyed by the address of the request
    object. The peers of the slave ports are [above], those of the master ports
    [below]; [out] collects the responses. *)
Record CoherentXBar := MkCXBar {
  xbar : BaseXBar;
  reqLayers : list Layer.Layer;
  respLayers : list Layer.Layer;
  snoopLayers : list Layer.Layer;
  snoopPorts : list Z;
  outstandingSnoop : gset Z;
  routeTo : gmap Z Z;
  snoopFilter : option SnoopFilter.SnoopFilter;
  snoopResponseLatency : Z;
  above : list U;
  below : list M;
  stats : list XStat;
  out : list sent;
}.
#[global] Instance eta_CoherentXBar : Eta CoherentXBar := fun x =>
  MkCXBar (xbar x) (reqLayers x) (respLayers x) (snoopLayers x) (snoopPorts x) (outstandingSnoop x)
    (routeTo x) (snoopFilter x) (snoopResponseLatency x) (above x) (below x) (stats x) (out x).

(** The constructor, for the peers it is connected to, followed by [init], which
    collects the peers that snoop. *)
Definition CoherentXBar_new (frontend forward response w snoop_response masters : Z)
  (has_default use_default : bool) (filter : option SnoopFilter.SnoopFilter) (up : list U) (down : list M)
  : CoherentXBar :=
  let ids := seqZ 0 (Z.of_nat (length up)) in
  let layers n := replicate n Layer.Layer_new in
  let nm := Z.to_nat (masters + b2z has_default) in
  MkCXBar (BaseXBar_new frontend forward response w masters has_default use_default)
    (layers nm) (layers (length up)) (layers nm)
    (omap (fun i => u ← up !! Z.to_nat i; if isSnooping u then Some i else None) ids)
    ∅ ∅ (SnoopFilter.setSlavePorts ids <$> filter) snoop_response up down [] [].

Definition count (s : XStat) (x : CoherentXBar) : CoherentXBar := x <| stats ::= cons s |>.
Definition count_pkt (slave master size : Z) (c : MemCmd.Command) (x : CoherentXBar) : CoherentXBar :=
  count (TransDist c) (count (PktSize slave master size) (count (PktCount slave master) x)).

Definition pkt_size (pkt : Packet.Packet) : outcome Z :=
  if Packet.hasData pkt then Packet.getSize pkt else Ok 0.

(** ** Atomic mode *)

(** The loop of [forwardAtomic]. [orig_cmd] is the command of the request, the
    result has the packet, the command of the snoop response, its latency, the
    number of ports snooped and the crossbar. *)
Fixpoint forward_atomic (orig_cmd : MemCmd.Command) (exclude source : Z) (dests : list Z) (pkt : Packet.Packet)
  (resp_cmd : MemCmd.Command) (resp_lat fanout : Z) (x : CoherentXBar)
  : outcome (Packet.Packet * MemCmd.Command * Z * Z * CoherentXBar) :=
  match dests with
  | [] => Ok (pkt, resp_cmd, resp_lat, fanout, x)
  | p :: dests =>
      if negb (exclude =? InvalidPortID) && (p =? exclude)
      then forward_atomic orig_cmd exclude source dests pkt resp_cmd resp_lat fanout x
      else
        u ← vget (above x) p;
        '(pkt, latency, u) ← sendAtomicSnoop pkt u;
        let x := x <| above ::= <[Z.to_nat p := u]> |> in
        if negb (Packet.isResponse pkt)
        then forward_atomic orig_cmd exclude source dests pkt resp_cmd resp_lat (fanout + 1) x
        else
          _ ← ensure AssertFailed (negb (bool_decide (Packet.cmd pkt = orig_cmd)));
          _ ← ensure AssertFailed (Packet.memInhibitAsserted pkt);
          _ ← ensure AssertFailed (bool_decide (resp_cmd = MemCmd.InvalidCmd));
          let cmd := Packet.cmd pkt in
          f ← match snoopFilter x with
              | None => Ok None
              | Some f =>
                  f ← (if negb (source =? InvalidPortID) then
                         _ ← ensure AssertFailed (exclude =? InvalidPortID);
                         SnoopFilter.updateSnoopForward pkt p f
                       else SnoopFilter.updateSnoopResponse pkt p exclude f);
                  Ok (Some f)
              end;
          forward_atomic orig_cmd exclude source dests (pkt <| Packet.cmd := orig_cmd |>) cmd latency
            (fanout + 1) (x <| snoopFilter := f |>)
  end.

Definition forwardAtomic (e : Env) (pkt : Packet.Packet) (exclude source : Z) (dests : list Z) (x : CoherentXBar)
  : outcome (Packet.Packet * MemCmd.Command * Z * CoherentXBar) :=
  _ ← ensure AssertFailed (negb (bypassCaches e));
  '(pkt, cmd, lat, fanout, x) ←
    forward_atomic (Packet.cmd pkt) exclude source dests pkt MemCmd.InvalidCmd 0 0 x;
  Ok (pkt, cmd, lat, count (SnoopFanout fanout) x).

(** The snoops of a request from above: all snooping ports, or those the filter
    selects. *)
Definition snoop_request (e : Env) (slave_port_id : Z) (pkt : Packet.Packet) (x : CoherentXBar)
  : outcome (Packet.Packet * MemCmd.Command * Z * CoherentXBar) :=
  match snoopFilter x with
  | None => forwardAtomic e pkt slave_port_id InvalidPortID (snoopPorts x) x
  | Some f =>
      '(ports, lat, f) ← SnoopFilter.lookupRequest pkt slave_port_id f;
      '(pkt, cmd, t, x) ← forwardAtomic e pkt slave_port_id InvalidPortID ports (x <| snoopFilter := Some f |>);
      Ok (pkt, cmd, lat * clockPeriod e + t, x)
  end.

Context `{AtomicPort M}.

Definition recvAtomic (e : Env) (slave_port_id : Z) (pkt : Packet.Packet) (x : CoherentXBar)
  : outcome (Packet.Packet * Z * CoherentXBar) :=
  size ← pkt_size pkt;
  let pkt_cmd := Packet.cmd pkt in
  '(pkt, snoop_response_cmd, snoop_response_latency, x) ←
    (if bypassCaches e then Ok (pkt, MemCmd.InvalidCmd, 0, x) else snoop_request e slave_port_id pkt x);
  a ← Packet.getAddr pkt;
  '(master_port_id, xb) ← findPort a (xbar x);
  let x := count_pkt slave_port_id master_port_id size pkt_cmd (x <| xbar := xb |>) in
  m ← vget (below x) master_port_id;
  '(pkt, response_latency, m) ← sendAtomic pkt m;
  let x := x <| below ::= <[Z.to_nat master_port_id := m]> |> in
  f ← match snoopFilter x with
      | Some f =>
          if negb (bypassCaches e) && Packet.isResponse pkt
          then f ← SnoopFilter.updateResponse pkt slave_port_id f; Ok (Some f)
          else Ok (Some f)
      | None => Ok None
      end;
  let x := x <| snoopFilter := f |> in
  '(pkt, response_latency) ←
    (if negb (bool_decide (snoop_response_cmd = MemCmd.InvalidCmd)) then
       _ ← ensure AssertFailed (negb (Packet.isResponse pkt));
       Ok (pkt <| Packet.cmd := snoop_response_cmd |>, snoop_response_latency)
     else Ok (pkt, response_latency));
  x ← (if Packet.isResponse pkt then
         size ← pkt_size pkt;
         Ok (count_pkt slave_port_id master_port_id size (Packet.cmd pkt) x)
       else Ok x);
  Ok (pkt <| Packet.payloadDelay := u32 response_latency |>, response_latency, x).

(** A snoop from below. *)
Definition recvAtomicSnoop (e : Env) (master_port_id : Z) (pkt : Packet.Packet) (x : CoherentXBar)
  : outcome (Packet.Packet * Z * CoherentXBar) :=
  let x := count Snoops x in
  '(pkt, cmd, lat, x) ←
    match snoopFilter x with
    | None => forwardAtomic e pkt InvalidPortID InvalidPortID (snoopPorts x) x
    | Some f =>
        '(ports, lat, f) ← SnoopFilter.lookupSnoop pkt f;
        '(pkt, cmd, t, x) ← forwardAtomic e pkt InvalidPortID master_port_id ports (x <| snoopFilter := Some f |>);
        Ok (pkt, cmd, lat * clockPeriod e + t, x)
    end;
  let pkt := if negb (bool_decide (cmd = MemCmd.InvalidCmd)) then pkt <| Packet.cmd := cmd |> else pkt in
  let x := if Packet.isResponse pkt then count Snoops x else x in
  Ok (pkt <| Packet.payloadDelay := u32 lat |>, lat, x).

(** ** Functional accesses *)

Context {FS : FunctionalSnoop U}.

(** The loop of [forwardFunctional], which ends with the first response. *)
Fixpoint forward_functional (exclude : Z) (dests : list Z) (pkt : Packet.Packet) (x : CoherentXBar)
  : outcome (Packet.Packet * CoherentXBar) :=
  match dests with
  | [] => Ok (pkt, x)
  | p :: dests =>
      '(pkt, x) ←
        (if (exclude =? InvalidPortID) || negb (p =? exclude) then
           u ← vget (above x) p;
           '(pkt, u) ← sendFunctionalSnoop pkt u;
           Ok (pkt, x <| above ::= <[Z.to_nat p := u]> |>)
         else Ok (pkt, x));
      if Packet.isResponse pkt then Ok (pkt, x) else forward_functional exclude dests pkt x
  end.

Definition forwardFunctional (e : Env) (pkt : Packet.Packet) (exclude : Z) (x : CoherentXBar)
  : outcome (Packet.Packet * CoherentXBar) :=
  _ ← ensure AssertFailed (negb (bypassCaches e));
  forward_functional exclude (snoopPorts x) pkt x.

Definition recvFunctional {FP : FunctionalPort M} (e : Env) (slave_port_id : Z) (pkt : Packet.Packet) (x : CoherentXBar)
  : outcome (Packet.Packet * CoherentXBar) :=
  '(pkt, x) ← (if bypassCaches e then Ok (pkt, x) else forwardFunctional e pkt slave_port_id x);
  if Packet.isResponse pkt then Ok (pkt, x)
  else
    a ← Packet.getAddr pkt;
    '(dest_id, xb) ← findPort a (xbar x);
    let x := x <| xbar := xb |> in
    m ← vget (below x) dest_id;
    '(pkt, m) ← sendFunctional pkt m;
    Ok (pkt, x <| below ::= <[Z.to_nat dest_id := m]> |>).

Definition recvFunctionalSnoop (e : Env) (pkt : Packet.Packet) (x : CoherentXBar)
  : outcome (Packet.Packet * CoherentXBar) := forwardFunctional e pkt InvalidPortID x.

End xbar.

(** ** Timing mode *)

Section timing.
Context {U : Type} `{SnoopPort U} {M : Type} `{TimingPort M}.
Abbreviation X := (CoherentXBar (U := U) (M := M)).

(** The sources of the response layers are the master ports and the ports that
    mirror the slave ports. *)
Definition master_src (id : Z) : Z := 2 * id.
Definition snoop_src (id : Z) : Z := 2 * id + 1.

Definition on_layer {A} (id : Z) (op : Layer.Layer -> outcome (A * Layer.Layer)) (ls : list Layer.Layer)
  : outcome (A * list Layer.Layer) :=
  l ← vget ls id; '(r, l) ← op l; Ok (r, <[Z.to_nat id := l]> ls).
Definition on_layer_ (id : Z) (op : Layer.Layer -> outcome Layer.Layer) (ls : list Layer.Layer)
  : outcome (list Layer.Layer) :=
  l ← vget ls id; l ← op l; Ok (<[Z.to_nat id := l]> ls).

(** [h] has the MSHRs of all caches. *)
Fixpoint forward_timing (exclude : Z) (dests : list Z) (pkt : Packet.Packet) (h : list MSHR.MSHR) (fanout : Z) (x : X)
  : outcome (Packet.Packet * list MSHR.MSHR * Z * X) :=
  match dests with
  | [] => Ok (pkt, h, fanout, x)
  | p :: dests =>
      if (exclude =? InvalidPortID) || negb (p =? exclude) then
        u ← vget (above x) p;
        '(pkt, h, u) ← sendTimingSnoopReq pkt h u;
        forward_timing exclude dests pkt h (fanout + 1) (x <| above ::= <[Z.to_nat p := u]> |>)
      else forward_timing exclude dests pkt h fanout x
  end.

Definition forwardTiming (e : Env) (pkt : Packet.Packet) (exclude : Z) (dests : list Z) (h : list MSHR.MSHR) (x : X)
  : outcome (Packet.Packet * list MSHR.MSHR * X) :=
  _ ← ensure AssertFailed (negb (bypassCaches e));
  '(pkt, h, fanout, x) ← forward_timing exclude dests pkt h 0 x;
  Ok (pkt, h, count (SnoopFanout fanout) x).

(** The snoops of a request from above, with the number of ticks the lookup in
    the filter takes. *)
Definition timing_snoops (e : Env) (slave_port_id : Z) (pkt : Packet.Packet) (h : list MSHR.MSHR) (x : X)
  : outcome (Packet.Packet * Z * list MSHR.MSHR * X) :=
  match snoopFilter x with
  | Some f =>
      '(ports, lat, f) ← SnoopFilter.lookupRequest pkt slave_port_id f;
      let pkt := pkt <| Packet.headerDelay ::= (fun d => u32 (d + lat * clockPeriod e)) |> in
      '(pkt, h, x) ← forwardTiming e pkt slave_port_id ports h (x <| snoopFilter := Some f |>);
      Ok (pkt, lat * clockPeriod e, h, x)
  | None =>
      '(pkt, h, x) ← forwardTiming e pkt slave_port_id (snoopPorts x) h x;
      Ok (pkt, 0, h, x)
  end.

(** The bookkeeping after the object below took the request [rq]. *)
Definition request_sent (e : Env) (rq slave_port_id master_port_id finish : Z) (expect_snoop_resp expect_response : bool) (x : X)
  : outcome X :=
  x ← (if expect_snoop_resp then
         _ ← ensure AssertFailed (negb (bool_decide (rq ∈ outstandingSnoop x)));
         let x := x <| outstandingSnoop ::= (fun s => {[rq]} ∪ s) |> in
         _ ← ensure PanicError (Z.of_nat (size (outstandingSnoop x)) <=? 512);
         Ok x
       else Ok x);
  x ← (if expect_response || expect_snoop_resp then
         _ ← ensure AssertFailed (bool_decide (routeTo x !! rq = None));
         let x := x <| routeTo ::= <[rq := slave_port_id]> |> in
         _ ← ensure PanicError (Z.of_nat (size (routeTo x)) <=? 512);
         Ok x
       else Ok x);
  ls ← on_layer_ master_port_id (Layer.succeededTiming (curTick e) finish) (reqLayers x);
  Ok (x <| reqLayers := ls |>).

(** [us] is the number of ticks of a microsecond. *)
Definition recvTimingReq (e : Env) (us rq slave_port_id : Z) (pkt : Packet.Packet) (h : list MSHR.MSHR) (x : X)
  : outcome (bool * Packet.Packet * list MSHR.MSHR * X) :=
  let is_express_snoop := Packet.isExpressSnoop pkt in
  let is_inhibited := Packet.memInhibitAsserted pkt in
  _ ← ensure AssertFailed (bool_decide (is_express_snoop = is_inhibited));
  a ← Packet.getAddr pkt;
  '(master_port_id, xb) ← findPort a (xbar x);
  let x := x <| xbar := xb |> in
  '(free, ls) ← (if is_express_snoop then Ok (true, reqLayers x)
                 else on_layer master_port_id (Layer.tryTiming slave_port_id) (reqLayers x));
  let x := x <| reqLayers := ls |> in
  if negb (free : bool) then Ok (false, pkt, h, x)
  else
    size ← pkt_size pkt;
    let pkt_cmd := Packet.cmd pkt in
    let old_header_delay := Packet.headerDelay pkt in
    let xbar_delay := (frontendLatency (xbar x) + forwardLatency (xbar x)) * clockPeriod e in
    pkt ← calcPacketTiming (clockPeriod e) (now e) (curTick e) us xbar_delay pkt (xbar x);
    let finish := clockEdge e 1 + Packet.payloadDelay pkt in
    '(pkt, lookup, h, x) ←
      (if negb (bypassCaches e) then timing_snoops e slave_port_id pkt h x else Ok (pkt, 0, h, x));
    let finish := finish + lookup in
    let expect_snoop_resp := negb is_inhibited && Packet.memInhibitAsserted pkt in
    let expect_response := Packet.needsResponse pkt && negb (Packet.memInhibitAsserted pkt) in
    let orig_cmd := Packet.cmd pkt in
    m ← vget (below x) master_port_id;
    '(success, pkt, h, m) ← sendTimingReq pkt h m;
    let x := x <| below ::= <[Z.to_nat master_port_id := m]> |> in
    f ← match snoopFilter x with
        | Some f =>
            if negb (bypassCaches e) then
              f ← SnoopFilter.updateRequest (pkt <| Packet.cmd := orig_cmd |>) slave_port_id (negb success) f;
              Ok (Some f)
            else Ok (Some f)
        | None => Ok None
        end;
    let x := x <| snoopFilter := f |> in
    if negb success then
      _ ← ensure AssertFailed (negb is_express_snoop);
      _ ← ensure AssertFailed (negb (Packet.memInhibitAsserted pkt));
      ls ← on_layer_ master_port_id (Layer.failedTiming (curTick e) slave_port_id (clockEdge e 1)) (reqLayers x);
      Ok (false, pkt <| Packet.headerDelay := old_header_delay |>, h, x <| reqLayers := ls |>)
    else
      x ← (if negb is_express_snoop
           then request_sent e rq slave_port_id master_port_id finish expect_snoop_resp expect_response x
           else Ok x);
      let x := count_pkt slave_port_id master_port_id size pkt_cmd x in
      Ok (true, pkt, h, if is_express_snoop then count Snoops x else x).

(** [accepted] says whether the peer takes the response, as it has to. *)
Definition recvTimingResp (e : Env) (us rq master_port_id : Z) (accepted : bool) (pkt : Packet.Packet) (x : X)
  : outcome (bool * Packet.Packet * X) :=
  match routeTo x !! rq with
  | None => Fail AssertFailed
  | Some slave_port_id =>
      _ ← ensure AssertFailed (negb (slave_port_id =? InvalidPortID));
      _ ← ensure AssertFailed (slave_port_id <? Z.of_nat (length (respLayers x)));
      '(free, ls) ← on_layer slave_port_id (Layer.tryTiming (master_src master_port_id)) (respLayers x);
      let x := x <| respLayers := ls |> in
      if negb (free : bool) then Ok (false, pkt, x)
      else
        size ← pkt_size pkt;
        let pkt_cmd := Packet.cmd pkt in
        pkt ← calcPacketTiming (clockPeriod e) (now e) (curTick e) us
                (responseLatency (xbar x) * clockPeriod e) pkt (xbar x);
        let finish := clockEdge e 1 + Packet.payloadDelay pkt in
        f ← match snoopFilter x with
            | Some f =>
                if negb (bypassCaches e)
                then f ← SnoopFilter.updateResponse pkt slave_port_id f; Ok (Some f)
                else Ok (Some f)
            | None => Ok None
            end;
        _ ← ensure AssertFailed accepted;
        let x := x <| snoopFilter := f |> <| out ::= cons (ToAbove slave_port_id pkt) |>
                   <| routeTo ::= delete rq |> in
        ls ← on_layer_ slave_port_id (Layer.succeededTiming (curTick e) finish) (respLayers x);
        Ok (true, pkt, count_pkt slave_port_id master_port_id size pkt_cmd (x <| respLayers := ls |>))
  end.

(** A snoop from below. *)
Definition recvTimingSnoopReq (e : Env) (rq master_port_id : Z) (pkt : Packet.Packet) (h : list MSHR.MSHR) (x : X)
  : outcome (Packet.Packet * list MSHR.MSHR * X) :=
  let x := count Snoops (count (TransDist (Packet.cmd pkt)) x) in
  _ ← ensure AssertFailed (Packet.isExpressSnoop pkt);
  let is_inhibited := Packet.memInhibitAsserted pkt in
  '(pkt, h, x) ←
    match snoopFilter x with
    | Some f =>
        '(ports, _, f) ← SnoopFilter.lookupSnoop pkt f;
        forwardTiming e pkt InvalidPortID ports h (x <| snoopFilter := Some f |>)
    | None => forwardTiming e pkt InvalidPortID (snoopPorts x) h x
    end;
  x ← (if negb is_inhibited && Packet.memInhibitAsserted pkt then
         _ ← ensure AssertFailed (bool_decide (routeTo x !! rq = None));
         Ok (x <| routeTo ::= <[rq := master_port_id]> |>)
       else Ok x);
  a ← Packet.getAddr pkt;
  '(id, xb) ← findPort a (xbar x);
  _ ← ensure AssertFailed (master_port_id =? id);
  Ok (pkt, h, x <| xbar := xb |>).

(** The response of an object above to a snoop. *)
Definition recvTimingSnoopResp (e : Env) (us rq slave_port_id : Z) (accepted : bool) (pkt : Packet.Packet) (x : X)
  : outcome (bool * Packet.Packet * X) :=
  match routeTo x !! rq with
  | None => Fail AssertFailed
  | Some dest_port_id =>
      _ ← ensure AssertFailed (negb (dest_port_id =? InvalidPortID));
      let forwardAsSnoop := negb (bool_decide (rq ∈ outstandingSnoop x)) in
      let layers := if forwardAsSnoop then snoopLayers x else respLayers x in
      _ ← ensure AssertFailed (dest_port_id <? Z.of_nat (length layers));
      '(free, ls) ← on_layer dest_port_id
          (Layer.tryTiming (if forwardAsSnoop then slave_port_id else snoop_src slave_port_id)) layers;
      let x := if forwardAsSnoop then x <| snoopLayers := ls |> else x <| respLayers := ls |> in
      if negb (free : bool) then Ok (false, pkt, x)
      else
        size ← pkt_size pkt;
        let pkt_cmd := Packet.cmd pkt in
        _ ← ensure AssertFailed (negb (Packet.isExpressSnoop pkt));
        let lat := if forwardAsSnoop then snoopResponseLatency x else responseLatency (xbar x) in
        pkt ← calcPacketTiming (clockPeriod e) (now e) (curTick e) us (lat * clockPeriod e) pkt (xbar x);
        let finish := clockEdge e 1 + Packet.payloadDelay pkt in
        x ← (if forwardAsSnoop then
               f ← match snoopFilter x with
                   | Some f => f ← SnoopFilter.updateSnoopForward pkt slave_port_id f; Ok (Some f)
                   | None => Ok None
                   end;
               let x := count (PktSize slave_port_id dest_port_id size) (count (PktCount slave_port_id dest_port_id)
                          (x <| snoopFilter := f |> <| out ::= cons (ToBelow dest_port_id pkt) |>)) in
               _ ← ensure AssertFailed accepted;
               ls ← on_layer_ dest_port_id (Layer.succeededTiming (curTick e) finish) (snoopLayers x);
               Ok (x <| snoopLayers := ls |>)
             else
               let x := x <| outstandingSnoop ::= (fun s => s ∖ {[rq]}) |> in
               _ ← ensure AssertFailed (negb (slave_port_id =? dest_port_id));
               f ← match snoopFilter x with
                   | Some f => f ← SnoopFilter.updateSnoopResponse pkt slave_port_id dest_port_id f; Ok (Some f)
                   | None => Ok None
                   end;
               _ ← ensure AssertFailed accepted;
               let x := x <| snoopFilter := f |> <| out ::= cons (ToAbove dest_port_id pkt) |> in
               ls ← on_layer_ dest_port_id (Layer.succeededTiming (curTick e) finish) (respLayers x);
               Ok (x <| respLayers := ls |>));
        Ok (true, pkt, count Snoops (count (TransDist pkt_cmd) (x <| routeTo ::= delete rq |>)))
  end.

(** The layers of the crossbar. *)
Inductive layer_id := ReqLayer (id : Z) | RespLayer (id : Z) | SnoopLayer (id : Z).
Definition layer_no (l : layer_id) : Z := match l with ReqLayer id | RespLayer id | SnoopLayer id => id end.
Definition get_layers (l : layer_id) (x : X) : list Layer.Layer :=
  match l with ReqLayer _ => reqLayers x | RespLayer _ => respLayers x | SnoopLayer _ => snoopLayers x end.
Definition set_layers (l : layer_id) (ls : list Layer.Layer) (x : X) : X :=
  match l with
  | ReqLayer _ => x <| reqLayers := ls |>
  | RespLayer _ => x <| respLayers := ls |>
  | SnoopLayer _ => x <| snoopLayers := ls |>
  end.

(** A retry up to the call of the port that is told, and from there on. *)
Definition retry_first (l : layer_id) (first : Layer.Layer -> outcome (option Z * Layer.Layer)) (x : X)
  : outcome (option Z * X) :=
  '(told, ls) ← on_layer (layer_no l) first (get_layers l x); Ok (told, set_layers l ls x).
Definition retry_last (e : Env) (l : layer_id) (told : option Z) (x : X) : outcome X :=
  ls ← on_layer_ (layer_no l) (Layer.after_retry (curTick e) (now e) told) (get_layers l x); Ok (set_layers l ls x).

(** [again p] is what the object at the source port [p] does when it is told to
    retry: as a rule it sends the packet again, through [recvTimingReq] with its
    routing and snoops, before the call returns. *)
Definition recvReqRetry (e : Env) (master_port_id : Z) (again : Z -> X -> outcome X) (x : X) : outcome X :=
  '(told, x) ← retry_first (ReqLayer master_port_id) Layer.recvRetry_first x;
  x ← match told with Some p => again p x | None => Ok x end;
  retry_last e (ReqLayer master_port_id) told x.

(** The release event of a layer runs. *)
Definition release (e : Env) (l : layer_id) (again : Z -> X -> outcome X) (x : X) : outcome X :=
  '(told, x) ← retry_first l (fun l => Layer.release_first (l <| Layer.releaseEvent := None |>)) x;
  x ← match told with Some p => again p x | None => Ok x end;
  retry_last e l told x.

Definition drain_all (ls : list Layer.Layer) : Z * list Layer.Layer :=
  (foldr Z.add 0 ((fun l => (Layer.drain l).1) <$> ls), (fun l => (Layer.drain l).2) <$> ls).

(** The number of layers the drain manager has to wait for. *)
Definition drain (x : X) : Z * X :=
  let '(a, req) := drain_all (reqLayers x) in
  let '(b, resp) := drain_all (respLayers x) in
  let '(c, snoop) := drain_all (snoopLayers x) in
  (a + b + c, x <| reqLayers := req |> <| respLayers := resp |> <| snoopLayers := snoop |>).

End timing.

(** ** Responses return to where the requests came from *)

(** What happened to the request objects, newest first: a request accepted from a
    slave port (with whether a response to it is due), a snoop from a master
    port, and the responses sent up or down. *)
Inductive event :=
  | Accepted (rq port : Z) (due : bool)
  | Snooped (rq port : Z)
  | Up (rq port : Z)
  | Down (rq port : Z).

Definition about (rq : Z) (v : event) : bool :=
  match v with Accepted r _ _ | Snooped r _ | Up r _ | Down r _ => r =? rq end.

Fixpoint last_about (rq : Z) (tr : list event) : option event :=
  match tr with
  | [] => None
  | v :: tr => if about rq v then Some v else last_about rq tr
  end.

Section routing.
Context {U : Type} `{SnoopPort U} {M : Type} `{TimingPort M}.
Local Abbreviation X := (CoherentXBar (U := U) (M := M)).
(** Objects above do not change the command of what they snoop. *)
Context (Hkeeps : forall pkt h (u : U) pkt' h' u', sendTimingSnoopReq pkt h u = Ok (pkt', h', u') -> Packet.cmd pkt' = Packet.cmd pkt).

(** Any interleaving of the handlers, with any surroundings; in a retry the calls
    that the retried port makes come between its two halves. A request object is
    in flight once; an object below responds to requests it was sent and that no
    cache has taken over, an object above to snoops for which it said it would. *)
Inductive reach : list event -> X -> Prop :=
  | reach_new x : routeTo x = ∅ -> outstandingSnoop x = ∅ -> reach [] x
  | reach_req tr x e us rq p pkt h ok pkt' h' x' :
      reach tr x -> routeTo x !! rq = None -> recvTimingReq e us rq p pkt h x = Ok (ok, pkt', h', x') ->
      reach (if ok && negb (Packet.isExpressSnoop pkt) then Accepted rq p (Packet.needsResponse pkt) :: tr else tr) x'
  | reach_snoop tr x e rq m pkt h pkt' h' x' :
      reach tr x -> routeTo x !! rq = None -> recvTimingSnoopReq e rq m pkt h x = Ok (pkt', h', x') ->
      reach (Snooped rq m :: tr) x'
  | reach_resp tr x e us rq m acc pkt pkt' x' q b p s :
      reach tr x -> last_about rq tr = Some (Accepted rq q b) -> rq ∉ outstandingSnoop x -> recvTimingResp e us rq m acc pkt x = Ok (true, pkt', x') ->
      out x' = ToAbove p s :: out x -> reach (Up rq p :: tr) x'
  | reach_snoop_resp tr x e us rq p acc pkt pkt' x' o :
      reach tr x -> (rq ∈ outstandingSnoop x \/ exists m, last_about rq tr = Some (Snooped rq m)) ->
      recvTimingSnoopResp e us rq p acc pkt x = Ok (true, pkt', x') -> out x' = o :: out x ->
      reach (match o with ToAbove p _ => Up rq p | ToBelow m _ => Down rq m end :: tr) x'
  | reach_refused tr x e us rq m acc pkt pkt' x' :
      reach tr x -> (recvTimingResp e us rq m acc pkt x = Ok (false, pkt', x') \/
                     recvTimingSnoopResp e us rq m acc pkt x = Ok (false, pkt', x')) -> reach tr x'
  | reach_retry_first tr x l first told x' : reach tr x -> retry_first l first x = Ok (told, x') -> reach tr x'
  | reach_retry_last tr x e l told x' : reach tr x -> retry_last e l told x = Ok x' -> reach tr x'.

(** A retry or a release is made of its two halves and, in between, whatever the
    port that is told calls. *)
Lemma retry_reach tr x e l first (again : Z -> X -> outcome X) x' :
  reach tr x -> (forall p y y', reach tr y -> again p y = Ok y' -> exists new, reach (new ++ tr) y') ->
  ('(told, x) ← retry_first l first x; x ← match told with Some p => again p x | None => Ok x end; retry_last e l told x) = Ok x' ->
  exists new, reach (new ++ tr) x'.
Proof.
  intros Hr Ha E. apply bind_ok in E as ([told x1] & E1 & E). apply bind_ok in E as (x2 & E2 & E3).
  pose proof (reach_retry_first _ _ _ _ _ _ Hr E1) as Hr1. destruct told as [p|].
  - destruct (Ha p x1 x2 Hr1 E2) as (new & Hr2). exists new. by eapply reach_retry_last.
  - injection E2 as <-. exists []. by eapply reach_retry_last.
Qed.

(** The routing tables. *)
Definition tables (x : X) : gmap Z Z * gset Z * list sent := (routeTo x, outstandingSnoop x, out x).

Lemma forward_timing_tables exclude dests : forall pkt h fan (x : X) pkt' h' fan' x',
  forward_timing exclude dests pkt h fan x = Ok (pkt', h', fan', x') -> tables x' = tables x /\ Packet.cmd pkt' = Packet.cmd pkt.
Proof.
  induction dests as [|p dests IH]; intros pkt h fan x pkt' h' fan' x' E; cbn [forward_timing] in E; [by injection E as <- _ _ <-|].
  destruct (_ || _); [|by apply IH in E]. apply bind_ok in E as (u & _ & E). apply bind_ok in E as ([[pkt1 h1] u1] & Es & E).
  apply IH in E as [E1 E2]. apply Hkeeps in Es. split; [done|congruence].
Qed.

Lemma forwardTiming_tables e pkt exclude dests h (x : X) pkt' h' x' :
  forwardTiming e pkt exclude dests h x = Ok (pkt', h', x') -> tables x' = tables x /\ Packet.cmd pkt' = Packet.cmd pkt.
Proof.
  unfold forwardTiming. intros E. apply bind_ok in E as ([] & _ & E). apply bind_ok in E as ([[[pkt1 h1] fan] x1] & Es & [= <- <- <-]).
  by apply forward_timing_tables in Es.
Qed.

Lemma timing_snoops_tables e p pkt h (x : X) pkt' lat h' x' :
  timing_snoops e p pkt h x = Ok (pkt', lat, h', x') -> tables x' = tables x /\ Packet.cmd pkt' = Packet.cmd pkt.
Proof.
  unfold timing_snoops. destruct (snoopFilter x) as [f|]; intros E.
  - apply bind_ok in E as ([[ports l] f'] & _ & E). apply bind_ok in E as ([[pkt1 h1] x1] & Es & [= <- _ <- <-]).
    by apply forwardTiming_tables in Es.
  - apply bind_ok in E as ([[pkt1 h1] x1] & Es & [= <- _ <- <-]). by apply forwardTiming_tables in Es.
Qed.
Lemma request_sent_tables e rq p m finish es er (x x' : X) :
  request_sent e rq p m finish es er x = Ok x' ->
  out x' = out x /\ routeTo x' = (if er || es then <[rq := p]> (routeTo x) else routeTo x) /\
  outstandingSnoop x' = if es then {[rq]} ∪ outstandingSnoop x else outstandingSnoop x.
Proof.
  unfold request_sent. intros E. apply bind_ok in E as (x1 & E1 & E). apply bind_ok in E as (x2 & E2 & E). apply bind_ok in E as (ls & _ & [= <-]).
  assert (out x1 = out x /\ routeTo x1 = routeTo x /\ outstandingSnoop x1 = if es then {[rq]} ∪ outstandingSnoop x else outstandingSnoop x) as (A1 & A2 & A3).
  { destruct es; [|by injection E1 as <-]. apply bind_ok in E1 as ([] & _ & E1). apply bind_ok in E1 as ([] & _ & [= <-]). done. }
  assert (out x2 = out x1 /\ outstandingSnoop x2 = outstandingSnoop x1 /\
    routeTo x2 = if er || es then <[rq := p]> (routeTo x1) else routeTo x1) as (B1 & B2 & B3).
  { destruct (er || es); [|by injection E2 as <-]. apply bind_ok in E2 as ([] & _ & E2). apply bind_ok in E2 as ([] & _ & [= <-]). done. }
  simpl. rewrite B1, B2, B3, A1, A2, A3. done.
Qed.

(** After a request, of which a response is due or not. *)
Definition entered (rq p : Z) (due : bool) (x x' : X) : Prop :=
  out x' = out x /\ exists route snoop : bool, (due = true -> route = true) /\ (snoop = true -> route = true) /\
    routeTo x' = (if route then <[rq := p]> (routeTo x) else routeTo x) /\
    outstandingSnoop x' = if snoop then {[rq]} ∪ outstandingSnoop x else outstandingSnoop x.

Lemma recvTimingReq_tables e us rq p pkt h (x : X) ok pkt' h' x' :
  recvTimingReq e us rq p pkt h x = Ok (ok, pkt', h', x') ->
  if ok && negb (Packet.isExpressSnoop pkt) then entered rq p (Packet.needsResponse pkt) x x' else tables x' = tables x.
Proof.
  unfold recvTimingReq. intros E. apply bind_ok in E as ([] & Hin%ensure_ok%bool_decide_eq_true & E). apply bind_ok in E as (a & _ & E).
  apply bind_ok in E as ([m xb] & _ & E). apply bind_ok in E as ([free ls] & _ & E). destruct free; [|by injection E as <- _ _ <-].
  cbn [negb] in E. apply bind_ok in E as (z & _ & E). apply bind_ok in E as (pkt1 & Ecalc & E).
  assert (Packet.cmd pkt1 = Packet.cmd pkt) as Ec1.
  { unfold calcPacketTiming in Ecalc. apply bind_ok in Ecalc as ([] & _ & Ecalc). destruct (Packet.hasData _); [|by injection Ecalc as <-].
    apply bind_ok in Ecalc as (sz & _ & [= <-]). done. }
  apply bind_ok in E as ([[[pkt2 lookup] h2] x2] & Esn & E).
  assert (tables x2 = tables x /\ Packet.cmd pkt2 = Packet.cmd pkt) as [T2 Ec2].
  { destruct (bypassCaches e); cbn [negb] in Esn; [by injection Esn as <- _ _ <-|]. apply timing_snoops_tables in Esn as [T C]. split; [exact T|congruence]. }
  apply bind_ok in E as (mm & _ & E). apply bind_ok in E as ([[[success pkt3] h3] m3] & _ & E). apply bind_ok in E as (f & _ & E).
  injection T2 as R2 O2 S2. destruct success; cbn [negb] in E.
  - apply bind_ok in E as (x4 & E4 & [= <- _ _ <-]). cbn [andb]. destruct (Packet.isExpressSnoop pkt) eqn:Ex; cbn [negb] in E4 |- *.
    + injection E4 as <-. unfold tables. simpl. by rewrite R2, O2, S2.
    + apply request_sent_tables in E4 as (A1 & A2 & A3). simpl in A1, A2, A3. rewrite <- Hin in A2, A3. cbn [negb andb] in A2, A3.
      split; [simpl; congruence|]. exists (Packet.needsResponse pkt2 && negb (Packet.memInhibitAsserted pkt2) || Packet.memInhibitAsserted pkt2),
        (Packet.memInhibitAsserted pkt2). simpl. rewrite A2, A3, R2, O2. unfold Packet.needsResponse. rewrite Ec2.
      split_and!; try done; [|intros ->; apply orb_true_r]. intros ->. by destruct (Packet.memInhibitAsserted pkt2).
  - apply bind_ok in E as ([] & _ & E). apply bind_ok in E as ([] & _ & E). apply bind_ok in E as (ls' & _ & [= <- _ _ <-]).
    unfold tables. simpl. by rewrite R2, O2, S2.
Qed.

Lemma recvTimingSnoopReq_tables e rq m pkt h (x : X) pkt' h' x' :
  recvTimingSnoopReq e rq m pkt h x = Ok (pkt', h', x') ->
  out x' = out x /\ outstandingSnoop x' = outstandingSnoop x /\ (routeTo x' = routeTo x \/ routeTo x' = <[rq := m]> (routeTo x)).
Proof.
  unfold recvTimingSnoopReq. intros E. apply bind_ok in E as ([] & _ & E). apply bind_ok in E as ([[pkt1 h1] x1] & E1 & E).
  apply bind_ok in E as (x2 & E2 & E). apply bind_ok in E as (a & _ & E). apply bind_ok in E as ([id xb] & _ & E).
  apply bind_ok in E as ([] & _ & [= _ _ <-]).
  assert (tables x1 = tables x) as [= R1 O1 S1].
  { destruct (snoopFilter _) as [f|]; [apply bind_ok in E1 as ([[ports l] f'] & _ & E1)|]; by apply forwardTiming_tables in E1 as [T _]. }
  simpl. destruct (_ && _); [|injection E2 as <-; rewrite R1, O1, S1; auto].
  apply bind_ok in E2 as ([] & _ & [= <-]). simpl. rewrite R1, O1, S1. auto.
Qed.

Lemma recvTimingResp_tables e us rq m acc pkt (x : X) ok pkt' x' :
  recvTimingResp e us rq m acc pkt x = Ok (ok, pkt', x') ->
  outstandingSnoop x' = outstandingSnoop x /\
  if ok : bool then exists p s, routeTo x !! rq = Some p /\ out x' = ToAbove p s :: out x /\ routeTo x' = delete rq (routeTo x)
  else routeTo x' = routeTo x.
Proof.
  unfold recvTimingResp. destruct (routeTo x !! rq) as [p|] eqn:Er; [|done]. intros E.
  apply bind_ok in E as ([] & _ & E). apply bind_ok in E as ([] & _ & E). apply bind_ok in E as ([free ls] & _ & E).
  destruct free; cbn [negb] in E; [|by injection E as <- _ <-]. apply bind_ok in E as (z & _ & E). apply bind_ok in E as (pkt1 & _ & E).
  apply bind_ok in E as (f & _ & E). apply bind_ok in E as ([] & _ & E). apply bind_ok in E as (ls' & _ & [= <- _ <-]).
  split; [done|]. eexists p, _. by split_and!.
Qed.

Lemma recvTimingSnoopResp_tables e us rq p acc pkt (x : X) ok pkt' x' :
  recvTimingSnoopResp e us rq p acc pkt x = Ok (ok, pkt', x') ->
  if ok : bool then exists q s, routeTo x !! rq = Some q /\ routeTo x' = delete rq (routeTo x) /\
    outstandingSnoop x' = outstandingSnoop x ∖ {[rq]} /\
    out x' = (if bool_decide (rq ∈ outstandingSnoop x) then ToAbove q s else ToBelow q s) :: out x
  else routeTo x' = routeTo x /\ outstandingSnoop x' = outstandingSnoop x.
Proof.
  unfold recvTimingSnoopResp. destruct (routeTo x !! rq) as [q|] eqn:Er; [|done]. intros E.
  apply bind_ok in E as ([] & _ & E). apply bind_ok in E as ([] & _ & E). apply bind_ok in E as ([free ls] & _ & E).
  destruct free; cbn [negb] in E; [|destruct (negb _); by injection E as <- _ <-]. apply bind_ok in E as (z & _ & E).
  apply bind_ok in E as ([] & _ & E). apply bind_ok in E as (pkt1 & _ & E). apply bind_ok in E as (x2 & E2 & [= <- _ <-]).
  destruct (bool_decide_reflect (rq ∈ outstandingSnoop x)) as [Hin|Hin]; cbn [negb] in E2.
  - apply bind_ok in E2 as ([] & _ & E2). apply bind_ok in E2 as (f & _ & E2). apply bind_ok in E2 as ([] & _ & E2).
    apply bind_ok in E2 as (ls' & _ & [= <-]). simpl. eauto 10.
  - apply bind_ok in E2 as (f & _ & E2). apply bind_ok in E2 as ([] & _ & E2). apply bind_ok in E2 as (ls' & _ & [= <-]). simpl.
    eexists q, _. split_and!; try done. set_solver.
Qed.
(** Every response follows the request or snoop it answers, with no other
    response to it in between, and goes to the port that came from. *)
Fixpoint proper (tr : list event) : Prop :=
  match tr with
  | [] => True
  | v :: tr =>
      proper tr /\
      match v with
      | Up rq p => exists due, last_about rq tr = Some (Accepted rq p due)
      | Down rq m => last_about rq tr = Some (Snooped rq m)
      | _ => True
      end
  end.

Record routed (tr : list event) (x : X) : Prop := {
  ro_route rq p : routeTo x !! rq = Some p ->
    (exists b, last_about rq tr = Some (Accepted rq p b)) \/ last_about rq tr = Some (Snooped rq p);
  ro_snoop rq : rq ∈ outstandingSnoop x -> exists p b, last_about rq tr = Some (Accepted rq p b) /\ routeTo x !! rq = Some p;
  ro_due rq p : last_about rq tr = Some (Accepted rq p true) -> routeTo x !! rq = Some p;
}.

Lemma routed_same tr x x' : routed tr x -> routeTo x' = routeTo x -> outstandingSnoop x' = outstandingSnoop x -> routed tr x'.
Proof. intros [R1 R2 R3] E1 E2. split; rewrite ?E1, ?E2; done. Qed.

Lemma last_about_hd rq v tr : about rq v = true -> last_about rq (v :: tr) = Some v.
Proof. intros E. simpl. by rewrite E. Qed.
Lemma last_about_tl rq v tr : about rq v = false -> last_about rq (v :: tr) = last_about rq tr.
Proof. intros E. simpl. by rewrite E. Qed.

Lemma routed_accepted tr x x' rq p due :
  routed tr x -> routeTo x !! rq = None -> entered rq p due x x' -> routed (Accepted rq p due :: tr) x'.
Proof.
  intros [R1 R2 R3] Hn (_ & route & snoop & Hd & Hs & E1 & E2).
  assert (rq ∉ outstandingSnoop x) as Hns by (intros Hin; destruct (R2 rq Hin) as (? & ? & _ & E); congruence).
  assert (forall rq', rq' <> rq -> routeTo x' !! rq' = routeTo x !! rq' /\ (rq' ∈ outstandingSnoop x' <-> rq' ∈ outstandingSnoop x) /\
    last_about rq' (Accepted rq p due :: tr) = last_about rq' tr) as Hoth.
  { intros rq' Hne. rewrite E1, E2. split_and!; [destruct route; [by rewrite lookup_insert_ne|done]|destruct snoop; set_solver|].
    apply last_about_tl. apply Z.eqb_neq. congruence. }
  assert (last_about rq (Accepted rq p due :: tr) = Some (Accepted rq p due)) as Hself by (apply last_about_hd, Z.eqb_refl).
  assert (route = true -> routeTo x' !! rq = Some p) as Hrt by (intros Ht; rewrite E1, Ht; apply lookup_insert_eq).
  split; intros rq'; destruct (decide (rq' = rq)) as [->|Hne]; try (destruct (Hoth rq' Hne) as (-> & Ho & ->)).
  - intros p'. rewrite E1. destruct route; [rewrite lookup_insert_eq; intros [= <-]; left; by exists due|congruence].
  - apply R1.
  - rewrite E2. intros Hin. destruct snoop; [|done]. exists p, due. auto.
  - rewrite Ho. apply R2.
  - intros p'. rewrite Hself. intros [= <- ->]. auto.
  - apply R3.
Qed.

Lemma routed_snooped tr x x' rq m :
  routed tr x -> routeTo x !! rq = None -> outstandingSnoop x' = outstandingSnoop x ->
  (routeTo x' = routeTo x \/ routeTo x' = <[rq := m]> (routeTo x)) -> routed (Snooped rq m :: tr) x'.
Proof.
  intros [R1 R2 R3] Hn E2 E1.
  assert (rq ∉ outstandingSnoop x) as Hns by (intros Hin; destruct (R2 rq Hin) as (? & ? & _ & E); congruence).
  assert (forall rq', rq' <> rq -> routeTo x' !! rq' = routeTo x !! rq' /\ last_about rq' (Snooped rq m :: tr) = last_about rq' tr) as Hoth.
  { intros rq' Hne. split; [destruct E1 as [-> | ->]; [done|by rewrite lookup_insert_ne]|]. apply last_about_tl. apply Z.eqb_neq. congruence. }
  assert (last_about rq (Snooped rq m :: tr) = Some (Snooped rq m)) as Hself by (apply last_about_hd, Z.eqb_refl).
  split; intros rq'; destruct (decide (rq' = rq)) as [->|Hne]; try (destruct (Hoth rq' Hne) as (-> & ->)); rewrite ?E2.
  - intros p' Hp. right. rewrite Hself. destruct E1 as [E1|E1]; rewrite E1 in Hp; [congruence|]. rewrite lookup_insert_eq in Hp. congruence.
  - apply R1.
  - done.
  - apply R2.
  - intros p'. by rewrite Hself.
  - apply R3.
Qed.

Lemma routed_answered tr x x' rq v :
  routed tr x -> about rq v = true -> (forall rq', rq' <> rq -> about rq' v = false) ->
  (match v with Up _ _ | Down _ _ => True | _ => False end) ->
  routeTo x' = delete rq (routeTo x) -> (forall rq', rq' ∈ outstandingSnoop x' -> rq' ∈ outstandingSnoop x /\ rq' <> rq) ->
  routed (v :: tr) x'.
Proof.
  intros [R1 R2 R3] Hv Hv' Hk E1 E2. split; intros rq'; destruct (decide (rq' = rq)) as [->|Hne].
  - intros p. rewrite E1, lookup_delete_eq. done.
  - rewrite E1, lookup_delete_ne, last_about_tl by (done || by apply Hv'). apply R1.
  - intros Hin. by destruct (E2 rq Hin).
  - intros Hin. rewrite E1, lookup_delete_ne, last_about_tl by (done || by apply Hv'). apply R2. by apply E2.
  - intros p. rewrite last_about_hd by done. intros [= ->]. done.
  - rewrite E1, lookup_delete_ne, last_about_tl by (done || by apply Hv'). apply R3.
Qed.
Lemma reach_routed tr x : reach tr x -> proper tr /\ routed tr x.
Proof.
  induction 1 as [x E1 E2|tr x e us rq p pkt h ok pkt' h' x' _ [IP IR] Hn E|tr x e rq m pkt h pkt' h' x' _ [IP IR] Hn E
    |tr x e us rq m acc pkt pkt' x' q b p s _ [IP IR] Hl Hno E Eo|tr x e us rq p acc pkt pkt' x' o _ [IP IR] Hs E Eo
    |tr x e us rq m acc pkt pkt' x' _ [IP IR] E|tr x l first told x' _ [IP IR] E|tr x e l told x' _ [IP IR] E].
  - split; [done|]. split; intros rq; rewrite ?E1, ?E2; [intros p; by rewrite lookup_empty|set_solver|done].
  - apply recvTimingReq_tables in E. destruct (ok && _).
    + split; [by split|]. by apply (routed_accepted tr x).
    + injection E as E1 E2 _. split; [done|]. by apply (routed_same tr x).
  - apply recvTimingSnoopReq_tables in E as (_ & E2 & E1). split; [by split|]. by apply (routed_snooped tr x).
  - apply recvTimingResp_tables in E as (E2 & p' & s' & Hp & Eo' & E1). rewrite Eo' in Eo. injection Eo as -> _.
    destruct (ro_route _ _ IR rq p Hp) as [(b' & Hl')|Hl']; [|congruence]. split; [split; [done|eauto]|].
    apply (routed_answered tr x x' rq); try done; [apply Z.eqb_refl|intros rq' Hne; apply Z.eqb_neq; congruence|].
    rewrite E2. intros rq' Hin. split; [done|]. by intros ->.
  - apply recvTimingSnoopResp_tables in E as (q & s & Hq & E1 & E2 & Eo'). rewrite Eo' in Eo. injection Eo as <-.
    assert (forall rq', rq' ∈ outstandingSnoop x' -> rq' ∈ outstandingSnoop x /\ rq' <> rq) as Hos by (rewrite E2; set_solver).
    destruct (bool_decide_reflect (rq ∈ outstandingSnoop x)) as [Hin|Hin].
    + destruct (ro_snoop _ _ IR rq Hin) as (p' & b & Hl & Hp'). assert (p' = q) as -> by congruence. split; [split; [done|eauto]|].
      apply (routed_answered tr x x' rq); try done; [apply Z.eqb_refl|intros rq' Hne; apply Z.eqb_neq; congruence].
    + destruct Hs as [?|(m & Hl)]; [done|]. destruct (ro_route _ _ IR rq q Hq) as [(b & Hl')|Hl']; [congruence|]. split; [by split|].
      apply (routed_answered tr x x' rq); try done; [apply Z.eqb_refl|intros rq' Hne; apply Z.eqb_neq; congruence].
  - split; [done|]. destruct E as [E|E].
    + apply recvTimingResp_tables in E as (E2 & E1). by apply (routed_same tr x).
    + apply recvTimingSnoopResp_tables in E as (E1 & E2). by apply (routed_same tr x).
  - split; [done|]. apply bind_ok in E as ([t ls] & _ & [= _ <-]). by destruct l; apply (routed_same tr x).
  - split; [done|]. apply bind_ok in E as (ls & _ & [= <-]). by destruct l; apply (routed_same tr x).
Qed.

(** C8: in timing mode the crossbar returns every response to where its request came
    from: however requests, snoops, responses, refusals and retries interleave, also
    when a port that is told to retry sends again from within that call, each
    response it sends up goes to the slave port of the request it answers, each
    snoop response it sends down to the master port of the snoop, and none is sent
    twice; and while a response is due the crossbar knows the port. *)
Theorem responses_return_to_requester tr x :
  reach tr x ->
  proper tr /\ forall rq p, last_about rq tr = Some (Accepted rq p true) -> routeTo x !! rq = Some p.
Proof. intros Hr. apply reach_routed in Hr as [IP IR]. split; [done|]. apply (ro_due _ _ IR). Qed.
End routing.

(** Caches do not change the command of what they snoop. *)
Section caches.
Context {G : Type} `{Generator G} {U : Type} `{SnoopPort U}.
Local Abbreviation Issue := (CacheIssue.Issue (G := G)).

Lemma inhibit_cmd p p' : Packet.assertMemInhibit p = Ok p' -> Packet.cmd p' = Packet.cmd p.
Proof. unfold Packet.assertMemInhibit. intros E. CacheConserve.CacheConserve.walk; done. Qed.

Lemma mshr_snoop_cmd ct fr id pkt o h r pkt' h' :
  MSHR.handleSnoop ct fr id pkt o h = Ok (r, pkt', h') -> Packet.cmd pkt' = Packet.cmd pkt.
Proof.
  unfold MSHR.handleSnoop. intros E.
  CacheConserve.CacheConserve.walk; try done;
    repeat match goal with Hi : Packet.assertMemInhibit _ = Ok _ |- _ => apply inhibit_cmd in Hi; simpl in Hi end; simpl; congruence.
Qed.

Lemma forward_snoop_cmd e pkt (s : Issue) (u : U) pkt' s' u' :
  forward_snoop e true pkt s u = Ok (pkt', s', u') -> Packet.cmd pkt' = Packet.cmd pkt.
Proof.
  unfold forward_snoop. intros E. apply bind_ok in E as (sp & _ & E). apply bind_ok in E as ([[sp' h] u1] & _ & E).
  apply bind_ok in E as (p1 & E1 & [= <- _ _]).
  assert (Packet.cmd p1 = Packet.cmd pkt) as <-.
  { destruct (Packet.memInhibitAsserted sp'); apply bind_ok in E1 as (x & _ & E1); [by apply inhibit_cmd in E1|by injection E1 as <-]. }
  destruct (Packet.sharedAsserted sp'), (Packet.isBlockCached sp'); done.
Qed.

Lemma snoop_block_cmd e d pi inv ne pkt r (s : Issue) pkt' s' :
  snoop_block e true d pi inv ne pkt r s = Ok (pkt', s') -> Packet.cmd pkt' = Packet.cmd pkt.
Proof.
  unfold snoop_block. intros E. apply bind_ok in E as (b & _ & E). cbv zeta in E.
  destruct (decide (Packet.cmd pkt = MemCmd.HardPFReq)); [by injection E as <- _|]. apply bind_ok in E as ([p1 s1] & E1 & E).
  apply bind_ok in E as ([p2 s2] & E2 & E). apply bind_ok in E as ([] & _ & E).
  assert (Packet.cmd p1 = Packet.cmd pkt) as <-.
  { match type of E1 with (if ?c then _ else _) = _ => destruct c end; [apply bind_ok in E1 as ([] & _ & [= <- _])|injection E1 as <- _]; done. }
  assert (Packet.cmd p2 = Packet.cmd p1) as <-.
  { match type of E2 with (if ?c then _ else _) = _ => destruct c end; [|by injection E2 as <- _].
    apply bind_ok in E2 as (p3 & E3%inhibit_cmd & E2). apply bind_ok in E2 as (s3 & _ & [= <- _]).
    by destruct (Blk.isWritable b). }
  destruct inv; [apply bind_ok in E as (c & _ & [= <- _])|injection E as <- _]; done.
Qed.

Lemma handleSnoop_cmd e pkt blk d pi (s : Issue) (u : U) pkt' s' u' :
  handleSnoop e pkt blk true d pi s u = Ok (pkt', s', u') -> Packet.cmd pkt' = Packet.cmd pkt.
Proof.
  unfold handleSnoop. intros E. do 3 apply bind_ok in E as ([] & _ & E). apply bind_ok in E as ([[p1 s1] u1] & E1 & E).
  assert (Packet.cmd p1 = Packet.cmd pkt) as <-.
  { destruct (CacheIssue.forwardSnoops _); [by apply forward_snoop_cmd in E1|by injection E1 as <- _ _]. }
  destruct blk as [r|]; [|by injection E as <- _ _]. apply bind_ok in E as (b & _ & E). destruct (negb _); [by injection E as <- _ _|].
  apply bind_ok in E as ([p2 s2] & E2 & [= <- _ _]). by apply snoop_block_cmd in E2.
Qed.

Lemma snoop_writeback_cmd e id pkt (s : Issue) pkt' s' : snoop_writeback e id pkt s = Ok (pkt', s') -> Packet.cmd pkt' = Packet.cmd pkt.
Proof.
  unfold snoop_writeback. intros E. apply bind_ok in E as (m & _ & E). do 2 apply bind_ok in E as ([] & _ & E).
  apply bind_ok in E as (t & _ & E). do 2 apply bind_ok in E as ([] & _ & E). apply bind_ok in E as (p1 & E1%inhibit_cmd & E).
  apply bind_ok in E as ([p2 wb] & E2 & E). apply bind_ok in E as (d & _ & E). apply bind_ok in E as (s1 & _ & E).
  apply bind_ok in E as (s2 & _ & [= <- _]). rewrite <- E1.
  destruct (negb _); [by injection E2 as <- _|]. apply bind_ok in E2 as ([] & _ & [= <- _]). done.
Qed.

Lemma caches_keep_command (e : Env) pkt h (u : Issue * U) pkt' h' u' :
  sendTimingSnoopReq (SnoopPort := cache_above e) pkt h u = Ok (pkt', h', u') -> Packet.cmd pkt' = Packet.cmd pkt.
Proof.
  simpl. intros E. apply bind_ok in E as ([[p1 s1] u1] & E & [= <- _ _]). unfold CacheSnoop.recvTimingSnoopReq in E.
  apply bind_ok in E as ([] & _ & E). destruct (decide _); [by injection E as <- _ _|]. apply bind_ok in E as (a & _ & E).
  destruct (negb _); [by injection E as <- _ _|]. apply bind_ok in E as (sec & _ & E). apply bind_ok in E as (blk & _ & E).
  apply bind_ok in E as (mshr & _ & E). destruct (_ && _); [by injection E as <- _ _|]. apply bind_ok in E as ([[d p2] s2] & E2 & E).
  assert (Packet.cmd p2 = Packet.cmd pkt) as <-.
  { destruct mshr as [id|]; [|by injection E2 as _ <- _]. apply bind_ok in E2 as ([[d' p3] h3] & E3 & [= _ <- _]). by apply mshr_snoop_cmd in E3. }
  destruct d; [by injection E as <- _ _|]. apply bind_ok in E as ([found wbs] & _ & E). apply bind_ok in E as ([p3 s3] & E3 & E).
  apply handleSnoop_cmd in E. rewrite E. destruct found; [|by injection E3 as <- _]. destruct wbs as [|id [|]]; try done. by apply snoop_writeback_cmd in E3.
Qed.
End caches.

(** Two masters above one memory that accepts everything: the second read finds the
    layer occupied and is sent again when its release tells the port to retry, and
    the responses come back in the other order. *)
Definition acceptor : TimingPort () := fun pkt h m => Ok (true, pkt, h, m).
Definition example_at (t : Z) : Env := MkEnv true false 10 t t (fun n => replicate (Z.to_nat n) 0).
Definition example_start : CoherentXBar (U := ()) (M := ()) :=
  (CoherentXBar_new 1 1 1 16 1 1 false false None [(); ()] [()]) <| xbar := report 0 [AddrRange.AddrRange_plain 0 63] (BaseXBar_new 1 1 1 16 1 false false) |>.
Definition example_read (a : Z) : Packet.Packet :=
  Packet.MkPacket (Z.lor Packet.VALID_ADDR Packet.VALID_SIZE) MemCmd.ReadReq Request.Request0 None a false 8 MemCmd.InvalidCmd [] 0 0 [].
Definition step {A} (o : outcome A) (d : A) : A := match o with Ok a => a | Fail _ => d end.
Definition example_s1 := step ('(_, _, _, x) ← recvTimingReq (H0 := acceptor) (example_at 10) 100 7 1 (example_read 8) [] example_start; Ok x) example_start.
Definition example_send (t p : Z) (x : CoherentXBar (U := ()) (M := ())) :=
  '(_, _, _, x) ← recvTimingReq (H0 := acceptor) (example_at t) 100 9 p (example_read 16) [] x; Ok x.
Definition example_s2 := step (example_send 20 0 example_s1) example_s1.
Definition example_s3 := step (release (example_at 40) (ReqLayer 0) (example_send 40) example_s2) example_s2.
Definition example_response (a : Z) : Packet.Packet := (example_read a) <| Packet.cmd := MemCmd.ReadResp |>.
Definition example_s4 := step ('(_, _, x) ← recvTimingResp (example_at 50) 100 9 0 true (example_response 16) example_s3; Ok x) example_s3.
Definition example_s5 := step ('(_, _, x) ← recvTimingResp (example_at 60) 100 7 0 true (example_response 8) example_s4; Ok x) example_s4.
Definition example_trace : list event := [Up 7 1; Up 9 0; Accepted 9 0 true; Accepted 7 1 true].

Lemma responses_return_to_requester_witness :
  proper example_trace /\ routeTo example_s3 !! 7 = Some 1 /\ routeTo example_s3 !! 9 = Some 0.
Proof.
  assert (forall pkt h u pkt' h' u', sendTimingSnoopReq (SnoopPort := no_snoopers) pkt h u = Ok (pkt', h', u') -> Packet.cmd pkt' = Packet.cmd pkt) as Hk
    by (intros pkt h u pkt' h' u' [= <- _ _]; reflexivity).
  assert (reach (H0 := acceptor) (drop 2 example_trace) example_s3) as R3.
  { assert (reach (H0 := acceptor) (drop 3 example_trace) example_s1) as R1.
    { eapply (reach_req (H0 := acceptor) [] example_start (example_at 10) 100 7 1 (example_read 8) [] true); [|vm_compute; reflexivity|vm_compute; reflexivity].
      apply reach_new; reflexivity. }
    assert (reach (H0 := acceptor) (drop 3 example_trace) example_s2) as R2.
    { eapply (reach_req (H0 := acceptor) (drop 3 example_trace) example_s1 (example_at 20) 100 9 0 (example_read 16) [] false); [exact R1|vm_compute; reflexivity|vm_compute; reflexivity]. }
    eapply (reach_retry_first (H0 := acceptor) _ _ (ReqLayer 0) (fun l => Layer.release_first (l <| Layer.releaseEvent := None |>))) in R2; [|vm_compute; reflexivity].
    eapply (reach_req (H0 := acceptor) _ _ (example_at 40) 100 9 0 (example_read 16) [] true) in R2; [|vm_compute; reflexivity|vm_compute; reflexivity].
    eapply (reach_retry_last (H0 := acceptor) _ _ (example_at 40) (ReqLayer 0) (Some 0)) in R2; [exact R2|vm_compute; reflexivity]. }
  assert (reach (H0 := acceptor) example_trace example_s5) as R5.
  { assert (reach (H0 := acceptor) (drop 1 example_trace) example_s4) as R4.
    { eapply (reach_resp (H0 := acceptor) (drop 2 example_trace) example_s3 (example_at 50) 100 9 0 true (example_response 16));
        [exact R3|vm_compute; reflexivity|vm_compute; congruence|vm_compute; reflexivity|vm_compute; reflexivity]. }
    eapply (reach_resp (H0 := acceptor) (drop 1 example_trace) example_s4 (example_at 60) 100 7 0 true (example_response 8));
      [exact R4|vm_compute; reflexivity|vm_compute; congruence|vm_compute; reflexivity|vm_compute; reflexivity]. }
  destruct (responses_return_to_requester (H0 := acceptor) Hk (drop 2 example_trace) example_s3 R3) as [_ Hd].
  destruct (responses_return_to_requester (H0 := acceptor) Hk example_trace example_s5 R5) as [Hp _].
  split; [exact Hp|]. split; apply Hd; reflexivity.
Defined.

End CoherentXBar.
