(* ===== verification/CoherentCache.v ===== *)
(** What a cache that is one of several holds: for each line whether it is there,
    writable and dirty. The lemmas say how the operations of the cache (lookup,
    read, write, fill, upgrade, drop and snoop, of mem/cache/cache_impl.hh) change
    these states; the bytes of every block are those of one memory [F]. *)

From S2P Require Import Prelude IntMath AddrRange Request MemCmd Packet Functional PacketQueue CachePort.
From S2P Require Import Blk CacheSet BaseSetAssoc LRU BasePrefetcher QueuedPrefetcher MSHR MSHRQueue.
From S2P Require Import AbstractMemory AtomicPort SimpleMemory Cache CacheIssue CacheAtomic CacheSnoop.
Import AbstractMemory Cache CacheAtomic.
Local Open Scope Z_scope.

Module CoherentCache.

(** The state of a line: [None] when it is not there, otherwise whether it is
    writable and whether it is dirty. *)
Definition lstate : Type := option (bool * bool).

Definition dirty (st : lstate) : bool := match st with Some (_, d) => d | None => false end.
Definition held (st : lstate) : bool := match st with Some _ => true | None => false end.
Definition writable (st : lstate) : bool := match st with Some (w, _) => w | None => false end.

Definition upd (V : Z -> lstate) (L : Z) (st : lstate) : Z -> lstate :=
  fun L' => if decide (L' = L) then st else V L'.

Lemma upd_eq V L st : upd V L st L = st.
Proof. unfold upd. by rewrite decide_True. Qed.
Lemma upd_ne V L L' st : L' <> L -> upd V L st L' = V L'.
Proof. intros ?. unfold upd. by rewrite decide_False. Qed.

(** ** Status bits *)

(** A block is writable or readable when the bit and the valid bit are set. *)
Lemma both_bits st i j : 0 <= i -> 0 <= j -> i <> j ->
  (Z.land st (Z.lor (2 ^ i) (2 ^ j)) =? Z.lor (2 ^ i) (2 ^ j)) = Z.testbit st i && Z.testbit st j.
Proof.
  intros Hi Hj Hij. destruct (Z.eqb_spec (Z.land st (Z.lor (2 ^ i) (2 ^ j))) (Z.lor (2 ^ i) (2 ^ j))) as [E|E].
  - pose proof (f_equal (fun z => Z.testbit z i) E) as Ei. pose proof (f_equal (fun z => Z.testbit z j) E) as Ej.
    simpl in Ei, Ej. rewrite Z.land_spec, Z.lor_spec, Z.pow2_bits_true in Ei by done.
    rewrite Z.land_spec, Z.lor_spec, (Z.pow2_bits_true j), orb_true_r in Ej by done.
    rewrite orb_true_l, andb_true_r in Ei. rewrite andb_true_r in Ej. by rewrite Ei, Ej.
  - destruct (Z.testbit st i) eqn:Ei, (Z.testbit st j) eqn:Ej; try done. exfalso. apply E.
    apply Z.bits_inj'. intros n Hn. rewrite Z.land_spec, Z.lor_spec, !Z.pow2_bits_eqb by done.
    destruct (Z.eqb_spec i n) as [->|]; [by rewrite Ei|]. destruct (Z.eqb_spec j n) as [->|]; [by rewrite Ej|].
    apply andb_false_r.
Qed.

Lemma status_bits b :
  Blk.isWritable b = Z.testbit (Blk.status b) 1 && Z.testbit (Blk.status b) 0 /\
  Blk.isReadable b = Z.testbit (Blk.status b) 2 && Z.testbit (Blk.status b) 0 /\
  Blk.isValid b = Z.testbit (Blk.status b) 0 /\ Blk.isDirty b = Z.testbit (Blk.status b) 3 /\
  Blk.isSecure b = Z.testbit (Blk.status b) 6.
Proof.
  unfold Blk.isWritable, Blk.isReadable, Blk.isValid, Blk.isDirty, Blk.isSecure.
  change Blk.BlkValid with (2 ^ 0). change Blk.BlkDirty with (2 ^ 3). change Blk.BlkSecure with (2 ^ 6).
  rewrite !any_set_pow2 by lia. split_and!; [by apply (both_bits _ 1 0)|by apply (both_bits _ 2 0)|done..].
Qed.

(** A status bit is cleared. *)
Lemma clear_status_bit st j : 0 <= j < 7 -> forall i, 0 <= i < 7 ->
  Z.testbit (Z.land st (unot 32 (2 ^ j))) i = if decide (i = j) then false else Z.testbit st i.
Proof.
  intros Hj i Hi. rewrite Z.land_spec. unfold unot. rewrite Z.ldiff_spec, Z.ones_spec_low, Z.pow2_bits_eqb by lia.
  destruct (decide (i = j)) as [->|Hne]; [by rewrite Z.eqb_refl, andb_false_r|].
  rewrite (proj2 (Z.eqb_neq j i)) by lia. apply andb_true_r.
Qed.

(** ** The lines of a cache *)

Section tracks.
Context (lo hi k s mm : Z).

(** A block that has the bytes of [F]. *)
Record good (F : Z -> Z) (b : Blk.CacheBlk) : Prop := {
  gd_readable : Blk.isReadable b = true;
  gd_secure : Blk.isSecure b = false;
  gd_tag : 0 <= Blk.tag b;
  gd_lo : lo <= line s b * 2 ^ k;
  gd_hi : line s b * 2 ^ k + 2 ^ k - 1 <= hi;
  gd_data : Blk.data b = read_bytes F (line s b * 2 ^ k) (2 ^ k);
}.

(** The cache has the lines that [V] says, in these states. *)
Record tracks (F : Z -> Z) (V : Z -> lstate) (c : Cache) : Prop := {
  tr_ok : exists A, cache_ok k s A c;
  tr_masters : maxMasters c = mm;
  tr_top : isTopLevel c = true;
  tr_idle : MSHRQueue.allocatedList (mshrQueue c) = [];
  tr_blk p b : BaseSetAssoc.blks (tags c) !! p = Some b -> Blk.isValid b = true ->
    good F b /\ V (line s b) = Some (Blk.isWritable b, Blk.isDirty b);
  tr_held L : held (V L) = true ->
    exists p b, BaseSetAssoc.blks (tags c) !! p = Some b /\ Blk.isValid b = true /\ line s b = L;
  tr_clean p b : BaseSetAssoc.blks (tags c) !! p = Some b -> Blk.isValid b = false -> Blk.isDirty b = false;
}.

Lemma tracks_geo F V c : tracks F V c -> 2 <= k < 32 /\ 0 <= s < 31 /\ 0 < 2 ^ k /\ 0 < 2 ^ s /\ blkSize c = 2 ^ k.
Proof.
  intros [[A Hok] _ _ _ _ _ _]. pose proof (geo_bounds _ _ _ _ Hok). pose proof (co_blkSize _ _ _ _ Hok). tauto.
Qed.

Lemma tracks_ext F V V' c : (forall L, V' L = V L) -> tracks F V c -> tracks F V' c.
Proof.
  intros E [H1 H2 H3 H4 H5 H6 H7]. split; try done.
  - intros p b Hp Hv. rewrite E. by apply (H5 p).
  - intros L HL. rewrite E in HL. by apply H6.
Qed.

(** Outside of the lines held, the bytes do not matter. *)
Lemma tracks_bytes F F' V c :
  tracks F V c -> (forall x, held (V (x / 2 ^ k)) = true -> F' x = F x) -> tracks F' V c.
Proof.
  intros Ht HF. pose proof (tracks_geo _ _ _ Ht) as (_ & _ & Hk & _). destruct Ht as [H1 H2 H3 H4 H5 H6 H7]. split; try done.
  intros p b Hp Hv. destruct (H5 p b Hp Hv) as [[] EV]. split; [|done]. split; try done. rewrite gd_data0.
  apply read_bytes_ext. intros x Hx. symmetry. apply HF.
  replace (x / 2 ^ k) with (line s b) by (apply (Z.div_unique _ _ _ (x - line s b * 2 ^ k)); lia). by rewrite EV.
Qed.

Lemma tracks_frame F V c c' :
  tracks F V c -> (exists A, cache_ok k s A c') ->
  maxMasters c' = maxMasters c -> isTopLevel c' = isTopLevel c -> mshrQueue c' = mshrQueue c ->
  obs <$> BaseSetAssoc.blks (tags c') = obs <$> BaseSetAssoc.blks (tags c) -> tracks F V c'.
Proof.
  intros [H1 H2 H3 H4 H5 H6 H7] Hc E1 E2 E3 Eo. split; rewrite ?E1, ?E2, ?E3; try done.
  - intros p b' Hp Hv. destruct (obs_lookup _ _ p b' Eo Hp) as (b & Hb & Eb).
    destruct (obs_state s _ _ Eb) as (Ev & Es & El & Ed). destruct (H5 p b Hb ltac:(congruence)) as [[] EV].
    assert (Blk.isReadable b' = Blk.isReadable b /\ Blk.isWritable b' = Blk.isWritable b /\ Blk.isDirty b' = Blk.isDirty b /\
      Blk.tag b' = Blk.tag b) as (Er & Ew & Edd & Et).
    { injection Eb as E Et _ _. unfold Blk.isReadable, Blk.isWritable, Blk.isDirty. by rewrite E, Et. }
    rewrite El, Ew, Edd. split; [|done]. split; rewrite ?Er, ?El, ?Es, ?Ed, ?Et; done.
  - intros L HL. destruct (H6 L HL) as (p & b & Hp & Hv & Hl).
    destruct (obs_lookup _ _ p b (eq_sym Eo) Hp) as (b' & Hb' & Eb). destruct (obs_state s _ _ Eb) as (Ev & _ & El & _).
    exists p, b'. split; [done|]. split; congruence.
  - intros p b' Hp Hv. destruct (obs_lookup _ _ p b' Eo Hp) as (b & Hb & Eb). destruct (obs_state s _ _ Eb) as (Ev & _).
    injection Eb as E _ _ _. unfold Blk.isDirty. rewrite E. apply (H7 p b Hb). congruence.
Qed.

Lemma tracks_unique F V c p q b b' :
  tracks F V c -> BaseSetAssoc.blks (tags c) !! p = Some b -> BaseSetAssoc.blks (tags c) !! q = Some b' ->
  Blk.isValid b = true -> Blk.isValid b' = true -> line s b = line s b' -> p = q.
Proof.
  intros Ht Hp Hq Hv Hv' El. pose proof (tracks_geo _ _ _ Ht) as (_ & _ & ? & Hs0 & _).
  destruct (tr_ok _ _ _ Ht) as [A Hok]. destruct (tr_blk _ _ _ Ht p b Hp Hv) as [[] _].
  destruct (tr_blk _ _ _ Ht q b' Hq Hv') as [[] _]. pose proof (set_range k s A c Hok p b Hp).
  apply (line_unique k s A c Hok p q b b'); try done. unfold line. nia.
Qed.

(** A block of a line is replaced by another of that line. *)
Lemma put_tracks F F' V c p b b' :
  tracks F V c -> BaseSetAssoc.blks (tags c) !! p = Some b -> Blk.isValid b = true ->
  BaseSetAssoc.slot b' = BaseSetAssoc.slot b -> Blk.isValid b' = true -> Blk.isTouched b' = Blk.isTouched b ->
  Blk.srcMasterId b' = Blk.srcMasterId b -> Blk.set b' = Blk.set b -> Blk.isReadable b' = true ->
  Blk.data b' = read_bytes F' (line s b * 2 ^ k) (2 ^ k) ->
  (forall x, x / 2 ^ k <> line s b -> F' x = F x) ->
  tracks F' (upd V (line s b) (Some (Blk.isWritable b', Blk.isDirty b'))) (put_blk (InTags p) b' c).
Proof.
  intros Ht Hp Hv Hs Hv' Hto Hm Hset Hr Hd HF. pose proof (tracks_geo _ _ _ Ht) as (Hk & _ & Hk0 & _ & Hbs).
  pose proof Ht as [[A Hok] H2 H3 H4 H5 H6 H7].
  assert (p < length (BaseSetAssoc.blks (tags c)))%nat as Hlt by by eapply lookup_lt_Some.
  assert (Blk.tag b' = Blk.tag b /\ Blk.isSecure b' = Blk.isSecure b) as [Et Es]
    by (unfold BaseSetAssoc.slot in Hs; rewrite Hv, Hv' in Hs; by injection Hs).
  assert (line s b' = line s b) as El by (unfold line; by rewrite Et, Hset).
  split; try done.
  - exists A. apply (cache_ok_upd k s A c Hok p b); try done; [congruence|]. rewrite Hd, read_bytes_length; lia.
  - intros q bq. simpl. destruct (decide (q = p)) as [->|Hne].
    + rewrite list_lookup_insert_eq by done. intros [= <-] _. rewrite El, upd_eq. split; [|done].
      destruct (H5 p b Hp Hv) as [[] _]. split; rewrite ?El; try done; congruence.
    + rewrite list_lookup_insert_ne by done. intros Hq Hvq. destruct (H5 q bq Hq Hvq) as [[] EV].
      assert (line s bq <> line s b) as Hl by (intros E; apply Hne; by eapply (tracks_unique F V c q p bq b)).
      rewrite upd_ne by done. split; [|done]. split; try done. rewrite gd_data0. apply read_bytes_ext. intros x Hx.
      symmetry. apply HF. intros E. apply Hl. rewrite <- E. apply (Z.div_unique _ _ _ (x - line s bq * 2 ^ k)); lia.
  - intros L HL. unfold upd in HL. destruct (decide (L = line s b)) as [->|Hne].
    + exists p, b'. simpl. by rewrite list_lookup_insert_eq.
    + destruct (H6 L HL) as (q & bq & Hq & Hvq & Hlq). exists q, bq. simpl. rewrite list_lookup_insert_ne; [done|].
      intros ->. congruence.
  - intros q bq. simpl. destruct (decide (q = p)) as [->|Hne].
    + rewrite list_lookup_insert_eq by done. intros [= <-]. congruence.
    + rewrite list_lookup_insert_ne by done. apply H7.
Qed.

End tracks.

(** ** Dropping a line *)

Lemma drop_shape ct p c c' :
  drop_blk ct (InTags p) c = Ok c' ->
  exists b b', BaseSetAssoc.blks (tags c) !! p = Some b /\ BaseSetAssoc.blks (tags c') = <[p := b']> (BaseSetAssoc.blks (tags c)) /\
    Blk.isValid b' = false /\ Blk.isDirty b' = false /\ Blk.data b' = Blk.data b /\ c' = c <| tags := tags c' |>.
Proof.
  intros E. unfold drop_blk in E. apply bind_ok in E as (c1 & E1 & E). apply bind_ok in E1 as (t & E1 & [= <-]).
  apply bind_ok in E as (b1 & Hb1 & [= <-]). apply pget_ok in Hb1. simpl in Hb1.
  unfold LRU.invalidate in E1. apply bind_ok in E1 as (t1 & E1 & E2). apply bind_ok in E2 as (b2 & Hb2 & E2).
  unfold LRU.on_set in E2. apply bind_ok in E2 as (cs & _ & E2). apply bind_ok in E2 as (cs' & _ & E2).
  unfold BaseSetAssoc.invalidate in E1. apply bind_ok in E1 as (b & Hb & E1). apply pget_ok in Hb.
  apply bind_ok in E1 as ([] & _ & E1). apply bind_ok in E1 as (t2 & E3 & E1). apply bind_ok in E1 as (v & E4 & [= <-]).
  unfold BaseSetAssoc.count_master in E3. apply bind_ok in E3 as ([] & _ & E3). apply bind_ok in E3 as (x & _ & E3).
  apply bind_ok in E3 as (occ & _ & [= <-]). apply bind_ok in E2 as (ss & _ & [= <-]). simpl in *.
  apply pupd_ok in E4 as (b' & Eb' & ->). rewrite Hb in Eb'. injection Eb' as <-.
  rewrite list_lookup_insert_eq in Hb1 by by eapply lookup_lt_Some. injection Hb1 as <-.
  exists b. eexists. split; [done|]. rewrite list_insert_insert_eq. split; [reflexivity|]. by destruct c.
Qed.

Section drop.
Context (lo hi k s mm : Z).
Local Abbreviation tracks := (tracks lo hi k s mm).

Lemma drop_tracks F V c ct p b :
  tracks F V c -> BaseSetAssoc.blks (tags c) !! p = Some b -> Blk.isValid b = true ->
  exists c', drop_blk ct (InTags p) c = Ok c' /\ tracks F (upd V (line s b) None) c'.
Proof.
  intros Ht Hp Hv. pose proof Ht as [[A Hok] H2 H3 H4 H5 H6 H7]. pose proof (co_refines _ _ _ _ Hok) as Hrf.
  destruct (H5 p b Hp Hv) as [[G1 G2 G3 G4 G5 G6] EV]. pose proof (set_range k s A c Hok p b Hp) as Hset.
  destruct (tracks_geo _ _ _ _ _ _ _ _ Ht) as (Hk & Hs & Hk0 & Hs0 & Hbs).
  set (a := line s b * 2 ^ k). assert (0 <= a) as Ha by (unfold a, line; nia).
  assert (a / 2 ^ k = line s b) as Eal by (unfold a; by rewrite Z.div_mul by lia).
  destruct (LRU.find_spec _ _ _ _ _ a false Hrf Ha) as (cs & ks & Hcs & Hks & Ei & Et & Hrepr & Hnd & r & Hr & Hres).
  pose proof (LRU.findBlock_eq k s _ _ false cs _ (LRU.rf_geo _ _ _ _ _ Hrf) Ha Ei Hcs) as Ef.
  rewrite (holder_found k s A c Hok p b a Hp Hv G2 Ha (eq_sym Eal)), Hr in Ef. injection Ef as <-.
  destruct Hres as (_ & pre & post & b' & Ew & Hb' & Hsl). rewrite Hp in Hb'. injection Hb' as <-.
  destruct (LRU.drop_hit k s (maxMasters c) ct a false (tags c) A cs ks pre p post b Hrf Hcs Hks Hrepr Hnd Ew Hp Hsl)
    as (t1 & v & E1 & E2 & Hrf' & _).
  apply pupd_ok in E2 as (b1 & Hb1 & ->). pose proof (proj2 (pget_ok _ _ _) Hb1) as Hg.
  set (c' := put_blk (InTags p) (Blk.invalidate b1) (c <| tags := t1 |>)).
  assert (drop_blk ct (InTags p) c = Ok c') as E.
  { unfold drop_blk. rewrite E1. cbn [mbind outcome_bind get_blk]. simpl tags. by rewrite Hg. }
  exists c'. split; [done|]. destruct (drop_shape ct p c c' E) as (b0 & b2 & Hb0 & Ebl & Hinv & Hcl & Ed & _).
  rewrite Hp in Hb0. injection Hb0 as <-. assert (p < length (BaseSetAssoc.blks (tags c)))%nat as Hlt by by eapply lookup_lt_Some.
  split; try done.
  - eexists. split; [exact Hrf'|done|]. intros q bq. rewrite Ebl. destruct (decide (q = p)) as [->|Hne].
    + rewrite list_lookup_insert_eq by done. intros [= <-]. rewrite Ed. by apply (co_data _ _ _ _ Hok p).
    + rewrite list_lookup_insert_ne by done. apply (co_data _ _ _ _ Hok q).
  - intros q bq. rewrite Ebl. destruct (decide (q = p)) as [->|Hne].
    + rewrite list_lookup_insert_eq by done. intros [= <-]. congruence.
    + rewrite list_lookup_insert_ne by done. intros Hq Hvq. rewrite upd_ne; [by apply (H5 q)|].
      intros El. apply Hne. by apply (tracks_unique lo hi k s mm F V c q p bq b).
  - intros L HL. unfold upd in HL. destruct (decide (L = line s b)) as [->|Hne]; [done|].
    destruct (H6 L HL) as (q & bq & Hq & Hvq & Hlq). exists q, bq. rewrite Ebl, list_lookup_insert_ne; [done|].
    intros ->. congruence.
  - intros q bq. rewrite Ebl. destruct (decide (q = p)) as [->|Hne].
    + rewrite list_lookup_insert_eq by done. by intros [= <-].
    + rewrite list_lookup_insert_ne by done. apply H7.
Qed.

(** ** Looking a line up *)

Lemma tracks_find F V c a :
  tracks F V c -> 0 <= a ->
  exists r, BaseSetAssoc.findBlock (tags c) a false = Ok r /\
    match r with
    | Some p => exists b, BaseSetAssoc.blks (tags c) !! p = Some b /\ Blk.isValid b = true /\ line s b = a / 2 ^ k
    | None => V (a / 2 ^ k) = None
    end.
Proof.
  intros Ht Ha. pose proof Ht as [[A Hok] H2 H3 H4 H5 H6 H7]. pose proof (co_refines _ _ _ _ Hok) as Hrf.
  destruct (LRU.find_spec _ _ _ _ _ a false Hrf Ha) as (cs & ks & Hcs & _ & Ei & _ & _ & _ & r & Hr & _).
  pose proof (LRU.findBlock_eq k s _ _ false cs _ (LRU.rf_geo _ _ _ _ _ Hrf) Ha Ei Hcs) as Ef. rewrite Hr in Ef.
  exists r. split; [done|]. destruct r as [p|]; [by apply (found_holder k s A c Hok)|].
  destruct (V (a / 2 ^ k)) as [st|] eqn:EV; [|done]. destruct (H6 (a / 2 ^ k)) as (p & b & Hp & Hv & Hl); [by rewrite EV|].
  destruct (H5 p b Hp Hv) as [[] _]. by rewrite (holder_found k s A c Hok p b a) in Ef.
Qed.

Lemma tracks_lookup F V ct cp c a :
  tracks F V c -> 0 <= a ->
  exists r lat t, LRU.accessBlock ct cp (tags c) a false = Ok (r, lat, t) /\ tracks F V (c <| tags := t |>) /\
    match r with
    | Some p => exists b, BaseSetAssoc.blks t !! p = Some b /\ Blk.isValid b = true /\ line s b = a / 2 ^ k
    | None => V (a / 2 ^ k) = None
    end.
Proof.
  intros Ht Ha. pose proof Ht as [[A Hok] H2 H3 H4 H5 H6 H7]. pose proof (co_refines _ _ _ _ Hok) as Hrf.
  destruct (LRU.access_refines k s (maxMasters c) cp ct a false (tags c) A Hrf Ha) as (hit & t & E & _ & Hrf' & _).
  cbn [LRU.step] in E. apply bind_ok in E as ([[r lat] t'] & E & [= _ <-]). rename t' into t.
  pose proof E as (cs & Hcs & Hr & Eo)%accessBlock_inv.
  exists r, lat, t. split; [done|]. split.
  { apply (tracks_frame lo hi k s mm F V c); try done. eexists. split; [exact Hrf'|apply Hok|]. intros p b Hp.
    destruct (obs_lookup _ _ p b Eo Hp) as (b0 & Hb0 & Eb). destruct (obs_state s _ _ Eb) as (_ & _ & _ & ->).
    exact (co_data _ _ _ _ Hok p b0 Hb0). }
  destruct (tracks_find F V c a Ht Ha) as (r' & Ef & Hr').
  assert (r' = r) as ->.
  { destruct (LRU.find_spec _ _ _ _ _ a false Hrf Ha) as (cs' & _ & Hcs' & _ & Ei & _).
    rewrite (LRU.findBlock_eq k s _ _ false cs' _ (LRU.rf_geo _ _ _ _ _ Hrf) Ha Ei Hcs') in Ef.
    rewrite Ei in Hcs. apply vget_ok in Hcs as [_ Hcs]. rewrite Nat2Z.id in Hcs. congruence. }
  destruct r as [p|]; [|done]. destruct Hr' as (b & Hb & Hv & Hl).
  destruct (obs_lookup _ _ p b (eq_sym Eo) Hb) as (b' & Hb' & Eb). destruct (obs_state s _ _ Eb) as (Ev & _ & El & _).
  exists b'. rewrite <- Ev, <- El. done.
Qed.

End drop.

Section requests.
Context (lo hi k s mm : Z).
Local Abbreviation tracks := (tracks lo hi k s mm).
Local Abbreviation access_ok := (access_ok lo hi k mm).

(** ** Serving a request from its block

    The data of the block may be anything for a write of the whole line. *)

Definition served (V : Z -> lstate) (pkt : Packet.Packet) : Z -> lstate :=
  if Packet.isWrite pkt then upd V (Packet.addr pkt / 2 ^ k) (Some (true, true)) else V.

Lemma serve_tracks F V ct c p b pkt d :
  access_ok pkt d -> BaseSetAssoc.blks (tags c) !! p = Some b -> Blk.isValid b = true ->
  line s b = Packet.addr pkt / 2 ^ k -> Packet.needsExclusive pkt = true -> Blk.isWritable b = true ->
  isTopLevel c = true -> Z.of_nat (length (Blk.data b)) = 2 ^ k ->
  let bytes := read_bytes F (Packet.addr pkt / 2 ^ k * 2 ^ k) (2 ^ k) in
  Blk.data b = bytes \/ Packet.cmd pkt = MemCmd.WriteInvalidateReq ->
  tracks F V (put_blk (InTags p) (b <| Blk.data := bytes |>) c) ->
  exists c', satisfyCpuSideRequest ct false false pkt (InTags p) c = Ok (pkt, c') /\
    tracks (after F pkt d) (served V pkt) c'.
Proof.
  intros Ha Hp Hv Hl Hx Hw Htop Hlen bytes Hd Ht. destruct (tracks_geo _ _ _ _ _ _ _ _ Ht) as (Hk & Hs & Hk0 & Hs0 & Hbs).
  change (blkSize c = 2 ^ k) in Hbs.
  destruct (access_in_block lo hi k mm pkt d c Ha ltac:(lia) Hbs) as [Hi Eo].
  destruct (addr_split k (Packet.addr pkt) Hk0) as [Ea Hmod]. pose proof Ha as [Hc _ _ _ Hby Hfit _ _ _ _ _ _ Hpa Hhs _ _ _ _].
  assert (get_blk (InTags p) c = Ok b) as Hg by by apply pget_ok.
  assert (Packet.cmd pkt <> MemCmd.ReadReq) as Hnr by (intros E; unfold Packet.needsExclusive in Hx; by rewrite E in Hx).
  assert (writes c pkt) as Hwr by (destruct Hc as [?|[?|[? _]]]; [done|by left|by right]).
  destruct (satisfy_write ct false false (InTags p) c b pkt d) as (d' & ls & Em & E); rewrite ?Hbs; try done.
  eexists. split; [exact E|]. unfold after, served.
  assert (Packet.isWrite pkt = true) as -> by (unfold Packet.isWrite; destruct Hwr as [->|[-> _]]; done).
  rewrite Eo in Em.
  assert (Blk.data b = bytes \/ Packet.size pkt = 2 ^ k) as Hd'.
  { destruct Hc as [?|[Hc|[_ ?]]]; [done| |by right]. left. destruct Hd; [done|congruence]. }
  pose proof (line_write k F (Packet.addr pkt) (Packet.size pkt) (Packet.addr pkt mod 2 ^ k) d (Blk.data b) d'
    Hk0 ltac:(lia) Ea ltac:(lia) Hfit Hby Hlen Hd' Em) as ->.
  set (F' := write_bytes F (Packet.addr pkt) d). set (b1 := b <| Blk.data := bytes |>) in Ht.
  set (b0 := b <| Blk.lockList := ls |> <| Blk.data := _ |>). set (b' := b0 <| Blk.status ::= Z.lor Blk.BlkDirty |>).
  destruct (lor_dirty_state b0) as (W1 & W2 & W3 & W4). fold b' in W1, W2, W3, W4.
  pose proof (lor_dirty b0) as Hdirty. fold b' in Hdirty.
  assert (BaseSetAssoc.blks (tags (put_blk (InTags p) b1 c)) !! p = Some b1) as Hp1
    by (simpl; apply list_lookup_insert_eq; by eapply lookup_lt_Some).
  pose proof (put_tracks lo hi k s mm F F' V _ p b1 b' Ht Hp1 Hv) as Hput. rewrite put_put in Hput.
  change (line s b1) with (line s b) in Hput. rewrite Hl, Hdirty, W1 in Hput.
  change (Blk.isWritable b0) with (Blk.isWritable b) in Hput. rewrite Hw in Hput. apply Hput; clear Hput; try done.
  - unfold BaseSetAssoc.slot. rewrite W3, W4. done.
  - by rewrite W4.
  - rewrite W2. apply (tr_blk _ _ _ _ _ _ _ _ Ht p b1 Hp1 Hv).
  - intros x Hxx. unfold F', write_bytes. rewrite decide_False; [done|]. intros Hin. apply Hxx.
    symmetry. apply (Z.div_unique x (2 ^ k) _ (x - Packet.addr pkt / 2 ^ k * 2 ^ k)); lia.
Qed.

Lemma read_tracks F V ct c p b pkt d :
  access_ok pkt d -> tracks F V c -> BaseSetAssoc.blks (tags c) !! p = Some b -> Blk.isValid b = true ->
  line s b = Packet.addr pkt / 2 ^ k -> Packet.cmd pkt = MemCmd.ReadReq ->
  exists pkt', satisfyCpuSideRequest ct false false pkt (InTags p) c = Ok (pkt', c) /\
    Packet.cmd pkt' = Packet.cmd pkt /\ Packet.data pkt' = Some (read_bytes F (Packet.addr pkt) (Packet.size pkt)).
Proof.
  intros Ha Ht Hp Hv Hl Hc. destruct (tracks_geo _ _ _ _ _ _ _ _ Ht) as (Hk & Hs & Hk0 & Hs0 & Hbs).
  destruct (access_in_block lo hi k mm pkt d c Ha ltac:(lia) Hbs) as [Hi Eo].
  destruct (addr_split k (Packet.addr pkt) Hk0) as [Ea Hmod]. pose proof Ha as [_ _ _ _ Hby Hfit _ _ _ _ _ _ _ _ _ _ _ _].
  destruct (tr_blk _ _ _ _ _ _ _ _ Ht p b Hp Hv) as [Hgd _]. pose proof (gd_data _ _ _ _ _ _ Hgd) as Hd. rewrite Hl in Hd.
  destruct (satisfy_read_top ct (InTags p) c b pkt d) as (d' & pkt' & Em & E & Ec & Ed); try done.
  - by apply pget_ok.
  - apply Ht.
  - rewrite Hd, Hbs, read_bytes_length; lia.
  - exists pkt'. rewrite put_same in E by done. split; [done|]. split; [congruence|]. rewrite Ed. f_equal.
    rewrite Hd, Eo in Em. apply (line_read k F _ _ (Packet.addr pkt mod 2 ^ k) d d'); lia || done.
Qed.

(** ** Upgrading a block that is there *)

Lemma fill_status_bits inh b :
  Blk.isValid b = true -> Blk.isReadable b = true -> Blk.isSecure b = false ->
  let b' := BaseSetAssoc.fill_status false false inh b in
  Blk.isValid b' = true /\ Blk.isReadable b' = true /\ Blk.isSecure b' = false /\ Blk.isWritable b' = true /\
  Blk.isDirty b' = Blk.isDirty b || inh.
Proof.
  intros Hv Hr Hs b'. destruct (status_bits b) as (_ & _ & E3 & E4 & E5). destruct (status_bits b') as (-> & -> & -> & -> & ->).
  rewrite E3 in Hv. rewrite E4. rewrite E5 in Hs.
  unfold b', BaseSetAssoc.fill_status. destruct inh; simpl; rewrite !Z.lor_spec, ?Hv, ?Hs; rewrite ?orb_true_r, ?orb_false_r; done.
Qed.

Lemma upgrade_tracks F V ct now fr h pkt c p b a :
  tracks F V c -> BaseSetAssoc.blks (tags c) !! p = Some b -> Blk.isValid b = true -> line s b = a / 2 ^ k -> 0 <= a ->
  Packet.isResponse pkt || Packet.isWriteInvalidate pkt = true -> Packet.isRead pkt = false ->
  Packet.getAddr pkt = Ok a -> Packet.isSecure pkt = Ok false -> Packet.sharedAsserted pkt = false ->
  exists b' c', handleFill ct now fr h pkt (Some (InTags p)) [] c = Ok (InTags p, [], c') /\
    tracks F (upd V (a / 2 ^ k) (Some (true, Blk.isDirty b || Packet.memInhibitAsserted pkt))) c' /\
    BaseSetAssoc.blks (tags c') !! p = Some b' /\ Blk.isValid b' = true /\ line s b' = a / 2 ^ k /\
    Blk.isWritable b' = true /\ c' = put_blk (InTags p) b' c.
Proof.
  intros Ht Hp Hv Hl Ha Hr Hrd Ead Es Hsh. pose proof Ht as [[A Hok] H2 H3 H4 H5 H6 H7].
  destruct (H5 p b Hp Hv) as [[G1 G2 G3 G4 G5 G6] EV].
  destruct (fill_status_bits (Packet.memInhibitAsserted pkt) b Hv G1 G2) as (B1 & B2 & B3 & B4 & B5).
  set (b0 := BaseSetAssoc.fill_status false false (Packet.memInhibitAsserted pkt) b) in *.
  assert (Blk.data b0 = Blk.data b /\ Blk.tag b0 = Blk.tag b /\ Blk.set b0 = Blk.set b /\ Blk.isTouched b0 = Blk.isTouched b /\
    Blk.srcMasterId b0 = Blk.srcMasterId b) as (D1 & D2 & D3 & D4 & D5)
    by (unfold b0, BaseSetAssoc.fill_status; by destruct (Packet.memInhibitAsserted pkt)).
  set (b' := b0 <| Blk.data := Blk.data b0 |> <| Blk.whenReady := now + Packet.payloadDelay pkt |>).
  exists b', (put_blk (InTags p) b' c).
  assert (BaseSetAssoc.extractTag (tags c) a = Blk.tag b) as Etag.
  { rewrite (BaseSetAssoc.extractTag_div _ k s) by (done || apply (LRU.rf_geo _ _ _ _ _ (co_refines _ _ _ _ Hok))).
    by destruct (line_key k s A c Hok p b a Hp Hl) as [-> _]. }
  assert (line s b' = line s b) as El by (unfold line; simpl; by rewrite D2, D3).
  split_and!; try done.
  - unfold handleFill. rewrite Hr, Ead, Es. cbn [mbind outcome_bind ensure].
    assert (get_blk (InTags p) c = Ok b) as -> by by apply pget_ok. cbn [mbind outcome_bind].
    rewrite Etag, Z.eqb_refl, Hv, orb_true_r. cbn [mbind outcome_bind ensure].
    assert (get_blk (InTags p) c = Ok b) as -> by by apply pget_ok. cbn [mbind outcome_bind].
    rewrite Hrd, Hsh. done.
  - rewrite <- Hl, <- B5, <- B4. apply (put_tracks lo hi k s mm F F V c p b b'); try done.
    + unfold BaseSetAssoc.slot. change (Blk.isValid b') with (Blk.isValid b0). change (Blk.isSecure b') with (Blk.isSecure b0).
      rewrite B1, Hv, B3, G2. simpl. by rewrite D2.
    + simpl. by rewrite D1.
  - simpl. apply list_lookup_insert_eq. by eapply lookup_lt_Some.
  - congruence.
Qed.

End requests.

(** ** Filling a line in *)

Section fills.
Context (lo hi k s mm : Z) (Hlo : 0 <= lo) (Hhi : hi < 2 ^ 64).
Local Abbreviation tracks := (tracks lo hi k s mm).

(** The writeback of the line [L]. *)
Record wb_line (F : Z -> Z) (L : Z) (wb : Packet.Packet) : Prop := {
  wl_cmd : Packet.cmd wb = MemCmd.Writeback;
  wl_addr : Packet.addr wb = L * 2 ^ k;
  wl_request : mem_request lo hi wb (read_bytes F (L * 2 ^ k) (2 ^ k));
  wl_fetch : Request.isInstFetch (Packet.req wb) = false;
}.

(** What leaves the cache when a block is replaced. *)
Inductive evicts (F : Z -> Z) (V : Z -> lstate) : (Z -> lstate) -> list Packet.Packet -> Prop :=
  | evicts_none : evicts F V V []
  | evicts_clean L w : V L = Some (w, false) -> evicts F V (upd V L None) []
  | evicts_dirty L w wb : V L = Some (w, true) -> wb_line F L wb -> evicts F V (upd V L None) [wb].

Lemma victim_evicts F V c p v wbs :
  tracks F V c -> BaseSetAssoc.blks (tags c) !! p = Some v -> victim_writeback c v wbs ->
  exists V', evicts F V V' wbs /\ V' = if Blk.isValid v then upd V (line s v) None else V.
Proof.
  intros Ht Hp Hw. pose proof Ht as [[A Hok] H2 H3 H4 H5 H6 H7]. unfold victim_writeback in Hw.
  destruct (tracks_geo _ _ _ _ _ _ _ _ Ht) as (Hk & Hs & Hk0 & Hs0 & Hbs).
  destruct (Blk.isValid v) eqn:Ev; simpl in Hw; [|subst; exists V; split; [constructor|done]].
  destruct (H5 p v Hp Ev) as [[G1 G2 G3 G4 G5 G6] EV]. exists (upd V (line s v) None). split; [|done].
  destruct (Blk.isDirty v) eqn:Ed; [|subst; by eapply evicts_clean].
  destruct Hw as (wb & -> & [W1 W2 W3 W4 W5 W6 W7 W8]). eapply evicts_dirty; [exact EV|].
  pose proof (set_range k s A c Hok p v Hp) as Hset. rewrite (regenerate_line k s A c Hok) in W2 by lia.
  unfold Packet.getAddr in W2. apply bind_ok in W2 as ([] & Fa & [= Ea]). apply ensure_ok in Fa.
  unfold Packet.getSize in W3. apply bind_ok in W3 as ([] & Fz & [= Ez]). apply ensure_ok in Fz. rewrite Hbs in Ez.
  split; try done. rewrite <- G6. assert (Z.of_nat (length (Blk.data v)) = 2 ^ k) as Hlen by (rewrite G6, read_bytes_length; lia).
  split; rewrite ?Ea, ?Ez; done || lia.
Qed.

Lemma fill_tracks F V e h pkt a bytes c :
  tracks F V c -> fill_source c pkt a false bytes -> V (a / 2 ^ k) = None ->
  lo <= a / 2 ^ k * 2 ^ k -> a / 2 ^ k * 2 ^ k + 2 ^ k - 1 <= hi ->
  (forall n, 0 <= n -> Z.of_nat (length (fresh e n)) = n) ->
  let sh := Packet.sharedAsserted pkt in
  exists p b wbs c' V1,
    handleFill (curTick e) (now e + fillLatency c * clockPeriod e) (fresh e) h pkt None [] c =
      Ok (InTags p, wbs, c') /\
    evicts F V V1 wbs /\ V1 (a / 2 ^ k) = None /\ BaseSetAssoc.blks (tags c') !! p = Some b /\ line s b = a / 2 ^ k /\
    Blk.isValid b = true /\ Blk.isWritable b = negb sh /\ isTopLevel c' = true /\
    Z.of_nat (length (Blk.data b)) = 2 ^ k /\ (Packet.isRead pkt = true -> Blk.data b = bytes) /\
    tracks F (upd V1 (a / 2 ^ k) (Some (negb sh, negb sh && Packet.memInhibitAsserted pkt)))
      (put_blk (InTags p) (b <| Blk.data := read_bytes F (a / 2 ^ k * 2 ^ k) (2 ^ k) |>) c').
Proof.
  intros Ht Hf Hmiss Hl1 Hl2 Hfresh sh. pose proof Ht as [[A Hok] H2 H3 H4 H5 H6 H7].
  destruct (tracks_geo _ _ _ _ _ _ _ _ Ht) as (Hk & Hs & Hk0 & Hs0 & Hbs). pose proof (fs_low _ _ _ _ _ Hf) as Ha.
  destruct (tracks_find lo hi k s mm F V c a Ht Ha) as ([q|] & Ef & Hr).
  { destruct Hr as (bq & Hq & Hvq & Hlq). destruct (H5 q bq Hq Hvq) as [_ EV]. rewrite Hlq in EV. congruence. }
  destruct (handleFill_ok k s A (curTick e) (now e + fillLatency c * clockPeriod e) (fresh e) h pkt a false bytes [] c)
    as (p & v & wbs & b & t & n & E & _ & Hp & Hwb & [S1 S2 S3 S4 S5 S6] & Hb & A' & Hok'); try done.
  { intros q bq _ _ _. unfold MSHRQueue.findMatch. by rewrite H4. }
  set (c' := c <| writebackCount := n |> <| tags := t |>) in *.
  destruct (victim_evicts F V c p v wbs Ht Hp Hwb) as (V1 & Hev & EV1).
  assert (p < length (BaseSetAssoc.blks (tags c)))%nat as Hlt by by eapply lookup_lt_Some.
  assert (BaseSetAssoc.blks (tags c') !! p = Some b) as Hpb by (simpl; by rewrite Hb, list_lookup_insert_eq).
  unfold BaseSetAssoc.slot in S1. destruct (Blk.isValid b) eqn:Ev; [|done]. injection S1 as St Ssec.
  assert (line s b = a / 2 ^ k) as El.
  { unfold line. rewrite St, S2. unfold LRU.set_of. pose proof (Z.mod_pos_bound (a / 2 ^ k) (2 ^ s) ltac:(lia)).
    pose proof (Z.div_mod (a / 2 ^ k) (2 ^ s) ltac:(lia)). lia. }
  assert (V1 (a / 2 ^ k) = None) as Hn1.
  { rewrite EV1. destruct (Blk.isValid v); [|done]. unfold upd. by destruct (decide _). }
  exists p, b, wbs, c', V1. split_and!; try done.
  - rewrite <- Hbs. apply (co_data _ _ _ _ Hok' p b Hpb).
  - intros Hr'. by rewrite Hr' in S3.
  - set (b1 := b <| Blk.data := _ |>). split; try done.
    + exists A'. apply (cache_ok_upd k s A' c' Hok' p b); try done. simpl. rewrite read_bytes_length by lia. by rewrite Hbs.
    + intros q bq. simpl. rewrite Hb, list_insert_insert_eq. destruct (decide (q = p)) as [->|Hne].
      * rewrite list_lookup_insert_eq by done. intros [= <-] _. change (line s b1) with (line s b).
        change (Blk.isWritable b1) with (Blk.isWritable b). change (Blk.isDirty b1) with (Blk.isDirty b).
        rewrite El, upd_eq, S5, S6. split; [|done].
        assert (0 <= Blk.tag b) as Ht' by (rewrite St; apply Z.div_pos; [apply Z.div_pos; [apply Hf|lia]|lia]).
        split; try done; unfold b1; change (line s _) with (line s b); rewrite ?El; done || lia.
      * rewrite list_lookup_insert_ne by done. intros Hq Hvq. destruct (H5 q bq Hq Hvq) as [Hg EV]. split; [done|].
        rewrite upd_ne by (intros Elq; rewrite Elq in EV; congruence). rewrite EV1.
        destruct (Blk.isValid v) eqn:Evv; [|done]. rewrite upd_ne; [done|]. intros Elq. apply Hne.
        by apply (tracks_unique lo hi k s mm F V c q p bq v).
    + intros L HL. unfold upd in HL. destruct (decide (L = a / 2 ^ k)) as [->|Hne].
      * exists p, b1. simpl. rewrite Hb, list_insert_insert_eq. by rewrite list_lookup_insert_eq.
      * rewrite EV1 in HL. assert (held (V L) = true /\ (Blk.isValid v = true -> L <> line s v)) as [HL' Hnv].
        { destruct (Blk.isValid v); [|done]. unfold upd in HL. by destruct (decide (L = line s v)). }
        destruct (H6 L HL') as (q & bq & Hq & Hvq & Hlq). exists q, bq. simpl. rewrite Hb, list_insert_insert_eq.
        rewrite list_lookup_insert_ne; [done|]. intros ->. rewrite Hp in Hq. injection Hq as <-. by apply Hnv.
    + intros q bq. simpl. rewrite Hb, list_insert_insert_eq. destruct (decide (q = p)) as [->|Hne].
      * rewrite list_lookup_insert_eq by done. intros [= <-]. unfold b1. change (Blk.isValid _) with (Blk.isValid b). congruence.
      * rewrite list_lookup_insert_ne by done. apply H7.
Qed.

End fills.

(** ** Packets on the bus *)

Section bus_packets.
Context (k : Z).

(** A packet for the line [L] with the request [r]; [sh] and [inh] are its shared
    and inhibit flags, [d] its bytes. *)
Record onbus (r : Request.Request) (L : Z) (cm : MemCmd.Command) (sh inh : bool) (d : list Z) (pkt : Packet.Packet)
  : Prop := {
  ob_cmd : Packet.cmd pkt = cm;
  ob_req : Packet.req pkt = r;
  ob_vaddr : Packet.has_flag Packet.VALID_ADDR pkt = true;
  ob_vsize : Packet.has_flag Packet.VALID_SIZE pkt = true;
  ob_addr : Packet.addr pkt = L * 2 ^ k;
  ob_size : Packet.size pkt = 2 ^ k;
  ob_sec : Packet._isSecure pkt = false;
  ob_sh : Packet.sharedAsserted pkt = sh;
  ob_inh : Packet.memInhibitAsserted pkt = inh;
  ob_ptr : Packet.getPtr pkt = Ok d;
  ob_len : Z.of_nat (length d) = 2 ^ k;
}.

Lemma has_set_other m m' p : Z.land m m' = 0 -> Packet.has_flag m' (Packet.set_flag m p) = Packet.has_flag m' p.
Proof.
  intros E. unfold Packet.has_flag, Flags.isSet, any_set, Packet.set_flag, Flags.set. simpl.
  by rewrite Z.land_lor_distr_l, E, Z.lor_0_r.
Qed.

Lemma has_clear_other m m' p :
  Z.land (unot 32 m) m' = m' -> Packet.has_flag m' (Packet.clear_flag m p) = Packet.has_flag m' p.
Proof.
  intros E. unfold Packet.has_flag, Flags.isSet, any_set, Packet.clear_flag, Flags.clear. simpl.
  by rewrite <- Z.land_assoc, E.
Qed.

Lemma has_set_same i p : 0 <= i -> Packet.has_flag (2 ^ i) (Packet.set_flag (2 ^ i) p) = true.
Proof. intros Hi. by apply Flags.isSet_set_same. Qed.

Section packet.
Context (r : Request.Request) (L : Z) (cm : MemCmd.Command) (sh inh : bool) (d : list Z) (pkt : Packet.Packet).
Context (Hb : onbus r L cm sh inh d pkt).

Lemma onbus_cmd cm' : onbus r L cm' sh inh d (pkt <| Packet.cmd := cm' |>).
Proof. destruct Hb. by split. Qed.

Lemma onbus_delay n : onbus r L cm sh inh d (pkt <| Packet.payloadDelay := n |>).
Proof. destruct Hb. by split. Qed.

Lemma onbus_shared : onbus r L cm true inh d (Packet.assertShared pkt).
Proof.
  destruct Hb. unfold Packet.assertShared, Packet.sharedAsserted, Packet.memInhibitAsserted in *.
  split; try done; unfold Packet.getPtr, Packet.sharedAsserted, Packet.memInhibitAsserted in *; rewrite ?has_set_other by done; try done.
  by apply (has_set_same 0).
Qed.

Lemma onbus_inhibit : MemCmd.isRequest cm = true -> inh = false ->
  exists pkt', Packet.assertMemInhibit pkt = Ok pkt' /\ onbus r L cm sh true d pkt'.
Proof.
  intros Hr Hi. destruct Hb. exists (Packet.set_flag Packet.MEM_INHIBIT pkt). split.
  - unfold Packet.assertMemInhibit, Packet.isRequest. rewrite ob_cmd0, Hr. cbn [mbind outcome_bind ensure].
    unfold Packet.memInhibitAsserted in ob_inh0. by rewrite ob_inh0, Hi.
  - unfold Packet.sharedAsserted, Packet.memInhibitAsserted in *.
    split; try done; unfold Packet.getPtr, Packet.sharedAsserted, Packet.memInhibitAsserted in *; rewrite ?has_set_other by done; try done.
    by apply (has_set_same 3).
Qed.

Lemma onbus_exclusive : onbus r L cm sh inh d (Packet.setSupplyExclusive pkt).
Proof.
  destruct Hb. unfold Packet.setSupplyExclusive, Packet.sharedAsserted, Packet.memInhibitAsserted in *.
  split; try done; unfold Packet.getPtr, Packet.sharedAsserted, Packet.memInhibitAsserted in *; rewrite ?has_set_other by done; done.
Qed.

Lemma onbus_response : MemCmd.isRequest cm = true -> MemCmd.needsResponse cm = true ->
  exists pkt', Packet.makeResponse pkt = Ok pkt' /\ onbus r L (MemCmd.responseCommand cm) sh inh d pkt'.
Proof.
  intros Hr Hn. destruct Hb. eexists. split.
  - unfold Packet.makeResponse, Packet.isRequest, Packet.needsResponse. rewrite ob_cmd0, Hr, Hn. cbn [mbind outcome_bind ensure].
    reflexivity.
  - unfold Packet.sharedAsserted, Packet.memInhibitAsserted in *.
    split; try done; unfold Packet.getPtr, Packet.sharedAsserted, Packet.memInhibitAsserted in *; rewrite ?has_clear_other by done; done.
Qed.

(** The block's bytes replace those of the packet. *)
Lemma onbus_data blk : Z.of_nat (length blk) = 2 ^ k -> 2 <= k < 32 ->
  exists pkt', Packet.setDataFromBlock blk (2 ^ k) pkt = Ok pkt' /\ onbus r L cm sh inh blk pkt'.
Proof.
  intros Hl Hk. destruct Hb. exists (pkt <| Packet.data := Some blk |>). split.
  - unfold Packet.setDataFromBlock, Packet.getOffset, Packet.getAddr, Packet.setData, Packet.getSize.
    rewrite ob_vaddr0, ob_vsize0, ob_ptr0, ob_addr0, ob_size0. cbn [mbind outcome_bind ensure].
    pose proof (pow2_pos k ltac:(lia)). pose proof (Z.pow_lt_mono_r 2 k 32 ltac:(lia) ltac:(lia)).
    rewrite uwrap_small by (split; lia). rewrite land_mask, Z.mod_mul by lia.
    destruct (Packet.memcpy_total d 0 blk 0 (2 ^ k)) as (d' & Em); try lia. rewrite Em. cbn [mbind outcome_bind].
    by rewrite (memcpy_full d blk (2 ^ k) d' Em).
  - split; try done. unfold Packet.getPtr in *. apply bind_ok in ob_ptr0 as ([] & Hp%ensure_ok & _).
    change (Packet.has_flag _ (pkt <| Packet.data := Some blk |>))
      with (Packet.has_flag (Z.lor Packet.STATIC_DATA Packet.DYNAMIC_DATA) pkt). by rewrite Hp.
Qed.

End packet.
End bus_packets.

(** ** Snoops *)

(** The requests a cache of the top level puts on the bus. *)
Definition bus_request (cm : MemCmd.Command) : Prop :=
  cm = MemCmd.ReadReq \/ cm = MemCmd.ReadExReq \/ cm = MemCmd.UpgradeReq \/ cm = MemCmd.WriteInvalidateReq.

Definition is_read (cm : MemCmd.Command) : bool := bool_decide (cm = MemCmd.ReadReq).

(** A dirty line is supplied unless it is about to be overwritten. *)
Definition supplies (cm : MemCmd.Command) (st : lstate) : bool :=
  dirty st && negb (bool_decide (cm = MemCmd.WriteInvalidateReq)).

(** A read takes the permission to write away, the other requests the line. *)
Definition snooped (cm : MemCmd.Command) (st : lstate) : lstate :=
  if is_read cm then (fun wd => (false, wd.2)) <$> st else None.

Lemma bus_request_facts cm : bus_request cm ->
  MemCmd.isRequest cm = true /\ MemCmd.needsResponse cm = true /\ MemCmd.isInvalidate cm = negb (is_read cm) /\
  MemCmd.needsExclusive cm = negb (is_read cm) /\ cm <> MemCmd.Writeback /\ cm <> MemCmd.HardPFReq /\
  MemCmd.isWriteInvalidate cm = bool_decide (cm = MemCmd.WriteInvalidateReq) /\
  MemCmd.isRead cm && negb (MemCmd.isInvalidate cm) = is_read cm /\
  MemCmd.isResponse cm = false /\ MemCmd.isResponse (MemCmd.responseCommand cm) = true /\
  MemCmd.responseCommand cm <> cm /\ MemCmd.needsExclusive (MemCmd.responseCommand cm) = negb (is_read cm) /\
  MemCmd.responseCommand cm <> MemCmd.InvalidCmd /\ MemCmd.responseCommand cm <> MemCmd.Writeback.
Proof. intros [-> | [-> | [-> | ->]]]; vm_compute; split_and!; done. Qed.

Section snoops.
Context {G : Type} `{Generator G} (lo hi k s mm : Z) (Hlo : 0 <= lo).
Local Abbreviation tracks := (tracks lo hi k s mm).
Local Abbreviation Issue := (CacheIssue.Issue (G := G)).

(** Nothing waits in the cache: there are no MSHRs for writebacks and the ports
    have nothing to send. *)
Record idle (iss : Issue) : Prop := {
  id_responses : PacketQueue.transmitList (CachePort.queue (CacheIssue.cpuSidePort iss)) = [];
  id_writebacks : MSHRQueue.allocatedList (CacheIssue.writeBuffer iss) = [];
  id_requests : PacketQueue.transmitList (CacheIssue.reqQueue iss) = [];
  id_snoops : PacketQueue.transmitList (CacheIssue.snoopRespQueue iss) = [];
}.

(** An idle cache with nothing above it, whose ranges have the memory. *)
Record node (F : Z -> Z) (V : Z -> lstate) (u : Issue * ()) : Prop := {
  nd_tracks : tracks F V (CacheIssue.cache u.1);
  nd_range a : lo <= a <= hi -> CacheSnoop.inRange a u.1 = true;
  nd_idle : idle u.1;
}.

Definition put_cache (c : Cache) (u : Issue * ()) : Issue * () := (u.1 <| CacheIssue.cache := c |>, u.2).

Lemma node_put F F' V V' c u : node F V u -> tracks F' V' c -> node F' V' (put_cache c u).
Proof. intros [? ? []] ?. by split. Qed.

(** The block of a read that is snooped stays readable. *)
Lemma downgrade_tracks F V c p b :
  tracks F V c -> BaseSetAssoc.blks (tags c) !! p = Some b -> Blk.isValid b = true ->
  tracks F (upd V (line s b) (Some (false, Blk.isDirty b)))
    (put_blk (InTags p) (b <| Blk.status ::= (fun st => Z.land st (unot 32 Blk.BlkWritable)) |>) c).
Proof.
  intros Ht Hp Hv. set (b' := b <| Blk.status ::= _ |>). destruct (tr_blk _ _ _ _ _ _ _ _ Ht p b Hp Hv) as [[G1 G2 G3 G4 G5 G6] EV].
  destruct (status_bits b) as (_ & R1 & E1 & E2 & E3). destruct (status_bits b') as (W & R & V1 & D1 & S1).
  pose proof (clear_status_bit (Blk.status b) 1 ltac:(lia)) as Hi. change (Z.land _ _) with (Blk.status b') in Hi.
  rewrite (Hi 1), andb_false_l in W by lia. rewrite (Hi 2), (Hi 0) in R by lia. rewrite (Hi 0) in V1 by lia.
  rewrite (Hi 3) in D1 by lia. rewrite (Hi 6) in S1 by lia. simpl in R, V1, D1, S1.
  assert (Blk.isWritable b' = false) as Ew by by rewrite W. assert (Blk.isDirty b' = Blk.isDirty b) as Ed by congruence.
  rewrite <- Ew, <- Ed. apply (put_tracks lo hi k s mm F F V c p b b'); try done.
  - unfold BaseSetAssoc.slot. by rewrite V1, S1, E1, E3.
  - congruence.
  - congruence.
Qed.

(** A block that was written back is clean. *)
Lemma cleaned_tracks F V c p b :
  tracks F V c -> BaseSetAssoc.blks (tags c) !! p = Some b -> Blk.isValid b = true ->
  let b' := b <| Blk.status ::= (fun st => Z.land st (unot 32 Blk.BlkDirty)) |> in
  tracks F (upd V (line s b) (Some (Blk.isWritable b, false))) (put_blk (InTags p) b' c) /\ Blk.isDirty b' = false.
Proof.
  intros Ht Hp Hv b'. destruct (tr_blk _ _ _ _ _ _ _ _ Ht p b Hp Hv) as [[G1 G2 G3 G4 G5 G6] EV].
  destruct (status_bits b) as (W1 & R1 & E1 & _ & E3). destruct (status_bits b') as (W & R & V1 & D1 & S1).
  pose proof (clear_status_bit (Blk.status b) 3 ltac:(lia)) as Hi. change (Z.land _ _) with (Blk.status b') in Hi.
  rewrite (Hi 1), (Hi 0) in W by lia. rewrite (Hi 2), (Hi 0) in R by lia. rewrite (Hi 0) in V1 by lia.
  rewrite (Hi 3) in D1 by lia. rewrite (Hi 6) in S1 by lia. simpl in W, R, V1, D1, S1. split; [|done].
  rewrite <- W1 in W. rewrite <- W, <- D1. apply (put_tracks lo hi k s mm F F V c p b b'); try done.
  - unfold BaseSetAssoc.slot. by rewrite V1, S1, E1, E3.
  - congruence.
  - congruence.
Qed.

Lemma drop_or_keep F V c L st : tracks F V c -> V L = st -> tracks F (upd V L st) c.
Proof. intros Ht <-. apply (tracks_ext _ _ _ _ _ F V); [|done]. intros L'. unfold upd. by case_decide; subst. Qed.

Lemma snoop_block_ok e F V (iss : Issue) p b L r cm sh inh d pkt :
  tracks F V (CacheIssue.cache iss) -> BaseSetAssoc.blks (tags (CacheIssue.cache iss)) !! p = Some b ->
  Blk.isValid b = true -> line s b = L -> bus_request cm -> onbus k r L cm sh inh d pkt ->
  Request.isUncacheable r = false -> (supplies cm (V L) = true -> inh = false) ->
  let resp := supplies cm (V L) in
  exists pkt' c', CacheSnoop.snoop_block e false false false (negb (is_read cm)) (negb (is_read cm)) pkt (InTags p) iss =
      Ok (pkt', iss <| CacheIssue.cache := c' |>) /\ tracks F (upd V L (snooped cm (V L))) c' /\
    onbus k r L (if resp then MemCmd.responseCommand cm else cm) (sh || is_read cm) (inh || resp)
      (if resp then read_bytes F (L * 2 ^ k) (2 ^ k) else d) pkt'.
Proof.
  intros Ht Hp Hv Hl Hcm Hb Hun Hinh resp. destruct (bus_request_facts cm Hcm) as (Q1 & Q2 & Q3 & Q4 & Q5 & Q6 & Q7 & Q8 & _).
  destruct (tracks_geo _ _ _ _ _ _ _ _ Ht) as (Hk & Hs & Hk0 & Hs0 & Hbs). set (c := CacheIssue.cache iss) in *.
  destruct (tr_blk _ _ _ _ _ _ _ _ Ht p b Hp Hv) as [Hgd EV]. rewrite Hl in EV.
  pose proof (gd_data _ _ _ _ _ _ Hgd) as Hd. rewrite Hl in Hd.
  assert (get_blk (InTags p) c = Ok b) as Hg by by apply pget_ok.
  assert (Blk.isDirty b && Packet.needsResponse pkt && negb (Packet.isWriteInvalidate pkt) = resp) as Eresp.
  { unfold Packet.needsResponse, Packet.isWriteInvalidate, resp, supplies. rewrite (ob_cmd _ _ _ _ _ _ _ _ Hb), Q2, Q7, EV. simpl.
    by rewrite andb_true_r. }
  unfold CacheSnoop.snoop_block. fold c. rewrite Hg. cbn [mbind outcome_bind]. cbv zeta. rewrite Eresp.
  rewrite decide_False by (rewrite (ob_cmd _ _ _ _ _ _ _ _ Hb); done).
  assert (negb (Request.isUncacheable (Packet.req pkt)) && Packet.isRead pkt && negb (negb (is_read cm)) = is_read cm) as ->.
  { unfold Packet.isRead. rewrite (ob_cmd _ _ _ _ _ _ _ _ Hb), (ob_req _ _ _ _ _ _ _ _ Hb), Hun, negb_involutive.
    rewrite Q3, negb_involutive in Q8. simpl. exact Q8. }
  (* the state of the block and the shared flag *)
  assert (exists c1 b1 pkt1,
    (if is_read cm then
       _ ← ensure AssertFailed (negb (negb (is_read cm)));
       Ok (Packet.assertShared pkt, iss <| CacheIssue.cache ::= put_blk (InTags p)
             (b <| Blk.status ::= (fun st => Z.land st (unot 32 Blk.BlkWritable)) |>) |>)
     else Ok (pkt, iss)) = Ok (pkt1, iss <| CacheIssue.cache := c1 |>) /\
    onbus k r L cm (sh || is_read cm) inh d pkt1 /\ blkSize c1 = 2 ^ k /\
    BaseSetAssoc.blks (tags c1) !! p = Some b1 /\ Blk.isValid b1 = true /\ line s b1 = L /\
    tracks F (if is_read cm then upd V L (Some (false, Blk.isDirty b)) else V) c1) as (c1 & b1 & pkt1 & -> & Hb1 & Hbs1 & Hp1 & Hv1 & Hl1 & Ht1).
  { destruct (is_read cm); cbn [negb mbind outcome_bind ensure].
    - eexists _, _, _. split; [reflexivity|]. rewrite orb_true_r. split; [by eapply onbus_shared|]. split; [done|].
      split; [simpl; apply list_lookup_insert_eq; by eapply lookup_lt_Some|].
      pose proof (downgrade_tracks F V c p b Ht Hp Hv) as Hdt. rewrite Hl in Hdt. split; [|split; [done|exact Hdt]].
      unfold Blk.isValid, any_set in *. simpl. rewrite <- Z.land_assoc. exact Hv.
    - exists c, b, pkt. rewrite orb_false_r. split; [|done]. subst c. by destruct iss. }
  cbn [mbind outcome_bind].
  (* the response *)
  assert (exists pkt2,
    (if resp then
       pkt ← Packet.assertMemInhibit pkt1;
       pkt ← Packet.makeResponse (if Blk.isWritable b then Packet.setSupplyExclusive pkt else pkt);
       pkt ← Packet.setDataFromBlock (Blk.data b) (blkSize (CacheIssue.cache (iss <| CacheIssue.cache := c1 |>))) pkt;
       Ok (pkt, iss <| CacheIssue.cache := c1 |>)
     else Ok (pkt1, iss <| CacheIssue.cache := c1 |>)) = Ok (pkt2, iss <| CacheIssue.cache := c1 |>) /\
    onbus k r L (if resp then MemCmd.responseCommand cm else cm) (sh || is_read cm) (inh || resp)
      (if resp then read_bytes F (L * 2 ^ k) (2 ^ k) else d) pkt2) as (pkt2 & E2 & Hb2).
  { destruct resp eqn:Er; [|exists pkt1; by rewrite orb_false_r].
    destruct (onbus_inhibit k r L cm (sh || is_read cm) inh d pkt1 Hb1 Q1 (Hinh Er)) as (p1 & -> & O1). cbn [mbind outcome_bind].
    assert (onbus k r L cm (sh || is_read cm) true d (if Blk.isWritable b then Packet.setSupplyExclusive p1 else p1)) as O2
      by (destruct (Blk.isWritable b); [by apply onbus_exclusive|done]).
    destruct (onbus_response k r L cm (sh || is_read cm) true d _ O2 Q1 Q2) as (p2 & -> & O3). cbn [mbind outcome_bind].
    destruct (onbus_data k r L _ (sh || is_read cm) true d p2 O3 (Blk.data b)) as (p3 & E3 & O4);
      [rewrite Hd, read_bytes_length; lia|done|].
    change (blkSize (CacheIssue.cache _)) with (blkSize c1). rewrite Hbs1, E3. cbn [mbind outcome_bind].
    exists p3. split; [done|]. rewrite orb_true_r, <- Hd. done. }
  rewrite E2. cbn [mbind outcome_bind]. rewrite andb_false_r. cbn [andb mbind outcome_bind].
  unfold snooped. rewrite EV. destruct (is_read cm) eqn:Eis; cbn [negb].
  - exists pkt2, c1. done.
  - destruct (drop_tracks lo hi k s mm F V c1 (curTick e) p b1 Ht1 Hp1 Hv1) as (c2 & E & Ht2). rewrite Hl1 in Ht2.
    change (CacheIssue.cache (iss <| CacheIssue.cache := c1 |>)) with c1. rewrite E. cbn [mbind outcome_bind].
    exists pkt2, c2. done.
Qed.

Lemma snoop_node e F V u L r cm sh inh d pkt :
  bypassCaches e = false -> node F V u -> bus_request cm -> onbus k r L cm sh inh d pkt ->
  Request.isUncacheable r = false -> lo <= L * 2 ^ k -> L * 2 ^ k + 2 ^ k - 1 <= hi ->
  (supplies cm (V L) = true -> inh = false) ->
  let resp := supplies cm (V L) in
  exists pkt' lat u', sendAtomicSnoop (SnoopPort := CacheSnoop.cache_above e) pkt u = Ok (pkt', lat, u') /\
    node F (upd V L (snooped cm (V L))) u' /\
    onbus k r L (if resp then MemCmd.responseCommand cm else cm) (sh || held (V L) && is_read cm) (inh || resp)
      (if resp then read_bytes F (L * 2 ^ k) (2 ^ k) else d) pkt'.
Proof.
  intros Hby [Ht Hrg Hid] Hcm Hb Hun Hl Hh Hinh resp. destruct (bus_request_facts cm Hcm) as (Q1 & Q2 & Q3 & Q4 & Q5 & Q6 & Q7 & Q8 & _).
  destruct (tracks_geo _ _ _ _ _ _ _ _ Ht) as (Hk & Hs & Hk0 & Hs0 & Hbs). pose proof Hb as [Bc Br Ba Bz Bad Bsz Bs Bsh Bin Bp Bl].
  destruct u as [iss []]. simpl in Ht, Hrg.
  destruct (tracks_find lo hi k s mm F V _ (L * 2 ^ k) Ht ltac:(lia)) as (blk & Ef & Hblk). rewrite Z.div_mul in Hblk by lia.
  assert (forall o : outcome (Packet.Packet * Issue * ()),
    (if CacheIssue.forwardSnoops (CacheIssue.params iss) then CacheSnoop.forward_snoop e false pkt iss () else Ok (pkt, iss, ())) = Ok (pkt, iss, ())) as Efw.
  { intros _. destruct (CacheIssue.forwardSnoops _); [|done]. unfold CacheSnoop.forward_snoop. simpl.
    rewrite Bin. by destruct inh. }
  simpl. unfold CacheSnoop.recvAtomicSnoop. rewrite Hby. cbn [mbind outcome_bind ensure negb].
  rewrite decide_False by congruence. unfold Packet.getAddr, Packet.isSecure. rewrite Ba, Bad, Bs. cbn [mbind outcome_bind ensure].
  rewrite Hrg by lia. cbn [negb]. rewrite Ef. cbn [mbind outcome_bind].
  unfold CacheSnoop.handleSnoop, Packet.isRequest, Packet.isInvalidate, Packet.needsExclusive. rewrite Bc, Q1, Q3, Q4.
  cbn [mbind outcome_bind ensure negb andb]. rewrite (Efw (Fail Undefined)). cbn [mbind outcome_bind].
  destruct blk as [p|]; cbn [fmap option_fmap option_map].
  - destruct Hblk as (b & Hp & Hv & Hlb). assert (get_blk (InTags p) (CacheIssue.cache iss) = Ok b) as -> by by apply pget_ok.
    cbn [mbind outcome_bind]. rewrite Hv. cbn [negb].
    destruct (snoop_block_ok e F V iss p b L r cm sh inh d pkt Ht Hp Hv Hlb Hcm Hb Hun Hinh) as (pkt' & c' & E & Ht' & Hb').
    rewrite E. cbn [mbind outcome_bind]. destruct (tr_blk _ _ _ _ _ _ _ _ Ht p b Hp Hv) as [_ EV]. rewrite Hlb in EV.
    eexists _, _, _. split; [reflexivity|]. split; [by apply (node_put F F V _ c' (iss, ()))|]. assert (held (V L) = true) as -> by (by rewrite EV). exact Hb'.
  - cbn [mbind outcome_bind]. eexists _, _, _. split; [reflexivity|]. unfold resp, supplies, snooped. rewrite Hblk. simpl.
    rewrite !orb_false_r. split; [|done]. split; [|done..]. apply drop_or_keep; [done|]. rewrite Hblk. by destruct (is_read cm).
Qed.

(** A writeback passes. *)
Lemma snoop_writeback_node e u pkt :
  bypassCaches e = false -> Packet.cmd pkt = MemCmd.Writeback ->
  sendAtomicSnoop (SnoopPort := CacheSnoop.cache_above e) pkt u = Ok (pkt, 0, u).
Proof.
  intros Hby Hc. destruct u as [iss []]. simpl. unfold CacheSnoop.recvAtomicSnoop. rewrite Hby. cbn [mbind outcome_bind ensure negb].
  by rewrite decide_True.
Qed.

End snoops.

(** ** The lookup of a request *)

Section access.
Context (lo hi k s mm : Z).
Local Abbreviation tracks := (tracks lo hi k s mm).
Local Abbreviation access_ok := (access_ok lo hi k mm).

(** The counters are not read. *)
Lemma tracks_same F V c c' :
  tracks F V c -> tags c' = tags c -> maxMasters c' = maxMasters c -> isTopLevel c' = isTopLevel c ->
  mshrQueue c' = mshrQueue c -> blkSize c' = blkSize c -> tracks F V c'.
Proof.
  intros Ht E1 E2 E3 E4 E5. pose proof Ht as [[A Hok] _ _ _ _ _ _]. apply (tracks_frame lo hi k s mm F V c); try done; [|by rewrite E1].
  exists A. destruct Hok as [C1 C2 C3]. split; rewrite ?E1, ?E2, ?E5; done.
Qed.

Lemma miss_tracked F V c pkt d :
  tracks F V c -> access_ok pkt d ->
  exists c', incMissCount pkt c = Ok (pkt <| Packet.req ::= (fun r => r <| Request.depth ::= Z.add 1 |>) |>, c') /\
    tracks F V c' /\ tags c' = tags c.
Proof.
  intros Ht Ha. unfold incMissCount. rewrite (tr_masters _ _ _ _ _ _ _ _ Ht), (proj2 (Z.ltb_lt _ _)) by apply Ha.
  cbn [mbind outcome_bind ensure]. cbv zeta. eexists. split; [reflexivity|].
  match goal with |- tracks F V ?c' /\ _ =>
    assert (tags c' = tags c /\ maxMasters c' = maxMasters c /\ isTopLevel c' = isTopLevel c /\ mshrQueue c' = mshrQueue c /\
      blkSize c' = blkSize c) as (E1 & E2 & E3 & E4 & E5); [|split; [by apply (tracks_same F V c)|done]] end.
  destruct (_ =? 0); [done|]. by destruct (_ =? 0).
Qed.

Lemma access_tracks F V e h c pkt d :
  tracks F V c -> access_ok pkt d ->
  exists a, Cache.access (curTick e) (clockPeriod e) (fresh e) h pkt [] c = Ok a /\ r_writebacks a = [] /\
    (if r_hit a then
       tracks (after F pkt d) (served k V pkt) (r_cache a) /\ Packet.cmd (r_pkt a) = Packet.cmd pkt /\
       (Packet.cmd pkt = MemCmd.ReadReq -> Packet.data (r_pkt a) = Some (read_bytes F (Packet.addr pkt) (Packet.size pkt))) /\
       (Packet.isWrite pkt = true -> writable (V (Packet.addr pkt / 2 ^ k)) = true)
     else
       r_pkt a = pkt <| Packet.req ::= (fun r => r <| Request.depth ::= Z.add 1 |>) |> /\ tracks F V (r_cache a) /\
       match r_blk a with
       | None => V (Packet.addr pkt / 2 ^ k) = None
       | Some r => exists p b, r = InTags p /\ BaseSetAssoc.blks (tags (r_cache a)) !! p = Some b /\ Blk.isValid b = true /\
           line s b = Packet.addr pkt / 2 ^ k /\ Blk.isWritable b = false /\ Packet.needsExclusive pkt = true
       end).
Proof.
  intros Ht Ha. pose proof Ha as [Hc Fa _ _ _ _ Hl _ _ Hs _ _ _ _ _ Hu _ _].
  assert (Packet.isRequest pkt = true /\ Packet.cmd pkt <> MemCmd.Writeback /\ Packet.isLLSC pkt = false /\
    Packet.isWrite pkt = Packet.needsExclusive pkt /\ (Packet.needsExclusive pkt = false -> Packet.cmd pkt = MemCmd.ReadReq)) as (Q1 & Q2 & Q3 & Q4 & Q5).
  { unfold Packet.isRequest, Packet.isLLSC, Packet.isWrite, Packet.needsExclusive. by destruct Hc as [->|[->|[-> _]]]. }
  unfold Cache.access. rewrite Q1, Hu. cbn [mbind outcome_bind ensure]. unfold Packet.getAddr, Packet.isSecure.
  rewrite Fa, Hs. cbn [mbind outcome_bind ensure].
  destruct (tracks_lookup lo hi k s mm F V (curTick e) (clockPeriod e) c (Packet.addr pkt) Ht Hl) as (r & lat & t & E & Ht1 & Hr).
  rewrite E. cbn [mbind outcome_bind]. rewrite decide_False by done. set (c1 := c <| tags := t |>) in *.
  assert (forall blk, match blk with Some p => exists b, BaseSetAssoc.blks t !! p = Some b /\ Blk.isValid b = true /\
      line s b = Packet.addr pkt / 2 ^ k /\ Blk.isWritable b = false /\ Packet.needsExclusive pkt = true
    | None => V (Packet.addr pkt / 2 ^ k) = None end ->
    exists c2, incMissCount pkt c1 = Ok (pkt <| Packet.req ::= (fun r => r <| Request.depth ::= Z.add 1 |>) |>, c2) /\
      tracks F V c2 /\ match InTags <$> blk with
       | None => V (Packet.addr pkt / 2 ^ k) = None
       | Some r => exists p b, r = InTags p /\ BaseSetAssoc.blks (tags c2) !! p = Some b /\ Blk.isValid b = true /\
           line s b = Packet.addr pkt / 2 ^ k /\ Blk.isWritable b = false /\ Packet.needsExclusive pkt = true
       end) as Hmiss.
  { intros blk Hblk. destruct (miss_tracked F V c1 pkt d Ht1 Ha) as (c2 & E2 & Ht2 & Et). exists c2. split; [done|]. split; [done|].
    destruct blk as [p|]; [|done]. destruct Hblk as (b & Hb). exists p, b. by rewrite Et. }
  destruct r as [p|].
  - destruct Hr as (b & Hb & Hv & Hlb). destruct (tr_blk _ _ _ _ _ _ _ _ Ht1 p b Hb Hv) as [Hg EV]. rewrite Hlb in EV.
    assert (get_blk (InTags p) c1 = Ok b) as Hgb by by apply pget_ok. rewrite Hgb. cbn [mbind outcome_bind].
    rewrite (gd_readable _ _ _ _ _ _ Hg).
    destruct (if Packet.needsExclusive pkt then Blk.isWritable b else true) eqn:Ehit.
    + unfold incHitCount. rewrite (tr_masters _ _ _ _ _ _ _ _ Ht1), (proj2 (Z.ltb_lt _ _)) by apply Ha. cbn [mbind outcome_bind ensure].
      set (c2 := c1 <| hits ::= _ |>). assert (tracks F V c2) as Ht2 by by apply (tracks_same F V c1).
      destruct (Packet.needsExclusive pkt) eqn:Ex.
      * destruct (serve_tracks lo hi k s mm F V (curTick e) c2 p b pkt d) as (c' & Es & Hfin); try done.
        -- apply Ht2.
        -- destruct (tr_ok _ _ _ _ _ _ _ _ Ht2) as [A Hok]. rewrite <- (co_blkSize _ _ _ _ Hok). exact (co_data _ _ _ _ Hok p b Hb).
        -- left. by rewrite (gd_data _ _ _ _ _ _ Hg), Hlb.
        -- rewrite <- Hlb, <- (gd_data _ _ _ _ _ _ Hg). replace (b <| Blk.data := Blk.data b |>) with b by (by destruct b). by rewrite put_same.
        -- rewrite Es. cbn [mbind outcome_bind]. eexists. split; [reflexivity|]. split; [done|]. split; [done|]. split; [done|].
           split; [|by rewrite EV]. intros Hrd. unfold Packet.needsExclusive in Ex. by rewrite Hrd in Ex.
      * destruct (read_tracks lo hi k s mm F V (curTick e) c2 p b pkt d Ha Ht2 Hb Hv Hlb (Q5 eq_refl)) as (pkt' & Es & Ec & Ed).
        rewrite Es. cbn [mbind outcome_bind]. eexists. split; [reflexivity|]. split; [done|]. unfold after, served. rewrite Q4. simpl.
        split; [done|]. split; [done|]. split; [by intros _|done].
    + assert (Packet.needsExclusive pkt = true) as Ex by by destruct (Packet.needsExclusive pkt). rewrite Ex in Ehit.
      destruct (Hmiss (Some p)) as (c2 & -> & Ht2 & Hb2); [by exists b|]. cbn [mbind outcome_bind].
      eexists. split; [reflexivity|]. done.
  - cbn [mbind outcome_bind]. destruct (Hmiss None Hr) as (c2 & -> & Ht2 & Hb2). cbn [mbind outcome_bind]. unfold Packet.isLLSC.
    change (Packet.cmd (_ <| Packet.req ::= _ |>)) with (Packet.cmd pkt). fold (Packet.isLLSC pkt). rewrite Q3. cbn [andb].
    eexists. split; [reflexivity|]. done.
Qed.

End access.

End CoherentCache.
