(* ===== verification/Coherence.v ===== *)
(** Several caches above a coherent crossbar above a memory, in atomic mode
    (mem/cache/cache_impl.hh, mem/coherent_xbar.cc, mem/snoop_filter.cc): for any
    number of caches, with or without a snoop filter, they are one memory.

    [V i] has the states of the lines in cache [i]. The bus lemmas say how a
    request of cache [i] that goes through the crossbar changes the other caches
    and the memory, and what comes back. *)

From S2P Require Import Prelude IntMath AddrRange Request MemCmd Packet Functional PacketQueue CachePort.
From S2P Require Import Blk CacheSet BaseSetAssoc LRU BasePrefetcher QueuedPrefetcher MSHR MSHRQueue XBar SnoopFilter.
From S2P Require Import AbstractMemory AtomicPort SimpleMemory Cache CacheIssue CacheAtomic CacheSnoop CoherentXBar CoherentCache TaggedPrefetcher.
Import AbstractMemory Cache CacheAtomic CoherentCache.
Local Open Scope Z_scope.

Module Coherence.

(** Cache [i] reaches the memory through slave port [i] of the crossbar. *)
Definition xbar_port {G : Type} `{Generator G} {M : Type} `{AtomicPort M} (e : Env) (i : nat)
  : AtomicPort (CoherentXBar.CoherentXBar (U := CacheIssue.Issue (G := G) * ()) (M := M)) :=
  fun pkt x => CoherentXBar.recvAtomic (H := CacheSnoop.cache_above e) e (Z.of_nat i) pkt x.

Lemma node_ext lo hi k s mm {G : Type} {GG : Generator G} F V V' (u : CacheIssue.Issue (G := G) * ()) :
  (forall L, V' L = V L) -> node lo hi k s mm F V u -> node lo hi k s mm F V' u.
Proof. intros E []. split; [|done..]. by apply (tracks_ext _ _ _ _ _ F V). Qed.

Section bus.
Context {G : Type} {GG : Generator G} {M : Type} {AP : AtomicPort M} (lo hi : Z) {PO : AtomicPortOk M lo hi}
  {SP : SnoopedPortOk M lo hi}.
Context (k : Z) (s : nat -> Z) (mm : Z) (n : nat) (mp : Z) (routes : XBar.BaseXBar -> Prop).
Context (Hlo : 0 <= lo) (Hhi : hi < 2 ^ 64) (Hk : 2 <= k < 32) (Hmp : 0 <= mp).
(** The memory is behind master port [mp]. *)
Context (Hroutes : forall xb a, routes xb -> lo <= a <= hi -> exists xb', XBar.findPort a xb = Ok (mp, xb') /\ routes xb').
Local Abbreviation Issue := (CacheIssue.Issue (G := G)).
Local Abbreviation X := (CoherentXBar.CoherentXBar (U := Issue * ()) (M := M)).

Definition in_line (L : Z) : Prop := lo <= L * 2 ^ k /\ L * 2 ^ k + 2 ^ k - 1 <= hi.

(** ** The snoop filter *)

(** The filter may miss no holder; between requests nothing is requested. *)
Record filter_rest (L : Z) (V : nat -> Z -> lstate) (f : SnoopFilter.SnoopFilter) : Prop := {
  fr_wf : SnoopFilter.wf n k f;
  fr_ports : Z.of_nat n <= 64;
  fr_hi : hi < 2 ^ 32;
  fr_item L' : in_line L' -> L' <> L -> exists h, SnoopFilter.item (L' * 2 ^ k) f = SnoopFilter.MkItem 0 h /\
    forall j, (j < n)%nat -> held (V j L') = true -> Z.testbit h (Z.of_nat j) = true;
}.

Definition filter_at (L : Z) (it : SnoopFilter.SnoopItem) (V : nat -> Z -> lstate) (o : option SnoopFilter.SnoopFilter) : Prop :=
  forall f, o = Some f -> filter_rest L V f /\ SnoopFilter.item (L * 2 ^ k) f = it.

Definition filter_ok (V : nat -> Z -> lstate) (o : option SnoopFilter.SnoopFilter) : Prop :=
  forall f L, o = Some f -> filter_rest L V f.

Lemma filter_ok_at V o L : filter_ok V o -> in_line L ->
  exists h, filter_at L (SnoopFilter.MkItem 0 h) V o /\
    forall j, (j < n)%nat -> held (V j L) = true -> Z.testbit h (Z.of_nat j) = true.
Proof.
  intros Hf HL. destruct o as [f|]; [|exists (-1); split; [done|]; intros; apply Z.bits_m1; lia].
  destruct (fr_item _ _ _ (Hf f (L + 1) eq_refl) L HL ltac:(lia)) as (h & Eh & Hh).
  exists h. split; [|done]. intros g [= <-]. split; [by apply Hf|done].
Qed.

Lemma filter_rest_ext L V V' f f' :
  filter_rest L V f -> (forall j L', L' <> L -> held (V' j L') = true -> held (V j L') = true) ->
  SnoopFilter.wf n k f' -> SnoopFilter.others_same k L f f' -> filter_rest L V' f'.
Proof.
  intros [F1 F2 F3 F4] HV Hw Ho. split; try done. intros L' Hin Hne. destruct (F4 L' Hin Hne) as (h & Eh & Hh).
  exists h. rewrite Ho by (intros E; apply Hne; pose proof (pow2_pos k ltac:(lia)); nia). split; [done|].
  intros j Hj Hd. apply Hh; [done|]. by apply HV.
Qed.

(** ** The crossbar seen from cache [i] *)

(** The other caches, the memory and the tables; the entry of cache [i] itself is
    not looked at while cache [i] is at work. *)
Record bus (i : nat) (F Gm : Z -> Z) (V : nat -> Z -> lstate) (x : X) : Prop := {
  bs_len : length (CoherentXBar.above x) = n;
  bs_node j u : j <> i -> CoherentXBar.above x !! j = Some u -> node lo hi k (s j) mm F (V j) u;
  bs_self u : CoherentXBar.above x !! i = Some u -> forall a, lo <= a <= hi -> CacheSnoop.inRange a u.1 = true;
  bs_ports : CoherentXBar.snoopPorts x = seqZ 0 (Z.of_nat n);
  bs_mem : exists m, CoherentXBar.below x !! Z.to_nat mp = Some m /\ port_rep Gm m;
  bs_xbar : routes (CoherentXBar.xbar x);
}.

(** What the others have after the snoops of [dests]. *)
Definition visited (i : nat) (dests : list Z) (j : nat) : bool := bool_decide (Z.of_nat j ∈ dests) && negb (bool_decide (j = i)).
Definition after_snoops (i : nat) (L : Z) (cm : MemCmd.Command) (dests : list Z) (V : nat -> Z -> lstate) : nat -> Z -> lstate :=
  fun j => if visited i dests j then upd (V j) L (snooped cm (V j L)) else V j.
Definition any_of (i : nat) (L : Z) (P : lstate -> bool) (dests : list Z) (V : nat -> Z -> lstate) : bool :=
  existsb (fun p => negb (p =? Z.of_nat i) && P (V (Z.to_nat p) L)) dests.

Lemma after_snoops_cons i L cm p dests V : 0 <= p -> p <> Z.of_nat i -> p ∉ dests ->
  forall j L', after_snoops i L cm dests
      (fun j => if decide (j = Z.to_nat p) then upd (V j) L (snooped cm (V j L)) else V j) j L' =
    after_snoops i L cm (p :: dests) V j L'.
Proof.
  intros Hp Hi Hn j L'. unfold after_snoops, visited. destruct (decide (j = Z.to_nat p)) as [->|Hne].
  - rewrite Z2Nat.id by done. rewrite (bool_decide_eq_false_2 (p ∈ dests)), (bool_decide_eq_true_2 (p ∈ p :: dests)) by (done || left).
    rewrite bool_decide_eq_false_2 by lia. done.
  - rewrite (bool_decide_ext (Z.of_nat j ∈ dests) (Z.of_nat j ∈ p :: dests)); [done|].
    rewrite elem_of_cons. split; [by right|]. intros [E|?]; [|done]. exfalso. apply Hne. lia.
Qed.

Lemma any_of_ext i L P dests V V' :
  (forall p, p ∈ dests -> p <> Z.of_nat i -> V' (Z.to_nat p) L = V (Z.to_nat p) L) ->
  any_of i L P dests V' = any_of i L P dests V.
Proof.
  unfold any_of. induction dests as [|p dests IH]; intros H; [done|]. simpl. rewrite IH by (intros; apply H; [by right|done]).
  destruct (Z.eqb_spec p (Z.of_nat i)); [done|]. by rewrite H by (done || left).
Qed.

Lemma any_of_false i L P dests V : (forall p, p ∈ dests -> p <> Z.of_nat i -> P (V (Z.to_nat p) L) = false) ->
  any_of i L P dests V = false.
Proof.
  unfold any_of. induction dests as [|p dests IH]; intros H; [done|]. simpl. rewrite IH by (intros; apply H; [by right|done]).
  destruct (Z.eqb_spec p (Z.of_nat i)); [done|]. by rewrite H by (done || left).
Qed.

Lemma bus_ext i F Gm V V' x : (forall j L, V' j L = V j L) -> bus i F Gm V x -> bus i F Gm V' x.
Proof. intros E []. split; try done. intros j u Hj Hu. apply (node_ext _ _ _ _ _ F (V j)); [done|]. by apply bs_node0. Qed.

(** Cache [p] is snooped. *)
Lemma bus_put i F Gm V x p u st L :
  bus i F Gm V x -> (p < n)%nat -> p <> i -> node lo hi k (s p) mm F (upd (V p) L st) u ->
  bus i F Gm (fun j => if decide (j = p) then upd (V j) L st else V j) (x <| CoherentXBar.above ::= <[p := u]> |>).
Proof.
  intros [B1 B2 B3 B4 B5 B6] Hp Hne Hu. split; simpl; try done.
  - by rewrite length_insert.
  - intros j v Hj. destruct (decide (j = p)) as [->|Hn].
    + rewrite list_lookup_insert_eq by lia. by intros [= <-].
    + rewrite list_lookup_insert_ne by done. by apply B2.
  - intros v. rewrite list_lookup_insert_ne by done. apply B3.
Qed.

Lemma bus_frame i F Gm Gm' V x x' m' :
  bus i F Gm V x -> CoherentXBar.above x' = CoherentXBar.above x -> CoherentXBar.snoopPorts x' = CoherentXBar.snoopPorts x ->
  CoherentXBar.below x' = <[Z.to_nat mp := m']> (CoherentXBar.below x) -> port_rep Gm' m' -> routes (CoherentXBar.xbar x') ->
  bus i F Gm' V x'.
Proof.
  intros [B1 B2 B3 B4 (m & Hm & _) B6] E1 E2 E3 Hm' Hx. split; rewrite ?E1, ?E2; try done.
  exists m'. rewrite E3, list_lookup_insert_eq; [done|]. by eapply lookup_lt_Some.
Qed.

(** ** Snooping *)

Section snooping.
Context (e : Env) (Hby : bypassCaches e = false) (i : nat) (Hi : (i < n)%nat) (F Gm : Z -> Z) (L : Z) (HL : in_line L).
Context (r : Request.Request) (Hr : Request.isUncacheable r = false) (cm : MemCmd.Command) (Hcm : bus_request cm).
Context (V0 : nat -> Z -> lstate) (h : Z).
Local Abbreviation forward := (CoherentXBar.forward_atomic (U := Issue * ()) (H := CacheSnoop.cache_above e) (M := M)).

(** The filter learns of the response of [p]. *)
Lemma filter_responded (p : nat) V x pkt sh d :
  filter_at L (SnoopFilter.MkItem (2 ^ Z.of_nat i) h) V (CoherentXBar.snoopFilter (U := Issue * ()) (M := M) x) ->
  (p < n)%nat -> (CoherentXBar.snoopFilter x <> None -> Z.testbit h (Z.of_nat p) = true) ->
  onbus k r L (MemCmd.responseCommand cm) (sh || is_read cm) true d pkt ->
  exists f, match CoherentXBar.snoopFilter x with
            | None => Ok None
            | Some f =>
                f ← (if negb (XBar.InvalidPortID =? XBar.InvalidPortID) then
                       _ ← ensure AssertFailed (Z.of_nat i =? XBar.InvalidPortID);
                       SnoopFilter.updateSnoopForward pkt (Z.of_nat p) f
                     else SnoopFilter.updateSnoopResponse pkt (Z.of_nat p) (Z.of_nat i) f);
                Ok (Some f)
            end = Ok f /\ filter_at L (SnoopFilter.responded_item (negb (is_read cm)) h i) V f /\
    (f <> None -> CoherentXBar.snoopFilter x <> None).
Proof.
  intros Hf Hp Hh Hb. destruct (CoherentXBar.snoopFilter x) as [f|] eqn:Ef; [|by exists None]. destruct (Hf f eq_refl) as [Hrest Hit].
  destruct (bus_request_facts cm Hcm) as (_ & _ & _ & _ & _ & _ & _ & _ & _ & Q10 & _ & Q12 & _ & Q14).
  pose proof Hb as [Bc Br Ba Bz Bad Bsz Bs Bsh Bin Bp Bl]. pose proof (pow2_pos k ltac:(lia)). destruct HL as [HL1 HL2].
  destruct (SnoopFilter.updateSnoopResponse_ok n k (fr_ports _ _ _ Hrest) ltac:(lia) f pkt i L h (fr_wf _ _ _ Hrest) Hi)
    with (p := p) as (f' & E & Hw & Hit' & Hs); try done.
  - pose proof (fr_hi _ _ _ Hrest). lia.
  - unfold Packet.getAddr. by rewrite Ba, Bad.
  - unfold Packet.isResponse. by rewrite Bc.
  - by rewrite Br.
  - by apply Hh.
  - by rewrite Bc.
  - rewrite Z.eqb_refl. cbn [negb]. rewrite E. cbn [mbind outcome_bind]. exists (Some f'). split; [done|]. split; [|done].
    intros g [= <-]. split; [by apply (filter_rest_ext L V V f f')|]. rewrite Hit'. f_equal.
    unfold SnoopFilter.exclusive, Packet.needsExclusive. rewrite Bc, Q12, Bsh. destruct (is_read cm); [by rewrite orb_true_r|done].
Qed.

Lemma forward_ok dests : NoDup dests -> Forall (fun p => 0 <= p < Z.of_nat n) dests ->
  forall V pkt sh inh d rc lat fan it x,
  bus i F Gm V x -> onbus k r L cm sh inh d pkt -> filter_at L it V0 (CoherentXBar.snoopFilter x) ->
  (forall p q, p ∈ dests -> q ∈ dests -> supplies cm (V (Z.to_nat p) L) = true -> supplies cm (V (Z.to_nat q) L) = true -> p = q) ->
  (forall p, p ∈ dests -> p <> Z.of_nat i -> held (V (Z.to_nat p) L) = true -> CoherentXBar.snoopFilter x <> None -> Z.testbit h p = true) ->
  let resp := any_of i L (supplies cm) dests V in
  (resp = true -> inh = false /\ rc = MemCmd.InvalidCmd /\ it = SnoopFilter.MkItem (2 ^ Z.of_nat i) h) ->
  exists pkt' lat' fan' x',
    forward cm (Z.of_nat i) XBar.InvalidPortID dests pkt rc lat fan x =
      Ok (pkt', if resp then MemCmd.responseCommand cm else rc, lat', fan', x') /\
    bus i F Gm (after_snoops i L cm dests V) x' /\
    onbus k r L cm (sh || any_of i L held dests V && is_read cm) (inh || resp)
      (if resp then read_bytes F (L * 2 ^ k) (2 ^ k) else d) pkt' /\
    filter_at L (if resp then SnoopFilter.responded_item (negb (is_read cm)) h i else it) V0 (CoherentXBar.snoopFilter x').
Proof.
  induction dests as [|p dests IH]; intros Hnd Hrg V pkt sh inh d rc lat fan it x Hbus Hb Hf Huniq Hheld resp Hresp.
  { exists pkt, lat, fan, x. split; [done|]. simpl. rewrite !orb_false_r. split; [|done].
    apply (bus_ext i F Gm V); [|done]. intros j L'. done. }
  apply NoDup_cons in Hnd as [Hnp Hnd]. inversion Hrg as [|? ? Hp Hrg']; subst. cbn [CoherentXBar.forward_atomic].
  assert (negb (Z.of_nat i =? XBar.InvalidPortID) = true) as -> by (rewrite (proj2 (Z.eqb_neq _ _)); [done|unfold XBar.InvalidPortID; lia]).
  cbn [andb]. destruct (Z.eqb_spec p (Z.of_nat i)) as [->|Hpi].
  { (* the source itself *)
    assert (forall P, any_of i L P (Z.of_nat i :: dests) V = any_of i L P dests V) as Ha by (intros P; unfold any_of; simpl; by rewrite Z.eqb_refl).
    unfold resp in *. rewrite !Ha in *.
    destruct (IH Hnd Hrg' V pkt sh inh d rc lat fan it x) as (pkt' & lat' & fan' & x' & E & Hbus' & Hb' & Hf'); try done.
    - intros. apply Huniq; try (by right); done.
    - intros. apply Hheld; try done. by right.
    - exists pkt', lat', fan', x'. split; [done|]. split; [|done].
      apply (bus_ext i F Gm (after_snoops i L cm dests V)); [|done]. intros j L'. unfold after_snoops, visited.
      destruct (bool_decide_reflect (j = i)) as [->|Hne]; [by rewrite !andb_false_r|].
      rewrite (bool_decide_ext (Z.of_nat j ∈ Z.of_nat i :: dests) (Z.of_nat j ∈ dests)); [done|]. rewrite elem_of_cons.
      split; [|by right]. intros [?|?]; [lia|done]. }
  (* another cache *)
  set (pn := Z.to_nat p). assert (p = Z.of_nat pn) as Ep by (unfold pn; lia). assert (pn < n)%nat as Hpn by lia. assert (pn <> i) as Hne by lia.
  pose proof (bs_len _ _ _ _ _ Hbus) as Hlen.
  destruct (lookup_lt_is_Some_2 (CoherentXBar.above x) pn ltac:(lia)) as [u Hu].
  pose proof (bs_node _ _ _ _ _ Hbus pn u Hne Hu) as Hnode.
  assert (forall P, any_of i L P (p :: dests) V = P (V pn L) || any_of i L P dests V) as Ha.
  { intros P. unfold any_of. simpl. rewrite (proj2 (Z.eqb_neq _ _) Hpi). done. }
  unfold resp in Hresp |- *. rewrite Ha in Hresp. rewrite !Ha. clear resp.
  assert (vget (CoherentXBar.above x) p = Ok u) as -> by (apply vget_ok; split; [lia|exact Hu]). cbn [mbind outcome_bind].
  destruct (bus_request_facts cm Hcm) as (_ & _ & _ & _ & _ & _ & _ & _ & Q9 & Q10 & Q11 & _ & Q13 & _).
  destruct (snoop_node lo hi k (s pn) mm Hlo e F (V pn) u L r cm sh inh d pkt Hby Hnode Hcm Hb Hr (proj1 HL) (proj2 HL))
    as (pkt1 & lat1 & u1 & -> & Hnode1 & Hb1).
  { intros Es. rewrite Es in Hresp. by apply Hresp. }
  cbn [mbind outcome_bind].
  set (V1 := fun j => if decide (j = pn) then upd (V j) L (snooped cm (V pn L)) else V j).
  pose proof (bus_put i F Gm V x pn u1 _ L Hbus Hpn Hne Hnode1) as Hbus1. fold V1 in Hbus1.
  set (x1 := x <| CoherentXBar.above ::= <[pn := u1]> |>) in *.
  assert (forall j L', after_snoops i L cm dests V1 j L' = after_snoops i L cm (p :: dests) V j L') as HV1.
  { intros j L'. rewrite <- after_snoops_cons by (done || lia). unfold after_snoops, V1. fold pn.
    destruct (decide (j = pn)) as [->|]; done. }
  assert (forall q, q ∈ dests -> V1 (Z.to_nat q) = V (Z.to_nat q)) as HVq.
  { intros q Hq. unfold V1. rewrite decide_False; [done|]. intros E. apply Hnp. rewrite Forall_forall in Hrg'. pose proof (Hrg' q Hq).
    unfold pn in E. by replace p with q by lia. }
  assert (forall P, any_of i L P dests V1 = any_of i L P dests V) as Hany by (intros P; apply any_of_ext; intros q Hq _; by rewrite HVq).
  destruct (supplies cm (V pn L)) eqn:Es; cbn [orb] in *.
  - destruct (Hresp eq_refl) as (-> & -> & ->).
    assert (any_of i L (supplies cm) dests V = false) as Hno.
    { apply any_of_false. intros q Hq Hqi. destruct (supplies cm (V (Z.to_nat q) L)) eqn:Eq; [|done]. exfalso. apply Hnp.
      replace p with q; [done|]. apply Huniq; [by right|left|done|]. fold pn. done. }
    assert (held (V pn L) = true) as Hhd by (unfold supplies in Es; by destruct (V pn L)).
    rewrite Hhd in Hb1 |- *. cbn [andb] in Hb1.
    unfold Packet.isResponse. rewrite (ob_cmd _ _ _ _ _ _ _ _ Hb1), Q10. cbn [negb].
    rewrite (bool_decide_eq_false_2 (_ = cm)) by done. cbn [mbind outcome_bind ensure negb].
    rewrite (ob_inh _ _ _ _ _ _ _ _ Hb1). cbn [mbind outcome_bind ensure orb]. rewrite bool_decide_eq_true_2 by done.
    cbn [mbind outcome_bind ensure].
    destruct (filter_responded pn V0 x1 pkt1 sh (read_bytes F (L * 2 ^ k) (2 ^ k))) as (f & Ef & Hf1 & Hfn); try done.
    { intros Hx. rewrite <- Ep. apply Hheld; [left|done|done|done]. }
    rewrite <- Ep in Ef. rewrite Ef. cbn [mbind outcome_bind].
    destruct (IH Hnd Hrg' V1 (pkt1 <| Packet.cmd := cm |>) (sh || is_read cm) true (read_bytes F (L * 2 ^ k) (2 ^ k))
      (MemCmd.responseCommand cm) lat1 (fan + 1) (SnoopFilter.responded_item (negb (is_read cm)) h i) (x1 <| CoherentXBar.snoopFilter := f |>))
      as (pkt' & lat' & fan' & x' & E & Hbus' & Hb' & Hf').
    + by destruct Hbus1.
    + by eapply onbus_cmd.
    + done.
    + intros q q' Hq Hq'. rewrite !HVq by done. apply Huniq; by right.
    + intros q Hq Hqi. rewrite HVq by done. intros Hqh Hfx. apply Hheld; [by right|done|done|]. by apply Hfn.
    + rewrite Hany, Hno. done.
    + rewrite (Hany (supplies cm)), Hno in E, Hb', Hf'. rewrite (Hany held) in Hb'. exists pkt', lat', fan', x'. split; [exact E|].
      split; [by apply (bus_ext i F Gm (after_snoops i L cm dests V1))|]. split; [|done].
      match type of Hb' with onbus _ _ _ _ ?a _ _ _ => match goal with |- onbus _ _ _ _ ?b _ _ _ =>
        replace b with a by (by destruct sh, (is_read cm), (any_of i L held dests V)) end end.
      exact Hb'.
  - unfold Packet.isResponse. rewrite (ob_cmd _ _ _ _ _ _ _ _ Hb1), Q9. cbn [negb].
    destruct (IH Hnd Hrg' V1 pkt1 (sh || held (V pn L) && is_read cm) inh d rc lat (fan + 1) it x1)
      as (pkt' & lat' & fan' & x' & E & Hbus' & Hb' & Hf'); try done.
    + by rewrite orb_false_r in Hb1.
    + intros q q' Hq Hq'. rewrite !HVq by done. apply Huniq; by right.
    + intros q Hq Hqi. rewrite HVq by done. intros Hqh Hfx. apply Hheld; [by right|done..].
    + by rewrite Hany.
    + rewrite (Hany (supplies cm)) in E, Hb', Hf'. rewrite (Hany held) in Hb'. exists pkt', lat', fan', x'. split; [exact E|].
      split; [by apply (bus_ext i F Gm (after_snoops i L cm dests V1))|]. split; [|done].
      rewrite <- orb_assoc, <- andb_orb_distrib_l in Hb'. done.
Qed.
End snooping.

(** ** The states of all caches *)

(** At most one cache may write a line, at most one owns it, and memory has the
    bytes that nobody owns. *)
Record coherence (F Gm : Z -> Z) (V : nat -> Z -> lstate) : Prop := {
  ch_writer i j L : i <> j -> writable (V i L) = true -> V j L = None;
  ch_owner i j L : dirty (V i L) = true -> dirty (V j L) = true -> i = j;
  ch_clean x : lo <= x <= hi -> (forall j, dirty (V j (x / 2 ^ k)) = false) -> Gm x = F x;
  ch_absent j L : (n <= j)%nat -> V j L = None;
}.

(** The states of the others after a request of cache [i], with [st] for its own
    line. *)
Definition requested (i : nat) (L : Z) (cm : MemCmd.Command) (st : lstate) (V : nat -> Z -> lstate) : nat -> Z -> lstate :=
  fun j => if decide (j = i) then upd (V i) L st else upd (V j) L (snooped cm (V j L)).

Definition ports : list Z := seqZ 0 (Z.of_nat n).
Definition others (i : nat) (L : Z) (P : lstate -> bool) (V : nat -> Z -> lstate) : bool := any_of i L P ports V.

Lemma any_of_true i L P dests V : any_of i L P dests V = true <->
  exists p, p ∈ dests /\ p <> Z.of_nat i /\ P (V (Z.to_nat p) L) = true.
Proof.
  unfold any_of. rewrite existsb_exists. setoid_rewrite <- list_elem_of_In. setoid_rewrite andb_true_iff.
  setoid_rewrite negb_true_iff. setoid_rewrite Z.eqb_neq. naive_solver.
Qed.

Lemma others_true i L P V : P None = false -> (forall j L, (n <= j)%nat -> V j L = None) ->
  others i L P V = true <-> exists j, j <> i /\ P (V j L) = true.
Proof.
  intros HP Hab. unfold others. rewrite any_of_true. split.
  - intros (p & Hp%elem_of_seqZ & Hne & HV). exists (Z.to_nat p). split; [lia|done].
  - intros (j & Hne & HV). exists (Z.of_nat j). split; [|split; [lia|by rewrite Nat2Z.id]].
    apply elem_of_seqZ. destruct (decide (j < n)%nat); [lia|]. rewrite Hab in HV by lia. congruence.
Qed.

Lemma others_false i L P V j : others i L P V = false -> (j < n)%nat -> j <> i -> P (V j L) = false.
Proof.
  intros Ho Hj Hne. destruct (P (V j L)) eqn:E; [|done]. unfold others in Ho. rewrite (proj2 (any_of_true i L P ports V)) in Ho; [done|].
  exists (Z.of_nat j). unfold ports. rewrite elem_of_seqZ, Nat2Z.id. split; [lia|]. split; [lia|done].
Qed.

(** The ports the filter leaves out hold nothing. *)
Section covers.
Context (i : nat) (L : Z) (V : nat -> Z -> lstate) (dests : list Z).
Context (Hsub : forall p, p ∈ dests -> p ∈ ports) (Hab : forall j L, (n <= j)%nat -> V j L = None).
Context (Hcov : forall j, (j < n)%nat -> j <> i -> held (V j L) = true -> Z.of_nat j ∈ dests).

Lemma any_of_covers P : P None = false -> any_of i L P dests V = others i L P V.
Proof.
  intros HP. apply eq_iff_eq_true. unfold others. rewrite !any_of_true. split; intros (p & Hp & Hne & HV).
  - exists p. split; [by apply Hsub|done].
  - pose proof Hp as Hp'%elem_of_seqZ. exists p. split; [|done]. replace p with (Z.of_nat (Z.to_nat p)) by lia.
    apply Hcov; [lia|lia|]. destruct (V (Z.to_nat p) L); [done|congruence].
Qed.

Lemma after_covers cm j L' : after_snoops i L cm dests V j L' = requested i L cm (V i L) V j L'.
Proof.
  unfold after_snoops, visited, requested. destruct (bool_decide_reflect (j = i)) as [->|Hne].
  - rewrite andb_false_r, decide_True by done. unfold upd. by case_decide; subst.
  - rewrite andb_true_r, (decide_False (P := j = i)) by done. destruct (bool_decide_reflect (Z.of_nat j ∈ dests)) as [|Hn]; [done|].
    unfold upd. case_decide; [subst L'|done]. destruct (V j L) as [st|] eqn:E; [|unfold snooped; by destruct (is_read cm)].
    exfalso. apply Hn, Hcov; [|done|by rewrite E]. destruct (decide (j < n)%nat); [done|]. rewrite Hab in E by lia. done.
Qed.
End covers.

(** ** A request on the bus *)

(** The response: [sh] and [inh] say whether another cache has the line and
    whether another cache supplied it. *)
Record answered (F : Z -> Z) (r : Request.Request) (L : Z) (cm : MemCmd.Command) (sh inh : bool) (pkt : Packet.Packet) : Prop := {
  an_cmd : Packet.cmd pkt = MemCmd.responseCommand cm;
  an_req : Packet.req pkt = r;
  an_vaddr : Packet.has_flag Packet.VALID_ADDR pkt = true;
  an_vsize : Packet.has_flag Packet.VALID_SIZE pkt = true;
  an_addr : Packet.addr pkt = L * 2 ^ k;
  an_size : Packet.size pkt = 2 ^ k;
  an_sec : Packet._isSecure pkt = false;
  an_sh : Packet.sharedAsserted pkt = sh;
  an_inh : Packet.memInhibitAsserted pkt = inh;
  an_data : MemCmd.isRead cm = true -> Packet.getPtr pkt = Ok (read_bytes F (L * 2 ^ k) (2 ^ k));
}.

Section request.
Context (e : Env) (Hby : bypassCaches e = false) (i : nat) (Hi : (i < n)%nat) (F Gm : Z -> Z) (L : Z) (HL : in_line L).
Context (r : Request.Request) (Hr : Request.isUncacheable r = false) (Hpa : Request.hasPaddr r = true).
Context (cm : MemCmd.Command) (Hcm : bus_request cm).
Context (V : nat -> Z -> lstate) (Hch : coherence F Gm V).
Local Abbreviation sh := (others i L held V && is_read cm).
Local Abbreviation resp := (others i L (supplies cm) V).

Lemma supplies_none : supplies cm None = false.
Proof. done. Qed.

Lemma supplier_unique p q : supplies cm (V p L) = true -> supplies cm (V q L) = true -> p = q.
Proof.
  unfold supplies. rewrite !andb_true_iff. intros [H1 _] [H2 _]. by apply (ch_owner _ _ _ Hch p q L).
Qed.

(** The snoops, with the filter's entry in between. *)
Lemma snoop_request_ok x d pkt :
  bus i F Gm V x -> filter_ok V (CoherentXBar.snoopFilter x) -> onbus k r L cm false false d pkt ->
  exists pkt' lat x' h,
    CoherentXBar.snoop_request (H := CacheSnoop.cache_above e) e (Z.of_nat i) pkt x =
      Ok (pkt', if resp then MemCmd.responseCommand cm else MemCmd.InvalidCmd, lat, x') /\
    bus i F Gm (requested i L cm (V i L) V) x' /\
    onbus k r L cm sh resp (if resp then read_bytes F (L * 2 ^ k) (2 ^ k) else d) pkt' /\
    filter_at L (if resp then SnoopFilter.responded_item (negb (is_read cm)) h i else SnoopFilter.MkItem (2 ^ Z.of_nat i) h) V
      (CoherentXBar.snoopFilter x') /\
    (forall j, (j < n)%nat -> held (V j L) = true -> Z.testbit h (Z.of_nat j) = true).
Proof.
  intros Hbus Hf Hb. destruct (filter_ok_at V _ L Hf HL) as (h & Hfa & Hbits).
  assert (exists dests x1 lat0, bus i F Gm V x1 /\
    CoherentXBar.snoop_request (H := CacheSnoop.cache_above e) e (Z.of_nat i) pkt x =
      ('(pkt, cmd, t, x) ← CoherentXBar.forwardAtomic (H := CacheSnoop.cache_above e) e pkt (Z.of_nat i) XBar.InvalidPortID dests x1;
       Ok (pkt, cmd, lat0 + t, x)) /\
    filter_at L (SnoopFilter.MkItem (2 ^ Z.of_nat i) h) V (CoherentXBar.snoopFilter x1) /\
    NoDup dests /\ (forall p, p ∈ dests -> p ∈ ports) /\
    (forall j, (j < n)%nat -> j <> i -> held (V j L) = true -> Z.of_nat j ∈ dests))
    as (dests & x1 & lat0 & Hbus1 & -> & Hf1 & Hnd & Hsub & Hcov).
  { unfold CoherentXBar.snoop_request. destruct (CoherentXBar.snoopFilter x) as [f|] eqn:Ef.
    - destruct (Hfa f eq_refl) as [Hrest Hit]. pose proof Hb as [Bc Br Ba Bz Bad Bsz Bs Bsh Bin Bp Bl].
      destruct (SnoopFilter.lookupRequest_ok n k (fr_ports _ _ _ Hrest) ltac:(lia) f pkt i L h (fr_wf _ _ _ Hrest) Hi) as (f' & E & Hw & Hit' & Hs); try done.
      { pose proof (fr_hi _ _ _ Hrest). pose proof (pow2_pos k ltac:(lia)). destruct HL. lia. }
      { unfold Packet.getAddr. by rewrite Ba, Bad. }
      rewrite E. cbn [mbind outcome_bind]. eexists _, _, (SnoopFilter.lookupLatency f * clockPeriod e). split; [|split; [reflexivity|split; [|split; [|split]]]].
      + by destruct Hbus.
      + intros g [= <-]. split; [by apply (filter_rest_ext L V V f f')|]. rewrite Hit'. unfold Packet.needsResponse.
        rewrite Br, Hr, Bc. destruct (bus_request_facts cm Hcm) as (_ & -> & _). done.
      + apply NoDup_filter, NoDup_seqZ.
      + intros p [_ Hp]%list_elem_of_filter. done.
      + intros j Hj Hne Hh. apply list_elem_of_filter. split; [|apply elem_of_seqZ; lia]. split; [by apply Hbits|lia].
    - exists ports, x, 0. split; [done|]. rewrite (bs_ports _ _ _ _ _ Hbus). split.
      { destruct (CoherentXBar.forwardAtomic _ _ _ _ _ _) as [[[[? ?] ?] ?]|]; done. }
      split; [by intros f; rewrite Ef|]. split; [apply NoDup_seqZ|]. split; [done|]. intros j Hj _ _. apply elem_of_seqZ. lia. }
  pose proof (any_of_covers i L V dests Hsub Hcov) as Hany.
  unfold CoherentXBar.forwardAtomic. rewrite Hby. cbn [mbind outcome_bind ensure negb]. rewrite (ob_cmd _ _ _ _ _ _ _ _ Hb).
  destruct (forward_ok e Hby i Hi F Gm L HL r Hr cm Hcm V h dests Hnd) with (V := V) (pkt := pkt) (sh := false) (inh := false)
    (d := d) (rc := MemCmd.InvalidCmd) (lat := 0) (fan := 0) (it := SnoopFilter.MkItem (2 ^ Z.of_nat i) h) (x := x1)
    as (pkt' & lat' & fan' & x' & E & Hbus' & Hb' & Hf'); try done.
  - apply Forall_forall. intros p Hp%Hsub%elem_of_seqZ. lia.
  - intros p q Hp%Hsub%elem_of_seqZ Hq%Hsub%elem_of_seqZ H1 H2. pose proof (supplier_unique _ _ H1 H2). lia.
  - intros p Hp%Hsub%elem_of_seqZ Hne Hh _. replace p with (Z.of_nat (Z.to_nat p)) by lia. apply Hbits; [lia|done].
  - rewrite E. cbn [mbind outcome_bind]. rewrite !Hany in E, Hb', Hf' |- * by done. rewrite !Hany in Hb' by done.
    eexists _, _, _, h. split; [reflexivity|]. split; [|done].
    assert (bus i F Gm (after_snoops i L cm dests V) (CoherentXBar.count (CoherentXBar.SnoopFanout fan') x')) as Hbc by by destruct Hbus'.
    apply (bus_ext i F Gm (after_snoops i L cm dests V)); [|done]. intros j L'. symmetry. apply after_covers; [|done]. apply Hch.
Qed.
(** What the memory answers when no cache did. *)
Lemma memory_answers m d pkt : port_rep Gm m -> onbus k r L cm sh false d pkt ->
  (MemCmd.isRead cm = true -> read_bytes Gm (L * 2 ^ k) (2 ^ k) = read_bytes F (L * 2 ^ k) (2 ^ k)) ->
  exists pkt' lat m', sendAtomic pkt m = Ok (pkt', lat, m') /\ port_rep Gm m' /\ answered F r L cm sh false pkt'.
Proof.
  intros Hm Hb Hdata. pose proof Hb as [Bc Br Ba Bz Bad Bsz Bs Bsh Bin Bp Bl]. pose proof (pow2_pos k ltac:(lia)) as Hk0. destruct HL as [HL1 HL2].
  assert (mem_request lo hi pkt d) as Hq by (split; rewrite ?Bad, ?Bsz, ?Br; done || lia).
  assert (exists pkt' lat m', sendAtomic pkt m = Ok (pkt', lat, m') /\ port_rep Gm m' /\ reply pkt pkt' /\
    (MemCmd.isRead cm = true -> Packet.data pkt' = Some (read_bytes Gm (L * 2 ^ k) (2 ^ k)))) as (pkt' & lat & m' & E & Hm' & Hrep & Hd).
  { destruct Hcm as [E|[E|[E|E]]].
    1, 2: destruct (port_read Gm m pkt d Hm Hq) as (pkt' & lat & m' & E' & Hm' & Hrep & Hd); [rewrite Bc; auto|];
      exists pkt', lat, m'; split_and!; try done; intros _; by rewrite Hd, Bad, Bsz.
    - destruct (port_upgrade Gm m pkt d Hm Hq) as (pkt' & lat & m' & E' & Hm' & Hrep); [congruence|].
      exists pkt', lat, m'. split_and!; try done. by rewrite E.
    - destruct (port_invalidate Gm m pkt d Hm Hq) as (pkt' & lat & m' & E' & Hm' & Hrep); [congruence|].
      exists pkt', lat, m'. split_and!; try done. by rewrite E. }
  exists pkt', lat, m'. split; [done|]. split; [done|]. destruct Hrep as [R1 R2 R3 R4 R5 R6 R7].
  unfold Packet.sharedAsserted, Packet.memInhibitAsserted in *.
  change Packet.VALID_ADDR with (2 ^ 8) in *. change Packet.VALID_SIZE with (2 ^ 9) in *.
  change Packet.SHARED with (2 ^ 0) in *. change Packet.MEM_INHIBIT with (2 ^ 3) in *.
  split; unfold Packet.sharedAsserted, Packet.memInhibitAsserted; change Packet.VALID_ADDR with (2 ^ 8); change Packet.VALID_SIZE with (2 ^ 9);
    change Packet.SHARED with (2 ^ 0); change Packet.MEM_INHIBIT with (2 ^ 3); rewrite ?R6 by lia; try congruence.
  intros Hrd. unfold Packet.getPtr in Bp |- *. apply bind_ok in Bp as ([] & Hp%ensure_ok & _). rewrite R7, Hp, (Hd Hrd), Hdata by done. done.
Qed.

(** Nobody owns the line that no cache supplied. *)
Lemma unowned : resp = false -> MemCmd.isRead cm = true -> V i L = None ->
  read_bytes Gm (L * 2 ^ k) (2 ^ k) = read_bytes F (L * 2 ^ k) (2 ^ k).
Proof.
  intros Hno Hrd HVi. pose proof (pow2_pos k ltac:(lia)). destruct HL as [HL1 HL2]. apply read_bytes_ext. intros x Hx.
  assert (x / 2 ^ k = L) as El by (symmetry; apply (Z.div_unique _ _ _ (x - L * 2 ^ k)); lia).
  apply (ch_clean _ _ _ Hch); [lia|]. intros j. rewrite El. destruct (decide (j = i)) as [->|Hne]; [by rewrite HVi|].
  destruct (decide (j < n)%nat); [|by rewrite (ch_absent _ _ _ Hch) by lia].
  pose proof (others_false i L (supplies cm) V j Hno ltac:(done) Hne) as Hs. unfold supplies in Hs.
  rewrite bool_decide_eq_false_2 in Hs by (intros E; by rewrite E in Hrd). by rewrite andb_true_r in Hs.
Qed.

(** The filter after the request. *)
Lemma filter_done o h ex st :
  filter_at L (SnoopFilter.responded_item ex h i) V o ->
  (forall j, (j < n)%nat -> held (V j L) = true -> Z.testbit h (Z.of_nat j) = true) ->
  (ex = true -> is_read cm = true -> others i L held V = false) ->
  filter_ok (requested i L cm st V) o.
Proof.
  intros Hf Hbits Hex f L0 Ef. destruct (Hf f Ef) as [[F1 F2 F3 F4] Hit]. split; try done. intros L' Hin _.
  destruct (decide (L' = L)) as [->|Hne].
  - rewrite Hit. unfold SnoopFilter.responded_item. eexists. split; [reflexivity|]. intros j Hj Hh.
    rewrite Z.lor_spec, Z.pow2_bits_eqb by lia. destruct (Z.eqb_spec (Z.of_nat i) (Z.of_nat j)) as [|Hn]; [apply orb_true_r|].
    rewrite orb_false_r. unfold requested in Hh. rewrite decide_False, upd_eq in Hh by lia.
    assert (is_read cm = true /\ held (V j L) = true) as [Hr1 Hh1].
    { unfold snooped in Hh. destruct (is_read cm); [|done]. by destruct (V j L). }
    destruct ex; [|by apply Hbits]. rewrite (others_false i L held V j (Hex eq_refl Hr1)) in Hh1 by (done || lia). done.
  - destruct (F4 L' Hin Hne) as (h' & Eh & Hh'). exists h'. split; [done|]. intros j Hj Hh. apply Hh'; [done|].
    unfold requested in Hh. destruct (decide (j = i)) as [->|]; by rewrite upd_ne in Hh.
Qed.

Lemma bus_request_ok x d pkt :
  bus i F Gm V x -> filter_ok V (CoherentXBar.snoopFilter x) -> onbus k r L cm false false d pkt ->
  (MemCmd.isRead cm = true -> V i L = None) ->
  exists pkt' lat x', xbar_port e i pkt x = Ok (pkt', lat, x') /\ bus i F Gm (requested i L cm (V i L) V) x' /\
    answered F r L cm sh resp pkt' /\ forall st, filter_ok (requested i L cm st V) (CoherentXBar.snoopFilter x').
Proof.
  intros Hbus Hf Hb Hmiss. pose proof (pow2_pos k ltac:(lia)) as Hk0.
  destruct (snoop_request_ok x d pkt Hbus Hf Hb) as (pkt1 & lat1 & x1 & h & E1 & Hbus1 & Hb1 & Hf1 & Hbits).
  assert (forall p, Packet.has_flag Packet.VALID_SIZE p = true -> exists z, CoherentXBar.pkt_size p = Ok z) as Hsize.
  { intros p Hp. unfold CoherentXBar.pkt_size, Packet.getSize. rewrite Hp. destruct (Packet.hasData p); eauto. }
  destruct (bus_request_facts cm Hcm) as (_ & _ & _ & _ & _ & _ & _ & _ & Q9 & Q10 & _ & Q12 & Q13 & _).
  unfold xbar_port, CoherentXBar.recvAtomic. destruct (Hsize pkt (ob_vsize _ _ _ _ _ _ _ _ Hb)) as (z & ->). cbn [mbind outcome_bind].
  rewrite Hby. cbn [negb]. rewrite E1. cbn [mbind outcome_bind].
  pose proof Hb1 as [Bc Br Ba Bz Bad Bsz Bs Bsh Bin Bp Bl]. destruct HL as [HL1 HL2].
  unfold Packet.getAddr. rewrite Ba, Bad. cbn [mbind outcome_bind ensure].
  destruct (Hroutes (CoherentXBar.xbar x1) (L * 2 ^ k) (bs_xbar _ _ _ _ _ Hbus1) ltac:(lia)) as (xb & -> & Hxb). cbn [mbind outcome_bind].
  destruct (bs_mem _ _ _ _ _ Hbus1) as (m & Hm & Hrep).
  assert (vget (CoherentXBar.below x1) mp = Ok m) as Hvm by by apply vget_ok.
  simpl CoherentXBar.below. rewrite Hvm. cbn [mbind outcome_bind].
  destruct resp eqn:Er.
  - destruct (port_inhibited Gm m pkt1 Hrep) as (lat2 & m' & E2 & Hm'); rewrite ?Bad, ?Bsz; try (done || lia).
    rewrite E2. cbn [mbind outcome_bind]. unfold Packet.isResponse. rewrite Bc, Q9. cbn [andb].
    rewrite bool_decide_eq_false_2 by done. cbn [negb mbind outcome_bind ensure].
    assert (forall o : option SnoopFilter.SnoopFilter,
      match o with Some f => if negb false && false then f ← SnoopFilter.updateResponse pkt1 (Z.of_nat i) f; Ok (Some f) else Ok (Some f)
                 | None => Ok None end = Ok o) as Hof by (by intros []).
    simpl CoherentXBar.snoopFilter. rewrite Hof. cbn [mbind outcome_bind].
    set (pkt2 := pkt1 <| Packet.cmd := MemCmd.responseCommand cm |>). simpl Packet.cmd. rewrite Q10.
    destruct (Hsize pkt2 Bz) as (z2 & ->). cbn [mbind outcome_bind].
    eexists _, _, _. split; [reflexivity|]. split; [|split].
    + by eapply (bus_frame i F Gm Gm _ x1 _ m' Hbus1).
    + by split.
    + intros st. simpl. eapply (filter_done _ h (negb (is_read cm)) st); [done|done|]. by destruct (is_read cm).
  - destruct (memory_answers m d pkt1 Hrep Hb1) as (pkt2 & lat2 & m' & E2 & Hm' & Han).
    { intros Hrd. apply unowned; auto. }
    rewrite E2. cbn [mbind outcome_bind]. pose proof Han as [A1 A2 A3 A4 A5 A6 A7 A8 A9 A10].
    assert (Packet.isResponse pkt2 = true) as Hresp2 by (unfold Packet.isResponse; by rewrite A1). rewrite Hresp2. cbn [negb andb].
    simpl CoherentXBar.snoopFilter.
    assert (exists f, match CoherentXBar.snoopFilter x1 with
                      | Some f => f ← SnoopFilter.updateResponse pkt2 (Z.of_nat i) f; Ok (Some f)
                      | None => Ok None
                      end = Ok f /\ filter_at L (SnoopFilter.responded_item (SnoopFilter.exclusive pkt2) h i) V f) as (f & -> & Hf2).
    { destruct (CoherentXBar.snoopFilter x1) as [f|] eqn:Ef; [|by exists None]. destruct (Hf1 f eq_refl) as [Hrest Hit].
      destruct (SnoopFilter.updateResponse_ok n k (fr_ports _ _ _ Hrest) ltac:(lia) f pkt2 i L h (fr_wf _ _ _ Hrest) Hi) as (f' & E & Hw & Hit' & Hs); try done.
      - pose proof (fr_hi _ _ _ Hrest). lia.
      - unfold Packet.getAddr. by rewrite A3, A5.
      - by rewrite A2.
      - rewrite E. cbn [mbind outcome_bind]. exists (Some f'). split; [done|]. intros g [= <-]. split; [by apply (filter_rest_ext L V V f f')|done]. }
    cbn [mbind outcome_bind]. rewrite bool_decide_eq_true_2 by done. cbn [negb mbind outcome_bind]. rewrite Hresp2.
    destruct (Hsize pkt2 A4) as (z2 & ->). cbn [mbind outcome_bind].
    eexists _, _, _. split; [reflexivity|]. split; [|split].
    + by eapply (bus_frame i F Gm Gm _ x1 _ m' Hbus1).
    + by split.
    + intros st. simpl. eapply (filter_done _ h (SnoopFilter.exclusive pkt2) st); [done|done|].
      unfold SnoopFilter.exclusive, Packet.needsExclusive. rewrite A1, Q12, A8. intros Hx Hr1. rewrite Hr1 in Hx. simpl in Hx.
      rewrite andb_true_r in Hx. by destruct (others i L held V).
Qed.
End request.

(** ** A writeback on the bus *)

Section writeback.
Context (e : Env) (Hby : bypassCaches e = false) (i : nat) (Hi : (i < n)%nat) (F Gm : Z -> Z) (V : nat -> Z -> lstate).
Context (L : Z) (HL : in_line L) (wb : Packet.Packet) (Hwb : wb_line lo hi k F L wb).

Lemma forward_writeback dests : Forall (fun p => 0 <= p < Z.of_nat n) dests -> forall lat fan x,
  bus i F Gm V x -> exists fan',
  CoherentXBar.forward_atomic (H := CacheSnoop.cache_above e) MemCmd.Writeback (Z.of_nat i) XBar.InvalidPortID dests wb
    MemCmd.InvalidCmd lat fan x = Ok (wb, MemCmd.InvalidCmd, lat, fan', x).
Proof.
  induction 1 as [|p dests Hp _ IH]; intros lat fan x Hbus; [by exists fan|]. cbn [CoherentXBar.forward_atomic].
  destruct (_ && _); [by apply IH|]. destruct (lookup_lt_is_Some_2 (CoherentXBar.above x) (Z.to_nat p)) as [u Hu].
  { rewrite (bs_len _ _ _ _ _ Hbus). lia. }
  assert (vget (CoherentXBar.above x) p = Ok u) as -> by (apply vget_ok; split; [lia|done]). cbn [mbind outcome_bind].
  rewrite (snoop_writeback_node e u wb Hby (wl_cmd _ _ _ _ _ _ Hwb)). cbn [mbind outcome_bind].
  assert (x <| CoherentXBar.above ::= <[Z.to_nat p := u]> |> = x) as ->.
  { destruct x. simpl in *. unfold upd_field. simpl. by rewrite list_insert_id. }
  unfold Packet.isResponse. rewrite (wl_cmd _ _ _ _ _ _ Hwb). cbn [negb]. by apply IH.
Qed.

Lemma bus_writeback_ok x :
  bus i F Gm V x -> filter_ok V (CoherentXBar.snoopFilter x) ->
  exists pkt' lat x', xbar_port e i wb x = Ok (pkt', lat, x') /\
    bus i F (write_bytes Gm (L * 2 ^ k) (read_bytes F (L * 2 ^ k) (2 ^ k))) V x' /\ filter_ok V (CoherentXBar.snoopFilter x').
Proof.
  intros Hbus Hf. destruct Hwb as [Wc Wa Wq Wf]. pose proof (pow2_pos k ltac:(lia)) as Hk0. destruct HL as [HL1 HL2].
  pose proof Wq as [Q1 Q2 Q3 Q4 Q5 Q6 Q7 Q8 Q9].
  assert (exists lat x1, CoherentXBar.snoop_request (H := CacheSnoop.cache_above e) e (Z.of_nat i) wb x = Ok (wb, MemCmd.InvalidCmd, lat, x1) /\
    bus i F Gm V x1 /\ filter_ok V (CoherentXBar.snoopFilter x1)) as (lat & x1 & E1 & Hbus1 & Hf1).
  { unfold CoherentXBar.snoop_request, CoherentXBar.forwardAtomic. destruct (CoherentXBar.snoopFilter x) as [f|] eqn:Ef.
    - destruct (filter_ok_at V _ L Hf HL) as (h & Hfa & _). destruct (Hfa f eq_refl) as [Hrest Hit].
      destruct (SnoopFilter.lookupRequest_ok n k (fr_ports _ _ _ Hrest) ltac:(lia) f wb i L h (fr_wf _ _ _ Hrest) Hi) as (f' & E & Hw & Hit' & Hs); try done.
      { pose proof (fr_hi _ _ _ Hrest). lia. }
      { unfold Packet.getAddr. by rewrite Q1, Wa. }
      assert (Packet.needsResponse wb = false) as Hnr by (unfold Packet.needsResponse; by rewrite Wc).
      rewrite Hnr, andb_false_r in Hit'.
      rewrite E. cbn [mbind outcome_bind]. rewrite Hby, Wc. cbn [mbind outcome_bind ensure negb].
      destruct (forward_writeback (SnoopFilter.snoop_list n h i)) with (lat := 0) (fan := 0) (x := x <| CoherentXBar.snoopFilter := Some f' |>) as (fan & ->).
      { apply Forall_forall. intros p [_ Hp%elem_of_seqZ]%list_elem_of_filter. lia. }
      { by destruct Hbus. }
      cbn [mbind outcome_bind]. eexists _, _. split; [reflexivity|]. split; [by destruct Hbus|]. intros g L0 [= <-].
      destruct (Hf f L0 eq_refl) as [F1 F2 F3 F4]. split; try done. intros L' Hin Hne. destruct (decide (L' = L)) as [->|HneL].
      + destruct (F4 L Hin Hne) as (h' & Eh & Hh'). exists h'. split; [|done]. rewrite Hit', <- Eh. by rewrite Hit.
      + destruct (F4 L' Hin Hne) as (h' & Eh & Hh'). exists h'. split; [|done]. rewrite Hs; [done|]. intros E'. apply HneL. nia.
    - rewrite Hby, Wc, (bs_ports _ _ _ _ _ Hbus). cbn [mbind outcome_bind ensure negb].
      destruct (forward_writeback (seqZ 0 (Z.of_nat n))) with (lat := 0) (fan := 0) (x := x) as (fan & ->).
      { apply Forall_forall. intros p Hp%elem_of_seqZ. lia. }
      { done. }
      cbn [mbind outcome_bind]. eexists _, _. split; [reflexivity|]. split; [by destruct Hbus|]. intros g L0. simpl. by rewrite Ef. }
  unfold xbar_port, CoherentXBar.recvAtomic, CoherentXBar.pkt_size, Packet.getSize. rewrite Q2.
  assert (Packet.hasData wb = true) as Hhd by (unfold Packet.hasData; by rewrite Wc). rewrite Hhd. cbn [mbind outcome_bind ensure].
  rewrite Hby. cbn [negb]. rewrite E1. cbn [mbind outcome_bind]. unfold Packet.getAddr. rewrite Q1, Wa. cbn [mbind outcome_bind ensure].
  destruct (Hroutes (CoherentXBar.xbar x1) (L * 2 ^ k) (bs_xbar _ _ _ _ _ Hbus1) ltac:(lia)) as (xb & -> & Hxb). cbn [mbind outcome_bind].
  destruct (bs_mem _ _ _ _ _ Hbus1) as (m & Hm & Hrep).
  assert (vget (CoherentXBar.below x1) mp = Ok m) as Hvm by by apply vget_ok.
  simpl CoherentXBar.below. rewrite Hvm. cbn [mbind outcome_bind].
  destruct (port_writeback Gm m wb _ Hrep Wq Wc Wf) as (pkt' & lat2 & m' & -> & Hm' & Hnr). rewrite Wa in Hm'.
  cbn [mbind outcome_bind]. rewrite Hnr. cbn [andb].
  assert (forall o : option SnoopFilter.SnoopFilter,
    match o with Some f => if negb false && false then f ← SnoopFilter.updateResponse pkt' (Z.of_nat i) f; Ok (Some f) else Ok (Some f)
               | None => Ok None end = Ok o) as Hof by (by intros []).
  simpl CoherentXBar.snoopFilter. rewrite Hof. cbn [mbind outcome_bind]. rewrite bool_decide_eq_true_2 by done.
  cbn [negb mbind outcome_bind]. rewrite Hnr. cbn [mbind outcome_bind].
  eexists _, _, _. split; [reflexivity|]. split; [|exact Hf1]. by eapply (bus_frame i F Gm _ V x1 _ m' Hbus1).
Qed.

End writeback.

(** ** Coherence is kept *)

Section kept.
Context (i : nat) (Hi : (i < n)%nat) (F Gm : Z -> Z) (V : nat -> Z -> lstate) (Hch : coherence F Gm V).

Lemma coherence_ext V' : (forall j L, V' j L = V j L) -> coherence F Gm V'.
Proof.
  intros E. destruct Hch as [C1 C2 C3 C4]. split.
  - intros a b L. rewrite !E. apply C1.
  - intros a b L. rewrite !E. apply C2.
  - intros x Hx Hd. apply C3; [done|]. intros j. by rewrite <- E.
  - intros j L. rewrite E. apply C4.
Qed.

(** A read: the reader may write if nobody else has the line. *)
Lemma coherence_read L : V i L = None ->
  coherence F Gm (requested i L MemCmd.ReadReq (Some (negb (others i L held V), false)) V).
Proof.
  intros HVi. destruct Hch as [C1 C2 C3 C4].
  assert (forall j, j <> i -> V j L = None \/ others i L held V = true) as Hoth.
  { intros j Hne. destruct (V j L) as [st|] eqn:E; [right|by left]. apply others_true; [done|done|]. exists j. by rewrite E. }
  assert (forall j, dirty (requested i L MemCmd.ReadReq (Some (negb (others i L held V), false)) V j L) = dirty (V j L)) as Hd.
  { intros j. unfold requested. destruct (decide (j = i)) as [->|]; [by rewrite upd_eq, HVi|]. rewrite upd_eq. unfold snooped. simpl.
    by destruct (V j L) as [[]|]. }
  assert (forall j L', L' <> L -> requested i L MemCmd.ReadReq (Some (negb (others i L held V), false)) V j L' = V j L') as Ho.
  { intros j L' Hne. unfold requested. destruct (decide (j = i)) as [->|]; by rewrite upd_ne. }
  split.
  - intros a b L' Hab. destruct (decide (L' = L)) as [->|Hne]; [|rewrite !Ho by done; by apply C1].
    unfold requested. destruct (decide (a = i)) as [->|Ha].
    + rewrite upd_eq, decide_False, upd_eq by done. simpl. intros Hw. destruct (Hoth b) as [->|E]; [done|done|by rewrite E in Hw].
    + rewrite upd_eq. unfold snooped. simpl. by destruct (V a L) as [[]|].
  - intros a b L'. destruct (decide (L' = L)) as [->|Hne]; [rewrite !Hd; apply C2|rewrite !Ho by done; apply C2].
  - intros x Hx Hdx. apply C3; [done|]. intros j. specialize (Hdx j). destruct (decide (x / 2 ^ k = L)) as [E|Hne].
    + rewrite E in Hdx |- *. by rewrite Hd in Hdx.
    + by rewrite Ho in Hdx.
  - intros j L' Hj. unfold requested. rewrite decide_False by lia. unfold upd. case_decide; [|by apply C4].
    unfold snooped. simpl. by rewrite C4.
Qed.

(** A write: nobody else has the line. *)
Lemma coherence_write F' L cm : is_read cm = false -> (forall x, x / 2 ^ k <> L -> F' x = F x) ->
  coherence F' Gm (requested i L cm (Some (true, true)) V).
Proof.
  intros Hcm HF. destruct Hch as [C1 C2 C3 C4].
  assert (forall j, j <> i -> requested i L cm (Some (true, true)) V j L = None) as HN.
  { intros j Hne. unfold requested. rewrite decide_False, upd_eq by done. unfold snooped. by rewrite Hcm. }
  assert (requested i L cm (Some (true, true)) V i L = Some (true, true)) as HI.
  { unfold requested. by rewrite decide_True, upd_eq. }
  assert (forall j L', L' <> L -> requested i L cm (Some (true, true)) V j L' = V j L') as Ho.
  { intros j L' Hne. unfold requested. destruct (decide (j = i)) as [->|]; by rewrite upd_ne. }
  split.
  - intros a b L' Hab. destruct (decide (L' = L)) as [->|Hne]; [|rewrite !Ho by done; by apply C1].
    destruct (decide (b = i)) as [->|]; [|by rewrite (HN b)]. by rewrite HN.
  - intros a b L'. destruct (decide (L' = L)) as [->|Hne]; [|rewrite !Ho by done; apply C2].
    destruct (decide (a = i)) as [->|]; [|by rewrite (HN a)]. destruct (decide (b = i)) as [->|]; [done|]. by rewrite (HN b).
  - intros x Hx Hdx. destruct (decide (x / 2 ^ k = L)) as [E|Hne].
    + specialize (Hdx i). by rewrite E, HI in Hdx.
    + rewrite HF by done. apply C3; [done|]. intros j. specialize (Hdx j). by rewrite Ho in Hdx.
  - intros j L' Hj. destruct (decide (L' = L)) as [->|Hne]; [apply HN; lia|]. rewrite Ho by done. by apply C4.
Qed.

(** Cache [i] gives a line up. *)
Definition without (L : Z) : nat -> Z -> lstate := fun j => if decide (j = i) then upd (V i) L None else V j.

Lemma coherence_without L Gm' :
  (forall x, x / 2 ^ k <> L -> Gm' x = Gm x) ->
  (forall x, x / 2 ^ k = L -> lo <= x <= hi -> if dirty (V i L) then Gm' x = F x else Gm' x = Gm x) ->
  coherence F Gm' (without L).
Proof.
  intros H1 H2. destruct Hch as [C1 C2 C3 C4].
  assert (forall j L', j <> i \/ L' <> L -> without L j L' = V j L') as Ho.
  { intros j L' Hne. unfold without. destruct (decide (j = i)) as [->|]; [|done]. apply upd_ne. tauto. }
  assert (without L i L = None) as HI by (unfold without; by rewrite decide_True, upd_eq).
  assert (forall j L', without L j L' = None \/ without L j L' = V j L') as Hor.
  { intros j L'. destruct (decide (j = i)) as [->|]; [|right; by apply Ho; left]. destruct (decide (L' = L)) as [->|]; [by left|right; by apply Ho; right]. }
  split.
  - intros a b L' Hab Hw. destruct (Hor a L') as [E|E]; rewrite E in Hw; [done|]. destruct (Hor b L') as [->| ->]; [done|]. by apply (C1 a).
  - intros a b L' Ha Hb. destruct (Hor a L') as [E|E]; rewrite E in Ha; [done|]. destruct (Hor b L') as [E'|E']; rewrite E' in Hb; [done|]. by apply (C2 a b L').
  - intros x Hx Hdx. destruct (decide (x / 2 ^ k = L)) as [E|Hne].
    + specialize (H2 x E Hx). destruct (dirty (V i L)) eqn:Ed; [done|]. rewrite H2. apply C3; [done|]. intros j. rewrite E.
      destruct (decide (j = i)) as [->|]; [done|]. specialize (Hdx j). rewrite E, Ho in Hdx by (by left). done.
    + rewrite H1 by done. apply C3; [done|]. intros j. specialize (Hdx j). by rewrite Ho in Hdx by (by right).
  - intros j L' Hj. destruct (Hor j L') as [->| ->]; [done|]. by apply C4.
Qed.

End kept.

(** ** Cache [i] at work *)

Lemma bus_off i F Gm V V' x : bus i F Gm V x -> (forall j L, j <> i -> V' j L = V j L) -> bus i F Gm V' x.
Proof. intros [] E. split; try done. intros j u Hj Hu. apply (node_ext _ _ _ _ _ F (V j)); [by intros; apply E|]. by apply bs_node0. Qed.

Lemma bus_bytes i F F' Gm V x : bus i F Gm V x ->
  (forall j a, j <> i -> held (V j (a / 2 ^ k)) = true -> F' a = F a) -> bus i F' Gm V x.
Proof.
  intros [] HF. split; try done. intros j u Hj Hu. destruct (bs_node0 j u Hj Hu) as [Ht Hr]. split; [|done..].
  apply (tracks_bytes _ _ _ _ _ F); [done|]. intros a Ha. by apply (HF j).
Qed.

Lemma filter_mono V V' o : filter_ok V o -> (forall j L, held (V' j L) = true -> held (V j L) = true) -> filter_ok V' o.
Proof.
  intros Hf HV f L Ef. destruct (Hf f L Ef) as [F1 F2 F3 F4]. split; try done. intros L' Hin Hne.
  destruct (F4 L' Hin Hne) as (h & Eh & Hh). exists h. split; [done|]. intros j Hj Hd. apply Hh; [done|]. by apply HV.
Qed.

Lemma evicts_moved F F' V V1 wbs L st :
  evicts lo hi k F V V1 wbs -> V L = None -> (forall x, x / 2 ^ k <> L -> F' x = F x) ->
  exists V1', evicts lo hi k F' (upd V L st) V1' wbs /\ forall L', V1' L' = upd V1 L st L'.
Proof.
  intros He HL HF. pose proof (pow2_pos k ltac:(lia)) as Hk0.
  assert (forall Lv st', V Lv = Some st' -> Lv <> L /\ forall L', upd (upd V L st) Lv None L' = upd (upd V Lv None) L st L') as Hcomm.
  { intros Lv st' E. assert (Lv <> L) as Hne by congruence. split; [done|]. intros L'. unfold upd. do 2 case_decide; congruence. }
  destruct He as [|Lv w E|Lv w wb E [W1 W2 W3 W4]].
  - exists (upd V L st). split; [constructor|done].
  - destruct (Hcomm Lv _ E) as [Hne HU]. exists (upd (upd V L st) Lv None). split; [|done]. apply (evicts_clean _ _ _ _ _ Lv w). by rewrite upd_ne.
  - destruct (Hcomm Lv _ E) as [Hne HU]. exists (upd (upd V L st) Lv None). split; [|done].
    apply (evicts_dirty _ _ _ _ _ Lv w); [by rewrite upd_ne|]. split; try done.
    replace (read_bytes F' (Lv * 2 ^ k) (2 ^ k)) with (read_bytes F (Lv * 2 ^ k) (2 ^ k)); [done|].
    apply read_bytes_ext. intros x Hx. symmetry. apply HF. intros E'. apply Hne. rewrite <- E'.
    apply (Z.div_unique _ _ _ (x - Lv * 2 ^ k)); lia.
Qed.

(** The replaced block is sent to memory. *)
Lemma evict_ok e i F Gm V x Vi wbs :
  bypassCaches e = false -> (i < n)%nat -> bus i F Gm V x -> filter_ok V (CoherentXBar.snoopFilter x) -> coherence F Gm V ->
  evicts lo hi k F (V i) Vi wbs -> (forall L, held (V i L) = true -> in_line L) ->
  let V' := fun j => if decide (j = i) then Vi else V j in
  exists x' Gm', send_all (AP := xbar_port e i) wbs x = Ok x' /\ bus i F Gm' V' x' /\
    filter_ok V' (CoherentXBar.snoopFilter x') /\ coherence F Gm' V'.
Proof.
  intros Hby Hi Hbus Hf Hch He Hin V'. pose proof (pow2_pos k ltac:(lia)) as Hk0.
  assert (forall j L, j <> i -> V' j L = V j L) as HV' by (intros j L Hne; unfold V'; by rewrite decide_False).
  assert (forall j L, held (V' j L) = true -> held (V j L) = true) as Hm.
  { intros j L. unfold V'. destruct (decide (j = i)) as [->|]; [|done]. inversion He; subst; try done; unfold upd; by case_decide. }
  destruct He as [|Lv w E|Lv w wb E Hwb].
  - exists x, Gm. split; [done|]. split; [by apply (bus_off i F Gm V)|]. split; [by apply (filter_mono V)|].
    apply (coherence_ext F Gm V Hch). intros j L. unfold V'. by destruct (decide (j = i)) as [->|].
  - exists x, Gm. split; [done|]. split; [by apply (bus_off i F Gm V)|]. split; [by apply (filter_mono V)|].
    apply (coherence_without i F Gm V Hch Lv Gm); [done|]. by rewrite E.
  - destruct (bus_writeback_ok e Hby i Hi F Gm V Lv) with (wb := wb) (x := x) as (pkt' & lat & x' & Es & Hbus' & Hf'); try done.
    { apply Hin. by rewrite E. }
    exists x', (write_bytes Gm (Lv * 2 ^ k) (read_bytes F (Lv * 2 ^ k) (2 ^ k))). cbn [send_all]. unfold sendAtomic. rewrite Es.
    cbn [mbind outcome_bind]. split; [done|]. split; [by apply (bus_off i F _ V)|]. split; [by apply (filter_mono V)|].
    assert (forall a, write_bytes Gm (Lv * 2 ^ k) (read_bytes F (Lv * 2 ^ k) (2 ^ k)) a = if decide (a / 2 ^ k = Lv) then F a else Gm a) as Hw.
    { intros a. unfold write_bytes. rewrite read_bytes_length by lia. destruct (addr_split k a Hk0) as [Ea Hmod].
      destruct (decide (a / 2 ^ k = Lv)) as [<-|Hne].
      - rewrite decide_True by lia. apply list_lookup_total_correct. rewrite read_bytes_lookup by lia. do 2 f_equal. lia.
      - rewrite decide_False; [done|]. intros Ha. apply Hne. symmetry. apply (Z.div_unique _ _ _ (a - Lv * 2 ^ k)); lia. }
    apply (coherence_without i F Gm V Hch Lv).
    + intros a Ha. by rewrite Hw, decide_False.
    + intros a Ha _. rewrite E. simpl. by rewrite Hw, decide_True.
Qed.

Record working (i : nat) (F Gm : Z -> Z) (V : nat -> Z -> lstate) (c : Cache) (x : X) : Prop := {
  wk_bus : bus i F Gm V x;
  wk_tracks : tracks lo hi k (s i) mm F (V i) c;
  wk_coherence : coherence F Gm V;
  wk_filter : filter_ok V (CoherentXBar.snoopFilter x);
}.

Lemma tracks_in_line sx F V c L : tracks lo hi k sx mm F V c -> held (V L) = true -> in_line L.
Proof.
  intros Ht HL. destruct (tr_held _ _ _ _ _ _ _ _ Ht L HL) as (p & b & Hp & Hv & <-).
  destruct (tr_blk _ _ _ _ _ _ _ _ Ht p b Hp Hv) as [[] _]. by split.
Qed.

(** The other caches agree with the bytes after a request of cache [i]. *)
Lemma bus_served i F F' Gm V L cm x st :
  bus i F Gm (requested i L cm (V i L) V) x -> (forall a, a / 2 ^ k <> L -> F' a = F a) ->
  (is_read cm = true -> forall a, F' a = F a) -> bus i F' Gm (requested i L cm st V) x.
Proof.
  intros Hbus HF HR. apply (bus_off i F' Gm (requested i L cm (V i L) V)).
  - apply (bus_bytes i F); [done|]. intros j a Hne Hh. destruct (decide (a / 2 ^ k = L)) as [E|]; [|by apply HF].
    unfold requested in Hh. rewrite decide_False, E, upd_eq in Hh by done. unfold snooped in Hh. destruct (is_read cm); [by apply HR|done].
  - intros j L' Hne. unfold requested. by rewrite !decide_False.
Qed.

(** A miss ends: the line is in cache [i] in state [st], and what it replaced is
    sent to memory. *)
Lemma finish e i F F' Gm V L cm st V1 wbs c' x1 :
  bypassCaches e = false -> (i < n)%nat ->
  bus i F Gm (requested i L cm (V i L) V) x1 -> filter_ok (requested i L cm (Some st) V) (CoherentXBar.snoopFilter x1) ->
  coherence F' Gm (requested i L cm (Some st) V) -> (forall a, a / 2 ^ k <> L -> F' a = F a) ->
  (is_read cm = true -> forall a, F' a = F a) -> evicts lo hi k F (V i) V1 wbs -> V i L = None ->
  (forall L, held (V i L) = true -> in_line L) -> in_line L -> tracks lo hi k (s i) mm F' (upd V1 L (Some st)) c' ->
  exists x' Gm' V', send_all (AP := xbar_port e i) wbs x1 = Ok x' /\ working i F' Gm' V' c' x'.
Proof.
  intros Hby Hi Hbus Hf Hch HF HR He HVL Hin HL Ht.
  destruct (evicts_moved F F' (V i) V1 wbs L (Some st) He HVL HF) as (V1' & He' & E1').
  pose proof (bus_served i F F' Gm V L cm x1 (Some st) Hbus HF HR) as Hbus'.
  assert (requested i L cm (Some st) V i = upd (V i) L (Some st)) as Eself by (unfold requested; by rewrite decide_True).
  rewrite <- Eself in He'.
  destruct (evict_ok e i F' Gm (requested i L cm (Some st) V) x1 V1' wbs Hby Hi Hbus' Hf Hch He') as (x' & Gm' & Es & B & Fo & C).
  { intros L'. rewrite Eself. unfold upd. case_decide; [by subst|apply Hin]. }
  eexists x', Gm', _. split; [done|]. split; [exact B| |exact C|exact Fo]. cbv beta. rewrite decide_True by done.
  by apply (tracks_ext _ _ _ _ _ F' (upd V1 L (Some st))).
Qed.

Lemma answered_source F r L cm sh inh bus c :
  answered F r L cm sh inh bus -> cm = MemCmd.ReadReq \/ cm = MemCmd.ReadExReq -> in_line L -> blkSize c = 2 ^ k ->
  0 <= Request.masterId r < maxMasters c ->
  fill_source c bus (L * 2 ^ k) false (read_bytes F (L * 2 ^ k) (2 ^ k)) /\ Packet.isRead bus = true /\
  Packet.isResponse bus = true /\ Packet.isError bus = false.
Proof.
  intros [A1 A2 A3 A4 A5 A6 A7 A8 A9 A10] Hc [HL1 HL2] Hbs Hm. pose proof (pow2_pos k ltac:(lia)) as Hk0.
  assert (Packet.isResponse bus = true /\ Packet.isError bus = false /\ Packet.isRead bus = true /\
    Packet.hasData bus = true) as (Q4 & Q5 & Q6 & Q7).
  { unfold Packet.isResponse, Packet.isError, Packet.isRead, Packet.hasData. rewrite A1. by destruct Hc as [-> | ->]. }
  split; [|done]. split; rewrite ?Q4, ?Q6; try done; [| | | |by rewrite A2].
  - unfold Packet.getAddr. by rewrite A3, A5.
  - unfold Packet.isSecure. by rewrite A3, A7.
  - intros _. unfold Packet.getSize. rewrite A4, A6, Hbs. split; [done|]. split; [|rewrite read_bytes_length; lia].
    apply A10. by destruct Hc as [-> | ->].
  - lia.
Qed.

(** ** Misses *)

Section misses.
Context (e : Env) (He : env_ok e) (h : list MSHR.MSHR) (i : nat) (Hi : (i < n)%nat) (F Gm : Z -> Z) (V : nat -> Z -> lstate).
Context (pkt : Packet.Packet) (d : list Z) (Ha : access_ok lo hi k mm pkt d).
Local Abbreviation L := (Packet.addr pkt / 2 ^ k).

Lemma access_line : in_line L.
Proof. split; [apply (ac_lo _ _ _ _ _ _ Ha)|apply (ac_hi _ _ _ _ _ _ Ha)]. Qed.

(** The bytes of other lines stay. *)
Lemma after_off a : a / 2 ^ k <> L -> after F pkt d a = F a.
Proof.
  intros Hne. unfold after. destruct (Packet.isWrite pkt); [|done]. unfold write_bytes. rewrite decide_False; [done|]. intros Hin. apply Hne.
  pose proof (pow2_pos k ltac:(lia)) as Hk0. destruct (addr_split k (Packet.addr pkt) Hk0) as [Ea Hmod].
  pose proof (ac_fits _ _ _ _ _ _ Ha). pose proof (ac_bytes _ _ _ _ _ _ Ha).
  symmetry. apply (Z.div_unique a (2 ^ k) _ (a - L * 2 ^ k)); lia.
Qed.

Lemma packet_onbus bus cm :
  Packet.cmd bus = cm -> Packet.req bus = Packet.req pkt -> Packet.addr bus = L * 2 ^ k -> Packet.size bus = 2 ^ k ->
  Packet._isSecure bus = false -> Packet.sharedAsserted bus = false -> mem_request lo hi bus (fresh e (2 ^ k)) ->
  onbus k (Packet.req pkt) L cm false false (fresh e (2 ^ k)) bus.
Proof.
  intros Bc Br Ba Bz Bs Bsh []. split; try done. destruct He as [_ Hfr]. apply Hfr. pose proof (pow2_pos k ltac:(lia)). lia.
Qed.

(** The request [bus] is answered, its response used and the replaced block sent
    to memory; the bytes are those after [pkt]. *)
Definition resolved (blk : option blkptr) (c : Cache) (x : X) (bus : Packet.Packet) : Prop :=
  exists bus' t x1 pkt' wbs c' x' Gm' V', sendAtomic (AtomicPort := xbar_port e i) bus x = Ok (bus', t, x1) /\
    Packet.req bus' = Packet.req pkt /\ atomic_response e h pkt bus' blk c = Ok (pkt', wbs, c') /\
    send_all (AP := xbar_port e i) wbs x1 = Ok x' /\ working i (after F pkt d) Gm' V' c' x' /\ Packet.cmd pkt' = Packet.cmd pkt /\
    (Packet.cmd pkt = MemCmd.ReadReq -> Packet.data pkt' = Some (read_bytes F (Packet.addr pkt) (Packet.size pkt))).

(** A response with data is filled in. *)
Lemma fill_answer c cm shb inhb bus' :
  tracks lo hi k (s i) mm F (V i) c -> V i L = None -> cm = MemCmd.ReadReq \/ cm = MemCmd.ReadExReq ->
  answered F (Packet.req pkt) L cm shb inhb bus' ->
  exists p b wbs c' V1,
    handleFill (curTick e) (now e + fillLatency c * clockPeriod e) (fresh e) h bus' None [] c = Ok (InTags p, wbs, c') /\
    evicts lo hi k F (V i) V1 wbs /\ BaseSetAssoc.blks (tags c') !! p = Some b /\ Blk.isValid b = true /\ line (s i) b = L /\
    Blk.isWritable b = negb shb /\ tracks lo hi k (s i) mm F (upd V1 L (Some (negb shb, negb shb && inhb))) c'.
Proof.
  intros Wt HV Hc Han. pose proof He as [Hby Hfr]. pose proof access_line as HL.
  destruct (tracks_geo _ _ _ _ _ _ _ _ Wt) as (_ & Hs & Hk0 & Hs0 & Hbs).
  destruct (answered_source F (Packet.req pkt) L cm _ _ bus' c Han Hc HL Hbs) as (Hsrc & Q1 & Q2 & Q3).
  { rewrite (tr_masters _ _ _ _ _ _ _ _ Wt). apply Ha. }
  assert (L * 2 ^ k / 2 ^ k = L) as EL by (by rewrite Z.div_mul by lia).
  destruct (fill_tracks lo hi k (s i) mm Hlo Hhi F (V i) e h bus' (L * 2 ^ k) (read_bytes F (L * 2 ^ k) (2 ^ k)) c)
    as (p & b & wbs & c' & V1 & Ef & Hev & HV1 & Hpb & Hlb & Hvb & Hwb & Htop & Hlen & Hdb & Ht'); rewrite ?EL; try (done || apply HL).
  rewrite EL in Hlb, Ht'. specialize (Hdb Q1). rewrite <- Hdb in Ht'.
  replace (b <| Blk.data := Blk.data b |>) with b in Ht' by (by destruct b). rewrite put_same in Ht' by done.
  rewrite (an_sh _ _ _ _ _ _ _ Han) in Hwb, Ht'. rewrite (an_inh _ _ _ _ _ _ _ Han) in Ht'.
  exists p, b, wbs, c', V1. done.
Qed.

Lemma no_supplier_unshared : others i L held V = false -> forall cm, others i L (supplies cm) V = false.
Proof.
  intros Hn cm. apply any_of_false. intros p Hp%elem_of_seqZ Hne. pose proof (others_false i L held V (Z.to_nat p) Hn ltac:(lia) ltac:(lia)) as Hh.
  by destruct (V (Z.to_nat p) L).
Qed.

(** A read. *)
Lemma read_miss c x bus :
  working i F Gm V c x -> V i L = None -> Packet.cmd pkt = MemCmd.ReadReq ->
  onbus k (Packet.req pkt) L MemCmd.ReadReq false false (fresh e (2 ^ k)) bus ->
  resolved None c x bus.
Proof.
  intros [Wb Wt Wc Wf] HV Hc Hb. pose proof He as [Hby Hfr]. pose proof access_line as HL.
  destruct (bus_request_ok e Hby i Hi F Gm L HL (Packet.req pkt) (ac_cached _ _ _ _ _ _ Ha) (ac_paddr _ _ _ _ _ _ Ha)
    MemCmd.ReadReq ltac:(by left) V Wc x (fresh e (2 ^ k)) bus Wb Wf Hb) as (bus' & t & x1 & E & Hbus & Han & Hf); [done|].
  rewrite andb_true_r in Han.
  destruct (fill_answer c MemCmd.ReadReq _ _ bus' Wt HV ltac:(by left) Han) as (p & b & wbs & c' & V1 & Ef & Hev & Hpb & Hvb & Hlb & _ & Ht').
  destruct (read_tracks lo hi k (s i) mm F _ (curTick e) c' p b pkt d Ha Ht' Hpb Hvb Hlb Hc) as (pkt' & Es & Ec & Ed).
  assert (after F pkt d = F) as EF by (unfold after, Packet.isWrite; by rewrite Hc).
  assert (negb (others i L held V) && others i L (supplies MemCmd.ReadReq) V = false) as Ed0.
  { destruct (others i L held V) eqn:Eo; [done|]. simpl. by apply no_supplier_unshared. }
  rewrite Ed0 in Ht'.
  destruct (finish e i F F Gm V L MemCmd.ReadReq (negb (others i L held V), false) V1 wbs c' x1) as (x' & Gm' & V' & Esd & Hw); try done.
  { by apply coherence_read. }
  { intros L'. by apply (tracks_in_line (s i) F (V i) c). }
  exists bus', t, x1, pkt', wbs, c', x', Gm', V'. split; [done|]. split; [apply Han|]. split; [|rewrite EF; by split_and!].
  unfold atomic_response. assert (Packet.needsResponse pkt = true /\ Packet.isWriteInvalidate pkt = false) as (-> & ->).
  { unfold Packet.needsResponse, Packet.isWriteInvalidate. by rewrite Hc. }
  assert (Packet.isResponse bus' = true /\ Packet.isError bus' = false /\ Packet.isRead bus' = true) as (-> & -> & ->).
  { unfold Packet.isResponse, Packet.isError, Packet.isRead. by rewrite (an_cmd _ _ _ _ _ _ _ Han). }
  cbn [mbind outcome_bind ensure orb]. cbv zeta. rewrite Ef. cbn [mbind outcome_bind]. rewrite Es. done.
Qed.

(** A write of a part of the line. *)
Lemma write_miss c x bus :
  working i F Gm V c x -> V i L = None -> Packet.cmd pkt = MemCmd.WriteReq ->
  onbus k (Packet.req pkt) L MemCmd.ReadExReq false false (fresh e (2 ^ k)) bus ->
  resolved None c x bus.
Proof.
  intros [Wb Wt Wc Wf] HV Hc Hb. pose proof He as [Hby Hfr]. pose proof access_line as HL.
  destruct (bus_request_ok e Hby i Hi F Gm L HL (Packet.req pkt) (ac_cached _ _ _ _ _ _ Ha) (ac_paddr _ _ _ _ _ _ Ha)
    MemCmd.ReadExReq ltac:(right; by left) V Wc x (fresh e (2 ^ k)) bus Wb Wf Hb) as (bus' & t & x1 & E & Hbus & Han & Hf); [done|].
  rewrite andb_false_r in Han.
  destruct (fill_answer c MemCmd.ReadExReq _ _ bus' Wt HV ltac:(by right) Han) as (p & b & wbs & c' & V1 & Ef & Hev & Hpb & Hvb & Hlb & Hwb & Ht').
  destruct (tr_blk _ _ _ _ _ _ _ _ Ht' p b Hpb Hvb) as [Hg _]. pose proof (gd_data _ _ _ _ _ _ Hg) as Hdata. rewrite Hlb in Hdata.
  destruct (tracks_geo _ _ _ _ _ _ _ _ Ht') as (_ & _ & Hk0 & _ & _).
  destruct (serve_tracks lo hi k (s i) mm F (upd V1 L (Some (true, others i L (supplies MemCmd.ReadExReq) V))) (curTick e) c' p b
    pkt d Ha Hpb Hvb Hlb) as (c2 & Es & Ht2).
  { unfold Packet.needsExclusive. by rewrite Hc. }
  { done. }
  { apply Ht'. }
  { rewrite Hdata, read_bytes_length; lia. }
  { by left. }
  { rewrite <- Hdata. replace (b <| Blk.data := Blk.data b |>) with b by (by destruct b). rewrite put_same by done. exact Ht'. }
  unfold served in Ht2. assert (Packet.isWrite pkt = true) as Hwr by (unfold Packet.isWrite; by rewrite Hc). rewrite Hwr in Ht2.
  destruct (finish e i F (after F pkt d) Gm V L MemCmd.ReadExReq (true, true) V1 wbs c2 x1) as (x' & Gm' & V' & Esd & Hw); try done.
  { apply (coherence_write i Hi F Gm V Wc); [done|]. intros a. apply after_off. }
  { intros a. apply after_off. }
  { intros L'. by apply (tracks_in_line (s i) F (V i) c). }
  { apply (tracks_ext _ _ _ _ _ _ (upd (upd V1 L (Some (true, others i L (supplies MemCmd.ReadExReq) V))) L (Some (true, true)))); [|done].
    intros L'. unfold upd. by case_decide. }
  exists bus', t, x1, pkt, wbs, c2, x', Gm', V'. split; [done|]. split; [apply Han|]. split; [|split_and!; try done; by rewrite Hc].
  unfold atomic_response. assert (Packet.needsResponse pkt = true /\ Packet.isWriteInvalidate pkt = false) as (-> & ->).
  { unfold Packet.needsResponse, Packet.isWriteInvalidate. by rewrite Hc. }
  assert (Packet.isResponse bus' = true /\ Packet.isError bus' = false /\ Packet.isRead bus' = true) as (-> & -> & ->).
  { unfold Packet.isResponse, Packet.isError, Packet.isRead. by rewrite (an_cmd _ _ _ _ _ _ _ Han). }
  cbn [mbind outcome_bind ensure orb]. cbv zeta. rewrite Ef. cbn [mbind outcome_bind]. rewrite Es. done.
Qed.
(** A write of the whole line. *)
Lemma whole_line_miss c x bus :
  working i F Gm V c x -> V i L = None -> Packet.cmd pkt = MemCmd.WriteInvalidateReq ->
  onbus k (Packet.req pkt) L MemCmd.WriteInvalidateReq false false (fresh e (2 ^ k)) bus ->
  resolved None c x bus.
Proof.
  intros [Wb Wt Wc Wf] HV Hc Hb. pose proof He as [Hby Hfr]. pose proof access_line as HL.
  destruct (bus_request_ok e Hby i Hi F Gm L HL (Packet.req pkt) (ac_cached _ _ _ _ _ _ Ha) (ac_paddr _ _ _ _ _ _ Ha)
    MemCmd.WriteInvalidateReq ltac:(by do 3 right) V Wc x (fresh e (2 ^ k)) bus Wb Wf Hb) as (bus' & t & x1 & E & Hbus & Han & Hf); [done|].
  assert (Packet.needsResponse pkt = true /\ Packet.isWriteInvalidate pkt = true /\ Packet.isRead pkt = false /\
    Packet.hasData pkt = true /\ Packet.isWrite pkt = true /\ Packet.needsExclusive pkt = true) as (Q1 & Q2 & Q3 & Q4 & Q5 & Q6).
  { unfold Packet.needsResponse, Packet.isWriteInvalidate, Packet.isRead, Packet.hasData, Packet.isWrite, Packet.needsExclusive. by rewrite Hc. }
  destruct (fill_tracks lo hi k (s i) mm Hlo Hhi F (V i) e h pkt (Packet.addr pkt) [] c)
    as (p & b & wbs & c' & V1 & Ef & Hev & HV1 & Hpb & Hlb & Hvb & Hwb & Htop & Hlen & _ & Ht'); try (done || apply HL).
  { pose proof (tr_masters _ _ _ _ _ _ _ _ Wt) as Hmm. destruct Ha. split; try done; rewrite ?Q2, ?Q3, ?orb_true_r; try done.
    - unfold Packet.getAddr. by rewrite ac_addr0.
    - unfold Packet.isSecure. by rewrite ac_addr0, ac_sec0.
    - by rewrite Hmm. }
  rewrite (ac_excl _ _ _ _ _ _ Ha) in Hwb, Ht'.
  match type of Ht' with tracks _ _ _ _ _ _ ?V2 _ =>
    destruct (serve_tracks lo hi k (s i) mm F V2 (curTick e) c' p b pkt d Ha Hpb Hvb Hlb Q6 Hwb Htop Hlen ltac:(by right) Ht') as (c2 & Es & Ht2) end.
  unfold served in Ht2. rewrite Q5 in Ht2.
  destruct (finish e i F (after F pkt d) Gm V L MemCmd.WriteInvalidateReq (true, true) V1 wbs c2 x1) as (x' & Gm' & V' & Esd & Hw); try done.
  { apply (coherence_write i Hi F Gm V Wc); [done|]. intros a. apply after_off. }
  { intros a. apply after_off. }
  { intros L'. by apply (tracks_in_line (s i) F (V i) c). }
  { eapply tracks_ext; [|exact Ht2]. intros L'. unfold upd. by case_decide. }
  exists bus', t, x1, pkt, wbs, c2, x', Gm', V'. split; [done|]. split; [apply Han|]. split; [|split_and!; try done; by rewrite Hc].
  unfold atomic_response. rewrite Q1, Q2, (tr_top _ _ _ _ _ _ _ _ Wt).
  assert (Packet.isResponse bus' = true /\ Packet.isError bus' = false) as (-> & ->).
  { unfold Packet.isResponse, Packet.isError. by rewrite (an_cmd _ _ _ _ _ _ _ Han). }
  cbn [mbind outcome_bind ensure]. cbv zeta. rewrite Ef. cbn [mbind outcome_bind]. rewrite Es. done.
Qed.

(** The block becomes writable and is written. *)
Lemma upgraded c p b src a ft :
  tracks lo hi k (s i) mm F (V i) c -> BaseSetAssoc.blks (tags c) !! p = Some b -> Blk.isValid b = true -> line (s i) b = L ->
  Packet.isWrite pkt = true -> a / 2 ^ k = L -> 0 <= a -> Packet.isResponse src || Packet.isWriteInvalidate src = true ->
  Packet.isRead src = false -> Packet.getAddr src = Ok a -> Packet.isSecure src = Ok false -> Packet.sharedAsserted src = false ->
  exists c2,
    ('(r, wbs, c) ← handleFill (curTick e) ft (fresh e) h src (Some (InTags p)) [] c;
     '(pkt, c) ← satisfyCpuSideRequest (curTick e) false false pkt r c;
     Ok (pkt, wbs, c)) = Ok (pkt, [], c2) /\
    tracks lo hi k (s i) mm (after F pkt d) (upd (V i) L (Some (true, true))) c2.
Proof.
  intros Wt Hp Hv Hl Hw Ea Ha0 Hr Hrd Had Hsec Hsh. rewrite <- Ea in Hl.
  destruct (upgrade_tracks lo hi k (s i) mm F (V i) (curTick e) ft (fresh e) h src c p b a Wt Hp Hv Hl Ha0 Hr Hrd Had Hsec Hsh)
    as (b' & c' & Ef & Ht' & Hpb & Hvb & Hlb & Hwb & _). rewrite Ea in Hlb, Ht'. rewrite Ef. cbn [mbind outcome_bind].
  destruct (tr_blk _ _ _ _ _ _ _ _ Ht' p b' Hpb Hvb) as [Hg _]. pose proof (gd_data _ _ _ _ _ _ Hg) as Hdata. rewrite Hlb in Hdata.
  destruct (tracks_geo _ _ _ _ _ _ _ _ Ht') as (_ & _ & Hk0 & _ & _).
  assert (Packet.needsExclusive pkt = true) as Hx.
  { unfold Packet.isWrite, Packet.needsExclusive in *. by destruct (ac_cmd _ _ _ _ _ _ Ha) as [E|[E|[E _]]]; rewrite E in Hw |- *. }
  match type of Ht' with tracks _ _ _ _ _ _ ?V2 _ =>
    destruct (serve_tracks lo hi k (s i) mm F V2 (curTick e) c' p b' pkt d Ha Hpb Hvb Hlb Hx Hwb) as (c2 & Es & Ht2) end.
  { apply Ht'. }
  { rewrite Hdata, read_bytes_length; lia. }
  { by left. }
  { rewrite <- Hdata. replace (b' <| Blk.data := Blk.data b' |>) with b' by (by destruct b'). rewrite put_same by done. exact Ht'. }
  rewrite Es. cbn [mbind outcome_bind]. exists c2. split; [done|]. unfold served in Ht2. rewrite Hw in Ht2.
  eapply tracks_ext; [|exact Ht2]. intros L'. unfold upd. by case_decide.
Qed.

(** A write to a line that is there and may not be written. *)
Lemma upgrade_miss c x bus p b :
  working i F Gm V c x -> BaseSetAssoc.blks (tags c) !! p = Some b -> Blk.isValid b = true -> line (s i) b = L ->
  Packet.needsExclusive pkt = true ->
  onbus k (Packet.req pkt) L MemCmd.UpgradeReq false false (fresh e (2 ^ k)) bus ->
  resolved (Some (InTags p)) c x bus.
Proof.
  intros [Wb Wt Wc Wf] Hp Hv Hl Hx Hb. pose proof He as [Hby Hfr]. pose proof access_line as HL.
  destruct (bus_request_ok e Hby i Hi F Gm L HL (Packet.req pkt) (ac_cached _ _ _ _ _ _ Ha) (ac_paddr _ _ _ _ _ _ Ha)
    MemCmd.UpgradeReq ltac:(by do 2 right; left) V Wc x (fresh e (2 ^ k)) bus Wb Wf Hb) as (bus' & t & x1 & E & Hbus & Han & Hf); [done|].
  rewrite andb_false_r in Han. pose proof Han as [A1 A2 A3 A4 A5 A6 A7 A8 A9 _].
  destruct (tracks_geo _ _ _ _ _ _ _ _ Wt) as (_ & _ & Hk0 & _ & Hbs). pose proof (ac_cmd _ _ _ _ _ _ Ha) as Hc.
  assert (Packet.needsResponse pkt = true /\ Packet.isWrite pkt = true /\ Packet.cmd pkt <> MemCmd.ReadReq) as (Q1 & Q2 & Q3).
  { unfold Packet.needsResponse, Packet.isWrite, Packet.needsExclusive in *. by destruct Hc as [E1|[E1|[E1 _]]]; rewrite E1 in Hx |- *. }
  assert (exists c2, atomic_response e h pkt bus' (Some (InTags p)) c = Ok (pkt, [], c2) /\
    tracks lo hi k (s i) mm (after F pkt d) (upd (V i) L (Some (true, true))) c2) as (c2 & Er & Ht2).
  { unfold atomic_response. rewrite Q1, (tr_top _ _ _ _ _ _ _ _ Wt).
    assert (Packet.isResponse bus' = true /\ Packet.isError bus' = false /\ Packet.isRead bus' = false) as (R1 & R2 & R3).
    { unfold Packet.isResponse, Packet.isError, Packet.isRead. by rewrite A1. }
    rewrite R1, R2, R3, A1. cbn [mbind outcome_bind ensure]. cbv zeta. destruct (Packet.isWriteInvalidate pkt) eqn:Ewi.
    - apply (upgraded c p b pkt (Packet.addr pkt)); try done.
      + apply Ha.
      + by rewrite Ewi, orb_true_r.
      + unfold Packet.isRead, Packet.isWriteInvalidate in *. by destruct Hc as [E1|[E1|[E1 _]]]; rewrite E1 in Ewi |- *.
      + unfold Packet.getAddr. by rewrite (ac_addr _ _ _ _ _ _ Ha).
      + unfold Packet.isSecure. by rewrite (ac_addr _ _ _ _ _ _ Ha), (ac_sec _ _ _ _ _ _ Ha).
      + apply Ha.
    - rewrite bool_decide_eq_true_2 by done. cbn [orb]. apply (upgraded c p b bus' (L * 2 ^ k)); try done.
      + by rewrite Z.div_mul by lia.
      + destruct HL. lia.
      + by rewrite R1.
      + unfold Packet.getAddr. by rewrite A3, A5.
      + unfold Packet.isSecure. by rewrite A3, A7. }
  exists bus', t, x1, pkt, [], c2, x1, Gm, (requested i L MemCmd.UpgradeReq (Some (true, true)) V).
  split; [done|]. split; [done|]. split; [done|]. split; [done|]. split; [|done]. split; [| | |apply Hf].
  - apply (bus_served i F); [done| |done]. intros a. apply after_off.
  - unfold requested. by rewrite decide_True.
  - apply (coherence_write i Hi F Gm V Wc); [done|]. intros a. apply after_off.
Qed.

(** A miss of any kind. *)
Lemma bus_miss_ok c x lat blk :
  working i F Gm V c x ->
  match blk with
  | None => V i L = None
  | Some r => exists p b, r = InTags p /\ BaseSetAssoc.blks (tags c) !! p = Some b /\ Blk.isValid b = true /\
      line (s i) b = L /\ Blk.isWritable b = false /\ Packet.needsExclusive pkt = true
  end ->
  exists pkt' lat' wbs c' x1 x' Gm' V', atomic_miss (AP := xbar_port e i) e h pkt blk lat c x = Ok (pkt', lat', wbs, c', x1) /\
    send_all (AP := xbar_port e i) wbs x1 = Ok x' /\ working i (after F pkt d) Gm' V' c' x' /\ Packet.cmd pkt' = Packet.cmd pkt /\
    (Packet.cmd pkt = MemCmd.ReadReq -> Packet.data pkt' = Some (read_bytes F (Packet.addr pkt) (Packet.size pkt))).
Proof.
  intros Hw Hblk. pose proof He as [_ Hfr]. destruct (tracks_geo _ _ _ _ _ _ _ _ (wk_tracks _ _ _ _ _ _ Hw)) as (_ & _ & Hk0 & _ & Hbs).
  assert (exists bus, getBusPacket (fresh e) pkt blk (Packet.needsExclusive pkt) c = Ok (Some bus) /\ resolved blk c x bus) as (bus & Eb & Hres).
  { destruct blk as [r|].
    - destruct Hblk as (p & b & -> & Hp & Hv & Hl & Hnw & Hx). rewrite Hx.
      destruct (upgrade_packet lo hi k mm (fresh e) pkt d c (InTags p) b) as (bus & Eb & Bc & Br & Ba & Bz & Bs & Bsh & Bm); try done; [by apply pget_ok|].
      exists bus. split; [done|]. apply (upgrade_miss c x bus p b); try done. by apply packet_onbus.
    - destruct (bus_packet lo hi k mm (fresh e) pkt d c) as (bus & Eb & Bc & Br & Ba & Bz & Bs & Bsh & Bm); try done.
      exists bus. split; [done|]. pose proof (packet_onbus bus _ Bc Br Ba Bz Bs Bsh Bm) as Hb.
      destruct (ac_cmd _ _ _ _ _ _ Ha) as [Hc|[Hc|[Hc _]]]; unfold bus_cmd, Packet.isWriteInvalidate, Packet.needsExclusive in Hb; rewrite Hc in Hb.
      + by apply read_miss.
      + by apply write_miss.
      + by apply whole_line_miss. }
  destruct Hres as (bus' & t & x1 & pkt' & wbs & c' & x' & Gm' & V' & E1 & Er & E2 & E3 & Hfin & Ec & Hd).
  unfold atomic_miss. rewrite Eb. cbn [mbind outcome_bind]. rewrite E1. cbn [mbind outcome_bind]. rewrite Er.
  assert (pkt <| Packet.req := Packet.req pkt |> = pkt) as -> by by destruct pkt. rewrite E2. cbn [mbind outcome_bind].
  eexists pkt', _, wbs, c', x1, x', Gm', V'. done.
Qed.
End misses.

(** ** A request of a CPU *)

(** A write to a line that cache [i] may write. *)
Lemma hit_working i F Gm V c c' x pkt d :
  (i < n)%nat -> working i F Gm V c x -> access_ok lo hi k mm pkt d ->
  tracks lo hi k (s i) mm (after F pkt d) (served k (V i) pkt) c' ->
  (Packet.isWrite pkt = true -> writable (V i (Packet.addr pkt / 2 ^ k)) = true) ->
  exists V', working i (after F pkt d) Gm V' c' x.
Proof.
  intros Hi [Wb Wt Wc Wf] Ha Ht Hw. unfold served in Ht. destruct (Packet.isWrite pkt) eqn:Ew.
  - specialize (Hw eq_refl). set (L := Packet.addr pkt / 2 ^ k) in *.
    assert (forall j, j <> i -> V j L = None) as HN by (intros j Hne; by apply (ch_writer _ _ _ Wc i)).
    set (V' := fun j => if decide (j = i) then upd (V i) L (Some (true, true)) else V j).
    assert (forall j L', V' j L' = requested i L MemCmd.ReadExReq (Some (true, true)) V j L') as EV.
    { intros j L'. unfold V', requested. destruct (decide (j = i)) as [->|]; [done|]. unfold upd. case_decide; [|done]. subst. by rewrite HN. }
    exists V'. split.
    + apply (bus_off i _ Gm V); [|intros j L' Hne; unfold V'; by rewrite decide_False]. apply (bus_bytes i F); [done|].
      intros j a Hne Hh. apply (after_off i Hi F pkt d Ha). intros E. rewrite E in Hh. fold L in Hh. by rewrite HN in Hh.
    + unfold V'. by rewrite decide_True.
    + apply (coherence_ext _ Gm (requested i L MemCmd.ReadExReq (Some (true, true)) V)); [|done].
      apply (coherence_write i Hi F Gm V Wc); [done|]. intros a. apply (after_off i Hi F pkt d Ha).
    + apply (filter_mono V); [done|]. intros j L' Hh. unfold V' in Hh. destruct (decide (j = i)) as [->|]; [|done].
      unfold upd in Hh. case_decide; [|done]. subst. by destruct (V i L).
  - assert (after F pkt d = F) as EF by (unfold after; by rewrite Ew). rewrite EF in Ht |- *. by exists V.
Qed.

Lemma request_ok e h i F Gm V c x pkt d :
  env_ok e -> (i < n)%nat -> working i F Gm V c x -> access_ok lo hi k mm pkt d -> Packet.cmd pkt <> MemCmd.WriteInvalidateReq ->
  exists pkt' lat c' x' Gm' V', CacheAtomic.recvAtomic (AP := xbar_port e i) e h pkt c x = Ok (pkt', lat, c', x') /\
    working i (after F pkt d) Gm' V' c' x' /\ Packet.isResponse pkt' = true /\
    (Packet.cmd pkt = MemCmd.ReadReq -> Packet.data pkt' = Some (read_bytes F (Packet.addr pkt) (Packet.size pkt))).
Proof.
  intros He Hi Hw Ha Hwi. pose proof (wk_tracks _ _ _ _ _ _ Hw) as Wt. destruct (tracks_geo _ _ _ _ _ _ _ _ Wt) as (_ & _ & Hk0 & _ & Hbs).
  destruct (promote_ok lo hi k mm e pkt d F c Ha ltac:(lia) Hbs (tr_top _ _ _ _ _ _ _ _ Wt) Hwi) as (pkt1 & Ep & Ha1 & Ef & Eaddr & Esize & Ecmd).
  assert (forall p, Packet.cmd p = Packet.cmd pkt1 -> Packet.needsResponse p = true /\
    Packet.isResponse (responded p) = true) as Hresp.
  { intros p Hp. unfold Packet.needsResponse, Packet.isResponse. simpl. rewrite Hp.
    by destruct (ac_cmd _ _ _ _ _ _ Ha1) as [->|[->|[-> _]]]. }
  unfold CacheAtomic.recvAtomic. rewrite (proj1 He), Ep. cbn [mbind outcome_bind]. rewrite (ac_own _ _ _ _ _ _ Ha1).
  destruct (access_tracks lo hi k (s i) mm F (V i) e h c pkt1 d Wt Ha1) as (a & Eacc & Ewb & Hres). rewrite Eacc. cbn [mbind outcome_bind].
  rewrite Ewb. cbn [send_all mbind outcome_bind]. rewrite <- Ef.
  destruct (r_hit a).
  - destruct Hres as (Ht & Ec & Hrd & Hwr). destruct (hit_working i F Gm V c (r_cache a) x pkt1 d Hi Hw Ha1 Ht Hwr) as (V' & Hw').
    cbn [mbind outcome_bind send_all]. destruct (Hresp _ Ec) as [Hn Hr].
    rewrite Hn, makeResponse_ok by done. cbn [mbind outcome_bind]. eexists _, _, _, x, Gm, V'. split; [reflexivity|].
    split; [done|]. split; [done|]. intros Hrq. rewrite <- Eaddr, <- Esize. apply Hrd. by apply Ecmd.
  - destruct Hres as (Epk & Ht & Hblk). rewrite Epk. set (pkt2 := pkt1 <| Packet.req ::= _ |>).
    pose proof (access_ok_depth lo hi k mm pkt1 d (Z.add 1) Ha1) as Ha2. fold pkt2 in Ha2.
    assert (working i F Gm V (r_cache a) x) as Hw1 by (by destruct Hw).
    destruct (bus_miss_ok e He h i Hi F Gm V pkt2 d Ha2 (r_cache a) x (r_lat a) (r_blk a) Hw1)
      as (pkt' & lat' & wbs & c' & x1 & x' & Gm' & V' & E1 & E2 & Hfin & Ec & Hrd); [done|].
    rewrite E1. cbn [mbind outcome_bind]. rewrite E2. cbn [mbind outcome_bind]. destruct (Hresp _ Ec) as [Hn Hr].
    rewrite Hn, makeResponse_ok by done. cbn [mbind outcome_bind]. eexists _, _, c', x', Gm', V'. split; [reflexivity|].
    split; [done|]. split; [done|]. intros Hrq. rewrite <- Eaddr, <- Esize. apply Hrd. by apply Ecmd.
Qed.

(** ** The whole system *)

(** Between requests. *)
Record quiet (F Gm : Z -> Z) (V : nat -> Z -> lstate) (x : X) : Prop := {
  qu_bus i : (i < n)%nat -> bus i F Gm V x;
  qu_node j u : CoherentXBar.above x !! j = Some u -> node lo hi k (s j) mm F (V j) u;
  qu_len : length (CoherentXBar.above x) = n;
  qu_coherence : coherence F Gm V;
  qu_filter : filter_ok V (CoherentXBar.snoopFilter x);
}.

End bus.

End Coherence.
