(* ===== verification/FunctionalCoherence.v ===== *)
(** Functional accesses to several caches above a coherent crossbar above a
    memory, and the write-back and invalidation of a cache
    (mem/cache/cache_impl.hh, mem/coherent_xbar.cc): they see and change the one
    memory that the caches are, and leave the states of the lines as they are. *)

From S2P Require Import Prelude IntMath AddrRange Request MemCmd Packet Functional PacketQueue CachePort.
From S2P Require Import Blk CacheSet BaseSetAssoc LRU BasePrefetcher QueuedPrefetcher MSHR MSHRQueue XBar SnoopFilter.
From S2P Require Import AbstractMemory AtomicPort SimpleMemory Cache CacheIssue CacheAtomic CacheSnoop CacheFunctional.
From S2P Require Import CoherentXBar CoherentCache Coherence.
Import AbstractMemory Cache CacheAtomic CoherentCache Coherence.
Local Open Scope Z_scope.

Module FunctionalCoherence.
Import CacheFunctional.

Lemma writeback_packet_eq ct a n tid d : 0 < n ->
  writeback_packet ct a n tid d =
    Ok (Packet.MkPacket 4864 MemCmd.WriteReq (Request.MkRequest a n 1 0 3 ct tid 0 0 0 0 0 0 0 0 0) (Some d) a false n
          MemCmd.InvalidCmd [] 0 0 []).
Proof. intros Hn. destruct n; [lia| |lia]. vm_compute. reflexivity. Qed.

(** ** One cache *)

Section one.
Context {G : Type} {GG : Generator G} (lo hi k s mm : Z) (Hlo : 0 <= lo) (Hhi : hi < 2 ^ 64) (Hk : 2 <= k < 31).
Local Abbreviation tracks := (tracks lo hi k s mm).
Local Abbreviation Issue := (CacheIssue.Issue (G := G)).

(** A functional read or write of bytes of one line. *)
Record func_access (pkt : Packet.Packet) (d : list Z) : Prop := {
  fa_pkt : Functional.func_pkt pkt d;
  fa_cmd : Packet.cmd pkt = MemCmd.ReadReq \/ Packet.cmd pkt = MemCmd.WriteReq;
  fa_fits : Packet.addr pkt mod 2 ^ k + Packet.size pkt <= 2 ^ k;
  fa_lo : lo <= Packet.addr pkt / 2 ^ k * 2 ^ k;
  fa_hi : Packet.addr pkt / 2 ^ k * 2 ^ k + 2 ^ k - 1 <= hi;
  fa_sec : Packet._isSecure pkt = false;
  fa_own : Packet.memInhibitAsserted pkt = false;
  fa_paddr : Request.hasPaddr (Packet.req pkt) = true;
}.

Lemma func_access_data pkt d d' bv :
  func_access pkt d -> length d' = length d -> length bv = length d ->
  func_access (pkt <| Packet.data := Some d' |> <| Packet.bytesValid := bv |>) d'.
Proof.
  intros [[] ? ? ? ? ? ? ?] Hd Hb. split; try done. split; try done; simpl; [by rewrite Hd|]. right. congruence.
Qed.

Lemma func_request pkt d : func_access pkt d -> mem_request lo hi pkt d.
Proof.
  intros [Hp ? Hf ? ? ? ? ?]. pose proof Hp as []. pose proof (addr_split k (Packet.addr pkt) (pow2_pos k ltac:(lia))) as [Ea Hm].
  split; try done; try lia. by apply (Functional.getPtr_ok _ d).
Qed.

(** An idle cache has nothing in its buffers that an access could meet. *)
Lemma check_buffers_idle pkt a (iss : Issue) :
  idle iss -> MSHRQueue.allocatedList (mshrQueue (CacheIssue.cache iss)) = [] ->
  check_buffers pkt a iss = Ok (false, pkt, iss).
Proof.
  intros [I1 I2 I3 I4] I5. unfold check_buffers, MSHRQueue.checkFunctional, PacketQueue.checkFunctional.
  destruct iss as [c wb pf pr o bl nt [q b ms ev rt] [rl rw re] [sl sw se] ex pd st h]; simpl in *.
  rewrite I1. simpl. rewrite I5. simpl. rewrite I2. simpl. rewrite I3. simpl. rewrite I4. simpl. destruct q. simpl in *. by subst.
Qed.

Lemma align_line (iss : Issue) a : blkSize (CacheIssue.cache iss) = 2 ^ k -> in_width 64 a ->
  CacheIssue.blockAlign iss a = a / 2 ^ k * 2 ^ k.
Proof.
  intros Hbs Ha. unfold CacheIssue.blockAlign. rewrite Hbs, land_not_mask by (done || lia).
  pose proof (addr_split k a ltac:(apply pow2_pos; lia)). lia.
Qed.

(** The lookups at the start. *)
Lemma functional_check_start F V (iss : Issue) pkt d :
  tracks F V (CacheIssue.cache iss) -> func_access pkt d ->
  let L := Packet.addr pkt / 2 ^ k in
  exists blk, functional_check pkt iss =
      ('(have_data, pkt, iss) ← check_block pkt (L * 2 ^ k) false blk iss;
       have_dirty ← check_dirty have_data blk None iss;
       if have_dirty : bool then Ok (true, pkt, iss) else check_buffers pkt (L * 2 ^ k) iss) /\
    match blk with
    | Some p => exists b, BaseSetAssoc.blks (tags (CacheIssue.cache iss)) !! p = Some b /\ Blk.isValid b = true /\ line s b = L
    | None => V L = None
    end.
Proof.
  intros Ht Ha L. destruct (tracks_geo _ _ _ _ _ _ _ _ Ht) as (_ & _ & Hk0 & _ & Hbs). pose proof Ha as [[P1 P2 P3 P4 P5 P6 P7 P8 P9 P10] ? ? ? ? Hs ? ?].
  destruct (tracks_find lo hi k s mm F V _ (Packet.addr pkt) Ht) as (blk & Ef & Hblk); [lia|].
  exists blk. split; [|done]. unfold functional_check, Packet.getAddr, Packet.isSecure. rewrite P1, Hs. cbn [mbind outcome_bind ensure].
  rewrite Ef. cbn [mbind outcome_bind]. rewrite align_line by (done || lia || (split; lia)).
  unfold MSHRQueue.findMatch. by rewrite (tr_idle _ _ _ _ _ _ _ _ Ht).
Qed.

Lemma line_value F V c p b :
  tracks F V c -> BaseSetAssoc.blks (tags c) !! p = Some b -> Blk.isValid b = true ->
  Functional.func_val (line s b * 2 ^ k) (2 ^ k) (read_bytes F (line s b * 2 ^ k) (2 ^ k)).
Proof.
  intros Ht Hp Hv. destruct (tr_blk _ _ _ _ _ _ _ _ Ht p b Hp Hv) as [[G1 G2 G3 G4 G5 G6] _].
  pose proof (pow2_pos k ltac:(lia)). pose proof (Z.pow_lt_mono_r 2 k 31 ltac:(lia) ltac:(lia)).
  split; lia || by rewrite read_bytes_length by lia.
Qed.

(** The block of the line and the packet meet. *)
Lemma within_line pkt d b :
  func_access pkt d -> line s b = Packet.addr pkt / 2 ^ k ->
  line s b * 2 ^ k <= Packet.addr pkt /\ Packet.addr pkt + Packet.size pkt <= line s b * 2 ^ k + 2 ^ k /\
  Packet.addr pkt - line s b * 2 ^ k = Packet.addr pkt mod 2 ^ k /\
  Functional.overlaps pkt (line s b * 2 ^ k) false (2 ^ k).
Proof.
  intros [[] ? ? ? ? Hs ? ?] Hl. pose proof (addr_split k (Packet.addr pkt) (pow2_pos k ltac:(lia))) as [Ea Hm]. rewrite Hl.
  split_and!; try lia. split; [done|]. lia.
Qed.

Lemma put_issue (iss : Issue) p b : BaseSetAssoc.blks (tags (CacheIssue.cache iss)) !! p = Some b ->
  iss <| CacheIssue.cache ::= put_blk (InTags p) b |> = iss.
Proof.
  intros Hb. transitivity (iss <| CacheIssue.cache := put_blk (InTags p) b (CacheIssue.cache iss) |>); [done|].
  rewrite put_same by done. by destruct iss.
Qed.

Lemma func_read F V (iss : Issue) pkt d :
  tracks F V (CacheIssue.cache iss) -> idle iss -> func_access pkt d -> Packet.cmd pkt = MemCmd.ReadReq ->
  let own := dirty (V (Packet.addr pkt / 2 ^ k)) in
  exists d' bv, let pkt' := pkt <| Packet.data := Some d' |> <| Packet.bytesValid := bv |> in
    functional_check pkt iss = Ok (own, pkt', iss) /\ func_access pkt' d' /\
    (own = true -> d' = read_bytes F (Packet.addr pkt) (Packet.size pkt)).
Proof.
  intros Ht Hid Ha Hc own. pose proof Ha as [Hp ? Hf ? ? ? ? ?]. pose proof Hp as [_ _ _ Pd Pl _ _ _ _ _].
  assert (pkt <| Packet.data := Some d |> <| Packet.bytesValid := Packet.bytesValid pkt |> = pkt) as Eid
    by (destruct pkt; simpl in *; by rewrite Pd).
  destruct (functional_check_start F V iss pkt d Ht Ha) as ([p|] & -> & Hblk).
  - destruct Hblk as (b & Hb & Hv & Hl). destruct (within_line pkt d b Ha Hl) as (W1 & W2 & W3 & W4).
    pose proof (line_value F V _ p b Ht Hb Hv) as Hval. destruct (tr_blk _ _ _ _ _ _ _ _ Ht p b Hb Hv) as [Hgd EV].
    rewrite <- Hl. destruct (Functional.functional_read_within pkt d _ false (2 ^ k) _ Hp Hval W4) as (d' & bv & E & Em & Hbv); try done.
    { unfold Packet.isRead. by rewrite Hc. }
    exists d', bv. cbn zeta. destruct (tracks_geo _ _ _ _ _ _ _ _ Ht) as (_ & _ & _ & _ & Hbs).
    unfold check_block, check_dirty. assert (get_blk (InTags p) (CacheIssue.cache iss) = Ok b) as Hg by by apply pget_ok.
    rewrite Hg. cbn [mbind outcome_bind]. rewrite Hv, Hbs, (gd_data _ _ _ _ _ _ Hgd), E. cbn [mbind outcome_bind].
    rewrite <- (gd_data _ _ _ _ _ _ Hgd). assert (b <| Blk.data := Blk.data b |> = b) as -> by by destruct b.
    rewrite put_issue by done. rewrite Hg. cbn [mbind outcome_bind]. assert (own = Blk.isDirty b) as -> by (unfold own; rewrite <- Hl, EV; done).
    rewrite check_buffers_idle by (done || apply Ht). pose proof (Functional.memcpy_length _ _ _ _ _ _ Em) as Hlen.
    rewrite W3 in Em. rewrite Hl in Em.
    split; [by destruct (Blk.isDirty b)|]. split; [by apply (func_access_data pkt d)|]. intros _.
    apply (line_read k F _ _ (Packet.addr pkt mod 2 ^ k) d d'); try done; pose proof (addr_split k (Packet.addr pkt) (pow2_pos k ltac:(lia))); lia.
  - exists d, (Packet.bytesValid pkt). cbn zeta. rewrite Eid. cbn [check_block check_dirty mbind outcome_bind].
    rewrite check_buffers_idle by (done || apply Ht). unfold own. rewrite Hblk. done.
Qed.

Lemma func_write F V (iss : Issue) pkt d :
  tracks F V (CacheIssue.cache iss) -> idle iss -> func_access pkt d -> Packet.cmd pkt = MemCmd.WriteReq ->
  exists c', functional_check pkt iss = Ok (false, pkt, iss <| CacheIssue.cache := c' |>) /\
    tracks (write_bytes F (Packet.addr pkt) d) V c'.
Proof.
  intros Ht Hid Ha Hc. pose proof Ha as [Hp ? Hf ? ? ? ? ?]. pose proof Hp as [_ _ _ Pd Pl _ _ _ _ _].
  pose proof (pow2_pos k ltac:(lia)) as Hk0. pose proof (addr_split k (Packet.addr pkt) Hk0) as [Ea Hm].
  assert (forall x, x / 2 ^ k <> Packet.addr pkt / 2 ^ k -> write_bytes F (Packet.addr pkt) d x = F x) as Hoff.
  { intros x Hx. unfold write_bytes. rewrite decide_False; [done|]. intros Hin. apply Hx. symmetry.
    apply (Z.div_unique x (2 ^ k) _ (x - Packet.addr pkt / 2 ^ k * 2 ^ k)); lia. }
  destruct (functional_check_start F V iss pkt d Ht Ha) as ([p|] & -> & Hblk).
  - destruct Hblk as (b & Hb & Hv & Hl). destruct (within_line pkt d b Ha Hl) as (W1 & W2 & W3 & W4).
    pose proof (line_value F V _ p b Ht Hb Hv) as Hval. destruct (tr_blk _ _ _ _ _ _ _ _ Ht p b Hb Hv) as [Hgd EV].
    rewrite <- Hl. destruct (Functional.functional_write_within pkt d _ false (2 ^ k) _ Hp Hval W4) as (v' & E & Em); try done;
      [unfold Packet.isRead, Packet.isWrite; by rewrite Hc..|].
    destruct (tracks_geo _ _ _ _ _ _ _ _ Ht) as (_ & _ & _ & _ & Hbs). unfold check_block, check_dirty.
    assert (get_blk (InTags p) (CacheIssue.cache iss) = Ok b) as -> by by apply pget_ok. cbn [mbind outcome_bind].
    rewrite Hv, Hbs, (gd_data _ _ _ _ _ _ Hgd), E. cbn [mbind outcome_bind]. set (b' := b <| Blk.data := v' |>).
    exists (put_blk (InTags p) b' (CacheIssue.cache iss)). split; [apply check_buffers_idle; [by destruct Hid|apply Ht]|].
    rewrite W3 in Em. rewrite Hl in Em.
    pose proof (line_write k F (Packet.addr pkt) (Packet.size pkt) (Packet.addr pkt mod 2 ^ k) d
      (read_bytes F (Packet.addr pkt / 2 ^ k * 2 ^ k) (2 ^ k)) v' Hk0 ltac:(lia) Ea ltac:(lia) Hf Pl
      ltac:(by rewrite read_bytes_length by lia) ltac:(by left) Em) as Hv'.
    apply (tracks_ext _ _ _ _ _ _ (upd V (line s b) (Some (Blk.isWritable b', Blk.isDirty b')))).
    { intros L. unfold upd. case_decide; [by subst|done]. }
    apply (put_tracks lo hi k s mm F _ V _ p b b'); try done; [apply Hgd|by rewrite Hl|].
    intros x Hx. apply Hoff. by rewrite <- Hl.
  - exists (CacheIssue.cache iss). cbn [check_block check_dirty mbind outcome_bind]. split.
    + rewrite check_buffers_idle by (done || apply Ht). by destruct iss.
    + apply (tracks_bytes _ _ _ _ _ F); [done|]. intros x Hx. apply Hoff. intros E. rewrite E, Hblk in Hx. done.
Qed.

(** A functional snoop. *)
Section snooped.
Context (e : Env) (Hby : bypassCaches e = false) (V : Z -> lstate) (pkt : Packet.Packet) (d : list Z) (Ha : func_access pkt d).
Local Abbreviation node := (node lo hi k s mm).
Local Abbreviation L := (Packet.addr pkt / 2 ^ k).

Lemma func_response : Packet.makeResponse pkt = Ok (responded pkt) /\ Packet.isResponse (responded pkt) = true /\
  Packet.isResponse pkt = false.
Proof.
  rewrite makeResponse_ok; unfold Packet.needsResponse, Packet.isResponse; simpl; by destruct (fa_cmd _ _ Ha) as [-> | ->].
Qed.

Lemma snoop_read F (u : Issue * ()) : node F V u -> Packet.cmd pkt = MemCmd.ReadReq ->
  exists d' bv, let pkt' := pkt <| Packet.data := Some d' |> <| Packet.bytesValid := bv |> in
    sendFunctionalSnoop (FunctionalSnoop := functional_above e) pkt u =
      Ok (if dirty (V L) then responded pkt' else pkt', u) /\ func_access pkt' d' /\
    (dirty (V L) = true -> d' = read_bytes F (Packet.addr pkt) (Packet.size pkt)).
Proof.
  intros [Ht _ Hid] Hc. destruct (func_read F V u.1 pkt d Ht Hid Ha Hc) as (d' & bv & E & Ha' & Hd). exists d', bv. cbn zeta.
  split; [|done]. unfold sendFunctionalSnoop, functional_above, recvFunctionalSnoop. rewrite Hby. cbn [mbind outcome_bind ensure negb].
  rewrite E. cbn [mbind outcome_bind]. destruct u as [iss []]. destruct (dirty (V L)).
  - rewrite makeResponse_ok by (unfold Packet.needsResponse; simpl; by rewrite Hc). done.
  - rewrite andb_false_r. done.
Qed.

Lemma snoop_write F (u : Issue * ()) : node F V u -> Packet.cmd pkt = MemCmd.WriteReq ->
  exists u', sendFunctionalSnoop (FunctionalSnoop := functional_above e) pkt u = Ok (pkt, u') /\
    node (write_bytes F (Packet.addr pkt) d) V u'.
Proof.
  intros Hn Hc. pose proof Hn as [Ht _ Hid]. destruct (func_write F V u.1 pkt d Ht Hid Ha Hc) as (c' & E & Ht').
  exists (put_cache c' u). split; [|by apply (node_put _ _ _ _ _ F _ V)].
  unfold sendFunctionalSnoop, functional_above, recvFunctionalSnoop. rewrite Hby. cbn [mbind outcome_bind ensure negb].
  rewrite E. cbn [mbind outcome_bind]. destruct u as [iss []]. by rewrite andb_false_r.
Qed.

End snooped.
End one.

(** ** The crossbar *)

(** Cache [i] sends functional packets to slave port [i]. *)
Definition func_port {G : Type} `{Generator G} {M : Type} `{FunctionalPort M} (e : Env) (i : nat)
  : FunctionalPort (CoherentXBar.CoherentXBar (U := CacheIssue.Issue (G := G) * ()) (M := M)) :=
  fun pkt x => CoherentXBar.recvFunctional (FS := functional_above e) e (Z.of_nat i) pkt x.

Section bus.
Context {G : Type} {GG : Generator G} {M : Type} {AP : AtomicPort M} {FP : FunctionalPort M} (lo hi : Z)
  {PO : AtomicPortOk M lo hi} {FO : FunctionalPortOk M lo hi}.
Context (k : Z) (s : nat -> Z) (mm : Z) (n : nat) (mp : Z) (routes : XBar.BaseXBar -> Prop).
Context (Hlo : 0 <= lo) (Hhi : hi < 2 ^ 64) (Hk : 2 <= k < 31) (Hmp : 0 <= mp).
Context (Hroutes : forall xb a, routes xb -> lo <= a <= hi -> exists xb', XBar.findPort a xb = Ok (mp, xb') /\ routes xb').
Local Abbreviation Issue := (CacheIssue.Issue (G := G)).
Local Abbreviation X := (CoherentXBar.CoherentXBar (U := Issue * ()) (M := M)).
Local Abbreviation bus := (bus lo hi k s mm n mp routes).
Local Abbreviation coherence := (coherence lo hi k n).
Context (e : Env) (Hby : bypassCaches e = false) (i : nat).

Lemma above_same (x : X) p u : CoherentXBar.above x !! p = Some u -> x <| CoherentXBar.above ::= <[p := u]> |> = x.
Proof.
  intros Hu. transitivity (x <| CoherentXBar.above := <[p := u]> (CoherentXBar.above x) |>); [done|].
  rewrite list_insert_id by done. by destruct x.
Qed.

Lemma forward_reads F V (x : X) dests : forall pkt d,
  (forall j u, j <> i -> CoherentXBar.above x !! j = Some u -> node lo hi k (s j) mm F (V j) u) ->
  Forall (fun p => 0 <= p < Z.of_nat (length (CoherentXBar.above x))) dests ->
  func_access lo hi k pkt d -> Packet.cmd pkt = MemCmd.ReadReq ->
  exists pkt', CoherentXBar.forward_functional (FS := functional_above e) (Z.of_nat i) dests pkt x = Ok (pkt', x) /\
    (Packet.isResponse pkt' = true /\ Packet.data pkt' = Some (read_bytes F (Packet.addr pkt) (Packet.size pkt)) \/
     Packet.isResponse pkt' = false /\ (exists d', func_access lo hi k pkt' d') /\ Packet.cmd pkt' = MemCmd.ReadReq /\
     Packet.addr pkt' = Packet.addr pkt /\ Packet.size pkt' = Packet.size pkt /\
     forall j, Z.of_nat j ∈ dests -> j <> i -> dirty (V j (Packet.addr pkt / 2 ^ k)) = false).
Proof.
  induction dests as [|p dests IH]; intros pkt d Hnode Hd Ha Hc.
  { exists pkt. split; [done|]. right. split; [by apply (func_response lo hi k pkt d)|]. split; [eauto|]. split_and!; try done.
    intros j Hj. by apply elem_of_nil in Hj. }
  apply Forall_cons in Hd as [Hp Hd]. cbn [CoherentXBar.forward_functional].
  rewrite (proj2 (Z.eqb_neq (Z.of_nat i) XBar.InvalidPortID)) by (unfold XBar.InvalidPortID; lia). cbn [orb].
  destruct (Z.eqb_spec p (Z.of_nat i)) as [->|Hne]; cbn [negb mbind outcome_bind].
  - destruct (func_response lo hi k pkt d Ha) as (_ & _ & ->). destruct (IH pkt d Hnode Hd Ha Hc) as (pkt' & E & [H|H]); exists pkt'; (split; [done|]).
    + by left.
    + right. destruct H as (? & ? & ? & ? & ? & H). split_and!; try done. intros j [E'|Hj]%elem_of_cons Hj'; [lia|by apply H].
  - destruct (lookup_lt_is_Some_2 (CoherentXBar.above x) (Z.to_nat p) ltac:(lia)) as [u Hu].
    assert (vget (CoherentXBar.above x) p = Ok u) as -> by (unfold vget; rewrite (proj2 (Z.ltb_ge p 0)), Hu by lia; done).
    cbn [mbind outcome_bind]. pose proof (Hnode (Z.to_nat p) u ltac:(lia) Hu) as Hnu.
    destruct (snoop_read lo hi k (s (Z.to_nat p)) mm Hlo Hhi Hk e Hby (V (Z.to_nat p)) pkt d Ha F u Hnu Hc) as (d' & bv & E & Ha' & Hd').
    rewrite E. cbn [mbind outcome_bind]. rewrite above_same by done. set (pkt' := pkt <| Packet.data := _ |> <| Packet.bytesValid := _ |>) in *.
    destruct (dirty (V (Z.to_nat p) (Packet.addr pkt / 2 ^ k))) eqn:Ed.
    + destruct (func_response lo hi k pkt' d' Ha') as (_ & -> & _). eexists. split; [reflexivity|]. left.
      split; [by apply (func_response lo hi k pkt' d' Ha')|]. simpl. by rewrite Hd'.
    + destruct (func_response lo hi k pkt' d' Ha') as (_ & _ & ->). destruct (IH pkt' d' Hnode Hd Ha' Hc) as (pkt2 & E2 & [H|H]); exists pkt2; (split; [done|]).
      * by left.
      * right. destruct H as (? & ? & ? & ? & ? & H). split_and!; try done. intros j [E'|Hj]%elem_of_cons Hj'; [|by apply H].
        subst p. by rewrite Nat2Z.id in Ed.
Qed.

(** A write reaches every cache that is snooped; [B j] are the bytes of cache [j]. *)
Lemma forward_writes F V pkt d dests : func_access lo hi k pkt d -> Packet.cmd pkt = MemCmd.WriteReq ->
  forall (x : X) B, NoDup dests ->
  (forall j u, j <> i -> CoherentXBar.above x !! j = Some u -> node lo hi k (s j) mm (B j) (V j) u) ->
  (forall j, Z.of_nat j ∈ dests -> B j = F) ->
  Forall (fun p => 0 <= p < Z.of_nat (length (CoherentXBar.above x))) dests ->
  exists up, CoherentXBar.forward_functional (FS := functional_above e) (Z.of_nat i) dests pkt x =
      Ok (pkt, x <| CoherentXBar.above := up |>) /\ length up = length (CoherentXBar.above x) /\
    up !! i = CoherentXBar.above x !! i /\
    forall j u, j <> i -> up !! j = Some u ->
      node lo hi k (s j) mm (if decide (Z.of_nat j ∈ dests) then write_bytes F (Packet.addr pkt) d else B j) (V j) u.
Proof.
  intros Ha Hc. destruct (func_response lo hi k pkt d Ha) as (_ & _ & Hr).
  induction dests as [|p dests IH]; intros x B Hnd Hnode HB Hd.
  { exists (CoherentXBar.above x). split; [by destruct x|]. split; [done|]. split; [done|]. intros j u Hj Hu.
    rewrite decide_False by (apply not_elem_of_nil). by apply Hnode. }
  apply NoDup_cons in Hnd as [Hnin Hnd]. apply Forall_cons in Hd as [Hp Hd]. cbn [CoherentXBar.forward_functional].
  rewrite (proj2 (Z.eqb_neq (Z.of_nat i) XBar.InvalidPortID)) by (unfold XBar.InvalidPortID; lia). cbn [orb].
  destruct (Z.eqb_spec p (Z.of_nat i)) as [->|Hne]; cbn [negb mbind outcome_bind].
  - rewrite Hr. destruct (IH x B Hnd Hnode) as (up & E & Hl & Hi & Hup); [intros j Hj; apply HB; by right|done|].
    exists up. split_and!; try done. intros j u Hj Hu. specialize (Hup j u Hj Hu).
    rewrite (decide_ext (Z.of_nat j ∈ Z.of_nat i :: dests) (Z.of_nat j ∈ dests)); [done|].
    rewrite elem_of_cons. split; [|by right]. intros [E'|]; [lia|done].
  - destruct (lookup_lt_is_Some_2 (CoherentXBar.above x) (Z.to_nat p) ltac:(lia)) as [u Hu].
    assert (vget (CoherentXBar.above x) p = Ok u) as -> by (unfold vget; rewrite (proj2 (Z.ltb_ge p 0)), Hu by lia; done).
    cbn [mbind outcome_bind]. pose proof (Hnode (Z.to_nat p) u ltac:(lia) Hu) as Hnu.
    rewrite (HB (Z.to_nat p)) in Hnu by (rewrite Z2Nat.id by lia; left).
    destruct (snoop_write lo hi k (s (Z.to_nat p)) mm Hlo Hhi Hk e Hby (V (Z.to_nat p)) pkt d Ha F u Hnu Hc) as (u' & E & Hnu').
    rewrite E. cbn [mbind outcome_bind]. rewrite Hr. set (x1 := x <| CoherentXBar.above ::= <[Z.to_nat p := u']> |>).
    set (B1 := fun j => if decide (j = Z.to_nat p) then write_bytes F (Packet.addr pkt) d else B j).
    destruct (IH x1 B1 Hnd) as (up & E2 & Hl & Hi & Hup).
    + intros j v Hj. simpl. unfold B1. destruct (decide (j = Z.to_nat p)) as [->|Hne'].
      * rewrite list_lookup_insert_eq by lia. by intros [= <-].
      * rewrite list_lookup_insert_ne by done. by apply Hnode.
    + intros j Hj. unfold B1. rewrite decide_False; [apply HB; by right|]. intros ->. rewrite Z2Nat.id in Hj by lia. done.
    + simpl. by rewrite length_insert.
    + exists up. split; [exact E2|]. simpl in Hl, Hi. rewrite length_insert in Hl. rewrite list_lookup_insert_ne in Hi by lia.
      split_and!; try done. intros j v Hj Hv. specialize (Hup j v Hj Hv). unfold B1 in Hup.
      destruct (decide (Z.of_nat j ∈ p :: dests)) as [Hin|Hin]; [|rewrite not_elem_of_cons in Hin; rewrite !decide_False in Hup; [done|lia|tauto]].
      destruct (decide (Z.of_nat j ∈ dests)) as [|Hn]; [done|]. apply elem_of_cons in Hin as [E'|]; [|done].
      rewrite decide_True in Hup by lia. done.
Qed.

Lemma ports_above F Gm V (x : X) : bus i F Gm V x ->
  Forall (fun p => 0 <= p < Z.of_nat (length (CoherentXBar.above x))) (CoherentXBar.snoopPorts x).
Proof.
  intros [B1 _ _ B4 _ _]. rewrite B1, B4. apply Forall_forall. intros p Hp%elem_of_seqZ. lia.
Qed.

(** The memory below, after the snoops. *)
Lemma memory_port F Gm V (x : X) pkt d : bus i F Gm V x -> func_access lo hi k pkt d ->
  exists xb m, Packet.getAddr pkt = Ok (Packet.addr pkt) /\ XBar.findPort (Packet.addr pkt) (CoherentXBar.xbar x) = Ok (mp, xb) /\
    routes xb /\ vget (CoherentXBar.below x) mp = Ok m /\ port_rep Gm m.
Proof.
  intros [_ _ _ _ (m & Hm & Hrep) Hxb] [[Fa Fs _ _ _ Hpos _ _ _ _] _ Hf Hl Hh _ _ _].
  pose proof (addr_split k (Packet.addr pkt) (pow2_pos k ltac:(lia))) as [Ea Hmod].
  destruct (Hroutes (CoherentXBar.xbar x) (Packet.addr pkt) Hxb ltac:(lia)) as (xb & E & Hxb'). exists xb, m. split_and!; try done.
  - unfold Packet.getAddr. by rewrite Fa.
  - unfold vget. by rewrite (proj2 (Z.ltb_ge mp 0)), Hm by lia.
Qed.

Lemma bus_reads F Gm V (x : X) pkt d :
  bus i F Gm V x -> coherence F Gm V -> dirty (V i (Packet.addr pkt / 2 ^ k)) = false ->
  func_access lo hi k pkt d -> Packet.cmd pkt = MemCmd.ReadReq ->
  exists pkt' x', func_port e i pkt x = Ok (pkt', x') /\ bus i F Gm V x' /\
    CoherentXBar.snoopFilter x' = CoherentXBar.snoopFilter x /\ Packet.isResponse pkt' = true /\
    Packet.data pkt' = Some (read_bytes F (Packet.addr pkt) (Packet.size pkt)).
Proof.
  intros Hbus Hch Hown Ha Hc. pose proof (pow2_pos k ltac:(lia)) as Hk0.
  destruct (forward_reads F V x (CoherentXBar.snoopPorts x) pkt d) as (pkt1 & E1 & Hres); try done; [apply Hbus|by eapply ports_above|].
  unfold func_port, CoherentXBar.recvFunctional, CoherentXBar.forwardFunctional. rewrite Hby. cbn [mbind outcome_bind ensure negb].
  rewrite E1. cbn [mbind outcome_bind]. destruct Hres as [[Hr Hd]|(Hr & (d1 & Ha1) & Hc1 & Ea1 & Es1 & Hno)]; rewrite Hr.
  { exists pkt1, x. done. }
  destruct (memory_port F Gm V x pkt1 d1 Hbus Ha1) as (xb & m & -> & Ef & Hxb & Em & Hrep). cbn [mbind outcome_bind].
  rewrite Ef. cbn [mbind outcome_bind]. simpl CoherentXBar.below. rewrite Em. cbn [mbind outcome_bind].
  destruct (port_func_read Gm m pkt1 d1 Hrep (func_request lo hi k Hlo Hhi Hk pkt1 d1 Ha1) Hc1) as (pkt2 & m' & -> & Hrep' & Hr2 & Hd2).
  cbn [mbind outcome_bind]. eexists pkt2, _. split; [reflexivity|]. split; [by eapply bus_frame|]. split; [done|]. split; [done|].
  rewrite Hd2, Ea1, Es1. f_equal. apply read_bytes_ext. intros a Hin. pose proof Ha as [[_ _ _ _ _ Hpos _ _ _ _] _ Hf Hl Hh _ _ _].
  pose proof (addr_split k (Packet.addr pkt) Hk0) as [Ea Hmod].
  assert (a / 2 ^ k = Packet.addr pkt / 2 ^ k) as El.
  { symmetry. apply (Z.div_unique a (2 ^ k) _ (a - Packet.addr pkt / 2 ^ k * 2 ^ k)); lia. }
  apply (ch_clean _ _ _ _ _ _ _ Hch); [lia|]. intros j. rewrite El. destruct (decide (j = i)) as [->|Hne]; [done|].
  destruct (decide (j < n)%nat); [|by rewrite (ch_absent _ _ _ _ _ _ _ Hch) by lia]. apply Hno; [|done].
  rewrite (bs_ports _ _ _ _ _ _ _ _ _ _ _ _ _ Hbus). apply elem_of_seqZ. lia.
Qed.

Lemma bus_writes F Gm V (x : X) pkt d :
  bus i F Gm V x -> func_access lo hi k pkt d -> Packet.cmd pkt = MemCmd.WriteReq ->
  exists pkt' x', func_port e i pkt x = Ok (pkt', x') /\
    bus i (write_bytes F (Packet.addr pkt) d) (write_bytes Gm (Packet.addr pkt) d) V x' /\
    CoherentXBar.snoopFilter x' = CoherentXBar.snoopFilter x /\ Packet.isResponse pkt' = true.
Proof.
  intros Hbus Ha Hc. destruct (forward_writes F V pkt d (CoherentXBar.snoopPorts x) Ha Hc x (fun _ => F)) as (up & E1 & Hl & Hi & Hup).
  { rewrite (bs_ports _ _ _ _ _ _ _ _ _ _ _ _ _ Hbus). apply NoDup_seqZ. }
  { apply Hbus. }
  { done. }
  { by eapply ports_above. }
  unfold func_port, CoherentXBar.recvFunctional, CoherentXBar.forwardFunctional. rewrite Hby. cbn [mbind outcome_bind ensure negb].
  rewrite E1. cbn [mbind outcome_bind]. destruct (func_response lo hi k pkt d Ha) as (_ & _ & ->).
  destruct (memory_port F Gm V x pkt d Hbus Ha) as (xb & m & -> & Ef & Hxb & Em & Hrep). cbn [mbind outcome_bind].
  simpl CoherentXBar.xbar. rewrite Ef. cbn [mbind outcome_bind]. simpl CoherentXBar.below. rewrite Em. cbn [mbind outcome_bind].
  destruct (port_func_write Gm m pkt d Hrep (func_request lo hi k Hlo Hhi Hk pkt d Ha) Hc) as (pkt2 & m' & -> & Hrep' & Hr2).
  cbn [mbind outcome_bind]. eexists pkt2, _. split; [reflexivity|]. split; [|done]. destruct Hbus as [B1 B2 B3 B4 (m0 & B5 & _) B6].
  split; simpl; try done.
  - by rewrite Hl.
  - intros j u Hj Hu. specialize (Hup j u Hj Hu). rewrite decide_True in Hup; [done|]. rewrite B4. apply elem_of_seqZ.
    apply lookup_lt_Some in Hu. lia.
  - intros u Hu. rewrite Hi in Hu. by apply B3.
  - exists m'. rewrite list_lookup_insert_eq by by eapply lookup_lt_Some. done.
Qed.

(** A write to all copies keeps them coherent. *)
Lemma coherence_written F Gm V a d : coherence F Gm V -> coherence (write_bytes F a d) (write_bytes Gm a d) V.
Proof.
  intros [C1 C2 C3 C4]. split; try done. intros x Hx Hd. unfold write_bytes. destruct (decide _); [done|]. by apply C3.
Qed.

(** ** A cache and the rest *)

Local Abbreviation working := (working lo hi k s mm n mp routes).

Lemma functional_working F Gm V (iss : Issue) (x : X) pkt d :
  working i F Gm V (CacheIssue.cache iss) x -> idle iss -> func_access lo hi k pkt d ->
  exists pkt' c' x' Gm', recvFunctional (FP := func_port e i) e pkt iss x = Ok (pkt', iss <| CacheIssue.cache := c' |>, x') /\
    working i (after F pkt d) Gm' V c' x' /\ Packet.isResponse pkt' = true /\
    (Packet.cmd pkt = MemCmd.ReadReq -> Packet.data pkt' = Some (read_bytes F (Packet.addr pkt) (Packet.size pkt))).
Proof.
  intros [Wb Wt Wc Wf] Hid Ha. unfold recvFunctional, after, Packet.isWrite. rewrite Hby. destruct (fa_cmd _ _ _ _ _ Ha) as [Hc|Hc]; rewrite Hc.
  - destruct (func_read lo hi k (s i) mm Hlo Hhi Hk F (V i) iss pkt d Wt Hid Ha Hc) as (d1 & bv & E & Ha1 & Hd1). rewrite E. cbn [mbind outcome_bind].
    assert (iss = iss <| CacheIssue.cache := CacheIssue.cache iss |>) as Ei by by destruct iss.
    destruct (dirty (V i (Packet.addr pkt / 2 ^ k))) eqn:Ed.
    + destruct (func_response lo hi k _ _ Ha1) as (-> & Hr & _). cbn [mbind outcome_bind]. eexists _, (CacheIssue.cache iss), x, Gm.
      split; [by rewrite <- Ei|]. split; [done|]. split; [done|]. intros _. simpl. by rewrite Hd1.
    + set (pkt1 := pkt <| Packet.data := Some d1 |> <| Packet.bytesValid := bv |>) in *.
      destruct (bus_reads F Gm V x pkt1 d1 Wb Wc Ed Ha1 Hc) as (pkt' & x' & E' & Hb & Ef & Hr & Hd). unfold sendFunctional. rewrite E'.
      cbn [mbind outcome_bind]. exists pkt', (CacheIssue.cache iss), x', Gm. split; [by rewrite <- Ei|]. split; [split; try done; by rewrite Ef|done].
  - destruct (func_write lo hi k (s i) mm Hlo Hhi Hk F (V i) iss pkt d Wt Hid Ha Hc) as (c' & E & Ht'). rewrite E. cbn [mbind outcome_bind].
    destruct (bus_writes F Gm V x pkt d Wb Ha Hc) as (pkt' & x' & E' & Hb & Ef & Hr). unfold sendFunctional. rewrite E'.
    cbn [mbind outcome_bind]. eexists pkt', c', x', _. split; [done|]. split; [|done].
    split; [exact Hb|done|by apply coherence_written|by rewrite Ef].
Qed.

(** The packet of a write-back. *)
Lemma writeback_packet_ok ct L tid data : Z.of_nat (length data) = 2 ^ k -> lo <= L * 2 ^ k -> L * 2 ^ k + 2 ^ k - 1 <= hi ->
  exists pkt, writeback_packet ct (L * 2 ^ k) (2 ^ k) tid data = Ok pkt /\
    func_access lo hi k pkt data /\ Packet.cmd pkt = MemCmd.WriteReq /\ Packet.addr pkt = L * 2 ^ k.
Proof.
  intros Hl H1 H2. pose proof (pow2_pos k ltac:(lia)) as Hk0. pose proof (Z.pow_lt_mono_r 2 k 31 ltac:(lia) ltac:(lia)).
  set (r := Request.MkRequest (L * 2 ^ k) (2 ^ k) 1 0 3 ct tid 0 0 0 0 0 0 0 0 0).
  exists (Packet.MkPacket 4864 MemCmd.WriteReq r (Some data) (L * 2 ^ k) false (2 ^ k) MemCmd.InvalidCmd [] 0 0 []).
  split; [by apply writeback_packet_eq|]. split; [|done]. split; simpl; rewrite ?Z.mod_mul, ?Z.div_mul by lia; try done; try lia; [|by right].
  split; simpl; try done; lia || by left.
Qed.

(** The bytes [d] of the line [L] are written. *)
Lemma write_line F B L d : d = read_bytes F (L * 2 ^ k) (2 ^ k) ->
  forall a, write_bytes B (L * 2 ^ k) d a = if decide (a / 2 ^ k = L) then F a else B a.
Proof.
  intros -> a. pose proof (pow2_pos k ltac:(lia)) as Hk0. pose proof (addr_split k a Hk0) as [Ea Hm].
  unfold write_bytes. rewrite read_bytes_length by lia. destruct (decide (a / 2 ^ k = L)) as [El|El].
  - rewrite decide_True by (subst L; lia). apply list_lookup_total_correct. rewrite read_bytes_lookup by (subst L; lia).
    do 2 f_equal. lia.
  - rewrite decide_False; [done|]. intros Hr. apply El. symmetry. apply (Z.div_unique a (2 ^ k) L (a - L * 2 ^ k)); lia.
Qed.

(** Cache [i] has written its line [L] back. *)
Definition cleaned (L : Z) (w : bool) (V : nat -> Z -> lstate) : nat -> Z -> lstate :=
  fun j => if decide (j = i) then upd (V i) L (Some (w, false)) else V j.

Lemma cleaned_states L w V d : V i L = Some (w, d) -> forall j L',
  held (cleaned L w V j L') = held (V j L') /\ writable (cleaned L w V j L') = writable (V j L') /\
  (dirty (cleaned L w V j L') = true -> dirty (V j L') = true) /\ (V j L' = None -> cleaned L w V j L' = None).
Proof.
  intros EV j L'. unfold cleaned, upd. destruct (decide (j = i)) as [->|]; [|done]. destruct (decide (L' = L)) as [->|]; [by rewrite EV|done].
Qed.

Lemma coherence_cleaned F Gm V L w d Gm' : coherence F Gm V -> V i L = Some (w, d) ->
  (forall a, lo <= a <= hi -> Gm' a = if decide (a / 2 ^ k = L) then F a else Gm a) -> coherence F Gm' (cleaned L w V).
Proof.
  intros [C1 C2 C3 C4] EV HG. pose proof (cleaned_states L w V d EV) as HV. split.
  - intros j j' L' Hne Hw. apply HV, (C1 j); [done|]. by rewrite <- (proj1 (proj2 (HV j L'))).
  - intros j j' L' H1 H2. apply (C2 j j' L'); by apply HV.
  - intros a Ha Hd. rewrite HG by done. destruct (decide (a / 2 ^ k = L)) as [|El]; [done|]. apply C3; [done|].
    intros j. specialize (Hd j). unfold cleaned in Hd. destruct (decide (j = i)) as [->|]; [|done]. by rewrite upd_ne in Hd.
  - intros j L' Hj. apply HV. by apply C4.
Qed.

(** A block is written back. *)
Lemma writeback_visit ct F Gm V c (x : X) p b :
  working i F Gm V c x -> BaseSetAssoc.blks (tags c) !! p = Some b ->
  exists c' x' Gm' V' b', writebackVisitor (FP := func_port e i) ct p c x = Ok (c', x') /\ working i F Gm' V' c' x' /\
    (forall j L, held (V' j L) = held (V j L) /\ (dirty (V' j L) = true -> dirty (V j L) = true)) /\
    BaseSetAssoc.blks (tags c') = <[p := b']> (BaseSetAssoc.blks (tags c)) /\ Blk.isDirty b' = false.
Proof.
  intros [Wb Wt Wc Wf] Hp. unfold writebackVisitor. assert (get_blk (InTags p) c = Ok b) as -> by by apply pget_ok. cbn [mbind outcome_bind].
  destruct (Blk.isDirty b) eqn:Ed; [|exists c, x, Gm, V, b; rewrite list_insert_id by done; split_and!; done].
  destruct (Blk.isValid b) eqn:Ev; [|by rewrite (tr_clean _ _ _ _ _ _ _ _ Wt p b Hp Ev) in Ed]. cbn [mbind outcome_bind ensure].
  pose proof (pow2_pos k ltac:(lia)) as Hk0. destruct (tracks_geo _ _ _ _ _ _ _ _ Wt) as (_ & _ & _ & _ & Hbs).
  destruct (tr_blk _ _ _ _ _ _ _ _ Wt p b Hp Ev) as [[G1 G2 G3 G4 G5 G6] EV]. destruct (tr_ok _ _ _ _ _ _ _ _ Wt) as [A Hok].
  set (L := line (s i) b) in *. pose proof (set_range k (s i) A c Hok p b Hp) as Hset.
  rewrite Hbs, (regenerate_line k (s i) A c Hok) by lia. fold L. assert (Z.of_nat (length (Blk.data b)) = 2 ^ k) as Hlen
    by (rewrite G6, read_bytes_length; lia).
  destruct (writeback_packet_ok ct L (Blk.task_id b) (Blk.data b) Hlen G4 G5) as (pkt & -> & Ha & Hc & Ead). cbn [mbind outcome_bind].
  destruct (bus_writes F Gm V x pkt (Blk.data b) Wb Ha Hc) as (pkt' & x' & E & Hb & Ef & _). unfold sendFunctional. rewrite E. cbn [mbind outcome_bind].
  pose proof (fun B => write_line F B L (Blk.data b) G6) as Hwr.
  destruct (cleaned_tracks lo hi k (s i) mm F (V i) c p b Wt Hp Ev) as [Ht' Hcl]. set (b' := b <| Blk.status ::= _ |>) in *.
  set (V' := cleaned L (Blk.isWritable b) V). pose proof (cleaned_states L (Blk.isWritable b) V _ EV) as HV.
  exists (put_blk (InTags p) b' c), x', (write_bytes Gm (Packet.addr pkt) (Blk.data b)), V', b'. split; [done|]. split; [split|].
  - apply (bus_off _ _ _ _ _ _ _ _ i F _ V); [|intros j L' Hne; unfold V', cleaned; by rewrite decide_False].
    apply (bus_bytes _ _ _ _ _ _ _ _ i (write_bytes F (Packet.addr pkt) (Blk.data b))); [done|]. intros j a _ _.
    rewrite Ead, Hwr. by destruct (decide _).
  - unfold V', cleaned. by rewrite decide_True.
  - rewrite Ead. apply (coherence_cleaned F Gm V L _ (Blk.isDirty b)); [done|done|]. intros a Ha'. by rewrite Hwr.
  - rewrite Ef. apply (filter_mono _ _ _ _ V); [done|]. intros j L'. unfold V'. by rewrite (proj1 (HV j L')).
  - split; [|done]. intros j L'. destruct (HV j L') as (? & _ & ? & _). done.
Qed.

(** All blocks are written back. *)
Lemma writebacks_ok ct F ps : forall Gm V c (x : X),
  working i F Gm V c x -> Forall (fun p => (p < length (BaseSetAssoc.blks (tags c)))%nat) ps ->
  exists c' x' Gm' V', writeback_blks (FP := func_port e i) ct ps c x = Ok (c', x') /\ working i F Gm' V' c' x' /\
    (forall j L, held (V' j L) = held (V j L) /\ (dirty (V' j L) = true -> dirty (V j L) = true)) /\
    length (BaseSetAssoc.blks (tags c')) = length (BaseSetAssoc.blks (tags c)) /\
    forall p b, BaseSetAssoc.blks (tags c') !! p = Some b ->
      if decide (p ∈ ps) then Blk.isDirty b = false else BaseSetAssoc.blks (tags c) !! p = Some b.
Proof.
  induction ps as [|p ps IH]; intros Gm V c x Hw Hps.
  { by exists c, x, Gm, V. }
  apply Forall_cons in Hps as [Hp Hps]. destruct (lookup_lt_is_Some_2 _ _ Hp) as [b Hb].
  destruct (writeback_visit ct F Gm V c x p b Hw Hb) as (c1 & x1 & G1 & V1 & b1 & E1 & Hw1 & HV1 & Hbl & Hd1).
  destruct (IH G1 V1 c1 x1 Hw1) as (c2 & x2 & G2 & V2 & E2 & Hw2 & HV2 & Hl2 & Hb2); [by rewrite Hbl, length_insert|].
  cbn [writeback_blks]. rewrite E1. cbn [mbind outcome_bind]. exists c2, x2, G2, V2. split; [done|]. split; [done|].
  rewrite Hbl, length_insert in Hl2. split; [|split; [done|]].
  - intros j L. destruct (HV1 j L) as [E ?], (HV2 j L) as [-> ?]. rewrite E. auto.
  - intros q bq Hq. specialize (Hb2 q bq Hq). destruct (decide (q ∈ ps)) as [Hin|Hin].
    + rewrite decide_True by (by right). done.
    + rewrite Hbl in Hb2. destruct (decide (q = p)) as [->|Hne].
      * rewrite decide_True by left. rewrite list_lookup_insert_eq in Hb2 by done. by injection Hb2 as <-.
      * rewrite decide_False by (rewrite not_elem_of_cons; done). by rewrite list_lookup_insert_ne in Hb2.
Qed.

Definition clean (c : Cache) : Prop := forall p b, BaseSetAssoc.blks (tags c) !! p = Some b -> Blk.isDirty b = false.

Lemma memWriteback_ok ct F Gm V c (x : X) :
  working i F Gm V c x ->
  exists c' x' Gm' V', memWriteback (FP := func_port e i) ct c x = Ok (c', x') /\ working i F Gm' V' c' x' /\ clean c' /\
    (forall j L, held (V' j L) = held (V j L) /\ (dirty (V' j L) = true -> dirty (V j L) = true)).
Proof.
  intros Hw. destruct (writebacks_ok ct F (all_blks c) Gm V c x Hw) as (c' & x' & Gm' & V' & E & Hw' & HV & Hl & Hb).
  { apply Forall_forall. intros p Hp%elem_of_seq. lia. }
  exists c', x', Gm', V'. split_and!; try done. intros p b Hp. specialize (Hb p b Hp). apply lookup_lt_Some in Hp.
  rewrite decide_True in Hb; [done|]. apply elem_of_seq. lia.
Qed.

(** A clean block is dropped. *)
Lemma invalidate_visit ct F Gm V c (x : X) p b :
  working i F Gm V c x -> clean c -> BaseSetAssoc.blks (tags c) !! p = Some b ->
  exists c' V' b', invalidateVisitor ct p c = Ok c' /\ working i F Gm V' c' x /\ clean c' /\
    (forall j L, V' j L = V j L \/ V' j L = None) /\
    BaseSetAssoc.blks (tags c') = <[p := b']> (BaseSetAssoc.blks (tags c)) /\ Blk.isValid b' = false.
Proof.
  intros [Wb Wt Wc Wf] Hcl Hp. unfold invalidateVisitor. assert (get_blk (InTags p) c = Ok b) as -> by by apply pget_ok.
  cbn [mbind outcome_bind]. destruct (Blk.isValid b) eqn:Ev.
  2: { exists c, V, b. rewrite list_insert_id by done. split_and!; try done. intros; by left. }
  rewrite (Hcl p b Hp). cbn [mbind outcome_bind ensure negb].
  destruct (drop_tracks lo hi k (s i) mm F (V i) c ct p b Wt Hp Ev) as (c' & E & Ht').
  destruct (drop_shape ct p c c' E) as (b0 & b' & Hb0 & Hbl & Hv' & Hd' & _ & _). rewrite E. set (L := line (s i) b) in *.
  destruct (tr_blk _ _ _ _ _ _ _ _ Wt p b Hp Ev) as [_ EV]. fold L in EV. rewrite (Hcl p b Hp) in EV.
  exists c', (without i V L), b'. split; [done|]. split; [split|].
  - apply (bus_off _ _ _ _ _ _ _ _ i F Gm V); [done|]. intros j L' Hne. unfold without. by rewrite decide_False.
  - unfold without. by rewrite decide_True.
  - eapply coherence_without; first [exact Wc|done|lia|idtac]. intros a _ _. by rewrite EV.
  - apply (filter_mono _ _ _ _ V); [done|]. intros j L'. unfold without. destruct (decide (j = i)) as [->|]; [|done].
    unfold upd. by destruct (decide (L' = L)).
  - split; [|split; [|done]].
    + intros q bq. rewrite Hbl. destruct (decide (q = p)) as [->|Hne].
      * rewrite list_lookup_insert_eq by by eapply lookup_lt_Some. by intros [= <-].
      * rewrite list_lookup_insert_ne by done. apply Hcl.
    + intros j L'. unfold without. destruct (decide (j = i)) as [->|]; [|by left]. unfold upd. destruct (decide _); [by right|by left].
Qed.

Lemma invalidates_ok ct F Gm (x : X) ps : forall V c,
  working i F Gm V c x -> clean c -> Forall (fun p => (p < length (BaseSetAssoc.blks (tags c)))%nat) ps ->
  exists c' V', invalidate_blks ct ps c = Ok c' /\ working i F Gm V' c' x /\ clean c' /\
    (forall j L, V' j L = V j L \/ V' j L = None) /\
    length (BaseSetAssoc.blks (tags c')) = length (BaseSetAssoc.blks (tags c)) /\
    forall p b, BaseSetAssoc.blks (tags c') !! p = Some b ->
      if decide (p ∈ ps) then Blk.isValid b = false else BaseSetAssoc.blks (tags c) !! p = Some b.
Proof.
  induction ps as [|p ps IH]; intros V c Hw Hcl Hps.
  { exists c, V. split_and!; try done. intros; by left. }
  apply Forall_cons in Hps as [Hp Hps]. destruct (lookup_lt_is_Some_2 _ _ Hp) as [b Hb].
  destruct (invalidate_visit ct F Gm V c x p b Hw Hcl Hb) as (c1 & V1 & b1 & E1 & Hw1 & Hcl1 & HV1 & Hbl & Hd1).
  destruct (IH V1 c1 Hw1 Hcl1) as (c2 & V2 & E2 & Hw2 & Hcl2 & HV2 & Hl2 & Hb2); [by rewrite Hbl, length_insert|].
  cbn [invalidate_blks]. rewrite E1. cbn [mbind outcome_bind]. exists c2, V2. split; [done|]. split; [done|]. split; [done|].
  rewrite Hbl, length_insert in Hl2. split; [|split; [done|]].
  - intros j L. destruct (HV2 j L) as [->|]; [apply HV1|by right].
  - intros q bq Hq. specialize (Hb2 q bq Hq). destruct (decide (q ∈ ps)) as [Hin|Hin].
    + rewrite decide_True by (by right). done.
    + rewrite Hbl in Hb2. destruct (decide (q = p)) as [->|Hne].
      * rewrite decide_True by left. rewrite list_lookup_insert_eq in Hb2 by done. by injection Hb2 as <-.
      * rewrite decide_False by (rewrite not_elem_of_cons; done). by rewrite list_lookup_insert_ne in Hb2.
Qed.

Definition empty (c : Cache) : Prop := forall p b, BaseSetAssoc.blks (tags c) !! p = Some b -> Blk.isValid b = false.

Lemma memInvalidate_ok ct F Gm V c (x : X) :
  working i F Gm V c x -> clean c ->
  exists c' V', memInvalidate ct c = Ok c' /\ working i F Gm V' c' x /\ empty c' /\ (forall L, V' i L = None) /\
    (forall j L, V' j L = V j L \/ V' j L = None).
Proof.
  intros Hw Hcl. destruct (invalidates_ok ct F Gm x (all_blks c) V c Hw Hcl) as (c' & V' & E & Hw' & _ & HV & Hl & Hb).
  { apply Forall_forall. intros p Hp%elem_of_seq. lia. }
  assert (empty c') as He.
  { intros p b Hp. specialize (Hb p b Hp). apply lookup_lt_Some in Hp. rewrite decide_True in Hb; [done|]. apply elem_of_seq. lia. }
  exists c', V'. split_and!; try done. intros L. destruct (V' i L) as [st|] eqn:EV; [|done].
  destruct (tr_held _ _ _ _ _ _ _ _ (wk_tracks _ _ _ _ _ _ _ _ _ _ _ _ _ _ Hw') L) as (p & b & Hp & Hv & _); [by rewrite EV|].
  by rewrite (He p b Hp) in Hv.
Qed.

(** The dirty blocks are those of the dirty lines. *)
Lemma clean_lines F V c : tracks lo hi k (s i) mm F V c -> clean c <-> forall L, dirty (V L) = false.
Proof.
  intros Ht. split.
  - intros Hcl L. destruct (V L) as [[w d]|] eqn:EV; [|done]. destruct (tr_held _ _ _ _ _ _ _ _ Ht L) as (p & b & Hp & Hv & Hl); [by rewrite EV|].
    destruct (tr_blk _ _ _ _ _ _ _ _ Ht p b Hp Hv) as [_ E]. rewrite Hl, EV in E. injection E as _ ->. by apply (Hcl p).
  - intros Hd p b Hp. destruct (Blk.isValid b) eqn:Ev; [|by apply (tr_clean _ _ _ _ _ _ _ _ Ht p)].
    destruct (tr_blk _ _ _ _ _ _ _ _ Ht p b Hp Ev) as [_ E]. specialize (Hd (line (s i) b)). by rewrite E in Hd.
Qed.

End bus.

End FunctionalCoherence.
