(* ===== verification/CoherentSystem.v ===== *)
(** The coherent memory system: caches above a coherent crossbar above a memory,
    with requests in atomic mode, functional accesses, write-backs of a cache and
    flushes of all caches in any order. The system is one flat memory, and after a
    flush the memory below has all of its bytes. *)

From S2P Require Import Prelude IntMath AddrRange Request MemCmd Packet Functional PacketQueue CachePort.
From S2P Require Import Blk CacheSet BaseSetAssoc LRU BasePrefetcher QueuedPrefetcher MSHR MSHRQueue XBar SnoopFilter.
From S2P Require Import AbstractMemory AtomicPort SimpleMemory Cache CacheIssue CacheAtomic CacheSnoop CacheFunctional.
From S2P Require Import CoherentXBar CoherentCache Coherence FunctionalCoherence TaggedPrefetcher.
Import AbstractMemory Cache CacheAtomic CoherentCache Coherence FunctionalCoherence.
Local Open Scope Z_scope.

Module CoherentSystem.

(** ** What can happen *)

(** [Access] is a request in atomic mode and [Func] a functional access of the CPU
    above cache [i]; [Writeback] writes the dirty blocks of a cache back, [Flush]
    those of all caches and then drops all blocks, as when the simulator changes
    from one memory mode to another. *)
Inductive op :=
  | Access (i : nat) (q : request)
  | Func (i : nat) (q : request)
  | Writeback (i : nat) (e : Env)
  | Flush (e : Env).

Section system.
Context {G : Type} `{Generator G} {M : Type} {AP : AtomicPort M} {FP : FunctionalPort M}.
Local Abbreviation Issue := (CacheIssue.Issue (G := G)).
Local Abbreviation X := (CoherentXBar.CoherentXBar (U := Issue * ()) (M := M)).

(** The crossbar has the caches. *)
Definition cpu_request (e : Env) (i : nat) (pkt : Packet.Packet) (x : X) : outcome (Packet.Packet * X) :=
  u ← pget (CoherentXBar.above x) i;
  '(pkt, _, c, x) ← CacheAtomic.recvAtomic (AP := xbar_port e i) e (CacheIssue.heap u.1) pkt (CacheIssue.cache u.1) x;
  Ok (pkt, x <| CoherentXBar.above ::= <[i := put_cache c u]> |>).

Definition cpu_functional (e : Env) (i : nat) (pkt : Packet.Packet) (x : X) : outcome (Packet.Packet * X) :=
  u ← pget (CoherentXBar.above x) i;
  '(pkt, iss, x) ← CacheFunctional.recvFunctional (FP := func_port e i) e pkt u.1 x;
  Ok (pkt, x <| CoherentXBar.above ::= <[i := (iss, u.2)]> |>).

Definition writeback (e : Env) (i : nat) (x : X) : outcome X :=
  u ← pget (CoherentXBar.above x) i;
  '(c, x) ← CacheFunctional.memWriteback (FP := func_port e i) (curTick e) (CacheIssue.cache u.1) x;
  Ok (x <| CoherentXBar.above ::= <[i := put_cache c u]> |>).

Definition invalidate (e : Env) (i : nat) (x : X) : outcome X :=
  u ← pget (CoherentXBar.above x) i;
  c ← CacheFunctional.memInvalidate (curTick e) (CacheIssue.cache u.1);
  Ok (x <| CoherentXBar.above ::= <[i := put_cache c u]> |>).

Fixpoint each (f : nat -> X -> outcome X) (l : list nat) (x : X) : outcome X :=
  match l with
  | [] => Ok x
  | i :: l => x ← f i x; each f l x
  end.

Definition flush (e : Env) (x : X) : outcome X :=
  let caches := seq 0 (length (CoherentXBar.above x)) in
  x ← each (writeback e) caches x;
  each (invalidate e) caches x.

Definition run_op (o : op) (x : X) : outcome (list Packet.Packet * X) :=
  match o with
  | Access i (e, pkt, _) => '(r, x) ← cpu_request e i pkt x; Ok ([r], x)
  | Func i (e, pkt, _) => '(r, x) ← cpu_functional e i pkt x; Ok ([r], x)
  | Writeback i e => x ← writeback e i x; Ok ([], x)
  | Flush e => x ← flush e x; Ok ([], x)
  end.

Fixpoint run_ops (ops : list op) (x : X) : outcome (list Packet.Packet * X) :=
  match ops with
  | [] => Ok ([], x)
  | o :: ops =>
      '(r, x) ← run_op o x;
      '(rs, x) ← run_ops ops x;
      Ok (r ++ rs, x)
  end.

Lemma run_ops_app ops ops' x : run_ops (ops ++ ops') x =
  ('(rs, x) ← run_ops ops x; '(rs', x) ← run_ops ops' x; Ok (rs ++ rs', x)).
Proof.
  revert x. induction ops as [|o ops IH]; intros x.
  - cbn. by destruct (run_ops ops' x) as [[]|].
  - cbn [app run_ops]. destruct (run_op o x) as [[r x1]|]; [|done]. cbn [mbind outcome_bind]. rewrite IH.
    destruct (run_ops ops x1) as [[rs x2]|]; [|done]. cbn [mbind outcome_bind].
    destruct (run_ops ops' x2) as [[rs' x3]|]; [|done]. cbn [mbind outcome_bind]. by rewrite app_assoc.
Qed.
End system.

(** The reads and writes of a flat memory. *)
Definition requests (ops : list op) : list request :=
  omap (fun o => match o with Access _ q | Func _ q => Some q | _ => None end) ops.

(** A response next to that of the flat memory. *)
Lemma flat_step F e pkt d qs p :
  Packet.isResponse p = true ->
  (Packet.cmd pkt = MemCmd.ReadReq -> Packet.data p = Some (read_bytes F (Packet.addr pkt) (Packet.size pkt))) ->
  (flat_run ((e, pkt, d) :: qs) F).2 = (flat_run qs (after F pkt d)).2 /\
  forall rs, Forall2 agrees rs (flat_run qs (after F pkt d)).1 -> Forall2 agrees ([p] ++ rs) (flat_run ((e, pkt, d) :: qs) F).1.
Proof.
  intros Hr Hd. cbn [flat_run]. destruct (flat_run qs (after F pkt d)) as [rs' F']. split; [done|]. intros rs Hrs.
  constructor; [|done]. split; [done|]. intros d' Hd'. destruct (decide _); [|done]. injection Hd' as <-. by apply Hd.
Qed.

(** ** Each of them keeps the invariant *)

Section steps.
Context {G : Type} {GG : Generator G} {M : Type} {AP : AtomicPort M} {FP : FunctionalPort M} (lo hi : Z)
  {PO : AtomicPortOk M lo hi} {SP : SnoopedPortOk M lo hi} {FO : FunctionalPortOk M lo hi}.
Context (k : Z) (s : nat -> Z) (mm : Z) (n : nat) (mp : Z) (routes : XBar.BaseXBar -> Prop).
Context (Hlo : 0 <= lo) (Hhi : hi < 2 ^ 64) (Hk : 2 <= k < 31) (Hmp : 0 <= mp).
Context (Hroutes : forall xb a, routes xb -> lo <= a <= hi -> exists xb', XBar.findPort a xb = Ok (mp, xb') /\ routes xb').
Local Abbreviation Issue := (CacheIssue.Issue (G := G)).
Local Abbreviation X := (CoherentXBar.CoherentXBar (U := Issue * ()) (M := M)).
Local Abbreviation quiet := (quiet lo hi k s mm n mp routes).
Local Abbreviation working := (working lo hi k s mm n mp routes).

(** Cache [i] begins and ends its work. *)
Lemma quiet_working i F Gm V (x : X) : quiet F Gm V x -> (i < n)%nat ->
  exists u, pget (CoherentXBar.above x) i = Ok u /\ node lo hi k (s i) mm F (V i) u /\ working i F Gm V (CacheIssue.cache u.1) x.
Proof.
  intros [Q1 Q2 Q3 Q4 Q5] Hi. destruct (lookup_lt_is_Some_2 (CoherentXBar.above x) i ltac:(lia)) as [u Hu].
  exists u. split; [by apply pget_ok|]. split; [by apply Q2|]. split; [by apply Q1|apply Q2; done|done|done].
Qed.

Lemma working_quiet i F F' Gm V V' c u (x : X) : (i < n)%nat -> node lo hi k (s i) mm F V' u -> working i F' Gm V c x ->
  quiet F' Gm V (x <| CoherentXBar.above ::= <[i := put_cache c u]> |>).
Proof.
  intros Hi Hn [Wb Wt Wc Wf].
  assert (i < length (CoherentXBar.above x))%nat as Hlt by (rewrite (bs_len _ _ _ _ _ _ _ _ _ _ _ _ _ Wb); done).
  assert (forall j v, <[i := put_cache c u]> (CoherentXBar.above x) !! j = Some v -> node lo hi k (s j) mm F' (V j) v) as Hnode.
  { intros j v Hv. destruct (decide (j = i)) as [->|Hne].
    - rewrite list_lookup_insert_eq in Hv by done. injection Hv as <-. by apply (node_put _ _ _ _ _ F F' V').
    - rewrite list_lookup_insert_ne in Hv by done. by apply (bs_node _ _ _ _ _ _ _ _ _ _ _ _ _ Wb). }
  split; simpl; try done.
  - intros j Hj. destruct Wb as [B1 B2 B3 B4 B5 B6]. split; simpl; try done.
    + by rewrite length_insert.
    + intros j' v _ Hv. by apply Hnode.
    + intros v Hv a Hia. by apply (nd_range _ _ _ _ _ _ _ _ (Hnode j v Hv)).
  - rewrite length_insert. apply Wb.
Qed.

Lemma quiet_ext F Gm V V' (x : X) : quiet F Gm V x -> (forall j L, V' j L = V j L) -> quiet F Gm V' x.
Proof.
  intros [Q1 Q2 Q3 Q4 Q5] E. split; try done.
  - intros i Hi. apply (bus_ext _ _ _ _ _ _ _ _ i F Gm V); [done|by apply Q1].
  - intros j u Hu. apply (node_ext _ _ _ _ _ F (V j)); [done|by apply Q2].
  - by eapply coherence_ext.
  - apply (filter_mono _ _ _ _ V); [done|]. intros j L. by rewrite E.
Qed.

Lemma cpu_request_ok e i F Gm V (x : X) pkt d :
  (i < n)%nat -> cpu_access lo hi k mm (e, pkt, d) -> quiet F Gm V x ->
  exists pkt' x' Gm' V', cpu_request e i pkt x = Ok (pkt', x') /\ quiet (after F pkt d) Gm' V' x' /\
    Packet.isResponse pkt' = true /\
    (Packet.cmd pkt = MemCmd.ReadReq -> Packet.data pkt' = Some (read_bytes F (Packet.addr pkt) (Packet.size pkt))).
Proof.
  intros Hi (He & Ha & Hwi) Hq. simpl in He, Ha, Hwi. destruct (quiet_working i F Gm V x Hq Hi) as (u & Eu & Hn & Hw).
  unfold cpu_request. rewrite Eu. cbn [mbind outcome_bind].
  destruct (request_ok lo hi k s mm n mp routes Hlo Hhi ltac:(lia) Hmp Hroutes e (CacheIssue.heap u.1) i F Gm V (CacheIssue.cache u.1) x pkt d He Hi)
    as (pkt' & lat & c' & x' & Gm' & V' & -> & Hw' & Hr & Hd); try done.
  cbn [mbind outcome_bind]. eexists _, _, Gm', V'. split; [reflexivity|]. split; [|done]. by apply (working_quiet i F _ _ _ (V i)).
Qed.

Lemma cpu_functional_ok e i F Gm V (x : X) pkt d :
  (i < n)%nat -> bypassCaches e = false -> func_access lo hi k pkt d -> quiet F Gm V x ->
  exists pkt' x' Gm', cpu_functional e i pkt x = Ok (pkt', x') /\ quiet (after F pkt d) Gm' V x' /\
    Packet.isResponse pkt' = true /\
    (Packet.cmd pkt = MemCmd.ReadReq -> Packet.data pkt' = Some (read_bytes F (Packet.addr pkt) (Packet.size pkt))).
Proof.
  intros Hi He Ha Hq. destruct (quiet_working i F Gm V x Hq Hi) as (u & Eu & Hn & Hw). unfold cpu_functional. rewrite Eu. cbn [mbind outcome_bind].
  destruct (functional_working lo hi k s mm n mp routes Hlo Hhi Hk Hmp Hroutes e He i F Gm V u.1 x pkt d Hw (nd_idle _ _ _ _ _ _ _ _ Hn) Ha)
    as (pkt' & c' & x' & Gm' & -> & Hw' & Hr & Hd).
  cbn [mbind outcome_bind]. eexists _, _, Gm'. split; [reflexivity|]. split; [|done]. by apply (working_quiet i F _ Gm' V (V i) c' u).
Qed.

Lemma writeback_ok e i F Gm V (x : X) :
  (i < n)%nat -> bypassCaches e = false -> quiet F Gm V x ->
  exists x' Gm' V', writeback e i x = Ok x' /\ quiet F Gm' V' x' /\ (forall L, dirty (V' i L) = false) /\
    (forall j L, dirty (V' j L) = true -> dirty (V j L) = true).
Proof.
  intros Hi He Hq. destruct (quiet_working i F Gm V x Hq Hi) as (u & Eu & Hn & Hw). unfold writeback. rewrite Eu. cbn [mbind outcome_bind].
  destruct (memWriteback_ok lo hi k s mm n mp routes Hlo Hhi Hk Hmp Hroutes e He i (curTick e) F Gm V _ x Hw)
    as (c' & x' & Gm' & V' & -> & Hw' & Hcl & HV).
  cbn [mbind outcome_bind]. eexists _, Gm', V'. split; [reflexivity|]. split; [by apply (working_quiet i F _ _ _ (V i))|].
  split; [|apply HV]. apply (proj1 (clean_lines lo hi k s mm i F (V' i) c' (wk_tracks _ _ _ _ _ _ _ _ _ _ _ _ _ _ Hw'))). done.
Qed.

Lemma cache_invalidate_ok e i F Gm V (x : X) :
  (i < n)%nat -> (forall j L, dirty (V j L) = false) -> quiet F Gm V x ->
  exists x' V', invalidate e i x = Ok x' /\ quiet F Gm V' x' /\ (forall L, V' i L = None) /\
    (forall j L, V' j L = V j L \/ V' j L = None).
Proof.
  intros Hi Hd Hq. destruct (quiet_working i F Gm V x Hq Hi) as (u & Eu & Hn & Hw). unfold invalidate. rewrite Eu. cbn [mbind outcome_bind].
  destruct (memInvalidate_ok lo hi k s mm n mp routes Hk i (curTick e) F Gm V _ x Hw) as (c' & V' & -> & Hw' & _ & HN & HV).
  { apply (proj2 (clean_lines lo hi k s mm i F (V i) _ (wk_tracks _ _ _ _ _ _ _ _ _ _ _ _ _ _ Hw))). apply Hd. }
  cbn [mbind outcome_bind]. eexists _, V'. split; [reflexivity|]. split; [by apply (working_quiet i F _ _ _ (V i))|done].
Qed.

(** A step of each cache in turn. *)
Lemma writebacks e l F : bypassCaches e = false -> Forall (fun i => (i < n)%nat) l -> forall Gm V (x : X),
  quiet F Gm V x ->
  exists x' Gm' V', each (writeback e) l x = Ok x' /\ quiet F Gm' V' x' /\
    forall j L, dirty (V' j L) = true -> (j ∉ l) /\ dirty (V j L) = true.
Proof.
  intros He. induction 1 as [|i l Hi _ IH]; intros Gm V x Hq.
  { exists x, Gm, V. split_and!; try done. intros j L Hd. split; [apply not_elem_of_nil|done]. }
  destruct (writeback_ok e i F Gm V x Hi He Hq) as (x1 & G1 & V1 & E1 & Hq1 & Hi1 & HV1).
  destruct (IH G1 V1 x1 Hq1) as (x2 & G2 & V2 & E2 & Hq2 & HV2).
  cbn [each]. rewrite E1. cbn [mbind outcome_bind]. exists x2, G2, V2. split_and!; try done. intros j L Hd.
  destruct (HV2 j L Hd) as [Hn Hd1]. split; [|by apply HV1]. rewrite not_elem_of_cons. split; [|done]. intros ->. by rewrite Hi1 in Hd1.
Qed.

Lemma invalidates e l F Gm : Forall (fun i => (i < n)%nat) l -> forall V (x : X),
  (forall j L, dirty (V j L) = false) -> quiet F Gm V x ->
  exists x' V', each (invalidate e) l x = Ok x' /\ quiet F Gm V' x' /\
    forall j L, V' j L = None \/ (j ∉ l) /\ V' j L = V j L.
Proof.
  induction 1 as [|i l Hi _ IH]; intros V x Hd Hq.
  { exists x, V. split_and!; try done. intros j L. right. split; [apply not_elem_of_nil|done]. }
  destruct (cache_invalidate_ok e i F Gm V x Hi Hd Hq) as (x1 & V1 & E1 & Hq1 & Hi1 & HV1).
  destruct (IH V1 x1) as (x2 & V2 & E2 & Hq2 & HV2); [|done|].
  { intros j L. by destruct (HV1 j L) as [-> | ->]. }
  cbn [each]. rewrite E1. cbn [mbind outcome_bind]. exists x2, V2. split_and!; try done. intros j L.
  destruct (HV2 j L) as [|[Hn E]]; [by left|]. destruct (HV1 j L) as [E'|E']; [|left; congruence].
  destruct (decide (j = i)) as [->|]; [left; by rewrite E, Hi1|]. right. rewrite not_elem_of_cons. split; [done|congruence].
Qed.

Lemma flush_ok e F Gm V (x : X) : bypassCaches e = false -> quiet F Gm V x ->
  exists x' Gm', flush e x = Ok x' /\ quiet F Gm' (fun _ _ => None) x'.
Proof.
  intros He Hq. pose proof (qu_len _ _ _ _ _ _ _ _ _ _ _ _ Hq) as Hl. unfold flush. rewrite Hl.
  assert (Forall (fun i => (i < n)%nat) (seq 0 n)) as Hs by (apply Forall_forall; intros i Hi%elem_of_seq; lia).
  destruct (writebacks e (seq 0 n) F He Hs Gm V x Hq) as (x1 & G1 & V1 & -> & Hq1 & HV1). cbn [mbind outcome_bind].
  assert (forall j L, (n <= j)%nat -> V1 j L = None) as Hab by apply (qu_coherence _ _ _ _ _ _ _ _ _ _ _ _ Hq1).
  assert (forall j L, dirty (V1 j L) = false) as Hd.
  { intros j L. destruct (dirty (V1 j L)) eqn:E; [|done]. destruct (HV1 j L E) as [Hn _]. destruct (decide (j < n)%nat) as [Hj|].
    - exfalso. apply Hn, elem_of_seq. lia.
    - by rewrite Hab in E by lia. }
  destruct (invalidates e (seq 0 n) F G1 Hs V1 x1 Hd Hq1) as (x2 & V2 & -> & Hq2 & HV2). exists x2, G1. split; [done|].
  apply (quiet_ext F G1 V2); [done|]. intros j L. symmetry. destruct (HV2 j L) as [|[Hn E]]; [done|]. rewrite E. apply Hab.
  destruct (decide (j < n)%nat) as [Hj|]; [|lia]. exfalso. apply Hn, elem_of_seq. lia.
Qed.

(** The environment of a step: the caches are not bypassed. *)
Definition op_ok (o : op) : Prop :=
  match o with
  | Access i q => (i < n)%nat /\ cpu_access lo hi k mm q
  | Func i (e, pkt, d) => (i < n)%nat /\ bypassCaches e = false /\ func_access lo hi k pkt d
  | Writeback i e => (i < n)%nat /\ bypassCaches e = false
  | Flush e => bypassCaches e = false
  end.

Lemma run_ops_ok ops : Forall op_ok ops -> forall F Gm V (x : X), quiet F Gm V x ->
  exists rs x' Gm' V', run_ops ops x = Ok (rs, x') /\ Forall2 agrees rs (flat_run (requests ops) F).1 /\
    quiet (flat_run (requests ops) F).2 Gm' V' x'.
Proof.
  induction 1 as [|o ops Ho _ IH]; intros F Gm V x Hq; [by exists [], x, Gm, V|].
  assert (exists r x1 F1 G1 V1, run_op o x = Ok (r, x1) /\ quiet F1 G1 V1 x1 /\
    (flat_run (requests (o :: ops)) F).2 = (flat_run (requests ops) F1).2 /\
    forall rs, Forall2 agrees rs (flat_run (requests ops) F1).1 -> Forall2 agrees (r ++ rs) (flat_run (requests (o :: ops)) F).1)
    as (r & x1 & F1 & G1 & V1 & E1 & Hq1 & E2 & Hrs1).
  { destruct o as [i [[e pkt] d]|i [[e pkt] d]|i e|e]; simpl run_op.
    - destruct Ho as [Hi Ha]. destruct (cpu_request_ok e i F Gm V x pkt d Hi Ha Hq) as (p & x1 & G1 & V1 & E & Hq1 & Hr & Hd).
      rewrite E. cbn [mbind outcome_bind]. exists [p], x1, (after F pkt d), G1, V1. split; [done|]. split; [done|]. by apply flat_step.
    - destruct Ho as (Hi & He & Ha). destruct (cpu_functional_ok e i F Gm V x pkt d Hi He Ha Hq) as (p & x1 & G1 & E & Hq1 & Hr & Hd).
      rewrite E. cbn [mbind outcome_bind]. exists [p], x1, (after F pkt d), G1, V. split; [done|]. split; [done|]. by apply flat_step.
    - destruct Ho as [Hi He]. destruct (writeback_ok e i F Gm V x Hi He Hq) as (x1 & G1 & V1 & E & Hq1 & _).
      rewrite E. cbn [mbind outcome_bind]. by exists [], x1, F, G1, V1.
    - destruct (flush_ok e F Gm V x Ho Hq) as (x1 & G1 & E & Hq1). rewrite E. cbn [mbind outcome_bind].
      by exists [], x1, F, G1, (fun _ _ => None). }
  destruct (IH F1 G1 V1 x1 Hq1) as (rs & x2 & G2 & V2 & E3 & Ha & Hq2). cbn [run_ops]. rewrite E1. cbn [mbind outcome_bind].
  rewrite E3. cbn [mbind outcome_bind]. exists (r ++ rs), x2, G2, V2. split; [done|]. split; [by apply Hrs1|]. by rewrite E2.
Qed.

End steps.

(** ** From empty caches *)

Section start.
Context {G : Type} {GG : Generator G} {M : Type} {AP : AtomicPort M} (lo hi : Z) {PO : AtomicPortOk M lo hi}
  {SP : SnoopedPortOk M lo hi} (k mm : Z).
Local Abbreviation Issue := (CacheIssue.Issue (G := G)).
Local Abbreviation X := (CoherentXBar.CoherentXBar (U := Issue * ()) (M := M)).

(** A cache just constructed for this memory. *)
Definition fresh_cache (u : Issue * ()) : Prop :=
  (exists fr p, BaseSetAssoc.valid_params p = true /\ new_cache fr mm p (CacheIssue.cache u.1) /\ BaseSetAssoc.p_block_size p = 2 ^ k) /\
  (forall a, lo <= a <= hi -> CacheSnoop.inRange a u.1 = true) /\ idle u.1.

Definition set_bits (c : Cache) : Z := Z.log2 (BaseSetAssoc.numSets (tags c)).

Lemma new_tracks fr p c F :
  0 <= mm -> 0 <= k -> BaseSetAssoc.valid_params p = true -> new_cache fr mm p c -> BaseSetAssoc.p_block_size p = 2 ^ k ->
  tracks lo hi k (set_bits c) mm F (fun _ => None) c.
Proof.
  intros Hm Hk Hp [N1 N2 N3 N4 N5 N6] Ek. destruct (LRU.new_refines fr mm p Hp Hm) as (t & k' & s & E & Ek' & _ & _ & Hrf).
  rewrite N1 in E. injection E as <-. pose proof (LRU.rf_geo _ _ _ _ _ Hrf) as [].
  assert (k' = k) as -> by (apply (Z.pow_inj_r 2); lia).
  assert (set_bits c = s) as -> by (unfold set_bits; rewrite geo_numSets; apply Z.log2_pow2; lia).
  split; try done.
  - eexists. split; [rewrite N4; exact Hrf|congruence|]. intros q b Hb.
    destruct (tags_new_data _ _ _ _ _ _ N1 Hb) as [-> _]. congruence.
  - intros q b Hb Hv. destruct (tags_new_data _ _ _ _ _ _ N1 Hb) as (_ & ? & _). congruence.
  - intros q b Hb _. apply (tags_new_data _ _ _ _ _ _ N1 Hb).
Qed.

(** The snoop filter, if there is one, can tell the ports and the lines apart. *)
Definition filter_fits (n : nat) (flt : option SnoopFilter.SnoopFilter) : Prop :=
  match flt with
  | None => True
  | Some f => (exists lat, f = SnoopFilter.SnoopFilter_new (2 ^ k) lat) /\ Z.of_nat n <= 64 /\ hi < 2 ^ 32
  end.

(** Two caches with the same line: neither may write it, at most one owns it, and
    their bytes are the same. *)
Definition single_writer (x : X) : Prop :=
  forall i j u v p q b b', i <> j -> CoherentXBar.above x !! i = Some u -> CoherentXBar.above x !! j = Some v ->
  let c := CacheIssue.cache u.1 in let c' := CacheIssue.cache v.1 in
  BaseSetAssoc.blks (tags c) !! p = Some b -> BaseSetAssoc.blks (tags c') !! q = Some b' ->
  Blk.isValid b = true -> Blk.isValid b' = true ->
  BaseSetAssoc.regenerateBlkAddr (tags c) (Blk.tag b) (Blk.set b) = BaseSetAssoc.regenerateBlkAddr (tags c') (Blk.tag b') (Blk.set b') ->
  Blk.isWritable b = false /\ Blk.isWritable b' = false /\ Blk.isDirty b && Blk.isDirty b' = false /\ Blk.data b = Blk.data b'.

Context (mp : Z) (routes : XBar.BaseXBar -> Prop).
Context (Hlo : 0 <= lo) (Hhi : hi < 2 ^ 64) (Hk : 2 <= k < 32) (Hmp : 0 <= mp).
Local Abbreviation quiet := (quiet lo hi k).

Lemma quiet_single_writer s n F Gm V (x : X) : quiet s mm n mp routes F Gm V x -> single_writer x.
Proof.
  intros [Q1 Q2 Q3 [C1 C2 C3 C4] Q5] i j u v p q b b' Hne Hu Hv c c' Hb Hb' Hvb Hvb' Ea. pose proof (pow2_pos k ltac:(lia)) as Hk0.
  pose proof (nd_tracks _ _ _ _ _ _ _ _ (Q2 i u Hu)) as Ht. pose proof (nd_tracks _ _ _ _ _ _ _ _ (Q2 j v Hv)) as Ht'.
  destruct (tr_blk _ _ _ _ _ _ _ _ Ht p b Hb Hvb) as [Hg EV]. destruct (tr_blk _ _ _ _ _ _ _ _ Ht' q b' Hb' Hvb') as [Hg' EV'].
  destruct (tr_ok _ _ _ _ _ _ _ _ Ht) as [A Hok]. destruct (tr_ok _ _ _ _ _ _ _ _ Ht') as [A' Hok'].
  pose proof Hg as [G1 G2 G3 G4 G5 G6]. pose proof Hg' as [G1' G2' G3' G4' G5' G6'].
  rewrite (regenerate_line k (s i) A c Hok), (regenerate_line k (s j) A' c' Hok') in Ea
    by (done || lia || by (eapply set_range; done)).
  assert (line (s j) b' = line (s i) b) as El by nia. rewrite El in EV', G6'. set (L := line (s i) b) in *.
  split_and!; [| | |congruence].
  - destruct (Blk.isWritable b) eqn:E; [|done]. rewrite (C1 i j L Hne) in EV'; [done|]. by rewrite EV.
  - destruct (Blk.isWritable b') eqn:E; [|done]. rewrite (C1 j i L (not_eq_sym Hne)) in EV; [done|]. by rewrite EV'.
  - destruct (Blk.isDirty b) eqn:E, (Blk.isDirty b') eqn:E'; try done. exfalso. apply Hne, (C2 i j L); [by rewrite EV|by rewrite EV'].
Qed.

Lemma start_quiet fe fo re w sr masters hd ud flt up down xb F m :
  0 <= mm -> Forall fresh_cache up -> down !! Z.to_nat mp = Some m -> port_rep F m -> routes xb -> filter_fits (length up) flt ->
  forall (e : Env), let x := (CoherentXBar.CoherentXBar_new (H := CacheSnoop.cache_above e) fe fo re w sr masters hd ud flt up down)
    <| CoherentXBar.xbar := xb |> in
  exists s, quiet s mm (length up) mp routes F F (fun _ _ => None) x.
Proof.
  intros Hm Hup Hd Hrep Hxb Hfit e x. rewrite Forall_lookup in Hup.
  exists (fun j => match up !! j with Some u => set_bits (CacheIssue.cache u.1) | None => 0 end).
  assert (forall j u, CoherentXBar.above x !! j = Some u ->
    node lo hi k (match up !! j with Some u => set_bits (CacheIssue.cache u.1) | None => 0 end) mm F (fun _ => None) u) as Hnode.
  { intros j u Hu. simpl in Hu. rewrite Hu. destruct (Hup j u Hu) as [(fr & p & Hp & Hnew & Ek) [Hrg Hid]]. split; [|done..].
    apply (new_tracks fr p); done || lia. }
  split; try done.
  - intros i Hi. split; try done.
    + intros j u _. apply Hnode.
    + intros u Hu. apply (nd_range _ _ _ _ _ _ _ _ (Hnode i u Hu)).
    + simpl. set (f := fun i : Z => _).
      assert (forall l : list Z, Forall (fun p => 0 <= p < Z.of_nat (length up)) l -> omap f l = l) as Hl.
      { induction 1 as [|p l Hp _ IH]; [done|].
        change (omap f (p :: l)) with (match f p with Some y => y :: omap f l | None => omap f l end).
        unfold f at 1. destruct (lookup_lt_is_Some_2 up (Z.to_nat p) ltac:(lia)) as [u ->]. simpl. by rewrite IH. }
      apply Hl, Forall_forall. intros p Hp%elem_of_seqZ. lia.
    + by exists m.
  - intros f L Hf. simpl in Hf. destruct flt as [f0|]; [|done]. destruct Hfit as ((lat & ->) & Hn & Hh). injection Hf as <-. split; try done.
    intros L' _ _. exists 0. done.
Qed.

End start.


(** ** The system is one memory *)

Section whole.
Context {G : Type} {GG : Generator G} {M : Type} {AP : AtomicPort M} {FP : FunctionalPort M} (lo hi : Z)
  {PO : AtomicPortOk M lo hi} {SP : SnoopedPortOk M lo hi} {FO : FunctionalPortOk M lo hi} (k mm : Z).
Local Abbreviation Issue := (CacheIssue.Issue (G := G)).
Local Abbreviation X := (CoherentXBar.CoherentXBar (U := Issue * ()) (M := M)).
Context (e0 : Env) (fe fo re w sr masters : Z) (hd ud : bool) (flt : option SnoopFilter.SnoopFilter).
Context (up : list (Issue * ())) (down : list M) (table : list (AddrRange.AddrRange * Z)) (dr : AddrRange.AddrRange).
Context (reported : list Z) (xb : XBar.BaseXBar) (mp : Z) (m : M) (F : Z -> Z).
Context (Hlo : 0 <= lo) (Hhi : hi < 2 ^ 64) (Hk : 2 <= k < 31) (Hmm : 0 <= mm).
Context (Hup : Forall (fresh_cache lo hi k mm) up) (Hflt : filter_fits hi k (length up) flt).
Context (Hreach : XBar.reach fe fo re w masters hd ud table dr reported xb).
Context (Hall : XBar.all_reported masters hd reported) (Hne : reported <> []).
Context (Hroute : forall a, lo <= a <= hi -> XBar.route masters hd ud table dr a = Ok mp) (Hmp : 0 <= mp).
Context (Hm : down !! Z.to_nat mp = Some m) (Hrep : port_rep F m).
Local Abbreviation start := ((CoherentXBar.CoherentXBar_new (H := CacheSnoop.cache_above e0) fe fo re w sr masters hd ud flt up down)
  <| CoherentXBar.xbar := xb |>).
Local Abbreviation routes := (XBar.inv masters hd ud table dr reported).

Lemma routes_ok y a : routes y -> lo <= a <= hi -> exists y', XBar.findPort a y = Ok (mp, y') /\ routes y'.
Proof.
  intros Hy Ha. assert (XBar.gotAllAddrRanges y = true) as Hg by by apply (XBar.iv_all _ _ _ _ _ _ _ (XBar.iv_core _ _ _ _ _ _ _ Hy)).
  pose proof (XBar.findPort_ok masters hd ud table dr (XBar.reach_config _ _ _ _ _ _ _ _ _ _ _ Hreach) reported y a Hy Hall Hg ltac:(lia)) as H. by rewrite Hroute in H.
Qed.

Lemma system_ok ops : Forall (op_ok lo hi k mm (length up)) ops ->
  exists s rs x' Gm V, run_ops ops start = Ok (rs, x') /\ Forall2 agrees rs (flat_run (requests ops) F).1 /\
    quiet lo hi k s mm (length up) mp routes (flat_run (requests ops) F).2 Gm V x'.
Proof.
  intros Hops. assert (routes xb) as Hxb by by eapply XBar.xbar_reach_inv.
  destruct (start_quiet lo hi k mm mp routes ltac:(lia) fe fo re w sr masters hd ud flt up down xb F m Hmm Hup Hm Hrep Hxb Hflt e0) as (s & Hq).
  exists s. by apply (run_ops_ok lo hi k s mm (length up) mp routes Hlo Hhi Hk Hmp routes_ok ops Hops F F _ _ Hq).
Qed.

(** C1: coherent caches above a crossbar above a memory are that memory: from empty
    caches of any geometry with one line size, with or without a snoop filter,
    every interleaving of reads and writes of the CPUs in atomic mode, of functional
    reads and writes, of write-backs of a cache and of flushes of all caches is
    done without a failed assertion or panic, each read returns the bytes that a
    flat memory returns after the same writes, and at the end two caches with the
    same line have the same bytes, neither may write it and at most one owns it.
    What is assumed: without a filter the number of caches is arbitrary, with a
    filter there are at most 64 of them and the addresses are below 4 GiB
    ([filter_fits]; the filter asserts the first and confuses lines beyond the
    second). The crossbar is in any state that reports of address ranges and
    lookups can bring it to in which all ports have reported, with plain, pairwise
    disjoint ranges that the run does not change, and all of the memory is behind
    one port. Accesses are to cacheable, non-secure memory, each within one
    line ([op_ok]), and caches are not bypassed. *)
Theorem coherent_caches_are_memory ops : Forall (op_ok lo hi k mm (length up)) ops ->
  exists rs x', run_ops ops start = Ok (rs, x') /\ Forall2 agrees rs (flat_run (requests ops) F).1 /\ single_writer x'.
Proof.
  intros Hops. destruct (system_ok ops Hops) as (s & rs & x' & Gm & V & E & Ha & Hq).
  exists rs, x'. split; [exact E|]. split; [exact Ha|]. by apply (quiet_single_writer lo hi k mm mp routes ltac:(lia) ltac:(lia) s _ _ _ _ _ Hq).
Qed.

(** C3: after any such sequence a flush (the write-back of all caches and then
    their invalidation, with which the simulator prepares a checkpoint or a change
    of the memory mode) leaves no cache with a valid block, and the memory below the
    crossbar has every byte of the flat memory: no write is lost. The assumptions
    are those of the system above: with a snoop filter at most 64 caches and
    addresses below 4 GiB (beyond, a holder of a line can be forgotten, and with it
    what it has written), plain and disjoint address ranges, one port to the memory,
    accesses within one line to cacheable, non-secure memory; and there is at least
    one cache. *)
Theorem flushed_memory_is_current ops e : (0 < length up)%nat -> Forall (op_ok lo hi k mm (length up)) ops -> bypassCaches e = false ->
  exists rs x' m' Gm, run_ops (ops ++ [Flush e]) start = Ok (rs, x') /\
    CoherentXBar.below x' !! Z.to_nat mp = Some m' /\ port_rep Gm m' /\
    (forall a, lo <= a <= hi -> Gm a = (flat_run (requests ops) F).2 a) /\
    forall i u p b, CoherentXBar.above x' !! i = Some u -> BaseSetAssoc.blks (tags (CacheIssue.cache u.1)) !! p = Some b ->
      Blk.isValid b = false.
Proof.
  intros Hn Hops He. destruct (system_ok ops Hops) as (s & rs & x1 & G1 & V1 & E & _ & Hq).
  destruct (flush_ok lo hi k s mm (length up) mp routes Hlo Hhi Hk Hmp routes_ok e _ G1 V1 x1 He Hq) as (x2 & G2 & E2 & Hq2).
  destruct (bs_mem _ _ _ _ _ _ _ _ _ _ _ _ _ (qu_bus _ _ _ _ _ _ _ _ _ _ _ _ Hq2 0%nat Hn)) as (m' & Hm' & Hrep').
  exists rs, x2, m', G2. split_and!; try done.
  - rewrite run_ops_app, E. cbn [mbind outcome_bind run_ops run_op]. rewrite E2. cbn [mbind outcome_bind]. by rewrite !app_nil_r.
  - intros a Ha. by apply (ch_clean _ _ _ _ _ _ _ (qu_coherence _ _ _ _ _ _ _ _ _ _ _ _ Hq2)).
  - intros i u p b Hu Hb. destruct (Blk.isValid b) eqn:Hv; [|done].
    destruct (tr_blk _ _ _ _ _ _ _ _ (nd_tracks _ _ _ _ _ _ _ _ (qu_node _ _ _ _ _ _ _ _ _ _ _ _ Hq2 i u Hu)) p b Hb Hv) as [_ ?]. done.
Qed.
End whole.

(** Two caches of two lines each above a memory of 64 bytes, with a snoop filter:
    both write to the same line, one by a functional access, one cache writes back, and
    all are flushed between two reads. *)
Definition example_node : CacheIssue.Issue (G := TaggedPrefetcher.Tagged) * () :=
  (CacheIssue.example_issue <| CacheIssue.cache := empty_cache |>
     <| CacheIssue.params := CacheIssue.MkParams 1 1 4 true false [AddrRange.AddrRange_plain 0 63] |>, ()).
Definition example_ranges : list (AddrRange.AddrRange * Z) := [(AddrRange.AddrRange_plain 0 63, 0)].
Definition example_xbar : XBar.BaseXBar := XBar.report 0 [AddrRange.AddrRange_plain 0 63] (XBar.BaseXBar_new 1 1 1 16 1 false false).
Definition example_system :=
  (CoherentXBar.CoherentXBar_new (H := CacheSnoop.cache_above example_env) 1 1 1 16 1 1 false false (Some (SnoopFilter.SnoopFilter_new 8 1))
     [example_node; example_node] [SimpleMemory.new_memory 0 63 (seqZ 0 64) 10 0]) <| CoherentXBar.xbar := example_xbar |>.
Definition example_ops : list op :=
  [Access 0 (with_master (example_env, example_request MemCmd.WriteReq 2 2 [7; 8], [7; 8]));
   Access 1 (with_master (example_env, example_request MemCmd.ReadReq 1 4 [0; 0; 0; 0], [0; 0; 0; 0]));
   Access 1 (with_master (example_env, example_request MemCmd.WriteReq 3 1 [9], [9]));
   Func 0 (with_master (example_env, example_request MemCmd.WriteReq 4 1 [5], [5]));
   Writeback 1 example_env;
   Access 0 (with_master (example_env, example_request MemCmd.ReadReq 1 4 [0; 0; 0; 0], [0; 0; 0; 0]));
   Flush example_env;
   Func 1 (with_master (example_env, example_request MemCmd.ReadReq 2 2 [0; 0], [0; 0]))].
Definition example_flat : Z -> Z := fun x => seqZ 0 64 !!! Z.to_nat (x - 0).

Lemma example_ranges_ok : XBar.config_ok 1 false false example_ranges (AddrRange.AddrRange_plain 0 0).
Proof.
  split; try done.
  - repeat constructor; simpl; lia.
  - repeat constructor; simpl; lia.
  - apply NoDup_singleton.
  - intros e e' He He' Hne. unfold example_ranges in He, He'. rewrite list_elem_of_singleton in He, He'. congruence.
Qed.

Lemma example_fresh : fresh_cache 0 63 3 2 example_node.
Proof.
  split; [|split; [intros a Hr; unfold CacheSnoop.inRange; simpl|by split]].
  - exists (seqZ 10 8), (BaseSetAssoc.MkParams 16 8 1 2 false). split; [reflexivity|]. split; [|reflexivity]. split; reflexivity.
  - unfold AddrRange.contains. simpl. rewrite Z.geb_leb, !(proj2 (Z.leb_le _ _)) by lia. reflexivity.
Qed.

Lemma example_reach : XBar.reach 1 1 1 16 1 false false example_ranges (AddrRange.AddrRange_plain 0 0) [0] example_xbar.
Proof.
  apply (XBar.reach_report _ _ _ _ _ _ _ example_ranges (AddrRange.AddrRange_plain 0 0) _ _ [] (XBar.BaseXBar_new 1 1 1 16 1 false false) 0 true);
    [apply XBar.reach_new, example_ranges_ok|vm_compute; split; congruence|apply example_ranges_ok|done|vm_compute; reflexivity].
Qed.

Lemma example_route a : 0 <= a <= 63 -> XBar.route 1 false false example_ranges (AddrRange.AddrRange_plain 0 0) a = Ok 0.
Proof.
  intros Hr. unfold XBar.route, example_ranges. simpl. unfold AddrRange.contains. simpl.
  rewrite decide_True by (rewrite Z.geb_leb, !(proj2 (Z.leb_le _ _)) by lia; reflexivity). reflexivity.
Qed.

Lemma example_steps_ok : Forall (op_ok 0 63 3 2 2) example_ops.
Proof.
  unfold example_ops. repeat apply Forall_cons_2; try apply Forall_nil_2; hnf; split_and?.
  all: lazymatch goal with
  | |- cpu_access _ _ _ _ _ =>
      split; [split; [reflexivity|intros n Hn; simpl; rewrite length_replicate; lia]|split; [split|]]
  | |- func_access _ _ _ _ _ => split; [split|..]
  | _ => idtac
  end.
  all: vm_compute; first [reflexivity|congruence|split; congruence|by auto|lia].
Qed.

Lemma coherent_caches_are_memory_witness :
  exists rs x', run_ops (AP := SimpleMemory.simple_port 0) (FP := SimpleMemory.simple_functional) example_ops example_system = Ok (rs, x') /\
    Forall2 agrees rs [None; Some [1; 7; 8; 4]; None; None; Some [1; 7; 9; 5]; Some [7; 9]] /\ single_writer x'.
Proof.
  destruct (coherent_caches_are_memory (AP := SimpleMemory.simple_port 0) (FP := SimpleMemory.simple_functional) 0 63
    (PO := SimpleMemory.simple_port_ok 0 0 63) (SP := SimpleMemory.simple_snooped_ok 0 0 63) (FO := SimpleMemory.simple_functional_ok 0 0 63)
    3 2 example_env 1 1 1 16 1 1 false false (Some (SnoopFilter.SnoopFilter_new 8 1))
    [example_node; example_node] [SimpleMemory.new_memory 0 63 (seqZ 0 64) 10 0] example_ranges (AddrRange.AddrRange_plain 0 0) [0]
    example_xbar 0 (SimpleMemory.new_memory 0 63 (seqZ 0 64) 10 0) example_flat) with (ops := example_ops)
    as (rs & x' & E & Ha & Hs).
  - lia.
  - lia.
  - lia.
  - lia.
  - by repeat constructor; apply example_fresh.
  - split; [by exists 1|]. simpl. lia.
  - apply example_reach.
  - intros id Hid. change (Z.of_nat (XBar.total 1 false)) with 1 in Hid. assert (id = 0) as -> by lia. left.
  - discriminate.
  - apply example_route.
  - lia.
  - reflexivity.
  - split; [reflexivity|]. exists ∅. by apply new_state.
  - apply example_steps_ok.
  - exists rs, x'. split; [exact E|]. split; [|exact Hs].
    replace [None; Some [1; 7; 8; 4]; None; None; Some [1; 7; 9; 5]; Some [7; 9]] with (flat_run (requests example_ops) example_flat).1
      by (vm_compute; reflexivity). exact Ha.
Defined.

Lemma flushed_memory_is_current_witness :
  exists rs x' m' Gm, run_ops (AP := SimpleMemory.simple_port 0) (FP := SimpleMemory.simple_functional)
      (example_ops ++ [Flush example_env]) example_system = Ok (rs, x') /\
    CoherentXBar.below x' !! 0%nat = Some m' /\ port_rep (AtomicPortOk := SimpleMemory.simple_port_ok 0 0 63) Gm m' /\
    map Gm [1; 2; 3; 4; 5] = [1; 7; 9; 5; 5].
Proof.
  destruct (flushed_memory_is_current (AP := SimpleMemory.simple_port 0) (FP := SimpleMemory.simple_functional) 0 63
    (PO := SimpleMemory.simple_port_ok 0 0 63) (SP := SimpleMemory.simple_snooped_ok 0 0 63) (FO := SimpleMemory.simple_functional_ok 0 0 63)
    3 2 example_env 1 1 1 16 1 1 false false (Some (SnoopFilter.SnoopFilter_new 8 1))
    [example_node; example_node] [SimpleMemory.new_memory 0 63 (seqZ 0 64) 10 0] example_ranges (AddrRange.AddrRange_plain 0 0) [0]
    example_xbar 0 (SimpleMemory.new_memory 0 63 (seqZ 0 64) 10 0) example_flat) with (ops := example_ops) (e := example_env)
    as (rs & x' & m' & Gm & E & Hm & Hr & Hg & _).
  - lia.
  - lia.
  - lia.
  - lia.
  - by repeat constructor; apply example_fresh.
  - split; [by exists 1|]. simpl. lia.
  - apply example_reach.
  - intros id Hid. change (Z.of_nat (XBar.total 1 false)) with 1 in Hid. assert (id = 0) as -> by lia. left.
  - discriminate.
  - apply example_route.
  - lia.
  - reflexivity.
  - split; [reflexivity|]. exists ∅. by apply new_state.
  - simpl. lia.
  - apply example_steps_ok.
  - reflexivity.
  - exists rs, x', m', Gm. split; [exact E|]. split; [exact Hm|]. split; [exact Hr|].
    cbn [map]. rewrite !Hg by lia. vm_compute. reflexivity.
Defined.


End CoherentSystem.
