(* ===== verification/SatCounter.v ===== *)
(** The saturating counter of [cpu/pred/sat_counter.hh]. *)

From S2P Require Import Prelude.
Local Open Scope Z_scope.

Module SatCounter.

(** The [uint8_t] members. *)
Record SatCounter := MkSatCounter {
  initialVal : Z;
  maxVal : Z;
  counter : Z;
}.
#[global] Instance eta_SatCounter : Eta SatCounter := fun c =>
  MkSatCounter (initialVal c) (maxVal c) (counter c).

(** [SatCounter(bits, initial_val)]. *)
Definition SatCounter_init (bits initial_val : Z) : outcome SatCounter :=
  let m := u8 (s32 (Z.shiftl 1 bits) - 1) in
  _ ← ensure FatalError (negb (initial_val >? m));
  Ok (MkSatCounter initial_val m initial_val).

(** The default constructor leaves [maxVal] unset; [garbage] is its value. *)
Definition SatCounter0 (garbage : Z) : SatCounter := MkSatCounter 0 garbage 0.

Definition setBits (bits : Z) (c : SatCounter) : SatCounter :=
  c <| maxVal := u8 (s32 (Z.shiftl 1 bits) - 1) |>.
Definition reset (c : SatCounter) : SatCounter := c <| counter := initialVal c |>.
Definition increment (c : SatCounter) : SatCounter :=
  if counter c <? maxVal c then c <| counter := u8 (counter c + 1) |> else c.
Definition decrement (c : SatCounter) : SatCounter :=
  if counter c >? 0 then c <| counter := u8 (counter c - 1) |> else c.
Definition read (c : SatCounter) : Z := counter c.

(** One training step. *)
Definition train (taken : bool) (c : SatCounter) : SatCounter :=
  if taken then increment c else decrement c.

(** A counter of [bits] bits. *)
Definition ctr_ok (bits : Z) (c : SatCounter) : Prop :=
  1 <= bits <= 8 /\ maxVal c = 2 ^ bits - 1 /\ 0 <= counter c <= maxVal c.

Lemma setBits_max bits : 1 <= bits <= 8 -> u8 (s32 (Z.shiftl 1 bits) - 1) = 2 ^ bits - 1.
Proof.
  intros H. assert (bits ∈ [1; 2; 3; 4; 5; 6; 7; 8]) as Hin.
  { repeat (rewrite elem_of_cons). lia. }
  repeat (apply elem_of_cons in Hin as [->|Hin]; [reflexivity|]). by apply elem_of_nil in Hin.
Qed.

Lemma new_ctr_ok bits g : 1 <= bits <= 8 -> ctr_ok bits (setBits bits (SatCounter0 g)).
Proof.
  intros H. unfold setBits, ctr_ok. simpl. rewrite setBits_max by done.
  pose proof (Z.pow_le_mono_r 2 0 bits). lia.
Qed.

Lemma max_bound bits : 1 <= bits <= 8 -> 2 ^ bits - 1 <= 255.
Proof. intros H. pose proof (Z.pow_le_mono_r 2 bits 8). lia. Qed.

(** Training moves the counter one step and stops at the ends. *)
Lemma train_counter bits taken c :
  ctr_ok bits c ->
  ctr_ok bits (train taken c) /\
  counter (train taken c) =
    if taken then Z.min (2 ^ bits - 1) (counter c + 1) else Z.max 0 (counter c - 1).
Proof.
  intros (Hb & Hm & Hc). pose proof (max_bound bits Hb). unfold ctr_ok, train, increment, decrement.
  destruct taken.
  - destruct (Z.ltb_spec (counter c) (maxVal c)); simpl; [|lia].
    rewrite uwrap_small by (split; simpl; lia). lia.
  - rewrite Z.gtb_ltb. destruct (Z.ltb_spec 0 (counter c)); simpl; [|lia].
    rewrite uwrap_small by (split; simpl; lia). lia.
Qed.

Lemma train_repeat bits taken n c :
  ctr_ok bits c ->
  ctr_ok bits (Nat.iter n (train taken) c) /\
  counter (Nat.iter n (train taken) c) =
    if taken then Z.min (2 ^ bits - 1) (counter c + Z.of_nat n)
    else Z.max 0 (counter c - Z.of_nat n).
Proof.
  intros Hc. induction n as [|n [IH1 IH2]]; simpl Nat.iter.
  - split; [done|]. destruct Hc as (_ & Hm & Hc). destruct taken; lia.
  - destruct (train_counter bits taken _ IH1) as [H1 ->]. split; [done|]. rewrite IH2.
    destruct taken; lia.
Qed.

End SatCounter.
