(* ===== verification/DirPred.v ===== *)
(** The interface between the branch prediction unit and its direction
    predictors: the pure virtual methods of [BPredUnit]
    ([cpu/pred/bpred_unit.hh]), and the laws the unit relies on. Also the
    counter tables the predictors share. *)

From stdpp Require Import relations.
From S2P Require Import Prelude SatCounter.
Import SatCounter.
Local Open Scope Z_scope.

Module DirPred.

(** [P] is the predictor's state and [option H] the [void *bp_history] that
    it attaches to a branch, [None] for [NULL]. *)
Class DirPred (P H : Type) := {
  dp_uncondBranch : Z -> option H -> P -> outcome (option H * P);
  dp_squash : option H -> P -> outcome P;
  dp_lookup : Z -> option H -> P -> outcome (bool * option H * P);
  dp_btbUpdate : Z -> option H -> P -> outcome P;
  dp_update : Z -> bool -> option H -> bool -> P -> outcome P;
  dp_retireSquashed : option H -> P -> outcome P;
}.

(** What the unit relies on: on a well-formed state and a history record the
    predictor made, every method returns and keeps the state well formed. *)
Class DirPredOk (P H : Type) `{!DirPred P H} := {
  dp_wf : P -> Prop;
  dp_hist : option H -> Prop;
  dp_uncond_ok a p : dp_wf p -> exists h p',
    dp_uncondBranch a None p = Ok (h, p') /\ dp_wf p' /\ dp_hist h;
  dp_squash_ok h p : dp_wf p -> dp_hist h -> exists p', dp_squash h p = Ok p' /\ dp_wf p';
  dp_lookup_ok a p : 0 <= a -> dp_wf p -> exists b h p',
    dp_lookup a None p = Ok (b, h, p') /\ dp_wf p' /\ dp_hist h;
  dp_btb_ok a h p : 0 <= a -> dp_wf p -> dp_hist h -> exists p',
    dp_btbUpdate a h p = Ok p' /\ dp_wf p';
  dp_update_ok a t h s p : 0 <= a -> dp_wf p -> dp_hist h -> exists p',
    dp_update a t h s p = Ok p' /\ dp_wf p';
  dp_retire_ok h p : dp_wf p -> dp_hist h -> exists p', dp_retireSquashed h p = Ok p' /\ dp_wf p';
}.

(** The states a predictor goes through between two calls of the unit, and
    those it goes through by speculation alone. *)
Section reach.
Context {P H : Type} `{!DirPred P H, !DirPredOk P H}.

Inductive spec_step (p : P) : P -> Prop :=
  | SpecUncond a h p' : dp_uncondBranch a None p = Ok (h, p') -> spec_step p p'
  | SpecLookup a b h p' : 0 <= a -> dp_lookup a None p = Ok (b, h, p') -> spec_step p p'
  | SpecBtb a h p' : 0 <= a -> dp_hist h -> dp_btbUpdate a h p = Ok p' -> spec_step p p'.

Inductive reach_step (p : P) : P -> Prop :=
  | StepSpec p' : spec_step p p' -> reach_step p p'
  | StepSquash h p' : dp_hist h -> dp_squash h p = Ok p' -> reach_step p p'
  | StepUpdate a t h s p' : 0 <= a -> dp_hist h -> dp_update a t h s p = Ok p' -> reach_step p p'
  | StepRetire h p' : dp_hist h -> dp_retireSquashed h p = Ok p' -> reach_step p p'.

Lemma spec_step_wf p p' : dp_wf p -> spec_step p p' -> dp_wf p'.
Proof.
  intros Hw [a h q E | a b h q Ha E | a h q Ha Hh E].
  - destruct (dp_uncond_ok a p Hw) as (? & ? & E' & ? & _). congruence.
  - destruct (dp_lookup_ok a p Ha Hw) as (? & ? & ? & E' & ? & _). congruence.
  - destruct (dp_btb_ok a h p Ha Hw Hh) as (? & E' & ?). congruence.
Qed.

Lemma reach_step_wf p p' : dp_wf p -> reach_step p p' -> dp_wf p'.
Proof.
  intros Hw [q Hq | h q Hh E | a t h s q Ha Hh E | h q Hh E].
  - by eapply spec_step_wf.
  - destruct (dp_squash_ok h p Hw Hh) as (? & E' & ?). congruence.
  - destruct (dp_update_ok a t h s p Ha Hw Hh) as (? & E' & ?). congruence.
  - destruct (dp_retire_ok h p Hw Hh) as (? & E' & ?). congruence.
Qed.

Lemma reach_wf p p' : dp_wf p -> rtc reach_step p p' -> dp_wf p'.
Proof. intros Hw Hr. induction Hr; eauto using reach_step_wf. Qed.

Lemma spec_wf p p' : dp_wf p -> rtc spec_step p p' -> dp_wf p'.
Proof. intros Hw Hr. induction Hr; eauto using spec_step_wf. Qed.
End reach.

(** ** Counter tables *)

(** [ctrs[i].increment()] or [ctrs[i].decrement()]. *)
Definition train_at (taken : bool) (v : list SatCounter) (i : Z) : outcome (list SatCounter) :=
  c ← vget v i; vset v i (train taken c).

(** [(ULL(1) << (bits - 1)) - 1], kept in an [unsigned]. *)
Definition threshold (bits : Z) : outcome Z :=
  _ ← ensure Undefined (u32 (bits - 1) <? 64);
  Ok (u32 (u64 (Z.shiftl 1 (u32 (bits - 1))) - 1)).

(** [ctrs[i].read() > threshold]. *)
Definition above (v : list SatCounter) (i thr : Z) : outcome bool :=
  c ← vget v i; Ok (read c >? thr).

(** [taken ? (hist << 1) | 1 : (hist << 1)] at [unsigned]. *)
Definition shift_in (taken : bool) (hist : Z) : Z :=
  if taken then Z.lor (u32 (Z.shiftl hist 1)) 1 else u32 (Z.shiftl hist 1).

(** A table of [2^k] counters of [bits] bits. *)
Definition table_ok (bits k : Z) (v : list SatCounter) : Prop :=
  0 <= k < 32 /\ Z.of_nat (length v) = 2 ^ k /\ Forall (ctr_ok bits) v.

Definition new_table (garbage bits n : Z) : list SatCounter :=
  setBits bits <$> replicate (Z.to_nat n) (SatCounter0 garbage).

Lemma new_table_ok g bits k : 1 <= bits <= 8 -> 0 <= k < 32 -> table_ok bits k (new_table g bits (2 ^ k)).
Proof.
  intros Hb Hk. unfold new_table. pose proof (pow2_pos k ltac:(lia)). split_and!; try lia.
  - rewrite length_fmap, length_replicate. lia.
  - rewrite Forall_fmap. apply Forall_replicate. by apply new_ctr_ok.
Qed.

Lemma train_at_ok bits k t v i :
  table_ok bits k v -> 0 <= i < 2 ^ k -> exists v', train_at t v i = Ok v' /\ table_ok bits k v'.
Proof.
  intros (Hk & Hl & Hf) Hi. unfold train_at. destruct (vget_lt v i) as [c E]; [lia|].
  rewrite E. cbn [mbind outcome_bind]. rewrite vset_lt by lia. eexists. split; [done|].
  split_and!; [lia|lia|by rewrite length_insert|]. apply Forall_insert; [done|].
  apply vget_ok in E as [_ E]. apply train_counter. by eapply Forall_lookup_1.
Qed.

Lemma above_ok bits k v i thr :
  table_ok bits k v -> 0 <= i < 2 ^ k -> exists b, above v i thr = Ok b.
Proof.
  intros (Hk & Hl & _) Hi. unfold above. destruct (vget_lt v i) as [c ->]; [lia|]. by eexists.
Qed.

Lemma masked_index x k : 0 <= k < 32 -> 0 <= u32 (Z.land x (2 ^ k - 1)) < 2 ^ k.
Proof.
  intros Hk. rewrite land_mask by lia. pose proof (pow2_pos k ltac:(lia)).
  pose proof (Z.mod_pos_bound x (2 ^ k) ltac:(lia)).
  pose proof (Z.pow_lt_mono_r 2 k 32 ltac:(lia) ltac:(lia) ltac:(lia)).
  rewrite uwrap_small by (split; lia). lia.
Qed.

Lemma land_mask_range x k : 0 <= k -> 0 <= Z.land x (2 ^ k - 1) < 2 ^ k.
Proof. intros Hk. rewrite land_mask by lia. apply Z.mod_pos_bound, pow2_pos. lia. Qed.

(** Clearing the last outcome keeps a history register in range. *)
Lemma land_sub_range x y k : 0 <= k -> 0 <= x < 2 ^ k -> 0 <= Z.land x y < 2 ^ k.
Proof.
  intros Hk Hx. replace (Z.land x y) with (Z.land (Z.land x y) (2 ^ k - 1)).
  - by apply land_mask_range.
  - rewrite <- Z.land_assoc, (Z.land_comm y), Z.land_assoc, land_mask by lia.
    by rewrite Z.mod_small by lia.
Qed.

Lemma lor_even z : 0 <= z -> Z.lor (2 * z) 1 = 2 * z + 1.
Proof. intros H. by destruct z. Qed.

(** A masked history register is its last outcomes as a binary number. *)
Lemma shift_in_mod b x k :
  0 <= k <= 32 -> Z.land (shift_in b x) (2 ^ k - 1) = (2 * x + Z.b2z b) mod 2 ^ k.
Proof.
  intros Hk. pose proof (pow2_pos k ltac:(lia)).
  assert (shift_in b x = (2 * x + Z.b2z b) mod 2 ^ 32) as ->.
  { unfold shift_in, uwrap. rewrite Z.shiftl_mul_pow2, Z.mul_comm by lia. change (2 ^ 1) with 2.
    change (2 ^ 32) with (2 * 2 ^ 31). rewrite (Z.mul_mod_distr_l x (2 ^ 31) 2) by lia.
    pose proof (Z.div_mod x (2 ^ 31)) as E. pose proof (Z.mod_pos_bound x (2 ^ 31)).
    destruct b; simpl Z.b2z.
    - replace (Z.lor (2 * (x mod 2 ^ 31)) 1) with (2 * (x mod 2 ^ 31) + 1) 
        by (symmetry; apply lor_even; lia).
      apply Z.mod_unique with (x / 2 ^ 31); lia.
    - apply Z.mod_unique with (x / 2 ^ 31); lia. }
  rewrite land_mask by lia. replace (2 ^ 32) with (2 ^ k * 2 ^ (32 - k)) by (rewrite <- Z.pow_add_r by lia; f_equal; lia).
  rewrite Z.rem_mul_r by (pose proof (pow2_pos (32 - k)); lia).
  rewrite (Z.mul_comm (2 ^ k) (_ mod _)), Z.mod_add by lia. by rewrite Z.mod_mod by lia.
Qed.

(** Masking a history register before a shift changes nothing below the mask. *)
Lemma shift_in_masked b x k :
  0 <= k <= 32 ->
  Z.land (shift_in b (Z.land x (2 ^ k - 1))) (2 ^ k - 1) = Z.land (shift_in b x) (2 ^ k - 1).
Proof.
  intros Hk. rewrite !shift_in_mod, land_mask by lia. pose proof (pow2_pos k ltac:(lia)).
  rewrite <- Z.add_mod_idemp_l, Z.mul_mod_idemp_r, Z.add_mod_idemp_l by lia. done.
Qed.

Lemma threshold_ok bits : 1 <= bits <= 8 -> threshold bits = Ok (2 ^ (bits - 1) - 1).
Proof.
  intros H. assert (bits ∈ [1; 2; 3; 4; 5; 6; 7; 8]) as Hin.
  { repeat (rewrite elem_of_cons). lia. }
  repeat (apply elem_of_cons in Hin as [->|Hin]; [reflexivity|]). by apply elem_of_nil in Hin.
Qed.

Lemma pow2_u32 k : 0 <= k < 32 -> 0 < 2 ^ k < 2 ^ 32.
Proof.
  intros Hk. pose proof (pow2_pos k ltac:(lia)).
  pose proof (Z.pow_lt_mono_r 2 k 32 ltac:(lia) ltac:(lia) ltac:(lia)). lia.
Qed.

End DirPred.
