(* ===== verification/LocalBP.v ===== *)
(** The local (2-bit) branch predictor of [cpu/pred/2bit_local.cc]. *)

From S2P Require Import Prelude IntMath SatCounter DirPred.
Import SatCounter DirPred.
Local Open Scope Z_scope.

Module LocalBP.

Record LocalBP := MkLocalBP {
  localPredictorSize : Z;
  localPredictorSets : Z;
  localCtrBits : Z;
  indexMask : Z;
  instShiftAmt : Z;
  localCtrs : list SatCounter;
}.
#[global] Instance eta_LocalBP : Eta LocalBP := fun p =>
  MkLocalBP (localPredictorSize p) (localPredictorSets p) (localCtrBits p) (indexMask p)
    (instShiftAmt p) (localCtrs p).

Definition LocalBP_new (garbage size bits shift : Z) : outcome LocalBP :=
  _ ← ensure FatalError (IntMath.isPowerOf2 32 size);
  _ ← ensure Undefined (negb (bits =? 0));
  let sets := size / bits in
  _ ← ensure FatalError (IntMath.isPowerOf2 32 sets);
  Ok (MkLocalBP size sets bits (u32 (sets - 1)) shift
        (replicate (Z.to_nat sets) (setBits bits (SatCounter0 garbage)))).

Definition reset_all (p : LocalBP) : LocalBP := p <| localCtrs ::= fmap reset |>.

Definition getLocalIndex (p : LocalBP) (branch_addr : Z) : outcome Z :=
  x ← shr64 branch_addr (instShiftAmt p); Ok (u32 (Z.land x (indexMask p))).

(** The shifted count as a [bool]. *)
Definition getPrediction (p : LocalBP) (count : Z) : bool :=
  negb (Z.shiftr count (localCtrBits p - 1) =? 0).

Definition lookup (branch_addr : Z) (p : LocalBP) : outcome bool :=
  i ← getLocalIndex p branch_addr;
  c ← vget (localCtrs p) i;
  Ok (getPrediction p (read c)).

(** [bp_history] is [true] for a pointer that is not null. *)
Definition update (branch_addr : Z) (taken bp_history squashed : bool) (p : LocalBP)
  : outcome LocalBP :=
  _ ← ensure AssertFailed (negb bp_history);
  i ← getLocalIndex p branch_addr;
  c ← vget (localCtrs p) i;
  v ← vset (localCtrs p) i (train taken c);
  Ok (p <| localCtrs := v |>).

Definition uncondBranch (pc : Z) (p : LocalBP) : LocalBP := p.
Definition btbUpdate (branch_addr : Z) (p : LocalBP) : LocalBP := p.
Definition retireSquashed (bp_history : bool) (p : LocalBP) : outcome LocalBP :=
  _ ← ensure AssertFailed (negb bp_history); Ok p.
Definition squash (bp_history : bool) (p : LocalBP) : outcome LocalBP :=
  _ ← ensure AssertFailed (negb bp_history); Ok p.

(** This predictor leaves [bp_history] as it is. *)
#[global] Instance local_dirpred : DirPred LocalBP Empty_set := {
  dp_uncondBranch a h p := Ok (h, uncondBranch a p);
  dp_squash h p := squash (bool_decide (is_Some h)) p;
  dp_lookup a h p := b ← lookup a p; Ok (b, h, p);
  dp_btbUpdate a h p := Ok (btbUpdate a p);
  dp_update a t h s p := update a t (bool_decide (is_Some h)) s p;
  dp_retireSquashed h p := retireSquashed (bool_decide (is_Some h)) p;
}.

(** ** Properties *)

Record wf (p : LocalBP) : Prop := {
  wf_sets : exists k, 0 <= k < 32 /\ localPredictorSets p = 2 ^ k /\ indexMask p = 2 ^ k - 1;
  wf_len : Z.of_nat (length (localCtrs p)) = localPredictorSets p;
  wf_ctrs : Forall (ctr_ok (localCtrBits p)) (localCtrs p);
  wf_shift : 0 <= instShiftAmt p < 64;
}.

Lemma localbp_new_wf g size bits shift :
  1 <= bits <= 8 -> 0 <= shift < 64 -> 0 <= size < 2 ^ 32 ->
  IntMath.isPowerOf2 32 size = true -> IntMath.isPowerOf2 32 (size / bits) = true ->
  exists p, LocalBP_new g size bits shift = Ok p /\ wf p /\ localCtrBits p = bits.
Proof.
  intros Hb Hs Hsz H1 H2. unfold LocalBP_new. rewrite H1. cbn [mbind outcome_bind ensure].
  rewrite (proj2 (Z.eqb_neq bits 0)) by lia. cbn [mbind outcome_bind ensure negb].
  rewrite H2. cbn [mbind outcome_bind ensure].
  assert (0 <= size / bits < 2 ^ 32) as Hq.
  { split; [apply Z.div_pos; lia|]. eapply Z.le_lt_trans; [apply Z.div_le_upper_bound with (q := size)|]; nia. }
  apply (IntMath.isPowerOf2_true 32) in H2 as (k & Hk & Ek); [|lia|done].
  eexists. split; [reflexivity|]. split; [|done]. split; simpl; try done.
  - exists k. split; [lia|]. split; [done|]. rewrite Ek. apply uwrap_small.
    pose proof (pow2_pos k). split; lia.
  - rewrite length_replicate. lia.
  - apply Forall_replicate. by apply new_ctr_ok.
Qed.

(** The index [getLocalIndex] returns for a shift it defines. *)
Definition localIdx (p : LocalBP) (a : Z) : Z :=
  u32 (Z.land (Z.shiftr a (instShiftAmt p)) (indexMask p)).

Lemma getLocalIndex_ok p a : wf p -> getLocalIndex p a = Ok (localIdx p a).
Proof. intros [_ _ _ ?]. unfold getLocalIndex. by rewrite shr64_ok by lia. Qed.

Lemma index_range p a : wf p -> 0 <= a ->
  0 <= localIdx p a < localPredictorSets p.
Proof.
  intros [(k & Hk & Es & Em) _ _ Hsh] Ha. unfold localIdx. rewrite Em, Es.
  rewrite land_mask by lia. pose proof (pow2_pos k ltac:(lia)).
  pose proof (Z.mod_pos_bound (Z.shiftr a (instShiftAmt p)) (2 ^ k) ltac:(lia)).
  pose proof (Z.pow_lt_mono_r 2 k 32 ltac:(lia) ltac:(lia) ltac:(lia)).
  rewrite uwrap_small by (split; lia). lia.
Qed.

Lemma update_ok a taken sq p :
  wf p -> 0 <= a ->
  exists c, vget (localCtrs p) (localIdx p a) = Ok c /\ ctr_ok (localCtrBits p) c /\
    let i := Z.to_nat (localIdx p a) in
    update a taken false sq p = Ok (p <| localCtrs ::= <[i := train taken c]> |>) /\
    wf (p <| localCtrs ::= <[i := train taken c]> |>).
Proof.
  intros Hp Ha. pose proof (index_range p a Hp Ha) as Hi. pose proof Hp as [Hs Hl Hc Hsh].
  destruct (vget_lt (localCtrs p) (localIdx p a)) as [c Ec]; [lia|].
  exists c. split; [done|]. pose proof (proj1 (vget_ok _ _ _) Ec) as [_ El].
  assert (ctr_ok (localCtrBits p) c) as Hok by by eapply Forall_lookup_1.
  split; [done|]. split.
  - unfold update. rewrite getLocalIndex_ok by done. cbn [mbind outcome_bind ensure negb]. rewrite Ec. cbn [mbind outcome_bind].
    by rewrite vset_lt by lia.
  - split; simpl; try done; [by rewrite length_insert|].
    apply Forall_insert; [done|]. by apply train_counter.
Qed.

Lemma lookup_ok a p : wf p -> 0 <= a -> exists b, lookup a p = Ok b.
Proof.
  intros Hp Ha. destruct (update_ok a true false p Hp Ha) as (c & Ec & _).
  unfold lookup. rewrite getLocalIndex_ok by done. cbn [mbind outcome_bind]. rewrite Ec. by eexists.
Qed.

#[global] Program Instance local_dirpred_ok : DirPredOk LocalBP Empty_set := {
  dp_wf := wf;
  dp_hist h := h = None;
}.
Next Obligation. intros a p Hw. do 2 eexists. done. Qed.
Next Obligation. intros h p Hw ->. by eexists. Qed.
Next Obligation.
  intros a p Ha Hw. destruct (lookup_ok a p Hw Ha) as [b E]. do 3 eexists. simpl. by rewrite E.
Qed.
Next Obligation. intros a h p Ha Hw ->. by eexists. Qed.
Next Obligation.
  intros a t h s p Ha Hw ->. destruct (update_ok a t s p Hw Ha) as (c & _ & _ & E & H).
  eexists. split; [exact E|exact H].
Qed.
Next Obligation. intros h p Hw ->. by eexists. Qed.

(** A sequence of resolved branches. *)
Fixpoint run (es : list (Z * bool)) (p : LocalBP) : outcome LocalBP :=
  match es with
  | [] => Ok p
  | (a, taken) :: es => p ← update a taken false false p; run es p
  end.

(** The counter the branch at [a] uses, over a history of branches: only the
    outcomes of branches with the same index count. *)
Fixpoint local_count (bits : Z) (idx : Z -> Z) (a : Z) (es : list (Z * bool)) (n : Z) : Z :=
  match es with
  | [] => n
  | (a', taken) :: es =>
      local_count bits idx a es
        (if idx a' =? idx a
         then if taken then Z.min (2 ^ bits - 1) (n + 1) else Z.max 0 (n - 1) else n)
  end.

(** The counter of a branch. *)
Definition count_of (p : LocalBP) (a : Z) : Z :=
  match vget (localCtrs p) (localIdx p a) with Ok c => counter c | Fail _ => 0 end.

Lemma prediction_msb bits c :
  1 <= bits -> 0 <= c < 2 ^ bits ->
  negb (Z.shiftr c (bits - 1) =? 0) = (2 ^ (bits - 1) <=? c).
Proof.
  intros Hb Hc. rewrite Z.shiftr_div_pow2 by lia. pose proof (pow2_pos (bits - 1) ltac:(lia)).
  destruct (Z.leb_spec (2 ^ (bits - 1)) c).
  - assert (0 < c / 2 ^ (bits - 1)) by (apply Z.div_str_pos; lia).
    by rewrite (proj2 (Z.eqb_neq _ _)) by lia.
  - by rewrite Z.div_small by lia.
Qed.

Lemma run_counts es a p :
  wf p -> 0 <= a -> Forall (fun e => 0 <= e.1) es ->
  exists p', run es p = Ok p' /\ wf p' /\ localCtrBits p' = localCtrBits p /\
    (forall x, localIdx p' x = localIdx p x) /\
    count_of p' a = local_count (localCtrBits p) (localIdx p) a es (count_of p a).
Proof.
  intros Hp Ha Hes. revert p Hp. induction Hes as [|[a' taken] es Ha' Hes IH]; intros p Hp; simpl in *.
  { exists p. done. }
  destruct (update_ok a' taken false p Hp Ha') as (c & Ec & Hc & -> & Hw).
  cbn [mbind outcome_bind]. set (p1 := p <| localCtrs ::= _ |>) in *.
  destruct (IH p1 Hw) as (p' & E & Hw' & Hb & Hi & Hn). exists p'.
  split_and!; try done. rewrite Hn. change (localCtrBits p1) with (localCtrBits p).
  assert (forall n m, n = m -> local_count (localCtrBits p) (localIdx p1) a es n =
    local_count (localCtrBits p) (localIdx p) a es m) as Hcong by (by intros n m ->).
  apply Hcong. clear Hcong. unfold count_of. change (localIdx p1 a) with (localIdx p a).
  pose proof (index_range p a Hp Ha) as Hia. pose proof (index_range p a' Hp Ha') as Hia'.
  pose proof (wf_len p Hp) as Hl. pose proof (proj1 (vget_ok _ _ _) Ec) as [_ El].
  destruct (Z.eqb_spec (localIdx p a') (localIdx p a)) as [Eq|Hne].
  - rewrite <- Eq, Ec. rewrite (proj2 (vget_ok (localCtrs p1) _ (train taken c))).
    + by destruct (train_counter _ taken c Hc) as [_ ->].
    + split; [lia|]. simpl. apply list_lookup_insert_eq. by eapply lookup_lt_Some.
  - destruct (vget_lt (localCtrs p) (localIdx p a)) as [d Ed]; [lia|]. rewrite Ed.
    rewrite (proj2 (vget_ok (localCtrs p1) _ d)); [done|].
    apply vget_ok in Ed as [? Ed]. split; [lia|]. simpl. rewrite list_lookup_insert_ne; [done|lia].
Qed.

Lemma new_fields g size bits shift p :
  LocalBP_new g size bits shift = Ok p ->
  localPredictorSets p = size / bits /\ instShiftAmt p = shift /\
  exists n, localCtrs p = replicate n (setBits bits (SatCounter0 g)).
Proof. unfold LocalBP_new. intros H. inv_ok. simpl. eauto. Qed.

(** From its constructor, on every sequence of resolved branches the local
    predictor never accesses its table out of range, and it then predicts a
    branch taken exactly if the saturating count of the outcomes of the branches
    that share its table entry is in the upper half of its range; two branches
    share an entry exactly if their word addresses agree modulo the number of
    entries. *)
Theorem local_prediction_counts_outcomes g size bits shift es a :
  1 <= bits <= 8 -> 0 <= shift < 64 -> 0 <= size < 2 ^ 32 ->
  IntMath.isPowerOf2 32 size = true -> IntMath.isPowerOf2 32 (size / bits) = true ->
  0 <= a -> Forall (fun e => 0 <= e.1) es ->
  exists p p', LocalBP_new g size bits shift = Ok p /\ run es p = Ok p' /\
    lookup a p' = Ok (2 ^ (bits - 1) <=? local_count bits (localIdx p) a es 0) /\
    forall x, 0 <= x -> getLocalIndex p x = Ok (x / 2 ^ shift mod (size / bits)).
Proof.
  intros Hb Hsh Hs H1 H2 Ha Hes.
  destruct (localbp_new_wf g size bits shift Hb Hsh Hs H1 H2) as (p & E & Hw & Eb).
  destruct (run_counts es a p Hw Ha Hes) as (p' & Er & Hw' & Eb' & Hi & Hn).
  destruct (new_fields _ _ _ _ _ E) as (Enew1 & Enew2 & n & Enew3).
  exists p, p'. split_and!; try done.
  - pose proof (index_range p' a Hw' Ha). pose proof (wf_len p' Hw').
    destruct (vget_lt (localCtrs p') (localIdx p' a)) as [c Ec]; [lia|].
    unfold lookup. rewrite getLocalIndex_ok by done. cbn [mbind outcome_bind]. rewrite Ec. cbn [mbind outcome_bind]. unfold getPrediction, read.
    assert (ctr_ok (localCtrBits p') c) as (_ & Hm & Hc).
    { apply vget_ok in Ec as [_ Ec]. eapply Forall_lookup_1; [apply Hw'|exact Ec]. }
    assert (counter c = local_count bits (localIdx p) a es 0) as <-.
    { rewrite Eb in Hn. unfold count_of in Hn. rewrite Ec in Hn. rewrite Hn. f_equal.
      destruct (vget (localCtrs p) (localIdx p a)) as [c0|] eqn:E0; [|done].
      apply vget_ok in E0 as [_ E0]. rewrite Enew3 in E0. by apply lookup_replicate in E0 as [-> _]. }
    rewrite Eb', Eb in *. rewrite prediction_msb by lia. done.
  - intros x Hx. rewrite getLocalIndex_ok by done. f_equal. destruct Hw as [(k & Hk & Es & Em) _ _ _]. unfold localIdx.
    rewrite <- Enew1, Enew2, Em, Es, land_mask by lia.
    rewrite Z.shiftr_div_pow2 by lia. pose proof (pow2_pos k ltac:(lia)).
    pose proof (Z.pow_lt_mono_r 2 k 32 ltac:(lia) ltac:(lia) ltac:(lia)).
    pose proof (Z.mod_pos_bound (x / 2 ^ shift) (2 ^ k) ltac:(lia)).
    apply uwrap_small. split; lia.
Qed.

Lemma local_prediction_counts_outcomes_witness :
  exists p p', LocalBP_new 0 16 2 2 = Ok p /\
    run [(0x40, true); (0x44, false); (0x40, true); (0x60, false); (0x40, true)] p = Ok p' /\
    lookup 0x40 p' = Ok true.
Proof.
  destruct (local_prediction_counts_outcomes 0 16 2 2
    [(0x40, true); (0x44, false); (0x40, true); (0x60, false); (0x40, true)] 0x40)
    as (p & p' & E & Er & El & _).
  - lia.
  - lia.
  - lia.
  - reflexivity.
  - reflexivity.
  - lia.
  - repeat constructor; vm_compute; congruence.
  - exists p, p'. split; [exact E|]. split; [exact Er|]. rewrite El.
    vm_compute in E. injection E as <-. reflexivity.
Defined.

End LocalBP.
