(* ===== verification/ReturnAddrStack.v ===== *)
(** The return address stack of [cpu/pred/ras.hh] and [ras.cc], as a bounded
    stack that forgets its oldest entries. *)

From S2P Require Import Prelude.
Local Open Scope Z_scope.

Module ReturnAddrStack.

Section ras.
(** The ISA's program counter state: its default value and [set(0)]. *)
Context {PC : Type} (dflt : PC) (set0 : PC -> PC).

Record RAS := MkRAS {
  addrStack : list PC;
  numEntries : Z;
  usedEntries : Z;
  tos : Z;
}.
#[global] Instance eta_RAS : Eta RAS := fun r =>
  MkRAS (addrStack r) (numEntries r) (usedEntries r) (tos r).

Definition reset (r : RAS) : RAS :=
  r <| usedEntries := 0 |> <| tos := 0 |> <| addrStack ::= fmap set0 |>.
Definition init (n : Z) : RAS := reset (MkRAS (replicate (Z.to_nat n) dflt) n 0 0).

Definition top (r : RAS) : outcome PC := vget (addrStack r) (tos r).
Definition topIdx (r : RAS) : Z := tos r.

Definition incrTos (r : RAS) : RAS :=
  let t := u32 (tos r + 1) in r <| tos := if t =? numEntries r then 0 else t |>.
Definition decrTos (r : RAS) : RAS :=
  r <| tos := if tos r =? 0 then u32 (numEntries r - 1) else tos r - 1 |>.

Definition push (return_addr : PC) (r : RAS) : outcome RAS :=
  let r := incrTos r in
  v ← vset (addrStack r) (tos r) return_addr;
  let r := r <| addrStack := v |> in
  Ok (if negb (usedEntries r =? numEntries r) then r <| usedEntries := usedEntries r + 1 |> else r).

Definition pop (r : RAS) : RAS :=
  decrTos (if usedEntries r >? 0 then r <| usedEntries := usedEntries r - 1 |> else r).

Definition restore (top_entry_idx : Z) (restored : PC) (r : RAS) : outcome RAS :=
  let r := r <| tos := top_entry_idx |> in
  v ← vset (addrStack r) (tos r) restored;
  Ok (r <| addrStack := v |>).

Definition empty (r : RAS) : bool := usedEntries r =? 0.
Definition full (r : RAS) : bool := usedEntries r =? numEntries r.

(** ** Calls and returns *)

Inductive op := Push (pc : PC) | Pop.
Definition step (o : op) (r : RAS) : outcome RAS :=
  match o with Push pc => push pc r | Pop => Ok (pop r) end.
Fixpoint run (ops : list op) (r : RAS) : outcome RAS :=
  match ops with
  | [] => Ok r
  | o :: ops => r ← step o r; run ops r
  end.

(** The specification: a list with the newest entry first, cut to [n]. *)
Definition abs_step (n : nat) (o : op) (l : list PC) : list PC :=
  match o with Push pc => take n (pc :: l) | Pop => tail l end.
Fixpoint abs_run (n : nat) (ops : list op) (l : list PC) : list PC :=
  match ops with
  | [] => l
  | o :: ops => abs_run n ops (abs_step n o l)
  end.

(** Entry [j] below the top is at [tos - j] around the array. *)
Record refines (r : RAS) (l : list PC) : Prop := {
  rs_len : Z.of_nat (length (addrStack r)) = numEntries r;
  rs_width : 0 < numEntries r < 2 ^ 32;
  rs_tos : 0 <= tos r < numEntries r;
  rs_used : usedEntries r = Z.of_nat (length l);
  rs_max : Z.of_nat (length l) <= numEntries r;
  rs_at j : (j < length l)%nat ->
    addrStack r !! Z.to_nat ((tos r - Z.of_nat j) mod numEntries r) = l !! j;
}.

(** The shape alone, which [restore] keeps too. *)
Record ras_ok (r : RAS) : Prop := {
  ok_len : Z.of_nat (length (addrStack r)) = numEntries r;
  ok_width : 0 < numEntries r < 2 ^ 32;
  ok_tos : 0 <= tos r < numEntries r;
  ok_used : 0 <= usedEntries r <= numEntries r;
}.

(** The address [j] entries below the top. *)
Definition below (r : RAS) (j : nat) : option PC :=
  addrStack r !! Z.to_nat ((tos r - Z.of_nat j) mod numEntries r).

Lemma mod_minus_one n t : 0 <= t < n -> (t - 1) mod n = if t =? 0 then n - 1 else t - 1.
Proof.
  intros H. destruct (Z.eqb_spec t 0) as [->|].
  - rewrite <- (Z.mod_add (0 - 1) 1 n) by lia. rewrite Z.mod_small; lia.
  - apply Z.mod_small. lia.
Qed.

Lemma incrTos_mod r :
  0 < numEntries r < 2 ^ 32 -> 0 <= tos r < numEntries r ->
  tos (incrTos r) = (tos r + 1) mod numEntries r.
Proof.
  intros Hn Ht. unfold incrTos. simpl. destruct (Z.eq_dec (tos r + 1) (2 ^ 32)) as [E|E].
  - lia.
  - rewrite uwrap_small by (split; lia). destruct (Z.eqb_spec (tos r + 1) (numEntries r)) as [->|].
    + by rewrite Z.mod_same by lia.
    + by rewrite Z.mod_small by lia.
Qed.

Lemma decrTos_mod r :
  0 < numEntries r < 2 ^ 32 -> 0 <= tos r < numEntries r ->
  tos (decrTos r) = (tos r - 1) mod numEntries r.
Proof.
  intros Hn Ht. unfold decrTos. simpl. rewrite mod_minus_one by lia.
  destruct (tos r =? 0); [|done]. apply uwrap_small. split; lia.
Qed.

Lemma pop_shape r :
  ras_ok r -> ras_ok (pop r) /\ tos (pop r) = (tos r - 1) mod numEntries r /\
    addrStack (pop r) = addrStack r /\ numEntries (pop r) = numEntries r.
Proof.
  intros [H1 H2 H3 H4]. unfold pop. rewrite Z.gtb_ltb.
  pose proof (Z.mod_pos_bound (tos r - 1) (numEntries r) ltac:(lia)).
  destruct (Z.ltb_spec 0 (usedEntries r)).
  all: (split; [split; rewrite ?decrTos_mod; simpl; try done; lia|]).
  all: rewrite decrTos_mod by done; done.
Qed.

Lemma push_shape r x :
  ras_ok r -> exists r', push x r = Ok r' /\ ras_ok r' /\ tos r' = (tos r + 1) mod numEntries r /\
    addrStack r' = <[Z.to_nat ((tos r + 1) mod numEntries r) := x]> (addrStack r) /\
    numEntries r' = numEntries r.
Proof.
  intros [H1 H2 H3 H4]. unfold push. pose proof (incrTos_mod r H2 H3) as Ht.
  pose proof (Z.mod_pos_bound (tos r + 1) (numEntries r) ltac:(lia)) as Hb.
  change (addrStack (incrTos r)) with (addrStack r).
  rewrite vset_lt by (rewrite H1, Ht; lia). cbn [mbind outcome_bind]. rewrite Ht.
  eexists. split; [reflexivity|]. set (r1 := (incrTos r) <| addrStack := _ |>).
  change (usedEntries r1) with (usedEntries r). change (numEntries r1) with (numEntries r).
  assert (tos r1 = (tos r + 1) mod numEntries r) as Ht1 by done.
  destruct (Z.eqb_spec (usedEntries r) (numEntries r)) as [Eu|Eu]; cbn [negb].
  all: (split; [|done]); split; try (simpl; rewrite ?length_insert; lia).
  all: change (0 <= tos r1 < numEntries r); lia.
Qed.

Lemma restore_shape r i x :
  ras_ok r -> 0 <= i < numEntries r -> exists r', restore i x r = Ok r' /\ ras_ok r' /\
    tos r' = i /\ addrStack r' = <[Z.to_nat i := x]> (addrStack r) /\ numEntries r' = numEntries r.
Proof.
  intros [H1 H2 H3 H4] Hi. unfold restore. simpl. rewrite vset_lt by lia. cbn [mbind outcome_bind].
  eexists. split; [reflexivity|]. split; [|done]. split; simpl; rewrite ?length_insert; lia.
Qed.

Lemma top_shape r : ras_ok r -> exists x, top r = Ok x /\ below r 0 = Some x.
Proof.
  intros [H1 H2 H3 H4]. unfold top, below. destruct (vget_lt (addrStack r) (tos r)) as [x E]; [lia|].
  exists x. split; [done|]. rewrite Z.sub_0_r, Z.mod_small by lia. by apply vget_ok in E as [_ E].
Qed.

Lemma init_refines n : 0 < n < 2 ^ 32 -> refines (init n) [].
Proof.
  intros H. split; simpl; try lia.
  rewrite length_fmap, length_replicate. lia.
Qed.

Lemma pop_numEntries r : numEntries (pop r) = numEntries r.
Proof. unfold pop. by destruct (_ >? _). Qed.

Lemma pop_refines r l : refines r l -> refines (pop r) (tail l).
Proof.
  intros [H1 H2 H3 H4 H5 H6]. unfold pop.
  assert (forall u, tos (decrTos (r <| usedEntries := u |>)) = (tos r - 1) mod numEntries r) as Ht.
  { intros u. unfold decrTos. simpl. rewrite mod_minus_one by lia.
    destruct (tos r =? 0); [|done]. apply uwrap_small. split; lia. }
  assert ((if usedEntries r >? 0 then r <| usedEntries := usedEntries r - 1 |> else r) =
    r <| usedEntries := Z.of_nat (length (tail l)) |>) as ->.
  { rewrite Z.gtb_ltb. destruct l as [|x l]; simpl in *.
    - rewrite H4. simpl. destruct r; simpl in *. by rewrite H4.
    - rewrite (proj2 (Z.ltb_lt 0 _)) by lia. destruct r; simpl in *. f_equal. lia. }
  assert (length (tail l) <= length l)%nat as Hl by (destruct l; simpl; lia).
  pose proof (Z.mod_pos_bound (tos r - 1) (numEntries r) ltac:(lia)).
  split; rewrite ?Ht; simpl; try done; try lia. intros j Hj.
  rewrite Zminus_mod_idemp_l. destruct l as [|x l]; simpl in Hj |- *; [lia|].
  specialize (H6 (S j)). simpl in H6. rewrite <- H6 by lia. do 3 f_equal. lia.
Qed.

Lemma insert_next (v l : list PC) n t pc j :
  0 < n -> Z.of_nat (length v) = n ->
  (forall j, (j < length l)%nat -> v !! Z.to_nat ((t - Z.of_nat j) mod n) = l !! j) ->
  (j < S (length l))%nat -> Z.of_nat j < n ->
  <[Z.to_nat ((t + 1) mod n) := pc]> v !! Z.to_nat (((t + 1) mod n - Z.of_nat j) mod n) =
    (pc :: l) !! j.
Proof.
  intros Hn Hv Hat Hj Hjn. pose proof (Z.mod_pos_bound (t + 1) n Hn) as Hb.
  rewrite Zminus_mod_idemp_l. destruct j as [|j].
  - rewrite Z.sub_0_r. apply list_lookup_insert_eq. lia.
  - simpl. rewrite <- (Hat j) by lia. replace (t + 1 - Z.of_nat (S j)) with (t - Z.of_nat j) by lia.
    apply list_lookup_insert_ne. intros E.
    pose proof (Z.mod_pos_bound (t - Z.of_nat j) n Hn).
    assert ((t + 1 - (t - Z.of_nat j)) mod n = 0) as E2.
    { rewrite Zminus_mod. replace ((t - Z.of_nat j) mod n) with ((t + 1) mod n) by lia.
      by rewrite Z.sub_diag, Z.mod_0_l by lia. }
    rewrite Z.mod_small in E2; lia.
Qed.

Lemma push_refines r l pc :
  refines r l ->
  exists r', push pc r = Ok r' /\ refines r' (take (Z.to_nat (numEntries r)) (pc :: l)) /\
    numEntries r' = numEntries r.
Proof.
  intros [H1 H2 H3 H4 H5 H6]. unfold push.
  pose proof (incrTos_mod r H2 H3) as Ht.
  pose proof (Z.mod_pos_bound (tos r + 1) (numEntries r) ltac:(lia)) as Hb.
  change (addrStack (incrTos r)) with (addrStack r).
  rewrite vset_lt by (rewrite H1, Ht; lia). cbn [mbind outcome_bind]. rewrite Ht.
  eexists. split; [reflexivity|].
  assert (forall u, u = Z.of_nat (length (take (Z.to_nat (numEntries r)) (pc :: l))) ->
    refines ((incrTos r) <| addrStack := <[Z.to_nat ((tos r + 1) mod numEntries r) := pc]>
      (addrStack r) |> <| usedEntries := u |>) (take (Z.to_nat (numEntries r)) (pc :: l))) as Hr.
  { intros u ->. split; try (simpl; rewrite ?length_insert, ?length_take; lia).
    - change (0 <= tos (incrTos r) < numEntries r). lia.
    - intros j. rewrite length_take. intros Hj. simpl in Hj. rewrite lookup_take_lt by lia.
      change (<[Z.to_nat ((tos r + 1) mod numEntries r) := pc]> (addrStack r) !!
        Z.to_nat ((tos (incrTos r) - Z.of_nat j) mod numEntries r) = (pc :: l) !! j).
      rewrite Ht. apply insert_next; try lia. done. }
  rewrite length_take in Hr. simpl length in Hr.
  set (r1 := (incrTos r) <| addrStack := _ |>) in *.
  change (usedEntries r1) with (usedEntries r). change (numEntries r1) with (numEntries r).
  destruct (Z.eqb_spec (usedEntries r) (numEntries r)) as [Eu|Eu]; cbn [negb]; (split; [|done]).
  - apply (Hr (usedEntries r)). lia.
  - apply (Hr (usedEntries r + 1)). lia.
Qed.

Lemma ras_run_refines ops : forall r l,
  refines r l ->
  exists r', run ops r = Ok r' /\ refines r' (abs_run (Z.to_nat (numEntries r)) ops l) /\
    numEntries r' = numEntries r.
Proof.
  induction ops as [|[pc|] ops IH]; intros r l H; simpl.
  - eauto.
  - destruct (push_refines r l pc H) as (r1 & -> & Hr & Hn). simpl. rewrite <- Hn in Hr |- *.
    by apply IH.
  - rewrite <- (pop_numEntries r). by apply IH, pop_refines.
Qed.

Lemma refines_observe r l :
  refines r l ->
  empty r = bool_decide (l = []) /\
  full r = bool_decide (Z.of_nat (length l) = numEntries r) /\
  (forall x, head l = Some x -> top r = Ok x).
Proof.
  intros [H1 H2 H3 H4 H5 H6]. unfold empty, full, top. rewrite H4. split_and!.
  - destruct l; [done|]. rewrite bool_decide_eq_false_2 by done. by apply Z.eqb_neq.
  - destruct (Z.eqb_spec (Z.of_nat (length l)) (numEntries r)); symmetry;
      [by apply bool_decide_eq_true_2|by apply bool_decide_eq_false_2].
  - intros x Hx. destruct l as [|y l]; [done|]. injection Hx as ->.
    specialize (H6 0%nat ltac:(simpl; lia)). rewrite Z.sub_0_r, Z.mod_small in H6 by lia.
    apply vget_ok. split; [lia|done].
Qed.

(** A return address stack initialised with [n] entries behaves, under
    any sequence of calls and returns, as a stack that keeps its [n] newest
    entries: no access leaves the array, [empty] and [full] report the stack's
    size, and [top] is the newest address while the stack has one. *)
Theorem ras_refines_bounded_stack n ops :
  0 < n < 2 ^ 32 ->
  exists r, run ops (init n) = Ok r /\
    let l := abs_run (Z.to_nat n) ops [] in
    empty r = bool_decide (l = []) /\
    full r = bool_decide (Z.of_nat (length l) = n) /\
    (forall x, head l = Some x -> top r = Ok x).
Proof.
  intros H. destruct (ras_run_refines ops _ _ (init_refines n H)) as (r & E & Hr & En).
  exists r. split; [done|]. destruct (refines_observe _ _ Hr) as (H1 & H2 & H3).
  rewrite En in H2. done.
Qed.

(** Squashing a return that the stack predicted puts back the top index
    and every address, so the next return is predicted as before; the count
    of used entries is not put back, and a stack of one entry reports itself
    empty although its address is there again. *)
Theorem ras_squash_return r l x :
  refines r l -> head l = Some x ->
  top r = Ok x /\
  restore (topIdx r) x (pop r) = Ok (r <| usedEntries := usedEntries r - 1 |>).
Proof.
  intros Hr Hx. destruct (refines_observe _ _ Hr) as (_ & _ & Ht). specialize (Ht x Hx).
  split; [done|]. destruct Hr as [H1 H2 H3 H4 H5 H6]. destruct l as [|y l]; [done|].
  unfold restore, topIdx, pop. rewrite Z.gtb_ltb, (proj2 (Z.ltb_lt 0 _)) by (simpl in H4; lia).
  simpl. rewrite vset_lt by lia. simpl. unfold top in Ht. apply vget_ok in Ht as [_ Ht].
  rewrite list_insert_id by done. done.
Qed.

End ras.

Lemma ras_refines_bounded_stack_witness :
  exists r, run (PC := Z) [Push 4; Push 8; Push 12; Pop] (init 0 (fun _ => 0) 2) = Ok r /\
    top r = Ok 8.
Proof.
  destruct (ras_refines_bounded_stack (PC := Z) 0 (fun _ => 0) 2 [Push 4; Push 8; Push 12; Pop])
    as (r & E & _ & _ & Ht); [lia|].
  exists r. split; [done|]. apply Ht. reflexivity.
Defined.

Lemma ras_squash_return_witness :
  exists r, push (PC := Z) 4 (init 0 (fun _ => 0) 2) = Ok r /\
    exists r', restore 1 4 (pop r) = Ok r' /\ empty r' = true /\ top r' = Ok 4.
Proof.
  destruct (push_refines _ _ 4 (init_refines 0 (fun _ => 0) 2 ltac:(lia))) as (r & E & Hr & _).
  exists r. split; [done|].
  destruct (ras_squash_return r _ 4 Hr eq_refl) as [Ht Hq].
  vm_compute in E. injection E as <-. eexists. split; [exact Hq|]. split; reflexivity.
Defined.

End ReturnAddrStack.
