(* ===== verification/DefaultBTB.v ===== *)
(** The branch target buffer of [cpu/pred/btb.hh] and [btb.cc]: a direct-mapped
    table of branch targets with partial tags. *)

From S2P Require Import Prelude IntMath.
Local Open Scope Z_scope.

Module DefaultBTB.

Section btb.
(** The ISA's program counter state and the one built from 0. *)
Context {PC : Type} (zero : PC).

(** [BTBEntry()] leaves [tid] unset. *)
Record BTBEntry := MkBTBEntry {
  tag : Z;
  target : PC;
  tid : option Z;
  e_valid : bool;
}.
#[global] Instance eta_BTBEntry : Eta BTBEntry := fun e =>
  MkBTBEntry (tag e) (target e) (tid e) (e_valid e).
Definition BTBEntry0 : BTBEntry := MkBTBEntry 0 zero None false.

Record BTB := MkBTB {
  btb : list BTBEntry;
  numEntries : Z;
  idxMask : Z;
  tagBits : Z;
  tagMask : Z;
  instShiftAmt : Z;
  tagShiftAmt : Z;
}.
#[global] Instance eta_BTB : Eta BTB := fun b =>
  MkBTB (btb b) (numEntries b) (idxMask b) (tagBits b) (tagMask b) (instShiftAmt b) (tagShiftAmt b).

(** [(1 << tagBits) - 1] is computed at [int]. *)
Definition DefaultBTB_new (numEntries tagBits instShiftAmt : Z) : outcome BTB :=
  _ ← ensure FatalError (IntMath.isPowerOf2 32 numEntries);
  let btb := (fun e => e <| e_valid := false |>) <$> replicate (Z.to_nat numEntries) BTBEntry0 in
  _ ← ensure Undefined (tagBits <? 31);
  k ← IntMath.floorLog2 numEntries;
  Ok (MkBTB btb numEntries (u32 (numEntries - 1)) tagBits (Z.shiftl 1 tagBits - 1)
        instShiftAmt (u32 (instShiftAmt + k))).

Definition reset (b : BTB) : BTB := b <| btb ::= fmap (fun e => e <| e_valid := false |>) |>.

Definition getIndex (b : BTB) (instPC : Z) : outcome Z :=
  x ← shr64 instPC (instShiftAmt b); Ok (u32 (Z.land x (idxMask b))).

Definition getTag (b : BTB) (instPC : Z) : outcome Z :=
  x ← shr64 instPC (tagShiftAmt b); Ok (Z.land x (tagMask b)).

(** The condition of [valid] and [lookup], in its order of evaluation. *)
Definition matches (e : BTBEntry) (inst_tag tid' : Z) : outcome bool :=
  if e_valid e then
    if inst_tag =? tag e then
      match tid e with Some t => Ok (t =? tid') | None => Fail Undefined end
    else Ok false
  else Ok false.

Definition valid (instPC tid' : Z) (b : BTB) : outcome bool :=
  btb_idx ← getIndex b instPC;
  inst_tag ← getTag b instPC;
  _ ← ensure AssertFailed (btb_idx <? numEntries b);
  e ← vget (btb b) btb_idx;
  hit ← matches e inst_tag tid';
  if (hit : bool) then Ok true else Ok false.

Definition lookup (instPC tid' : Z) (b : BTB) : outcome PC :=
  btb_idx ← getIndex b instPC;
  inst_tag ← getTag b instPC;
  _ ← ensure AssertFailed (btb_idx <? numEntries b);
  e ← vget (btb b) btb_idx;
  hit ← matches e inst_tag tid';
  if (hit : bool) then Ok (target e) else Ok zero.

Definition update (instPC : Z) (target' : PC) (tid' : Z) (b : BTB) : outcome BTB :=
  btb_idx ← getIndex b instPC;
  _ ← ensure AssertFailed (btb_idx <? numEntries b);
  e ← vget (btb b) btb_idx;
  let e := e <| tid := Some tid' |> <| e_valid := true |> <| target := target' |> in
  t ← getTag b instPC;
  v ← vset (btb b) btb_idx (e <| tag := t |>);
  Ok (b <| btb := v |>).

(** ** Properties *)

Record Upd := MkUpd { u_pc : Z; u_target : PC; u_tid : Z }.

Fixpoint updates (us : list Upd) (b : BTB) : outcome BTB :=
  match us with
  | [] => Ok b
  | u :: us => b ← update (u_pc u) (u_target u) (u_tid u) b; updates us b
  end.

Section geometry.
(** [k] index bits and [s] ignored low bits. *)
Context (k tb s : Z).

(** The table slot of a branch and the bits that tell branches apart. *)
Definition slot (pc : Z) : Z := (pc / 2 ^ s) mod 2 ^ k.
Definition branch (pc : Z) : Z := (pc / 2 ^ s) mod 2 ^ (k + tb).

(** The most recent update of the slot of [pc], [us] newest first. *)
Definition latest (us : list Upd) (pc : Z) : option Upd :=
  List.find (fun u => slot (u_pc u) =? slot pc) us.

Record geo (b : BTB) : Prop := {
  geo_k : 0 <= k < 32;
  geo_tb : 0 <= tb < 31;
  geo_s : 0 <= s /\ s + k < 64;
  geo_n : numEntries b = 2 ^ k;
  geo_len : Z.of_nat (length (btb b)) = 2 ^ k;
  geo_idx : idxMask b = 2 ^ k - 1;
  geo_tag : tagMask b = 2 ^ tb - 1;
  geo_shift : instShiftAmt b = s;
  geo_tshift : tagShiftAmt b = s + k;
}.

Definition tag_of (pc : Z) : Z := (pc / 2 ^ (s + k)) mod 2 ^ tb.

(** Every slot holds its most recent update. *)
Definition holds (us : list Upd) (b : BTB) : Prop :=
  geo b /\
  forall i e, btb b !! i = Some e ->
    match List.find (fun u => slot (u_pc u) =? Z.of_nat i) us with
    | Some u => e = MkBTBEntry (tag_of (u_pc u)) (u_target u) (Some (u_tid u)) true
    | None => e_valid e = false
    end.

Lemma slot_range pc : 0 <= k -> 0 <= slot pc < 2 ^ k.
Proof. intros. apply Z.mod_pos_bound, pow2_pos. lia. Qed.

Lemma getIndex_ok b pc : geo b -> getIndex b pc = Ok (slot pc).
Proof.
  intros []. unfold getIndex. rewrite geo_shift0, shr64_ok by lia.
  cbn [mbind outcome_bind]. rewrite geo_idx0, land_mask, Z.shiftr_div_pow2 by lia.
  f_equal. apply uwrap_small. pose proof (slot_range pc ltac:(lia)).
  pose proof (Z.pow_lt_mono_r 2 k 32 ltac:(lia) ltac:(lia) ltac:(lia)). unfold slot in *. split; lia.
Qed.

Lemma getTag_ok b pc : geo b -> getTag b pc = Ok (tag_of pc).
Proof.
  intros []. unfold getTag. rewrite geo_tshift0, shr64_ok by lia.
  cbn [mbind outcome_bind]. by rewrite geo_tag0, land_mask, Z.shiftr_div_pow2 by lia.
Qed.

(** Index and tag together are the branch's identifying bits. *)
Lemma same_branch pc pc' :
  0 <= k -> 0 <= tb -> 0 <= s -> slot pc = slot pc' ->
  (tag_of pc =? tag_of pc') = (branch pc =? branch pc').
Proof.
  intros Hk Ht Hs. unfold slot, tag_of, branch. rewrite !Z.pow_add_r by lia.
  pose proof (pow2_pos s Hs). pose proof (pow2_pos k Hk). pose proof (pow2_pos tb Ht).
  rewrite <- !Z.div_div by lia. rewrite !Z.rem_mul_r by lia. intros ->.
  generalize ((pc / 2 ^ s / 2 ^ k) mod 2 ^ tb), ((pc' / 2 ^ s / 2 ^ k) mod 2 ^ tb). intros x y.
  destruct (Z.eqb_spec x y) as [->|Hne]; symmetry; [apply Z.eqb_refl|]. apply Z.eqb_neq. nia.
Qed.

Lemma slot_entry b pc : geo b -> exists e, vget (btb b) (slot pc) = Ok e.
Proof.
  intros H. destruct (slot_range pc (proj1 (geo_k _ H))). apply vget_lt. rewrite (geo_len _ H). lia.
Qed.

Lemma update_holds us b u :
  holds us b -> exists b', update (u_pc u) (u_target u) (u_tid u) b = Ok b' /\ holds (u :: us) b'.
Proof.
  intros [Hg Ha]. unfold update. rewrite getIndex_ok, getTag_ok by done. cbn [mbind outcome_bind].
  destruct (slot_entry b (u_pc u) Hg) as [e ->].
  pose proof (slot_range (u_pc u) (proj1 (geo_k _ Hg))) as Hr.
  rewrite (geo_n _ Hg), (proj2 (Z.ltb_lt _ (2 ^ k))) by lia. cbn [ensure mbind outcome_bind].
  rewrite vset_lt by (rewrite (geo_len _ Hg); lia). eexists. split; [reflexivity|]. split.
  - destruct Hg. split; simpl; rewrite ?length_insert; done.
  - intros i e' He. simpl in He. destruct (decide (i = Z.to_nat (slot (u_pc u)))) as [->|Hne].
    + apply list_lookup_insert_Some in He as [(_ & <- & _)|(? & _)]; [|done].
      simpl. rewrite Z2Nat.id, Z.eqb_refl by lia. done.
    + rewrite list_lookup_insert_ne in He by done. simpl.
      rewrite (proj2 (Z.eqb_neq (slot (u_pc u)) (Z.of_nat i))) by lia. by apply Ha.
Qed.

Lemma updates_hold us : forall us0 b,
  holds us0 b -> exists b', updates us b = Ok b' /\ holds (rev us ++ us0) b'.
Proof.
  induction us as [|u us IH]; intros us0 b H; simpl; [eauto|].
  destruct (update_holds us0 b u H) as (b1 & -> & H1). cbn [mbind outcome_bind].
  destruct (IH _ _ H1) as (b2 & -> & H2). exists b2. split; [done|].
  by rewrite <- app_assoc.
Qed.

Lemma find_matches us b pc t :
  holds us b ->
  exists e, vget (btb b) (slot pc) = Ok e /\
    matches e (tag_of pc) t = Ok (match latest us pc with
      | Some u => (branch (u_pc u) =? branch pc) && (u_tid u =? t)
      | None => false end) /\
    (forall u, latest us pc = Some u -> target e = u_target u).
Proof.
  intros [Hg Ha]. destruct (slot_entry b pc Hg) as [e He]. exists e. split; [done|].
  apply vget_ok in He as [Hr He]. specialize (Ha _ _ He). unfold latest. rewrite Z2Nat.id in Ha by lia.
  unfold matches. destruct (List.find _ us) as [u|] eqn:Ef; [|by rewrite Ha].
  apply find_some in Ef as [_ Ef%Z.eqb_eq]. subst e. simpl. split; [|by intros ? [= <-]].
  destruct Hg. rewrite Z.eqb_sym, same_branch by (lia || done).
  by destruct (_ =? _).
Qed.

Lemma holds_observe us b pc t :
  holds us b ->
  let hit := match latest us pc with
    | Some u => (branch (u_pc u) =? branch pc) && (u_tid u =? t) | None => false end in
  valid pc t b = Ok hit /\
  lookup pc t b = Ok (if hit then from_option u_target zero (latest us pc) else zero).
Proof.
  intros H hit. destruct (find_matches us b pc t H) as (e & He & Hm & Ht). destruct H as [Hg _].
  unfold valid, lookup. rewrite getIndex_ok, getTag_ok by done. cbn [mbind outcome_bind].
  pose proof (slot_range pc (proj1 (geo_k _ Hg))) as Hr.
  rewrite (geo_n _ Hg), (proj2 (Z.ltb_lt _ (2 ^ k))) by lia. cbn [ensure mbind outcome_bind].
  rewrite He. cbn [mbind outcome_bind]. rewrite Hm. cbn [mbind outcome_bind]. fold hit.
  destruct hit eqn:Eh; [|done]. split; [done|]. f_equal. unfold hit in Eh.
  destruct (latest us pc); [by apply Ht|done].
Qed.

Lemma btb_new_holds b :
  0 <= k < 32 -> 0 <= tb < 31 -> 0 <= s -> s + k < 64 ->
  DefaultBTB_new (2 ^ k) tb s = Ok b -> holds [] b.
Proof.
  intros Hk Ht Hs Hsk E. unfold DefaultBTB_new in E.
  apply bind_ok in E as (? & _ & E). apply bind_ok in E as (? & _ & E).
  pose proof (pow2_pos k ltac:(lia)).
  pose proof (Z.pow_lt_mono_r 2 k 32 ltac:(lia) ltac:(lia) ltac:(lia)).
  rewrite IntMath.floorLog2_ok in E by lia. cbn [mbind outcome_bind] in E. injection E as <-.
  split.
  - split; simpl; try done.
    + rewrite length_fmap, length_replicate. lia.
    + apply uwrap_small. split; lia.
    + by rewrite Z.shiftl_mul_pow2, Z.mul_1_l by lia.
    + rewrite Z.log2_pow2 by lia. apply uwrap_small. split; [lia|]. change (2 ^ 32) with 4294967296. lia.
  - intros i e He. simpl in *. apply list_lookup_fmap_Some in He as (e0 & -> & _). done.
Qed.

Lemma btb_new_ok :
  0 <= k < 32 -> 0 <= tb < 31 -> exists b, DefaultBTB_new (2 ^ k) tb s = Ok b.
Proof.
  intros Hk Ht. pose proof (pow2_pos k ltac:(lia)).
  pose proof (Z.pow_lt_mono_r 2 k 32 ltac:(lia) ltac:(lia) ltac:(lia)). unfold DefaultBTB_new.
  rewrite (proj2 (IntMath.isPowerOf2_true 32 (2 ^ k) ltac:(lia) ltac:(split; lia))) by eauto.
  rewrite (proj2 (Z.ltb_lt tb 31)), IntMath.floorLog2_ok by lia. by eexists.
Qed.

End geometry.

(** C37: a branch target buffer of [2^k] entries, after any sequence of
    updates, answers for a branch from the most recent update of the branch's
    slot: it hits exactly when that update was made by the same thread for a
    branch equal in the [k + tagBits] bits above the ignored ones, and then
    [lookup] gives the recorded target. No access leaves the table and no
    unset thread id is read. *)
Theorem btb_answers_latest_update k tb s b0 us :
  0 <= k < 32 -> 0 <= tb < 31 -> 0 <= s -> s + k < 64 ->
  DefaultBTB_new (2 ^ k) tb s = Ok b0 ->
  exists b, updates us b0 = Ok b /\
    forall pc t,
      let u := latest k s (rev us) pc in
      let hit := match u with
        | Some u => (branch k tb s (u_pc u) =? branch k tb s pc) && (u_tid u =? t)
        | None => false end in
      valid pc t b = Ok hit /\
      lookup pc t b = Ok (if hit then from_option u_target zero u else zero).
Proof.
  intros Hk Ht Hs Hsk E. destruct (updates_hold k tb s us [] b0) as (b & Eb & H).
  - by apply btb_new_holds.
  - exists b. split; [done|]. intros pc t. rewrite app_nil_r in H. by apply holds_observe.
Qed.

End btb.

Lemma btb_answers_latest_update_witness :
  exists b0 b, DefaultBTB_new (0 : Z) 4 2 2 = Ok b0 /\
    updates [MkUpd 16 100 0; MkUpd 20 200 0; MkUpd 32 300 0] b0 = Ok b /\
    lookup 0 32 0 b = Ok 300 /\ valid 16 0 b = Ok false /\ lookup 0 20 0 b = Ok 200.
Proof.
  eexists. destruct (btb_answers_latest_update (0 : Z) 2 2 2 _
    [MkUpd 16 100 0; MkUpd 20 200 0; MkUpd 32 300 0] ltac:(lia) ltac:(lia) ltac:(lia) ltac:(lia)
    eq_refl) as (b & E & H).
  exists b. split; [reflexivity|]. split; [exact E|].
  split; [apply H|]. split; [apply H|apply H].
Defined.

End DefaultBTB.
