(* ===== verification/BiModeBP.v ===== *)
(** The bi-mode branch predictor of [cpu/pred/bi_mode.hh] and [bi_mode.cc]. *)

From stdpp Require Import relations.
From S2P Require Import Prelude IntMath SatCounter DirPred.
Import SatCounter DirPred.
Local Open Scope Z_scope.

Module BiModeBP.

Record BPHistory := MkBPHistory {
  h_globalHistoryReg : Z;
  takenUsed : bool;
  takenPred : bool;
  notTakenPred : bool;
  finalPred : bool;
}.

Record BiModeBP := MkBiModeBP {
  choiceCounters : list SatCounter;
  takenCounters : list SatCounter;
  notTakenCounters : list SatCounter;
  globalHistoryReg : Z;
  globalHistoryBits : Z;
  historyRegisterMask : Z;
  choicePredictorSize : Z;
  choiceCtrBits : Z;
  choiceHistoryMask : Z;
  globalPredictorSize : Z;
  globalCtrBits : Z;
  globalHistoryMask : Z;
  choiceThreshold : Z;
  takenThreshold : Z;
  notTakenThreshold : Z;
  instShiftAmt : Z;
}.
#[global] Instance eta_BiModeBP : Eta BiModeBP := fun p =>
  MkBiModeBP (choiceCounters p) (takenCounters p) (notTakenCounters p) (globalHistoryReg p)
    (globalHistoryBits p) (historyRegisterMask p) (choicePredictorSize p) (choiceCtrBits p)
    (choiceHistoryMask p) (globalPredictorSize p) (globalCtrBits p) (globalHistoryMask p)
    (choiceThreshold p) (takenThreshold p) (notTakenThreshold p) (instShiftAmt p).

Definition BiModeBP_new (garbage choiceSize choiceBits globalSize globalBits shift : Z)
  : outcome BiModeBP :=
  histBits ← IntMath.ceilLog2 globalSize;
  _ ← ensure FatalError (IntMath.isPowerOf2 32 choiceSize);
  _ ← ensure FatalError (IntMath.isPowerOf2 32 globalSize);
  thr1 ← threshold choiceBits;
  thr2 ← threshold choiceBits;
  thr3 ← threshold choiceBits;
  Ok (MkBiModeBP (new_table garbage choiceBits choiceSize) (new_table garbage globalBits globalSize)
        (new_table garbage globalBits globalSize) 0 histBits (u32 (BitField.mask histBits))
        choiceSize choiceBits (u32 (choiceSize - 1)) globalSize globalBits (u32 (globalSize - 1))
        thr1 thr2 thr3 shift).

Definition updateGlobalHistReg (taken : bool) (p : BiModeBP) : BiModeBP :=
  let p := p <| globalHistoryReg := shift_in taken (globalHistoryReg p) |> in
  p <| globalHistoryReg := Z.land (globalHistoryReg p) (historyRegisterMask p) |>.

Definition uncondBranch (pc : Z) (bpHistory : option BPHistory) (p : BiModeBP)
  : outcome (option BPHistory * BiModeBP) :=
  let history := MkBPHistory (globalHistoryReg p) true true true true in
  Ok (Some history, updateGlobalHistReg true p).

(** A null history is dereferenced. *)
Definition squash (bpHistory : option BPHistory) (p : BiModeBP) : outcome BiModeBP :=
  match bpHistory with
  | Some history => Ok (p <| globalHistoryReg := h_globalHistoryReg history |>)
  | None => Fail Undefined
  end.

(** The two table indices; [lookup] and [update] compute them after checking
    that the shift of the address is defined. *)
Definition choice_index (p : BiModeBP) (branchAddr : Z) : Z :=
  u32 (Z.land (Z.shiftr branchAddr (instShiftAmt p)) (choiceHistoryMask p)).
Definition global_index (p : BiModeBP) (branchAddr hist : Z) : Z :=
  u32 (Z.land (Z.lxor (Z.shiftr branchAddr (instShiftAmt p)) hist) (globalHistoryMask p)).

Definition lookup (branchAddr : Z) (bpHistory : option BPHistory) (p : BiModeBP)
  : outcome (bool * option BPHistory * BiModeBP) :=
  _ ← ensure Undefined (instShiftAmt p <? 64);
  let choiceHistoryIdx := choice_index p branchAddr in
  let globalHistoryIdx := global_index p branchAddr (globalHistoryReg p) in
  _ ← ensure AssertFailed (choiceHistoryIdx <? choicePredictorSize p);
  _ ← ensure AssertFailed (globalHistoryIdx <? globalPredictorSize p);
  choicePrediction ← above (choiceCounters p) choiceHistoryIdx (choiceThreshold p);
  takenGHBPrediction ← above (takenCounters p) globalHistoryIdx (takenThreshold p);
  notTakenGHBPrediction ← above (notTakenCounters p) globalHistoryIdx (notTakenThreshold p);
  let finalPrediction := if (choicePrediction : bool) then takenGHBPrediction
                         else notTakenGHBPrediction in
  let history := MkBPHistory (globalHistoryReg p) choicePrediction takenGHBPrediction
                   notTakenGHBPrediction finalPrediction in
  Ok (finalPrediction, Some history, updateGlobalHistReg finalPrediction p).

Definition btbUpdate (branchAddr : Z) (bpHistory : option BPHistory) (p : BiModeBP)
  : outcome BiModeBP :=
  Ok (p <| globalHistoryReg := u32 (Z.land (globalHistoryReg p)
             (Z.land (historyRegisterMask p) (unot 64 1))) |>).

Definition update (branchAddr : Z) (taken : bool) (bpHistory : option BPHistory) (squashed : bool)
  (p : BiModeBP) : outcome BiModeBP :=
  match bpHistory with
  | None => Ok p
  | Some history =>
      _ ← ensure Undefined (instShiftAmt p <? 64);
      let choiceHistoryIdx := choice_index p branchAddr in
      let globalHistoryIdx := global_index p branchAddr (h_globalHistoryReg history) in
      _ ← ensure AssertFailed (choiceHistoryIdx <? choicePredictorSize p);
      _ ← ensure AssertFailed (globalHistoryIdx <? globalPredictorSize p);
      p ← (if takenUsed history
           then v ← train_at taken (takenCounters p) globalHistoryIdx;
                Ok (p <| takenCounters := v |>)
           else v ← train_at taken (notTakenCounters p) globalHistoryIdx;
                Ok (p <| notTakenCounters := v |>));
      p ← (if eqb (finalPred history) taken then
             if eqb (finalPred history) (takenUsed history)
             then v ← train_at taken (choiceCounters p) choiceHistoryIdx;
                  Ok (p <| choiceCounters := v |>)
             else Ok p
           else v ← train_at taken (choiceCounters p) choiceHistoryIdx;
                Ok (p <| choiceCounters := v |>));
      Ok (if squashed
          then p <| globalHistoryReg :=
                      Z.land (shift_in taken (h_globalHistoryReg history)) (historyRegisterMask p) |>
          else p)
  end.

(** [retireSquashed] only frees the record. *)
Definition retireSquashed (bp_history : option BPHistory) (p : BiModeBP) : outcome BiModeBP := Ok p.

#[global] Instance bimode_dirpred : DirPred BiModeBP BPHistory := {
  dp_uncondBranch := uncondBranch;
  dp_squash := squash;
  dp_lookup := lookup;
  dp_btbUpdate := btbUpdate;
  dp_update := update;
  dp_retireSquashed := retireSquashed;
}.

(** ** Properties *)

(** Everything but the history register and the counters is fixed by the
    constructor. *)
Record wf (p : BiModeBP) : Prop := {
  wf_choice : exists c, table_ok (choiceCtrBits p) c (choiceCounters p) /\
    choicePredictorSize p = 2 ^ c /\ choiceHistoryMask p = 2 ^ c - 1;
  wf_global : exists g, table_ok (globalCtrBits p) g (takenCounters p) /\
    table_ok (globalCtrBits p) g (notTakenCounters p) /\
    globalPredictorSize p = 2 ^ g /\ globalHistoryMask p = 2 ^ g - 1;
  wf_thresholds : takenThreshold p = 2 ^ (choiceCtrBits p - 1) - 1 /\
    notTakenThreshold p = 2 ^ (choiceCtrBits p - 1) - 1;
  wf_shift : instShiftAmt p < 64;
}.

Lemma choice_index_range p a c :
  0 <= c < 32 -> choiceHistoryMask p = 2 ^ c - 1 -> 0 <= choice_index p a < 2 ^ c.
Proof. intros Hc Hm. unfold choice_index. rewrite Hm. by apply masked_index. Qed.

Lemma global_index_range p a h g :
  0 <= g < 32 -> globalHistoryMask p = 2 ^ g - 1 -> 0 <= global_index p a h < 2 ^ g.
Proof. intros Hg Hm. unfold global_index. rewrite Hm. by apply masked_index. Qed.

Lemma set_reg_wf p r : wf p -> wf (p <| globalHistoryReg := r |>).
Proof. by intros []. Qed.

Lemma updateGlobalHistReg_eq t p :
  updateGlobalHistReg t p =
    p <| globalHistoryReg := Z.land (shift_in t (globalHistoryReg p)) (historyRegisterMask p) |>.
Proof. by destruct p. Qed.

(** The guards of [lookup] and [update] hold. *)
Lemma guards_ok p a h :
  wf p -> (instShiftAmt p <? 64) = true /\ (choice_index p a <? choicePredictorSize p) = true /\
          (global_index p a h <? globalPredictorSize p) = true.
Proof.
  intros [(c & (Hc & _) & Ec & Mc) (g & (Hg & _) & _ & Eg & Mg) _ Hs]. rewrite Ec, Eg.
  pose proof (choice_index_range p a c Hc Mc). pose proof (global_index_range p a h g Hg Mg).
  split_and!; apply Z.ltb_lt; lia.
Qed.

Lemma lookup_eq a h p :
  wf p -> exists c t n : bool,
    above (takenCounters p) (global_index p a (globalHistoryReg p)) (takenThreshold p) = Ok t /\
    above (notTakenCounters p) (global_index p a (globalHistoryReg p)) (notTakenThreshold p) = Ok n /\
    let b := if c then t else n in
    lookup a h p = Ok (b, Some (MkBPHistory (globalHistoryReg p) c t n b), updateGlobalHistReg b p).
Proof.
  intros Hw. destruct (guards_ok p a (globalHistoryReg p) Hw) as (G0 & G1 & G2).
  destruct Hw as [(c & Hc & Ec & Mc) (g & Ht & Hn & Eg & Mg) _ _].
  destruct (above_ok _ _ _ (choice_index p a) (choiceThreshold p) Hc) as [bc Ebc].
  { apply choice_index_range; [apply Hc|done]. }
  pose proof (global_index_range p a (globalHistoryReg p) g (proj1 Ht) Mg) as Hi.
  destruct (above_ok _ _ _ _ (takenThreshold p) Ht Hi) as [bt Ebt].
  destruct (above_ok _ _ _ _ (notTakenThreshold p) Hn Hi) as [bn Ebn].
  exists bc, bt, bn. split; [done|]. split; [done|].
  unfold lookup. rewrite G0, G1, G2, Ebc, Ebt, Ebn. done.
Qed.

Lemma update_wf a t h s p :
  wf p -> exists p', update a t (Some h) s p = Ok p' /\ wf p' /\
    (choiceCtrBits p' = choiceCtrBits p /\ globalCtrBits p' = globalCtrBits p) /\
    (s = true -> p' = p <| choiceCounters := choiceCounters p' |>
      <| takenCounters := takenCounters p' |> <| notTakenCounters := notTakenCounters p' |>
      <| globalHistoryReg := Z.land (shift_in t (h_globalHistoryReg h)) (historyRegisterMask p) |>).
Proof.
  intros Hw. destruct (guards_ok p a (h_globalHistoryReg h) Hw) as (G0 & G1 & G2).
  destruct Hw as [(c & Hc & Ec & Mc) (g & Ht & Hn & Eg & Mg) Hth Hsh].
  pose proof (global_index_range p a (h_globalHistoryReg h) g (proj1 Ht) Mg) as Hi.
  pose proof (choice_index_range p a c (proj1 Hc) Mc) as Hj.
  destruct (train_at_ok _ _ t _ _ Ht Hi) as (vt & Evt & Hvt).
  destruct (train_at_ok _ _ t _ _ Hn Hi) as (vn & Evn & Hvn).
  destruct (train_at_ok _ _ t _ _ Hc Hj) as (vc & Evc & Hvc).
  unfold update. rewrite G0, G1, G2. cbn [ensure mbind outcome_bind].
  destruct (takenUsed h); rewrite ?Evt, ?Evn; cbn [mbind outcome_bind];
    change (choiceCounters (p <| takenCounters := vt |>)) with (choiceCounters p);
    change (choiceCounters (p <| notTakenCounters := vn |>)) with (choiceCounters p).
  all: rewrite Evc; cbn [mbind outcome_bind]; split_ifs; cbn [mbind outcome_bind];
    (eexists; split; [reflexivity|]); (split; [split; simpl; eauto|]); (split; [done|]); by destruct p.
Qed.

#[global] Program Instance bimode_dirpred_ok : DirPredOk BiModeBP BPHistory := {
  dp_wf := wf;
  dp_hist h := is_Some h;
}.
Next Obligation. intros a p Hw. do 2 eexists. split; [reflexivity|]. split; [by destruct Hw|done]. Qed.
Next Obligation. intros h p Hw [x ->]. eexists. split; [reflexivity|]. by apply set_reg_wf. Qed.
Next Obligation.
  intros a p _ Hw. destruct (lookup_eq a None p Hw) as (c & t & n & _ & _ & E).
  do 3 eexists. split; [exact E|]. rewrite updateGlobalHistReg_eq. split; [by apply set_reg_wf|done].
Qed.
Next Obligation. intros a h p _ Hw _. eexists. split; [reflexivity|]. by apply set_reg_wf. Qed.
Next Obligation.
  intros a t h s p _ Hw [x ->]. destruct (update_wf a t x s p Hw) as (p' & E & H & _). eauto.
Qed.
Next Obligation. intros h p Hw _. by eexists. Qed.

Lemma bimode_new_wf g c k cb gb s :
  0 <= c < 32 -> 0 <= k < 32 -> 1 <= cb <= 8 -> 1 <= gb <= 8 -> s < 64 ->
  exists p, BiModeBP_new g (2 ^ c) cb (2 ^ k) gb s = Ok p /\ wf p /\
    choiceCtrBits p = cb /\ globalCtrBits p = gb.
Proof.
  intros Hc Hk Hcb Hgb Hs. pose proof (pow2_u32 c Hc). pose proof (pow2_u32 k Hk).
  unfold BiModeBP_new. rewrite IntMath.ceilLog2_ok by lia. cbn [mbind outcome_bind].
  rewrite (proj2 (IntMath.isPowerOf2_true 32 (2 ^ c) ltac:(lia) ltac:(split; lia))) by eauto.
  rewrite (proj2 (IntMath.isPowerOf2_true 32 (2 ^ k) ltac:(lia) ltac:(split; lia))) by eauto.
  rewrite threshold_ok by done. cbn [ensure mbind outcome_bind].
  eexists. split; [reflexivity|]. split; [|done]. split; simpl; [exists c|exists k|done|done].
  - rewrite uwrap_small by (split; lia). split; [by apply new_table_ok|done].
  - rewrite uwrap_small by (split; lia). split; [by apply new_table_ok|]. split; [by apply new_table_ok|done].
Qed.

Lemma spec_keeps_wf p p' : wf p -> spec_step p p' -> wf p'.
Proof. exact (spec_step_wf (P := BiModeBP) (H := BPHistory) p p'). Qed.
Lemma specs_keep_wf p p' : wf p -> rtc spec_step p p' -> wf p'.
Proof. exact (spec_wf (P := BiModeBP) (H := BPHistory) p p'). Qed.
Lemma step_keeps_wf p p' : wf p -> reach_step p p' -> wf p'.
Proof. exact (reach_step_wf (P := BiModeBP) (H := BPHistory) p p'). Qed.
Lemma steps_keep_wf p p' : wf p -> rtc reach_step p p' -> wf p'.
Proof. exact (reach_wf (P := BiModeBP) (H := BPHistory) p p'). Qed.

(** Speculation changes the history register only. *)
Lemma spec_step_reg p p' :
  wf p -> spec_step p p' -> p' = p <| globalHistoryReg := globalHistoryReg p' |>.
Proof.
  intros Hw [a h q E | a b h q _ E | a h q _ _ E].
  - injection E as _ <-. by destruct p.
  - simpl in E. destruct (lookup_eq a None p Hw) as (c & t & n & _ & _ & E').
    rewrite E' in E. injection E as _ _ <-. by destruct p.
  - injection E as <-. by destruct p.
Qed.

Lemma spec_reg p p' :
  wf p -> rtc spec_step p p' -> p' = p <| globalHistoryReg := globalHistoryReg p' |>.
Proof.
  intros Hw Hr. revert Hw. induction Hr as [p|p q r Hpq Hqr IH]; intros Hw; [by destruct p|].
  rewrite (IH (spec_keeps_wf p q Hw Hpq)). rewrite (spec_step_reg p q Hw Hpq). by destruct p.
Qed.

(** After the bi-mode predictor has looked a branch up, however many
    younger branches it predicts next, squashing the branch gives back exactly
    the state before the lookup, and resolving it as a misprediction leaves the
    history register the lookup would have left had it predicted the outcome. *)
Theorem bimode_speculation_undone a p b h p1 p2 t :
  0 <= a -> wf p -> lookup a None p = Ok (b, h, p1) -> rtc spec_step p1 p2 ->
  squash h p2 = Ok p /\
  exists p3, update a t h true p2 = Ok p3 /\
    globalHistoryReg p3 = globalHistoryReg (updateGlobalHistReg t p).
Proof.
  intros Ha Hw El Hr. destruct (lookup_eq a None p Hw) as (c & bt & bn & _ & _ & E').
  rewrite E' in El. injection El as <- <- <-. clear E'. rewrite updateGlobalHistReg_eq in Hr.
  pose proof (set_reg_wf p (Z.land (shift_in (if c then bt else bn) (globalHistoryReg p))
    (historyRegisterMask p)) Hw) as Hw1.
  pose proof (spec_reg _ _ Hw1 Hr) as E2. pose proof (specs_keep_wf _ _ Hw1 Hr) as Hw2.
  split.
  - simpl. rewrite E2. by destruct p.
  - destruct (update_wf a t (MkBPHistory (globalHistoryReg p) c bt bn (if c then bt else bn))
      true p2 Hw2) as (p3 & E3 & _ & _ & Hp3).
    exists p3. split; [exact E3|]. rewrite (Hp3 eq_refl), E2. done.
Qed.

Lemma bimode_speculation_undone_witness :
  exists p b h p1 p2, BiModeBP_new 0 4 2 4 2 2 = Ok p /\ lookup 8 None p = Ok (b, h, p1) /\
    lookup 12 None p1 = Ok (false, Some (MkBPHistory 0 false false false false), p2) /\
    squash h p2 = Ok p.
Proof.
  destruct (bimode_new_wf 0 2 2 2 2 2) as (p & E & Hw & _); try lia. vm_compute in E. injection E as <-.
  do 5 eexists. split; [reflexivity|]. split; [reflexivity|]. split; [reflexivity|].
  eapply (bimode_speculation_undone 8 _ false _ _ _ false); [lia|exact Hw|reflexivity|].
  apply rtc_once. apply (SpecLookup _ 12 false (Some (MkBPHistory 0 false false false false)));
    [lia|reflexivity].
Defined.

Lemma narrow_not_above bits thr v i b k :
  table_ok bits k v -> 2 ^ bits - 1 <= thr -> above v i thr = Ok b -> b = false.
Proof.
  intros (_ & _ & Hf) Ht E. unfold above in E. apply bind_ok in E as (c & Ec & E).
  injection E as <-. apply vget_ok in Ec as [_ Ec]. destruct (Forall_lookup_1 _ _ _ _ Hf Ec) as (_ & Hm & Hc).
  unfold read. rewrite Z.gtb_ltb. apply Z.ltb_ge. lia.
Qed.

Lemma reach_bits p p' :
  wf p -> rtc reach_step p p' ->
  choiceCtrBits p' = choiceCtrBits p /\ globalCtrBits p' = globalCtrBits p.
Proof.
  intros Hw Hr. revert Hw. induction Hr as [p|p q r Hpq Hqr IH]; intros Hw; [done|].
  destruct (IH (step_keeps_wf p q Hw Hpq)) as [-> ->].
  destruct Hpq as [q Hq|h q [x ->] E|a t h s q Ha [x ->] E|h q Hh E]; simpl in *.
  - by rewrite (spec_step_reg p q Hw Hq).
  - by injection E as <-.
  - destruct (update_wf a t x s p Hw) as (q' & E' & _ & Hb & _).
    change (update a t (Some x) s p = Ok q) in E. rewrite E in E'. injection E' as <-. exact Hb.
  - by injection E as <-.
Qed.

(** The thresholds of both direction tables are computed from the width
    of the choice counters. A bi-mode predictor built with direction counters
    narrower than its choice counters predicts every conditional branch not
    taken, in every state it can reach. *)
Theorem bimode_narrow_counters_never_taken g c k cb gb s p p' a :
  0 <= c < 32 -> 0 <= k < 32 -> 1 <= gb -> gb < cb -> cb <= 8 -> s < 64 -> 0 <= a ->
  BiModeBP_new g (2 ^ c) cb (2 ^ k) gb s = Ok p -> rtc reach_step p p' ->
  exists h p'', lookup a None p' = Ok (false, h, p'').
Proof.
  intros Hc Hk H1 H2 H3 Hs Ha E Hr. destruct (bimode_new_wf g c k cb gb s) as (q & E' & Hw & Ecb & Egb); try lia.
  rewrite E in E'. injection E' as <-. destruct (reach_bits p p' Hw Hr) as [Bc Bg].
  pose proof (steps_keep_wf p p' Hw Hr) as Hw'.
  destruct (lookup_eq a None p' Hw') as (bc & bt & bn & Et & En & El).
  destruct Hw' as [_ (g' & Ht & Hn & _) [Th1 Th2] _].
  pose proof (Z.pow_le_mono_r 2 gb (cb - 1) ltac:(lia) ltac:(lia)).
  apply (narrow_not_above (globalCtrBits p') _ _ _ _ g') in Et; [|done|rewrite Th1, Bg, Bc, Egb, Ecb; lia].
  apply (narrow_not_above (globalCtrBits p') _ _ _ _ g') in En; [|done|rewrite Th2, Bg, Bc, Egb, Ecb; lia].
  subst bt bn. destruct bc; eauto.
Qed.

Lemma bimode_narrow_counters_never_taken_witness :
  exists p p' h p'', BiModeBP_new 0 (2 ^ 2) 3 (2 ^ 2) 2 2 = Ok p /\
    update 8 true (Some (MkBPHistory 0 true true true true)) false p = Ok p' /\
    lookup 8 None p' = Ok (false, h, p'').
Proof.
  do 2 eexists.
  destruct (bimode_narrow_counters_never_taken 0 2 2 3 2 2 _
    (match update 8 true (Some (MkBPHistory 0 true true true true)) false
       (match BiModeBP_new 0 (2 ^ 2) 3 (2 ^ 2) 2 2 with Ok p => p | Fail _ => MkBiModeBP [] [] [] 0 0 0 0 0 0 0 0 0 0 0 0 0 end)
     with Ok p => p | Fail _ => MkBiModeBP [] [] [] 0 0 0 0 0 0 0 0 0 0 0 0 0 end) 8
    ltac:(lia) ltac:(lia) ltac:(lia) ltac:(lia) ltac:(lia) ltac:(lia) ltac:(lia) eq_refl) as (h & p'' & E).
  - apply rtc_once. eapply (StepUpdate _ 8 true (Some (MkBPHistory 0 true true true true)) false);
      [lia|by eexists|reflexivity].
  - exists h, p''. split; [reflexivity|]. split; [reflexivity|exact E].
Defined.

End BiModeBP.
