(* ===== verification/TournamentBP.v ===== *)
(** The tournament branch predictor of [cpu/pred/tournament.hh] and
    [tournament.cc]. *)

From stdpp Require Import relations.
From S2P Require Import Prelude IntMath SatCounter DirPred.
Import SatCounter DirPred.
Local Open Scope Z_scope.

Module TournamentBP.

Record BPHistory := MkBPHistory {
  h_globalHistory : Z;
  localHistory : Z;
  localPredTaken : bool;
  globalPredTaken : bool;
  globalUsed : bool;
}.

(** The [int] -1, converted to [unsigned] where it is used. *)
Definition invalidPredictorIndex : Z := u32 (-1).

Record TournamentBP := MkTournamentBP {
  localCtrs : list SatCounter;
  localPredictorSize : Z;
  localPredictorMask : Z;
  localCtrBits : Z;
  localHistoryTable : list Z;
  localHistoryTableSize : Z;
  localHistoryBits : Z;
  globalCtrs : list SatCounter;
  globalPredictorSize : Z;
  globalCtrBits : Z;
  globalHistory : Z;
  globalHistoryBits : Z;
  globalHistoryMask : Z;
  choiceHistoryMask : Z;
  historyRegisterMask : Z;
  choiceCtrs : list SatCounter;
  choicePredictorSize : Z;
  choiceCtrBits : Z;
  localThreshold : Z;
  globalThreshold : Z;
  choiceThreshold : Z;
  instShiftAmt : Z;
}.
#[global] Instance eta_TournamentBP : Eta TournamentBP := fun p =>
  MkTournamentBP (localCtrs p) (localPredictorSize p) (localPredictorMask p) (localCtrBits p)
    (localHistoryTable p) (localHistoryTableSize p) (localHistoryBits p) (globalCtrs p)
    (globalPredictorSize p) (globalCtrBits p) (globalHistory p) (globalHistoryBits p)
    (globalHistoryMask p) (choiceHistoryMask p) (historyRegisterMask p) (choiceCtrs p)
    (choicePredictorSize p) (choiceCtrBits p) (localThreshold p) (globalThreshold p)
    (choiceThreshold p) (instShiftAmt p).

Record Params := MkParams {
  p_localPredictorSize : Z;
  p_localCtrBits : Z;
  p_localHistoryTableSize : Z;
  p_globalPredictorSize : Z;
  p_globalCtrBits : Z;
  p_choicePredictorSize : Z;
  p_choiceCtrBits : Z;
  p_instShiftAmt : Z;
}.

Definition TournamentBP_new (garbage : Z) (q : Params) : outcome TournamentBP :=
  localBits ← IntMath.ceilLog2 (p_localPredictorSize q);
  gbits ← IntMath.ceilLog2 (p_globalPredictorSize q);
  cbits ← IntMath.ceilLog2 (p_choicePredictorSize q);
  let histBits := if gbits >? cbits then gbits else cbits in
  _ ← ensure FatalError (IntMath.isPowerOf2 32 (p_localPredictorSize q));
  _ ← ensure FatalError (IntMath.isPowerOf2 32 (p_globalPredictorSize q));
  _ ← ensure FatalError (IntMath.isPowerOf2 32 (p_localHistoryTableSize q));
  let globalMask := u32 (p_globalPredictorSize q - 1) in
  _ ← ensure FatalError (IntMath.isPowerOf2 32 (p_choicePredictorSize q));
  let choiceMask := u32 (p_choicePredictorSize q - 1) in
  let regMask := u32 (BitField.mask histBits) in
  _ ← ensure FatalError (negb (globalMask >? regMask));
  _ ← ensure FatalError (negb (choiceMask >? regMask));
  lthr ← threshold (p_localCtrBits q);
  gthr ← threshold (p_globalCtrBits q);
  cthr ← threshold (p_choiceCtrBits q);
  Ok {| localCtrs := new_table garbage (p_localCtrBits q) (p_localPredictorSize q);
        localPredictorSize := p_localPredictorSize q;
        localPredictorMask := u32 (BitField.mask localBits);
        localCtrBits := p_localCtrBits q;
        localHistoryTable := replicate (Z.to_nat (p_localHistoryTableSize q)) 0;
        localHistoryTableSize := p_localHistoryTableSize q;
        localHistoryBits := localBits;
        globalCtrs := new_table garbage (p_globalCtrBits q) (p_globalPredictorSize q);
        globalPredictorSize := p_globalPredictorSize q;
        globalCtrBits := p_globalCtrBits q;
        globalHistory := 0; globalHistoryBits := histBits;
        globalHistoryMask := globalMask; choiceHistoryMask := choiceMask;
        historyRegisterMask := regMask;
        choiceCtrs := new_table garbage (p_choiceCtrBits q) (p_choicePredictorSize q);
        choicePredictorSize := p_choicePredictorSize q;
        choiceCtrBits := p_choiceCtrBits q;
        localThreshold := lthr; globalThreshold := gthr; choiceThreshold := cthr;
        instShiftAmt := p_instShiftAmt q |}.

Definition calcLocHistIdx (p : TournamentBP) (branch_addr : Z) : outcome Z :=
  x ← shr64 branch_addr (instShiftAmt p);
  Ok (u32 (Z.land x (u32 (localHistoryTableSize p - 1)))).

Definition set_global (taken : bool) (hist : Z) (p : TournamentBP) : TournamentBP :=
  let p := p <| globalHistory := shift_in taken hist |> in
  p <| globalHistory := Z.land (globalHistory p) (historyRegisterMask p) |>.

Definition updateGlobalHistTaken (p : TournamentBP) : TournamentBP :=
  set_global true (globalHistory p) p.
Definition updateGlobalHistNotTaken (p : TournamentBP) : TournamentBP :=
  set_global false (globalHistory p) p.

Definition updateLocalHistTaken (local_history_idx : Z) (p : TournamentBP) : outcome TournamentBP :=
  x ← vget (localHistoryTable p) local_history_idx;
  v ← vset (localHistoryTable p) local_history_idx (shift_in true x);
  Ok (p <| localHistoryTable := v |>).
Definition updateLocalHistNotTaken (local_history_idx : Z) (p : TournamentBP)
  : outcome TournamentBP :=
  x ← vget (localHistoryTable p) local_history_idx;
  v ← vset (localHistoryTable p) local_history_idx (shift_in false x);
  Ok (p <| localHistoryTable := v |>).

Definition btbUpdate (branch_addr : Z) (bp_history : option BPHistory) (p : TournamentBP)
  : outcome TournamentBP :=
  local_history_idx ← calcLocHistIdx p branch_addr;
  let p := p <| globalHistory := u32 (Z.land (globalHistory p)
                  (Z.land (historyRegisterMask p) (unot 64 1))) |> in
  x ← vget (localHistoryTable p) local_history_idx;
  v ← vset (localHistoryTable p) local_history_idx
        (u32 (Z.land x (Z.land (localPredictorMask p) (unot 64 1))));
  Ok (p <| localHistoryTable := v |>).

Definition lookup (branch_addr : Z) (bp_history : option BPHistory) (p : TournamentBP)
  : outcome (bool * option BPHistory * TournamentBP) :=
  local_history_idx ← calcLocHistIdx p branch_addr;
  x ← vget (localHistoryTable p) local_history_idx;
  let local_predictor_idx := Z.land x (localPredictorMask p) in
  local_prediction ← above (localCtrs p) local_predictor_idx (localThreshold p);
  global_prediction ← above (globalCtrs p) (Z.land (globalHistory p) (globalHistoryMask p))
                        (globalThreshold p);
  choice_prediction ← above (choiceCtrs p) (Z.land (globalHistory p) (choiceHistoryMask p))
                        (choiceThreshold p);
  let history := MkBPHistory (globalHistory p) local_predictor_idx local_prediction
                   global_prediction choice_prediction in
  _ ← ensure AssertFailed (local_history_idx <? localHistoryTableSize p);
  if (choice_prediction : bool) then
    if (global_prediction : bool) then
      p ← updateLocalHistTaken local_history_idx (updateGlobalHistTaken p);
      Ok (true, Some history, p)
    else
      p ← updateLocalHistNotTaken local_history_idx (updateGlobalHistNotTaken p);
      Ok (false, Some history, p)
  else
    if (local_prediction : bool) then
      p ← updateLocalHistTaken local_history_idx (updateGlobalHistTaken p);
      Ok (true, Some history, p)
    else
      p ← updateLocalHistNotTaken local_history_idx (updateGlobalHistNotTaken p);
      Ok (false, Some history, p).

Definition uncondBranch (pc : Z) (bp_history : option BPHistory) (p : TournamentBP)
  : outcome (option BPHistory * TournamentBP) :=
  let history := MkBPHistory (globalHistory p) invalidPredictorIndex true true true in
  Ok (Some history, updateGlobalHistTaken p).

(** The part of [update] that trains the counters. *)
Definition train_counters (taken : bool) (history : BPHistory) (old_local_pred_index : Z)
  (old_local_pred_valid : bool) (p : TournamentBP) : outcome TournamentBP :=
  p ← (if negb (eqb (localPredTaken history) (globalPredTaken history)) then
         let choice_predictor_idx := Z.land (h_globalHistory history) (choiceHistoryMask p) in
         if eqb (localPredTaken history) taken then
           v ← train_at false (choiceCtrs p) choice_predictor_idx;
           Ok (p <| choiceCtrs := v |>)
         else if eqb (globalPredTaken history) taken then
           v ← train_at true (choiceCtrs p) choice_predictor_idx;
           Ok (p <| choiceCtrs := v |>)
         else Ok p
       else Ok p);
  let global_predictor_idx := Z.land (h_globalHistory history) (globalHistoryMask p) in
  v ← train_at taken (globalCtrs p) global_predictor_idx;
  let p := p <| globalCtrs := v |> in
  if old_local_pred_valid
  then v ← train_at taken (localCtrs p) old_local_pred_index; Ok (p <| localCtrs := v |>)
  else Ok p.

Definition update (branch_addr : Z) (taken : bool) (bp_history : option BPHistory)
  (squashed : bool) (p : TournamentBP) : outcome TournamentBP :=
  local_history_idx ← calcLocHistIdx p branch_addr;
  local_predictor_hist ← vget (localHistoryTable p) local_history_idx;
  p ← match bp_history with
      | None => Ok p
      | Some history =>
          let old_local_pred_index := Z.land (localHistory history) (localPredictorMask p) in
          let old_local_pred_valid := negb (localHistory history =? invalidPredictorIndex) in
          _ ← ensure AssertFailed (old_local_pred_index <? localPredictorSize p);
          let historyPred := if globalUsed history then globalPredTaken history
                             else localPredTaken history in
          p ← (if negb (eqb historyPred taken) || negb squashed
               then train_counters taken history old_local_pred_index old_local_pred_valid p
               else Ok p);
          if squashed then
            let p := set_global taken (h_globalHistory history) p in
            if old_local_pred_valid
            then v ← vset (localHistoryTable p) local_history_idx
                       (shift_in taken (localHistory history));
                 Ok (p <| localHistoryTable := v |>)
            else Ok p
          else Ok p
      end;
  _ ← ensure AssertFailed (local_history_idx <? localHistoryTableSize p);
  Ok p.

(** [retireSquashed] only frees the record. *)
Definition retireSquashed (bp_history : option BPHistory) (p : TournamentBP)
  : outcome TournamentBP := Ok p.

(** A null history is dereferenced. *)
Definition squash (bp_history : option BPHistory) (p : TournamentBP) : outcome TournamentBP :=
  match bp_history with
  | Some history => Ok (p <| globalHistory := h_globalHistory history |>)
  | None => Fail Undefined
  end.

#[global] Instance tournament_dirpred : DirPred TournamentBP BPHistory := {
  dp_uncondBranch := uncondBranch;
  dp_squash := squash;
  dp_lookup := lookup;
  dp_btbUpdate := btbUpdate;
  dp_update := update;
  dp_retireSquashed := retireSquashed;
}.

(** ** Properties *)

(** Tables of [2^l] local counters, [2^t] local histories, [2^g] global and
    [2^c] choice counters, with their masks. *)
Record geo (l t g c : Z) (p : TournamentBP) : Prop := {
  geo_local : table_ok (localCtrBits p) l (localCtrs p);
  geo_global : table_ok (globalCtrBits p) g (globalCtrs p);
  geo_choice : table_ok (choiceCtrBits p) c (choiceCtrs p);
  geo_t : 0 <= t < 32;
  geo_hist : Z.of_nat (length (localHistoryTable p)) = 2 ^ t;
  geo_lsize : localPredictorSize p = 2 ^ l;
  geo_tsize : localHistoryTableSize p = 2 ^ t;
  geo_lmask : localPredictorMask p = 2 ^ l - 1;
  geo_gmask : globalHistoryMask p = 2 ^ g - 1;
  geo_cmask : choiceHistoryMask p = 2 ^ c - 1;
  geo_shift : instShiftAmt p < 64;
}.
Definition wf (p : TournamentBP) : Prop := exists l t g c, geo l t g c p.

(** The index [calcLocHistIdx] returns for a shift it defines. *)
Definition locIdx (p : TournamentBP) (a : Z) : Z :=
  u32 (Z.land (Z.shiftr a (instShiftAmt p)) (u32 (localHistoryTableSize p - 1))).

(** The two histories are what speculation changes. *)
Definition with_hist (p : TournamentBP) (gh : Z) (lt : list Z) : TournamentBP :=
  p <| globalHistory := gh |> <| localHistoryTable := lt |>.

Section geometry.
Context {l t g c : Z}.

Lemma with_hist_geo p gh lt :
  geo l t g c p -> length lt = length (localHistoryTable p) -> geo l t g c (with_hist p gh lt).
Proof. intros [] E. split; simpl; try done. by rewrite E. Qed.

Lemma set_global_eq b h p :
  set_global b h p =
    with_hist p (Z.land (shift_in b h) (historyRegisterMask p)) (localHistoryTable p).
Proof. by destruct p. Qed.

Lemma calcLocHistIdx_ok p a : geo l t g c p -> calcLocHistIdx p a = Ok (locIdx p a).
Proof. intros []. unfold calcLocHistIdx. by rewrite shr64_ok. Qed.

Lemma loc_idx_range p a : geo l t g c p -> 0 <= locIdx p a < 2 ^ t.
Proof.
  intros []. unfold locIdx. rewrite geo_tsize0. pose proof (pow2_u32 t geo_t0).
  rewrite (uwrap_small 32 (2 ^ t - 1)) by (split; lia). by apply masked_index.
Qed.

Lemma loc_hist p a : geo l t g c p -> exists x, vget (localHistoryTable p) (locIdx p a) = Ok x.
Proof. intros H. pose proof (loc_idx_range p a H). apply vget_lt. rewrite (geo_hist _ _ _ _ p H). lia. Qed.

Lemma loc_hist_set p a x : geo l t g c p ->
  vset (localHistoryTable p) (locIdx p a) x =
    Ok (<[Z.to_nat (locIdx p a) := x]> (localHistoryTable p)).
Proof. intros H. pose proof (loc_idx_range p a H). apply vset_lt. rewrite (geo_hist _ _ _ _ p H). lia. Qed.

(** A lookup: the history it records and the histories it shifts. *)
Lemma tournament_lookup_eq a h p :
  geo l t g c p ->
  exists x lp gp cp, vget (localHistoryTable p) (locIdx p a) = Ok x /\
    let b : bool := if cp : bool then gp else lp in
    lookup a h p = Ok (b,
      Some (MkBPHistory (globalHistory p) (Z.land x (2 ^ l - 1)) lp gp cp),
      with_hist p (Z.land (shift_in b (globalHistory p)) (historyRegisterMask p))
        (<[Z.to_nat (locIdx p a) := shift_in b x]> (localHistoryTable p))).
Proof.
  intros H. destruct (loc_hist p a H) as [x Ex]. pose proof (loc_idx_range p a H) as Hi.
  destruct (above_ok _ _ _ (Z.land x (2 ^ l - 1)) (localThreshold p) (geo_local _ _ _ _ p H)) as [lp El].
  { apply land_mask_range. apply (geo_local _ _ _ _ p H). }
  destruct (above_ok _ _ _ (Z.land (globalHistory p) (2 ^ g - 1)) (globalThreshold p)
    (geo_global _ _ _ _ p H)) as [gp Eg].
  { apply land_mask_range. apply (geo_global _ _ _ _ p H). }
  destruct (above_ok _ _ _ (Z.land (globalHistory p) (2 ^ c - 1)) (choiceThreshold p)
    (geo_choice _ _ _ _ p H)) as [cp Ec].
  { apply land_mask_range. apply (geo_choice _ _ _ _ p H). }
  exists x, lp, gp, cp. split; [done|]. cbv zeta. unfold lookup.
  rewrite calcLocHistIdx_ok by done. cbn [mbind outcome_bind]. rewrite Ex. cbn [mbind outcome_bind].
  rewrite (geo_lmask _ _ _ _ p H), (geo_gmask _ _ _ _ p H), (geo_cmask _ _ _ _ p H).
  rewrite El, Eg, Ec. cbn [mbind outcome_bind].
  rewrite (geo_tsize _ _ _ _ p H), (proj2 (Z.ltb_lt _ (2 ^ t))) by lia. cbn [ensure mbind outcome_bind].
  unfold updateLocalHistTaken, updateLocalHistNotTaken, updateGlobalHistTaken, updateGlobalHistNotTaken.
  rewrite !set_global_eq. cbn [with_hist].
  change (localHistoryTable (with_hist p ?gh ?lt)) with lt.
  destruct cp, gp, lp; rewrite Ex; cbn [mbind outcome_bind]; rewrite loc_hist_set by done; by destruct p.
Qed.

(** [q] has the histories and the shape of [p]; its counters may differ. *)
Record retrained (p q : TournamentBP) : Prop := {
  rt_global : globalHistory q = globalHistory p;
  rt_local : localHistoryTable q = localHistoryTable p;
  rt_mask : historyRegisterMask q = historyRegisterMask p;
  rt_index a : locIdx q a = locIdx p a;
}.

Lemma retrained_refl p : retrained p p.
Proof. by split. Qed.
Lemma retrained_trans p q r : retrained p q -> retrained q r -> retrained p r.
Proof. intros [H1 H2 H3 H4] [E1 E2 E3 E4]. split; congruence. Qed.

Lemma set_choice_geo p v : geo l t g c p -> table_ok (choiceCtrBits p) c v ->
  geo l t g c (p <| choiceCtrs := v |>) /\ retrained p (p <| choiceCtrs := v |>).
Proof. intros [] H. split; by split. Qed.
Lemma set_globals_geo p v : geo l t g c p -> table_ok (globalCtrBits p) g v ->
  geo l t g c (p <| globalCtrs := v |>) /\ retrained p (p <| globalCtrs := v |>).
Proof. intros [] H. split; by split. Qed.
Lemma set_locals_geo p v : geo l t g c p -> table_ok (localCtrBits p) l v ->
  geo l t g c (p <| localCtrs := v |>) /\ retrained p (p <| localCtrs := v |>).
Proof. intros [] H. split; by split. Qed.

Lemma train_choice p b h :
  geo l t g c p ->
  exists v, train_at b (choiceCtrs p) (Z.land h (choiceHistoryMask p)) = Ok v /\
    geo l t g c (p <| choiceCtrs := v |>) /\ retrained p (p <| choiceCtrs := v |>).
Proof.
  intros H. rewrite (geo_cmask _ _ _ _ p H). pose proof (geo_choice _ _ _ _ p H) as Ht.
  destruct (train_at_ok _ _ b _ (Z.land h (2 ^ c - 1)) Ht) as (v & E & Hv).
  - apply land_mask_range, Ht.
  - exists v. split; [done|]. by apply set_choice_geo.
Qed.

Lemma train_counters_geo b h i valid p :
  geo l t g c p -> 0 <= i < 2 ^ l ->
  exists p', train_counters b h i valid p = Ok p' /\ geo l t g c p' /\ retrained p p'.
Proof.
  intros H Hi. unfold train_counters.
  destruct (train_choice p true (h_globalHistory h) H) as (v1 & E1 & G1 & R1).
  destruct (train_choice p false (h_globalHistory h) H) as (v2 & E2 & G2 & R2).
  rewrite E1, E2. cbn [mbind outcome_bind].
  match goal with |- context [mbind _ ?m] => assert (exists q, m = Ok q /\ geo l t g c q /\ retrained p q)
    as (q & -> & Gq & Rq) end.
  { pose proof (retrained_refl p). split_ifs; eauto. }
  cbn [mbind outcome_bind]. rewrite (geo_gmask _ _ _ _ q Gq).
  pose proof (geo_global _ _ _ _ q Gq) as Hg.
  destruct (train_at_ok _ _ b _ (Z.land (h_globalHistory h) (2 ^ g - 1)) Hg) as (v & -> & Hv).
  { apply land_mask_range, Hg. }
  destruct (set_globals_geo q v Gq Hv) as [G3 R3]. cbn [mbind outcome_bind].
  pose proof (retrained_trans _ _ _ Rq R3) as R5. destruct valid; [|by eauto].
  destruct (train_at_ok _ _ b _ i (geo_local _ _ _ _ _ G3) Hi) as (w & -> & Hw).
  destruct (set_locals_geo _ w G3 Hw) as [G4 R4]. cbn [mbind outcome_bind].
  pose proof (retrained_trans _ _ _ R5 R4). by eauto.
Qed.

(** The counters [update] trains before it repairs the histories. *)
Definition trained (taken : bool) (h : BPHistory) (squashed : bool) (p : TournamentBP)
  : outcome TournamentBP :=
  if negb (eqb (if globalUsed h then globalPredTaken h else localPredTaken h) taken) || negb squashed
  then train_counters taken h (Z.land (localHistory h) (2 ^ l - 1))
         (negb (localHistory h =? invalidPredictorIndex)) p
  else Ok p.

Lemma trained_geo b h s p :
  geo l t g c p -> exists q, trained b h s p = Ok q /\ geo l t g c q /\ retrained p q.
Proof.
  intros H. unfold trained. destruct (_ || _).
  - apply train_counters_geo; [done|]. apply land_mask_range, (geo_local _ _ _ _ p H).
  - eauto using retrained_refl.
Qed.

(** The histories after a repair. *)
Definition repaired (a : Z) (b : bool) (h : BPHistory) (q : TournamentBP) : TournamentBP :=
  with_hist q (Z.land (shift_in b (h_globalHistory h)) (historyRegisterMask q))
    (if localHistory h =? invalidPredictorIndex then localHistoryTable q
     else <[Z.to_nat (locIdx q a) := shift_in b (localHistory h)]> (localHistoryTable q)).

Lemma update_trained a b h s p q :
  geo l t g c p -> trained b h s p = Ok q -> geo l t g c q -> retrained p q ->
  update a b (Some h) s p = Ok (if s then repaired a b h q else q).
Proof.
  intros H Et Gq R. unfold update. rewrite calcLocHistIdx_ok by done.
  cbn [mbind outcome_bind]. destruct (loc_hist p a H) as [x ->]. cbn [mbind outcome_bind].
  rewrite (geo_lmask _ _ _ _ p H), (geo_lsize _ _ _ _ p H).
  pose proof (land_mask_range (localHistory h) l ltac:(apply (geo_local _ _ _ _ p H))) as Hi.
  rewrite (proj2 (Z.ltb_lt _ (2 ^ l))) by lia. cbn [ensure mbind outcome_bind].
  unfold trained in Et. rewrite Et. cbn [mbind outcome_bind]. rewrite set_global_eq.
  rewrite <- (rt_index p q R a). pose proof (loc_idx_range q a Gq) as Hr.
  set (gh := Z.land _ (historyRegisterMask q)).
  change (localHistoryTable (with_hist q gh (localHistoryTable q))) with (localHistoryTable q).
  rewrite loc_hist_set by done. cbn [mbind outcome_bind]. unfold repaired. fold gh.
  destruct s, (localHistory h =? invalidPredictorIndex); cbn [negb mbind outcome_bind].
  all: cbn [with_hist localHistoryTableSize]; simpl localHistoryTableSize.
  all: rewrite (geo_tsize _ _ _ _ q Gq), (proj2 (Z.ltb_lt _ (2 ^ t))) by lia; by destruct q.
Qed.

End geometry.

#[global] Program Instance tournament_dirpred_ok : DirPredOk TournamentBP BPHistory := {
  dp_wf := wf;
  dp_hist h := is_Some h;
}.
Next Obligation.
  intros a p (l & t & g & c & H). do 2 eexists. split; [reflexivity|]. split; [|done].
  exists l, t, g, c. unfold updateGlobalHistTaken. rewrite set_global_eq. by apply with_hist_geo.
Qed.
Next Obligation.
  intros h p (l & t & g & c & H) [x ->]. eexists. split; [reflexivity|].
  exists l, t, g, c. by apply (with_hist_geo p (h_globalHistory x) (localHistoryTable p)).
Qed.
Next Obligation.
  intros a p _ (l & t & g & c & H). destruct (tournament_lookup_eq a None p H) as (x & ? & ? & ? & _ & E).
  do 3 eexists. split; [exact E|]. split; [|done]. exists l, t, g, c.
  apply with_hist_geo; [done|]. by rewrite length_insert.
Qed.
Next Obligation.
  intros a h p _ (l & t & g & c & H) _. simpl. unfold btbUpdate.
  rewrite (calcLocHistIdx_ok p a H). cbn [mbind outcome_bind].
  set (gh := u32 _). change (localHistoryTable (p <| globalHistory := gh |>)) with (localHistoryTable p).
  destruct (loc_hist p a H) as [x ->]. cbn [mbind outcome_bind]. rewrite loc_hist_set by done.
  cbn [mbind outcome_bind]. eexists. split; [reflexivity|]. exists l, t, g, c.
  change (geo l t g c (with_hist p gh (<[Z.to_nat (locIdx p a) := u32 (Z.land x
    (Z.land (localPredictorMask p) (unot 64 1)))]> (localHistoryTable p)))).
  apply with_hist_geo; [done|]. by rewrite length_insert.
Qed.
Next Obligation.
  intros a b h s p _ (l & t & g & c & H) [x ->]. destruct (trained_geo b x s p H) as (q & E & Gq & R).
  eexists. split; [exact (update_trained a b x s p q H E Gq R)|]. exists l, t, g, c.
  destruct s; [|done]. apply with_hist_geo; [done|]. destruct (_ =? _); by rewrite ?length_insert.
Qed.
Next Obligation. intros h p Hw _. by eexists. Qed.

(** Speculation changes the two histories only. *)
Lemma spec_step_hist p p' :
  wf p -> spec_step p p' -> p' = with_hist p (globalHistory p') (localHistoryTable p').
Proof.
  intros (l & t & g & c & H) [a h q E | a b h q _ E | a h q _ _ E].
  - injection E as _ <-. unfold updateGlobalHistTaken. rewrite set_global_eq. by destruct p.
  - simpl in E. destruct (tournament_lookup_eq a None p H) as (x & ? & ? & ? & _ & E').
    rewrite E' in E. injection E as _ _ <-. by destruct p.
  - simpl in E. unfold btbUpdate in E. apply bind_ok in E as (i & _ & E).
    apply bind_ok in E as (x & _ & E).
    apply bind_ok in E as (v & _ & E). injection E as <-. by destruct p.
Qed.

Lemma spec_keeps_geo p p' : wf p -> spec_step p p' -> wf p'.
Proof. exact (spec_step_wf (P := TournamentBP) (H := BPHistory) p p'). Qed.

Lemma spec_hist p p' :
  wf p -> rtc spec_step p p' ->
  wf p' /\ p' = with_hist p (globalHistory p') (localHistoryTable p').
Proof.
  intros Hw Hr. revert Hw. induction Hr as [p|p q r Hpq Hqr IH]; intros Hw; [by destruct p|].
  destruct (IH (spec_keeps_geo p q Hw Hpq)) as [Hr E]. split; [done|].
  rewrite E, (spec_step_hist p q Hw Hpq). by destruct p.
Qed.

Lemma pow2_mask_inj a b : 0 <= a -> 0 <= b -> 2 ^ a - 1 = 2 ^ b - 1 -> a = b.
Proof. intros Ha Hb E. apply (Z.pow_inj_r 2); lia. Qed.

(** A recorded local index is never the invalid one. *)
Lemma masked_valid x l :
  0 <= l < 32 -> (Z.land x (2 ^ l - 1) =? invalidPredictorIndex) = false.
Proof.
  intros Hl. apply Z.eqb_neq. pose proof (land_mask_range x l ltac:(lia)).
  pose proof (Z.pow_le_mono_r 2 l 31 ltac:(lia) ltac:(lia)).
  change invalidPredictorIndex with 4294967295. change (2 ^ 31) with 2147483648 in *. lia.
Qed.

Lemma mask_log k : 0 <= k < 32 -> u32 (BitField.mask k) = 2 ^ k - 1.
Proof.
  intros Hk. rewrite BitField.mask_ones, <- pow2_minus_1 by lia. pose proof (pow2_u32 k Hk).
  apply uwrap_small. split; lia.
Qed.

Lemma pow2_isPow2 k : 0 <= k < 32 -> IntMath.isPowerOf2 32 (2 ^ k) = true.
Proof.
  intros Hk. pose proof (pow2_u32 k Hk).
  apply (proj2 (IntMath.isPowerOf2_true 32 (2 ^ k) ltac:(lia) ltac:(split; lia))). eauto.
Qed.

Lemma tournament_new_wf g0 l lb t g gb c cb s :
  0 <= l < 32 -> 0 <= t < 32 -> 0 <= g < 32 -> 0 <= c < 32 ->
  1 <= lb <= 8 -> 1 <= gb <= 8 -> 1 <= cb <= 8 -> s < 64 ->
  exists p, TournamentBP_new g0 (MkParams (2 ^ l) lb (2 ^ t) (2 ^ g) gb (2 ^ c) cb s) = Ok p /\ wf p.
Proof.
  intros Hl Ht Hg Hc Hlb Hgb Hcb Hs. unfold TournamentBP_new. simpl.
  pose proof (pow2_u32 l Hl). pose proof (pow2_u32 t Ht).
  pose proof (pow2_u32 g Hg). pose proof (pow2_u32 c Hc).
  rewrite !IntMath.ceilLog2_ok by lia. cbn [mbind outcome_bind].
  rewrite !Z.log2_up_pow2, !pow2_isPow2, !threshold_ok by lia. cbn [ensure mbind outcome_bind].
  set (m := if g >? c then g else c).
  assert (0 <= m < 32 /\ g <= m /\ c <= m) as (Hm & Hgm & Hcm)
    by (unfold m; rewrite Z.gtb_ltb; destruct (Z.ltb_spec c g); lia).
  rewrite !mask_log, !(uwrap_small 32 (_ - 1)) by (split; lia || lia).
  pose proof (Z.pow_le_mono_r 2 g m). pose proof (Z.pow_le_mono_r 2 c m).
  rewrite !Z.gtb_ltb, !(proj2 (Z.ltb_ge _ _)) by lia. cbn [negb ensure mbind outcome_bind].
  eexists. split; [reflexivity|]. exists l, t, g, c.
  split; simpl; try done; try (by apply new_table_ok). rewrite length_replicate. lia.
Qed.

(** C38: after the tournament predictor has looked a branch up, however many
    younger branches it predicts next, squashing the branch gives back the
    state before the lookup but for the local history table, which keeps the
    speculative outcomes; resolving the branch as a misprediction repairs both
    histories: the global register and the branch's local history become what
    a correct prediction would have left, in the bits the predictor uses.
    The tables have power-of-two sizes, as the constructor demands, and the
    addresses are shifted by less than their width ([wf]). *)
Theorem tournament_speculation_undone a p b h p1 p2 t :
  wf p -> lookup a None p = Ok (b, h, p1) -> rtc spec_step p1 p2 ->
  squash h p2 = Ok (p <| localHistoryTable := localHistoryTable p2 |>) /\
  exists p3 i x y, update a t h true p2 = Ok p3 /\ calcLocHistIdx p a = Ok i /\
    globalHistory p3 = Z.land (shift_in t (globalHistory p)) (historyRegisterMask p) /\
    vget (localHistoryTable p) i = Ok x /\
    vget (localHistoryTable p3) i = Ok y /\
    Z.land y (localPredictorMask p) = Z.land (shift_in t x) (localPredictorMask p).
Proof.
  intros (l & tt & g & c & H) El Hr.
  destruct (tournament_lookup_eq a None p H) as (x & lp & gp & cp & Ex & E'). rewrite E' in El. clear E'.
  injection El as <- <- <-.
  match type of Hr with rtc _ (with_hist p ?gh ?lt) _ => assert (geo l tt g c (with_hist p gh lt)) as H1 end.
  { apply with_hist_geo; [done|]. by rewrite length_insert. }
  assert (wf (with_hist p (globalHistory p2) (localHistoryTable p2)) /\
    p2 = with_hist p (globalHistory p2) (localHistoryTable p2)) as [Hw2 E2].
  { destruct (spec_hist _ _ (ex_intro _ l (ex_intro _ tt (ex_intro _ g (ex_intro _ c H1)))) Hr) as [Hw2 E2].
    rewrite E2 in Hw2. split; [by destruct p|]. rewrite E2. by destruct p. }
  split; [rewrite E2; by destruct p|]. rewrite <- E2 in Hw2. destruct Hw2 as (l' & t' & g' & c' & H2).
  assert (l' = l) as ->.
  { pose proof (geo_lmask _ _ _ _ p2 H2) as M. rewrite E2 in M. simpl in M.
    rewrite (geo_lmask _ _ _ _ p H) in M. apply pow2_mask_inj; [| |done].
    - apply (geo_local _ _ _ _ p2 H2).
    - apply (geo_local _ _ _ _ p H). }
  set (hh := MkBPHistory _ _ _ _ _) in *.
  destruct (trained_geo t hh true p2 H2) as (q & Eq & Gq & R).
  pose proof (geo_local _ _ _ _ p H) as [Hl _].
  pose proof (masked_valid x l Hl) as Hv.
  assert (locIdx q a = locIdx p a) as Ei by (rewrite (rt_index _ _ R); by rewrite E2).
  pose proof (loc_idx_range q a Gq) as Hr'. rewrite Ei in Hr'.
  exists (repaired a t hh q), (locIdx p a), x, (shift_in t (Z.land x (2 ^ l - 1))).
  split; [exact (update_trained a t hh true p2 q H2 Eq Gq R)|].
  split; [by apply (calcLocHistIdx_ok (l := l) (t := tt) (g := g) (c := c))|]. unfold repaired.
  change (localHistory hh) with (Z.land x (2 ^ l - 1)). rewrite Hv. simpl.
  split_and!; [by rewrite (rt_mask _ _ R), E2|done| |].
  - rewrite Ei. apply vget_ok. split; [lia|]. apply list_lookup_insert_eq.
    pose proof (geo_hist _ _ _ _ q Gq). lia.
  - rewrite (geo_lmask _ _ _ _ p H). apply shift_in_masked. lia.
Qed.

Lemma tournament_speculation_undone_witness :
  exists p b h p1 p2, TournamentBP_new 0 (MkParams 4 2 2 4 2 4 2 2) = Ok p /\
    lookup 8 None p = Ok (b, h, p1) /\ uncondBranch 12 None p1 = Ok p2 /\
    squash h (p2.2) = Ok (p <| localHistoryTable := localHistoryTable p2.2 |>).
Proof.
  destruct (tournament_new_wf 0 2 2 1 2 2 2 2 2) as (p & E & Hw); try lia.
  vm_compute in E. injection E as <-.
  do 5 eexists. split; [reflexivity|]. split; [reflexivity|]. split; [reflexivity|].
  eapply (tournament_speculation_undone 8 _ false _ _ _ false); [exact Hw|reflexivity|].
  apply rtc_once. eapply (SpecUncond _ 12). reflexivity.
Defined.

End TournamentBP.
