(* ===== verification/BPredUnit.v ===== *)
(** The branch prediction unit of [cpu/pred/bpred_unit.hh] and
    [bpred_unit.cc]: it composes a direction predictor (through the interface
    of [DirPred.v]), the branch target buffer and one return address stack per
    thread, and keeps the record of the branches in flight that lets it undo
    a misprediction. *)

From Stdlib Require Import Sorting.Sorted.
From S2P Require Import Prelude SatCounter DirPred LocalBP DefaultBTB ReturnAddrStack.
Import DirPred.
Local Open Scope Z_scope.

Module BPredUnit.

(** What the unit uses of the instruction set chosen by the build
    ([TheISA]): its program counter states, the address of one, the states
    built from an address and by [set(0)], and the target of a return. *)
Class ISA (PC : Type) := {
  instAddr : PC -> Z;
  pc_default : PC;
  pc_of : Z -> PC;
  pc_set0 : PC -> PC;
  buildRetPC : PC -> PC -> PC;
}.

Section unit.
Context {PC P H : Type} `{!ISA PC, !DirPred P H}.

(** The queries on a [StaticInst]; [advancePC] is [TheISA::advancePC] with the
    instruction, and [branchTarget] the target of a direct branch. *)
Record StaticInst := MkStaticInst {
  isUncondCtrl : bool;
  isReturn : bool;
  isCall : bool;
  isDirectCtrl : bool;
  advancePC : PC -> PC;
  branchTarget : PC -> PC;
}.

Record PredictorHistory := MkPredictorHistory {
  seqNum : Z;
  pc : Z;
  bpHistory : option H;
  RASTarget : PC;
  RASIndex : Z;
  h_tid : Z;
  predTaken : bool;
  h_usedRAS : bool;
  pushedRAS : bool;
  wasCall : bool;
  wasReturn : bool;
  wasSquashed : bool;
}.
#[global] Instance eta_PredictorHistory : Eta PredictorHistory := fun r =>
  MkPredictorHistory (seqNum r) (pc r) (bpHistory r) (RASTarget r) (RASIndex r) (h_tid r)
    (predTaken r) (h_usedRAS r) (pushedRAS r) (wasCall r) (wasReturn r) (wasSquashed r).
Definition PredictorHistory_new (seq_num instPC : Z) (pred_taken : bool) (bp_history : option H)
  (tid : Z) : PredictorHistory :=
  MkPredictorHistory seq_num instPC bp_history (pc_of 0) 0 tid pred_taken
    false false false false false.

(** [dir] is the state of the derived class. The deque [predHist[tid]] is a
    list with its front first. *)
Record BPredUnit := MkBPredUnit {
  numThreads : Z;
  predHist : list (list PredictorHistory);
  BTB : DefaultBTB.BTB (PC := PC);
  RAS : list (ReturnAddrStack.RAS (PC := PC));
  dir : P;
  lookups : Z;
  condPredicted : Z;
  condIncorrect : Z;
  BTBLookups : Z;
  BTBHits : Z;
  usedRAS : Z;
  RASIncorrect : Z;
}.
#[global] Instance eta_BPredUnit : Eta BPredUnit := fun u =>
  MkBPredUnit (numThreads u) (predHist u) (BTB u) (RAS u) (dir u) (lookups u) (condPredicted u)
    (condIncorrect u) (BTBLookups u) (BTBHits u) (usedRAS u) (RASIncorrect u).

Definition BPredUnit_new (threads BTBEntries BTBTagSize instShiftAmt RASSize : Z) (dir : P)
  : outcome BPredUnit :=
  b ← DefaultBTB.DefaultBTB_new (pc_of 0) BTBEntries BTBTagSize instShiftAmt;
  let n := Z.to_nat threads in
  Ok (MkBPredUnit threads (replicate n []) b
        (replicate n (ReturnAddrStack.init pc_default pc_set0 RASSize)) dir 0 0 0 0 0 0 0).

Definition drainSanityCheck (u : BPredUnit) : outcome unit :=
  ensure AssertFailed (forallb (fun ph => match ph with [] => true | _ => false end) (predHist u)).

Definition BTBValid (instPC : Z) (u : BPredUnit) : outcome bool :=
  DefaultBTB.valid instPC 0 (BTB u).
Definition BTBLookup (instPC : Z) (u : BPredUnit) : outcome PC :=
  DefaultBTB.lookup (pc_of 0) instPC 0 (BTB u).
Definition BTBUpdate (instPC : Z) (target : PC) (u : BPredUnit) : outcome BPredUnit :=
  b ← DefaultBTB.update instPC target 0 (BTB u); Ok (u <| BTB := b |>).

(** Updates of one thread's stack and history. *)
Definition set_ras (tid : Z) (r : ReturnAddrStack.RAS) (u : BPredUnit) : outcome BPredUnit :=
  v ← vset (RAS u) tid r; Ok (u <| RAS := v |>).
Definition set_hist (tid : Z) (l : list PredictorHistory) (u : BPredUnit) : outcome BPredUnit :=
  v ← vset (predHist u) tid l; Ok (u <| predHist := v |>).

(** [RAS[tid].pop()], [push] and [restore]. *)
Definition ras_pop (tid : Z) (u : BPredUnit) : outcome BPredUnit :=
  r ← vget (RAS u) tid; set_ras tid (ReturnAddrStack.pop r) u.
Definition ras_push (tid : Z) (x : PC) (u : BPredUnit) : outcome BPredUnit :=
  r ← vget (RAS u) tid; r ← ReturnAddrStack.push x r; set_ras tid r u.
Definition ras_restore (tid idx : Z) (x : PC) (u : BPredUnit) : outcome BPredUnit :=
  r ← vget (RAS u) tid; r ← ReturnAddrStack.restore idx x r; set_ras tid r u.

(** The prediction of a return from the stack: the target and the record. *)
Definition predict_return (tid : Z) (at_pc : PC) (rec : PredictorHistory) (u : BPredUnit)
  : outcome (PC * PredictorHistory * BPredUnit) :=
  let u := u <| usedRAS ::= Z.add 1 |> in
  r ← vget (RAS u) tid;
  rasTop ← ReturnAddrStack.top r;
  let rec := rec <| h_usedRAS := true |> <| RASIndex := ReturnAddrStack.topIdx r |>
               <| RASTarget := rasTop |> in
  u ← ras_pop tid u;
  Ok (buildRetPC at_pc rasTop, rec, u).

(** Asking the direction predictor: [uncondBranch] or [lookup]. *)
Definition predict_direction (inst : StaticInst) (uncond_pc cond_pc : Z) (u : BPredUnit)
  : outcome (bool * option H * BPredUnit) :=
  if isUncondCtrl inst then
    '(h, d) ← dp_uncondBranch uncond_pc None (dir u);
    Ok (true, h, u <| dir := d |>)
  else
    let u := u <| condPredicted ::= Z.add 1 |> in
    '(b, h, d) ← dp_lookup cond_pc None (dir u);
    Ok (b, h, u <| dir := d |>).

(** The push of a call's address. *)
Definition predict_call (inst : StaticInst) (tid : Z) (at_pc : PC) (rec : PredictorHistory)
  (u : BPredUnit) : outcome (PredictorHistory * BPredUnit) :=
  if isCall inst then
    u ← ras_push tid at_pc u;
    Ok (rec <| pushedRAS := true |> <| wasCall := true |>, u)
  else Ok (rec, u).

(** A taken prediction whose target is not in the buffer. *)
Definition predict_miss (inst : StaticInst) (tid : Z) (at_pc : PC) (rec : PredictorHistory)
  (u : BPredUnit) : outcome (PredictorHistory * BPredUnit) :=
  if negb (isCall inst) && negb (isReturn inst) then
    d ← dp_btbUpdate (instAddr at_pc) (bpHistory rec) (dir u);
    Ok (rec, u <| dir := d |>)
  else if isCall inst && negb (isUncondCtrl inst) then
    u ← ras_pop tid u;
    Ok (rec <| pushedRAS := false |>, u)
  else Ok (rec, u).

(** The target: from the stack, from the buffer, or the next instruction. *)
Definition predict_target (inst : StaticInst) (tid : Z) (at_pc : PC) (pred_taken : bool)
  (rec : PredictorHistory) (u : BPredUnit) : outcome (bool * PC * PredictorHistory * BPredUnit) :=
  if pred_taken then
    if isReturn inst then
      '(target, rec, u) ← predict_return tid at_pc (rec <| wasReturn := true |>) u;
      Ok (true, target, rec, u)
    else
      let u := u <| BTBLookups ::= Z.add 1 |> in
      '(rec, u) ← predict_call inst tid at_pc rec u;
      hit ← DefaultBTB.valid (instAddr at_pc) tid (BTB u);
      if (hit : bool) then
        let u := u <| BTBHits ::= Z.add 1 |> in
        target ← DefaultBTB.lookup (pc_of 0) (instAddr at_pc) tid (BTB u);
        Ok (true, target, rec, u)
      else
        '(rec, u) ← predict_miss inst tid at_pc rec u;
        Ok (false, advancePC inst at_pc, rec, u)
  else
    let rec := if isReturn inst then rec <| wasReturn := true |> else rec in
    Ok (false, advancePC inst at_pc, rec, u).

(** The result is the prediction, the predicted state of [pc] and the unit. *)
Definition predict (inst : StaticInst) (seq_num : Z) (at_pc : PC) (tid : Z) (u : BPredUnit)
  : outcome (bool * PC * BPredUnit) :=
  let u := u <| lookups ::= Z.add 1 |> in
  '(pred_taken, bp_history, u) ← predict_direction inst (instAddr at_pc) (instAddr at_pc) u;
  let rec := PredictorHistory_new seq_num (instAddr at_pc) pred_taken bp_history tid in
  '(pred_taken, target, rec, u) ← predict_target inst tid at_pc pred_taken rec u;
  l ← vget (predHist u) tid;
  u ← set_hist tid (rec :: l) u;
  Ok (pred_taken, target, u).

(** [target] is assigned before it is used whenever the prediction is taken. *)
Definition predictInOrder (inst : StaticInst) (seq_num asid : Z) (instPC predPC : PC) (tid : Z)
  (u : BPredUnit) : outcome (bool * PC * BPredUnit) :=
  let u := u <| lookups ::= Z.add 1 |> in
  '(pred_taken, bp_history, u) ← predict_direction inst (instAddr instPC) (instAddr predPC) u;
  pred_taken ← (if isUncondCtrl inst && isReturn inst then
                  r ← vget (RAS u) tid; Ok (negb (ReturnAddrStack.empty r))
                else Ok pred_taken);
  let rec := PredictorHistory_new seq_num (instAddr predPC) pred_taken bp_history tid in
  '(target, rec, u) ←
    (if (pred_taken : bool) then
       if isReturn inst then
         '(target, rec, u) ← predict_return tid instPC rec u;
         _ ← ensure AssertFailed (RASIndex rec <? 16);
         Ok (Some target, rec, u)
       else
         let u := u <| BTBLookups ::= Z.add 1 |> in
         '(rec, u) ← predict_call inst tid instPC rec u;
         if isCall inst && isUncondCtrl inst && isDirectCtrl inst then
           Ok (Some (branchTarget inst instPC), rec, u)
         else
           hit ← DefaultBTB.valid (instAddr predPC) asid (BTB u);
           if (hit : bool) then
             let u := u <| BTBHits ::= Z.add 1 |> in
             target ← DefaultBTB.lookup (pc_of 0) (instAddr predPC) asid (BTB u);
             Ok (Some target, rec, u)
           else Ok (None, rec, u)
     else Ok (None, rec, u));
  l ← vget (predHist u) tid;
  u ← set_hist tid (rec :: l) u;
  Ok (match target with Some t => (true, t, u) | None => (false, predPC, u) end).

(** The loop of [update(done_sn, tid)] pops records off the back of the
    deque: [l] is the deque from the back. *)
Fixpoint update_loop (done_sn : Z) (l : list PredictorHistory) (d : P)
  : outcome (list PredictorHistory * P) :=
  match l with
  | [] => Ok ([], d)
  | r :: l' =>
      if seqNum r <=? done_sn then
        d ← (if negb (wasSquashed r) then dp_update (pc r) (predTaken r) (bpHistory r) false d
             else dp_retireSquashed (bpHistory r) d);
        update_loop done_sn l' d
      else Ok (l, d)
  end.

Definition update (done_sn tid : Z) (u : BPredUnit) : outcome BPredUnit :=
  l ← vget (predHist u) tid;
  '(l, d) ← update_loop done_sn (rev l) (dir u);
  set_hist tid (rev l) (u <| dir := d |>).

(** What [squash] does to the stack for one record. *)
Definition undo (tid : Z) (r : PredictorHistory) (u : BPredUnit) : outcome BPredUnit :=
  if h_usedRAS r then ras_restore tid (RASIndex r) (RASTarget r) u
  else if wasCall r && pushedRAS r then ras_pop tid u
  else Ok u.

(** The loop of [squash(squashed_sn, tid)], from the front of the deque. *)
Fixpoint squash_loop (squashed_sn tid : Z) (l : list PredictorHistory) (u : BPredUnit)
  : outcome (list PredictorHistory * BPredUnit) :=
  match l with
  | [] => Ok ([], u)
  | r :: l' =>
      if seqNum r >? squashed_sn then
        u ← undo tid r u;
        d ← dp_squash (bpHistory r) (dir u);
        squash_loop squashed_sn tid l' (u <| dir := d |>)
      else Ok (l, u)
  end.

Definition squash (squashed_sn tid : Z) (u : BPredUnit) : outcome BPredUnit :=
  l ← vget (predHist u) tid;
  '(l, u) ← squash_loop squashed_sn tid l u;
  set_hist tid l u.

(** The repair of the mispredicted branch's record. *)
Definition repair (corrTarget : PC) (actually_taken : bool) (tid : Z) (r : PredictorHistory)
  (u : BPredUnit) : outcome (PredictorHistory * BPredUnit) :=
  if actually_taken then
    '(r, u) ← (if wasReturn r && negb (h_usedRAS r) then
                 u ← ras_pop tid u; Ok (r <| h_usedRAS := true |>, u)
               else Ok (r, u));
    b ← DefaultBTB.update (pc r) corrTarget tid (BTB u);
    Ok (r, u <| BTB := b |>)
  else if h_usedRAS r then
    u ← ras_restore tid (RASIndex r) (RASTarget r) u;
    Ok (r <| h_usedRAS := false |>, u)
  else if wasCall r && pushedRAS r then
    u ← ras_pop tid u;
    Ok (r <| pushedRAS := false |>, u)
  else Ok (r, u).

(** The overload that also repairs the mispredicted branch. *)
Definition squash_repair (squashed_sn : Z) (corrTarget : PC) (actually_taken : bool) (tid : Z)
  (u : BPredUnit) : outcome BPredUnit :=
  let u := u <| condIncorrect ::= Z.add 1 |> in
  u ← squash squashed_sn tid u;
  l ← vget (predHist u) tid;
  match l with
  | [] => Ok u
  | r :: l' =>
      _ ← ensure AssertFailed (seqNum r =? squashed_sn);
      let u := if h_usedRAS r then u <| RASIncorrect ::= Z.add 1 |> else u in
      d ← dp_update (pc r) actually_taken (bpHistory r) true (dir u);
      let u := u <| dir := d |> in
      let r := r <| wasSquashed := true |> in
      '(r, u) ← repair corrTarget actually_taken tid r u;
      set_hist tid (r :: l') u
  end.

(** ** The invariant *)

Section invariant.
Context `{!DirPredOk P H}.
(** [2^k] target buffer entries with [tb] tag bits and [s] ignored bits,
    stacks of [n] entries, [nt] threads. *)
Context (k tb s n : Z) (nt : nat).

Definition stack_ok (r : ReturnAddrStack.RAS (PC := PC)) : Prop :=
  ReturnAddrStack.ras_ok r /\ ReturnAddrStack.numEntries r = n.
Definition rec_ok (r : PredictorHistory) : Prop :=
  dp_hist (bpHistory r) /\ 0 <= pc r /\ 0 <= RASIndex r < n.
Definition younger (a b : PredictorHistory) : Prop := seqNum b < seqNum a.

Record uinv (u : BPredUnit) : Prop := {
  ui_dir : dp_wf (dir u);
  ui_btb : exists us, DefaultBTB.holds k tb s us (BTB u);
  ui_nhist : length (predHist u) = nt;
  ui_nras : length (RAS u) = nt;
  ui_stacks : Forall stack_ok (RAS u);
  ui_recs : Forall (Forall rec_ok) (predHist u);
  ui_sorted : Forall (StronglySorted younger) (predHist u);
}.

Definition tid_ok (tid : Z) : Prop := 0 <= tid < Z.of_nat nt.

Lemma ras_at u tid : uinv u -> tid_ok tid -> exists r, vget (RAS u) tid = Ok r /\ stack_ok r.
Proof.
  intros Hu Ht. destruct (vget_lt (RAS u) tid) as [r E]; [rewrite (ui_nras u Hu); apply Ht|].
  exists r. split; [done|]. apply vget_ok in E as [_ E]. by eapply Forall_lookup_1; [apply Hu|].
Qed.

Lemma hist_at u tid : uinv u -> tid_ok tid ->
  exists l, vget (predHist u) tid = Ok l /\ Forall rec_ok l /\ StronglySorted younger l.
Proof.
  intros Hu Ht. destruct (vget_lt (predHist u) tid) as [l E]; [rewrite (ui_nhist u Hu); apply Ht|].
  exists l. split; [done|]. apply vget_ok in E as [_ E].
  split; (eapply (Forall_lookup_1 _ (predHist u)); [apply Hu|exact E]).
Qed.

Lemma set_ras_ok u tid r :
  uinv u -> tid_ok tid -> stack_ok r ->
  set_ras tid r u = Ok (u <| RAS ::= <[Z.to_nat tid := r]> |>) /\
  uinv (u <| RAS ::= <[Z.to_nat tid := r]> |>).
Proof.
  intros [] Ht Hr. unfold set_ras. rewrite vset_lt by (rewrite ui_nras0; apply Ht). split; [done|].
  split; simpl; try done; [by rewrite length_insert|by apply Forall_insert].
Qed.

Lemma set_hist_ok u tid l :
  uinv u -> tid_ok tid -> Forall rec_ok l -> StronglySorted younger l ->
  set_hist tid l u = Ok (u <| predHist ::= <[Z.to_nat tid := l]> |>) /\
  uinv (u <| predHist ::= <[Z.to_nat tid := l]> |>).
Proof.
  intros [] Ht Hl Hs. unfold set_hist. rewrite vset_lt by (rewrite ui_nhist0; apply Ht). split; [done|].
  split; simpl; try done; [by rewrite length_insert|by apply Forall_insert|by apply Forall_insert].
Qed.

Lemma ras_pop_ok u tid r :
  uinv u -> tid_ok tid -> vget (RAS u) tid = Ok r -> stack_ok r ->
  let u' := u <| RAS ::= <[Z.to_nat tid := ReturnAddrStack.pop r]> |> in
  ras_pop tid u = Ok u' /\ uinv u'.
Proof.
  intros Hu Ht E [Hr Hn]. unfold ras_pop. rewrite E. cbn [mbind outcome_bind].
  destruct (ReturnAddrStack.pop_shape r Hr) as (Ho & _ & _ & En).
  apply set_ras_ok; [done|done|]. split; [done|]. by rewrite En.
Qed.

Lemma ras_push_ok u tid r x :
  uinv u -> tid_ok tid -> vget (RAS u) tid = Ok r -> stack_ok r ->
  exists r', ReturnAddrStack.push x r = Ok r' /\ stack_ok r' /\
    let u' := u <| RAS ::= <[Z.to_nat tid := r']> |> in
    ras_push tid x u = Ok u' /\ uinv u'.
Proof.
  intros Hu Ht E [Hr Hn]. unfold ras_push. rewrite E. cbn [mbind outcome_bind].
  destruct (ReturnAddrStack.push_shape r x Hr) as (r' & E' & Ho & _ & _ & En).
  rewrite E'. cbn [mbind outcome_bind]. exists r'.
  assert (stack_ok r') as Hs by (split; [done|by rewrite En]).
  split; [done|]. split; [done|]. by apply set_ras_ok.
Qed.

Lemma ras_restore_ok u tid r i x :
  uinv u -> tid_ok tid -> vget (RAS u) tid = Ok r -> stack_ok r -> 0 <= i < n ->
  exists r', ReturnAddrStack.restore i x r = Ok r' /\ stack_ok r' /\
    let u' := u <| RAS ::= <[Z.to_nat tid := r']> |> in
    ras_restore tid i x u = Ok u' /\ uinv u'.
Proof.
  intros Hu Ht E [Hr Hn] Hi. unfold ras_restore. rewrite E. cbn [mbind outcome_bind].
  destruct (ReturnAddrStack.restore_shape r i x Hr) as (r' & E' & Ho & _ & _ & En); [lia|].
  rewrite E'. cbn [mbind outcome_bind]. exists r'.
  assert (stack_ok r') as Hs by (split; [done|by rewrite En]).
  split; [done|]. split; [done|]. by apply set_ras_ok.
Qed.

Lemma set_dir_ok u d : uinv u -> dp_wf d -> uinv (u <| dir := d |>).
Proof. by intros [] Hd; split. Qed.

(** Statistics are not part of the invariant. *)
Lemma uinv_stats u u' :
  uinv u -> dir u' = dir u -> BTB u' = BTB u -> RAS u' = RAS u -> predHist u' = predHist u -> uinv u'.
Proof. intros [] E1 E2 E3 E4. split; rewrite ?E1, ?E2, ?E3, ?E4; done. Qed.

Lemma btb_query u a t : uinv u ->
  exists b, DefaultBTB.valid a t (BTB u) = Ok b /\
    exists x, DefaultBTB.lookup (pc_of 0) a t (BTB u) = Ok x.
Proof.
  intros Hu. destruct (ui_btb u Hu) as [us Hus].
  destruct (DefaultBTB.holds_observe (pc_of 0) k tb s us (BTB u) a t Hus) as [E1 E2]. eauto.
Qed.

Lemma btb_train u a x t : uinv u ->
  exists b, DefaultBTB.update a x t (BTB u) = Ok b /\ uinv (u <| BTB := b |>).
Proof.
  intros Hu. destruct (ui_btb u Hu) as [us Hus].
  destruct (DefaultBTB.update_holds k tb s us (BTB u) (DefaultBTB.MkUpd a x t) Hus) as (b & E & Hb).
  exists b. split; [done|]. destruct Hu. split; try done. by exists (DefaultBTB.MkUpd a x t :: us).
Qed.

(** What a prediction did to the thread's stack, as its record tells it. *)
Inductive ras_effect (call : bool) (rec : PredictorHistory)
  (r : ReturnAddrStack.RAS (PC := PC))
  : ReturnAddrStack.RAS (PC := PC) -> Prop :=
  | EffReturn :
      h_usedRAS rec = true -> RASIndex rec = ReturnAddrStack.tos r ->
      ReturnAddrStack.below r 0 = Some (RASTarget rec) ->
      ras_effect call rec r (ReturnAddrStack.pop r)
  | EffCall x r' :
      call = true -> h_usedRAS rec = false -> wasCall rec && pushedRAS rec = true ->
      ReturnAddrStack.push x r = Ok r' -> ras_effect call rec r r'
  | EffNone :
      h_usedRAS rec = false -> wasCall rec && pushedRAS rec = false -> ras_effect call rec r r
  | EffUndone x r' :
      call = true -> h_usedRAS rec = false -> wasCall rec && pushedRAS rec = false ->
      ReturnAddrStack.push x r = Ok r' -> ras_effect call rec r (ReturnAddrStack.pop r').

(** [u'] differs from [u] in the direction predictor, the statistics and the
    stack of [tid], which is now [r']. *)
Record predicted (tid : Z) (r' : ReturnAddrStack.RAS (PC := PC)) (u u' : BPredUnit) : Prop := {
  pd_inv : uinv u';
  pd_btb : BTB u' = BTB u;
  pd_hist : predHist u' = predHist u;
  pd_ras : RAS u' = <[Z.to_nat tid := r']> (RAS u);
}.

Lemma direction_ok inst a b u :
  uinv u -> 0 <= b -> exists t h u', predict_direction inst a b u = Ok (t, h, u') /\ dp_hist h /\
    uinv u' /\ RAS u' = RAS u /\ predHist u' = predHist u /\ BTB u' = BTB u.
Proof.
  intros Hu Hb. unfold predict_direction. destruct (isUncondCtrl inst).
  - destruct (dp_uncond_ok a (dir u) (ui_dir u Hu)) as (h & d & -> & Hd & Hh).
    do 3 eexists. split; [reflexivity|]. split_and!; try done. by apply set_dir_ok.
  - destruct (dp_lookup_ok b (dir u) Hb (ui_dir u Hu)) as (t & h & d & E & Hd & Hh).
    change (dir (u <| condPredicted ::= Z.add 1 |>)) with (dir u). rewrite E.
    do 3 eexists. split; [reflexivity|]. split_and!; try done.
    apply set_dir_ok; [|done]. by apply (uinv_stats u).
Qed.

Lemma same_stack u tid r : vget (RAS u) tid = Ok r -> <[Z.to_nat tid := r]> (RAS u) = RAS u.
Proof. intros E. apply vget_ok in E as [_ E]. by apply list_insert_id. Qed.

(** The record fields a prediction does not touch. *)
Definition same_id (r r' : PredictorHistory) : Prop :=
  seqNum r' = seqNum r /\ pc r' = pc r /\ bpHistory r' = bpHistory r /\ predTaken r' = predTaken r /\
  wasSquashed r' = wasSquashed r.

Lemma same_id_trans r1 r2 r3 : same_id r1 r2 -> same_id r2 r3 -> same_id r1 r3.
Proof. intros (? & ? & ? & ? & ?) (? & ? & ? & ? & ?). split_and!; congruence. Qed.

Lemma return_ok inst tid x rec u r :
  uinv u -> tid_ok tid -> vget (RAS u) tid = Ok r -> stack_ok r -> rec_ok rec ->
  exists t rec' u', predict_return tid x rec u = Ok (t, rec', u') /\ rec_ok rec' /\ same_id rec rec' /\
    exists r', predicted tid r' u u' /\ ras_effect (isCall inst) rec' r r'.
Proof.
  intros Hu Ht E Hs Hrec. unfold predict_return. set (u1 := u <| usedRAS ::= Z.add 1 |>).
  assert (uinv u1) as Hu1 by (by apply (uinv_stats u)). change (RAS u1) with (RAS u). rewrite E.
  cbn [mbind outcome_bind]. destruct Hs as [Hok Hn].
  destruct (ReturnAddrStack.top_shape r Hok) as (y & -> & Hy). cbn [mbind outcome_bind].
  destruct (ras_pop_ok u1 tid r Hu1 Ht E (conj Hok Hn)) as [-> Hu2]. cbn [mbind outcome_bind].
  do 3 eexists. split; [reflexivity|]. split; [|split; [by destruct rec|]].
  - destruct Hrec as (? & ? & ?). split; [done|]. split; [done|]. simpl. unfold ReturnAddrStack.topIdx.
    rewrite <- Hn. apply Hok.
  - eexists. split; [by split|]. by apply EffReturn.
Qed.

Lemma vget_insert_same {A} (l : list A) i x y :
  vget l i = Ok y -> vget (<[Z.to_nat i := x]> l) i = Ok x.
Proof.
  intros E. apply vget_ok in E as [Hi E]. apply vget_ok. split; [done|].
  apply list_lookup_insert_eq. by eapply lookup_lt_Some.
Qed.

(** The state of a prediction between the push of a call and the target: the
    record says whether [r1] is the stack pushed or the old one. *)
Definition pushed_or_same (rec : PredictorHistory) (r r1 : ReturnAddrStack.RAS (PC := PC)) : Prop :=
  h_usedRAS rec = false /\
  ((wasCall rec && pushedRAS rec = true /\ exists x, ReturnAddrStack.push x r = Ok r1) \/
   (wasCall rec && pushedRAS rec = false /\ r1 = r)).

Lemma pushed_effect call rec r r1 :
  (call = true <-> wasCall rec && pushedRAS rec = true) -> pushed_or_same rec r r1 ->
  ras_effect call rec r r1.
Proof.
  intros Hi [Hu [[Hc [x Ep]] | [Hc ->]]]; [|by apply EffNone]. eapply EffCall; [by apply Hi|done|done|done].
Qed.

Lemma call_ok inst tid x rec u r :
  uinv u -> tid_ok tid -> vget (RAS u) tid = Ok r -> stack_ok r -> rec_ok rec ->
  h_usedRAS rec = false -> wasCall rec = false ->
  exists rec' u' r', predict_call inst tid x rec u = Ok (rec', u') /\ rec_ok rec' /\ same_id rec rec' /\
    (isCall inst = true <-> wasCall rec' && pushedRAS rec' = true) /\
    stack_ok r' /\ predicted tid r' u u' /\ pushed_or_same rec' r r'.
Proof.
  intros Hu Ht E Hs Hrec Hn Hc. unfold predict_call. destruct (isCall inst).
  - destruct (ras_push_ok u tid r x Hu Ht E Hs) as (r' & Ep & Hs' & -> & Hu'). cbn [mbind outcome_bind].
    do 3 eexists. split; [reflexivity|]. split; [done|]. split; [by destruct rec|]. split; [done|].
    split; [exact Hs'|]. split; [by split|]. split; [done|]. left. eauto.
  - exists rec, u, r. split; [done|]. split; [done|]. split; [by destruct rec|]. rewrite Hc. split; [done|].
    split; [done|]. split; [split; try done; by rewrite same_stack|]. split; [done|]. right. by rewrite Hc.
Qed.

Lemma miss_ok inst tid x rec u r r1 :
  uinv u -> tid_ok tid -> vget (RAS u) tid = Ok r1 -> stack_ok r1 -> rec_ok rec -> 0 <= instAddr x ->
  (isCall inst = true <-> wasCall rec && pushedRAS rec = true) -> pushed_or_same rec r r1 ->
  exists rec' u' r', predict_miss inst tid x rec u = Ok (rec', u') /\ rec_ok rec' /\ same_id rec rec' /\
    predicted tid r' u u' /\ ras_effect (isCall inst) rec' r r'.
Proof.
  intros Hu Ht E Hs Hrec Hx Hc Hp. unfold predict_miss.
  assert (predicted tid r1 u u) as Hid by (split; try done; by rewrite same_stack).
  pose proof (pushed_effect _ _ _ _ Hc Hp) as Heff.
  assert (same_id rec rec) as Hsame by by destruct rec.
  destruct (isCall inst); cbn [negb andb].
  - destruct (isUncondCtrl inst); cbn [negb]; [exists rec, u, r1; done|].
    destruct (ras_pop_ok u tid r1 Hu Ht E Hs) as [-> Hu']. cbn [mbind outcome_bind].
    do 3 eexists. split; [reflexivity|]. split; [done|]. split; [by destruct rec|]. split; [by split|].
    destruct Hp as [Hu0 [[_ [y Ep]] | [Hf _]]]; [|pose proof (proj1 Hc eq_refl); congruence].
    eapply EffUndone; [done|done| |exact Ep]. simpl. by rewrite andb_false_r.
  - destruct (isReturn inst); cbn [negb]; [exists rec, u, r1; done|].
    destruct (dp_btb_ok (instAddr x) (bpHistory rec) (dir u) Hx (ui_dir u Hu) (proj1 Hrec)) as (d & -> & Hd).
    cbn [mbind outcome_bind]. do 3 eexists. split; [reflexivity|]. split; [done|]. split; [done|].
    split; [|exact Heff]. split; try done; [by apply set_dir_ok|]. by rewrite same_stack.
Qed.

Lemma predicted_trans tid r1 r2 u u1 u2 :
  predicted tid r1 u u1 -> predicted tid r2 u1 u2 -> predicted tid r2 u u2.
Proof.
  intros [] []. split; [done|congruence|congruence|]. rewrite pd_ras1, pd_ras0.
  by rewrite list_insert_insert_eq.
Qed.

Lemma target_ok inst tid x t rec u r :
  uinv u -> tid_ok tid -> vget (RAS u) tid = Ok r -> stack_ok r -> rec_ok rec -> 0 <= instAddr x ->
  h_usedRAS rec = false -> wasCall rec = false ->
  exists b y rec' u' r', predict_target inst tid x t rec u = Ok (b, y, rec', u') /\
    rec_ok rec' /\ same_id rec rec' /\ predicted tid r' u u' /\ ras_effect (isCall inst) rec' r r'.
Proof.
  intros Hu Ht E Hs Hrec Hx Hn Hc. unfold predict_target. destruct t.
  - destruct (isReturn inst) eqn:Er.
    + set (rec0 := rec <| wasReturn := true |>).
      destruct (return_ok inst tid x rec0 u r Hu Ht E Hs Hrec)
        as (y & rec' & u' & -> & H1 & H2 & r' & H3 & H4). cbn [mbind outcome_bind].
      do 5 eexists. split; [reflexivity|]. split; [done|]. split; [by destruct rec|]. eauto.
    + set (u1 := u <| BTBLookups ::= Z.add 1 |>).
      assert (uinv u1) as Hu1 by (by apply (uinv_stats u)).
      destruct (call_ok inst tid x rec u1 r Hu1 Ht E Hs Hrec Hn Hc)
        as (rec1 & u2 & r1 & -> & Hrec1 & Hid1 & Hcall & Hs1 & Hp1 & Heff).
      cbn [mbind outcome_bind]. pose proof (pd_inv _ _ _ _ Hp1) as Hu2.
      destruct (btb_query u2 (instAddr x) tid Hu2) as (hit & -> & y & Ey). cbn [mbind outcome_bind].
      destruct hit.
      * change (BTB (u2 <| BTBHits ::= Z.add 1 |>)) with (BTB u2). rewrite Ey. cbn [mbind outcome_bind].
        do 5 eexists. split; [reflexivity|]. split; [done|]. split; [done|].
        split; [|by apply pushed_effect]. destruct Hp1. split; try done. by apply (uinv_stats u2).
      * assert (vget (RAS u2) tid = Ok r1) as E2.
        { rewrite (pd_ras _ _ _ _ Hp1). by eapply vget_insert_same. }
        destruct (miss_ok inst tid x rec1 u2 r r1 Hu2 Ht E2 Hs1 Hrec1 Hx Hcall Heff)
          as (rec2 & u3 & r2 & -> & Hrec2 & Hid2 & Hp2 & Heff2). cbn [mbind outcome_bind].
        do 5 eexists. split; [reflexivity|]. split; [done|].
        split; [by eapply same_id_trans|]. split; [|done].
        pose proof (predicted_trans _ _ _ _ _ _ Hp1 Hp2) as []. by split.
  - do 5 eexists. split; [reflexivity|]. split; [by destruct (isReturn inst)|].
    split; [by destruct (isReturn inst), rec|].
    split; [split; try done; by rewrite same_stack|].
    apply EffNone; by destruct (isReturn inst); simpl; rewrite ?Hc.
Qed.

Hypothesis n_pos : 0 < n.

Lemma predict_spec inst sn x tid u l r :
  uinv u -> tid_ok tid -> vget (predHist u) tid = Ok l -> vget (RAS u) tid = Ok r -> 0 <= instAddr x ->
  Forall (fun q => seqNum q < sn) l ->
  exists b y u' rec r', predict inst sn x tid u = Ok (b, y, u') /\ uinv u' /\ BTB u' = BTB u /\
    predHist u' = <[Z.to_nat tid := rec :: l]> (predHist u) /\
    RAS u' = <[Z.to_nat tid := r']> (RAS u) /\ seqNum rec = sn /\ ras_effect (isCall inst) rec r r'.
Proof.
  intros Hu Ht El Er Hx Hsn. unfold predict. set (u0 := u <| lookups ::= Z.add 1 |>).
  assert (uinv u0) as Hu0 by (by apply (uinv_stats u)).
  destruct (direction_ok inst (instAddr x) (instAddr x) u0 Hu0 Hx)
    as (t & h & u1 & -> & Hh & Hu1 & E1 & E2 & E3). cbn [mbind outcome_bind].
  change (RAS u0) with (RAS u) in E1. change (predHist u0) with (predHist u) in E2.
  set (rec := PredictorHistory_new sn (instAddr x) t h tid).
  assert (rec_ok rec) as Hrec by (split_and!; simpl; done || lia).
  destruct (ras_at u1 tid Hu1 Ht) as (r1 & Er1 & Hs). assert (r1 = r) as -> by (rewrite E1 in Er1; congruence).
  destruct (target_ok inst tid x t rec u1 r Hu1 Ht Er1 Hs Hrec Hx eq_refl eq_refl)
    as (b & y & rec' & u2 & r' & -> & Hrec' & Hid & Hp & Heff). cbn [mbind outcome_bind].
  destruct Hp as [Hu2 P1 P2 P3]. rewrite P2, E2, El.
  cbn [mbind outcome_bind]. destruct (hist_at u tid Hu Ht) as (l' & El' & Hl & Hsl).
  assert (l' = l) as -> by congruence.
  destruct Hid as (Hseq & _). simpl in Hseq.
  destruct (set_hist_ok u2 tid (rec' :: l) Hu2 Ht) as [-> Hu3].
  { by constructor. }
  { constructor; [done|]. unfold younger. by rewrite Hseq. }
  cbn [mbind outcome_bind]. do 5 eexists. split; [reflexivity|]. split; [done|]. simpl.
  rewrite P1, P2, P3, E1, E2, E3. done.
Qed.

(** The in-order entry point. The index of the stack it records for a return
    is asserted to be below 16, whatever the size of the stack. *)
Lemma predictInOrder_ok inst sn asid x y tid u :
  uinv u -> tid_ok tid -> 0 <= instAddr y -> (isReturn inst = true -> n <= 16) ->
  (forall l, vget (predHist u) tid = Ok l -> Forall (fun q => seqNum q < sn) l) ->
  exists b z u', predictInOrder inst sn asid x y tid u = Ok (b, z, u') /\ uinv u'.
Proof.
  intros Hu Ht Hy Hn Hsn. unfold predictInOrder. set (u0 := u <| lookups ::= Z.add 1 |>).
  assert (uinv u0) as Hu0 by (by apply (uinv_stats u)).
  destruct (direction_ok inst (instAddr x) (instAddr y) u0 Hu0 Hy)
    as (t & h & u1 & -> & Hh & Hu1 & E1 & E2 & E3). cbn [mbind outcome_bind].
  destruct (ras_at u1 tid Hu1 Ht) as (r & Er & Hs). rewrite Er. cbn [mbind outcome_bind].
  set (taken := if isUncondCtrl inst && isReturn inst then Ok (negb (ReturnAddrStack.empty r)) else Ok t).
  assert (exists t', taken = Ok t') as [t' ->] by (unfold taken; destruct (_ && _); eauto).
  cbn [mbind outcome_bind]. set (rec := PredictorHistory_new sn (instAddr y) t' h tid).
  assert (rec_ok rec) as Hrec by (split_and!; simpl; done || lia).
  set (body := if t' then _ else _).
  assert (exists z rec' u2, body = Ok (z, rec', u2) /\ rec_ok rec' /\ same_id rec rec' /\ uinv u2 /\
    predHist u2 = predHist u1) as (z & rec' & u2 & -> & Hrec' & (Hseq & _) & Hu2 & P2).
  { unfold body. destruct t'; [|by exists None, rec, u1]. destruct (isReturn inst).
    - destruct (return_ok inst tid x rec u1 r Hu1 Ht Er Hs Hrec) as (z & rec' & u2 & -> & H1 & H2 & r' & H3 & _).
      cbn [mbind outcome_bind]. assert ((RASIndex rec' <? 16) = true) as ->.
      { apply Z.ltb_lt. destruct H1 as (_ & _ & ?). specialize (Hn eq_refl). lia. }
      cbn [ensure mbind outcome_bind]. exists (Some z), rec', u2. by destruct H3.
    - set (u1' := u1 <| BTBLookups ::= Z.add 1 |>). assert (uinv u1') as Hu1' by (by apply (uinv_stats u1)).
      destruct (call_ok inst tid x rec u1' r Hu1' Ht Er Hs Hrec eq_refl eq_refl)
        as (rec' & u2 & r' & -> & H1 & H2 & _ & _ & [H3 _ H4 _] & _). cbn [mbind outcome_bind].
      destruct (isCall inst && isUncondCtrl inst && isDirectCtrl inst); [by do 3 eexists|].
      destruct (btb_query u2 (instAddr y) asid H3) as (hit & -> & z & Ez). cbn [mbind outcome_bind].
      destruct hit; [|by do 3 eexists].
      change (BTB (u2 <| BTBHits ::= Z.add 1 |>)) with (BTB u2). rewrite Ez. cbn [mbind outcome_bind].
      do 3 eexists. split; [reflexivity|]. split_and!; try done. by apply (uinv_stats u2). }
  cbn [mbind outcome_bind]. destruct (hist_at u tid Hu Ht) as (l & El & Hl & Hsl).
  rewrite P2, E2. change (predHist u0) with (predHist u). rewrite El. cbn [mbind outcome_bind].
  destruct (set_hist_ok u2 tid (rec' :: l) Hu2 Ht) as [-> Hu3].
  { by constructor. }
  { constructor; [done|]. unfold younger. rewrite Hseq. by apply Hsn. }
  cbn [mbind outcome_bind]. destruct z; by do 3 eexists.
Qed.

Lemma update_loop_ok done_sn l : forall d,
  dp_wf d -> Forall rec_ok l ->
  exists l' d', update_loop done_sn l d = Ok (l', d') /\ dp_wf d' /\ exists c, l = c ++ l'.
Proof.
  induction l as [|r l IH]; intros d Hd Hl; simpl.
  { exists [], d. split_and!; try done. by exists []. }
  inversion Hl as [|? ? (Hh & Hpc & _) Hl']; subst.
  destruct (seqNum r <=? done_sn); [|exists (r :: l), d; split; [done|]; split; [done|]; by exists []].
  assert (exists d', (if negb (wasSquashed r) then dp_update (pc r) (predTaken r) (bpHistory r) false d
    else dp_retireSquashed (bpHistory r) d) = Ok d' /\ dp_wf d') as (d1 & -> & Hd1).
  { destruct (wasSquashed r); cbn [negb]; [by apply dp_retire_ok|by apply dp_update_ok]. }
  cbn [mbind outcome_bind]. destruct (IH d1 Hd1 Hl') as (l' & d' & E & Hd' & c & ->).
  exists l', d'. split; [done|]. split; [done|]. by exists (r :: c).
Qed.

Lemma sorted_app_l (a b : list PredictorHistory) :
  StronglySorted younger (a ++ b) -> StronglySorted younger a.
Proof.
  induction a as [|x a IH]; simpl; [constructor|]. intros Hs. inversion Hs as [|? ? H1 H2]; subst.
  constructor; [by apply IH|]. by apply Forall_app in H2 as [H2 _].
Qed.

Lemma sorted_app_r (a b : list PredictorHistory) :
  StronglySorted younger (a ++ b) -> StronglySorted younger b.
Proof.
  induction a as [|x a IH]; simpl; [done|]. intros Hs. inversion Hs; subst. by apply IH.
Qed.

Lemma commit_ok done_sn tid u :
  uinv u -> tid_ok tid -> exists u', update done_sn tid u = Ok u' /\ uinv u'.
Proof.
  intros Hu Ht. unfold update. destruct (hist_at u tid Hu Ht) as (l & -> & Hl & Hs).
  cbn [mbind outcome_bind].
  destruct (update_loop_ok done_sn (rev l) (dir u) (ui_dir u Hu)) as (l' & d & -> & Hd & c & Ec).
  { by apply List.Forall_rev. }
  cbn [mbind outcome_bind].
  assert (l = rev l' ++ rev c) as El by (rewrite <- rev_app_distr, <- Ec, rev_involutive; done).
  destruct (set_hist_ok (u <| dir := d |>) tid (rev l')) as [E Hu']; [by apply set_dir_ok|done| | |eauto].
  - rewrite El in Hl. by apply Forall_app in Hl as [? _].
  - rewrite El in Hs. by eapply sorted_app_l.
Qed.

Lemma undo_ok tid q u :
  uinv u -> tid_ok tid -> rec_ok q ->
  exists u', undo tid q u = Ok u' /\ uinv u' /\ predHist u' = predHist u.
Proof.
  intros Hu Ht (_ & _ & Hi). destruct (ras_at u tid Hu Ht) as (r & E & Hs). unfold undo.
  destruct (h_usedRAS q).
  - destruct (ras_restore_ok u tid r (RASIndex q) (RASTarget q) Hu Ht E Hs Hi) as (r' & _ & _ & E' & Hu').
    eauto.
  - destruct (wasCall q && pushedRAS q); [|eauto].
    destruct (ras_pop_ok u tid r Hu Ht E Hs) as [E' Hu']. eauto.
Qed.

Lemma squash_none lo tid l u : Forall (fun q => seqNum q <= lo) l -> squash_loop lo tid l u = Ok (l, u).
Proof.
  intros Hl. destruct Hl as [|q l Hq _]; [done|]. cbn [squash_loop].
  by rewrite Z.gtb_ltb, (proj2 (Z.ltb_ge _ _)).
Qed.

Lemma squash_loop_ok sn tid l : forall u,
  uinv u -> tid_ok tid -> Forall rec_ok l -> StronglySorted younger l ->
  exists l' u', squash_loop sn tid l u = Ok (l', u') /\ uinv u' /\ predHist u' = predHist u /\
    (exists c, l = c ++ l' /\ Forall (fun q => sn < seqNum q) c) /\
    Forall (fun q => seqNum q <= sn) l'.
Proof.
  induction l as [|q l IH]; intros u Hu Ht Hl Hs; cbn [squash_loop].
  { exists [], u. split_and!; try done. exists []. by split. }
  inversion Hl as [|? ? Hq Hl']; subst. inversion Hs as [|? ? Hs' Hy]; subst.
  rewrite Z.gtb_ltb. destruct (Z.ltb_spec sn (seqNum q)) as [Hlt|Hge].
  - destruct (undo_ok tid q u Hu Ht Hq) as (u1 & E1 & Hu1 & Eh). rewrite E1.
    cbn [mbind outcome_bind].
    destruct (dp_squash_ok (bpHistory q) (dir u1) (ui_dir u1 Hu1) (proj1 Hq)) as (d & -> & Hd).
    cbn [mbind outcome_bind]. pose proof (set_dir_ok u1 d Hu1 Hd) as Hu2.
    set (u2 := u1 <| dir := d |>) in *. destruct (IH u2 Hu2 Ht Hl' Hs')
      as (l' & u' & -> & Hu' & Eh' & (c & -> & Hc) & Hle).
    exists l', u'. split_and!; try done; [by rewrite <- Eh|]. exists (q :: c). split; [done|by constructor].
  - exists (q :: l), u. split_and!; try done; [exists []; by split|]. constructor; [done|].
    eapply Forall_impl; [exact Hy|]. intros q' Hq'. unfold younger in Hq'. lia.
Qed.

Lemma squash_unit_ok sn tid u l :
  uinv u -> tid_ok tid -> vget (predHist u) tid = Ok l ->
  exists l' u', squash sn tid u = Ok u' /\ uinv u' /\ vget (predHist u') tid = Ok l' /\
    (exists c, l = c ++ l' /\ Forall (fun q => sn < seqNum q) c) /\
    Forall (fun q => seqNum q <= sn) l'.
Proof.
  intros Hu Ht El. unfold squash. destruct (hist_at u tid Hu Ht) as (l0 & El0 & Hl & Hs).
  assert (l0 = l) as -> by congruence. rewrite El. cbn [mbind outcome_bind].
  destruct (squash_loop_ok sn tid l u Hu Ht Hl Hs) as (l' & u' & -> & Hu' & Eh & (c & -> & Hc) & Hle).
  cbn [mbind outcome_bind]. destruct (set_hist_ok u' tid l' Hu' Ht) as [-> Hu2].
  - by apply Forall_app in Hl as [_ ?].
  - by eapply sorted_app_r.
  - exists l'. eexists. split; [reflexivity|]. split_and!; try done; [|exists c; by split].
    simpl. rewrite Eh. by eapply vget_insert_same.
Qed.

(** The mispredicted branch is in flight, or no older branch is. *)
Definition repairable (sn : Z) (l : list PredictorHistory) : Prop :=
  (exists q, q ∈ l /\ seqNum q = sn) \/ Forall (fun q => sn < seqNum q) l.

Lemma repair_front sn l c q l' :
  StronglySorted younger l -> repairable sn l -> l = c ++ q :: l' ->
  Forall (fun q => sn < seqNum q) c -> seqNum q <= sn -> seqNum q = sn.
Proof.
  intros Hs Hr -> Hc Hq. destruct Hr as [(x & Hx & Ex) | Hall].
  - apply elem_of_app in Hx as [Hx|Hx].
    + rewrite Forall_forall in Hc. specialize (Hc x Hx). lia.
    + apply elem_of_cons in Hx as [->|Hx]; [done|].
      apply sorted_app_r in Hs. inversion Hs as [|? ? _ Hy]; subst.
      rewrite Forall_forall in Hy. specialize (Hy x Hx). unfold younger in Hy. lia.
  - apply Forall_app in Hall as [_ Hall]. inversion Hall; subst. lia.
Qed.

(** What a repair leaves in the record. *)
Definition after_repair (t : bool) (r r' : PredictorHistory) : Prop :=
  seqNum r' = seqNum r /\ RASIndex r' = RASIndex r /\ RASTarget r' = RASTarget r /\
  (t = true -> h_usedRAS r' = h_usedRAS r || wasReturn r).

Lemma repair_ok x t tid r u :
  uinv u -> tid_ok tid -> rec_ok r ->
  exists r' u', repair x t tid r u = Ok (r', u') /\ uinv u' /\ rec_ok r' /\ after_repair t r r' /\
    predHist u' = predHist u.
Proof.
  intros Hu Ht Hr. destruct (ras_at u tid Hu Ht) as (st & E & Hs). unfold repair. destruct t.
  - assert (exists r' u', (if wasReturn r && negb (h_usedRAS r) then
      u ← ras_pop tid u; Ok (r <| h_usedRAS := true |>, u) else Ok (r, u)) = Ok (r', u') /\ uinv u' /\
      rec_ok r' /\ after_repair true r r' /\ predHist u' = predHist u) as (r1 & u1 & -> & Hu1 & Hr1 & E1 & E2).
    { destruct (wasReturn r) eqn:E1, (h_usedRAS r) eqn:E2; cbn [negb andb];
        try (exists r, u; unfold after_repair; rewrite E1, E2; done).
      destruct (ras_pop_ok u tid st Hu Ht E Hs) as [-> Hu']. cbn [mbind outcome_bind].
      do 2 eexists. split; [reflexivity|]. unfold after_repair. simpl. by rewrite E1, E2. }
    cbn [mbind outcome_bind]. destruct (btb_train u1 (pc r1) x tid Hu1) as (b & -> & Hu2).
    cbn [mbind outcome_bind]. do 2 eexists. split; [reflexivity|]. done.
  - destruct (h_usedRAS r).
    + destruct (ras_restore_ok u tid st (RASIndex r) (RASTarget r) Hu Ht E Hs ltac:(apply Hr))
        as (r' & _ & _ & -> & Hu'). cbn [mbind outcome_bind]. do 2 eexists. split; [reflexivity|]. done.
    + destruct (wasCall r && pushedRAS r); [|by exists r, u].
      destruct (ras_pop_ok u tid st Hu Ht E Hs) as [-> Hu']. cbn [mbind outcome_bind].
      do 2 eexists. split; [reflexivity|]. done.
Qed.

Lemma squash_repair_ok sn x t tid u l :
  uinv u -> tid_ok tid -> vget (predHist u) tid = Ok l -> repairable sn l ->
  exists u', squash_repair sn x t tid u = Ok u' /\ uinv u' /\
    forall q l0, l = q :: l0 -> seqNum q = sn ->
      exists q', vget (predHist u') tid = Ok (q' :: l0) /\ after_repair t q q'.
Proof.
  intros Hu Ht El Hrep. unfold squash_repair. set (u0 := u <| condIncorrect ::= Z.add 1 |>).
  assert (uinv u0) as Hu0 by (by apply (uinv_stats u)).
  destruct (squash_unit_ok sn tid u0 l Hu0 Ht El) as (l' & u1 & -> & Hu1 & El1 & (c & Ec & Hc) & Hle).
  cbn [mbind outcome_bind]. rewrite El1. cbn [mbind outcome_bind].
  destruct (hist_at u1 tid Hu1 Ht) as (l1 & El1' & Hrec & Hs1). assert (l1 = l') as -> by congruence.
  destruct l' as [|q l'].
  { exists u1. split_and!; try done. intros q l0 -> Hq. rewrite app_nil_r in Ec. subst c.
    inversion Hc; subst. lia. }
  inversion Hrec as [|? ? Hq Hl']; subst. inversion Hle; subst.
  destruct (hist_at u tid Hu Ht) as (l0 & El0 & _ & Hs0). assert (l0 = c ++ q :: l') as -> by congruence.
  rewrite (repair_front sn _ c q l' Hs0 Hrep eq_refl Hc), Z.eqb_refl by done. cbn [ensure mbind outcome_bind].
  set (u2 := if h_usedRAS q then u1 <| RASIncorrect ::= Z.add 1 |> else u1).
  assert (uinv u2) as Hu2.
  { unfold u2. destruct (h_usedRAS q); [|done]. by apply (uinv_stats u1). }
  destruct (dp_update_ok (pc q) t (bpHistory q) true (dir u2) ltac:(apply Hq) (ui_dir u2 Hu2) (proj1 Hq))
    as (d & -> & Hd). cbn [mbind outcome_bind].
  pose proof (set_dir_ok u2 d Hu2 Hd) as Hu3. set (u3 := u2 <| dir := d |>) in *.
  set (q1 := q <| wasSquashed := true |>).
  destruct (repair_ok x t tid q1 u3 Hu3 Ht Hq) as (q2 & u4 & Er & Hu4 & Hq2 & Eq2 & Eh).
  rewrite Er. cbn [mbind outcome_bind].
  destruct (set_hist_ok u4 tid (q2 :: l') Hu4 Ht) as [-> Hu5]; [by constructor| |].
  - inversion Hs1 as [|? ? Hs2 Hy]; subst. constructor; [done|]. unfold younger in *.
    by rewrite (proj1 Eq2).
  - eexists. split; [reflexivity|]. split; [done|]. intros q0 l0 E0 Hq0.
    destruct c as [|y c]; [|apply Forall_cons in Hc as [Hy _]; simplify_eq/=; lia]. simplify_eq/=.
    exists q2. split; [|exact Eq2]. rewrite Eh. unfold u3, u2. destruct (h_usedRAS q0);
      simpl; by eapply vget_insert_same.
Qed.

(** The squash of the front record alone, when it used the stack. *)
Lemma squash_used lo tid q l u :
  uinv u -> tid_ok tid -> vget (predHist u) tid = Ok (q :: l) -> lo < seqNum q ->
  Forall (fun x => seqNum x <= lo) l -> h_usedRAS q = true ->
  exists u' r', squash lo tid u = Ok u' /\ vget (predHist u') tid = Ok l /\
    vget (RAS u') tid = Ok r' /\ ReturnAddrStack.tos r' = RASIndex q /\
    ReturnAddrStack.top r' = Ok (RASTarget q).
Proof.
  intros Hu Ht El Hlo Hl Hused. destruct (hist_at u tid Hu Ht) as (l0 & El0 & Hrecs & Hs).
  assert (l0 = q :: l) as -> by congruence. inversion Hrecs as [|? ? Hq Hrecs']; subst.
  inversion Hs as [|? ? Hs' _]; subst. destruct (ras_at u tid Hu Ht) as (st & Est & [Hok Hn]).
  destruct (ReturnAddrStack.restore_shape st (RASIndex q) (RASTarget q) Hok) as (r' & Er & _ & Et & Ea & _);
    [rewrite Hn; apply Hq|].
  destruct (ras_restore_ok u tid st (RASIndex q) (RASTarget q) Hu Ht Est (conj Hok Hn) ltac:(apply Hq))
    as (r2 & Er2 & _ & Eres & Hu5). assert (r2 = r') as -> by congruence.
  unfold squash. rewrite El. cbn [mbind outcome_bind squash_loop].
  rewrite Z.gtb_ltb, (proj2 (Z.ltb_lt lo _)) by done. unfold undo. rewrite Hused, Eres.
  cbn [mbind outcome_bind]. set (u5 := u <| RAS ::= _ |>) in *.
  destruct (dp_squash_ok (bpHistory q) (dir u5) (ui_dir u5 Hu5) (proj1 Hq)) as (d5 & -> & Hd5).
  cbn [mbind outcome_bind]. rewrite squash_none by done. cbn [mbind outcome_bind].
  pose proof (set_dir_ok u5 d5 Hu5 Hd5) as Hu6. set (u6 := u5 <| dir := d5 |>) in *.
  destruct (set_hist_ok u6 tid l Hu6 Ht) as [-> Hu7]; [done|done|].
  eexists. exists r'. split; [reflexivity|]. split_and!; try done; try (simpl; by eapply vget_insert_same).
  unfold ReturnAddrStack.restore in Er. apply bind_ok in Er as (v & Ev & E). injection E as <-.
  unfold ReturnAddrStack.top. simpl in *. by eapply vget_vset.
Qed.

(** ** Sequences of calls *)

Inductive uop :=
  | OPredict (inst : StaticInst) (sn : Z) (x : PC) (tid : Z)
  | OPredictInOrder (inst : StaticInst) (sn asid : Z) (x y : PC) (tid : Z)
  | OCommit (sn tid : Z)
  | OSquash (sn tid : Z)
  | ORepair (sn : Z) (x : PC) (taken : bool) (tid : Z).

Definition run_uop (o : uop) (u : BPredUnit) : outcome BPredUnit :=
  match o with
  | OPredict inst sn x tid => '(_, _, u) ← predict inst sn x tid u; Ok u
  | OPredictInOrder inst sn asid x y tid =>
      '(_, _, u) ← predictInOrder inst sn asid x y tid u; Ok u
  | OCommit sn tid => update sn tid u
  | OSquash sn tid => squash sn tid u
  | ORepair sn x taken tid => squash_repair sn x taken tid u
  end.

(** Threads exist, sequence numbers grow, a misprediction is of a branch in
    flight, and a return is predicted in order with stacks of at most 16 entries. *)
Definition uop_ok (o : uop) (u : BPredUnit) : Prop :=
  match o with
  | OPredict inst sn x tid => tid_ok tid /\ 0 <= instAddr x /\
      forall l, vget (predHist u) tid = Ok l -> Forall (fun q => seqNum q < sn) l
  | OPredictInOrder inst sn asid x y tid => tid_ok tid /\ 0 <= instAddr y /\
      (isReturn inst = true -> n <= 16) /\
      forall l, vget (predHist u) tid = Ok l -> Forall (fun q => seqNum q < sn) l
  | OCommit sn tid | OSquash sn tid => tid_ok tid
  | ORepair sn x taken tid => tid_ok tid /\
      forall l, vget (predHist u) tid = Ok l -> repairable sn l
  end.

Fixpoint run_uops (ops : list uop) (u : BPredUnit) : outcome BPredUnit :=
  match ops with
  | [] => Ok u
  | o :: ops => u ← run_uop o u; run_uops ops u
  end.
Fixpoint uops_ok (ops : list uop) (u : BPredUnit) : Prop :=
  match ops with
  | [] => True
  | o :: ops => uop_ok o u /\ forall u', run_uop o u = Ok u' -> uops_ok ops u'
  end.

Lemma run_uop_ok o u : uinv u -> uop_ok o u -> exists u', run_uop o u = Ok u' /\ uinv u'.
Proof.
  intros Hu Ho. destruct o as [inst sn x tid|inst sn asid x y tid|sn tid|sn tid|sn x t tid]; simpl in *.
  - destruct Ho as (Ht & Hx & Hl). destruct (hist_at u tid Hu Ht) as (l & El & _).
    destruct (ras_at u tid Hu Ht) as (r & Er & _).
    destruct (predict_spec inst sn x tid u l r Hu Ht El Er Hx (Hl l El))
      as (b & y & u' & rec & r' & -> & Hu' & _). eauto.
  - destruct Ho as (Ht & Hy & Hn & Hl).
    destruct (predictInOrder_ok inst sn asid x y tid u Hu Ht Hy Hn Hl) as (b & z & u' & -> & Hu'). eauto.
  - by apply commit_ok.
  - destruct (hist_at u tid Hu Ho) as (l & El & _).
    destruct (squash_unit_ok sn tid u l Hu Ho El) as (l' & u' & E & Hu' & _). eauto.
  - destruct Ho as (Ht & Hl). destruct (hist_at u tid Hu Ht) as (l & El & _).
    destruct (squash_repair_ok sn x t tid u l Hu Ht El (Hl l El)) as (u' & E & Hu' & _). eauto.
Qed.

Lemma run_uops_ok ops : forall u,
  uinv u -> uops_ok ops u -> exists u', run_uops ops u = Ok u' /\ uinv u'.
Proof.
  induction ops as [|o ops IH]; intros u Hu Ho; simpl in *; [eauto|]. destruct Ho as [Ho Hops].
  destruct (run_uop_ok o u Hu Ho) as (u1 & E & Hu1). rewrite E. cbn [mbind outcome_bind].
  apply IH; [done|]. by apply Hops.
Qed.

Lemma unit_new_inv d :
  0 <= k < 32 -> 0 <= tb < 31 -> 0 <= s -> s + k < 64 -> n < 2 ^ 32 -> dp_wf d ->
  exists u, BPredUnit_new (Z.of_nat nt) (2 ^ k) tb s n d = Ok u /\ uinv u.
Proof.
  intros Hk Htb Hs Hsk Hn Hd. unfold BPredUnit_new. rewrite Nat2Z.id.
  destruct (DefaultBTB.DefaultBTB_new (pc_of 0) (2 ^ k) tb s) as [b|e] eqn:Eb.
  - cbn [mbind outcome_bind]. eexists. split; [reflexivity|]. split; simpl; try done.
    + exists []. by eapply DefaultBTB.btb_new_holds.
    + by rewrite length_replicate.
    + by rewrite length_replicate.
    + apply Forall_replicate. split; [|done].
      destruct (ReturnAddrStack.init_refines pc_default pc_set0 n) as [H1 H2 H3 H4 _ _]; [lia|].
      split; try done. rewrite H4. simpl. lia.
    + apply Forall_replicate. constructor.
    + apply Forall_replicate. constructor.
  - exfalso. destruct (DefaultBTB.btb_new_ok (pc_of 0) k tb s Hk Htb) as [b Eb']. congruence.
Qed.

(** ** Undoing a speculated path *)

(** The two stacks have the same top index and the same [m] topmost entries. *)
Definition agree (m : Z) (r r' : ReturnAddrStack.RAS (PC := PC)) : Prop :=
  ReturnAddrStack.tos r' = ReturnAddrStack.tos r /\
  forall j, Z.of_nat j < m -> ReturnAddrStack.below r' j = ReturnAddrStack.below r j.

Lemma agree_mono m m' r r' : m' <= m -> agree m r r' -> agree m' r r'.
Proof. intros Hm [H1 H2]. split; [done|]. intros j Hj. apply H2. lia. Qed.

Lemma below_pop r j :
  stack_ok r -> ReturnAddrStack.below (ReturnAddrStack.pop r) j = ReturnAddrStack.below r (S j).
Proof.
  intros [Hr Hn]. destruct (ReturnAddrStack.pop_shape r Hr) as (_ & Et & Ea & En).
  unfold ReturnAddrStack.below. rewrite Et, Ea, En, Zminus_mod_idemp_l. do 3 f_equal. lia.
Qed.

Lemma mod_sub_ne (a j : Z) : 0 < j < n -> (a - j) mod n <> a mod n.
Proof.
  intros Hj E. assert ((a - (a - j)) mod n = 0) as E2.
  { rewrite Zminus_mod, E, Z.sub_diag. apply Z.mod_0_l. lia. }
  replace (a - (a - j)) with j in E2 by lia. rewrite Z.mod_small in E2; lia.
Qed.

(** An entry other than the top one is not the one written at the top. *)
Lemma below_write (v : list PC) t x (j : nat) :
  0 < Z.of_nat j < n ->
  <[Z.to_nat (t mod n) := x]> v !! Z.to_nat ((t mod n - Z.of_nat j) mod n) =
    v !! Z.to_nat ((t - Z.of_nat j) mod n).
Proof.
  intros Hj. rewrite Zminus_mod_idemp_l. apply list_lookup_insert_ne.
  pose proof (mod_sub_ne t (Z.of_nat j) Hj).
  pose proof (Z.mod_pos_bound t n n_pos). pose proof (Z.mod_pos_bound (t - Z.of_nat j) n n_pos). lia.
Qed.

Lemma below_push r r' x j :
  stack_ok r -> ReturnAddrStack.push x r = Ok r' -> Z.of_nat (S j) < n ->
  ReturnAddrStack.below r' (S j) = ReturnAddrStack.below r j.
Proof.
  intros [Hr Hn] E Hj. destruct (ReturnAddrStack.push_shape r x Hr) as (r1 & E1 & _ & Et & Ea & En).
  assert (r1 = r') as -> by congruence. unfold ReturnAddrStack.below. rewrite Et, Ea, En, Hn.
  rewrite below_write by lia. do 3 f_equal. lia.
Qed.

Lemma push_stack_ok r r' x : stack_ok r -> ReturnAddrStack.push x r = Ok r' ->
  stack_ok r' /\ ReturnAddrStack.tos r' = (ReturnAddrStack.tos r + 1) mod n.
Proof.
  intros [Hr Hn] E. destruct (ReturnAddrStack.push_shape r x Hr) as (r1 & E1 & Ho & Et & Ea & En).
  assert (r1 = r') as -> by congruence. rewrite Hn in *. done.
Qed.

Lemma pop_stack_ok r : stack_ok r ->
  stack_ok (ReturnAddrStack.pop r) /\
  ReturnAddrStack.tos (ReturnAddrStack.pop r) = (ReturnAddrStack.tos r - 1) mod n.
Proof.
  intros [Hr Hn]. destruct (ReturnAddrStack.pop_shape r Hr) as (Ho & Et & Ea & En).
  rewrite Hn in *. done.
Qed.

Lemma tos_range r : stack_ok r -> 0 <= ReturnAddrStack.tos r < n.
Proof. intros [[] <-]. done. Qed.

(** The stack after undoing one prediction, [r1'] being the stack after the
    undoing of everything younger. *)
Lemma effect_undone call rec r r1 r1' m :
  stack_ok r -> stack_ok r1' -> ras_effect call rec r r1 -> agree m r1 r1' -> m <= n ->
  exists r', stack_ok r' /\ agree (m - if call then 1 else 0) r r' /\
    (if h_usedRAS rec then ReturnAddrStack.restore (RASIndex rec) (RASTarget rec) r1' = Ok r'
     else if wasCall rec && pushedRAS rec then r' = ReturnAddrStack.pop r1'
     else r' = r1').
Proof.
  intros Hr Hr1' He [Ha1 Ha2] Hm. pose proof (tos_range r Hr) as Ht.
  destruct He as [Hu Hi Hx | x r1 Hcall Hu Hc Hp | Hu Hc | x r1 Hcall Hu Hc Hp]; rewrite Hu.
  - destruct Hr1' as [Hok' Hn']. rewrite Hi.
    destruct (ReturnAddrStack.restore_shape r1' (ReturnAddrStack.tos r) (RASTarget rec) Hok')
      as (r' & E & Ho & Et & Ea & En); [lia|]. exists r'. split; [split; [done|by rewrite En]|].
    split; [|done]. split; [done|]. intros [|j] Hj.
    + rewrite Hx. unfold ReturnAddrStack.below. rewrite Et, Ea, En, Z.sub_0_r, Hn', Z.mod_small by lia.
      apply list_lookup_insert_eq. destruct Hok'. lia.
    + rewrite <- (below_pop r), <- Ha2 by (done || (destruct call; lia)).
      destruct (pop_stack_ok r Hr) as [_ Ep]. unfold ReturnAddrStack.below.
      rewrite Et, Ea, En, Hn', Ha1, Ep. rewrite <- (Z.mod_small (ReturnAddrStack.tos r) n) at 1 2 by lia.
      rewrite below_write by (destruct call; lia). rewrite Zminus_mod_idemp_l. do 3 f_equal. lia.
  - rewrite Hc. exists (ReturnAddrStack.pop r1'). destruct (pop_stack_ok r1' Hr1') as [Ho Et].
    destruct (push_stack_ok r r1 x Hr Hp) as [Ho1 Et1]. split; [done|]. split; [|done]. split.
    + rewrite Et, Ha1, Et1, Zminus_mod_idemp_l. rewrite Z.add_simpl_r. apply Z.mod_small. lia.
    + intros j Hj. rewrite Hcall in Hj. rewrite below_pop, Ha2 by (done || lia).
      apply (below_push r r1 x); [done|done|lia].
  - rewrite Hc. exists r1'. split; [done|]. split; [|done]. split; [done|].
    intros j Hj. apply Ha2. destruct call; lia.
  - rewrite Hc. exists r1'. destruct (push_stack_ok r r1 x Hr Hp) as [Ho1 Et1].
    destruct (pop_stack_ok r1 Ho1) as [_ Et2]. split; [done|]. split; [|done]. split.
    + rewrite Ha1, Et2, Et1, Zminus_mod_idemp_l, Z.add_simpl_r. apply Z.mod_small. lia.
    + intros j Hj. rewrite Hcall in Hj. rewrite Ha2, below_pop by (done || lia).
      apply (below_push r r1 x); [done|done|lia].
Qed.

(** A path of predictions on one thread, with growing sequence numbers. *)
Fixpoint predicts (tid : Z) (ps : list (StaticInst * Z * PC)) (u : BPredUnit) : outcome BPredUnit :=
  match ps with
  | [] => Ok u
  | (inst, sn, x) :: ps => '(_, _, u) ← predict inst sn x tid u; predicts tid ps u
  end.
Fixpoint growing (b : Z) (ps : list (StaticInst * Z * PC)) : Prop :=
  match ps with
  | [] => True
  | (inst, sn, x) :: ps => b < sn /\ 0 <= instAddr x /\ growing sn ps
  end.
Fixpoint calls (ps : list (StaticInst * Z * PC)) : Z :=
  match ps with
  | [] => 0
  | (inst, _, _) :: ps => (if isCall inst then 1 else 0) + calls ps
  end.

Lemma calls_nonneg ps : 0 <= calls ps.
Proof. induction ps as [|[[inst sn] x] ps IH]; simpl; [lia|]. destruct (isCall inst); lia. Qed.

(** One step of the squash loop over the record of a prediction. *)
Lemma squash_step lo tid rec l u r r1 r1' call m :
  uinv u -> tid_ok tid -> rec_ok rec -> lo < seqNum rec -> stack_ok r ->
  vget (RAS u) tid = Ok r1' -> ras_effect call rec r r1 -> agree m r1 r1' -> m <= n ->
  exists u' r', squash_loop lo tid (rec :: l) u = squash_loop lo tid l u' /\ uinv u' /\
    predHist u' = predHist u /\ vget (RAS u') tid = Ok r' /\ agree (m - if call then 1 else 0) r r'.
Proof.
  intros Hu Ht Hrec Hlo Hs E He Ha Hm.
  assert (stack_ok r1') as Hs1.
  { destruct (ras_at u tid Hu Ht) as (x & Ex & Hx). congruence. }
  destruct (effect_undone call rec r r1 r1' m Hs Hs1 He Ha Hm) as (r' & Hs' & Ha' & Er).
  assert (exists u1, undo tid rec u = Ok u1 /\ uinv u1 /\ predHist u1 = predHist u /\
    vget (RAS u1) tid = Ok r') as (u1 & E1 & Hu1 & Eh & Er').
  { unfold undo. destruct (h_usedRAS rec).
    - destruct (ras_restore_ok u tid r1' (RASIndex rec) (RASTarget rec) Hu Ht E Hs1 ltac:(apply Hrec))
        as (r2 & Er2 & _ & E2 & Hu2). assert (r2 = r') as -> by congruence.
      eexists. split; [exact E2|]. split_and!; try done. by eapply vget_insert_same.
    - destruct (wasCall rec && pushedRAS rec); [|subst r'; by exists u]. subst r'.
      destruct (ras_pop_ok u tid r1' Hu Ht E Hs1) as [E2 Hu2].
      eexists. split; [exact E2|]. split_and!; try done. by eapply vget_insert_same. }
  destruct (dp_squash_ok (bpHistory rec) (dir u1) (ui_dir u1 Hu1) (proj1 Hrec)) as (d & Ed & Hd).
  exists (u1 <| dir := d |>), r'. split_and!; try done; [|by apply set_dir_ok].
  cbn [squash_loop]. rewrite Z.gtb_ltb, (proj2 (Z.ltb_lt lo _)) by done. rewrite E1.
  cbn [mbind outcome_bind]. by rewrite Ed.
Qed.

Lemma predicts_undone lo tid ps : forall b u l r,
  uinv u -> tid_ok tid -> vget (predHist u) tid = Ok l -> vget (RAS u) tid = Ok r ->
  lo <= b -> Forall (fun q => seqNum q <= b) l -> growing b ps ->
  exists u1 recs u' r', predicts tid ps u = Ok u1 /\ uinv u1 /\
    vget (predHist u1) tid = Ok (recs ++ l) /\
    squash_loop lo tid (recs ++ l) u1 = squash_loop lo tid l u' /\ uinv u' /\
    vget (RAS u') tid = Ok r' /\ agree (n - calls ps) r r'.
Proof.
  induction ps as [|[[inst sn] x] ps IH]; intros b u l r Hu Ht El Er Hlo Hl Hg.
  { exists u, [], u, r. split_and!; try done. }
  destruct Hg as (Hsn & Hx & Hg). cbn [predicts calls].
  destruct (predict_spec inst sn x tid u l r Hu Ht El Er Hx) as
    (p & y & u1 & rec & r1 & -> & Hu1 & _ & Eh & Era & Eseq & Heff).
  { eapply Forall_impl; [exact Hl|]. simpl. lia. }
  cbn [mbind outcome_bind].
  assert (vget (predHist u1) tid = Ok (rec :: l)) as El1 by (rewrite Eh; by eapply vget_insert_same).
  assert (vget (RAS u1) tid = Ok r1) as Er1 by (rewrite Era; by eapply vget_insert_same).
  destruct (IH sn u1 (rec :: l) r1 Hu1 Ht El1 Er1 ltac:(lia)) as
    (u2 & recs & u3 & r3 & E2 & Hu2 & El2 & Esq & Hu3 & Er3 & Ha); [|done|].
  { constructor; [lia|]. eapply Forall_impl; [exact Hl|]. simpl. lia. }
  destruct (hist_at u1 tid Hu1 Ht) as (l1 & El1' & Hrecs & _). assert (l1 = rec :: l) as -> by congruence.
  inversion Hrecs as [|? ? Hrec _]; subst.
  destruct (ras_at u tid Hu Ht) as (r0 & Er0 & Hs). assert (r0 = r) as -> by congruence.
  pose proof (calls_nonneg ps).
  destruct (squash_step lo tid rec l u3 r r1 r3 (isCall inst) (n - calls ps) Hu3 Ht Hrec ltac:(lia) Hs Er3
    Heff Ha ltac:(lia)) as (u4 & r4 & Eq & Hu4 & _ & Er4 & Ha4).
  exists u2, (recs ++ [rec]), u4, r4.
  replace ((recs ++ [rec]) ++ l) with (recs ++ rec :: l) by (by rewrite <- app_assoc). split_and!; try done.
  - by rewrite Esq, Eq.
  - eapply agree_mono; [|exact Ha4]. lia.
Qed.

End invariant.

(** With a deeper stack the assertion of [predictInOrder] fails for a return
    whose stack has its top at 16 or above. *)
Lemma predictInOrder_deep_stack `{!DirPredOk P H} k tb s n nt inst sn asid x y tid u r :
  uinv k tb s n nt u -> tid_ok nt tid -> 0 <= instAddr y -> isUncondCtrl inst = true -> isReturn inst = true ->
  vget (RAS u) tid = Ok r -> ReturnAddrStack.empty r = false -> 16 <= ReturnAddrStack.tos r ->
  predictInOrder inst sn asid x y tid u = Fail AssertFailed.
Proof.
  intros Hu Ht Hy Hi Hr Er Hne Htos. unfold predictInOrder. set (u0 := u <| lookups ::= Z.add 1 |>).
  assert (uinv k tb s n nt u0) as Hu0 by (by apply (uinv_stats k tb s n nt u)).
  destruct (direction_ok k tb s n nt inst (instAddr x) (instAddr y) u0 Hu0 Hy)
    as (t & h & u1 & -> & _ & Hu1 & E1 & _). cbn [mbind outcome_bind].
  rewrite Hi, Hr, E1. change (RAS u0) with (RAS u). rewrite Er. cbn [andb mbind outcome_bind]. rewrite Hne. cbn [negb mbind outcome_bind].
  unfold predict_return. change (RAS (u1 <| usedRAS ::= Z.add 1 |>)) with (RAS u1). rewrite E1.
  change (RAS u0) with (RAS u). rewrite Er. cbn [mbind outcome_bind].
  assert (stack_ok n r) as Hs. { destruct (ras_at k tb s n nt u tid Hu Ht) as (r0 & E & ?). congruence. }
  destruct (ReturnAddrStack.top_shape r (proj1 Hs)) as (z & -> & _). cbn [mbind outcome_bind].
  destruct (ras_pop_ok k tb s n nt (u1 <| usedRAS ::= Z.add 1 |>) tid r) as [-> _]; try done.
  { by apply (uinv_stats k tb s n nt u1). }
  { change (RAS (u1 <| usedRAS ::= Z.add 1 |>)) with (RAS u1). by rewrite E1. }
  cbn [mbind outcome_bind]. simpl. unfold ReturnAddrStack.topIdx. by rewrite (proj2 (Z.ltb_ge _ _)) by lia.
Qed.

(** C35: a branch prediction unit built with any direction predictor that
    keeps its interface never fails: on every sequence of predictions by
    either entry point, commits, squashes and misprediction repairs on its
    threads no assertion fails, no table, stack or history is accessed out of
    range and no null history is used; the records in flight stay ordered,
    youngest first. Sequence numbers grow, addresses are not negative, repairs
    are for branches in flight, and [predictInOrder] is used for returns only
    when the stacks have at most 16 entries: it asserts an index below 16
    ([predictInOrder_deep_stack]). *)
Theorem bpred_unit_safe `{!DirPredOk P H} k tb s n nt d ops :
  0 <= k < 32 -> 0 <= tb < 31 -> 0 <= s -> s + k < 64 -> 0 < n < 2 ^ 32 -> dp_wf d ->
  exists u, BPredUnit_new (Z.of_nat nt) (2 ^ k) tb s n d = Ok u /\
    (uops_ok n nt ops u -> exists u', run_uops ops u = Ok u' /\
       Forall (StronglySorted younger) (predHist u')).
Proof.
  intros Hk Htb Hs Hsk Hn Hd.
  destruct (unit_new_inv k tb s n nt ltac:(lia) d) as (u & E & Hu); try lia; [done|].
  exists u. split; [done|]. intros Ho.
  destruct (run_uops_ok k tb s n nt ltac:(lia) ops u Hu Ho) as (u' & E' & Hu').
  exists u'. split; [done|]. apply Hu'.
Qed.

(** C36: squashing a speculated path puts the return address stack back: after
    any number of predictions on a thread, a squash to the point before them
    removes exactly their records and restores the top index and the topmost
    entries of the thread's stack, all but one per call on the path, however
    calls and returns alternate. *)
Theorem bpred_squash_restores_stack `{!DirPredOk P H} k tb s n nt lo tid ps u l r :
  0 < n -> uinv k tb s n nt u -> tid_ok nt tid ->
  vget (predHist u) tid = Ok l -> vget (RAS u) tid = Ok r ->
  Forall (fun q => seqNum q <= lo) l -> growing lo ps ->
  exists u1 u2 r', predicts tid ps u = Ok u1 /\ squash lo tid u1 = Ok u2 /\
    vget (predHist u2) tid = Ok l /\ vget (RAS u2) tid = Ok r' /\ agree (n - calls ps) r r'.
Proof.
  intros Hn Hu Ht El Er Hl Hg.
  destruct (predicts_undone k tb s n nt Hn lo tid ps lo u l r Hu Ht El Er ltac:(lia) Hl Hg)
    as (u1 & recs & u' & r' & E1 & Hu1 & El1 & Esq & Hu' & Er' & Ha).
  exists u1. destruct (hist_at k tb s n nt u tid Hu Ht) as (l0 & El0 & Hrec & Hs).
  assert (l0 = l) as -> by congruence.
  destruct (set_hist_ok k tb s n nt u' tid l Hu' Ht Hrec Hs) as [Eset _].
  eexists. exists r'. split; [done|]. unfold squash. rewrite El1. cbn [mbind outcome_bind].
  rewrite Esq, squash_none by done. cbn [mbind outcome_bind]. rewrite Eset. split; [reflexivity|].
  split_and!; try done. destruct (hist_at k tb s n nt u' tid Hu' Ht) as (l' & El' & _).
  simpl. by eapply vget_insert_same.
Qed.

Lemma head_gone k tb s n nt (Hdir : DirPredOk P H) sn tid u q l :
  uinv k tb s n nt u -> tid_ok nt tid -> vget (predHist u) tid = Ok (q :: l) -> seqNum q = sn ->
  Forall (fun x => seqNum x <= sn - 1) l.
Proof.
  intros Hu Ht E Hq. destruct (hist_at k tb s n nt u tid Hu Ht) as (l0 & E0 & _ & Hs).
  assert (l0 = q :: l) as -> by congruence. inversion Hs as [|? ? _ Hy]; subst.
  eapply Forall_impl; [exact Hy|]. unfold younger. lia.
Qed.

(** A conditional return that was predicted not taken and turns out taken
    is repaired by popping the stack and marking the record as a use of the
    stack, but without recording what was popped. If an older branch then
    squashes it, the stack is restored from the record's initial values: the
    top index and the top entry become those of the record, not those before
    the return. *)
Theorem bpred_repaired_return_clobbers_stack `{!DirPredOk P H} k tb s n nt sn x tid u q l :
  0 < n -> uinv k tb s n nt u -> tid_ok nt tid -> vget (predHist u) tid = Ok (q :: l) ->
  seqNum q = sn -> wasReturn q = true -> h_usedRAS q = false ->
  exists u1 u2 r', squash_repair sn x true tid u = Ok u1 /\ squash (sn - 1) tid u1 = Ok u2 /\
    vget (predHist u2) tid = Ok l /\ vget (RAS u2) tid = Ok r' /\
    ReturnAddrStack.tos r' = RASIndex q /\ ReturnAddrStack.top r' = Ok (RASTarget q).
Proof.
  intros Hn Hu Ht El Hsn Hret Hnu.
  destruct (squash_repair_ok k tb s n nt sn x true tid u (q :: l) Hu Ht El) as (u1 & E1 & Hu1 & Hf).
  { left. exists q. split; [by left|done]. }
  destruct (Hf q l eq_refl Hsn) as (q' & El1 & Eseq & Ei & Et & Eused).
  rewrite <- Ei, <- Et. exists u1. destruct (squash_used k tb s n nt (sn - 1) tid q' l u1 Hu1 Ht El1)
    as (u2 & r' & E2 & H2); [lia| |by rewrite Eused, Hnu, Hret|].
  - by apply (head_gone k tb s n nt _ sn tid u q l Hu Ht El).
  - by exists u2, r'.
Qed.

(** A conditional branch that the direction predictor takes but whose
    target is not in the buffer is predicted not taken, while its record keeps
    the direction predictor's answer: when the branch commits without a
    misprediction, that is when it was not taken, the direction predictor is
    trained with a taken branch. *)
Theorem bpred_btb_miss_trains_taken inst sn x tid u r h d d' d'' :
  isUncondCtrl inst = false -> isReturn inst = false -> isCall inst = false ->
  vget (predHist u) tid = Ok [] -> vget (RAS u) tid = Ok r ->
  dp_lookup (instAddr x) None (dir u) = Ok (true, h, d) ->
  DefaultBTB.valid (instAddr x) tid (BTB u) = Ok false ->
  dp_btbUpdate (instAddr x) h d = Ok d' ->
  dp_update (instAddr x) true h false d' = Ok d'' ->
  exists u1 u2, predict inst sn x tid u = Ok (false, advancePC inst x, u1) /\
    update sn tid u1 = Ok u2 /\ dir u2 = d''.
Proof.
  intros Hu Hr Hc El Er Elook Ebtb Emiss Eupd. unfold predict, predict_direction. rewrite Hu.
  change (dir (u <| lookups ::= Z.add 1 |> <| condPredicted ::= Z.add 1 |>)) with (dir u).
  rewrite Elook. cbn [mbind outcome_bind].
  unfold predict_target, predict_call, predict_miss. rewrite Hr, Hc. cbn [mbind outcome_bind].
  match goal with |- context [DefaultBTB.valid _ _ (BTB ?v)] => change (BTB v) with (BTB u) end.
  rewrite Ebtb. cbn [mbind outcome_bind negb andb].
  match goal with |- context [dp_btbUpdate _ ?a ?b] => change a with h; change b with d end.
  rewrite Emiss. cbn [mbind outcome_bind].
  match goal with |- context [vget (predHist ?v) tid] => change (predHist v) with (predHist u) end.
  rewrite El. cbn [mbind outcome_bind]. unfold set_hist.
  match goal with |- context [vset (predHist ?v) tid] => change (predHist v) with (predHist u) end.
  pose proof (proj1 (vget_ok _ _ _) El) as [Ht Hl]. pose proof (lookup_lt_Some _ _ _ Hl).
  rewrite vset_lt by lia. cbn [mbind outcome_bind]. eexists. eexists. split; [reflexivity|].
  unfold update. simpl predHist. rewrite (vget_insert_same _ _ _ _ El). cbn [mbind outcome_bind rev app].
  cbn [update_loop seqNum PredictorHistory_new]. rewrite (proj2 (Z.leb_le sn sn)) by lia.
  cbn [wasSquashed pc predTaken bpHistory PredictorHistory_new negb dir]. simpl dir. rewrite Eupd.
  cbn [mbind outcome_bind update_loop rev]. unfold set_hist. simpl predHist.
  rewrite vset_lt by (rewrite length_insert; lia). split; reflexivity.
Qed.

End unit.

(** ** A concrete unit *)

(** Program counters are addresses and the next instruction is 4 bytes on. *)
#[local] Instance example_isa : ISA Z := {
  instAddr x := x; pc_default := 0; pc_of x := x; pc_set0 _ := 0; buildRetPC _ x := x + 4;
}.
Definition example_branch (uncond ret call : bool) : StaticInst (PC := Z) :=
  MkStaticInst uncond ret call false (Z.add 4) (fun x => x).
Definition example_dir : LocalBP.LocalBP :=
  LocalBP.MkLocalBP 4 2 2 1 2 [SatCounter.MkSatCounter 0 3 2; SatCounter.MkSatCounter 0 3 0].
Definition example_unit (d : LocalBP.LocalBP) : BPredUnit (PC := Z) (P := LocalBP.LocalBP) (H := Empty_set) :=
  match BPredUnit_new 1 4 2 2 2 d with
  | Ok u => u
  | Fail _ => MkBPredUnit 0 [] (DefaultBTB.MkBTB [] 0 0 0 0 0 0) [] d 0 0 0 0 0 0 0
  end.

Lemma example_dir_wf : LocalBP.wf example_dir.
Proof.
  split; simpl; try done; [by exists 1|].
  repeat constructor; simpl; lia.
Qed.

Lemma example_unit_inv : uinv (H := Empty_set) 2 2 2 2 1 (example_unit example_dir).
Proof.
  destruct (unit_new_inv (H := Empty_set) 2 2 2 2 1 ltac:(lia) example_dir) as (u & E & Hu); try lia.
  - exact example_dir_wf.
  - unfold example_unit. change 1 with (Z.of_nat 1). change 4 with (2 ^ 2). by rewrite E.
Qed.

Lemma bpred_unit_safe_witness :
  exists u u', BPredUnit_new 1 4 2 2 2 example_dir = Ok u /\
    run_uops [OPredict (example_branch true false true) 1 8 0; OPredictInOrder (example_branch true true false) 2 0 16 16 0;
      OCommit 2 0] u = Ok u' /\
    Forall (StronglySorted younger) (predHist u').
Proof.
  destruct (bpred_unit_safe (H := Empty_set) 2 2 2 2 1 example_dir
    [OPredict (example_branch true false true) 1 8 0; OPredictInOrder (example_branch true true false) 2 0 16 16 0;
     OCommit 2 0]) as (u & E & Hrun); try lia.
  - exact example_dir_wf.
  - destruct Hrun as (u' & E' & Hs).
    + vm_compute in E. injection E as <-. split.
      * split; [split; vm_compute; congruence|]. split; [vm_compute; congruence|].
        intros l [= <-]. constructor.
      * intros u' E1. vm_compute in E1. injection E1 as <-. split.
        -- split; [split; vm_compute; congruence|]. split; [vm_compute; congruence|]. split; [lia|].
           intros l [= <-]. repeat constructor.
        -- intros u' _. split; [split; vm_compute; congruence|]. done.
    + exists u, u'. done.
Defined.

Lemma bpred_squash_restores_stack_witness :
  exists u1 u2 r', predicts 0 [(example_branch true false true, 1, 8); (example_branch true true false, 2, 16)]
      (example_unit example_dir) = Ok u1 /\
    squash 0 0 u1 = Ok u2 /\ vget (RAS u2) 0 = Ok r' /\
    agree 1 (ReturnAddrStack.init 0 (fun _ => 0) 2) r'.
Proof.
  destruct (bpred_squash_restores_stack (H := Empty_set) 2 2 2 2 1 0 0
    [(example_branch true false true, 1, 8); (example_branch true true false, 2, 16)]
    (example_unit example_dir) [] (ReturnAddrStack.init 0 (fun _ => 0) 2)) as (u1 & u2 & r' & H1 & H2 & _ & H3 & H4).
  - lia.
  - exact example_unit_inv.
  - split; vm_compute; congruence.
  - reflexivity.
  - reflexivity.
  - constructor.
  - repeat split; vm_compute; congruence.
  - exists u1, u2, r'. done.
Defined.

Lemma bpred_repaired_return_clobbers_stack_witness :
  exists u1 u2 u3 u4 r, predict (example_branch true false true) 1 8 0 (example_unit example_dir) = Ok (false, 12, u1) /\
    predict (example_branch false true false) 2 20 0 u1 = Ok (false, 24, u2) /\
    squash_repair 2 12 true 0 u2 = Ok u3 /\ squash 1 0 u3 = Ok u4 /\
    vget (RAS u4) 0 = Ok r /\ ReturnAddrStack.tos r = 0 /\ ReturnAddrStack.top r = Ok 0.
Proof.
  destruct (predict_spec (H := Empty_set) 2 2 2 2 1 ltac:(lia) (example_branch true false true) 1 8 0
    (example_unit example_dir) [] (ReturnAddrStack.init 0 (fun _ => 0) 2) example_unit_inv)
    as (b & y & u1 & rec & r1 & E1 & Hu1 & _ & Eh1 & Er1 & _);
    [split; vm_compute; congruence|reflexivity|reflexivity|vm_compute; congruence|constructor|].
  vm_compute in E1. injection E1 as <- <- <-. vm_compute in Eh1. injection Eh1 as <-.
  destruct (predict_spec (H := Empty_set) 2 2 2 2 1 ltac:(lia) (example_branch false true false) 2 20 0
    _ _ _ Hu1 ltac:(split; vm_compute; congruence) eq_refl eq_refl)
    as (b & y & u2 & rec & r2 & E2 & Hu2 & _ & Eh2 & _ & _);
    [vm_compute; congruence|repeat constructor; vm_compute; congruence|].
  vm_compute in E2. injection E2 as <- <- <-. vm_compute in Eh2. injection Eh2 as <-.
  destruct (bpred_repaired_return_clobbers_stack (H := Empty_set) 2 2 2 2 1 2 12 0 _ _ _ ltac:(lia) Hu2
    ltac:(split; vm_compute; congruence) eq_refl eq_refl eq_refl eq_refl)
    as (u3 & u4 & r & E3 & E4 & _ & E5 & E6 & E7).
  do 2 eexists. exists u3, u4, r. split; [reflexivity|]. split; [reflexivity|]. done.
Defined.

Lemma bpred_btb_miss_trains_taken_witness :
  exists u1 u2, predict (example_branch false false false) 1 8 0 (example_unit example_dir) = Ok (false, 12, u1) /\
    update 1 0 u1 = Ok u2 /\
    LocalBP.localCtrs (dir u2) = [SatCounter.MkSatCounter 0 3 3; SatCounter.MkSatCounter 0 3 0].
Proof.
  edestruct (bpred_btb_miss_trains_taken (example_branch false false false) 1 8 0 (example_unit example_dir))
    as (u1 & u2 & E1 & E2 & E3); try reflexivity.
  exists u1, u2. split; [exact E1|]. split; [exact E2|]. rewrite E3. reflexivity.
Defined.

End BPredUnit.
